(* ===== verification/_CoqProject ===== *)
-Q . S2P
Prelude.v
Bytes.v
Kvdb.v
KvdbLaws.v
SyncedPool.v
KvdbSpec.v
Pos.v
Event.v
Serializer.v
Vector.v
VecStore.v
VecIndex.v
Dag.v
VecInv.v
VecMerge.v
VecWalk.v
VecAdd.v
ForklessCause.v
VecSpec.v
VecExample.v
MedianTime.v
VecMerged.v
EventCheck.v
Election.v
ElectionSafety.v
ElectionYes.v
PosetStore.v
Poset.v
PosetOrder.v
PosetConfirm.v
PosetRoots.v
PosetNode.v
PosetElect.v
PosetDecide.v
PosetRun.v
PosetAgree.v
NodeExample.v
EventBuffer.v
Shuffle.v
OccurredTxs.v
Parents.v
Emitter.v
EmitterSpec.v
EmitterEvent.v
SfcStore.v
Sfc.v
SfcSim.v
SfcSeal.v
StateTransition.v
TransitionSpec.v
App.v
AppSim.v
AppScores.v
AppVoting.v
TempDbs.v
Gossip.v
GossipSpec.v
GossipHeads.v
GossipExample.v
PacksDl.v
PacksSpec.v
Fetcher.v
Heap.v
TxList.v
TxListSpec.v
TxPriced.v
TxPool.v
TxPoolInv.v
TxPoolSpec.v
TxPoolReorg.v
TxPoolLimits.v
TxPoolRun.v
TxPoolSteps.v
Peer.v
PeerSpec.v
Handler.v
HandlerSpec.v
TxSync.v
TopicsDb.v
TopicsFind.v
