(* ===== verification/Prelude.v ===== *)
(** * Lachesis consensus: a verification library

    The repository (go, under src/) is a node of the Lachesis aBFT consensus
    with an EVM application and a proof-of-stake contract.  Events form a DAG;
    every node connects the same events in some causal order and computes from
    the DAG alone which blocks are final.

    ** The program and its parts

    An event arrives through gossip/handler.go, is fetched when it was only
    announced (gossip/fetcher, gossip/packsdownloader), is checked (eventcheck/),
    waits for its parents (gossip/ordering), and is given to the consensus:
    vector/ indexes it by vector clocks, poset/ computes its frame, feeds the
    election of poset/election, and for each decided frame makes a block.  The
    service (gossip/consensus_callbacks.go) executes the block through app/
    over evmcore/, which also mirrors the SFC contract, and may seal the epoch.
    The emitter (gossip/emitter.go) builds the node's own events from the pool of
    transactions (evmcore/tx_pool.go).  Everything is kept in kvdb/ stores that are
    flushed together.

    ** Conventions

    A function that may panic or stop the process has its result in [go]
    (below): [Ret] or [Fault].  Error values are ordinary results.  A uint8,
    uint32, uint64, int64 is a [Z] with [u8], [u32], [u64], [i64] where the code
    can wrap around; a big.Int is a plain [Z].  Maps are [gmap]s; the order in
    which Go ranges over a map is a parameter wherever it can matter.  A loop
    that is not structural has a fuel, and returns [Fault OutOfFuel] without it:
    the theorems say that the runs return, so the fuel given is enough.
    Libraries outside src/ (go-ethereum, the LRU caches, Keccak, SHA-256, RLP) are
    parameters with their documented behaviour as named laws (classes such as
    [LruLaws], section hypotheses such as [Nonce_u64]); each such group has a
    concrete instance at which the theorems are applied.  Locks, metrics,
    tracing and logging are left out everywhere.

    ** Files, in the order of dependency

    Stores.  [Bytes]: encodings (common/, inter/idx).  [Kvdb], [KvdbLaws],
    [KvdbSpec]: the interface [Store] with [StoreLaws], the memory database,
    Flushable and Table, the wrappers, and the refinement of Flushable by a pair of
    maps.  [SyncedPool]: the flush of several databases over a disk that may stop
    at any write.  [TempDbs]: the ring of the epochs' databases.

    Data.  [Pos]: validators, stakes, quorums (inter/pos).  [Event], [Serializer]:
    events, their sets and hashes, and the binary format of headers (inter/, hash/,
    utils/fast).

    Vector clock index (vector/).  [Vector], [VecStore]: byte vectors and the tables
    with their caches, behind [VecStoreLaws].  [VecIndex]: the operations.  [Dag]: the
    reference graph.  [VecInv], [VecMerge], [VecWalk], [VecAdd]: the invariant
    and that connecting an event keeps it.  [ForklessCause], [VecSpec],
    [VecMerged], [MedianTime]: the relation, the refinement of the index by the
    graph, the merged clock and the median time.  [VecExample]: a concrete index with
    a fork, and a slow reference by which the relation can be evaluated.

    Consensus (poset/).  [Election], [ElectionSafety], [ElectionYes]: the vote and that
    nodes agree on it, make progress and never fail.  [PosetStore], [Poset]: the store and all
    handlers.  [PosetOrder], [PosetConfirm], [PosetRoots], [PosetNode], [PosetElect],
    [PosetDecide], [PosetRun]: the parts of the invariant of a node.  [PosetAgree]: nodes as
    a state machine with restarts, and agreement of any two of them.
    [NodeExample]: concrete stores and nodes.

    Around the consensus.  [EventCheck]: the checks (eventcheck/).  [EventBuffer]: the
    ordering buffer.  [Parents], [Shuffle], [OccurredTxs], [Emitter], [EmitterSpec],
    [EmitterEvent]: what a validator emits and that others accept it.

    Application.  [SfcStore], [Sfc], [SfcSim], [SfcSeal]: the mirror of the staking
    contract over pointer caches, and the seal of an epoch.  [StateTransition],
    [TransitionSpec]: gas and transactions around the EVM (evmcore/).  [App], [AppSim],
    [AppScores], [AppVoting]: blocks, scores, proof of importance (app/).

    Service.  [Gossip], [GossipSpec], [GossipHeads], [GossipExample]: what
    gossip/ does with each event and block, heads and packs, the genesis.  [PacksDl],
    [PacksSpec], [Fetcher]: the downloaders as steps of their loops.

    Network (gossip/peer.go, handler.go, sync.go).  [Peer], [PeerSpec]: what a node keeps of
    a peer.  [Handler], [HandlerSpec]: the messages, the connections and the
    broadcasts, as a state machine.  [TxSync]: the transactions for a new peer.

    Transaction pool (evmcore/).  [Heap]: Go's container/heap with its contracts.  [TxList],
    [TxListSpec]: the nonce-sorted map and the lists of an account, and their
    refinement by sorted lists.  [TxPriced]: the index by hash and price and the
    virtual nonces.  [TxPool]: the pool, its reorganisation and its scheduler.
    [TxPoolInv]: its invariant, with transactions on their way between lists.
    [TxPoolSpec]: insertion and removal.  [TxPoolReorg]: promotion and demotion.
    [TxPoolLimits]: truncation and eviction.  [TxPoolRun]: a run of the
    reorganisation.  [TxPoolSteps]: the pool as a state machine.

    Log index (topicsdb/, gossip/filters/filter.go).  [TopicsDb]: the tables, both
    searches and the filters.  [TopicsFind]: what they find, and when the search with
    goroutines returns.

    ** What the theorems show

    Safety of the consensus: agreement of elections and nodes, forks never both
    forkless causes, quorums overlap, causal and deterministic block order,
    exact confirmation, increasing consensus times.  Liveness and termination:
    every reachable state takes the next event to the end, restarts recover,
    elections progress and never fail, the buffer delivers everything, the search
    for packs ends, a new peer gets the pending transactions, a search of the logs returns
    (unless an alternative is repeated) what a scan finds.  Crashes: a flush of
    several databases that stops anywhere is noticed at the next start, but for the drops before it.  Refinements: index and graph, Flushable and maps, poset store and
    data, epoch databases and a window, the pool's maps and sorted lists.
    Invariants: node, heads and packs, fetcher, seals, the pool, the peers.  Round trips, bounds and
    errors: the header format (and that its decoder accepts other encodings), the
    gas rate, the scores, that raised stakes of epoch 1 are lost by a restart, and the one panic that what peers send can
    lead the protocol manager to, the lookup of an event of a far epoch.  The
    findings of PROJECT.json name what the code does against its intention.

    ** Bounds and fuel

    Walks over the DAG (dfsSubgraph, confirmEvents) have the number of known events as
    fuel: an event is expanded once.  chooseAtropos and the loops of the election
    recurse on the validators.  Loops over heaps have the length of the heap, the
    walk of the pool back to a common block the number of the block, the binary search for packs 33
    rounds (32-bit numbers).  The loops that poll (fetcher, downloaders, scheduler of the pool)
    are steps, and the theorems are about any sequence of steps.

    ** Not modelled

    The start and stop of the goroutines, the p2p server and the pool of servers
    (gossip/service.go, serverpool.go): wiring of go-ethereum's network library.
    ethapi/, the subscriptions of the filters, cmd/: glue to the RPC and command line of go-ethereum.
    LevelDB: a wrapper of a library.  The RLP of stored values and of
    messages (the handlers start from decoded content), the EVM, the state trie,
    signatures: go-ethereum.  Receipts for the RPC (app/store_receipts.go), tests, generators, printers (inter/ascii_scheme.go),
    migrations, metrics, tracing and logging: no part of what a node decides. *)

From stdpp Require Export base tactics option list gmap strings sorting.
From Stdlib Require Export ZArith Lia.

(** ** Scopes and notations *)

Declare Scope lachesis_scope.
Delimit Scope lachesis_scope with lachesis.
Global Open Scope Z_scope.

(** A byte slice of the program.  Bytes are integers; the predicate
    [is_bytes] below says that each one is in the range of a [uint8]. *)
Abbreviation bytes := (list Z).

(** ** Fixed-width integers

    A w-bit integer is a [Z]; the conversions and the arithmetic that wraps
    around in Go are written out with the functions below. *)

Definition u8 (z : Z) : Z := z mod 256.
Definition u32 (z : Z) : Z := z mod 4294967296.
Definition u64 (z : Z) : Z := z mod 18446744073709551616.
Definition i64 (z : Z) : Z :=
  (z + 9223372036854775808) mod 18446744073709551616 - 9223372036854775808.

Definition is_u8 (z : Z) : Prop := 0 <= z < 256.
Definition is_u32 (z : Z) : Prop := 0 <= z < 4294967296.
Definition is_u64 (z : Z) : Prop := 0 <= z < 18446744073709551616.
Definition is_i64 (z : Z) : Prop :=
  -9223372036854775808 <= z < 9223372036854775808.

Definition is_bytes (l : bytes) : Prop := Forall is_u8 l.

(** [math.MaxInt32] and [math.MaxInt64]. *)
Definition MaxInt32 : Z := 2147483647.
Definition MaxInt64 : Z := 9223372036854775807.

#[global] Instance is_u8_dec z : Decision (is_u8 z).
Proof. unfold is_u8. apply _. Defined.
#[global] Instance is_u32_dec z : Decision (is_u32 z).
Proof. unfold is_u32. apply _. Defined.
#[global] Instance is_u64_dec z : Decision (is_u64 z).
Proof. unfold is_u64. apply _. Defined.

(** [zify] with the Euclidean equations of [mod] and [/], so that [word]
    decides the wrap-around goals of the components. *)
Ltac word_unfold :=
  unfold u8, u32, u64, i64, is_u8, is_u32, is_u64, is_i64, MaxInt32, MaxInt64 in *.
Ltac word := word_unfold; Z.to_euclidean_division_equations; lia.

Lemma u8_range z : is_u8 (u8 z).
Proof. word. Qed.
Lemma u32_range z : is_u32 (u32 z).
Proof. word. Qed.
Lemma u64_range z : is_u64 (u64 z).
Proof. word. Qed.
Lemma i64_range z : is_i64 (i64 z).
Proof. word. Qed.
Lemma u8_id z : is_u8 z -> u8 z = z.
Proof. word. Qed.
Lemma u32_id z : is_u32 z -> u32 z = z.
Proof. word. Qed.
Lemma u64_id z : is_u64 z -> u64 z = z.
Proof. word. Qed.
Lemma i64_id z : is_i64 z -> i64 z = z.
Proof. word. Qed.

Create HintDb words.
#[export] Hint Resolve u8_range u32_range u64_range i64_range : words.

(** ** Runs that may crash

    A Go function either returns or stops the process: a run-time panic
    (index out of range, nil dereference), an explicit [panic], or
    [Log.Crit], which logs and exits.  Error values that the code returns are
    not faults: they are ordinary results, of a sum type. *)

Inductive fault :=
  | IndexOutOfRange
  | NilDereference
  | PanicMsg (msg : string)
  | Crit (msg : string)
  | OutOfFuel.

Inductive go (A : Type) :=
  | Ret (a : A)
  | Fault (f : fault).
Arguments Ret {A} _.
Arguments Fault {A} _.

#[global] Instance fault_eq_dec : EqDecision fault.
Proof. solve_decision. Defined.
#[global] Instance go_ret : MRet go := fun A a => Ret a.
#[global] Instance go_bind : MBind go := fun A B k m =>
  match m with Ret a => k a | Fault f => Fault f end.
#[global] Instance go_fmap : FMap go := fun A B f m =>
  match m with Ret a => Ret (f a) | Fault e => Fault e end.

Definition returns {A} (m : go A) : Prop := exists a, m = Ret a.

Lemma go_bind_Ret {A B} (a : A) (k : A -> go B) : (Ret a ≫= k) = k a.
Proof. reflexivity. Qed.

Lemma go_bind_inv {A B} (m : go A) (k : A -> go B) (b : B) :
  (m ≫= k) = Ret b <-> exists a, m = Ret a /\ k a = Ret b.
Proof.
  split.
  - destruct m; simpl; [eauto | discriminate].
  - intros (a & -> & H). exact H.
Qed.

(** [go_inv H] splits a successful run [H : (x ← m; k) = Ret b] into its
    steps. *)
Ltac go_inv H :=
  repeat (apply go_bind_inv in H;
          let x := fresh "x" in let E := fresh "E" in destruct H as (x & E & H)).

(** Left fold in the fault monad: a Go [for _, x := range l] whose body may
    crash. *)
Fixpoint go_fold {A S} (f : S -> A -> go S) (s : S) (l : list A) : go S :=
  match l with
  | [] => Ret s
  | x :: l => f s x ≫= fun s' => go_fold f s' l
  end.

Lemma go_fold_app {A S} (f : S -> A -> go S) s l1 l2 :
  go_fold f s (l1 ++ l2) = go_fold f s l1 ≫= fun s' => go_fold f s' l2.
Proof.
  revert s. induction l1 as [|x l1 IH]; intros s; simpl; [done|].
  destruct (f s x); simpl; [apply IH|done].
Qed.

(** An invariant that every iteration keeps, and under which every iteration
    returns, holds at the end, and the loop returns. *)
Lemma go_fold_inv {A S} (f : S -> A -> go S) (I : list A -> S -> Prop) (l : list A) s :
  I [] s ->
  (forall done x rest s, l = done ++ x :: rest -> I done s ->
     exists s', f s x = Ret s' /\ I (done ++ [x]) s') ->
  exists s', go_fold f s l = Ret s' /\ I l s'.
Proof.
  intros H0 Hstep.
  assert (forall rest done s, l = done ++ rest -> I done s ->
            exists s', go_fold f s rest = Ret s' /\ I l s') as Hgen.
  { induction rest as [|x rest IH]; intros done s' El Hs'.
    - exists s'. rewrite app_nil_r in El. by subst.
    - destruct (Hstep _ _ _ _ El Hs') as (s2 & E2 & HI). simpl. rewrite E2. simpl.
      apply (IH (done ++ [x])); [by rewrite <-app_assoc|done]. }
  apply (Hgen l []); done.
Qed.

Lemma foldl_inv {A S} (f : S -> A -> S) (I : list A -> S -> Prop) (l : list A) s :
  I [] s ->
  (forall done x rest s, l = done ++ x :: rest -> I done s -> I (done ++ [x]) (f s x)) ->
  I l (foldl f s l).
Proof.
  intros H0 Hstep.
  assert (forall rest done s, l = done ++ rest -> I done s -> I l (foldl f s rest)) as Hgen.
  { induction rest as [|x rest IH]; intros done s' El Hs'; simpl.
    - rewrite app_nil_r in El. by subst.
    - apply (IH (done ++ [x])); [by rewrite <-app_assoc|]. eauto. }
  apply (Hgen l []); done.
Qed.

(** ** Slices indexed by machine integers *)

(** [l[i]], with the run-time check. *)
Definition slice_get {A} (l : list A) (i : Z) : option A :=
  if decide (0 <= i) then l !! Z.to_nat i else None.

Definition slice_at {A} (l : list A) (i : Z) : go A :=
  match slice_get l i with Some x => Ret x | None => Fault IndexOutOfRange end.

(** [l[i] = x], with the run-time check. *)
Definition slice_set {A} (l : list A) (i : Z) (x : A) : go (list A) :=
  match slice_get l i with
  | Some _ => Ret (<[Z.to_nat i := x]> l)
  | None => Fault IndexOutOfRange
  end.

Definition zlen {A} (l : list A) : Z := Z.of_nat (length l).

Lemma zlen_nonneg {A} (l : list A) : 0 <= zlen l.
Proof. unfold zlen. lia. Qed.

Lemma zlen_app {A} (l k : list A) : zlen (l ++ k) = zlen l + zlen k.
Proof. unfold zlen. rewrite length_app. lia. Qed.

Lemma slice_get_lt {A} (l : list A) i x : slice_get l i = Some x -> 0 <= i < zlen l.
Proof.
  unfold slice_get, zlen. case_decide; [|done].
  intros Hx%lookup_lt_Some. lia.
Qed.

Lemma slice_get_is_Some {A} (l : list A) i : 0 <= i < zlen l -> is_Some (slice_get l i).
Proof.
  unfold slice_get, zlen. intros H. rewrite decide_True by lia.
  apply lookup_lt_is_Some. lia.
Qed.

Lemma slice_get_None {A} (l : list A) i : slice_get l i = None <-> ~ (0 <= i < zlen l).
Proof.
  split.
  - intros H Hi. apply slice_get_is_Some in Hi as [x Hx]. congruence.
  - intros Hi. destruct (slice_get l i) eqn:E; [|done].
    apply slice_get_lt in E. lia.
Qed.

(** [l[n:]] and [l[:n]], with the run-time check. *)
Definition slice_from {A} (l : list A) (n : Z) : go (list A) :=
  if (0 <=? n) && (n <=? zlen l) then Ret (drop (Z.to_nat n) l) else Fault IndexOutOfRange.
Definition slice_to {A} (l : list A) (n : Z) : go (list A) :=
  if (0 <=? n) && (n <=? zlen l) then Ret (take (Z.to_nat n) l) else Fault IndexOutOfRange.

Lemma slice_get_nat {A} (l : list A) (n : nat) : slice_get l (Z.of_nat n) = l !! n.
Proof. unfold slice_get. rewrite decide_True by lia. by rewrite Nat2Z.id. Qed.

Lemma slice_at_Ret {A} (l : list A) i x : slice_at l i = Ret x <-> slice_get l i = Some x.
Proof. unfold slice_at. destruct (slice_get l i); split; congruence. Qed.

Lemma slice_set_Ret {A} (l : list A) i (x : A) :
  0 <= i < zlen l -> slice_set l i x = Ret (<[Z.to_nat i := x]> l).
Proof. intros [y Hy]%slice_get_is_Some. unfold slice_set. by rewrite Hy. Qed.

Lemma slice_get_insert {A} (l : list A) i j (x : A) :
  0 <= i < zlen l ->
  slice_get (<[Z.to_nat i := x]> l) j = if decide (i = j) then Some x else slice_get l j.
Proof.
  unfold slice_get, zlen. intros Hi. case_decide as Hj.
  - case_decide as Hij.
    + subst. apply list_lookup_insert_eq. lia.
    + apply list_lookup_insert_ne. lia.
  - case_decide; [lia|done].
Qed.

Lemma slice_get_app {A} (l k : list A) i :
  slice_get (l ++ k) i = if decide (i < zlen l) then slice_get l i else slice_get k (i - zlen l).
Proof.
  unfold slice_get, zlen. repeat case_decide; try lia; [| |done].
  - apply lookup_app_l. lia.
  - rewrite lookup_app_r by lia. f_equal. lia.
Qed.

(** ** Logic *)

Lemma and_iff_under (A B C : Prop) : (A -> (B <-> C)) -> (A /\ B <-> A /\ C).
Proof. tauto. Qed.

Lemma bool_decide_ext_Zle a b : bool_decide (a <= b) = (a <=? b).
Proof. case_bool_decide; lia. Qed.

(** ** Sums of lists of integers *)

Fixpoint zsum (l : list Z) : Z :=
  match l with [] => 0 | x :: l => x + zsum l end.

Lemma zsum_app l k : zsum (l ++ k) = zsum l + zsum k.
Proof. induction l; simpl; lia. Qed.

#[global] Instance zsum_perm : Proper ((≡ₚ) ==> (=)) zsum.
Proof. intros l k H. induction H; simpl; lia. Qed.

Lemma zsum_nonneg l : Forall (fun z => 0 <= z) l -> 0 <= zsum l.
Proof. induction 1; simpl; lia. Qed.

Lemma foldl_add_zsum (acc : Z) l : foldl Z.add acc l = acc + zsum l.
Proof. revert acc. induction l as [|x l IH]; intros acc; simpl; [lia|]. rewrite IH. lia. Qed.

(** A [uint64] accumulator holds the sum, as long as the sum fits. *)
Lemma foldl_u64_zsum {A} (f : A -> Z) (l : list A) acc :
  0 <= acc -> Forall (fun a => 0 <= f a) l -> is_u64 (acc + zsum (f <$> l)) ->
  foldl (fun s a => u64 (s + f a)) acc l = acc + zsum (f <$> l).
Proof.
  revert acc. induction l as [|x l IH]; intros acc Hacc Hf Hfit; csimpl in *; [lia|].
  apply Forall_cons in Hf as [Hx Hf].
  assert (0 <= zsum (f <$> l)) by (apply zsum_nonneg, Forall_fmap; exact Hf).
  rewrite u64_id by (word_unfold; lia). rewrite IH; auto with lia.
  word_unfold; lia.
Qed.

(** ** Weighted sets

    The stake of a set of validators, as the sum of a weight over a finite
    set of indexes. *)

Definition wsum (w : Z -> Z) (X : gset Z) : Z := zsum (w <$> elements X).

Section wsum.
Context (w : Z -> Z).
Implicit Types X Y : gset Z.

Lemma wsum_empty : wsum w ∅ = 0.
Proof. unfold wsum. by rewrite elements_empty. Qed.

Lemma wsum_union X Y : X ## Y -> wsum w (X ∪ Y) = wsum w X + wsum w Y.
Proof. intros H. unfold wsum. by rewrite elements_disj_union, fmap_app, zsum_app by done. Qed.

Lemma wsum_insert i X : i ∉ X -> wsum w ({[i]} ∪ X) = w i + wsum w X.
Proof.
  intros Hi. rewrite wsum_union by set_solver. unfold wsum at 1.
  rewrite elements_singleton. simpl. lia.
Qed.

Lemma wsum_split X Y : wsum w X = wsum w (X ∩ Y) + wsum w (X ∖ Y).
Proof.
  rewrite <-wsum_union by set_solver. f_equal. apply set_eq. intros i.
  rewrite elem_of_union, elem_of_intersection, elem_of_difference.
  destruct (decide (i ∈ Y)); tauto.
Qed.

Lemma wsum_nonneg X : (forall i, i ∈ X -> 0 <= w i) -> 0 <= wsum w X.
Proof.
  intros Hw. unfold wsum. apply zsum_nonneg, Forall_fmap, Forall_forall.
  intros i Hi%elem_of_elements. by apply Hw.
Qed.

Lemma wsum_mono X Y : (forall i, i ∈ Y -> 0 <= w i) -> X ⊆ Y -> wsum w X <= wsum w Y.
Proof.
  intros Hw HXY. rewrite (wsum_split Y X). replace (Y ∩ X) with X by set_solver.
  pose proof (wsum_nonneg (Y ∖ X) ltac:(set_solver)). lia.
Qed.

(** Inclusion and exclusion. *)
Lemma wsum_inter X Y : wsum w X + wsum w Y = wsum w (X ∪ Y) + wsum w (X ∩ Y).
Proof.
  assert ((X ∪ Y) ∩ Y = Y) as E1 by set_solver.
  assert ((X ∪ Y) ∖ Y = X ∖ Y) as E2 by set_solver.
  pose proof (wsum_split X Y). pose proof (wsum_split (X ∪ Y) Y) as E.
  rewrite E1, E2 in E. lia.
Qed.

Lemma wsum_list (l : list Z) : NoDup l -> wsum w (list_to_set l) = zsum (w <$> l).
Proof. intros Hl. unfold wsum. by rewrite elements_list_to_set. Qed.

End wsum.

Lemma wsum_ext w1 w2 (X : gset Z) : (forall i, i ∈ X -> w1 i = w2 i) -> wsum w1 X = wsum w2 X.
Proof.
  intros Hw. unfold wsum. f_equal. apply list_fmap_ext.
  intros i x Hx. apply Hw. apply elem_of_elements. by eapply list_elem_of_lookup_2.
Qed.

Arguments u8 : simpl never.
Arguments u32 : simpl never.
Arguments u64 : simpl never.
Arguments i64 : simpl never.
