(* ===== verification/Bytes.v ===== *)
(** * Byte encodings: common/bigendian, common/littleendian, inter/idx

    The fixed-width encodings of the indexes, the comparison of byte slices
    of the Go standard library ([bytes.Compare], [bytes.HasPrefix]) as total
    order, and the facts the stores rely on: the encodings are invertible,
    and the big-endian one preserves the order of the numbers. *)

From S2P Require Import Prelude.
(** ** Little-endian digits *)

Fixpoint le_encode (n : nat) (z : Z) : bytes :=
  match n with O => [] | S n => u8 z :: le_encode n (z / 256) end.

Fixpoint le_decode (l : bytes) : Z :=
  match l with [] => 0 | b :: l => b + 256 * le_decode l end.

Definition be_encode (n : nat) (z : Z) : bytes := reverse (le_encode n z).
Definition be_decode (l : bytes) : Z := le_decode (reverse l).

(** ** common/littleendian *)

Definition littleendian_Int64ToBytes (n : Z) : bytes := le_encode 8 n.
Definition littleendian_BytesToInt64 (b : bytes) : go Z :=
  if decide (8 <= length b)%nat then Ret (le_decode (take 8 b)) else Fault IndexOutOfRange.
Definition littleendian_Int32ToBytes (n : Z) : bytes := le_encode 4 n.
Definition littleendian_BytesToInt32 (b : bytes) : go Z :=
  if decide (4 <= length b)%nat then Ret (le_decode (take 4 b)) else Fault IndexOutOfRange.

(** ** common/bigendian *)

Definition bigendian_Int64ToBytes (n : Z) : bytes := be_encode 8 n.
Definition bigendian_BytesToInt64 (b : bytes) : go Z :=
  if decide (8 <= length b)%nat then Ret (be_decode (take 8 b)) else Fault IndexOutOfRange.
Definition bigendian_Int32ToBytes (n : Z) : bytes := be_encode 4 n.
Definition bigendian_BytesToInt32 (b : bytes) : go Z :=
  if decide (4 <= length b)%nat then Ret (be_decode (take 4 b)) else Fault IndexOutOfRange.

(** ** inter/idx: the indexes and their byte forms *)

Definition Epoch_Bytes (e : Z) : bytes := bigendian_Int32ToBytes e.
Definition Event_Bytes (e : Z) : bytes := bigendian_Int32ToBytes e.
Definition Txn_Bytes (t : Z) : bytes := bigendian_Int32ToBytes t.
Definition Block_Bytes (b : Z) : bytes := bigendian_Int64ToBytes b.
Definition Lamport_Bytes (l : Z) : bytes := bigendian_Int32ToBytes l.
Definition Pack_Bytes (p : Z) : bytes := bigendian_Int32ToBytes p.
Definition StakerID_Bytes (s : Z) : bytes := bigendian_Int32ToBytes s.
Definition Frame_Bytes (f : Z) : bytes := bigendian_Int32ToBytes f.
Definition Validator_Bytes (v : Z) : bytes := bigendian_Int32ToBytes v.
Definition Timestamp_Bytes (t : Z) : bytes := bigendian_Int64ToBytes t.

Definition BytesToEpoch (b : bytes) : go Z := bigendian_BytesToInt32 b.
Definition BytesToEvent (b : bytes) : go Z := bigendian_BytesToInt32 b.
Definition BytesToTxn (b : bytes) : go Z := bigendian_BytesToInt32 b.
Definition BytesToBlock (b : bytes) : go Z := bigendian_BytesToInt64 b.
Definition BytesToLamport (b : bytes) : go Z := bigendian_BytesToInt32 b.
Definition BytesToFrame (b : bytes) : go Z := bigendian_BytesToInt32 b.
Definition BytesToPack (b : bytes) : go Z := bigendian_BytesToInt32 b.
Definition BytesToStakerID (b : bytes) : go Z := bigendian_BytesToInt32 b.
Definition BytesToValidator (b : bytes) : go Z := bigendian_BytesToInt32 b.
Definition BytesToTimestamp (b : bytes) : go Z := bigendian_BytesToInt64 b.

Definition MaxLamport (x y : Z) : Z := if x >? y then x else y.

(** ** bytes.Compare and bytes.HasPrefix *)

Fixpoint bytes_compare (a b : bytes) : comparison :=
  match a, b with
  | [], [] => Eq
  | [], _ :: _ => Lt
  | _ :: _, [] => Gt
  | x :: a, y :: b =>
      match Z.compare x y with Eq => bytes_compare a b | c => c end
  end.

Definition bytes_le (a b : bytes) : Prop := bytes_compare a b <> Gt.
Definition bytes_lt (a b : bytes) : Prop := bytes_compare a b = Lt.

Fixpoint HasPrefix (s prefix : bytes) {struct prefix} : bool :=
  match prefix, s with
  | [], _ => true
  | _ :: _, [] => false
  | p :: prefix, c :: s => Z.eqb p c && HasPrefix s prefix
  end.

(** ** The encodings are invertible *)

Lemma le_decode_nil : le_decode [] = 0.
Proof. reflexivity. Qed.
Lemma le_decode_cons b l : le_decode (b :: l) = b + 256 * le_decode l.
Proof. reflexivity. Qed.

Lemma length_le_encode n z : length (le_encode n z) = n.
Proof. revert z. induction n; intros z; simpl; auto. Qed.

Lemma length_be_encode n z : length (be_encode n z) = n.
Proof. unfold be_encode. by rewrite length_reverse, length_le_encode. Qed.

Lemma le_encode_bytes n z : is_bytes (le_encode n z).
Proof. revert z. induction n; intros z; simpl; constructor; auto using u8_range. apply IHn. Qed.

Lemma be_encode_bytes n z : is_bytes (be_encode n z).
Proof. apply Forall_reverse, le_encode_bytes. Qed.

Lemma le_decode_encode n z : le_decode (le_encode n z) = z mod 256 ^ Z.of_nat n.
Proof.
  revert z. induction n as [|n IH]; intros z; simpl le_encode; simpl le_decode.
  - by rewrite Z.mod_1_r.
  - rewrite IH, Nat2Z.inj_succ, Z.pow_succ_r by lia. unfold u8.
    rewrite Z.rem_mul_r by lia. lia.
Qed.

Lemma le_decode_range l : is_bytes l -> 0 <= le_decode l < 256 ^ Z.of_nat (length l).
Proof.
  induction 1 as [|b l Hb _ IH]; simpl length; simpl le_decode; [simpl; lia|].
  rewrite Nat2Z.inj_succ, Z.pow_succ_r by lia. unfold is_u8 in Hb. lia.
Qed.

Lemma le_encode_decode l : is_bytes l -> le_encode (length l) (le_decode l) = l.
Proof.
  induction 1 as [|b l Hb _ IH]; simpl; [done|].
  assert (u8 (b + 256 * le_decode l) = b) as -> by word.
  replace ((b + 256 * le_decode l) / 256) with (le_decode l) by word.
  by rewrite IH.
Qed.

Lemma be_decode_encode n z : be_decode (be_encode n z) = z mod 256 ^ Z.of_nat n.
Proof. unfold be_decode, be_encode. by rewrite reverse_involutive, le_decode_encode. Qed.

Lemma be_encode_decode l : is_bytes l -> be_encode (length l) (be_decode l) = l.
Proof.
  intros H. unfold be_decode, be_encode.
  rewrite <-length_reverse, le_encode_decode by (by apply Forall_reverse).
  apply reverse_involutive.
Qed.

Lemma le_decode_32 z : is_u32 z -> le_decode (le_encode 4 z) = z.
Proof. intros H. rewrite le_decode_encode. apply Z.mod_small. exact H. Qed.

Lemma le_decode_64 z : is_u64 z -> le_decode (le_encode 8 z) = z.
Proof. intros H. rewrite le_decode_encode. apply Z.mod_small. exact H. Qed.

Lemma bigendian32_roundtrip z rest :
  is_u32 z -> bigendian_BytesToInt32 (bigendian_Int32ToBytes z ++ rest) = Ret z.
Proof.
  intros Hz. unfold bigendian_BytesToInt32, bigendian_Int32ToBytes.
  pose proof (length_be_encode 4 z) as Hl.
  rewrite decide_True by (rewrite length_app; lia).
  rewrite take_app_length' by done.
  rewrite be_decode_encode. f_equal. apply Z.mod_small. exact Hz.
Qed.

Lemma bigendian64_roundtrip z rest :
  is_u64 z -> bigendian_BytesToInt64 (bigendian_Int64ToBytes z ++ rest) = Ret z.
Proof.
  intros Hz. unfold bigendian_BytesToInt64, bigendian_Int64ToBytes.
  pose proof (length_be_encode 8 z) as Hl.
  rewrite decide_True by (rewrite length_app; lia).
  rewrite take_app_length' by done.
  rewrite be_decode_encode. f_equal. apply Z.mod_small. exact Hz.
Qed.

Lemma be_encode_inj n a b :
  0 <= a < 256 ^ Z.of_nat n -> 0 <= b < 256 ^ Z.of_nat n ->
  be_encode n a = be_encode n b -> a = b.
Proof.
  intros Ha Hb E. apply (f_equal be_decode) in E.
  rewrite !be_decode_encode, !Z.mod_small in E; done.
Qed.

(** ** The order of byte slices *)

Lemma bytes_compare_refl a : bytes_compare a a = Eq.
Proof. induction a as [|x a IH]; simpl; [done|]. by rewrite Z.compare_refl. Qed.

Lemma bytes_compare_eq a b : bytes_compare a b = Eq <-> a = b.
Proof.
  split; [|intros ->; apply bytes_compare_refl].
  revert b. induction a as [|x a IH]; intros [|y b]; simpl; try done.
  destruct (Z.compare_spec x y); try done. intros ?%IH. by subst.
Qed.

Lemma bytes_compare_antisym a b : bytes_compare a b = CompOpp (bytes_compare b a).
Proof.
  revert b. induction a as [|x a IH]; intros [|y b]; simpl; try done.
  rewrite (Z.compare_antisym y x). destruct (Z.compare y x); simpl; auto.
Qed.

Lemma bytes_lt_trans a b c : bytes_lt a b -> bytes_lt b c -> bytes_lt a c.
Proof.
  unfold bytes_lt. revert b c.
  induction a as [|x a IH]; intros [|y b] [|z c]; simpl; try done.
  destruct (Z.compare_spec x y), (Z.compare_spec y z), (Z.compare_spec x z);
    subst; try done; try lia; eauto.
Qed.

Lemma bytes_le_lt_eq a b : bytes_le a b <-> bytes_lt a b \/ a = b.
Proof.
  unfold bytes_le, bytes_lt. rewrite <-bytes_compare_eq.
  destruct (bytes_compare a b); intuition congruence.
Qed.

#[global] Instance bytes_le_dec a b : Decision (bytes_le a b).
Proof. unfold bytes_le. apply _. Defined.
#[global] Instance bytes_lt_dec a b : Decision (bytes_lt a b).
Proof. unfold bytes_lt. apply _. Defined.
#[global] Instance bytes_le_total : Total bytes_le.
Proof.
  intros a b. unfold bytes_le. rewrite (bytes_compare_antisym b a).
  destruct (bytes_compare a b); naive_solver.
Qed.
#[global] Instance bytes_le_trans : Transitive bytes_le.
Proof.
  intros a b c. rewrite !bytes_le_lt_eq.
  intros [H1| ->] [H2| ->]; eauto using bytes_lt_trans.
Qed.
#[global] Instance bytes_le_antisymm : AntiSymm (=) bytes_le.
Proof.
  intros a b. unfold bytes_le. rewrite (bytes_compare_antisym b a), <-bytes_compare_eq.
  destruct (bytes_compare a b); naive_solver.
Qed.
#[global] Instance bytes_le_refl : Reflexive bytes_le.
Proof. intros a. unfold bytes_le. by rewrite bytes_compare_refl. Qed.

Lemma HasPrefix_spec s p : HasPrefix s p = true <-> exists t, s = p ++ t.
Proof.
  revert s. induction p as [|x p IH]; intros s.
  { split; [intros _; by exists s|done]. }
  destruct s as [|y s]; simpl; [split; [done|intros (t & Ht); done]|].
  rewrite andb_true_iff, Z.eqb_eq, IH. split.
  - intros [-> (t & ->)]. by exists t.
  - intros (t & [= -> ->]). split; [done|]. by exists t.
Qed.

(** *** Big-endian order: the order of the keys is the order of the numbers *)

Lemma bytes_compare_app_same p a b : bytes_compare (p ++ a) (p ++ b) = bytes_compare a b.
Proof. induction p as [|x p IH]; simpl; [done|]. by rewrite Z.compare_refl. Qed.

Lemma bytes_compare_app_len a b x y :
  length a = length b ->
  bytes_compare (a ++ x) (b ++ y) =
    match bytes_compare a b with Eq => bytes_compare x y | c => c end.
Proof.
  revert b. induction a as [|u a IH]; intros [|v b] Hl; simpl in *; try lia; [done|].
  injection Hl as Hl. rewrite IH by done. by destruct (Z.compare u v).
Qed.

Lemma bytes_compare_snoc a b x y :
  length a = length b ->
  bytes_compare (a ++ [x]) (b ++ [y]) =
    match bytes_compare a b with Eq => Z.compare x y | c => c end.
Proof.
  revert b. induction a as [|u a IH]; intros [|v b] Hl; simpl in *; try lia.
  - by destruct (Z.compare x y).
  - injection Hl as Hl. rewrite IH by done. by destruct (Z.compare u v).
Qed.

Lemma be_encode_compare n a b :
  0 <= a < 256 ^ Z.of_nat n -> 0 <= b < 256 ^ Z.of_nat n ->
  bytes_compare (be_encode n a) (be_encode n b) = Z.compare a b.
Proof.
  unfold be_encode. revert a b. induction n as [|n IH]; intros a b Ha Hb.
  { simpl in *. replace a with 0 by lia. replace b with 0 by lia. done. }
  simpl le_encode. rewrite !reverse_cons.
  rewrite bytes_compare_snoc by (rewrite !length_reverse, !length_le_encode; done).
  rewrite Nat2Z.inj_succ, Z.pow_succ_r in Ha, Hb by lia.
  rewrite IH by (split; [apply Z.div_pos|apply Z.div_lt_upper_bound]; lia).
  pose proof (Z.div_mod a 256 ltac:(lia)). pose proof (Z.div_mod b 256 ltac:(lia)).
  pose proof (Z.mod_pos_bound a 256 ltac:(lia)). pose proof (Z.mod_pos_bound b 256 ltac:(lia)).
  unfold u8.
  destruct (Z.compare_spec (a / 256) (b / 256)), (Z.compare_spec (a mod 256) (b mod 256)),
    (Z.compare_spec a b); try done; nia.
Qed.

Arguments le_encode : simpl never.
Arguments le_decode : simpl never.
