(* ===== verification/Kvdb.v ===== *)
(** * Key-value stores: kvdb/memorydb, kvdb/flushable, kvdb/table, kvdb/nokeyiserr

    The interface [Store] is the part of [kvdb.KeyValueStore] that the
    consensus code uses; [StoreLaws] is what one component promises to the
    next: seen through [store_view], a store is a finite map from keys to
    values.  [Database] (memorydb) is an implementation; [Flushable] takes any
    store and gives a store whose writes stay in memory until [Flush];
    [Table] gives the keys of a store with one prefix.  The laws of the
    wrappers are proved from the laws of the store they wrap. *)

From S2P Require Import Prelude Bytes.
(** A Go [[]byte] value: [None] is the nil slice. *)
Abbreviation slice := (option bytes).

Inductive kv_error :=
  | errClosed           (* flushable: database closed *)
  | errMemorydbClosed   (* memorydb: database closed *)
  | errNilKeyOrValue    (* flushable: key or value is nil *)
  | errNotFound         (* nokeyiserr: not found *)
  | errOther (msg : string).

(** A write queued in a batch. *)
Inductive write :=
  | WPut (k : bytes) (v : slice)
  | WDelete (k : bytes).

(** ** The interface *)

Class Store (S : Type) := {
  store_Has : S -> bytes -> go (kv_error + bool);
  store_Get : S -> bytes -> go (kv_error + slice);
  store_Put : S -> bytes -> slice -> go (S * option kv_error);
  store_Delete : S -> bytes -> go (S * option kv_error);
  (** [batch.Write] of the queued writes, and the batch's [ValueSize] *)
  store_Write : S -> list write -> go (S * option kv_error);
  store_ValueSize : list write -> Z;
  (** the pairs an iterator made by [NewIteratorWithPrefix] gives, in order *)
  store_Iterate : S -> bytes -> list (bytes * slice);
  (** the contents; [None] once the store is closed *)
  store_view : S -> option (gmap bytes slice)
}.

Definition apply_write (m : gmap bytes slice) (w : write) : gmap bytes slice :=
  match w with WPut k v => <[k := v]> m | WDelete k => delete k m end.

Definition key_le {A} (x y : bytes * A) : Prop := bytes_le x.1 y.1.
#[global] Instance key_le_dec {A} (x y : bytes * A) : Decision (key_le x y).
Proof. unfold key_le. apply _. Defined.

(** The pairs of a map in the order of the keys ([sort.Strings]), and those
    whose key has a given prefix. *)
Definition sorted_entries {A} (m : gmap bytes A) : list (bytes * A) :=
  merge_sort key_le (map_to_list m).
Definition entries_with_prefix {A} (p : bytes) (m : gmap bytes A) : list (bytes * A) :=
  filter (fun kv => HasPrefix kv.1 p = true) (sorted_entries m).

(** A write of a nil value is refused by [Flushable]; the laws are about the
    writes of real values. *)
Definition proper_write (w : write) : Prop :=
  match w with WPut _ v => is_Some v | WDelete _ => True end.

Class StoreLaws (S : Type) `{Store S} : Prop := {
  law_Has (s : S) m k : store_view s = Some m ->
    store_Has s k = Ret (inr (bool_decide (is_Some (m !! k))));
  law_Get (s : S) m k : store_view s = Some m ->
    store_Get s k = Ret (inr (mjoin (m !! k)));
  law_Put (s : S) m k v : store_view s = Some m ->
    exists s', store_Put s k (Some v) = Ret (s', None) /\
      store_view s' = Some (<[k := Some v]> m);
  law_Delete (s : S) m k : store_view s = Some m ->
    exists s', store_Delete s k = Ret (s', None) /\
      store_view s' = Some (delete k m);
  law_Write (s : S) m ws : store_view s = Some m -> Forall proper_write ws ->
    exists s', store_Write s ws = Ret (s', None) /\
      store_view s' = Some (foldl apply_write m ws);
  law_Iterate (s : S) m p : store_view s = Some m ->
    store_Iterate s p = entries_with_prefix p m
}.

(** ** memorydb.Database *)

Record Database := mkDatabase { db_map : option (gmap bytes slice) }.

Definition memorydb_New : Database := mkDatabase (Some ∅).

Definition Database_Close (db : Database) : Database := mkDatabase None.

Definition Database_Has (db : Database) (key : bytes) : go (kv_error + bool) :=
  match db_map db with
  | None => Ret (inl errMemorydbClosed)
  | Some m => Ret (inr (bool_decide (is_Some (m !! key))))
  end.

Definition Database_Get (db : Database) (key : bytes) : go (kv_error + slice) :=
  match db_map db with
  | None => Ret (inl errMemorydbClosed)
  | Some m => match m !! key with
              | Some entry => Ret (inr entry)
              | None => Ret (inr None)
              end
  end.

Definition Database_Put (db : Database) (key : bytes) (value : slice)
    : go (Database * option kv_error) :=
  match db_map db with
  | None => Ret (db, Some errMemorydbClosed)
  | Some m => Ret (mkDatabase (Some (<[key := value]> m)), None)
  end.

Definition Database_Delete (db : Database) (key : bytes)
    : go (Database * option kv_error) :=
  match db_map db with
  | None => Ret (db, Some errMemorydbClosed)
  | Some m => Ret (mkDatabase (Some (delete key m)), None)
  end.

(** [batch.Write]: a deletion in a nil map does nothing, an assignment
    panics. *)
Definition Database_batch_step (db : Database) (w : write) : go Database :=
  match w with
  | WDelete k => Ret (mkDatabase (delete k <$> db_map db))
  | WPut k v => match db_map db with
                | Some m => Ret (mkDatabase (Some (<[k := v]> m)))
                | None => Fault (PanicMsg "assignment to entry in nil map")
                end
  end.

Definition Database_batch_Write (db : Database) (ws : list write)
    : go (Database * option kv_error) :=
  db' ← go_fold Database_batch_step db ws; Ret (db', None).

Definition Database_batch_ValueSize (ws : list write) : Z :=
  foldl (fun n w => match w with
                    | WPut _ v => n + zlen (default [] v)
                    | WDelete _ => n + 1
                    end) 0 ws.

(** The iterator is a sorted snapshot of the keys with the prefix. *)
Definition Database_NewIteratorWithPrefix (db : Database) (prefix : bytes)
    : list (bytes * slice) :=
  entries_with_prefix prefix (default ∅ (db_map db)).

Definition Database_NewIteratorWithStart (db : Database) (start : bytes)
    : list (bytes * slice) :=
  filter (fun kv => bytes_le start kv.1) (sorted_entries (default ∅ (db_map db))).

Definition Database_Len (db : Database) : Z := Z.of_nat (size (default ∅ (db_map db))).

#[global] Instance Database_Store : Store Database := {|
  store_Has := Database_Has;
  store_Get := Database_Get;
  store_Put := Database_Put;
  store_Delete := Database_Delete;
  store_Write := Database_batch_Write;
  store_ValueSize := Database_batch_ValueSize;
  store_Iterate := Database_NewIteratorWithPrefix;
  store_view := db_map
|}.

(** ** flushable.Flushable *)

Record Flushable (S : Type) := mkFlushable {
  underlying : S;
  modified : option (gmap bytes slice);  (* deleted keys are nil; None: closed *)
  sizeEstimation : Z
}.
Arguments mkFlushable {S} _ _ _.
Arguments underlying {S} _.
Arguments modified {S} _.
Arguments sizeEstimation {S} _.

Section Flushable.
Context {S : Type} `{StoreLaws S}.
(** [ethdb.IdealBatchSize], a constant of go-ethereum. *)
Context (IdealBatchSize : Z).
Implicit Types w : Flushable S.

Definition Flushable_Wrap (parent : S) : Flushable S := mkFlushable parent (Some ∅) 0.

Definition Flushable_put w (key : bytes) (value : slice) : go (Flushable S * option kv_error) :=
  match value, modified w with
  | None, _ => Ret (w, Some errNilKeyOrValue)
  | _, None => Ret (w, Some errClosed)
  | Some v, Some md =>
      Ret (mkFlushable (underlying w) (Some (<[key := Some v]> md))
             (sizeEstimation w + (zlen key + zlen v)), None)
  end.

Definition Flushable_Has w (key : bytes) : go (kv_error + bool) :=
  match modified w with
  | None => Ret (inl errClosed)
  | Some md => match md !! key with
               | Some val => Ret (inr (bool_decide (is_Some val)))
               | None => store_Has (underlying w) key
               end
  end.

Definition Flushable_Get w (key : bytes) : go (kv_error + slice) :=
  match modified w with
  | None => Ret (inl errClosed)
  | Some md => match md !! key with
               | Some entry => Ret (inr entry)
               | None => store_Get (underlying w) key
               end
  end.

Definition Flushable_delete w (key : bytes) : go (Flushable S * option kv_error) :=
  match modified w with
  | None => Fault NilDereference
  | Some md => Ret (mkFlushable (underlying w) (Some (<[key := None]> md))
                      (sizeEstimation w + zlen key), None)
  end.

Definition Flushable_dropNotFlushed w : go (Flushable S) :=
  match modified w with
  | None => Fault NilDereference
  | Some _ => Ret (mkFlushable (underlying w) (Some ∅) 0)
  end.

Definition Flushable_NotFlushedPairs w : go Z :=
  match modified w with
  | None => Fault NilDereference
  | Some md => Ret (Z.of_nat (size md))
  end.

Definition Flushable_NotFlushedSizeEst w : Z := sizeEstimation w.

(** One step of the loop of [flush]: queue the pair, and write the batch out
    when it is over the ideal size.  The state of the loop is the parent, the
    queued writes, and the error that ends the loop early. *)
Definition entry_write (kv : bytes * slice) : write :=
  match kv.2 with None => WDelete kv.1 | Some v => WPut kv.1 (Some v) end.

Definition flush_step (st : S * list write * option kv_error) (kv : bytes * slice)
    : go (S * list write * option kv_error) :=
  let '(u, batch, err) := st in
  match err with
  | Some _ => Ret st
  | None =>
      let batch' := batch ++ [entry_write kv] in
      if store_ValueSize batch' >? IdealBatchSize then
        '(u', e) ← store_Write u batch'; Ret (u', [], e)
      else Ret (u, batch', None)
  end.

Definition Flushable_flush w : go (Flushable S * option kv_error) :=
  match modified w with
  | None => Ret (w, Some errClosed)
  | Some md =>
      '(u, batch, err) ← go_fold flush_step (underlying w, [], None) (sorted_entries md);
      match err with
      | Some e => Ret (mkFlushable u (Some md) (sizeEstimation w), Some e)
      | None => '(u', e) ← store_Write u batch;
                Ret (mkFlushable u' (Some ∅) 0, e)
      end
  end.

(** The batch of a [Flushable] ([cacheBatch]). *)
Definition cacheBatch_step (st : Flushable S * option kv_error) (wr : write)
    : go (Flushable S * option kv_error) :=
  let '(w, err) := st in
  match err with
  | Some _ => Ret st
  | None => match wr with
            | WDelete k | WPut k None => Flushable_delete w k
            | WPut k v => Flushable_put w k v
            end
  end.

Definition cacheBatch_Write w (ws : list write) : go (Flushable S * option kv_error) :=
  go_fold cacheBatch_step (w, None) ws.

Definition cacheBatch_ValueSize (ws : list write) : Z :=
  foldl (fun n wr => match wr with
                     | WPut k v => n + (zlen (default [] v) + zlen k)
                     | WDelete k => n + zlen k
                     end) 0 ws.

(** The contents seen through the cache. *)
Definition overlay (md m : gmap bytes slice) : gmap bytes slice :=
  merge (fun mo uo => match mo with
                      | Some None => None
                      | Some (Some v) => Some (Some v)
                      | None => uo
                      end) md m.

Definition Flushable_view w : option (gmap bytes slice) :=
  md ← modified w; m ← store_view (underlying w); Some (overlay md m).

(** *** The iterator

    [it_tree] holds the nodes of the tree from the current one on, in the
    order of the keys (the following node is what [nextNode] finds), and
    [it_parent] what the parent's iterator has still to give; [treeOk] and
    [parentOk] are false when the list is empty. *)
Record flush_iterator := mkIterator {
  it_prefix : bytes;
  it_tree : list (bytes * slice);
  it_parent : list (bytes * slice);
  it_prevKey : option bytes
}.

(** [isSuitable]: is the key greater than the previous one, and may the walk
    go on (the key has the prefix)? *)
Definition isSuitable (it : flush_iterator) (key : bytes) : bool * bool :=
  if HasPrefix key (it_prefix it) then
    (match it_prevKey it with None => true | Some pk => bool_decide (bytes_lt pk key) end, true)
  else (false, false).

(** The tree has priority: its node goes first when its key is not greater
    than the parent's. *)
Definition tree_first (it : flush_iterator) : bool :=
  match it_tree it, it_parent it with
  | [], _ => false
  | _ :: _, [] => true
  | (tk, _) :: _, (pk, _) :: _ => bool_decide (bytes_le tk pk)
  end.

Fixpoint iterator_Next (fuel : nat) (it : flush_iterator)
    : option ((bytes * slice) * flush_iterator) :=
  match fuel with
  | O => None
  | Datatypes.S fuel =>
      if tree_first it then
        match it_tree it with
        | [] => None
        | (k, None) :: tree =>
            iterator_Next fuel (mkIterator (it_prefix it) tree (it_parent it) (Some k))
        | (k, Some v) :: tree =>
            let '(ok, continue) := isSuitable it k in
            let tree' := if continue then tree else [] in
            if ok then Some ((k, Some v), mkIterator (it_prefix it) tree' (it_parent it) (Some k))
            else iterator_Next fuel (mkIterator (it_prefix it) tree' (it_parent it) (it_prevKey it))
        end
      else
        match it_parent it with
        | [] => None
        | (k, v) :: parent =>
            let '(ok, continue) := isSuitable it k in
            let parent' := if continue then parent else [] in
            if ok then Some ((k, v), mkIterator (it_prefix it) (it_tree it) parent' (Some k))
            else iterator_Next fuel (mkIterator (it_prefix it) (it_tree it) parent' (it_prevKey it))
        end
  end.

(** Enough fuel for one call: every round of its loop leaves a pair behind. *)
Definition it_size (it : flush_iterator) : nat := length (it_tree it) + length (it_parent it).

(** [for it.Next() { ... }] *)
Fixpoint iterator_drain (fuel : nat) (it : flush_iterator) : list (bytes * slice) :=
  match fuel with
  | O => []
  | Datatypes.S fuel =>
      match iterator_Next (Datatypes.S (it_size it)) it with
      | None => []
      | Some (kv, it') => kv :: iterator_drain fuel it'
      end
  end.

Definition Flushable_NewIteratorWithPrefix w (prefix : bytes) : flush_iterator :=
  mkIterator prefix
    (filter (fun kv => bytes_le prefix kv.1) (sorted_entries (default ∅ (modified w))))
    (store_Iterate (underlying w) prefix) None.

Definition Flushable_Iterate w (prefix : bytes) : list (bytes * slice) :=
  let it := Flushable_NewIteratorWithPrefix w prefix in
  iterator_drain (Datatypes.S (it_size it)) it.

#[global] Instance Flushable_Store : Store (Flushable S) := {|
  store_Has := Flushable_Has;
  store_Get := Flushable_Get;
  store_Put := Flushable_put;
  store_Delete := Flushable_delete;
  store_Write := cacheBatch_Write;
  store_ValueSize := cacheBatch_ValueSize;
  store_Iterate := Flushable_Iterate;
  store_view := Flushable_view
|}.

End Flushable.

(** ** kvdb/table *)

Record Table (S : Type) := mkTable { tbl_db : S; tbl_prefix : bytes }.
Arguments mkTable {S} _ _.
Arguments tbl_db {S} _.
Arguments tbl_prefix {S} _.

Definition prefixed (key prefix : bytes) : bytes := prefix ++ key.

Definition noPrefix (key prefix : bytes) : bytes :=
  if decide (length key < length prefix)%nat then key else drop (length prefix) key.

Section Table.
Context {S : Type} `{StoreLaws S}.
Implicit Types t : Table S.

Definition Table_lift t (r : go (S * option kv_error)) : go (Table S * option kv_error) :=
  '(s, e) ← r; Ret (mkTable s (tbl_prefix t), e).

Definition Table_Has t (key : bytes) := store_Has (tbl_db t) (prefixed key (tbl_prefix t)).
Definition Table_Get t (key : bytes) := store_Get (tbl_db t) (prefixed key (tbl_prefix t)).
Definition Table_Put t (key : bytes) (value : slice) :=
  Table_lift t (store_Put (tbl_db t) (prefixed key (tbl_prefix t)) value).
Definition Table_Delete t (key : bytes) :=
  Table_lift t (store_Delete (tbl_db t) (prefixed key (tbl_prefix t))).

(** The batch of a table prefixes the keys of the batch of the store. *)
Definition prefixed_write (prefix : bytes) (w : write) : write :=
  match w with
  | WPut k v => WPut (prefixed k prefix) v
  | WDelete k => WDelete (prefixed k prefix)
  end.
Definition Table_batch_Write t (ws : list write) :=
  Table_lift t (store_Write (tbl_db t) (prefixed_write (tbl_prefix t) <$> ws)).

(** The iterator skips keys without the table's prefix and strips it. *)
Definition Table_NewIteratorWithPrefix t (itPrefix : bytes) : list (bytes * slice) :=
  (fun kv => (noPrefix kv.1 (tbl_prefix t), kv.2)) <$>
    filter (fun kv => HasPrefix kv.1 (tbl_prefix t) = true)
      (store_Iterate (tbl_db t) (prefixed itPrefix (tbl_prefix t))).

(** The part of the contents under the prefix, with the prefix removed. *)
Definition strip_prefix (p : bytes) (m : gmap bytes slice) : gmap bytes slice :=
  list_to_map ((fun kv => (drop (length p) kv.1, kv.2)) <$>
                 map_to_list (filter (fun kv => HasPrefix kv.1 p = true) m)).

Definition Table_view t : option (gmap bytes slice) :=
  strip_prefix (tbl_prefix t) <$> store_view (tbl_db t).

#[global] Instance Table_Store : Store (Table S) := {|
  store_Has := Table_Has;
  store_Get := Table_Get;
  store_Put := Table_Put;
  store_Delete := Table_Delete;
  store_Write := Table_batch_Write;
  store_ValueSize := fun ws => store_ValueSize ws;
  store_Iterate := Table_NewIteratorWithPrefix;
  store_view := Table_view
|}.

End Table.

(** ** kvdb/nokeyiserr *)

Definition nokeyiserr_Get {S} `{Store S} (w : S) (key : bytes) : go (kv_error + slice) :=
  r ← store_Get w key;
  match r with
  | inr None => Ret (inl errNotFound)
  | _ => Ret r
  end.
