(* ===== verification/KvdbLaws.v ===== *)
(** * The laws of the key-value stores

    The in-memory database satisfies [StoreLaws]; [Flushable] and [Table]
    over a lawful store are lawful again.  The main results: the iterator of
    [Flushable] gives exactly the merged contents in the order of the keys;
    [Flush] moves the cached writes to the parent without changing the
    contents, whatever the size of its batches; [DropNotFlushed] returns to
    the parent's contents. *)

From S2P Require Import Prelude Bytes Kvdb.
(** ** Sorted entries *)

#[global] Instance key_le_total {A} : Total (key_le (A:=A)).
Proof. intros x y. unfold key_le. apply (total bytes_le). Qed.
#[global] Instance key_le_trans {A} : Transitive (key_le (A:=A)).
Proof. intros x y z. unfold key_le. apply (transitivity (R:=bytes_le)). Qed.

Lemma sorted_entries_perm {A} (m : gmap bytes A) : sorted_entries m ≡ₚ map_to_list m.
Proof. apply merge_sort_Permutation. Qed.

Lemma elem_of_sorted_entries {A} (m : gmap bytes A) k x :
  (k, x) ∈ sorted_entries m <-> m !! k = Some x.
Proof. rewrite sorted_entries_perm. apply elem_of_map_to_list. Qed.

Lemma sorted_entries_nodup {A} (m : gmap bytes A) : NoDup (sorted_entries m).*1.
Proof. rewrite sorted_entries_perm. apply NoDup_fst_map_to_list. Qed.

(** Strictly increasing keys. *)
Lemma list_to_map_sorted_entries {A} (m : gmap bytes A) : list_to_map (sorted_entries m) = m.
Proof.
  apply map_eq. intros k. apply option_eq. intros x.
  rewrite <-elem_of_list_to_map by apply sorted_entries_nodup. apply elem_of_sorted_entries.
Qed.

Definition key_lt {A} (x y : bytes * A) : Prop := bytes_lt x.1 y.1.
Abbreviation ksorted := (StronglySorted key_lt).

Lemma bytes_lt_irrefl a : ~ bytes_lt a a.
Proof. unfold bytes_lt. by rewrite bytes_compare_refl. Qed.

Lemma ksorted_of_le {A} (l : list (bytes * A)) :
  NoDup l.*1 -> StronglySorted key_le l -> ksorted l.
Proof.
  induction 2 as [|x l Hs IH Hx]; [constructor|].
  apply NoDup_cons in H as [Hnin Hnd]. constructor; [by apply IH|].
  rewrite Forall_forall in Hx |- *. intros y Hy.
  specialize (Hx y Hy). unfold key_le in Hx. apply bytes_le_lt_eq in Hx as [Hx|Hx]; [done|].
  contradict Hnin. rewrite Hx. apply list_elem_of_fmap. eauto.
Qed.

Lemma sorted_entries_ksorted {A} (m : gmap bytes A) : ksorted (sorted_entries m).
Proof.
  apply ksorted_of_le; [apply sorted_entries_nodup|].
  apply StronglySorted_merge_sort; apply _.
Qed.

Lemma ksorted_filter {A} (P : bytes * A -> Prop) `{forall x, Decision (P x)} l :
  ksorted l -> ksorted (filter P l).
Proof.
  induction 1 as [|x l Hs IH Hx]; [constructor|].
  rewrite filter_cons. case_decide; [|done]. constructor; [done|].
  rewrite Forall_forall in Hx |- *. intros y [_ Hy]%list_elem_of_filter. auto.
Qed.

(** Two strictly sorted lists with the same elements are equal. *)
Lemma ksorted_ext {A} (l1 l2 : list (bytes * A)) :
  ksorted l1 -> ksorted l2 -> (forall x, x ∈ l1 <-> x ∈ l2) -> l1 = l2.
Proof.
  intros H1. revert l2. induction H1 as [|x l1 Hs1 IH Hx]; intros l2 H2 Hext.
  { destruct l2 as [|y l2]; [done|]. specialize (Hext y). set_solver. }
  destruct H2 as [|y l2 Hs2 Hy]; [specialize (Hext x); set_solver|].
  rewrite Forall_forall in Hx, Hy.
  assert (x = y) as ->.
  { destruct (proj1 (elem_of_cons _ _ _) (proj1 (Hext x) ltac:(by left))) as [|Hxl]; [done|].
    destruct (proj1 (elem_of_cons _ _ _) (proj2 (Hext y) ltac:(by left))) as [|Hyl]; [done|].
    specialize (Hx _ Hyl). specialize (Hy _ Hxl). unfold key_lt in *.
    destruct (bytes_lt_irrefl x.1). eauto using bytes_lt_trans. }
  f_equal. apply IH; [done|]. intros z. specialize (Hext z).
  rewrite !elem_of_cons in Hext.
  assert (z ∈ l1 -> z <> y) by (intros Hz ->; eapply bytes_lt_irrefl, (Hx _ Hz)).
  assert (z ∈ l2 -> z <> y) by (intros Hz ->; eapply bytes_lt_irrefl, (Hy _ Hz)).
  naive_solver.
Qed.

Lemma entries_with_prefix_ksorted {A} (p : bytes) (m : gmap bytes A) : ksorted (entries_with_prefix p m).
Proof. apply ksorted_filter, sorted_entries_ksorted. Qed.

Lemma entries_with_prefix_nodup {A} (p : bytes) (m : gmap bytes A) : NoDup (entries_with_prefix p m).*1.
Proof.
  eapply sublist_NoDup; [apply (sorted_entries_nodup m)|]. apply fmap_sublist, sublist_filter.
Qed.

Lemma elem_of_entries_with_prefix {A} (p : bytes) (m : gmap bytes A) k x :
  (k, x) ∈ entries_with_prefix p m <-> HasPrefix k p = true /\ m !! k = Some x.
Proof. unfold entries_with_prefix. by rewrite list_elem_of_filter, elem_of_sorted_entries. Qed.

(** ** memorydb *)

#[global] Instance Database_laws : StoreLaws Database.
Proof.
  split; intros [[m'|]] m *; simpl; (intros [= ->]); unfold Database_Has, Database_Get,
    Database_Put, Database_Delete, Database_batch_Write, Database_NewIteratorWithPrefix; simpl.
  - done.
  - by destruct (m !! k).
  - eauto.
  - eauto.
  - intros _. revert m. induction ws as [|w ws IH]; intros m; simpl; [eauto|].
    destruct w; simpl; apply IH.
  - done.
Qed.

(** ** Flushable: the iterator *)

Section iterator.
Implicit Types it : flush_iterator.

(** What the rest of an iteration must give. *)
Definition it_pending it (k : bytes) (x : slice) : Prop :=
  HasPrefix k (it_prefix it) = true /\
  ((is_Some x /\ (k, x) ∈ it_tree it) \/
   ((k ∉ (it_tree it).*1) /\ (k, x) ∈ it_parent it /\ ~ (it_prevKey it = Some k))).

(** The state of an iteration: both sources are sorted, nothing of the tree
    is at or before the previous key, nothing of the parent is before it, and
    the tree was entered at the prefix. *)
Record it_ok it : Prop := {
  it_tree_sorted : ksorted (it_tree it);
  it_parent_sorted : ksorted (it_parent it);
  it_tree_start : Forall (fun kv => bytes_le (it_prefix it) kv.1) (it_tree it);
  it_parent_prefix : Forall (fun kv => HasPrefix kv.1 (it_prefix it) = true) (it_parent it);
  it_tree_prev pk : it_prevKey it = Some pk -> Forall (fun kv => bytes_lt pk kv.1) (it_tree it);
  it_parent_prev pk : it_prevKey it = Some pk -> Forall (fun kv => bytes_le pk kv.1) (it_parent it)
}.

(** Keys with a prefix are an interval that starts at the prefix. *)
Lemma prefix_interval p a b :
  bytes_le p a -> bytes_le a b -> HasPrefix b p = true -> HasPrefix a p = true.
Proof.
  unfold bytes_le. revert a b. induction p as [|x p IH]; intros a b; [done|].
  destruct a as [|y a]; [done|]. destruct b as [|z b]; [done|]. simpl.
  rewrite !andb_true_iff, !Z.eqb_eq.
  destruct (Z.compare_spec x y), (Z.compare_spec y z); try done;
    intros ? ? [-> ?]; try lia; eauto.
Qed.

Lemma bytes_lt_le a b : bytes_lt a b -> bytes_le a b.
Proof. intros ?. apply bytes_le_lt_eq. by left. Qed.

Lemma bytes_le_lt_trans a b c : bytes_le a b -> bytes_lt b c -> bytes_lt a c.
Proof. rewrite bytes_le_lt_eq. intros [?| ->] ?; eauto using bytes_lt_trans. Qed.
Lemma bytes_lt_le_trans a b c : bytes_lt a b -> bytes_le b c -> bytes_lt a c.
Proof. rewrite bytes_le_lt_eq. intros ? [?| ->]; eauto using bytes_lt_trans. Qed.

Lemma ksorted_notin {A} (k : bytes) (x : A) l : ksorted ((k, x) :: l) -> k ∉ l.*1.
Proof.
  intros [_ Hx]%StronglySorted_inv Hin. apply list_elem_of_fmap in Hin as (y & -> & Hy).
  rewrite Forall_forall in Hx. eapply bytes_lt_irrefl, (Hx _ Hy).
Qed.

Lemma Forall_lt_notin {A} pk (l : list (bytes * A)) :
  Forall (fun kv => bytes_lt pk kv.1) l -> pk ∉ l.*1.
Proof.
  intros Hl Hin. apply list_elem_of_fmap in Hin as (y & -> & Hy).
  rewrite Forall_forall in Hl. eapply bytes_lt_irrefl, (Hl _ Hy).
Qed.


Lemma pending_after it pk k x :
  it_ok it -> it_prevKey it = Some pk -> it_pending it k x -> bytes_lt pk k.
Proof.
  intros Hok Hpk [_ [[_ Hin]|(_ & Hin & Hne)]].
  - pose proof (it_tree_prev _ Hok _ Hpk) as Ht. rewrite Forall_forall in Ht. apply (Ht _ Hin).
  - pose proof (it_parent_prev _ Hok _ Hpk) as Ht. rewrite Forall_forall in Ht.
    specialize (Ht _ Hin). apply bytes_le_lt_eq in Ht as [Ht|Ht]; [done|]. simpl in Ht. congruence.
Qed.

(** The head of the tree goes first: the parent has nothing before it. *)
Lemma tree_first_true it k x tree :
  it_ok it -> it_tree it = (k, x) :: tree -> tree_first it = true ->
  Forall (fun kv => bytes_le k kv.1) (it_parent it).
Proof.
  intros Hok Et Hf. unfold tree_first in Hf. rewrite Et in Hf.
  pose proof (it_parent_sorted _ Hok) as Hp.
  destruct (it_parent it) as [|[k' x'] par]; [constructor|].
  apply bool_decide_eq_true in Hf. apply StronglySorted_inv in Hp as [_ Hp].
  constructor; [done|]. eapply Forall_impl; [exact Hp|].
  intros [k2 x2] H2. simpl in *. transitivity k'; [done|]. by apply bytes_lt_le.
Qed.

Lemma tree_first_false it k x par :
  it_ok it -> it_parent it = (k, x) :: par -> tree_first it = false ->
  Forall (fun kv => bytes_lt k kv.1) (it_tree it).
Proof.
  intros Hok Ep Hf. unfold tree_first in Hf. rewrite Ep in Hf.
  pose proof (it_tree_sorted _ Hok) as Ht.
  destruct (it_tree it) as [|[k' x'] tree]; [constructor|].
  apply bool_decide_eq_false in Hf.
  assert (bytes_lt k k') as Hlt.
  { destruct (total bytes_le k k') as [H|H]; [|done].
    apply bytes_le_lt_eq in H as [H| ->]; [done|]. destruct Hf. reflexivity. }
  apply StronglySorted_inv in Ht as [_ Ht]. constructor; [done|].
  eapply Forall_impl; [exact Ht|]. intros [k2 x2] H2. eapply bytes_lt_trans; eauto.
Qed.

(** The head of the tree is left behind: when it is put out or is a deleted
    key, it becomes the previous key. *)
Lemma it_ok_tree_step it k x tree :
  it_ok it -> it_tree it = (k, x) :: tree -> tree_first it = true ->
  it_ok (mkIterator (it_prefix it) tree (it_parent it) (Some k)).
Proof.
  intros Hok Et Hf. pose proof (tree_first_true _ _ _ _ Hok Et Hf) as Hge.
  destruct Hok as [Hts Hps Hst Hpp Htp Hpv]. rewrite Et in Hts, Hst.
  apply StronglySorted_inv in Hts as [Hts Hk]. apply Forall_cons in Hst as [_ Hst].
  split; simpl; auto; intros pk [= <-]; done.
Qed.

Lemma it_ok_parent_step it k x par :
  it_ok it -> it_parent it = (k, x) :: par -> tree_first it = false ->
  it_ok (mkIterator (it_prefix it) (it_tree it) par (Some k)).
Proof.
  intros Hok Ep Hf. pose proof (tree_first_false _ _ _ _ Hok Ep Hf) as Hlt.
  destruct Hok as [Hts Hps Hst Hpp Htp Hpv]. rewrite Ep in Hps, Hpp.
  apply StronglySorted_inv in Hps as [Hps Hk]. apply Forall_cons in Hpp as [_ Hpp].
  split; simpl; auto; intros pk [= <-]; [done|].
  eapply Forall_impl; [exact Hk|]. intros ? ?. by apply bytes_lt_le.
Qed.

Lemma pending_tree_deleted it k tree :
  it_ok it -> it_tree it = (k, None) :: tree -> tree_first it = true ->
  forall k' x', it_pending it k' x' <->
    it_pending (mkIterator (it_prefix it) tree (it_parent it) (Some k)) k' x'.
Proof.
  intros Hok Et Hf k' x'. unfold it_pending; simpl. rewrite Et, fmap_cons. simpl.
  rewrite elem_of_cons, not_elem_of_cons.
  pose proof (it_tree_sorted _ Hok) as Hts. rewrite Et in Hts. apply ksorted_notin in Hts.
  split; intros [Hp Hor]; split; auto.
  - destruct Hor as [[Hx [Heq|Hin]]|((Hne & Hnin) & Hin & Hpk)].
    + injection Heq as -> ->. by destruct Hx.
    + by left.
    + right. split_and!; auto. congruence.
  - destruct Hor as [[Hx Hin]|(Hnin & Hin & Hpk)]; [by left; auto|].
    right. split_and!; auto; [congruence|]. intros Hpk'.
    pose proof (it_tree_prev _ Hok _ Hpk') as Ht. rewrite Et in Ht.
    apply Forall_cons in Ht as [Ht _]. simpl in Ht.
    pose proof (tree_first_true _ _ _ _ Hok Et Hf) as Hge. rewrite Forall_forall in Hge.
    specialize (Hge _ Hin). simpl in Hge. eapply bytes_lt_irrefl, bytes_le_lt_trans; eauto.
Qed.

Lemma pending_tree_out it k v tree :
  it_ok it -> it_tree it = (k, Some v) :: tree -> tree_first it = true ->
  HasPrefix k (it_prefix it) = true ->
  forall k' x', it_pending it k' x' <-> (k', x') = (k, Some v) \/
    it_pending (mkIterator (it_prefix it) tree (it_parent it) (Some k)) k' x'.
Proof.
  intros Hok Et Hf Hpre k' x'. unfold it_pending; simpl. rewrite Et, fmap_cons. simpl.
  rewrite elem_of_cons, not_elem_of_cons.
  pose proof (it_tree_sorted _ Hok) as Hts. rewrite Et in Hts. apply ksorted_notin in Hts.
  split.
  - intros [Hp [[Hx [Heq|Hin]]|((Hne & Hnin) & Hin & Hpk)]]; [by left|right..].
    + split; auto.
    + split; auto. right. split_and!; auto. congruence.
  - intros [Heq|[Hp [[Hx Hin]|(Hnin & Hin & Hpk)]]].
    + injection Heq as -> ->. split; [done|]. left. eauto.
    + split; auto.
    + split; auto. right. split_and!; auto; [congruence|]. intros Hpk'.
      pose proof (it_tree_prev _ Hok _ Hpk') as Ht. rewrite Et in Ht.
      apply Forall_cons in Ht as [Ht _]. simpl in Ht.
      pose proof (tree_first_true _ _ _ _ Hok Et Hf) as Hge. rewrite Forall_forall in Hge.
      specialize (Hge _ Hin). simpl in Hge. eapply bytes_lt_irrefl, bytes_le_lt_trans; eauto.
Qed.

(** Once the tree leaves the keys with the prefix, it has no more of them. *)
Lemma tree_left_prefix it k x tree :
  it_ok it -> it_tree it = (k, x) :: tree -> HasPrefix k (it_prefix it) = false ->
  Forall (fun kv => HasPrefix kv.1 (it_prefix it) = false) (it_tree it).
Proof.
  intros Hok Et Hpre. rewrite Et.
  pose proof (it_tree_sorted _ Hok) as Hts. pose proof (it_tree_start _ Hok) as Hst.
  rewrite Et in Hts, Hst. apply StronglySorted_inv in Hts as [_ Hk].
  apply Forall_cons in Hst as [Hst _]. constructor; [done|].
  eapply Forall_impl; [exact Hk|]. intros [k2 x2] Hlt. simpl.
  destruct (HasPrefix k2 (it_prefix it)) eqn:E; [|done].
  rewrite <-Hpre. symmetry. eapply prefix_interval; [exact Hst| |exact E].
  by apply bytes_lt_le.
Qed.

Lemma pending_tree_cut it k x tree :
  it_ok it -> it_tree it = (k, x) :: tree -> HasPrefix k (it_prefix it) = false ->
  forall k' x', it_pending it k' x' <->
    it_pending (mkIterator (it_prefix it) [] (it_parent it) (it_prevKey it)) k' x'.
Proof.
  intros Hok Et Hpre k' x'. pose proof (tree_left_prefix _ _ _ _ Hok Et Hpre) as Hall.
  rewrite Forall_forall in Hall.
  assert (HasPrefix k' (it_prefix it) = true -> k' ∉ (it_tree it).*1) as Hnin.
  { intros Hp Hin. apply list_elem_of_fmap in Hin as (y & -> & Hy).
    specialize (Hall _ Hy). congruence. }
  unfold it_pending; simpl. split; intros [Hp [[Hx Hin]|(Hn & Hin & Hne)]]; split; auto.
  - destruct (Hnin Hp). apply list_elem_of_fmap. by exists (k', x').
  - right. split_and!; auto. set_solver.
  - set_solver.
Qed.

Lemma it_ok_cut it :
  it_ok it -> it_ok (mkIterator (it_prefix it) [] (it_parent it) (it_prevKey it)).
Proof. intros []. split; simpl; auto; constructor. Qed.

Lemma pending_parent_out it k x par :
  it_ok it -> it_parent it = (k, x) :: par -> tree_first it = false ->
  it_prevKey it <> Some k -> HasPrefix k (it_prefix it) = true ->
  forall k' x', it_pending it k' x' <-> (k', x') = (k, x) \/
    it_pending (mkIterator (it_prefix it) (it_tree it) par (Some k)) k' x'.
Proof.
  intros Hok Ep Hf Hpk Hpre k' x'.
  pose proof (Forall_lt_notin _ _ (tree_first_false _ _ _ _ Hok Ep Hf)) as Hknin.
  pose proof (it_parent_sorted _ Hok) as Hps. rewrite Ep in Hps. apply ksorted_notin in Hps.
  assert (forall y, (k, y) ∉ par) as Hpar.
  { intros y Hy. destruct Hps. apply list_elem_of_fmap. by exists (k, y). }
  unfold it_pending; simpl. rewrite Ep, elem_of_cons. split.
  - intros [Hp [[Hx Hin]|(Hnin & [Heq|Hin] & Hne)]]; [right|by left|right].
    + split; auto.
    + split; auto. right. split_and!; auto. intros [= <-]. by eapply Hpar.
  - intros [Heq|[Hp [[Hx Hin]|(Hnin & Hin & Hne)]]].
    + injection Heq as -> ->. split; [done|]. right. auto.
    + split; auto.
    + split; auto. right. split_and!; auto. intros Hpk'.
      pose proof (it_parent_prev _ Hok _ Hpk') as Hge. rewrite Ep in Hge.
      apply Forall_cons in Hge as [Hge _]. simpl in Hge.
      pose proof (it_parent_sorted _ Hok) as Hs. rewrite Ep in Hs.
      apply StronglySorted_inv in Hs as [_ Hs]. rewrite Forall_forall in Hs.
      specialize (Hs _ Hin). unfold key_lt in Hs. simpl in Hs.
      eapply bytes_lt_irrefl, bytes_le_lt_trans; eauto.
Qed.

Lemma pending_parent_skip it k x par :
  it_ok it -> it_parent it = (k, x) :: par -> it_prevKey it = Some k ->
  forall k' x', it_pending it k' x' <->
    it_pending (mkIterator (it_prefix it) (it_tree it) par (it_prevKey it)) k' x'.
Proof.
  intros Hok Ep Hpk k' x'. unfold it_pending; simpl. rewrite Ep, Hpk, elem_of_cons.
  split; intros [Hp [[Hx Hin]|(Hn & Hin & Hne)]]; split; auto.
  destruct Hin as [[= -> ->]|Hin]; [done|]. right. auto.
Qed.

Lemma it_ok_parent_skip it k x par :
  it_ok it -> it_parent it = (k, x) :: par ->
  it_ok (mkIterator (it_prefix it) (it_tree it) par (it_prevKey it)).
Proof.
  intros [Hts Hps Hst Hpp Htp Hpv] Ep. rewrite Ep in *.
  apply StronglySorted_inv in Hps as [Hps _]. apply Forall_cons in Hpp as [_ Hpp].
  split; simpl; auto. intros pk Hpk. specialize (Hpv _ Hpk).
  by apply Forall_cons in Hpv as [_ ?].
Qed.

Definition next_result it (r : option ((bytes * slice) * flush_iterator)) : Prop :=
  match r with
  | None => forall k x, ~ it_pending it k x
  | Some ((k, x), it') =>
      it_ok it' /\ (it_size it' < it_size it)%nat /\ it_prefix it' = it_prefix it /\
      it_prevKey it' = Some k /\
      (forall k' x', it_pending it k' x' <-> (k', x') = (k, x) \/ it_pending it' k' x')
  end.

Lemma next_result_mono it it1 r :
  it_prefix it1 = it_prefix it -> (it_size it1 <= it_size it)%nat ->
  (forall k x, it_pending it k x <-> it_pending it1 k x) ->
  next_result it1 r -> next_result it r.
Proof.
  intros Hp Hs Heq. destruct r as [[[k x] it']|]; simpl.
  - intros (? & ? & ? & ? & Hpd). split_and!; try done; [lia|congruence|].
    intros k' x'. by rewrite Heq.
  - intros Hn k x. rewrite Heq. apply Hn.
Qed.

Lemma isSuitable_tree it k x tree :
  it_ok it -> it_tree it = (k, x) :: tree ->
  isSuitable it k = (HasPrefix k (it_prefix it), HasPrefix k (it_prefix it)).
Proof.
  intros Hok Et. unfold isSuitable. destruct (HasPrefix k (it_prefix it)); [|done].
  destruct (it_prevKey it) as [pk|] eqn:Epk; [|done].
  pose proof (it_tree_prev _ Hok _ Epk) as Ht. rewrite Et in Ht.
  apply Forall_cons in Ht as [Ht _]. by rewrite bool_decide_eq_true_2.
Qed.

Lemma iterator_Next_spec fuel it :
  it_ok it -> (it_size it < fuel)%nat -> next_result it (iterator_Next fuel it).
Proof.
  revert it. induction fuel as [|fuel IH]; intros it Hok Hfuel; [lia|]. simpl.
  destruct (tree_first it) eqn:Hf.
  - destruct (it_tree it) as [|[k [v|]] tree] eqn:Et.
    { unfold tree_first in Hf. by rewrite Et in Hf. }
    + rewrite (isSuitable_tree _ _ _ _ Hok Et).
      destruct (HasPrefix k (it_prefix it)) eqn:Hpre; simpl.
      * split_and!; try done; [by eapply it_ok_tree_step| |by eapply pending_tree_out].
        unfold it_size; simpl. rewrite Et. simpl. lia.
      * eapply next_result_mono; [| |by eapply pending_tree_cut|]; [done| |].
        { unfold it_size; simpl; lia. }
        apply IH; [by apply it_ok_cut|]. unfold it_size in *; simpl in *. rewrite Et in Hfuel.
        simpl in Hfuel. lia.
    + eapply next_result_mono; [| |by eapply pending_tree_deleted|]; [done| |].
      { unfold it_size; simpl. rewrite Et. simpl. lia. }
      apply IH; [by eapply it_ok_tree_step|]. unfold it_size in *; simpl in *.
      rewrite Et in Hfuel. simpl in Hfuel. lia.
  - destruct (it_parent it) as [|[k x] par] eqn:Ep.
    { simpl. unfold tree_first in Hf. rewrite Ep in Hf.
      unfold it_pending. rewrite Ep.
      destruct (it_tree it) as [|[??]]; [|done]. intros ?? [_ [[_ ?]|(_ & ? & _)]]; set_solver. }
    pose proof (it_parent_prefix _ Hok) as Hpp. rewrite Ep in Hpp.
    apply Forall_cons in Hpp as [Hpre _]. simpl in Hpre.
    unfold isSuitable. rewrite Hpre.
    destruct (decide (it_prevKey it = Some k)) as [Hpk|Hpk].
    + rewrite Hpk at 1. rewrite bool_decide_eq_false_2 by apply bytes_lt_irrefl.
      eapply next_result_mono; [| |by eapply pending_parent_skip|]; [done| |].
      { unfold it_size; simpl. rewrite Ep. simpl. lia. }
      apply IH; [by eapply it_ok_parent_skip|]. unfold it_size in *; simpl in *.
      rewrite Ep in Hfuel. simpl in Hfuel. lia.
    + assert (match it_prevKey it with None => true | Some pk => bool_decide (bytes_lt pk k) end
              = true) as ->.
      { destruct (it_prevKey it) as [pk|] eqn:Epk; [|done]. apply bool_decide_eq_true.
        pose proof (it_parent_prev _ Hok _ Epk) as Hge. rewrite Ep in Hge.
        apply Forall_cons in Hge as [Hge _].
        apply bytes_le_lt_eq in Hge as [Hge|Hge]; [done|]. simpl in Hge. congruence. }
      simpl. split_and!; try done; [by eapply it_ok_parent_step| |by eapply pending_parent_out].
      unfold it_size; simpl. rewrite Ep. simpl. lia.
Qed.

(** The whole iteration gives what is pending, each key once, in order. *)
Lemma iterator_drain_spec fuel it :
  it_ok it -> (it_size it < fuel)%nat ->
  ksorted (iterator_drain fuel it) /\
  forall k x, (k, x) ∈ iterator_drain fuel it <-> it_pending it k x.
Proof.
  revert it. induction fuel as [|fuel IH]; intros it Hok Hfuel; [lia|]. cbn -[iterator_Next].
  pose proof (iterator_Next_spec (S (it_size it)) it Hok ltac:(lia)) as Hn.
  destruct (iterator_Next (S (it_size it)) it) as [[[k x] it']|]; simpl in Hn.
  - destruct Hn as (Hok' & Hsz & _ & Hpk & Hpd).
    destruct (IH it' Hok' ltac:(lia)) as [Hs Hin]. split.
    + constructor; [done|]. apply Forall_forall. intros [k' x'] Hx%Hin.
      by eapply pending_after.
    + intros k' x'. rewrite elem_of_cons, Hpd, Hin. done.
  - split; [constructor|]. intros k x. split; [set_solver|]. intros Hx. by destruct (Hn k x).
Qed.

End iterator.

(** ** Flushable: the laws *)

Section flushable_laws.
Context {S : Type} `{HS : StoreLaws S}.
Implicit Types w : Flushable S.

Lemma lookup_overlay md m k :
  overlay md m !! k = match md !! k with
                      | Some None => None
                      | Some (Some v) => Some (Some v)
                      | None => m !! k
                      end.
Proof. unfold overlay. rewrite lookup_merge. by destruct (md !! k) as [[]|], (m !! k). Qed.

Lemma Flushable_view_Some w m :
  Flushable_view w = Some m <->
  exists md um, modified w = Some md /\ store_view (underlying w) = Some um /\ m = overlay md um.
Proof.
  unfold Flushable_view. destruct (modified w) as [md|]; simpl; [|naive_solver].
  destruct (store_view (underlying w)) as [um|]; simpl; naive_solver.
Qed.

Lemma overlay_empty m : overlay ∅ m = m.
Proof. apply map_eq. intros k. by rewrite lookup_overlay, lookup_empty. Qed.

Lemma overlay_insert k v md m : overlay (<[k := Some v]> md) m = <[k := Some v]> (overlay md m).
Proof.
  apply map_eq. intros k'. rewrite lookup_overlay, !lookup_insert, lookup_overlay.
  by case_decide.
Qed.

Lemma overlay_delete k md m : overlay (<[k := None]> md) m = delete k (overlay md m).
Proof.
  apply map_eq. intros k'. rewrite lookup_overlay, lookup_insert, lookup_delete, lookup_overlay.
  by case_decide.
Qed.

Lemma Flushable_put_spec w m k v :
  Flushable_view w = Some m ->
  exists w', Flushable_put w k (Some v) = Ret (w', None) /\
    underlying w' = underlying w /\ Flushable_view w' = Some (<[k := Some v]> m).
Proof.
  intros (md & um & Emd & Eu & ->)%Flushable_view_Some.
  unfold Flushable_put. rewrite Emd. eexists. split; [done|]. split; [done|].
  apply Flushable_view_Some. simpl. exists (<[k := Some v]> md), um.
  by rewrite overlay_insert.
Qed.

Lemma Flushable_delete_spec w m k :
  Flushable_view w = Some m ->
  exists w', Flushable_delete w k = Ret (w', None) /\
    underlying w' = underlying w /\ Flushable_view w' = Some (delete k m).
Proof.
  intros (md & um & Emd & Eu & ->)%Flushable_view_Some.
  unfold Flushable_delete. rewrite Emd. eexists. split; [done|]. split; [done|].
  apply Flushable_view_Some. simpl. exists (<[k := None]> md), um.
  by rewrite overlay_delete.
Qed.

Lemma cacheBatch_Write_spec ws w m :
  Flushable_view w = Some m -> Forall proper_write ws ->
  exists w', cacheBatch_Write w ws = Ret (w', None) /\
    underlying w' = underlying w /\ Flushable_view w' = Some (foldl apply_write m ws).
Proof.
  unfold cacheBatch_Write. revert w m. induction ws as [|wr ws IH]; intros w m Hv Hp.
  { by exists w. }
  apply Forall_cons in Hp as [Hwr Hp].
  destruct wr as [k [v|]|k]; [|by destruct Hwr|].
  - destruct (Flushable_put_spec w m k v Hv) as (w1 & E1 & Hu1 & Hv1).
    cbn [go_fold cacheBatch_step]. rewrite E1, go_bind_Ret.
    destruct (IH w1 _ Hv1 Hp) as (w' & E & Hu & Hv'). exists w'. by rewrite Hu.
  - destruct (Flushable_delete_spec w m k Hv) as (w1 & E1 & Hu1 & Hv1).
    cbn [go_fold cacheBatch_step]. rewrite E1, go_bind_Ret.
    destruct (IH w1 _ Hv1 Hp) as (w' & E & Hu & Hv'). exists w'. by rewrite Hu.
Qed.

(** *** The initial state of the iterator *)

Lemma Flushable_iterator_ok w m p :
  Flushable_view w = Some m -> it_ok (Flushable_NewIteratorWithPrefix w p).
Proof.
  intros (md & um & Emd & Eu & ->)%Flushable_view_Some.
  unfold Flushable_NewIteratorWithPrefix. rewrite Emd, (law_Iterate _ _ _ Eu). simpl.
  split; simpl; try done.
  - apply ksorted_filter, sorted_entries_ksorted.
  - apply entries_with_prefix_ksorted.
  - apply Forall_forall. intros kv [Hle _]%list_elem_of_filter. exact Hle.
  - apply Forall_forall. intros kv [Hpre _]%list_elem_of_filter. exact Hpre.
Qed.

Lemma bytes_le_prefix p t : bytes_le p (p ++ t).
Proof.
  unfold bytes_le. rewrite <-(app_nil_r p) at 1. rewrite bytes_compare_app_same. by destruct t.
Qed.

Lemma Flushable_iterator_pending w m p k x :
  Flushable_view w = Some m ->
  it_pending (Flushable_NewIteratorWithPrefix w p) k x <->
    HasPrefix k p = true /\ m !! k = Some x.
Proof.
  intros (md & um & Emd & Eu & ->)%Flushable_view_Some.
  unfold it_pending, Flushable_NewIteratorWithPrefix.
  rewrite Emd, (law_Iterate _ _ _ Eu). simpl. rewrite lookup_overlay.
  apply and_iff_under. intros Hpre.
  assert (forall y, (k, y) ∈ filter (fun kv => bytes_le p kv.1) (sorted_entries md)
            <-> md !! k = Some y) as Htree.
  { intros y. rewrite list_elem_of_filter, elem_of_sorted_entries. simpl.
    apply HasPrefix_spec in Hpre as [t ->]. pose proof (bytes_le_prefix p t). tauto. }
  rewrite Htree, elem_of_entries_with_prefix.
  assert (k ∉ (filter (fun kv => bytes_le p kv.1) (sorted_entries md)).*1 <-> md !! k = None)
    as Hnin.
  { rewrite list_elem_of_fmap. destruct (md !! k) as [y|] eqn:E.
    - split; [|done]. intros Hn. destruct Hn. exists (k, y). split; [done|]. by apply Htree.
    - split; [done|]. intros _ ([k' y] & Hk & Hin). simpl in Hk. subst k'.
      apply Htree in Hin. congruence. }
  rewrite Hnin. destruct (md !! k) as [[v|]|]; destruct x; naive_solver.
Qed.

Lemma Flushable_Iterate_spec w m p :
  Flushable_view w = Some m -> Flushable_Iterate w p = entries_with_prefix p m.
Proof.
  intros Hv. unfold Flushable_Iterate.
  destruct (iterator_drain_spec (Datatypes.S (it_size (Flushable_NewIteratorWithPrefix w p)))
              (Flushable_NewIteratorWithPrefix w p)
              (Flushable_iterator_ok _ _ _ Hv) ltac:(lia)) as [Hs Hin].
  apply ksorted_ext; [done|apply entries_with_prefix_ksorted|].
  intros [k x]. rewrite Hin, elem_of_entries_with_prefix.
  by apply Flushable_iterator_pending.
Qed.

#[global] Instance Flushable_laws : StoreLaws (Flushable S).
Proof.
  split; intros w m; simpl.
  - intros k (md & um & Emd & Eu & ->)%Flushable_view_Some. unfold Flushable_Has.
    rewrite Emd, lookup_overlay. destruct (md !! k) as [[v|]|]; try done.
    by apply law_Has.
  - intros k (md & um & Emd & Eu & ->)%Flushable_view_Some. unfold Flushable_Get.
    rewrite Emd, lookup_overlay. destruct (md !! k) as [[v|]|]; try done.
    by apply law_Get.
  - intros k v Hv. destruct (Flushable_put_spec w m k v Hv) as (w' & ? & _ & ?). eauto.
  - intros k Hv. destruct (Flushable_delete_spec w m k Hv) as (w' & ? & _ & ?). eauto.
  - intros ws Hv Hp. destruct (cacheBatch_Write_spec ws w m Hv Hp) as (w' & ? & _ & ?). eauto.
  - intros p Hv. by apply Flushable_Iterate_spec.
Qed.

(** *** Flush and DropNotFlushed *)

Lemma apply_entry um md k x :
  md !! k = None ->
  apply_write (overlay md um) (entry_write (k, x)) = overlay (<[k := x]> md) um.
Proof.
  intros _. unfold entry_write. destruct x as [v|]; simpl.
  - by rewrite overlay_insert.
  - by rewrite overlay_delete.
Qed.

Lemma apply_entries um (l : list (bytes * slice)) :
  NoDup l.*1 -> foldl apply_write um (entry_write <$> l) = overlay (list_to_map l) um.
Proof.
  induction l as [|[k x] l IH] using rev_ind; intros Hnd; [by rewrite overlay_empty|].
  rewrite fmap_app in Hnd. apply NoDup_app in Hnd as (Hnd & Hdisj & _).
  assert (k ∉ l.*1) as Hk by (intros Hin; apply (Hdisj _ Hin); csimpl; by left).
  rewrite fmap_app, foldl_app, IH by done. csimpl.
  rewrite list_to_map_snoc by done. apply apply_entry. by apply not_elem_of_list_to_map_1.
Qed.

Lemma entry_write_proper l : Forall proper_write (entry_write <$> l).
Proof.
  apply Forall_fmap, Forall_forall. intros [k [v|]] _; unfold entry_write; simpl; eauto.
Qed.

Lemma flush_loop_spec IdealBatchSize (u : S) um (l : list (bytes * slice)) :
  store_view u = Some um ->
  exists u' batch um', go_fold (flush_step IdealBatchSize) (u, [], None) l = Ret (u', batch, None) /\
    store_view u' = Some um' /\ Forall proper_write batch /\
    foldl apply_write um' batch = foldl apply_write um (entry_write <$> l).
Proof.
  intros Hu.
  destruct (go_fold_inv (flush_step IdealBatchSize)
    (fun done st => st.2 = None /\ exists um', store_view st.1.1 = Some um' /\
       Forall proper_write st.1.2 /\
       foldl apply_write um' st.1.2 = foldl apply_write um (entry_write <$> done))
    l (u, [], None)) as ([[u' batch] e] & E & He & um' & ? & ? & ?); simpl in *.
  - eauto 10.
  - intros dn kv rest [[u1 batch] e] _ (He & um1 & Hu1 & Hp & Hfold). simpl in *. subst e.
    assert (Forall proper_write (batch ++ [entry_write kv])) as Hp'.
    { apply Forall_app. split; [done|]. apply (entry_write_proper [kv]). }
    assert (foldl apply_write um1 (batch ++ [entry_write kv]) =
            foldl apply_write um (entry_write <$> (dn ++ [kv]))) as Hfold'.
    { rewrite fmap_app, !foldl_app. by rewrite Hfold. }
    destruct (store_ValueSize (batch ++ [entry_write kv]) >? IdealBatchSize).
    + destruct (law_Write u1 um1 _ Hu1 Hp') as (u2 & E2 & Hu2). rewrite E2. simpl.
      eexists. split; [done|]. split; [done|]. simpl. rewrite Hfold' in Hu2. eauto.
    + eexists. split; [done|]. split; [done|]. simpl. eauto.
  - subst e. eauto 10.
Qed.

Lemma Flushable_flush_spec IdealBatchSize w m :
  Flushable_view w = Some m ->
  exists u', Flushable_flush IdealBatchSize w = Ret (mkFlushable u' (Some ∅) 0, None) /\
    store_view u' = Some m.
Proof.
  intros (md & um & Emd & Eu & ->)%Flushable_view_Some. unfold Flushable_flush. rewrite Emd.
  destruct (flush_loop_spec IdealBatchSize _ _ (sorted_entries md) Eu)
    as (u & batch & um' & -> & Hu & Hp & Hfold). cbn.
  destruct (law_Write u um' batch Hu Hp) as (u' & -> & Hu'). cbn.
  eexists. split; [done|]. rewrite Hu', Hfold, apply_entries by apply sorted_entries_nodup.
  by rewrite list_to_map_sorted_entries.
Qed.

Lemma Flushable_drop_spec w m :
  Flushable_view w = Some m ->
  exists w', Flushable_dropNotFlushed w = Ret w' /\ underlying w' = underlying w /\
    modified w' = Some ∅ /\ Flushable_view w' = store_view (underlying w).
Proof.
  intros (md & um & Emd & Eu & ->)%Flushable_view_Some. unfold Flushable_dropNotFlushed.
  rewrite Emd. eexists. split_and!; [done..|].
  unfold Flushable_view. simpl. rewrite Eu. simpl. by rewrite overlay_empty.
Qed.

End flushable_laws.

(** ** Table *)

Section table_laws.
Context {S : Type} `{HS : StoreLaws S}.
Implicit Types p q k itp : bytes.
Implicit Types v : slice.
Implicit Types w : write.

Lemma lookup_strip_prefix p (m : gmap bytes slice) k : strip_prefix p m !! k = m !! (p ++ k).
Proof.
  unfold strip_prefix. set (f := fun kv : bytes * slice => (drop (length p) kv.1, kv.2)).
  set (l := map_to_list (filter (fun kv => HasPrefix kv.1 p = true) m)).
  assert (forall a x, (a, x) ∈ l <-> exists t, a = p ++ t /\ m !! (p ++ t) = Some x) as Hl.
  { intros a x. unfold l. rewrite elem_of_map_to_list, map_lookup_filter_Some. simpl.
    rewrite HasPrefix_spec. naive_solver. }
  assert (NoDup (f <$> l).*1) as Hnd.
  { rewrite <-list_fmap_compose. apply NoDup_fmap_2_strong; [|apply NoDup_map_to_list].
    intros [a x] [b y] Ha Hb. simpl. pose proof Ha as Ha'. pose proof Hb as Hb'.
    apply Hl in Ha as (t & -> & Ht), Hb as (t' & -> & Ht'). unfold f; simpl.
    rewrite !drop_app_length. intros ->. congruence. }
  apply option_eq. intros x. rewrite <-elem_of_list_to_map by done.
  rewrite list_elem_of_fmap. split.
  - intros ([a y] & E & Hin). unfold f in E. simpl in E. injection E as -> ->.
    apply Hl in Hin as (t & -> & Ht). by rewrite drop_app_length.
  - intros Hm. exists (p ++ k, x). split; [unfold f; simpl; by rewrite drop_app_length|].
    apply Hl. eauto.
Qed.

Lemma strip_prefix_insert p k v (m : gmap bytes slice) :
  strip_prefix p (<[p ++ k := v]> m) = <[k := v]> (strip_prefix p m).
Proof.
  apply map_eq. intros k'. rewrite lookup_strip_prefix, !lookup_insert, lookup_strip_prefix.
  repeat case_decide; simplify_eq; done.
Qed.

Lemma strip_prefix_delete p k (m : gmap bytes slice) :
  strip_prefix p (delete (p ++ k) m) = delete k (strip_prefix p m).
Proof.
  apply map_eq. intros k'. rewrite lookup_strip_prefix, !lookup_delete, lookup_strip_prefix.
  repeat case_decide; simplify_eq; done.
Qed.

Lemma strip_prefix_write p w (m : gmap bytes slice) :
  strip_prefix p (apply_write m (prefixed_write p w)) = apply_write (strip_prefix p m) w.
Proof. destruct w; simpl; [apply strip_prefix_insert|apply strip_prefix_delete]. Qed.

(** A write to one table does not show in a table with another prefix. *)
Lemma strip_prefix_insert_ne p q k v (m : gmap bytes slice) :
  HasPrefix (q ++ k) p = false -> strip_prefix p (<[q ++ k := v]> m) = strip_prefix p m.
Proof.
  intros Hne. apply map_eq. intros k'. rewrite !lookup_strip_prefix, lookup_insert.
  case_decide as E; [|done].
  assert (HasPrefix (q ++ k) p = true) by (apply HasPrefix_spec; eauto). congruence.
Qed.

Lemma bytes_lt_app_same p a b : bytes_lt (p ++ a) (p ++ b) <-> bytes_lt a b.
Proof. unfold bytes_lt. by rewrite bytes_compare_app_same. Qed.

Lemma noPrefix_app p k : noPrefix (p ++ k) p = k.
Proof.
  unfold noPrefix. rewrite decide_False by (rewrite length_app; lia). apply drop_app_length.
Qed.

Lemma HasPrefix_app_same p k itp : HasPrefix (p ++ k) (p ++ itp) = HasPrefix k itp.
Proof. induction p as [|x p IH]; simpl; [done|]. by rewrite Z.eqb_refl. Qed.

Lemma ksorted_noPrefix p (l : list (bytes * slice)) :
  Forall (fun kv => HasPrefix kv.1 p = true) l -> ksorted l ->
  ksorted ((fun kv => (noPrefix kv.1 p, kv.2)) <$> l).
Proof.
  induction 2 as [|[a x] l Hs IH Hx]; csimpl; constructor.
  - apply IH. by apply Forall_cons in H0 as [_ ?].
  - apply Forall_cons in H0 as [Ha Hl]. apply Forall_fmap, Forall_forall.
    intros [b y] Hb. rewrite Forall_forall in Hl, Hx.
    specialize (Hl _ Hb). specialize (Hx _ Hb). unfold key_lt in *. simpl in *.
    apply HasPrefix_spec in Ha as [t ->], Hl as [t' ->].
    rewrite !noPrefix_app. by eapply bytes_lt_app_same.
Qed.

Lemma Table_iterate_spec (t : Table S) m itp :
  store_view (tbl_db t) = Some m ->
  Table_NewIteratorWithPrefix t itp = entries_with_prefix itp (strip_prefix (tbl_prefix t) m).
Proof.
  intros Hv. unfold Table_NewIteratorWithPrefix. rewrite (law_Iterate _ _ _ Hv).
  set (p := tbl_prefix t). apply ksorted_ext; [|apply entries_with_prefix_ksorted|].
  - apply ksorted_noPrefix; [|apply ksorted_filter, entries_with_prefix_ksorted].
    apply Forall_forall. intros kv [Hp _]%list_elem_of_filter. exact Hp.
  - intros [k x]. rewrite elem_of_entries_with_prefix, lookup_strip_prefix, list_elem_of_fmap.
    split.
    + intros ([a y] & [= -> ->] & Hin).
      apply list_elem_of_filter in Hin as [Ha Hin].
      apply elem_of_entries_with_prefix in Hin as [Hp Hm]. simpl in *.
      apply HasPrefix_spec in Ha as [k' ->]. unfold prefixed in Hp.
      rewrite HasPrefix_app_same in Hp. by rewrite noPrefix_app.
    + intros [Hp Hm]. exists (p ++ k, x). simpl. rewrite noPrefix_app. split; [done|].
      apply list_elem_of_filter. simpl. split; [apply HasPrefix_spec; eauto|].
      apply elem_of_entries_with_prefix. unfold prefixed. by rewrite HasPrefix_app_same.
Qed.

#[global] Instance Table_laws : StoreLaws (Table S).
Proof.
  split; intros t m; simpl; unfold Table_view; destruct (store_view (tbl_db t)) as [um|] eqn:Hv;
    try done; simpl.
  - intros k [= <-]. rewrite lookup_strip_prefix. by apply law_Has.
  - intros k [= <-]. rewrite lookup_strip_prefix. by apply law_Get.
  - intros k v [= <-]. destruct (law_Put _ _ (prefixed k (tbl_prefix t)) v Hv) as (s & E & Hs).
    unfold Table_Put. rewrite E. eexists. split; [done|]. simpl. rewrite Hs. simpl.
    unfold prefixed. by rewrite strip_prefix_insert.
  - intros k [= <-]. destruct (law_Delete _ _ (prefixed k (tbl_prefix t)) Hv) as (s & E & Hs).
    unfold Table_Delete. rewrite E. eexists. split; [done|]. simpl. rewrite Hs. simpl.
    unfold prefixed. by rewrite strip_prefix_delete.
  - intros ws [= <-] Hp.
    destruct (law_Write _ _ (prefixed_write (tbl_prefix t) <$> ws) Hv) as (s & E & Hs).
    { apply Forall_fmap. eapply Forall_impl; [exact Hp|]. by intros []. }
    unfold Table_batch_Write. rewrite E. eexists. split; [done|]. simpl. rewrite Hs. simpl.
    f_equal. clear. generalize um. induction ws as [|w ws IH]; intros um'; csimpl; [done|].
    by rewrite IH, strip_prefix_write.
  - intros p [= <-]. by apply Table_iterate_spec.
Qed.
End table_laws.
