(* ===== verification/SyncedPool.v ===== *)
(** * The pool of databases that are flushed together

    kvdb/flushable/synced_pool.go and lazy_flushable.go.  The pool keeps one
    lazy [Flushable] per database; [Flush] writes a dirty flag into every
    database, then the cached data, then a clean flag with the id of the
    flush, and at the start [checkDbsSynced] refuses databases whose flags are
    dirty or differ.

    The disk is part of the model: a write can be the last one that reaches
    it.  Every write of the sequence (a [Put], or a batch, which is atomic)
    takes one from [writes_left]; when none is left, it and all later writes
    fail.  So a run with n writes left shows the disk after a crash, or a
    failing disk, at the n-th write.  The queued drops come before the first
    write and are not writes of that kind; a crash among them is a prefix of
    their list.  The main result: wherever the flush stops, at the next start
    the databases are refused, or they are in the state before the flush but
    for the queued databases that are gone already, which the check at the
    start does not notice ([dropped_database_unnoticed]); and a flush that
    returns without an error has written everything. *)

From S2P Require Import Prelude Bytes Kvdb KvdbLaws.

(** ** A database on a disk that can fail *)

Record CrashDb := mkCrashDb { cd_map : gmap bytes slice; cd_left : nat }.

Definition errDisk : kv_error := errOther "write failed".

Definition CrashDb_write (db : CrashDb) (ws : list write) : go (CrashDb * option kv_error) :=
  match cd_left db with
  | O => Ret (db, Some errDisk)
  | Datatypes.S n => Ret (mkCrashDb (foldl apply_write (cd_map db) ws) n, None)
  end.

#[global] Instance CrashDb_Store : Store CrashDb := {|
  store_Has db k := Ret (inr (bool_decide (is_Some (cd_map db !! k))));
  store_Get db k := Ret (inr (mjoin (cd_map db !! k)));
  store_Put db k v := CrashDb_write db [WPut k v];
  store_Delete db k := CrashDb_write db [WDelete k];
  store_Write := CrashDb_write;
  store_ValueSize := Database_batch_ValueSize;
  store_Iterate db p := entries_with_prefix p (cd_map db);
  store_view db := Some (cd_map db)
|}.

(** The files of the producer, and what it can still write. *)
Record disks := mkDisks { files : gmap string (gmap bytes slice); writes_left : nat }.

Definition file (d : disks) (name : string) : gmap bytes slice := default ∅ (files d !! name).

(** [OpenDb]: open or create. *)
Definition OpenDb (d : disks) (name : string) : disks :=
  mkDisks (<[name := file d name]> (files d)) (writes_left d).

Definition on_file {A} (d : disks) (name : string) (f : CrashDb -> go (CrashDb * A)) : go (disks * A) :=
  '(db, a) ← f (mkCrashDb (file d name) (writes_left d));
  Ret (mkDisks (<[name := cd_map db]> (files d)) (cd_left db), a).

(** ** lazy_flushable.go *)

(** [lz_producer]: the producer was not called yet, and the underlying
    database is the empty [devnulldb].  [lz_open]: the database that it
    produced is open. *)
Record LazyFlushable := mkLazy {
  lz_modified : option (gmap bytes slice);
  lz_size : Z;
  lz_producer : bool;
  lz_open : bool
}.

Definition NewLazy : LazyFlushable := mkLazy (Some ∅) 0 true false.

Definition initUnderlyingDb (w : LazyFlushable) (d : disks) (name : string) : LazyFlushable * disks :=
  if lz_producer w then (mkLazy (lz_modified w) (lz_size w) false true, OpenDb d name) else (w, d).

(** [Close] of a wrapper closes what is underneath; the devnulldb ignores it.  A
    second [Close] clears a nil tree. *)
Definition LazyFlushable_Close (w : LazyFlushable) : go LazyFlushable :=
  match lz_modified w with
  | None => Fault NilDereference
  | Some _ => Ret (mkLazy None 0 (lz_producer w) false)
  end.

Section pool.
(** [ethdb.IdealBatchSize], a constant of go-ethereum. *)
Context (IdealBatchSize : Z).

Definition LazyFlushable_Flush (w : LazyFlushable) (d : disks) (name : string)
    : go (LazyFlushable * disks * option kv_error) :=
  let '(w, d) := initUnderlyingDb w d name in
  '(d, (w, err)) ← on_file d name (fun db =>
     '(fl, err) ← Flushable_flush IdealBatchSize (mkFlushable db (lz_modified w) (lz_size w));
     Ret (underlying fl, (mkLazy (modified fl) (sizeEstimation fl) (lz_producer w) (lz_open w), err)));
  Ret (w, d, err).

(** ** synced_pool.go *)

Record SyncedPool := mkPool { wrappers : gmap string LazyFlushable; queuedDrops : gset string }.

Definition flag_key : bytes := [102; 108; 97; 103].                    (* flag *)
Definition dirty_prefix : bytes := [100; 105; 114; 116; 121].          (* dirty *)
Definition initial_mark : bytes := [105; 110; 105; 116; 105; 97; 108]. (* initial *)

Definition dropDb (p : SyncedPool) (name : string) : SyncedPool :=
  mkPool (wrappers p) ({[name]} ∪ queuedDrops p).

Definition getDb (p : SyncedPool) (name : string) : LazyFlushable * SyncedPool :=
  match wrappers p !! name with
  | Some w => (w, p)
  | None => (NewLazy, mkPool (<[name := NewLazy]> (wrappers p)) (queuedDrops p))
  end.

(** [Drop] of a wrapper, whose callback is [dropDb]. *)
Definition pool_Drop (p : SyncedPool) (name : string) (w : LazyFlushable) : go SyncedPool :=
  match lz_modified w with
  | Some _ => Fault (PanicMsg "close db first")
  | None => Ret (dropDb p name)
  end.

(** One of the queued drops; a database that was never opened is
    [devnulldb], whose [Drop] does nothing, and the [Drop] of one that is open
    panics. *)
Definition drop_step (st : SyncedPool * disks) (name : string) : go (SyncedPool * disks) :=
  let '(p, d) := st in
  let p' := mkPool (delete name (wrappers p)) (queuedDrops p) in
  match wrappers p !! name with
  | None => Ret (p', d)
  | Some w => if lz_producer w then Ret (p', d)
              else if lz_open w then Fault (PanicMsg "Close database first!")
              else Ret (p', mkDisks (delete name (files d)) (writes_left d))
  end.

(** The state of the loops over the wrappers: the loop ends at the first
    error. *)
Abbreviation flush_state := (SyncedPool * disks * option kv_error)%type.

Definition for_wrapper (body : LazyFlushable -> disks -> string -> go (LazyFlushable * disks * option kv_error))
    (st : flush_state) (name : string) : go flush_state :=
  let '(p, d, err) := st in
  match err, wrappers p !! name with
  | Some _, _ | _, None => Ret st
  | None, Some w =>
      '(w, d, err) ← body w d name;
      Ret (mkPool (<[name := w]> (wrappers p)) (queuedDrops p), d, err)
  end.

Definition put_flag (d : disks) (name : string) (mark : bytes) : go (disks * option kv_error) :=
  on_file d name (fun db => store_Put db flag_key (Some mark)).

(** A closed database has no handle to read or write with. *)
Definition with_open {A} (w : LazyFlushable) (m : go A) : go A := if lz_open w then m else Fault NilDereference.

Definition write_dirty (id : bytes) (w : LazyFlushable) (d : disks) (name : string)
    : go (LazyFlushable * disks * option kv_error) :=
  let '(w, d) := initUnderlyingDb w d name in
  with_open w (
    r ← store_Get (mkCrashDb (file d name) (writes_left d)) flag_key;
    match r with
    | inl err => Ret (w, d, Some err)
    | inr prev =>
        '(d, err) ← put_flag d name (dirty_prefix ++ default initial_mark prev ++ id);
        Ret (w, d, err)
    end).

Definition write_clean (id : bytes) (w : LazyFlushable) (d : disks) (name : string)
    : go (LazyFlushable * disks * option kv_error) :=
  let '(w, d) := initUnderlyingDb w d name in
  with_open w ('(d, err) ← put_flag d name id; Ret (w, d, err)).

(** [flush].  The iteration of a Go map has no fixed order: [order] gives one
    for each of the loops. *)
Definition pool_flush (p : SyncedPool) (d : disks) (id : bytes) (drops : list string)
    (order : nat -> list string) : go flush_state :=
  '(p, d) ← go_fold drop_step (p, d) drops;
  let p := mkPool (wrappers p) ∅ in
  st ← go_fold (for_wrapper (write_dirty id)) (p, d, None) (order 0%nat);
  st ← go_fold (for_wrapper LazyFlushable_Flush) st (order 1%nat);
  go_fold (for_wrapper (write_clean id)) st (order 2%nat).

Definition IsFlushNeeded (sinceFlush : Z) (p : SyncedPool) : bool :=
  if sinceFlush >? 600000000000 then true
  else zsum (lz_size <$> (map_to_list (wrappers p)).*2) >? 10 * 1024 * 1024.

Inductive sync_error := ErrDirty | ErrNotSynced.

(** The loop of [checkDbsSynced] over the databases; an absent flag is a nil
    slice, which [bytes.Equal] does not tell from an empty one. *)
Fixpoint check_marks (d : disks) (names : list string) (prevID : option bytes) : option sync_error :=
  match names with
  | [] => None
  | name :: names =>
      let mark := default [] (mjoin (file d name !! flag_key)) in
      if HasPrefix mark dirty_prefix then Some ErrDirty
      else
        let prev := default mark prevID in
        if negb (bool_decide (mark = prev)) then Some ErrNotSynced
        else check_marks d names (Some prev)
  end.

Definition checkDbsSynced (d : disks) (names : list string) : option sync_error :=
  check_marks d names None.

(** [NewSyncedPool] over the existing files; [names] is [producer.Names()]. *)
Definition NewSyncedPool (d : disks) (names : list string) : go SyncedPool :=
  match checkDbsSynced d names with
  | Some _ => Fault (Crit "Databases are corrupted, which is possible after a crash or disk failure.")
  | None => Ret (mkPool (list_to_map ((fun n => (n, mkLazy (Some ∅) 0 false true)) <$> names)) ∅)
  end.

End pool.

(** ** Flushing into a disk that can fail *)

(** The contents apart from the flag. *)
Definition same_data (m m' : gmap bytes slice) : Prop := delete flag_key m = delete flag_key m'.

Definition dirty (m : gmap bytes slice) : Prop :=
  HasPrefix (default [] (mjoin (m !! flag_key))) dirty_prefix = true.

Definition avoids_flag (w : write) : Prop :=
  match w with WPut k _ | WDelete k => k <> flag_key end.

Lemma apply_avoids (ws : list write) (m : gmap bytes slice) :
  Forall avoids_flag ws -> foldl apply_write m ws !! flag_key = m !! flag_key.
Proof.
  revert m. induction ws as [|w ws IH]; intros m Hws; simpl; [done|].
  apply Forall_cons in Hws as [Hw Hws]. rewrite IH by done.
  destruct w; simpl in *; by rewrite ?lookup_insert_ne, ?lookup_delete_ne.
Qed.

Lemma same_data_refl m : same_data m m.
Proof. done. Qed.

Lemma same_data_lookup m m' (k : bytes) : same_data m m' -> k <> flag_key -> m !! k = m' !! k.
Proof.
  intros H Hk. rewrite <-(lookup_delete_ne m flag_key k), <-(lookup_delete_ne m' flag_key k) by done.
  by rewrite H.
Qed.

Lemma same_data_flag m m' x : same_data m m' -> <[flag_key := x]> m = <[flag_key := x]> m'.
Proof. intros H. rewrite <-(insert_delete_eq m), <-(insert_delete_eq m'). by rewrite H. Qed.

Lemma same_data_insert m x : same_data (<[flag_key := x]> m) m.
Proof. apply delete_insert_eq. Qed.

Lemma same_data_overlay md m m' :
  same_data m m' -> same_data (overlay md m) (overlay md m').
Proof.
  intros H. apply map_eq. intros k. destruct (decide (k = flag_key)) as [->|Hk].
  - by rewrite !lookup_delete_eq.
  - rewrite !lookup_delete_ne, !lookup_overlay, (same_data_lookup _ _ _ H) by done. done.
Qed.

Lemma dirty_file d name : dirty (file d name) -> is_Some (files d !! name).
Proof.
  unfold dirty, file. destruct (files d !! name); [eauto|]. simpl. by rewrite lookup_empty.
Qed.

Lemma file_insert (fs : gmap string (gmap bytes slice)) name m left name' :
  file (mkDisks (<[name := m]> fs) left) name' = if decide (name = name') then m else default ∅ (fs !! name').
Proof. unfold file. simpl. rewrite lookup_insert. by case_decide. Qed.

Lemma crash_write_spec db (ws : list write) :
  exists db' err, CrashDb_write db ws = Ret (db', err) /\
    (cd_map db' = cd_map db \/ cd_map db' = foldl apply_write (cd_map db) ws) /\
    (err = None -> cd_map db' = foldl apply_write (cd_map db) ws) /\
    (err <> None -> cd_map db' = cd_map db).
Proof. unfold CrashDb_write. destruct db as [m [|n]]; simpl;
  eexists _, _; (split; [done|]); simpl; split_and!; auto; done. Qed.

Section crash.
Context (IdealBatchSize : Z).

Lemma crash_flush_loop m n (l : list (bytes * slice)) :
  flag_key ∉ l.*1 ->
  exists u batch err, go_fold (flush_step IdealBatchSize) (mkCrashDb m n, [], None) l = Ret (u, batch, err) /\
    cd_map u !! flag_key = m !! flag_key /\ Forall avoids_flag batch /\
    (err = None -> foldl apply_write (cd_map u) batch = foldl apply_write m (entry_write <$> l)).
Proof.
  intros Hl.
  destruct (go_fold_inv (flush_step IdealBatchSize)
    (fun done st => cd_map st.1.1 !! flag_key = m !! flag_key /\ Forall avoids_flag st.1.2 /\
       (st.2 = None -> foldl apply_write (cd_map st.1.1) st.1.2 = foldl apply_write m (entry_write <$> done)))
    l (mkCrashDb m n, [], None)) as ([[u batch] err] & E & Hinv); [simpl; eauto| |by exists u, batch, err].
  intros dn kv rest [[u batch] err] El (Hf & Hav & Hfold). simpl in *.
  destruct err as [e|]; [by eexists; repeat split|].
  assert (avoids_flag (entry_write kv)) as Hkv.
  { assert (kv.1 <> flag_key).
    { intros Ek. apply Hl. rewrite El, fmap_app, fmap_cons, Ek. apply elem_of_app. right. by left. }
    destruct kv as [k [v|]]; simpl in *; done. }
  assert (Forall avoids_flag (batch ++ [entry_write kv])) as Hav' by (apply Forall_app; auto).
  assert (foldl apply_write (cd_map u) (batch ++ [entry_write kv]) =
          foldl apply_write m (entry_write <$> (dn ++ [kv]))) as Hfold'.
  { rewrite fmap_app, !foldl_app. by rewrite Hfold. }
  destruct (_ >? _); [|by eexists; repeat split].
  destruct (crash_write_spec u (batch ++ [entry_write kv])) as (u' & e & E' & Hor & Hok & _).
  rewrite E', go_bind_Ret. eexists. split; [done|]. simpl. split_and!; [|done|].
  - destruct Hor as [->| ->]; [done|]. by rewrite apply_avoids.
  - intros ->. rewrite Hok by done. exact Hfold'.
Qed.

Lemma crash_flush_spec m n md size :
  md !! flag_key = None ->
  exists fl err, Flushable_flush IdealBatchSize (mkFlushable (mkCrashDb m n) (Some md) size) = Ret (fl, err) /\
    cd_map (underlying fl) !! flag_key = m !! flag_key /\
    (err = None -> cd_map (underlying fl) = overlay md m).
Proof.
  intros Hmd. unfold Flushable_flush. cbn [modified underlying].
  destruct (crash_flush_loop m n (sorted_entries md)) as (u & batch & err & E & Hf & Hav & Hfold).
  { intros ([k x] & Ek & Hin)%list_elem_of_fmap. simpl in Ek. subst k.
    apply elem_of_sorted_entries in Hin. congruence. }
  rewrite E, go_bind_Ret. destruct err as [e|]; [by eexists _, _|].
  destruct (crash_write_spec u batch) as (u' & e & E' & Hor & Hok & _).
  cbn [store_Write CrashDb_Store]. rewrite E', go_bind_Ret. eexists _, _. split; [done|]. simpl. split.
  - destruct Hor as [->| ->]; [done|]. by rewrite apply_avoids.
  - intros ->. rewrite Hok, Hfold, apply_entries by (done || apply sorted_entries_nodup).
    by rewrite list_to_map_sorted_entries.
Qed.

(** ** The loops of flush *)

Lemma for_wrapper_error body l p d e :
  go_fold (for_wrapper body) (p, d, Some e) l = Ret (p, d, Some e).
Proof. induction l as [|x l IH]; [done|]. cbn [go_fold]. exact IH. Qed.

(** A loop over all wrappers: [I] holds as long as there is no error, [E] of
    the disk at the error. *)
Lemma for_wrapper_loop body (I : list string -> SyncedPool -> disks -> Prop) (E : disks -> Prop) l p d :
  I [] p d ->
  (forall dn x rest p d, l = dn ++ x :: rest -> I dn p d ->
     exists w w' d' err, wrappers p !! x = Some w /\ body w d x = Ret (w', d', err) /\
       match err with
       | None => I (dn ++ [x]) (mkPool (<[x := w']> (wrappers p)) (queuedDrops p)) d'
       | Some _ => E d'
       end) ->
  exists p' d' err, go_fold (for_wrapper body) (p, d, None) l = Ret (p', d', err) /\
    match err with None => I l p' d' | Some _ => E d' end.
Proof.
  intros H0 Hstep.
  destruct (go_fold_inv (for_wrapper body)
    (fun dn st => match st.2 with None => I dn st.1.1 st.1.2 | Some _ => E st.1.2 end)
    l (p, d, None)) as ([[p' d'] err] & Eq & Hinv); [done| |by exists p', d', err].
  intros dn x rest [[p1 d1] err] El Hinv. simpl in Hinv. destruct err as [e|]; [by eexists|].
  destruct (Hstep _ _ _ _ _ El Hinv) as (w & w' & d2 & err & Hw & Hb & H2).
  unfold for_wrapper. rewrite Hw, Hb, go_bind_Ret. by eexists.
Qed.


(** Not opened yet, or open. *)
Definition usable (w : LazyFlushable) : bool := lz_producer w || lz_open w.

Lemma init_spec w d name :
  exists b o d', initUnderlyingDb w d name = (mkLazy (lz_modified w) (lz_size w) b o, d') /\ (usable w = true -> o = true) /\
    forall name', file d' name' = file d name'.
Proof.
  unfold initUnderlyingDb, OpenDb. destruct w as [md sz [|] o]; simpl; eexists _, _, _; (split; [done|]); (split; [done|]); [|done].
  intros name'. rewrite file_insert. unfold file. by case_decide; subst.
Qed.

(** Writing the flag either does not reach the disk or changes only the flag. *)
Lemma put_flag_spec d name mark :
  exists d' err, put_flag d name mark = Ret (d', err) /\
    (forall name', name' <> name -> file d' name' = file d name') /\
    match err with
    | None => file d' name = <[flag_key := Some mark]> (file d name)
    | Some _ => file d' name = file d name
    end.
Proof.
  unfold put_flag, on_file. cbn [store_Put CrashDb_Store].
  destruct (crash_write_spec (mkCrashDb (file d name) (writes_left d)) [WPut flag_key (Some mark)])
    as (db & err & -> & _ & H1 & H2). rewrite go_bind_Ret. eexists _, err. split; [done|]. split.
  - intros name' Hne. rewrite file_insert, decide_False by done. done.
  - destruct err; rewrite file_insert, decide_True by done; [by apply H2|by apply H1].
Qed.

(** The pool and the disk at the beginning of the three loops. *)
Context (W : gmap string LazyFlushable) (D : disks) (id : bytes).
Context (Hcache : forall x w md, W !! x = Some w -> lz_modified w = Some md -> md !! flag_key = None).
Context (Husable : map_Forall (fun _ w => usable w = true) W).
Abbreviation all_usable p := (map_Forall (fun (_ : string) w => usable w = true) (wrappers p)).

Definition covers (l : list string) : Prop := NoDup l /\ forall x, x ∈ l <-> is_Some (W !! x).

Lemma covers_split l dn x rest :
  covers l -> l = dn ++ x :: rest -> is_Some (W !! x) /\ x ∉ dn.
Proof.
  intros [Hnd Hin] ->. split.
  - apply Hin, elem_of_app. right. by left.
  - apply NoDup_app in Hnd as (_ & Hd & _). intros Hx. apply (Hd _ Hx). by left.
Qed.

Lemma dirty_mark mark m : dirty (<[flag_key := Some (dirty_prefix ++ mark)]> m).
Proof. unfold dirty. rewrite lookup_insert_eq. apply HasPrefix_spec. by eexists. Qed.

Definition stopped (d : disks) : Prop := exists x, dirty (file d x).

Definition I1 (dn : list string) (p : SyncedPool) (d : disks) : Prop :=
  all_usable p /\
  (forall x, lz_modified <$> wrappers p !! x = lz_modified <$> W !! x) /\
  (forall x, x ∉ dn -> file d x = file D x) /\
  (forall x, x ∈ dn -> dirty (file d x) /\ same_data (file d x) (file D x)).

Lemma modified_insert (m : gmap string LazyFlushable) x w w' :
  (forall y, lz_modified <$> m !! y = lz_modified <$> W !! y) -> m !! x = Some w ->
  lz_modified w' = lz_modified w ->
  forall y, lz_modified <$> <[x := w']> m !! y = lz_modified <$> W !! y.
Proof.
  intros H Hx Hw y. rewrite lookup_insert. case_decide; [|apply H]. subst y. simpl. rewrite <-H, Hx. simpl.
  by rewrite Hw.
Qed.

Lemma modified_some (m : gmap string LazyFlushable) x :
  lz_modified <$> m !! x = lz_modified <$> W !! x -> is_Some (W !! x) -> exists w, m !! x = Some w.
Proof. intros H [w Hw]. rewrite Hw in H. destruct (m !! x); [eauto|done]. Qed.

Lemma dirty_loop l p :
  covers l -> wrappers p = W ->
  exists p' d' err, go_fold (for_wrapper (write_dirty id)) (p, D, None) l = Ret (p', d', err) /\
    match err with None => I1 l p' d' | Some _ => stopped d' \/ forall x, file d' x = file D x end.
Proof.
  intros Hl Hp. apply for_wrapper_loop.
  { split_and!; [by rewrite Hp|by rewrite Hp|done|]. intros x Hx. by apply not_elem_of_nil in Hx. }
  intros dn x rest p1 d1 El (Hus & Hmod & Hout & Hin). destruct (covers_split _ _ _ _ Hl El) as [HW Hdn].
  destruct (modified_some _ _ (Hmod x) HW) as [w Hw].
  destruct (init_spec w d1 x) as (b & o & d2 & Ei & Ho & Hd2).
  exists w. unfold write_dirty, with_open. rewrite Ei. cbn [lz_open]. rewrite Ho by (by apply (Hus x)). cbn [store_Get CrashDb_Store]. cbn [mbind go_bind].
  set (mark := default initial_mark _ ++ id).
  destruct (put_flag_spec d2 x (dirty_prefix ++ mark)) as (d3 & err & Ep & Hother & Hx).
  unfold put_flag in *. rewrite Ep. eexists _, _, _. split; [exact Hw|]. split; [done|].
  destruct err as [e|].
  - destruct (decide (dn = [])) as [->|Hne].
    + right. intros y. destruct (decide (y = x)) as [->|Hy].
      * by rewrite Hx, Hd2, Hout.
      * rewrite Hother, Hd2 by done. apply Hout. by apply not_elem_of_nil.
    + left. destruct dn as [|y dn]; [done|]. exists y.
      rewrite Hother, Hd2 by (intros ->; apply Hdn; by left). apply Hin. by left.
  - split_and!.
    + cbn [wrappers]. apply map_Forall_insert_2; [|done]. apply orb_true_r.
    + by eapply modified_insert.
    + intros y Hy. rewrite Hother, Hd2 by set_solver. apply Hout. set_solver.
    + intros y [Hy|Hy]%elem_of_app.
      * rewrite Hother, Hd2 by set_solver. by apply Hin.
      * apply list_elem_of_singleton in Hy as ->. rewrite Hx, Hd2, Hout by done.
        split; [apply dirty_mark|apply same_data_insert].
Qed.

Definition I2 (dn : list string) (p : SyncedPool) (d : disks) : Prop :=
  all_usable p /\
  (forall x, W !! x = None -> file d x = file D x) /\
  (forall x, is_Some (W !! x) -> dirty (file d x)) /\
  (forall x, x ∉ dn -> lz_modified <$> wrappers p !! x = lz_modified <$> W !! x /\
     same_data (file d x) (file D x)) /\
  (forall x, x ∈ dn -> is_Some (wrappers p !! x) /\ exists w md, W !! x = Some w /\
     lz_modified w = Some md /\ same_data (file d x) (overlay md (file D x))).

(** One wrapper's flush: the flag stays as it is. *)
Lemma lazy_flush_spec w d x :
  (forall md, lz_modified w = Some md -> md !! flag_key = None) ->
  exists w' d' err, LazyFlushable_Flush IdealBatchSize w d x = Ret (w', d', err) /\ (usable w = true -> usable w' = true) /\
    (forall y, y <> x -> file d' y = file d y) /\
    file d' x !! flag_key = file d x !! flag_key /\
    (err = None -> exists md, lz_modified w = Some md /\ file d' x = overlay md (file d x)).
Proof.
  intros Hmd. destruct (init_spec w d x) as (b & o & d2 & Ei & Ho & Hd2).
  assert (forall md' sz, usable w = true -> usable (mkLazy md' sz b o) = true) as Hu by (intros md' sz Hw; unfold usable; cbn; rewrite Ho by done; apply orb_true_r).
  unfold LazyFlushable_Flush. rewrite Ei. unfold on_file. cbn [lz_modified lz_size lz_producer lz_open].
  destruct (lz_modified w) as [md|] eqn:Em.
  - destruct (crash_flush_spec (file d2 x) (writes_left d2) md (lz_size w) (Hmd md eq_refl))
      as (fl & err & -> & Hf & Hok).
    rewrite !go_bind_Ret. eexists _, _, err. split; [done|]. split; [apply Hu|]. split_and!.
    + intros y Hy. rewrite file_insert, decide_False by done. apply Hd2.
    + rewrite file_insert, decide_True by done. by rewrite Hf, Hd2.
    + intros ->. exists md. rewrite file_insert, decide_True, Hok by done. by rewrite Hd2.
  - unfold Flushable_flush. cbn [modified]. rewrite !go_bind_Ret. eexists _, _, _. split; [done|]. split; [apply Hu|].
    split_and!; [|by rewrite file_insert, decide_True, <-Hd2|done].
    intros y Hy. rewrite file_insert, decide_False by done. apply Hd2.
Qed.

Lemma dirty_flag m m' : m !! flag_key = m' !! flag_key -> dirty m' -> dirty m.
Proof. unfold dirty. by intros ->. Qed.

Lemma data_loop l0 l p d :
  covers l0 -> covers l -> I1 l0 p d ->
  exists p' d' err, go_fold (for_wrapper (LazyFlushable_Flush IdealBatchSize)) (p, d, None) l = Ret (p', d', err) /\
    match err with None => I2 l p' d' | Some _ => stopped d' end.
Proof.
  intros Hl0 Hl (Hus & Hmod & Hout & Hin). apply for_wrapper_loop.
  { split_and!; [exact Hus|..].
    - intros x Hx. apply Hout. intros [w Hw]%(proj2 Hl0). congruence.
    - intros x Hx. by apply Hin, Hl0.
    - intros x _. split; [done|]. destruct (decide (x ∈ l0)) as [Hx|Hx]; [by apply Hin|].
      rewrite Hout by done. apply same_data_refl.
    - intros x Hx. by apply not_elem_of_nil in Hx. }
  clear p d Hus Hmod Hout Hin. intros dn x rest p d El (Hus & Hnone & Hdirty & Hout & Hin).
  destruct (covers_split _ _ _ _ Hl El) as [HW Hdn].
  destruct (modified_some _ _ (proj1 (Hout x Hdn)) HW) as [w Hw]. destruct HW as [w0 HW].
  assert (lz_modified w = lz_modified w0) as Hww.
  { destruct (Hout x Hdn) as [Hm _]. rewrite Hw, HW in Hm. by injection Hm. }
  destruct (lazy_flush_spec w d x) as (w' & d' & err & E & Hu & Hother & Hflag & Hok).
  { intros md Hmd. eapply Hcache; [exact HW|congruence]. }
  exists w, w', d', err. split_and!; [done|done|].
  assert (dirty (file d' x)) as Hdx by (eapply dirty_flag; [exact Hflag|by apply Hdirty]).
  destruct err as [e|]; [by exists x|].
  destruct (Hok eq_refl) as (md & Hmd & Hx). split_and!; cbn [wrappers]; [apply map_Forall_insert_2; [apply Hu; by apply (Hus x)|done]|..].
  - intros y Hy. rewrite Hother by congruence. by apply Hnone.
  - intros y Hy. destruct (decide (y = x)) as [->|]; [done|]. rewrite Hother by done. by apply Hdirty.
  - intros y Hy. rewrite lookup_insert_ne, Hother by set_solver. apply Hout. set_solver.
  - intros y Hy. rewrite lookup_insert. apply elem_of_app in Hy as [Hy|Hy%list_elem_of_singleton].
    + rewrite decide_False, Hother by (intros ->; done). by apply Hin.
    + subst y. rewrite decide_True by done. split; [eauto|]. exists w0, md. split_and!; [done|congruence|].
      rewrite Hx. by apply same_data_overlay, Hout.
Qed.

Definition I3 (dn : list string) (p : SyncedPool) (d : disks) : Prop :=
  all_usable p /\
  (forall x, W !! x = None -> file d x = file D x) /\
  (forall x, is_Some (W !! x) -> is_Some (wrappers p !! x)) /\
  (forall x w, W !! x = Some w -> exists md, lz_modified w = Some md /\
     same_data (file d x) (overlay md (file D x))) /\
  (forall x, x ∈ dn -> file d x !! flag_key = Some (Some id)) /\
  (forall x, x ∉ dn -> is_Some (W !! x) -> dirty (file d x)).

Lemma clean_loop l0 l p d :
  covers l0 -> covers l -> I2 l0 p d ->
  exists p' d' err, go_fold (for_wrapper (write_clean id)) (p, d, None) l = Ret (p', d', err) /\
    match err with None => I3 l p' d' | Some _ => stopped d' end.
Proof.
  intros Hl0 Hl (Hus & Hnone & Hdirty & Hout & Hin). apply for_wrapper_loop.
  { split_and!; [done|done| | | |by auto].
    - intros x Hx. by apply Hin, Hl0.
    - intros x w Hw. destruct (Hin x) as (_ & w' & md & Hw' & ? & ?); [apply Hl0; eauto|].
      simplify_eq. eauto.
    - intros x Hx. by apply not_elem_of_nil in Hx. }
  clear p d Hus Hnone Hdirty Hout Hin. intros dn x rest p d El (Hus & Hnone & Hsome & Hdata & Hin & Hout).
  destruct (covers_split _ _ _ _ Hl El) as [HW Hdn]. destruct (Hsome x HW) as [w Hw].
  destruct (init_spec w d x) as (b & o & d2 & Ei & Ho & Hd2). exists w. unfold write_clean, with_open. rewrite Ei. cbn [lz_open]. rewrite Ho by (by apply (Hus x)).
  destruct (put_flag_spec d2 x id) as (d3 & err & Ep & Hother & Hx).
  rewrite Ep, go_bind_Ret. eexists _, _, _. split; [exact Hw|]. split; [done|].
  destruct err as [e|].
  { exists x. rewrite Hx, Hd2. by apply Hout. }
  destruct HW as [w0 HW]. split_and!; cbn [wrappers]; [apply map_Forall_insert_2; [apply orb_true_r|done]|..].
  - intros y Hy. rewrite Hother, Hd2 by congruence. by apply Hnone.
  - intros y Hy. rewrite lookup_insert. case_decide; eauto.
  - intros y wy Hy. destruct (Hdata y wy Hy) as (md & Hmd & Hsd). exists md. split; [done|].
    destruct (decide (y = x)) as [->|]; [|by rewrite Hother, Hd2].
    rewrite Hx, Hd2. unfold same_data in *. by rewrite delete_insert_eq.
  - intros y [Hy|Hy%list_elem_of_singleton]%elem_of_app.
    + rewrite Hother, Hd2 by (intros ->; done). by apply Hin.
    + subst y. rewrite Hx. apply lookup_insert_eq.
  - intros y Hy HWy. rewrite Hother, Hd2 by set_solver. apply Hout; [set_solver|done].
Qed.

End crash.

(** ** Crash safety *)

Lemma check_marks_dirty d names prev x :
  x ∈ names -> dirty (file d x) -> is_Some (check_marks d names prev).
Proof.
  intros Hx Hd. revert prev. induction names as [|y names IH]; intros prev; cbn [check_marks];
    [by apply not_elem_of_nil in Hx|].
  destruct (HasPrefix (default [] (mjoin (file d y !! flag_key))) dirty_prefix) eqn:Ed; [eauto|].
  apply elem_of_cons in Hx as [->|Hx]; [unfold dirty in Hd; congruence|].
  case_match; [eauto|]. by apply IH.
Qed.

Lemma stopped_refused d names :
  stopped d -> (forall x, is_Some (files d !! x) -> x ∈ names) ->
  exists msg, NewSyncedPool d names = Fault (Crit msg).
Proof.
  intros [x Hx] Hn. unfold NewSyncedPool, checkDbsSynced.
  destruct (check_marks_dirty d names None x) as [e ->]; [|done|eauto]. by apply Hn, dirty_file.
Qed.

Lemma check_marks_clean d names id :
  HasPrefix id dirty_prefix = false ->
  Forall (fun x => file d x !! flag_key = Some (Some id)) names ->
  forall prev, default id prev = id -> check_marks d names prev = None.
Proof.
  intros Hid Hn. induction Hn as [|x names Hx Hn IH]; intros prev Hp; cbn [check_marks]; [done|].
  rewrite Hx. change (default [] (mjoin (Some (Some id)))) with id.
  rewrite Hid, Hp, bool_decide_true by done. by apply IH.
Qed.

(** ** The queued drops *)

(** The wrappers that stay, and the files after some drops: those of the databases that were opened are gone. *)
Definition live (p : SyncedPool) (drops : list string) : gmap string LazyFlushable := filter (fun nw => nw.1 ∉ drops) (wrappers p).
Definition opened (p : SyncedPool) (x : string) : bool := match wrappers p !! x with Some w => negb (lz_producer w) | None => false end.
Definition after_drops (p : SyncedPool) (d : disks) (drops : list string) (x : string) : gmap bytes slice :=
  if bool_decide (x ∈ drops) && opened p x then ∅ else file d x.

(** A database is queued by the [Drop] of its wrapper, which was closed before, and so was the database. *)
Definition queued_closed (p : SyncedPool) (drops : list string) : Prop :=
  forall x w, x ∈ drops -> wrappers p !! x = Some w -> lz_producer w = true \/ lz_open w = false.

Lemma close_then_drop p x w w' p1 : wrappers p !! x = Some w -> LazyFlushable_Close w = Ret w' ->
  pool_Drop (mkPool (<[x := w']> (wrappers p)) (queuedDrops p)) x w' = Ret p1 ->
  queuedDrops p1 = {[x]} ∪ queuedDrops p /\ (queued_closed p (elements (queuedDrops p)) -> queued_closed p1 (elements (queuedDrops p1))).
Proof.
  unfold LazyFlushable_Close, pool_Drop, dropDb. intros Hw Hc. destruct (lz_modified w); [|done]. injection Hc as <-. cbn. intros [= <-]. split; [done|].
  intros Hq y wy. cbn [wrappers queuedDrops]. rewrite elem_of_elements. intros Hy. rewrite lookup_insert. case_decide as Hxy; [intros [= <-]; by right|].
  apply Hq, elem_of_elements. set_solver.
Qed.

Lemma drops_spec (drops : list string) : forall p d, queued_closed p drops ->
  exists p' d', go_fold drop_step (p, d) drops = Ret (p', d') /\ wrappers p' = live p drops /\ forall x, file d' x = after_drops p d drops x.
Proof.
  induction drops as [|name drops IH]; intros p d Hq; cbn [go_fold].
  { exists p, d. split; [done|]. split; [|done]. unfold live. symmetry. apply map_filter_id. intros x w _. apply not_elem_of_nil. }
  assert (exists d1, drop_step (p, d) name = Ret (mkPool (delete name (wrappers p)) (queuedDrops p), d1) /\
    forall x, file d1 x = if bool_decide (x = name) && opened p x then ∅ else file d x) as (d1 & -> & Hd1).
  { unfold drop_step, opened. destruct (wrappers p !! name) as [w|] eqn:Hw.
    - destruct (lz_producer w) eqn:Hp.
      + exists d. split; [done|]. intros x. case_bool_decide as Hx; [subst x; by rewrite Hw, Hp|done].
      + destruct (Hq name w) as [?|Ho]; [by left|done|congruence|]. rewrite Ho. eexists. split; [reflexivity|]. intros x. unfold file. cbn [files].
        case_bool_decide as Hx; [subst x; by rewrite Hw, Hp, lookup_delete_eq|]. by rewrite lookup_delete_ne.
    - exists d. split; [done|]. intros x. case_bool_decide as Hx; [subst x; by rewrite Hw|done]. }
  rewrite go_bind_Ret. destruct (IH (mkPool (delete name (wrappers p)) (queuedDrops p)) d1) as (p' & d' & -> & Hw & Hf).
  { intros x w Hx Hxw. cbn [wrappers] in Hxw. apply lookup_delete_Some in Hxw as [_ Hxw]. apply (Hq x w); [by right|done]. }
  exists p', d'. split; [done|]. split.
  - rewrite Hw. unfold live. cbn [wrappers]. apply map_eq. intros x. apply option_eq. intros w. rewrite !map_lookup_filter_Some, lookup_delete_Some. cbn [fst]. rewrite not_elem_of_cons. naive_solver.
  - intros x. rewrite Hf. unfold after_drops. rewrite Hd1. assert (opened (mkPool (delete name (wrappers p)) (queuedDrops p)) x = negb (bool_decide (x = name)) && opened p x) as ->.
    { unfold opened. cbn [wrappers]. case_bool_decide as Hx; [subst x; by rewrite lookup_delete_eq|by rewrite lookup_delete_ne]. }
    rewrite (bool_decide_ext (x ∈ name :: drops) (x = name \/ x ∈ drops)) by apply elem_of_cons. rewrite bool_decide_or.
    by destruct (bool_decide (x = name)), (bool_decide (x ∈ drops)), (opened p x).
Qed.

(** C38: a flush of the pool is crash safe, but for the queued drops.  First the queued databases are dropped, one
    after the other; a crash among them leaves all other databases as they are.  After that, whatever the number of writes
    that reach the disk and the orders in which the maps are iterated, [flush]
    comes to an end.  If it returns an error or the process dies there, then
    the next start refuses the databases, or every one is as it was before the flush, but for the queued ones, which are gone
    if they had been opened; the start does not notice that they are missing ([dropped_database_unnoticed]).  If it returns without error, every
    database that stays holds its
    contents with the cached writes and the flag of this flush, and the next
    start accepts them.  The queued databases are closed, and the others are open or not opened yet. *)
Theorem pool_flush_crash_safe IdealBatchSize p d id drops order :
  queued_closed p drops -> map_Forall (fun _ w => usable w = true) (live p drops) ->
  (forall x w md, live p drops !! x = Some w -> lz_modified w = Some md -> md !! flag_key = None) ->
  (forall i, covers (live p drops) (order i)) ->
  (forall k, exists pk dk, go_fold drop_step (p, d) (take k drops) = Ret (pk, dk) /\ forall x, file dk x = after_drops p d (take k drops) x) /\
  exists p' d' err, pool_flush IdealBatchSize p d id drops order = Ret (p', d', err) /\
    match err with
    | Some _ =>
        (forall x, file d' x = after_drops p d drops x) \/
        (forall names, (forall x, is_Some (files d' !! x) -> x ∈ names) ->
           exists msg, NewSyncedPool d' names = Fault (Crit msg))
    | None =>
        (forall x w, live p drops !! x = Some w -> exists md, lz_modified w = Some md /\
           file d' x = <[flag_key := Some id]> (overlay md (file d x))) /\
        (forall x, live p drops !! x = None -> file d' x = after_drops p d drops x) /\
        (forall names, HasPrefix id dirty_prefix = false ->
           (forall x, x ∈ names -> is_Some (live p drops !! x)) -> returns (NewSyncedPool d' names))
    end.
Proof.
  intros Hq Hus Hcache Hord. split.
  { intros k. destruct (drops_spec (take k drops) p d) as (pk & dk & E & _ & Hk); [|by exists pk, dk].
    intros x w Hx. apply Hq. eapply elem_of_take in Hx as (i & Hi & _). by eapply list_elem_of_lookup_2. }
  unfold pool_flush. destruct (drops_spec drops p d Hq) as (p1 & d1 & -> & Hw & Hf). rewrite go_bind_Ret, Hw.
  destruct (dirty_loop (live p drops) d1 id Hcache Hus (order 0%nat) (mkPool (live p drops) ∅) (Hord _) eq_refl)
    as (p2 & d2 & err2 & -> & H2). rewrite go_bind_Ret. destruct err2 as [e|].
  { rewrite for_wrapper_error, go_bind_Ret, for_wrapper_error. eexists _, _, _. split; [done|].
    destruct H2 as [H2|H2]; [right|left; intros x; by rewrite H2, Hf]. intros names Hn. by apply stopped_refused. }
  destruct (data_loop IdealBatchSize (live p drops) d1 Hcache Hus (order 0%nat) (order 1%nat) p2 d2 (Hord _) (Hord _) H2)
    as (p3 & d3 & err3 & -> & H3). rewrite go_bind_Ret. destruct err3 as [e|].
  { rewrite for_wrapper_error. eexists _, _, _. split; [done|]. right. intros names Hn. by apply stopped_refused. }
  destruct (clean_loop (live p drops) d1 id Hcache Hus (order 1%nat) (order 2%nat) p3 d3 (Hord _) (Hord _) H3)
    as (p4 & d4 & err4 & -> & H4). eexists _, _, _. split; [done|].
  destruct err4 as [e|]; [right; intros names Hn; by apply stopped_refused|].
  destruct H4 as (_ & Hnone & _ & Hdata & Hflag & _). split_and!; [|intros x Hx; by rewrite Hnone, Hf|].
  - intros x w Hxw. destruct (Hdata x w Hxw) as (md & Hmd & Hsd). exists md. split; [done|].
    assert (file d1 x = file d x) as <-.
    { rewrite Hf. unfold after_drops. apply map_lookup_filter_Some in Hxw as [_ Hx]. cbn in Hx. by rewrite bool_decide_false. }
    rewrite <-(same_data_flag _ _ (Some id) Hsd). symmetry. apply insert_id, Hflag, Hord. eauto.
  - intros names Hid Hn. unfold NewSyncedPool, checkDbsSynced.
    rewrite (check_marks_clean d4 names id Hid); [by eexists| |done].
    apply Forall_forall. intros x Hx. by apply Hflag, Hord, Hn.
Qed.

(** Two databases with one cached write each, and one that was closed and dropped. *)
Definition ex_id0 : bytes := [1].
Definition ex_id1 : bytes := [2].
Definition ex_opened : SyncedPool :=
  mkPool (<["a" := mkLazy (Some {[ [7] := Some [8] ]}) 2 false true]>
         (<["b" := mkLazy (Some {[ [9] := None ]}) 1 false true]>
         {[ "c" := mkLazy (Some ∅) 0 false true ]})) ∅.

(** The database is closed and dropped through its wrapper. *)
Definition close_and_drop (p : SyncedPool) (name : string) : SyncedPool :=
  match wrappers p !! name with
  | None => p
  | Some w =>
    match LazyFlushable_Close w with
    | Fault _ => p
    | Ret w => match pool_Drop (mkPool (<[name := w]> (wrappers p)) (queuedDrops p)) name w with Ret p => p | Fault _ => p end
    end
  end.
Definition ex_pool : SyncedPool := close_and_drop ex_opened "c".
Definition ex_disks (n : nat) : disks :=
  mkDisks (<["a" := {[ flag_key := Some ex_id0 ]}]>
          (<["b" := <[flag_key := Some ex_id0]> {[ [9] := Some [10] ]}]>
          {[ "c" := <[flag_key := Some ex_id0]> {[ [11] := Some [12] ]} ]})) n.

Example ex_queued : queuedDrops ex_pool = {["c"]}.
Proof. vm_compute. reflexivity. Qed.

Lemma ex_live : live ex_pool ["c"] = <["a" := mkLazy (Some {[ [7] := Some [8] ]}) 2 false true]> {[ "b" := mkLazy (Some {[ [9] := None ]}) 1 false true ]}.
Proof. vm_compute. reflexivity. Qed.

Lemma ex_covers : covers (live ex_pool ["c"]) ["a"; "b"].
Proof.
  rewrite ex_live. split; [by apply (bool_decide_unpack _); vm_compute|]. intros x.
  rewrite lookup_insert_is_Some, lookup_singleton_is_Some. set_unfold.
  destruct (decide ("a" = x)); naive_solver.
Qed.

(** The disk and the error when the third write is the last one. *)
Definition ex_crash : disks * option kv_error :=
  match pool_flush 100 ex_pool (ex_disks 3) ex_id1 ["c"] (fun _ => ["a"; "b"]) with
  | Ret (_, d, err) => (d, err)
  | Fault _ => (ex_disks 0, None)
  end.

Lemma ex_crash_eq :
  ex_crash = match pool_flush 100 ex_pool (ex_disks 3) ex_id1 ["c"] (fun _ => ["a"; "b"]) with
             | Ret (_, d, err) => (d, err)
             | Fault _ => (ex_disks 0, None)
             end.
Proof. reflexivity. Qed.

Lemma pool_flush_crash_safe_witness :
  (exists p' d', pool_flush 100 ex_pool (ex_disks 3) ex_id1 ["c"] (fun _ => ["a"; "b"]) = Ret (p', d', Some errDisk) /\
    exists msg, NewSyncedPool d' ["b"; "a"] = Fault (Crit msg)) /\
  exists pk dk, go_fold drop_step (ex_pool, ex_disks 3) ["c"] = Ret (pk, dk) /\ file dk "a" = file (ex_disks 3) "a" /\ file dk "c" = ∅.
Proof.
  destruct (pool_flush_crash_safe 100 ex_pool (ex_disks 3) ex_id1 ["c"] (fun _ => ["a"; "b"]))
    as (Hdrops & p' & d' & err & E & H).
  - intros x w ->%list_elem_of_singleton. vm_compute. intros [= <-]. by right.
  - rewrite ex_live. apply map_Forall_insert_2; [done|]. by apply map_Forall_singleton.
  - intros x w md. rewrite ex_live, lookup_insert_Some, lookup_singleton_Some.
    intros [[<- <-]|[_ [<- <-]]]; simpl; intros [= <-]; by rewrite lookup_singleton_ne.
  - intros _. apply ex_covers.
  - split.
    + assert (err = Some errDisk) as -> by (transitivity (ex_crash.2); [by rewrite ex_crash_eq, E|by vm_compute]).
      assert (d' = ex_crash.1) as Hd by (by rewrite ex_crash_eq, E).
      exists p', d'. split; [done|]. rewrite Hd in H |- *.
      destruct H as [H|H]; [by specialize (H "a"); vm_compute in H|].
      apply (H ["b"; "a"]). intros x [m Hm].
      assert (map_Forall (fun y (_ : gmap bytes slice) => y ∈ ["b"; "a"]) (files ex_crash.1)) as Hall.
      { apply (bool_decide_unpack _). by vm_compute. }
      exact (Hall x m Hm).
    + destruct (Hdrops 1%nat) as (pk & dk & Ek & Hk). exists pk, dk. split; [exact Ek|]. split; [by rewrite (Hk "a")|]. by rewrite (Hk "c").
Defined.

(** the drops are not covered by the flags.  A crash after the queued
    drops and before the first dirty flag leaves databases that the next start
    accepts as the state of the previous flush, with a database of that state
    missing. *)
Theorem dropped_database_unnoticed :
  exists p' d', pool_flush 100 ex_pool (ex_disks 0) ex_id1 ["c"] (fun _ => ["a"; "b"]) = Ret (p', d', Some errDisk) /\
    returns (NewSyncedPool d' ["a"; "b"]) /\ file d' "a" = file (ex_disks 0) "a" /\ file d' "b" = file (ex_disks 0) "b" /\
    is_Some (file (ex_disks 0) "c" !! [11]) /\ files d' !! "c" = None.
Proof.
  eexists _, _. split; [by vm_compute|]. split; [by eexists|]. split; [by vm_compute|]. split; [by vm_compute|].
  split; [by eexists|by vm_compute].
Qed.
