(* ===== verification/KvdbSpec.v ===== *)
(** * What the key-value stores promise

    The abstract specification of [Flushable] as a machine on a pair of maps,
    and the refinement; the isolation of tables that share a database; the
    wrappers kvdb/fallible and kvdb/skiperrors, [Move] and [Copy] of
    kvdb/utils.go and the id store; and a flush that forgets writes when its
    last batch fails. *)

From S2P Require Import Prelude Bytes Kvdb KvdbLaws SyncedPool.

(** ** fallible.Fallible *)

Record Fallible (S : Type) := mkFallible { fa_underlying : S; fa_writes : Z }.
Arguments mkFallible {S} _ _.
Arguments fa_underlying {S} _.
Arguments fa_writes {S} _.

(** A 32-bit signed counter. *)
Definition i32 (z : Z) : Z := (z + 2147483648) mod 4294967296 - 2147483648.

Section Fallible.
Context {S : Type} `{Store S}.
Implicit Types f : Fallible S.

Definition Fallible_Wrap (db : S) : Fallible S := mkFallible db 0.
Definition SetWriteCount f (n : Z) : Fallible S := mkFallible (fa_underlying f) (i32 n).
Definition GetWriteCount f : Z := fa_writes f.
Definition Fallible_count f : bool * Fallible S :=
  let c := i32 (fa_writes f - 1) in (0 <=? c, mkFallible (fa_underlying f) c).

Definition Fallible_Has f (key : bytes) := store_Has (fa_underlying f) key.
Definition Fallible_Get f (key : bytes) := store_Get (fa_underlying f) key.
Definition Fallible_Put f (key : bytes) (value : slice) : go (Fallible S * option kv_error) :=
  let '(ok, f) := Fallible_count f in
  if negb ok then Fault (PanicMsg "write limit is over")
  else '(db, err) ← store_Put (fa_underlying f) key value; Ret (mkFallible db (fa_writes f), err).
Definition Fallible_Delete f (key : bytes) : go (Fallible S * option kv_error) :=
  '(db, err) ← store_Delete (fa_underlying f) key; Ret (mkFallible db (fa_writes f), err).

End Fallible.

(** ** skiperrors.wrapper *)

Record SkipErrors (S : Type) := mkSkipErrors { sk_underlying : S; sk_errs : list kv_error }.
Arguments mkSkipErrors {S} _ _.
Arguments sk_underlying {S} _.
Arguments sk_errs {S} _.

#[global] Instance kv_error_eq_dec : EqDecision kv_error.
Proof. solve_decision. Defined.

Section SkipErrors.
Context {S : Type} `{Store S}.
Implicit Types f : SkipErrors S.

Definition skip f (got : option kv_error) : bool :=
  match got with None => false | Some e => bool_decide (e ∈ sk_errs f) end.

Definition skip_result {A} f (zero : A) (r : go (kv_error + A)) : go (kv_error + A) :=
  x ← r; match x with
         | inl e => if skip f (Some e) then Ret (inr zero) else Ret (inl e)
         | inr a => Ret (inr a)
         end.

Definition skip_write f (r : go (S * option kv_error)) : go (SkipErrors S * option kv_error) :=
  '(db, err) ← r; Ret (mkSkipErrors db (sk_errs f), if skip f err then None else err).

Definition skip_Has f (key : bytes) := skip_result f false (store_Has (sk_underlying f) key).
Definition skip_Get f (key : bytes) := skip_result f None (store_Get (sk_underlying f) key).
Definition skip_Put f (key : bytes) (value : slice) := skip_write f (store_Put (sk_underlying f) key value).
Definition skip_Delete f (key : bytes) := skip_write f (store_Delete (sk_underlying f) key).

End SkipErrors.

(** ** utils.go and id_store.go *)

Section utils.
Context {A B : Type} `{StoreLaws A} `{StoreLaws B}.

(** The loop that writes the pairs into the destination; it ends at the first
    error. *)
Definition copy_step (st : B * option kv_error) (kv : bytes * slice) : go (B * option kv_error) :=
  let '(dst, err) := st in
  match err with Some _ => Ret st | None => store_Put dst kv.1 kv.2 end.

Definition delete_step (st : A * option kv_error) (key : bytes) : go (A * option kv_error) :=
  let '(src, err) := st in
  match err with Some _ => Ret st | None => store_Delete src key end.

Definition Copy (src : A) (dst : B) (prefix : bytes) : go (B * option kv_error) :=
  go_fold copy_step (dst, None) (store_Iterate src prefix).

Definition Move (src : A) (dst : B) (prefix : bytes) : go (A * B * option kv_error) :=
  let pairs := store_Iterate src prefix in
  '(dst, err) ← go_fold copy_step (dst, None) pairs;
  match err with
  | Some _ => Ret (src, dst, err)
  | None => '(src, err) ← go_fold delete_step (src, None) pairs.*1; Ret (src, dst, err)
  end.

(** The key of the id store is "id"; an absent id reads as the empty one. *)
Definition id_key : bytes := [105; 100].
Definition GetID (table : A) : go bytes :=
  r ← store_Get table id_key;
  match r with
  | inl _ => Fault (Crit "Failed to get key-value")
  | inr v => Ret (default [] v)
  end.
Definition SetID (table : A) (v : bytes) : go A :=
  '(table, err) ← store_Put table id_key (Some v);
  match err with
  | Some _ => Fault (Crit "Failed to put key-value")
  | None => Ret table
  end.

Lemma copy_loop_spec (l : list (bytes * slice)) (dst : B) dm :
  store_view dst = Some dm -> Forall (fun kv => is_Some kv.2) l ->
  exists dst', go_fold copy_step (dst, None) l = Ret (dst', None) /\
    store_view dst' = Some (foldl (fun m kv => <[kv.1 := kv.2]> m) dm l).
Proof.
  revert dst dm. induction l as [|[k [v|]] l IH]; intros dst dm Hd Hl; cbn [go_fold foldl].
  - eauto.
  - apply Forall_cons in Hl as [_ Hl]. destruct (law_Put dst dm k v Hd) as (d' & E & Hd').
    cbn [copy_step fst snd]. rewrite E. by apply IH.
  - apply Forall_cons in Hl as [[? ?] _]. done.
Qed.

Lemma delete_loop_spec (l : list bytes) (src : A) sm :
  store_view src = Some sm ->
  exists src', go_fold delete_step (src, None) l = Ret (src', None) /\
    store_view src' = Some (foldl (fun m k => delete k m) sm l).
Proof.
  revert src sm. induction l as [|k l IH]; intros src sm Hs; cbn [go_fold foldl]; [eauto|].
  destruct (law_Delete src sm k Hs) as (s' & E & Hs'). cbn [delete_step]. rewrite E. by apply IH.
Qed.

End utils.

Lemma foldl_insert_lookup (l : list (bytes * slice)) (m : gmap bytes slice) (k : bytes) :
  NoDup l.*1 ->
  foldl (fun m kv => <[kv.1 := kv.2]> m) m l !! k =
  match (list_to_map l : gmap bytes slice) !! k with Some x => Some x | None => m !! k end.
Proof.
  revert m. induction l as [|[k' x] l IH]; intros m Hnd; cbn [foldl]; [done|].
  apply NoDup_cons in Hnd as [Hk Hnd]. rewrite IH by done. simpl. rewrite !lookup_insert.
  case_decide; [|done]. subst. by rewrite (not_elem_of_list_to_map_1 l k).
Qed.

Lemma foldl_delete_lookup (l : list bytes) (m : gmap bytes slice) (k : bytes) :
  foldl (fun m k => delete k m) m l !! k = if decide (k ∈ l) then None else m !! k.
Proof.
  revert m. induction l as [|k' l IH]; intros m; cbn [foldl].
  - by rewrite decide_False by apply not_elem_of_nil.
  - rewrite IH, lookup_delete. repeat case_decide; set_solver.
Qed.

(** [Move] moves exactly the pairs with the prefix: afterwards the
    destination holds them over its own pairs, and the source holds the other
    pairs. *)
Theorem move_moves {A B} `{StoreLaws A} `{StoreLaws B} (src : A) (dst : B) (sm dm : gmap bytes slice) prefix :
  store_view src = Some sm -> store_view dst = Some dm ->
  (forall k x, sm !! k = Some x -> is_Some x) ->
  exists src' dst' sm' dm', Move src dst prefix = Ret (src', dst', None) /\
    store_view src' = Some sm' /\ store_view dst' = Some dm' /\
    forall k, (sm' !! k = if HasPrefix k prefix then None else sm !! k) /\
              (dm' !! k = if HasPrefix k prefix && bool_decide (is_Some (sm !! k)) then sm !! k else dm !! k).
Proof.
  intros Hs Hd Hval. unfold Move. rewrite (law_Iterate _ _ _ Hs).
  set (l := entries_with_prefix prefix sm).
  assert (forall k x, (k, x) ∈ l <-> HasPrefix k prefix = true /\ sm !! k = Some x) as Hl
    by (intros; apply elem_of_entries_with_prefix).
  pose proof (entries_with_prefix_nodup prefix sm : NoDup l.*1) as Hnd.
  destruct (copy_loop_spec l dst dm Hd) as (dst' & -> & Hd').
  { apply Forall_forall. intros [k x] Hin. apply Hl in Hin as [_ Hx]. by eapply Hval. }
  rewrite go_bind_Ret. destruct (delete_loop_spec l.*1 src sm Hs) as (src' & -> & Hs').
  rewrite go_bind_Ret. eexists _, _, _, _. split_and!; [done|exact Hs'|exact Hd'|].
  intros k. rewrite foldl_delete_lookup, foldl_insert_lookup by done.
  assert (k ∈ l.*1 <-> HasPrefix k prefix = true /\ is_Some (sm !! k)) as Hk.
  { rewrite list_elem_of_fmap. split.
    - intros ([k' x] & -> & [? ?]%Hl). simpl. eauto.
    - intros [Hp [x Hx]]. exists (k, x). rewrite Hl. done. }
  destruct ((list_to_map l : gmap bytes slice) !! k) as [x|] eqn:El.
  - apply elem_of_list_to_map_2, Hl in El as [Hp Hx]. rewrite decide_True by (apply Hk; eauto).
    rewrite Hp, Hx. done.
  - apply not_elem_of_list_to_map_2 in El. rewrite decide_False by done. rewrite Hk in El.
    destruct (HasPrefix k prefix); [|done]. simpl. destruct (sm !! k) eqn:E; [naive_solver|].
    by rewrite bool_decide_false by (by intros []).
Qed.

Definition example_db : Database := mkDatabase (Some (<[ [1; 5] := Some [50] ]> {[ [2] := Some [20] ]})).

Lemma move_moves_witness :
  exists src' dst', Move example_db memorydb_New [1] = Ret (src', dst', None) /\
    db_map src' = Some {[ [2] := Some [20] ]} /\ db_map dst' = Some {[ [1; 5] := Some [50] ]}.
Proof.
  destruct (move_moves example_db memorydb_New (<[ [1; 5] := Some [50] ]> {[ [2] := Some [20] ]}) ∅ [1])
    as (src' & dst' & sm' & dm' & E & _); [done|done| |].
  - intros k x. rewrite lookup_insert_Some, lookup_singleton_Some. naive_solver.
  - exists src', dst'. split; [done|]. vm_compute in E. injection E as <- <-. split; by vm_compute.
Defined.

(** ** The abstract machine of Flushable

    The state is what a reader sees and what the parent holds. *)

Inductive kv_op :=
  | OPut (k : bytes) (v : slice)
  | ODelete (k : bytes)
  | OWrite (ws : list write)
  | OFlush
  | ODropNotFlushed
  | OGet (k : bytes)
  | OHas (k : bytes)
  | OIterate (prefix : bytes).

Inductive kv_answer :=
  | ADone (err : option kv_error)
  | AValue (v : slice)
  | AHas (b : bool)
  | APairs (l : list (bytes * slice)).

Abbreviation kv_state := (gmap bytes slice * gmap bytes slice)%type.

Definition abs_kv_op (st : kv_state) (op : kv_op) : kv_answer * kv_state :=
  let '(cur, base) := st in
  match op with
  | OPut k None => (ADone (Some errNilKeyOrValue), st)
  | OPut k (Some v) => (ADone None, (<[k := Some v]> cur, base))
  | ODelete k => (ADone None, (delete k cur, base))
  | OWrite ws => (ADone None, (foldl apply_write cur ws, base))
  | OFlush => (ADone None, (cur, cur))
  | ODropNotFlushed => (ADone None, (base, base))
  | OGet k => (AValue (mjoin (cur !! k)), st)
  | OHas k => (AHas (bool_decide (is_Some (cur !! k))), st)
  | OIterate p => (APairs (entries_with_prefix p cur), st)
  end.

Fixpoint abs_run (st : kv_state) (ops : list kv_op) : list kv_answer * kv_state :=
  match ops with
  | [] => ([], st)
  | op :: ops => let '(a, st) := abs_kv_op st op in
                 let '(l, st) := abs_run st ops in (a :: l, st)
  end.

Section machine.
Context {S : Type} `{HS : StoreLaws S} (IdealBatchSize : Z).
Implicit Types w : Flushable S.

Definition reading {X} (f : X -> kv_answer) w (r : go (kv_error + X)) : go (kv_answer * Flushable S) :=
  x ← r; match x with inl e => Ret (ADone (Some e), w) | inr x => Ret (f x, w) end.
Definition writing (r : go (Flushable S * option kv_error)) : go (kv_answer * Flushable S) :=
  '(w, err) ← r; Ret (ADone err, w).

Definition exec_kv_op w (op : kv_op) : go (kv_answer * Flushable S) :=
  match op with
  | OPut k v => writing (Flushable_put w k v)
  | ODelete k => writing (Flushable_delete w k)
  | OWrite ws => writing (cacheBatch_Write w ws)
  | OFlush => writing (Flushable_flush IdealBatchSize w)
  | ODropNotFlushed => w ← Flushable_dropNotFlushed w; Ret (ADone None, w)
  | OGet k => reading AValue w (Flushable_Get w k)
  | OHas k => reading AHas w (Flushable_Has w k)
  | OIterate p => Ret (APairs (Flushable_Iterate w p), w)
  end.

Fixpoint run_kv w (ops : list kv_op) : go (list kv_answer * Flushable S) :=
  match ops with
  | [] => Ret ([], w)
  | op :: ops => '(a, w) ← exec_kv_op w op; '(l, w) ← run_kv w ops; Ret (a :: l, w)
  end.

(** A batch is filled with values, not with nil slices. *)
Definition kv_op_ok (op : kv_op) : Prop :=
  match op with OWrite ws => Forall proper_write ws | _ => True end.

Definition kv_sim w (st : kv_state) : Prop :=
  Flushable_view w = Some st.1 /\ store_view (underlying w) = Some st.2.

Lemma exec_kv_sim w st op :
  kv_sim w st -> kv_op_ok op ->
  exists w', exec_kv_op w op = Ret ((abs_kv_op st op).1, w') /\ kv_sim w' (abs_kv_op st op).2.
Proof.
  destruct st as [cur base]. intros [Hv Hu] Hok. simpl in Hv, Hu. unfold kv_sim.
  destruct op as [k [v|]|k|ws| | |k|k|p]; cbn [exec_kv_op abs_kv_op fst snd].
  - destruct (Flushable_put_spec w cur k v Hv) as (w' & -> & Hu' & Hv'). exists w'. by rewrite Hu'.
  - by exists w.
  - destruct (Flushable_delete_spec w cur k Hv) as (w' & -> & Hu' & Hv'). exists w'. by rewrite Hu'.
  - destruct (cacheBatch_Write_spec ws w cur Hv Hok) as (w' & -> & Hu' & Hv'). exists w'. by rewrite Hu'.
  - destruct (Flushable_flush_spec IdealBatchSize w cur Hv) as (u & -> & Hu').
    exists (mkFlushable u (Some ∅) 0). split_and!; [done| |done].
    unfold Flushable_view. cbn [modified underlying]. simpl. rewrite Hu'. simpl. by rewrite overlay_empty.
  - destruct (Flushable_drop_spec w cur Hv) as (w' & -> & Hu' & _ & Hv'). exists w'.
    rewrite Hv', Hu', Hu. done.
  - exists w. pose proof (law_Get w cur k Hv) as E. cbn [store_Get Flushable_Store] in E. by rewrite E.
  - exists w. pose proof (law_Has w cur k Hv) as E. cbn [store_Has Flushable_Store] in E. by rewrite E.
  - exists w. by rewrite (Flushable_Iterate_spec w cur p Hv).
Qed.

Lemma run_kv_sim ops w st :
  kv_sim w st -> Forall kv_op_ok ops ->
  exists w', run_kv w ops = Ret ((abs_run st ops).1, w') /\ kv_sim w' (abs_run st ops).2.
Proof.
  revert w st. induction ops as [|op ops IH]; intros w st Hs Hok; cbn [run_kv abs_run]; [eauto|].
  apply Forall_cons in Hok as [Hop Hok].
  destruct (exec_kv_sim w st op Hs Hop) as (w1 & -> & H1). rewrite go_bind_Ret.
  destruct (abs_kv_op st op) as [a st1]. cbn [fst snd] in *.
  destruct (IH w1 st1 H1 Hok) as (w2 & -> & H2). rewrite go_bind_Ret.
  destruct (abs_run st1 ops) as [l st2]. eauto.
Qed.

End machine.

(** C40: [Flushable] over any lawful store is a map with a transaction: for
    every sequence of puts, deletions, batches, flushes, drops, reads and
    iterations, and whatever the size at which a flush writes its batches out,
    the answers are those of a pair of maps, of which [Flush] makes the second
    equal to the first and [DropNotFlushed] the first equal to the second;
    iterators give the merged pairs in the order of the keys. *)
Theorem flushable_refines_map {S} `{HS : StoreLaws S} (IdealBatchSize : Z) (parent : S) m ops :
  store_view parent = Some m -> Forall kv_op_ok ops ->
  exists w', run_kv IdealBatchSize (Flushable_Wrap parent) ops = Ret ((abs_run (m, m) ops).1, w') /\
    kv_sim w' (abs_run (m, m) ops).2.
Proof.
  intros Hm Hops. apply run_kv_sim; [|done]. split; [|done].
  unfold Flushable_view, Flushable_Wrap. simpl. rewrite Hm. simpl. by rewrite overlay_empty.
Qed.

Lemma flushable_refines_map_witness :
  exists w, run_kv 0 (Flushable_Wrap example_db)
    [OPut [3] (Some [7]); ODelete [2]; OIterate []; OFlush; ODelete [3]; ODropNotFlushed; OGet [3]] =
    Ret ([ADone None; ADone None; APairs [([1; 5], Some [50]); ([3], Some [7])]; ADone None; ADone None;
          ADone None; AValue (Some [7])], w).
Proof.
  destruct (flushable_refines_map 0 example_db (<[ [1; 5] := Some [50] ]> {[ [2] := Some [20] ]})
    [OPut [3] (Some [7]); ODelete [2]; OIterate []; OFlush; ODelete [3]; ODropNotFlushed; OGet [3]])
    as (w & E & _); [done|by repeat constructor|].
  exists w. rewrite E. by vm_compute.
Defined.

(** ** Tables that share a database *)

(** Two prefixes of one byte string: one extends the other. *)
Lemma HasPrefix_comparable (s p q : bytes) :
  HasPrefix s p = true -> HasPrefix s q = true -> HasPrefix p q = true \/ HasPrefix q p = true.
Proof.
  revert s q. induction p as [|x p IH]; intros s q Hp Hq; [by right; apply HasPrefix_spec; eexists|].
  destruct q as [|y q]; [left; apply HasPrefix_spec; by eexists|].
  destruct s as [|z s]; [done|]. simpl in *. apply andb_true_iff in Hp as [->%Z.eqb_eq Hp], Hq as [->%Z.eqb_eq Hq].
  rewrite !Z.eqb_refl. simpl. by apply (IH s).
Qed.

Lemma strip_prefix_foreign (p q : bytes) (w : write) (m : gmap bytes slice) :
  HasPrefix p q = false -> HasPrefix q p = false ->
  strip_prefix q (apply_write m (prefixed_write p w)) = strip_prefix q m.
Proof.
  intros Hpq Hqp.
  assert (forall k : bytes, HasPrefix (p ++ k) q = false) as Hf.
  { intros k. destruct (HasPrefix (p ++ k) q) eqn:E; [|done].
    assert (HasPrefix (p ++ k) p = true) as Ep by (apply HasPrefix_spec; eauto).
    destruct (HasPrefix_comparable _ _ _ E Ep); congruence. }
  destruct w as [k v|k]; simpl; [by apply strip_prefix_insert_ne|].
  apply map_eq. intros k'. rewrite !lookup_strip_prefix, lookup_delete. case_decide as E; [|done].
  specialize (Hf k). unfold prefixed in E. rewrite E in Hf.
  assert (HasPrefix (q ++ k') q = true) by (apply HasPrefix_spec; eauto). congruence.
Qed.

(** tables of one database do not interfere: a batch written to the table
    with one prefix changes its contents as on a map of its own, and leaves the
    contents of a table whose prefix neither extends the first nor is extended
    by it as they were. *)
Theorem tables_isolated {S} `{HS : StoreLaws S} (db : S) (p q : bytes) ws m mq :
  HasPrefix p q = false -> HasPrefix q p = false -> Forall proper_write ws ->
  Table_view (mkTable db p) = Some m -> Table_view (mkTable db q) = Some mq ->
  exists db', Table_batch_Write (mkTable db p) ws = Ret (mkTable db' p, None) /\
    Table_view (mkTable db' p) = Some (foldl apply_write m ws) /\
    Table_view (mkTable db' q) = Some mq.
Proof.
  intros Hpq Hqp Hws. unfold Table_view. simpl.
  destruct (store_view db) as [um|] eqn:Hv; [|done]. simpl. intros [= <-] [= <-].
  unfold Table_batch_Write. simpl.
  destruct (law_Write db um (prefixed_write p <$> ws) Hv) as (db' & E & Hv').
  { apply Forall_fmap. eapply Forall_impl; [exact Hws|]. by intros []. }
  rewrite E. exists db'. split_and!; [done|..]; rewrite Hv'; simpl; f_equal; clear -Hpq Hqp; revert um.
  - induction ws as [|w ws IH]; intros um; csimpl; [done|]. by rewrite IH, strip_prefix_write.
  - induction ws as [|w ws IH]; intros um; csimpl; [done|]. by rewrite IH, strip_prefix_foreign.
Qed.

Lemma tables_isolated_witness :
  exists db', Table_batch_Write (mkTable example_db [1]) [WPut [6] (Some [60]); WDelete [5]] =
      Ret (mkTable db' [1], None) /\
    Table_view (mkTable db' [1]) = Some {[ [6] := Some [60] ]} /\
    Table_view (mkTable db' [2]) = Some {[ [] := Some [20] ]}.
Proof.
  destruct (tables_isolated example_db [1] [2] [WPut [6] (Some [60]); WDelete [5]]
    {[ [5] := Some [50] ]} {[ [] := Some [20] ]}) as (db' & E & H1 & H2);
    [done|done|apply Forall_cons; split; [by eexists|]; apply Forall_singleton; done|by vm_compute|by vm_compute|].
  exists db'. split_and!; [done| |done]. rewrite H1. by vm_compute.
Defined.

(** ** A flush whose last write fails *)

(** [flush] forgets the cached writes before its last batch is written: if
    that write fails, the error is returned, but the writes are neither in the
    parent nor in the cache any more, and a second flush reports success. *)
Theorem failed_flush_forgets (IdealBatchSize : Z) (m : gmap bytes slice) (k v : bytes) :
  let w := mkFlushable (mkCrashDb m 0) (Some {[ k := Some v ]}) (zlen k + zlen v) in
  zlen v <= IdealBatchSize -> m !! k = None ->
  Flushable_Get w k = Ret (inr (Some v)) /\
  exists w', Flushable_flush IdealBatchSize w = Ret (w', Some errDisk) /\
    Flushable_Get w' k = Ret (inr None) /\ modified w' = Some ∅.
Proof.
  intros w Hsz Hm. split; [unfold Flushable_Get; simpl; by rewrite lookup_singleton_eq|].
  unfold Flushable_flush, w. cbn [modified underlying sizeEstimation].
  assert (sorted_entries {[ k := Some v ]} = [(k, Some v)]) as ->.
  { unfold sorted_entries. rewrite map_to_list_singleton. done. }
  cbn [go_fold flush_step app]. unfold entry_write. cbn [fst snd].
  assert ((store_ValueSize (Store := CrashDb_Store) [WPut k (Some v)] >? IdealBatchSize) = false) as ->
    by (simpl; unfold Database_batch_ValueSize; simpl; lia).
  rewrite go_bind_Ret. cbn [store_Write CrashDb_Store CrashDb_write cd_left]. rewrite !go_bind_Ret.
  eexists. split; [done|]. unfold Flushable_Get. simpl. by rewrite Hm.
Qed.

Lemma failed_flush_forgets_witness :
  exists w', Flushable_flush 10 (mkFlushable (mkCrashDb ∅ 0) (Some {[ [1] := Some [2] ]}) 2) = Ret (w', Some errDisk) /\
    Flushable_Get w' [1] = Ret (inr None).
Proof.
  destruct (failed_flush_forgets 10 ∅ [1] [2]) as (_ & w' & E & Hg & _); [done|done|eauto].
Defined.
