(* ===== verification/Pos.v ===== *)
(** * Validators and stakes: inter/pos

    The group of validators of an epoch with its caches, the genesis
    validators, and the stake counter that every vote of the consensus goes
    through.  The theorems: the caches hold the deterministic order of the
    validators, whatever the iteration order of the map; the counter holds
    the stake of the set of counted validators; two quorums share more than a
    third of the stake. *)

From S2P Require Import Prelude Bytes.
(** ** sort.go *)

Record validator := mkValidator { v_ID : Z; v_Stake : Z }.

#[global] Instance validator_eq_dec : EqDecision validator.
Proof. solve_decision. Defined.

Definition validators_Less (a b : validator) : bool :=
  if decide (v_Stake a = v_Stake b) then v_ID a <? v_ID b else v_Stake a >? v_Stake b.

(** The order [sort.Sort] establishes: no element is [Less] than one before
    it. *)
Definition validator_le (a b : validator) : Prop := validators_Less b a = false.
#[global] Instance validator_le_dec a b : Decision (validator_le a b).
Proof. unfold validator_le. apply _. Defined.

(** ** validators.go *)

Record cache := mkCache {
  indexes : gmap Z Z;
  stakes : list Z;
  ids : list Z;
  totalStake : Z
}.

Record Validators := mkValidators { values : gmap Z Z; vcache : cache }.

Definition builder_Set (vv : gmap Z Z) (id stake : Z) : gmap Z Z :=
  if decide (stake = 0) then delete id vv else <[id := stake]> vv.

Definition sortedArray (vals : gmap Z Z) : list validator :=
  merge_sort validator_le ((fun p => mkValidator p.1 p.2) <$> map_to_list vals).

Definition calcCaches_step (c : cache) (iv : Z * validator) : cache :=
  let '(i, v) := iv in
  mkCache (<[v_ID v := u32 i]> (indexes c))
          (<[Z.to_nat i := v_Stake v]> (stakes c))
          (<[Z.to_nat i := v_ID v]> (ids c))
          (u64 (totalStake c + v_Stake v)).

Definition enumerate {A} (l : list A) : list (Z * A) := imap (fun i x => (Z.of_nat i, x)) l.

Definition calcCaches (vals : gmap Z Z) : cache :=
  let n := size vals in
  foldl calcCaches_step (mkCache ∅ (replicate n 0) (replicate n 0) 0)
        (enumerate (sortedArray vals)).

Definition newValidators (vals : gmap Z Z) : Validators :=
  let valuesCopy := foldl (fun vv p => builder_Set vv p.1 p.2) ∅ (map_to_list vals) in
  mkValidators valuesCopy (calcCaches valuesCopy).

Definition Build (vv : gmap Z Z) : Validators := newValidators vv.
Definition EmptyValidators : Validators := Build ∅.

Definition EqualStakeValidators (l : list Z) (stake : Z) : Validators :=
  Build (foldl (fun b id => builder_Set b id stake) ∅ l).

(** [stakes[i]] panics when there are fewer stakes than ids. *)
Definition ArrayToValidators (l : list Z) (st : list Z) : go Validators :=
  b ← go_fold (fun b ix => s ← slice_at st ix.1; Ret (builder_Set b ix.2 s)) ∅ (enumerate l);
  Ret (Build b).

Definition Validators_Len (vv : Validators) : Z := Z.of_nat (size (values vv)).
Definition Validators_Get (vv : Validators) (id : Z) : Z := default 0 (values vv !! id).
Definition Validators_GetIdx (vv : Validators) (id : Z) : Z := default 0 (indexes (vcache vv) !! id).
Definition Validators_GetStakeByIdx (vv : Validators) (i : Z) : go Z :=
  slice_at (stakes (vcache vv)) i.
Definition Validators_Exists (vv : Validators) (id : Z) : bool :=
  bool_decide (is_Some (values vv !! id)).
Definition Validators_IDs (vv : Validators) : list Z := ids (vcache vv).
Definition Validators_SortedIDs (vv : Validators) : list Z := ids (vcache vv).
Definition Validators_SortedStakes (vv : Validators) : list Z := stakes (vcache vv).
Definition Validators_Idxs (vv : Validators) : gmap Z Z := indexes (vcache vv).
Definition Validators_Copy (vv : Validators) : Validators := newValidators (values vv).
Definition Validators_Builder (vv : Validators) : gmap Z Z := values (Validators_Copy vv).
Definition Validators_TotalStake (vv : Validators) : Z := totalStake (vcache vv).
Definition Validators_Quorum (vv : Validators) : Z :=
  u64 (u64 (Validators_TotalStake vv * 2) / 3 + 1).

(** The list that is given to RLP, and the group made of a decoded list. *)
Definition Validators_EncodeRLP (vv : Validators) : list validator := sortedArray (values vv).
Definition Validators_DecodeRLP (arr : list validator) : Validators :=
  Build (foldl (fun b w => builder_Set b (v_ID w) (v_Stake w)) ∅ arr).

(** ** stake.go *)

(** [balanceToStakeRatio = params.Ether / 1e3]; [Ether] is a constant of
    go-ethereum. *)
Definition balanceToStakeRatio (Ether : Z) : Z := Ether / 1000.

Definition BalanceToStake (Ether : Z) (balance : Z) : Z :=
  let stakeBig := balance / balanceToStakeRatio Ether in
  if (stakeBig <? 0) || (9223372036854775808 <=? stakeBig) then 0 else u64 stakeBig.

Definition StakeToBalance (Ether : Z) (stake : Z) : Z := i64 stake * balanceToStakeRatio Ether.

Record StakeCounter := mkStakeCounter {
  sc_validators : Validators;
  already : list bool;
  quorum : Z;
  sc_sum : Z
}.

Definition newStakeCounter (vv : Validators) : StakeCounter :=
  mkStakeCounter vv (replicate (size (values vv)) false) (Validators_Quorum vv) 0.

Definition StakeCounter_CountByIdx (s : StakeCounter) (stakerIdx : Z) : go (bool * StakeCounter) :=
  counted ← slice_at (already s) stakerIdx;
  if (counted : bool) then Ret (false, s)
  else already' ← slice_set (already s) stakerIdx true;
       stake ← Validators_GetStakeByIdx (sc_validators s) stakerIdx;
       Ret (true, mkStakeCounter (sc_validators s) already' (quorum s) (u64 (sc_sum s + stake))).

Definition StakeCounter_Count (s : StakeCounter) (v : Z) : go (bool * StakeCounter) :=
  StakeCounter_CountByIdx s (Validators_GetIdx (sc_validators s) v).

Definition StakeCounter_HasQuorum (s : StakeCounter) : bool := quorum s <=? sc_sum s.
Definition StakeCounter_Sum (s : StakeCounter) : Z := sc_sum s.

(** ** GValidators *)

Record GenesisValidator := mkGenesisValidator { gv_ID : Z; gv_Address : bytes; gv_Stake : Z }.

Definition GValidators_Validators (Ether : Z) (gv : list GenesisValidator) : Validators :=
  Build (foldl (fun b v => builder_Set b (gv_ID v) (BalanceToStake Ether (gv_Stake v))) ∅ gv).
Definition GValidators_TotalStake (gv : list GenesisValidator) : Z :=
  foldl (fun t v => t + gv_Stake v) 0 gv.
Definition GValidators_Map (gv : list GenesisValidator) : gmap Z GenesisValidator :=
  foldl (fun m v => <[gv_ID v := v]> m) ∅ gv.
Definition GValidators_Addresses (gv : list GenesisValidator) : list bytes := gv_Address <$> gv.

(** ** The order of the validators *)

Lemma validator_le_spec a b :
  validator_le a b <-> v_Stake b < v_Stake a \/ (v_Stake a = v_Stake b /\ v_ID a <= v_ID b).
Proof. unfold validator_le, validators_Less. case_decide; lia. Qed.

#[global] Instance validator_le_total : Total validator_le.
Proof. intros a b. rewrite !validator_le_spec. lia. Qed.
#[global] Instance validator_le_trans : Transitive validator_le.
Proof. intros a b c. rewrite !validator_le_spec. lia. Qed.
#[global] Instance validator_le_antisymm : AntiSymm (=) validator_le.
Proof.
  intros [i s] [j t]. rewrite !validator_le_spec. simpl. intros. f_equal; lia.
Qed.

Lemma sortedArray_perm vals :
  sortedArray vals ≡ₚ (fun p => mkValidator p.1 p.2) <$> map_to_list vals.
Proof. apply merge_sort_Permutation. Qed.

Lemma sortedArray_sorted vals : StronglySorted validator_le (sortedArray vals).
Proof. apply StronglySorted_merge_sort; apply _. Qed.

Lemma elem_of_sortedArray vals v : v ∈ sortedArray vals <-> vals !! v_ID v = Some (v_Stake v).
Proof.
  rewrite sortedArray_perm, list_elem_of_fmap. split.
  - intros ([i s] & -> & Hin%elem_of_map_to_list). done.
  - intros Hv. exists (v_ID v, v_Stake v). split; [by destruct v|]. by apply elem_of_map_to_list.
Qed.

Lemma sortedArray_ids_nodup vals : NoDup (v_ID <$> sortedArray vals).
Proof. rewrite sortedArray_perm, <-list_fmap_compose. apply NoDup_fst_map_to_list. Qed.

Lemma length_sortedArray vals : length (sortedArray vals) = size vals.
Proof. by rewrite sortedArray_perm, length_fmap, length_map_to_list. Qed.

(** ** The caches *)

Lemma enumerate_cons {A} (x : A) l k :
  imap (fun i x => (Z.of_nat (k + i), x)) (x :: l) =
  (Z.of_nat k, x) :: imap (fun i x => (Z.of_nat (Datatypes.S k + i), x)) l.
Proof.
  csimpl. f_equal; [by rewrite Nat.add_0_r|]. apply imap_ext. intros i y _.
  unfold compose. f_equal. lia.
Qed.

Lemma calcCaches_loop (l : list validator) ix a b t :
  length b = length a ->
  foldl calcCaches_step
    (mkCache ix (a ++ replicate (length l) 0) (b ++ replicate (length l) 0) t)
    (imap (fun i x => (Z.of_nat (length a + i), x)) l) =
  mkCache (foldl (fun m p => <[v_ID p.2 := u32 p.1]> m) ix
                 (imap (fun i x => (Z.of_nat (length a + i), x)) l))
          (a ++ (v_Stake <$> l)) (b ++ (v_ID <$> l))
          (foldl (fun s v => u64 (s + v_Stake v)) t l).
Proof.
  revert ix a b t. induction l as [|v l IH]; intros ix a b t Hlen.
  { done. }
  rewrite enumerate_cons. cbn [foldl calcCaches_step indexes stakes ids totalStake length replicate].
  rewrite Nat2Z.id, !insert_app_r_alt by lia. rewrite Hlen, Nat.sub_diag. csimpl.
  specialize (IH (<[v_ID v := u32 (Z.of_nat (length a))]> ix) (a ++ [v_Stake v]) (b ++ [v_ID v])
                 (u64 (t + v_Stake v))).
  rewrite !length_app in IH. simpl in IH. replace (length a + 1)%nat with (S (length a)) in IH by lia.
  rewrite <-!app_assoc in IH. simpl in IH. rewrite IH by lia. done.
Qed.

Lemma calcCaches_eq vals :
  calcCaches vals =
  let l := sortedArray vals in
  mkCache (foldl (fun m p => <[v_ID p.2 := u32 p.1]> m) ∅ (enumerate l))
          (v_Stake <$> l) (v_ID <$> l) (foldl (fun s v => u64 (s + v_Stake v)) 0 l).
Proof.
  unfold calcCaches. rewrite <-length_sortedArray.
  exact (calcCaches_loop (sortedArray vals) ∅ [] [] 0 eq_refl).
Qed.

(** The index map of an enumerated list with distinct ids. *)
Lemma enumerate_indexes (l : list validator) k (ix : gmap Z Z) id :
  NoDup (v_ID <$> l) -> Z.of_nat (k + length l) <= 4294967296 ->
  foldl (fun m p => <[v_ID p.2 := u32 p.1]> m) ix
        (imap (fun i x => (Z.of_nat (k + i), x)) l) !! id =
  match list_find (fun v => v_ID v = id) l with
  | Some (i, _) => Some (Z.of_nat (k + i))
  | None => ix !! id
  end.
Proof.
  revert k ix. induction l as [|v l IH]; intros k ix Hnd Hk; [done|].
  rewrite enumerate_cons. csimpl in Hnd. apply NoDup_cons in Hnd as [Hnin Hnd].
  simpl length in Hk. cbn [foldl fst snd]. rewrite IH by (try done; lia).
  cbn [list_find]. case_decide as Hv.
  - destruct (list_find _ l) as [[i w]|] eqn:E; simpl.
    + apply list_find_Some in E as (Hi & Hw & _). destruct Hnin.
      rewrite Hv, <-Hw. apply list_elem_of_fmap. eexists. split; [done|].
      by eapply list_elem_of_lookup_2.
    + subst id. rewrite lookup_insert_eq, Nat.add_0_r. f_equal.
      apply u32_id. unfold is_u32. lia.
  - destruct (list_find _ l) as [[i w]|]; simpl; [f_equal; lia|].
    by rewrite lookup_insert_ne.
Qed.

(** Copying drops the zero stakes and nothing else. *)
Lemma copy_values (l : list (Z * Z)) id s :
  NoDup l.*1 ->
  foldl (fun vv p => builder_Set vv p.1 p.2) ∅ l !! id = Some s <-> (id, s) ∈ l /\ s <> 0.
Proof.
  induction l as [|[i t] l IH] using rev_ind; intros Hnd.
  { simpl. rewrite lookup_empty. set_solver. }
  rewrite fmap_app in Hnd. apply NoDup_app in Hnd as (Hnd & Hdisj & _).
  assert (forall t', (i, t') ∉ l) as Hi.
  { intros t' Hin. apply (Hdisj i); [|csimpl; set_solver].
    apply list_elem_of_fmap. by exists (i, t'). }
  rewrite foldl_app. simpl. rewrite elem_of_app, list_elem_of_singleton. specialize (IH Hnd).
  unfold builder_Set. case_decide as Ht.
  - rewrite lookup_delete. case_decide as Hid; [naive_solver|]. rewrite IH. naive_solver.
  - rewrite lookup_insert. case_decide as Hid; [naive_solver|]. rewrite IH. naive_solver.
Qed.

Lemma newValidators_values vals id s :
  values (newValidators vals) !! id = Some s <-> vals !! id = Some s /\ s <> 0.
Proof.
  unfold newValidators. simpl. rewrite copy_values by apply NoDup_fst_map_to_list.
  by rewrite elem_of_map_to_list.
Qed.

(** ** What a group of validators promises to the consensus *)

Record validators_ok (vv : Validators) : Prop := {
  vo_nodup : NoDup (Validators_SortedIDs vv);
  vo_size : size (values vv) = length (Validators_SortedIDs vv);
  vo_len : length (Validators_SortedStakes vv) = length (Validators_SortedIDs vv);
  vo_exists id : is_Some (values vv !! id) <-> id ∈ Validators_SortedIDs vv;
  vo_idx id i : Validators_Idxs vv !! id = Some i <-> slice_get (Validators_SortedIDs vv) i = Some id;
  vo_stake id i : slice_get (Validators_SortedIDs vv) i = Some id ->
    slice_get (Validators_SortedStakes vv) i = values vv !! id;
  vo_pos : Forall (fun s => 0 < s) (Validators_SortedStakes vv);
  vo_total : Validators_TotalStake vv = zsum (Validators_SortedStakes vv);
  vo_fits : 2 * Validators_TotalStake vv < 18446744073709551616;
  vo_count : zlen (Validators_SortedIDs vv) <= 4294967296
}.

(** The hypotheses under which the group is well formed: the stakes are
    unsigned, there are fewer than 2^32 validators, and twice the total stake
    fits a [uint64]. *)
Record stakes_fit (vals : gmap Z Z) : Prop := {
  sf_nonneg id s : vals !! id = Some s -> 0 <= s;
  sf_size : Z.of_nat (size vals) <= 4294967296;
  sf_total : 2 * zsum ((map_to_list vals).*2) < 18446744073709551616
}.

Lemma slice_get_fmap {A B} (f : A -> B) (l : list A) i : slice_get (f <$> l) i = f <$> slice_get l i.
Proof. unfold slice_get. case_decide; [apply list_lookup_fmap|done]. Qed.

Lemma slice_get_elem {A} (l : list A) i x : slice_get l i = Some x -> x ∈ l.
Proof. unfold slice_get. case_decide; [apply list_elem_of_lookup_2|done]. Qed.

Lemma elem_slice_get {A} (l : list A) x : x ∈ l -> exists i, slice_get l i = Some x.
Proof. intros [n Hn]%list_elem_of_lookup_1. exists (Z.of_nat n). by rewrite slice_get_nat. Qed.

Lemma slice_get_nodup {A} (l : list A) i j x :
  NoDup l -> slice_get l i = Some x -> slice_get l j = Some x -> i = j.
Proof.
  unfold slice_get. intros Hnd. repeat case_decide; try done. intros Hi Hj.
  pose proof (NoDup_lookup _ _ _ _ Hnd Hi Hj). lia.
Qed.

Lemma calcCaches_ok vals :
  stakes_fit vals -> (forall id s, vals !! id = Some s -> s <> 0) ->
  validators_ok (mkValidators vals (calcCaches vals)).
Proof.
  intros [Hnn Hsz Htot] Hnz. pose proof (sortedArray_ids_nodup vals) as Hnd.
  assert (zsum (v_Stake <$> sortedArray vals) = zsum ((map_to_list vals).*2)) as Hsum.
  { by rewrite sortedArray_perm, <-list_fmap_compose. }
  assert (Forall (fun v => 0 < v_Stake v) (sortedArray vals)) as Hpos.
  { apply Forall_forall. intros v Hv%elem_of_sortedArray.
    specialize (Hnn _ _ Hv). specialize (Hnz _ _ Hv). lia. }
  assert (0 <= zsum (v_Stake <$> sortedArray vals)) as H0.
  { apply zsum_nonneg, Forall_fmap. eapply Forall_impl; [exact Hpos|].
    intros v Hv. unfold compose. simpl in *. lia. }
  assert (foldl (fun s v => u64 (s + v_Stake v)) 0 (sortedArray vals)
          = zsum (v_Stake <$> sortedArray vals)) as Hfold.
  { rewrite foldl_u64_zsum; [lia|lia| |unfold is_u64; lia].
    eapply Forall_impl; [exact Hpos|]. intros v Hv. simpl in *. lia. }
  unfold Validators_Idxs, Validators_SortedIDs, Validators_SortedStakes, Validators_TotalStake.
  split; unfold Validators_Idxs, Validators_SortedIDs, Validators_SortedStakes,
    Validators_TotalStake; rewrite calcCaches_eq; simpl.
  - done.
  - by rewrite length_fmap, length_sortedArray.
  - by rewrite !length_fmap.
  - intros id. rewrite list_elem_of_fmap. split.
    + intros [s Hs]. exists (mkValidator id s). split; [done|]. by apply elem_of_sortedArray.
    + intros (v & -> & Hv%elem_of_sortedArray). eauto.
  - intros id i. rewrite (enumerate_indexes (sortedArray vals) 0) by
      (try done; rewrite length_sortedArray; simpl; lia).
    rewrite slice_get_fmap. destruct (list_find _ _) as [[n v]|] eqn:E.
    + apply list_find_Some in E as (Hn & Hv & _). simpl. split.
      * intros [= <-]. by rewrite slice_get_nat, Hn, <-Hv.
      * intros Hi. f_equal. apply (slice_get_nodup (v_ID <$> sortedArray vals) _ _ id Hnd);
          rewrite slice_get_fmap; [|done]. by rewrite slice_get_nat, Hn, <-Hv.
    + rewrite lookup_empty. split; [done|].
      destruct (slice_get (sortedArray vals) i) as [v|] eqn:Ev; [|done]. simpl. intros [= Hv].
      apply list_find_None in E. rewrite Forall_forall in E.
      destruct (E v); [by eapply slice_get_elem|done].
  - intros id i. rewrite !slice_get_fmap.
    destruct (slice_get (sortedArray vals) i) as [v|] eqn:Ev; [|done]. simpl. intros [= <-].
    symmetry. apply elem_of_sortedArray. by eapply slice_get_elem.
  - by apply Forall_fmap.
  - done.
  - lia.
  - unfold zlen. rewrite length_fmap, length_sortedArray. lia.
Qed.

Lemma zsum_filter_nonzero (l : list (Z * Z)) :
  zsum (filter (fun p => p.2 <> 0) l).*2 = zsum l.*2.
Proof.
  induction l as [|[i s] l IH]; [done|]. rewrite filter_cons, fmap_cons. cbn [zsum snd].
  case_decide as H; simpl in H; rewrite ?fmap_cons; cbn [zsum snd]; lia.
Qed.

Lemma newValidators_copy_fit vals :
  stakes_fit vals -> stakes_fit (values (newValidators vals)).
Proof.
  intros [Hnn Hsz Htot].
  assert (values (newValidators vals) = filter (fun p => p.2 <> 0) vals) as ->.
  { apply map_eq. intros id. apply option_eq. intros s.
    by rewrite newValidators_values, map_lookup_filter_Some. }
  split.
  - intros id s [Hs _]%map_lookup_filter_Some. eauto.
  - pose proof (map_size_filter (fun p : Z * Z => p.2 <> 0) vals). lia.
  - assert (map_to_list (filter (fun p => p.2 <> 0) vals)
            ≡ₚ filter (fun p => p.2 <> 0) (map_to_list vals)) as ->.
    { apply NoDup_Permutation; [apply NoDup_map_to_list|apply NoDup_filter, NoDup_map_to_list|].
      intros [id s]. rewrite list_elem_of_filter, !elem_of_map_to_list, map_lookup_filter_Some.
      tauto. }
    by rewrite zsum_filter_nonzero.
Qed.

Lemma newValidators_ok vals : stakes_fit vals -> validators_ok (newValidators vals).
Proof.
  intros Hfit. apply (calcCaches_ok (values (newValidators vals))).
  - by apply newValidators_copy_fit.
  - intros id s [_ ?]%newValidators_values. done.
Qed.

(** ** Stakes of sets of validators *)

Definition stake_at (vv : Validators) (i : Z) : Z :=
  default 0 (slice_get (Validators_SortedStakes vv) i).

Definition all_idx (vv : Validators) : gset Z :=
  list_to_set (seqZ 0 (zlen (Validators_SortedIDs vv))).

Definition stake_of (vv : Validators) (X : gset Z) : Z := wsum (stake_at vv) X.

Section stakes.
Context (vv : Validators) (Hvv : validators_ok vv).

Lemma elem_of_all_idx i : i ∈ all_idx vv <-> 0 <= i < zlen (Validators_SortedIDs vv).
Proof. unfold all_idx. rewrite elem_of_list_to_set, elem_of_seqZ. lia. Qed.

Lemma zlen_stakes : zlen (Validators_SortedStakes vv) = zlen (Validators_SortedIDs vv).
Proof. unfold zlen. by rewrite (vo_len _ Hvv). Qed.

Lemma stake_at_get i : i ∈ all_idx vv -> slice_get (Validators_SortedStakes vv) i = Some (stake_at vv i).
Proof.
  rewrite elem_of_all_idx, <-zlen_stakes. intros [s Hs]%slice_get_is_Some.
  unfold stake_at. by rewrite Hs.
Qed.

Lemma stake_at_nonneg i : 0 <= stake_at vv i.
Proof.
  unfold stake_at. destruct (slice_get _ i) as [s|] eqn:E; simpl; [|lia].
  pose proof (vo_pos _ Hvv) as Hp. rewrite Forall_forall in Hp.
  apply slice_get_elem, Hp in E. lia.
Qed.

Lemma stake_of_nonneg X : 0 <= stake_of vv X.
Proof. apply wsum_nonneg. intros i _. apply stake_at_nonneg. Qed.

Lemma stake_of_mono X Y : X ⊆ Y -> stake_of vv X <= stake_of vv Y.
Proof. apply wsum_mono. intros i _. apply stake_at_nonneg. Qed.

Lemma fmap_slice_seqZ (l : list Z) : (fun i => default 0 (slice_get l i)) <$> seqZ 0 (zlen l) = l.
Proof.
  apply list_eq. intros n. rewrite list_lookup_fmap.
  destruct (decide (n < length l)%nat) as [Hn|Hn].
  - rewrite lookup_seqZ_lt by (unfold zlen; lia). simpl. rewrite Z.add_0_l, slice_get_nat.
    by apply lookup_lt_is_Some in Hn as [x ->].
  - rewrite lookup_seqZ_ge by (unfold zlen; lia). symmetry. apply lookup_ge_None. lia.
Qed.

Lemma stake_of_all : stake_of vv (all_idx vv) = Validators_TotalStake vv.
Proof.
  unfold stake_of, all_idx. rewrite wsum_list by apply NoDup_seqZ.
  rewrite <-zlen_stakes. unfold stake_at. rewrite fmap_slice_seqZ. by rewrite (vo_total _ Hvv).
Qed.

Lemma stake_of_le_total X : X ⊆ all_idx vv -> stake_of vv X <= Validators_TotalStake vv.
Proof. intros HX. rewrite <-stake_of_all. by apply stake_of_mono. Qed.

(** The quorum is more than two thirds of the stake, without overflow. *)
Lemma Quorum_eq : Validators_Quorum vv = Validators_TotalStake vv * 2 / 3 + 1.
Proof.
  pose proof (vo_fits _ Hvv) as Hf.
  assert (0 <= Validators_TotalStake vv) by (rewrite <-stake_of_all; apply stake_of_nonneg).
  unfold Validators_Quorum. rewrite !u64_id; [done|word..].
Qed.

Definition is_quorum (X : gset Z) : Prop := Validators_Quorum vv <= stake_of vv X.

Lemma quorum_intersect X Y :
  X ⊆ all_idx vv -> Y ⊆ all_idx vv -> is_quorum X -> is_quorum Y ->
  Validators_TotalStake vv < 3 * stake_of vv (X ∩ Y).
Proof.
  unfold is_quorum. rewrite Quorum_eq. intros HX HY QX QY.
  pose proof (wsum_inter (stake_at vv) X Y) as Hi.
  pose proof (stake_of_le_total (X ∪ Y) ltac:(set_solver)) as Hu.
  fold (stake_of vv) in *. unfold stake_of in *. word.
Qed.

Lemma honest_quorum B :
  B ⊆ all_idx vv -> 3 * stake_of vv B < Validators_TotalStake vv -> is_quorum (all_idx vv ∖ B).
Proof.
  unfold is_quorum. rewrite Quorum_eq. intros HB Hlt.
  pose proof (wsum_split (stake_at vv) (all_idx vv) B) as Hs.
  replace (all_idx vv ∩ B) with B in Hs by set_solver.
  pose proof stake_of_all. unfold stake_of in *. word.
Qed.

(** ** The stake counter *)

(** The state of a counter: [X] is the set of validators counted so far. *)
Record counter_ok (s : StakeCounter) (X : gset Z) : Prop := {
  co_validators : sc_validators s = vv;
  co_quorum : quorum s = Validators_Quorum vv;
  co_already i : i ∈ all_idx vv -> slice_get (already s) i = Some (bool_decide (i ∈ X));
  co_len : zlen (already s) = zlen (Validators_SortedIDs vv);
  co_within : X ⊆ all_idx vv;
  co_sum : sc_sum s = stake_of vv X
}.

Lemma newStakeCounter_ok : counter_ok (newStakeCounter vv) ∅.
Proof.
  split; simpl; try done.
  - intros i Hi%elem_of_all_idx. rewrite bool_decide_eq_false_2 by set_solver.
    unfold slice_get. rewrite decide_True by lia. apply lookup_replicate.
    rewrite (vo_size _ Hvv). unfold zlen in Hi. lia.
  - unfold zlen. by rewrite length_replicate, (vo_size _ Hvv).
Qed.

Lemma CountByIdx_ok s X i :
  counter_ok s X -> i ∈ all_idx vv ->
  exists s', StakeCounter_CountByIdx s i = Ret (bool_decide (i ∉ X), s') /\
    counter_ok s' ({[i]} ∪ X).
Proof.
  intros [Hv Hq Ha Hl Hw Hs] Hi. unfold StakeCounter_CountByIdx, slice_at.
  rewrite (Ha i Hi). cbn. destruct (decide (i ∈ X)) as [HX|HX].
  - rewrite bool_decide_eq_true_2, bool_decide_eq_false_2 by (by auto). eexists. split; [done|].
    replace ({[i]} ∪ X) with X by set_solver. done.
  - rewrite bool_decide_eq_false_2, bool_decide_eq_true_2 by done.
    pose proof (proj1 (elem_of_all_idx i) Hi) as Hi'.
    rewrite slice_set_Ret by lia. cbn. unfold Validators_GetStakeByIdx, slice_at.
    rewrite Hv. fold (Validators_SortedStakes vv). rewrite (stake_at_get i Hi). cbn.
    eexists. split; [done|]. split; simpl; try done.
    + intros j Hj. rewrite slice_get_insert by lia. case_decide as E.
      * subst. by rewrite bool_decide_eq_true_2 by set_solver.
      * rewrite (Ha j Hj). f_equal. apply bool_decide_ext. set_solver.
    + unfold zlen. by rewrite length_insert.
    + set_solver.
    + rewrite Hs. unfold stake_of. rewrite wsum_insert by done.
      pose proof (stake_of_le_total ({[i]} ∪ X) ltac:(set_solver)) as Hle.
      pose proof (stake_of_nonneg X) as Hn. pose proof (stake_at_nonneg i).
      unfold stake_of in *. rewrite wsum_insert in Hle by done.
      pose proof (vo_fits _ Hvv). rewrite u64_id by word. lia.
Qed.

Lemma HasQuorum_ok s X : counter_ok s X -> StakeCounter_HasQuorum s = bool_decide (is_quorum X).
Proof.
  intros [_ Hq _ _ _ Hs]. unfold StakeCounter_HasQuorum, is_quorum. rewrite Hq, Hs.
  symmetry. apply bool_decide_ext_Zle.
Qed.

Lemma GetIdx_elem id : id ∈ Validators_SortedIDs vv ->
  slice_get (Validators_SortedIDs vv) (Validators_GetIdx vv id) = Some id /\
  Validators_GetIdx vv id ∈ all_idx vv.
Proof.
  intros [i Hi]%elem_slice_get. pose proof Hi as Hi'. apply (vo_idx _ Hvv) in Hi.
  unfold Validators_Idxs in Hi. unfold Validators_GetIdx. rewrite Hi. simpl.
  split; [done|]. apply elem_of_all_idx. by eapply slice_get_lt.
Qed.

Lemma GetIdx_inj id1 id2 : id1 ∈ Validators_SortedIDs vv -> id2 ∈ Validators_SortedIDs vv ->
  Validators_GetIdx vv id1 = Validators_GetIdx vv id2 -> id1 = id2.
Proof.
  intros [H1 _]%GetIdx_elem [H2 _]%GetIdx_elem E. rewrite E in H1. congruence.
Qed.

Lemma Count_ok s X id :
  counter_ok s X -> id ∈ Validators_SortedIDs vv ->
  exists s', StakeCounter_Count s id = Ret (bool_decide (Validators_GetIdx vv id ∉ X), s') /\
    counter_ok s' ({[Validators_GetIdx vv id]} ∪ X).
Proof.
  intros Hs [_ Hid]%GetIdx_elem. unfold StakeCounter_Count.
  rewrite (co_validators _ _ Hs). by apply CountByIdx_ok.
Qed.

End stakes.

(** ** Properties *)

(** Counting a list of validators one after the other in a fresh counter. *)
Definition count_all (vv : Validators) (l : list Z) : go StakeCounter :=
  go_fold (fun s id => '(_, s') ← StakeCounter_Count s id; Ret s') (newStakeCounter vv) l.

Definition idx_set (vv : Validators) (l : list Z) : gset Z :=
  list_to_set (Validators_GetIdx vv <$> l).

Lemma count_all_ok vv l :
  validators_ok vv -> l ⊆ Validators_SortedIDs vv ->
  exists s, count_all vv l = Ret s /\ counter_ok vv s (idx_set vv l).
Proof.
  intros Hvv Hl. unfold count_all.
  apply (go_fold_inv _ (fun done s => counter_ok vv s (idx_set vv done))).
  - by apply newStakeCounter_ok.
  - intros dn id rest s El Hs.
    destruct (Count_ok vv Hvv s _ id Hs) as (s' & -> & Hs'); [apply Hl; rewrite El; set_solver|].
    exists s'. split; [done|].
    replace (idx_set vv (dn ++ [id])) with ({[Validators_GetIdx vv id]} ∪ idx_set vv dn); [done|].
    unfold idx_set. rewrite fmap_app, list_to_set_app_L. csimpl. set_solver.
Qed.

Lemma idx_set_within vv l :
  validators_ok vv -> l ⊆ Validators_SortedIDs vv -> idx_set vv l ⊆ all_idx vv.
Proof.
  intros Hvv Hl i. unfold idx_set. rewrite elem_of_list_to_set, list_elem_of_fmap.
  intros (id & -> & Hid). by apply (GetIdx_elem vv Hvv), Hl.
Qed.

(** C36: If two stake counters of the same validators both report a quorum,
    then the validators that were counted in both hold more than one third of
    the total stake: the arithmetic of [Quorum] and of the counter is the one
    the safety of the consensus needs. *)
Theorem counted_quorums_overlap vv l1 l2 :
  validators_ok vv -> l1 ⊆ Validators_SortedIDs vv -> l2 ⊆ Validators_SortedIDs vv ->
  exists s1 s2, count_all vv l1 = Ret s1 /\ count_all vv l2 = Ret s2 /\
    (StakeCounter_HasQuorum s1 = true -> StakeCounter_HasQuorum s2 = true ->
     Validators_TotalStake vv < 3 * stake_of vv (idx_set vv l1 ∩ idx_set vv l2)).
Proof.
  intros Hvv H1 H2.
  destruct (count_all_ok vv l1 Hvv H1) as (s1 & -> & C1).
  destruct (count_all_ok vv l2 Hvv H2) as (s2 & -> & C2).
  exists s1, s2. split_and!; [done..|].
  rewrite (HasQuorum_ok vv _ _ C1), (HasQuorum_ok vv _ _ C2), !bool_decide_eq_true.
  apply quorum_intersect; auto using idx_set_within.
Qed.

(** Three validators with stakes 3, 2 and 2, for the witnesses. *)
Definition example_validators : Validators :=
  newValidators (list_to_map [(10, 2); (20, 3); (30, 2)]).

Lemma example_validators_ok : validators_ok example_validators.
Proof.
  apply newValidators_ok. split.
  - intros id s Hs%elem_of_list_to_map_2. set_unfold. naive_solver lia.
  - vm_compute. discriminate.
  - vm_compute. reflexivity.
Qed.

Theorem counted_quorums_overlap_witness :
  exists s1 s2, count_all example_validators [20; 30] = Ret s1 /\
    count_all example_validators [10; 20] = Ret s2 /\
    (StakeCounter_HasQuorum s1 = true -> StakeCounter_HasQuorum s2 = true ->
     7 < 3 * stake_of example_validators {[0]}).
Proof.
  exact (counted_quorums_overlap example_validators [20; 30] [10; 20] example_validators_ok
           ltac:(vm_compute; set_solver) ltac:(vm_compute; set_solver)).
Defined.

(** Counting any list of validators never crashes, and the counter's
    sum is the stake of the set of validators in the list, each counted once
    however often it occurs; the counter reports a quorum exactly when that
    stake reaches two thirds of the total plus one. *)
Theorem counter_counts_once vv l :
  validators_ok vv -> l ⊆ Validators_SortedIDs vv ->
  exists s, count_all vv l = Ret s /\
    StakeCounter_Sum s = stake_of vv (idx_set vv l) /\
    (StakeCounter_HasQuorum s = true <->
     Validators_TotalStake vv * 2 / 3 + 1 <= stake_of vv (idx_set vv l)).
Proof.
  intros Hvv Hl. destruct (count_all_ok vv l Hvv Hl) as (s & -> & C).
  exists s. split_and!; [done|apply (co_sum _ _ _ C)|].
  rewrite (HasQuorum_ok vv _ _ C), bool_decide_eq_true. unfold is_quorum.
  by rewrite Quorum_eq.
Qed.

Theorem counter_counts_once_witness :
  exists s, count_all example_validators [20; 30; 20] = Ret s /\
    StakeCounter_Sum s = stake_of example_validators (idx_set example_validators [20; 30; 20]) /\
    (StakeCounter_HasQuorum s = true <->
     Validators_TotalStake example_validators * 2 / 3 + 1 <=
     stake_of example_validators (idx_set example_validators [20; 30; 20])).
Proof.
  exact (counter_counts_once example_validators [20; 30; 20] example_validators_ok
           ltac:(vm_compute; set_solver)).
Defined.

(** The order of the validators is deterministic: whatever order the
    map is iterated in and however [sort.Sort] places equal elements, any
    rearrangement of the entries in which no element is [Less] than the one
    before it is the array the caches are made of. *)
Theorem sortedArray_deterministic (vals : gmap Z Z) (arr : list validator) :
  arr ≡ₚ (fun p => mkValidator p.1 p.2) <$> map_to_list vals ->
  (forall i a b, arr !! i = Some a -> arr !! S i = Some b -> validators_Less b a = false) ->
  arr = sortedArray vals /\
  v_ID <$> arr = Validators_SortedIDs (mkValidators vals (calcCaches vals)).
Proof.
  intros Hp Hs.
  assert (arr = sortedArray vals) as ->.
  { apply (Sorted_unique validator_le).
    - clear Hp. induction arr as [|a arr IH]; constructor.
      + apply IH. intros i. apply (Hs (S i)).
      + destruct arr as [|b arr]; constructor. apply (Hs 0%nat); done.
    - apply Sorted_merge_sort, _.
    - by rewrite sortedArray_perm. }
  split; [done|]. unfold Validators_SortedIDs. by rewrite calcCaches_eq.
Qed.

Theorem sortedArray_deterministic_witness :
  [mkValidator 20 3; mkValidator 10 2; mkValidator 30 2] =
    sortedArray (list_to_map [(30, 2); (10, 2); (20, 3)]) /\
  [20; 10; 30] = Validators_SortedIDs (mkValidators (list_to_map [(30, 2); (10, 2); (20, 3)])
                   (calcCaches (list_to_map [(30, 2); (10, 2); (20, 3)]))).
Proof.
  refine (sortedArray_deterministic (list_to_map [(30, 2); (10, 2); (20, 3)])
            [mkValidator 20 3; mkValidator 10 2; mkValidator 30 2] _ _).
  - vm_compute. solve_Permutation.
  - intros [|[|[|i]]] a b; simpl; intros; simplify_eq; reflexivity.
Defined.

Lemma Validators_decode_encode (vals : gmap Z Z) :
  Validators_DecodeRLP (Validators_EncodeRLP (newValidators vals)) = newValidators vals.
Proof.
  unfold Validators_DecodeRLP, Validators_EncodeRLP, Build.
  set (V := values (newValidators vals)).
  assert (foldl (fun b w => builder_Set b (v_ID w) (v_Stake w)) ∅ (sortedArray V) = V) as ->.
  { apply map_eq. intros id. apply option_eq. intros s.
    pose proof (copy_values ((fun v => (v_ID v, v_Stake v)) <$> sortedArray V) id s) as Hc.
    rewrite foldl_fmap in Hc. simpl in Hc. rewrite Hc.
    - rewrite list_elem_of_fmap. split.
      + intros [(v & [= -> ->] & Hv) _]. by apply elem_of_sortedArray.
      + intros Hs. split.
        * exists (mkValidator id s). split; [done|]. by apply elem_of_sortedArray.
        * by apply newValidators_values in Hs as [_ ?].
    - rewrite <-list_fmap_compose. apply sortedArray_ids_nodup. }
  assert (values (newValidators V) = V) as HV.
  { apply map_eq. intros id. apply option_eq. intros s. rewrite newValidators_values.
    split; [by intros [? _]|]. intros Hs. split; [done|].
    by apply newValidators_values in Hs as [_ ?]. }
  unfold newValidators in *. simpl in HV. by rewrite HV.
Qed.

(** Decoding the RLP list of a validators group gives back the group,
    caches included. *)
Theorem validators_rlp_roundtrip (vals : gmap Z Z) :
  Validators_DecodeRLP (Validators_EncodeRLP (newValidators vals)) = newValidators vals.
Proof. apply Validators_decode_encode. Qed.

(** Converting a stake to a balance and back gives the stake for every
    stake below 2^63; a stake at or above 2^63 is converted through a
    negative balance and comes back as 0. *)
Theorem stake_balance_roundtrip Ether stake :
  1000 <= Ether -> is_u64 stake ->
  BalanceToStake Ether (StakeToBalance Ether stake) =
    if stake <=? MaxInt64 then stake else 0.
Proof.
  intros HE Hs. unfold BalanceToStake, StakeToBalance, balanceToStakeRatio.
  assert (1 <= Ether / 1000) by (apply Z.div_le_lower_bound; lia).
  rewrite Z.div_mul by lia. unfold MaxInt64. destruct (Z.leb_spec stake 9223372036854775807).
  - rewrite i64_id by (word_unfold; lia).
    destruct (Z.ltb_spec stake 0), (Z.leb_spec 9223372036854775808 stake);
      try (word_unfold; lia). simpl. by apply u64_id.
  - assert (i64 stake < 0) as Hneg by word. by apply Z.ltb_lt in Hneg as ->.
Qed.

Theorem stake_balance_roundtrip_witness :
  BalanceToStake 1000000000000000000 (StakeToBalance 1000000000000000000 3175000) = 3175000.
Proof.
  exact (stake_balance_roundtrip 1000000000000000000 3175000
           ltac:(lia) ltac:(unfold is_u64; lia)).
Defined.
