(* ===== verification/Event.v ===== *)
(** * Events: hash/event_hash.go, inter/event.go, inter/time.go, inter/block.go

    The identifiers of events, the sets, slices and stacks of identifiers,
    and the header of an event.  [keccak_rlp] stands for the Keccak-256 of the
    RLP string of a marshalled header (golang.org/x/crypto and go-ethereum),
    and [marshal] for the header's own encoding, which is modelled in
    [Serializer]. *)

From S2P Require Import Prelude Bytes.
(** ** hash/event_hash.go *)

(** [hash.Event] and [common.Hash]: 32 bytes. *)
Abbreviation hash := bytes.
Definition is_hash (h : hash) : Prop := length h = 32%nat /\ is_bytes h.

Definition ZeroHash : hash := replicate 32 0.

(** [common.Hash.SetBytes]: crops from the left, pads on the left. *)
Definition FromBytes (b : bytes) : hash :=
  let b' := if decide (32 < length b)%nat then drop (length b - 32) b else b in
  replicate (32 - length b') 0 ++ b'.
Definition BytesToEventHash (b : bytes) : hash := FromBytes b.

(** [h[lo:hi]] *)
Definition sub_bytes (h : bytes) (lo hi : nat) : bytes := take (hi - lo) (drop lo h).

Definition hash_Lamport (h : hash) : go Z := BytesToLamport (sub_bytes h 4 8).
Definition hash_Epoch (h : hash) : go Z := BytesToEpoch (sub_bytes h 0 4).
Definition hash_IsZero (h : hash) : bool := bool_decide (h = ZeroHash).

(** *** EventsSet *)

Definition EventsSet_Add (hh : gset hash) (l : list hash) : gset hash * bool :=
  foldl (fun '(s, changed) h => if decide (h ∈ s) then (s, changed) else ({[h]} ∪ s, true))
        (hh, false) l.
Definition EventsSet_Erase (hh : gset hash) (l : list hash) : gset hash * bool :=
  foldl (fun '(s, changed) h => if decide (h ∈ s) then (s ∖ {[h]}, true) else (s, changed))
        (hh, false) l.
Definition EventsSet_Contains (hh : gset hash) (h : hash) : bool := bool_decide (h ∈ hh).
Definition NewEventsSet (l : list hash) : gset hash := (EventsSet_Add ∅ l).1.
Definition EventsSet_Slice (hh : gset hash) : list hash := elements hh.

(** *** Events *)

Definition Events_Set (hh : list hash) : gset hash := foldl (fun s h => {[h]} ∪ s) ∅ hh.
Definition Events_Add (hh l : list hash) : list hash := hh ++ l.

(** *** EventsStack: the top is the end of the slice *)

Definition EventsStack_Push (s : list hash) (v : hash) : list hash := s ++ [v].
Definition EventsStack_PushAll (s vv : list hash) : list hash := s ++ vv.
Definition EventsStack_Pop (s : list hash) : option (hash * list hash) :=
  match last s with
  | None => None
  | Some v => Some (v, take (length s - 1) s)
  end.

(** *** OrderedEvents *)

Definition OrderedEvents_Less (a b : hash) : bool :=
  match bytes_compare a b with Lt => true | _ => false end.
Definition OrderedEvents_ToWire (hh : list hash) : list bytes := hh.
Definition WireToOrderedEvents (buf : list bytes) : list hash := BytesToEventHash <$> buf.

(** ** inter/time.go *)

Definition second : Z := 1000000000.
Definition FromUnix (t : Z) : Z := u64 (i64 (t * second)).
Definition Timestamp_Unix (t : Z) : Z := Z.quot (i64 t) second.
Definition MaxTimestamp (x y : Z) : Z := if x >? y then x else y.

(** ** inter/event.go *)

(** Long-term and short-term gas power left: [Gas [2]uint64]. *)
Definition GasPowerLeft_Add (g : list Z) (diff : Z) : list Z := (fun x => u64 (x + diff)) <$> g.
Definition GasPowerLeft_Sub (g : list Z) (diff : Z) : list Z := (fun x => u64 (x - diff)) <$> g.
Definition GasPowerLeft_Min (g : list Z) : go Z :=
  g0 ← slice_at g 0; Ret (foldl (fun m x => if m >? x then x else m) g0 g).
Definition GasPowerLeft_Max (g : list Z) : go Z :=
  g0 ← slice_at g 0; Ret (foldl (fun m x => if m <? x then x else m) g0 g).

Record EventHeaderData := mkHeader {
  Version : Z;
  Epoch : Z;
  Seq : Z;
  Frame : Z;
  IsRoot : bool;
  Creator : Z;
  PrevEpochHash : hash;
  Parents : list hash;
  GasPowerLeft : list Z;
  GasPowerUsed : Z;
  Lamport : Z;
  ClaimedTime : Z;
  MedianTime : Z;
  TxHash : hash;
  Extra : bytes;
  hash_cache : option hash
}.

#[global] Instance header_eq_dec : EqDecision EventHeaderData.
Proof. solve_decision. Defined.

Definition set_cache (e : EventHeaderData) (c : option hash) : EventHeaderData :=
  mkHeader (Version e) (Epoch e) (Seq e) (Frame e) (IsRoot e) (Creator e) (PrevEpochHash e)
    (Parents e) (GasPowerLeft e) (GasPowerUsed e) (Lamport e) (ClaimedTime e) (MedianTime e)
    (TxHash e) (Extra e) c.

Definition NoTransactions (EmptyTxHash : hash) (e : EventHeaderData) : bool :=
  bool_decide (TxHash e = EmptyTxHash).

Definition SelfParent (e : EventHeaderData) : option hash :=
  if (Seq e <=? 1) || bool_decide (Parents e = []) then None else head (Parents e).

Definition IsSelfParent (e : EventHeaderData) (h : hash) : bool :=
  match SelfParent e with None => false | Some p => bool_decide (p = h) end.

Section hashing.
(** The two steps of [calcHash] that are not in this file. *)
Context (marshal : EventHeaderData -> bytes) (keccak_rlp : bytes -> bytes).

Definition calcHash (e : EventHeaderData) : hash := BytesToEventHash (keccak_rlp (marshal e)).

(** [copy(id[0:4], ...)] and [copy(id[4:8], ...)] *)
Definition CalcHash (e : EventHeaderData) : hash :=
  let id := calcHash e in
  Epoch_Bytes (Epoch e) ++ Lamport_Bytes (Lamport e) ++ drop 8 id.

Definition RecacheHash (e : EventHeaderData) : hash * EventHeaderData :=
  let id := CalcHash e in (id, set_cache e (Some id)).

Definition Hash (e : EventHeaderData) : hash :=
  match hash_cache e with Some id => id | None => CalcHash e end.

(** "Lachesis: I'm signing the Event " *)
Definition sign_prefix : bytes :=
  [76;97;99;104;101;115;105;115;58;32;73;39;109;32;115;105;103;110;105;110;103;32;
   116;104;101;32;69;118;101;110;116;32].
Definition DataToSign (e : EventHeaderData) : bytes := sign_prefix ++ calcHash e.

End hashing.

(** ** inter/block.go, inter/cheaters_list.go *)

Record Block := mkBlock {
  bl_Index : Z;
  bl_Time : Z;
  bl_TxHash : hash;
  bl_Events : list hash;
  bl_SkippedTxs : list Z;
  bl_GasUsed : Z;
  bl_PrevHash : hash;
  bl_Root : hash;
  bl_Atropos : hash
}.

Definition NewBlock (index time : Z) (atropos prevHash : hash) (events : list hash) : Block :=
  mkBlock index time ZeroHash events [] 0 prevHash ZeroHash atropos.

Definition Cheaters_Set (s : list Z) : gset Z := foldl (fun m x => {[x]} ∪ m) ∅ s.

(** ** Lemmas *)

Lemma SelfParent_Some e p : SelfParent e = Some p -> 1 < Seq e /\ head (Parents e) = Some p.
Proof.
  unfold SelfParent. destruct (Z.leb_spec (Seq e) 1); simpl; [done|].
  case_bool_decide; [done|]. intros. split; [lia|done].
Qed.

Lemma SelfParent_in e p : SelfParent e = Some p -> p ∈ Parents e.
Proof. intros [_ Hp]%SelfParent_Some. destruct (Parents e); simplify_eq/=. by left. Qed.

Lemma elem_of_Events_Set l h : h ∈ Events_Set l <-> h ∈ l.
Proof.
  unfold Events_Set.
  enough (forall s : gset hash, h ∈ foldl (fun s h => {[h]} ∪ s) s l <-> h ∈ s \/ h ∈ l) as E
    by (rewrite E; set_solver).
  induction l as [|x l IH]; intros s; simpl; [set_solver|]. rewrite IH. set_solver.
Qed.

(** [len(Parents.Set()) == len(Parents)] says that there are no duplicates. *)
Lemma Events_Set_list l : Events_Set l = list_to_set l.
Proof. apply set_eq. intros h. by rewrite elem_of_Events_Set, elem_of_list_to_set. Qed.

Lemma Events_Set_nodup l : size (Events_Set l) = length l <-> NoDup l.
Proof.
  rewrite Events_Set_list. split.
  - induction l as [|x l IH]; intros Hs; [constructor|]. simpl in Hs.
    assert (size (list_to_set l : gset hash) <= length l)%nat as Hle.
    { clear. induction l as [|x l IH]; simpl; [done|].
      rewrite size_union_alt, size_singleton.
      pose proof (subseteq_size ((list_to_set l : gset hash) ∖ {[x]}) (list_to_set l)
                    ltac:(set_solver)). lia. }
    destruct (decide (x ∈ l)) as [Hx|Hx].
    + replace ({[x]} ∪ list_to_set l : gset hash) with (list_to_set l : gset hash) in Hs
        by (apply set_eq; set_solver). lia.
    + constructor; [done|]. apply IH. rewrite size_union in Hs by set_solver.
      rewrite size_singleton in Hs. lia.
  - intros Hl. induction Hl as [|x l Hx Hl IH]; simpl; [done|].
    rewrite size_union by set_solver. rewrite size_singleton, IH. lia.
Qed.

Lemma EventsStack_Pop_snoc s v : EventsStack_Pop (s ++ [v]) = Some (v, s).
Proof.
  unfold EventsStack_Pop. rewrite last_snoc. do 2 f_equal.
  rewrite length_app. simpl. rewrite take_app_le by lia. apply take_ge. lia.
Qed.

Lemma CalcHash_Epoch marshal keccak e :
  is_u32 (Epoch e) -> hash_Epoch (CalcHash marshal keccak e) = Ret (Epoch e).
Proof.
  intros H. unfold hash_Epoch, CalcHash, sub_bytes. rewrite drop_0, take_app_length' by done.
  unfold BytesToEpoch. rewrite <-(app_nil_r (Epoch_Bytes _)). by apply bigendian32_roundtrip.
Qed.

Lemma CalcHash_Lamport marshal keccak e :
  is_u32 (Lamport e) -> hash_Lamport (CalcHash marshal keccak e) = Ret (Lamport e).
Proof.
  intros H. unfold hash_Lamport, CalcHash, sub_bytes.
  rewrite drop_app_length', take_app_length' by done.
  unfold BytesToLamport. rewrite <-(app_nil_r (Lamport_Bytes _)). by apply bigendian32_roundtrip.
Qed.

(** ** Properties *)

(** The identifier of an event carries its epoch and its Lamport time,
    which can be read back from it, and the byte order of identifiers is the
    order of (epoch, Lamport time): of two events of one epoch, the one with
    the smaller Lamport time has the smaller identifier. *)
Theorem event_id_carries_time marshal keccak e1 e2 :
  is_u32 (Epoch e1) -> is_u32 (Lamport e1) -> is_u32 (Epoch e2) -> is_u32 (Lamport e2) ->
  hash_Epoch (CalcHash marshal keccak e1) = Ret (Epoch e1) /\
  hash_Lamport (CalcHash marshal keccak e1) = Ret (Lamport e1) /\
  (Epoch e1 < Epoch e2 \/ (Epoch e1 = Epoch e2 /\ Lamport e1 < Lamport e2) ->
   bytes_lt (CalcHash marshal keccak e1) (CalcHash marshal keccak e2)).
Proof.
  intros HE1 HL1 HE2 HL2. split_and!; [by apply CalcHash_Epoch|by apply CalcHash_Lamport|].
  assert (forall a b x y c1 c2, is_u32 a -> is_u32 b -> Z.compare a b = c1 ->
    (c1 = Eq -> bytes_compare x y = c2) -> (c1 <> Eq -> c2 = c1) ->
    bytes_compare (Epoch_Bytes a ++ x) (Epoch_Bytes b ++ y) = c2) as Hcmp.
  { intros a b x y c1 c2 Ha Hb Hc1 Heq Hne. unfold Epoch_Bytes, bigendian_Int32ToBytes.
    rewrite bytes_compare_app_len by (by rewrite !length_be_encode).
    rewrite be_encode_compare by done. rewrite Hc1. destruct c1; auto; by rewrite Hne. }
  unfold bytes_lt, CalcHash. intros [H|[He H]].
  - eapply (Hcmp _ _ _ _ Lt); auto; congruence.
  - eapply (Hcmp _ _ _ _ Eq); auto; [by apply Z.compare_eq_iff| |done]. intros _.
    eapply (Hcmp (Lamport e1) (Lamport e2) _ _ Lt); auto; congruence.
Qed.

Definition example_event (lamport : Z) : EventHeaderData :=
  mkHeader 0 7 3 2 false 5 ZeroHash [] [10; 20] 28000 lamport 1000 900 ZeroHash [] None.

Theorem event_id_carries_time_witness :
  let id l := CalcHash (fun _ => []) (fun _ => ZeroHash) (example_event l) in
  hash_Epoch (id 300) = Ret 7 /\ hash_Lamport (id 300) = Ret 300 /\ bytes_lt (id 300) (id 65536).
Proof.
  destruct (event_id_carries_time (fun _ => []) (fun _ => ZeroHash) (example_event 300)
              (example_event 65536)) as (H1 & H2 & H3); [vm_compute; split; congruence..|].
  split; [exact H1|]. split; [exact H2|]. apply H3. right. vm_compute. auto.
Defined.
