(* ===== verification/Serializer.v ===== *)
(** * Serialization of event headers: utils/fast, inter/event_serializer.go

    The bit arrays and the byte buffer of utils/fast, and the binary encoding
    of event headers that is built on them.  A header is written into one
    slice that is cut into three parts, the two arrays of sizes and the
    fields; the parts do not overlap, so that each one is a byte list of its
    own here, and they are joined at the end. *)

From S2P Require Import Prelude Bytes Event.
(** ** utils/fast/bits.go *)

Record BitArray := mkBitArray { ba_bits : Z; ba_count : Z; ba_size : Z }.

Definition calcSize (bits count : Z) : Z :=
  let b := bits * count in
  if b mod 8 >? 0 then b / 8 + 1 else b / 8.

Definition NewBitArray (bits count : Z) : go BitArray :=
  if decide (bits = 1 \/ bits = 2 \/ bits = 4)
  then Ret (mkBitArray bits count (calcSize bits count))
  else Fault (PanicMsg "use 1 or 2 or 4 bits").

(** A writer and a reader are the same data: the layout, the number of the
    next part and the bytes. *)
Record BitCursor := mkBitCursor { bc_arr : BitArray; bc_offset : Z; bc_raw : bytes }.

Definition BitArray_Writer (a : BitArray) (w : bytes) : go BitCursor :=
  if decide (zlen w = ba_size a) then Ret (mkBitCursor a 0 w)
  else Fault (PanicMsg "need .Size() bytes for writing").

Definition BitArray_Reader (a : BitArray) (r : bytes) : go BitCursor :=
  if decide (zlen r = ba_size a) then Ret (mkBitCursor a 0 r)
  else Fault (PanicMsg "need .Size() bytes for reading").

Definition nextPart (c : BitCursor) : Z * Z * BitCursor :=
  let bitsOffset := bc_offset c * ba_bits (bc_arr c) in
  (bitsOffset / 8, bitsOffset mod 8, mkBitCursor (bc_arr c) (bc_offset c + 1) (bc_raw c)).

Definition BitArrayWriter_Push (c : BitCursor) (v : Z) : go BitCursor :=
  if v <? 0 then Fault (PanicMsg "only positives accepts")
  else if v >=? Z.shiftl 1 (ba_bits (bc_arr c)) then Fault (PanicMsg "too big number")
  else
    let '(byteOffset, bytePartOffset, c') := nextPart c in
    old ← slice_at (bc_raw c') byteOffset;
    raw' ← slice_set (bc_raw c') byteOffset (Z.lor old (u8 (Z.shiftl v bytePartOffset)));
    Ret (mkBitCursor (bc_arr c') (bc_offset c') raw').

Definition BitArrayReader_Pop (c : BitCursor) : go (Z * BitCursor) :=
  let '(byteOffset, bytePartOffset, c') := nextPart c in
  let mask := u8 (Z.shiftl 1 (ba_bits (bc_arr c')) - 1) in
  b ← slice_at (bc_raw c') byteOffset;
  Ret (Z.land (Z.shiftr b bytePartOffset) mask, c').

(** ** utils/fast/buffer.go *)

Record Buffer := mkBuffer { bf_buf : bytes; bf_offset : Z }.

Definition NewBuffer (bb : bytes) : Buffer := mkBuffer bb 0.

Definition Buffer_WriteByte (b : Buffer) (v : Z) : go Buffer :=
  buf ← slice_set (bf_buf b) (bf_offset b) v;
  Ret (mkBuffer buf (bf_offset b + 1)).

(** [copy] writes as much as fits; a short copy panics. *)
Definition Buffer_Write (b : Buffer) (v : bytes) : go Buffer :=
  let o := Z.to_nat (bf_offset b) in
  let n := Nat.min (length (bf_buf b) - o) (length v) in
  if decide (n = length v)
  then Ret (mkBuffer (take o (bf_buf b) ++ v ++ drop (o + n) (bf_buf b))
              (bf_offset b + Z.of_nat n))
  else Fault (PanicMsg "buffer overflow").

(** The slice expression panics when it leaves the buffer: the bound is the
    capacity of the slice, which for a decoded string is its length. *)
Definition Buffer_Read (b : Buffer) (n : Z) : go (bytes * Buffer) :=
  if decide (0 <= n /\ bf_offset b + n <= zlen (bf_buf b))
  then Ret (sub_bytes (bf_buf b) (Z.to_nat (bf_offset b)) (Z.to_nat (bf_offset b + n)),
            mkBuffer (bf_buf b) (bf_offset b + n))
  else Fault IndexOutOfRange.

Definition Buffer_Position (b : Buffer) : Z := bf_offset b.

(** ** inter/event_serializer.go *)

Inductive serial_error := ErrNonCanonicalEncoding | ErrInvalidEncoding.

Fixpoint writeUintCompact_loop (size : nat) (buf : Buffer) (v n : Z) : go (Z * Buffer) :=
  match size with
  | O => Ret (n, buf)
  | S size =>
      buf ← Buffer_WriteByte buf (u8 v);
      let v := Z.shiftr v 8 in
      if v =? 0 then Ret (n + 1, buf) else writeUintCompact_loop size buf v (n + 1)
  end.
Definition writeUintCompact (buf : Buffer) (v : Z) (size : nat) : go (Z * Buffer) :=
  writeUintCompact_loop size buf v 0.

(** [v += uint64(b) << uint(8*i)]: a shift by 64 or more gives 0. *)
Definition read_digit (v : Z) (ib : Z * Z) : Z :=
  u64 (v + u64 (Z.shiftl ib.2 (8 * ib.1))).

Definition readUintCompact (buf : Buffer) (n : Z) : go ((serial_error + Z) * Buffer) :=
  '(bs, buf) ← Buffer_Read buf n;
  let v := foldl read_digit 0 (imap (fun i b => (Z.of_nat i, b)) bs) in
  let last := default 0 (last bs) in
  if (n >? 1) && (last =? 0) then Ret (inl ErrNonCanonicalEncoding, buf)
  else Ret (inr v, buf).

(** *** MarshalBinary *)

Section marshal.
(** [EmptyTxHash = types.DeriveSha(types.Transactions{})], of go-ethereum. *)
Context (EmptyTxHash : hash).

Definition fields64 (e : EventHeaderData) : go (list Z) :=
  g0 ← slice_at (GasPowerLeft e) 0;
  g1 ← slice_at (GasPowerLeft e) 1;
  Ret [g0; g1; GasPowerUsed e; ClaimedTime e; MedianTime e].

Definition fields32 (e : EventHeaderData) : list Z :=
  [Version e; Epoch e; Seq e; Frame e; Creator e; Lamport e; u32 (zlen (Parents e))].

Definition isPrevEpochHashEmpty (e : EventHeaderData) : bool :=
  bool_decide (PrevEpochHash e = ZeroHash).
Definition isTxHashEmpty (e : EventHeaderData) : bool := bool_decide (TxHash e = EmptyTxHash).

Definition fieldsBool (e : EventHeaderData) : list bool :=
  [IsRoot e; isPrevEpochHashEmpty e; isTxHashEmpty e].

(** One field: its bytes into the buffer, its size less one into the array. *)
Definition write_field (size : nat) (st : BitCursor * Buffer) (v : Z) : go (BitCursor * Buffer) :=
  '(n, buf) ← writeUintCompact st.2 v size;
  hd ← BitArrayWriter_Push st.1 (n - 1);
  Ret (hd, buf).

Definition maxBytes (e : EventHeaderData) : Z :=
  5 * 8 + 7 * 4 + zlen (Parents e) * (32 - 4) + 32 + 32 + zlen (Extra e).

Definition MarshalBinary (e : EventHeaderData) : go bytes :=
  f64 ← fields64 e;
  header3 ← NewBitArray 4 5;
  header2 ← NewBitArray 2 10;
  header3w ← BitArray_Writer header3 (replicate (Z.to_nat (ba_size header3)) 0);
  header2w ← BitArray_Writer header2 (replicate (Z.to_nat (ba_size header2)) 0);
  let buf := NewBuffer (replicate (Z.to_nat (maxBytes e)) 0) in
  '(header3w, buf) ← go_fold (write_field 8) (header3w, buf) f64;
  '(header2w, buf) ← go_fold (write_field 4) (header2w, buf) (fields32 e);
  header2w ← go_fold (fun w (f : bool) => BitArrayWriter_Push w (if f then 1 else 0))
                     header2w (fieldsBool e);
  buf ← go_fold (fun b p => Buffer_Write b (drop 4 p)) buf (Parents e);
  buf ← (if isPrevEpochHashEmpty e then Ret buf else Buffer_Write buf (PrevEpochHash e));
  buf ← (if isTxHashEmpty e then Ret buf else Buffer_Write buf (TxHash e));
  buf ← Buffer_Write buf (Extra e);
  Ret (bc_raw header3w ++ bc_raw header2w ++ take (Z.to_nat (Buffer_Position buf)) (bf_buf buf)).

(** *** UnmarshalBinary *)

(** Reads that may return an error: the error stops the reading. *)
Abbreviation sgo A := (go (serial_error + A)).
Definition sbind {A B} (m : sgo A) (k : A -> sgo B) : sgo B :=
  match m with
  | Fault f => Fault f
  | Ret (inl err) => Ret (inl err)
  | Ret (inr a) => k a
  end.
Definition sret {A} (a : A) : sgo A := Ret (inr a).

(** Read the fields, one size from the array and one number from the buffer
    each. *)
Fixpoint read_fields (count : nat) (hd : BitCursor) (buf : Buffer)
    : sgo (list Z * BitCursor * Buffer) :=
  match count with
  | O => sret ([], hd, buf)
  | S count =>
      '(n, hd) ← BitArrayReader_Pop hd;
      '(r, buf) ← readUintCompact buf (n + 1);
      match r with
      | inl err => Ret (inl err)
      | inr v => sbind (read_fields count hd buf) (fun '(vs, hd, buf) => sret (v :: vs, hd, buf))
      end
  end.

Fixpoint read_bools (count : nat) (hd : BitCursor) : go (list bool * BitCursor) :=
  match count with
  | O => Ret ([], hd)
  | S count =>
      '(n, hd) ← BitArrayReader_Pop hd;
      '(bs, hd) ← read_bools count hd;
      Ret (negb (n =? 0) :: bs, hd)
  end.

Fixpoint read_parents (epoch : Z) (count : nat) (buf : Buffer) : go (list hash * Buffer) :=
  match count with
  | O => Ret ([], buf)
  | S count =>
      '(p, buf) ← Buffer_Read buf (32 - 4);
      '(ps, buf) ← read_parents epoch count buf;
      Ret ((Epoch_Bytes epoch ++ p) :: ps, buf)
  end.

(** [e.X.SetBytes(buf.Read(32))], refused when it is the value that is never
    written. *)
Definition read_hash (absent : bool) (dflt skipped : hash) (buf : Buffer) : sgo (hash * Buffer) :=
  if absent then sret (dflt, buf)
  else '(h, buf) ← Buffer_Read buf 32;
       let h := FromBytes h in
       if decide (h = skipped) then Ret (inl ErrNonCanonicalEncoding) else sret (h, buf).

(** Read the fields into [e0], which keeps its [PrevEpochHash] when none is
    encoded, and its cached hash. *)
Definition unmarshal_fields (e0 : EventHeaderData) (header3r header2r : BitCursor) (raw : bytes)
    : sgo EventHeaderData :=
  let buf := NewBuffer raw in
  sbind (read_fields 5 header3r buf) (fun '(f64, _, buf) =>
  sbind (read_fields 7 header2r buf) (fun '(f32, header2r, buf) =>
  '(fb, _) ← read_bools 3 header2r;
  match f64, f32, fb with
  | [g0; g1; used; claimed; median],
    [version; epoch; seq; frame; creator; lamport; parentCount],
    [isRoot; isPrevEmpty; isTxEmpty] =>
      '(parents, buf) ← read_parents (u32 epoch) (Z.to_nat (u32 parentCount)) buf;
      sbind (read_hash isPrevEmpty (PrevEpochHash e0) ZeroHash buf) (fun '(prev, buf) =>
      sbind (read_hash isTxEmpty EmptyTxHash EmptyTxHash buf) (fun '(txHash, buf) =>
      '(extra, _) ← Buffer_Read buf (zlen raw - Buffer_Position buf);
      sret (mkHeader (u32 version) (u32 epoch) (u32 seq) (u32 frame) isRoot (u32 creator) prev
              parents [g0; g1] used (u32 lamport) claimed median txHash extra (hash_cache e0))))
  | _, _, _ => Fault IndexOutOfRange
  end)).

(** The arrays of sizes are cut off, then the fields follow. *)
Definition unmarshal_body (e0 : EventHeaderData) (raw : bytes) : sgo EventHeaderData :=
  header3 ← NewBitArray 4 5;
  header2 ← NewBitArray 2 10;
  '(h3, buf) ← Buffer_Read (NewBuffer raw) (ba_size header3);
  '(h2, buf) ← Buffer_Read buf (ba_size header2);
  header3r ← BitArray_Reader header3 h3;
  header2r ← BitArray_Reader header2 h2;
  unmarshal_fields e0 header3r header2r (drop (Z.to_nat (bf_offset buf)) raw).

(** The deferred [recover] turns a panic into an error. *)
Definition UnmarshalBinary (e0 : EventHeaderData) (raw : bytes) : serial_error + EventHeaderData :=
  match unmarshal_body e0 raw with
  | Fault _ => inl ErrInvalidEncoding
  | Ret r => r
  end.

End marshal.

(** An event header as the decoder makes it before reading. *)
Definition NewHeader : EventHeaderData :=
  mkHeader 0 0 0 0 false 0 ZeroHash [] [0; 0] 0 0 0 0 ZeroHash [] None.

(** ** The bit arrays keep what was pushed

    [part bits raw k] is what the reader gives for part [k]. *)

Definition part (bits : Z) (raw : bytes) (k : Z) : Z :=
  Z.land (Z.shiftr (default 0 (slice_get raw (k * bits / 8))) (k * bits mod 8))
         (Z.shiftl 1 bits - 1).

Definition part_width (bits : Z) : Prop := bits = 1 \/ bits = 2 \/ bits = 4.

Lemma part_width_4 : part_width 4.
Proof. unfold part_width. lia. Qed.
Lemma part_width_2 : part_width 2.
Proof. unfold part_width. lia. Qed.

Lemma ones_shift bits : 0 <= bits -> Z.shiftl 1 bits - 1 = Z.ones bits.
Proof. intros H. rewrite Z.ones_equiv, Z.shiftl_mul_pow2 by lia. lia. Qed.

Lemma part_testbit bits raw k i :
  part_width bits -> 0 <= i ->
  Z.testbit (part bits raw k) i =
  (i <? bits) && Z.testbit (default 0 (slice_get raw (k * bits / 8))) (i + k * bits mod 8).
Proof.
  intros Hb Hi. unfold part. rewrite ones_shift by (destruct Hb; lia).
  rewrite Z.land_spec, Z.testbit_ones_nonneg by (destruct Hb; lia).
  rewrite Z.shiftr_spec by lia. apply andb_comm.
Qed.

Lemma small_testbit v bits i : 0 <= bits -> 0 <= v < 2 ^ bits -> bits <= i -> Z.testbit v i = false.
Proof.
  intros Hb Hv Hi. destruct (decide (v = 0)) as [->|]; [apply Z.bits_0|].
  apply Z.bits_above_log2; [lia|]. enough (Z.log2 v < bits) by lia.
  apply Z.log2_lt_pow2; lia.
Qed.

(** Parts do not cross bytes, and two parts of one byte do not overlap. *)
Lemma part_room bits k : part_width bits -> 0 <= k * bits mod 8 /\ k * bits mod 8 + bits <= 8.
Proof. intros [->|[->| ->]]; Z.to_euclidean_division_equations; lia. Qed.

Lemma part_apart bits k o :
  part_width bits -> k <> o -> k * bits / 8 = o * bits / 8 ->
  k * bits mod 8 + bits <= o * bits mod 8 \/ o * bits mod 8 + bits <= k * bits mod 8.
Proof. intros [->|[->| ->]]; Z.to_euclidean_division_equations; lia. Qed.

Lemma Push_parts c v bits count :
  part_width bits ->
  bc_arr c = mkBitArray bits count (calcSize bits count) ->
  zlen (bc_raw c) = calcSize bits count ->
  0 <= bc_offset c < count -> 0 <= v < 2 ^ bits ->
  exists raw', BitArrayWriter_Push c v = Ret (mkBitCursor (bc_arr c) (bc_offset c + 1) raw') /\
    zlen raw' = calcSize bits count /\
    (forall k, k <> bc_offset c -> part bits raw' k = part bits (bc_raw c) k) /\
    (part bits (bc_raw c) (bc_offset c) = 0 -> part bits raw' (bc_offset c) = v).
Proof.
  intros Hb Ha Hlen Ho Hv. unfold BitArrayWriter_Push, nextPart. rewrite Ha. simpl.
  rewrite Z.shiftl_1_l. destruct (Z.ltb_spec v 0); [lia|].
  rewrite Z.geb_leb. destruct (Z.leb_spec (2 ^ bits) v); [lia|].
  set (o := bc_offset c) in *.
  assert (0 <= o * bits / 8 < zlen (bc_raw c)) as Hi.
  { rewrite Hlen. unfold calcSize. rewrite Z.gtb_ltb.
    destruct (Z.ltb_spec 0 (bits * count mod 8)); destruct Hb as [->|[->| ->]];
      Z.to_euclidean_division_equations; lia. }
  destruct (slice_get_is_Some _ _ Hi) as [old Hold].
  unfold slice_at. rewrite Hold. simpl. rewrite slice_set_Ret by done. simpl.
  eexists. split; [done|]. split; [unfold zlen in *; by rewrite length_insert|].
  pose proof (part_room bits o Hb) as Hro.
  assert (forall i, 0 <= i -> forall k, (k * bits / 8 = o * bits / 8) -> i < bits ->
            Z.testbit (u8 (Z.shiftl v (o * bits mod 8))) (i + k * bits mod 8)
            = Z.testbit v (i + k * bits mod 8 - o * bits mod 8)) as Hbit.
  { intros i Hi0 k Hk Hib. pose proof (part_room bits k Hb).
    unfold u8. change 256 with (2 ^ 8). rewrite Z.mod_pow2_bits_low by lia.
    rewrite Z.shiftl_spec by lia. done. }
  split.
  - intros k Hk. apply Z.bits_inj'. intros i Hi0.
    rewrite !part_testbit by done. rewrite slice_get_insert by done.
    destruct (Z.ltb_spec i bits) as [Hib|]; [simpl|done].
    case_decide as Hsame; [|done]. rewrite <-Hsame, Hold. simpl.
    rewrite Z.lor_spec, Hbit by (done || congruence).
    destruct (part_apart bits k o Hb Hk ltac:(congruence)).
    + rewrite (Z.testbit_neg_r v) by lia. apply orb_false_r.
    + rewrite (small_testbit v bits) by (destruct Hb; lia). apply orb_false_r.
  - intros Hz. apply Z.bits_inj'. intros i Hi0.
    rewrite part_testbit by done. rewrite slice_get_insert, decide_True by done.
    destruct (Z.ltb_spec i bits) as [Hib|].
    + simpl. rewrite Z.lor_spec, Hbit by done.
      assert (Z.testbit (part bits (bc_raw c) o) i = false) as Hzb by (rewrite Hz; apply Z.bits_0).
      rewrite part_testbit, Hold in Hzb by done. simpl in Hzb.
      destruct (Z.ltb_spec i bits); [|lia]. simpl in Hzb. rewrite Hzb. simpl. f_equal. lia.
    + simpl. symmetry. apply (small_testbit v bits); destruct Hb; lia.
Qed.

(** [bits_written c vs]: the writer has been given [vs].  [bits_left c vs]:
    the reader is about to give [vs]. *)
Record bits_written (bits count : Z) (c : BitCursor) (vs : list Z) : Prop := {
  bw_arr : bc_arr c = mkBitArray bits count (calcSize bits count);
  bw_len : zlen (bc_raw c) = calcSize bits count;
  bw_off : bc_offset c = zlen vs;
  bw_parts : forall k : Z, 0 <= k -> part bits (bc_raw c) k = default 0 (slice_get vs k)
}.

Record bits_left (bits : Z) (c : BitCursor) (vs : list Z) : Prop := {
  bl_bits : ba_bits (bc_arr c) = bits;
  bl_off : 0 <= bc_offset c;
  bl_parts : forall (j : nat) (v : Z), vs !! j = Some v ->
    part bits (bc_raw c) (bc_offset c + Z.of_nat j) = v /\
    (bc_offset c + Z.of_nat j) * bits / 8 < zlen (bc_raw c)
}.

Lemma bits_new bits count :
  part_width bits -> 0 <= count ->
  bits_written bits count
    (mkBitCursor (mkBitArray bits count (calcSize bits count)) 0
       (replicate (Z.to_nat (calcSize bits count)) 0)) [].
Proof.
  intros Hb Hc. split; simpl; try done.
  - unfold zlen. rewrite length_replicate. unfold calcSize.
    rewrite Z.gtb_ltb. destruct (Z.ltb_spec 0 (bits * count mod 8)); destruct Hb as [->|[->| ->]];
      Z.to_euclidean_division_equations; lia.
  - intros k Hk. assert (default 0 (slice_get ([] : list Z) k) = 0) as ->.
    { unfold slice_get. case_decide; done. }
    unfold part. assert (default 0 (slice_get (replicate (Z.to_nat (calcSize bits count)) 0)
                                       (k * bits / 8)) = 0) as ->.
    { unfold slice_get. case_decide; [|done]. destruct (_ !! _) eqn:E; [|done].
      by apply lookup_replicate in E as [-> _]. }
    by rewrite Z.shiftr_0_l, Z.land_0_l.
Qed.

Lemma bits_push bits count c vs v :
  part_width bits -> bits_written bits count c vs -> zlen vs < count -> 0 <= v < 2 ^ bits ->
  exists c', BitArrayWriter_Push c v = Ret c' /\ bits_written bits count c' (vs ++ [v]).
Proof.
  intros Hb [Ha Hl Ho Hp] Hc Hv. pose proof (zlen_nonneg vs).
  destruct (Push_parts c v bits count) as (raw' & E & Hl' & Hne & Heq); try done; [lia|].
  eexists. split; [exact E|]. split; simpl; try done.
  - rewrite zlen_app. unfold zlen at 2. simpl. lia.
  - intros k Hk. rewrite slice_get_app. case_decide as Hlt.
    + rewrite Hne by lia. by apply Hp.
    + destruct (decide (k = zlen vs)) as [->|].
      * rewrite Z.sub_diag. simpl. rewrite <-Ho. apply Heq. rewrite Ho, Hp by lia.
        by rewrite (proj2 (slice_get_None vs _)) by lia.
      * rewrite Hne, Hp by lia. rewrite (proj2 (slice_get_None vs _)) by lia.
        by rewrite (proj2 (slice_get_None [v] _)) by (unfold zlen in *; simpl; lia).
Qed.

Lemma bits_reader bits count c vs :
  part_width bits -> bits_written bits count c vs -> zlen vs <= count ->
  exists r, BitArray_Reader (mkBitArray bits count (calcSize bits count)) (bc_raw c) = Ret r /\
    bits_left bits r vs.
Proof.
  intros Hb [Ha Hl Ho Hp] Hc. unfold BitArray_Reader. simpl.
  rewrite decide_True by done. eexists. split; [done|]. split; simpl; [done|lia|].
  intros j v Hj. split.
  - rewrite Hp by lia. by rewrite Z.add_0_l, slice_get_nat, Hj.
  - apply lookup_lt_Some in Hj. unfold zlen in Hl, Hc |- *. rewrite Hl. unfold calcSize.
    rewrite Z.gtb_ltb. destruct (Z.ltb_spec 0 (bits * count mod 8)); destruct Hb as [->|[->| ->]];
      Z.to_euclidean_division_equations; lia.
Qed.

Lemma bits_pop bits c v vs :
  part_width bits -> bits_left bits c (v :: vs) ->
  exists c', BitArrayReader_Pop c = Ret (v, c') /\ bits_left bits c' vs.
Proof.
  intros Hb [Ha Ho Hp]. destruct (Hp 0%nat v) as [Hv Hlt]; [done|].
  rewrite Z.add_0_r in Hv, Hlt. unfold BitArrayReader_Pop, nextPart. rewrite Ha. simpl.
  assert (0 <= bc_offset c * bits / 8 < zlen (bc_raw c)) as Hi.
  { split; [|done]. destruct Hb as [->|[->| ->]]; Z.to_euclidean_division_equations; lia. }
  destruct (slice_get_is_Some _ _ Hi) as [b Hget].
  unfold slice_at. rewrite Hget. simpl. eexists. split.
  - f_equal. f_equal. rewrite <-Hv. unfold part. rewrite Hget, Ha, u8_id; [done|].
    destruct Hb as [->|[->| ->]]; split; by vm_compute.
  - split; simpl; [done|lia|]. intros j w Hj. destruct (Hp (S j) w) as [Hw Hlt']; [done|].
    rewrite <-Hw. split; [f_equal; lia|]. 
    replace (bc_offset c + 1 + Z.of_nat j) with (bc_offset c + Z.of_nat (S j)) by lia. done.
Qed.

(** ** The buffer keeps what was written *)

(** [wrote b w room]: [w] has been written and [room] more bytes fit. *)
Definition wrote (b : Buffer) (w : bytes) (room : nat) : Prop :=
  exists rest, bf_buf b = w ++ rest /\ bf_offset b = zlen w /\ (room <= length rest)%nat.

(** [unread raw b l]: the buffer is over [raw], and its bytes [l] are left to
    read. *)
Definition unread (raw : bytes) (b : Buffer) (l : bytes) : Prop :=
  bf_buf b = raw /\ exists pre, raw = pre ++ l /\ bf_offset b = zlen pre.

Lemma wrote_byte b w room v :
  wrote b w (S room) ->
  exists b', Buffer_WriteByte b v = Ret b' /\ wrote b' (w ++ [v]) room.
Proof.
  intros (rest & Eb & Eo & Hr). destruct rest as [|x rest]; simpl in Hr; [lia|].
  unfold Buffer_WriteByte. rewrite slice_set_Ret.
  2:{ rewrite Eb, Eo. unfold zlen. rewrite length_app. simpl. lia. }
  eexists. split; [done|]. exists rest. simpl. rewrite Eb, Eo. unfold zlen.
  rewrite Nat2Z.id, length_app, <-app_assoc. simpl. split; [|split; [|lia]].
  - replace (length w) with (length w + 0)%nat by lia. by rewrite insert_app_r.
  - lia.
Qed.

Lemma wrote_bytes b w room v :
  wrote b w (length v + room) ->
  exists b', Buffer_Write b v = Ret b' /\ wrote b' (w ++ v) room.
Proof.
  intros (rest & Eb & Eo & Hr). unfold Buffer_Write. rewrite Eb, Eo. unfold zlen.
  rewrite Nat2Z.id, length_app. rewrite decide_True by lia.
  eexists. split; [done|]. exists (drop (length v) rest). simpl.
  rewrite take_app_length, <-app_assoc, length_drop. unfold zlen. rewrite length_app.
  split; [|lia]. do 2 f_equal.
  replace (length w + _)%nat with (length w + length v)%nat by lia.
  rewrite drop_app. rewrite drop_ge by lia. simpl. f_equal. lia.
Qed.

Lemma unread_read raw b v l :
  unread raw b (v ++ l) ->
  exists b', Buffer_Read b (zlen v) = Ret (v, b') /\ unread raw b' l.
Proof.
  intros (Eb & pre & -> & Eo). unfold Buffer_Read. rewrite Eb, Eo, !zlen_app.
  pose proof (zlen_nonneg pre). pose proof (zlen_nonneg v). pose proof (zlen_nonneg l).
  rewrite decide_True by lia. eexists. split.
  - f_equal. f_equal. unfold sub_bytes, zlen. rewrite Nat2Z.id, drop_app_length.
    replace (Z.to_nat _ - _)%nat with (length v) by lia. by rewrite take_app_length.
  - split; [done|]. exists (pre ++ v). simpl. rewrite zlen_app, <-app_assoc. done.
Qed.

(** ** Compact integers *)

Fixpoint compact (size : nat) (v : Z) : bytes :=
  match size with
  | O => []
  | S size => u8 v :: (if v / 256 =? 0 then [] else compact size (v / 256))
  end.

Lemma length_compact size v : (1 <= length (compact (S size) v) <= S size)%nat.
Proof.
  revert v. induction size as [|size IH]; intros v; cbn [compact length].
  - destruct (v / 256 =? 0); simpl; lia.
  - destruct (v / 256 =? 0); cbn [length]; [lia|]. specialize (IH (v / 256)).
    cbn [compact length] in IH. cbn [compact length]. lia.
Qed.

Lemma compact_bytes size v : is_bytes (compact size v).
Proof.
  revert v. induction size; intros v; simpl; constructor; [apply u8_range|].
  destruct (v / 256 =? 0); [constructor|apply IHsize].
Qed.

Lemma compact_decode size v :
  0 <= v < 256 ^ Z.of_nat size -> le_decode (compact size v) = v.
Proof.
  revert v. induction size as [|size IH]; intros v Hv; cbn [compact];
    [change (256 ^ Z.of_nat 0) with 1 in Hv; rewrite le_decode_nil; lia|].
  rewrite Nat2Z.inj_succ, Z.pow_succ_r in Hv by lia.
  set (p := 256 ^ Z.of_nat size) in *. clearbody p.
  rewrite le_decode_cons. destruct (Z.eqb_spec (v / 256) 0); [rewrite le_decode_nil; word|].
  rewrite IH; word.
Qed.

(** The last byte is zero only for the number zero: the encoding is canonical. *)
Lemma compact_last size v :
  0 < v < 256 ^ Z.of_nat size -> default 0 (last (compact size v)) <> 0.
Proof.
  revert v. induction size as [|size IH]; intros v Hv;
    [change (256 ^ Z.of_nat 0) with 1 in Hv; lia|].
  rewrite Nat2Z.inj_succ, Z.pow_succ_r in Hv by lia. cbn [compact].
  destruct (Z.eqb_spec (v / 256) 0); [simpl; word|].
  destruct size as [|size]; [change (256 ^ Z.of_nat 0) with 1 in Hv; word|].
  specialize (IH (v / 256) ltac:(Z.to_euclidean_division_equations; lia)).
  pose proof (length_compact size (v / 256)) as Hlen.
  destruct (compact (S size) (v / 256)); [simpl in Hlen; lia|]. done.
Qed.

Lemma compact_canonical size v :
  0 <= v < 256 ^ Z.of_nat size -> 
  (zlen (compact size v) >? 1) && (default 0 (last (compact size v)) =? 0) = false.
Proof.
  intros Hv. destruct (Z.eqb_spec (default 0 (last (compact size v))) 0) as [E|]; [|apply andb_false_r].
  destruct (decide (v = 0)) as [->|]; [|by apply compact_last in E; [|lia]].
  destruct size; done.
Qed.

Lemma writeUintCompact_loop_spec size b w v room n :
  wrote b w (size + room) -> 0 <= v ->
  exists b', writeUintCompact_loop size b v n = Ret (n + zlen (compact size v), b') /\
    wrote b' (w ++ compact size v) room.
Proof.
  revert b w v n. induction size as [|size IH]; intros b w v n Hw Hv; simpl.
  - exists b. rewrite app_nil_r. split; [|done]. by rewrite Z.add_0_r.
  - destruct (wrote_byte b w (size + room) (u8 v)) as (b' & -> & Hb'); [done|]. simpl.
    rewrite Z.shiftr_div_pow2 by lia. change (2 ^ 8) with 256.
    destruct (Z.eqb_spec (v / 256) 0) as [E|].
    + exists b'. split; [done|]. destruct Hb' as (rest & ? & ? & ?). exists rest. repeat split; [done..|lia].
    + destruct (IH b' (w ++ [u8 v]) (v / 256) (n + 1)) as (b2 & -> & Hb2); [done| |].
      { apply Z.div_pos; lia. }
      exists b2. rewrite <-app_assoc in Hb2. split; [|done]. do 2 f_equal.
      unfold zlen. simpl. lia.
Qed.

(** What the reader computes, for any number of bytes: the number modulo
    2^64. *)
Lemma read_digits_decode bs (i : nat) acc :
  is_bytes bs -> is_u64 acc ->
  foldl read_digit acc (imap (fun j b => (Z.of_nat (i + j), b)) bs)
  = u64 (acc + 256 ^ Z.of_nat i * le_decode bs).
Proof.
  intros Hbs. revert i acc. induction Hbs as [|b bs Hb Hbs IH]; intros i acc Hacc; simpl.
  - rewrite le_decode_nil, Z.mul_0_r, Z.add_0_r, u64_id; done.
  - rewrite le_decode_cons, (imap_ext _ (fun j b => (Z.of_nat (S i + j), b))).
    2:{ intros j x _. simpl. f_equal. lia. }
    rewrite IH by apply u64_range. unfold read_digit. simpl.
    rewrite Z.shiftl_mul_pow2 by lia.
    replace (2 ^ (8 * Z.of_nat (i + 0))) with (256 ^ Z.of_nat i).
    2:{ rewrite Nat.add_0_r, Z.pow_mul_r by lia. done. }
    replace (256 ^ Z.of_nat (S i)) with (256 * 256 ^ Z.of_nat i)
      by (rewrite Nat2Z.inj_succ, Z.pow_succ_r; lia).
    unfold u64. rewrite Zplus_mod_idemp_r. rewrite Zplus_mod_idemp_l. f_equal. lia.
Qed.

Lemma readUintCompact_spec raw size b v l :
  0 <= v < 256 ^ Z.of_nat size -> (size <= 8)%nat -> unread raw b (compact size v ++ l) ->
  exists b', readUintCompact b (zlen (compact size v)) = Ret (inr v, b') /\ unread raw b' l.
Proof.
  intros Hv Hs Hb. unfold readUintCompact.
  destruct (unread_read _ _ _ _ Hb) as (b' & -> & Hb'). simpl.
  rewrite compact_canonical by done. exists b'. split; [|done]. do 3 f_equal.
  rewrite (imap_ext _ (fun j b => (Z.of_nat (0 + j), b))) by done.
  rewrite read_digits_decode, compact_decode by (done || apply compact_bytes).
  rewrite u64_id; [lia|]. simpl. rewrite Z.mul_1_l.
  assert (256 ^ Z.of_nat size <= 256 ^ 8) by (apply Z.pow_le_mono_r; lia).
  unfold is_u64. change (256 ^ 8) with 18446744073709551616 in *.
  destruct v; lia.
Qed.

(** ** Lists of fields *)

Lemma writeUintCompact_spec size b w v room :
  wrote b w (size + room) -> 0 <= v ->
  exists b', writeUintCompact b v size = Ret (zlen (compact size v), b') /\
    wrote b' (w ++ compact size v) room.
Proof. intros Hw Hv. by apply (writeUintCompact_loop_spec size b w v room 0). Qed.

Definition size_of (size : nat) (v : Z) : Z := zlen (compact size v) - 1.

Lemma size_of_range size v : 0 <= size_of (S size) v <= Z.of_nat size.
Proof. unfold size_of, zlen. pose proof (length_compact size v). lia. Qed.

Lemma write_fields_spec size bits count vs : forall hd buf sz w room,
  part_width bits -> Z.of_nat size < 2 ^ bits ->
  bits_written bits count hd sz -> wrote buf w (S size * length vs + room) ->
  Forall (fun v => 0 <= v) vs -> zlen sz + zlen vs <= count ->
  exists hd' buf', go_fold (write_field (S size)) (hd, buf) vs = Ret (hd', buf') /\
    bits_written bits count hd' (sz ++ (size_of (S size) <$> vs)) /\
    wrote buf' (w ++ mjoin (compact (S size) <$> vs)) room.
Proof.
  induction vs as [|v vs IH]; intros hd buf sz w room Hb Hs Hhd Hbuf Hvs Hc.
  - exists hd, buf. simpl. rewrite !app_nil_r. split; [done|]. split; [done|].
    by rewrite Nat.mul_0_r in Hbuf.
  - apply Forall_cons in Hvs as [Hv Hvs].
    rewrite length_cons, Nat.mul_succ_r in Hbuf.
    destruct (writeUintCompact_spec (S size) buf w v (S size * length vs + room))
      as (b1 & E1 & H1); [|done|].
    { eapply (eq_ind _ (fun r => wrote buf w r)); [exact Hbuf|lia]. }
    pose proof (size_of_range size v). unfold zlen in Hc. rewrite length_cons in Hc.
    destruct (bits_push bits count hd sz (size_of (S size) v)) as (h1 & E2 & H2);
      [done|done|unfold zlen; lia|lia|].
    destruct (IH h1 b1 (sz ++ [size_of (S size) v]) (w ++ compact (S size) v) room)
      as (h2 & b2 & E3 & H3 & H4); try done.
    { unfold zlen. rewrite length_app. simpl. lia. }
    assert (write_field (S size) (hd, buf) v = Ret (h1, b1)) as E.
    { unfold write_field. cbn [fst snd]. rewrite E1, go_bind_Ret.
      unfold size_of in E2. by rewrite E2. }
    exists h2, b2. cbn [go_fold]. rewrite E, go_bind_Ret. split; [exact E3|]. rewrite !fmap_cons. split.
    + by rewrite <-app_assoc in H3.
    + by rewrite <-app_assoc in H4.
Qed.

Lemma read_fields_spec raw size bits vs : forall hd buf rest l,
  part_width bits -> (size < 8)%nat ->
  Forall (fun v => 0 <= v < 256 ^ Z.of_nat (S size)) vs ->
  bits_left bits hd ((size_of (S size) <$> vs) ++ rest) ->
  unread raw buf (mjoin (compact (S size) <$> vs) ++ l) ->
  exists hd' buf', read_fields (length vs) hd buf = sret (vs, hd', buf') /\
    bits_left bits hd' rest /\ unread raw buf' l.
Proof.
  induction vs as [|v vs IH]; intros hd buf rest l Hb Hs Hvs Hhd Hbuf.
  - exists hd, buf. done.
  - apply Forall_cons in Hvs as [Hv Hvs]. rewrite fmap_cons in Hhd. rewrite fmap_cons in Hbuf.
    destruct (bits_pop _ _ _ _ Hb Hhd) as (h1 & E1 & H1).
    cbn [mjoin list_join] in Hbuf. rewrite <-app_assoc in Hbuf.
    destruct (readUintCompact_spec raw (S size) buf v _ Hv ltac:(lia) Hbuf) as (b1 & E2 & H2).
    destruct (IH h1 b1 rest l) as (h2 & b2 & E3 & H3 & H4); try done.
    exists h2, b2. cbn [length read_fields]. rewrite E1, go_bind_Ret.
    replace (size_of (S size) v + 1) with (zlen (compact (S size) v)) by (unfold size_of; lia).
    rewrite E2, go_bind_Ret. rewrite E3. done.
Qed.

Lemma write_bools_spec bits count fs : forall hd sz,
  part_width bits -> bits_written bits count hd sz -> zlen sz + zlen fs <= count ->
  exists hd', go_fold (fun w (f : bool) => BitArrayWriter_Push w (if f then 1 else 0)) hd fs
              = Ret hd' /\
    bits_written bits count hd' (sz ++ ((fun f : bool => if f then 1 else 0) <$> fs)).
Proof.
  induction fs as [|f fs IH]; intros hd sz Hb Hhd Hc.
  - exists hd. simpl. by rewrite app_nil_r.
  - unfold zlen in Hc. rewrite length_cons in Hc.
    destruct (bits_push bits count hd sz (if f then 1 else 0)) as (h1 & E1 & H1);
      [done|done|unfold zlen; lia| |].
    { destruct Hb as [->|[->| ->]], f; split; by vm_compute. }
    destruct (IH h1 _ Hb H1) as (h2 & E2 & H2).
    { unfold zlen. rewrite length_app. simpl. lia. }
    exists h2. cbn [go_fold]. rewrite E1, go_bind_Ret. split; [done|].
    rewrite fmap_cons. by rewrite <-app_assoc in H2.
Qed.

Lemma read_bools_spec bits fs : forall hd rest,
  part_width bits ->
  bits_left bits hd (((fun f : bool => if f then 1 else 0) <$> fs) ++ rest) ->
  exists hd', read_bools (length fs) hd = Ret (fs, hd') /\ bits_left bits hd' rest.
Proof.
  induction fs as [|f fs IH]; intros hd rest Hb Hhd; [by exists hd|].
  rewrite fmap_cons in Hhd. destruct (bits_pop _ _ _ _ Hb Hhd) as (h1 & E1 & H1).
  destruct (IH h1 rest Hb H1) as (h2 & E2 & H2).
  exists h2. cbn [length read_bools]. rewrite E1, go_bind_Ret, E2, go_bind_Ret. split; [|done].
  by destruct f.
Qed.

Lemma write_parents_spec ps : forall buf w room,
  Forall (fun p : hash => length p = 32%nat) ps ->
  wrote buf w (28 * length ps + room) ->
  exists buf', go_fold (fun b p => Buffer_Write b (drop 4 p)) buf ps = Ret buf' /\
    wrote buf' (w ++ mjoin (drop 4 <$> ps)) room.
Proof.
  induction ps as [|p ps IH]; intros buf w room Hps Hbuf.
  - exists buf. simpl. rewrite app_nil_r. done.
  - apply Forall_cons in Hps as [Hp Hps].
    destruct (wrote_bytes buf w (28 * length ps + room) (drop 4 p)) as (b1 & E1 & H1).
    { rewrite length_drop, Hp. eapply (eq_ind _ (fun r => wrote buf w r)); [exact Hbuf|simpl; lia]. }
    destruct (IH b1 _ room Hps H1) as (b2 & E2 & H2).
    exists b2. cbn [go_fold]. rewrite E1, go_bind_Ret. split; [done|].
    rewrite fmap_cons. by rewrite <-app_assoc in H2.
Qed.

Lemma read_parents_spec raw epoch ps : forall buf l,
  Forall (fun p : hash => length p = 32%nat /\ take 4 p = Epoch_Bytes epoch) ps ->
  unread raw buf (mjoin (drop 4 <$> ps) ++ l) ->
  exists buf', read_parents epoch (length ps) buf = Ret (ps, buf') /\ unread raw buf' l.
Proof.
  induction ps as [|p ps IH]; intros buf l Hps Hbuf; [by exists buf|].
  apply Forall_cons in Hps as [[Hp Hep] Hps]. rewrite fmap_cons in Hbuf.
  cbn [mjoin list_join] in Hbuf. rewrite <-app_assoc in Hbuf.
  destruct (unread_read _ _ _ _ Hbuf) as (b1 & E1 & H1).
  destruct (IH b1 l Hps H1) as (b2 & E2 & H2).
  exists b2. cbn [length read_parents].
  replace (32 - 4) with (zlen (drop 4 p)) by (unfold zlen; rewrite length_drop, Hp; done).
  rewrite E1, go_bind_Ret, E2, go_bind_Ret, <-Hep, take_drop. done.
Qed.

(** ** Headers *)

(** What every header that the node builds or accepts satisfies: the fields
    are in the range of their types, and the parents carry the epoch of the
    event. *)
Record header_ok (e : EventHeaderData) : Prop := {
  hk_u32 : Forall is_u32 [Version e; Epoch e; Seq e; Frame e; Creator e; Lamport e];
  hk_gas : exists g0 g1, GasPowerLeft e = [g0; g1] /\ is_u64 g0 /\ is_u64 g1;
  hk_u64 : Forall is_u64 [GasPowerUsed e; ClaimedTime e; MedianTime e];
  hk_parents : Forall (fun p : hash => length p = 32%nat /\ take 4 p = Epoch_Bytes (Epoch e)) (Parents e);
  hk_count : is_u32 (zlen (Parents e));
  hk_prev : length (PrevEpochHash e) = 32%nat;
  hk_tx : length (TxHash e) = 32%nat
}.

Section headers.
Context (EmptyTxHash : hash).

Definition opt_hash (absent : bool) (h : hash) : bytes := if absent then [] else h.

(** The fields as they follow the arrays of sizes. *)
Definition header_fields (f64 : list Z) (e : EventHeaderData) : bytes :=
  mjoin (compact 8 <$> f64) ++ mjoin (compact 4 <$> fields32 e) ++
  mjoin (drop 4 <$> Parents e) ++ opt_hash (isPrevEpochHashEmpty e) (PrevEpochHash e) ++
  opt_hash (isTxHashEmpty EmptyTxHash e) (TxHash e) ++ Extra e.

Lemma wrote_take b w room : wrote b w room -> take (Z.to_nat (Buffer_Position b)) (bf_buf b) = w.
Proof.
  intros (rest & -> & E & _). unfold Buffer_Position. rewrite E. unfold zlen.
  by rewrite Nat2Z.id, take_app_length.
Qed.

Lemma wrote_opt b w room (absent : bool) (h : hash) :
  length h = 32%nat -> wrote b w (32 + room) ->
  exists b', (if absent then Ret b else Buffer_Write b h) = Ret b' /\
    wrote b' (w ++ opt_hash absent h) room.
Proof.
  intros Hh Hb. destruct absent; simpl.
  - exists b. rewrite app_nil_r. split; [done|].
    destruct Hb as (rest & ? & ? & ?). exists rest. split; [done|]. split; [done|lia].
  - apply wrote_bytes. by rewrite Hh.
Qed.

Lemma fields64_spec e :
  header_ok e -> exists f64, fields64 e = Ret f64 /\ length f64 = 5%nat /\ Forall is_u64 f64.
Proof.
  intros [_ (g0 & g1 & Hg & H0 & H1) Hu _ _ _ _]. unfold fields64. rewrite Hg. simpl.
  eexists. split; [done|]. split; [done|].
  constructor; [done|]. by constructor.
Qed.

Lemma fields32_ok e : header_ok e -> Forall is_u32 (fields32 e).
Proof.
  intros He. pose proof (hk_u32 e He) as H. unfold fields32.
  change (Forall is_u32 ([Version e; Epoch e; Seq e; Frame e; Creator e; Lamport e]
                           ++ [u32 (zlen (Parents e))])).
  apply Forall_app. split; [done|]. constructor; [apply u32_range|done].
Qed.

Lemma MarshalBinary_spec e :
  header_ok e ->
  exists f64 h3 h2, fields64 e = Ret f64 /\
    bits_written 4 5 h3 (size_of 8 <$> f64) /\
    bits_written 2 10 h2 ((size_of 4 <$> fields32 e) ++
                          ((fun f : bool => if f then 1 else 0) <$> fieldsBool EmptyTxHash e)) /\
    MarshalBinary EmptyTxHash e = Ret (bc_raw h3 ++ bc_raw h2 ++ header_fields f64 e).
Proof.
  intros He. destruct (fields64_spec e He) as (f64 & E64 & L64 & H64).
  pose proof (fields32_ok e He) as H32.
  assert (length (fields32 e) = 7%nat) as L32 by done.
  set (total := (8 * 5 + (4 * 7 + (28 * length (Parents e) + (32 + (32 + (length (Extra e) + 0))))))%nat).
  assert (wrote (NewBuffer (replicate (Z.to_nat (maxBytes e)) 0)) [] total) as H0.
  { exists (replicate (Z.to_nat (maxBytes e)) 0). split; [done|]. split; [done|].
    rewrite length_replicate. unfold maxBytes, total, zlen. lia. }
  destruct (write_fields_spec 7 4 5 f64 _ _ _ _ _
              part_width_4 ltac:(lia)
              (bits_new 4 5 part_width_4 ltac:(lia)) ltac:(rewrite L64; exact H0)
              (Forall_impl _ _ _ H64 (fun z Hz => proj1 Hz)))
    as (h3 & b1 & E1 & W3 & B1); [unfold zlen; rewrite L64; simpl; lia|].
  destruct (write_fields_spec 3 2 10 (fields32 e) _ _ _ _ _
              part_width_2 ltac:(lia)
              (bits_new 2 10 part_width_2 ltac:(lia)) B1
              (Forall_impl _ _ _ H32 (fun z Hz => proj1 Hz)))
    as (h2 & b2 & E2 & W2 & B2); [unfold zlen; rewrite L32; simpl; lia|].
  destruct (write_bools_spec 2 10 (fieldsBool EmptyTxHash e) h2 _ part_width_2 W2) as (h2' & E3 & W2');
    [unfold zlen; done|].
  destruct (write_parents_spec (Parents e) b2 _ _ (Forall_impl _ _ _ (hk_parents e He) (fun p H => proj1 H)) B2)
    as (b3 & E4 & B3).
  destruct (wrote_opt b3 _ _ (isPrevEpochHashEmpty e) (PrevEpochHash e) (hk_prev e He) B3) as (b4 & E5 & B4).
  destruct (wrote_opt b4 _ _ (isTxHashEmpty EmptyTxHash e) (TxHash e) (hk_tx e He) B4) as (b5 & E6 & B5).
  destruct (wrote_bytes b5 _ _ (Extra e) B5) as (b6 & E7 & B6).
  exists f64, h3, h2'. split; [done|]. split; [exact W3|]. split; [exact W2'|].
  unfold MarshalBinary. rewrite E64, go_bind_Ret.
  change (NewBitArray 4 5) with (Ret (mkBitArray 4 5 3)).
  change (NewBitArray 2 10) with (Ret (mkBitArray 2 10 3)). rewrite !go_bind_Ret.
  change (BitArray_Writer (mkBitArray 4 5 3) _) with (Ret (mkBitCursor (mkBitArray 4 5 3) 0 [0;0;0])).
  change (BitArray_Writer (mkBitArray 2 10 3) _) with (Ret (mkBitCursor (mkBitArray 2 10 3) 0 [0;0;0])).
  rewrite !go_bind_Ret.
  change (mkBitCursor _ 0 (replicate (Z.to_nat (calcSize 4 5)) 0)) with (mkBitCursor (mkBitArray 4 5 3) 0 [0;0;0]) in E1.
  change (mkBitCursor _ 0 (replicate (Z.to_nat (calcSize 2 10)) 0)) with (mkBitCursor (mkBitArray 2 10 3) 0 [0;0;0]) in E2.
  rewrite E1, go_bind_Ret, E2, go_bind_Ret, E3, go_bind_Ret, E4, go_bind_Ret, E5, go_bind_Ret,
    E6, go_bind_Ret, E7, go_bind_Ret.
  rewrite (wrote_take _ _ _ B6). unfold header_fields. by rewrite <-!app_assoc.
Qed.

Lemma FromBytes_id (h : hash) : length h = 32%nat -> FromBytes h = h.
Proof. intros H. unfold FromBytes. rewrite decide_False by lia. by rewrite H. Qed.

Lemma read_hash_spec raw (absent : bool) (dflt skipped h : hash) buf l :
  length h = 32%nat -> absent = bool_decide (h = skipped) -> (h = skipped -> h = dflt) ->
  unread raw buf (opt_hash absent h ++ l) ->
  exists buf', read_hash absent dflt skipped buf = sret (h, buf') /\ unread raw buf' l.
Proof.
  intros Hh -> Hd Hb. unfold read_hash. case_bool_decide as Hs; simpl in Hb.
  - exists buf. by rewrite <-Hd.
  - destruct (unread_read _ _ _ _ Hb) as (b' & E & H'). exists b'. unfold zlen in E.
    rewrite Hh in E. change (Z.of_nat 32) with 32 in E. rewrite E, go_bind_Ret, FromBytes_id by done.
    by rewrite decide_False.
Qed.

Lemma unread_all raw b l :
  unread raw b l -> exists b', Buffer_Read b (zlen raw - Buffer_Position b) = Ret (l, b').
Proof.
  intros H. assert (zlen raw - Buffer_Position b = zlen l) as ->.
  { destruct H as (_ & pre & -> & E). unfold Buffer_Position. rewrite E, zlen_app. lia. }
  destruct (unread_read raw b l []) as (b' & E & H'); [by rewrite app_nil_r|]. by exists b'.
Qed.

Lemma unmarshal_fields_spec e e0 f64 r3 r2 :
  header_ok e -> PrevEpochHash e0 = ZeroHash -> fields64 e = Ret f64 ->
  bits_left 4 r3 (size_of 8 <$> f64) ->
  bits_left 2 r2 ((size_of 4 <$> fields32 e) ++
                  ((fun f : bool => if f then 1 else 0) <$> fieldsBool EmptyTxHash e)) ->
  unmarshal_fields EmptyTxHash e0 r3 r2 (header_fields f64 e) = sret (set_cache e (hash_cache e0)).
Proof.
  intros He H0 E64 L3 L2. pose proof (fields32_ok e He) as H32.
  destruct (fields64_spec e He) as (f64' & E64' & L64 & H64).
  rewrite E64 in E64'. injection E64' as <-. unfold unmarshal_fields.
  set (raw := header_fields f64 e).
  assert (unread raw (NewBuffer raw) (header_fields f64 e)) as V0 by (by split; [|exists []]).
  unfold header_fields in V0.
  rewrite <-(app_nil_r (size_of 8 <$> f64)) in L3.
  destruct (read_fields_spec raw 7 4 f64 _ _ _ _ part_width_4 ltac:(lia) H64 L3 V0) as (r3' & v1 & F1 & _ & V1).
  rewrite L64 in F1. rewrite F1. cbn [sbind sret].
  destruct (read_fields_spec raw 3 2 (fields32 e) _ _ _ _ part_width_2 ltac:(lia) H32 L2 V1) as (r2' & v2 & F2 & L2' & V2).
  change (length (fields32 e)) with 7%nat in F2. rewrite F2. cbn [sbind sret].
  rewrite <-(app_nil_r (_ <$> fieldsBool EmptyTxHash e)) in L2'.
  destruct (read_bools_spec 2 (fieldsBool EmptyTxHash e) _ _ part_width_2 L2') as (r2'' & F3 & _).
  change (length (fieldsBool EmptyTxHash e)) with 3%nat in F3. rewrite F3, go_bind_Ret.
  destruct (hk_gas e He) as (g0 & g1 & Hg & _ & _).
  assert (f64 = [g0; g1; GasPowerUsed e; ClaimedTime e; MedianTime e]) as ->.
  { unfold fields64 in E64. rewrite Hg in E64. by injection E64. }
  cbn [fields32 fieldsBool].
  rewrite (u32_id (u32 (zlen (Parents e)))) by apply u32_range.
  rewrite (u32_id (zlen (Parents e))) by apply (hk_count e He).
  unfold zlen. rewrite Nat2Z.id. 
  pose proof (hk_u32 e He) as HU. rewrite !Forall_cons in HU.
  destruct HU as (U1 & U2 & U3 & U4 & U5 & U6 & _).
  rewrite !u32_id by done.
  destruct (read_parents_spec raw (Epoch e) (Parents e) _ _ (hk_parents e He) V2) as (v3 & F4 & V3).
  rewrite F4, go_bind_Ret.
  destruct (read_hash_spec raw (isPrevEpochHashEmpty e) (PrevEpochHash e0) ZeroHash (PrevEpochHash e) _ _
     (hk_prev e He) eq_refl ltac:(congruence) V3) as (v4 & F5 & V4).
  rewrite F5. cbn [sbind sret].
  destruct (read_hash_spec raw (isTxHashEmpty EmptyTxHash e) EmptyTxHash EmptyTxHash (TxHash e) _ _
     (hk_tx e He) eq_refl ltac:(done) V4) as (v5 & F6 & V5).
  rewrite F6. cbn [sbind sret].
  destruct (unread_all raw v5 _ V5) as (v6 & F7). unfold zlen in F7. rewrite F7, go_bind_Ret.
  unfold set_cache. by rewrite Hg.
Qed.

(** The decoder gives back the header, whatever it was given to fill, as long
    as that has no previous epoch's hash. *)
Lemma unmarshal_marshal e e0 raw :
  header_ok e -> PrevEpochHash e0 = ZeroHash -> MarshalBinary EmptyTxHash e = Ret raw ->
  unmarshal_body EmptyTxHash e0 raw = sret (set_cache e (hash_cache e0)).
Proof.
  intros He H0 Hraw.
  destruct (MarshalBinary_spec e He) as (f64 & h3 & h2 & E64 & W3 & W2 & E).
  rewrite Hraw in E. injection E as ->. unfold unmarshal_body.
  destruct (fields64_spec e He) as (f64' & E64' & L64 & H64).
  rewrite E64 in E64'. injection E64' as <-.
  change (NewBitArray 4 5) with (Ret (mkBitArray 4 5 (calcSize 4 5))).
  change (NewBitArray 2 10) with (Ret (mkBitArray 2 10 (calcSize 2 10))).
  rewrite !go_bind_Ret. cbn [ba_size].
  set (raw := bc_raw h3 ++ bc_raw h2 ++ header_fields f64 e).
  assert (unread raw (NewBuffer raw) raw) as U0 by (by split; [|exists []]).
  destruct (unread_read _ _ _ _ U0) as (u1 & R1 & U1). rewrite (bw_len _ _ _ _ W3) in R1.
  destruct (unread_read _ _ _ _ U1) as (u2 & R2 & U2). rewrite (bw_len _ _ _ _ W2) in R2.
  rewrite R1, go_bind_Ret, R2, go_bind_Ret.
  destruct (bits_reader _ _ _ _ part_width_4 W3) as (r3 & E3 & L3).
  { unfold zlen. by rewrite length_fmap, L64. }
  destruct (bits_reader _ _ _ _ part_width_2 W2) as (r2 & E2 & L2); [done|].
  rewrite E3, go_bind_Ret, E2, go_bind_Ret.
  assert (drop (Z.to_nat (bf_offset u2)) raw = header_fields f64 e) as ->.
  { destruct U2 as (_ & pre & -> & ->). unfold zlen. by rewrite Nat2Z.id, drop_app_length. }
  by apply unmarshal_fields_spec.
Qed.

End headers.

(** Reading [count] parts. *)
Fixpoint pop_all (count : nat) (c : BitCursor) : go (list Z) :=
  match count with
  | O => Ret []
  | S count => '(v, c) ← BitArrayReader_Pop c; vs ← pop_all count c; Ret (v :: vs)
  end.

Lemma push_all bits count vs : forall c sz,
  part_width bits -> bits_written bits count c sz -> zlen sz + zlen vs <= count ->
  Forall (fun v => 0 <= v < 2 ^ bits) vs ->
  exists c', go_fold BitArrayWriter_Push c vs = Ret c' /\ bits_written bits count c' (sz ++ vs).
Proof.
  induction vs as [|v vs IH]; intros c sz Hb Hc Hn Hvs.
  - exists c. by rewrite app_nil_r.
  - apply Forall_cons in Hvs as [Hv Hvs]. unfold zlen in Hn. rewrite length_cons in Hn.
    destruct (bits_push bits count c sz v) as (c1 & E1 & H1); [done|done|unfold zlen; lia|done|].
    destruct (IH c1 _ Hb H1) as (c2 & E2 & H2); [|done|].
    { unfold zlen. rewrite length_app. simpl. lia. }
    exists c2. cbn [go_fold]. rewrite E1, go_bind_Ret. by rewrite <-app_assoc in H2.
Qed.

Lemma pop_all_spec bits vs : forall c,
  part_width bits -> bits_left bits c vs -> pop_all (length vs) c = Ret vs.
Proof.
  induction vs as [|v vs IH]; intros c Hb Hc; [done|]. cbn [length pop_all].
  destruct (bits_pop _ _ _ _ Hb Hc) as (c' & E & H'). rewrite E, go_bind_Ret, (IH c' Hb H').
  done.
Qed.

(** a bit array gives back what was pushed into it, for each of the
    three widths and any number of parts: writing does not panic, fills
    exactly [Size] bytes, and the reader over these bytes pops the same values
    in the same order. *)
Theorem bitarray_roundtrip (bits : Z) (vs : list Z) :
  bits = 1 \/ bits = 2 \/ bits = 4 ->
  Forall (fun v => 0 <= v < 2 ^ bits) vs ->
  exists arr w c r,
    NewBitArray bits (zlen vs) = Ret arr /\
    BitArray_Writer arr (replicate (Z.to_nat (ba_size arr)) 0) = Ret w /\
    go_fold BitArrayWriter_Push w vs = Ret c /\
    BitArray_Reader arr (bc_raw c) = Ret r /\
    pop_all (length vs) r = Ret vs.
Proof.
  intros Hb Hvs. pose proof (bits_new bits (zlen vs) Hb (zlen_nonneg vs)) as H0.
  destruct (push_all bits (zlen vs) vs _ _ Hb H0) as (c & E & Hc); [unfold zlen; simpl; lia|done|].
  destruct (bits_reader _ _ _ _ Hb Hc ltac:(simpl; lia)) as (r & Er & Hr).
  unfold NewBitArray. rewrite decide_True by done.
  eexists _, _, c, r. split; [done|]. split; [|split; [exact E|split; [exact Er|]]].
  - unfold BitArray_Writer. pose proof (bw_len _ _ _ _ H0) as Hl. simpl in Hl |- *.
    by rewrite decide_True by done.
  - by apply (pop_all_spec bits).
Qed.

Lemma bitarray_roundtrip_witness :
  exists arr w c r,
    NewBitArray 2 5 = Ret arr /\
    BitArray_Writer arr (replicate (Z.to_nat (ba_size arr)) 0) = Ret w /\
    go_fold BitArrayWriter_Push w [3; 0; 2; 1; 3] = Ret c /\
    BitArray_Reader arr (bc_raw c) = Ret r /\
    pop_all 5 r = Ret [3; 0; 2; 1; 3].
Proof.
  apply (bitarray_roundtrip 2 [3; 0; 2; 1; 3]); [lia|].
  repeat (constructor; [lia|]). constructor.
Defined.

(** C37: encoding an event header and decoding the bytes into a new header
    gives the header back, every field of it (the cached hash is not part of
    the encoding); in particular the encoder never panics on such a header, and
    the decoder neither rejects it nor panics. *)
Theorem header_roundtrip (EmptyTxHash : hash) (e : EventHeaderData) :
  header_ok e ->
  exists raw, MarshalBinary EmptyTxHash e = Ret raw /\
    UnmarshalBinary EmptyTxHash NewHeader raw = inr (set_cache e None).
Proof.
  intros He. destruct (MarshalBinary_spec EmptyTxHash e He) as (? & ? & ? & _ & _ & _ & E).
  eexists. split; [exact E|]. unfold UnmarshalBinary.
  by rewrite (unmarshal_marshal EmptyTxHash e NewHeader _ He eq_refl E).
Qed.

(** A header with two parents. *)
Definition example_header : EventHeaderData :=
  mkHeader 0 7 300 70000 true 5 ZeroHash
    [Epoch_Bytes 7 ++ replicate 28 1; Epoch_Bytes 7 ++ replicate 28 2]
    [1; 18446744073709551615] 256 40 1000000007 0 (replicate 32 9) [1; 2; 3] None.

Lemma example_header_ok : header_ok example_header.
Proof.
  split; simpl; try done.
  - repeat (constructor; [done|]). constructor.
  - exists 1, 18446744073709551615. done.
  - repeat (constructor; [done|]). constructor.
  - repeat (constructor; [done|]). constructor.
Qed.

Lemma header_roundtrip_witness :
  exists raw, MarshalBinary (replicate 32 3) example_header = Ret raw /\
    UnmarshalBinary (replicate 32 3) NewHeader raw = inr example_header.
Proof. exact (header_roundtrip (replicate 32 3) example_header example_header_ok). Defined.

(** two headers that encode to the same bytes are the same header, so
    that a hash of the encoding identifies the header as far as the hash
    function does. *)
Theorem marshal_injective (EmptyTxHash : hash) (e1 e2 : EventHeaderData) (raw : bytes) :
  header_ok e1 -> header_ok e2 ->
  MarshalBinary EmptyTxHash e1 = Ret raw -> MarshalBinary EmptyTxHash e2 = Ret raw ->
  set_cache e1 None = set_cache e2 None.
Proof.
  intros H1 H2 E1 E2. pose proof (unmarshal_marshal EmptyTxHash e1 NewHeader raw H1 eq_refl E1) as D1.
  rewrite (unmarshal_marshal EmptyTxHash e2 NewHeader raw H2 eq_refl E2) in D1.
  change (hash_cache NewHeader) with (@None hash) in D1. unfold sret in D1. congruence.
Qed.

Lemma marshal_injective_witness :
  set_cache example_header None = set_cache (set_cache example_header (Some ZeroHash)) None.
Proof.
  apply (marshal_injective (replicate 32 3) example_header
           (set_cache example_header (Some ZeroHash))
           (match MarshalBinary (replicate 32 3) example_header with Ret r => r | Fault _ => [] end)).
  - apply example_header_ok.
  - destruct example_header_ok. split; done.
  - vm_compute. reflexivity.
  - vm_compute. reflexivity.
Defined.

(** the decoder is not injective, although it has an error for
    non-canonical encodings: a flag of two bits counts as set for the values 1,
    2 and 3, and a size of four bits can announce nine bytes, of which the
    ninth is shifted out of the number.  Here three different byte strings
    decode to one header, the first of which is its encoding. *)
Theorem decoder_malleable (EmptyTxHash : hash) :
  let e := mkHeader 0 0 0 0 false 0 ZeroHash [] [0; 0] 0 0 0 0 EmptyTxHash [] None in
  let canonical := [0; 0; 0; 0; 0; 5] ++ replicate 12 0 in
  let other_flag := [0; 0; 0; 0; 0; 10] ++ replicate 12 0 in
  let long_number := [8; 0; 0; 0; 0; 5] ++ replicate 8 0 ++ [1] ++ replicate 11 0 in
  MarshalBinary EmptyTxHash e = Ret canonical /\
  UnmarshalBinary EmptyTxHash NewHeader canonical = inr e /\
  UnmarshalBinary EmptyTxHash NewHeader other_flag = inr e /\
  UnmarshalBinary EmptyTxHash NewHeader long_number = inr e.
Proof.
  cbv zeta. split; [|by vm_compute].
  unfold MarshalBinary, fieldsBool, isTxHashEmpty. simpl TxHash.
  rewrite bool_decide_eq_true_2 by done. by vm_compute.
Qed.
