(* ===== verification/Vector.v ===== *)
(** * Vectors of clocks: vector/vector.go

    The three kinds of vectors are byte slices that are indexed in place.
    [vec_ok] says that a slice is a vector of entries of one width; under it,
    [Get] never panics and is a total function that is zero beyond the end,
    and [Set] changes the one entry and grows the vector as far as needed. *)

From S2P Require Import Prelude Bytes.
(** ** Slice expressions *)

(** [b[lo:hi]] for reading, with the run-time check. *)
Definition slice_expr (b : bytes) (lo hi : Z) : go bytes :=
  if decide (0 <= lo <= hi /\ hi <= zlen b)
  then Ret (take (Z.to_nat (hi - lo)) (drop (Z.to_nat lo) b))
  else Fault IndexOutOfRange.

(** Writing the bytes [v] at the front of [b[lo:hi]]. *)
Definition slice_put (b : bytes) (lo hi : Z) (v : bytes) : go bytes :=
  if decide (0 <= lo <= hi /\ hi <= zlen b /\ zlen v <= hi - lo)
  then Ret (take (Z.to_nat lo) b ++ v ++ drop (Z.to_nat lo + length v) b)
  else Fault IndexOutOfRange.

(** The loop of [Set] that appends one entry of zeros while the index is not
    inside, with the fuel for the number of rounds it can take. *)
Fixpoint grow (width : nat) (fuel : nat) (b : bytes) (i : Z) : bytes :=
  match fuel with
  | O => b
  | S fuel => if i >=? zlen b / Z.of_nat width
              then grow width fuel (b ++ replicate width 0) i
              else b
  end.
Definition grow_fuel (width : nat) (b : bytes) (i : Z) : nat :=
  Z.to_nat (i + 1 - zlen b / Z.of_nat width).

(** ** LowestAfterSeq *)

Definition NewLowestAfterSeq (size : Z) : bytes := replicate (Z.to_nat (size * 4)) 0.
Definition LowestAfterSeq_Size (b : bytes) : Z := zlen b / 4.

(** The offsets are computed in [idx.Validator], a [uint32]. *)
Definition LowestAfterSeq_Get (b : bytes) (i : Z) : go Z :=
  if i >=? LowestAfterSeq_Size b then Ret 0
  else bs ← slice_expr b (u32 (i * 4)) (u32 (u32 (i + 1) * 4));
       littleendian_BytesToInt32 bs.

Definition LowestAfterSeq_Set (b : bytes) (i seq : Z) : go bytes :=
  let b := grow 4 (grow_fuel 4 b i) b i in
  slice_put b (u32 (i * 4)) (u32 (u32 (i + 1) * 4)) (littleendian_Int32ToBytes seq).

(** ** HighestBeforeTime *)

Definition NewHighestBeforeTime (size : Z) : bytes := replicate (Z.to_nat (size * 8)) 0.
Definition HighestBeforeTime_Size (b : bytes) : Z := zlen b / 8.

Definition HighestBeforeTime_Get (b : bytes) (i : Z) : go Z :=
  if i >=? HighestBeforeTime_Size b then Ret 0
  else bs ← slice_expr b (u32 (i * 8)) (u32 (u32 (i + 1) * 8));
       littleendian_BytesToInt64 bs.

Definition HighestBeforeTime_Set (b : bytes) (i time : Z) : go bytes :=
  let b := grow 8 (grow_fuel 8 b i) b i in
  slice_put b (u32 (i * 8)) (u32 (u32 (i + 1) * 8)) (littleendian_Int64ToBytes time).

(** ** HighestBeforeSeq *)

Record BranchSeq := mkBranchSeq { bs_Seq : Z; bs_MinSeq : Z }.

#[global] Instance BranchSeq_eq_dec : EqDecision BranchSeq.
Proof. solve_decision. Defined.

Definition NewHighestBeforeSeq (size : Z) : bytes := replicate (Z.to_nat (size * 8)) 0.
Definition HighestBeforeSeq_Size (b : bytes) : Z := zlen b / 8.

Definition HighestBeforeSeq_Get (b : bytes) (i : Z) : go BranchSeq :=
  if i >=? HighestBeforeSeq_Size b then Ret (mkBranchSeq 0 0)
  else
    s1 ← slice_expr b (u32 (i * 8)) (u32 (u32 (i * 8) + 4));
    seq1 ← littleendian_BytesToInt32 s1;
    s2 ← slice_expr b (u32 (u32 (i * 8) + 4)) (u32 (u32 (i * 8) + 8));
    seq2 ← littleendian_BytesToInt32 s2;
    Ret (mkBranchSeq seq1 seq2).

Definition HighestBeforeSeq_Set (b : bytes) (i : Z) (seq : BranchSeq) : go bytes :=
  let b := grow 8 (grow_fuel 8 b i) b i in
  b ← slice_put b (u32 (i * 8)) (u32 (u32 (i * 8) + 4)) (littleendian_Int32ToBytes (bs_Seq seq));
  slice_put b (u32 (u32 (i * 8) + 4)) (u32 (u32 (i * 8) + 8))
    (littleendian_Int32ToBytes (bs_MinSeq seq)).

(** The marker of a fork that was observed. *)
Definition forkDetectedSeq : BranchSeq := mkBranchSeq 0 MaxInt32.
Definition IsForkDetected (seq : BranchSeq) : bool := bool_decide (seq = forkDetectedSeq).

(** ** Entries *)

(** A slice of whole entries, short enough for the offsets to be exact. *)
Definition vec_ok (width : nat) (b : bytes) : Prop :=
  is_bytes b /\ exists n : nat, length b = (width * n)%nat /\ Z.of_nat (width * n) < 2 ^ 32.

Definition entry (width : nat) (b : bytes) (i : Z) : bytes :=
  if decide (0 <= i < zlen b / Z.of_nat width)
  then take width (drop (Z.to_nat i * width) b)
  else replicate width 0.

(** The bytes after entry [i] was set to [c]. *)
Definition with_entry (width : nat) (b : bytes) (i : Z) (c : bytes) : bytes :=
  let b := grow width (grow_fuel width b i) b i in
  take (Z.to_nat i * width) b ++ c ++ drop (Z.to_nat i * width + width) b.

Section entries.
Context (width : nat) (Hwidth : (0 < width)%nat).
Implicit Types b c : bytes.

Lemma vec_ok_new n : 0 <= n -> Z.of_nat width * n < 2 ^ 32 ->
  vec_ok width (replicate (Z.to_nat (n * Z.of_nat width)) 0).
Proof.
  intros Hn Hs. split.
  - apply Forall_replicate. word.
  - exists (Z.to_nat n). rewrite length_replicate. nia.
Qed.

Lemma vec_size b n : length b = (width * n)%nat -> zlen b / Z.of_nat width = Z.of_nat n.
Proof.
  intros E. unfold zlen. rewrite E, Nat2Z.inj_mul, Z.mul_comm. apply Z.div_mul. lia.
Qed.

(** The loop ends with the entry inside. *)
Lemma grow_spec fuel b n i :
  length b = (width * n)%nat -> (Z.to_nat (i + 1 - Z.of_nat n) <= fuel)%nat ->
  grow width fuel b i = b ++ replicate (width * Z.to_nat (i + 1 - Z.of_nat n)) 0.
Proof.
  revert b n. induction fuel as [|fuel IH]; intros b n E Hf; simpl.
  - replace (Z.to_nat (i + 1 - Z.of_nat n)) with 0%nat by lia.
    rewrite Nat.mul_0_r. simpl. by rewrite app_nil_r.
  - rewrite (vec_size b n E), Z.geb_leb. destruct (Z.leb_spec (Z.of_nat n) i).
    + rewrite (IH _ (S n)) by (rewrite ?length_app, ?length_replicate; lia).
      rewrite <-app_assoc, <-replicate_add. do 2 f_equal. nia.
    + replace (Z.to_nat (i + 1 - Z.of_nat n)) with 0%nat by lia.
      rewrite Nat.mul_0_r. simpl. by rewrite app_nil_r.
Qed.

Lemma grow_vec b n i :
  length b = (width * n)%nat -> 0 <= i ->
  let b' := grow width (grow_fuel width b i) b i in
  exists m, b' = b ++ replicate (width * m) 0 /\
    length b' = (width * (n + m))%nat /\ Z.of_nat (n + m) = Z.max (Z.of_nat n) (i + 1).
Proof.
  intros E Hi b'. exists (Z.to_nat (i + 1 - Z.of_nat n)). unfold b', grow_fuel.
  rewrite (vec_size b n E), (grow_spec _ b n i E) by lia.
  rewrite length_app, length_replicate. split; [done|]. nia.
Qed.

Lemma entry_grow b n i j :
  length b = (width * n)%nat -> 0 <= i ->
  entry width (grow width (grow_fuel width b i) b i) j = entry width b j.
Proof.
  intros E Hi. destruct (grow_vec b n i E Hi) as (m & Eb & Hl & Hm).
  unfold entry. rewrite (vec_size _ _ Hl), (vec_size _ _ E).
  destruct (decide (0 <= j < Z.of_nat n)) as [Hj|Hj].
  - rewrite decide_True by lia. rewrite Eb, drop_app_le by (rewrite E; nia).
    rewrite take_app_le; [done|]. rewrite length_drop, E. nia.
  - case_decide as Hj'; [|done]. rewrite Eb.
    rewrite drop_app_ge by (rewrite E; nia). rewrite drop_replicate, take_replicate.
    f_equal. rewrite E. nia.
Qed.

Lemma with_entry_spec b i c :
  vec_ok width b -> 0 <= i -> Z.of_nat width * (i + 1) < 2 ^ 32 ->
  length c = width -> is_bytes c ->
  vec_ok width (with_entry width b i c) /\
  zlen (with_entry width b i c) / Z.of_nat width = Z.max (zlen b / Z.of_nat width) (i + 1) /\
  forall j, 0 <= j -> entry width (with_entry width b i c) j = if decide (j = i) then c else entry width b j.
Proof.
  intros [Hb (n & E & Hn)] Hi Hmax Hc Hcb.
  destruct (grow_vec b n i E Hi) as (m & Eb & Hl & Hm).
  assert (forall j, 0 <= j -> entry width (with_entry width b i c) j
            = if decide (j = i) then c
              else entry width (grow width (grow_fuel width b i) b i) j) as Hent.
  2:{ assert (length (with_entry width b i c) = (width * (n + m))%nat) as Hlen.
      { unfold with_entry. rewrite !length_app, length_take, length_drop, Hl, Hc. nia. }
      split; [|split].
      - split; [|exists (n + m)%nat; split; [done|nia]].
        unfold with_entry. rewrite Eb.
        assert (is_bytes (b ++ replicate (width * m) 0)) as Hall.
        { apply Forall_app. split; [done|]. apply Forall_replicate. word. }
        apply Forall_app. split; [by apply Forall_take|].
        apply Forall_app. split; [done|by apply Forall_drop].
      - rewrite (vec_size _ _ Hlen), (vec_size _ _ E). lia.
      - intros j Hj. rewrite Hent by done. case_decide; [done|]. by apply (entry_grow b n). }
  intros j Hj. unfold with_entry. set (g := grow width (grow_fuel width b i) b i) in *.
  assert (length (take (Z.to_nat i * width) g ++ c ++ drop (Z.to_nat i * width + width) g)
          = (width * (n + m))%nat) as Hlen.
  { rewrite !length_app, length_take, length_drop, Hl, Hc. nia. }
  unfold entry. rewrite (vec_size _ _ Hlen), (vec_size _ _ Hl).
  destruct (decide (j < Z.of_nat (n + m))) as [Hjn|].
  2:{ rewrite !decide_False by lia. done. }
  rewrite !(decide_True (P := 0 <= j < Z.of_nat (n + m))) by lia.
  assert (length (take (Z.to_nat i * width) g) = (Z.to_nat i * width)%nat) as Ht
    by (rewrite length_take, Hl; nia).
  case_decide as Hji.
  - subst j. rewrite <-Ht at 1. rewrite drop_app_length. by rewrite <-Hc, take_app_length.
  - destruct (decide (j < i)) as [Hlt|Hge].
    + rewrite drop_app_le by (rewrite Ht; nia).
      rewrite take_app_le by (rewrite length_drop, Ht; nia).
      rewrite skipn_firstn_comm, take_take. f_equal. nia.
    + rewrite drop_app_ge by (rewrite Ht; nia). rewrite Ht.
      rewrite drop_app_ge by (rewrite Hc; nia). rewrite Hc, drop_drop. do 2 f_equal. nia.
Qed.

Lemma entry_bytes b i : vec_ok width b -> is_bytes (entry width b i) /\ length (entry width b i) = width.
Proof.
  intros [Hb (n & E & Hn)]. unfold entry. rewrite (vec_size _ _ E). case_decide as Hi.
  - split; [by apply Forall_take, Forall_drop|]. rewrite length_take, length_drop, E. nia.
  - split; [apply Forall_replicate; word|]. apply length_replicate.
Qed.

Lemma entry_new n j : entry width (replicate (Z.to_nat (n * Z.of_nat width)) 0) j = replicate width 0.
Proof.
  unfold entry. case_decide as Hj; [|done]. rewrite drop_replicate, take_replicate. f_equal.
  destruct Hj as [Hj0 Hj]. unfold zlen in Hj. rewrite length_replicate in Hj.
  assert (j + 1 <= Z.of_nat (Z.to_nat (n * Z.of_nat width)) / Z.of_nat width) as Hj1 by lia.
  apply Z.mul_le_mono_nonneg_r with (p := Z.of_nat width) in Hj1; [|lia].
  pose proof (Z.mul_div_le (Z.of_nat (Z.to_nat (n * Z.of_nat width))) (Z.of_nat width) ltac:(lia)).
  nia.
Qed.

Lemma slice_expr_entry b i :
  vec_ok width b -> 0 <= i < zlen b / Z.of_nat width ->
  slice_expr b (i * Z.of_nat width) ((i + 1) * Z.of_nat width) = Ret (entry width b i).
Proof.
  intros [Hb (n & E & Hn)] Hi. unfold slice_expr, entry. rewrite (decide_True (P := 0 <= i < _)) by done.
  rewrite (vec_size _ _ E) in Hi. rewrite decide_True by (unfold zlen; rewrite E; nia).
  f_equal. f_equal; [nia|]. f_equal. nia.
Qed.

End entries.

(** ** The vectors as total functions *)

Definition la_at (b : bytes) (i : Z) : Z := le_decode (entry 4 b i).
Definition ht_at (b : bytes) (i : Z) : Z := le_decode (entry 8 b i).
Definition hb_at (b : bytes) (i : Z) : BranchSeq :=
  mkBranchSeq (le_decode (take 4 (entry 8 b i))) (le_decode (drop 4 (entry 8 b i))).

Definition seq_entry (s : BranchSeq) : bytes := le_encode 4 (bs_Seq s) ++ le_encode 4 (bs_MinSeq s).

Lemma le_decode_zeros n : le_decode (replicate n 0) = 0.
Proof. induction n; simpl; rewrite ?le_decode_nil, ?le_decode_cons; lia. Qed.

(** Beyond the end, and in a new vector, every entry is zero. *)
Lemma la_at_new n i : la_at (NewLowestAfterSeq n) i = 0.
Proof. unfold la_at, NewLowestAfterSeq. rewrite (entry_new 4) by lia. apply le_decode_zeros. Qed.
Lemma ht_at_new n i : ht_at (NewHighestBeforeTime n) i = 0.
Proof. unfold ht_at, NewHighestBeforeTime. rewrite (entry_new 8) by lia. apply le_decode_zeros. Qed.
Lemma hb_at_new n i : hb_at (NewHighestBeforeSeq n) i = mkBranchSeq 0 0.
Proof. unfold hb_at, NewHighestBeforeSeq. rewrite (entry_new 8) by lia. by vm_compute. Qed.
Lemma la_at_beyond b i : LowestAfterSeq_Size b <= i -> la_at b i = 0.
Proof.
  unfold la_at, entry, LowestAfterSeq_Size. intros H.
  rewrite decide_False by (simpl; lia). apply le_decode_zeros.
Qed.
Lemma hb_at_beyond b i : HighestBeforeSeq_Size b <= i -> hb_at b i = mkBranchSeq 0 0.
Proof.
  unfold hb_at, entry, HighestBeforeSeq_Size. intros H.
  by rewrite decide_False by (simpl; lia).
Qed.

Lemma la_at_u32 b i : vec_ok 4 b -> is_u32 (la_at b i).
Proof.
  intros Hb. destruct (entry_bytes 4 ltac:(lia) b i Hb) as [H1 H2].
  pose proof (le_decode_range _ H1) as Hr. rewrite H2 in Hr. exact Hr.
Qed.

Lemma u32_offset w i : 0 <= i -> 0 <= w -> w * (i + 1) < 2 ^ 32 -> w <> 0 ->
  u32 (i * w) = i * w /\ u32 (u32 (i + 1) * w) = (i + 1) * w.
Proof.
  intros Hi Hw H Hne. split; [apply u32_id; unfold is_u32; nia|].
  rewrite (u32_id (i + 1)) by (unfold is_u32; nia). apply u32_id. unfold is_u32; nia.
Qed.

Lemma vec_ok_offset w b i :
  (0 < w)%nat -> vec_ok w b -> 0 <= i < zlen b / Z.of_nat w -> Z.of_nat w * (i + 1) < 2 ^ 32.
Proof.
  intros Hw [_ (n & E & Hn)] Hi. rewrite (vec_size w Hw _ _ E) in Hi. nia.
Qed.

Lemma LowestAfterSeq_Get_spec b i :
  vec_ok 4 b -> 0 <= i -> LowestAfterSeq_Get b i = Ret (la_at b i).
Proof.
  intros Hb Hi. unfold LowestAfterSeq_Get, LowestAfterSeq_Size. rewrite Z.geb_leb.
  destruct (Z.leb_spec (zlen b / 4) i) as [Hle|Hlt].
  - f_equal. symmetry. by apply la_at_beyond.
  - destruct (u32_offset 4 i) as [-> ->]; [done|lia| |lia|].
    { apply (vec_ok_offset 4 b); [lia|done|simpl; lia]. }
    rewrite (slice_expr_entry 4 ltac:(lia) b i Hb ltac:(simpl; lia)
               : slice_expr b (i * 4) ((i + 1) * 4) = _).
    rewrite go_bind_Ret. unfold littleendian_BytesToInt32.
    destruct (entry_bytes 4 ltac:(lia) b i Hb) as [_ Hl]. rewrite decide_True by lia.
    rewrite take_ge by lia. done.
Qed.

Lemma HighestBeforeTime_Get_spec b i :
  vec_ok 8 b -> 0 <= i -> HighestBeforeTime_Get b i = Ret (ht_at b i).
Proof.
  intros Hb Hi. unfold HighestBeforeTime_Get, HighestBeforeTime_Size. rewrite Z.geb_leb.
  destruct (Z.leb_spec (zlen b / 8) i) as [Hle|Hlt].
  - unfold ht_at, entry. rewrite decide_False by (simpl; lia). by rewrite le_decode_zeros.
  - destruct (u32_offset 8 i) as [-> ->]; [done|lia| |lia|].
    { apply (vec_ok_offset 8 b); [lia|done|simpl; lia]. }
    rewrite (slice_expr_entry 8 ltac:(lia) b i Hb ltac:(simpl; lia)
               : slice_expr b (i * 8) ((i + 1) * 8) = _).
    rewrite go_bind_Ret. unfold littleendian_BytesToInt64.
    destruct (entry_bytes 8 ltac:(lia) b i Hb) as [_ Hl]. rewrite decide_True by lia.
    rewrite take_ge by lia. done.
Qed.

Lemma slice_expr_sub b lo hi k1 k2 e :
  slice_expr b lo hi = Ret e -> 0 <= k1 <= k2 -> k2 <= hi - lo ->
  slice_expr b (lo + k1) (lo + k2) = Ret (take (Z.to_nat (k2 - k1)) (drop (Z.to_nat k1) e)).
Proof.
  unfold slice_expr. case_decide as H; [|done]. intros [= <-] Hk Hk2.
  rewrite decide_True by lia. f_equal.
  rewrite skipn_firstn_comm, take_take, drop_drop. f_equal; [lia|]. f_equal. lia.
Qed.

Lemma HighestBeforeSeq_Get_spec b i :
  vec_ok 8 b -> 0 <= i -> HighestBeforeSeq_Get b i = Ret (hb_at b i).
Proof.
  intros Hb Hi. unfold HighestBeforeSeq_Get, HighestBeforeSeq_Size. rewrite Z.geb_leb.
  destruct (Z.leb_spec (zlen b / 8) i) as [Hle|Hlt].
  - f_equal. symmetry. by apply hb_at_beyond.
  - assert (8 * (i + 1) < 2 ^ 32) as Hoff
      by (apply (vec_ok_offset 8 b); [lia|done|simpl; lia]).
    destruct (u32_offset 8 i) as [-> _]; [done|lia|done|lia|].
    rewrite !u32_id by (unfold is_u32; lia).
    pose proof (slice_expr_entry 8 ltac:(lia) b i Hb ltac:(simpl; lia)) as He.
    change (Z.of_nat 8) with 8 in He.
    pose proof (slice_expr_sub _ _ _ 0 4 _ He ltac:(lia) ltac:(lia)) as H1.
    pose proof (slice_expr_sub _ _ _ 4 8 _ He ltac:(lia) ltac:(lia)) as H2.
    change (Z.to_nat (4 - 0)) with 4%nat in H1. change (Z.to_nat 0) with 0%nat in H1.
    change (Z.to_nat (8 - 4)) with 4%nat in H2. change (Z.to_nat 4) with 4%nat in H2.
    rewrite drop_0 in H1.
    rewrite Z.add_0_r in H1. rewrite H1, go_bind_Ret.
    destruct (entry_bytes 8 ltac:(lia) b i Hb) as [_ Hl].
    unfold littleendian_BytesToInt32. rewrite decide_True by (rewrite length_take, Hl; done).
    rewrite go_bind_Ret, H2, go_bind_Ret.
    rewrite decide_True by (rewrite length_take, length_drop, Hl; done).
    rewrite go_bind_Ret, !take_take. unfold hb_at.
    rewrite (take_ge (drop 4 _)) by (rewrite length_drop, Hl; done). done.
Qed.

(** [Set] is a put of the whole entry. *)
Lemma slice_put_entry w b i c :
  (0 < w)%nat -> vec_ok w b -> 0 <= i -> length c = w ->
  slice_put (grow w (grow_fuel w b i) b i) (i * Z.of_nat w) ((i + 1) * Z.of_nat w) c
  = Ret (with_entry w b i c).
Proof.
  intros Hw [Hb (n & E & Hn)] Hi Hc. destruct (grow_vec w Hw b n i E Hi) as (m & Eb & Hl & Hm).
  unfold slice_put, with_entry. rewrite decide_True by (unfold zlen; rewrite Hl, Hc; nia).
  rewrite Hc. by replace (Z.to_nat (i * Z.of_nat w)) with (Z.to_nat i * w)%nat by nia.
Qed.

Lemma LowestAfterSeq_Set_spec b i seq :
  vec_ok 4 b -> 0 <= i -> 4 * (i + 1) < 2 ^ 32 -> is_u32 seq ->
  exists b', LowestAfterSeq_Set b i seq = Ret b' /\ vec_ok 4 b' /\
    LowestAfterSeq_Size b' = Z.max (LowestAfterSeq_Size b) (i + 1) /\
    forall j, 0 <= j -> la_at b' j = if decide (j = i) then seq else la_at b j.
Proof.
  intros Hb Hi Hoff Hs. unfold LowestAfterSeq_Set.
  destruct (u32_offset 4 i) as [-> ->]; [done|lia|done|lia|].
  rewrite (slice_put_entry 4 b i _ ltac:(lia) Hb Hi (length_le_encode _ _)
             : slice_put _ (i * 4) ((i + 1) * 4) _ = _).
  destruct (with_entry_spec 4 ltac:(lia) b i (le_encode 4 seq) Hb Hi Hoff) as (Hok & Hsz & He);
    [apply length_le_encode|apply le_encode_bytes|].
  eexists. split; [done|]. split; [done|]. split; [exact Hsz|].
  intros j Hj. unfold la_at. rewrite He by done. case_decide; [|done]. by apply le_decode_32.
Qed.

Lemma HighestBeforeTime_Set_spec b i time :
  vec_ok 8 b -> 0 <= i -> 8 * (i + 1) < 2 ^ 32 -> is_u64 time ->
  exists b', HighestBeforeTime_Set b i time = Ret b' /\ vec_ok 8 b' /\
    HighestBeforeTime_Size b' = Z.max (HighestBeforeTime_Size b) (i + 1) /\
    forall j, 0 <= j -> ht_at b' j = if decide (j = i) then time else ht_at b j.
Proof.
  intros Hb Hi Hoff Hs. unfold HighestBeforeTime_Set.
  destruct (u32_offset 8 i) as [-> ->]; [done|lia|done|lia|].
  rewrite (slice_put_entry 8 b i _ ltac:(lia) Hb Hi (length_le_encode _ _)
             : slice_put _ (i * 8) ((i + 1) * 8) _ = _).
  destruct (with_entry_spec 8 ltac:(lia) b i (le_encode 8 time) Hb Hi Hoff) as (Hok & Hsz & He);
    [apply length_le_encode|apply le_encode_bytes|].
  eexists. split; [done|]. split; [done|]. split; [exact Hsz|].
  intros j Hj. unfold ht_at. rewrite He by done. case_decide; [|done]. by apply le_decode_64.
Qed.

(** Two adjacent puts. *)
Lemma slice_put_app b lo mid hi v1 v2 :
  zlen v1 = mid - lo -> zlen v2 = hi - mid ->
  (slice_put b lo mid v1 ≫= fun b' => slice_put b' mid hi v2) = slice_put b lo hi (v1 ++ v2).
Proof.
  intros H1 H2. pose proof (zlen_nonneg v1). pose proof (zlen_nonneg v2).
  unfold slice_put. rewrite zlen_app.
  destruct (decide (0 <= lo <= mid /\ mid <= zlen b /\ zlen v1 <= mid - lo)) as [D1|D1]; simpl.
  2:{ symmetry. rewrite decide_False; [done|]. lia. }
  assert (zlen (take (Z.to_nat lo) b ++ v1 ++ drop (Z.to_nat lo + length v1) b) = zlen b) as El.
  { unfold zlen in *. rewrite !length_app, length_take, length_drop. lia. }
  rewrite El. destruct (decide (hi <= zlen b)) as [Hh|Hh].
  2:{ rewrite !decide_False by lia. done. }
  rewrite !decide_True by lia. f_equal. unfold zlen in *.
  assert (length (take (Z.to_nat lo) b ++ v1) = Z.to_nat mid) as Hpre
    by (rewrite length_app, length_take; lia).
  rewrite (app_assoc (take _ b) v1 (drop _ b)). rewrite take_app_length' by done.
  rewrite drop_app_ge by (rewrite Hpre; lia). rewrite Hpre, drop_drop, <-!app_assoc, length_app.
  do 4 f_equal. lia.
Qed.

Lemma HighestBeforeSeq_Set_spec b i seq :
  vec_ok 8 b -> 0 <= i -> 8 * (i + 1) < 2 ^ 32 -> is_u32 (bs_Seq seq) -> is_u32 (bs_MinSeq seq) ->
  exists b', HighestBeforeSeq_Set b i seq = Ret b' /\ vec_ok 8 b' /\
    HighestBeforeSeq_Size b' = Z.max (HighestBeforeSeq_Size b) (i + 1) /\
    forall j, 0 <= j -> hb_at b' j = if decide (j = i) then seq else hb_at b j.
Proof.
  intros Hb Hi Hoff Hs Hm. unfold HighestBeforeSeq_Set.
  destruct (u32_offset 8 i) as [-> _]; [done|lia|done|lia|].
  rewrite !u32_id by (unfold is_u32; lia). rewrite slice_put_app
    by (unfold zlen, littleendian_Int32ToBytes; rewrite length_le_encode; lia).
  replace (i * 8 + 8) with ((i + 1) * 8) by lia.
  change (littleendian_Int32ToBytes (bs_Seq seq) ++ _) with (seq_entry seq).
  rewrite (slice_put_entry 8 b i (seq_entry seq) ltac:(lia) Hb Hi eq_refl
             : slice_put _ (i * 8) ((i + 1) * 8) _ = _).
  destruct (with_entry_spec 8 ltac:(lia) b i (seq_entry seq) Hb Hi Hoff) as (Hok & Hsz & He);
    [done|apply Forall_app; split; apply le_encode_bytes|].
  eexists. split; [done|]. split; [done|]. split; [exact Hsz|].
  intros j Hj. unfold hb_at. rewrite He by done. case_decide; [|done].
  unfold seq_entry. rewrite take_app_length', drop_app_length' by (by rewrite length_le_encode).
  rewrite !le_decode_32 by done. by destruct seq.
Qed.
