(* ===== verification/VecStore.v ===== *)
(** * The store of the vector clocks: vector/store_vectors.go,
      vector/store_branches_info.go, vector/branches_info.go

    [VecStore] is what the algorithms of the index ask of their store, and
    [VecStoreLaws] what it promises them: through [rep] the store holds two
    contents, the current one and the one that was last flushed.  [VecTables]
    is the store of the code, the five tables over a flushable database with
    its three LRU caches; it discharges the laws for every cache that obeys
    [LruLaws]. *)

From S2P Require Import Prelude Bytes Kvdb KvdbLaws Pos Event.
(** ** vector/branches_info.go *)

Record branchesInfo := mkBranchesInfo {
  BranchIDLastSeq : list Z;            (* branchID -> highest e.Seq in the branch *)
  BranchIDCreatorIdxs : list Z;        (* branchID -> validator idx *)
  BranchIDByCreators : list (list Z)   (* validator idx -> list of branch IDs *)
}.

Definition newInitialBranchesInfo (validators : Validators) : branchesInfo :=
  let branchIDCreators := Validators_SortedIDs validators in
  let branchIDCreatorIdxs := seqZ 0 (zlen branchIDCreators) in
  mkBranchesInfo (replicate (length branchIDCreatorIdxs) 0) branchIDCreatorIdxs
    ((fun i => [i]) <$> seqZ 0 (Validators_Len validators)).

(** ** Contents *)

Record VecData := mkVecData {
  d_hbs : gmap hash bytes;        (* HighestBeforeSeq *)
  d_hbt : gmap hash bytes;        (* HighestBeforeTime *)
  d_la : gmap hash bytes;         (* LowestAfterSeq *)
  d_br : gmap hash Z;             (* EventBranch *)
  d_bi : option branchesInfo      (* BranchesInfo *)
}.
Definition emptyVecData : VecData := mkVecData ∅ ∅ ∅ ∅ None.

Definition data_la (d : VecData) (m : gmap hash bytes) : VecData :=
  mkVecData (d_hbs d) (d_hbt d) m (d_br d) (d_bi d).
Definition data_hb (d : VecData) (ms mt : gmap hash bytes) : VecData :=
  mkVecData ms mt (d_la d) (d_br d) (d_bi d).
Definition data_br (d : VecData) (m : gmap hash Z) : VecData :=
  mkVecData (d_hbs d) (d_hbt d) (d_la d) m (d_bi d).
Definition data_bi (d : VecData) (bi : option branchesInfo) : VecData :=
  mkVecData (d_hbs d) (d_hbt d) (d_la d) (d_br d) bi.

(** ** The interface *)

Class VecStore (T : Type) := {
  st_GetLowestAfterSeq : T -> hash -> go (slice * T);
  st_GetHighestBeforeSeq : T -> hash -> go (slice * T);
  st_GetHighestBeforeTime : T -> hash -> go (slice * T);
  st_SetLowestAfter : T -> hash -> bytes -> go T;
  st_SetHighestBefore : T -> hash -> bytes -> bytes -> go T;
  st_setEventBranchID : T -> hash -> Z -> go T;
  st_getEventBranchID : T -> hash -> go Z;
  st_setBranchesInfo : T -> branchesInfo -> go T;
  st_getBranchesInfo : T -> go (option branchesInfo);
  st_Flush : T -> go T;
  st_DropNotFlushed : T -> go T;
  st_dropDependentCaches : T -> T;
  (** the current contents and the flushed ones *)
  rep : T -> VecData -> VecData -> Prop
}.

Class VecStoreLaws (T : Type) `{VecStore T} : Prop := {
  law_GetLowestAfterSeq t d f id : rep t d f ->
    exists t', st_GetLowestAfterSeq t id = Ret (d_la d !! id, t') /\ rep t' d f;
  law_GetHighestBeforeSeq t d f id : rep t d f ->
    exists t', st_GetHighestBeforeSeq t id = Ret (d_hbs d !! id, t') /\ rep t' d f;
  law_GetHighestBeforeTime t d f id : rep t d f ->
    exists t', st_GetHighestBeforeTime t id = Ret (d_hbt d !! id, t') /\ rep t' d f;
  law_SetLowestAfter t d f id b : rep t d f ->
    exists t', st_SetLowestAfter t id b = Ret t' /\ rep t' (data_la d (<[id := b]> (d_la d))) f;
  law_SetHighestBefore t d f id s c : rep t d f ->
    exists t', st_SetHighestBefore t id s c = Ret t' /\
      rep t' (data_hb d (<[id := s]> (d_hbs d)) (<[id := c]> (d_hbt d))) f;
  law_setEventBranchID t d f id br : rep t d f -> is_u32 br ->
    exists t', st_setEventBranchID t id br = Ret t' /\ rep t' (data_br d (<[id := br]> (d_br d))) f;
  law_getEventBranchID t d f id : rep t d f ->
    st_getEventBranchID t id = match d_br d !! id with
                               | Some br => Ret br
                               | None => Fault (Crit "Failed to read event's branch ID (inconsistent DB)")
                               end;
  law_setBranchesInfo t d f bi : rep t d f ->
    exists t', st_setBranchesInfo t bi = Ret t' /\ rep t' (data_bi d (Some bi)) f;
  law_getBranchesInfo t d f : rep t d f -> st_getBranchesInfo t = Ret (d_bi d);
  law_Flush t d f : rep t d f -> exists t', st_Flush t = Ret t' /\ rep t' d d;
  law_DropNotFlushed t d f : rep t d f -> exists t', st_DropNotFlushed t = Ret t' /\ rep t' f f;
  law_dropDependentCaches t d f : rep t d f -> rep (st_dropDependentCaches t) d f
}.

(** ** LRU caches (github.com/hashicorp/golang-lru)

    [lru_peek] is what the cache holds; an addition may evict anything. *)

Class Lru (K V C : Type) := {
  lru_peek : C -> K -> option V;
  lru_touch : C -> K -> C;
  lru_Add : C -> K -> V -> C;
  lru_Purge : C -> C
}.

Class LruLaws (K V C : Type) `{Lru K V C} : Prop := {
  law_touch (c : C) k k' : lru_peek (lru_touch c k) k' = lru_peek c k';
  law_add_same (c : C) k v x : lru_peek (lru_Add c k v) k = Some x -> x = v;
  law_add_other (c : C) k k' v x : k <> k' -> lru_peek (lru_Add c k v) k' = Some x ->
    lru_peek c k' = Some x;
  law_purge (c : C) k : lru_peek (lru_Purge c) k = None
}.

(** A cache as the package documents it: a bounded list of pairs, the most
    recently used one first. *)
Record simplelru (K V : Type) := mkSimplelru { lru_size : nat; lru_items : list (K * V) }.
Arguments mkSimplelru {K V} _ _.
Arguments lru_size {K V} _.
Arguments lru_items {K V} _.

Section simplelru.
Context {K V : Type} `{EqDecision K}.

Fixpoint assoc_get (l : list (K * V)) (k : K) : option V :=
  match l with
  | [] => None
  | (k', v) :: l => if decide (k' = k) then Some v else assoc_get l k
  end.

Definition assoc_del (l : list (K * V)) (k : K) : list (K * V) := filter (fun kv => kv.1 <> k) l.

#[global] Instance simplelru_Lru : Lru K V (simplelru K V) := {|
  lru_peek c k := assoc_get (lru_items c) k;
  lru_touch c k := match assoc_get (lru_items c) k with
                   | Some v => mkSimplelru (lru_size c) ((k, v) :: assoc_del (lru_items c) k)
                   | None => c
                   end;
  lru_Add c k v := mkSimplelru (lru_size c)
                     (take (lru_size c) ((k, v) :: assoc_del (lru_items c) k));
  lru_Purge c := mkSimplelru (lru_size c) []
|}.

Lemma assoc_del_same l k : assoc_get (assoc_del l k) k = None.
Proof.
  induction l as [|[k' v] l IH]; [done|]. unfold assoc_del. rewrite filter_cons. simpl.
  case_decide as Hk; [simpl; by rewrite decide_False by done|exact IH].
Qed.

Lemma assoc_del_other l k k' : k <> k' -> assoc_get (assoc_del l k) k' = assoc_get l k'.
Proof.
  intros Hne. induction l as [|[k2 v] l IH]; [done|]. unfold assoc_del. rewrite filter_cons. simpl.
  destruct (decide (k2 = k)) as [->|Hk].
  - rewrite decide_False by (intros Hn; by apply Hn). rewrite (decide_False (P := k = k')) by done. exact IH.
  - rewrite decide_True by done. simpl. case_decide; [done|exact IH].
Qed.

Lemma assoc_get_take n l k x : assoc_get (take n l) k = Some x -> assoc_get l k = Some x.
Proof.
  revert n. induction l as [|[k' v] l IH]; intros [|n]; simpl; [done..|].
  case_decide; [done|]. apply IH.
Qed.

#[global] Instance simplelru_laws : LruLaws K V (simplelru K V).
Proof.
  split; simpl.
  - intros c k k'. destruct (assoc_get (lru_items c) k) as [v|] eqn:E; [simpl|done].
    case_decide as Hk; [by subst|]. by apply assoc_del_other.
  - intros c k v x H%assoc_get_take. simpl in H. rewrite decide_True in H by done. congruence.
  - intros c k k' v x Hne H%assoc_get_take. simpl in H. rewrite decide_False in H by done.
    by rewrite assoc_del_other in H.
  - done.
Qed.

End simplelru.

(** ** The tables of the index *)

Record VecTables (S C : Type) := mkVecTables {
  vecDb : Flushable S;
  c_HighestBeforeSeq : C;
  c_HighestBeforeTime : C;
  c_LowestAfterSeq : C
}.
Arguments mkVecTables {S C} _ _ _ _.
Arguments vecDb {S C} _.
Arguments c_HighestBeforeSeq {S C} _.
Arguments c_HighestBeforeTime {S C} _.
Arguments c_LowestAfterSeq {S C} _.

(** The [table:"..."] tags, and the key of the branches. *)
Definition tbl_HighestBeforeSeq : bytes := [83].   (* S *)
Definition tbl_HighestBeforeTime : bytes := [84].  (* T *)
Definition tbl_LowestAfterSeq : bytes := [115].    (* s *)
Definition tbl_EventBranch : bytes := [98].        (* b *)
Definition tbl_BranchesInfo : bytes := [66].       (* B *)
Definition key_c : bytes := [99].                  (* c *)

Section tables.
Context {S C : Type} `{HS : StoreLaws S} `{HC : LruLaws hash slice C}.
Context (IdealBatchSize : Z).
(** go-ethereum's RLP of the branches. *)
Context (rlp_encode : branchesInfo -> bytes) (rlp_decode : bytes -> option branchesInfo).
Implicit Types t : VecTables S C.

Definition set_vecDb t (db : Flushable S) : VecTables S C :=
  mkVecTables db (c_HighestBeforeSeq t) (c_HighestBeforeTime t) (c_LowestAfterSeq t).

Definition getBytes t (tbl : bytes) (id : bytes) : go slice :=
  r ← Table_Get (mkTable (vecDb t) tbl) id;
  match r with inl _ => Fault (Crit "Failed to get key-value") | inr b => Ret b end.

Definition setBytes t (tbl : bytes) (id b : bytes) : go (VecTables S C) :=
  '(tb, err) ← Table_Put (mkTable (vecDb t) tbl) id (Some b);
  match err with
  | Some _ => Fault (Crit "Failed to put key-value")
  | None => Ret (set_vecDb t (tbl_db tb))
  end.

Definition GetLowestAfterSeq t (id : hash) : go (slice * VecTables S C) :=
  match lru_peek (c_LowestAfterSeq t) id with
  | Some bVal => Ret (bVal, mkVecTables (vecDb t) (c_HighestBeforeSeq t) (c_HighestBeforeTime t)
                              (lru_touch (c_LowestAfterSeq t) id))
  | None => b ← getBytes t tbl_LowestAfterSeq id;
            Ret (b, mkVecTables (vecDb t) (c_HighestBeforeSeq t) (c_HighestBeforeTime t)
                      (lru_Add (c_LowestAfterSeq t) id b))
  end.

Definition GetHighestBeforeSeq t (id : hash) : go (slice * VecTables S C) :=
  match lru_peek (c_HighestBeforeSeq t) id with
  | Some bVal => Ret (bVal, mkVecTables (vecDb t) (lru_touch (c_HighestBeforeSeq t) id)
                              (c_HighestBeforeTime t) (c_LowestAfterSeq t))
  | None => b ← getBytes t tbl_HighestBeforeSeq id;
            Ret (b, mkVecTables (vecDb t) (lru_Add (c_HighestBeforeSeq t) id b)
                      (c_HighestBeforeTime t) (c_LowestAfterSeq t))
  end.

Definition GetHighestBeforeTime t (id : hash) : go (slice * VecTables S C) :=
  match lru_peek (c_HighestBeforeTime t) id with
  | Some bVal => Ret (bVal, mkVecTables (vecDb t) (c_HighestBeforeSeq t)
                              (lru_touch (c_HighestBeforeTime t) id) (c_LowestAfterSeq t))
  | None => b ← getBytes t tbl_HighestBeforeTime id;
            Ret (b, mkVecTables (vecDb t) (c_HighestBeforeSeq t)
                      (lru_Add (c_HighestBeforeTime t) id b) (c_LowestAfterSeq t))
  end.

Definition SetLowestAfter t (id : hash) (seq : bytes) : go (VecTables S C) :=
  t ← setBytes t tbl_LowestAfterSeq id seq;
  Ret (mkVecTables (vecDb t) (c_HighestBeforeSeq t) (c_HighestBeforeTime t)
         (lru_Add (c_LowestAfterSeq t) id (Some seq))).

Definition SetHighestBefore t (id : hash) (seq time : bytes) : go (VecTables S C) :=
  t ← setBytes t tbl_HighestBeforeSeq id seq;
  t ← setBytes t tbl_HighestBeforeTime id time;
  Ret (mkVecTables (vecDb t) (lru_Add (c_HighestBeforeSeq t) id (Some seq))
         (lru_Add (c_HighestBeforeTime t) id (Some time)) (c_LowestAfterSeq t)).

Definition setEventBranchID t (id : hash) (branchID : Z) : go (VecTables S C) :=
  setBytes t tbl_EventBranch id (Validator_Bytes branchID).

Definition getEventBranchID t (id : hash) : go Z :=
  b ← getBytes t tbl_EventBranch id;
  match b with
  | None => Fault (Crit "Failed to read event's branch ID (inconsistent DB)")
  | Some b => BytesToValidator b
  end.

Definition setBranchesInfo t (info : branchesInfo) : go (VecTables S C) :=
  setBytes t tbl_BranchesInfo key_c (rlp_encode info).

Definition getBranchesInfo t : go (option branchesInfo) :=
  buf ← getBytes t tbl_BranchesInfo key_c;
  match buf with
  | None => Ret None
  | Some buf => match rlp_decode buf with
                | None => Fault (Crit "Failed to decode rlp")
                | Some w => Ret (Some w)
                end
  end.

Definition dropDependentCaches t : VecTables S C :=
  mkVecTables (vecDb t) (lru_Purge (c_HighestBeforeSeq t)) (lru_Purge (c_HighestBeforeTime t))
    (lru_Purge (c_LowestAfterSeq t)).

(** The flush of [Index.Flush]. *)
Definition vecDb_Flush t : go (VecTables S C) :=
  '(db, err) ← Flushable_flush IdealBatchSize (vecDb t);
  match err with
  | Some _ => Fault (Crit "Failed to flush db")
  | None => Ret (set_vecDb t db)
  end.

(** The part of [Index.DropNotFlushed] on the store. *)
Definition vecDb_DropNotFlushed t : go (VecTables S C) :=
  n ← Flushable_NotFlushedPairs (vecDb t);
  if n =? 0 then Ret t
  else db ← Flushable_dropNotFlushed (vecDb t); Ret (dropDependentCaches (set_vecDb t db)).

(** *** The contents *)

(** The value under a key of a table. *)
Definition cell (m : gmap bytes slice) (tbl id : bytes) : slice := mjoin (m !! (tbl ++ id)).

Record holds (m : gmap bytes slice) (d : VecData) : Prop := {
  hd_hbs id : cell m tbl_HighestBeforeSeq id = d_hbs d !! id;
  hd_hbt id : cell m tbl_HighestBeforeTime id = d_hbt d !! id;
  hd_la id : cell m tbl_LowestAfterSeq id = d_la d !! id;
  hd_br id : cell m tbl_EventBranch id = Validator_Bytes <$> d_br d !! id;
  hd_u32 id br : d_br d !! id = Some br -> is_u32 br;
  hd_bi : cell m tbl_BranchesInfo key_c = rlp_encode <$> d_bi d
}.

Record tables_rep t (d f : VecData) : Prop := {
  tr_view : exists m, Flushable_view (vecDb t) = Some m /\ holds m d;
  tr_flushed : exists m, store_view (underlying (vecDb t)) = Some m /\ holds m f;
  tr_hbs id v : lru_peek (c_HighestBeforeSeq t) id = Some v -> v = d_hbs d !! id;
  tr_hbt id v : lru_peek (c_HighestBeforeTime t) id = Some v -> v = d_hbt d !! id;
  tr_la id v : lru_peek (c_LowestAfterSeq t) id = Some v -> v = d_la d !! id
}.

Definition VecTables_VecStore : VecStore (VecTables S C) := {|
  st_GetLowestAfterSeq := GetLowestAfterSeq;
  st_GetHighestBeforeSeq := GetHighestBeforeSeq;
  st_GetHighestBeforeTime := GetHighestBeforeTime;
  st_SetLowestAfter := SetLowestAfter;
  st_SetHighestBefore := SetHighestBefore;
  st_setEventBranchID := setEventBranchID;
  st_getEventBranchID := getEventBranchID;
  st_setBranchesInfo := setBranchesInfo;
  st_getBranchesInfo := getBranchesInfo;
  st_Flush := vecDb_Flush;
  st_DropNotFlushed := vecDb_DropNotFlushed;
  st_dropDependentCaches := dropDependentCaches;
  rep := tables_rep
|}.

(** *** The laws *)

Context (rlp_roundtrip : forall bi, rlp_decode (rlp_encode bi) = Some bi).

Lemma getBytes_spec t m tbl id :
  Flushable_view (vecDb t) = Some m -> getBytes t tbl id = Ret (cell m tbl id).
Proof.
  intros Hm. unfold getBytes, Table_Get, prefixed. simpl.
  pose proof (law_Get (vecDb t) m (tbl ++ id) Hm) as E. simpl in E. by rewrite E.
Qed.

Lemma setBytes_spec t m tbl id b :
  Flushable_view (vecDb t) = Some m ->
  exists db, setBytes t tbl id b = Ret (set_vecDb t db) /\
    Flushable_view db = Some (<[tbl ++ id := Some b]> m) /\
    underlying db = underlying (vecDb t).
Proof.
  intros Hm. destruct (Flushable_put_spec (vecDb t) m (tbl ++ id) b Hm) as (db & E & Hu & Hdb).
  exists db. split; [|done]. unfold setBytes, Table_Put, Table_lift, prefixed.
  cbn [tbl_db tbl_prefix store_Put Flushable_Store]. by rewrite E.
Qed.

(** Writes to the tables: the first bytes of the keys tell the tables apart. *)
Ltac solve_holds :=
  intros [Hs Ht Hl Hb Hu Hi]; split; unfold cell in *; simpl in *; intros;
  rewrite ?lookup_insert in *; repeat case_decide; simplify_eq/=; eauto.

Lemma holds_hbs m d id b :
  holds m d -> holds (<[tbl_HighestBeforeSeq ++ id := Some b]> m)
                     (data_hb d (<[id := b]> (d_hbs d)) (d_hbt d)).
Proof. solve_holds. Qed.
Lemma holds_hbt m d id b :
  holds m d -> holds (<[tbl_HighestBeforeTime ++ id := Some b]> m)
                     (data_hb d (d_hbs d) (<[id := b]> (d_hbt d))).
Proof. solve_holds. Qed.
Lemma holds_la m d id b :
  holds m d -> holds (<[tbl_LowestAfterSeq ++ id := Some b]> m) (data_la d (<[id := b]> (d_la d))).
Proof. solve_holds. Qed.
Lemma holds_br m d id br : is_u32 br ->
  holds m d -> holds (<[tbl_EventBranch ++ id := Some (Validator_Bytes br)]> m)
                     (data_br d (<[id := br]> (d_br d))).
Proof. intros Hbr. solve_holds. Qed.
Lemma holds_bi m d bi :
  holds m d -> holds (<[tbl_BranchesInfo ++ key_c := Some (rlp_encode bi)]> m) (data_bi d (Some bi)).
Proof. solve_holds. Qed.

(** A write keeps the flushed contents; the cache that goes with the table
    learns the new value. *)
Lemma rep_set_vecDb t d f d' db m' :
  tables_rep t d f -> Flushable_view db = Some m' -> underlying db = underlying (vecDb t) ->
  holds m' d' -> d_hbs d' = d_hbs d -> d_hbt d' = d_hbt d -> d_la d' = d_la d ->
  tables_rep (set_vecDb t db) d' f.
Proof.
  intros [Hv Hf Hs Ht Hl] Hdb Hu Hh Es Et El. split; simpl; rewrite ?Hu, ?Es, ?Et, ?El; eauto.
Qed.

Lemma add_peek (c : C) (mp : gmap hash bytes) id b :
  (forall k x, lru_peek c k = Some x -> x = mp !! k) ->
  forall k x, lru_peek (lru_Add c id (Some b)) k = Some x -> x = <[id := b]> mp !! k.
Proof.
  intros Hc k x Hx. rewrite lookup_insert. case_decide as E.
  - subst. by apply law_add_same in Hx.
  - apply law_add_other in Hx; eauto.
Qed.

Lemma add_found (c : C) (mp : gmap hash bytes) id :
  (forall k x, lru_peek c k = Some x -> x = mp !! k) ->
  forall k x, lru_peek (lru_Add c id (mp !! id)) k = Some x -> x = mp !! k.
Proof.
  intros Hc k x Hx. destruct (decide (id = k)) as [->|].
  - by apply law_add_same in Hx.
  - apply law_add_other in Hx; eauto.
Qed.

Lemma touch_found (c : C) (mp : gmap hash bytes) id :
  (forall k x, lru_peek c k = Some x -> x = mp !! k) ->
  forall k x, lru_peek (lru_touch c id) k = Some x -> x = mp !! k.
Proof. intros Hc k x. rewrite law_touch. apply Hc. Qed.

Lemma purge_found (c : C) (mp : gmap hash bytes) :
  forall k x, lru_peek (lru_Purge c) k = Some x -> x = mp !! k.
Proof. intros k x. by rewrite law_purge. Qed.

#[local] Hint Resolve add_found touch_found purge_found add_peek : core.

Lemma Get_laws t d f id : tables_rep t d f ->
  (exists t', GetLowestAfterSeq t id = Ret (d_la d !! id, t') /\ tables_rep t' d f) /\
  (exists t', GetHighestBeforeSeq t id = Ret (d_hbs d !! id, t') /\ tables_rep t' d f) /\
  (exists t', GetHighestBeforeTime t id = Ret (d_hbt d !! id, t') /\ tables_rep t' d f).
Proof.
  intros [(m & Em & Hm) Hf Hs Ht Hl].
  unfold GetLowestAfterSeq, GetHighestBeforeSeq, GetHighestBeforeTime.
  rewrite !(getBytes_spec t m _ _ Em), !go_bind_Ret, (hd_la _ _ Hm), (hd_hbs _ _ Hm), (hd_hbt _ _ Hm).
  split_and!.
  - destruct (lru_peek (c_LowestAfterSeq t) id) as [v|] eqn:E; [apply Hl in E as ->|];
      eexists; (split; [done|]); split; simpl; eauto.
  - destruct (lru_peek (c_HighestBeforeSeq t) id) as [v|] eqn:E; [apply Hs in E as ->|];
      eexists; (split; [done|]); split; simpl; eauto.
  - destruct (lru_peek (c_HighestBeforeTime t) id) as [v|] eqn:E; [apply Ht in E as ->|];
      eexists; (split; [done|]); split; simpl; eauto.
Qed.

Lemma SetLowestAfter_law t d f id b : tables_rep t d f ->
  exists t', SetLowestAfter t id b = Ret t' /\ tables_rep t' (data_la d (<[id := b]> (d_la d))) f.
Proof.
  intros [(m & Em & Hm) Hf Hs Ht Hl]. unfold SetLowestAfter.
  destruct (setBytes_spec t m tbl_LowestAfterSeq id b Em) as (db & -> & Hdb & Hu).
  rewrite go_bind_Ret. eexists. split; [done|]. split; simpl; rewrite ?Hu; eauto.
  eexists. split; [done|]. by apply holds_la.
Qed.

Lemma SetHighestBefore_law t d f id s c : tables_rep t d f ->
  exists t', SetHighestBefore t id s c = Ret t' /\
    tables_rep t' (data_hb d (<[id := s]> (d_hbs d)) (<[id := c]> (d_hbt d))) f.
Proof.
  intros [(m & Em & Hm) Hf Hs Ht Hl]. unfold SetHighestBefore.
  destruct (setBytes_spec t m tbl_HighestBeforeSeq id s Em) as (db & -> & Hdb & Hu).
  rewrite go_bind_Ret.
  destruct (setBytes_spec (set_vecDb t db) _ tbl_HighestBeforeTime id c Hdb) as (db2 & -> & Hdb2 & Hu2).
  rewrite go_bind_Ret. eexists. split; [done|]. simpl in Hu2.
  split; simpl; rewrite ?Hu2, ?Hu; eauto.
  eexists. split; [done|]. exact (holds_hbt _ _ id c (holds_hbs _ _ id s Hm)).
Qed.

Lemma Flush_law t d f : tables_rep t d f ->
  exists t', vecDb_Flush t = Ret t' /\ tables_rep t' d d.
Proof.
  intros [(m & Em & Hm) Hf Hs Ht Hl]. unfold vecDb_Flush.
  destruct (Flushable_flush_spec IdealBatchSize _ _ Em) as (u & -> & Hu).
  rewrite go_bind_Ret. eexists. split; [done|]. split; simpl; eauto.
  exists m. split; [|done]. unfold Flushable_view. simpl. rewrite Hu. simpl. by rewrite overlay_empty.
Qed.

Lemma Drop_law t d f : tables_rep t d f ->
  exists t', vecDb_DropNotFlushed t = Ret t' /\ tables_rep t' f f.
Proof.
  intros [(m & Em & Hm) (fm & Ef & Hfm) Hs Ht Hl]. unfold vecDb_DropNotFlushed, Flushable_NotFlushedPairs.
  destruct (Flushable_drop_spec _ _ Em) as (w' & E & Hu & Hmd & Hv).
  apply Flushable_view_Some in Em as (md & um & Emd & Eu & ->). rewrite Emd, go_bind_Ret.
  destruct (Z.eqb_spec (Z.of_nat (size md)) 0) as [Hz|Hz].
  - assert (md = ∅) as -> by (apply map_size_empty_inv; lia).
    rewrite overlay_empty in Hm. rewrite Ef in Eu. injection Eu as ->.
    exists t. split; [done|]. split; eauto.
    + exists um. split; [|done]. unfold Flushable_view. rewrite Emd, Ef. simpl. by rewrite overlay_empty.
    + intros id v Hx. rewrite <-(hd_hbs _ _ Hfm), (hd_hbs _ _ Hm). by apply Hs.
    + intros id v Hx. rewrite <-(hd_hbt _ _ Hfm), (hd_hbt _ _ Hm). by apply Ht.
    + intros id v Hx. rewrite <-(hd_la _ _ Hfm), (hd_la _ _ Hm). by apply Hl.
  - rewrite E, go_bind_Ret. eexists. split; [done|]. split; simpl; rewrite ?Hu, ?Hv; eauto.
Qed.

Lemma Validator_Bytes_read br : is_u32 br -> BytesToValidator (Validator_Bytes br) = Ret br.
Proof.
  intros Hbr. unfold BytesToValidator, Validator_Bytes.
  rewrite <-(app_nil_r (bigendian_Int32ToBytes br)). by apply bigendian32_roundtrip.
Qed.

(** The tables and caches of the code are a store for the index. *)
Lemma VecTables_laws : @VecStoreLaws (VecTables S C) VecTables_VecStore.
Proof.
  split; simpl.
  - intros t d f id Hr%(Get_laws _ _ _ id). apply Hr.
  - intros t d f id Hr%(Get_laws _ _ _ id). apply Hr.
  - intros t d f id Hr%(Get_laws _ _ _ id). apply Hr.
  - intros t d f id b. apply SetLowestAfter_law.
  - intros t d f id s c. apply SetHighestBefore_law.
  - intros t d f id br Hr Hbr. destruct (tr_view _ _ _ Hr) as (m & Em & Hm).
    destruct (setBytes_spec t m tbl_EventBranch id (Validator_Bytes br) Em) as (db & E & Hdb & Hu).
    eexists. split; [exact E|].
    eapply rep_set_vecDb; [done|exact Hdb|done|by apply holds_br|done..].
  - intros t d f id Hr. destruct (tr_view _ _ _ Hr) as (m & Em & Hm).
    unfold getEventBranchID. rewrite (getBytes_spec t m _ _ Em), go_bind_Ret, (hd_br _ _ Hm).
    destruct (d_br d !! id) as [br|] eqn:E; simpl; [|done].
    apply Validator_Bytes_read, (hd_u32 _ _ Hm id br E).
  - intros t d f bi Hr. destruct (tr_view _ _ _ Hr) as (m & Em & Hm).
    destruct (setBytes_spec t m tbl_BranchesInfo key_c (rlp_encode bi) Em) as (db & E & Hdb & Hu).
    eexists. split; [exact E|].
    eapply rep_set_vecDb; [done|exact Hdb|done|by apply holds_bi|done..].
  - intros t d f Hr. destruct (tr_view _ _ _ Hr) as (m & Em & Hm).
    unfold getBranchesInfo. rewrite (getBytes_spec t m _ _ Em), go_bind_Ret, (hd_bi _ _ Hm).
    destruct (d_bi d) as [bi|]; simpl; [|done]. by rewrite rlp_roundtrip.
  - intros t d f. apply Flush_law.
  - intros t d f. apply Drop_law.
  - intros t d f [Hv Hf _ _ _]. split; simpl; eauto.
Qed.

End tables.
