(* ===== verification/VecIndex.v ===== *)
(** * The index of vector clocks: vector/index.go, vector/traversal.go,
      vector/forkless_cause.go, vector/median_time.go

    The operations of [vector.Index] over any [VecStore].  The callback
    [getEvent] and the hash of an event are parameters; the cache of the
    forkless-cause results is an LRU cache, the state of which is part of the
    index. *)

From S2P Require Import Prelude Bytes Kvdb Pos Event Vector VecStore.
Record Index (T F : Type) := mkIndex {
  vi_validators : Validators;
  vi_bi : option branchesInfo;
  vi_store : T;
  c_ForklessCause : F
}.
Arguments mkIndex {T F} _ _ _ _.
Arguments vi_validators {T F} _.
Arguments vi_bi {T F} _.
Arguments vi_store {T F} _.
Arguments c_ForklessCause {T F} _.

Section index.
Context {T F : Type} `{VecStore T} `{Lru (hash * hash) bool F}.
Context (getEvent : hash -> option EventHeaderData) (event_Hash : EventHeaderData -> hash).
Implicit Types vi : Index T F.

Definition set_store vi (t : T) : Index T F :=
  mkIndex (vi_validators vi) (vi_bi vi) t (c_ForklessCause vi).
Definition set_bi vi (bi : option branchesInfo) : Index T F :=
  mkIndex (vi_validators vi) bi (vi_store vi) (c_ForklessCause vi).

(** A use of [vi.bi]. *)
Definition use_bi vi : go branchesInfo :=
  match vi_bi vi with Some bi => Ret bi | None => Fault NilDereference end.

(** ** branches_info.go *)

Definition initBranchesInfo vi : go (Index T F) :=
  match vi_bi vi with
  | Some _ => Ret vi
  | None =>
      w ← st_getBranchesInfo (vi_store vi);
      Ret (set_bi vi (Some (match w with
                            | Some bi => bi
                            | None => newInitialBranchesInfo (vi_validators vi)
                            end)))
  end.

Definition atLeastOneFork (validators : Validators) (bi : branchesInfo) : bool :=
  zlen (BranchIDCreatorIdxs bi) >? Validators_Len validators.

(** ** index.go: life cycle *)

Definition DropNotFlushed vi : go (Index T F) :=
  t ← st_DropNotFlushed (vi_store vi);
  Ret (set_store (set_bi vi None) t).

(** [Reset], given the store made of the wrapped database. *)
Definition Reset vi (validators : Validators) (t : T) : go (Index T F) :=
  let vi := mkIndex (Validators_Copy validators) (vi_bi vi) t (c_ForklessCause vi) in
  vi ← DropNotFlushed vi;
  Ret (mkIndex (vi_validators vi) (vi_bi vi) (st_dropDependentCaches (vi_store vi))
         (lru_Purge (c_ForklessCause vi))).

Definition NewIndex (fc : F) (validators : Validators) (t : T) : go (Index T F) :=
  Reset (mkIndex validators None t fc) validators t.

Definition Flush vi : go (Index T F) :=
  t ← (match vi_bi vi with
       | Some bi => st_setBranchesInfo (vi_store vi) bi
       | None => Ret (vi_store vi)
       end);
  t ← st_Flush t;
  Ret (set_store vi t).

(** ** index.go: branches *)

Definition newBranch (bi : branchesInfo) (seq meIdx : Z) : go (Z * branchesInfo) :=
  let lastSeq := BranchIDLastSeq bi ++ [seq] in
  let creators := BranchIDCreatorIdxs bi ++ [meIdx] in
  let newBranchID := u32 (zlen lastSeq - 1) in
  mine ← slice_at (BranchIDByCreators bi) meIdx;
  byCreators ← slice_set (BranchIDByCreators bi) meIdx (mine ++ [newBranchID]);
  Ret (newBranchID, mkBranchesInfo lastSeq creators byCreators).

Definition set_lastSeq (bi : branchesInfo) (l : list Z) : branchesInfo :=
  mkBranchesInfo l (BranchIDCreatorIdxs bi) (BranchIDByCreators bi).

Definition inconsistent {A} : go A :=
  Fault (Crit "Inconsistent BranchIDCreators len (inconsistent DB)").

Definition fillGlobalBranchID vi (e : EventHeaderData) (meIdx : Z) : go (Z * Index T F) :=
  bi ← use_bi vi;
  if negb (zlen (BranchIDCreatorIdxs bi) =? zlen (BranchIDLastSeq bi)) then inconsistent
  else if zlen (BranchIDCreatorIdxs bi) <? Validators_Len (vi_validators vi) then inconsistent
  else
    '(br, bi) ←
      (match SelfParent e with
       | None =>
           last ← slice_at (BranchIDLastSeq bi) meIdx;
           if last =? 0 then
             l ← slice_set (BranchIDLastSeq bi) meIdx (Seq e); Ret (meIdx, set_lastSeq bi l)
           else newBranch bi (Seq e) meIdx
       | Some sp =>
           selfParentBranchID ← st_getEventBranchID (vi_store vi) sp;
           last ← slice_at (BranchIDLastSeq bi) selfParentBranchID;
           if u32 (last + 1) =? Seq e then
             l ← slice_set (BranchIDLastSeq bi) selfParentBranchID (Seq e);
             Ret (selfParentBranchID, set_lastSeq bi l)
           else newBranch bi (Seq e) meIdx
       end);
    Ret (br, set_bi vi (Some bi)).

(** The vector is passed by value: writes inside it are seen by the caller,
    an entry appended beyond its end is not. *)
Definition setForkDetected (validators : Validators) (bi : branchesInfo) (beforeSeq : bytes)
    (branchID : Z) : go bytes :=
  creatorIdx ← slice_at (BranchIDCreatorIdxs bi) branchID;
  branches ← slice_at (BranchIDByCreators bi) creatorIdx;
  b ← go_fold (fun b br => HighestBeforeSeq_Set b br forkDetectedSeq) beforeSeq branches;
  if atLeastOneFork validators bi then Ret (take (length beforeSeq) b)
  else Fault (Crit "Not written the correct branches info (inconsistent DB)").

(** ** index.go: fillEventVectors *)

(** The vectors of a parent; a missing time vector is the empty slice. *)
Record parentVecs := mkParentVecs { pv_seq : bytes; pv_time : bytes }.

Definition loadParent (st : list parentVecs * T) (p : hash) : go (list parentVecs * T) :=
  let '(acc, t) := st in
  _ ← st_getEventBranchID t p;
  '(beforeSeq, t) ← st_GetHighestBeforeSeq t p;
  '(beforeTime, t) ← st_GetHighestBeforeTime t p;
  match beforeSeq with
  | None => Fault (Crit "Processed out of order, parent not found (inconsistent DB)")
  | Some s => Ret (acc ++ [mkParentVecs s (default [] beforeTime)], t)
  end.

(** One branch of one parent: the body of the inner loop. *)
Definition mergeBranch (validators : Validators) (bi : branchesInfo) (pVec : parentVecs)
    (my : bytes * bytes) (branchID : Z) : go (bytes * bytes) :=
  let '(beforeSeq, beforeTime) := my in
  hisSeq ← HighestBeforeSeq_Get (pv_seq pVec) branchID;
  if (bs_Seq hisSeq =? 0) && negb (IsForkDetected hisSeq) then Ret my
  else
    mySeq ← HighestBeforeSeq_Get beforeSeq branchID;
    if IsForkDetected mySeq then Ret my
    else if IsForkDetected hisSeq then
      b ← setForkDetected validators bi beforeSeq branchID; Ret (b, beforeTime)
    else
      '(mySeq, beforeSeq) ←
        (if (bs_Seq mySeq =? 0) || (bs_MinSeq mySeq >? bs_MinSeq hisSeq) then
           let mySeq := mkBranchSeq (bs_Seq mySeq) (bs_MinSeq hisSeq) in
           b ← HighestBeforeSeq_Set beforeSeq branchID mySeq; Ret (mySeq, b)
         else Ret (mySeq, beforeSeq));
      if bs_Seq mySeq <? bs_Seq hisSeq then
        let mySeq := mkBranchSeq (bs_Seq hisSeq) (bs_MinSeq mySeq) in
        b ← HighestBeforeSeq_Set beforeSeq branchID mySeq;
        time ← HighestBeforeTime_Get (pv_time pVec) branchID;
        c ← HighestBeforeTime_Set beforeTime branchID time;
        Ret (b, c)
      else Ret (beforeSeq, beforeTime).

Definition mergeParent (validators : Validators) (bi : branchesInfo) (my : bytes * bytes)
    (pVec : parentVecs) : go (bytes * bytes) :=
  go_fold (mergeBranch validators bi pVec) my (seqZ 0 (u32 (zlen (BranchIDCreatorIdxs bi)))).

(** Do two branches of one creator hold events with one sequence number? *)
Definition branchesOverlap (a b : BranchSeq) : bool :=
  negb (bs_Seq a =? 0) && negb (bs_Seq b =? 0) &&
  (bs_MinSeq a <=? bs_Seq b) && (bs_MinSeq b <=? bs_Seq a).

(** The two loops over the branches of creator [n], up to the first pair that
    overlaps. *)
Fixpoint findOverlap1 (beforeSeq : bytes) (branchID1 : Z) (l : list Z) : go bool :=
  match l with
  | [] => Ret false
  | branchID2 :: l =>
      if branchID1 =? branchID2 then findOverlap1 beforeSeq branchID1 l
      else
        a ← HighestBeforeSeq_Get beforeSeq branchID1;
        b ← HighestBeforeSeq_Get beforeSeq branchID2;
        if branchesOverlap a b then Ret true else findOverlap1 beforeSeq branchID1 l
  end.
Fixpoint findOverlap (beforeSeq : bytes) (l all : list Z) : go bool :=
  match l with
  | [] => Ret false
  | branchID1 :: l =>
      found ← findOverlap1 beforeSeq branchID1 all;
      if found : bool then Ret true else findOverlap beforeSeq l all
  end.

Definition detectForks (validators : Validators) (bi : branchesInfo) (beforeSeq : bytes) (n : Z)
    : go bytes :=
  first ← HighestBeforeSeq_Get beforeSeq n;
  if IsForkDetected first then Ret beforeSeq
  else
    branches ← slice_at (BranchIDByCreators bi) n;
    found ← findOverlap beforeSeq branches branches;
    if found : bool then setForkDetected validators bi beforeSeq n else Ret beforeSeq.

(** ** traversal.go

    The stack and the state of the walk; [walk] answers whether to go
    deeper.  The walk is over when the stack is empty. *)
Fixpoint dfsSubgraph {W} (walk : W -> hash -> go (bool * W)) (fuel : nat) (stack : list hash) (w : W)
    : go W :=
  match fuel with
  | O => Fault OutOfFuel
  | S fuel =>
      match EventsStack_Pop stack with
      | None => Ret w
      | Some (curr, stack) =>
          '(godeeper, w) ← walk w curr;
          if negb godeeper then dfsSubgraph walk fuel stack w
          else
            match getEvent curr with
            | None => Fault (Crit "VectorClock: Failed to walk subgraph")
            | Some event => dfsSubgraph walk fuel (EventsStack_PushAll stack (Parents event)) w
            end
      end
  end.

(** [onWalk]: mark the event as observed from branch [meBranchID], unless it
    is. *)
Definition onWalk (meBranchID seq : Z) (t : T) (walk : hash) : go (bool * T) :=
  '(w, t) ← st_GetLowestAfterSeq t walk;
  let w := default [] w in
  old ← LowestAfterSeq_Get w meBranchID;
  if negb (old =? 0) then Ret (false, t)
  else
    w ← LowestAfterSeq_Set w meBranchID seq;
    t ← st_SetLowestAfter t walk w;
    Ret (true, t).

(** The vectors of the event itself. *)
Definition eventVectors (validators : Validators) (bi : branchesInfo) (size meBranchID : Z)
    (e : EventHeaderData) (parents : list parentVecs) : go (bytes * bytes) :=
  beforeSeq ← HighestBeforeSeq_Set (NewHighestBeforeSeq size) meBranchID
                (mkBranchSeq (Seq e) (Seq e));
  beforeTime ← HighestBeforeTime_Set (NewHighestBeforeTime size) meBranchID (ClaimedTime e);
  '(beforeSeq, beforeTime) ← go_fold (mergeParent validators bi) (beforeSeq, beforeTime) parents;
  beforeSeq ← (if atLeastOneFork validators bi
               then go_fold (detectForks validators bi) beforeSeq
                      (seqZ 0 (u32 (Validators_Len validators)))
               else Ret beforeSeq);
  Ret (beforeSeq, beforeTime).

Definition fillEventVectors (fuel : nat) vi (e : EventHeaderData) : go (Index T F) :=
  let meIdx := Validators_GetIdx (vi_validators vi) (Creator e) in
  bi0 ← use_bi vi;
  let size := zlen (BranchIDCreatorIdxs bi0) in
  '(meBranchID, vi) ← fillGlobalBranchID vi e meIdx;
  bi ← use_bi vi;
  '(parents, t) ← go_fold loadParent ([], vi_store vi) (Parents e);
  after ← LowestAfterSeq_Set (NewLowestAfterSeq size) meBranchID (Seq e);
  '(beforeSeq, beforeTime) ← eventVectors (vi_validators vi) bi size meBranchID e parents;
  t ← dfsSubgraph (onWalk meBranchID (Seq e)) fuel (EventsStack_PushAll [] (Parents e)) t;
  t ← st_SetHighestBefore t (event_Hash e) beforeSeq beforeTime;
  t ← st_SetLowestAfter t (event_Hash e) after;
  t ← st_setEventBranchID t (event_Hash e) meBranchID;
  Ret (set_store vi t).

(** The event is skipped, with a warning, when it has vectors already. *)
Definition Add (fuel : nat) vi (e : EventHeaderData) : go (Index T F) :=
  '(old, t) ← st_GetHighestBeforeSeq (vi_store vi) (event_Hash e);
  let vi := set_store vi t in
  match old with
  | Some _ => Ret vi
  | None => vi ← initBranchesInfo vi; fillEventVectors fuel vi e
  end.

(** ** index.go: getHighestBeforeMerged *)

(** The branches of one creator, up to the first one with a fork. *)
Fixpoint mergeBranches (beforeSeq times : bytes) (branches : list Z) (seq : BranchSeq) (time : Z)
    : go (BranchSeq * Z) :=
  match branches with
  | [] => Ret (seq, time)
  | branchID :: branches =>
      branch ← HighestBeforeSeq_Get beforeSeq branchID;
      if IsForkDetected branch then Ret (branch, time)
      else
        '(seq, time) ←
          (if bs_Seq seq <? bs_Seq branch then
             tm ← HighestBeforeTime_Get times branchID;
             Ret (mkBranchSeq (bs_Seq branch) (bs_MinSeq seq), tm)
           else Ret (seq, time));
        let seq :=
          if negb (bs_MinSeq branch =? 0) &&
             ((bs_MinSeq seq =? 0) || (bs_MinSeq seq >? bs_MinSeq branch))
          then mkBranchSeq (bs_Seq seq) (bs_MinSeq branch) else seq in
        mergeBranches beforeSeq times branches seq time
  end.

Definition mergeCreator (beforeSeq times : bytes) (acc : bytes * bytes) (ib : Z * list Z)
    : go (bytes * bytes) :=
  '(seq, time) ← mergeBranches beforeSeq times ib.2 (mkBranchSeq 0 0) 0;
  mergedTimes ← HighestBeforeTime_Set acc.2 ib.1 time;
  mergedSeq ← HighestBeforeSeq_Set acc.1 ib.1 seq;
  Ret (mergedSeq, mergedTimes).

Definition getHighestBeforeMerged vi (id : hash) : go ((slice * slice) * Index T F) :=
  vi ← initBranchesInfo vi;
  bi ← use_bi vi;
  '(beforeSeq, t) ← st_GetHighestBeforeSeq (vi_store vi) id;
  '(times, t) ← st_GetHighestBeforeTime t id;
  let vi := set_store vi t in
  if negb (atLeastOneFork (vi_validators vi) bi) then Ret ((beforeSeq, times), vi)
  else
    let n := Validators_Len (vi_validators vi) in
    '(mergedSeq, mergedTimes) ←
      go_fold (mergeCreator (default [] beforeSeq) (default [] times))
        (NewHighestBeforeSeq n, NewHighestBeforeTime n) (enumerate (BranchIDByCreators bi));
    Ret ((Some mergedSeq, Some mergedTimes), vi).

Definition GetHighestBeforeMerged vi (id : hash) : go (slice * Index T F) :=
  '((mergedSeq, _), vi) ← getHighestBeforeMerged vi id; Ret (mergedSeq, vi).

(** ** forkless_cause.go *)

Definition countBranch (a b : bytes) (yes : StakeCounter) (bc : Z * Z) : go StakeCounter :=
  let '(branchID, creatorIdx) := bc in
  bLowestAfter ← LowestAfterSeq_Get b branchID;
  aHighestBefore ← HighestBeforeSeq_Get a branchID;
  if (bLowestAfter <=? bs_Seq aHighestBefore) && negb (bLowestAfter =? 0) &&
     negb (IsForkDetected aHighestBefore)
  then '(_, yes) ← StakeCounter_CountByIdx yes creatorIdx; Ret yes
  else Ret yes.

Definition forklessCause vi (aID bID : hash) : go (bool * Index T F) :=
  vi ← initBranchesInfo vi;
  bi ← use_bi vi;
  '(a, t) ← st_GetHighestBeforeSeq (vi_store vi) aID;
  match a with
  | None => Fault (Crit "Event A not found")
  | Some a =>
      cheater ← (if atLeastOneFork (vi_validators vi) bi then
                   bBranchID ← st_getEventBranchID t bID;
                   s ← HighestBeforeSeq_Get a bBranchID;
                   Ret (IsForkDetected s)
                 else Ret false);
      if cheater : bool then Ret (false, set_store vi t)
      else
        '(b, t) ← st_GetLowestAfterSeq t bID;
        match b with
        | None => Fault (Crit "Event B not found")
        | Some b =>
            yes ← go_fold (countBranch a b) (newStakeCounter (vi_validators vi))
                    (enumerate (BranchIDCreatorIdxs bi));
            Ret (StakeCounter_HasQuorum yes, set_store vi t)
        end
  end.

Definition set_fc vi (c : F) : Index T F := mkIndex (vi_validators vi) (vi_bi vi) (vi_store vi) c.

Definition ForklessCause vi (aID bID : hash) : go (bool * Index T F) :=
  match lru_peek (c_ForklessCause vi) (aID, bID) with
  | Some res => Ret (res, set_fc vi (lru_touch (c_ForklessCause vi) (aID, bID)))
  | None =>
      '(res, vi) ← forklessCause vi aID bID;
      Ret (res, set_fc vi (lru_Add (c_ForklessCause vi) (aID, bID) res))
  end.

(** The options whose creator is not marked in the vector of the self-parent. *)
Definition keepOption (validators : Validators) (highest : bytes) (acc : list hash) (id : hash)
    : go (list hash) :=
  match getEvent id with
  | None => Fault (Crit "Event not found")
  | Some header =>
      s ← HighestBeforeSeq_Get highest (Validators_GetIdx validators (Creator header));
      Ret (if IsForkDetected s then acc else Events_Add acc [id])
  end.

Definition NoCheaters vi (selfParent : option hash) (options : list hash)
    : go (list hash * Index T F) :=
  match selfParent with
  | None => Ret (options, vi)
  | Some sp =>
      vi ← initBranchesInfo vi;
      '(highest, t) ← st_GetHighestBeforeSeq (vi_store vi) sp;
      filtered ← go_fold (keepOption (vi_validators vi) (default [] highest)) [] options;
      Ret (filtered, set_store vi t)
  end.

(** ** median_time.go *)

Record medianTimeIndex := mkMedian { m_stake : Z; m_claimedTime : Z }.

Definition highestOf (validators : Validators) (beforeSeq times : bytes) (genesisTime : Z)
    (creatorIdx : Z) : go medianTimeIndex :=
  stake ← Validators_GetStakeByIdx validators creatorIdx;
  claimedTime ← HighestBeforeTime_Get times creatorIdx;
  seq ← HighestBeforeSeq_Get beforeSeq creatorIdx;
  Ret (if IsForkDetected seq then mkMedian 0 claimedTime
       else if bs_Seq seq =? 0 then mkMedian stake genesisTime
       else mkMedian stake claimedTime).

Definition time_le (a b : medianTimeIndex) : Prop := m_claimedTime a <= m_claimedTime b.
#[export] Instance time_le_dec a b : Decision (time_le a b).
Proof. unfold time_le. apply _. Defined.

(** The loop that adds up stakes until half is reached. *)
Fixpoint medianLoop (halfStake : Z) (l : list medianTimeIndex) (currStake : Z) : Z * Z :=
  match l with
  | [] => (currStake, 0)
  | highest :: l =>
      let currStake := u64 (currStake + m_stake highest) in
      if currStake >=? halfStake then (currStake, m_claimedTime highest)
      else medianLoop halfStake l currStake
  end.

Definition weightedMedian (highests : list medianTimeIndex) : go Z :=
  let honestTotalStake := foldl (fun s h => u64 (s + m_stake h)) 0 highests in
  let sorted := merge_sort time_le highests in
  let halfStake := honestTotalStake / 2 in
  let '(currStake, median) := medianLoop halfStake sorted 0 in
  if (currStake <? halfStake) || (currStake >? honestTotalStake)
  then Fault (Crit "Median wasn't calculated correctly")
  else Ret median.

Definition MedianTime vi (id : hash) (genesisTime : Z) : go (Z * Index T F) :=
  vi ← initBranchesInfo vi;
  '((beforeSeq, times), vi) ← getHighestBeforeMerged vi id;
  match beforeSeq, times with
  | Some beforeSeq, Some times =>
      highests ← go_fold (fun acc creatorIdx =>
                   h ← highestOf (vi_validators vi) beforeSeq times genesisTime creatorIdx;
                   Ret (acc ++ [h])) []
                   (seqZ 0 (zlen (Validators_IDs (vi_validators vi))));
      median ← weightedMedian highests;
      Ret (median, vi)
  | _, _ => Ret (0, vi)
  end.

End index.
