(* ===== verification/Dag.v ===== *)
(** * The graph of events

    The reference the vector clocks are judged by: events that refer to their
    parents, and what an event observes.  Nothing here depends on the way the
    index stores anything. *)

From S2P Require Import Prelude Bytes Pos Event.
Section dag.
Context (vv : Validators) (getEvent : hash -> option EventHeaderData).

(** [y] is a parent of [x]. *)
Definition parent (x y : hash) : Prop := exists e, getEvent x = Some e /\ y ∈ Parents e.

(** [x] observes [y]: [y] is [x] or an ancestor of it. *)
Definition observes : relation hash := rtc parent.

Definition cr (h : hash) : Z :=
  match getEvent h with Some e => Validators_GetIdx vv (Creator e) | None => -1 end.
Definition sq (h : hash) : Z := match getEvent h with Some e => Seq e | None => 0 end.
Definition ct (h : hash) : Z := match getEvent h with Some e => ClaimedTime e | None => 0 end.

(** What the checks before the index establish about an event, given the
    events [hs] that were connected before. *)
Record event_ok (hs : list hash) (e : EventHeaderData) : Prop := {
  ek_parents : forall p, p ∈ Parents e -> p ∈ hs;
  ek_creator : Creator e ∈ Validators_SortedIDs vv;
  ek_seq : 1 <= Seq e < MaxInt32;
  ek_time : is_u64 (ClaimedTime e);
  ek_self : 1 < Seq e -> exists p ep, head (Parents e) = Some p /\ getEvent p = Some ep /\
    Creator ep = Creator e /\ Seq e = Seq ep + 1
}.

(** The connected events, in the order they were connected. *)
Inductive dag : list hash -> Prop :=
  | dag_nil : dag []
  | dag_snoc hs h e : dag hs -> h ∉ hs -> getEvent h = Some e -> event_ok hs e -> dag (hs ++ [h]).

(** Two different events of creator [c] with one sequence number. *)
Definition fork (c : Z) (x y : hash) : Prop :=
  x <> y /\ cr x = c /\ cr y = c /\ sq x = sq y.

(** [h] observes a fork of [c]. *)
Definition sees_fork (h : hash) (c : Z) : Prop :=
  exists x y, observes h x /\ observes h y /\ fork c x y.

(** The same as a test. *)
Definition event_okb (hs : list hash) (e : EventHeaderData) : bool :=
  bool_decide (Forall (fun p => p ∈ hs) (Parents e)) &&
  bool_decide (Creator e ∈ Validators_SortedIDs vv) &&
  bool_decide (1 <= Seq e < MaxInt32) && bool_decide (is_u64 (ClaimedTime e)) &&
  (bool_decide (Seq e <= 1) ||
   match head (Parents e) with
   | None => false
   | Some p => match getEvent p with
               | None => false
               | Some ep => bool_decide (Creator ep = Creator e /\ Seq e = Seq ep + 1)
               end
   end).

Lemma event_okb_sound hs e : event_okb hs e = true -> event_ok hs e.
Proof.
  unfold event_okb. rewrite !andb_true_iff, orb_true_iff, !bool_decide_eq_true.
  intros [[[[H1 H2] H3] H4] H5]. split; try done.
  - by apply Forall_forall.
  - intros Hs. destruct H5 as [|H5]; [lia|].
    destruct (head (Parents e)) as [p|]; [|done]. destruct (getEvent p) as [ep|] eqn:E; [|done].
    apply bool_decide_eq_true in H5 as [? ?]. by exists p, ep.
Qed.

(** ** Observation *)

Lemma observes_refl h : observes h h.
Proof. apply rtc_refl. Qed.
Lemma observes_trans x y z : observes x y -> observes y z -> observes x z.
Proof. intros H1 H2. unfold observes in *. by etrans. Qed.

Lemma observes_step h e x :
  getEvent h = Some e -> observes h x <-> x = h \/ exists p, p ∈ Parents e /\ observes p x.
Proof.
  intros He. split.
  - intros Hx. inversion Hx as [|? p ? (e' & He' & Hp) Hpx]; subst; [by left|].
    right. exists p. rewrite He in He'. injection He' as ->. done.
  - intros [->|(p & Hp & Hpx)]; [apply rtc_refl|]. eapply rtc_l; [|exact Hpx]. by exists e.
Qed.

Lemma dag_event hs h : dag hs -> h ∈ hs ->
  exists pre e, dag pre /\ (pre ⊆ hs) /\ (h ∉ pre) /\ getEvent h = Some e /\ event_ok pre e.
Proof.
  intros Hd. induction Hd as [|hs h' e Hd IH Hn He Hok]; [by intros ?%elem_of_nil|].
  intros [Hin|Hin]%elem_of_app.
  - destruct (IH Hin) as (pre & e' & ? & ? & ?). exists pre, e'. set_solver.
  - apply list_elem_of_singleton in Hin as ->. exists hs, e. set_solver.
Qed.

Lemma dag_nodup hs : dag hs -> NoDup hs.
Proof.
  induction 1; [constructor|]. apply NoDup_app. split; [done|]. split; [set_solver|].
  apply NoDup_singleton.
Qed.

(** The connected events are closed under observation. *)
Lemma dag_closed hs h x : dag hs -> h ∈ hs -> observes h x -> x ∈ hs.
Proof.
  intros Hd Hh Hx. revert Hh. induction Hx as [|h p x (e & He & Hp) Hpx IH]; intros Hh; [done|].
  apply IH. destruct (dag_event hs h Hd Hh) as (pre & e' & ? & Hsub & ? & He' & Hok).
  rewrite He in He'. injection He' as <-. apply Hsub. by apply (ek_parents _ _ Hok).
Qed.

Lemma event_ok_mono hs hs' e : hs ⊆ hs' -> event_ok hs e -> event_ok hs' e.
Proof. intros Hs [H1 H2 H3 H4 H5]. split; auto. Qed.

Lemma dag_event_ok hs h e : dag hs -> h ∈ hs -> getEvent h = Some e -> event_ok hs e.
Proof.
  intros Hd Hh He. destruct (dag_event hs h Hd Hh) as (pre & e' & ? & Hsub & ? & He' & Hok).
  rewrite He in He'. injection He' as <-. by eapply event_ok_mono.
Qed.

Lemma dag_cr hs h : validators_ok vv -> dag hs -> h ∈ hs -> cr h ∈ all_idx vv /\ 1 <= sq h < MaxInt32.
Proof.
  intros Hvv Hd Hh. destruct (dag_event hs h Hd Hh) as (pre & e & ? & ? & ? & He & Hok).
  unfold cr, sq. rewrite He. split; [|apply (ek_seq _ _ Hok)].
  by apply (GetIdx_elem vv Hvv), (ek_creator _ _ Hok).
Qed.

(** ** A range of sequence numbers that a pair of bounds stands for *)

Definition is_range (lo hi : Z) (P : Z -> Prop) : Prop :=
  (hi = 0 /\ lo = 0 /\ forall z, ~ P z) \/
  (0 < lo /\ P lo /\ P hi /\ forall z, P z -> lo <= z <= hi).

Lemma is_range_ext lo hi P Q : (forall z, P z <-> Q z) -> is_range lo hi P -> is_range lo hi Q.
Proof.
  intros E [(-> & -> & H)|(H0 & Hl & Hh & H)]; [left|right].
  - split; [done|]. split; [done|]. intros z Hz. apply (H z). by apply E.
  - rewrite <-!E. split_and!; [done..|]. intros z Hz. apply H. by apply E.
Qed.

Lemma is_range_empty P : (forall z, ~ P z) -> is_range 0 0 P.
Proof. intros H. by left. Qed.

Lemma is_range_one s : 0 < s -> is_range s s (fun z => z = s).
Proof. intros H. right. split_and!; try done; lia. Qed.

(** The union, as the merge of a parent's entry computes it. *)
Lemma is_range_union l1 h1 l2 h2 P Q :
  is_range l1 h1 P -> is_range l2 h2 Q -> h2 <> 0 ->
  is_range (if (h1 =? 0) || (l1 >? l2) then l2 else l1) (if h1 <? h2 then h2 else h1)
           (fun z => P z \/ Q z).
Proof.
  intros [(-> & -> & H1)|(Hp1 & Hl1 & Hh1 & H1)] [(-> & -> & H2)|(Hp2 & Hl2 & Hh2 & H2)] Hne;
    try done.
  - simpl. destruct (Z.ltb_spec 0 h2); [|pose proof (H2 h2 Hh2); lia].
    right. split_and!; [done|by right..|]. intros z [Hz|Hz]; [by apply H1 in Hz|auto].
  - pose proof (H1 _ Hh1). pose proof (H1 _ Hl1). pose proof (H2 _ Hh2). pose proof (H2 _ Hl2).
    destruct (Z.eqb_spec h1 0); [lia|]. simpl. rewrite Z.gtb_ltb.
    right. destruct (Z.ltb_spec l2 l1), (Z.ltb_spec h1 h2); split_and!; auto;
      intros z [Hz|Hz]; (apply H1 in Hz || apply H2 in Hz); lia.
Qed.

Lemma is_range_union_empty l1 h1 P Q :
  is_range l1 h1 P -> (forall z, ~ Q z) -> is_range l1 h1 (fun z => P z \/ Q z).
Proof. intros H HQ. eapply is_range_ext; [|exact H]. intros z. specialize (HQ z). tauto. Qed.

(** The least number of a set, zero when the set is empty. *)
Definition is_least (l : Z) (P : Z -> Prop) : Prop :=
  (l = 0 /\ forall z, ~ P z) \/ (0 < l /\ P l /\ forall z, P z -> l <= z).

Lemma is_least_ext l P Q : (forall z, P z <-> Q z) -> is_least l P -> is_least l Q.
Proof.
  intros E [(-> & H)|(H0 & Hl & H)]; [left|right].
  - split; [done|]. intros z Hz. apply (H z). by apply E.
  - rewrite <-E. split_and!; [done..|]. intros z Hz. apply H. by apply E.
Qed.

End dag.
