(* ===== verification/VecInv.v ===== *)
(** * The invariant of the vector clocks

    What the tables of the index hold, in terms of the graph of events: every
    connected event is in a branch, a chain of self-parents; its HighestBefore
    vector holds for each branch the range of sequence numbers it observes
    there, or the fork marker; its LowestAfter vector holds for each branch
    the first event that observes it. *)

From S2P Require Import Prelude Bytes Kvdb Pos Event Vector VecStore VecIndex Dag.

Section inv.
Context (vv : Validators) (Hvv : validators_ok vv).
Context (getEvent : hash -> option EventHeaderData).

Abbreviation observes := (observes getEvent).
Abbreviation cr := (cr vv getEvent).
Abbreviation sq := (sq getEvent).
Abbreviation ct := (ct getEvent).
Abbreviation sees_fork := (sees_fork vv getEvent).
Abbreviation nv := (zlen (Validators_SortedIDs vv)).

(** ** Branches *)

(** The number of branches. *)
Definition nb (bi : branchesInfo) : Z := zlen (BranchIDCreatorIdxs bi).
Definition creator_of (bi : branchesInfo) (b : Z) : option Z := slice_get (BranchIDCreatorIdxs bi) b.

Record bi_ok (bi : branchesInfo) : Prop := {
  bo_last : zlen (BranchIDLastSeq bi) = nb bi;
  bo_nv : nv <= nb bi;
  bo_by : zlen (BranchIDByCreators bi) = nv;
  bo_range b c : creator_of bi b = Some c -> 0 <= c < nv;
  bo_first c : 0 <= c < nv -> creator_of bi c = Some c;
  bo_lists c l : slice_get (BranchIDByCreators bi) c = Some l ->
    forall b : Z, b ∈ l <-> creator_of bi b = Some c
}.

Definition br (d : VecData) (h : hash) : Z := default 0 (d_br d !! h).

(** The sequence numbers of the events of branch [b] that [h] observes. *)
Definition seen (d : VecData) (h : hash) (b z : Z) : Prop :=
  exists x, observes h x /\ br d x = b /\ sq x = z.

(** The sequence numbers of the events of branch [b] that observe [h]. *)
Definition seers (hs : list hash) (d : VecData) (h : hash) (b z : Z) : Prop :=
  exists x, x ∈ hs /\ observes x h /\ br d x = b /\ sq x = z.

Record branches_ok (hs : list hash) (bi : branchesInfo) (d : VecData) : Prop := {
  br_some h : h ∈ hs -> d_br d !! h = Some (br d h);
  br_creator h : h ∈ hs -> creator_of bi (br d h) = Some (cr h);
  br_uniq h h' : h ∈ hs -> h' ∈ hs -> br d h = br d h' -> sq h = sq h' -> h = h';
  br_chain h h' : h ∈ hs -> h' ∈ hs -> br d h' = br d h -> sq h' <= sq h -> observes h h';
  br_contig h h' z : h ∈ hs -> h' ∈ hs -> br d h' = br d h -> sq h' <= z <= sq h ->
    exists x, x ∈ hs /\ br d x = br d h /\ sq x = z;
  br_last b l : slice_get (BranchIDLastSeq bi) b = Some l ->
    (forall h, h ∈ hs -> br d h = b -> sq h <= l) /\
    (l <> 0 -> exists h, h ∈ hs /\ br d h = b /\ sq h = l) /\ 0 <= l
}.

(** ** Vectors *)

Record hb_ok (bi : branchesInfo) (d : VecData) (h : hash) (s c : bytes) : Prop := {
  hb_vec : vec_ok 8 s;
  ht_vec : vec_ok 8 c;
  hb_size : nv <= HighestBeforeSeq_Size s <= nb bi;
  hb_within x : observes h x -> br d x < HighestBeforeSeq_Size s;
  hb_fork b : 0 <= b < HighestBeforeSeq_Size s -> forall k, creator_of bi b = Some k ->
    sees_fork h k -> hb_at s b = forkDetectedSeq;
  hb_sound b k : creator_of bi b = Some k -> hb_at s b = forkDetectedSeq -> sees_fork h k;
  hb_range b : 0 <= b < nb bi -> forall k, creator_of bi b = Some k -> ~ sees_fork h k ->
    is_range (bs_MinSeq (hb_at s b)) (bs_Seq (hb_at s b)) (seen d h b);
  hb_time b : 0 <= b < nb bi -> forall k, creator_of bi b = Some k -> ~ sees_fork h k ->
    forall x, observes h x -> br d x = b -> sq x = bs_Seq (hb_at s b) -> ht_at c b = ct x
}.

Record la_ok (hs : list hash) (bi : branchesInfo) (d : VecData) (h : hash) (v : bytes) : Prop := {
  la_vec : vec_ok 4 v;
  la_size : LowestAfterSeq_Size v <= nb bi;
  la_least b : 0 <= b < nb bi -> is_least (la_at v b) (seers hs d h b)
}.

Record vec_inv (hs : list hash) (bi : branchesInfo) (d : VecData) : Prop := {
  vi_dag : dag vv getEvent hs;
  vi_bi_ok : bi_ok bi;
  vi_bound : nb bi <= nv + zlen hs;
  vi_branches : branches_ok hs bi d;
  vi_hb h : h ∈ hs -> exists s c, d_hbs d !! h = Some s /\ d_hbt d !! h = Some c /\ hb_ok bi d h s c;
  vi_la h : h ∈ hs -> exists v, d_la d !! h = Some v /\ la_ok hs bi d h v;
  vi_fresh h : h ∉ hs -> d_hbs d !! h = None
}.

(** ** First facts *)

Lemma nv_nonneg : 0 <= nv.
Proof. apply zlen_nonneg. Qed.

Lemma Validators_Len_nv : Validators_Len vv = nv.
Proof. unfold Validators_Len, zlen. by rewrite (vo_size _ Hvv). Qed.

Lemma creator_of_lt bi b c : creator_of bi b = Some c -> 0 <= b < nb bi.
Proof. apply slice_get_lt. Qed.

Lemma creator_of_some bi b : 0 <= b < nb bi -> exists c, creator_of bi b = Some c.
Proof. intros H. by apply slice_get_is_Some in H. Qed.

Lemma by_creators bi c : bi_ok bi -> 0 <= c < nv ->
  exists l, slice_get (BranchIDByCreators bi) c = Some l /\
    forall b : Z, b ∈ l <-> creator_of bi b = Some c.
Proof.
  intros Hb Hc. rewrite <-(bo_by _ Hb) in Hc. apply slice_get_is_Some in Hc as [l Hl].
  exists l. split; [done|]. by apply (bo_lists _ Hb).
Qed.

Lemma vec_inv_br_range hs bi d h : branches_ok hs bi d -> h ∈ hs -> 0 <= br d h < nb bi.
Proof. intros Hb Hh. eapply creator_of_lt. by apply (br_creator _ _ _ Hb). Qed.

(** A fork is on two branches, so that there are more branches than
    validators. *)
Lemma fork_branches hs bi d k x y :
  bi_ok bi -> branches_ok hs bi d -> x ∈ hs -> y ∈ hs -> fork vv getEvent k x y ->
  br d x <> br d y /\ creator_of bi (br d x) = Some k /\ creator_of bi (br d y) = Some k /\ nv < nb bi.
Proof.
  intros Hbi Hb Hx Hy (Hne & Hcx & Hcy & Hs).
  pose proof (br_creator _ _ _ Hb x Hx) as Ex. pose proof (br_creator _ _ _ Hb y Hy) as Ey.
  rewrite Hcx in Ex. rewrite Hcy in Ey.
  assert (br d x <> br d y) as Hbr by (intros E; apply Hne; by apply (br_uniq _ _ _ Hb)).
  split_and!; [done..|].
  pose proof (creator_of_lt _ _ _ Ex) as Rx. pose proof (creator_of_lt _ _ _ Ey) as Ry.
  destruct (decide (br d x < nv)) as [Lx|]; [|lia]. destruct (decide (br d y < nv)) as [Ly|]; [|lia].
  pose proof (bo_first _ Hbi (br d x) ltac:(lia)). pose proof (bo_first _ Hbi (br d y) ltac:(lia)).
  congruence.
Qed.

Lemma sees_fork_branches hs bi d h k :
  dag vv getEvent hs -> bi_ok bi -> branches_ok hs bi d -> h ∈ hs -> sees_fork h k ->
  nv < nb bi /\ 0 <= k < nv.
Proof.
  intros Hd Hbi Hb Hh (x & y & Hx & Hy & Hf).
  destruct (fork_branches hs bi d k x y Hbi Hb) as (_ & Hk & _ & Hn); try done;
    [by eapply dag_closed..|]. split; [done|]. by eapply bo_range.
Qed.

Lemma is_range_not_fork s P : is_range (bs_MinSeq s) (bs_Seq s) P -> s <> forkDetectedSeq.
Proof.
  intros [(H1 & H2 & _)|(H0 & Hl & Hh & H)] ->; [done|]. simpl in *. apply H in Hh. lia.
Qed.

(** The initial state. *)
Lemma newInitialBranchesInfo_ok : bi_ok (newInitialBranchesInfo vv).
Proof.
  pose proof nv_nonneg as Hn.
  assert (forall b c, slice_get (seqZ 0 nv) b = Some c <-> b = c /\ 0 <= c < nv) as Hget.
  { intros b c. unfold slice_get. case_decide as Hb; [|split; [done|lia]].
    rewrite lookup_seqZ. rewrite Z2Nat.id by lia. lia. }
  split; unfold nb, creator_of, newInitialBranchesInfo; simpl.
  - unfold zlen. rewrite length_replicate. done.
  - unfold zlen. rewrite length_seqZ. lia.
  - rewrite Validators_Len_nv. unfold zlen. rewrite length_fmap, length_seqZ. lia.
  - intros b c H%Hget. lia.
  - intros c Hc. by apply Hget.
  - intros c l. rewrite Validators_Len_nv, slice_get_fmap.
    destruct (slice_get (seqZ 0 nv) c) as [c'|] eqn:E; [|done]. intros [= <-] b.
    apply Hget in E as [-> Hc]. rewrite list_elem_of_singleton, Hget. lia.
Qed.

Lemma vec_inv_init : vec_inv [] (newInitialBranchesInfo vv) emptyVecData.
Proof.
  pose proof newInitialBranchesInfo_ok as Hok.
  assert (forall h : hash, h ∉ ([] : list hash)) as Hnil by (intros h; apply not_elem_of_nil).
  split; try done; try (intros h Hh; by apply Hnil in Hh).
  - constructor.
  - unfold nb, newInitialBranchesInfo, zlen. simpl. rewrite length_seqZ. lia.
  - split; try (intros h Hh; by apply Hnil in Hh); try (intros h h' Hh; by apply Hnil in Hh).
    + intros h h' z Hh. by apply Hnil in Hh.
    + intros b l Hl. simpl in Hl. unfold slice_get in Hl. case_decide; [|done].
      apply lookup_replicate in Hl as [-> _].
      split; [intros h Hh; by apply Hnil in Hh|]. done.
Qed.

End inv.

(** * The branch of a new event: fillGlobalBranchID *)

Section branch.
Context (vv : Validators) (Hvv : validators_ok vv).
Context (getEvent : hash -> option EventHeaderData).
Context {T F : Type} `{HT : VecStoreLaws T}.

Abbreviation observes := (observes getEvent).
Abbreviation sq := (sq getEvent).
Abbreviation nv := (zlen (Validators_SortedIDs vv)).
Abbreviation me_idx e := (Validators_GetIdx vv (Creator e)).

(** What the branch [me] that was chosen for [e], and the new branches,
    satisfy: the events that are already in the branch are older than [e] and
    observed by its parents, the last one with the sequence number before. *)
Record branch_step (hs : list hash) (bi bi' : branchesInfo) (d : VecData)
    (e : EventHeaderData) (me : Z) : Prop := {
  bst_bi : bi_ok vv bi';
  bst_range : 0 <= me <= nb bi;
  bst_nb : nb bi' = Z.max (nb bi) (me + 1);
  bst_me : creator_of bi' me = Some (me_idx e);
  bst_creator b : 0 <= b < nb bi -> creator_of bi' b = creator_of bi b;
  bst_last b l : slice_get (BranchIDLastSeq bi') b = Some l ->
    (b = me -> l = Seq e) /\ (b <> me -> slice_get (BranchIDLastSeq bi) b = Some l);
  bst_older x : x ∈ hs -> br d x = me ->
    sq x < Seq e /\ exists p, p ∈ Parents e /\ observes p x;
  bst_before x : x ∈ hs -> br d x = me -> exists x0, x0 ∈ hs /\ br d x0 = me /\ sq x0 + 1 = Seq e
}.

(** A branch that goes on, or starts at its first event. *)
Lemma branch_step_extend hs bi d e me :
  vec_inv vv getEvent hs bi d ->
  creator_of bi me = Some (me_idx e) ->
  (forall x, x ∈ hs -> br d x = me -> sq x < Seq e /\ exists p, p ∈ Parents e /\ observes p x) ->
  (forall x, x ∈ hs -> br d x = me -> exists x0, x0 ∈ hs /\ br d x0 = me /\ sq x0 + 1 = Seq e) ->
  exists l, slice_set (BranchIDLastSeq bi) me (Seq e) = Ret l /\
    branch_step hs bi (set_lastSeq bi l) d e me.
Proof.
  intros Hinv Hme Hold Hbef. pose proof (vi_bi_ok _ _ _ _ _ Hinv) as Hbi.
  pose proof (creator_of_lt _ _ _ Hme) as Hr.
  rewrite slice_set_Ret by (rewrite (bo_last _ _ Hbi); done).
  eexists. split; [done|]. split; simpl; try done.
  - destruct Hbi as [H1 H2 H3 H4 H5 H6]. split; try done.
    unfold nb, zlen in *. simpl. by rewrite length_insert.
  - lia.
  - unfold nb. simpl. fold (nb bi). lia.
  - intros b l. rewrite slice_get_insert by (rewrite (bo_last _ _ Hbi); done).
    case_decide; intros [= ->]; split; intros; congruence.
Qed.

(** A new branch. *)
Lemma branch_step_new hs bi d e :
  vec_inv vv getEvent hs bi d -> 0 <= me_idx e < nv -> nb bi < 2 ^ 32 ->
  exists bi', newBranch bi (Seq e) (me_idx e) = Ret (nb bi, bi') /\
    branch_step hs bi bi' d e (nb bi).
Proof.
  intros Hinv Hme Hbound. pose proof (vi_bi_ok _ _ _ _ _ Hinv) as Hbi.
  pose proof (zlen_nonneg (BranchIDCreatorIdxs bi)) as Hn0. fold (nb bi) in Hn0.
  unfold newBranch. destruct (by_creators vv bi _ Hbi Hme) as (l & El & Hl).
  unfold slice_at. rewrite El, go_bind_Ret.
  rewrite slice_set_Ret by (rewrite (bo_by _ _ Hbi); done). rewrite go_bind_Ret.
  assert (u32 (zlen (BranchIDLastSeq bi ++ [Seq e]) - 1) = nb bi) as ->.
  { rewrite zlen_app, (bo_last _ _ Hbi). unfold zlen. simpl.
    rewrite Z.add_simpl_r. apply u32_id. unfold is_u32. lia. }
  eexists. split; [done|].
  assert (forall b c, creator_of (mkBranchesInfo (BranchIDLastSeq bi ++ [Seq e])
             (BranchIDCreatorIdxs bi ++ [me_idx e])
             (<[Z.to_nat (me_idx e) := l ++ [nb bi]]> (BranchIDByCreators bi))) b = Some c
           <-> (b = nb bi /\ c = me_idx e) \/ creator_of bi b = Some c) as Hcr.
  { intros b c. unfold creator_of. simpl. rewrite slice_get_app. case_decide as Hb; fold (nb bi) in *.
    - split; [by right|]. intros [[-> _]|Hc]; [lia|done].
    - split.
      + intros Hc. pose proof (slice_get_lt _ _ _ Hc) as Hlt. unfold zlen in Hlt. simpl in Hlt.
        left. split; [lia|]. replace (b - nb bi) with 0 in Hc by lia. by injection Hc.
      + intros [[-> ->]|Hc%slice_get_lt]; [by rewrite Z.sub_diag|]. fold (nb bi) in Hc. lia. }
  assert (forall x, x ∈ hs -> br d x = nb bi -> False) as Hno.
  { intros x Hx E. pose proof (vec_inv_br_range _ _ _ _ _ _ (vi_branches _ _ _ _ _ Hinv) Hx). lia. }
  split.
  - split.
    + unfold nb. simpl. rewrite !zlen_app, (bo_last _ _ Hbi). done.
    + unfold nb. simpl. rewrite zlen_app. pose proof (bo_nv _ _ Hbi). unfold nb in *.
      pose proof (zlen_nonneg [me_idx e]). lia.
    + simpl. unfold zlen. rewrite length_insert. apply (bo_by _ _ Hbi).
    + intros b c [[_ ->]|Hc]%Hcr; [done|]. by apply (bo_range _ _ Hbi b).
    + intros c Hc. apply Hcr. right. by apply (bo_first _ _ Hbi).
    + intros c k. simpl. rewrite slice_get_insert by (rewrite (bo_by _ _ Hbi); done).
      case_decide as Ec; intros Ek b; rewrite Hcr.
      * injection Ek as <-. rewrite elem_of_app, Hl, list_elem_of_singleton. subst c. tauto.
      * rewrite (bo_lists _ _ Hbi c k Ek). split; [by right|]. intros [[_ ->]|Hc]; done.
  - lia.
  - unfold nb. simpl. rewrite zlen_app. fold (nb bi). unfold zlen. simpl. lia.
  - apply Hcr. by left.
  - intros b Hb. apply option_eq. intros c. rewrite Hcr. split; [intros [[-> _]|?]; [lia|done]|by right].
  - intros b k. simpl. rewrite slice_get_app, (bo_last _ _ Hbi). case_decide as Hb.
    + intros Hk. split; [lia|done].
    + intros Hk. pose proof (slice_get_lt _ _ _ Hk) as Hlt. unfold zlen in Hlt. simpl in Hlt.
      replace (b - nb bi) with 0 in Hk by lia. injection Hk as <-. split; [done|lia].
  - intros x Hx E. by destruct (Hno x Hx E).
  - intros x Hx E. by destruct (Hno x Hx E).
Qed.

Lemma head_elem {A} (l : list A) x : head l = Some x -> x ∈ l.
Proof. destruct l; [done|]. intros [= ->]. apply list_elem_of_here. Qed.

Lemma fillGlobalBranchID_spec (vi : Index T F) hs bi d f e :
  vec_inv vv getEvent hs bi d -> event_ok vv getEvent hs e -> rep (vi_store vi) d f ->
  vi_bi vi = Some bi -> vi_validators vi = vv -> nb bi < 2 ^ 32 ->
  exists me bi', fillGlobalBranchID vi e (me_idx e) = Ret (me, set_bi vi (Some bi')) /\
    branch_step hs bi bi' d e me.
Proof.
  intros Hinv Hok Hrep Hvbi Hvv' Hbound.
  pose proof (vi_bi_ok _ _ _ _ _ Hinv) as Hbi. pose proof (vi_branches _ _ _ _ _ Hinv) as Hbr.
  destruct (GetIdx_elem vv Hvv _ (ek_creator _ _ _ _ Hok)) as [_ Hme%elem_of_all_idx].
  pose proof (creator_of_lt _ _ _ (bo_first _ _ Hbi _ Hme)) as Hmer.
  unfold fillGlobalBranchID, use_bi. rewrite Hvbi, go_bind_Ret.
  rewrite (bo_last _ _ Hbi). fold (nb bi). rewrite Z.eqb_refl. simpl negb. cbv iota.
  rewrite Hvv', (Validators_Len_nv vv Hvv).
  destruct (Z.ltb_spec (nb bi) nv); [pose proof (bo_nv _ _ Hbi); lia|].
  destruct (branch_step_new hs bi d e Hinv Hme Hbound) as (bin & En & Hnew).
  destruct (SelfParent e) as [sp|] eqn:Esp.
  - (* a self-parent *)
    unfold SelfParent in Esp. destruct (Z.leb_spec (Seq e) 1) as [|Hseq]; [done|]. simpl in Esp.
    case_bool_decide as Hnil; [done|].
    destruct (ek_self _ _ _ _ Hok Hseq) as (p & ep & Hp & Hep & Hcp & Hsp).
    rewrite Esp in Hp. injection Hp as <-.
    assert (sp ∈ Parents e) as Hpin by (by apply head_elem).
    assert (sp ∈ hs) as Hsphs by (by apply (ek_parents _ _ _ _ Hok)).
    assert (sq sp + 1 = Seq e) as Hsqsp by (unfold Dag.sq; rewrite Hep; lia).
    assert (creator_of bi (br d sp) = Some (me_idx e)) as Hcsp.
    { rewrite (br_creator _ _ _ _ _ Hbr sp Hsphs). unfold Dag.cr. by rewrite Hep, Hcp. }
    rewrite (law_getEventBranchID _ _ _ sp Hrep), (br_some _ _ _ _ _ Hbr sp Hsphs), go_bind_Ret.
    pose proof (creator_of_lt _ _ _ Hcsp) as Hr. rewrite <-(bo_last _ _ Hbi) in Hr.
    destruct (slice_get_is_Some _ _ Hr) as [l Hl]. unfold slice_at. rewrite Hl, go_bind_Ret.
    destruct (br_last _ _ _ _ _ Hbr _ _ Hl) as (Hle & Hex & Hl0).
    pose proof (Hle sp Hsphs eq_refl) as Hlsp. pose proof (ek_seq _ _ _ _ Hok) as Hes.
    destruct (Z.eqb_spec (u32 (l + 1)) (Seq e)) as [Heq|Hneq].
    + assert (l = sq sp) as ->.
      { destruct (Hex ltac:(lia)) as (y & Hy & _ & Hys).
        pose proof (dag_cr _ _ hs y Hvv (vi_dag _ _ _ _ _ Hinv) Hy) as [_ Hyr].
        rewrite u32_id in Heq by (unfold is_u32, MaxInt32 in *; lia). lia. }
      destruct (branch_step_extend hs bi d e (br d sp) Hinv Hcsp) as (l' & El' & Hst).
      * intros x Hx Ex. pose proof (Hle x Hx Ex). split; [lia|]. exists sp. split; [done|].
        by apply (br_chain _ _ _ _ _ Hbr).
      * intros x Hx Ex. by exists sp.
      * rewrite El', !go_bind_Ret. eauto.
    + rewrite En, go_bind_Ret. eauto.
  - (* the first event of a creator *)
    assert (Seq e = 1) as Hs1.
    { unfold SelfParent in Esp. pose proof (ek_seq _ _ _ _ Hok).
      destruct (Z.leb_spec (Seq e) 1) as [|Hseq]; [lia|]. simpl in Esp.
      destruct (ek_self _ _ _ _ Hok Hseq) as (p & ep & Hp & _).
      case_bool_decide as Hnil; [by rewrite Hnil in Hp|congruence]. }
    rewrite <-(bo_last _ _ Hbi) in Hmer. destruct (slice_get_is_Some _ _ Hmer) as [l Hl].
    unfold slice_at. rewrite Hl, go_bind_Ret.
    destruct (br_last _ _ _ _ _ Hbr _ _ Hl) as (Hle & Hex & Hl0).
    destruct (Z.eqb_spec l 0) as [->|Hneq].
    + assert (forall x, x ∈ hs -> br d x = me_idx e -> False) as Hno.
      { intros x Hx Ex. pose proof (Hle x Hx Ex).
        pose proof (dag_cr _ _ hs x Hvv (vi_dag _ _ _ _ _ Hinv) Hx) as [_ Hyr]. lia. }
      destruct (branch_step_extend hs bi d e (me_idx e) Hinv (bo_first _ _ Hbi _ Hme)) as (l' & El' & Hst).
      * intros x Hx Ex. by destruct (Hno x Hx Ex).
      * intros x Hx Ex. by destruct (Hno x Hx Ex).
      * rewrite El', !go_bind_Ret. eauto.
    + rewrite En, go_bind_Ret. eauto.
Qed.

End branch.
