(* ===== verification/VecMerge.v ===== *)
(** * The HighestBefore vector of a new event: mergeBranch, detectForks

    The loops over the parents and their branches, and the search for forks
    that no parent observes, against the sets of observed events. *)

From S2P Require Import Prelude Bytes Kvdb Pos Event Vector VecStore VecIndex Dag VecInv.
Lemma go_fold_fmap {A B S} (f : S -> B -> go S) (g : A -> B) s l :
  go_fold f s (g <$> l) = go_fold (fun s x => f s (g x)) s l.
Proof.
  revert s. induction l as [|x l IH]; intros s; [done|]. rewrite fmap_cons. simpl.
  destruct (f s (g x)); simpl; [apply IH|done].
Qed.

Lemma hb_at_u32 b i : vec_ok 8 b -> is_u32 (bs_Seq (hb_at b i)) /\ is_u32 (bs_MinSeq (hb_at b i)).
Proof.
  intros Hb. destruct (entry_bytes 8 ltac:(lia) b i Hb) as [H1 H2]. unfold hb_at. simpl. split.
  - pose proof (le_decode_range (take 4 (entry 8 b i)) (Forall_take _ _ _ H1)) as Hr.
    rewrite length_take, H2 in Hr. exact Hr.
  - pose proof (le_decode_range (drop 4 (entry 8 b i)) (Forall_drop _ _ _ H1)) as Hr.
    rewrite length_drop, H2 in Hr. exact Hr.
Qed.

Lemma ht_at_u64 b i : vec_ok 8 b -> is_u64 (ht_at b i).
Proof.
  intros Hb. destruct (entry_bytes 8 ltac:(lia) b i Hb) as [H1 H2].
  pose proof (le_decode_range _ H1) as Hr. rewrite H2 in Hr. exact Hr.
Qed.

Lemma vec8_len b : vec_ok 8 b -> length b = Z.to_nat (8 * HighestBeforeSeq_Size b).
Proof.
  intros [_ (n & E & _)]. unfold HighestBeforeSeq_Size.
  pose proof (vec_size 8 ltac:(lia) b n E) as Hs. change (Z.of_nat 8) with 8 in Hs. rewrite Hs. lia.
Qed.

Section merge.
Context (vv : Validators) (Hvv : validators_ok vv).
Context (bi : branchesInfo) (Hbi : bi_ok vv bi) (Hbound : 8 * nb bi < 2 ^ 32).
Abbreviation nv := (zlen (Validators_SortedIDs vv)).

Lemma atLeastOneFork_spec : atLeastOneFork vv bi = (nv <? nb bi).
Proof.
  unfold atLeastOneFork. rewrite (Validators_Len_nv vv Hvv), Z.gtb_ltb. done.
Qed.

(** A vector of the size of the branches, with entries [V]. *)
Definition full (s : bytes) : Prop := vec_ok 8 s /\ HighestBeforeSeq_Size s = nb bi.

Lemma full_set s b v :
  full s -> 0 <= b < nb bi -> is_u32 (bs_Seq v) -> is_u32 (bs_MinSeq v) ->
  exists s', HighestBeforeSeq_Set s b v = Ret s' /\ full s' /\
    forall j, 0 <= j -> hb_at s' j = if decide (j = b) then v else hb_at s j.
Proof.
  intros [Hs Hz] Hb H1 H2.
  destruct (HighestBeforeSeq_Set_spec s b v) as (s' & E & Hok & Hsz & Hat); [done|lia|lia|done|done|].
  exists s'. split; [done|]. split; [|done]. split; [done|]. lia.
Qed.

Lemma set_forks l : forall s, full s -> (forall b : Z, b ∈ l -> 0 <= b < nb bi) ->
  exists s', go_fold (fun b br => HighestBeforeSeq_Set b br forkDetectedSeq) s l = Ret s' /\ full s' /\
    forall j, 0 <= j -> hb_at s' j = if decide (j ∈ l) then forkDetectedSeq else hb_at s j.
Proof.
  induction l as [|b l IH]; intros s Hs Hl.
  - exists s. split; [done|]. split; [done|]. intros j Hj. by rewrite decide_False by apply not_elem_of_nil.
  - destruct (full_set s b forkDetectedSeq Hs) as (s1 & E1 & H1 & A1);
      [apply Hl, list_elem_of_here|simpl; word|simpl; word|].
    destruct (IH s1 H1) as (s2 & E2 & H2 & A2); [intros; apply Hl; by apply list_elem_of_further|].
    exists s2. cbn [go_fold]. rewrite E1, go_bind_Ret. split; [done|]. split; [done|].
    intros j Hj. rewrite A2, A1 by done. destruct (decide (j ∈ l)) as [Hin|Hin].
    + by rewrite decide_True by (by apply list_elem_of_further).
    + destruct (decide (j = b)) as [->|Hne].
      * by rewrite decide_True by apply list_elem_of_here.
      * rewrite decide_False; [done|]. rewrite elem_of_cons. tauto.
Qed.

Lemma setForkDetected_spec s b k :
  full s -> creator_of bi b = Some k -> nv < nb bi ->
  exists s', setForkDetected vv bi s b = Ret s' /\ full s' /\
    forall j, 0 <= j ->
      hb_at s' j = if decide (creator_of bi j = Some k) then forkDetectedSeq else hb_at s j.
Proof.
  intros Hs Hk Hn. unfold setForkDetected, slice_at. fold (creator_of bi b). rewrite Hk, go_bind_Ret.
  destruct (by_creators vv bi k Hbi (bo_range _ _ Hbi _ _ Hk)) as (l & El & Hl).
  rewrite El, go_bind_Ret.
  destruct (set_forks l s Hs) as (s' & E & Hs' & Hat).
  { intros j Hj%Hl. by eapply creator_of_lt. }
  rewrite E, go_bind_Ret, atLeastOneFork_spec. destruct (Z.ltb_spec nv (nb bi)); [|lia].
  exists s'. split.
  - f_equal. apply take_ge. destruct Hs as [Hs Hz], Hs' as [Hs' Hz'].
    rewrite (vec8_len _ Hs), (vec8_len _ Hs'), Hz, Hz'. done.
  - split; [done|]. intros j Hj. rewrite Hat by done.
    destruct (decide (j ∈ l)) as [Hin|Hin]; rewrite Hl in Hin.
    + by rewrite decide_True.
    + by rewrite decide_False.
Qed.

(** ** The loop over the parents *)

(** Of each parent: [fk p k] it observes a fork of [k], [obs p b z] it observes
    the event [z] of branch [b]; [own b z] is what the event itself adds, and
    [clock b z t] says that the event [z] of branch [b] claims the time [t]. *)
Context (P : list hash) (pv : hash -> parentVecs).
Context (fk : hash -> Z -> Prop) (obs : hash -> Z -> Z -> Prop).
Context (own : Z -> Z -> Prop) (clock : Z -> Z -> Z -> Prop).

Record parent_ok (p : hash) : Prop := {
  po_seq : vec_ok 8 (pv_seq (pv p));
  po_time : vec_ok 8 (pv_time (pv p));
  po_fork b k : creator_of bi b = Some k -> hb_at (pv_seq (pv p)) b = forkDetectedSeq -> fk p k;
  po_first k : 0 <= k < nv -> fk p k -> hb_at (pv_seq (pv p)) k = forkDetectedSeq /\ nv < nb bi;
  po_range b k : creator_of bi b = Some k -> ~ fk p k ->
    is_range (bs_MinSeq (hb_at (pv_seq (pv p)) b)) (bs_Seq (hb_at (pv_seq (pv p)) b)) (obs p b);
  po_clock b k : creator_of bi b = Some k -> ~ fk p k -> bs_Seq (hb_at (pv_seq (pv p)) b) <> 0 ->
    clock b (bs_Seq (hb_at (pv_seq (pv p)) b)) (ht_at (pv_time (pv p)) b)
}.

Context (HP : forall p, p ∈ P -> parent_ok p).

(** After the pairs [D] of parents and branches. *)
Record merged (D : hash -> Z -> Prop) (s c : bytes) : Prop := {
  mg_full : full s;
  mg_time : vec_ok 8 c;
  mg_fork p b' : p ∈ P -> D p b' -> hb_at (pv_seq (pv p)) b' = forkDetectedSeq ->
    forall b k, creator_of bi b' = Some k -> creator_of bi b = Some k -> hb_at s b = forkDetectedSeq;
  mg_all b b' k : creator_of bi b = Some k -> creator_of bi b' = Some k ->
    hb_at s b = forkDetectedSeq -> hb_at s b' = forkDetectedSeq;
  mg_sound b k : creator_of bi b = Some k -> hb_at s b = forkDetectedSeq ->
    exists p, p ∈ P /\ fk p k;
  mg_range b k : creator_of bi b = Some k -> (forall p, p ∈ P -> ~ fk p k) ->
    is_range (bs_MinSeq (hb_at s b)) (bs_Seq (hb_at s b))
      (fun z => own b z \/ exists p, p ∈ P /\ D p b /\ obs p b z);
  mg_clock b k : creator_of bi b = Some k -> (forall p, p ∈ P -> ~ fk p k) ->
    bs_Seq (hb_at s b) <> 0 -> clock b (bs_Seq (hb_at s b)) (ht_at c b)
}.

Lemma merged_ext D D' s c : (forall p b, D p b <-> D' p b) -> merged D s c -> merged D' s c.
Proof.
  intros E [H1 H2 H3 H6 H7 H4 H5]. split; try done.
  - intros p b' Hp Hd%E. by apply H3.
  - intros b k Hk Hno. eapply is_range_ext; [|by apply (H4 b k)].
    intros z. setoid_rewrite E. done.
Qed.

Definition also (D : hash -> Z -> Prop) (p : hash) (b : Z) : hash -> Z -> Prop :=
  fun p' b' => D p' b' \/ (p' = p /\ b' = b).

(** Nothing changes where the pair adds nothing. *)
Lemma merged_skip D s c p b :
  merged D s c -> p ∈ P ->
  (hb_at (pv_seq (pv p)) b = forkDetectedSeq ->
     forall b' k, creator_of bi b = Some k -> creator_of bi b' = Some k -> hb_at s b' = forkDetectedSeq) ->
  (forall k, creator_of bi b = Some k -> (forall p', p' ∈ P -> ~ fk p' k) -> forall z, ~ obs p b z) ->
  merged (also D p b) s c.
Proof.
  intros [H1 H2 H3 H6 H7 H4 H5] Hp Hf Hno. split; try done.
  - intros p' b' Hp' [Hd|[-> ->]] Hfk b2 k Hk Hk2; [by eapply H3|]. by eapply Hf.
  - intros b2 k Hk Hnf. eapply is_range_ext; [|by apply (H4 b2 k)]. intros z. split.
    + intros [Ho|(q & Hq & Hd & Ho)]; [by left|]. right. exists q. split_and!; [done|by left|done].
    + intros [Ho|(q & Hq & [Hd|[-> ->]] & Ho)]; [by left| |].
      * right. by exists q.
      * exfalso. by apply (Hno k Hk Hnf z).
Qed.

Lemma IsForkDetected_spec s : reflect (s = forkDetectedSeq) (IsForkDetected s).
Proof. unfold IsForkDetected. case_bool_decide; by constructor. Qed.

(** A fork that the parent observes. *)
Lemma merged_mark D s c p b k s' :
  merged D s c -> p ∈ P -> creator_of bi b = Some k -> fk p k -> full s' ->
  (forall j, 0 <= j ->
     hb_at s' j = if decide (creator_of bi j = Some k) then forkDetectedSeq else hb_at s j) ->
  merged (also D p b) s' c.
Proof.
  intros [H1 H2 H3 H6 H7 H4 H5] Hp Hk Hfk Hs' Hat.
  assert (forall j k', creator_of bi j = Some k' ->
            hb_at s' j = if decide (k' = k) then forkDetectedSeq else hb_at s j) as Hat'.
  { intros j k' Hj. rewrite Hat by (by apply (creator_of_lt _ _ _ Hj)). rewrite Hj.
    destruct (decide (k' = k)) as [->|]; [by rewrite decide_True|by rewrite decide_False by congruence]. }
  split; try done.
  - intros p' b' Hp' Hd Hfk' b2 k' Hk1 Hk2. rewrite (Hat' b2 k' Hk2).
    case_decide as E; [done|]. destruct Hd as [Hd|[-> ->]]; [by eapply H3|congruence].
  - intros b1 b2 k' Hk1 Hk2. rewrite (Hat' b1 k' Hk1), (Hat' b2 k' Hk2).
    case_decide; [done|]. by apply (H6 b1 b2 k').
  - intros b2 k' Hk2. rewrite (Hat' b2 k' Hk2). case_decide as E; [|by apply H7].
    intros _. exists p. by subst.
  - intros b2 k' Hk2 Hnf. rewrite (Hat' b2 k' Hk2).
    rewrite decide_False by (intros ->; by apply (Hnf p Hp)).
    eapply is_range_ext; [|by apply (H4 b2 k')]. intros z. split.
    + intros [Ho|(q & Hq & Hd & Ho)]; [by left|]. right. exists q. split_and!; [done|by left|done].
    + intros [Ho|(q & Hq & [Hd|[-> ->]] & Ho)]; [by left|right; by exists q|].
      exfalso. rewrite Hk in Hk2. injection Hk2 as ->. by apply (Hnf p Hp).
  - intros b2 k' Hk2 Hnf. rewrite (Hat' b2 k' Hk2).
    rewrite decide_False by (intros ->; by apply (Hnf p Hp)). by apply (H5 b2 k').
Qed.

(** The ranges are joined. *)
Lemma merged_join D s c p b k s' c' (my his : BranchSeq) :
  merged D s c -> p ∈ P -> creator_of bi b = Some k ->
  my = hb_at s b -> his = hb_at (pv_seq (pv p)) b ->
  my <> forkDetectedSeq -> his <> forkDetectedSeq -> bs_Seq his <> 0 ->
  full s' -> vec_ok 8 c' ->
  (forall j, 0 <= j -> hb_at s' j =
     if decide (j = b)
     then mkBranchSeq (if bs_Seq my <? bs_Seq his then bs_Seq his else bs_Seq my)
                      (if (bs_Seq my =? 0) || (bs_MinSeq my >? bs_MinSeq his)
                       then bs_MinSeq his else bs_MinSeq my)
     else hb_at s j) ->
  (forall j, 0 <= j -> ht_at c' j =
     if decide (j = b)
     then if bs_Seq my <? bs_Seq his then ht_at (pv_time (pv p)) b else ht_at c b
     else ht_at c j) ->
  merged (also D p b) s' c'.
Proof.
  intros [H1 H2 H3 H6 H7 H4 H5] Hp Hk Emy Ehis Hmy Hhis Hz Hs' Hc' Hat Htm.
  assert (forall m, mkBranchSeq (if bs_Seq my <? bs_Seq his then bs_Seq his else bs_Seq my) m
                    <> forkDetectedSeq) as Hjoin.
  { intros m Hbad. unfold forkDetectedSeq in Hbad. injection Hbad as Hseq _.
    pose proof (hb_at_u32 s b (proj1 H1)) as [Hu _].
    pose proof (hb_at_u32 _ b (po_seq _ (HP p Hp))) as [Hu' _].
    rewrite <-Emy in Hu. rewrite <-Ehis in Hu'. unfold is_u32 in *.
    destruct (Z.ltb_spec (bs_Seq my) (bs_Seq his)); lia. }
  split; try done.
  - intros p' b' Hp' Hd Hfk' b2 k' Hk1 Hk2. rewrite Hat by (by apply (creator_of_lt _ _ _ Hk2)).
    destruct Hd as [Hd|[-> ->]]; [|congruence].
    case_decide as E; [|by eapply H3]. subst b2. exfalso. apply Hmy. rewrite Emy. by eapply H3.
  - intros b1 b2 k' Hk1 Hk2. rewrite !Hat by (by apply (creator_of_lt _ _ _ Hk1) || by apply (creator_of_lt _ _ _ Hk2)).
    destruct (decide (b1 = b)) as [->|E1]; [by intros ?%Hjoin|].
    intros Hf1. case_decide as E2; [|by apply (H6 b1 b2 k')]. subst b2.
    exfalso. apply Hmy. rewrite Emy. by apply (H6 b1 b k').
  - intros b2 k' Hk2. rewrite Hat by (by apply (creator_of_lt _ _ _ Hk2)).
    case_decide; [by intros ?%Hjoin|by apply H7].
  - intros b2 k' Hk2 Hnf. rewrite Hat by (by apply (creator_of_lt _ _ _ Hk2)).
    case_decide as E.
    + subst b2. simpl. rewrite Hk in Hk2. injection Hk2 as <-.
      eapply is_range_ext; [|apply is_range_union;
        [rewrite Emy; by apply (H4 b k)|rewrite Ehis; apply (po_range _ (HP p Hp) b k Hk); by apply Hnf|done]].
      intros z. simpl. split.
      * intros [[Ho|(q & Hq & Hd & Ho)]|Ho]; [by left| |].
        -- right. exists q. split_and!; [done|by left|done].
        -- right. exists p. split_and!; [done|by right|done].
      * intros [Ho|(q & Hq & [Hd|[-> _]] & Ho)]; [left; by left| |by right].
        left. right. by exists q.
    + eapply is_range_ext; [|by apply (H4 b2 k')]. intros z. split.
      * intros [Ho|(q & Hq & Hd & Ho)]; [by left|]. right. exists q. split_and!; [done|by left|done].
      * intros [Ho|(q & Hq & [Hd|[-> ->]] & Ho)]; [by left|right; by exists q|done].
  - intros b2 k' Hk2 Hnf. rewrite Hat, Htm by (by apply (creator_of_lt _ _ _ Hk2)).
    case_decide as E; [|by apply (H5 b2 k')]. subst b2. simpl.
    rewrite Hk in Hk2. injection Hk2 as <-.
    destruct (Z.ltb_spec (bs_Seq my) (bs_Seq his)).
    + intros _. rewrite Ehis. apply (po_clock _ (HP p Hp) b k Hk); [by apply Hnf|congruence].
    + rewrite Emy. by apply (H5 b k).
Qed.

Lemma mergeBranch_spec D s c p b :
  merged D s c -> p ∈ P -> 0 <= b < nb bi ->
  exists s' c', mergeBranch vv bi (pv p) (s, c) b = Ret (s', c') /\ merged (also D p b) s' c'.
Proof.
  intros Hm Hp Hb. destruct (creator_of_some _ _ Hb) as [k Hk].
  pose proof (HP p Hp) as Hpo. pose proof (bo_range _ _ Hbi _ _ Hk) as Hkr.
  destruct (mg_full _ _ _ Hm) as [Hs Hsz]. unfold mergeBranch.
  rewrite (HighestBeforeSeq_Get_spec _ b (po_seq _ Hpo)), go_bind_Ret by lia.
  set (his := hb_at (pv_seq (pv p)) b).
  destruct ((bs_Seq his =? 0) && negb (IsForkDetected his)) eqn:Hskip.
  { apply andb_prop in Hskip as [Hz%Z.eqb_eq Hnf]. destruct (IsForkDetected_spec his) as [|Hhf]; [done|].
    exists s, c. split; [done|]. apply merged_skip; try done.
    intros k' Hk' Hno z Hz'. rewrite Hk in Hk'. injection Hk' as <-.
    destruct (po_range _ Hpo b k Hk (Hno p Hp)) as [(_ & _ & He)|(H0 & Hl & Hh & Hr)]; [by apply (He z)|].
    fold his in H0, Hl, Hh, Hr. apply Hr in Hl. lia. }
  rewrite (HighestBeforeSeq_Get_spec s b Hs), go_bind_Ret by lia. set (my := hb_at s b).
  destruct (IsForkDetected_spec my) as [Hmy|Hmy].
  { (* already marked, or the creator has a fork that is not marked yet *)
    exists s, c. split; [done|]. apply merged_skip; try done.
    - intros _ b' k' Hk1 Hk2. by apply (mg_all _ _ _ Hm b b' k').
    - intros k' Hk' Hno. destruct (is_range_not_fork my _ (mg_range _ _ _ Hm b k' Hk' Hno) Hmy). }
  destruct (IsForkDetected_spec his) as [Hhis|Hhis].
  { assert (fk p k) as Hfk by (by apply (po_fork _ Hpo b)).
    destruct (setForkDetected_spec s b k) as (s' & E & Hs' & Hat); [done|done|by apply (po_first _ Hpo k)|].
    rewrite E, go_bind_Ret. exists s', c. split; [done|]. by eapply merged_mark. }
  assert (bs_Seq his <> 0) as Hz.
  { intros Hz. rewrite Hz in Hskip. simpl in Hskip.
    by destruct (IsForkDetected_spec his). }
  destruct (hb_at_u32 s b Hs) as [U1 U2]. fold my in U1, U2.
  destruct (hb_at_u32 _ b (po_seq _ Hpo)) as [U3 U4]. fold his in U3, U4.
  set (newmin := if (bs_Seq my =? 0) || (bs_MinSeq my >? bs_MinSeq his) then bs_MinSeq his else bs_MinSeq my).
  (* the minimum *)
  assert (exists s1, (if (bs_Seq my =? 0) || (bs_MinSeq my >? bs_MinSeq his)
           then b0 ← HighestBeforeSeq_Set s b (mkBranchSeq (bs_Seq my) (bs_MinSeq his));
                Ret (mkBranchSeq (bs_Seq my) (bs_MinSeq his), b0)
           else Ret (my, s)) = Ret (mkBranchSeq (bs_Seq my) newmin, s1) /\ full s1 /\
           forall j, 0 <= j -> hb_at s1 j = if decide (j = b) then mkBranchSeq (bs_Seq my) newmin else hb_at s j)
    as (s1 & E1 & Hs1 & A1).
  { unfold newmin. destruct ((bs_Seq my =? 0) || (bs_MinSeq my >? bs_MinSeq his)).
    - destruct (full_set s b (mkBranchSeq (bs_Seq my) (bs_MinSeq his))) as (s1 & E1 & Hs1 & A1);
        [done|done|done|done|]. exists s1. by rewrite E1, go_bind_Ret.
    - exists s. split; [by destruct my|]. split; [done|]. intros j Hj.
      case_decide; [|done]. subst j. fold my. by destruct my. }
  cbv zeta. rewrite E1, go_bind_Ret. cbn [bs_Seq bs_MinSeq].
  assert (is_u32 newmin) as Umin by (unfold newmin; by destruct (_ || _)).
  destruct (Z.ltb_spec (bs_Seq my) (bs_Seq his)) as [Hlt|Hge].
  - destruct (full_set s1 b (mkBranchSeq (bs_Seq his) newmin) Hs1 Hb U3 Umin) as (s2 & E2 & Hs2 & A2).
    rewrite E2, go_bind_Ret, (HighestBeforeTime_Get_spec _ b (po_time _ Hpo)), go_bind_Ret by lia.
    destruct (HighestBeforeTime_Set_spec c b (ht_at (pv_time (pv p)) b)) as (c' & E3 & Hc' & _ & A3);
      [apply (mg_time _ _ _ Hm)|lia|lia|by apply ht_at_u64, po_time|].
    rewrite E3, go_bind_Ret. exists s2, c'. split; [done|].
    apply (merged_join D s c p b k s2 c' my his); try done.
    + intros j Hj. destruct (Z.ltb_spec (bs_Seq my) (bs_Seq his)); [|lia].
      rewrite A2 by done. case_decide; [done|]. rewrite A1 by done. by case_decide.
    + intros j Hj. destruct (Z.ltb_spec (bs_Seq my) (bs_Seq his)); [|lia]. by apply A3.
  - exists s1, c. split; [done|].
    apply (merged_join D s c p b k s1 c my his); try done; [apply (mg_time _ _ _ Hm)|..].
    + intros j Hj. destruct (Z.ltb_spec (bs_Seq my) (bs_Seq his)); [lia|]. by apply A1.
    + intros j Hj. destruct (Z.ltb_spec (bs_Seq my) (bs_Seq his)); [lia|]. by case_decide; [subst|].
Qed.

Lemma seqZ_snoc_elem (dn rest : list Z) (n b : Z) :
  seqZ 0 n = dn ++ b :: rest -> 0 <= b < n /\ forall j : Z, j ∈ dn <-> 0 <= j < b.
Proof.
  intros E. assert (b ∈ seqZ 0 n) as Hb by (rewrite E; set_solver). apply elem_of_seqZ in Hb.
  split; [lia|].
  assert (dn = seqZ 0 b) as ->.
  { assert (seqZ 0 n !! length dn = Some b) as Hl by (rewrite E; by apply list_lookup_middle).
    apply lookup_seqZ in Hl as [Hl Hlt].
    rewrite <-(take_app_length dn (b :: rest)), <-E.
    replace n with (Z.of_nat (length dn) + (n - Z.of_nat (length dn))) by lia.
    rewrite seqZ_app by lia. rewrite take_app_length'; [f_equal; lia|]. rewrite length_seqZ. lia. }
  intros j. rewrite elem_of_seqZ. lia.
Qed.

Lemma mergeParent_spec D s c p :
  merged D s c -> p ∈ P ->
  exists s' c', mergeParent vv bi (s, c) (pv p) = Ret (s', c') /\
    merged (fun p' b => D p' b \/ (p' = p /\ 0 <= b < nb bi)) s' c'.
Proof.
  intros Hm Hp. unfold mergeParent. fold (nb bi).
  pose proof (zlen_nonneg (BranchIDCreatorIdxs bi)) as Hn0. fold (nb bi) in Hn0.
  rewrite (u32_id (nb bi)) by (unfold is_u32; lia).
  destruct (go_fold_inv (mergeBranch vv bi (pv p))
              (fun dn st => merged (fun p' b => D p' b \/ (p' = p /\ b ∈ dn)) st.1 st.2)
              (seqZ 0 (nb bi)) (s, c)) as ([s' c'] & E & Hm').
  - eapply merged_ext; [|exact Hm]. intros p' b. rewrite elem_of_nil. tauto.
  - intros dn b rest [s1 c1] El Hm1. destruct (seqZ_snoc_elem _ _ _ _ El) as [Hb _].
    destruct (mergeBranch_spec _ s1 c1 p b Hm1 Hp Hb) as (s2 & c2 & E2 & Hm2).
    exists (s2, c2). split; [done|]. eapply merged_ext; [|exact Hm2].
    intros p' b'. unfold also. rewrite elem_of_app, list_elem_of_singleton. tauto.
  - exists s', c'. split; [done|]. eapply merged_ext; [|exact Hm'].
    intros p' b. simpl. rewrite elem_of_seqZ. rewrite Z.add_0_l. done.
Qed.

Lemma mergeParents_spec s c :
  merged (fun _ _ => False) s c ->
  exists s' c', go_fold (mergeParent vv bi) (s, c) (pv <$> P) = Ret (s', c') /\
    merged (fun p b => p ∈ P /\ 0 <= b < nb bi) s' c'.
Proof.
  intros Hm. rewrite go_fold_fmap.
  destruct (go_fold_inv (fun st p => mergeParent vv bi st (pv p))
              (fun dn st => merged (fun p b => p ∈ dn /\ 0 <= b < nb bi) st.1 st.2)
              P (s, c)) as ([s' c'] & E & Hm').
  - eapply merged_ext; [|exact Hm]. intros p b. rewrite elem_of_nil. tauto.
  - intros dn p rest [s1 c1] El Hm1.
    destruct (mergeParent_spec _ s1 c1 p Hm1) as (s2 & c2 & E2 & Hm2); [rewrite El; set_solver|].
    exists (s2, c2). split; [done|]. eapply merged_ext; [|exact Hm2].
    intros p' b. simpl. rewrite elem_of_app, list_elem_of_singleton. tauto.
  - by exists s', c'.
Qed.

(** ** The forks that no parent observes *)

Lemma findOverlap1_spec s b1 l :
  full s -> 0 <= b1 -> (forall b : Z, b ∈ l -> 0 <= b) ->
  exists r, findOverlap1 s b1 l = Ret r /\
    (r = true <-> exists b2, b2 ∈ l /\ b1 <> b2 /\ branchesOverlap (hb_at s b1) (hb_at s b2) = true).
Proof.
  intros [Hs _] Hb1. induction l as [|b2 l IH]; intros Hl.
  - exists false. split; [done|]. split; [done|]. intros (b2 & Hb2%elem_of_nil & _). done.
  - destruct IH as (r & E & Hr); [intros; apply Hl; by apply list_elem_of_further|]. simpl.
    destruct (Z.eqb_spec b1 b2) as [->|Hne].
    + exists r. split; [done|]. rewrite Hr. setoid_rewrite elem_of_cons.
      split; [intros (b & ? & ?); eauto|]. intros (b & [->|?] & ? & ?); [done|eauto].
    + rewrite !(HighestBeforeSeq_Get_spec s _ Hs), !go_bind_Ret by (done || apply Hl, list_elem_of_here).
      destruct (branchesOverlap (hb_at s b1) (hb_at s b2)) eqn:Eo.
      * exists true. split; [done|]. split; [|done]. intros _. exists b2.
        split; [apply list_elem_of_here|done].
      * exists r. split; [done|]. rewrite Hr. setoid_rewrite elem_of_cons.
        split; [intros (b & ? & ?); eauto|]. intros (b & [->|?] & ? & ?); [congruence|eauto].
Qed.

Lemma findOverlap_spec s l all :
  full s -> (forall b : Z, b ∈ l -> 0 <= b) -> (forall b : Z, b ∈ all -> 0 <= b) ->
  exists r, findOverlap s l all = Ret r /\
    (r = true <-> exists b1 b2, b1 ∈ l /\ b2 ∈ all /\ b1 <> b2 /\
                    branchesOverlap (hb_at s b1) (hb_at s b2) = true).
Proof.
  intros Hs. induction l as [|b1 l IH]; intros Hl Hall.
  - exists false. split; [done|]. split; [done|]. intros (b1 & b2 & Hb2%elem_of_nil & _). done.
  - destruct IH as (r & E & Hr); [intros; apply Hl; by apply list_elem_of_further|done|]. simpl.
    destruct (findOverlap1_spec s b1 all) as (r1 & E1 & Hr1); [done|apply Hl, list_elem_of_here|done|].
    rewrite E1, go_bind_Ret. destruct r1.
    + exists true. split; [done|]. split; [|done]. intros _.
      destruct (proj1 Hr1 eq_refl) as (b2 & ? & ? & ?). exists b1, b2.
      split; [apply list_elem_of_here|done].
    + exists r. split; [done|]. rewrite Hr. split.
      * intros (b & b2 & ? & ?). exists b, b2. split; [by apply list_elem_of_further|done].
      * intros (b & b2 & [->|Hb]%elem_of_cons & ?); [|by exists b, b2].
        assert (false = true) by (apply Hr1; by exists b2). done.
Qed.

(** What the event observes in the end, and the creators whose forks it
    observes. *)
Context (FK : Z -> Prop).
Definition obsE (b z : Z) : Prop := own b z \/ exists p, p ∈ P /\ obs p b z.

Record forks_ok : Prop := {
  fo_parent p k : p ∈ P -> fk p k -> FK k;
  fo_pair k b1 b2 z : creator_of bi b1 = Some k -> creator_of bi b2 = Some k -> b1 <> b2 ->
    obsE b1 z -> obsE b2 z -> FK k;
  fo_inv k : FK k -> (exists p, p ∈ P /\ fk p k) \/
    exists b1 b2 z, creator_of bi b1 = Some k /\ creator_of bi b2 = Some k /\ b1 <> b2 /\
                    obsE b1 z /\ obsE b2 z;
  fo_many k : FK k -> 0 <= k < nv /\ nv < nb bi;
  fo_contig b z1 z z2 : 0 <= b < nb bi -> obsE b z1 -> obsE b z2 -> z1 <= z <= z2 -> obsE b z
}.
Context (HF : forks_ok).

Lemma overlap_common b1 b2 (s1 s2 : BranchSeq) :
  0 <= b1 < nb bi -> 0 <= b2 < nb bi ->
  is_range (bs_MinSeq s1) (bs_Seq s1) (obsE b1) -> is_range (bs_MinSeq s2) (bs_Seq s2) (obsE b2) ->
  branchesOverlap s1 s2 = true <-> exists z, obsE b1 z /\ obsE b2 z.
Proof.
  intros R1 R2 [(E1 & E1' & H1)|(P1 & L1 & U1 & H1)] [(E2 & E2' & H2)|(P2 & L2 & U2 & H2)];
    unfold branchesOverlap.
  - rewrite E1. simpl. split; [done|]. intros (z & Hz & _). by apply H1 in Hz.
  - rewrite E1. simpl. split; [done|]. intros (z & Hz & _). by apply H1 in Hz.
  - rewrite E2. rewrite andb_false_r. simpl. split; [done|]. intros (z & _ & Hz). by apply H2 in Hz.
  - pose proof (H1 _ L1). pose proof (H2 _ L2). rewrite !andb_true_iff, !negb_true_iff, !Z.eqb_neq, !Z.leb_le.
    split.
    + intros [[_ Ha] Hb]. exists (Z.max (bs_MinSeq s1) (bs_MinSeq s2)).
      split; [apply (fo_contig HF b1 (bs_MinSeq s1) _ (bs_Seq s1))
             |apply (fo_contig HF b2 (bs_MinSeq s2) _ (bs_Seq s2))]; try done; lia.
    + intros (z & Hz1%H1 & Hz2%H2). lia.
Qed.

(** The marks and ranges after the creators before [n]. *)
Record detected (n : Z) (s c : bytes) : Prop := {
  dt_full : full s;
  dt_done b k : creator_of bi b = Some k -> k < n ->
    (FK k -> hb_at s b = forkDetectedSeq) /\
    (~ FK k -> is_range (bs_MinSeq (hb_at s b)) (bs_Seq (hb_at s b)) (obsE b)) /\
    (hb_at s b = forkDetectedSeq -> FK k);
  dt_todo b k : creator_of bi b = Some k -> n <= k ->
    (hb_at s b = forkDetectedSeq -> FK k /\ forall b', creator_of bi b' = Some k -> hb_at s b' = forkDetectedSeq) /\
    (hb_at s b <> forkDetectedSeq ->
       (forall p, p ∈ P -> ~ fk p k) /\
       is_range (bs_MinSeq (hb_at s b)) (bs_Seq (hb_at s b)) (obsE b));
  dt_clock b k : creator_of bi b = Some k -> ~ FK k ->
    bs_Seq (hb_at s b) <> 0 -> clock b (bs_Seq (hb_at s b)) (ht_at c b)
}.

Lemma merged_detected s c :
  merged (fun p b => p ∈ P /\ 0 <= b < nb bi) s c -> detected 0 s c.
Proof.
  intros [H1 H2 H3 H6 H7 H4 H5].
  assert (forall b k, creator_of bi b = Some k -> hb_at s b <> forkDetectedSeq ->
            forall p, p ∈ P -> ~ fk p k) as Hno.
  { intros b k Hk Hb p Hp Hfk. apply Hb. pose proof (bo_range _ _ Hbi _ _ Hk) as Hkr.
    destruct (po_first _ (HP p Hp) k Hkr Hfk) as [Hf _].
    pose proof (bo_first _ _ Hbi k Hkr) as Hkk.
    apply (H3 p k Hp) with (k := k); [|done..]. split; [done|]. by eapply creator_of_lt. }
  split; [done| | |].
  - intros b k Hk Hlt. pose proof (bo_range _ _ Hbi _ _ Hk). lia.
  - intros b k Hk _. split.
    + intros Hb. split; [|intros b' Hb'; by apply (H6 b b' k)].
      destruct (H7 b k Hk Hb) as (p & Hp & Hfk). by apply (fo_parent HF p).
    + intros Hb. pose proof (Hno b k Hk Hb) as Hn. split; [done|].
      eapply is_range_ext; [|by apply (H4 b k)]. intros z. unfold obsE.
      pose proof (creator_of_lt _ _ _ Hk). split.
      * intros [Ho|(p & Hp & _ & Ho)]; [by left|right; by exists p].
      * intros [Ho|(p & Hp & Ho)]; [by left|right; by exists p].
  - intros b k Hk Hn Hz. apply (H5 b k Hk); [|done]. intros p Hp Hfk. apply Hn. by apply (fo_parent HF p).
Qed.

Lemma detectForks_spec n s c :
  detected n s c -> 0 <= n < nv ->
  exists s', detectForks vv bi s n = Ret s' /\ detected (n + 1) s' c.
Proof.
  intros [Hs Hdn Htd Hcl] Hn. unfold detectForks.
  pose proof (bo_first _ _ Hbi n Hn) as Hnn.
  rewrite (HighestBeforeSeq_Get_spec s n (proj1 Hs)), go_bind_Ret by lia.
  destruct (IsForkDetected_spec (hb_at s n)) as [Hm|Hm].
  { exists s. split; [done|]. destruct (Htd n n Hnn ltac:(lia)) as [Hfk _].
    destruct (Hfk Hm) as [HFK Hall]. split; [done| | |done].
    - intros b k Hk Hlt. destruct (decide (k = n)) as [->|]; [|apply Hdn; [done|lia]].
      split_and!; [intros _; by apply Hall|done|done].
    - intros b k Hk Hle. apply Htd; [done|lia]. }
  destruct (by_creators vv bi n Hbi Hn) as (l & El & Hl). unfold slice_at. rewrite El, go_bind_Ret.
  assert (forall b, b ∈ l -> 0 <= b) as Hl0 by (intros b Hb%Hl; apply (creator_of_lt _ _ _ Hb)).
  destruct (findOverlap_spec s l l Hs Hl0 Hl0) as (r & E & Hr). rewrite E, go_bind_Ret.
  assert (forall b, creator_of bi b = Some n -> hb_at s b <> forkDetectedSeq) as Hnm.
  { intros b Hb Hbad. apply Hm. destruct (Htd b n Hb ltac:(lia)) as [Hf _]. by apply (Hf Hbad). }
  assert (forall b, creator_of bi b = Some n ->
            is_range (bs_MinSeq (hb_at s b)) (bs_Seq (hb_at s b)) (obsE b)) as Hrng.
  { intros b Hb. destruct (Htd b n Hb ltac:(lia)) as [_ Hf]. by apply Hf, Hnm. }
  assert (r = true <-> FK n) as HrFK.
  { rewrite Hr. split.
    - intros (b1 & b2 & Hb1%Hl & Hb2%Hl & Hne & Ho).
      apply (overlap_common b1 b2) in Ho as (z & Hz1 & Hz2);
        [by apply (fo_pair HF n b1 b2 z)|by eapply creator_of_lt..|by apply Hrng|by apply Hrng].
    - intros [(p & Hp & Hfk)|(b1 & b2 & z & Hb1 & Hb2 & Hne & Hz1 & Hz2)]%(fo_inv HF).
      + destruct (Htd n n Hnn ltac:(lia)) as [_ Hf]. by destruct (proj1 (Hf Hm) p Hp).
      + exists b1, b2. rewrite !Hl. split_and!; [done..|].
        apply (overlap_common b1 b2); [by eapply creator_of_lt..|by apply Hrng|by apply Hrng|by exists z]. }
  destruct r.
  - assert (FK n) as HFK by (by apply HrFK). destruct (fo_many HF n HFK) as [_ Hmany].
    destruct (setForkDetected_spec s n n Hs Hnn Hmany) as (s' & E' & Hs' & Hat).
    exists s'. split; [done|].
    assert (forall b k, creator_of bi b = Some k ->
              hb_at s' b = if decide (k = n) then forkDetectedSeq else hb_at s b) as Hat'.
    { intros b k Hk. rewrite Hat by (by apply (creator_of_lt _ _ _ Hk)). rewrite Hk.
      destruct (decide (k = n)) as [->|]; [by rewrite decide_True|by rewrite decide_False by congruence]. }
    split; [done| | |].
    + intros b k Hk Hlt. rewrite (Hat' b k Hk). case_decide as Ek; [by subst|]. apply Hdn; [done|lia].
    + intros b k Hk Hle. rewrite (Hat' b k Hk). rewrite decide_False by lia.
      destruct (Htd b k Hk ltac:(lia)) as [H1 H2]. split; [|done].
      intros Hb. destruct (H1 Hb) as [Hf Hall]. split; [done|]. intros b' Hb'.
      rewrite (Hat' b' k Hb'), decide_False by lia. by apply Hall.
    + intros b k Hk Hnf. rewrite (Hat' b k Hk). case_decide as Ek; [by subst|]. by apply (Hcl b k).
  - assert (~ FK n) as HnFK by (intros HF'%HrFK; done).
    exists s. split; [done|]. split; [done| | |done].
    + intros b k Hk Hlt. destruct (decide (k = n)) as [->|]; [|apply Hdn; [done|lia]].
      split_and!; [done|intros _; by apply Hrng|intros Hb; by apply Hnm in Hb].
    + intros b k Hk Hle. apply Htd; [done|lia].
Qed.

(** The whole search; when there are no more branches than validators it is
    skipped, and there is nothing to find. *)
Lemma detectAll_spec s c :
  merged (fun p b => p ∈ P /\ 0 <= b < nb bi) s c ->
  exists s', (if atLeastOneFork vv bi
              then go_fold (detectForks vv bi) s (seqZ 0 (u32 (Validators_Len vv)))
              else Ret s) = Ret s' /\ detected nv s' c.
Proof.
  intros Hm%merged_detected. rewrite atLeastOneFork_spec, (Validators_Len_nv vv Hvv).
  pose proof (nv_nonneg vv) as Hn0. pose proof (bo_nv _ _ Hbi) as Hnv.
  destruct (Z.ltb_spec nv (nb bi)) as [Hlt|Hge].
  - rewrite u32_id by (unfold is_u32; lia).
    destruct (go_fold_inv (detectForks vv bi) (fun dn s => detected (zlen dn) s c) (seqZ 0 nv) s)
      as (s' & E & Hs'); [done| |exists s'; split; [done|]].
    + intros dn n rest s1 El Hs1. destruct (seqZ_snoc_elem _ _ _ _ El) as [Hn _].
      assert (zlen dn = n) as En.
      { assert (seqZ 0 nv !! length dn = Some n) as Hl by (rewrite El; by apply list_lookup_middle).
        apply lookup_seqZ in Hl as [Hl _]. unfold zlen. lia. }
      rewrite En in Hs1. destruct (detectForks_spec n s1 c Hs1 Hn) as (s2 & E2 & Hs2).
      exists s2. split; [done|]. rewrite zlen_app, En. done.
    + unfold zlen in Hs' at 1. rewrite length_seqZ in Hs'. by rewrite Z2Nat.id in Hs' by lia.
  - exists s. split; [done|]. destruct Hm as [Hs Hdn Htd Hcl].
    assert (forall k, ~ FK k) as HnFK by (intros k Hk%(fo_many HF); lia).
    split; [done| | |done].
    + intros b k Hk _. pose proof (bo_range _ _ Hbi _ _ Hk).
      destruct (Htd b k Hk ltac:(lia)) as [H1 H2].
      split_and!; [intros Hf; by apply HnFK in Hf| |intros Hb; exact (proj1 (H1 Hb))].
      intros _. apply H2. intros Hb. exact (HnFK k (proj1 (H1 Hb))).
    + intros b k Hk Hle. pose proof (bo_range _ _ Hbi _ _ Hk). lia.
Qed.

End merge.
