(* ===== verification/VecWalk.v ===== *)
(** * The walk over the observed events: dfsSubgraph with onWalk

    Connecting an event marks, in the LowestAfter vectors of the events it
    observes, the branch of the event.  The walk stops at events that were
    marked before; since everything below a marked event is marked, nothing is
    missed.  Every event is expanded at most once, which bounds the rounds. *)

From S2P Require Import Prelude Bytes Kvdb Pos Event Vector VecStore VecIndex Dag VecInv.
(** Sums of natural weights over lists. *)
Fixpoint weight {A} (w : A -> nat) (l : list A) : nat :=
  match l with [] => 0%nat | x :: l => (w x + weight w l)%nat end.

Lemma weight_le {A} (w w' : A -> nat) l :
  (forall x, x ∈ l -> (w x <= w' x)%nat) -> (weight w l <= weight w' l)%nat.
Proof.
  induction l as [|a l IH]; intros H; simpl; [lia|].
  pose proof (H a (list_elem_of_here a l)). specialize (IH (fun x Hx => H x (list_elem_of_further _ _ _ Hx))). lia.
Qed.

Lemma weight_drop {A} (w w' : A -> nat) l y n :
  y ∈ l -> (forall x, x ∈ l -> (w x <= w' x)%nat) -> (w y + n <= w' y)%nat ->
  (weight w l + n <= weight w' l)%nat.
Proof.
  induction l as [|a l IH]; intros Hy H Hn; [by apply elem_of_nil in Hy|]. simpl.
  apply elem_of_cons in Hy as [->|Hy].
  - pose proof (weight_le w w' l (fun x Hx => H x (list_elem_of_further _ _ _ Hx))). lia.
  - pose proof (H a (list_elem_of_here a l)).
    specialize (IH Hy (fun x Hx => H x (list_elem_of_further _ _ _ Hx)) Hn). lia.
Qed.

Section walk.
Context (vv : Validators) (Hvv : validators_ok vv).
Context (getEvent : hash -> option EventHeaderData).
Context {T : Type} `{HT : VecStoreLaws T}.
Context (hs : list hash) (bi bi' : branchesInfo) (d f : VecData).
Context (Hinv : vec_inv vv getEvent hs bi d).
Context (e : EventHeaderData) (Hok : event_ok vv getEvent hs e).
Context (me : Z) (Hst : branch_step vv getEvent hs bi bi' d e me).
Context (Hbound : 8 * nb bi' < 2 ^ 32).

Abbreviation observes := (observes getEvent).
Abbreviation sq := (sq getEvent).

(** The mark of an event for the branch. *)
Definition mark (m : gmap hash bytes) (x : hash) : Z := la_at (default [] (m !! x)) me.

(** The events below [e]. *)
Definition below (x : hash) : Prop := exists p, p ∈ Parents e /\ observes p x.

Definition npar (x : hash) : nat :=
  match getEvent x with Some ex => length (Parents ex) | None => 0 end.

Lemma below_in x : below x -> x ∈ hs.
Proof.
  intros (p & Hp & Hx). eapply dag_closed; [apply (vi_dag _ _ _ _ _ Hinv)| |exact Hx].
  by apply (ek_parents _ _ _ _ Hok).
Qed.

Lemma me_range : 0 <= me < nb bi'.
Proof. pose proof (bst_range _ _ _ _ _ _ _ _ Hst). pose proof (bst_nb _ _ _ _ _ _ _ _ Hst). lia. Qed.

(** LowestAfter holds for any branch number, the one of a new branch too. *)
Lemma la_least_all x v b :
  x ∈ hs -> d_la d !! x = Some v -> 0 <= b -> is_least (la_at v b) (seers getEvent hs d x b).
Proof.
  intros Hx Hv Hb. destruct (vi_la _ _ _ _ _ Hinv x Hx) as (v' & Hv' & [H1 H2 H3]).
  rewrite Hv in Hv'. injection Hv' as <-.
  destruct (decide (b < nb bi)) as [Hlt|Hge]; [apply H3; lia|].
  left. split; [apply la_at_beyond; lia|]. intros z (y & Hy & _ & Hbr & _).
  pose proof (vec_inv_br_range _ _ _ _ _ _ (vi_branches _ _ _ _ _ Hinv) Hy). lia.
Qed.

Lemma la_some x : x ∈ hs -> exists v, d_la d !! x = Some v /\ vec_ok 4 v /\ LowestAfterSeq_Size v <= nb bi'.
Proof.
  intros Hx. destruct (vi_la _ _ _ _ _ Hinv x Hx) as (v & Hv & [H1 H2 H3]).
  exists v. pose proof (bst_nb _ _ _ _ _ _ _ _ Hst). split_and!; [done..|lia].
Qed.

(** Marks are closed downwards. *)
Lemma mark_below x y : x ∈ hs -> observes x y -> mark (d_la d) x <> 0 -> mark (d_la d) y <> 0.
Proof.
  intros Hx Hxy. assert (y ∈ hs) as Hy by (eapply dag_closed; [apply (vi_dag _ _ _ _ _ Hinv)|done|done]).
  destruct (la_some x Hx) as (v & Hv & _). destruct (la_some y Hy) as (w & Hw & _).
  unfold mark. rewrite Hv, Hw. simpl. pose proof me_range as Hme.
  destruct (la_least_all x v me Hx Hv ltac:(lia)) as [[E _]|(_ & (z & Hz & Hzx & Hbr & Hsq) & _)]; [done|].
  intros _. destruct (la_least_all y w me Hy Hw ltac:(lia)) as [[_ Hno]|[H0 _]]; [|lia].
  exfalso. apply (Hno (sq z)). exists z. split_and!; try done. by eapply observes_trans.
Qed.

Record walked (m : gmap hash bytes) (stack : list hash) : Prop := {
  wk_vec x : x ∈ hs -> exists v, m !! x = Some v /\ vec_ok 4 v /\ LowestAfterSeq_Size v <= nb bi' /\
    forall b, 0 <= b -> b <> me -> la_at v b = la_at (default [] (d_la d !! x)) b;
  wk_mark x : x ∈ hs -> mark m x = mark (d_la d) x \/
    (mark (d_la d) x = 0 /\ mark m x = Seq e /\ below x);
  wk_stack x : x ∈ stack -> below x;
  wk_closed x y : x ∈ hs -> mark (d_la d) x = 0 -> mark m x <> 0 -> parent getEvent x y ->
    y ∈ stack \/ mark m y <> 0;
  wk_parents p : p ∈ Parents e -> p ∈ stack \/ mark m p <> 0
}.

Lemma walked_init : walked (d_la d) (Parents e).
Proof.
  split.
  - intros x Hx. destruct (la_some x Hx) as (v & Hv & Hok4 & Hs). exists v. rewrite Hv. done.
  - by left.
  - intros x Hx. exists x. split; [done|]. apply observes_refl.
  - done.
  - by left.
Qed.

Definition unmarked_weight (m : gmap hash bytes) : nat :=
  weight (fun x => if decide (mark m x = 0) then npar x else 0%nat) hs.

Lemma Pop_app_inv stack curr rest :
  EventsStack_Pop stack = Some (curr, rest) -> stack = rest ++ [curr].
Proof.
  unfold EventsStack_Pop. destruct stack as [|a l _] using rev_ind; [done|].
  rewrite last_snoc, length_app. simpl. rewrite Nat.add_sub, take_app_length. by intros [= -> ->].
Qed.

Lemma Pop_None_inv stack : EventsStack_Pop stack = None -> stack = [].
Proof.
  unfold EventsStack_Pop. destruct stack as [|a l _] using rev_ind; [done|]. by rewrite last_snoc.
Qed.

(** One visit of a marked event: it leaves the stack. *)
Lemma walked_skip m rest curr :
  walked m (rest ++ [curr]) -> mark m curr <> 0 -> walked m rest.
Proof.
  intros [H1 H2 H3 H4 H5] Hc. split; try done.
  - intros x Hx. apply H3. set_solver.
  - intros x y Hx E0 Hm Hp. destruct (H4 x y Hx E0 Hm Hp) as [Hin|]; [|by right].
    apply elem_of_app in Hin as [|E%list_elem_of_singleton]; [by left|]. subst. by right.
  - intros p Hp. destruct (H5 p Hp) as [Hin|]; [|by right].
    apply elem_of_app in Hin as [|E%list_elem_of_singleton]; [by left|]. subst. by right.
Qed.

Lemma mark_insert m x v y : mark (<[x := v]> m) y = if decide (y = x) then la_at v me else mark m y.
Proof. unfold mark. rewrite lookup_insert. repeat case_decide; naive_solver. Qed.

(** One visit of an event that is not marked: it is marked, and its parents
    follow. *)
Lemma walked_visit m rest curr ec v v' :
  walked m (rest ++ [curr]) -> mark m curr = 0 -> getEvent curr = Some ec ->
  m !! curr = Some v -> vec_ok 4 v' -> LowestAfterSeq_Size v' <= nb bi' ->
  (forall b, 0 <= b -> la_at v' b = if decide (b = me) then Seq e else la_at v b) ->
  walked (<[curr := v']> m) (rest ++ Parents ec).
Proof.
  intros [H1 H2 H3 H4 H5] Hc Hec Hv Hv' Hsz Hat.
  pose proof me_range as Hme. pose proof (ek_seq _ _ _ _ Hok) as Hseq.
  assert (below curr) as Hbc by (apply H3; set_solver).
  assert (la_at v' me = Seq e) as Hme' by (rewrite Hat by lia; by rewrite decide_True).
  assert (forall y, mark m y <> 0 -> mark (<[curr := v']> m) y <> 0) as Hmono.
  { intros y Hy. rewrite mark_insert. case_decide; [lia|done]. }
  split.
  - intros x Hx. rewrite lookup_insert. case_decide as E; [|by apply H1]. subst x.
    exists v'. split_and!; try done. intros b Hb Hne. rewrite Hat, decide_False by done.
    destruct (H1 curr Hx) as (v2 & Hv2 & _ & _ & Hsame). rewrite Hv in Hv2. injection Hv2 as <-.
    by apply Hsame.
  - intros x Hx. rewrite mark_insert. case_decide as E; [|by apply H2]. subst x.
    right. destruct (H2 curr Hx) as [E|(E & _)]; [|done]. split; [congruence|done].
  - intros x [Hx|Hx]%elem_of_app; [apply H3; set_solver|].
    destruct Hbc as (p & Hp & Hpc). exists p. split; [done|].
    eapply observes_trans; [exact Hpc|]. eapply rtc_l; [by exists ec|apply rtc_refl].
  - intros x y Hx E0. rewrite mark_insert at 1. case_decide as E.
    + subst x. intros _ (ec' & Hec' & Hy). rewrite Hec in Hec'. injection Hec' as <-. left. set_solver.
    + intros Hm Hp. destruct (H4 x y Hx E0 Hm Hp) as [Hin|]; [|by right; apply Hmono].
      apply elem_of_app in Hin as [|Ey%list_elem_of_singleton]; [left; set_solver|]. subst y.
      right. rewrite mark_insert, decide_True by done. lia.
  - intros p Hp. destruct (H5 p Hp) as [Hin|]; [|by right; apply Hmono].
    apply elem_of_app in Hin as [|Ey%list_elem_of_singleton]; [left; set_solver|]. subst p.
    right. rewrite mark_insert, decide_True by done. lia.
Qed.

(** One call of the filter. *)
Lemma onWalk_spec m t x v :
  rep t (data_la d m) f -> m !! x = Some v -> vec_ok 4 v -> LowestAfterSeq_Size v <= nb bi' ->
  (mark m x <> 0 /\ exists t', onWalk me (Seq e) t x = Ret (false, t') /\ rep t' (data_la d m) f) \/
  (mark m x = 0 /\ exists t' v', onWalk me (Seq e) t x = Ret (true, t') /\
     rep t' (data_la d (<[x := v']> m)) f /\ vec_ok 4 v' /\ LowestAfterSeq_Size v' <= nb bi' /\
     forall b, 0 <= b -> la_at v' b = if decide (b = me) then Seq e else la_at v b).
Proof.
  intros Hrep Hv Hv4 Hsz. pose proof me_range as Hme. unfold onWalk.
  destruct (law_GetLowestAfterSeq t _ _ x Hrep) as (t1 & E1 & Hrep1).
  simpl in E1. rewrite Hv in E1. rewrite E1, go_bind_Ret. cbn [default from_option id].
  rewrite (LowestAfterSeq_Get_spec v me Hv4), go_bind_Ret by lia.
  assert (mark m x = la_at v me) as -> by (unfold mark; by rewrite Hv).
  destruct (Z.eqb_spec (la_at v me) 0) as [Hz|Hz]; cbn [negb]; [right|left; eauto].
  split; [done|]. pose proof (ek_seq _ _ _ _ Hok) as Hseq.
  destruct (LowestAfterSeq_Set_spec v me (Seq e) Hv4) as (v' & Es & Hv'4 & Hsz' & Hat);
    [lia|lia|word|].
  rewrite Es, go_bind_Ret.
  destruct (law_SetLowestAfter t1 _ _ x v' Hrep1) as (t2 & E2 & Hrep2).
  rewrite E2, go_bind_Ret. exists t2, v'. split_and!; try done. lia.
Qed.

Lemma dfs_spec fuel : forall m stack t,
  walked m stack -> (length stack + unmarked_weight m < fuel)%nat -> rep t (data_la d m) f ->
  exists t' m', dfsSubgraph getEvent (onWalk me (Seq e)) fuel stack t = Ret t' /\
    rep t' (data_la d m') f /\ walked m' [] /\ (forall x, x ∉ hs -> m' !! x = m !! x).
Proof.
  induction fuel as [|fuel IH]; intros m stack t Hw Hf Hrep; [lia|]. cbn [dfsSubgraph].
  destruct (EventsStack_Pop stack) as [[curr rest]|] eqn:Epop.
  2:{ apply Pop_None_inv in Epop as ->. exists t, m. done. }
  apply Pop_app_inv in Epop as ->. rewrite length_app in Hf. simpl in Hf.
  assert (below curr) as Hbc by (apply (wk_stack _ _ Hw); set_solver).
  pose proof (below_in curr Hbc) as Hin. pose proof me_range as Hme.
  destruct (wk_vec _ _ Hw curr Hin) as (v & Hv & Hv4 & Hsz & _).
  destruct (onWalk_spec m t curr v Hrep Hv Hv4 Hsz)
    as [(Hm & t1 & E1 & Hrep1)|(Hm & t1 & v' & E1 & Hrep1 & Hv'4 & Hsz' & Hat)];
    rewrite E1, go_bind_Ret; cbn [negb].
  { destruct (IH m rest t1) as (t3 & m3 & H3); [by eapply walked_skip|lia|done|]. by exists t3, m3. }
  destruct (dag_event _ _ _ _ (vi_dag _ _ _ _ _ Hinv) Hin) as (_ & ec & _ & _ & _ & Hec & _).
  rewrite Hec. unfold EventsStack_PushAll. pose proof (ek_seq _ _ _ _ Hok) as Hseq.
  assert (walked (<[curr := v']> m) (rest ++ Parents ec)) as Hw' by (by eapply walked_visit).
  destruct (IH _ _ t1 Hw') as (t3 & m3 & E3 & Hrep3 & Hw3 & Hout3); [|exact Hrep1|].
  { rewrite length_app.
    assert (unmarked_weight (<[curr := v']> m) + length (Parents ec) <= unmarked_weight m)%nat; [|lia].
    apply (weight_drop _ _ _ curr); [done| |].
    - intros x _. rewrite mark_insert. repeat case_decide; try lia. congruence.
    - rewrite mark_insert, (decide_True (P := curr = curr)) by done.
      rewrite Hat, (decide_True (P := me = me)) by (done || lia).
      rewrite decide_False by lia. rewrite decide_True by done. unfold npar. by rewrite Hec. }
  exists t3, m3. split; [done|]. split; [done|]. split; [done|].
  intros x Hx. rewrite Hout3 by done. rewrite lookup_insert_ne; [done|]. by intros ->.
Qed.

(** When the stack is empty, the marked events are those below, and those that
    were marked before. *)
Lemma walked_complete m x : walked m [] -> below x -> mark m x <> 0.
Proof.
  intros [H1 H2 H3 H4 H5] (p & Hp & Hx).
  assert (mark m p <> 0) as Hmp by (destruct (H5 p Hp) as [?%elem_of_nil|]; done).
  assert (p ∈ hs) as Hph by (by apply (ek_parents _ _ _ _ Hok)).
  revert Hmp Hph. clear Hp. induction Hx as [|y z x Hyz Hzx IH]; intros Hm Hh; [done|].
  assert (z ∈ hs) as Hz.
  { eapply dag_closed; [apply (vi_dag _ _ _ _ _ Hinv)|exact Hh|]. eapply rtc_l; [done|apply rtc_refl]. }
  apply IH; [|done]. destruct (decide (mark (d_la d) y = 0)) as [E0|E0].
  - destruct (H4 y z Hh E0 Hm Hyz) as [?%elem_of_nil|]; done.
  - assert (mark (d_la d) z <> 0) as Hmz.
    { eapply mark_below; [exact Hh| |done]. eapply rtc_l; [done|apply rtc_refl]. }
    destruct (H2 z Hz) as [->|(E & _)]; done.
Qed.

(** The rounds the walk may take. *)
Definition walk_fuel : nat := S (length (Parents e) + weight npar hs).

Lemma walk_spec fuel t :
  rep t d f -> (walk_fuel <= fuel)%nat ->
  exists t' m', dfsSubgraph getEvent (onWalk me (Seq e)) fuel (EventsStack_PushAll [] (Parents e)) t = Ret t' /\
    rep t' (data_la d m') f /\ (forall x, x ∉ hs -> m' !! x = d_la d !! x) /\
    forall x, x ∈ hs -> exists v v', d_la d !! x = Some v /\ m' !! x = Some v' /\
      vec_ok 4 v' /\ LowestAfterSeq_Size v' <= nb bi' /\
      (forall b, 0 <= b -> b <> me -> la_at v' b = la_at v b) /\
      (la_at v' me = la_at v me /\ (below x -> la_at v me <> 0) \/
       la_at v me = 0 /\ la_at v' me = Seq e /\ below x).
Proof.
  intros Hrep Hf. unfold EventsStack_PushAll. simpl.
  destruct (dfs_spec fuel (d_la d) (Parents e) t walked_init) as (t' & m' & E & Hrep' & Hw & Hout).
  { unfold walk_fuel in Hf. unfold unmarked_weight.
    assert (weight (fun x => if decide (mark (d_la d) x = 0%Z) then npar x else 0%nat) hs <= weight npar hs)%nat; [|lia].
    apply weight_le. intros x _. case_decide; lia. }
  { by destruct d. }
  exists t', m'. split; [done|]. split; [done|]. split; [done|]. intros x Hx.
  destruct (la_some x Hx) as (v & Hv & _). destruct (wk_vec _ _ Hw x Hx) as (v' & Hv' & H4 & Hsz & Hsame).
  exists v, v'. rewrite Hv in Hsame. split_and!; try done.
  destruct (wk_mark _ _ Hw x Hx) as [Em|(E0 & Em & Hb)]; unfold mark in *; rewrite ?Hv, ?Hv' in *; simpl in *.
  - left. split; [done|]. intros Hb. pose proof (walked_complete m' x Hw Hb) as Hm.
    unfold mark in Hm. rewrite Hv' in Hm. simpl in Hm. congruence.
  - by right.
Qed.

End walk.
