(* ===== verification/VecAdd.v ===== *)
(** * Connecting an event keeps the invariant: fillEventVectors, Add *)

From S2P Require Import Prelude Bytes Kvdb Pos Event Vector VecStore VecIndex Dag VecInv VecMerge VecWalk.
Section add.
Context (vv : Validators) (Hvv : validators_ok vv).
Context (getEvent : hash -> option EventHeaderData).
Context (hs : list hash) (bi bi' : branchesInfo) (d : VecData).
Context (Hinv : vec_inv vv getEvent hs bi d).
Context (h : hash) (e : EventHeaderData) (Hh : h ∉ hs) (He : getEvent h = Some e).
Context (Hok : event_ok vv getEvent hs e).
Context (me : Z) (Hst : branch_step vv getEvent hs bi bi' d e me).
Context (Hbound : 8 * nb bi' < 2 ^ 32).

Abbreviation observes := (observes getEvent).
Abbreviation cr := (cr vv getEvent).
Abbreviation sq := (sq getEvent).
Abbreviation ct := (ct getEvent).
Abbreviation sees_fork := (sees_fork vv getEvent).
Abbreviation nv := (zlen (Validators_SortedIDs vv)).

(** The new contents agree with the old ones on the branches of old events. *)
Context (d' : VecData) (Hbr' : d_br d' = <[h := me]> (d_br d)).

Lemma dag_new : dag vv getEvent (hs ++ [h]).
Proof. apply (dag_snoc _ _ hs h e); [apply (vi_dag _ _ _ _ _ Hinv)|done..]. Qed.

Lemma elem_new x : x ∈ hs ++ [h] <-> x ∈ hs \/ x = h.
Proof. by rewrite elem_of_app, list_elem_of_singleton. Qed.

Lemma br_old x : x ∈ hs -> br d' x = br d x.
Proof. intros Hx. unfold br. rewrite Hbr', lookup_insert_ne; [done|]. by intros ->. Qed.
Lemma br_new : br d' h = me.
Proof. unfold br. by rewrite Hbr', lookup_insert_eq. Qed.
Lemma sq_new : sq h = Seq e.
Proof. unfold Dag.sq. by rewrite He. Qed.
Lemma cr_new : cr h = Validators_GetIdx vv (Creator e).
Proof. unfold Dag.cr. by rewrite He. Qed.
Lemma ct_new : ct h = ClaimedTime e.
Proof. unfold Dag.ct. by rewrite He. Qed.

Lemma observes_new x : observes h x <-> x = h \/ below getEvent e x.
Proof. by apply observes_step. Qed.

Lemma observes_old x y : x ∈ hs -> observes x y -> y ∈ hs.
Proof. apply (dag_closed vv). apply (vi_dag _ _ _ _ _ Hinv). Qed.

Lemma me_lt : 0 <= me < nb bi'.
Proof. eapply me_range; exact Hst. Qed.
Lemma nb_le : nb bi <= nb bi' <= nb bi + 1.
Proof. pose proof (bst_range _ _ _ _ _ _ _ _ Hst). pose proof (bst_nb _ _ _ _ _ _ _ _ Hst). lia. Qed.

Lemma br_old_range x : x ∈ hs -> 0 <= br d x < nb bi.
Proof. apply (vec_inv_br_range vv getEvent). apply (vi_branches _ _ _ _ _ Hinv). Qed.

(** ** Branches *)

Lemma branches_new : branches_ok vv getEvent (hs ++ [h]) bi' d'.
Proof.
  pose proof (vi_branches _ _ _ _ _ Hinv) as Hb. destruct Hst as [_ _ _ Sme Scr Slast Sold Sbef].
  split.
  - intros x [Hx|Hx]%elem_new.
    + rewrite br_old by done. rewrite Hbr', lookup_insert_ne by (by intros ->).
      by apply (br_some _ _ _ _ _ Hb).
    + subst x. rewrite br_new, Hbr'. apply lookup_insert_eq.
  - intros x [Hx|Hx]%elem_new.
    + rewrite br_old, Scr by (done || by apply br_old_range). by apply (br_creator _ _ _ _ _ Hb).
    + subst x. by rewrite br_new, cr_new.
  - intros x y [Hx|Hx]%elem_new [Hy|Hy]%elem_new; subst; rewrite ?br_new, ?sq_new, ?br_old by done.
    + by apply (br_uniq _ _ _ _ _ Hb).
    + intros E1 E2. destruct (Sold x Hx E1). lia.
    + intros E1 E2. destruct (Sold y Hy (eq_sym E1)). lia.
    + done.
  - intros x y [Hx|Hx]%elem_new [Hy|Hy]%elem_new; subst; rewrite ?br_new, ?sq_new, ?br_old by done.
    + by apply (br_chain _ _ _ _ _ Hb).
    + intros E1 E2. destruct (Sold x Hx (eq_sym E1)). lia.
    + intros E1 E2. apply observes_new. right. by apply (Sold y Hy E1).
    + intros _ _. apply observes_refl.
  - intros x y z [Hx|Hx]%elem_new [Hy|Hy]%elem_new; subst; rewrite ?br_new, ?sq_new, ?br_old by done.
    + intros E1 Ez. destruct (br_contig _ _ _ _ _ Hb x y z Hx Hy E1 Ez) as (w & Hw & ? & ?).
      exists w. rewrite br_old, elem_new by done. auto.
    + intros E1 E2. destruct (Sold x Hx (eq_sym E1)). lia.
    + intros E1 Ez. destruct (decide (z = Seq e)) as [->|Hz].
      * exists h. rewrite br_new, sq_new, elem_new. auto.
      * destruct (Sbef y Hy E1) as (x0 & Hx0 & Ex0 & Es0).
        destruct (br_contig _ _ _ _ _ Hb x0 y z Hx0 Hy ltac:(congruence) ltac:(lia)) as (w & Hw & Ew & ?).
        exists w. rewrite br_old, elem_new by done. rewrite Ex0 in Ew. auto.
    + intros _ Ez. exists h. rewrite br_new, sq_new, elem_new. split_and!; [by right|done|lia].
  - intros b l Hl. destruct (Slast b l Hl) as [Hme Hne].
    pose proof (ek_seq _ _ _ _ Hok) as Hseq. destruct (decide (b = me)) as [->|Eb].
    + rewrite (Hme eq_refl). split_and!; [|intros _|lia].
      * intros x [Hx|Hx]%elem_new; [|subst; rewrite sq_new; lia].
        rewrite br_old by done. intros E. destruct (Sold x Hx E). lia.
      * exists h. rewrite br_new, sq_new, elem_new. auto.
    + destruct (br_last _ _ _ _ _ Hb b l (Hne Eb)) as (H1 & H2 & H3). split_and!; [| |done].
      * intros x [Hx|Hx]%elem_new; [rewrite br_old by done; by apply H1|].
        subst. rewrite br_new. congruence.
      * intros Hl0. destruct (H2 Hl0) as (x & Hx & ? & ?). exists x. rewrite br_old, elem_new by done. auto.
Qed.

(** ** Observed events *)

Lemma seen_old x b z : x ∈ hs -> seen getEvent d' x b z <-> seen getEvent d x b z.
Proof.
  intros Hx. split; intros (y & Hy & E & Ez); exists y.
  - rewrite br_old in E by (by eapply observes_old). done.
  - rewrite br_old by (by eapply observes_old). done.
Qed.

Lemma seen_new b z :
  seen getEvent d' h b z <->
  (b = me /\ z = Seq e) \/ exists p, p ∈ Parents e /\ seen getEvent d p b z.
Proof.
  split.
  - intros (x & [->|(p & Hp & Hx)]%observes_new & E & Ez).
    + left. rewrite br_new in E. rewrite sq_new in Ez. done.
    + right. exists p. split; [done|]. exists x. split; [done|].
      rewrite br_old in E; [done|]. eapply observes_old; [|done]. by apply (ek_parents _ _ _ _ Hok).
  - intros [[-> ->]|(p & Hp & x & Hx & E & Ez)].
    + exists h. split; [apply observes_refl|]. split; [apply br_new|apply sq_new].
    + exists x. split; [apply observes_new; right; by exists p|].
      rewrite br_old; [done|]. eapply observes_old; [|done]. by apply (ek_parents _ _ _ _ Hok).
Qed.

(** ** Old HighestBefore vectors *)

Lemma hb_ok_old x s c : x ∈ hs -> hb_ok vv getEvent bi d x s c -> hb_ok vv getEvent bi' d' x s c.
Proof.
  intros Hx [H1 H2 H3 H4 H5 H6 H7 H8]. pose proof nb_le as Hnb.
  assert (forall b, 0 <= b -> nb bi <= b -> hb_at s b = mkBranchSeq 0 0) as Hbeyond
    by (intros b Hb0 Hb; apply hb_at_beyond; lia).
  assert (forall b k, creator_of bi' b = Some k -> b < nb bi -> creator_of bi b = Some k) as Hcr.
  { intros b k Hk Hb. rewrite <-(bst_creator _ _ _ _ _ _ _ _ Hst); [done|].
    pose proof (creator_of_lt _ _ _ Hk). lia. }
  split; try done.
  - lia.
  - intros y Hy. rewrite br_old by (by eapply observes_old). by apply H4.
  - intros b Hb k Hk. apply H5; [done|]. apply Hcr; [done|lia].
  - intros b k Hk Hf. destruct (decide (b < nb bi)) as [Hlt|Hge].
    + apply (H6 b k); [by apply Hcr|done].
    + pose proof (creator_of_lt _ _ _ Hk). rewrite Hbeyond in Hf by lia. done.
  - intros b Hb k Hk Hnf. eapply is_range_ext; [intros z; symmetry; by apply seen_old|].
    destruct (decide (b < nb bi)) as [Hlt|Hge].
    + apply (H7 b ltac:(lia) k); [by apply Hcr|done].
    + rewrite Hbeyond by lia. apply is_range_empty. intros z (y & Hy & E & _).
      pose proof (H4 y Hy). lia.
  - intros b Hb k Hk Hnf y Hy. rewrite br_old by (by eapply observes_old). intros E Es.
    pose proof (H4 y Hy). apply (H8 b ltac:(lia) k); [apply Hcr; [done|lia]|done..].
Qed.

(** ** Old LowestAfter vectors *)

Lemma seers_new x b z : x ∈ hs ->
  seers getEvent (hs ++ [h]) d' x b z <->
  seers getEvent hs d x b z \/ (b = me /\ z = Seq e /\ below getEvent e x).
Proof.
  intros Hx. split.
  - intros (y & [Hy|Hy]%elem_new & Hyx & E & Ez).
    + left. exists y. rewrite br_old in E by done. done.
    + subst y. rewrite br_new in E. rewrite sq_new in Ez. right.
      apply observes_new in Hyx as [->|Hb]; [done|]. auto.
  - intros [(y & Hy & Hyx & E & Ez)|(-> & -> & Hb)].
    + exists y. rewrite br_old, elem_new by done. auto.
    + exists h. rewrite br_new, sq_new, elem_new, observes_new. auto.
Qed.

Lemma la_ok_old x v v' :
  x ∈ hs -> d_la d !! x = Some v -> vec_ok 4 v' -> LowestAfterSeq_Size v' <= nb bi' ->
  (forall b, 0 <= b -> b <> me -> la_at v' b = la_at v b) ->
  (la_at v' me = la_at v me /\ (below getEvent e x -> la_at v me <> 0) \/
   la_at v me = 0 /\ la_at v' me = Seq e /\ below getEvent e x) ->
  la_ok getEvent (hs ++ [h]) bi' d' x v'.
Proof.
  intros Hx Hv H4 Hsz Hsame Hmark. pose proof (ek_seq _ _ _ _ Hok) as Hseq. pose proof me_lt as Hme.
  split; [done..|]. intros b Hb.
  eapply is_least_ext; [intros z; symmetry; by apply seers_new|].
  pose proof (la_least_all vv getEvent hs bi d Hinv x v b Hx Hv ltac:(lia)) as Hl.
  destruct (decide (b = me)) as [->|Hne].
  2:{ rewrite Hsame by lia. eapply is_least_ext; [|exact Hl]. intros z. split; [by left|].
      intros [?|[? _]]; done. }
  destruct Hmark as [[-> Hb0]|(E0 & -> & Hbl)].
  - destruct Hl as [[E0 Hno]|(H0 & Hin & Hmin)].
    + left. split; [done|]. intros z [Hz|(_ & _ & Hbl)]; [by apply (Hno z)|by apply Hb0].
    + right. split_and!; [done|by left|]. intros z [Hz|(_ & -> & _)]; [by apply Hmin|].
      destruct Hin as (y & Hy & _ & Ey & Esy).
      destruct (bst_older _ _ _ _ _ _ _ _ Hst y Hy Ey) as [Hlt _]. lia.
  - right. destruct Hl as [[_ Hno]|(H0 & _ & _)]; [|lia].
    split; [lia|]. split; [by right|]. intros z [Hz|(_ & -> & _)]; [by destruct (Hno z)|lia].
Qed.

(** ** The vectors of the event *)

Lemma la_ok_own after :
  vec_ok 4 after -> LowestAfterSeq_Size after <= nb bi' ->
  (forall j, 0 <= j -> la_at after j = if decide (j = me) then Seq e else 0) ->
  la_ok getEvent (hs ++ [h]) bi' d' h after.
Proof.
  intros H4 Hsz Hat. split; [done..|]. intros b Hb. rewrite Hat by lia.
  pose proof (ek_seq _ _ _ _ Hok) as Hseq.
  assert (forall z, seers getEvent (hs ++ [h]) d' h b z <-> b = me /\ z = Seq e) as Hs.
  { intros z. split.
    - intros (y & [Hy|Hy]%elem_new & Hyh & E & Ez); [by apply (observes_old y h Hy) in Hyh|].
      subst y. rewrite br_new in E. rewrite sq_new in Ez. done.
    - intros [-> ->]. exists h. rewrite br_new, sq_new, elem_new. split_and!; auto. apply observes_refl. }
  eapply is_least_ext; [intros z; symmetry; apply Hs|].
  case_decide as E; [right|left].
  - split; [lia|]. split; [done|]. intros z [_ ->]. lia.
  - split; [done|]. intros z [? _]. done.
Qed.

Definition pvec (p : hash) : parentVecs :=
  mkParentVecs (default [] (d_hbs d !! p)) (default [] (d_hbt d !! p)).

(** The time that the event [z] of branch [b] claims. *)
Definition clock (b z t : Z) : Prop :=
  forall x, x ∈ hs ++ [h] -> br d' x = b -> sq x = z -> ct x = t.

Lemma parents_ok p : p ∈ Parents e ->
  parent_ok vv bi' pvec (fun p k => sees_fork p k) (seen getEvent d) clock p.
Proof.
  intros Hp. assert (p ∈ hs) as Hph by (by apply (ek_parents _ _ _ _ Hok)).
  destruct (vi_hb _ _ _ _ _ Hinv p Hph) as (s & c & Es & Ec & Hhb).
  apply (hb_ok_old p s c Hph) in Hhb. destruct Hhb as [H1 H2 H3 H4 H5 H6 H7 H8].
  unfold pvec. split; cbn [pv_seq pv_time]; rewrite ?Es, ?Ec; cbn [default from_option id]; try done.
  - intros k Hk Hf. split; [apply (H5 k) with (k := k); [lia| |done]|].
    + by apply (bo_first _ _ (bst_bi _ _ _ _ _ _ _ _ Hst)).
    + eapply sees_fork_branches; [apply dag_new|apply (bst_bi _ _ _ _ _ _ _ _ Hst)|apply branches_new|
        |exact Hf]. by apply elem_new; left.
  - intros b k Hk Hnf. eapply is_range_ext; [intros z; by apply seen_old|].
    apply (H7 b (creator_of_lt _ _ _ Hk) k Hk Hnf).
  - intros b k Hk Hnf Hz x Hx Ex Es'.
    pose proof (H7 b (creator_of_lt _ _ _ Hk) k Hk Hnf) as Hr.
    destruct Hr as [(E0 & _)|(_ & _ & (y & Hy & Ey & Esy) & _)]; [done|].
    assert (y ∈ hs) as Hyh by (by eapply observes_old).
    assert (x = y) as ->.
    { apply (br_uniq _ _ _ _ _ branches_new); [done|by apply elem_new; left|congruence|congruence]. }
    symmetry. by apply (H8 b (creator_of_lt _ _ _ Hk) k Hk Hnf y).
Qed.

Lemma new_forks_ok :
  forks_ok vv bi' (Parents e) (fun p k => sees_fork p k) (seen getEvent d)
    (fun b z => b = me /\ z = Seq e) (fun k => sees_fork h k).
Proof.
  pose proof (bst_bi _ _ _ _ _ _ _ _ Hst) as Hbi'. pose proof branches_new as Hb'.
  assert (h ∈ hs ++ [h]) as Hin by (by apply elem_new; right).
  assert (forall b z, obsE (Parents e) (seen getEvent d) (fun b z => b = me /\ z = Seq e) b z
            <-> seen getEvent d' h b z) as HE by (intros b z; symmetry; apply seen_new).
  split.
  - intros p k Hp (x & y & Hx & Hy & Hf). exists x, y.
    split_and!; [apply observes_new; right; by exists p..|done].
  - intros k b1 b2 z Hb1 Hb2 Hne (x & Hx & Ex & Esx)%HE (y & Hy & Ey & Esy)%HE.
    exists x, y. split_and!; [done..|].
    pose proof (br_creator _ _ _ _ _ Hb' x (dag_closed _ _ _ _ _ dag_new Hin Hx)) as Cx.
    pose proof (br_creator _ _ _ _ _ Hb' y (dag_closed _ _ _ _ _ dag_new Hin Hy)) as Cy.
    rewrite Ex, Hb1 in Cx. rewrite Ey, Hb2 in Cy. split; [|split_and!; congruence].
    intros ->. congruence.
  - intros k (x & y & Hx & Hy & Hf). right.
    destruct (fork_branches _ _ _ _ _ _ _ _ Hbi' Hb' (dag_closed _ _ _ _ _ dag_new Hin Hx)
                (dag_closed _ _ _ _ _ dag_new Hin Hy) Hf) as (Hne & Cx & Cy & _).
    exists (br d' x), (br d' y), (sq x). split_and!; try done; apply HE; [by exists x|].
    exists y. split_and!; try done. by destruct Hf as (_ & _ & _ & ->).
  - intros k Hf. destruct (sees_fork_branches _ _ _ _ _ _ _ dag_new Hbi' Hb' Hin Hf). done.
  - intros b z1 z z2 Hb (x & Hx & Ex & Esx)%HE (y & Hy & Ey & Esy)%HE Hz. apply HE.
    pose proof (dag_closed _ _ _ _ _ dag_new Hin Hx) as Hxh.
    pose proof (dag_closed _ _ _ _ _ dag_new Hin Hy) as Hyh.
    destruct (br_contig _ _ _ _ _ Hb' y x z Hyh Hxh ltac:(congruence) ltac:(lia)) as (w & Hw & Ew & Esw).
    exists w. split_and!; [|congruence|done]. eapply observes_trans; [exact Hy|].
    apply (br_chain _ _ _ _ _ Hb'); [done..|congruence|lia].
Qed.

Lemma new_vec8 n : 0 <= n -> 8 * n < 2 ^ 32 ->
  vec_ok 8 (NewHighestBeforeSeq n) /\ vec_ok 8 (NewHighestBeforeTime n) /\
  HighestBeforeSeq_Size (NewHighestBeforeSeq n) = n.
Proof.
  intros Hn Hb. pose proof (vec_ok_new 8 ltac:(lia) n Hn Hb) as Hv.
  split; [exact Hv|]. split; [exact Hv|]. unfold HighestBeforeSeq_Size, NewHighestBeforeSeq, zlen.
  rewrite length_replicate, Z2Nat.id by lia. apply Z.div_mul. lia.
Qed.

(** The event's own entry, before the parents. *)
Lemma own_merged s0 c0 :
  full bi' s0 -> vec_ok 8 c0 ->
  (forall j, 0 <= j -> hb_at s0 j = if decide (j = me) then mkBranchSeq (Seq e) (Seq e) else mkBranchSeq 0 0) ->
  (forall j, 0 <= j -> ht_at c0 j = if decide (j = me) then ClaimedTime e else 0) ->
  merged bi' (Parents e) pvec (fun p k => sees_fork p k) (seen getEvent d)
    (fun b z => b = me /\ z = Seq e) clock (fun _ _ => False) s0 c0.
Proof.
  intros Hs Hc Hat Htm. pose proof (ek_seq _ _ _ _ Hok) as Hseq.
  assert (forall b k, creator_of bi' b = Some k -> hb_at s0 b <> forkDetectedSeq) as Hnf.
  { intros b k Hk. rewrite Hat by (apply (creator_of_lt _ _ _ Hk)).
    case_decide; [|done]. unfold forkDetectedSeq. intros [=]. lia. }
  split; try done.
  - intros b b' k Hb _ Hf. by destruct (Hnf b k Hb Hf).
  - intros b k Hb Hf. by destruct (Hnf b k Hb Hf).
  - intros b k Hb _. pose proof (creator_of_lt _ _ _ Hb). rewrite Hat by lia.
    case_decide as E; simpl.
    + eapply is_range_ext; [|apply (is_range_one (Seq e)); lia]. intros z. split; [by left|].
      intros [[_ ?]|(p & _ & [] & _)]. done.
    + apply is_range_empty. intros z [[? _]|(p & _ & [] & _)]. done.
  - intros b k Hb _. pose proof (creator_of_lt _ _ _ Hb). rewrite Hat, Htm by lia.
    case_decide as E; simpl; [|done]. subst b. intros _ x Hx Ex Es. rewrite <-ct_new. f_equal.
    apply (br_uniq _ _ _ _ _ branches_new); [done|by apply elem_new; right|by rewrite br_new|by rewrite sq_new].
Qed.

Lemma eventVectors_spec :
  exists s c, eventVectors vv bi' (nb bi) me e (pvec <$> Parents e) = Ret (s, c) /\
    hb_ok vv getEvent bi' d' h s c.
Proof.
  pose proof (bst_bi _ _ _ _ _ _ _ _ Hst) as Hbi'. pose proof me_lt as Hme. pose proof nb_le as Hnb.
  pose proof (ek_seq _ _ _ _ Hok) as Hseq. pose proof (zlen_nonneg (BranchIDCreatorIdxs bi)) as Hn0.
  fold (nb bi) in Hn0. destruct (new_vec8 (nb bi) Hn0 ltac:(lia)) as (Hv1 & Hv2 & Hz).
  unfold eventVectors.
  destruct (HighestBeforeSeq_Set_spec _ me (mkBranchSeq (Seq e) (Seq e)) Hv1)
    as (s0 & -> & Hs0 & Hz0 & Hat0); [lia|lia|simpl; word|simpl; word|].
  destruct (HighestBeforeTime_Set_spec _ me (ClaimedTime e) Hv2)
    as (c0 & -> & Hc0 & _ & Htm0); [lia|lia|apply (ek_time _ _ _ _ Hok)|].
  rewrite !go_bind_Ret.
  assert (full bi' s0) as Hf0.
  { split; [done|]. rewrite Hz0, Hz. symmetry. apply (bst_nb _ _ _ _ _ _ _ _ Hst). }
  assert (merged bi' (Parents e) pvec (fun p k => sees_fork p k) (seen getEvent d)
            (fun b z => b = me /\ z = Seq e) clock (fun _ _ => False) s0 c0) as Hm0.
  { apply own_merged; try done; intros j Hj; rewrite ?Hat0, ?Htm0 by done;
      case_decide; [done|apply hb_at_new|done|apply ht_at_new]. }
  destruct (mergeParents_spec vv Hvv bi' Hbi' Hbound _ _ _ _ _ _ parents_ok s0 c0 Hm0) as (s1 & c1 & -> & Hm1).
  rewrite go_bind_Ret.
  destruct (detectAll_spec vv Hvv bi' Hbi' Hbound _ _ _ _ _ _ parents_ok _ new_forks_ok s1 c1 Hm1)
    as (s2 & -> & Hd). rewrite go_bind_Ret.
  exists s2, c1. split; [done|]. destruct Hd as [[Hs2 Hz2] Hdn _ Hcl].
  assert (forall b k, creator_of bi' b = Some k -> k < nv) as Hk by (intros b k Hb; by apply (bo_range _ _ Hbi' b)).
  split; try done.
  - apply (mg_time _ _ _ _ _ _ _ _ _ _ Hm1).
  - rewrite Hz2. pose proof (bo_nv _ _ Hbi'). lia.
  - intros x Hx. rewrite Hz2. eapply creator_of_lt, (br_creator _ _ _ _ _ branches_new).
    eapply dag_closed; [apply dag_new| |done]. by apply elem_new; right.
  - intros b _ k Hb Hf. by apply (Hdn b k Hb (Hk b k Hb)).
  - intros b k Hb Hf. by apply (Hdn b k Hb (Hk b k Hb)).
  - intros b _ k Hb Hnf. eapply is_range_ext; [|by apply (Hdn b k Hb (Hk b k Hb))].
    intros z. symmetry. apply seen_new.
  - intros b _ k Hb Hnf x Hx Ex Es.
    assert (x ∈ hs ++ [h]) as Hxh by (eapply dag_closed; [apply dag_new|by apply elem_new; right|done]).
    symmetry. apply (Hcl b k Hb Hnf); [|done..]. rewrite <-Es.
    pose proof (dag_cr vv getEvent _ x Hvv dag_new Hxh) as [_ ?]. lia.
Qed.

End add.

Section index_add.
Context (vv : Validators) (Hvv : validators_ok vv).
Context (getEvent : hash -> option EventHeaderData) (event_Hash : EventHeaderData -> hash).
Context {T F : Type} `{HT : VecStoreLaws T} `{Lru (hash * hash) bool F}.
Abbreviation nv := (zlen (Validators_SortedIDs vv)).

(** The index [vi] holds the connected events [hs]: the branches are loaded,
    or they are the stored ones (the initial ones, when none are stored). *)
Record index_ok (vi : Index T F) (hs : list hash) (d f : VecData) : Prop := {
  ix_vv : vi_validators vi = vv;
  ix_rep : rep (vi_store vi) d f;
  ix_inv : exists bi, vec_inv vv getEvent hs bi d /\
    bi = match vi_bi vi with
         | Some bi => bi
         | None => default (newInitialBranchesInfo vv) (d_bi d)
         end
}.

Lemma initBranchesInfo_spec (vi : Index T F) hs d f :
  index_ok vi hs d f ->
  exists bi, initBranchesInfo vi = Ret (set_bi vi (Some bi)) /\ vec_inv vv getEvent hs bi d /\
    (vi_bi vi = None \/ vi_bi vi = Some bi).
Proof.
  intros [Ev Hr (bi & Hi & Eb)]. exists bi. unfold initBranchesInfo.
  destruct (vi_bi vi) as [bi0|] eqn:E; subst bi.
  - split; [|auto]. unfold set_bi. rewrite <-E. by destruct vi.
  - rewrite (law_getBranchesInfo _ _ _ Hr), go_bind_Ret. split; [|auto].
    rewrite Ev. by destruct (d_bi d).
Qed.

Lemma loadParents_spec d f ps t0 :
  rep t0 d f ->
  (forall p, p ∈ ps -> is_Some (d_br d !! p) /\ is_Some (d_hbs d !! p)) ->
  exists t', go_fold loadParent ([], t0) ps = Ret (pvec d <$> ps, t') /\ rep t' d f.
Proof.
  intros Hr Hps.
  destruct (go_fold_inv loadParent (fun dn st => st.1 = pvec d <$> dn /\ rep st.2 d f) ps ([], t0))
    as ([acc t'] & E & Ea & Hr'); [done| |simpl in *; subst; by exists t'].
  intros dn p rest [acc t] El [Ea Ht]. simpl in *. subst acc.
  destruct (Hps p) as [[b Hb] [s Hs]]; [rewrite El; set_solver|].
  unfold loadParent. rewrite (law_getEventBranchID _ _ _ p Ht), Hb, go_bind_Ret.
  destruct (law_GetHighestBeforeSeq t d f p Ht) as (t1 & E1 & H1). rewrite E1, go_bind_Ret.
  destruct (law_GetHighestBeforeTime t1 d f p H1) as (t2 & E2 & H2). rewrite E2, go_bind_Ret, Hs.
  eexists. split; [done|]. split; [|done]. simpl. rewrite fmap_app. simpl. unfold pvec at 3.
  by rewrite Hs.
Qed.

(** The contents after the event [h] was connected. *)
Definition connected (d : VecData) (m : gmap hash bytes) (h : hash) (me : Z) (s c after : bytes) : VecData :=
  mkVecData (<[h := s]> (d_hbs d)) (<[h := c]> (d_hbt d)) (<[h := after]> m) (<[h := me]> (d_br d)) (d_bi d).

(** Of the contents, the vectors of an event depend on the branches only. *)
Lemma hb_ok_br bi d1 d2 h s c :
  d_br d1 = d_br d2 -> hb_ok vv getEvent bi d1 h s c -> hb_ok vv getEvent bi d2 h s c.
Proof.
  intros E [H1 H2 H3 H4 H5 H6 H7 H8].
  assert (forall x, br d1 x = br d2 x) as Eb by (intros x; unfold br; by rewrite E).
  assert (forall b z, seen getEvent d1 h b z <-> seen getEvent d2 h b z) as Es.
  { intros b z. unfold seen. setoid_rewrite Eb. done. }
  split; try done.
  - intros x Hx. rewrite <-Eb. by apply H4.
  - intros b Hb k Hk Hn. eapply is_range_ext; [apply Es|]. by apply (H7 b Hb k).
  - intros b Hb k Hk Hn x Hx. rewrite <-Eb. by apply (H8 b Hb k).
Qed.

Lemma fillEventVectors_spec fuel (vi : Index T F) (hs : list hash) bi d f h e :
  vi_validators vi = vv -> vi_bi vi = Some bi -> rep (vi_store vi) d f ->
  vec_inv vv getEvent hs bi d ->
  h ∉ hs -> getEvent h = Some e -> event_Hash e = h -> event_ok vv getEvent hs e ->
  8 * (nv + zlen hs + 1) < 2 ^ 32 -> (walk_fuel getEvent hs e <= fuel)%nat ->
  exists vi' bi' d', fillEventVectors getEvent event_Hash fuel vi e = Ret vi' /\
    vi_validators vi' = vv /\ vi_bi vi' = Some bi' /\ c_ForklessCause vi' = c_ForklessCause vi /\
    rep (vi_store vi') d' f /\ d_bi d' = d_bi d /\ vec_inv vv getEvent (hs ++ [h]) bi' d'.
Proof.
  intros Hvi Hbi Hr Hinv Hh He Ehash Hok Hbnd Hfuel.
  pose proof (vi_bound _ _ _ _ _ Hinv) as Hnb0.
  destruct (fillGlobalBranchID_spec vv Hvv getEvent vi hs bi d f e Hinv Hok Hr Hbi Hvi ltac:(lia))
    as (me & bi' & Efill & Hst).
  pose proof (nb_le vv getEvent hs bi bi' d e me Hst) as Hnb.
  assert (8 * nb bi' < 2 ^ 32) as Hbound by lia.
  unfold fillEventVectors, use_bi. rewrite Hbi, go_bind_Ret, Hvi, Efill, go_bind_Ret.
  cbn [vi_bi set_bi vi_store vi_validators]. rewrite go_bind_Ret.
  destruct (loadParents_spec d f (Parents e) (vi_store vi) Hr) as (t1 & E1 & Hr1).
  { intros p Hp%(ek_parents _ _ _ _ Hok). split.
    - rewrite (br_some _ _ _ _ _ (vi_branches _ _ _ _ _ Hinv) p Hp). eauto.
    - destruct (vi_hb _ _ _ _ _ Hinv p Hp) as (s & c & -> & _). eauto. }
  rewrite E1, go_bind_Ret. fold (nb bi).
  pose proof (me_lt vv getEvent hs bi bi' d e me Hst) as Hme. pose proof (ek_seq _ _ _ _ Hok) as Hseq.
  pose proof (zlen_nonneg (BranchIDCreatorIdxs bi)) as Hn0. fold (nb bi) in Hn0.
  assert (vec_ok 4 (NewLowestAfterSeq (nb bi))) as Hv4 by (apply (vec_ok_new 4 ltac:(lia)); lia).
  destruct (LowestAfterSeq_Set_spec _ me (Seq e) Hv4) as (after & Ea & Ha4 & Hasz & Haat);
    [lia|lia|word|]. rewrite Ea, go_bind_Ret.
  assert (LowestAfterSeq_Size (NewLowestAfterSeq (nb bi)) = nb bi) as Hsz0.
  { unfold LowestAfterSeq_Size, NewLowestAfterSeq, zlen. rewrite length_replicate, Z2Nat.id by lia.
    apply Z.div_mul. lia. }
  destruct (walk_spec vv Hvv getEvent hs bi bi' d f Hinv e Hok me Hst Hbound fuel t1 Hr1 Hfuel)
    as (t2 & m & Ew & Hr2 & Hout & Hwalk).
  assert (exists s c, eventVectors vv bi' (nb bi) me e (pvec d <$> Parents e) = Ret (s, c) /\
            hb_ok vv getEvent bi' (connected d m h me s c after) h s c) as (s & c & Ev & Hhb).
  { destruct (eventVectors_spec vv Hvv getEvent hs bi bi' d Hinv h e Hh He Hok me Hst Hbound
                (connected d m h me [] [] after) eq_refl) as (s & c & Ev & Hhb).
    exists s, c. split; [done|]. by eapply hb_ok_br; [|exact Hhb]. }
  rewrite Hvi, Ev, go_bind_Ret, Ew, go_bind_Ret, Ehash.
  destruct (law_SetHighestBefore t2 _ f h s c Hr2) as (t3 & E3 & Hr3). rewrite E3, go_bind_Ret.
  destruct (law_SetLowestAfter t3 _ f h after Hr3) as (t4 & E4 & Hr4). rewrite E4, go_bind_Ret.
  destruct (law_setEventBranchID t4 _ f h me Hr4 ltac:(unfold is_u32; lia)) as (t5 & E5 & Hr5).
  rewrite E5, go_bind_Ret.
  eexists _, bi', (connected d m h me s c after). split; [done|]. cbn [set_store set_bi vi_bi vi_validators c_ForklessCause vi_store].
  split; [done|]. split; [done|]. split; [done|]. split; [exact Hr5|]. split; [done|].
  assert (d_br (connected d m h me s c after) = <[h := me]> (d_br d)) as Hbr' by done.
  split.
  - by eapply dag_new.
  - apply (bst_bi _ _ _ _ _ _ _ _ Hst).
  - rewrite zlen_app. change (zlen [h]) with 1. lia.
  - by eapply branches_new.
  - intros x [Hx|Hx]%elem_new.
    + destruct (vi_hb _ _ _ _ _ Hinv x Hx) as (sx & cx & Esx & Ecx & Hx').
      exists sx, cx. cbn [connected d_hbs d_hbt]. rewrite !lookup_insert_ne by (by intros ->).
      split_and!; [done..|].
      by eapply hb_ok_old.
    + subst x. exists s, c. cbn [connected d_hbs d_hbt]. by rewrite !lookup_insert_eq.
  - intros x [Hx|Hx]%elem_new.
    + destruct (Hwalk x Hx) as (v & v' & Hv & Hv' & H4 & Hs4 & Hsame & Hmark).
      exists v'. cbn [connected d_la]. rewrite lookup_insert_ne by (by intros ->). split; [done|].
      by eapply la_ok_old.
    + subst x. exists after. cbn [connected d_la]. rewrite lookup_insert_eq. split; [done|].
      eapply la_ok_own; [done..|lia|].
      intros j Hj. rewrite Haat by done. case_decide; [done|]. apply la_at_new.
  - intros x Hx. cbn [connected d_hbs]. rewrite elem_new in Hx.
    rewrite lookup_insert_ne by naive_solver. apply (vi_fresh _ _ _ _ _ Hinv). tauto.
Qed.

(** Adding a new event. *)
Lemma Add_spec fuel (vi : Index T F) hs d f h e :
  index_ok vi hs d f ->
  h ∉ hs -> getEvent h = Some e -> event_Hash e = h -> event_ok vv getEvent hs e ->
  8 * (nv + zlen hs + 1) < 2 ^ 32 -> (walk_fuel getEvent hs e <= fuel)%nat ->
  exists vi' d', Add getEvent event_Hash fuel vi e = Ret vi' /\
    index_ok vi' (hs ++ [h]) d' f /\ is_Some (vi_bi vi') /\
    c_ForklessCause vi' = c_ForklessCause vi /\ d_bi d' = d_bi d.
Proof.
  intros Hix Hh He Ehash Hok Hbnd Hfuel. unfold Add.
  destruct (law_GetHighestBeforeSeq _ d f (event_Hash e) (ix_rep _ _ _ _ Hix)) as (t1 & -> & Hr1).
  rewrite go_bind_Ret.
  assert (index_ok (set_store vi t1) hs d f) as Hix1 by (destruct Hix; by split).
  destruct (initBranchesInfo_spec _ _ _ _ Hix1) as (bi & Ei & Hinv & _).
  rewrite Ehash, (vi_fresh _ _ _ _ _ Hinv h Hh), Ei, go_bind_Ret.
  destruct (fillEventVectors_spec fuel (set_bi (set_store vi t1) (Some bi)) hs bi d f h e)
    as (vi' & bi' & d' & E & Hv & Hb & Hc & Hr' & Hd & Hinv'); try done; [apply (ix_vv _ _ _ _ Hix)|].
  exists vi', d'. split; [done|]. rewrite Hb. split_and!; [|eauto|done|done].
  split; [done|done|]. exists bi'. rewrite Hb. done.
Qed.

(** Adding an event again changes nothing. *)
Lemma Add_again_spec fuel (vi : Index T F) hs d f e :
  index_ok vi hs d f -> event_Hash e ∈ hs ->
  exists vi', Add getEvent event_Hash fuel vi e = Ret vi' /\ index_ok vi' hs d f.
Proof.
  intros Hix Hin. unfold Add.
  destruct (law_GetHighestBeforeSeq _ d f (event_Hash e) (ix_rep _ _ _ _ Hix)) as (t1 & -> & Hr1).
  rewrite go_bind_Ret. destruct Hix as [Hv Hr (bi & Hinv & Hb)].
  destruct (vi_hb _ _ _ _ _ Hinv _ Hin) as (s & c & -> & _). eexists. split; [done|].
  split; [done|done|]. by exists bi.
Qed.

(** The invariant does not depend on the stored branches. *)
Lemma vec_inv_bi hs bi d x : vec_inv vv getEvent hs bi d -> vec_inv vv getEvent hs bi (data_bi d x).
Proof.
  intros [H1 H2 H3 H4 H5 H6 H7]. split; try done.
  - destruct H4 as [B1 B2 B3 B4 B5 B6]. by split.
  - intros h Hh. destruct (H5 h Hh) as (s & c & Es & Ec & Hb). exists s, c.
    split_and!; [done..|]. by eapply hb_ok_br; [|exact Hb].
  - intros h Hh. destruct (H6 h Hh) as (v & Ev & [L1 L2 L3]). exists v. split; [done|]. by split.
Qed.

(** Flushing keeps the contents and makes them the ones to go back to. *)
Lemma Flush_spec (vi : Index T F) hs d f :
  index_ok vi hs d f -> exists vi' d', Flush vi = Ret vi' /\ index_ok vi' hs d' d' /\
    c_ForklessCause vi' = c_ForklessCause vi /\
    vec_inv vv getEvent hs (default (newInitialBranchesInfo vv) (d_bi d')) d'.
Proof.
  intros [Hv Hr (bi & Hinv & Hb)]. unfold Flush.
  destruct (vi_bi vi) as [bi0|] eqn:E; subst bi.
  - destruct (law_setBranchesInfo _ d f bi0 Hr) as (t1 & -> & Hr1). rewrite go_bind_Ret.
    destruct (law_Flush _ _ _ Hr1) as (t2 & -> & Hr2). rewrite go_bind_Ret.
    assert (vec_inv vv getEvent hs bi0 (data_bi d (Some bi0))) as Hinv' by (by apply vec_inv_bi).
    exists (set_store vi t2), (data_bi d (Some bi0)). split; [done|]. split; [|done].
    split; [done|exact Hr2|]. exists bi0. split; [done|simpl; by rewrite E].
  - rewrite go_bind_Ret. destruct (law_Flush _ _ _ Hr) as (t2 & -> & Hr2). rewrite go_bind_Ret.
    exists (set_store vi t2), d. split; [done|]. split; [|done]. split; [done|exact Hr2|].
    eexists. split; [exact Hinv|]. simpl. by rewrite E.
Qed.

(** Dropping goes back to the contents that were flushed. *)
Lemma DropNotFlushed_spec (vi : Index T F) hs hs0 d f :
  index_ok vi hs d f ->
  vec_inv vv getEvent hs0 (default (newInitialBranchesInfo vv) (d_bi f)) f ->
  exists vi', DropNotFlushed vi = Ret vi' /\ index_ok vi' hs0 f f /\
    c_ForklessCause vi' = c_ForklessCause vi.
Proof.
  intros [Hv Hr _] Hinv. unfold DropNotFlushed.
  destruct (law_DropNotFlushed _ _ _ Hr) as (t & -> & Hr1). rewrite go_bind_Ret.
  eexists. split; [done|]. split; [|done]. split; [done|done|]. by eexists.
Qed.

End index_add.
