(* ===== verification/ForklessCause.v ===== *)
(** * Forkless cause: vector/forkless_cause.go against the graph of events

    [forkless_cause a b] is the meaning of the relation, in terms of what the
    events observe.  The index computes it; it does not depend on what is
    connected later, which is why its results may be cached; and two forks
    cannot both be a forkless cause unless a third of the stake is Byzantine. *)

From S2P Require Import Prelude Bytes Kvdb Pos Event Vector VecStore VecIndex Dag VecInv VecMerge VecWalk VecAdd.
Section graph.
Context (vv : Validators) (Hvv : validators_ok vv).
Context (getEvent : hash -> option EventHeaderData).
Abbreviation observes := (observes getEvent).
Abbreviation cr := (cr vv getEvent).
Abbreviation sq := (sq getEvent).
Abbreviation sees_fork := (sees_fork vv getEvent).

(** [a] does not observe a fork of the creator of [b], and it observes that a
    quorum of validators, none of which it observes a fork of, observe [b]. *)
Definition forkless_cause (a b : hash) : Prop :=
  ~ sees_fork a (cr b) /\
  exists Q : gset Z, is_quorum vv Q /\ Q ⊆ all_idx vv /\
    forall c, c ∈ Q -> ~ sees_fork a c /\ exists x, observes a x /\ cr x = c /\ observes x b.

(** Two events of a creator without forks: the later observes the earlier. *)
Lemma honest_chain hs c x y :
  dag vv getEvent hs -> x ∈ hs -> y ∈ hs -> cr x = c -> cr y = c ->
  (forall u v, u ∈ hs -> v ∈ hs -> ~ fork vv getEvent c u v) ->
  sq x <= sq y -> observes y x.
Proof.
  intros Hd Hx Hy Cx Cy Hno Hle.
  remember (Z.to_nat (sq y - sq x)) as n eqn:En. revert y Hy Cy Hle En.
  induction n as [|n IH]; intros y Hy Cy Hle En.
  - assert (x = y) as ->; [|apply observes_refl].
    destruct (decide (x = y)) as [|Hne]; [done|]. exfalso. apply (Hno x y Hx Hy).
    split_and!; try done. lia.
  - destruct (dag_event _ _ _ _ Hd Hy) as (pre & e & _ & Hsub & _ & He & Hok).
    pose proof (dag_cr vv getEvent hs x Hvv Hd Hx) as [_ Hsx].
    assert (sq y = Seq e) as Esy by (unfold Dag.sq; by rewrite He).
    destruct (ek_self _ _ _ _ Hok ltac:(lia)) as (p & ep & Hp & Hep & Hcp & Hsp).
    apply head_elem in Hp. assert (p ∈ hs) as Hph by (apply Hsub; by apply (ek_parents _ _ _ _ Hok)).
    assert (sq p + 1 = sq y) as Esp by (rewrite Esy; unfold Dag.sq; rewrite Hep; lia).
    eapply rtc_l; [by exists e|]. apply IH; [done| |lia|lia].
    rewrite <-Cy. unfold Dag.cr. by rewrite He, Hep, Hcp.
Qed.

(** The creators with a fork among the connected events are within [B]. *)
Definition byzantine (hs : list hash) (B : gset Z) : Prop :=
  forall c x y, x ∈ hs -> y ∈ hs -> fork vv getEvent c x y -> c ∈ B.

Lemma forks_not_both hs B a1 a2 b1 b2 c :
  dag vv getEvent hs -> byzantine hs B -> B ⊆ all_idx vv ->
  3 * stake_of vv B < Validators_TotalStake vv ->
  a1 ∈ hs -> a2 ∈ hs -> fork vv getEvent c b1 b2 ->
  forkless_cause a1 b1 -> forkless_cause a2 b2 -> False.
Proof.
  intros Hd HB Hsub Hstake Ha1 Ha2 Hf (Hn1 & Q1 & HQ1 & Hs1 & H1) (Hn2 & Q2 & HQ2 & Hs2 & H2).
  destruct Hf as (Hne & Cb1 & Cb2 & Esq).
  assert (exists k, k ∈ Q1 ∩ Q2 /\ k ∉ B) as (k & [Hk1 Hk2]%elem_of_intersection & HkB).
  { pose proof (quorum_intersect vv Hvv Q1 Q2 Hs1 Hs2 HQ1 HQ2) as Hq.
    destruct (decide ((Q1 ∩ Q2) ∖ B = ∅)) as [Hin|Hout].
    - assert (Q1 ∩ Q2 ⊆ B) as Hin'.
      { intros k Hk. destruct (decide (k ∈ B)) as [|Hkb]; [done|].
        assert (k ∈ (Q1 ∩ Q2) ∖ B) as Hbad by (by apply elem_of_difference). set_solver. }
      pose proof (stake_of_mono vv Hvv _ _ Hin'). lia.
    - apply set_choose_L in Hout as [k Hk]. exists k. by apply elem_of_difference in Hk. }
  destruct (H1 k Hk1) as (_ & x1 & Hx1 & Cx1 & Hxb1).
  destruct (H2 k Hk2) as (_ & x2 & Hx2 & Cx2 & Hxb2).
  pose proof (dag_closed vv _ _ _ _ Hd Ha1 Hx1) as Hx1h.
  pose proof (dag_closed vv _ _ _ _ Hd Ha2 Hx2) as Hx2h.
  assert (forall u v, u ∈ hs -> v ∈ hs -> ~ fork vv getEvent k u v) as Hno.
  { intros u v Hu Hv Hf. apply HkB. by apply (HB k u v). }
  destruct (decide (sq x1 <= sq x2)) as [Hle|Hgt].
  - apply Hn2. exists b1, b2. rewrite Cb2.
    split; [|split; [exact (observes_trans getEvent _ _ _ Hx2 Hxb2)|done]].
    apply (observes_trans getEvent a2 x2); [done|].
    apply (observes_trans getEvent x2 x1); [|done]. by apply (honest_chain hs k).
  - apply Hn1. exists b1, b2. rewrite Cb1.
    split; [exact (observes_trans getEvent _ _ _ Hx1 Hxb1)|split; [|done]].
    apply (observes_trans getEvent a1 x1); [done|].
    apply (observes_trans getEvent x1 x2); [|done]. apply (honest_chain hs k); try done. lia.
Qed.

End graph.

Section computed.
Context (vv : Validators) (Hvv : validators_ok vv).
Context (getEvent : hash -> option EventHeaderData).
Abbreviation observes := (observes getEvent).
Abbreviation cr := (cr vv getEvent).
Abbreviation sq := (sq getEvent).
Abbreviation sees_fork := (sees_fork vv getEvent).
Abbreviation nv := (zlen (Validators_SortedIDs vv)).

Section vectors.
Context (hs : list hash) (bi : branchesInfo) (d : VecData).
Context (Hinv : vec_inv vv getEvent hs bi d).
Context (a b : hash) (Ha : a ∈ hs) (Hb : b ∈ hs).
Context (va ta vb : bytes) (HA : hb_ok vv getEvent bi d a va ta) (HB : la_ok getEvent hs bi d b vb).

(** The condition under which the creator of a branch is counted. *)
Definition counted (br : Z) : bool :=
  (la_at vb br <=? bs_Seq (hb_at va br)) && negb (la_at vb br =? 0) &&
  negb (IsForkDetected (hb_at va br)).

(** It holds when [a] observes an event of the branch that observes [b], and
    no fork of its creator. *)
Lemma counted_spec k c :
  creator_of bi k = Some c ->
  counted k = true <-> ~ sees_fork a c /\ exists x, observes a x /\ br d x = k /\ observes x b.
Proof.
  intros Hk. pose proof (creator_of_lt _ _ _ Hk) as Hkr. pose proof (vi_branches _ _ _ _ _ Hinv) as Hbr.
  unfold counted. rewrite !andb_true_iff, !negb_true_iff, Z.eqb_neq, Z.leb_le.
  pose proof (la_least _ _ _ _ _ _ HB k Hkr) as Hl. split.
  - intros [[Hle Hz] Hf]. destruct Hl as [[? _]|(H0 & (y & Hy & Hyb & Ey & Esy) & _)]; [done|].
    assert (k < HighestBeforeSeq_Size va) as Hks.
    { destruct (decide (k < HighestBeforeSeq_Size va)) as [|Hge]; [done|].
      rewrite hb_at_beyond in Hle by lia. simpl in Hle. lia. }
    assert (~ sees_fork a c) as Hnf.
    { intros Hsf. pose proof (hb_fork _ _ _ _ _ _ _ HA k ltac:(lia) c Hk Hsf) as E.
      rewrite E in Hf. by destruct (IsForkDetected_spec forkDetectedSeq). }
    split; [done|].
    destruct (hb_range _ _ _ _ _ _ _ HA k Hkr c Hk Hnf) as [(E & _)|(_ & _ & (x & Hx & Ex & Esx) & _)]; [lia|].
    exists y. split; [|done]. apply (observes_trans getEvent a x); [done|].
    apply (br_chain _ _ _ _ _ Hbr); [|done|congruence|lia].
    by eapply dag_closed; [apply (vi_dag _ _ _ _ _ Hinv)|exact Ha|].
  - intros (Hnf & x & Hx & Ex & Hxb).
    assert (x ∈ hs) as Hxh by (by eapply dag_closed; [apply (vi_dag _ _ _ _ _ Hinv)|exact Ha|]).
    pose proof (hb_range _ _ _ _ _ _ _ HA k Hkr c Hk Hnf) as Hr.
    destruct Hl as [[_ Hno]|(H0 & _ & Hmin)].
    { destruct (Hno (sq x)). by exists x. }
    assert (la_at vb k <= sq x) by (apply Hmin; by exists x).
    destruct (IsForkDetected_spec (hb_at va k)) as [E|_]; [by destruct (is_range_not_fork _ _ Hr)|].
    destruct Hr as [(_ & _ & Hno)|(_ & _ & _ & Hr)]; [destruct (Hno (sq x)); by exists x|].
    assert (bs_MinSeq (hb_at va k) <= sq x <= bs_Seq (hb_at va k)) by (apply Hr; by exists x).
    split_and!; try done; lia.
Qed.

Lemma enumerate_elem {A} (l : list A) dn (i : Z) x rest :
  enumerate l = dn ++ (i, x) :: rest -> slice_get l i = Some x.
Proof.
  unfold enumerate. intros E.
  assert (imap (fun i x => (Z.of_nat i, x)) l !! length dn = Some (i, x)) as Hl
    by (rewrite E; by apply list_lookup_middle).
  rewrite list_lookup_imap in Hl. destruct (l !! length dn) as [y|] eqn:Ey; [|done].
  simpl in Hl. injection Hl as <- <-. by rewrite slice_get_nat.
Qed.

Lemma elem_of_enumerate {A} (l : list A) (i : Z) x : (i, x) ∈ enumerate l <-> slice_get l i = Some x.
Proof.
  unfold enumerate. split.
  - intros [n Hn]%list_elem_of_lookup_1. rewrite list_lookup_imap in Hn.
    destruct (l !! n) as [y|] eqn:Ey; [|done]. simpl in Hn. injection Hn as <- <-. by rewrite slice_get_nat.
  - intros Hi. pose proof (slice_get_lt _ _ _ Hi). unfold slice_get in Hi. rewrite decide_True in Hi by lia.
    apply (list_elem_of_lookup_2 _ (Z.to_nat i)). rewrite list_lookup_imap, Hi. simpl.
    by rewrite Z2Nat.id by lia.
Qed.

Lemma countBranches_spec :
  exists yes Q, go_fold (countBranch va vb) (newStakeCounter vv) (enumerate (BranchIDCreatorIdxs bi)) = Ret yes /\
    counter_ok vv yes Q /\
    forall c, c ∈ Q <-> exists k, creator_of bi k = Some c /\ counted k = true.
Proof.
  destruct (go_fold_inv (countBranch va vb)
              (fun dn s => exists Q, counter_ok vv s Q /\
                 forall c, c ∈ Q <-> exists k, (k, c) ∈ dn /\ counted k = true)
              (enumerate (BranchIDCreatorIdxs bi)) (newStakeCounter vv)) as (s & E & Q & Hs & HQ).
  - exists ∅. split; [by apply newStakeCounter_ok|]. intros c. split; [set_solver|].
    intros (k & Hk%elem_of_nil & _). done.
  - intros dn [k c] rest s El (Q & Hs & HQ).
    pose proof (enumerate_elem _ _ _ _ _ El) as Hk. fold (creator_of bi k) in Hk.
    pose proof (creator_of_lt _ _ _ Hk) as Hkr. unfold countBranch.
    rewrite (LowestAfterSeq_Get_spec vb k (la_vec _ _ _ _ _ _ HB)), go_bind_Ret by lia.
    rewrite (HighestBeforeSeq_Get_spec va k (hb_vec _ _ _ _ _ _ _ HA)), go_bind_Ret by lia.
    fold (counted k). destruct (counted k) eqn:Ek.
    + destruct (CountByIdx_ok vv Hvv s Q c Hs) as (s' & E' & Hs').
      { apply elem_of_all_idx. eapply (bo_range _ _ (vi_bi_ok _ _ _ _ _ Hinv)), Hk. }
      rewrite E', go_bind_Ret. exists s'. split; [done|]. eexists. split; [exact Hs'|].
      intros c'. rewrite elem_of_union, elem_of_singleton, HQ. split.
      * intros [->|(k' & ? & ?)]; [exists k|exists k']; set_solver.
      * intros (k' & Hin & ?). rewrite elem_of_app, list_elem_of_singleton in Hin.
        destruct Hin as [Hin|[= -> ->]]; [right; by exists k'|by left].
    + exists s. split; [done|]. exists Q. split; [done|]. intros c'. rewrite HQ. split.
      * intros (k' & ? & ?). exists k'. set_solver.
      * intros (k' & Hin & ?). rewrite elem_of_app, list_elem_of_singleton in Hin.
        destruct Hin as [Hin|[= -> ->]]; [by exists k'|congruence].
  - exists s, Q. split; [done|]. split; [done|]. intros c. rewrite HQ. by setoid_rewrite elem_of_enumerate.
Qed.

(** The quorum that is counted is the one of the definition. *)
Lemma counted_quorum (Q : gset Z) :
  (forall c, c ∈ Q <-> exists k, creator_of bi k = Some c /\ counted k = true) ->
  ~ sees_fork a (cr b) ->
  is_quorum vv Q <-> forkless_cause vv getEvent a b.
Proof.
  intros HQ Hnf. pose proof (vi_branches _ _ _ _ _ Hinv) as Hbr.
  pose proof (vi_bi_ok _ _ _ _ _ Hinv) as Hbi.
  assert (forall c, c ∈ Q <-> ~ sees_fork a c /\ exists x, observes a x /\ cr x = c /\ observes x b) as HQ'.
  { intros c. rewrite HQ. split.
    - intros (k & Hk & Hc). apply (counted_spec k c Hk) in Hc as (Hn & x & Hx & Ex & Hxb).
      split; [done|]. exists x. split_and!; try done.
      assert (x ∈ hs) as Hxh by (by eapply dag_closed; [apply (vi_dag _ _ _ _ _ Hinv)|exact Ha|]).
      pose proof (br_creator _ _ _ _ _ Hbr x Hxh). congruence.
    - intros (Hn & x & Hx & Cx & Hxb). exists (br d x).
      assert (x ∈ hs) as Hxh by (by eapply dag_closed; [apply (vi_dag _ _ _ _ _ Hinv)|exact Ha|]).
      pose proof (br_creator _ _ _ _ _ Hbr x Hxh) as Hcx. rewrite Cx in Hcx.
      split; [done|]. apply (counted_spec _ c Hcx). split; [done|]. by exists x. }
  split.
  - intros Hq. split; [done|]. exists Q. split; [done|]. split; [|intros c Hc; by apply HQ'].
    intros c (k & Hk & _)%HQ. apply elem_of_all_idx. by apply (bo_range _ _ Hbi k).
  - intros (_ & Q' & Hq' & Hsub & H'). unfold is_quorum in *.
    etrans; [exact Hq'|]. apply stake_of_mono; [done|]. intros c Hc. apply HQ'. by apply H'.
Qed.

End vectors.

Lemma quorum_nonempty Q : is_quorum vv Q -> Q <> ∅.
Proof.
  intros Hq ->. unfold is_quorum in Hq. rewrite (Quorum_eq vv Hvv) in Hq. unfold stake_of in Hq.
  rewrite wsum_empty in Hq. pose proof (stake_of_all vv Hvv). pose proof (stake_of_nonneg vv Hvv (all_idx vv)).
  word.
Qed.

Context {T F : Type} `{HT : VecStoreLaws T} `{HF : LruLaws (hash * hash) bool F}.

Lemma index_ok_set vi (bi : branchesInfo) hs d f (t : T) :
  index_ok vv getEvent (T := T) (F := F) vi hs d f -> vec_inv vv getEvent hs bi d -> rep t d f ->
  index_ok vv getEvent (set_store (set_bi vi (Some bi)) t) hs d f.
Proof. intros [H1 H2 H3] Hinv Ht. split; [done|done|]. by exists bi. Qed.

(** [forklessCause] returns, without touching the contents, and its answer is
    the relation of the graph. *)
Lemma forklessCause_spec (vi : Index T F) hs d f a b :
  index_ok vv getEvent vi hs d f -> a ∈ hs -> b ∈ hs ->
  exists r vi', forklessCause vi a b = Ret (r, vi') /\ index_ok vv getEvent vi' hs d f /\
    c_ForklessCause vi' = c_ForklessCause vi /\
    (r = true <-> forkless_cause vv getEvent a b).
Proof.
  intros Hix Ha Hb. pose proof (ix_rep _ _ _ _ _ _ Hix) as Hr. pose proof (ix_vv _ _ _ _ _ _ Hix) as Hv.
  destruct (initBranchesInfo_spec vv getEvent vi hs d f Hix) as (bi & Ei & Hinv & _).
  destruct (vi_hb _ _ _ _ _ Hinv a Ha) as (va & ta & Ea & _ & HA).
  destruct (vi_la _ _ _ _ _ Hinv b Hb) as (vb & Eb & HB).
  pose proof (vi_branches _ _ _ _ _ Hinv) as Hbr. pose proof (vi_bi_ok _ _ _ _ _ Hinv) as Hbi.
  unfold forklessCause. rewrite Ei, go_bind_Ret. unfold use_bi. cbn [set_bi vi_bi vi_store vi_validators].
  rewrite go_bind_Ret. destruct (law_GetHighestBeforeSeq _ _ _ a Hr) as (t1 & E1 & Hr1).
  rewrite E1, go_bind_Ret, Ea, Hv, (atLeastOneFork_spec vv Hvv bi).
  pose proof (br_creator _ _ _ _ _ Hbr b Hb) as Cb. pose proof (creator_of_lt _ _ _ Cb) as Rb.
  set (cheater := (nv <? nb bi) && IsForkDetected (hb_at va (br d b))).
  assert ((if nv <? nb bi
           then bBranchID ← st_getEventBranchID t1 b; s ← HighestBeforeSeq_Get va bBranchID; Ret (IsForkDetected s)
           else Ret false) = Ret cheater) as ->.
  { unfold cheater. destruct (nv <? nb bi); [|done].
    rewrite (law_getEventBranchID _ _ _ b Hr1), (br_some _ _ _ _ _ Hbr b Hb), go_bind_Ret.
    by rewrite (HighestBeforeSeq_Get_spec va _ (hb_vec _ _ _ _ _ _ _ HA)), go_bind_Ret by lia. }
  rewrite go_bind_Ret.
  destruct cheater eqn:Ec.
  - unfold cheater in Ec. apply andb_true_iff in Ec as [_ Ec].
    destruct (IsForkDetected_spec (hb_at va (br d b))) as [Ef|]; [|done].
    eexists _, _. split; [done|]. split; [by apply index_ok_set|]. split; [done|].
    split; [done|]. intros [Hnf _]. destruct Hnf. by apply (hb_sound _ _ _ _ _ _ _ HA _ _ Cb).
  - destruct (law_GetLowestAfterSeq _ _ _ b Hr1) as (t2 & E2 & Hr2). rewrite E2, go_bind_Ret, Eb.
    destruct (countBranches_spec hs bi d Hinv a b Ha Hb va ta vb HA HB) as (yes & Q & Ey & Hyes & HQ).
    rewrite Ey, go_bind_Ret, (HasQuorum_ok vv yes Q Hyes).
    eexists _, _. split; [done|]. split; [by apply index_ok_set|]. split; [done|].
    rewrite bool_decide_eq_true.
    assert (is_quorum vv Q -> ~ sees_fork a (cr b)) as Hnf.
    { intros Hq Hsf. apply quorum_nonempty, set_choose_L in Hq as [c Hc].
      apply HQ in Hc as (k & Hk & Hck).
      apply (counted_spec hs bi d Hinv a b Ha va ta vb HA HB k c Hk) in Hck as (_ & x & Hx & _ & Hxb).
      pose proof (hb_within _ _ _ _ _ _ _ HA b (observes_trans _ _ _ _ Hx Hxb)) as Hlt.
      pose proof (hb_fork _ _ _ _ _ _ _ HA (br d b) ltac:(lia) _ Cb Hsf) as Ef.
      destruct (sees_fork_branches _ _ _ _ _ _ _ (vi_dag _ _ _ _ _ Hinv) Hbi Hbr Ha Hsf) as [Hlt' _].
      unfold cheater in Ec. rewrite Ef in Ec. destruct (Z.ltb_spec nv (nb bi)); [|lia].
      by destruct (IsForkDetected_spec forkDetectedSeq). }
    split.
    + intros Hq. by apply (counted_quorum hs bi d Hinv a b Ha va ta vb HA HB Q HQ (Hnf Hq)).
    + intros Hfc. by apply (counted_quorum hs bi d Hinv a b Ha va ta vb HA HB Q HQ (proj1 Hfc)).
Qed.

(** What the cache of results holds is right. *)
Definition cache_ok (c : F) : Prop :=
  forall a b r, lru_peek c (a, b) = Some r -> r = true <-> forkless_cause vv getEvent a b.

Lemma ForklessCause_spec (vi : Index T F) hs d f a b :
  index_ok vv getEvent vi hs d f -> cache_ok (c_ForklessCause vi) -> a ∈ hs -> b ∈ hs ->
  exists r vi', VecIndex.ForklessCause vi a b = Ret (r, vi') /\ index_ok vv getEvent vi' hs d f /\
    cache_ok (c_ForklessCause vi') /\ (r = true <-> forkless_cause vv getEvent a b).
Proof.
  intros Hix Hc Ha Hb. unfold VecIndex.ForklessCause.
  destruct (lru_peek (c_ForklessCause vi) (a, b)) as [r|] eqn:E.
  - eexists r, _. split; [done|]. split; [by destruct Hix|]. split; [|by apply Hc].
    intros x y s. simpl. rewrite law_touch. apply Hc.
  - destruct (forklessCause_spec vi hs d f a b Hix Ha Hb) as (r & vi' & -> & Hix' & Ec & Hr).
    rewrite go_bind_Ret. eexists r, _. split; [done|]. split; [by destruct Hix'|]. split; [|done].
    intros x y s Hs. simpl in Hs. rewrite Ec in Hs.
    destruct (decide ((a, b) = (x, y))) as [[= <- <-]|Hne].
    + apply law_add_same in Hs as ->. done.
    + apply law_add_other in Hs; [|done]. by apply Hc.
Qed.

End computed.
