(* ===== verification/VecSpec.v ===== *)
(** * What the index promises

    The abstract machine of the vector index keeps two lists, the events that
    are connected and the ones that were connected at the last flush; the
    index refines it, and its answers are the relation of the graph. *)

From S2P Require Import Prelude Bytes Kvdb KvdbLaws Pos Event Vector VecStore VecIndex Dag VecInv VecMerge VecWalk VecAdd ForklessCause.
(** ** The operations *)

Inductive index_op :=
  | OpAdd (h : hash)
  | OpFlush
  | OpDropNotFlushed
  | OpForklessCause (a b : hash).

Section spec.
Context (v : Validators).
Abbreviation vv := (Validators_Copy v).
Context (getEvent : hash -> option EventHeaderData) (event_Hash : EventHeaderData -> hash).
Context (fuel : nat).

(** The abstract state: the connected events, and the flushed ones. *)
Definition abs_op (st : list hash * list hash) (op : index_op) : list hash * list hash :=
  match op with
  | OpAdd h => if decide (h ∈ st.1) then st else (st.1 ++ [h], st.2)
  | OpFlush => (st.1, st.1)
  | OpDropNotFlushed => (st.2, st.2)
  | OpForklessCause _ _ => st
  end.

(** When an operation may be called. *)
Definition op_ok (st : list hash * list hash) (op : index_op) : Prop :=
  match op with
  | OpAdd h => exists e, getEvent h = Some e /\ event_Hash e = h /\ event_ok vv getEvent st.1 e /\
      8 * (zlen (Validators_SortedIDs vv) + zlen st.1 + 1) < 2 ^ 32 /\
      (walk_fuel getEvent st.1 e <= fuel)%nat
  | OpForklessCause a b => a ∈ st.1 /\ b ∈ st.1
  | _ => True
  end.

(** A test for it. *)
Definition op_okb (st : list hash * list hash) (op : index_op) : bool :=
  match op with
  | OpAdd h =>
      match getEvent h with
      | None => false
      | Some e =>
          bool_decide (event_Hash e = h) && event_okb vv getEvent st.1 e &&
          (8 * (zlen (Validators_SortedIDs vv) + zlen st.1 + 1) <? 2 ^ 32) &&
          (walk_fuel getEvent st.1 e <=? fuel)%nat
      end
  | OpForklessCause a b => bool_decide (a ∈ st.1 /\ b ∈ st.1)
  | _ => true
  end.

Lemma op_okb_sound st op : op_okb st op = true -> op_ok st op.
Proof.
  destruct op; cbn [op_okb op_ok]; [|done..|by intros ?%bool_decide_eq_true].
  destruct (getEvent h) as [e|] eqn:E; [|done].
  rewrite !andb_true_iff, bool_decide_eq_true, Z.ltb_lt, Nat.leb_le.
  intros [[[H1 H2] H3] H4]. exists e. split_and!; try done. by apply event_okb_sound.
Qed.

Fixpoint ops_okb (st : list hash * list hash) (ops : list index_op) : bool :=
  match ops with
  | [] => true
  | op :: ops => op_okb st op && ops_okb (abs_op st op) ops
  end.

Fixpoint ops_ok (st : list hash * list hash) (ops : list index_op) : Prop :=
  match ops with
  | [] => True
  | op :: ops => op_ok st op /\ ops_ok (abs_op st op) ops
  end.

Lemma ops_okb_sound ops : forall st, ops_okb st ops = true -> ops_ok st ops.
Proof.
  induction ops as [|op ops IH]; intros st; simpl; [done|].
  intros [H1%op_okb_sound H2%IH]%andb_true_iff. done.
Qed.

(** The answer to an operation: only the question has one. *)
Definition answer_ok (op : index_op) (r : option bool) : Prop :=
  match op with
  | OpForklessCause a b => exists ans, r = Some ans /\ (ans = true <-> forkless_cause vv getEvent a b)
  | _ => r = None
  end.

Context {T F : Type} `{HT : VecStoreLaws T} `{HF : LruLaws (hash * hash) bool F}.
Implicit Types vi : Index T F.

Definition exec vi (op : index_op) : go (option bool * Index T F) :=
  match op with
  | OpAdd h =>
      match getEvent h with
      | Some e => vi ← Add getEvent event_Hash fuel vi e; Ret (None, vi)
      | None => Ret (None, vi)
      end
  | OpFlush => vi ← Flush vi; Ret (None, vi)
  | OpDropNotFlushed => vi ← DropNotFlushed vi; Ret (None, vi)
  | OpForklessCause a b => '(r, vi) ← VecIndex.ForklessCause vi a b; Ret (Some r, vi)
  end.

Fixpoint exec_all vi (ops : list index_op) : go (list (option bool) * Index T F) :=
  match ops with
  | [] => Ret ([], vi)
  | op :: ops => '(r, vi) ← exec vi op; '(rs, vi) ← exec_all vi ops; Ret (r :: rs, vi)
  end.

(** ** The simulation *)

Definition simulates vi (st : list hash * list hash) : Prop :=
  exists d f, index_ok vv getEvent vi st.1 d f /\
    vec_inv vv getEvent st.2 (default (newInitialBranchesInfo vv) (d_bi f)) f /\
    cache_ok vv getEvent (c_ForklessCause vi).

Context (Hvv : validators_ok vv).

Lemma exec_simulates vi st op :
  simulates vi st -> op_ok st op ->
  exists r vi', exec vi op = Ret (r, vi') /\ simulates vi' (abs_op st op) /\ answer_ok op r.
Proof.
  intros (d & f & Hix & Hf & Hc) Hop. destruct op as [h| | |a b]; simpl in *.
  - destruct Hop as (e & He & Eh & Hok & Hbnd & Hfuel). rewrite He. case_decide as Hin.
    + destruct (Add_again_spec vv getEvent event_Hash fuel vi st.1 d f e Hix) as (vi' & E & Hix').
      { by rewrite Eh. }
      rewrite E, go_bind_Ret. eexists _, _. split; [done|]. split; [|done]. exists d, f.
      split_and!; [done..|]. unfold Add in E.
      destruct (law_GetHighestBeforeSeq _ d f (event_Hash e) (ix_rep _ _ _ _ _ _ Hix)) as (t1 & Et & _).
      rewrite Et, go_bind_Ret in E. destruct (ix_inv _ _ _ _ _ _ Hix) as (bi & Hinv & _).
      rewrite Eh in E. destruct (vi_hb _ _ _ _ _ Hinv h Hin) as (s & c & Es & _). rewrite Es in E.
      by injection E as <-.
    + destruct (Add_spec vv Hvv getEvent event_Hash fuel vi st.1 d f h e) as (vi' & d' & E & Hix' & _ & Ec & _);
        try done.
      rewrite E, go_bind_Ret. eexists _, _. split; [done|]. split; [|done]. exists d', f. by rewrite Ec.
  - destruct (Flush_spec vv getEvent vi st.1 d f Hix) as (vi' & d' & E & Hix' & Ec & Hs).
    rewrite E, go_bind_Ret. eexists _, _. split; [done|]. split; [|done]. exists d', d'.
    rewrite Ec. done.
  - destruct (DropNotFlushed_spec vv getEvent vi st.1 st.2 d f Hix Hf) as (vi' & E & Hix' & Ec).
    rewrite E, go_bind_Ret. eexists _, _. split; [done|]. split; [|done]. exists f, f. by rewrite Ec.
  - destruct Hop as [Ha Hb].
    destruct (ForklessCause_spec vv Hvv getEvent vi st.1 d f a b Hix Hc Ha Hb) as (r & vi' & E & Hix' & Hc' & Hr).
    rewrite E, go_bind_Ret. eexists _, _. split; [done|]. split; [by exists d, f|]. by exists r.
Qed.

Lemma exec_all_simulates ops : forall vi st,
  simulates vi st -> ops_ok st ops ->
  exists rs vi', exec_all vi ops = Ret (rs, vi') /\ simulates vi' (foldl abs_op st ops) /\
    Forall2 answer_ok ops rs.
Proof.
  induction ops as [|op ops IH]; intros vi st Hs Hok; simpl in *.
  - exists [], vi. done.
  - destruct Hok as [Hop Hok]. destruct (exec_simulates vi st op Hs Hop) as (r & vi1 & E1 & Hs1 & Hr).
    destruct (IH vi1 _ Hs1 Hok) as (rs & vi2 & E2 & Hs2 & Hrs).
    exists (r :: rs), vi2. rewrite E1, go_bind_Ret, E2, go_bind_Ret. by repeat constructor.
Qed.

(** A database that holds the vectors of the events [hs]. *)
Definition holds_events (t : T) (hs : list hash) : Prop :=
  exists d f, rep t d f /\ vec_inv vv getEvent hs (default (newInitialBranchesInfo vv) (d_bi f)) f.

Lemma holds_empty (t : T) : rep t emptyVecData emptyVecData -> holds_events t [].
Proof. intros Hr. exists emptyVecData, emptyVecData. split; [done|]. by apply vec_inv_init. Qed.

Lemma Reset_simulates vi0 (t : T) (hs : list hash) :
  holds_events t hs -> exists vi, Reset vi0 v t = Ret vi /\ simulates vi (hs, hs).
Proof.
  intros (d & f & Hr & Hinv). unfold Reset, DropNotFlushed. cbn [vi_store].
  destruct (law_DropNotFlushed _ _ _ Hr) as (t1 & -> & Hr1). rewrite !go_bind_Ret.
  eexists. split; [done|]. exists f, f. split; [|split; [done|]].
  - split; [done|by apply law_dropDependentCaches|]. by eexists.
  - intros a b r. simpl. by rewrite law_purge.
Qed.

Lemma NewIndex_simulates (t : T) (fc : F) :
  rep t emptyVecData emptyVecData ->
  exists vi, NewIndex fc v t = Ret vi /\ simulates vi ([], []).
Proof. intros Hr. by apply Reset_simulates, holds_empty. Qed.

(** C2: for every sequence of additions, flushes, drops and questions, the
    index, started empty over any store that obeys the laws, runs to the end
    without a fault, and every answer of [ForklessCause] (cached or computed)
    is the forkless-cause relation of the graph of events: the events that
    are connected are those of the abstract machine, in which a drop goes back
    to the last flush and a second addition does nothing. *)
Theorem index_refines_graph (t : T) (fc : F) (ops : list index_op) :
  rep t emptyVecData emptyVecData -> ops_ok ([], []) ops ->
  exists vi0 rs vi, NewIndex fc v t = Ret vi0 /\ exec_all vi0 ops = Ret (rs, vi) /\
    Forall2 answer_ok ops rs /\ simulates vi (foldl abs_op ([], []) ops).
Proof.
  intros Hr Hok. destruct (NewIndex_simulates t fc Hr) as (vi0 & E0 & Hs0).
  destruct (exec_all_simulates ops vi0 _ Hs0 Hok) as (rs & vi & E & Hs & Hrs). eauto 10.
Qed.

End spec.

Section promises.
Context (v : Validators).
Abbreviation vv := (Validators_Copy v).
Context (getEvent : hash -> option EventHeaderData).
Context {T F : Type} `{HT : VecStoreLaws T} `{HF : LruLaws (hash * hash) bool F}.
Implicit Types vi : Index T F.
Context (Hvv : validators_ok vv).
Abbreviation simulates := (simulates v getEvent (T := T) (F := F)).

(** C6: the reason for the relation: two forks are never both a forkless
    cause of connected events, whichever events ask, as long as the creators
    with forks hold less than a third of the stake.  The answers may come from
    the cache or from the vectors. *)
Theorem forks_never_both_cause vi vi1 vi2 st a1 a2 b1 b2 c (B : gset Z) (r1 r2 : bool) :
  simulates vi st -> a1 ∈ st.1 -> a2 ∈ st.1 -> b1 ∈ st.1 -> b2 ∈ st.1 ->
  fork vv getEvent c b1 b2 ->
  byzantine vv getEvent st.1 B -> B ⊆ all_idx vv -> 3 * stake_of vv B < Validators_TotalStake vv ->
  VecIndex.ForklessCause vi a1 b1 = Ret (r1, vi1) -> VecIndex.ForklessCause vi1 a2 b2 = Ret (r2, vi2) ->
  r1 && r2 = false.
Proof.
  intros (d & f & Hix & Hf & Hc) Ha1 Ha2 Hb1 Hb2 Hfork HB Hsub Hstake E1 E2.
  destruct (ForklessCause_spec vv Hvv getEvent vi st.1 d f a1 b1 Hix Hc Ha1 Hb1)
    as (r1' & vi1' & E1' & Hix1 & Hc1 & Hr1). rewrite E1 in E1'. injection E1' as <- <-.
  destruct (ForklessCause_spec vv Hvv getEvent vi1 st.1 d f a2 b2 Hix1 Hc1 Ha2 Hb2)
    as (r2' & vi2' & E2' & Hix2 & Hc2 & Hr2). rewrite E2 in E2'. injection E2' as <- <-.
  destruct (ix_inv _ _ _ _ _ _ Hix) as (bi & Hinv & _).
  apply not_true_iff_false. rewrite andb_true_iff, Hr1, Hr2. intros [H1' H2'].
  by apply (forks_not_both vv Hvv getEvent st.1 B a1 a2 b1 b2 c (vi_dag _ _ _ _ _ Hinv)).
Qed.

(** The entry of a creator's first branch tells whether its fork is observed. *)
Lemma first_branch_fork hs bi d h s tm k :
  vec_inv vv getEvent hs bi d -> h ∈ hs -> hb_ok vv getEvent bi d h s tm -> k ∈ all_idx vv ->
  hb_at s k = forkDetectedSeq <-> sees_fork vv getEvent h k.
Proof.
  intros Hinv Hh Hhb Hk%elem_of_all_idx. pose proof (vi_bi_ok _ _ _ _ _ Hinv) as Hbi.
  pose proof (bo_first _ _ Hbi k Hk) as Hkk. split.
  - by apply (hb_sound _ _ _ _ _ _ _ Hhb).
  - apply (hb_fork _ _ _ _ _ _ _ Hhb); [|done]. pose proof (hb_size _ _ _ _ _ _ _ Hhb). lia.
Qed.

Lemma sees_fork_dec vi st d f h k :
  index_ok vv getEvent vi st d f -> h ∈ st -> k ∈ all_idx vv ->
  sees_fork vv getEvent h k \/ ~ sees_fork vv getEvent h k.
Proof.
  intros Hix Hh Hk. destruct (ix_inv _ _ _ _ _ _ Hix) as (bi & Hinv & _).
  destruct (vi_hb _ _ _ _ _ Hinv h Hh) as (s & c & _ & _ & Hhb).
  rewrite <-(first_branch_fork st bi d h s c k Hinv Hh Hhb Hk).
  destruct (decide (hb_at s k = forkDetectedSeq)); auto.
Qed.

Lemma NoCheaters_spec vi st sp options :
  simulates vi st -> sp ∈ st.1 ->
  (forall id, id ∈ options -> exists e, getEvent id = Some e /\ Creator e ∈ Validators_SortedIDs vv) ->
  exists l vi', NoCheaters getEvent vi (Some sp) options = Ret (l, vi') /\ simulates vi' st /\
    l `sublist_of` options /\
    forall id, id ∈ l <-> id ∈ options /\ ~ sees_fork vv getEvent sp (cr vv getEvent id).
Proof.
  intros (d & f & Hix & Hf & Hc) Hsp Hopt. unfold NoCheaters.
  destruct (initBranchesInfo_spec vv getEvent vi st.1 d f Hix) as (bi & Ei & Hinv & _).
  rewrite Ei, go_bind_Ret. cbn [set_bi vi_store vi_validators].
  destruct (law_GetHighestBeforeSeq _ _ _ sp (ix_rep _ _ _ _ _ _ Hix)) as (t1 & E1 & Hr1).
  destruct (vi_hb _ _ _ _ _ Hinv sp Hsp) as (s & c & Es & _ & Hhb).
  rewrite E1, go_bind_Ret, Es, (ix_vv _ _ _ _ _ _ Hix). cbn [default from_option id].
  destruct (go_fold_inv (keepOption getEvent vv s)
              (fun dn l => l `sublist_of` dn /\
                 forall id, id ∈ l <-> id ∈ dn /\ ~ sees_fork vv getEvent sp (cr vv getEvent id))
              options []) as (l & E & Hsub & Hl).
  - split; [done|]. intros id. rewrite elem_of_nil. tauto.
  - intros dn id rest l El [Hsub Hl]. destruct (Hopt id) as (e & He & Hcr); [rewrite El; set_solver|].
    assert (cr vv getEvent id = Validators_GetIdx vv (Creator e)) as Ecr by (unfold cr; by rewrite He).
    destruct (GetIdx_elem vv Hvv _ Hcr) as [_ Hk]. rewrite <-Ecr in Hk.
    pose proof (first_branch_fork st.1 bi d sp s c _ Hinv Hsp Hhb Hk) as Hfk.
    unfold keepOption. rewrite He, <-Ecr.
    rewrite (HighestBeforeSeq_Get_spec s _ (hb_vec _ _ _ _ _ _ _ Hhb)), go_bind_Ret
      by (apply elem_of_all_idx in Hk; lia).
    eexists. split; [done|].
    destruct (IsForkDetected_spec (hb_at s (cr vv getEvent id))) as [Hb|Hb]; rewrite Hfk in Hb.
    + split; [by apply sublist_inserts_r|]. intros x. rewrite Hl, elem_of_app, list_elem_of_singleton.
      split; [tauto|]. intros [[?| ->] ?]; tauto.
    + unfold Events_Add. split; [by apply sublist_app|].
      intros x. rewrite !elem_of_app, list_elem_of_singleton, Hl. split; [|tauto].
      intros [?| ->]; tauto.
  - rewrite E, go_bind_Ret. eexists l, _. split; [done|]. split; [|done]. exists d, f.
    split_and!; [by apply index_ok_set|done|done].
Qed.

(** [NoCheaters] keeps, in their order, exactly the options whose
    creator the self-parent does not observe as a forker; in particular it
    returns. *)
Theorem NoCheaters_exact vi st sp options :
  simulates vi st -> sp ∈ st.1 ->
  (forall id, id ∈ options -> exists e, getEvent id = Some e /\ Creator e ∈ Validators_SortedIDs vv) ->
  exists l vi', NoCheaters getEvent vi (Some sp) options = Ret (l, vi') /\ simulates vi' st /\
    l `sublist_of` options /\
    forall id, id ∈ l <-> id ∈ options /\ ~ sees_fork vv getEvent sp (cr vv getEvent id).
Proof. apply NoCheaters_spec. Qed.

End promises.
