(* ===== verification/VecExample.v ===== *)
(** * A concrete index

    A memory database, bounded caches and a small graph of events of four
    validators, one of which forks: the instance at which the theorems about
    the index are applied. *)

From S2P Require Import Prelude Bytes Kvdb KvdbLaws Pos Event Vector VecStore VecIndex Dag VecInv VecMerge VecWalk VecAdd ForklessCause VecSpec.

(** ** An encoding of the branches with a decoder *)

Definition ex_enc_list (l : list Z) : bytes := zlen l :: l.
Definition ex_dec_list (b : bytes) : option (list Z * bytes) :=
  match b with [] => None | n :: b => Some (take (Z.to_nat n) b, drop (Z.to_nat n) b) end.

Lemma ex_dec_enc l rest : ex_dec_list (ex_enc_list l ++ rest) = Some (l, rest).
Proof.
  unfold ex_enc_list, ex_dec_list, zlen. simpl.
  by rewrite Nat2Z.id, take_app_length, drop_app_length.
Qed.

Fixpoint ex_dec_lists (n : nat) (b : bytes) : option (list (list Z)) :=
  match n with
  | O => Some []
  | S n => '(l, b) ← ex_dec_list b; ls ← ex_dec_lists n b; Some (l :: ls)
  end.

Definition ex_rlp_encode (bi : branchesInfo) : bytes :=
  ex_enc_list (BranchIDLastSeq bi) ++ ex_enc_list (BranchIDCreatorIdxs bi) ++
  zlen (BranchIDByCreators bi) :: mjoin (ex_enc_list <$> BranchIDByCreators bi).
Definition ex_rlp_decode (b : bytes) : option branchesInfo :=
  '(l1, b) ← ex_dec_list b;
  '(l2, b) ← ex_dec_list b;
  match b with
  | [] => None
  | n :: b => ls ← ex_dec_lists (Z.to_nat n) b; Some (mkBranchesInfo l1 l2 ls)
  end.

Lemma ex_rlp_roundtrip bi : ex_rlp_decode (ex_rlp_encode bi) = Some bi.
Proof.
  unfold ex_rlp_decode, ex_rlp_encode. rewrite ex_dec_enc. cbn [mbind option_bind].
  rewrite ex_dec_enc. cbn [mbind option_bind].
  unfold zlen. rewrite Nat2Z.id.
  assert (forall ls, ex_dec_lists (length ls) (mjoin (ex_enc_list <$> ls)) = Some ls) as ->.
  { induction ls as [|l ls IH]; [done|]. cbn [length ex_dec_lists].
    change (mjoin (ex_enc_list <$> l :: ls)) with (ex_enc_list l ++ mjoin (ex_enc_list <$> ls)).
    rewrite ex_dec_enc. cbn [mbind option_bind]. by rewrite IH. }
  by destruct bi.
Qed.

(** ** The store *)

Abbreviation ex_T := (VecTables Database (simplelru hash slice)).
Abbreviation ex_F := (simplelru (hash * hash) bool).

#[export] Instance ex_store : VecStore ex_T := VecTables_VecStore 100 ex_rlp_encode ex_rlp_decode.
#[export] Instance ex_store_laws : VecStoreLaws ex_T := VecTables_laws 100 _ _ ex_rlp_roundtrip.

Definition ex_tables : ex_T :=
  mkVecTables (Flushable_Wrap memorydb_New) (mkSimplelru 2 []) (mkSimplelru 2 []) (mkSimplelru 2 []).
Definition ex_cache : ex_F := mkSimplelru 2 [].

Lemma ex_tables_rep : rep ex_tables emptyVecData emptyVecData.
Proof.
  split; try done.
  - exists ∅. split; [done|]. split; intros; try done.
  - exists ∅. split; [done|]. split; intros; try done.
Qed.

(** ** The events *)

Definition ex_validators : Validators := newValidators (<[1 := 1]> (<[2 := 1]> (<[3 := 1]> (<[4 := 1]> ∅)))).

Definition ex_id (i : Z) : hash := replicate 32 i.
Definition ex_event (i creator seq : Z) (parents : list Z) : hash * EventHeaderData :=
  (ex_id i, mkHeader 0 1 seq 0 false creator ZeroHash (ex_id <$> parents) [0; 0] 0 0 (10 * i) 0
              ZeroHash [] (Some (ex_id i))).

(** Events 4 and 5 are a fork of validator 4; event 8 observes that three
    validators observe event 1. *)
Definition ex_events : list (hash * EventHeaderData) :=
  [ex_event 1 1 1 []; ex_event 2 2 1 []; ex_event 3 3 1 []; ex_event 4 4 1 []; ex_event 5 4 1 [];
   ex_event 6 2 2 [2; 1; 4]; ex_event 7 3 2 [3; 1]; ex_event 8 1 2 [1; 6; 7]; ex_event 9 1 3 [8; 5]].

Definition ex_getEvent (h : hash) : option EventHeaderData := assoc_get ex_events h.
Definition ex_Hash (e : EventHeaderData) : hash := Hash (fun _ => []) (fun _ => []) e.

Lemma ex_validators_ok : validators_ok (Validators_Copy ex_validators).
Proof.
  apply newValidators_ok. split.
  - intros id s Hs. assert (id ∈ [1; 2; 3; 4]) as Hid.
    { assert (id ∈ dom (values ex_validators)) as Hd by (by apply elem_of_dom_2 in Hs).
      vm_compute in Hd. revert Hd.
      assert (dom (values ex_validators) = list_to_set [1; 2; 3; 4]) as E by (by vm_compute).
      intros _. apply elem_of_dom_2 in Hs. rewrite E in Hs. set_solver. }
    repeat (apply elem_of_cons in Hid as [->|Hid]; [vm_compute in Hs; injection Hs as <-; lia|]).
    by apply elem_of_nil in Hid.
  - by vm_compute.
  - by vm_compute.
Qed.

(** Additions of all events, a flush, questions, and a drop. *)
Definition ex_ops : list index_op :=
  [OpAdd (ex_id 1); OpAdd (ex_id 2); OpAdd (ex_id 3); OpAdd (ex_id 4); OpAdd (ex_id 5);
   OpAdd (ex_id 6); OpAdd (ex_id 7); OpAdd (ex_id 8); OpFlush; OpForklessCause (ex_id 8) (ex_id 1);
   OpForklessCause (ex_id 8) (ex_id 4); OpAdd (ex_id 9); OpForklessCause (ex_id 9) (ex_id 4);
   OpDropNotFlushed; OpForklessCause (ex_id 8) (ex_id 1)].

Definition ex_answers : go (list (option bool)) :=
  vi ← NewIndex ex_cache ex_validators ex_tables;
  '(rs, _) ← exec_all ex_getEvent ex_Hash 100 vi ex_ops;
  Ret (filter (fun r => r <> None) rs).

Lemma ex_ops_ok : ops_ok ex_validators ex_getEvent ex_Hash 100 ([], []) ex_ops.
Proof. apply ops_okb_sound. by vm_compute. Qed.

Lemma ex_answers_eq : ex_answers = Ret [Some true; Some true; Some false; Some true].
Proof. by vm_compute. Qed.

Lemma index_refines_graph_witness :
  exists vi0 rs vi, NewIndex ex_cache ex_validators ex_tables = Ret vi0 /\
    exec_all ex_getEvent ex_Hash 100 vi0 ex_ops = Ret (rs, vi) /\
    Forall2 (answer_ok ex_validators ex_getEvent) ex_ops rs /\
    simulates ex_validators ex_getEvent vi (foldl abs_op ([], []) ex_ops).
Proof.
  exact (index_refines_graph ex_validators ex_getEvent ex_Hash 100 ex_validators_ok
           ex_tables ex_cache ex_ops ex_tables_rep ex_ops_ok).
Defined.

(** ** The state with all nine events *)

Definition ex_connected : list hash := ex_id <$> [1; 2; 3; 4; 5; 6; 7; 8; 9].

Lemma ex_reached : exists (vi : Index ex_T ex_F) saved,
  simulates ex_validators ex_getEvent vi (ex_connected, saved).
Proof.
  destruct (NewIndex_simulates ex_validators ex_getEvent ex_validators_ok ex_tables ex_cache ex_tables_rep)
    as (vi0 & _ & H0).
  assert (ops_ok ex_validators ex_getEvent ex_Hash 100 ([], []) (take 13 ex_ops)) as Hok
    by (apply ops_okb_sound; by vm_compute).
  destruct (exec_all_simulates ex_validators ex_getEvent ex_Hash 100 ex_validators_ok _ vi0 _ H0 Hok)
    as (_ & vi & _ & Hs & _).
  exists vi. eexists. exact Hs.
Qed.

Lemma ex_fork : fork (Validators_Copy ex_validators) ex_getEvent 3 (ex_id 4) (ex_id 5).
Proof. unfold fork. split; [done|]. by vm_compute. Qed.

Lemma ex_byzantine : byzantine (Validators_Copy ex_validators) ex_getEvent ex_connected {[3]}.
Proof.
  assert (Forall (fun x => Forall (fun y => x = y \/ sq ex_getEvent x <> sq ex_getEvent y \/
            cr (Validators_Copy ex_validators) ex_getEvent x <> cr (Validators_Copy ex_validators) ex_getEvent y \/
            cr (Validators_Copy ex_validators) ex_getEvent x = 3) ex_connected) ex_connected) as Hall
    by (apply (bool_decide_unpack _); by vm_compute).
  intros c x y Hx Hy (Hne & Cx & Cy & Hs). rewrite Forall_forall in Hall. specialize (Hall x Hx).
  rewrite Forall_forall in Hall. specialize (Hall y Hy). apply elem_of_singleton.
  destruct Hall as [?|[?|[?|?]]]; congruence.
Qed.

Lemma forks_never_both_cause_witness :
  exists (vi vi1 vi2 : Index ex_T ex_F) r1 r2,
    VecIndex.ForklessCause vi (ex_id 8) (ex_id 4) = Ret (r1, vi1) /\
    VecIndex.ForklessCause vi1 (ex_id 9) (ex_id 5) = Ret (r2, vi2) /\ r1 && r2 = false.
Proof.
  destruct ex_reached as (vi & saved & Hs).
  assert (forall a b, a ∈ ex_connected -> b ∈ ex_connected ->
            forall vi : Index ex_T ex_F, simulates ex_validators ex_getEvent vi (ex_connected, saved) ->
            exists r vi', VecIndex.ForklessCause vi a b = Ret (r, vi') /\
              simulates ex_validators ex_getEvent vi' (ex_connected, saved)) as Hq.
  { intros a b Ha Hb w Hw.
    destruct (exec_simulates ex_validators ex_getEvent ex_Hash 100 ex_validators_ok w _
                (OpForklessCause a b) Hw (conj Ha Hb)) as (o & w' & E & Hw' & _).
    simpl in E. apply go_bind_inv in E as ([r w2] & E & [= _ <-]). by exists r, w2. }
  assert (forall i, i ∈ [4; 5; 8; 9] -> ex_id i ∈ ex_connected) as Hin
    by (apply Forall_forall, (bool_decide_unpack _); by vm_compute).
  destruct (Hq (ex_id 8) (ex_id 4) ltac:(apply Hin; set_solver) ltac:(apply Hin; set_solver) vi Hs)
    as (r1 & vi1 & E1 & Hs1).
  destruct (Hq (ex_id 9) (ex_id 5) ltac:(apply Hin; set_solver) ltac:(apply Hin; set_solver) vi1 Hs1)
    as (r2 & vi2 & E2 & Hs2).
  exists vi, vi1, vi2, r1, r2. split; [done|]. split; [done|].
  apply (forks_never_both_cause ex_validators ex_getEvent ex_validators_ok vi vi1 vi2 _
           (ex_id 8) (ex_id 9) (ex_id 4) (ex_id 5) 3 {[3]} r1 r2 Hs);
    try (apply Hin; set_solver); try exact ex_fork; try done.
  - apply ex_byzantine.
  - intros x Hx. apply elem_of_singleton in Hx as ->. apply elem_of_all_idx. by vm_compute.
Defined.

Lemma NoCheaters_exact_witness :
  exists (vi : Index ex_T ex_F) saved l vi',
    NoCheaters ex_getEvent vi (Some (ex_id 9)) [ex_id 4; ex_id 7] = Ret (l, vi') /\
    simulates ex_validators ex_getEvent vi' (ex_connected, saved) /\
    l `sublist_of` [ex_id 4; ex_id 7] /\
    forall id, id ∈ l <-> id ∈ [ex_id 4; ex_id 7] /\
      ~ sees_fork (Validators_Copy ex_validators) ex_getEvent (ex_id 9)
          (cr (Validators_Copy ex_validators) ex_getEvent id).
Proof.
  destruct ex_reached as (vi & saved & Hs). exists vi, saved.
  apply (NoCheaters_exact ex_validators ex_getEvent ex_validators_ok vi (ex_connected, saved)
           (ex_id 9) [ex_id 4; ex_id 7] Hs).
  - apply (bool_decide_unpack _). by vm_compute.
  - intros id Hid.
    assert (Forall (fun i => match ex_getEvent i with
                             | Some e => Creator e ∈ Validators_SortedIDs (Validators_Copy ex_validators)
                             | None => False end) [ex_id 4; ex_id 7]) as Hall.
    { repeat constructor; apply (bool_decide_unpack _); by vm_compute. }
    rewrite Forall_forall in Hall. specialize (Hall id Hid).
    destruct (ex_getEvent id) as [e|]; [by exists e|done].
Defined.

(** * A reference implementation of the forkless-cause relation

    The ancestors of every event as sets, the forks among them, and the
    validators through which an event is observed: slow, but directly the
    definition, and so the relation that the index is proved to answer can be evaluated. *)

Section ref.
Context (vv : Validators) (getEvent : hash -> option EventHeaderData).

(** The ancestors of each event of [hs], an event included. *)
Definition anc_step (m : gmap hash (gset hash)) (h : hash) : gmap hash (gset hash) :=
  match getEvent h with
  | None => m
  | Some e => <[h := {[h]} ∪ ⋃ ((fun q => default ∅ (m !! q)) <$> Parents e)]> m
  end.
Definition ancestors (hs : list hash) : gmap hash (gset hash) := foldl anc_step ∅ hs.

Definition anc (hs : list hash) (h : hash) : gset hash := default ∅ (ancestors hs !! h).

Definition sees_forkb (hs : list hash) (a : hash) (c : Z) : bool :=
  bool_decide (Exists (fun x => Exists (fun y => fork vv getEvent c x y) (elements (anc hs a))) (elements (anc hs a))).

(** The validators that [a] observes without a fork and through which it
    observes [b]. *)
Definition causing (hs : list hash) (a b : hash) : gset Z :=
  filter (fun c => sees_forkb hs a c = false /\
                   Exists (fun x => cr vv getEvent x = c /\ b ∈ anc hs x) (elements (anc hs a))) (all_idx vv).

Definition forkless_causeb (hs : list hash) (a b : hash) : bool :=
  negb (sees_forkb hs a (cr vv getEvent b)) && (Validators_Quorum vv <=? stake_of vv (causing hs a b)).

Context (hs : list hash) (Hd : dag vv getEvent hs).

Lemma elem_of_anc (h x : hash) : h ∈ hs -> x ∈ anc hs h <-> observes getEvent h x.
Proof.
  unfold anc, ancestors. revert x. revert h.
  induction Hd as [|hs' h' e Hd' IH Hn He Hok]; intros h x; [by intros ?%elem_of_nil|].
  rewrite foldl_app. simpl. unfold anc_step at 1. rewrite He. intros [Hh| ->%list_elem_of_singleton]%elem_of_app.
  - rewrite lookup_insert_ne by (by intros ->). apply IH; done.
  - rewrite lookup_insert_eq. simpl. rewrite elem_of_union, elem_of_singleton, elem_of_union_list.
    rewrite (observes_step getEvent h' e x He). apply or_iff_compat_l. split.
    + intros (A & (q & -> & Hq)%list_elem_of_fmap & Hx). exists q. split; [done|].
      apply IH; [done|by apply (ek_parents _ _ _ _ Hok)|done].
    + intros (q & Hq & Ho). eexists. split; [apply list_elem_of_fmap; by exists q|].
      apply IH; [done|by apply (ek_parents _ _ _ _ Hok)|done].
Qed.

Lemma sees_forkb_spec (a : hash) c : a ∈ hs -> sees_forkb hs a c = true <-> sees_fork vv getEvent a c.
Proof.
  intros Ha. unfold sees_forkb, sees_fork. rewrite bool_decide_eq_true, Exists_exists. setoid_rewrite Exists_exists.
  setoid_rewrite elem_of_elements. setoid_rewrite (fun x => elem_of_anc a x Ha). naive_solver.
Qed.

Context (Hvv : validators_ok vv).

Lemma forkless_causeb_spec (a b : hash) :
  a ∈ hs -> forkless_causeb hs a b = true <-> forkless_cause vv getEvent a b.
Proof.
  intros Ha. unfold forkless_causeb, forkless_cause.
  rewrite andb_true_iff, negb_true_iff, Z.leb_le, <-not_true_iff_false, sees_forkb_spec by done.
  apply and_iff_under. intros _.
  assert (forall c, c ∈ causing hs a b <-> c ∈ all_idx vv /\ ~ sees_fork vv getEvent a c /\
            exists x, observes getEvent a x /\ cr vv getEvent x = c /\ observes getEvent x b) as Hc.
  { intros c. unfold causing. rewrite elem_of_filter, <-not_true_iff_false, sees_forkb_spec, Exists_exists by done.
    assert ((exists x, x ∈ elements (anc hs a) /\ cr vv getEvent x = c /\ b ∈ anc hs x) <->
            (exists x, observes getEvent a x /\ cr vv getEvent x = c /\ observes getEvent x b)) as ->; [|tauto].
    apply exist_proper. intros x. rewrite elem_of_elements, elem_of_anc by done.
    apply and_iff_under. intros Ho. by rewrite elem_of_anc by (by eapply dag_closed). }
  split.
  - intros HQ. exists (causing hs a b). split; [done|]. split; [intros c [? _]%Hc; done|]. intros c [_ ?]%Hc. done.
  - intros (Q & HQ & Hsub & H). assert (Q ⊆ causing hs a b) as HQs.
    { intros c Hcq. apply Hc. split; [by apply Hsub|by apply H]. }
    pose proof (stake_of_mono vv Hvv Q (causing hs a b) HQs). unfold is_quorum in *. lia.
Qed.
End ref.

(** The reference at the example: event 8 is caused by 1 and by 4, event 9,
    which sees the fork of validator 4, is not caused by 4 any more. *)
Example forkless_causeb_example :
  (fun ab => forkless_causeb (Validators_Copy ex_validators) ex_getEvent ex_connected (ex_id ab.1) (ex_id ab.2))
    <$> [(8, 1); (8, 4); (9, 4); (9, 1)] = [true; true; false; true].
Proof. by vm_compute. Qed.
