(* ===== verification/MedianTime.v ===== *)
(** * The weighted median of the claimed times: vector/median_time.go *)

From S2P Require Import Prelude Bytes Pos Event Vector VecStore VecIndex.
(** The stake that claims a time before [t], and not after [t]. *)
Definition below_stake (l : list medianTimeIndex) (t : Z) : Z :=
  zsum (m_stake <$> filter (fun h => m_claimedTime h < t) l).
Definition upto_stake (l : list medianTimeIndex) (t : Z) : Z :=
  zsum (m_stake <$> filter (fun h => m_claimedTime h <= t) l).
Definition total_stake (l : list medianTimeIndex) : Z := zsum (m_stake <$> l).

Definition unsigned (l : list medianTimeIndex) : Prop := Forall (fun h => 0 <= m_stake h) l.

(** [m] is a claimed time, at least half of the stake claims no later one, and
    less than half an earlier one (or nobody does). *)
Definition is_median (l : list medianTimeIndex) (m : Z) : Prop :=
  m ∈ m_claimedTime <$> l /\ total_stake l / 2 <= upto_stake l m /\
  (below_stake l m < total_stake l / 2 \/ Forall (fun h => m <= m_claimedTime h) l).

Lemma filter_stake_nonneg (P : medianTimeIndex -> Prop) `{forall h, Decision (P h)} l :
  unsigned l -> 0 <= zsum (m_stake <$> filter P l).
Proof.
  intros Hl. apply zsum_nonneg, Forall_fmap, Forall_forall. intros h [_ Hh]%list_elem_of_filter.
  unfold unsigned in Hl. rewrite Forall_forall in Hl. by apply Hl.
Qed.

Lemma below_cons h l t :
  below_stake (h :: l) t = (if decide (m_claimedTime h < t) then m_stake h else 0) + below_stake l t.
Proof. unfold below_stake. rewrite filter_cons. case_decide; csimpl; lia. Qed.
Lemma upto_cons h l t :
  upto_stake (h :: l) t = (if decide (m_claimedTime h <= t) then m_stake h else 0) + upto_stake l t.
Proof. unfold upto_stake. rewrite filter_cons. case_decide; csimpl; lia. Qed.

Lemma below_none l t : Forall (fun h => t <= m_claimedTime h) l -> below_stake l t = 0.
Proof.
  induction 1 as [|h l Hh Hl IH]; [done|]. rewrite below_cons, decide_False by lia. lia.
Qed.

Lemma upto_below l t1 t2 : unsigned l -> t1 < t2 -> upto_stake l t1 <= below_stake l t2.
Proof.
  intros Hl Ht. induction Hl as [|h l Hh Hl IH]; [done|].
  rewrite upto_cons, below_cons. repeat case_decide; lia.
Qed.

#[export] Instance time_le_total : Total time_le.
Proof. intros a b. unfold time_le. lia. Qed.
#[export] Instance time_le_trans : Transitive time_le.
Proof. intros a b c. unfold time_le. lia. Qed.

(** The loop over any list that is sorted by the time. *)
Lemma medianLoop_spec half l : forall acc,
  StronglySorted time_le l -> unsigned l -> l <> [] -> 0 <= acc ->
  is_u64 (acc + total_stake l) -> half <= acc + total_stake l ->
  exists c m, medianLoop half l acc = (c, m) /\ half <= c <= acc + total_stake l /\
    m ∈ m_claimedTime <$> l /\ half <= acc + upto_stake l m /\
    (acc + below_stake l m < half \/ Forall (fun h => m <= m_claimedTime h) l).
Proof.
  induction l as [|h l IH]; intros acc Hs Hu Hne Hacc Hfit Hhalf; [done|].
  apply StronglySorted_inv in Hs as [Hs Hmin]. apply Forall_cons in Hu as [Hh Hu].
  unfold total_stake in Hfit, Hhalf |- *. rewrite fmap_cons in Hfit, Hhalf |- *. simpl in Hfit, Hhalf |- *.
  assert (0 <= total_stake l) as Htot by (apply zsum_nonneg, Forall_fmap; exact Hu).
  fold (total_stake l) in Hfit, Hhalf |- *.
  rewrite u64_id by (unfold is_u64 in *; lia). rewrite Z.geb_leb.
  assert (0 <= upto_stake l (m_claimedTime h)) as Hup by (by apply filter_stake_nonneg).
  destruct (Z.leb_spec half (acc + m_stake h)) as [Hge|Hlt].
  - eexists _, _. split; [done|]. split; [lia|]. split; [apply list_elem_of_here|].
    rewrite upto_cons, decide_True by lia. split; [lia|]. right. constructor; [lia|exact Hmin].
  - destruct l as [|h2 l']; [change (total_stake []) with 0 in Hhalf; lia|].
    destruct (IH (acc + m_stake h) Hs Hu) as (c & m & E & Hc & Hm & Hupm & Hbel);
      [done|lia|unfold is_u64 in *; lia|lia|].
    exists c, m. split; [done|]. split; [lia|]. split; [by apply list_elem_of_further|].
    assert (m_claimedTime h <= m) as Hhm.
    { apply list_elem_of_fmap in Hm as (x & -> & Hx). rewrite Forall_forall in Hmin. by apply Hmin. }
    rewrite upto_cons, (decide_True (P := m_claimedTime h <= m)) by lia. split; [lia|].
    rewrite below_cons. left.
    assert (acc + m_stake h + below_stake (h2 :: l') m < half) by (destruct Hbel as [|Hb]; [done|rewrite (below_none _ _ Hb); lia]).
    case_decide; lia.
Qed.

Lemma perm_total l l' : l ≡ₚ l' -> total_stake l = total_stake l'.
Proof. intros E. unfold total_stake. by rewrite E. Qed.
Lemma perm_median l l' m : l ≡ₚ l' -> is_median l m -> is_median l' m.
Proof.
  intros E (H1 & H2 & H3). unfold is_median, below_stake, upto_stake in *.
  rewrite <-(perm_total _ _ E). rewrite <-E. done.
Qed.

Lemma median_unique l m1 m2 : unsigned l -> is_median l m1 -> is_median l m2 -> m1 = m2.
Proof.
  assert (forall a b, unsigned l -> is_median l a -> is_median l b -> ~ a < b) as Hlt.
  { intros a b Hu (Ha & Hau & _) (_ & _ & Hb) Hab. pose proof (upto_below l a b Hu Hab).
    destruct Hb as [Hb|Hb]; [lia|]. apply list_elem_of_fmap in Ha as (x & -> & Hx).
    rewrite Forall_forall in Hb. apply Hb in Hx. lia. }
  intros Hu H1 H2. pose proof (Hlt _ _ Hu H1 H2). pose proof (Hlt _ _ Hu H2 H1). lia.
Qed.

Lemma medianLoop_median l s :
  s ≡ₚ l -> StronglySorted time_le s -> unsigned l -> l <> [] -> is_u64 (total_stake l) ->
  exists c m, medianLoop (total_stake l / 2) s 0 = (c, m) /\
    total_stake l / 2 <= c <= total_stake l /\ is_median l m.
Proof.
  intros Hp Hs Hu Hne Hfit.
  assert (unsigned s) as Hus by (unfold unsigned; by rewrite Hp).
  assert (0 <= total_stake l) as H0 by (apply zsum_nonneg, Forall_fmap; exact Hu).
  destruct (medianLoop_spec (total_stake l / 2) s 0) as (c & m & E & Hc & Hm & Hup & Hb); try done.
  - intros ->. by apply Permutation_nil_l in Hp.
  - by rewrite (perm_total _ _ Hp).
  - rewrite (perm_total _ _ Hp). word.
  - exists c, m. rewrite (perm_total _ _ Hp) in Hc. split; [done|]. split; [lia|].
    apply (perm_median s l); [done|]. unfold is_median. rewrite (perm_total _ _ Hp).
    split; [done|]. split; [lia|]. destruct Hb; [left; lia|by right].
Qed.

Lemma weightedMedian_returns (l : list medianTimeIndex) :
  l <> [] -> unsigned l -> is_u64 (total_stake l) -> exists m, weightedMedian l = Ret m /\ is_median l m.
Proof.
  intros Hne Hu Hfit.
  destruct (medianLoop_median l (merge_sort time_le l)) as (c & m & E & Hc & Hm); try done.
  { apply merge_sort_Permutation. }
  { apply (StronglySorted_merge_sort time_le). }
  exists m. split; [|done]. unfold weightedMedian. rewrite (foldl_u64_zsum m_stake) by (lia || done).
  rewrite Z.add_0_l. fold (total_stake l). rewrite E.
  destruct (Z.ltb_spec c (total_stake l / 2)); [lia|]. rewrite Z.gtb_ltb.
  destruct (Z.ltb_spec (total_stake l) c); [lia|]. done.
Qed.

(** the weighted median exists and is unique: for stakes that fit the
    counter, [weightedMedian] passes its sanity check and returns a claimed
    time with at least half of the stake not after it and less than half
    before it; and every way of sorting the validators by their times gives the
    same result, so that the instability of the sort and the order of the
    validators do not matter. *)
Theorem weighted_median_unique (l : list medianTimeIndex) :
  l <> [] -> unsigned l -> is_u64 (total_stake l) ->
  exists m, weightedMedian l = Ret m /\ is_median l m /\
    forall s, s ≡ₚ l -> StronglySorted time_le s -> (medianLoop (total_stake l / 2) s 0).2 = m.
Proof.
  intros Hne Hu Hfit. destruct (weightedMedian_returns l Hne Hu Hfit) as (m & E & Hm).
  exists m. split; [done|]. split; [done|]. intros s Hp Hs.
  destruct (medianLoop_median l s) as (c' & m' & E' & _ & Hm'); try done. rewrite E'. by apply (median_unique l).
Qed.

Lemma weighted_median_unique_witness :
  exists m, weightedMedian [mkMedian 3 70; mkMedian 0 5; mkMedian 2 40; mkMedian 2 70] = Ret m /\
    is_median [mkMedian 3 70; mkMedian 0 5; mkMedian 2 40; mkMedian 2 70] m /\
    forall s, s ≡ₚ [mkMedian 3 70; mkMedian 0 5; mkMedian 2 40; mkMedian 2 70] ->
      StronglySorted time_le s -> (medianLoop (7 / 2) s 0).2 = m.
Proof.
  apply (weighted_median_unique [mkMedian 3 70; mkMedian 0 5; mkMedian 2 40; mkMedian 2 70]); [done| |done].
  repeat (constructor; [simpl; lia|]). constructor.
Defined.
