(* ===== verification/VecMerged.v ===== *)
(** * The merged vector clock and the median time

    [getHighestBeforeMerged] folds the branches of each creator into one
    entry.  It tells, for each validator, whether the event observes a fork of
    it, and else which events of it are observed and when the last of them was
    created; [MedianTime] is computed from it and always returns. *)

From S2P Require Import Prelude Bytes Kvdb KvdbLaws Pos Event Vector VecStore VecIndex Dag VecInv VecMerge VecWalk VecAdd ForklessCause VecSpec VecExample MedianTime.

Section merged.
Context (vv : Validators) (Hvv : validators_ok vv) (getEvent : hash -> option EventHeaderData).
Abbreviation nv := (zlen (Validators_SortedIDs vv)).
Abbreviation observes := (observes getEvent).
Abbreviation cr := (cr vv getEvent).
Abbreviation sq := (sq getEvent).
Abbreviation ct := (ct getEvent).
Abbreviation sees_fork := (sees_fork vv getEvent).

(** The sequence numbers of the events of creator [k] that [h] observes. *)
Definition seen_of (h : hash) (k z : Z) : Prop := exists x, observes h x /\ cr x = k /\ sq x = z.

(** One entry for creator [k]. *)
Record entry_ok (h : hash) (k : Z) (s : BranchSeq) (time : Z) : Prop := {
  en_fork : sees_fork h k -> s = forkDetectedSeq;
  en_range : ~ sees_fork h k -> is_range (bs_MinSeq s) (bs_Seq s) (seen_of h k);
  en_time x : ~ sees_fork h k -> observes h x -> cr x = k -> sq x = bs_Seq s -> time = ct x
}.

Record merged_ok (h : hash) (s c : bytes) : Prop := {
  mg_seq : vec_ok 8 s;
  mg_time : vec_ok 8 c;
  mg_size : nv <= HighestBeforeSeq_Size s;
  mg_entry k : 0 <= k < nv -> entry_ok h k (hb_at s k) (ht_at c k)
}.

Lemma merged_fork h s c k : merged_ok h s c -> 0 <= k < nv -> hb_at s k = forkDetectedSeq -> sees_fork h k \/ ~ sees_fork h k ->
  sees_fork h k.
Proof.
  intros Hm Hk E [|Hn]; [done|]. destruct (mg_entry _ _ _ Hm k Hk) as [_ Hr _].
  by apply is_range_not_fork in Hr.
Qed.

Section branches.
Context (hs : list hash) (bi : branchesInfo) (d : VecData) (Hinv : vec_inv vv getEvent hs bi d).
Context (h : hash) (Hh : h ∈ hs) (s c : bytes) (Hhb : hb_ok vv getEvent bi d h s c).

Lemma observed_in x : observes h x -> x ∈ hs.
Proof. intros Hx. eapply dag_closed; [apply (vi_dag _ _ _ _ _ Hinv)|exact Hh|done]. Qed.

Lemma observed_branch x : observes h x -> creator_of bi (br d x) = Some (cr x).
Proof. intros Hx. apply (br_creator _ _ _ _ _ (vi_branches _ _ _ _ _ Hinv)). by apply observed_in. Qed.

(** Without extra branches the entry of the creator is that of its branch. *)
Lemma unmerged_entry k : nb bi = nv -> 0 <= k < nv -> entry_ok h k (hb_at s k) (ht_at c k).
Proof.
  intros Hn Hk. pose proof (vi_bi_ok _ _ _ _ _ Hinv) as Hbi. pose proof (bo_first _ _ Hbi k Hk) as Ek.
  assert (forall x, observes h x -> br d x = cr x) as Hbr.
  { intros x Hx. pose proof (observed_branch x Hx) as E. pose proof (creator_of_lt _ _ _ E) as R.
    rewrite (bo_first _ _ Hbi (br d x)) in E by lia. congruence. }
  split.
  - intros Hf. destruct (sees_fork_branches vv getEvent hs bi d h k) as [? _]; try done; [|apply Hinv|lia].
    apply (vi_dag _ _ _ _ _ Hinv).
  - intros Hf. eapply is_range_ext; [|apply (hb_range _ _ _ _ _ _ _ Hhb k ltac:(lia) k Ek Hf)].
    intros z. unfold seen, seen_of. split; intros (x & Hx & Hb & Hz); exists x; (split; [done|]); (split; [|done]).
    + by rewrite <-Hbr.
    + by rewrite Hbr.
  - intros x Hf Hx Hc Hs. apply (hb_time _ _ _ _ _ _ _ Hhb k ltac:(lia) k Ek Hf x Hx); [|done].
    by rewrite Hbr.
Qed.

(** The loop over the branches of a creator without an observed fork. *)
Record partial (k : Z) (dn : list Z) (seq : BranchSeq) (time : Z) : Prop := {
  pa_range : is_range (bs_MinSeq seq) (bs_Seq seq) (fun z => exists b : Z, b ∈ dn /\ seen getEvent d h b z);
  pa_time x : observes h x -> br d x ∈ dn -> sq x = bs_Seq seq -> time = ct x;
  pa_u32 : is_u32 (bs_Seq seq) /\ is_u32 (bs_MinSeq seq) /\ is_u64 time
}.

Lemma partial_step k dn b seq time :
  ~ sees_fork h k -> creator_of bi b = Some k -> (forall b', b' ∈ dn -> creator_of bi b' = Some k) ->
  partial k dn seq time ->
  let branch := hb_at s b in
  let hi := if bs_Seq seq <? bs_Seq branch then bs_Seq branch else bs_Seq seq in
  let tm := if bs_Seq seq <? bs_Seq branch then ht_at c b else time in
  let lo := if negb (bs_MinSeq branch =? 0) && ((bs_MinSeq seq =? 0) || (bs_MinSeq seq >? bs_MinSeq branch))
            then bs_MinSeq branch else bs_MinSeq seq in
  partial k (dn ++ [b]) (mkBranchSeq hi lo) tm.
Proof.
  intros Hf Hb Hdn [Hr Ht (Hu1 & Hu2 & Hu3)] branch hi tm lo.
  pose proof (creator_of_lt _ _ _ Hb) as Rb.
  pose proof (hb_range _ _ _ _ _ _ _ Hhb b Rb k Hb Hf) as Hrb. fold branch in Hrb.
  destruct (hb_at_u32 s b (hb_vec _ _ _ _ _ _ _ Hhb)) as [U1 U2]. fold branch in U1, U2.
  pose proof (ht_at_u64 c b (ht_vec _ _ _ _ _ _ _ Hhb)) as U3.
  split.
  - cbn [bs_Seq bs_MinSeq]. apply (is_range_ext _ _ (fun z => (exists b', b' ∈ dn /\ seen getEvent d h b' z) \/ seen getEvent d h b z)).
    { intros z. split.
      - intros [(b' & ? & ?)|?]; [exists b'|exists b]; set_solver.
      - intros (b' & Hin & ?). apply elem_of_app in Hin as [?|Hin]; [left; eauto|].
        apply list_elem_of_singleton in Hin as ->. by right. }
    destruct (decide (bs_Seq branch = 0)) as [Hz|Hz].
    + assert (hi = bs_Seq seq) as -> by (unfold hi; rewrite Hz; destruct (Z.ltb_spec (bs_Seq seq) 0); word_unfold; lia).
      assert (bs_MinSeq branch = 0 /\ forall z, ~ seen getEvent d h b z) as [Hm Hno].
      { destruct Hrb as [(_ & ? & ?)|(H0 & Hl & _ & Hall)]; [done|]. apply Hall in Hl. lia. }
      assert (lo = bs_MinSeq seq) as -> by (unfold lo; by rewrite Hm). by apply is_range_union_empty.
    + assert (lo = if (bs_Seq seq =? 0) || (bs_MinSeq seq >? bs_MinSeq branch) then bs_MinSeq branch else bs_MinSeq seq) as ->.
      { unfold lo. destruct Hrb as [(? & ? & _)|(H0 & _)]; [done|]. rewrite (proj2 (Z.eqb_neq _ 0)) by lia.
        simpl. destruct Hr as [(-> & -> & _)|(H1 & H2 & _ & H3)]; [done|]. apply H3 in H2.
        rewrite !(proj2 (Z.eqb_neq _ 0)) by lia. done. }
      by apply is_range_union.
  - cbn [bs_Seq]. intros x Hx Hin Hs. apply elem_of_app in Hin as [Hin|Hin].
    + destruct (Z.ltb_spec (bs_Seq seq) (bs_Seq branch)) as [Hlt|Hge]; unfold hi, tm in *.
      * exfalso.
        destruct Hr as [(_ & _ & Hno)|(_ & _ & _ & Hall)].
        -- apply (Hno (sq x)). exists (br d x). split; [done|]. by exists x.
        -- assert (bs_MinSeq seq <= sq x <= bs_Seq seq); [|lia]. apply Hall. exists (br d x). split; [done|]. by exists x.
      * by apply Ht.
    + apply list_elem_of_singleton in Hin. destruct (Z.ltb_spec (bs_Seq seq) (bs_Seq branch)) as [Hlt|Hge]; unfold hi, tm in *.
      * by apply (hb_time _ _ _ _ _ _ _ Hhb b Rb k Hb Hf x Hx).
      * destruct Hr as [(E0 & _ & _)|(_ & _ & (b' & Hb' & y & Hy & Eb & Ey) & _)].
        { exfalso. pose proof (dag_cr vv getEvent hs x Hvv (vi_dag _ _ _ _ _ Hinv) (observed_in x Hx)) as [_ ?]. lia. }
        assert (x = y) as ->; [|apply Ht; [done|by rewrite Eb|done]].
        destruct (decide (x = y)) as [|Hne]; [done|]. exfalso. apply Hf. exists x, y. split; [done|]. split; [done|].
        split; [done|]. pose proof (observed_branch x Hx) as Cx. pose proof (observed_branch y Hy) as Cy.
        rewrite Hin, Hb in Cx. rewrite Eb, (Hdn b' Hb') in Cy. split_and!; congruence.
  - cbn [bs_Seq bs_MinSeq]. unfold hi, lo, tm. repeat case_match; done.
Qed.

Lemma mergeBranches_honest k l : forall dn seq time,
  ~ sees_fork h k -> (forall b, b ∈ dn ++ l -> creator_of bi b = Some k) -> partial k dn seq time ->
  exists seq' time', mergeBranches s c l seq time = Ret (seq', time') /\ partial k (dn ++ l) seq' time'.
Proof.
  induction l as [|b l IH]; intros dn seq time Hf Hl Hp.
  { exists seq, time. by rewrite app_nil_r. }
  assert (creator_of bi b = Some k) as Hb by (apply Hl; set_solver).
  pose proof (creator_of_lt _ _ _ Hb) as Rb. cbn [mergeBranches].
  rewrite (HighestBeforeSeq_Get_spec s b (hb_vec _ _ _ _ _ _ _ Hhb)), go_bind_Ret by lia.
  destruct (IsForkDetected_spec (hb_at s b)) as [E|E].
  { exfalso. apply Hf. by apply (hb_sound _ _ _ _ _ _ _ Hhb b k Hb). }
  pose proof (partial_step k dn b seq time Hf Hb ltac:(set_solver) Hp) as Hs. cbv zeta in Hs.
  replace (dn ++ b :: l) with ((dn ++ [b]) ++ l) in Hl |- * by (by rewrite <-app_assoc).
  destruct (bs_Seq seq <? bs_Seq (hb_at s b)) eqn:Elt.
  - rewrite (HighestBeforeTime_Get_spec c b (ht_vec _ _ _ _ _ _ _ Hhb)), !go_bind_Ret by lia.
    cbn [bs_Seq bs_MinSeq] in *. case_match; apply (IH _ _ _ Hf Hl Hs).
  - rewrite go_bind_Ret. destruct seq as [hi lo]. cbn [bs_Seq bs_MinSeq] in *.
    case_match; apply (IH _ _ _ Hf Hl Hs).
Qed.

Lemma mergeBranches_fork l : forall seq time,
  is_u64 time -> (forall b, b ∈ l -> 0 <= b) -> (exists b, b ∈ l /\ hb_at s b = forkDetectedSeq) ->
  exists time', mergeBranches s c l seq time = Ret (forkDetectedSeq, time') /\ is_u64 time'.
Proof.
  induction l as [|b l IH]; intros seq time Hu Hl (b0 & Hb0 & E0); [by apply elem_of_nil in Hb0|].
  cbn [mergeBranches].
  rewrite (HighestBeforeSeq_Get_spec s b (hb_vec _ _ _ _ _ _ _ Hhb)), go_bind_Ret by (apply Hl; set_solver).
  destruct (IsForkDetected_spec (hb_at s b)) as [E|E]; [rewrite E; eauto|].
  assert (exists b0, b0 ∈ l /\ hb_at s b0 = forkDetectedSeq) as Hex.
  { exists b0. split; [|done]. apply elem_of_cons in Hb0 as [->|]; done. }
  destruct (bs_Seq seq <? bs_Seq (hb_at s b)).
  - rewrite (HighestBeforeTime_Get_spec c b (ht_vec _ _ _ _ _ _ _ Hhb)), !go_bind_Ret by (apply Hl; set_solver).
    apply IH; [apply ht_at_u64, Hhb|set_solver|done].
  - rewrite go_bind_Ret. apply IH; [done|set_solver|done].
Qed.

Lemma mergeBranches_spec k l :
  (sees_fork h k \/ ~ sees_fork h k) -> (forall b : Z, b ∈ l <-> creator_of bi b = Some k) -> 0 <= k < nv ->
  exists seq time, mergeBranches s c l (mkBranchSeq 0 0) 0 = Ret (seq, time) /\
    is_u32 (bs_Seq seq) /\ is_u32 (bs_MinSeq seq) /\ is_u64 time /\ entry_ok h k seq time.
Proof.
  intros Hdec Hl Hk. pose proof (vi_bi_ok _ _ _ _ _ Hinv) as Hbi. pose proof (bo_first _ _ Hbi k Hk) as Ek.
  destruct Hdec as [Hf|Hf].
  - destruct (mergeBranches_fork l (mkBranchSeq 0 0) 0) as (time & E & Hu); [done| | |].
    + intros b Hb%Hl%creator_of_lt. lia.
    + exists k. split; [by apply Hl|]. pose proof (hb_size _ _ _ _ _ _ _ Hhb).
      by apply (hb_fork _ _ _ _ _ _ _ Hhb k ltac:(lia) k Ek).
    + exists forkDetectedSeq, time. split_and!; [done..|]. split; [done| |]; intros; done.
  - destruct (mergeBranches_honest k l [] (mkBranchSeq 0 0) 0 Hf) as (seq & time & E & [Hr Ht (U1 & U2 & U3)]).
    + intros b Hb. by apply Hl.
    + split; [|by intros x _ ?%elem_of_nil|done]. left. split_and!; [done..|]. intros z (b & ?%elem_of_nil & _). done.
    + exists seq, time. split_and!; [done..|]. split; [done| |].
      * intros _. eapply is_range_ext; [|exact Hr]. intros z. split.
        -- intros (b & Hb & x & Hx & Eb & Ez). exists x. split; [done|]. split; [|done].
           pose proof (observed_branch x Hx) as C. rewrite Eb, (proj1 (Hl b) Hb) in C. congruence.
        -- intros (x & Hx & Ec & Ez). exists (br d x). split; [|by exists x]. apply Hl. rewrite <-Ec. by apply observed_branch.
      * intros x _ Hx Ec Es. apply Ht; [done| |done]. simpl. apply Hl. rewrite <-Ec. by apply observed_branch.
Qed.

End branches.

(** ** At the index *)

Context {T F : Type} `{HT : VecStoreLaws T} `{HF : LruLaws (hash * hash) bool F}.
Implicit Types vi : Index T F.

Lemma mergeCreators_spec hs bi d (h : hash) s c :
  vec_inv vv getEvent hs bi d -> h ∈ hs -> hb_ok vv getEvent bi d h s c ->
  exists ms mt, go_fold (mergeCreator s c) (NewHighestBeforeSeq nv, NewHighestBeforeTime nv)
                  (enumerate (BranchIDByCreators bi)) = Ret (ms, mt) /\ merged_ok h ms mt.
Proof.
  intros Hinv Hh Hhb. pose proof (vi_bi_ok _ _ _ _ _ Hinv) as Hbi. pose proof (nv_nonneg vv) as Hn.
  assert (8 * nv < 2 ^ 32) as Hbound.
  { pose proof (hb_size _ _ _ _ _ _ _ Hhb). destruct (decide (nv = 0)) as [->|]; [lia|].
    pose proof (vec_ok_offset 8 s (nv - 1) ltac:(lia) (hb_vec _ _ _ _ _ _ _ Hhb)) as Hv.
    unfold HighestBeforeSeq_Size in *. lia. }
  destruct (go_fold_inv (mergeCreator s c)
              (fun dn st => vec_ok 8 st.1 /\ vec_ok 8 st.2 /\ nv <= HighestBeforeSeq_Size st.1 /\
                 forall k l, (k, l) ∈ dn -> entry_ok h k (hb_at st.1 k) (ht_at st.2 k))
              (enumerate (BranchIDByCreators bi)) (NewHighestBeforeSeq nv, NewHighestBeforeTime nv))
    as ([ms mt] & E & H1 & H2 & H3 & H4).
  - cbn [fst snd]. split_and!.
    + apply (vec_ok_new 8 ltac:(lia)); lia.
    + apply (vec_ok_new 8 ltac:(lia)); lia.
    + unfold HighestBeforeSeq_Size, NewHighestBeforeSeq, zlen. rewrite length_replicate. word.
    + by intros k l ?%elem_of_nil.
  - intros dn [k l] rest [s1 c1] El (V1 & V2 & Hsz & Hent). cbn [fst snd] in *.
    pose proof (enumerate_elem _ _ _ _ _ El) as Hl. pose proof (slice_get_lt _ _ _ Hl) as Hk. rewrite (bo_by _ _ Hbi) in Hk.
    destruct (mergeBranches_spec hs bi d Hinv h Hh s c Hhb k l) as (seq & time & Em & U1 & U2 & U3 & Hok).
    + destruct (decide (hb_at s k = forkDetectedSeq)) as [Ef|Ef].
      * left. by apply (hb_sound _ _ _ _ _ _ _ Hhb k k (bo_first _ _ Hbi k Hk)).
      * right. intros Hf. apply Ef. pose proof (hb_size _ _ _ _ _ _ _ Hhb).
        by apply (hb_fork _ _ _ _ _ _ _ Hhb k ltac:(lia) k (bo_first _ _ Hbi k Hk)).
    + by apply (bo_lists _ _ Hbi).
    + done.
    + unfold mergeCreator. cbn [fst snd]. rewrite Em, go_bind_Ret.
      destruct (HighestBeforeTime_Set_spec c1 k time) as (c2 & E2 & V3 & _ & A2); [done|lia|lia|done|].
      destruct (HighestBeforeSeq_Set_spec s1 k seq) as (s2 & E3 & V4 & Z4 & A3); [done|lia|lia|done|done|].
      rewrite E2, go_bind_Ret, E3, go_bind_Ret. eexists. split; [done|]. cbn [fst snd].
      split_and!; [done|done|lia|]. intros k' l' Hin.
      assert (0 <= k') as Hk'.
      { assert ((k', l') ∈ enumerate (BranchIDByCreators bi)) as He
          by (rewrite El, elem_of_app; apply elem_of_app in Hin as [?|?%list_elem_of_singleton]; [by left|set_solver]).
        apply elem_of_enumerate in He. by apply slice_get_lt in He as [? _]. }
      rewrite A2, A3 by done. apply elem_of_app in Hin as [Hin|Hin].
      * case_decide; [by subst|]. by apply (Hent k' l').
      * apply list_elem_of_singleton in Hin as [= -> ->]. by rewrite !decide_True by done.
  - exists ms, mt. split; [done|]. split; [done..|]. cbn [fst snd] in *. intros k Hk.
    destruct (by_creators vv bi k Hbi Hk) as (l & Hl & _). by apply (H4 k l), elem_of_enumerate.
Qed.

Lemma getHighestBeforeMerged_spec vi hs d f (h : hash) :
  index_ok vv getEvent vi hs d f -> h ∈ hs ->
  exists s c vi', getHighestBeforeMerged vi h = Ret ((Some s, Some c), vi') /\
    index_ok vv getEvent vi' hs d f /\ c_ForklessCause vi' = c_ForklessCause vi /\ merged_ok h s c.
Proof.
  intros Hix Hh. destruct (initBranchesInfo_spec vv getEvent vi hs d f Hix) as (bi & Ei & Hinv & _).
  destruct (vi_hb _ _ _ _ _ Hinv h Hh) as (s & c & Es & Ec & Hhb).
  unfold getHighestBeforeMerged. rewrite Ei, go_bind_Ret. unfold use_bi. cbn [set_bi vi_bi vi_store vi_validators].
  rewrite go_bind_Ret. destruct (law_GetHighestBeforeSeq _ _ _ h (ix_rep _ _ _ _ _ _ Hix)) as (t1 & E1 & Hr1).
  rewrite E1, go_bind_Ret. destruct (law_GetHighestBeforeTime _ _ _ h Hr1) as (t2 & E2 & Hr2).
  rewrite E2, go_bind_Ret, Es, Ec. cbn [set_store vi_validators].
  change (vi_validators (set_bi vi (Some bi))) with (vi_validators vi). rewrite (ix_vv _ _ _ _ _ _ Hix), (atLeastOneFork_spec vv Hvv bi).
  destruct (Z.ltb_spec nv (nb bi)) as [Hlt|Hge]; cbn [negb].
  - destruct (mergeCreators_spec hs bi d h s c Hinv Hh Hhb) as (ms & mt & Em & Hm).
    rewrite (Validators_Len_nv vv Hvv). cbn [default from_option id]. rewrite Em, go_bind_Ret.
    eexists ms, mt, _. split; [done|]. split; [by apply index_ok_set|]. done.
  - eexists s, c, _. split; [done|]. split; [by apply index_ok_set|]. split; [done|].
    pose proof (bo_nv _ _ (vi_bi_ok _ _ _ _ _ Hinv)).
    split; [apply Hhb|apply Hhb|apply (hb_size _ _ _ _ _ _ _ Hhb)|].
    intros k Hk. apply (unmerged_entry hs bi d Hinv h Hh s c Hhb k); [lia|done].
Qed.

(** ** The median time *)

(** What validator [k] contributes to the median time of [h]: nothing when [h]
    observes a fork of it, the genesis time when [h] observes no event of it,
    else the time claimed by the last observed event. *)
Definition contributes (h : hash) (genesisTime k : Z) (m : medianTimeIndex) : Prop :=
  sees_fork h k /\ m_stake m = 0 \/
  ~ sees_fork h k /\ m_stake m = stake_at vv k /\
  ((forall x, observes h x -> cr x <> k) /\ m_claimedTime m = genesisTime \/
   exists x, observes h x /\ cr x = k /\ (forall y, observes h y -> cr y = k -> sq y <= sq x) /\
             m_claimedTime m = ct x).

Lemma highestOf_spec hs (h : hash) s c genesisTime k :
  dag vv getEvent hs -> h ∈ hs -> merged_ok h s c -> 0 <= k < nv -> sees_fork h k \/ ~ sees_fork h k ->
  exists m, highestOf vv s c genesisTime k = Ret m /\ contributes h genesisTime k m /\
    (m_stake m = 0 \/ m_stake m = stake_at vv k).
Proof.
  intros Hd Hh Hm Hk Hdec. unfold highestOf.
  assert (Validators_GetStakeByIdx vv k = Ret (stake_at vv k)) as ->.
  { apply slice_at_Ret. apply (stake_at_get vv Hvv). by apply elem_of_all_idx. }
  rewrite go_bind_Ret, (HighestBeforeTime_Get_spec c k (mg_time _ _ _ Hm)), go_bind_Ret by lia.
  rewrite (HighestBeforeSeq_Get_spec s k (mg_seq _ _ _ Hm)), go_bind_Ret by lia.
  destruct (mg_entry _ _ _ Hm k Hk) as [Hf Hr Ht]. eexists. split; [done|].
  destruct Hdec as [Hsf|Hsf].
  - rewrite (Hf Hsf). unfold IsForkDetected. rewrite bool_decide_eq_true_2 by done. split; [by left|by left].
  - specialize (Hr Hsf). pose proof (is_range_not_fork _ _ Hr) as Hnf.
    unfold IsForkDetected. rewrite bool_decide_eq_false_2 by done.
    split; [|by right; destruct (_ =? 0)]. right. split; [done|].
    destruct Hr as [(E1 & _ & Hno)|(Hpos & Hl & (x & Hx & Cx & Ex) & Hall)].
    + rewrite E1. simpl. split; [done|]. left. split; [|done]. intros x Hx Cx. apply (Hno (sq x)). by exists x.
    + pose proof (Hall _ Hl). rewrite (proj2 (Z.eqb_neq _ 0)) by lia. simpl. split; [done|]. right. exists x.
      split; [done|]. split; [done|]. split; [|by apply Ht]. intros y Hy Cy. rewrite Ex. apply Hall. by exists y.
Qed.

Lemma highests_spec hs (h : hash) s c genesisTime :
  dag vv getEvent hs -> h ∈ hs -> merged_ok h s c -> (forall k, 0 <= k < nv -> sees_fork h k \/ ~ sees_fork h k) ->
  exists l, go_fold (fun acc k => m ← highestOf vv s c genesisTime k; Ret (acc ++ [m])) [] (seqZ 0 nv) = Ret l /\
    Forall2 (contributes h genesisTime) (seqZ 0 nv) l /\
    Forall2 (fun k m => m_stake m = 0 \/ m_stake m = stake_at vv k) (seqZ 0 nv) l.
Proof.
  intros Hd Hh Hm Hdec.
  destruct (go_fold_inv (fun acc k => m ← highestOf vv s c genesisTime k; Ret (acc ++ [m]))
              (fun dn l => Forall2 (contributes h genesisTime) dn l /\
                           Forall2 (fun k m => m_stake m = 0 \/ m_stake m = stake_at vv k) dn l)
              (seqZ 0 nv) []) as (l & E & H1 & H2); [by split; constructor| |by exists l].
  intros dn k rest l El [H1 H2]. assert (k ∈ seqZ 0 nv) as Hk%elem_of_seqZ by (rewrite El; set_solver).
  destruct (highestOf_spec hs h s c genesisTime k Hd Hh Hm ltac:(lia) (Hdec k ltac:(lia))) as (m & -> & Hc & Hs).
  rewrite go_bind_Ret. eexists. split; [done|]. split; (apply Forall2_app; [done|by apply Forall2_cons_2; [|constructor]]).
Qed.

Lemma stakes_bounded ks l :
  Forall2 (fun k m => m_stake m = 0 \/ m_stake m = stake_at vv k) ks l ->
  unsigned l /\ 0 <= total_stake l <= zsum (stake_at vv <$> ks).
Proof.
  induction 1 as [|k m ks l Hm _ [IH1 IH2]]; [split; [constructor|done]|].
  pose proof (stake_at_nonneg vv Hvv k). unfold total_stake in *. csimpl.
  split; [|destruct Hm as [-> | ->]; lia]. constructor; [destruct Hm as [-> | ->]; lia|done].
Qed.

Lemma MedianTime_spec vi hs d f (h : hash) genesisTime :
  index_ok vv getEvent vi hs d f -> h ∈ hs ->
  exists m l vi', VecIndex.MedianTime vi h genesisTime = Ret (m, vi') /\
    index_ok vv getEvent vi' hs d f /\ c_ForklessCause vi' = c_ForklessCause vi /\
    Forall2 (contributes h genesisTime) (seqZ 0 nv) l /\ is_median l m.
Proof.
  intros Hix Hh. unfold VecIndex.MedianTime.
  destruct (initBranchesInfo_spec vv getEvent vi hs d f Hix) as (bi & Ei & Hinv & Hbi). rewrite Ei, go_bind_Ret.
  assert (index_ok vv getEvent (set_bi vi (Some bi)) hs d f) as Hix1.
  { destruct Hix as [H1 H2 H3]. split; [done|done|]. by exists bi. }
  destruct (getHighestBeforeMerged_spec _ hs d f h Hix1 Hh) as (s & c & vi' & E & Hix' & Ec & Hm).
  rewrite E, go_bind_Ret. pose proof (vi_dag _ _ _ _ _ Hinv) as Hd.
  assert (forall k, 0 <= k < nv -> sees_fork h k \/ ~ sees_fork h k) as Hdec.
  { intros k Hk. destruct (decide (hb_at s k = forkDetectedSeq)) as [Ef|Ef].
    - destruct (vi_hb _ _ _ _ _ Hinv h Hh) as (s0 & c0 & _ & _ & Hhb).
      pose proof (vi_bi_ok _ _ _ _ _ Hinv) as Hb. pose proof (bo_first _ _ Hb k Hk) as Hkk.
      destruct (decide (hb_at s0 k = forkDetectedSeq)) as [E0|E0];
        [left; by apply (hb_sound _ _ _ _ _ _ _ Hhb k k Hkk)|right; intros Hf; apply E0].
      pose proof (hb_size _ _ _ _ _ _ _ Hhb). by apply (hb_fork _ _ _ _ _ _ _ Hhb k ltac:(lia) k Hkk).
    - right. intros Hf. apply Ef. by apply (mg_entry _ _ _ Hm k Hk). }
  destruct (highests_spec hs h s c genesisTime Hd Hh Hm Hdec) as (l & El & Hl & Hst).
  change (Validators_IDs (vi_validators vi')) with (Validators_SortedIDs (vi_validators vi')).
  rewrite (ix_vv _ _ _ _ _ _ Hix'), El, go_bind_Ret.
  destruct (stakes_bounded _ _ Hst) as [Hu [Ht0 Ht]].
  assert (zsum (stake_at vv <$> seqZ 0 nv) = Validators_TotalStake vv) as Etot.
  { rewrite <-(stake_of_all vv Hvv). unfold stake_of, all_idx. by rewrite wsum_list by apply NoDup_seqZ. }
  destruct (weightedMedian_returns l) as (m & Em & Hmed).
  - intros ->. apply Forall2_length in Hl. rewrite length_seqZ in Hl. simpl in Hl.
    destruct (dag_cr vv getEvent hs h Hvv Hd Hh) as [Hcr%elem_of_all_idx _]. lia.
  - done.
  - pose proof (vo_fits _ Hvv). word_unfold. lia.
  - rewrite Em.
    exists m, l, vi'. rewrite go_bind_Ret. split; [done|]. split; [done|]. split; [by rewrite Ec|]. done.
Qed.
End merged.

(** C35: [MedianTime] of a connected event returns, without changing what the
    index holds, the weighted median of the claimed times as the graph gives
    them: a validator whose fork the event observes has no weight, one of which
    it observes nothing counts with the genesis time, and every other one with
    its stake and the time claimed by its last observed event, whichever
    branches the events are on. *)
Theorem median_time_exact (v : Validators) (getEvent : hash -> option EventHeaderData)
    {T F : Type} `{HT : VecStoreLaws T} `{HF : LruLaws (hash * hash) bool F} (vi : Index T F)
    (st : list hash * list hash) (h : hash) (genesisTime : Z) :
  let vv := Validators_Copy v in
  validators_ok vv -> simulates v getEvent vi st -> h ∈ st.1 ->
  exists m l vi', VecIndex.MedianTime vi h genesisTime = Ret (m, vi') /\ simulates v getEvent vi' st /\
    Forall2 (contributes vv getEvent h genesisTime) (seqZ 0 (zlen (Validators_SortedIDs vv))) l /\ is_median l m.
Proof.
  intros vv Hvv (d & f & Hix & Hf & Hc) Hh.
  destruct (MedianTime_spec vv Hvv getEvent vi st.1 d f h genesisTime Hix Hh) as (m & l & vi' & E & Hix' & Ec & Hl & Hm).
  exists m, l, vi'. split; [done|]. split; [|done]. exists d, f. by rewrite Ec.
Qed.

Theorem median_time_exact_witness :
  exists (vi : Index ex_T ex_F) saved m l vi', VecIndex.MedianTime vi (ex_id 9) 7 = Ret (m, vi') /\
    simulates ex_validators ex_getEvent vi' (ex_connected, saved) /\
    Forall2 (contributes (Validators_Copy ex_validators) ex_getEvent (ex_id 9) 7) [0; 1; 2; 3] l /\ is_median l m.
Proof.
  destruct ex_reached as (vi & saved & Hs). exists vi, saved.
  apply (median_time_exact ex_validators ex_getEvent vi (ex_connected, saved) (ex_id 9) 7 ex_validators_ok Hs).
  apply (bool_decide_unpack _). by vm_compute.
Defined.
