(* ===== verification/EventCheck.v ===== *)
(** * The checks before the consensus

    eventcheck/: the four checks an event passes before it is connected
    (basic, epoch, parents, gas power) and the heavy one (signatures), with
    the gas rules of lachesis/params, the defaults of lachesis/config.go and
    [IntrinsicGas] of evmcore/state_transition.go.  The results: the checks
    establish what the vector index relies on ([event_ok] of the graph), the
    gas power check limits the rate at which a validator spends gas, and the
    sum of the gas of the transactions of an event wraps around. *)

From S2P Require Import Prelude Bytes Pos Event Dag.

(** ** lachesis/params, lachesis/config.go *)

Definition EventGas : Z := 28000.
Definition ParentGas : Z := 2400.
Definition ExtraDataGas : Z := 150.
Definition MaxGasPowerUsed : Z := 10000000 + EventGas.
Definition MaxExtraData : Z := 128.
Definition MinGasPrice : Z := 1000000000.

Definition minute : Z := 60 * second.

Record GasPowerConfig := mkGasPowerConfig {
  gpc_InitialAllocPerSec : Z;
  gpc_MaxAllocPerSec : Z;
  gpc_MinAllocPerSec : Z;
  gpc_MaxAllocPeriod : Z;
  gpc_StartupAllocPeriod : Z;
  gpc_MinStartupGas : Z
}.

Record DagConfig := mkDagConfig {
  MaxParents : Z;
  MaxFreeParents : Z;
  MaxEpochBlocks : Z;
  MaxEpochDuration : Z;
  MaxValidatorEventsInBlock : Z
}.

Definition DefaultDagConfig : DagConfig := mkDagConfig 10 3 1000 (4 * 60 * minute) 50.
Definition FakeNetDagConfig : DagConfig := mkDagConfig 10 3 200 (10 * minute) 50.

Definition DefaulLongGasPowerConfig : GasPowerConfig :=
  mkGasPowerConfig (100 * EventGas) (1000 * EventGas) (10 * EventGas) (60 * minute) (5 * second)
    (EventGas * 20).

Definition DefaultShortGasPowerConfig : GasPowerConfig :=
  let cfg := DefaulLongGasPowerConfig in
  mkGasPowerConfig (u64 (gpc_InitialAllocPerSec cfg * 5)) (u64 (gpc_MaxAllocPerSec cfg * 5))
    (u64 (gpc_MinAllocPerSec cfg * 5)) (gpc_MaxAllocPeriod cfg / (5 * 12))
    (gpc_StartupAllocPeriod cfg / 5) (gpc_MinStartupGas cfg).

Definition fasterBy1000 (cfg : GasPowerConfig) : GasPowerConfig :=
  mkGasPowerConfig (u64 (gpc_InitialAllocPerSec cfg * 1000)) (u64 (gpc_MaxAllocPerSec cfg * 1000))
    (gpc_MinAllocPerSec cfg) (gpc_MaxAllocPeriod cfg) (gpc_StartupAllocPeriod cfg)
    (gpc_MinStartupGas cfg).
Definition FakeLongGasPowerConfig : GasPowerConfig := fasterBy1000 DefaulLongGasPowerConfig.
Definition FakeShortGasPowerConfig : GasPowerConfig := fasterBy1000 DefaultShortGasPowerConfig.

(** gossip/checker_helpers.go *)
Definition gasPowerBounds (initialAlloc minAlloc maxAlloc customAlloc : Z) : Z :=
  let allocPerSec := if negb (customAlloc =? 0) then customAlloc else initialAlloc in
  let allocPerSec := if allocPerSec >? maxAlloc then maxAlloc else allocPerSec in
  if allocPerSec <? minAlloc then minAlloc else allocPerSec.

(** ** Events with their transactions *)

(** What the checks read of a go-ethereum transaction. *)
Record Transaction := mkTransaction {
  tx_Value : Z;
  tx_GasPrice : Z;
  tx_Gas : Z;
  tx_Data : bytes;
  tx_To : option bytes
}.

Record FullEvent := mkEvent {
  ev_header : EventHeaderData;
  ev_Sig : bytes;
  ev_Transactions : list Transaction
}.

Inductive check_error :=
  | ErrSigMalformed | ErrVersion | ErrExtraTooLarge | ErrNoParents | ErrTooManyParents
  | ErrTooBigGasUsed | ErrWrongGasUsed | ErrIntrinsicGas | ErrUnderpriced | ErrNotInited
  | ErrZeroTime | ErrNegativeValue | ErrHugeValue | ErrOutOfGas
  | ErrNotRelevant | ErrAuth
  | ErrWrongSeq | ErrWrongLamport | ErrDoubleParents | ErrWrongSelfParent | ErrPastTime
  | ErrWrongGasPowerLeft
  | ErrWrongEventSig | ErrMalformedTxSig | ErrWrongTxHash
  | ErrAlreadyConnectedEvent.

#[global] Instance check_error_eq_dec : EqDecision check_error.
Proof. solve_decision. Defined.

(** eventcheck/ban.go; [None] is the nil error. *)
Definition IsBan (err : option check_error) : bool :=
  if bool_decide (err = Some ErrNotRelevant) || bool_decide (err = Some ErrAlreadyConnectedEvent)
  then false else bool_decide (is_Some err).

(** [if err := ...; err != nil { return err }] *)
Definition and_then (r : go (option check_error)) (k : go (option check_error)) : go (option check_error) :=
  err ← r; match err with Some _ => Ret err | None => k end.

Notation "r ;;? k" := (and_then r k) (at level 100, k at level 200, right associativity) : lachesis_scope.
Open Scope lachesis_scope.

Definition fail_if (b : bool) (e : check_error) : go (option check_error) :=
  Ret (if b then Some e else None).

(** ** basiccheck *)

(** The gas prices of go-ethereum's params package. *)
Record EthParams := mkEthParams {
  TxGasContractCreation : Z;
  TxGas : Z;
  TxDataNonZeroGas : Z;
  TxDataZeroGas : Z
}.

Definition MaxUint64 : Z := 18446744073709551615.
Definition halfMaxInt32 : Z := MaxInt32 / 2.
Definition halfMaxInt64 : Z := MaxInt64 / 2.

Section basiccheck.
Context (eth : EthParams).

(** [homestead] is true in the only call. *)
Definition IntrinsicGas (data : bytes) (contractCreation : bool) : check_error + Z :=
  let gas := if contractCreation then TxGasContractCreation eth else TxGas eth in
  if bool_decide (data = []) then inr gas
  else
    let nz := Z.of_nat (length (filter (fun b => b <> 0) data)) in
    if (MaxUint64 - gas) / TxDataNonZeroGas eth <? nz then inl ErrOutOfGas
    else
      let gas := u64 (gas + nz * TxDataNonZeroGas eth) in
      let z := zlen data - nz in
      if (MaxUint64 - gas) / TxDataZeroGas eth <? z then inl ErrOutOfGas
      else inr (u64 (gas + z * TxDataZeroGas eth)).

Definition validateTx (tx : Transaction) : option check_error :=
  if (tx_Value tx <? 0) || (tx_GasPrice tx <? 0) then Some ErrNegativeValue
  else match IntrinsicGas (tx_Data tx) (bool_decide (tx_To tx = None)) with
       | inl err => Some err
       | inr intrGas =>
           if tx_Gas tx <? intrGas then Some ErrIntrinsicGas
           else if tx_GasPrice tx <? MinGasPrice then Some ErrUnderpriced
           else None
       end.

Fixpoint checkTxs (txs : list Transaction) : option check_error :=
  match txs with
  | [] => None
  | tx :: txs => match validateTx tx with Some err => Some err | None => checkTxs txs end
  end.

Definition CalcGasPowerUsed (e : FullEvent) (config : DagConfig) : Z :=
  let txsGas := foldl (fun g tx => u64 (g + tx_Gas tx)) 0 (ev_Transactions e) in
  let parents := zlen (Parents (ev_header e)) in
  let parentsGas := if parents >? MaxFreeParents config
                    then u64 ((parents - MaxFreeParents config) * ParentGas) else 0 in
  let extraGas := u64 (zlen (Extra (ev_header e)) * ExtraDataGas) in
  u64 (u64 (u64 (txsGas + parentsGas) + extraGas) + EventGas).

Definition checkGas (config : DagConfig) (e : FullEvent) : option check_error :=
  let used := GasPowerUsed (ev_header e) in
  if used >? MaxGasPowerUsed then Some ErrTooBigGasUsed
  else if negb (used =? CalcGasPowerUsed e config) then Some ErrWrongGasUsed
  else None.

Definition checkLimits (config : DagConfig) (e : EventHeaderData) : go (option check_error) :=
  if zlen (Extra e) >? MaxExtraData then Ret (Some ErrExtraTooLarge)
  else if zlen (Parents e) >? MaxParents config then Ret (Some ErrTooManyParents)
  else
    maxLeft ← GasPowerLeft_Max (GasPowerLeft e);
    fail_if ((Seq e >=? halfMaxInt32) || (Epoch e >=? halfMaxInt32) || (Frame e >=? halfMaxInt32) ||
             (Lamport e >=? halfMaxInt32) || (GasPowerUsed e >=? halfMaxInt64) ||
             (maxLeft >=? halfMaxInt64)) ErrHugeValue.

Definition checkInited (e : FullEvent) : option check_error :=
  let h := ev_header e in
  if (Seq h <=? 0) || (Epoch h <=? 0) || (Frame h <=? 0) || (Lamport h <=? 0) then Some ErrNotInited
  else if ClaimedTime h <=? 0 then Some ErrZeroTime
  else if (Seq h >? 1) && bool_decide (Parents h = []) then Some ErrNoParents
  else if negb (zlen (ev_Sig e) =? 65) then Some ErrSigMalformed
  else None.

Definition basiccheck_Validate (config : DagConfig) (e : FullEvent) : go (option check_error) :=
  fail_if (negb (Version (ev_header e) =? 0)) ErrVersion ;;?
  checkLimits config (ev_header e) ;;?
  Ret (checkInited e) ;;?
  Ret (checkGas config e) ;;?
  Ret (checkTxs (ev_Transactions e)).

End basiccheck.

(** ** epochcheck *)

Definition epochcheck_Validate (validators : Validators) (epoch : Z) (e : EventHeaderData)
    : option check_error :=
  if negb (Epoch e =? epoch) then Some ErrNotRelevant
  else if negb (Validators_Exists validators (Creator e)) then Some ErrAuth
  else None.

(** ** parentscheck *)

Section parentscheck.
Context (HashOf : EventHeaderData -> hash).

(** The loop that compares each parent's creator with [IsSelfParent]. *)
Definition selfParents_ok (e : EventHeaderData) (parents : list EventHeaderData) : bool :=
  forallb (fun x => Bool.eqb (Creator x.2 =? Creator e) (IsSelfParent e x.1)) (zip (Parents e) parents).

Definition parentscheck_Validate (e : EventHeaderData) (parents : list EventHeaderData)
    : go (option check_error) :=
  if negb (zlen (Parents e) =? zlen parents)
  then Fault (PanicMsg "parentscheck: expected event's parents as an argument")
  else
    let maxLamport := foldl (fun m p => MaxLamport m (Lamport p)) 0 parents in
    fail_if (negb (Lamport e =? u32 (maxLamport + 1))) ErrWrongLamport ;;?
    fail_if (negb (Z.of_nat (size (Events_Set (Parents e))) =? zlen (Parents e))) ErrDoubleParents ;;?
    fail_if (negb (selfParents_ok e parents)) ErrWrongSelfParent ;;?
    fail_if (negb (Bool.eqb (Seq e <=? 1) (bool_decide (SelfParent e = None)))) ErrWrongSeq ;;?
    match SelfParent e with
    | None => Ret None
    | Some _ =>
        selfParent ← slice_at parents 0;
        fail_if (negb (IsSelfParent e (HashOf selfParent))) ErrWrongSelfParent ;;?
        fail_if (negb (Seq e =? u32 (Seq selfParent + 1))) ErrWrongSeq ;;?
        fail_if (ClaimedTime e <=? ClaimedTime selfParent) ErrPastTime
    end.

End parentscheck.

(** ** gaspowercheck *)

Record GasConfig := mkGasConfig {
  gc_Idx : Z;
  gc_AllocPerSec : Z;
  gc_MaxAllocPeriod : Z;
  gc_StartupAllocPeriod : Z;
  gc_MinStartupGas : Z
}.

Record ValidationContext := mkValidationContext {
  vc_Epoch : Z;
  vc_Configs : list GasConfig;
  vc_Validators : Validators;
  vc_PrevEpochLastHeaders : gmap Z EventHeaderData;
  vc_PrevEpochEndTime : Z;
  vc_PrevEpochRefunds : gmap Z Z
}.

(** [mul] and [div] on big integers that come from a [uint64]; [Uint64] keeps
    the low 64 bits. *)
Definition mul_div (a b c : Z) : go Z :=
  if c =? 0 then Fault (PanicMsg "division by zero") else Ret (u64 (a * b / c)).

Definition calcValidatorGasPowerPerSec (validator : Z) (validators : Validators) (config : GasConfig)
    : go (Z * Z * Z) :=
  let stake := Validators_Get validators validator in
  if stake =? 0 then Ret (0, 0, 0)
  else
    perSec ← mul_div (gc_AllocPerSec config) stake (Validators_TotalStake validators);
    let maxGasPower := u64 (perSec * (gc_MaxAllocPeriod config / second)) in
    let startup := u64 (perSec * (gc_StartupAllocPeriod config / second)) in
    let startup := if startup <? gc_MinStartupGas config then gc_MinStartupGas config else startup in
    Ret (perSec, maxGasPower, startup).

Definition calcGasPower (e : EventHeaderData) (selfParent : option EventHeaderData)
    (ctx : ValidationContext) (config : GasConfig) : go Z :=
  '(gasPowerPerSec, maxGasPower, startup) ←
    calcValidatorGasPowerPerSec (Creator e) (vc_Validators ctx) config;
  let refund := default 0 (vc_PrevEpochRefunds ctx !! Creator e) in
  '(prevGasPowerLeft, prevMedianTime) ←
    match SelfParent e with
    | Some _ =>
        match selfParent with
        | None => Fault NilDereference
        | Some sp => g ← slice_at (GasPowerLeft sp) (gc_Idx config); Ret (g, MedianTime sp)
        end
    | None =>
        match vc_PrevEpochLastHeaders ctx !! Creator e with
        | Some prev =>
            g ← slice_at (GasPowerLeft prev) (gc_Idx config);
            let g := u64 (g + refund) in
            Ret (if g <? startup then startup else g, MedianTime prev)
        | None => Ret (u64 (startup + refund), vc_PrevEpochEndTime ctx)
        end
    end;
  let prevMedianTime := if prevMedianTime >? MedianTime e then MedianTime e else prevMedianTime in
  gasPowerAllocated ← mul_div (MedianTime e - prevMedianTime) gasPowerPerSec second;
  let gasPower := u64 (gasPowerAllocated + prevGasPowerLeft) in
  Ret (if gasPower >? maxGasPower then maxGasPower else gasPower).

Definition CalcGasPower (e : EventHeaderData) (selfParent : option EventHeaderData)
    (ctx : ValidationContext) : go (check_error + list Z) :=
  if negb (vc_Epoch ctx =? Epoch e) then Ret (inl ErrNotRelevant)
  else
    res ← go_fold (fun acc c => g ← calcGasPower e selfParent ctx c; Ret (acc ++ [g])) [] (vc_Configs ctx);
    Ret (inr res).

(** The comparison of the claimed gas power with the calculated one. *)
Definition gasPowerLeft_ok (e : EventHeaderData) (gasPowers : list Z) : bool :=
  forallb (fun x => u64 (x.1 + GasPowerUsed e) =? x.2) (zip (GasPowerLeft e) gasPowers).

Definition gaspowercheck_Validate (e : EventHeaderData) (selfParent : option EventHeaderData)
    (ctx : ValidationContext) : go (option check_error) :=
  r ← CalcGasPower e selfParent ctx;
  match r with
  | inl err => Ret (Some err)
  | inr gasPowers => fail_if (negb (gasPowerLeft_ok e gasPowers)) ErrWrongGasPowerLeft
  end.

(** ** heavycheck *)

Section heavycheck.
Context {PubKey : Type}.
(** The functions of go-ethereum the check calls. *)
Context (Keccak256 : bytes -> bytes) (SigToPub : bytes -> bytes -> option PubKey)
  (PubkeyToAddress : PubKey -> bytes) (Sender : Transaction -> option bytes)
  (DeriveSha : list Transaction -> hash) (dataToSign : EventHeaderData -> bytes).

(** inter/event.go *)
Definition VerifySignature (e : FullEvent) (address : bytes) : bool :=
  match SigToPub (Keccak256 (dataToSign (ev_header e))) (ev_Sig e) with
  | None => false
  | Some pk => bool_decide (PubkeyToAddress pk = address)
  end.

Definition heavycheck_Validate (addrs : gmap Z bytes) (epoch : Z) (e : FullEvent) : option check_error :=
  let h := ev_header e in
  if negb (Epoch h =? epoch) then Some ErrNotRelevant
  else match addrs !! Creator h with
       | None => Some ErrAuth
       | Some addr =>
           if negb (VerifySignature e addr) then Some ErrWrongEventSig
           else if negb (forallb (fun tx => bool_decide (is_Some (Sender tx))) (ev_Transactions e))
           then Some ErrMalformedTxSig
           else if negb (bool_decide (TxHash h = DeriveSha (ev_Transactions e))) then Some ErrWrongTxHash
           else None
       end.

End heavycheck.

(** [Enqueue] divides the events into tasks of at most [maxBatch]; [fuel]
    bounds the rounds of the loop, and the length of the events is enough. *)
Definition maxBatch : Z := 4.
Fixpoint enqueue_tasks {A} (fuel : nat) (events : list A) (start : Z) : list (list A) :=
  match fuel with
  | O => []
  | Datatypes.S fuel =>
      if start <? zlen events then
        let stop := if zlen events >? start + maxBatch then start + maxBatch else zlen events in
        take (Z.to_nat (stop - start)) (drop (Z.to_nat start) events) ::
          enqueue_tasks fuel events (start + maxBatch)
      else []
  end.
Definition Enqueue {A} (events : list A) : list (list A) := enqueue_tasks (length events) events 0.

(** [loop]: the result of a task. *)
Definition task_Result (validate : FullEvent -> option check_error) (events : list FullEvent)
    : list (option check_error) := validate <$> events.

(** ** all.go *)

Definition Checkers_Validate (eth : EthParams) (config : DagConfig) (HashOf : EventHeaderData -> hash)
    (validators : Validators) (epoch : Z) (ctx : ValidationContext)
    (heavy : FullEvent -> option check_error) (e : FullEvent) (parents : list EventHeaderData)
    : go (option check_error) :=
  basiccheck_Validate eth config e ;;?
  Ret (epochcheck_Validate validators epoch (ev_header e)) ;;?
  parentscheck_Validate HashOf (ev_header e) parents ;;?
  (selfParent ← match SelfParent (ev_header e) with
                | Some _ => p ← slice_at parents 0; Ret (Some p)
                | None => Ret None
                end;
   gaspowercheck_Validate (ev_header e) selfParent ctx) ;;?
  Ret (heavy e).

(** ** Lemmas *)

Lemma and_then_None r k : (r ;;? k) = Ret None <-> r = Ret None /\ k = Ret None.
Proof.
  unfold and_then. rewrite go_bind_inv. split.
  - intros ([err|] & -> & H); [done|done].
  - intros [-> ->]. exists None. done.
Qed.

Lemma fail_if_None b e : fail_if b e = Ret None <-> b = false.
Proof. unfold fail_if. destruct b; split; congruence. Qed.

(** [checks H] splits a passed check into the conditions it tested. *)
Ltac checks H :=
  repeat match type of H with
         | (_ ;;? _) = Ret None =>
             let H1 := fresh "Hc" in apply and_then_None in H as [H1 H];
             try (apply fail_if_None in H1)
         | fail_if _ _ = Ret None => apply fail_if_None in H
         end.

(** The fields are in the range of their machine types. *)
Record machine_header (e : EventHeaderData) : Prop := {
  mh_u32 : Forall is_u32 [Seq e; Frame e; Lamport e];
  mh_u64 : Forall is_u64 [ClaimedTime e; MedianTime e; GasPowerUsed e];
  mh_gas : Forall is_u64 (GasPowerLeft e)
}.

Lemma GasPowerLeft_Max_ge g m x : GasPowerLeft_Max g = Ret m -> x ∈ g -> x <= m.
Proof.
  unfold GasPowerLeft_Max. rewrite go_bind_inv. intros (g0 & _ & [= <-]). revert g0.
  assert (forall l a, a <= foldl (fun m x => if m <? x then x else m) a l) as Hge.
  { induction l as [|y l IH]; intros a; simpl; [lia|].
    destruct (Z.ltb_spec a y); specialize (IH (if a <? y then y else a));
      destruct (Z.ltb_spec a y); lia. }
  induction g as [|y g IH]; intros g0 Hx; [by apply not_elem_of_nil in Hx|].
  simpl. apply elem_of_cons in Hx as [->|Hx]; [|by apply IH].
  destruct (Z.ltb_spec g0 y); eapply Z.le_trans; [|apply Hge| |apply Hge]; lia.
Qed.

(** What the basic check bounds. *)
Lemma basiccheck_bounds eth config e :
  basiccheck_Validate eth config e = Ret None ->
  let h := ev_header e in
  1 <= Seq h < halfMaxInt32 /\ 1 <= Lamport h < halfMaxInt32 /\ 1 <= Frame h < halfMaxInt32 /\
  0 < ClaimedTime h /\ GasPowerUsed h <= MaxGasPowerUsed /\
  GasPowerUsed h = CalcGasPowerUsed e config /\ (forall g, g ∈ GasPowerLeft h -> g < halfMaxInt64).
Proof.
  unfold basiccheck_Validate. intros H. checks H. simpl.
  unfold checkLimits in Hc0. destruct (_ >? MaxExtraData); [done|]. destruct (_ >? MaxParents _); [done|].
  apply go_bind_inv in Hc0 as (maxLeft & Emax & Hc0). apply fail_if_None in Hc0.
  injection Hc1 as Hc1. unfold checkInited in Hc1.
  destruct (_ || _) eqn:E1 in Hc1; [done|]. destruct (ClaimedTime _ <=? 0) eqn:E2 in Hc1; [done|].
  injection Hc2 as Hc2. unfold checkGas in Hc2.
  destruct (_ >? MaxGasPowerUsed) eqn:E3 in Hc2; [done|].
  destruct (negb _) eqn:E4 in Hc2; [done|].
  repeat split; try lia.
  intros g Hg. pose proof (GasPowerLeft_Max_ge _ _ _ Emax Hg). lia.
Qed.

Lemma foldl_MaxLamport (l : list EventHeaderData) m0 :
  is_u32 m0 -> Forall machine_header l ->
  let m := foldl (fun m p => MaxLamport m (Lamport p)) m0 l in
  is_u32 m /\ m0 <= m /\ forall p, p ∈ l -> Lamport p <= m.
Proof.
  revert m0. induction l as [|p l IH]; intros m0 Hm0 Hl; simpl.
  - split_and!; [done|lia|]. intros p Hp. by apply not_elem_of_nil in Hp.
  - apply Forall_cons in Hl as [Hp Hl].
    assert (is_u32 (Lamport p)) as Hlp by (destruct Hp as [Hp _ _]; by repeat (apply Forall_cons in Hp as [? Hp])).
    assert (is_u32 (MaxLamport m0 (Lamport p))) as Hmx by (unfold MaxLamport; by destruct (_ >? _)).
    destruct (IH _ Hmx Hl) as (H1 & H2 & H3). split_and!; [done|..].
    + unfold MaxLamport in *. destruct (Z.gtb_spec m0 (Lamport p)); lia.
    + intros q [->|Hq]%elem_of_cons; [|by apply H3].
      unfold MaxLamport in *. destruct (Z.gtb_spec m0 (Lamport p)); lia.
Qed.

(** ** The checks establish what the consensus relies on *)

(** The headers given to the parents check are those of the parents, which
    are connected. *)
Definition parents_are (getEvent : hash -> option EventHeaderData) (hs : list hash)
    (e : EventHeaderData) (parents : list EventHeaderData) : Prop :=
  Forall2 (fun p ep => p ∈ hs /\ getEvent p = Some ep) (Parents e) parents.

Lemma SelfParent_creator e parents p ep :
  selfParents_ok e parents = true -> SelfParent e = Some p -> head parents = Some ep ->
  Creator ep = Creator e.
Proof.
  intros Hs Hp Hep. pose proof (SelfParent_Some _ _ Hp) as [_ Hh].
  unfold selfParents_ok in Hs. destruct (Parents e) as [|p' ps]; [done|]. simplify_eq/=.
  destruct parents as [|ep' eps]; [done|]. simplify_eq/=.
  apply andb_true_iff in Hs as [Hs _]. unfold IsSelfParent in Hs. rewrite Hp in Hs.
  rewrite bool_decide_true in Hs by done. apply eqb_prop, Z.eqb_eq in Hs. done.
Qed.

(** What the parents check adds. *)
Lemma parentscheck_spec HashOf getEvent hs e parents :
  machine_header e -> Forall machine_header parents -> parents_are getEvent hs e parents ->
  1 <= Lamport e -> parentscheck_Validate HashOf e parents = Ret None ->
  NoDup (Parents e) /\ (forall ep, ep ∈ parents -> Lamport ep < Lamport e) /\
  (1 < Seq e -> exists p ep, head (Parents e) = Some p /\ head parents = Some ep /\
     Creator ep = Creator e /\ Seq e = Seq ep + 1 /\ ClaimedTime ep < ClaimedTime e).
Proof.
  intros He Hps Hpar HL. unfold parentscheck_Validate. destruct (negb _); [done|]. intros H. checks H.
  apply negb_false_iff, Z.eqb_eq in Hc, Hc0.
  destruct (foldl_MaxLamport parents 0 ltac:(unfold is_u32; lia) Hps) as (Hu & _ & Hmax).
  split_and!.
  - apply Events_Set_nodup. unfold zlen in Hc0. lia.
  - intros ep Hep. specialize (Hmax _ Hep). rewrite Hc. unfold u32, is_u32 in *.
    assert (foldl (fun m p => MaxLamport m (Lamport p)) 0 parents <> 4294967295)
      by (intros E; rewrite E in Hc; change ((4294967295 + 1) mod 4294967296) with 0 in Hc; lia).
    rewrite Z.mod_small by lia. lia.
  - intros Hseq. apply negb_false_iff, eqb_prop in Hc2.
    destruct (SelfParent e) as [p|] eqn:Hp; [|rewrite bool_decide_true in Hc2 by done; lia].
    pose proof (SelfParent_Some _ _ Hp) as [_ Hhead].
    unfold parents_are in Hpar. destruct Hpar as [|p' ep ps eps [_ Hg] Hpar]; [done|].
    injection Hhead as ->. rewrite (proj2 (slice_at_Ret (ep :: eps) 0 ep)) in H by done.
    rewrite go_bind_Ret in H. checks H.
    apply negb_false_iff, Z.eqb_eq in Hc4. exists p, ep. split_and!; try done.
    + by eapply (SelfParent_creator e (ep :: eps) p); [apply negb_false_iff|..].
    + apply Forall_cons in Hps as [[Hm _ _] _]. apply Forall_cons in Hm as [Hm _].
      assert (Seq ep <> 4294967295) by (intros E; rewrite E in Hc4; change (u32 (4294967295 + 1)) with 0 in Hc4; lia).
      rewrite Hc4. unfold u32, is_u32 in *. rewrite Z.mod_small; lia.
    + lia.
Qed.

Lemma Validators_Exists_sorted vv id :
  validators_ok vv -> Validators_Exists vv id = true -> id ∈ Validators_SortedIDs vv.
Proof.
  intros Hvv. unfold Validators_Exists. rewrite bool_decide_eq_true. by rewrite (vo_exists _ Hvv).
Qed.

Lemma parents_are_lookup getEvent hs e parents p ep :
  parents_are getEvent hs e parents -> p ∈ Parents e -> getEvent p = Some ep -> p ∈ hs /\ ep ∈ parents.
Proof.
  intros Hpar [i Hi]%list_elem_of_lookup_1 Hg.
  destruct (Forall2_lookup_l _ _ _ _ _ Hpar Hi) as (ep' & Hep' & Hin & Hg').
  simplify_eq. split; [done|]. by eapply list_elem_of_lookup_2.
Qed.

(** the checks establish what the vector index and the ordering rely on:
    an event that passes the basic, the epoch and the parents check, with
    connected parents, extends the graph ([event_ok]: known parents, a
    validator as creator, the sequence number of its self-parent plus one); its
    parents are pairwise different, its Lamport time is greater than that of
    each parent, and its claimed time is after its self-parent's. *)
Theorem checks_establish_event_ok eth config HashOf vv epoch getEvent hs e parents :
  let h := ev_header e in
  validators_ok vv -> machine_header h -> Forall machine_header parents ->
  parents_are getEvent hs h parents ->
  basiccheck_Validate eth config e = Ret None ->
  epochcheck_Validate vv epoch h = None ->
  parentscheck_Validate HashOf h parents = Ret None ->
  event_ok vv getEvent hs h /\ Epoch h = epoch /\ NoDup (Parents h) /\
  (forall p ep, p ∈ Parents h -> getEvent p = Some ep -> Lamport ep < Lamport h) /\
  (forall p ep, SelfParent h = Some p -> getEvent p = Some ep -> ClaimedTime ep < ClaimedTime h).
Proof.
  intros h Hvv Hm Hms Hpar Hb He Hp.
  destruct (basiccheck_bounds _ _ _ Hb) as (Hseq & Hlam & _ & Htime & _). fold h in Hseq, Hlam, Htime.
  destruct (parentscheck_spec HashOf getEvent hs h parents Hm Hms Hpar ltac:(lia) Hp)
    as (Hnd & Hlamp & Hself).
  unfold epochcheck_Validate in He. destruct (negb (Epoch h =? epoch)) eqn:E1; [done|].
  destruct (negb (Validators_Exists vv (Creator h))) eqn:E2; [done|].
  apply negb_false_iff in E1, E2.
  split_and!; [split|lia|done|..].
  - intros p Hin. destruct (list_elem_of_lookup_1 _ _ Hin) as [i Hi].
    destruct (Forall2_lookup_l _ _ _ _ _ Hpar Hi) as (ep & _ & ? & _). done.
  - by apply Validators_Exists_sorted.
  - assert (halfMaxInt32 < MaxInt32) by by vm_compute. lia.
  - destruct Hm as [_ Hm _]. by apply Forall_cons in Hm as [? _].
  - intros Hs. destruct (Hself Hs) as (p & ep & H1 & H2 & H3 & H4 & _).
    exists p, ep. split_and!; try done. unfold parents_are in Hpar.
    destruct Hpar as [|p' ep' ps eps [_ Hg] _]; [done|]. by simplify_eq/=.
  - intros p ep Hin Hg. apply Hlamp. by eapply parents_are_lookup.
  - intros p ep [Hs Hh]%SelfParent_Some Hg. destruct (Hself Hs) as (p' & ep' & H1 & H2 & _ & _ & H5).
    unfold parents_are in Hpar. destruct Hpar as [|p'' ep'' ps eps [_ Hg'] _]; [done|]. by simplify_eq/=.
Qed.

(** A second event of validator 10, with its first event and the first event
    of validator 20 as parents. *)
Definition example_eth : EthParams := mkEthParams 53000 21000 16 4.
Definition example_parent (creator : Z) : EventHeaderData :=
  mkHeader 0 1 1 1 true creator ZeroHash [] [1000; 1000] 28000 1 5 5 ZeroHash [] (Some (replicate 32 creator)).
Definition example_get (h : hash) : option EventHeaderData :=
  if bool_decide (h = replicate 32 10) then Some (example_parent 10)
  else if bool_decide (h = replicate 32 20) then Some (example_parent 20) else None.
Definition example_child (txs : list Transaction) : FullEvent :=
  mkEvent (mkHeader 0 1 2 1 false 10 ZeroHash [replicate 32 10; replicate 32 20] [1000; 1000]
             28000 2 7 6 ZeroHash [] None) (replicate 65 0) txs.
Definition example_hash : EventHeaderData -> hash := Hash (fun _ => []) (fun _ => []).

Lemma checks_establish_event_ok_witness :
  event_ok example_validators example_get [replicate 32 20; replicate 32 10] (ev_header (example_child [])) /\
  Epoch (ev_header (example_child [])) = 1.
Proof.
  destruct (checks_establish_event_ok example_eth DefaultDagConfig example_hash example_validators 1
    example_get [replicate 32 20; replicate 32 10] (example_child []) [example_parent 10; example_parent 20])
    as (H1 & H2 & _); [apply example_validators_ok|..|by vm_compute|by vm_compute|by vm_compute|by split].
  - split; repeat constructor; by vm_compute.
  - repeat constructor; by vm_compute.
  - unfold parents_are. simpl. repeat constructor; by vm_compute.
Defined.

(** ** The rate of gas *)

(** A chain of events of one validator in one epoch, each accepted with the one
    before it as its self-parent. *)
Fixpoint gas_chain (eth : EthParams) (config : DagConfig) (ctx : ValidationContext)
    (e0 : EventHeaderData) (l : list FullEvent) : Prop :=
  match l with
  | [] => True
  | e :: l =>
      let h := ev_header e in
      machine_header h /\ Creator h = Creator e0 /\ is_Some (SelfParent h) /\
      basiccheck_Validate eth config e = Ret None /\
      gaspowercheck_Validate h (Some e0) ctx = Ret None /\
      gas_chain eth config ctx h l
  end.

(** The time by which the median time of the chain goes up. *)
Fixpoint median_rise (e0 : EventHeaderData) (l : list FullEvent) : Z :=
  match l with
  | [] => 0
  | e :: l => Z.max 0 (MedianTime (ev_header e) - MedianTime e0) + median_rise (ev_header e) l
  end.

Definition gas_left (e : EventHeaderData) (i : Z) : Z := default 0 (slice_get (GasPowerLeft e) i).
Definition last_header (e0 : EventHeaderData) (l : list FullEvent) : EventHeaderData :=
  default e0 (ev_header <$> last l).

Lemma u64_add_l a b : u64 (u64 a + b) = u64 (a + b).
Proof. unfold u64. by rewrite Z.add_mod_idemp_l. Qed.

Lemma u64_le z : 0 <= z -> 0 <= u64 z <= z.
Proof. intros Hz. unfold u64. split; [apply Z.mod_pos_bound; lia|apply Z.mod_le; lia]. Qed.

Lemma mul_div_le a b c g : mul_div a b c = Ret g -> 0 <= a -> 0 <= b -> 0 < c -> 0 <= g <= a * b / c.
Proof.
  unfold mul_div. destruct (c =? 0); [done|]. intros [= <-] Ha Hb Hc.
  apply u64_le, Z.div_pos; [apply Z.mul_nonneg_nonneg; lia|lia].
Qed.

Lemma calcGasPower_le h sp ctx c perSec maxGas startup g :
  is_Some (SelfParent h) ->
  calcValidatorGasPowerPerSec (Creator h) (vc_Validators ctx) c = Ret (perSec, maxGas, startup) ->
  0 <= perSec -> 0 <= gas_left sp (gc_Idx c) ->
  calcGasPower h (Some sp) ctx c = Ret g ->
  g <= maxGas /\
  g <= Z.max 0 (MedianTime h - MedianTime sp) * perSec / second + gas_left sp (gc_Idx c).
Proof.
  intros [p Hp] Hper Hpos Hleft. unfold calcGasPower. rewrite Hper, go_bind_Ret, Hp.
  rewrite go_bind_inv. intros ([left mt] & E1 & H).
  apply go_bind_inv in E1 as (g0 & Eg & [= -> ->]). apply slice_at_Ret in Eg.
  assert (gas_left sp (gc_Idx c) = left) as El by (unfold gas_left; by rewrite Eg). rewrite El in *.
  apply go_bind_inv in H as (alloc & Ea & [= <-]).
  apply mul_div_le in Ea as [Ha1 Ha2]; [|destruct (Z.gtb_spec mt (MedianTime h)); lia|done|done].
  replace (MedianTime h - _) with (Z.max 0 (MedianTime h - mt)) in Ha2
    by (destruct (Z.gtb_spec mt (MedianTime h)); lia).
  pose proof (u64_le (alloc + left) ltac:(lia)).
  destruct (Z.gtb_spec (u64 (alloc + left)) maxGas); lia.
Qed.

Lemma calcValidatorGasPowerPerSec_pos id vv c perSec maxGas startup :
  calcValidatorGasPowerPerSec id vv c = Ret (perSec, maxGas, startup) -> 0 <= perSec.
Proof.
  unfold calcValidatorGasPowerPerSec. destruct (_ =? 0); [by intros [= <- _ _]|].
  rewrite go_bind_inv. intros (ps & E & [= <- _ _]). unfold mul_div in E.
  destruct (_ =? 0); [done|]. injection E as <-. apply u64_range.
Qed.

Lemma go_fold_snoc_lookup {A B} (f : A -> go B) (l : list A) acc res :
  go_fold (fun acc c => g ← f c; Ret (acc ++ [g])) acc l = Ret res ->
  exists gs, res = acc ++ gs /\ Forall2 (fun c g => f c = Ret g) l gs.
Proof.
  revert acc. induction l as [|c l IH]; intros acc; cbn [go_fold].
  - intros [= <-]. exists []. by rewrite app_nil_r.
  - rewrite go_bind_inv. intros (acc' & E & H). apply go_bind_inv in E as (g & Eg & [= <-]).
    apply IH in H as (gs & -> & Hgs). exists (g :: gs). rewrite <-app_assoc. by split; [|constructor].
Qed.

(** One link: what the event uses and leaves is bounded by what was left and
    what was allocated since. *)
Lemma gas_step eth config ctx c e sp perSec maxGas startup i :
  vc_Configs ctx !! i = Some c -> gc_Idx c = Z.of_nat i ->
  machine_header (ev_header e) -> is_Some (SelfParent (ev_header e)) ->
  0 <= gas_left sp (gc_Idx c) ->
  calcValidatorGasPowerPerSec (Creator (ev_header e)) (vc_Validators ctx) c = Ret (perSec, maxGas, startup) ->
  basiccheck_Validate eth config e = Ret None ->
  gaspowercheck_Validate (ev_header e) (Some sp) ctx = Ret None ->
  (i < length (GasPowerLeft (ev_header e)))%nat ->
  let h := ev_header e in
  0 <= gas_left h (gc_Idx c) /\ gas_left h (gc_Idx c) + GasPowerUsed h <= maxGas /\
  gas_left h (gc_Idx c) + GasPowerUsed h <=
    Z.max 0 (MedianTime h - MedianTime sp) * perSec / second + gas_left sp (gc_Idx c).
Proof.
  intros Hc Hi Hm Hself Hleft Hper Hb Hg Hlen h.
  destruct (basiccheck_bounds _ _ _ Hb) as (_ & _ & _ & _ & Hused & _ & Hbig). fold h in Hused, Hbig.
  unfold gaspowercheck_Validate, CalcGasPower in Hg.
  destruct (negb (vc_Epoch ctx =? _)); [done|]. rewrite go_bind_inv in Hg.
  destruct Hg as (r & Er & Hg). apply go_bind_inv in Er as (res & Er & [= <-]).
  apply go_fold_snoc_lookup in Er as (gs & -> & Hgs). apply fail_if_None, negb_false_iff in Hg.
  destruct (Forall2_lookup_l _ _ _ _ _ Hgs Hc) as (g & Egi & Eg).
  apply lookup_lt_is_Some in Hlen as [x Hx]. fold h in Hx.
  assert (gas_left h (gc_Idx c) = x) as Ex by (unfold gas_left; rewrite Hi, slice_get_nat, Hx; done).
  destruct Hm as [_ Hm64 Hmg]. rewrite Forall_forall in Hmg.
  pose proof (list_elem_of_lookup_2 _ _ _ Hx) as Hxin.
  specialize (Hmg x Hxin). specialize (Hbig x Hxin).
  do 2 apply Forall_cons in Hm64 as [_ Hm64]. apply Forall_cons in Hm64 as [Hu _].
  assert (u64 (x + GasPowerUsed h) = g) as Heq.
  { unfold gasPowerLeft_ok in Hg. rewrite forallb_forall in Hg.
    apply Z.eqb_eq, (Hg (x, g)). apply list_elem_of_In, (list_elem_of_lookup_2 _ i).
    apply lookup_zip_Some. done. }
  rewrite u64_id in Heq by (fold h in Hu; change halfMaxInt64 with 4611686018427387903 in Hbig;
    change MaxGasPowerUsed with 10028000 in Hused; word_unfold; lia).
  destruct (calcGasPower_le _ _ _ _ _ _ _ _ Hself Hper (calcValidatorGasPowerPerSec_pos _ _ _ _ _ _ Hper) Hleft Eg).
  rewrite Ex. word_unfold. subst h. lia.
Qed.

Lemma div_add_le a b c : 0 < c -> a / c + b / c <= (a + b) / c.
Proof.
  intros Hc. apply Z.div_le_lower_bound; [lia|].
  pose proof (Z.div_mod a c). pose proof (Z.div_mod b c).
  pose proof (Z.mod_pos_bound a c Hc). pose proof (Z.mod_pos_bound b c Hc). lia.
Qed.

(** C39: the gas power check limits the rate at which a validator spends gas:
    along a chain of accepted events of one epoch, the gas used by all of them
    is at most the gas power left at the beginning plus the validator's share of
    the allocation for the time by which the median time went up; no event uses
    more than the maximal gas power.  The wrap-around of the 64-bit sums does
    not break the bound. *)
Theorem gas_rate_limit eth config ctx c i e0 l perSec maxGas startup :
  vc_Configs ctx !! i = Some c -> gc_Idx c = Z.of_nat i ->
  0 <= gas_left e0 (gc_Idx c) ->
  Forall (fun e => (i < length (GasPowerLeft (ev_header e)))%nat) l ->
  calcValidatorGasPowerPerSec (Creator e0) (vc_Validators ctx) c = Ret (perSec, maxGas, startup) ->
  gas_chain eth config ctx e0 l ->
  zsum ((fun e => GasPowerUsed (ev_header e)) <$> l) + gas_left (last_header e0 l) (gc_Idx c) <=
    gas_left e0 (gc_Idx c) + median_rise e0 l * perSec / second /\
  Forall (fun e => GasPowerUsed (ev_header e) <= maxGas) l.
Proof.
  intros Hc Hi Hleft Hlen Hper. revert e0 Hleft Hper.
  induction l as [|e l IH]; intros e0 Hleft Hper Hch.
  { unfold last_header. simpl. rewrite Z.div_0_l by done. split; [lia|done]. }
  destruct Hch as (Hm & Hcr & Hself & Hb & Hg & Hch). apply Forall_cons in Hlen as [Hl Hlen].
  rewrite <-Hcr in Hper.
  destruct (gas_step eth config ctx c e e0 perSec maxGas startup i) as (H1 & H2 & H3); try done.
  destruct (IH Hlen (ev_header e) H1 Hper Hch) as (H4 & H5).
  assert (last_header e0 (e :: l) = last_header (ev_header e) l) as ->
    by (unfold last_header; rewrite last_cons; by destruct (last l)).
  csimpl. split; [|constructor; [lia|done]].
  rewrite Z.mul_add_distr_r.
  pose proof (div_add_le (Z.max 0 (MedianTime (ev_header e) - MedianTime e0) * perSec)
                (median_rise (ev_header e) l * perSec) second ltac:(done)). lia.
Qed.

(** Two events of validator 10, ten seconds after each other. *)
Definition example_gas_config (i : Z) : GasConfig :=
  let c := DefaulLongGasPowerConfig in
  mkGasConfig i (gpc_InitialAllocPerSec c) (gpc_MaxAllocPeriod c) (gpc_StartupAllocPeriod c)
    (gpc_MinStartupGas c).
Definition example_ctx : ValidationContext :=
  mkValidationContext 1 [example_gas_config 0; example_gas_config 1] example_validators ∅ 0 ∅.
Definition example_link (seq left median : Z) : FullEvent :=
  mkEvent (mkHeader 0 1 seq 1 false 10 ZeroHash [replicate 32 seq] [left; left] 28000 seq median
             median ZeroHash [] None) (replicate 65 0) [].

Lemma gas_rate_limit_witness :
  56000 + 16044000 <= 100000 + 20000000000 * 800000 / second.
Proof.
  destruct (gas_rate_limit example_eth DefaultDagConfig example_ctx (example_gas_config 0) 0
    (ev_header (example_link 1 100000 0))
    [example_link 2 8072000 (10 * second); example_link 3 16044000 (20 * second)] 800000 2880000000 4000000)
    as [H _]; [done|done|done| | | |exact H].
  - repeat constructor.
  - by vm_compute.
  - cbn [gas_chain]. split_and!; try exact I; try (by vm_compute); try (by eexists).
    all: split; repeat constructor; by vm_compute.
Defined.

(** ** The gas of the transactions *)

(** the gas an event may use is bounded, but only as a sum modulo 2^64: if
    the gas of the transactions adds up without overflow, an accepted event pays
    exactly for its transactions, its parents and its extra data, within
    [MaxGasPowerUsed]; two transactions of 2^63 gas each are accepted for the
    price of an empty event. *)
Theorem gas_used_modulo eth config e :
  0 <= MaxFreeParents config -> Forall (fun tx => is_u64 (tx_Gas tx)) (ev_Transactions e) ->
  basiccheck_Validate eth config e = Ret None ->
  let gas := zsum (tx_Gas <$> ev_Transactions e) in
  (gas < 18446744073699551616 -> zlen (Parents (ev_header e)) < 1000 ->
   GasPowerUsed (ev_header e) =
     gas + Z.max 0 (zlen (Parents (ev_header e)) - MaxFreeParents config) * ParentGas +
     zlen (Extra (ev_header e)) * ExtraDataGas + EventGas /\ gas <= 10000000) /\
  (let tx := mkTransaction 0 MinGasPrice (2 ^ 63) [] None in
   basiccheck_Validate example_eth DefaultDagConfig (example_child [tx; tx]) = Ret None).
Proof.
  intros Hfree Htx Hb gas. split; [|by vm_compute]. intros Hfit Hpar.
  destruct (basiccheck_bounds _ _ _ Hb) as (_ & _ & _ & _ & Hused & Hcalc & _).
  assert (zlen (Extra (ev_header e)) <= 128) as Hextra.
  { unfold basiccheck_Validate in Hb. checks Hb. unfold checkLimits in Hc0.
    destruct (Z.gtb_spec (zlen (Extra (ev_header e))) MaxExtraData); [done|]. unfold MaxExtraData in *. lia. }
  assert (Forall (fun x => 0 <= x) (tx_Gas <$> ev_Transactions e)) as Hnn.
  { apply Forall_fmap. eapply Forall_impl; [exact Htx|]. intros tx [? _]. done. }
  pose proof (zsum_nonneg _ Hnn) as Hgas. fold gas in Hgas.
  unfold CalcGasPowerUsed in Hcalc.
  pose proof (zlen_nonneg (Extra (ev_header e))) as He0. pose proof (zlen_nonneg (Parents (ev_header e))) as Hp0.
  rewrite (foldl_u64_zsum tx_Gas) in Hcalc;
    [|done|eapply Forall_impl; [exact Htx|]; by intros tx [? _]|unfold is_u64; lia].
  change MaxGasPowerUsed with 10028000 in Hused. change EventGas with 28000 in *.
  unfold ParentGas, ExtraDataGas in *. fold gas in Hcalc.
  set (p := zlen (Parents (ev_header e))) in *. set (x := zlen (Extra (ev_header e))) in *.
  set (f := MaxFreeParents config) in *. clearbody p x f gas.
  rewrite !u64_add_l, (u64_id (x * 150)), <-Z.add_assoc, u64_add_l in Hcalc by (unfold is_u64; lia).
  destruct (Z.gtb_spec p f).
  - rewrite (u64_id ((p - f) * 2400)), u64_id in Hcalc by (unfold is_u64; lia). lia.
  - rewrite u64_id in Hcalc by (unfold is_u64; lia). lia.
Qed.

Lemma gas_used_modulo_witness :
  zsum (tx_Gas <$> ev_Transactions (example_child [])) <= 10000000.
Proof.
  apply (gas_used_modulo example_eth DefaultDagConfig (example_child [])); [done|done|by vm_compute|done|done].
Defined.

(** ** The tasks of the heavy check *)

Lemma enqueue_tasks_spec {A} fuel (events : list A) start :
  0 <= start -> zlen events - start <= Z.of_nat fuel ->
  (mjoin (enqueue_tasks fuel events start) : list A) = drop (Z.to_nat start) events /\
  Forall (fun task => 0 < zlen task <= maxBatch) (enqueue_tasks fuel events start).
Proof.
  revert start. induction fuel as [|fuel IH]; intros start Hs Hf; simpl.
  { rewrite drop_ge by (unfold zlen in *; lia). done. }
  destruct (Z.ltb_spec start (zlen events)) as [Hlt|Hge]; simpl.
  2: { rewrite drop_ge by (unfold zlen in *; lia). done. }
  unfold maxBatch in *. destruct (IH (start + 4)) as [IH1 IH2]; [lia|lia|].
  rewrite IH1. split.
  - rewrite <-(take_drop (Z.to_nat ((if zlen events >? start + 4 then start + 4 else zlen events) - start))
                (drop (Z.to_nat start) events)) at 2. f_equal. rewrite drop_drop.
    destruct (Z.gtb_spec (zlen events) (start + 4)); [f_equal; lia|].
    rewrite !drop_ge; unfold zlen in *; done || lia.
  - constructor; [|done]. unfold zlen in *. rewrite length_take, length_drop.
    destruct (Z.gtb_spec (Z.of_nat (length events)) (start + 4)); lia.
Qed.

(** [Enqueue] hands every event to exactly one task, in order, in tasks of
    one to [maxBatch] events, so that the results of the tasks are the results
    of the events. *)
Theorem enqueue_covers (validate : FullEvent -> option check_error) (events : list FullEvent) :
  (mjoin (task_Result validate <$> Enqueue events) : list (option check_error)) = validate <$> events /\
  Forall (fun task => 0 < zlen task <= maxBatch) (Enqueue events).
Proof.
  destruct (enqueue_tasks_spec (length events) events 0) as [H1 H2]; [done|unfold zlen; lia|].
  split; [|done]. unfold Enqueue. change (Z.to_nat 0) with 0%nat in H1. rewrite drop_0 in H1.
  transitivity (validate <$> (mjoin (enqueue_tasks (length events) events 0) : list FullEvent));
    [|by rewrite H1]. clear. generalize (enqueue_tasks (length events) events 0). intros tasks.
  induction tasks as [|task l IH]; [done|]. rewrite fmap_cons.
  change (task_Result validate task ++ mjoin (task_Result validate <$> l) = validate <$> (task ++ mjoin l)).
  by rewrite IH, fmap_app.
Qed.
