(* ===== verification/Election.v ===== *)
(** * The election of the Atropos: poset/election

    Every root votes, for each validator, on whether the validator's root of
    the frame that is to be decided is seen; a root that sees a quorum of equal
    votes decides.  [observe] is the forkless-cause relation of the index and
    [frameRoots] the roots of a frame that are known at the time of a call. *)

From S2P Require Import Prelude Bytes Pos Event.
(** ** election.go *)

Record Slot := mkSlot { slot_Frame : Z; slot_Validator : Z }.
Record RootAndSlot := mkRoot { root_ID : hash; root_Slot : Slot }.
Record voteValue := mkVote { decided : bool; yes : bool; observedRoot : hash }.
Record Res := mkRes { res_Frame : Z; res_Atropos : hash }.

#[global] Instance Slot_eq_dec : EqDecision Slot.
Proof. solve_decision. Defined.
#[global] Instance RootAndSlot_eq_dec : EqDecision RootAndSlot.
Proof. solve_decision. Defined.
#[global] Instance voteValue_eq_dec : EqDecision voteValue.
Proof. solve_decision. Defined.

Record Election := mkElection {
  frameToDecide : Z;
  el_validators : Validators;
  decidedRoots : gmap Z voteValue;
  votes : gmap (hash * Z) voteValue    (* by fromRoot and forValidator *)
}.

Inductive el_error :=
  | ErrTwoForkRoots   (* forkless caused by 2 fork roots => more than 1/3W are Byzantine *)
  | ErrAllNo.         (* all the roots are decided as 'no' *)

Definition Election_Reset (validators : Validators) (frame : Z) : Election :=
  mkElection frame validators ∅ ∅.
Definition Election_New (validators : Validators) (frame : Z) : Election :=
  Election_Reset validators frame.

Definition notDecidedRoots (el : Election) : go (list Z) :=
  let l := filter (fun v => decidedRoots el !! v = None) (Validators_IDs (el_validators el)) in
  if zlen l + Z.of_nat (size (decidedRoots el)) =? Validators_Len (el_validators el) then Ret l
  else Fault (Crit "Mismatch of roots").

Section observed.
Context (observe : hash -> hash -> bool) (frameRoots : Z -> list RootAndSlot).

Definition observedRoots (root : hash) (frame : Z) : list RootAndSlot :=
  filter (fun r => observe root (root_ID r) = true) (frameRoots frame).

Definition observedRootsMap (root : hash) (frame : Z) : gmap Z RootAndSlot :=
  foldl (fun m r => if observe root (root_ID r) then <[slot_Validator (root_Slot r) := r]> m else m)
        ∅ (frameRoots frame).

End observed.

(** ** sort_roots.go *)

Fixpoint chooseAtropos_loop (el : Election) (l : list Z) : el_error + option Res :=
  match l with
  | [] => inl ErrAllNo
  | validator :: l =>
      match decidedRoots el !! validator with
      | None => inr None
      | Some vote => if yes vote then inr (Some (mkRes (frameToDecide el) (observedRoot vote)))
                     else chooseAtropos_loop el l
      end
  end.
Definition chooseAtropos (el : Election) : el_error + option Res :=
  chooseAtropos_loop el (Validators_SortedIDs (el_validators el)).

(** ** election_math.go *)

Record tally := mkTally {
  yesVotes : StakeCounter;
  noVotes : StakeCounter;
  allVotes : StakeCounter;
  subjectHash : option hash
}.

(** The votes of the observed roots for one subject. *)
Fixpoint countVotes (el : Election) (subject : Z) (l : list RootAndSlot) (t : tally)
    : go (el_error + tally) :=
  match l with
  | [] => Ret (inr t)
  | r :: l =>
      match votes el !! (root_ID r, subject) with
      | None => Fault (Crit "Every root must vote for every not decided subject")
      | Some vote =>
          let validator := slot_Validator (root_Slot r) in
          if yes vote && match subjectHash t with
                         | Some s => bool_decide (s <> observedRoot vote)
                         | None => false
                         end
          then Ret (inl ErrTwoForkRoots)
          else
            t ← (if yes vote then
                   '(_, c) ← StakeCounter_Count (yesVotes t) validator;
                   Ret (mkTally c (noVotes t) (allVotes t) (Some (observedRoot vote)))
                 else
                   '(_, c) ← StakeCounter_Count (noVotes t) validator;
                   Ret (mkTally (yesVotes t) c (allVotes t) (subjectHash t)));
            '(counted, c) ← StakeCounter_Count (allVotes t) validator;
            let t := mkTally (yesVotes t) (noVotes t) c (subjectHash t) in
            if negb counted then
              (* the error message dereferences the pointer *)
              match subjectHash t with
              | None => Fault NilDereference
              | Some _ => Ret (inl ErrTwoForkRoots)
              end
            else countVotes el subject l t
      end
  end.

Definition newTally (vv : Validators) : tally :=
  mkTally (newStakeCounter vv) (newStakeCounter vv) (newStakeCounter vv) None.

(** The vote for one subject from what the root observes. *)
Definition voteFromTally (t : tally) : voteValue :=
  let y := StakeCounter_Sum (noVotes t) <=? StakeCounter_Sum (yesVotes t) in
  mkVote (StakeCounter_HasQuorum (yesVotes t) || StakeCounter_HasQuorum (noVotes t)) y
    (if y then default ZeroHash (subjectHash t) else ZeroHash).

(** One subject: the body of the loop. *)
Definition voteSubject (round : Z) (newRoot : hash) (obsMap : gmap Z RootAndSlot)
    (obs : list RootAndSlot) (el : Election) (subject : Z) : go (el_error * Election + Election) :=
  if round =? 1 then
    let vote := match obsMap !! subject with
                | Some r => mkVote false true (root_ID r)
                | None => mkVote false false ZeroHash
                end in
    Ret (inr (mkElection (frameToDecide el) (el_validators el) (decidedRoots el)
                (<[(newRoot, subject) := vote]> (votes el))))
  else
    res ← countVotes el subject obs (newTally (el_validators el));
    match res with
    | inl err => Ret (inl (err, el))
    | inr t =>
        if negb (StakeCounter_HasQuorum (allVotes t)) then
          Fault (Crit "Root must be forkless caused by at least 2/3W of prev roots")
        else
          let vote := voteFromTally t in
          Ret (inr (mkElection (frameToDecide el) (el_validators el)
                      (if decided vote then <[subject := vote]> (decidedRoots el) else decidedRoots el)
                      (<[(newRoot, subject) := vote]> (votes el))))
    end.

Fixpoint voteSubjects (round : Z) (newRoot : hash) (obsMap : gmap Z RootAndSlot)
    (obs : list RootAndSlot) (el : Election) (subjects : list Z) : go (el_error * Election + Election) :=
  match subjects with
  | [] => Ret (inr el)
  | s :: subjects =>
      r ← voteSubject round newRoot obsMap obs el s;
      match r with
      | inl err => Ret (inl err)
      | inr el => voteSubjects round newRoot obsMap obs el subjects
      end
  end.

(** The result and the new state; the votes made before an error stay. *)
Definition ProcessRoot (observe : hash -> hash -> bool) (frameRoots : Z -> list RootAndSlot)
    (el : Election) (newRoot : RootAndSlot) : go ((el_error + option Res) * Election) :=
  match chooseAtropos el with
  | inl err => Ret (inl err, el)
  | inr (Some res) => Ret (inr (Some res), el)
  | inr None =>
      let frame := slot_Frame (root_Slot newRoot) in
      if frame <=? frameToDecide el then Ret (inr None, el)
      else
        let round := u32 (frame - frameToDecide el) in
        if round =? 0 then Ret (inr None, el)
        else
          subjects ← notDecidedRoots el;
          let obsMap := if round =? 1
                        then observedRootsMap observe frameRoots (root_ID newRoot) (u32 (frame - 1))
                        else ∅ in
          let obs := if round =? 1 then []
                     else observedRoots observe frameRoots (root_ID newRoot) (u32 (frame - 1)) in
          r ← voteSubjects round (root_ID newRoot) obsMap obs el subjects;
          match r with
          | inl (err, el) => Ret (inl err, el)
          | inr el => Ret (chooseAtropos el, el)
          end
  end.
