(* ===== verification/ElectionSafety.v ===== *)
(** * Agreement of elections

    All honest nodes that run an election of one frame over the same graph
    choose the same Atropos, whatever roots they process and in which order.
    The graph enters through [roots_ok]: what a root observes of the frame
    before it. *)

From S2P Require Import Prelude Bytes Pos Event Election.
Lemma length_filter_split {A} (P : A -> Prop) `{forall x, Decision (P x)} (l : list A) :
  (length (filter P l) + length (filter (fun x => ~ P x) l) = length l)%nat.
Proof.
  induction l as [|x l IH]; [done|]. rewrite !filter_cons.
  repeat case_decide; simpl; try lia; done.
Qed.

Section world.
Context (vv : Validators).
(** The roots of the graph, and the roots of the frame before that a root
    observes. *)
Context (is_root : RootAndSlot -> Prop) (Obs : hash -> list RootAndSlot).
(** The frame that is to be decided. *)
Context (F : Z).

Definition val (r : RootAndSlot) : Z := slot_Validator (root_Slot r).
Definition frame (r : RootAndSlot) : Z := slot_Frame (root_Slot r).
Definition vidx (r : RootAndSlot) : Z := Validators_GetIdx vv (val r).

Definition creators (l : list RootAndSlot) : gset Z := list_to_set (vidx <$> l).

(** What the graph and the index guarantee while less than a third of the
    stake is Byzantine: of one slot only one root is ever observed, and a root
    observes the roots of a quorum. *)
Record roots_ok : Prop := {
  ro_id x y : is_root x -> is_root y -> root_ID x = root_ID y -> x = y;
  ro_frame x : is_root x -> 0 <= frame x < 2 ^ 32;
  ro_obs x r : is_root x -> r ∈ Obs (root_ID x) ->
    is_root r /\ frame r + 1 = frame x /\ val r ∈ Validators_SortedIDs vv;
  ro_nodup x : is_root x -> NoDup (Obs (root_ID x));
  ro_slot x y r s : is_root x -> is_root y -> r ∈ Obs (root_ID x) -> s ∈ Obs (root_ID y) ->
    root_Slot r = root_Slot s -> r = s;
  ro_quorum x : is_root x -> F + 1 < frame x -> is_quorum vv (creators (Obs (root_ID x)))
}.

(** ** The votes, as functions of the graph *)

Definition voters_of (vote : hash -> bool) (b : bool) (x : hash) : gset Z :=
  creators (filter (fun r => vote (root_ID r) = b) (Obs x)).

Fixpoint ref (n : nat) (v : Z) (x : hash) : bool :=
  match n with
  | O => false
  | S O => bool_decide (v ∈ val <$> Obs x)
  | S n => stake_of vv (voters_of (ref n v) false x) <=? stake_of vv (voters_of (ref n v) true x)
  end.

(** A root of round [S n] sees a quorum of votes [b]. *)
Definition decides (n : nat) (v : Z) (x : hash) (b : bool) : Prop :=
  is_quorum vv (voters_of (ref n v) b x).

(** The root that the yes-votes for [v] are about. *)
Definition subject_root (v : Z) (h : hash) : Prop :=
  exists x r, is_root x /\ frame x = F + 1 /\ r ∈ Obs (root_ID x) /\ val r = v /\ h = root_ID r.

Context (Hvv : validators_ok vv) (HW : roots_ok).

Lemma ref_S n v x : (0 < n)%nat ->
  ref (S n) v x = (stake_of vv (voters_of (ref n v) false x) <=? stake_of vv (voters_of (ref n v) true x)).
Proof. destruct n; [lia|done]. Qed.

Lemma elem_of_voters vote b x c :
  c ∈ voters_of vote b x <-> exists r, r ∈ Obs x /\ vidx r = c /\ vote (root_ID r) = b.
Proof.
  unfold voters_of, creators. rewrite elem_of_list_to_set, list_elem_of_fmap.
  setoid_rewrite list_elem_of_filter. naive_solver.
Qed.

Lemma elem_of_creators l c : c ∈ creators l <-> exists r, r ∈ l /\ vidx r = c.
Proof. unfold creators. rewrite elem_of_list_to_set, list_elem_of_fmap. naive_solver. Qed.

Lemma obs_within x : is_root x -> creators (Obs (root_ID x)) ⊆ all_idx vv.
Proof.
  intros Hx c (r & Hr & <-)%elem_of_creators. destruct (ro_obs HW x r Hx Hr) as (_ & _ & Hv).
  by apply (GetIdx_elem vv Hvv).
Qed.

Lemma voters_within vote b x : is_root x -> voters_of vote b (root_ID x) ⊆ all_idx vv.
Proof.
  intros Hx c (r & Hr & <- & _)%elem_of_voters. apply (obs_within x Hx).
  apply elem_of_creators. by exists r.
Qed.

(** Two roots of the same frame agree on who votes what. *)
Lemma same_voter x y r s :
  is_root x -> is_root y -> frame x = frame y -> r ∈ Obs (root_ID x) -> s ∈ Obs (root_ID y) ->
  vidx r = vidx s -> r = s.
Proof.
  intros Hx Hy Hf Hr Hs E.
  destruct (ro_obs HW x r Hx Hr) as (_ & Fr & Vr). destruct (ro_obs HW y s Hy Hs) as (_ & Fs & Vs).
  apply (ro_slot HW x y); try done. destruct r as [i [f1 v1]], s as [j [f2 v2]].
  unfold vidx, val, frame in *. simpl in *. f_equal; [lia|]. by apply (GetIdx_inj vv Hvv).
Qed.

Lemma voters_disjoint vote x y : is_root x -> is_root y -> frame x = frame y ->
  forall b, voters_of vote b (root_ID x) ## voters_of vote (negb b) (root_ID y).
Proof.
  intros Hx Hy Hf b c (r & Hr & E1 & V1)%elem_of_voters (s & Hs & E2 & V2)%elem_of_voters.
  assert (r = s) as -> by (apply (same_voter x y); congruence). rewrite V1 in V2. by destruct b.
Qed.

Lemma voters_union vote x b :
  voters_of vote b (root_ID x) ∪ voters_of vote (negb b) (root_ID x) = creators (Obs (root_ID x)).
Proof.
  apply set_eq. intros c. rewrite elem_of_union, !elem_of_voters, elem_of_creators. split.
  - intros [(r & ? & ? & _)|(r & ? & ? & _)]; by exists r.
  - intros (r & Hr & E). destruct (vote (root_ID r)) eqn:Ev, b; simpl; naive_solver.
Qed.

(** ** A decision binds *)

(** A quorum of votes [b] at one root makes [b] the strict majority at every
    root of its frame. *)
Lemma decision_majority n v x y b :
  is_root x -> is_root y -> frame x = frame y -> F + 1 < frame y -> decides n v (root_ID x) b ->
  stake_of vv (voters_of (ref n v) (negb b) (root_ID y)) < stake_of vv (voters_of (ref n v) b (root_ID y)).
Proof.
  intros Hx Hy Hf HF Hq. pose proof (ro_quorum HW y Hy HF) as HQ.
  rewrite <-(voters_union (ref n v) y b) in HQ. unfold decides, is_quorum in *.
  rewrite (Quorum_eq vv Hvv) in *. unfold stake_of in HQ.
  rewrite wsum_union in HQ by (by apply voters_disjoint). fold (stake_of vv) in HQ.
  assert (voters_of (ref n v) b (root_ID x) ∪ voters_of (ref n v) (negb b) (root_ID y) ⊆ all_idx vv) as Hin.
  { apply union_subseteq. split; by apply voters_within. }
  pose proof (stake_of_le_total vv Hvv _ Hin) as Hle. unfold stake_of in Hle.
  rewrite wsum_union in Hle by (by apply voters_disjoint). fold (stake_of vv) in Hle.
  unfold stake_of in *. word.
Qed.

Lemma majority_ref n v y b :
  (0 < n)%nat ->
  stake_of vv (voters_of (ref n v) (negb b) (root_ID y)) < stake_of vv (voters_of (ref n v) b (root_ID y)) ->
  ref (S n) v (root_ID y) = b.
Proof.
  intros Hn H. rewrite ref_S by done. destruct b; simpl in H; [apply Z.leb_le|apply Z.leb_gt]; lia.
Qed.

Lemma decision_binds n v x b k : forall y,
  (0 < n)%nat -> is_root x -> is_root y -> frame x = F + Z.of_nat (S n) ->
  frame y = F + Z.of_nat (S n + k) -> decides n v (root_ID x) b ->
  ref (S n + k) v (root_ID y) = b.
Proof.
  induction k as [|k IH]; intros y Hn Hx Hy Fx Fy Hd.
  - rewrite Nat.add_0_r in *. apply majority_ref; [done|].
    apply (decision_majority n v x y b); try done; lia.
  - rewrite Nat.add_succ_r in *. apply majority_ref; [lia|].
    pose proof (ro_quorum HW y Hy ltac:(lia)) as HQ. rewrite <-(voters_union (ref (S n + k) v) y b) in HQ.
    assert (voters_of (ref (S n + k) v) (negb b) (root_ID y) = ∅) as E.
    { apply elem_of_equiv_empty_L. intros c (r & Hr & _ & Hv)%elem_of_voters.
      destruct (ro_obs HW y r Hy Hr) as (Hrr & Fr & _).
      rewrite (IH r) in Hv by (done || lia). by destruct b. }
    rewrite E in HQ |- *. rewrite (right_id_L ∅ (∪)) in HQ. unfold is_quorum in HQ. rewrite (Quorum_eq vv Hvv) in HQ.
    pose proof (stake_of_nonneg vv Hvv (all_idx vv)) as H0. rewrite (stake_of_all vv Hvv) in H0.
    unfold stake_of at 1. rewrite wsum_empty. word.
Qed.

(** Two decisions about one subject are equal. *)
Lemma decisions_agree n m v x y b b' :
  (0 < n)%nat -> (0 < m)%nat -> is_root x -> is_root y ->
  frame x = F + Z.of_nat (S n) -> frame y = F + Z.of_nat (S m) ->
  decides n v (root_ID x) b -> decides m v (root_ID y) b' -> b = b'.
Proof.
  assert (forall n m x y b b', (0 < n)%nat -> (n <= m)%nat -> is_root x -> is_root y ->
    frame x = F + Z.of_nat (S n) -> frame y = F + Z.of_nat (S m) ->
    decides n v (root_ID x) b -> decides m v (root_ID y) b' -> b = b') as Hle.
  { clear n m x y b b'. intros n m x y b b' Hn Hnm Hx Hy Fx Fy Dx Dy.
    assert (ref (S m) v (root_ID y) = b) as E1.
    { replace (S m) with (S n + (m - n))%nat by lia. apply (decision_binds n v x b); try done. lia. }
    assert (ref (S m + 0) v (root_ID y) = b') as E2
      by (apply (decision_binds m v y b' 0); [lia|done..|rewrite Nat.add_0_r; lia|done]).
    rewrite Nat.add_0_r in E2. congruence. }
  intros Hn Hm Hx Hy Fx Fy Dx Dy. destruct (decide (n <= m)%nat).
  - by apply (Hle n m x y).
  - symmetry. apply (Hle m n y x); try done. lia.
Qed.

(** All yes-votes for a subject are about one root. *)
Lemma subject_root_unique v h h' : subject_root v h -> subject_root v h' -> h = h'.
Proof.
  intros (x & r & Hx & Fx & Hr & Vr & ->) (y & s & Hy & Fy & Hs & Vs & ->).
  assert (r = s) as ->; [|done]. apply (same_voter x y); try done; [congruence|].
  unfold vidx. congruence.
Qed.

(** ** The state of an election *)

Record vote_ok (n : nat) (v : Z) (x : hash) (vote : voteValue) : Prop := {
  vk_yes : yes vote = ref n v x;
  vk_subject : yes vote = true -> subject_root v (observedRoot vote)
}.

(** [P] are the roots that were processed. *)
Record el_ok (P : list RootAndSlot) (el : Election) : Prop := {
  eo_frame : frameToDecide el = F;
  eo_vv : el_validators el = vv;
  eo_votes x v vote : votes el !! (x, v) = Some vote ->
    exists X n, is_root X /\ root_ID X = x /\ (0 < n)%nat /\ frame X = F + Z.of_nat n /\ vote_ok n v x vote;
  eo_decided v vote : decidedRoots el !! v = Some vote ->
    v ∈ Validators_SortedIDs vv /\
    exists X n, is_root X /\ (0 < n)%nat /\ frame X = F + Z.of_nat (S n) /\
      decides n v (root_ID X) (yes vote) /\ (yes vote = true -> subject_root v (observedRoot vote));
  eo_complete X v : X ∈ P -> F < frame X -> v ∈ Validators_SortedIDs vv ->
    decidedRoots el !! v = None -> is_Some (votes el !! (root_ID X, v))
}.

Lemma el_ok_new : el_ok [] (Election_New vv F).
Proof.
  split; try done. intros X v HX%elem_of_nil. done.
Qed.

(** *** Counting *)

Record tally_ok (v : Z) (t : tally) (Y N A : gset Z) : Prop := {
  ty_yes : counter_ok vv (yesVotes t) Y;
  ty_no : counter_ok vv (noVotes t) N;
  ty_all : counter_ok vv (allVotes t) A;
  ty_subject h : subjectHash t = Some h -> subject_root v h;
  ty_some : Y <> ∅ -> is_Some (subjectHash t)
}.

Lemma countVotes_spec el n v l : forall t Y N A,
  (forall r, r ∈ l -> val r ∈ Validators_SortedIDs vv /\
     exists vote, votes el !! (root_ID r, v) = Some vote /\ vote_ok n v (root_ID r) vote) ->
  NoDup (vidx <$> l) -> A ## creators l -> tally_ok v t Y N A ->
  exists t', countVotes el v l t = Ret (inr t') /\
    tally_ok v t' (Y ∪ creators (filter (fun r => ref n v (root_ID r) = true) l))
                  (N ∪ creators (filter (fun r => ref n v (root_ID r) = false) l)) (A ∪ creators l).
Proof.
  induction l as [|r l IH]; intros t Y N A Hl Hnd Hdisj Ht.
  - exists t. split; [done|]. unfold creators. simpl. by rewrite !(right_id_L ∅ (∪)).
  - destruct (Hl r (list_elem_of_here _ _)) as (Hv & vote & Ev & [Vy Vs]).
    rewrite fmap_cons in Hnd. apply NoDup_cons in Hnd as [Hnin Hnd].
    destruct (GetIdx_elem vv Hvv _ Hv) as [_ Hidx]. cbn [countVotes]. rewrite Ev.
    assert (forall k : list RootAndSlot, creators (r :: k) = {[vidx r]} ∪ creators k) as Ecr by done.
    assert (vidx r ∉ A) as HnA by (intros HA; apply (Hdisj (vidx r)); [done|rewrite Ecr; set_solver]).
    assert (yes vote && match subjectHash t with
              | Some s => bool_decide (s <> observedRoot vote) | None => false end = false) as ->.
    { destruct (yes vote) eqn:Ey; [|done]. simpl. destruct (subjectHash t) as [s|] eqn:Es; [|done].
      apply bool_decide_eq_false_2. intros Hne. apply Hne. apply (subject_root_unique v).
      - by apply (ty_subject _ _ _ _ _ Ht).
      - by apply Vs. }
    set (Y' := if yes vote then {[vidx r]} ∪ Y else Y).
    set (N' := if yes vote then N else {[vidx r]} ∪ N).
    assert (exists t1, (if yes vote
        then '(_, c) ← StakeCounter_Count (yesVotes t) (slot_Validator (root_Slot r));
             Ret (mkTally c (noVotes t) (allVotes t) (Some (observedRoot vote)))
        else '(_, c) ← StakeCounter_Count (noVotes t) (slot_Validator (root_Slot r));
             Ret (mkTally (yesVotes t) c (allVotes t) (subjectHash t))) = Ret t1 /\
        tally_ok v t1 Y' N' A) as (t1 & Et1 & Ht1).
    { unfold Y', N'. fold (val r). destruct Ht as [T1 T2 T3 T4 T5]. destruct (yes vote) eqn:Ey.
      - destruct (Count_ok vv Hvv _ _ _ T1 Hv) as (c & -> & Hc). rewrite go_bind_Ret.
        eexists. split; [done|]. split; simpl; try done. intros h [= <-]. by apply Vs.
      - destruct (Count_ok vv Hvv _ _ _ T2 Hv) as (c & -> & Hc). rewrite go_bind_Ret.
        eexists. split; [done|]. by split. }
    rewrite Et1, go_bind_Ret. destruct Ht1 as [T1 T2 T3 T4 T5].
    destruct (Count_ok vv Hvv _ _ _ T3 Hv) as (c & Ec & Hc).
    unfold val in Ec. rewrite Ec, go_bind_Ret. fold (val r) in *. fold (vidx r) in *.
    rewrite bool_decide_eq_true_2 by done. cbn [negb].
    destruct (IH (mkTally (yesVotes t1) (noVotes t1) c (subjectHash t1)) Y' N' ({[vidx r]} ∪ A))
      as (t' & Et' & Ht').
    + intros r' Hr'. apply Hl. by apply list_elem_of_further.
    + done.
    + rewrite Ecr in Hdisj. intros x Hx1 Hx2. apply elem_of_union in Hx1 as [Hx1|Hx1].
      * apply elem_of_singleton in Hx1 as ->. apply Hnin. apply elem_of_creators in Hx2 as (r' & Hr' & E).
        rewrite <-E. by apply list_elem_of_fmap_2.
      * apply (Hdisj x Hx1). set_solver.
    + by split.
    + exists t'. split; [done|].
      replace (A ∪ creators (r :: l)) with ({[vidx r]} ∪ A ∪ creators l) by (rewrite Ecr; set_solver).
      unfold Y', N' in Ht'. rewrite !filter_cons. rewrite Vy in Ht'.
      destruct (ref n v (root_ID r)) eqn:Er; simpl in Ht' |- *.
      * rewrite Ecr.
        replace (Y ∪ _) with ({[vidx r]} ∪ Y ∪ creators (filter (fun r => ref n v (root_ID r) = true) l)) by set_solver.
        done.
      * rewrite Ecr.
        replace (N ∪ ({[vidx r]} ∪ _)) with ({[vidx r]} ∪ N ∪ creators (filter (fun r => ref n v (root_ID r) = false) l)) by set_solver.
        done.
Qed.

(** *** One call *)

Context (HF : 0 <= F).

(** The conditions of a call: the root is a root, [frameRoots] holds what it
    observes of the frame before, and these roots were processed. *)
Record call_ok (observe : hash -> hash -> bool) (frameRoots : Z -> list RootAndSlot)
    (P : list RootAndSlot) (X : RootAndSlot) : Prop := {
  ca_root : is_root X;
  ca_obs : observedRoots observe frameRoots (root_ID X) (u32 (frame X - 1)) ≡ₚ Obs (root_ID X);
  ca_before : F + 1 < frame X -> forall r, r ∈ Obs (root_ID X) -> r ∈ P
}.

Lemma observedRootsMap_spec observe frameRoots x f v :
  match observedRootsMap observe frameRoots x f !! v with
  | Some r => r ∈ observedRoots observe frameRoots x f /\ val r = v
  | None => v ∉ val <$> observedRoots observe frameRoots x f
  end.
Proof.
  unfold observedRootsMap, observedRoots.
  apply (foldl_inv (fun (m : gmap Z RootAndSlot) r => if observe x (root_ID r) then <[slot_Validator (root_Slot r) := r]> m else m)
           (fun (dn : list RootAndSlot) (m : gmap Z RootAndSlot) => match m !! v with
              | Some r => r ∈ filter (fun r => observe x (root_ID r) = true) dn /\ val r = v
              | None => v ∉ val <$> filter (fun r => observe x (root_ID r) = true) dn
              end)).
  - rewrite lookup_empty. apply not_elem_of_nil.
  - intros dn r rest m _ Hm. rewrite filter_app, fmap_app.
    destruct (observe x (root_ID r)) eqn:E.
    + rewrite (filter_cons_True (fun r => observe x (root_ID r) = true)) by done.
      rewrite lookup_insert. case_decide as Ev.
      * split; [set_solver|done].
      * fold (val r) in Ev. destruct (m !! v) as [r'|]; [destruct Hm; split; [set_solver|done]|].
        rewrite not_elem_of_app. split; [done|]. csimpl. set_solver.
    + rewrite (filter_cons_False (fun r => observe x (root_ID r) = true)) by congruence.
      simpl. rewrite !app_nil_r. done.
Qed.

Lemma perm_creators l l' : l ≡ₚ l' -> creators l = creators l'.
Proof.
  intros E. apply set_eq. intros c. rewrite !elem_of_creators. by setoid_rewrite E.
Qed.

Lemma obs_nodup x : is_root x -> NoDup (vidx <$> Obs (root_ID x)).
Proof.
  intros Hx. apply NoDup_fmap_2_strong; [|by apply (ro_nodup HW)].
  intros r s Hr Hs E. by apply (same_voter x x).
Qed.

(** The vote of a later round. *)
Lemma voteFromTally_spec n v X t A :
  (0 < n)%nat -> is_root X -> frame X = F + Z.of_nat (S n) ->
  tally_ok v t (voters_of (ref n v) true (root_ID X)) (voters_of (ref n v) false (root_ID X)) A ->
  vote_ok (S n) v (root_ID X) (voteFromTally t) /\
  (decided (voteFromTally t) = true -> decides n v (root_ID X) (yes (voteFromTally t))).
Proof.
  intros Hn HX Fx [T1 T2 T3 T4 T5].
  assert (yes (voteFromTally t) = ref (S n) v (root_ID X)) as Ey.
  { rewrite ref_S by done. simpl. unfold StakeCounter_Sum.
    by rewrite (co_sum _ _ _ T1), (co_sum _ _ _ T2). }
  split; [split; [done|]|].
  - intros Hy. pose proof Hy as Hy'. rewrite Ey, ref_S in Hy' by done.
    assert (voters_of (ref n v) true (root_ID X) <> ∅) as Hne.
    { intros E. rewrite E in Hy'. unfold stake_of at 2 in Hy'. rewrite wsum_empty in Hy'. apply Z.leb_le in Hy'.
      pose proof (ro_quorum HW X HX ltac:(lia)) as HQ. rewrite <-(voters_union (ref n v) X true), E in HQ.
      rewrite (left_id_L ∅ (∪)) in HQ. unfold is_quorum in HQ. rewrite (Quorum_eq vv Hvv) in HQ.
      pose proof (stake_of_nonneg vv Hvv (all_idx vv)) as H0. rewrite (stake_of_all vv Hvv) in H0.
      simpl in HQ. word. }
    destruct (T5 Hne) as [h Eh]. unfold voteFromTally in *. simpl in *. rewrite Hy, Eh. simpl. by apply T4.
  - simpl. rewrite (HasQuorum_ok vv _ _ T1), (HasQuorum_ok vv _ _ T2), orb_true_iff, !bool_decide_eq_true.
    fold (yes (voteFromTally t)). change (StakeCounter_Sum (noVotes t) <=? StakeCounter_Sum (yesVotes t)) with (yes (voteFromTally t)).
    rewrite Ey. intros [Hq|Hq].
    + assert (ref (S n + 0) v (root_ID X) = true) as E
        by (apply (decision_binds n v X true 0); rewrite ?Nat.add_0_r; done).
      rewrite Nat.add_0_r in E. rewrite E. done.
    + assert (ref (S n + 0) v (root_ID X) = false) as E
        by (apply (decision_binds n v X false 0); rewrite ?Nat.add_0_r; done).
      rewrite Nat.add_0_r in E. rewrite E. done.
Qed.

(** A vote is added to the state. *)
Lemma el_ok_vote P el X n v vote dec :
  el_ok P el -> is_root X -> (0 < n)%nat -> frame X = F + Z.of_nat n -> vote_ok n v (root_ID X) vote ->
  (dec = decidedRoots el \/
   (dec = <[v := vote]> (decidedRoots el) /\ v ∈ Validators_SortedIDs vv /\
    exists m, n = S m /\ (0 < m)%nat /\ decides m v (root_ID X) (yes vote))) ->
  el_ok P (mkElection (frameToDecide el) (el_validators el) dec (<[(root_ID X, v) := vote]> (votes el))).
Proof.
  intros [H1 H2 H3 H4 H5] HX Hn Fx Hvote Hdec. split; simpl; try done.
  - intros x v' vote' Hl. rewrite lookup_insert in Hl. case_decide as E.
    + injection E as <- <-. injection Hl as <-. by exists X, n.
    + by apply H3.
  - intros v' vote' Hl. destruct Hdec as [->|(-> & Hv & m & -> & Hm & Hd)]; [by apply H4|].
    rewrite lookup_insert in Hl. case_decide as E; [|by apply H4]. subst v'. injection Hl as <-.
    split; [done|]. exists X, m. split_and!; try done. apply (vk_subject _ _ _ _ Hvote).
  - intros Y v' HY Fy Hv' Hl. rewrite lookup_insert. case_decide; [done|]. apply H5; try done.
    destruct Hdec as [->|(-> & _)]; [done|]. rewrite lookup_insert in Hl. by case_decide.
Qed.

Record extends (X : RootAndSlot) (v : Z) (el el' : Election) : Prop := {
  ex_new : is_Some (votes el' !! (root_ID X, v));
  ex_votes k : is_Some (votes el !! k) -> is_Some (votes el' !! k);
  ex_decided v' : v' <> v -> decidedRoots el' !! v' = decidedRoots el !! v'
}.

Lemma voteSubject_spec observe frameRoots P el X v obsMap obs :
  call_ok observe frameRoots P X -> el_ok P el -> F < frame X ->
  v ∈ Validators_SortedIDs vv -> decidedRoots el !! v = None ->
  (frame X = F + 1 -> obsMap = observedRootsMap observe frameRoots (root_ID X) (u32 (frame X - 1))) ->
  (frame X <> F + 1 -> obs = observedRoots observe frameRoots (root_ID X) (u32 (frame X - 1))) ->
  exists el', voteSubject (frame X - F) (root_ID X) obsMap obs el v = Ret (inr el') /\
    el_ok P el' /\ extends X v el el'.
Proof.
  intros [HX Hobs Hbef] Hel Hfx Hv Hnd Emap Eobs. unfold voteSubject.
  assert (forall vote dec, (forall v', v' <> v -> dec !! v' = decidedRoots el !! v') ->
    extends X v el (mkElection (frameToDecide el) (el_validators el) dec
                      (<[(root_ID X, v) := vote]> (votes el)))) as Hext.
  { intros vote dec Hdec. split; simpl; [rewrite lookup_insert_eq; eauto| |done].
    intros k Hk. rewrite lookup_insert. case_decide; eauto. }
  destruct (Z.eqb_spec (frame X - F) 1) as [E1|E1].
  - (* the first round *)
    specialize (Emap ltac:(lia)). subst obsMap.
    pose proof (observedRootsMap_spec observe frameRoots (root_ID X) (u32 (frame X - 1)) v) as Hmap.
    set (vote := match observedRootsMap observe frameRoots (root_ID X) (u32 (frame X - 1)) !! v with
                 | Some r => _ | None => _ end).
    eexists. split; [done|]. split; [|by apply Hext].
    apply (el_ok_vote P el X 1 v vote); [done|done|lia|lia| |by left].
    unfold vote. clear vote.
    destruct (observedRootsMap observe frameRoots (root_ID X) (u32 (frame X - 1)) !! v) as [r|].
    + destruct Hmap as [Hr Hvr]. rewrite Hobs in Hr. split; simpl.
      * symmetry. apply bool_decide_eq_true_2. rewrite <-Hvr. by apply list_elem_of_fmap_2.
      * intros _. exists X, r. split_and!; try done. lia.
    + split; simpl; [|done]. symmetry. apply bool_decide_eq_false_2. by rewrite <-Hobs.
  - (* later rounds *)
    specialize (Eobs ltac:(lia)). subst obs.
    assert (exists n, (0 < n)%nat /\ frame X = F + Z.of_nat (S n)) as (n & Hn & Fx)
      by (exists (Z.to_nat (frame X - F - 1)); lia).
    set (obs := observedRoots observe frameRoots (root_ID X) (u32 (frame X - 1))) in *.
    destruct (countVotes_spec el n v obs (newTally (el_validators el)) ∅ ∅ ∅) as (t & Et & Ht).
    + intros r Hr. rewrite Hobs in Hr. destruct (ro_obs HW X r HX Hr) as (Rr & Fr & Vr). split; [done|].
      destruct (eo_complete _ _ Hel r v (Hbef ltac:(lia) r Hr) ltac:(lia) Hv Hnd) as [vote Ev].
      exists vote. split; [done|]. destruct (eo_votes _ _ Hel _ _ _ Ev) as (R & m & HR & ER & Hm & FR & Hvote).
      assert (R = r) as -> by (by apply (ro_id HW)). by replace n with m by lia.
    + rewrite Hobs. by apply obs_nodup.
    + set_solver.
    + rewrite (eo_vv _ _ Hel). split; simpl; try done; by apply newStakeCounter_ok.
    + rewrite Et, go_bind_Ret. rewrite !(left_id_L ∅ (∪)) in Ht.
      assert (creators obs = creators (Obs (root_ID X))) as Eall by (by apply perm_creators).
      assert (forall b, creators (filter (fun r => ref n v (root_ID r) = b) obs) = voters_of (ref n v) b (root_ID X)) as Evot.
      { intros b. unfold voters_of. apply perm_creators. by rewrite Hobs. }
      rewrite !Evot, Eall in Ht.
      rewrite (HasQuorum_ok vv _ _ (ty_all _ _ _ _ _ Ht)).
      rewrite bool_decide_eq_true_2 by (apply (ro_quorum HW X HX); lia). cbn [negb].
      destruct (voteFromTally_spec n v X t _ Hn HX Fx Ht) as [Hvote Hdec].
      eexists. split; [done|]. split.
      * apply (el_ok_vote P el X (S n) v); [done|done|lia|done|done|].
        destruct (decided (voteFromTally t)); [right|by left]. split; [done|]. split; [done|].
        exists n. split_and!; [done|done|by apply Hdec].
      * apply Hext. intros v' Hne. destruct (decided (voteFromTally t)); [|done].
        by rewrite lookup_insert_ne.
Qed.

Lemma voteSubjects_spec observe frameRoots P X obsMap obs subjects : forall el,
  call_ok observe frameRoots P X -> el_ok P el -> F < frame X -> NoDup subjects ->
  (forall v, v ∈ subjects -> v ∈ Validators_SortedIDs vv /\ decidedRoots el !! v = None) ->
  (frame X = F + 1 -> obsMap = observedRootsMap observe frameRoots (root_ID X) (u32 (frame X - 1))) ->
  (frame X <> F + 1 -> obs = observedRoots observe frameRoots (root_ID X) (u32 (frame X - 1))) ->
  exists el', voteSubjects (frame X - F) (root_ID X) obsMap obs el subjects = Ret (inr el') /\
    el_ok P el' /\ (forall v, v ∈ subjects -> is_Some (votes el' !! (root_ID X, v))) /\
    (forall k, is_Some (votes el !! k) -> is_Some (votes el' !! k)) /\
    (forall v, v ∉ subjects -> decidedRoots el' !! v = decidedRoots el !! v).
Proof.
  induction subjects as [|v l IH]; intros el Hc Hel Hfx Hnd Hs Em Eo.
  - exists el. split; [done|]. split; [done|]. split; [|done]. intros v Hv%elem_of_nil. done.
  - apply NoDup_cons in Hnd as [Hnin Hnd]. destruct (Hs v (list_elem_of_here _ _)) as [Hv Hn].
    destruct (voteSubject_spec observe frameRoots P el X v obsMap obs Hc Hel Hfx Hv Hn Em Eo)
      as (el1 & E1 & Hel1 & [X1 X2 X3]).
    destruct (IH el1 Hc Hel1 Hfx Hnd) as (el2 & E2 & Hel2 & A2 & B2 & C2); [|done|done|].
    { intros v' Hv'. destruct (Hs v' (list_elem_of_further _ _ _ Hv')) as [? ?].
      split; [done|]. rewrite X3; [done|]. by intros ->. }
    exists el2. cbn [voteSubjects]. rewrite E1, go_bind_Ret. split; [done|]. split; [done|].
    split; [|split].
    + intros v' [->|Hv']%elem_of_cons; [by apply B2|by apply A2].
    + intros k Hk. by apply B2, X2.
    + intros v' Hv'. apply not_elem_of_cons in Hv' as [Hne Hv']. rewrite C2, X3 by done. done.
Qed.

(** The sanity check of the undecided subjects never fails. *)
Lemma notDecidedRoots_spec P el :
  el_ok P el -> notDecidedRoots el =
    Ret (filter (fun v => decidedRoots el !! v = None) (Validators_SortedIDs vv)).
Proof.
  intros Hel. unfold notDecidedRoots. rewrite (eo_vv _ _ Hel).
  change (Validators_IDs vv) with (Validators_SortedIDs vv).
  set (ids := Validators_SortedIDs vv). set (m := decidedRoots el).
  assert (filter (fun v => ~ m !! v = None) ids ≡ₚ elements (dom m)) as Hp.
  { apply NoDup_Permutation; [apply NoDup_filter, (vo_nodup _ Hvv)|apply NoDup_elements|].
    intros v. rewrite list_elem_of_filter, elem_of_elements, elem_of_dom, <-not_eq_None_Some. split; [tauto|].
    intros Hv. split; [done|]. destruct (m !! v) as [vote|] eqn:E; [|done].
    by apply (eo_decided _ _ Hel v vote). }
  assert (zlen (filter (fun v => m !! v = None) ids) + Z.of_nat (size m) = Validators_Len vv) as E.
  { rewrite <-size_dom. unfold size, set_size. simpl. rewrite <-Hp.
    pose proof (length_filter_split (fun v => m !! v = None) ids) as Hl.
    unfold Validators_Len, zlen. rewrite (vo_size _ Hvv). fold ids. lia. }
  by rewrite (proj2 (Z.eqb_eq _ _) E).
Qed.

(** A call returns, its result is what the new state chooses, and the state
    stays right: the errors for two fork roots and the exits of the sanity
    checks do not happen. *)
Lemma ProcessRoot_spec observe frameRoots P el X :
  call_ok observe frameRoots P X -> el_ok P el ->
  exists el', ProcessRoot observe frameRoots el X = Ret (chooseAtropos el', el') /\
    (chooseAtropos el = inr None -> el_ok (X :: P) el') /\ (chooseAtropos el <> inr None -> el' = el).
Proof.
  intros Hc Hel. unfold ProcessRoot. destruct (chooseAtropos el) as [err|[res|]] eqn:Ech.
  - exists el. rewrite Ech. split; [done|]. split; [done|done].
  - exists el. rewrite Ech. split; [done|]. split; [done|done].
  - fold (frame X). rewrite (eo_frame _ _ Hel). pose proof (ro_frame HW X (ca_root _ _ _ _ Hc)) as HfX.
    destruct (Z.leb_spec (frame X) F) as [Hle|Hgt].
    + exists el. rewrite Ech. split; [done|]. split; [|done]. intros _. destruct Hel as [H1 H2 H3 H4 H5].
      split; try done. intros Y v [->|HY]%elem_of_cons; [lia|by apply H5].
    + rewrite (u32_id (frame X - F)) by (unfold is_u32; lia).
      destruct (Z.eqb_spec (frame X - F) 0); [lia|]. rewrite (notDecidedRoots_spec P el Hel), go_bind_Ret.
      edestruct (voteSubjects_spec observe frameRoots P X
        (if frame X - F =? 1 then observedRootsMap observe frameRoots (root_ID X) (u32 (frame X - 1)) else ∅)
        (if frame X - F =? 1 then [] else observedRoots observe frameRoots (root_ID X) (u32 (frame X - 1)))
        (filter (fun v => decidedRoots el !! v = None) (Validators_SortedIDs vv)) el)
        as (el' & E' & Hel' & A & B & C); try done.
      * apply NoDup_filter, (vo_nodup _ Hvv).
      * intros v [? ?]%list_elem_of_filter. done.
      * intros E1. destruct (Z.eqb_spec (frame X - F) 1); [done|lia].
      * intros E1. destruct (Z.eqb_spec (frame X - F) 1); [lia|done].
      * rewrite E', go_bind_Ret. exists el'. split; [done|]. split; [|done]. intros _.
        destruct Hel' as [H1 H2 H3 H4 H5]. split; try done.
        intros Y v [->|HY]%elem_of_cons Fy Hv Hd; [|by apply H5].
        apply A, list_elem_of_filter. split; [|done].
        destruct (decidedRoots el !! v) as [vote|] eqn:Ev; [|done].
        rewrite C in Hd; [congruence|]. rewrite list_elem_of_filter. intros [? _]. congruence.
Qed.

(** ** The reachable states

    Calls follow each other until the frame is decided; nothing is said about
    the order, except that what a root observes comes before it. *)
Inductive reach : list RootAndSlot -> Election -> Prop :=
  | reach_new : reach [] (Election_New vv F)
  | reach_step P el observe frameRoots X res el' :
      reach P el -> chooseAtropos el = inr None -> call_ok observe frameRoots P X ->
      ProcessRoot observe frameRoots el X = Ret (res, el') -> reach (X :: P) el'.

Lemma reach_ok P el : reach P el -> el_ok P el.
Proof.
  induction 1 as [|P el observe frameRoots X res el' _ IH Hn Hc E]; [apply el_ok_new|].
  destruct (ProcessRoot_spec observe frameRoots P el X Hc IH) as (el2 & E2 & H2 & _).
  rewrite E in E2. injection E2 as _ ->. by apply H2.
Qed.

Lemma decided_agree P1 P2 el1 el2 v vote1 vote2 :
  el_ok P1 el1 -> el_ok P2 el2 ->
  decidedRoots el1 !! v = Some vote1 -> decidedRoots el2 !! v = Some vote2 ->
  yes vote1 = yes vote2 /\ (yes vote1 = true -> observedRoot vote1 = observedRoot vote2).
Proof.
  intros H1 H2 E1 E2.
  destruct (eo_decided _ _ H1 v vote1 E1) as (_ & X & n & HX & Hn & FX & DX & SX).
  destruct (eo_decided _ _ H2 v vote2 E2) as (_ & Y & m & HY & Hm & FY & DY & SY).
  assert (yes vote1 = yes vote2) as Ey by (by apply (decisions_agree n m v X Y)).
  split; [done|]. intros Hy. apply (subject_root_unique v); [by apply SX|apply SY; congruence].
Qed.

Lemma choose_agree P1 P2 el1 el2 l r1 :
  el_ok P1 el1 -> el_ok P2 el2 -> chooseAtropos_loop el1 l = inr (Some r1) ->
  chooseAtropos_loop el2 l = inr (Some r1) \/ chooseAtropos_loop el2 l = inr None.
Proof.
  intros H1 H2. induction l as [|v l IH]; simpl; [done|].
  destruct (decidedRoots el1 !! v) as [vote1|] eqn:E1; [|done].
  destruct (decidedRoots el2 !! v) as [vote2|] eqn:E2; [|by right].
  destruct (decided_agree P1 P2 el1 el2 v vote1 vote2 H1 H2 E1 E2) as [Ey Eo]. rewrite <-Ey.
  destruct (yes vote1); [|apply IH]. intros [= <-]. left.
  by rewrite (eo_frame _ _ H1), (eo_frame _ _ H2), (Eo eq_refl).
Qed.

End world.

(** C3: agreement.  Two nodes run the election of one frame over the same
    graph, each processing roots in an order and from a set of its own.  If
    one of them chooses an Atropos, then the other one chooses the same or has
    not decided yet: it chooses no other, and it does not fail with all roots
    decided as "no". *)
Theorem election_agreement vv is_root Obs F P1 P2 el1 el2 res :
  validators_ok vv -> roots_ok vv is_root Obs F -> 0 <= F ->
  reach vv is_root Obs F P1 el1 -> reach vv is_root Obs F P2 el2 ->
  chooseAtropos el1 = inr (Some res) ->
  chooseAtropos el2 = inr (Some res) \/ chooseAtropos el2 = inr None.
Proof.
  intros Hvv HW HF R1 R2. apply (reach_ok vv is_root Obs F Hvv HW HF) in R1, R2.
  unfold chooseAtropos. rewrite (eo_vv _ _ _ _ _ _ R1), (eo_vv _ _ _ _ _ _ R2).
  by apply (choose_agree vv is_root Obs F Hvv HW P1 P2).
Qed.

(** in an election that has not decided, the next root is processed to
    the end: no sanity check exits, the errors about two fork roots do not
    occur, and the result is what the new state chooses. *)
Theorem election_progress vv is_root Obs F P el observe frameRoots X :
  validators_ok vv -> roots_ok vv is_root Obs F -> 0 <= F ->
  reach vv is_root Obs F P el -> chooseAtropos el = inr None ->
  call_ok is_root Obs F observe frameRoots P X ->
  exists el', ProcessRoot observe frameRoots el X = Ret (chooseAtropos el', el') /\
    reach vv is_root Obs F (X :: P) el' /\ chooseAtropos el' <> inl ErrTwoForkRoots.
Proof.
  intros Hvv HW HF R Hn Hc. pose proof (reach_ok vv is_root Obs F Hvv HW HF _ _ R) as Hel.
  destruct (ProcessRoot_spec vv is_root Obs F Hvv HW HF observe frameRoots P el X Hc Hel) as (el' & E & _ & _).
  exists el'. split; [done|]. split; [by eapply reach_step|].
  unfold chooseAtropos. induction (Validators_SortedIDs (el_validators el')) as [|v l IH]; simpl; [done|].
  destruct (decidedRoots el' !! v) as [vote|]; [|done]. by destruct (yes vote).
Qed.

(** with two fork roots that both vote "no", the error that should
    report them is not returned: its message dereferences a pointer that is
    only set by a "yes", and the call panics. *)
Theorem two_no_votes_panic :
  let vv := example_validators in
  let fork1 := mkRoot (replicate 32 1) (mkSlot 2 10) in
  let fork2 := mkRoot (replicate 32 2) (mkSlot 2 10) in
  let newRoot := mkRoot (replicate 32 3) (mkSlot 3 20) in
  let frameRoots f := if f =? 2 then [fork1; fork2] else [] in
  let observe (_ _ : hash) := true in
  exists el1 el2,
    ProcessRoot observe frameRoots (Election_New vv 1) fork1 = Ret (inr None, el1) /\
    ProcessRoot observe frameRoots el1 fork2 = Ret (inr None, el2) /\
    ProcessRoot observe frameRoots el2 newRoot = Fault NilDereference.
Proof. eexists _, _. split; [by vm_compute|]. split; [by vm_compute|]. by vm_compute. Qed.

(** ** A concrete election: three validators, three frames *)

Definition ex_root (f v : Z) : RootAndSlot := mkRoot (replicate 32 (f * 100 + v)) (mkSlot f v).
Definition ex_frameRoots (f : Z) : list RootAndSlot :=
  if bool_decide (f ∈ [1; 2; 3]) then ex_root f <$> [10; 20; 30] else [].
Definition ex_roots : list RootAndSlot := ex_frameRoots 1 ++ ex_frameRoots 2 ++ ex_frameRoots 3.
Definition ex_Obs (h : hash) : list RootAndSlot :=
  match list_find (fun r => root_ID r = h) ex_roots with
  | Some (_, r) => ex_frameRoots (frame r - 1)
  | None => []
  end.
Definition ex_is_root (r : RootAndSlot) : Prop := r ∈ ex_roots.
Definition ex_observe (_ _ : hash) : bool := true.

Lemma ex_roots_forall (Q : RootAndSlot -> Prop) : Forall Q ex_roots -> forall x, ex_is_root x -> Q x.
Proof. intros H x Hx. by apply (proj1 (Forall_forall _ _) H). Qed.

Lemma ex_roots_ok : roots_ok example_validators ex_is_root ex_Obs 1.
Proof.
  split.
  - intros x y Hx. revert y. revert x Hx.
    assert (Forall (fun x => Forall (fun y => root_ID x = root_ID y -> x = y) ex_roots) ex_roots) as H
      by (apply (bool_decide_unpack _); by vm_compute).
    intros x Hx y Hy. by apply (ex_roots_forall _ (ex_roots_forall _ H x Hx)).
  - apply ex_roots_forall, (bool_decide_unpack _). by vm_compute.
  - intros x r Hx Hr. assert (Forall (fun x => Forall (fun r => r ∈ ex_roots /\ frame r + 1 = frame x /\
        val r ∈ Validators_SortedIDs example_validators) (ex_Obs (root_ID x))) ex_roots) as H
      by (apply (bool_decide_unpack _); by vm_compute).
    apply (proj1 (Forall_forall _ _) (ex_roots_forall _ H x Hx) r Hr).
  - apply ex_roots_forall, (bool_decide_unpack _). by vm_compute.
  - intros x y r s Hx Hy Hr Hs. assert (Forall (fun x => Forall (fun y => Forall (fun r => Forall (fun s =>
        root_Slot r = root_Slot s -> r = s) (ex_Obs (root_ID y))) (ex_Obs (root_ID x))) ex_roots) ex_roots) as H
      by (apply (bool_decide_unpack _); by vm_compute).
    pose proof (ex_roots_forall _ (ex_roots_forall _ H x Hx) y Hy) as H'.
    apply (proj1 (Forall_forall _ _) (proj1 (Forall_forall _ _) H' r Hr) s Hs).
  - assert (Forall (fun x => 1 + 1 < frame x ->
        Validators_Quorum example_validators <= stake_of example_validators (creators example_validators (ex_Obs (root_ID x)))) ex_roots) as H
      by (apply (bool_decide_unpack _); by vm_compute).
    apply (ex_roots_forall _ H).
Qed.

Definition ex_call_okb (P : list RootAndSlot) (X : RootAndSlot) : bool :=
  bool_decide (X ∈ ex_roots) &&
  bool_decide (observedRoots ex_observe ex_frameRoots (root_ID X) (u32 (frame X - 1)) = ex_Obs (root_ID X)) &&
  (bool_decide (frame X <= 2) || bool_decide (Forall (fun r => r ∈ P) (ex_Obs (root_ID X)))).

Lemma ex_call_ok P X :
  ex_call_okb P X = true -> call_ok ex_is_root ex_Obs 1 ex_observe ex_frameRoots P X.
Proof.
  unfold ex_call_okb. rewrite !andb_true_iff, orb_true_iff, !bool_decide_eq_true.
  intros [[H1 H2] H3]. split; [done| |].
  - by rewrite H2.
  - intros Hf r Hr. destruct H3 as [|H3]; [lia|]. rewrite Forall_forall in H3. by apply H3.
Qed.

(** Processing a list of roots in turn, as long as nothing is decided. *)
Fixpoint ex_run (P : list RootAndSlot) (el : Election) (l : list RootAndSlot)
    : option (list RootAndSlot * Election) :=
  match l with
  | [] => Some (P, el)
  | X :: l =>
      match chooseAtropos el, ex_call_okb P X, ProcessRoot ex_observe ex_frameRoots el X with
      | inr None, true, Ret (_, el') => ex_run (X :: P) el' l
      | _, _, _ => None
      end
  end.

Lemma ex_run_reach l : forall P el P' el',
  reach example_validators ex_is_root ex_Obs 1 P el -> ex_run P el l = Some (P', el') ->
  reach example_validators ex_is_root ex_Obs 1 P' el'.
Proof.
  induction l as [|X l IH]; intros P el P' el' R; cbn [ex_run]; [by intros [= <- <-]|].
  destruct (chooseAtropos el) as [|[|]] eqn:Ec; [done..|].
  destruct (ex_call_okb P X) eqn:Eo; [|done].
  destruct (ProcessRoot ex_observe ex_frameRoots el X) as [[res el2]|] eqn:Ep; [|done].
  apply IH. eapply reach_step; [done|done|by apply ex_call_ok|done].
Qed.

Definition ex_final (l : list RootAndSlot) : list RootAndSlot * Election :=
  default ([], Election_New example_validators 1) (ex_run [] (Election_New example_validators 1) l).

Definition ex_runs (l : list RootAndSlot) : bool :=
  match ex_run [] (Election_New example_validators 1) l with Some _ => true | None => false end.

Lemma ex_final_reach l : ex_runs l = true ->
  reach example_validators ex_is_root ex_Obs 1 (ex_final l).1 (ex_final l).2.
Proof.
  unfold ex_runs, ex_final. destruct (ex_run _ _ l) as [[P el]|] eqn:E; [intros _|done]. simpl. by apply (ex_run_reach l [] _ P el (reach_new _ _ _ _)).
Qed.

Lemma election_agreement_witness :
  let el1 := (ex_final [ex_root 2 10; ex_root 2 20; ex_root 2 30; ex_root 3 10]).2 in
  let el2 := (ex_final [ex_root 2 30; ex_root 2 20; ex_root 2 10; ex_root 3 30]).2 in
  let res := mkRes 1 (root_ID (ex_root 1 20)) in
  chooseAtropos el1 = inr (Some res) /\
  (chooseAtropos el2 = inr (Some res) \/ chooseAtropos el2 = inr None).
Proof.
  intros el1 el2 res.
  assert (chooseAtropos el1 = inr (Some res)) as Hres by (vm_cast_no_check (eq_refl (chooseAtropos el1))).
  split; [exact Hres|].
  assert (ex_runs [ex_root 2 10; ex_root 2 20; ex_root 2 30; ex_root 3 10] = true) as R1
    by (vm_cast_no_check (eq_refl true)).
  assert (ex_runs [ex_root 2 30; ex_root 2 20; ex_root 2 10; ex_root 3 30] = true) as R2
    by (vm_cast_no_check (eq_refl true)).
  exact (election_agreement example_validators ex_is_root ex_Obs 1 _ _ el1 el2 res
           example_validators_ok ex_roots_ok ltac:(lia) (ex_final_reach _ R1) (ex_final_reach _ R2) Hres).
Defined.

Lemma election_progress_witness :
  exists el', ProcessRoot ex_observe ex_frameRoots
      (ex_final [ex_root 2 10; ex_root 2 20; ex_root 2 30]).2 (ex_root 3 10)
      = Ret (chooseAtropos el', el') /\
    reach example_validators ex_is_root ex_Obs 1
      (ex_root 3 10 :: (ex_final [ex_root 2 10; ex_root 2 20; ex_root 2 30]).1) el' /\
    chooseAtropos el' <> inl ErrTwoForkRoots.
Proof.
  apply (election_progress example_validators ex_is_root ex_Obs 1 _ _ ex_observe ex_frameRoots (ex_root 3 10)
           example_validators_ok ex_roots_ok).
  - lia.
  - apply ex_final_reach. vm_cast_no_check (eq_refl true).
  - vm_cast_no_check (eq_refl (inr (@None Res) : el_error + option Res)).
  - apply ex_call_ok. vm_cast_no_check (eq_refl true).
Defined.
