(* ===== verification/ElectionYes.v ===== *)
(** * An election always finds a yes

    [chooseAtropos] returns an error when all roots of the frame are decided
    as no.  By counting, this cannot happen: every root of the next frame
    observes the roots of a quorum, so the no votes of the first round are too
    few to leave a no majority for every subject, and a subject with a yes
    majority at all roots of the second round is never decided as no. *)

From S2P Require Import Prelude Bytes Pos Event Election ElectionSafety.

(** ** Double sums *)

Lemma zsum_fmap_add {A} (f g : A -> Z) l : zsum ((fun x => f x + g x) <$> l) = zsum (f <$> l) + zsum (g <$> l).
Proof. induction l as [|x l IH]; csimpl; lia. Qed.

Lemma zsum_swap {A B} (f : A -> B -> Z) (l1 : list A) (l2 : list B) :
  zsum ((fun i => zsum (f i <$> l2)) <$> l1) = zsum ((fun c => zsum ((fun i => f i c) <$> l1)) <$> l2).
Proof.
  induction l1 as [|i l1 IH]; csimpl.
  - induction l2 as [|c l2 IH]; csimpl; lia.
  - rewrite IH, <-zsum_fmap_add. done.
Qed.

Lemma zsum_le {A} (f g : A -> Z) l : (forall x, x ∈ l -> f x <= g x) -> zsum (f <$> l) <= zsum (g <$> l).
Proof.
  induction l as [|x l IH]; intros H; csimpl; [lia|].
  pose proof (H x ltac:(set_solver)). specialize (IH ltac:(set_solver)). lia.
Qed.

Lemma zsum_scale {A} (k : Z) (f : A -> Z) l : zsum ((fun x => k * f x) <$> l) = k * zsum (f <$> l).
Proof. induction l as [|x l IH]; csimpl; lia. Qed.

Section indicator.
Context (vv : Validators) (Hvv : validators_ok vv).
Abbreviation nv := (zlen (Validators_SortedIDs vv)).
Abbreviation w := (stake_at vv).

Lemma stake_of_indicator (X : gset Z) :
  X ⊆ all_idx vv -> stake_of vv X = zsum ((fun c => if decide (c ∈ X) then w c else 0) <$> seqZ 0 nv).
Proof.
  intros HX. unfold stake_of.
  assert (X = list_to_set (filter (fun c => c ∈ X) (seqZ 0 nv)) :> gset Z) as E.
  { apply set_eq. intros c. rewrite elem_of_list_to_set, list_elem_of_filter, elem_of_seqZ. split; [|tauto].
    intros Hc. split; [done|]. apply HX, elem_of_all_idx in Hc. lia. }
  rewrite E at 1. rewrite wsum_list by (apply NoDup_filter, NoDup_seqZ). clear E HX.
  induction (seqZ 0 nv) as [|c l IH]; csimpl; [done|]. rewrite filter_cons. case_decide; csimpl; lia.
Qed.

Lemma total_indicator : Validators_TotalStake vv = zsum (w <$> seqZ 0 nv).
Proof. rewrite <-(stake_of_all vv Hvv). unfold stake_of, all_idx. by rewrite wsum_list by apply NoDup_seqZ. Qed.

Lemma quorum_three : 2 * Validators_TotalStake vv < 3 * Validators_Quorum vv.
Proof. rewrite (Quorum_eq vv Hvv). word. Qed.

Lemma total_positive : 0 < nv -> 0 < Validators_TotalStake vv.
Proof.
  intros Hnv. assert (0 ∈ all_idx vv) as Hin by (apply elem_of_all_idx; lia).
  pose proof (stake_at_get vv Hvv 0 Hin) as Hg. pose proof (vo_pos _ Hvv) as Hp. rewrite Forall_forall in Hp.
  apply slice_get_elem, Hp in Hg.
  assert (stake_of vv {[0]} <= Validators_TotalStake vv) as Hle
    by (apply stake_of_le_total; [done|]; by intros x ->%elem_of_singleton).
  unfold stake_of, wsum in Hle. rewrite elements_singleton in Hle. csimpl in Hle. lia.
Qed.

Lemma all_quorum : 0 < nv -> is_quorum vv (all_idx vv).
Proof.
  intros Hnv. pose proof (total_positive Hnv). replace (all_idx vv) with (all_idx vv ∖ ∅) by set_solver.
  apply (honest_quorum vv Hvv); [set_solver|]. unfold stake_of. rewrite wsum_empty. lia.
Qed.

(** Sets of a weight of half a quorum for every index, while each index is in
    few of them: too much. *)
Lemma matrix_bound (M : Z -> gset Z) :
  0 < nv -> (forall i, i ∈ all_idx vv -> M i ⊆ all_idx vv /\ Validators_Quorum vv <= 2 * stake_of vv (M i)) ->
  (forall c, c ∈ all_idx vv -> exists X : gset Z, X ⊆ all_idx vv /\ is_quorum vv X /\
     forall i, i ∈ all_idx vv -> c ∈ M i -> i ∉ X) -> False.
Proof.
  intros Hnv HM Hc. set (W := Validators_TotalStake vv) in *. set (Q := Validators_Quorum vv) in *.
  assert (forall i, i ∈ seqZ 0 nv -> i ∈ all_idx vv) as Hin by (intros i Hi; apply elem_of_all_idx; apply elem_of_seqZ in Hi; lia).
  set (f := fun i c => w i * (if decide (c ∈ M i) then w c else 0)).
  assert (W * Q <= 2 * zsum ((fun i => zsum (f i <$> seqZ 0 nv)) <$> seqZ 0 nv)) as Hlow.
  { rewrite <-zsum_scale. unfold W. rewrite total_indicator, Z.mul_comm, <-zsum_scale. apply zsum_le.
    intros i Hi. unfold f. rewrite zsum_scale. destruct (HM i (Hin i Hi)) as [Hs Hq].
    rewrite <-(stake_of_indicator (M i)) by done. pose proof (stake_at_nonneg vv Hvv i). nia. }
  assert (zsum ((fun i => zsum (f i <$> seqZ 0 nv)) <$> seqZ 0 nv) <= (W - Q) * W) as Hup.
  { rewrite zsum_swap. unfold W at 2. rewrite total_indicator, <-zsum_scale. apply zsum_le. intros c Hcc.
    destruct (Hc c (Hin c Hcc)) as (X & HX & HQ & Hout). pose proof (stake_at_nonneg vv Hvv c) as Hw.
    assert (zsum ((fun i => f i c) <$> seqZ 0 nv) <= w c * zsum ((fun i => if decide (i ∈ all_idx vv ∖ X) then w i else 0) <$> seqZ 0 nv)) as H1.
    { rewrite <-zsum_scale. apply zsum_le. intros i Hi. unfold f. pose proof (stake_at_nonneg vv Hvv i).
      destruct (decide (c ∈ M i)) as [HcM|]; [|destruct (decide _); nia].
      rewrite decide_True; [lia|]. apply elem_of_difference. split; [by apply Hin|by apply Hout; [apply Hin|]]. }
    rewrite <-stake_of_indicator in H1 by set_solver.
    pose proof (wsum_split w (all_idx vv) X) as Hsp. fold (stake_of vv (all_idx vv)) in Hsp.
    rewrite (stake_of_all vv Hvv) in Hsp. replace (all_idx vv ∩ X) with X in Hsp by set_solver.
    unfold is_quorum, stake_of in *. fold W Q in Hsp, HQ. nia. }
  pose proof quorum_three as H3. fold W Q in H3.
  pose proof (total_positive Hnv). fold W in H. nia.
Qed.
End indicator.

(** ** The subject that keeps its yes *)

Section yes.
Context (vv : Validators) (Hvv : validators_ok vv).
Context (rs : list RootAndSlot) (Obs : hash -> list RootAndSlot) (F : Z).
Abbreviation is_root := (fun r => r ∈ rs).
Context (HW : roots_ok vv is_root Obs F).
(** The roots of the first round observe a quorum, too. *)
Context (Hfirst : forall x, x ∈ rs -> frame x = F + 1 -> is_quorum vv (creators vv (Obs (root_ID x)))).
Abbreviation ref := (ref vv Obs).
Abbreviation voters_of := (voters_of vv Obs).

(** The roots of the first round that count. *)
Definition counted_roots : list RootAndSlot :=
  filter (fun r => Exists (fun x => frame x = F + 2 /\ r ∈ Obs (root_ID x)) rs) rs.

Definition no_votes (v : Z) : gset Z :=
  creators vv (filter (fun r => ref 1 v (root_ID r) = false) counted_roots).

Lemma elem_of_counted r : r ∈ counted_roots <-> r ∈ rs /\ exists x, x ∈ rs /\ frame x = F + 2 /\ r ∈ Obs (root_ID x).
Proof. unfold counted_roots. rewrite list_elem_of_filter, Exists_exists. naive_solver. Qed.

Lemma counted_same r s : r ∈ counted_roots -> s ∈ counted_roots -> vidx vv r = vidx vv s -> r = s.
Proof.
  intros (_ & x & Hx & Fx & Hr)%elem_of_counted (_ & y & Hy & Fy & Hs)%elem_of_counted.
  apply (same_voter vv is_root Obs F Hvv HW x y); try done. lia.
Qed.

Lemma counted_frame r : r ∈ counted_roots -> frame r = F + 1.
Proof.
  intros (_ & x & Hx & Fx & Hr)%elem_of_counted. destruct (ro_obs vv is_root Obs F HW x r Hx Hr) as (_ & ? & _). lia.
Qed.

Lemma votes_within v : no_votes v ⊆ all_idx vv.
Proof.
  intros c (r & Hr & <-)%elem_of_creators. apply list_elem_of_filter in Hr as [_ Hr].
  apply elem_of_counted in Hr as (_ & x & Hx & _ & Hr).
  destruct (ro_obs vv is_root Obs F HW x r Hx Hr) as (_ & _ & Hv). by apply (GetIdx_elem vv Hvv).
Qed.

Lemma idx_id i : i ∈ all_idx vv -> exists v, v ∈ Validators_SortedIDs vv /\ Validators_GetIdx vv v = i /\
  slice_get (Validators_SortedIDs vv) i = Some v.
Proof.
  intros [v Hv]%elem_of_all_idx%slice_get_is_Some. exists v.
  assert (v ∈ Validators_SortedIDs vv) as Hin by (by eapply slice_get_elem). split_and!; [done| |done].
  pose proof Hv as Hi. apply (vo_idx _ Hvv) in Hi. unfold Validators_Idxs in Hi. unfold Validators_GetIdx. by rewrite Hi.
Qed.

Lemma few_no_votes : 0 < zlen (Validators_SortedIDs vv) ->
  exists v, v ∈ Validators_SortedIDs vv /\ 2 * stake_of vv (no_votes v) < Validators_Quorum vv.
Proof.
  intros Hnv.
  destruct (decide (Exists (fun v => 2 * stake_of vv (no_votes v) < Validators_Quorum vv) (Validators_SortedIDs vv)))
    as [(v & ? & ?)%Exists_exists|Hno]; [by exists v|]. exfalso.
  assert (forall v, v ∈ Validators_SortedIDs vv -> Validators_Quorum vv <= 2 * stake_of vv (no_votes v)) as Hall.
  { intros v Hv. apply Z.nlt_ge. intros Hlt. apply Hno, Exists_exists. by exists v. }
  apply (matrix_bound vv Hvv (fun i => no_votes (default 0 (slice_get (Validators_SortedIDs vv) i))) Hnv).
  - intros i (v & Hv & _ & Ei)%idx_id. rewrite Ei. split; [apply votes_within|by apply Hall].
  - intros c Hc.
    destruct (decide (Exists (fun r => vidx vv r = c) counted_roots)) as [(r & Hr & Er)%Exists_exists|Hn].
    + pose proof Hr as (Hrs & _)%elem_of_counted. exists (creators vv (Obs (root_ID r))). split; [|split].
      * by apply (obs_within vv is_root Obs F Hvv HW).
      * apply Hfirst; [done|by apply counted_frame].
      * intros i (v & Hv & Ev & Ei)%idx_id Hin (s & Hs & Es)%elem_of_creators. rewrite Ei in Hin. simpl in Hin.
        apply elem_of_creators in Hin as (r' & Hr' & Er'). apply list_elem_of_filter in Hr' as [Hno' Hr'].
        assert (r' = r) as -> by (apply counted_same; congruence).
        simpl in Hno'. apply bool_decide_eq_false in Hno'. apply Hno'. apply list_elem_of_fmap. exists s. split; [|done].
        destruct (ro_obs vv is_root Obs F HW r s Hrs Hs) as (_ & _ & Hvs).
        apply (GetIdx_inj vv Hvv); [done|done|]. unfold vidx in Es. congruence.
    + exists (all_idx vv). split; [done|]. split.
      * by apply all_quorum.
      * intros i _ (r' & Hr' & Er')%elem_of_creators. exfalso. apply Hn. apply Exists_exists.
        apply list_elem_of_filter in Hr' as [_ Hr']. by exists r'.
Qed.

Context (v : Z) (Hv : v ∈ Validators_SortedIDs vv) (Hfew : 2 * stake_of vv (no_votes v) < Validators_Quorum vv).

Lemma no_stake x : x ∈ rs -> frame x = F + 2 ->
  2 * stake_of vv (voters_of (ref 1 v) false (root_ID x)) < Validators_Quorum vv.
Proof.
  intros Hx Fx. assert (voters_of (ref 1 v) false (root_ID x) ⊆ no_votes v) as Hsub.
  { intros c (r & Hr & <- & Hno)%elem_of_voters. apply elem_of_creators. exists r. split; [|done].
    apply list_elem_of_filter. split; [done|]. apply elem_of_counted.
    destruct (ro_obs vv is_root Obs F HW x r Hx Hr) as (? & _). eauto. }
  pose proof (stake_of_mono vv Hvv _ _ Hsub). lia.
Qed.

Lemma yes_stays (n : nat) : forall x, x ∈ rs -> frame x = F + 2 + Z.of_nat n -> ref (S (S n)) v (root_ID x) = true.
Proof.
  induction n as [|n IH]; intros x Hx Fx.
  - rewrite ref_S by lia. apply Z.leb_le.
    pose proof (no_stake x Hx ltac:(lia)) as Hno.
    pose proof (ro_quorum vv is_root Obs F HW x Hx ltac:(lia)) as HQ.
    rewrite <-(voters_union vv Obs (ref 1 v) x false) in HQ. unfold is_quorum, stake_of in HQ.
    rewrite wsum_union in HQ by (by apply (voters_disjoint vv is_root Obs F Hvv HW)).
    fold (stake_of vv) in HQ. unfold stake_of in *. simpl negb in HQ. lia.
  - rewrite ref_S by lia. apply Z.leb_le.
    assert (voters_of (ref (S (S n)) v) false (root_ID x) = ∅) as ->; [|unfold stake_of at 1; rewrite wsum_empty; by apply stake_of_nonneg].
    apply set_eq. intros c. split; [|set_solver]. intros (r & Hr & _ & Hno)%elem_of_voters.
    destruct (ro_obs vv is_root Obs F HW x r Hx Hr) as (Hrs & Fr & _). rewrite IH in Hno; [done|done|lia].
Qed.

Lemma never_decides_no n x : x ∈ rs -> (0 < n)%nat -> frame x = F + Z.of_nat (S n) ->
  ~ decides vv Obs n v (root_ID x) false.
Proof.
  intros Hx Hn Fx. unfold decides, is_quorum. destruct n as [|[|n]]; [lia| |].
  - pose proof (no_stake x Hx ltac:(lia)) as Hno. pose proof (stake_of_nonneg vv Hvv (voters_of (ref 1 v) false (root_ID x))). lia.
  - assert (voters_of (ref (S (S n)) v) false (root_ID x) = ∅) as ->.
    { apply set_eq. intros c. split; [|set_solver]. intros (r & Hr & _ & Hno)%elem_of_voters.
      destruct (ro_obs vv is_root Obs F HW x r Hx Hr) as (Hrs & Fr & _).
      rewrite (yes_stays n) in Hno; [done|done|lia]. }
    unfold stake_of. rewrite wsum_empty. pose proof (stake_of_nonneg vv Hvv (no_votes v)). lia.
Qed.
End yes.

Lemma choose_all_no el l : chooseAtropos_loop el l = inl ErrAllNo ->
  forall v, v ∈ l -> exists vote, decidedRoots el !! v = Some vote /\ yes vote = false.
Proof.
  induction l as [|w l IH]; simpl; [by intros _ v ?%elem_of_nil|].
  destruct (decidedRoots el !! w) as [vote|] eqn:E; [|done]. destruct (yes vote) eqn:Ey; [done|].
  intros Hl v [->|Hv]%elem_of_cons; [by exists vote|by apply IH].
Qed.

Lemma never_all_no vv (rs : list RootAndSlot) Obs F P el :
  validators_ok vv -> 0 < zlen (Validators_SortedIDs vv) -> roots_ok vv (fun r => r ∈ rs) Obs F ->
  (forall x, x ∈ rs -> frame x = F + 1 -> is_quorum vv (creators vv (Obs (root_ID x)))) ->
  el_ok vv (fun r => r ∈ rs) Obs F P el -> chooseAtropos el <> inl ErrAllNo.
Proof.
  intros Hvv Hnv HW Hfirst Hel Hch. destruct (few_no_votes vv Hvv rs Obs F HW Hfirst Hnv) as (v & Hv & Hfew).
  unfold chooseAtropos in Hch. rewrite (eo_vv _ _ _ _ _ _ Hel) in Hch.
  destruct (choose_all_no el _ Hch v Hv) as (vote & Ev & Ey).
  destruct (eo_decided _ _ _ _ _ _ Hel v vote Ev) as (_ & X & n & HX & Hn & HF & Hdec & _). rewrite Ey in Hdec.
  by apply (never_decides_no vv Hvv rs Obs F HW Hfirst v Hv Hfew n X).
Qed.

(** What a state of the election can choose. *)
Lemma choose_cases vv (rs : list RootAndSlot) Obs F P el :
  validators_ok vv -> 0 < zlen (Validators_SortedIDs vv) -> roots_ok vv (fun r => r ∈ rs) Obs F ->
  (forall x, x ∈ rs -> frame x = F + 1 -> is_quorum vv (creators vv (Obs (root_ID x)))) ->
  el_ok vv (fun r => r ∈ rs) Obs F P el ->
  chooseAtropos el = inr None \/
  exists res, chooseAtropos el = inr (Some res) /\ res_Frame res = F /\
    exists v, subject_root (fun r => r ∈ rs) Obs F v (res_Atropos res).
Proof.
  intros Hvv Hnv HW Hfirst Hel. pose proof (never_all_no vv rs Obs F P el Hvv Hnv HW Hfirst Hel) as Hno.
  unfold chooseAtropos in *. induction (Validators_SortedIDs (el_validators el)) as [|v l IH]; [done|].
  simpl in *. destruct (decidedRoots el !! v) as [vote|] eqn:Ev; [|by left].
  destruct (yes vote) eqn:Ey; [|by apply IH]. right. eexists. split; [done|].
  split; [apply (eo_frame _ _ _ _ _ _ Hel)|]. exists v.
  destruct (eo_decided _ _ _ _ _ _ Hel v vote Ev) as (_ & X & n & _ & _ & _ & _ & Hs). by apply Hs.
Qed.

(** C7: the election never fails.  In every state that an election over the
    graph can reach, [chooseAtropos] does not return the error that all roots
    are decided as no, nor the one about two fork roots: it has chosen an
    Atropos or is not decided yet.  The comment at the error says that more
    than a third of the stake would have to be Byzantine; [roots_ok] is what
    the graph guarantees when it is not. *)
Theorem election_never_fails vv (rs : list RootAndSlot) Obs F P el :
  validators_ok vv -> 0 < zlen (Validators_SortedIDs vv) -> 0 <= F -> roots_ok vv (fun r => r ∈ rs) Obs F ->
  (forall x, x ∈ rs -> frame x = F + 1 -> is_quorum vv (creators vv (Obs (root_ID x)))) ->
  reach vv (fun r => r ∈ rs) Obs F P el ->
  chooseAtropos el = inr None \/ exists res, chooseAtropos el = inr (Some res) /\ res_Frame res = F.
Proof.
  intros Hvv Hnv HF HW Hfirst Hr. pose proof (reach_ok vv _ Obs F Hvv HW HF P el Hr) as Hel.
  destruct (choose_cases vv rs Obs F P el Hvv Hnv HW Hfirst Hel) as [|(res & ? & ? & _)]; [by left|by right; exists res].
Qed.

Lemma ex_first_quorum x : x ∈ ex_roots -> frame x = 1 + 1 ->
  is_quorum example_validators (creators example_validators (ex_Obs (root_ID x))).
Proof.
  assert (Forall (fun x => frame x = 1 + 1 -> Validators_Quorum example_validators <=
            stake_of example_validators (creators example_validators (ex_Obs (root_ID x)))) ex_roots) as H
    by (apply (bool_decide_unpack _); by vm_compute).
  apply (ex_roots_forall _ H).
Qed.

Theorem election_never_fails_witness :
  let el := (ex_final [ex_root 2 10; ex_root 2 20; ex_root 2 30; ex_root 3 10]).2 in
  chooseAtropos el = inr None \/ exists res, chooseAtropos el = inr (Some res) /\ res_Frame res = 1.
Proof.
  intros el. apply (election_never_fails example_validators ex_roots ex_Obs 1
    (ex_final [ex_root 2 10; ex_root 2 20; ex_root 2 30; ex_root 3 10]).1 el).
  - exact example_validators_ok.
  - by vm_compute.
  - lia.
  - exact ex_roots_ok.
  - exact ex_first_quorum.
  - apply ex_final_reach. vm_cast_no_check (eq_refl true).
Defined.
