(* ===== verification/PosetStore.v ===== *)
(** * The store of the consensus

    poset/store*.go, poset/frame_info.go, poset/apply_genesis.go: the tables of
    roots, confirmed events, frames, epochs and the checkpoint, the cache of
    the roots of a frame, and the genesis.  Clients use the interface
    [PosetStore] with its laws over the plain data [PosetData]; the tables over
    any lawful database and any cache discharge them. *)

From S2P Require Import Prelude Bytes Kvdb KvdbLaws Pos Event VecStore Election.

(** ** Data *)

Record FrameInfo := mkFrameInfo {
  TimeOffset : Z;          (* int64, may be negative *)
  TimeRatio : Z;
  LastConsensusTime : Z
}.

Record Checkpoint := mkCheckpoint {
  LastDecidedFrame : Z;
  LastBlockN : Z;
  LastAtropos : hash;
  AppHash : hash
}.

Record GenesisState := mkGenesisState {
  gs_Epoch : Z;
  gs_Time : Z;
  gs_LastAtropos : hash;
  gs_AppHash : hash
}.

Record EpochState := mkEpochState {
  EpochN : Z;
  PrevEpoch : GenesisState;
  ep_Validators : Validators
}.

Definition firstFrame : Z := 1.
Definition firstEpoch : Z := 1.

(** *** frame_info.go *)

(** What is given to RLP: [frameInfoMarshaling]. *)
Definition FrameInfo_EncodeRLP (f : FrameInfo) : Z * Z * Z :=
  (u64 (i64 (TimeOffset f + MaxInt64 / 2)), TimeRatio f, LastConsensusTime f).
Definition FrameInfo_DecodeRLP (m : Z * Z * Z) : FrameInfo :=
  let '(off, ratio, time) := m in mkFrameInfo (i64 (i64 off - MaxInt64 / 2)) ratio time.

(** [int64(lamport)*int64(f.TimeRatio) + f.TimeOffset] as a timestamp *)
Definition CalcConsensusTime (f : FrameInfo) (lamport : Z) : Z :=
  u64 (i64 (i64 (i64 lamport * i64 (TimeRatio f)) + TimeOffset f)).

(** ** The interface *)

(** The roots are triples of frame, creator and event. *)
Definition root_key (r : RootAndSlot) : Z * Z * hash :=
  (slot_Frame (root_Slot r), slot_Validator (root_Slot r), root_ID r).

Record PosetData := mkPosetData {
  pd_roots : gset (Z * Z * hash);
  pd_confirmed : gmap hash Z;
  pd_frames : gmap (Z * Z) FrameInfo;
  pd_checkpoint : option Checkpoint;
  pd_epoch : option EpochState;
  pd_genesis : option EpochState
}.

Definition emptyPosetData : PosetData := mkPosetData ∅ ∅ ∅ None None None.

Definition data_roots (d : PosetData) (r : gset (Z * Z * hash)) : PosetData :=
  mkPosetData r (pd_confirmed d) (pd_frames d) (pd_checkpoint d) (pd_epoch d) (pd_genesis d).
Definition data_confirmed (d : PosetData) (m : gmap hash Z) : PosetData :=
  mkPosetData (pd_roots d) m (pd_frames d) (pd_checkpoint d) (pd_epoch d) (pd_genesis d).
Definition data_frames (d : PosetData) (m : gmap (Z * Z) FrameInfo) : PosetData :=
  mkPosetData (pd_roots d) (pd_confirmed d) m (pd_checkpoint d) (pd_epoch d) (pd_genesis d).
Definition data_checkpoint (d : PosetData) (c : Checkpoint) : PosetData :=
  mkPosetData (pd_roots d) (pd_confirmed d) (pd_frames d) (Some c) (pd_epoch d) (pd_genesis d).
Definition data_epoch (d : PosetData) (e : EpochState) : PosetData :=
  mkPosetData (pd_roots d) (pd_confirmed d) (pd_frames d) (pd_checkpoint d) (Some e) (pd_genesis d).
Definition data_genesis (d : PosetData) (e : EpochState) : PosetData :=
  mkPosetData (pd_roots d) (pd_confirmed d) (pd_frames d) (pd_checkpoint d) (pd_epoch d) (Some e).

(** The roots of a frame, in some order. *)
Definition frame_roots (d : PosetData) (f : Z) (l : list RootAndSlot) : Prop :=
  NoDup l /\ forall r, r ∈ l <-> slot_Frame (root_Slot r) = f /\ root_key r ∈ pd_roots d.

Class PosetStore (T E : Type) := {
  ps_AddRoot : T -> RootAndSlot -> go T;
  ps_GetFrameRoots : T -> Z -> go (list RootAndSlot * T);
  ps_SetEventConfirmedOn : T -> hash -> Z -> go T;
  ps_GetEventConfirmedOn : T -> hash -> go Z;
  ps_SetFrameInfo : T -> Z -> Z -> FrameInfo -> go T;
  ps_GetFrameInfo : T -> Z -> Z -> go (option FrameInfo);
  ps_SetCheckpoint : T -> Checkpoint -> go T;
  ps_GetCheckpoint : T -> go (option Checkpoint);
  ps_SetEpoch : T -> EpochState -> go T;
  ps_GetEpoch : T -> go (option EpochState);
  (** [RecreateEpochDb] with the database of the new epoch *)
  ps_RecreateEpochDb : T -> E -> T;
  ps_rep : T -> PosetData -> Prop;
  ps_epoch_roots : E -> gset (Z * Z * hash) -> Prop
}.

(** A root that the tables can hold. *)
Record root_ok (r : RootAndSlot) : Prop := {
  ro_frame : is_u32 (slot_Frame (root_Slot r));
  ro_validator : is_u32 (slot_Validator (root_Slot r));
  ro_id : length (root_ID r) = 32%nat
}.

Record info_ok (i : FrameInfo) : Prop := {
  io_offset : is_i64 (TimeOffset i);
  io_ratio : is_u64 (TimeRatio i);
  io_time : is_u64 (LastConsensusTime i)
}.

Record checkpoint_ok (c : Checkpoint) : Prop := {
  ck_frame : is_u32 (LastDecidedFrame c);
  ck_block : is_u64 (LastBlockN c);
  ck_atropos : length (LastAtropos c) = 32%nat;
  ck_app : length (AppHash c) = 32%nat
}.

(** The validators are a group made by [newValidators], as RLP rebuilds it. *)
Definition epoch_ok (e : EpochState) : Prop :=
  is_u32 (EpochN e) /\ exists vals, ep_Validators e = newValidators vals.

Class PosetStoreLaws (T E : Type) `{PosetStore T E} : Prop := {
  plaw_AddRoot t d r : ps_rep t d -> root_ok r -> root_key r ∉ pd_roots d ->
    exists t', ps_AddRoot t r = Ret t' /\ ps_rep t' (data_roots d ({[root_key r]} ∪ pd_roots d));
  plaw_GetFrameRoots t d f : ps_rep t d -> is_u32 f ->
    exists l t', ps_GetFrameRoots t f = Ret (l, t') /\ ps_rep t' d /\ frame_roots d f l;
  plaw_SetEventConfirmedOn t d (h : hash) f : ps_rep t d -> is_u32 f ->
    exists t', ps_SetEventConfirmedOn t h f = Ret t' /\
      ps_rep t' (data_confirmed d (<[h := f]> (pd_confirmed d)));
  plaw_GetEventConfirmedOn t d (h : hash) : ps_rep t d ->
    ps_GetEventConfirmedOn t h = Ret (default 0 (pd_confirmed d !! h));
  plaw_SetFrameInfo t d e f i : ps_rep t d -> is_u32 e -> is_u32 f -> info_ok i ->
    exists t', ps_SetFrameInfo t e f i = Ret t' /\
      ps_rep t' (data_frames d (<[(e, f) := i]> (pd_frames d)));
  plaw_GetFrameInfo t d e f : ps_rep t d -> is_u32 e -> is_u32 f ->
    ps_GetFrameInfo t e f = Ret (pd_frames d !! (e, f));
  plaw_SetCheckpoint t d c : ps_rep t d -> checkpoint_ok c ->
    exists t', ps_SetCheckpoint t c = Ret t' /\ ps_rep t' (data_checkpoint d c);
  plaw_GetCheckpoint t d : ps_rep t d -> ps_GetCheckpoint t = Ret (pd_checkpoint d);
  plaw_SetEpoch t d e : ps_rep t d -> epoch_ok e ->
    exists t', ps_SetEpoch t e = Ret t' /\ ps_rep t' (data_epoch d e);
  plaw_GetEpoch t d : ps_rep t d -> ps_GetEpoch t = Ret (pd_epoch d);
  plaw_RecreateEpochDb t d e roots : ps_rep t d -> ps_epoch_roots e roots ->
    ps_rep (ps_RecreateEpochDb t e) (data_roots d roots)
}.

(** ** The tables *)

Record PTables (S C : Type) := mkPTables {
  mainDb : S;
  epochDb : S;
  c_FrameRoots : option C;       (* nil when the cache is switched off *)
  c_GenesisHash : option hash
}.
Arguments mkPTables {S C} _ _ _ _.
Arguments mainDb {S C} _.
Arguments epochDb {S C} _.
Arguments c_FrameRoots {S C} _.
Arguments c_GenesisHash {S C} _.

Definition tbl_Checkpoint : bytes := [99].       (* c *)
Definition tbl_Epochs : bytes := [101].          (* e *)
Definition tbl_ConfirmedEvent : bytes := [67].   (* C *)
Definition tbl_FrameInfos : bytes := [102].      (* f *)
Definition tbl_Roots : bytes := [114].           (* r *)
Definition key_current : bytes := [99].          (* c *)
Definition key_genesis : bytes := [103].         (* g *)

Definition frameSize : nat := 4.
Definition stakerIDSize : nat := 4.
Definition eventIDSize : nat := 32.

Definition rootRecordBytes (r : RootAndSlot) : bytes :=
  Frame_Bytes (slot_Frame (root_Slot r)) ++ StakerID_Bytes (slot_Validator (root_Slot r)) ++ root_ID r.

(** The body of the loop of [GetFrameRoots]. *)
Definition parse_root (f : Z) (key : bytes) : go RootAndSlot :=
  if negb (zlen key =? Z.of_nat (frameSize + stakerIDSize + eventIDSize))
  then Fault (Crit "Roots table: incorrect key len")
  else
    frame ← BytesToFrame (sub_bytes key 0 frameSize);
    validator ← BytesToStakerID (sub_bytes key frameSize (frameSize + stakerIDSize));
    let r := mkRoot (BytesToEventHash (drop (frameSize + stakerIDSize) key)) (mkSlot frame validator) in
    if negb (frame =? f) then Fault (Crit "Roots table: invalid frame") else Ret r.

Record RlpCodec (A : Type) := mkRlp { rlp_enc : A -> bytes; rlp_dec : bytes -> option A }.
Arguments mkRlp {A} _ _.
Arguments rlp_enc {A} _ _.
Arguments rlp_dec {A} _ _.

Section ptables.
Context {S C : Type} `{HS : StoreLaws S} `{HC : LruLaws Z (list RootAndSlot) C}.
(** go-ethereum's RLP of the stored values. *)
Context (rlp_frame : RlpCodec (Z * Z * Z)) (rlp_checkpoint : RlpCodec Checkpoint)
  (rlp_epoch : RlpCodec EpochState).
Implicit Types t : PTables S C.

Definition set_main t (db : S) : PTables S C := mkPTables db (epochDb t) (c_FrameRoots t) (c_GenesisHash t).
Definition set_roots t (db : S) (c : option C) : PTables S C := mkPTables (mainDb t) db c (c_GenesisHash t).

Definition put_main t (tbl key val : bytes) : go (PTables S C) :=
  '(tb, err) ← Table_Put (mkTable (mainDb t) tbl) key (Some val);
  match err with
  | Some _ => Fault (Crit "Failed to put key-value")
  | None => Ret (set_main t (tbl_db tb))
  end.

Definition get_main t (tbl key : bytes) : go slice :=
  r ← Table_Get (mkTable (mainDb t) tbl) key;
  match r with inl _ => Fault (Crit "Failed to get key-value") | inr b => Ret b end.

(** [set] and [get]: a value through RLP. *)
Definition set_rlp {A} (c : RlpCodec A) t (tbl key : bytes) (val : A) : go (PTables S C) :=
  put_main t tbl key (rlp_enc c val).
Definition get_rlp {A} (c : RlpCodec A) t (tbl key : bytes) : go (option A) :=
  buf ← get_main t tbl key;
  match buf with
  | None => Ret None
  | Some buf => match rlp_dec c buf with
                | None => Fault (Crit "Failed to decode rlp")
                | Some v => Ret (Some v)
                end
  end.

Definition AddRoot t (r : RootAndSlot) : go (PTables S C) :=
  '(tb, err) ← Table_Put (mkTable (epochDb t) tbl_Roots) (rootRecordBytes r) (Some []);
  match err with
  | Some _ => Fault (Crit "Failed to put key-value")
  | None =>
      let f := slot_Frame (root_Slot r) in
      let cache :=
        match c_FrameRoots t with
        | None => None
        | Some c => match lru_peek c f with
                    | Some rr => Some (lru_Add (lru_touch c f) f (rr ++ [r]))
                    | None => Some c
                    end
        end in
      Ret (set_roots t (tbl_db tb) cache)
  end.

Definition GetFrameRoots t (f : Z) : go (list RootAndSlot * PTables S C) :=
  match c_FrameRoots t ≫= (fun c => lru_peek c f) with
  | Some rr => Ret (rr, set_roots t (epochDb t) ((fun c => lru_touch c f) <$> c_FrameRoots t))
  | None =>
      rr ← go_fold (fun rr kv => r ← parse_root f kv.1; Ret (rr ++ [r])) []
             (Table_NewIteratorWithPrefix (mkTable (epochDb t) tbl_Roots) (Frame_Bytes f));
      Ret (rr, set_roots t (epochDb t) ((fun c => lru_Add c f rr) <$> c_FrameRoots t))
  end.

Definition SetEventConfirmedOn t (e : hash) (on : Z) : go (PTables S C) :=
  put_main t tbl_ConfirmedEvent e (Frame_Bytes on).
Definition GetEventConfirmedOn t (e : hash) : go Z :=
  buf ← get_main t tbl_ConfirmedEvent e;
  match buf with None => Ret 0 | Some b => BytesToFrame b end.

Definition SetFrameInfo t (e f : Z) (info : FrameInfo) : go (PTables S C) :=
  set_rlp rlp_frame t tbl_FrameInfos (Epoch_Bytes e ++ Frame_Bytes f) (FrameInfo_EncodeRLP info).
Definition GetFrameInfo t (e f : Z) : go (option FrameInfo) :=
  w ← get_rlp rlp_frame t tbl_FrameInfos (Epoch_Bytes e ++ Frame_Bytes f);
  match w with None => Ret None | Some m => Ret (Some (FrameInfo_DecodeRLP m)) end.

Definition SetCheckpoint t (cp : Checkpoint) : go (PTables S C) :=
  set_rlp rlp_checkpoint t tbl_Checkpoint key_current cp.
Definition GetCheckpoint t : go (option Checkpoint) :=
  get_rlp rlp_checkpoint t tbl_Checkpoint key_current.

Definition setEpoch t (key : bytes) (e : EpochState) : go (PTables S C) := set_rlp rlp_epoch t tbl_Epochs key e.
Definition getEpoch t (key : bytes) : go (option EpochState) := get_rlp rlp_epoch t tbl_Epochs key.
Definition SetEpoch t (e : EpochState) := setEpoch t key_current e.
Definition GetEpoch t := getEpoch t key_current.
Definition SetGenesis t (e : EpochState) : go (PTables S C) :=
  setEpoch (mkPTables (mainDb t) (epochDb t) (c_FrameRoots t) None) key_genesis e.
Definition GetGenesis t := getEpoch t key_genesis.

(** The new database replaces the previous one, which is closed and queued to
    be dropped; the whole cache is purged. *)
Definition RecreateEpochDb t (db : S) : PTables S C :=
  set_roots t db (lru_Purge <$> c_FrameRoots t).

(** *** apply_genesis.go *)

(** [hash.FromBytes] of the Keccak-256 sum of the RLP of the state. *)
Context (keccak_rlp_genesis : GenesisState -> bytes).
Definition GenesisState_Hash (g : GenesisState) : hash := FromBytes (keccak_rlp_genesis g).

Definition GetGenesisHash t : go (hash * PTables S C) :=
  match c_GenesisHash t with
  | Some h => Ret (h, t)
  | None =>
      e ← GetGenesis t;
      match e with
      | None => Fault (Crit "No genesis found")
      | Some e => let h := GenesisState_Hash (PrevEpoch e) in
                  Ret (h, mkPTables (mainDb t) (epochDb t) (c_FrameRoots t) (Some h))
      end
  end.

Record Genesis := mkGenesis { g_Validators : list GenesisValidator; g_Time : Z }.
(** go-ethereum's [params.Ether] *)
Context (Ether : Z).

Inductive genesis_error :=
  | ErrNilGenesis
  | ErrNoGenesisValidators
  | GenesisMismatchError (Stored New : hash).

(** The state the genesis writes. *)
Definition genesis_epoch (g : Genesis) (genesisAtropos appHash : hash) : EpochState :=
  mkEpochState firstEpoch (mkGenesisState (firstEpoch - 1) (g_Time g) genesisAtropos appHash)
    (Validators_Copy (GValidators_Validators Ether (g_Validators g))).

Definition write_genesis t (g : Genesis) (genesisAtropos appHash : hash) : go (PTables S C) :=
  let e := genesis_epoch g genesisAtropos appHash in
  t ← SetGenesis t e;
  t ← SetEpoch t e;
  SetCheckpoint t (mkCheckpoint 0 0 genesisAtropos appHash).

(** [calcGenesisHash] applies the genesis to a new in-memory store [mem]. *)
Definition calcGenesisHash (mem : PTables S C) (g : Genesis) (genesisAtropos appHash : hash) : go hash :=
  mem ← write_genesis mem g genesisAtropos appHash;
  e ← GetGenesis mem;
  match e with None => Fault NilDereference | Some e => Ret (GenesisState_Hash (PrevEpoch e)) end.

Definition ApplyGenesis t (mem : PTables S C) (g : option Genesis) (genesisAtropos appHash : hash)
    : go (option genesis_error * PTables S C) :=
  match g with
  | None => Ret (Some ErrNilGenesis, t)
  | Some g =>
      if bool_decide (g_Validators g = []) then Ret (Some ErrNoGenesisValidators, t)
      else
        stored ← GetGenesis t;
        match stored with
        | Some stored =>
            let storedHash := GenesisState_Hash (PrevEpoch stored) in
            newHash ← calcGenesisHash mem g genesisAtropos appHash;
            if negb (bool_decide (storedHash = newHash))
            then Ret (Some (GenesisMismatchError newHash storedHash), t)
            else Ret (None, t)
        | None => t ← write_genesis t g genesisAtropos appHash; Ret (None, t)
        end
  end.

(** *** The contents *)

Definition pcell (m : gmap bytes slice) (tbl key : bytes) : slice := mjoin (m !! (tbl ++ key)).

Record main_holds (m : gmap bytes slice) (d : PosetData) : Prop := {
  mh_confirmed (h : hash) : pcell m tbl_ConfirmedEvent h = Frame_Bytes <$> pd_confirmed d !! h;
  mh_confirmed_u32 (h : hash) f : pd_confirmed d !! h = Some f -> is_u32 f;
  mh_frames e f : is_u32 e -> is_u32 f ->
    pcell m tbl_FrameInfos (Epoch_Bytes e ++ Frame_Bytes f) =
      (fun i => rlp_enc rlp_frame (FrameInfo_EncodeRLP i)) <$> pd_frames d !! (e, f);
  mh_info e f i : pd_frames d !! (e, f) = Some i -> info_ok i;
  mh_checkpoint : pcell m tbl_Checkpoint key_current = rlp_enc rlp_checkpoint <$> pd_checkpoint d;
  mh_epoch : pcell m tbl_Epochs key_current = rlp_enc rlp_epoch <$> pd_epoch d;
  mh_genesis : pcell m tbl_Epochs key_genesis = rlp_enc rlp_epoch <$> pd_genesis d;
  mh_checkpoint_ok c : pd_checkpoint d = Some c -> checkpoint_ok c;
  mh_epoch_ok e : pd_epoch d = Some e \/ pd_genesis d = Some e -> epoch_ok e
}.

(** The keys of the roots table are the records of the roots. *)
Record roots_hold (m : gmap bytes slice) (R : gset (Z * Z * hash)) : Prop := {
  rh_key k x : m !! (tbl_Roots ++ k) = Some x ->
    exists r, root_ok r /\ k = rootRecordBytes r /\ root_key r ∈ R;
  rh_root r : root_key r ∈ R -> root_ok r /\ is_Some (m !! (tbl_Roots ++ rootRecordBytes r))
}.

Record ptables_rep t (d : PosetData) : Prop := {
  pr_main : exists m, store_view (mainDb t) = Some m /\ main_holds m d;
  pr_epoch : exists m, store_view (epochDb t) = Some m /\ roots_hold m (pd_roots d);
  pr_cache c f l : c_FrameRoots t = Some c -> lru_peek c f = Some l -> frame_roots d f l
}.

#[local] Instance PTables_PosetStore : PosetStore (PTables S C) S := {|
  ps_AddRoot := AddRoot;
  ps_GetFrameRoots := GetFrameRoots;
  ps_SetEventConfirmedOn := SetEventConfirmedOn;
  ps_GetEventConfirmedOn := GetEventConfirmedOn;
  ps_SetFrameInfo := SetFrameInfo;
  ps_GetFrameInfo := GetFrameInfo;
  ps_SetCheckpoint := SetCheckpoint;
  ps_GetCheckpoint := GetCheckpoint;
  ps_SetEpoch := SetEpoch;
  ps_GetEpoch := GetEpoch;
  ps_RecreateEpochDb := RecreateEpochDb;
  ps_rep := ptables_rep;
  ps_epoch_roots db R := exists m, store_view db = Some m /\ roots_hold m R
|}.

(** *** The laws *)

Definition frame_triple (m : Z * Z * Z) : Prop := is_u64 m.1.1 /\ is_u64 m.1.2 /\ is_u64 m.2.

Context (rlp_frame_roundtrip : forall m, frame_triple m -> rlp_dec rlp_frame (rlp_enc rlp_frame m) = Some m).
Context (rlp_checkpoint_roundtrip : forall c, checkpoint_ok c ->
  rlp_dec rlp_checkpoint (rlp_enc rlp_checkpoint c) = Some c).
Context (rlp_epoch_roundtrip : forall e, epoch_ok e -> rlp_dec rlp_epoch (rlp_enc rlp_epoch e) = Some e).

Lemma FrameInfo_triple i : info_ok i -> frame_triple (FrameInfo_EncodeRLP i).
Proof. intros [Ho Hr Hl]. unfold frame_triple. simpl. split_and!; [apply u64_range|done|done]. Qed.

Lemma FrameInfo_decode_encode i : info_ok i -> FrameInfo_DecodeRLP (FrameInfo_EncodeRLP i) = i.
Proof.
  intros [Ho Hr Hl]. destruct i as [off ratio last]. unfold FrameInfo_DecodeRLP, FrameInfo_EncodeRLP. simpl in *.
  f_equal. change (MaxInt64 / 2) with 4611686018427387903. clear -Ho. word.
Qed.

Lemma get_main_spec t m tbl key :
  store_view (mainDb t) = Some m -> get_main t tbl key = Ret (pcell m tbl key).
Proof.
  intros Hm. unfold get_main, Table_Get, prefixed. simpl.
  by rewrite (law_Get _ _ (tbl ++ key) Hm), go_bind_Ret.
Qed.

Lemma put_main_spec t m tbl key val :
  store_view (mainDb t) = Some m ->
  exists db, put_main t tbl key val = Ret (set_main t db) /\
    store_view db = Some (<[tbl ++ key := Some val]> m).
Proof.
  intros Hm. destruct (law_Put _ _ (tbl ++ key) val Hm) as (db & E & Hdb). exists db. split; [|done].
  unfold put_main, Table_Put, Table_lift, prefixed. cbn [tbl_db tbl_prefix]. by rewrite E.
Qed.

Lemma rep_set_main t d d' db m' :
  ptables_rep t d -> store_view db = Some m' -> main_holds m' d' -> pd_roots d' = pd_roots d ->
  ptables_rep (set_main t db) d'.
Proof.
  intros [Hm He Hc] Hdb Hh Hr. split; simpl; [eauto|by rewrite Hr|].
  intros c f l Hcache Hl. destruct (Hc c f l Hcache Hl) as [Hnd Hin]. split; [done|]. by rewrite Hr.
Qed.

(** A write to one of the tables of the main database. *)
Ltac solve_main :=
  intros [Hcf Hcu Hfr Hin Hck Hep Hge Hco Heo]; split; unfold pcell in *; simpl in *; intros;
  rewrite ?lookup_insert in *; repeat case_decide; simplify_eq/=; eauto; try naive_solver.

Lemma main_confirmed m d (h : hash) f : is_u32 f ->
  main_holds m d -> main_holds (<[tbl_ConfirmedEvent ++ h := Some (Frame_Bytes f)]> m)
                      (data_confirmed d (<[h := f]> (pd_confirmed d))).
Proof. intros Hf. solve_main. Qed.

Lemma Frame_Bytes_inj a b : is_u32 a -> is_u32 b -> Frame_Bytes a = Frame_Bytes b -> a = b.
Proof. intros Ha Hb. by apply (be_encode_inj 4). Qed.

Lemma frame_key_inj e f e' f' : is_u32 e -> is_u32 f -> is_u32 e' -> is_u32 f' ->
  Epoch_Bytes e ++ Frame_Bytes f = Epoch_Bytes e' ++ Frame_Bytes f' -> (e, f) = (e', f').
Proof.
  intros He Hf He' Hf' E. apply app_inj_1 in E as [E1 E2]; [|unfold Epoch_Bytes, bigendian_Int32ToBytes; by rewrite !length_be_encode].
  f_equal; by apply Frame_Bytes_inj.
Qed.

Lemma main_frames m d e f i : is_u32 e -> is_u32 f -> info_ok i ->
  main_holds m d ->
  main_holds (<[tbl_FrameInfos ++ (Epoch_Bytes e ++ Frame_Bytes f) :=
                Some (rlp_enc rlp_frame (FrameInfo_EncodeRLP i))]> m)
    (data_frames d (<[(e, f) := i]> (pd_frames d))).
Proof.
  intros He Hf Hi [Hcf Hcu Hfr Hin Hck Hep Hge Hco Heo].
  split; unfold pcell in *; cbn [pd_confirmed pd_frames pd_checkpoint pd_epoch pd_genesis data_frames]; try done.
  - intros h. rewrite lookup_insert_ne by done. apply Hcf.
  - intros e' f' He' Hf'. rewrite !lookup_insert. destruct (decide ((e, f) = (e', f'))) as [Eq|Hne].
    + injection Eq as <- <-. by rewrite decide_True by done.
    + rewrite decide_False; [by apply Hfr|]. intros E%app_inv_head. apply Hne. by apply frame_key_inj.
  - intros e' f' i'. rewrite lookup_insert. case_decide; [by intros [= <-]|apply Hin].
  - by rewrite lookup_insert_ne.
  - by rewrite lookup_insert_ne.
  - by rewrite lookup_insert_ne.
Qed.

Lemma main_checkpoint m d c : checkpoint_ok c ->
  main_holds m d -> main_holds (<[tbl_Checkpoint ++ key_current := Some (rlp_enc rlp_checkpoint c)]> m)
                      (data_checkpoint d c).
Proof. intros Hc. solve_main. Qed.

Lemma main_epoch m d e : epoch_ok e ->
  main_holds m d -> main_holds (<[tbl_Epochs ++ key_current := Some (rlp_enc rlp_epoch e)]> m) (data_epoch d e).
Proof. intros He. solve_main. Qed.

Lemma main_genesis m d e : epoch_ok e ->
  main_holds m d -> main_holds (<[tbl_Epochs ++ key_genesis := Some (rlp_enc rlp_epoch e)]> m) (data_genesis d e).
Proof. intros He. solve_main. Qed.

(** *** The roots *)

Lemma length_rootRecord r : root_ok r -> length (rootRecordBytes r) = 40%nat.
Proof.
  intros [_ _ Hid]. unfold rootRecordBytes, Frame_Bytes, StakerID_Bytes, bigendian_Int32ToBytes.
  by rewrite !length_app, !length_be_encode, Hid.
Qed.

Lemma FromBytes_32 (h : hash) : length h = 32%nat -> FromBytes h = h.
Proof. intros Hh. unfold FromBytes. rewrite Hh. simpl. by rewrite Hh. Qed.

Lemma parse_root_spec r :
  root_ok r -> parse_root (slot_Frame (root_Slot r)) (rootRecordBytes r) = Ret r.
Proof.
  intros Hr. unfold parse_root. unfold zlen. rewrite length_rootRecord by done. simpl negb. cbv iota.
  destruct Hr as [Hf Hv Hid]. destruct r as [id [f v]]. simpl in *.
  pose proof (bigendian32_roundtrip f [] Hf) as E1. pose proof (bigendian32_roundtrip v [] Hv) as E2.
  simpl in E1, E2. injection E1 as ->. injection E2 as ->. rewrite Z.eqb_refl. simpl.
  unfold BytesToEventHash. by rewrite FromBytes_32.
Qed.

Lemma rootRecordBytes_inj r r' :
  root_ok r -> root_ok r' -> rootRecordBytes r = rootRecordBytes r' -> r = r'.
Proof.
  intros [Hf Hv _] [Hf' Hv' _] E. destruct r as [id [f v]], r' as [id' [f' v']]. simpl in *.
  unfold rootRecordBytes in E. cbn [root_Slot root_ID slot_Frame slot_Validator] in E.
  apply app_inj_1 in E as [E1 E]; [|unfold Frame_Bytes, bigendian_Int32ToBytes; by rewrite !length_be_encode].
  apply app_inj_1 in E as [E2 ->]; [|unfold StakerID_Bytes, bigendian_Int32ToBytes; by rewrite !length_be_encode].
  by rewrite (Frame_Bytes_inj f f' Hf Hf' E1), (Frame_Bytes_inj v v' Hv Hv' E2).
Qed.

Lemma root_record_prefix r f :
  root_ok r -> is_u32 f ->
  HasPrefix (rootRecordBytes r) (Frame_Bytes f) = true <-> slot_Frame (root_Slot r) = f.
Proof.
  intros [Hf _ _] Hf'. rewrite HasPrefix_spec. unfold rootRecordBytes. split.
  - intros [t E]. apply app_inj_1 in E as [E _];
      [|unfold Frame_Bytes, bigendian_Int32ToBytes; by rewrite !length_be_encode].
    by apply Frame_Bytes_inj.
  - intros <-. by eexists.
Qed.

Lemma parse_loop f (l : list (bytes * slice)) acc :
  (forall kv, kv ∈ l -> exists r, root_ok r /\ slot_Frame (root_Slot r) = f /\ kv.1 = rootRecordBytes r) ->
  exists rr, go_fold (fun rr kv => r ← parse_root f kv.1; Ret (rr ++ [r])) acc l = Ret (acc ++ rr) /\
    Forall root_ok rr /\ rootRecordBytes <$> rr = l.*1.
Proof.
  revert acc. induction l as [|kv l IH]; intros acc Hl.
  { exists []. rewrite app_nil_r. done. }
  destruct (Hl kv ltac:(by left)) as (r & Hr & Hf & Hk). subst f.
  destruct (IH (acc ++ [r])) as (rr & E & Hok & Hrec); [intros kv' Hkv'; apply Hl; by right|].
  exists (r :: rr). cbn [go_fold]. rewrite Hk, (parse_root_spec r Hr), !go_bind_Ret, E, <-app_assoc.
  split; [done|]. split; [by constructor|]. csimpl. by rewrite Hk, Hrec.
Qed.

Lemma read_roots m R f db :
  store_view db = Some m -> roots_hold m R -> is_u32 f ->
  exists rr, go_fold (fun rr kv => r ← parse_root f kv.1; Ret (rr ++ [r])) []
               (Table_NewIteratorWithPrefix (mkTable db tbl_Roots) (Frame_Bytes f)) = Ret rr /\
    NoDup rr /\ forall r, r ∈ rr <-> slot_Frame (root_Slot r) = f /\ root_key r ∈ R.
Proof.
  intros Hdb [Hkey Hroot] Hf. rewrite (Table_iterate_spec (mkTable db tbl_Roots) m _ Hdb). simpl tbl_prefix.
  set (l := entries_with_prefix (Frame_Bytes f) (strip_prefix tbl_Roots m)).
  assert (forall k x, (k, x) ∈ l <-> HasPrefix k (Frame_Bytes f) = true /\ m !! (tbl_Roots ++ k) = Some x) as Hl.
  { intros k x. unfold l. by rewrite elem_of_entries_with_prefix, lookup_strip_prefix. }
  destruct (parse_loop f l []) as (rr & E & Hok & Hrec).
  { intros [k x] Hin. apply Hl in Hin as [Hp Hm]. destruct (Hkey k x Hm) as (r & Hr & -> & _).
    exists r. by rewrite <-root_record_prefix. }
  rewrite Forall_forall in Hok. exists rr. split; [done|]. split.
  - apply (NoDup_fmap_1 rootRecordBytes). rewrite Hrec. apply entries_with_prefix_nodup.
  - intros r. split.
    + intros Hr. assert (rootRecordBytes r ∈ l.*1) as Hin by (rewrite <-Hrec; by apply list_elem_of_fmap_2).
      apply list_elem_of_fmap in Hin as ([k x] & Ek & Hin). simpl in Ek. subst k. apply Hl in Hin as [Hp Hm].
      split; [apply root_record_prefix; eauto|].
      destruct (Hkey _ _ Hm) as (r' & Hr' & Er & HR). apply rootRecordBytes_inj in Er; [by subst|eauto|done].
    + intros [Hfr HR]. destruct (Hroot r HR) as (Hr & x & Hx).
      assert (rootRecordBytes r ∈ rootRecordBytes <$> rr) as (r' & Er & Hin)%list_elem_of_fmap.
      { rewrite Hrec. apply list_elem_of_fmap. exists (rootRecordBytes r, x). split; [done|].
        apply Hl. split; [by apply root_record_prefix|done]. }
      apply rootRecordBytes_inj in Er; [by subst|done|by apply Hok].
Qed.

Lemma GetFrameRoots_law t d f :
  ptables_rep t d -> is_u32 f ->
  exists l t', GetFrameRoots t f = Ret (l, t') /\ ptables_rep t' d /\ frame_roots d f l.
Proof.
  intros Hrep Hf. pose proof Hrep as [Hm (me & Hv & Hr) Hc]. unfold GetFrameRoots.
  destruct (c_FrameRoots t ≫= (fun c => lru_peek c f)) as [rr|] eqn:Ec.
  - apply bind_Some in Ec as (c & Ec & Hp). eexists _, _. split; [done|]. split; [|by eapply Hc].
    split; simpl; [done|by eauto|]. rewrite Ec. intros c' f' l' [= <-]. rewrite law_touch. by apply Hc.
  - destruct (read_roots me (pd_roots d) f (epochDb t) Hv Hr Hf) as (rr & E & Hfr).
    rewrite E, go_bind_Ret. eexists _, _. split; [done|]. split; [|done].
    split; simpl; [done|by eauto|]. destruct (c_FrameRoots t) as [c|] eqn:Ec'; [|done].
    intros c' f' l' [= <-] Hp. destruct (decide (f = f')) as [->|Hne].
    + apply law_add_same in Hp as ->. done.
    + apply law_add_other in Hp; [|done]. by eapply Hc.
Qed.

Lemma roots_hold_add m R r :
  roots_hold m R -> root_ok r ->
  roots_hold (<[tbl_Roots ++ rootRecordBytes r := Some []]> m) ({[root_key r]} ∪ R).
Proof.
  intros [Hkey Hroot] Hr. split.
  - intros k x. rewrite lookup_insert. case_decide as E.
    + apply app_inv_head in E as <-. intros _. exists r. set_solver.
    + intros Hx. destruct (Hkey k x Hx) as (r' & ? & ? & ?). exists r'. set_solver.
  - intros r' [E%elem_of_singleton|HR]%elem_of_union.
    + assert (r' = r) as ->.
      { destruct r as [id [f v]], r' as [id' [f' v']]. unfold root_key in E. simpl in E. congruence. }
      split; [done|]. rewrite lookup_insert_eq. eauto.
    + destruct (Hroot r' HR) as [? Hs]. split; [done|]. rewrite lookup_insert. case_decide; eauto.
Qed.

Lemma frame_roots_add d r f l :
  frame_roots d f l -> root_key r ∉ pd_roots d ->
  frame_roots (data_roots d ({[root_key r]} ∪ pd_roots d)) f
    (if decide (slot_Frame (root_Slot r) = f) then l ++ [r] else l).
Proof.
  intros [Hnd Hin] Hnew.
  assert (forall r', root_key r' = root_key r <-> r' = r) as Hinj.
  { intros [id' [f' v']]. destruct r as [id [f2 v]]. unfold root_key. simpl. split; congruence. }
  case_decide as E; split.
  - apply NoDup_app. split; [done|]. split; [|by apply NoDup_singleton].
    intros r' Hr' ->%list_elem_of_singleton. apply Hnew. by apply Hin.
  - intros r'. rewrite elem_of_app, list_elem_of_singleton, Hin. simpl.
    rewrite elem_of_union, elem_of_singleton, Hinj. naive_solver.
  - done.
  - intros r'. rewrite Hin. simpl. rewrite elem_of_union, elem_of_singleton, Hinj. naive_solver.
Qed.

Lemma AddRoot_law t d r :
  ptables_rep t d -> root_ok r -> root_key r ∉ pd_roots d ->
  exists t', AddRoot t r = Ret t' /\ ptables_rep t' (data_roots d ({[root_key r]} ∪ pd_roots d)).
Proof.
  intros [Hm (me & Hv & Hr) Hc] Hok Hnew. unfold AddRoot, Table_Put, Table_lift, prefixed.
  cbn [tbl_db tbl_prefix].
  destruct (law_Put (epochDb t) me (tbl_Roots ++ rootRecordBytes r) [] Hv) as (db & -> & Hdb).
  eexists. split; [reflexivity|]. split; simpl.
  - destruct Hm as (m & Hm & Hh). exists m. split; [done|]. destruct Hh; split; done.
  - eexists. split; [done|]. by apply roots_hold_add.
  - intros c f l. destruct (c_FrameRoots t) as [c0|] eqn:Ec; [|done].
    set (g := slot_Frame (root_Slot r)).
    destruct (lru_peek c0 g) as [rr|] eqn:Ep; intros [= <-] Hp.
    + destruct (decide (g = f)) as [<-|Hne].
      * apply law_add_same in Hp as ->. pose proof (frame_roots_add d r g rr (Hc c0 g rr eq_refl Ep) Hnew) as H'.
        fold g in H'. by rewrite decide_True in H'.
      * apply law_add_other in Hp; [|done]. rewrite law_touch in Hp.
        pose proof (frame_roots_add d r f l (Hc c0 f l eq_refl Hp) Hnew) as H'.
        fold g in H'. by rewrite decide_False in H'.
    + assert (g <> f) by congruence.
      pose proof (frame_roots_add d r f l (Hc c0 f l eq_refl Hp) Hnew) as H'.
      fold g in H'. by rewrite decide_False in H'.
Qed.

Lemma get_rlp_spec {A} (c : RlpCodec A) (ok : A -> Prop) t m tbl key x :
  (forall y, ok y -> rlp_dec c (rlp_enc c y) = Some y) ->
  store_view (mainDb t) = Some m -> pcell m tbl key = rlp_enc c <$> x ->
  (forall y, x = Some y -> ok y) -> get_rlp c t tbl key = Ret x.
Proof.
  intros Hrt Hm Hc Hok. unfold get_rlp. rewrite (get_main_spec t m tbl key Hm), go_bind_Ret, Hc.
  destruct x as [y|]; simpl; [|done]. by rewrite Hrt by auto.
Qed.

#[local] Instance PTables_laws : PosetStoreLaws (PTables S C) S.
Proof.
  split; simpl.
  - apply AddRoot_law.
  - apply GetFrameRoots_law.
  - intros t d h f Hrep Hf. pose proof Hrep as [(m & Hm & Hh) _ _].
    destruct (put_main_spec t m tbl_ConfirmedEvent h (Frame_Bytes f) Hm) as (db & E & Hdb).
    unfold SetEventConfirmedOn. rewrite E. eexists. split; [done|].
    eapply rep_set_main; [done..|by apply main_confirmed|done].
  - intros t d h [(m & Hm & Hh) _ _]. unfold GetEventConfirmedOn.
    rewrite (get_main_spec t m _ _ Hm), go_bind_Ret, (mh_confirmed _ _ Hh).
    destruct (pd_confirmed d !! h) as [f|] eqn:E; simpl; [|done].
    pose proof (bigendian32_roundtrip f [] (mh_confirmed_u32 _ _ Hh _ _ E)) as E1. by rewrite app_nil_r in E1.
  - intros t d e f i Hrep He Hf Hi. pose proof Hrep as [(m & Hm & Hh) _ _].
    destruct (put_main_spec t m tbl_FrameInfos (Epoch_Bytes e ++ Frame_Bytes f)
                (rlp_enc rlp_frame (FrameInfo_EncodeRLP i)) Hm) as (db & E & Hdb).
    unfold SetFrameInfo, set_rlp. rewrite E. eexists. split; [done|].
    eapply rep_set_main; [done..|by apply main_frames|done].
  - intros t d e f [(m & Hm & Hh) _ _] He Hf. unfold GetFrameInfo.
    rewrite (get_rlp_spec rlp_frame frame_triple t m _ _ (FrameInfo_EncodeRLP <$> pd_frames d !! (e, f))
               rlp_frame_roundtrip Hm).
    + rewrite go_bind_Ret. destruct (pd_frames d !! (e, f)) as [i|] eqn:E; cbn [fmap option_fmap option_map]; [|done].
      by rewrite FrameInfo_decode_encode by (by eapply mh_info).
    + rewrite (mh_frames _ _ Hh e f He Hf). by rewrite <-option_fmap_compose.
    + intros y (i & Ei & ->)%fmap_Some. apply FrameInfo_triple. by eapply mh_info.
  - intros t d c Hrep Hc. pose proof Hrep as [(m & Hm & Hh) _ _].
    destruct (put_main_spec t m tbl_Checkpoint key_current (rlp_enc rlp_checkpoint c) Hm) as (db & E & Hdb).
    unfold SetCheckpoint, set_rlp. rewrite E. eexists. split; [done|].
    eapply rep_set_main; [done..|by apply main_checkpoint|done].
  - intros t d [(m & Hm & Hh) _ _]. eapply get_rlp_spec; [apply rlp_checkpoint_roundtrip|done|apply Hh|apply Hh].
  - intros t d e Hrep He. pose proof Hrep as [(m & Hm & Hh) _ _].
    destruct (put_main_spec t m tbl_Epochs key_current (rlp_enc rlp_epoch e) Hm) as (db & E & Hdb).
    unfold SetEpoch, setEpoch, set_rlp. rewrite E. eexists. split; [done|].
    eapply rep_set_main; [done..|by apply main_epoch|done].
  - intros t d [(m & Hm & Hh) _ _]. eapply get_rlp_spec; [apply rlp_epoch_roundtrip|done|apply Hh|].
    intros e He. eapply mh_epoch_ok; eauto.
  - intros t d db R [Hm _ _] (m & Hdb & HR). split; simpl.
    + destruct Hm as (mm & Hm & Hh). exists mm. split; [done|]. destruct Hh; split; done.
    + eauto.
    + intros c f l (c0 & Ec & ->)%fmap_Some. by rewrite law_purge.
Qed.

(** *** The genesis *)

Lemma SetGenesis_law t d e :
  ptables_rep t d -> epoch_ok e ->
  exists t', SetGenesis t e = Ret t' /\ ptables_rep t' (data_genesis d e).
Proof.
  intros Hrep He. pose proof Hrep as [(m & Hm & Hh) Hep Hc].
  set (t0 := mkPTables (mainDb t) (epochDb t) (c_FrameRoots t) None).
  assert (ptables_rep t0 d) as Hrep0 by (split; simpl; eauto).
  destruct (put_main_spec t0 m tbl_Epochs key_genesis (rlp_enc rlp_epoch e) Hm) as (db & E & Hdb).
  unfold SetGenesis, setEpoch, set_rlp. fold t0. rewrite E. eexists. split; [done|].
  eapply rep_set_main; [done..|by apply main_genesis|done].
Qed.

Lemma GetGenesis_law t d : ptables_rep t d -> GetGenesis t = Ret (pd_genesis d).
Proof.
  intros [(m & Hm & Hh) _ _]. eapply get_rlp_spec; [apply rlp_epoch_roundtrip|done|apply Hh|].
  intros e He. eapply mh_epoch_ok; eauto.
Qed.

Lemma genesis_epoch_ok g genesisAtropos appHash : epoch_ok (genesis_epoch g genesisAtropos appHash).
Proof. split; [done|]. by eexists. Qed.

(** What a genesis leaves in the store. *)
Definition data_after_genesis (d : PosetData) (g : Genesis) (genesisAtropos appHash : hash) : PosetData :=
  let e := genesis_epoch g genesisAtropos appHash in
  data_checkpoint (data_epoch (data_genesis d e) e) (mkCheckpoint 0 0 genesisAtropos appHash).

Lemma write_genesis_law t d g genesisAtropos appHash :
  ptables_rep t d -> length genesisAtropos = 32%nat -> length appHash = 32%nat ->
  exists t', write_genesis t g genesisAtropos appHash = Ret t' /\
    ptables_rep t' (data_after_genesis d g genesisAtropos appHash).
Proof.
  intros Hrep Ha Hh. pose proof (genesis_epoch_ok g genesisAtropos appHash) as He. unfold write_genesis.
  destruct (SetGenesis_law t d _ Hrep He) as (t1 & -> & H1). rewrite go_bind_Ret.
  destruct (@plaw_SetEpoch _ _ _ PTables_laws t1 _ _ H1 He) as (t2 & E2 & H2). simpl in E2. rewrite E2, go_bind_Ret.
  by apply (@plaw_SetCheckpoint _ _ _ PTables_laws).
Qed.

Lemma calcGenesisHash_law mem d g genesisAtropos appHash :
  ptables_rep mem d -> length genesisAtropos = 32%nat -> length appHash = 32%nat ->
  calcGenesisHash mem g genesisAtropos appHash =
    Ret (GenesisState_Hash (PrevEpoch (genesis_epoch g genesisAtropos appHash))).
Proof.
  intros Hrep Ha Hh. unfold calcGenesisHash.
  destruct (write_genesis_law mem d g genesisAtropos appHash Hrep Ha Hh) as (t & -> & Ht).
  by rewrite go_bind_Ret, (GetGenesis_law _ _ Ht).
Qed.

(** [ApplyGenesis] on a store without a genesis writes the genesis
    state, the first epoch and the first checkpoint and nothing else; applying
    the same genesis to the result succeeds and changes nothing; and applying
    a genesis whose state has another hash is refused and changes nothing,
    where the refusal names the two hashes the wrong way round: the new one in
    [Stored] and the stored one in [New]. *)
Theorem genesis_applied_once t mem d (g g' : Genesis) (atropos app atropos' app' : hash) :
  ptables_rep t d -> ptables_rep mem emptyPosetData -> pd_genesis d = None ->
  g_Validators g <> [] -> g_Validators g' <> [] ->
  length atropos = 32%nat -> length app = 32%nat -> length atropos' = 32%nat -> length app' = 32%nat ->
  let stored := GenesisState_Hash (mkGenesisState 0 (g_Time g) atropos app) in
  let new := GenesisState_Hash (mkGenesisState 0 (g_Time g') atropos' app') in
  exists t', ApplyGenesis t mem (Some g) atropos app = Ret (None, t') /\
    ptables_rep t' (data_after_genesis d g atropos app) /\
    ApplyGenesis t' mem (Some g) atropos app = Ret (None, t') /\
    (stored <> new ->
     ApplyGenesis t' mem (Some g') atropos' app' = Ret (Some (GenesisMismatchError new stored), t')).
Proof.
  intros Hrep Hmem Hnone Hg Hg' Ha Hh Ha' Hh' stored new.
  destruct (write_genesis_law t d g atropos app Hrep Ha Hh) as (t' & E & Ht').
  exists t'. unfold ApplyGenesis. rewrite !bool_decide_eq_false_2 by done.
  rewrite (GetGenesis_law _ _ Hrep), go_bind_Ret, Hnone, E, go_bind_Ret.
  split; [done|]. split; [done|]. rewrite (GetGenesis_law _ _ Ht'), go_bind_Ret. cbn [pd_genesis data_after_genesis data_checkpoint data_epoch data_genesis].
  rewrite !(calcGenesisHash_law mem emptyPosetData) by done. rewrite !go_bind_Ret.
  change (PrevEpoch (genesis_epoch g atropos app)) with (mkGenesisState 0 (g_Time g) atropos app).
  change (PrevEpoch (genesis_epoch g' atropos' app')) with (mkGenesisState 0 (g_Time g') atropos' app').
  fold stored new. rewrite bool_decide_eq_true_2 by done. split; [done|].
  intros Hne. by rewrite bool_decide_eq_false_2.
Qed.
End ptables.

(** ** The store as a machine *)

Inductive ps_op :=
  | PAddRoot (r : RootAndSlot)
  | PGetFrameRoots (f : Z)
  | PSetEventConfirmedOn (h : hash) (f : Z)
  | PGetEventConfirmedOn (h : hash)
  | PSetFrameInfo (e f : Z) (i : FrameInfo)
  | PGetFrameInfo (e f : Z)
  | PSetCheckpoint (c : Checkpoint)
  | PGetCheckpoint
  | PSetEpoch (e : EpochState)
  | PGetEpoch.

Inductive ps_answer :=
  | PDone
  | PRoots (l : list RootAndSlot)
  | PFrame (f : Z)
  | PInfo (i : option FrameInfo)
  | PCheckpoint (c : option Checkpoint)
  | PEpoch (e : option EpochState).

(** What an operation does to the plain data and may answer. *)
Inductive ps_step (d : PosetData) : ps_op -> ps_answer -> PosetData -> Prop :=
  | step_AddRoot r : root_ok r -> root_key r ∉ pd_roots d ->
      ps_step d (PAddRoot r) PDone (data_roots d ({[root_key r]} ∪ pd_roots d))
  | step_GetFrameRoots f l : is_u32 f -> frame_roots d f l -> ps_step d (PGetFrameRoots f) (PRoots l) d
  | step_SetConfirmed (h : hash) f : is_u32 f ->
      ps_step d (PSetEventConfirmedOn h f) PDone (data_confirmed d (<[h := f]> (pd_confirmed d)))
  | step_GetConfirmed (h : hash) :
      ps_step d (PGetEventConfirmedOn h) (PFrame (default 0 (pd_confirmed d !! h))) d
  | step_SetFrameInfo e f i : is_u32 e -> is_u32 f -> info_ok i ->
      ps_step d (PSetFrameInfo e f i) PDone (data_frames d (<[(e, f) := i]> (pd_frames d)))
  | step_GetFrameInfo e f : is_u32 e -> is_u32 f ->
      ps_step d (PGetFrameInfo e f) (PInfo (pd_frames d !! (e, f))) d
  | step_SetCheckpoint c : checkpoint_ok c -> ps_step d (PSetCheckpoint c) PDone (data_checkpoint d c)
  | step_GetCheckpoint : ps_step d PGetCheckpoint (PCheckpoint (pd_checkpoint d)) d
  | step_SetEpoch e : epoch_ok e -> ps_step d (PSetEpoch e) PDone (data_epoch d e)
  | step_GetEpoch : ps_step d PGetEpoch (PEpoch (pd_epoch d)) d.

Inductive ps_steps : PosetData -> list ps_op -> list ps_answer -> PosetData -> Prop :=
  | steps_nil d : ps_steps d [] [] d
  | steps_cons d o a d1 os l d2 : ps_step d o a d1 -> ps_steps d1 os l d2 -> ps_steps d (o :: os) (a :: l) d2.

(** The operations a client may ask for: those the plain data can do. *)
Fixpoint ps_allowed (d : PosetData) (os : list ps_op) : Prop :=
  match os with
  | [] => True
  | o :: os => (exists a d', ps_step d o a d') /\ forall a d', ps_step d o a d' -> ps_allowed d' os
  end.

Section machine.
Context {T E : Type} `{HP : PosetStoreLaws T E}.
Implicit Types t : T.

Definition answering (a : ps_answer) (r : go T) : go (ps_answer * T) := t ← r; Ret (a, t).
Definition asking {X} (f : X -> ps_answer) t (r : go X) : go (ps_answer * T) := x ← r; Ret (f x, t).

Definition ps_exec t (o : ps_op) : go (ps_answer * T) :=
  match o with
  | PAddRoot r => answering PDone (ps_AddRoot t r)
  | PGetFrameRoots f => '(l, t) ← ps_GetFrameRoots t f; Ret (PRoots l, t)
  | PSetEventConfirmedOn h f => answering PDone (ps_SetEventConfirmedOn t h f)
  | PGetEventConfirmedOn h => asking PFrame t (ps_GetEventConfirmedOn t h)
  | PSetFrameInfo e f i => answering PDone (ps_SetFrameInfo t e f i)
  | PGetFrameInfo e f => asking PInfo t (ps_GetFrameInfo t e f)
  | PSetCheckpoint c => answering PDone (ps_SetCheckpoint t c)
  | PGetCheckpoint => asking PCheckpoint t (ps_GetCheckpoint t)
  | PSetEpoch e => answering PDone (ps_SetEpoch t e)
  | PGetEpoch => asking PEpoch t (ps_GetEpoch t)
  end.

Fixpoint ps_run t (os : list ps_op) : go (list ps_answer * T) :=
  match os with
  | [] => Ret ([], t)
  | o :: os => '(a, t) ← ps_exec t o; '(l, t) ← ps_run t os; Ret (a :: l, t)
  end.


Lemma ps_exec_sim t d o a0 d0 :
  ps_rep t d -> ps_step d o a0 d0 ->
  exists a t' d', ps_exec t o = Ret (a, t') /\ ps_step d o a d' /\ ps_rep t' d'.
Proof.
  intros Hrep Hstep. inversion Hstep; subst; cbn [ps_exec].
  - destruct (plaw_AddRoot t d r) as (t' & -> & Ht'); [done..|]. eexists _, t', _. by split; [done|].
  - destruct (plaw_GetFrameRoots t d0 f) as (l' & t' & -> & Ht' & Hl); [done..|].
    exists (PRoots l'), t', d0. split; [done|]. split; [by constructor|done].
  - destruct (plaw_SetEventConfirmedOn t d h f) as (t' & -> & Ht'); [done..|]. eexists _, t', _. by split; [done|].
  - rewrite (plaw_GetEventConfirmedOn t d0) by done. eexists _, t, d0. by split; [done|].
  - destruct (plaw_SetFrameInfo t d e f i) as (t' & -> & Ht'); [done..|]. eexists _, t', _. by split; [done|].
  - rewrite (plaw_GetFrameInfo t d0) by done. eexists _, t, d0. by split; [done|].
  - destruct (plaw_SetCheckpoint t d c) as (t' & -> & Ht'); [done..|]. eexists _, t', _. by split; [done|].
  - rewrite (plaw_GetCheckpoint t d0) by done. eexists _, t, d0. by split; [done|].
  - destruct (plaw_SetEpoch t d e) as (t' & -> & Ht'); [done..|]. eexists _, t', _. by split; [done|].
  - rewrite (plaw_GetEpoch t d0) by done. eexists _, t, d0. by split; [done|].
Qed.

Lemma ps_run_sim os t d :
  ps_rep t d -> ps_allowed d os ->
  exists l t' d', ps_run t os = Ret (l, t') /\ ps_steps d os l d' /\ ps_rep t' d'.
Proof.
  revert t d. induction os as [|o os IH]; intros t d Hrep Hok.
  { exists [], t, d. split; [done|]. split; [constructor|done]. }
  destruct Hok as [(a0 & d0 & Hs0) Hok]. destruct (ps_exec_sim t d o a0 d0 Hrep Hs0) as (a & t1 & d1 & E1 & Hs & H1).
  destruct (IH t1 d1 H1 (Hok a d1 Hs)) as (l & t2 & d2 & E2 & Hss & H2).
  exists (a :: l), t2, d2. cbn [ps_run]. rewrite E1, go_bind_Ret, E2. split; [done|].
  split; [by econstructor|done].
Qed.
End machine.

(** The tables of the consensus store with their cache of frame roots
    refine the plain data: whatever sequence of additions, confirmations,
    frame infos, checkpoints and epochs is asked of them, they answer what the
    plain data answers (the roots of a frame in some order, each once, whether
    they come from the cache or from the iterator), through the binary keys
    and the RLP of the values, and never fault. *)
Theorem poset_store_refines {S C : Type} `{HS : StoreLaws S} `{HC : LruLaws Z (list RootAndSlot) C}
    (rlp_frame : RlpCodec (Z * Z * Z)) (rlp_checkpoint : RlpCodec Checkpoint) (rlp_epoch : RlpCodec EpochState)
    (Hframe : forall m, frame_triple m -> rlp_dec rlp_frame (rlp_enc rlp_frame m) = Some m)
    (Hcheckpoint : forall c, checkpoint_ok c -> rlp_dec rlp_checkpoint (rlp_enc rlp_checkpoint c) = Some c)
    (Hepoch : forall e, epoch_ok e -> rlp_dec rlp_epoch (rlp_enc rlp_epoch e) = Some e)
    (t : PTables S C) (d : PosetData) (os : list ps_op) :
  ptables_rep rlp_frame rlp_checkpoint rlp_epoch t d -> ps_allowed d os ->
  exists l t' d', @ps_run _ _ (PTables_PosetStore rlp_frame rlp_checkpoint rlp_epoch) t os = Ret (l, t') /\
    ps_steps d os l d' /\ ptables_rep rlp_frame rlp_checkpoint rlp_epoch t' d'.
Proof.
  pose proof (PTables_laws rlp_frame rlp_checkpoint rlp_epoch Hframe Hcheckpoint Hepoch) as HP.
  apply (ps_run_sim (HP := HP)).
Qed.
