(* ===== verification/Poset.v ===== *)
(** * The consensus: poset/poset.go, frame_decide.go, event_ordering.go,
      traversal.go, checkpoint.go, epoch.go, frame_info.go

    The state of [poset.Poset] and its handlers, over any store of the
    consensus ([PosetStore]), any store of vectors ([VecStore]) and any
    application behind the callbacks, whose state [A] is threaded through. *)

From S2P Require Import Prelude Bytes Kvdb Pos Event Vector VecStore VecIndex EventCheck Election PosetStore.

(** ** inter/block.go: the callbacks *)

Record ConsensusCallbacks (A : Type) := mkCallbacks {
  ApplyBlock : option (A -> Block -> Z -> list Z -> (hash * bool) * A);
  SelectValidatorsGroup : option (A -> Z -> Z -> Validators * A);
  OnEventConfirmed : option (A -> EventHeaderData -> Z -> A);
  IsEventAllowedIntoBlock : option (A -> EventHeaderData -> Z -> bool)
}.
Arguments mkCallbacks {A} _ _ _ _.
Arguments ApplyBlock {A} _.
Arguments SelectValidatorsGroup {A} _.
Arguments OnEventConfirmed {A} _.
Arguments IsEventAllowedIntoBlock {A} _.

Inductive poset_error :=
  | ErrEpochCheck (err : check_error)
  | ErrWrongEpochHash
  | ErrNonZeroEpochHash
  | ErrCheatersObserved
  | ErrWrongFrame
  | ErrWrongIsRoot
  | ErrWrongMedianTime.

Record Poset (T VT F A : Type) := mkPoset {
  p_store : T;
  p_Checkpoint : Checkpoint;
  p_EpochState : EpochState;
  p_election : Election;
  p_vecClock : Index VT F;
  p_app : A
}.
Arguments mkPoset {T VT F A} _ _ _ _ _ _.
Arguments p_store {T VT F A} _.
Arguments p_Checkpoint {T VT F A} _.
Arguments p_EpochState {T VT F A} _.
Arguments p_election {T VT F A} _.
Arguments p_vecClock {T VT F A} _.
Arguments p_app {T VT F A} _.

(** Updates of single fields. *)
Section updates.
Context {T VT F A : Type}.
Implicit Types p : Poset T VT F A.
Definition with_store p (t : T) : Poset T VT F A :=
  mkPoset t (p_Checkpoint p) (p_EpochState p) (p_election p) (p_vecClock p) (p_app p).
Definition with_checkpoint p (c : Checkpoint) : Poset T VT F A :=
  mkPoset (p_store p) c (p_EpochState p) (p_election p) (p_vecClock p) (p_app p).
Definition with_epoch p (e : EpochState) : Poset T VT F A :=
  mkPoset (p_store p) (p_Checkpoint p) e (p_election p) (p_vecClock p) (p_app p).
Definition with_election p (el : Election) : Poset T VT F A :=
  mkPoset (p_store p) (p_Checkpoint p) (p_EpochState p) el (p_vecClock p) (p_app p).
Definition with_vec p (vi : Index VT F) : Poset T VT F A :=
  mkPoset (p_store p) (p_Checkpoint p) (p_EpochState p) (p_election p) vi (p_app p).
Definition with_app p (a : A) : Poset T VT F A :=
  mkPoset (p_store p) (p_Checkpoint p) (p_EpochState p) (p_election p) (p_vecClock p) a.
End updates.

(** The fields that [Prepare] fills in. *)
Definition set_consensus (e : EventHeaderData) (frame : Z) (isRoot : bool) (medianTime : Z) (prevEpochHash : hash)
    : EventHeaderData :=
  mkHeader (Version e) (Epoch e) (Seq e) frame isRoot (Creator e) prevEpochHash
    (Parents e) (GasPowerLeft e) (GasPowerUsed e) (Lamport e) (ClaimedTime e) medianTime
    (TxHash e) (Extra e) (hash_cache e).

(** ** event_ordering.go *)

Section ordering.
Context (event_Hash : EventHeaderData -> hash).

(** The [less] given to [sort.Slice]. *)
Definition fare_less (a b : EventHeaderData) : bool :=
  if negb (Lamport a =? Lamport b) then Lamport a <? Lamport b
  else bool_decide (bytes_lt (event_Hash a) (event_Hash b)).
Definition fare_le (a b : EventHeaderData) : Prop := fare_less b a = false.
#[export] Instance fare_le_dec a b : Decision (fare_le a b).
Proof. unfold fare_le. apply _. Defined.

Definition fareOrdering (unordered : list EventHeaderData) : list hash :=
  event_Hash <$> merge_sort fare_le unordered.
End ordering.

(** The arithmetic of [fareTimestamps], on the times it reads. *)
Definition frameTimes (lastConsensusTime nowMedianTime highestLamport lowestLamport : Z) : FrameInfo :=
  let frameLamportPeriod := MaxLamport (u32 (highestLamport - lowestLamport + 1)) 1 in
  let frameTimePeriod :=
    if lastConsensusTime >? nowMedianTime then 1
    else MaxTimestamp (u64 (nowMedianTime - lastConsensusTime)) 1 in
  let timeRatio := MaxTimestamp (frameTimePeriod / frameLamportPeriod) 1 in
  let lowestConsensusTime := u64 (lastConsensusTime + timeRatio) in
  let timeOffset := i64 (i64 lowestConsensusTime - i64 (i64 lowestLamport * i64 timeRatio)) in
  mkFrameInfo timeOffset timeRatio (u64 (i64 (i64 (i64 highestLamport * i64 timeRatio) + timeOffset))).

Section poset.
Context {T E VT F A : Type} `{PosetStore T E} `{VecStore VT} `{Lru (hash * hash) bool F}.
(** The events that were saved, by epoch. *)
Context (input : Z -> hash -> option EventHeaderData) (event_Hash : EventHeaderData -> hash).
(** The Keccak sums of the RLP of a state, and of byte strings ([hash.Of]). *)
Context (keccak_rlp_genesis : GenesisState -> bytes) (hash_Of : list bytes -> hash).
Context (callback : ConsensusCallbacks A).
(** The database of an epoch: the part of the roots and that of the vectors. *)
Context (openEpochDb : Z -> E * VT).
(** Rounds of the loops whose number is not known beforehand. *)
Context (fuel : nat).
Implicit Types p : Poset T VT F A.

Definition p_EpochN p : Z := EpochN (p_EpochState p).
Definition p_Validators p : Validators := ep_Validators (p_EpochState p).
Definition getEvent p (h : hash) : option EventHeaderData := input (p_EpochN p) h.

(** ** poset.go: frames and roots *)

Definition LastBlock p : Z * hash := (LastBlockN (p_Checkpoint p), LastAtropos (p_Checkpoint p)).

(** Ask the index; its caches may change. *)
Definition ask_vec {X} p (r : go (X * Index VT F)) : go (X * Poset T VT F A) :=
  '(x, vi) ← r; Ret (x, with_vec p vi).
Definition get_roots p (f : Z) : go (list RootAndSlot * Poset T VT F A) :=
  '(l, t) ← ps_GetFrameRoots (p_store p) f; Ret (l, with_store p t).

(** The loop over the roots of the frame; it stops at the quorum. *)
Fixpoint countObserved p (id : hash) (roots : list RootAndSlot) (observedCounter : StakeCounter)
    : go (bool * Poset T VT F A) :=
  match roots with
  | [] => Ret (StakeCounter_HasQuorum observedCounter, p)
  | it :: roots =>
      '(caused, p) ← ask_vec p (ForklessCause (p_vecClock p) id (root_ID it));
      counter ← (if caused : bool
                 then '(_, c) ← StakeCounter_Count observedCounter (slot_Validator (root_Slot it)); Ret c
                 else Ret observedCounter);
      if StakeCounter_HasQuorum counter then Ret (true, p) else countObserved p id roots counter
  end.

Definition forklessCausedByQuorumOn p (e : EventHeaderData) (f : Z) : go (bool * Poset T VT F A) :=
  '(roots, p) ← get_roots p f;
  countObserved p (event_Hash e) roots (newStakeCounter (p_Validators p)).

(** The loop over the parents: their highest frame, and that of the
    self-parent. *)
Definition parentFrame p (e : EventHeaderData) (acc : Z * Z) (parent : hash) : go (Z * Z) :=
  let '(maxParentsFrame, selfParentFrame) := acc in
  match getEvent p parent with
  | None => Fault NilDereference
  | Some ep =>
      let pFrame := Frame ep in
      Ret (if (maxParentsFrame =? 0) || (pFrame >? maxParentsFrame) then pFrame else maxParentsFrame,
           if IsSelfParent e parent then pFrame else selfParentFrame)
  end.

Definition calcFrameIdx p (e : EventHeaderData) (checkOnly : bool) : go ((Z * bool) * Poset T VT F A) :=
  if bool_decide (Parents e = []) then Ret ((1, true), p)
  else
    '(maxParentsFrame, selfParentFrame) ← go_fold (parentFrame p e) (0, 0) (Parents e);
    if checkOnly then
      if negb (IsRoot e) then Ret ((selfParentFrame, false), p)
      else
        '(isRoot, p) ←
          (if negb (Frame e =? u32 (selfParentFrame + 1)) then Ret (false, p)
           else if Frame e <=? 1 then Ret (true, p)
           else forklessCausedByQuorumOn p e (u32 (Frame e - 1)));
        Ret ((u32 (selfParentFrame + 1), isRoot), p)
    else
      match SelfParent e with
      | None => Ret ((1, true), p)
      | Some _ =>
          '(caused, p) ← forklessCausedByQuorumOn p e selfParentFrame;
          if caused : bool then Ret ((u32 (selfParentFrame + 1), true), p)
          else Ret ((selfParentFrame, false), p)
      end.

Definition drop_not_flushed p : go (Poset T VT F A) :=
  vi ← DropNotFlushed (p_vecClock p); Ret (with_vec p vi).

Definition prevEpochHash p : hash := GenesisState_Hash keccak_rlp_genesis (PrevEpoch (p_EpochState p)).

Definition Prepare p (e : EventHeaderData) : go (option EventHeaderData * Poset T VT F A) :=
  match epochcheck_Validate (p_Validators p) (p_EpochN p) e with
  | Some _ => Ret (None, p)
  | None =>
      let id := event_Hash e in
      vi ← Add (getEvent p) event_Hash fuel (p_vecClock p) e;
      let p := with_vec p vi in
      '((frame, isRoot), p) ← calcFrameIdx p e false;
      '(medianTime, p) ← ask_vec p (VecIndex.MedianTime (p_vecClock p) id (gs_Time (PrevEpoch (p_EpochState p))));
      let h := if Seq e <=? 1 then prevEpochHash p else ZeroHash in
      p ← drop_not_flushed p;
      Ret (Some (set_consensus e frame isRoot medianTime h), p)
  end.

(** The part of [checkAndSaveEvent] between [Add] and the deferred
    [DropNotFlushed]. *)
Definition checkAdded p (e : EventHeaderData) : go (option poset_error * Poset T VT F A) :=
  '((frameIdx, isRoot), p) ← calcFrameIdx p e true;
  if negb (Bool.eqb (IsRoot e) isRoot) then Ret (Some ErrWrongIsRoot, p)
  else if negb (Frame e =? frameIdx) then Ret (Some ErrWrongFrame, p)
  else
    '(medianTime, p) ← ask_vec p (VecIndex.MedianTime (p_vecClock p) (event_Hash e)
                                    (gs_Time (PrevEpoch (p_EpochState p))));
    if negb (Event.MedianTime e =? medianTime) then Ret (Some ErrWrongMedianTime, p)
    else
      vi ← Flush (p_vecClock p);
      let p := with_vec p vi in
      p ← (if IsRoot e
           then t ← ps_AddRoot (p_store p) (mkRoot (event_Hash e) (mkSlot (Frame e) (Creator e)));
                Ret (with_store p t)
           else Ret p);
      Ret (None, p).

Definition checkAndSaveEvent p (e : EventHeaderData) : go (option poset_error * Poset T VT F A) :=
  if (Seq e <=? 1) && negb (bool_decide (PrevEpochHash e = prevEpochHash p)) then Ret (Some ErrWrongEpochHash, p)
  else if (1 <? Seq e) && negb (bool_decide (PrevEpochHash e = ZeroHash)) then Ret (Some ErrNonZeroEpochHash, p)
  else
    '(noCheaters, p) ← ask_vec p (NoCheaters (getEvent p) (p_vecClock p) (SelfParent e) (Parents e));
    if negb (zlen noCheaters =? zlen (Parents e)) then Ret (Some ErrCheatersObserved, p)
    else
      vi ← Add (getEvent p) event_Hash fuel (p_vecClock p) e;
      '(err, p) ← checkAdded (with_vec p vi) e;
      p ← drop_not_flushed p;
      Ret (err, p).

(** ** poset.go: the election of a root *)

(** What [ProcessRoot] asks for: the roots of the frame before, if the root
    takes part in the voting, and which of them the root observes. *)
Definition votes_now (el : Election) (f : Z) : bool :=
  match chooseAtropos el with inr None => frameToDecide el <? f | _ => false end.

Definition observeRoot (id : hash) (st : list (hash * bool) * Poset T VT F A) (it : RootAndSlot)
    : go (list (hash * bool) * Poset T VT F A) :=
  let '(answers, p) := st in
  '(caused, p) ← ask_vec p (ForklessCause (p_vecClock p) id (root_ID it));
  Ret (answers ++ [(root_ID it, caused)], p).

Definition gather p (f : Z) (id : hash) : go (list RootAndSlot * list (hash * bool) * Poset T VT F A) :=
  if votes_now (p_election p) f then
    '(roots, p) ← get_roots p (u32 (f - 1));
    '(answers, p) ← go_fold (observeRoot id) ([], p) roots;
    Ret (roots, answers, p)
  else Ret ([], [], p).

Definition processRoot p (f from : Z) (id : hash) : go (option Res * Poset T VT F A) :=
  '(roots, answers, p) ← gather p f id;
  '(decided, el) ← ProcessRoot (fun _ r => default false (assoc_get answers r)) (fun _ => roots)
                     (p_election p) (mkRoot id (mkSlot f from));
  match decided with
  | inl _ => Fault (Crit "probably more than 1/3W are Byzantine")
  | inr decided => Ret (decided, with_election p el)
  end.

(** The loop over the roots of one frame; it stops at a decision. *)
Fixpoint processFrameRoots p (roots : list RootAndSlot) : go (option Res * Poset T VT F A) :=
  match roots with
  | [] => Ret (None, p)
  | it :: roots =>
      '(decided, p) ← processRoot p (slot_Frame (root_Slot it)) (slot_Validator (root_Slot it)) (root_ID it);
      match decided with
      | Some res => Ret (Some res, p)
      | None => processFrameRoots p roots
      end
  end.

Fixpoint processKnownFrom (n : nat) p (f : Z) : go (option Res * Poset T VT F A) :=
  match n with
  | O => Fault OutOfFuel
  | S n =>
      '(frameRoots, p) ← get_roots p f;
      '(decided, p) ← processFrameRoots p frameRoots;
      match decided with
      | Some res => Ret (Some res, p)
      | None => if bool_decide (frameRoots = []) then Ret (None, p) else processKnownFrom n p (u32 (f + 1))
      end
  end.
Definition processKnownRoots p : go (option Res * Poset T VT F A) :=
  processKnownFrom fuel p (u32 (LastDecidedFrame (p_Checkpoint p) + 1)).

(** ** event_ordering.go: consensus time *)

Definition frameConsensusTime p (frame : Z) : go Z :=
  if frame =? 0 then Ret (gs_Time (PrevEpoch (p_EpochState p)))
  else
    info ← ps_GetFrameInfo (p_store p) (p_EpochN p) frame;
    match info with None => Fault NilDereference | Some i => Ret (LastConsensusTime i) end.

Definition fareTimestamps p (frame : Z) (atropos : hash) (highestLamport lowestLamport : Z) : go FrameInfo :=
  lastConsensusTime ← frameConsensusTime p (u32 (frame - 1));
  match getEvent p atropos with
  | None => Fault NilDereference
  | Some e => Ret (frameTimes lastConsensusTime (Event.MedianTime e) highestLamport lowestLamport)
  end.

(** ** traversal.go, frame_decide.go: confirming events *)

(** The walk from [head]: the state [W] of the filter is threaded through. *)
Fixpoint walkSubgraph {W} (get : hash -> option EventHeaderData) (filter : W -> EventHeaderData -> go (bool * W))
    (n : nat) (stack : list hash) (w : W) : go W :=
  match n with
  | O => Fault OutOfFuel
  | S n =>
      match EventsStack_Pop stack with
      | None => Ret w
      | Some (walk, stack) =>
          match get walk with
          | None => Fault (Crit "Poset: Failed to walk subgraph")
          | Some event =>
              '(deeper, w) ← filter w event;
              if negb deeper then walkSubgraph get filter n stack w
              else walkSubgraph get filter n (EventsStack_PushAll stack (Parents event)) w
          end
      end
  end.

(** The filter of [confirmEvents], which marks the event. *)
Definition confirmEvent {W} (frame : Z) (onEventConfirmed : W -> EventHeaderData -> go W)
    (st : T * W) (header : EventHeaderData) : go (bool * (T * W)) :=
  let '(t, w) := st in
  decidedFrame ← ps_GetEventConfirmedOn t (event_Hash header);
  if negb (decidedFrame =? 0) then Ret (false, (t, w))
  else
    t ← ps_SetEventConfirmedOn t (event_Hash header) frame;
    w ← onEventConfirmed w header;
    Ret (true, (t, w)).

Definition confirmEvents {W} p (frame : Z) (atropos : hash) (onEventConfirmed : W -> EventHeaderData -> go W)
    (w : W) : go (T * W) :=
  walkSubgraph (getEvent p) (confirmEvent frame onEventConfirmed) fuel [atropos] (p_store p, w).

(** What the closure of [confirmBlock] accumulates. *)
Record blockAcc := mkBlockAcc {
  ba_events : list EventHeaderData;
  ba_highest : Z;
  ba_lowest : Z;
  ba_app : A
}.

Definition seqDepth (highest : BranchSeq) (e : EventHeaderData) : Z :=
  if bs_Seq highest <? Seq e then MaxInt32 else u32 (bs_Seq highest - Seq e).

Definition onConfirmed (validators : Validators) (atroposHighestBefore : bytes) (acc : blockAcc)
    (e : EventHeaderData) : go blockAcc :=
  let highestLamport :=
    if (ba_highest acc =? 0) || (ba_highest acc <? Lamport e) then Lamport e else ba_highest acc in
  let lowestLamport :=
    if (ba_lowest acc =? 0) || (ba_lowest acc >? Lamport e) then Lamport e else ba_lowest acc in
  creatorHighest ← HighestBeforeSeq_Get atroposHighestBefore (Validators_GetIdx validators (Creator e));
  let fromCheater := IsForkDetected creatorHighest in
  let depth := seqDepth creatorHighest e in
  let allowed := match IsEventAllowedIntoBlock callback with
                 | None => true
                 | Some f => f (ba_app acc) e depth
                 end in
  let events := if negb fromCheater && allowed then ba_events acc ++ [e] else ba_events acc in
  if negb fromCheater && (bs_Seq creatorHighest <? Seq e) then Fault (Crit "DAG is inconsistent with vector clock")
  else
    let app := match OnEventConfirmed callback with
               | None => ba_app acc
               | Some f => f (ba_app acc) e depth
               end in
    Ret (mkBlockAcc events highestLamport lowestLamport app).

(** The loop that lists the cheaters in the order of the validators. *)
Definition addCheater (atroposHighestBefore : bytes) (cheaters : list Z) (ic : Z * Z) : go (list Z) :=
  let '(creatorIdx, creator) := ic in
  s ← HighestBeforeSeq_Get atroposHighestBefore creatorIdx;
  Ret (if IsForkDetected s then cheaters ++ [creator] else cheaters).

Definition confirmBlock p (frame : Z) (atropos : hash) : go ((Block * list Z) * Poset T VT F A) :=
  '(highest, p) ← ask_vec p (GetHighestBeforeMerged (p_vecClock p) atropos);
  let highest := default [] highest in
  cheaters ← go_fold (addCheater highest) [] (enumerate (Validators_SortedIDs (p_Validators p)));
  '(t, acc) ← confirmEvents p frame atropos (onConfirmed (p_Validators p) highest)
                (mkBlockAcc [] 0 0 (p_app p));
  let p := with_app (with_store p t) (ba_app acc) in
  let ordered := fareOrdering event_Hash (ba_events acc) in
  frameInfo ← fareTimestamps p frame atropos (ba_highest acc) (ba_lowest acc);
  t ← ps_SetFrameInfo (p_store p) (p_EpochN p) frame frameInfo;
  let cp := p_Checkpoint p in
  Ret ((NewBlock (u64 (LastBlockN cp + 1)) (LastConsensusTime frameInfo) atropos (LastAtropos cp) ordered, cheaters),
       with_store p t).

(** ** frame_decide.go: the end of a frame and of an epoch *)

Definition saveCheckpoint p : go (Poset T VT F A) :=
  t ← ps_SetCheckpoint (p_store p) (p_Checkpoint p); Ret (with_store p t).

Definition setEpochValidators p (validators : Validators) (epoch : Z) : Poset T VT F A :=
  with_epoch p (mkEpochState epoch (PrevEpoch (p_EpochState p)) validators).

Definition sealEpoch p : go (Poset T VT F A) :=
  let cp := p_Checkpoint p in
  time ← frameConsensusTime p (LastDecidedFrame cp);
  let prev := mkGenesisState (p_EpochN p) time (LastAtropos cp) (AppHash cp) in
  let p := with_epoch p (mkEpochState (p_EpochN p) prev (p_Validators p)) in
  let '(nextValidators, app) :=
    match SelectValidatorsGroup callback with
    | None => (p_Validators p, p_app p)
    | Some f => f (p_app p) (p_EpochN p) (u32 (p_EpochN p + 1))
    end in
  let p := setEpochValidators (with_app p app) nextValidators (u32 (p_EpochN p + 1)) in
  let p := with_checkpoint p (mkCheckpoint 0 (LastBlockN cp) (LastAtropos cp) (AppHash cp)) in
  t ← ps_SetEpoch (p_store p) (p_EpochState p);
  p ← saveCheckpoint (with_store p t);
  let '(edb, vdb) := openEpochDb (p_EpochN p) in
  let p := with_store p (ps_RecreateEpochDb (p_store p) edb) in
  vi ← Reset (p_vecClock p) (p_Validators p) vdb;
  Ret (with_election (with_vec p vi) (Election_Reset (p_Validators p) firstFrame)).

Definition onFrameDecided p (frame : Z) (atropos : hash) : go (bool * Poset T VT F A) :=
  let p := with_election p (Election_Reset (p_Validators p) (u32 (frame + 1))) in
  let cp := p_Checkpoint p in
  let p := with_checkpoint p (mkCheckpoint frame (LastBlockN cp) (LastAtropos cp) (AppHash cp)) in
  '((block, cheaters), p) ← confirmBlock p frame atropos;
  let cp := p_Checkpoint p in
  let blockN := u64 (LastBlockN cp + 1) in
  let '(appHash, seal, app) :=
    match ApplyBlock callback with
    | None => (AppHash cp, false, p_app p)
    | Some f => let '((newHash, seal), app) := f (p_app p) block frame cheaters in
                (hash_Of [AppHash cp; newHash], seal, app)
    end in
  let p := with_app (with_checkpoint p (mkCheckpoint (LastDecidedFrame cp) blockN atropos appHash)) app in
  p ← saveCheckpoint p;
  p ← (if seal : bool then sealEpoch p else Ret p);
  Ret (seal, p).

Fixpoint decideKnown (n : nat) p : go (Poset T VT F A) :=
  match n with
  | O => Fault OutOfFuel
  | S n =>
      '(decided, p) ← processKnownRoots p;
      match decided with
      | None => Ret p
      | Some res =>
          '(sealed, p) ← onFrameDecided p (res_Frame res) (res_Atropos res);
          if sealed : bool then Ret p else decideKnown n p
      end
  end.

Definition handleElection p (root : option EventHeaderData) : go (Poset T VT F A) :=
  match root with
  | None => decideKnown fuel p
  | Some root =>
      if negb (IsRoot root) then Ret p
      else
        '(decided, p) ← processRoot p (Frame root) (Creator root) (event_Hash root);
        match decided with
        | None => Ret p
        | Some res =>
            '(sealed, p) ← onFrameDecided p (res_Frame res) (res_Atropos res);
            if sealed : bool then Ret p else decideKnown fuel p
        end
  end.

Definition ProcessEvent p (e : EventHeaderData) : go (option poset_error * Poset T VT F A) :=
  match epochcheck_Validate (p_Validators p) (p_EpochN p) e with
  | Some err => Ret (Some (ErrEpochCheck err), p)
  | None =>
      '(err, p) ← checkAndSaveEvent p e;
      match err with
      | Some err => Ret (Some err, p)
      | None => p ← handleElection p (Some e); Ret (None, p)
      end
  end.

(** ** checkpoint.go, epoch.go: start *)

Definition loadEpoch (t : T) : go (EpochState * T * VT) :=
  e ← ps_GetEpoch t;
  match e with
  | None => Fault NilDereference
  | Some e => let '(edb, vdb) := openEpochDb (EpochN e) in Ret (e, ps_RecreateEpochDb t edb, vdb)
  end.

(** A poset is a store before [Bootstrap], and has its state after it. *)
Definition Bootstrap (fc : F) (p : T + Poset T VT F A) (app : A) : go (Poset T VT F A) :=
  match p with
  | inr p => Ret p
  | inl t =>
      cp ← ps_GetCheckpoint t;
      match cp with
      | None => Fault (Crit "Apply genesis for store first")
      | Some cp =>
          '(e, t, vdb) ← loadEpoch t;
          vi ← NewIndex fc (ep_Validators e) vdb;
          handleElection
            (mkPoset t cp e (Election_New (ep_Validators e) (u32 (LastDecidedFrame cp + 1))) vi app) None
      end
  end.

(** ** frame_info.go *)

(** The error is that the event was not confirmed. *)
Definition GetConsensusTime p (id : hash) : go (option Z) :=
  f ← ps_GetEventConfirmedOn (p_store p) id;
  if f =? 0 then Ret None
  else
    epoch ← hash_Epoch id;
    finfo ← ps_GetFrameInfo (p_store p) epoch f;
    lamport ← hash_Lamport id;
    match finfo with None => Fault NilDereference | Some i => Ret (Some (CalcConsensusTime i lamport)) end.

End poset.
