(* ===== verification/PosetOrder.v ===== *)
(** * The order and the time of the events of a block

    poset/event_ordering.go and the consensus time of poset/frame_info.go:
    the order is a function of the set of events and follows causality, and
    the consensus time goes forward within a frame and from frame to frame. *)

From S2P Require Import Prelude Bytes Kvdb Pos Event Vector VecStore VecIndex Dag EventCheck Election PosetStore Poset.

(** ** The order *)

Section order.
Context (event_Hash : EventHeaderData -> hash).
Abbreviation fare_le := (fare_le event_Hash).

Lemma fare_le_spec a b :
  fare_le a b <->
  Lamport a < Lamport b \/ Lamport a = Lamport b /\ bytes_le (event_Hash a) (event_Hash b).
Proof.
  unfold Poset.fare_le, fare_less. destruct (Z.eqb_spec (Lamport b) (Lamport a)) as [E|E]; simpl.
  - rewrite bool_decide_eq_false. unfold bytes_lt, bytes_le.
    rewrite (bytes_compare_antisym (event_Hash a) (event_Hash b)).
    destruct (bytes_compare (event_Hash b) (event_Hash a)); simpl; split; try done; try lia; naive_solver lia.
  - rewrite Z.ltb_ge. split; [lia|]. intros [?|[? _]]; lia.
Qed.

#[export] Instance fare_le_total : Total fare_le.
Proof.
  intros a b. rewrite !fare_le_spec. destruct (total bytes_le (event_Hash a) (event_Hash b));
    destruct (Z.lt_trichotomy (Lamport a) (Lamport b)) as [?|[?|?]]; naive_solver.
Qed.
#[export] Instance fare_le_trans : Transitive fare_le.
Proof.
  intros a b c. rewrite !fare_le_spec. intros [?|[? H1]] [?|[? H2]]; try (left; lia).
  right. split; [lia|]. by etrans.
Qed.

Lemma fare_le_antisym a b : fare_le a b -> fare_le b a -> event_Hash a = event_Hash b.
Proof.
  rewrite !fare_le_spec. intros [?|[? H1]] [?|[? H2]]; try lia. by apply (anti_symm bytes_le).
Qed.

Lemma fareOrdering_perm l : fareOrdering event_Hash l ≡ₚ event_Hash <$> l.
Proof. unfold fareOrdering. by rewrite merge_sort_Permutation. Qed.

(** A list in which no element is less than the one before it is sorted. *)
Lemma not_less_sorted (arr : list EventHeaderData) :
  (forall i a b, arr !! i = Some a -> arr !! S i = Some b -> fare_less event_Hash b a = false) ->
  StronglySorted fare_le arr.
Proof.
  intros Hs. apply Sorted_StronglySorted; [apply _|].
  induction arr as [|a arr IH]; constructor.
  - apply IH. intros i. apply (Hs (S i)).
  - destruct arr as [|b arr]; constructor. by apply (Hs 0%nat).
Qed.

Lemma fareOrdering_unique (unordered arr : list EventHeaderData) :
  (forall a b, a ∈ unordered -> b ∈ unordered -> event_Hash a = event_Hash b -> a = b) ->
  arr ≡ₚ unordered -> StronglySorted fare_le arr -> event_Hash <$> arr = fareOrdering event_Hash unordered.
Proof.
  intros Hinj Hp Hs. unfold fareOrdering. f_equal.
  apply (StronglySorted_unique_strong fare_le); [|done|apply StronglySorted_merge_sort; apply _|].
  - intros a b Ha Hb H1 H2. apply Hinj; [by rewrite <-Hp|by rewrite <-(merge_sort_Permutation fare_le)|].
    by apply fare_le_antisym.
  - by rewrite merge_sort_Permutation.
Qed.

Lemma sorted_before (arr : list EventHeaderData) i j a b :
  StronglySorted fare_le arr -> arr !! i = Some a -> arr !! j = Some b -> Lamport a < Lamport b -> (i < j)%nat.
Proof.
  intros Hs Hi Hj Hl. destruct (decide (i < j)%nat) as [|Hge]; [done|]. exfalso.
  destruct (decide (i = j)) as [->|Hne]; [rewrite Hi in Hj; injection Hj as ->; lia|].
  assert (fare_le b a) as [?|[? _]]%fare_le_spec; [|lia..].
  revert i j Hi Hj Hge Hne. induction Hs as [|x arr Hs IH Hall]; intros i j Hi Hj Hge Hne; [done|].
  destruct j as [|j], i as [|i]; simpl in *; [lia| |lia|by apply (IH i j); auto with lia].
  injection Hj as ->. rewrite Forall_forall in Hall. apply Hall. by eapply list_elem_of_lookup_2.
Qed.

(** The Lamport time of an event is above that of its parents. *)
Definition lamport_ok (getEvent : hash -> option EventHeaderData) : Prop :=
  forall h e q eq, getEvent h = Some e -> q ∈ Parents e -> getEvent q = Some eq -> Lamport eq < Lamport e.

Lemma observes_lamport getEvent h h' e e' :
  lamport_ok getEvent -> (forall x ex, getEvent x = Some ex -> forall q, q ∈ Parents ex -> is_Some (getEvent q)) ->
  observes getEvent h h' -> h <> h' -> getEvent h = Some e -> getEvent h' = Some e' -> Lamport e' < Lamport e.
Proof.
  intros Hl Hp Ho. revert e. induction Ho as [h|h q h' (ex & Ex & Hq) Ho IH]; intros e Hne He He'; [done|].
  rewrite Ex in He. injection He as ->. destruct (Hp _ _ Ex _ Hq) as [eq Eq].
  pose proof (Hl _ _ _ _ Ex Hq Eq). destruct (decide (q = h')) as [->|Hne'].
  - rewrite Eq in He'. injection He' as ->. lia.
  - pose proof (IH eq Hne' Eq He'). lia.
Qed.

(** C33: the order of the events of a block is a function of the set of
    events: whatever order the walk found them in and wherever [sort.Slice]
    puts elements, any arrangement in which no event is less than the one
    before it gives the identifiers in the order of [fareOrdering]; and the
    order follows causality: an event comes after each event of the block that
    it observes. *)
Theorem block_order_causal getEvent (unordered arr : list EventHeaderData) :
  (forall a, a ∈ unordered -> getEvent (event_Hash a) = Some a) ->
  lamport_ok getEvent -> (forall x ex, getEvent x = Some ex -> forall q, q ∈ Parents ex -> is_Some (getEvent q)) ->
  arr ≡ₚ unordered ->
  (forall i a b, arr !! i = Some a -> arr !! S i = Some b -> fare_less event_Hash b a = false) ->
  event_Hash <$> arr = fareOrdering event_Hash unordered /\
  forall i j x y, fareOrdering event_Hash unordered !! i = Some x -> fareOrdering event_Hash unordered !! j = Some y ->
    observes getEvent y x -> x <> y -> (i < j)%nat.
Proof.
  intros Hget Hl Hpar Hp Hless. pose proof (not_less_sorted arr Hless) as Hs.
  assert (event_Hash <$> arr = fareOrdering event_Hash unordered) as E.
  { apply fareOrdering_unique; [|done..]. intros a b Ha%Hget Hb%Hget Eh. rewrite Eh in Ha. congruence. }
  split; [done|]. rewrite <-E. intros i j x y Hx Hy Ho Hne.
  rewrite list_lookup_fmap in Hx, Hy. apply fmap_Some in Hx as (a & Ha & ->), Hy as (b & Hb & ->).
  apply (sorted_before arr i j a b Hs Ha Hb).
  apply (observes_lamport getEvent (event_Hash b) (event_Hash a)); try done.
  - apply Hget. rewrite <-Hp. by eapply list_elem_of_lookup_2.
  - apply Hget. rewrite <-Hp. by eapply list_elem_of_lookup_2.
Qed.
End order.

(** ** The time *)

(** Congruence modulo 2^64, in which conversions disappear. *)
Definition eqm (a b : Z) : Prop := exists k, a = b + k * 2 ^ 64.

#[export] Instance eqm_equivalence : Equivalence eqm.
Proof.
  split.
  - intros a. exists 0. lia.
  - intros a b [k ->]. exists (- k). lia.
  - intros a b c [k ->] [k' ->]. exists (k + k'). lia.
Qed.
#[export] Instance eqm_add : Proper (eqm ==> eqm ==> eqm) Z.add.
Proof. intros a b [k ->] c d [k' ->]. exists (k + k'). ring. Qed.
#[export] Instance eqm_sub : Proper (eqm ==> eqm ==> eqm) Z.sub.
Proof. intros a b [k ->] c d [k' ->]. exists (k - k'). ring. Qed.
#[export] Instance eqm_mul : Proper (eqm ==> eqm ==> eqm) Z.mul.
Proof. intros a b [k ->] c d [k' ->]. exists (b * k' + k * d + k * k' * 2 ^ 64). ring. Qed.

Lemma eqm_i64 z : eqm (i64 z) z.
Proof. exists (- ((z + 2 ^ 63) / 2 ^ 64)). word. Qed.
Lemma eqm_u64 z : eqm (u64 z) z.
Proof. exists (- (z / 2 ^ 64)). word. Qed.
#[export] Instance eqm_i64_proper : Proper (eqm ==> eqm) i64.
Proof. intros a b H. etrans; [apply eqm_i64|]. etrans; [exact H|]. symmetry. apply eqm_i64. Qed.
Lemma eqm_eq a b : eqm a b -> u64 a = u64 b.
Proof. intros [k ->]. unfold u64. change 18446744073709551616 with (2 ^ 64). by rewrite Z_mod_plus_full. Qed.

Section times.
Context (last now high low : Z).
Abbreviation f := (frameTimes last now high low).

Definition frame_ratio : Z :=
  MaxTimestamp ((if last >? now then 1 else MaxTimestamp (u64 (now - last)) 1) /
                MaxLamport (u32 (high - low + 1)) 1) 1.

(** The wrap-around of the intermediate products cancels. *)
Lemma frameTimes_calc l : CalcConsensusTime f l = u64 (last + frame_ratio * (l - low + 1)).
Proof.
  unfold CalcConsensusTime, frameTimes. cbn [TimeRatio TimeOffset]. fold frame_ratio.
  apply eqm_eq. rewrite !eqm_i64, eqm_u64. exists 0. ring.
Qed.

Context (Hlast : is_u64 last) (Hnow : is_u64 now) (Hhigh : is_u32 high) (Hlow : 0 < low <= high).

Lemma frame_ratio_pos : 1 <= frame_ratio.
Proof. unfold frame_ratio, MaxTimestamp. case_match; lia. Qed.

(** The ratio spreads at most the time that has passed over the Lamport times. *)
Lemma frame_ratio_spread :
  last + frame_ratio * (high - low + 1) <= Z.max now (last + (high - low + 1)).
Proof.
  unfold frame_ratio, MaxTimestamp, MaxLamport. rewrite u32_id by (word_unfold; lia).
  assert ((if high - low + 1 >? 1 then high - low + 1 else 1) = high - low + 1) as -> by (case_match; lia).
  set (n := high - low + 1) in *. assert (1 <= n) by lia.
  destruct (Z.gtb_spec last now) as [Hlt|Hge].
  - assert (1 / n <= 1) by (apply Z.div_le_upper_bound; lia). case_match; nia.
  - rewrite u64_id by (word_unfold; lia).
    destruct (Z.gtb_spec (now - last) 1) as [H1|H1].
    + pose proof (Z.mul_div_le (now - last) n ltac:(lia)). case_match; nia.
    + assert (1 / n <= 1) by (apply Z.div_le_upper_bound; lia). case_match; nia.
Qed.

End times.

(** C34: the consensus time goes forward.  With the frame info that
    [fareTimestamps] computes from the consensus time [last] of the frame
    before, the median time [now] of the Atropos and the Lamport times of the
    events, every event of the frame gets a consensus time after [last], at
    most the [LastConsensusTime] of the frame, and later for a higher Lamport
    time; that last time is the one of the highest Lamport time and exceeds
    the median time only when the frame has more Lamport steps than
    nanoseconds.  No condition on the products of the 64-bit arithmetic is
    needed: their wrap-around cancels. *)
Theorem consensus_time_advances last now high low :
  is_u64 now -> 0 <= last -> last + 2 ^ 32 < 2 ^ 64 -> is_u32 high -> 0 < low <= high ->
  let info := frameTimes last now high low in
  LastConsensusTime info = CalcConsensusTime info high /\
  LastConsensusTime info <= Z.max now (last + (high - low + 1)) /\
  (forall l, low <= l <= high -> last < CalcConsensusTime info l <= LastConsensusTime info) /\
  (forall l1 l2, low <= l1 -> l1 < l2 <= high -> CalcConsensusTime info l1 < CalcConsensusTime info l2).
Proof.
  intros Hnow Hlast Hsmall Hhigh Hlow info.
  assert (is_u64 last) as Hl64 by (word_unfold; lia).
  assert (LastConsensusTime info = CalcConsensusTime info high) as E by done. rewrite E.
  pose proof (frame_ratio_pos last now high low) as Hr.
  pose proof (frame_ratio_spread last now high low Hl64 Hnow Hhigh Hlow) as Hs.
  set (r := frame_ratio last now high low) in *.
  assert (forall l, low <= l <= high -> CalcConsensusTime info l = last + r * (l - low + 1) /\
            last < last + r * (l - low + 1) <= last + r * (high - low + 1)) as Hc.
  { intros l Hl. unfold info. rewrite frameTimes_calc. fold r. split; [|nia].
    apply u64_id. assert (Z.max now (last + (high - low + 1)) < 2 ^ 64) by (word_unfold; lia).
    word_unfold. nia. }
  destruct (Hc high ltac:(lia)) as [Eh Bh]. rewrite Eh. split; [done|]. split; [lia|]. split.
  - intros l Hl. destruct (Hc l Hl) as [-> ?]. lia.
  - intros l1 l2 H1 H2. destruct (Hc l1 ltac:(lia)) as [-> _], (Hc l2 ltac:(lia)) as [-> _]. nia.
Qed.

Theorem consensus_time_advances_witness :
  let info := frameTimes 1000 1900 8 5 in
  info = mkFrameInfo 100 225 1900 /\
  LastConsensusTime info = CalcConsensusTime info 8 /\ LastConsensusTime info <= Z.max 1900 (1000 + (8 - 5 + 1)) /\
  (forall l, 5 <= l <= 8 -> 1000 < CalcConsensusTime info l <= LastConsensusTime info) /\
  (forall l1 l2, 5 <= l1 -> l1 < l2 <= 8 -> CalcConsensusTime info l1 < CalcConsensusTime info l2).
Proof. split; [reflexivity|]. apply (consensus_time_advances 1000 1900 8 5); word_unfold; lia. Defined.

(** ** An example *)

Definition ord_event (i lamport : Z) (parents : list Z) : EventHeaderData :=
  mkHeader 0 1 1 1 true i ZeroHash (replicate 32 <$> parents) [0; 0] 0 lamport 0 0 ZeroHash []
    (Some (replicate 32 i)).
Definition ord_events : list EventHeaderData := [ord_event 3 2 [1]; ord_event 2 1 []; ord_event 1 1 []].
Definition ord_hash : EventHeaderData -> hash := Hash (fun _ => []) (fun _ => []).
Definition ord_get (h : hash) : option EventHeaderData :=
  assoc_get ((fun e => (ord_hash e, e)) <$> ord_events) h.

Lemma ord_get_in h e : ord_get h = Some e -> e ∈ ord_events.
Proof. unfold ord_get. simpl. repeat case_decide; intros ?; simplify_eq; set_solver. Qed.

Lemma ord_parents e q : e ∈ ord_events -> q ∈ Parents e -> e = ord_event 3 2 [1] /\ q = replicate 32 1.
Proof.
  unfold ord_events. rewrite !elem_of_cons, elem_of_nil. intros [->|[->|[->|[]]]];
    [|by intros ?%elem_of_nil..]. by intros ->%list_elem_of_singleton.
Qed.

Lemma ord_perm : [ord_event 1 1 []; ord_event 2 1 []; ord_event 3 2 [1]] ≡ₚ ord_events.
Proof. unfold ord_events. solve_Permutation. Qed.

Theorem block_order_causal_witness :
  ord_hash <$> [ord_event 1 1 []; ord_event 2 1 []; ord_event 3 2 [1]] = fareOrdering ord_hash ord_events /\
  forall i j x y, fareOrdering ord_hash ord_events !! i = Some x -> fareOrdering ord_hash ord_events !! j = Some y ->
    observes ord_get y x -> x <> y -> (i < j)%nat.
Proof.
  apply (block_order_causal ord_hash ord_get ord_events [ord_event 1 1 []; ord_event 2 1 []; ord_event 3 2 [1]]).
  - unfold ord_events. rewrite <-Forall_forall. repeat constructor.
  - intros h e q eq He%ord_get_in Hq Eq. apply ord_parents in Hq as [-> ->]; [|done].
    vm_compute in Eq. injection Eq as <-. reflexivity.
  - intros h e He%ord_get_in q Hq. apply ord_parents in Hq as [_ ->]; [|done]. by eexists.
  - apply ord_perm.
  - intros [|[|[|i]]] a b; simpl; intros; simplify_eq; reflexivity.
Defined.
