(* ===== verification/PosetConfirm.v ===== *)
(** * Confirming the events of a block

    [confirmEvents] walks from the Atropos over the events that are not
    confirmed yet.  Every event is expanded at most once, so the walk ends;
    since what is below a confirmed event is confirmed, it confirms exactly
    the unconfirmed events that the Atropos observes, each once. *)

From S2P Require Import Prelude Bytes Kvdb Pos Event Vector VecStore VecIndex Dag VecInv VecWalk EventCheck Election PosetStore Poset.

(** ** The walk as a function of the graph *)

Section walk.
Context (get : hash -> option EventHeaderData) (event_Hash : EventHeaderData -> hash).

(** The events of the walk that were not done, in the order of the walk. *)
Fixpoint newly (n : nat) (stack : list hash) (dn : gset hash) : list EventHeaderData :=
  match n with
  | O => []
  | S n =>
      match EventsStack_Pop stack with
      | None => []
      | Some (h, stack) =>
          match get h with
          | None => []
          | Some e => if decide (h ∈ dn) then newly n stack dn
                      else e :: newly n (EventsStack_PushAll stack (Parents e)) ({[h]} ∪ dn)
          end
      end
  end.

(** A set of events that is closed under parents and stored under the hash. *)
Definition stored_closed (hs : list hash) : Prop :=
  forall h : hash, h ∈ hs -> exists e, get h = Some e /\ event_Hash e = h /\ forall q, q ∈ Parents e -> q ∈ hs.

Context (hs : list hash) (Hhs : stored_closed hs).

(** The rounds that are left: what is on the stack, and the parents of the
    events that may still be expanded. *)
Definition rounds (stack : list hash) (dn : gset hash) : nat :=
  length stack + weight (fun x => if decide (x ∈ dn) then 0%nat else npar get x) hs.

Lemma rounds_visit (h : hash) (stack : list hash) (dn : gset hash) e :
  h ∈ hs -> h ∉ dn -> get h = Some e ->
  (rounds (EventsStack_PushAll stack (Parents e)) ({[h]} ∪ dn) <= rounds stack dn)%nat.
Proof.
  intros Hh Hd He. unfold rounds, EventsStack_PushAll. rewrite length_app.
  assert (weight (fun x => if decide (x ∈ {[h]} ∪ dn) then 0%nat else npar get x) hs + length (Parents e) <=
          weight (fun x => if decide (x ∈ dn) then 0%nat else npar get x) hs)%nat; [|lia].
  apply (weight_drop _ _ _ h); [done| |].
  - intros x _. destruct (decide (x ∈ dn)); [rewrite decide_True by set_solver; lia|].
    case_decide; lia.
  - rewrite decide_True by set_solver. rewrite decide_False by done. unfold npar. by rewrite He.
Qed.

(** What the walk from [stack] finds. *)
Record found (stack : list hash) (dn : gset hash) (l : list EventHeaderData) : Prop := {
  fd_nodup : NoDup (event_Hash <$> l);
  fd_new (e : EventHeaderData) : e ∈ l -> (event_Hash e ∉ dn) /\ (event_Hash e ∈ hs) /\ get (event_Hash e) = Some e;
  fd_stack (h : hash) : h ∈ stack -> h ∈ dn \/ h ∈ (event_Hash <$> l);
  fd_closed e (q : hash) : e ∈ l -> q ∈ Parents e -> q ∈ dn \/ q ∈ (event_Hash <$> l);
  fd_from e : e ∈ l -> exists h, h ∈ stack /\ observes get h (event_Hash e)
}.

Lemma found_skip (stack : list hash) (h : hash) (dn : gset hash) l :
  h ∈ dn -> found stack dn l -> found (stack ++ [h]) dn l.
Proof.
  intros Hh [H1 H2 H3 H4 H5]. split; try done.
  - intros x [Hx|Hx]%elem_of_app; [auto|]. apply list_elem_of_singleton in Hx as ->. auto.
  - intros e He. destruct (H5 e He) as (x & ? & ?). exists x. set_solver.
Qed.

Lemma found_visit (stack : list hash) (h : hash) (dn : gset hash) e l :
  h ∈ hs -> h ∉ dn -> get h = Some e -> event_Hash e = h ->
  found (stack ++ Parents e) ({[h]} ∪ dn) l -> found (stack ++ [h]) dn (e :: l).
Proof.
  intros Hh Hd He Eh [H1 H2 H3 H4 H5]. split; csimpl; rewrite ?Eh.
  - constructor; [|done]. intros (e' & E' & He')%list_elem_of_fmap. destruct (H2 e' He') as [Hn _]. set_solver.
  - intros e' [->|He']%elem_of_cons; [by rewrite Eh|]. destruct (H2 e' He') as (? & ? & ?). set_solver.
  - intros x Hx. assert (x ∈ stack \/ x = h) as [Hs| ->] by set_solver; [|set_solver].
    destruct (H3 x ltac:(set_solver)); set_solver.
  - intros e' q [->|He']%elem_of_cons Hq.
    + destruct (H3 q ltac:(set_solver)); set_solver.
    + destruct (H4 e' q He' Hq); set_solver.
  - intros e' [->|He']%elem_of_cons.
    + exists h. rewrite Eh. split; [set_solver|apply observes_refl].
    + destruct (H5 e' He') as (x & Hx & Ho). apply elem_of_app in Hx as [Hx|Hx].
      * exists x. set_solver.
      * exists h. split; [set_solver|]. eapply rtc_l; [|exact Ho]. by exists e.
Qed.

Lemma newly_found n : forall (stack : list hash) (dn : gset hash),
  (forall h : hash, h ∈ stack -> h ∈ hs) -> (rounds stack dn < n)%nat -> found stack dn (newly n stack dn).
Proof.
  induction n as [|n IH]; intros stack dn Hs Hn; [lia|]. cbn [newly].
  destruct (EventsStack_Pop stack) as [[h rest]|] eqn:Ep.
  - apply Pop_app_inv in Ep as ->. destruct (Hhs h ltac:(set_solver)) as (e & He & Eh & Hpar). rewrite He.
    assert (rounds (rest ++ [h]) dn = S (rounds rest dn)) as Er
      by (unfold rounds; rewrite length_app; simpl; lia).
    case_decide as Hd.
    + apply found_skip; [done|]. apply IH; [set_solver|lia].
    + pose proof (rounds_visit h rest dn e ltac:(set_solver) Hd He).
      eapply found_visit; try done; [set_solver|]. apply IH; [|lia].
      intros x [?|?]%elem_of_app; [set_solver|by apply Hpar].
  - apply Pop_None_inv in Ep as ->. split; simpl; [apply NoDup_nil_2|..]; intros ? Hin; try by apply elem_of_nil in Hin.
    intros ?%elem_of_nil. done.
Qed.

(** From one event, with a set that is closed under observation. *)
Lemma newly_exact (n : nat) (h : hash) (dn : gset hash) :
  h ∈ hs -> (rounds [h] dn < n)%nat ->
  (forall x y, x ∈ dn -> observes get x y -> y ∈ dn) ->
  let l := newly n [h] dn in
  NoDup (event_Hash <$> l) /\
  (forall e, e ∈ l -> get (event_Hash e) = Some e) /\
  forall x, x ∈ event_Hash <$> l <-> observes get h x /\ x ∉ dn.
Proof.
  intros Hh Hn Hcl l. destruct (newly_found n [h] dn ltac:(set_solver) Hn) as [H1 H2 H3 H4 H5]. fold l in H1, H2, H3, H4, H5.
  split; [done|]. split; [by intros e He; apply H2|]. intros x. split.
  - intros (e & -> & He)%list_elem_of_fmap. destruct (H5 e He) as (h' & ->%list_elem_of_singleton & Ho).
    split; [done|]. by apply H2.
  - intros [Ho Hx].
    assert (forall y, observes get h y -> y ∉ dn -> y ∈ event_Hash <$> l) as Hall; [|by apply Hall].
    clear x Ho Hx. apply (rtc_ind_r (fun y => y ∉ dn -> y ∈ event_Hash <$> l) h).
    + intros Hd. by destruct (H3 h ltac:(set_solver)).
    + intros y z Ho (ey & Ey & Hz) IH Hd. assert (y ∉ dn) as Hy. { intros Hy. apply Hd. apply (Hcl y z Hy). apply rtc_once. by exists ey. }
      destruct (list_elem_of_fmap_1 _ _ _ (IH Hy)) as (e & -> & He). destruct (H2 e He) as (_ & _ & Ee).
      rewrite Ey in Ee. injection Ee as ->. by destruct (H4 e z He Hz).
Qed.

End walk.

(** ** The marks in the store *)

Definition confirmed_set (m : gmap hash Z) : gset hash := dom (filter (fun kv => kv.2 <> 0) m).

Lemma elem_of_confirmed_set (m : gmap hash Z) (h : hash) : h ∈ confirmed_set m <-> default 0 (m !! h) <> 0.
Proof.
  unfold confirmed_set. rewrite elem_of_dom. split.
  - intros [z Hz]. apply map_lookup_filter_Some in Hz as [-> Hz]. done.
  - intros Hz. destruct (m !! h) as [z|] eqn:E; [|done]. exists z. by apply map_lookup_filter_Some.
Qed.

Lemma confirmed_set_insert (m : gmap hash Z) (h : hash) (f : Z) :
  f <> 0 -> confirmed_set (<[h := f]> m) = {[h]} ∪ confirmed_set m.
Proof.
  intros Hf. apply set_eq. intros x. rewrite elem_of_union, elem_of_singleton, !elem_of_confirmed_set.
  rewrite lookup_insert. case_decide as E; simpl; [|naive_solver]. subst. naive_solver.
Qed.

Definition mark_confirmed (frame : Z) (l : list hash) (m : gmap hash Z) : gmap hash Z :=
  foldl (fun m h => <[h := frame]> m) m l.

Lemma lookup_mark_confirmed (frame : Z) (l : list hash) (m : gmap hash Z) (h : hash) :
  mark_confirmed frame l m !! h = if decide (h ∈ l) then Some frame else m !! h.
Proof.
  unfold mark_confirmed. revert m. induction l as [|x l IH]; intros m; simpl; [done|].
  rewrite IH, lookup_insert. repeat case_decide; set_solver.
Qed.

Lemma elem_of_mark_confirmed (frame : Z) (l : list hash) (m : gmap hash Z) (h : hash) :
  frame <> 0 -> h ∈ confirmed_set (mark_confirmed frame l m) <-> h ∈ l \/ h ∈ confirmed_set m.
Proof.
  intros Hf. rewrite !elem_of_confirmed_set, lookup_mark_confirmed. case_decide; simpl; naive_solver.
Qed.

Lemma go_bind_assoc {A B C} (m : go A) (k : A -> go B) (k' : B -> go C) :
  ((m ≫= k) ≫= k') = (m ≫= fun a => k a ≫= k').
Proof. by destruct m. Qed.

Section confirm.
Context {T E W : Type} `{HP : PosetStoreLaws T E}.
Context (get : hash -> option EventHeaderData) (event_Hash : EventHeaderData -> hash).
Context (hs : list hash) (Hhs : stored_closed get event_Hash hs).
Context (frame : Z) (Hframe : 0 < frame < 2 ^ 32) (on : W -> EventHeaderData -> go W).

Lemma confirmEvent_eq (t : T) (w : W) e :
  confirmEvent event_Hash frame on (t, w) e =
    (ps_GetEventConfirmedOn t (event_Hash e) ≫= fun decidedFrame =>
     if negb (decidedFrame =? 0) then Ret (false, (t, w))
     else ps_SetEventConfirmedOn t (event_Hash e) frame ≫= fun t =>
          on w e ≫= fun w => Ret (true, (t, w))).
Proof. done. Qed.

Lemma walk_confirms (n : nat) : forall (stack : list hash) (t : T) (d : PosetData),
  ps_rep t d -> (forall h : hash, h ∈ stack -> h ∈ hs) ->
  (rounds get hs stack (confirmed_set (pd_confirmed d)) < n)%nat ->
  let l := newly get n stack (confirmed_set (pd_confirmed d)) in
  exists t', ps_rep t' (data_confirmed d (mark_confirmed frame (event_Hash <$> l) (pd_confirmed d))) /\
    forall w, walkSubgraph get (confirmEvent event_Hash frame on) n stack (t, w) =
              (go_fold on w l ≫= fun w' => Ret (t', w')).
Proof.
  induction n as [|n IH]; intros stack t d Hrep Hs Hn; [lia|]. cbn [newly walkSubgraph].
  destruct (EventsStack_Pop stack) as [[h rest]|] eqn:Ep; [|exists t; by destruct d].
  apply Pop_app_inv in Ep as ->. destruct (Hhs h ltac:(set_solver)) as (e & He & Eh & Hpar). rewrite He.
  assert (rounds get hs (rest ++ [h]) (confirmed_set (pd_confirmed d)) =
          S (rounds get hs rest (confirmed_set (pd_confirmed d)))) as Er
    by (unfold rounds; rewrite length_app; simpl; lia).
  pose proof (plaw_GetEventConfirmedOn t d h Hrep) as Eg. pose proof (elem_of_confirmed_set (pd_confirmed d) h) as Hc.
  case_decide as Hd.
  - destruct (IH rest t d Hrep ltac:(set_solver) ltac:(lia)) as (t' & Ht' & Ew). exists t'. split; [done|].
    intros w. rewrite confirmEvent_eq, Eh, Eg, go_bind_Ret.
    apply Hc in Hd. rewrite (proj2 (Z.eqb_neq _ _) Hd). cbn [negb]. rewrite go_bind_Ret. apply Ew.
  - pose proof (rounds_visit get event_Hash hs Hhs h rest _ e ltac:(set_solver) Hd He) as Hv.
    destruct (plaw_SetEventConfirmedOn t d h frame Hrep) as (t1 & Es & Ht1); [word_unfold; lia|].
    rewrite <-(confirmed_set_insert (pd_confirmed d) h frame) in Hv |- * by lia.
    destruct (IH (EventsStack_PushAll rest (Parents e)) t1 _ Ht1) as (t' & Ht' & Ew).
    { intros x [?|?]%elem_of_app; [set_solver|by apply Hpar]. }
    { cbn [pd_confirmed data_confirmed]. lia. }
    exists t'. split; [by csimpl; rewrite Eh|].
    intros w. rewrite confirmEvent_eq, Eh, Eg, go_bind_Ret.
    assert (default 0 (pd_confirmed d !! h) = 0) as -> by (destruct (decide (default 0 (pd_confirmed d !! h) = 0)); naive_solver).
    cbn [Z.eqb negb]. rewrite Es, go_bind_Ret, go_bind_assoc. cbn [go_fold]. rewrite go_bind_assoc.
    destruct (on w e) as [w1|]; [|done]. rewrite !go_bind_Ret. cbn [negb]. apply Ew.
Qed.

(** The confirmed events are closed under observation. *)
Definition confirmed_closed (d : PosetData) : Prop :=
  forall x y : hash, default 0 (pd_confirmed d !! x) <> 0 -> observes get x y -> default 0 (pd_confirmed d !! y) <> 0.

Definition confirm_fuel : nat := S (S (weight (npar get) hs)).

Lemma rounds_fuel (h : hash) (dn : gset hash) : (rounds get hs [h] dn < confirm_fuel)%nat.
Proof.
  unfold rounds, confirm_fuel. simpl.
  assert (weight (fun x => if decide (x ∈ dn) then 0 else npar get x) hs <= weight (npar get) hs)%nat; [|lia].
  apply weight_le. intros x _. case_decide; lia.
Qed.

Lemma confirm_spec (n : nat) (t : T) (d : PosetData) (atropos : hash) :
  ps_rep t d -> atropos ∈ hs -> confirmed_closed d -> (confirm_fuel <= n)%nat ->
  let l := newly get n [atropos] (confirmed_set (pd_confirmed d)) in
  let d' := data_confirmed d (mark_confirmed frame (event_Hash <$> l) (pd_confirmed d)) in
  NoDup (event_Hash <$> l) /\ (forall e, e ∈ l -> get (event_Hash e) = Some e) /\
  (forall x : hash, x ∈ event_Hash <$> l <-> observes get atropos x /\ default 0 (pd_confirmed d !! x) = 0) /\
  confirmed_closed d' /\
  exists t', ps_rep t' d' /\
    forall w, walkSubgraph get (confirmEvent event_Hash frame on) n [atropos] (t, w) =
              (go_fold on w l ≫= fun w' => Ret (t', w')).
Proof.
  intros Hrep Ha Hcl Hn l d'. pose proof (rounds_fuel atropos (confirmed_set (pd_confirmed d))) as Hr.
  destruct (newly_exact get event_Hash hs Hhs n atropos (confirmed_set (pd_confirmed d)) Ha ltac:(lia)) as (H1 & H2 & H3).
  { intros x y. rewrite !elem_of_confirmed_set. apply Hcl. }
  fold l in H1, H2, H3.
  assert (forall x : hash, x ∈ event_Hash <$> l <-> observes get atropos x /\ default 0 (pd_confirmed d !! x) = 0) as Hl.
  { intros x. rewrite H3, elem_of_confirmed_set. split; intros [? Hx]; (split; [done|]); [|lia].
    destruct (decide (default 0 (pd_confirmed d !! x) = 0)); [done|]. by destruct Hx. }
  split; [done|]. split; [done|]. split; [done|]. split.
  - intros x y. rewrite <-!elem_of_confirmed_set. unfold d'. cbn [pd_confirmed data_confirmed].
    rewrite !elem_of_mark_confirmed by lia. rewrite !elem_of_confirmed_set, !Hl. intros [[Hx _]|Hx] Ho.
    + destruct (decide (default 0 (pd_confirmed d !! y) = 0)); [|by right].
      left. split; [by eapply observes_trans|done].
    + right. by eapply Hcl.
  - apply walk_confirms; [done|set_solver|lia].
Qed.
End confirm.

(** C32: [confirmEvents] comes to an end and confirms exactly the events that
    the Atropos observes and that were not confirmed: these get the frame as
    their mark, all other marks stay, the callback runs once for each of them
    and for nothing else, and the confirmed events are again closed under
    observation. *)
Theorem confirm_events_exact {T E VT F A W : Type} `{HP : PosetStoreLaws T E} `{VecStore VT} `{Lru (hash * hash) bool F}
    (input : Z -> hash -> option EventHeaderData) (event_Hash : EventHeaderData -> hash) (fuel : nat)
    (p : Poset T VT F A) (d : PosetData) (hs : list hash) (frame : Z) (atropos : hash) (on : W -> EventHeaderData -> go W) (w : W) :
  let get := getEvent input p in
  ps_rep (p_store p) d -> stored_closed get event_Hash hs -> atropos ∈ hs -> confirmed_closed get d ->
  0 < frame < 2 ^ 32 -> (confirm_fuel get hs <= fuel)%nat ->
  exists l t' d', confirmEvents input event_Hash fuel p frame atropos on w = (go_fold on w l ≫= fun w' => Ret (t', w')) /\
    NoDup (event_Hash <$> l) /\ (forall e, e ∈ l -> get (event_Hash e) = Some e) /\
    (forall x : hash, x ∈ event_Hash <$> l <-> observes get atropos x /\ default 0 (pd_confirmed d !! x) = 0) /\
    ps_rep t' d' /\ d' = data_confirmed d (pd_confirmed d') /\ confirmed_closed get d' /\
    forall x : hash, pd_confirmed d' !! x = if decide (x ∈ event_Hash <$> l) then Some frame else pd_confirmed d !! x.
Proof.
  intros get Hrep Hhs Ha Hcl Hframe Hfuel.
  destruct (confirm_spec get event_Hash hs Hhs frame Hframe on fuel (p_store p) d atropos Hrep Ha Hcl Hfuel)
    as (L1 & L2 & L3 & L4 & t' & L5 & L6).
  eexists _, t', _. split; [apply L6|]. split_and!; try done.
  intros x. by rewrite <-lookup_mark_confirmed.
Qed.
