(* ===== verification/PosetRoots.v ===== *)
(** * Frames and roots of the graph

    The rule by which [calcFrameIdx] accepts the frame of an event, as a
    property of the graph, and what follows from it: frames grow along the
    events of a creator, and of the roots of one validator in one frame only
    one can be a forkless cause while less than a third of the stake is
    Byzantine.  This is what the election relies on ([roots_ok]). *)

From S2P Require Import Prelude Bytes Kvdb KvdbLaws Pos Event Vector VecStore VecIndex Dag VecInv VecMerge VecWalk VecAdd ForklessCause VecSpec VecExample Election ElectionSafety.

Section roots.
Context (vv : Validators) (Hvv : validators_ok vv) (getEvent : hash -> option EventHeaderData).
Abbreviation observes := (observes getEvent).
Abbreviation cr := (cr vv getEvent).
Abbreviation sq := (sq getEvent).
Abbreviation forkless_cause := (forkless_cause vv getEvent).

Definition fr (h : hash) : Z := match getEvent h with Some e => Frame e | None => 0 end.
Definition rt (h : hash) : bool := match getEvent h with Some e => IsRoot e | None => false end.

(** The frame of the self-parent, zero without one. *)
Definition sp_frame (e : EventHeaderData) : Z :=
  match SelfParent e with Some q => fr q | None => 0 end.

(** The validators of whose roots in frame [f] one is a forkless cause of [h]. *)
Definition causing_roots (h : hash) (f : Z) (Q : gset Z) : Prop :=
  forall c, c ∈ Q -> exists r, forkless_cause h r /\ observes h r /\ rt r = true /\ fr r = f /\ cr r = c.

(** The rule for event [h]: a root is one frame above its self-parent and is
    caused by the roots of a quorum; another event stays in the frame. *)
Definition frame_ok (h : hash) (e : EventHeaderData) : Prop :=
  if IsRoot e
  then Frame e = sp_frame e + 1 /\ (1 < Frame e -> exists Q, is_quorum vv Q /\ causing_roots h (Frame e - 1) Q)
  else Frame e = sp_frame e.

Definition frames_ok (hs : list hash) : Prop := forall (h : hash) e, h ∈ hs -> getEvent h = Some e -> frame_ok h e.

Context (hs : list hash) (Hd : dag vv getEvent hs) (Hfr : frames_ok hs).

(** ** The chain of self-parents *)

Lemma self_parent_spec (h : hash) e :
  h ∈ hs -> getEvent h = Some e -> 1 < Seq e ->
  exists q eq, SelfParent e = Some q /\ q ∈ hs /\ getEvent q = Some eq /\ q ∈ Parents e /\
    Creator eq = Creator e /\ Seq e = Seq eq + 1.
Proof.
  intros Hh He Hs. destruct (dag_event_ok _ _ _ _ _ Hd Hh He) as [Hp _ _ _ Hself].
  destruct (Hself Hs) as (q & eq & Hhead & Hq & Hc & Hseq).
  assert (q ∈ Parents e) as Hin by (destruct (Parents e); [done|]; injection Hhead as ->; set_solver).
  exists q, eq. split; [|by auto]. unfold SelfParent. rewrite (proj2 (Z.leb_gt _ _)) by lia.
  rewrite bool_decide_eq_false_2 by (intros E; by rewrite E in Hhead). done.
Qed.

Lemma no_self_parent (h : hash) e : h ∈ hs -> getEvent h = Some e -> Seq e <= 1 -> SelfParent e = None.
Proof. intros _ _ Hs. unfold SelfParent. by rewrite (proj2 (Z.leb_le _ _) Hs). Qed.

(** The event of the chain of [x] with a lower sequence number. *)
Lemma self_ancestor (n : nat) : forall (x : hash), x ∈ hs -> forall m, 1 <= m -> Z.of_nat n = sq x - m ->
  exists y, y ∈ hs /\ observes x y /\ cr y = cr x /\ sq y = m /\ fr y <= fr x /\
    ((0 < n)%nat -> rt x = true -> fr y < fr x).
Proof.
  induction n as [|n IH]; intros x Hx m Hm Hn.
  { exists x. split_and!; [done|apply observes_refl|done|lia|lia|lia]. }
  destruct (dag_event _ _ _ _ Hd Hx) as (_ & e & _ & _ & _ & He & _).
  assert (sq x = Seq e) as Es by (unfold Dag.sq; by rewrite He).
  destruct (self_parent_spec x e Hx He ltac:(lia)) as (q & eq & Hsp & Hq & Eq & Hin & Hc & Hseq).
  assert (sq q = Seq eq) as Eqs by (unfold Dag.sq; by rewrite Eq).
  destruct (IH q Hq m Hm ltac:(lia)) as (y & Hy & Ho & Cy & Sy & Fy & _). exists y.
  assert (sp_frame e = fr q) as Esp by (unfold sp_frame; by rewrite Hsp).
  pose proof (Hfr x e Hx He) as Hok. unfold frame_ok in Hok. rewrite Esp in Hok.
  assert (fr x = Frame e) as Ex by (unfold fr; by rewrite He).
  split_and!; [done| | |done| |].
  - eapply rtc_l; [|exact Ho]. by exists e.
  - rewrite Cy. unfold Dag.cr. rewrite Eq, He. by rewrite Hc.
  - destruct (IsRoot e); lia.
  - intros _ Hr. unfold rt in Hr. rewrite He in Hr. rewrite Hr in Hok. lia.
Qed.

Lemma frame_range (h : hash) : h ∈ hs -> 0 <= fr h <= sq h.
Proof.
  revert h. induction Hd as [|hs' h' e' Hd' IH Hn He' Hok]; [by intros h ?%elem_of_nil|].
  intros h Hh. assert (frames_ok hs') as Hfr' by (intros x ex Hx; apply Hfr; set_solver).
  destruct (decide (h ∈ hs')) as [Hin|Hnin]; [by apply IH|].
  assert (h = h') as -> by (apply elem_of_app in Hh as [?|?%list_elem_of_singleton]; done).
  pose proof (Hfr h' e' Hh He') as Hf. destruct Hok as [Hp _ Hs _ Hself].
  assert (0 <= sp_frame e' <= Seq e' - 1) as Hsp.
  { unfold sp_frame, SelfParent. destruct (Z.leb_spec (Seq e') 1); [simpl; lia|].
    destruct (Hself ltac:(lia)) as (q & eq & Hhead & Hq & Hc & Hseq). simpl.
    rewrite bool_decide_eq_false_2 by (intros E; by rewrite E in Hhead). rewrite Hhead.
    assert (0 <= fr q <= sq q) as Hr.
    { apply IH; [done..|]. apply Hp. destruct (Parents e'); [done|]. injection Hhead as ->. set_solver. }
    unfold Dag.sq in Hr. rewrite Hq in Hr. lia. }
  unfold fr, Dag.sq. rewrite He'. unfold frame_ok in Hf. destruct (IsRoot e'); lia.
Qed.

(** ** One root per slot *)

Lemma forkless_cause_chain a b b' :
  forkless_cause a b -> observes b b' -> cr b' = cr b -> forkless_cause a b'.
Proof.
  intros (Hn & Q & HQ & Hsub & H) Ho Hc. split; [by rewrite Hc|]. exists Q. split; [done|]. split; [done|].
  intros c Hcq. destruct (H c Hcq) as (Hs & x & Hx & Ex & Hxb). split; [done|]. exists x.
  split_and!; [done..|]. by eapply observes_trans.
Qed.

Context (B : gset Z) (HB : byzantine vv getEvent hs B) (HBsub : B ⊆ all_idx vv)
  (Hstake : 3 * stake_of vv B < Validators_TotalStake vv).

Lemma one_root_per_slot a1 a2 (x y : hash) :
  a1 ∈ hs -> a2 ∈ hs -> x ∈ hs -> y ∈ hs -> rt x = true -> rt y = true -> fr x = fr y -> cr x = cr y ->
  forkless_cause a1 x -> forkless_cause a2 y -> x = y.
Proof.
  assert (forall a1 a2 (x y : hash), a1 ∈ hs -> a2 ∈ hs -> x ∈ hs -> y ∈ hs -> rt x = true -> rt y = true ->
            fr x = fr y -> cr x = cr y -> forkless_cause a1 x -> forkless_cause a2 y -> sq x <= sq y -> x = y) as Hwlog.
  { intros b1 b2 u v H1 H2 Hu Hv Ru Rv Hf Hc C1 C2 Hle.
    pose proof (dag_cr vv getEvent hs u Hvv Hd Hu) as [_ Hsu].
    destruct (self_ancestor (Z.to_nat (sq v - sq u)) v Hv (sq u) ltac:(lia) ltac:(lia))
      as (w & Hw & Ho & Cw & Sw & Fw & Lw).
    destruct (decide (w = u)) as [->|Hne].
    - destruct (decide (sq u < sq v)) as [Hlt|Hge]; [specialize (Lw ltac:(lia) Rv); lia|].
      destruct (decide (u = v)) as [|Huv]; [done|]. exfalso.
      apply (forks_not_both vv Hvv getEvent hs B b1 b2 u v (cr u)); try done. split_and!; [done..|lia].
    - exfalso. apply (forks_not_both vv Hvv getEvent hs B b1 b2 u w (cr u)); try done.
      + split_and!; [done|done|congruence|done].
      + by apply (forkless_cause_chain b2 v w). }
  intros H1 H2 Hx Hy Rx Ry Hf Hc C1 C2. destruct (decide (sq x <= sq y)).
  - by apply (Hwlog a1 a2).
  - symmetry. apply (Hwlog a2 a1); try done. lia.
Qed.

(** ** The roots as the election sees them *)

Definition root_at (h : hash) : option RootAndSlot :=
  e ← getEvent h; if IsRoot e then Some (mkRoot h (mkSlot (Frame e) (Creator e))) else None.

Definition roots_of : list RootAndSlot := omap root_at hs.

Definition is_root (r : RootAndSlot) : Prop := r ∈ roots_of.

Definition Obs (x : hash) : list RootAndSlot :=
  filter (fun r => slot_Frame (root_Slot r) + 1 = fr x /\ forkless_causeb vv getEvent hs x (root_ID r) = true) roots_of.

Lemma root_at_spec (h : hash) r :
  root_at h = Some r <-> exists e, getEvent h = Some e /\ IsRoot e = true /\ r = mkRoot h (mkSlot (Frame e) (Creator e)).
Proof.
  unfold root_at. destruct (getEvent h) as [e|]; simpl; [|split; [done|by intros (? & ? & _)]].
  destruct (IsRoot e) eqn:E; (split; [|intros (e' & [= <-] & E' & ->); by rewrite E in E']); [|done].
  intros [= <-]. eauto.
Qed.

Lemma is_root_spec r :
  is_root r <-> root_ID r ∈ hs /\ exists e, getEvent (root_ID r) = Some e /\ IsRoot e = true /\
                  root_Slot r = mkSlot (Frame e) (Creator e).
Proof.
  unfold is_root, roots_of. rewrite list_elem_of_omap. setoid_rewrite root_at_spec. split.
  - intros (h & Hh & e & He & Hr & ->). simpl. eauto.
  - intros (Hh & e & He & Hr & Es). exists (root_ID r). split; [done|]. exists e. destruct r. simpl in *. by subst.
Qed.

Lemma roots_of_nodup : NoDup roots_of.
Proof.
  unfold roots_of. apply (NoDup_fmap_1 root_ID).
  assert (forall l, root_ID <$> omap root_at l `sublist_of` l) as Hs.
  { induction l as [|h l IH]; [done|]. simpl. destruct (root_at h) as [r|] eqn:E.
    - apply root_at_spec in E as (e & _ & _ & ->). csimpl. by apply sublist_skip.
    - by apply sublist_cons. }
  eapply sublist_NoDup; [apply (dag_nodup _ _ _ Hd)|apply Hs].
Qed.

Lemma elem_of_Obs (x : hash) r :
  x ∈ hs -> r ∈ Obs x <-> is_root r /\ slot_Frame (root_Slot r) + 1 = fr x /\ forkless_cause x (root_ID r).
Proof.
  intros Hx. unfold Obs. rewrite list_elem_of_filter, (forkless_causeb_spec vv getEvent hs Hd Hvv) by done.
  unfold is_root. naive_solver.
Qed.

Lemma root_data r : is_root r ->
  root_ID r ∈ hs /\ rt (root_ID r) = true /\ fr (root_ID r) = slot_Frame (root_Slot r) /\
  cr (root_ID r) = Validators_GetIdx vv (slot_Validator (root_Slot r)) /\
  slot_Validator (root_Slot r) ∈ Validators_SortedIDs vv.
Proof.
  intros (Hh & e & He & Hr & Es)%is_root_spec. unfold rt, fr, Dag.cr. rewrite He, Es. simpl.
  split_and!; try done. by apply (ek_creator _ _ _ _ (dag_event_ok _ _ _ _ _ Hd Hh He)).
Qed.

Lemma root_of (h : hash) : h ∈ hs -> rt h = true -> exists r, is_root r /\ root_ID r = h.
Proof.
  intros Hh Hr. unfold rt in Hr. destruct (getEvent h) as [e|] eqn:He; [|done].
  exists (mkRoot h (mkSlot (Frame e) (Creator e))). split; [|done]. apply is_root_spec. simpl. eauto.
Qed.

Lemma graph_roots_ok F : 0 <= F -> roots_ok vv is_root Obs F.
Proof.
  intros HF. split.
  - intros x y Hx Hy E. apply is_root_spec in Hx as (_ & e & He & _ & Sx), Hy as (_ & e' & He' & _ & Sy).
    rewrite E, He' in He. injection He as ->. destruct x, y. simpl in *. by subst.
  - intros x Hx. destruct (root_data x Hx) as (Hh & _ & Ef & _). unfold frame. rewrite <-Ef.
    pose proof (frame_range _ Hh). pose proof (dag_cr vv getEvent hs _ Hvv Hd Hh) as [_ ?]. word_unfold. lia.
  - intros x r Hx Hr. destruct (root_data x Hx) as (Hh & _ & Ef & _).
    apply elem_of_Obs in Hr as (Hr & Hf & _); [|done]. destruct (root_data r Hr) as (_ & _ & _ & _ & Hv).
    split_and!; [done| |done]. unfold frame. by rewrite Hf, Ef.
  - intros x _. apply NoDup_filter, roots_of_nodup.
  - intros x y r s Hx Hy Hr Hs E. destruct (root_data x Hx) as (Hxh & _), (root_data y Hy) as (Hyh & _).
    apply elem_of_Obs in Hr as (Hr & _ & Cr), Hs as (Hs & _ & Cs); [|done..].
    destruct (root_data r Hr) as (Rh & Rr & Rf & Rc & _), (root_data s Hs) as (Sh & Sr & Sf & Sc & _).
    assert (root_ID r = root_ID s) as Ei.
    { apply (one_root_per_slot (root_ID x) (root_ID y)); try done; congruence. }
    destruct r, s. simpl in *. by subst.
  - intros x Hx Hf. destruct (root_data x Hx) as (Hh & Hr & Ef & _). unfold frame in Hf.
    apply is_root_spec in Hx as (_ & e & He & Hroot & Es). pose proof (Hfr _ _ Hh He) as Hok.
    unfold frame_ok in Hok. rewrite Hroot in Hok. rewrite Es in Hf. simpl in Hf.
    destruct Hok as [_ Hq]. destruct (Hq ltac:(lia)) as (Q & HQ & Hc).
    assert (Q ⊆ creators vv (Obs (root_ID x))) as Hsub; [|pose proof (stake_of_mono vv Hvv _ _ Hsub); unfold is_quorum in *; lia].
    intros c Hcq. destruct (Hc c Hcq) as (r & Cr & Or & Rr & Fr & Ec).
    assert (r ∈ hs) as Hrh by (eapply dag_closed; eauto).
    destruct (root_of r Hrh Rr) as (rr & Hrr & Eid). destruct (root_data rr Hrr) as (_ & _ & Ff & Fc & _).
    apply elem_of_creators. exists rr. split.
    + apply elem_of_Obs; [done|]. rewrite Eid in *. split; [done|]. split; [|done].
      unfold fr at 1. rewrite He. lia.
    + unfold vidx, val. rewrite <-Fc, Eid. done.
Qed.

End roots.
