(* ===== verification/PosetNode.v ===== *)
(** * Events at a node: frames, roots, and the checks of [ProcessEvent]

    What a node knows of the graph within an epoch ([agree]: the index holds
    the connected events, the store the plain data), and what the operations
    of poset.go answer in terms of the graph: [calcFrameIdx] accepts exactly
    the frames of the rule [frame_ok], and [checkAndSaveEvent] connects an
    event or leaves the node as it was. *)

From S2P Require Import Prelude Bytes Kvdb KvdbLaws Pos Event Vector VecStore VecIndex Dag VecInv VecMerge VecWalk VecAdd ForklessCause VecSpec VecExample MedianTime VecMerged EventCheck Election ElectionSafety PosetStore Poset PosetRoots.

(** The fields that questions to the index and the store do not change. *)
Record same {T VT F A} (p p' : Poset T VT F A) : Prop := {
  sm_checkpoint : p_Checkpoint p' = p_Checkpoint p;
  sm_epoch : p_EpochState p' = p_EpochState p;
  sm_election : p_election p' = p_election p;
  sm_app : p_app p' = p_app p
}.

#[export] Instance same_refl {T VT F A} : Reflexive (@same T VT F A).
Proof. by intros p; split. Qed.
#[export] Instance same_trans {T VT F A} : Transitive (@same T VT F A).
Proof. intros p q r [] []. split; congruence. Qed.

Section node.
Context {T EDB VT F A : Type} `{HP : PosetStoreLaws T EDB} `{HV : VecStoreLaws VT} `{HL : LruLaws (hash * hash) bool F}.
Context (input : Z -> hash -> option EventHeaderData) (event_Hash : EventHeaderData -> hash).
(** The epoch and its validators. *)
Context (n : Z) (V : Validators) (Hvv : validators_ok V) (Hcopy : Validators_Copy V = V).
Abbreviation G := (input n).
Implicit Types p : Poset T VT F A.

(** The connected and the flushed events, and the data of the store. *)
Record agree (st : list hash * list hash) (d : PosetData) p : Prop := {
  ag_epoch : p_EpochN p = n;
  ag_vals : p_Validators p = V;
  ag_rep : ps_rep (p_store p) d;
  ag_vec : simulates V G (p_vecClock p) st
}.

Lemma agree_with_vec st st' d p (vi : Index VT F) :
  agree st d p -> simulates V G vi st' -> agree st' d (with_vec p vi).
Proof. intros [] ?. by split. Qed.
Lemma agree_with_store st d d' p (t : T) : agree st d p -> ps_rep t d' -> agree st d' (with_store p t).
Proof. intros [] ?. by split. Qed.
Lemma agree_dag st d p : agree st d p -> dag V G st.1.
Proof.
  intros [_ _ _ (dv & f & Hix & _)]. destruct (ix_inv _ _ _ _ _ _ Hix) as (bi & Hinv & _).
  rewrite <-Hcopy. apply (vi_dag _ _ _ _ _ Hinv).
Qed.
Lemma agree_get st d p : agree st d p -> getEvent input p = G.
Proof. intros [<- _ _ _]. done. Qed.

(** ** Questions *)

Lemma ask_ForklessCause st d p (a b : hash) :
  agree st d p -> a ∈ st.1 -> b ∈ st.1 ->
  exists r p', ask_vec p (ForklessCause (p_vecClock p) a b) = Ret (r, p') /\ agree st d p' /\ same p p' /\
    p_store p' = p_store p /\ (r = true <-> forkless_cause V G a b).
Proof.
  intros Hag Ha Hb. pose proof (ag_vec _ _ _ Hag) as (dv & f & Hix & Hf & Hc). rewrite Hcopy in Hix, Hf, Hc.
  destruct (ForklessCause_spec V Hvv G (p_vecClock p) st.1 dv f a b Hix Hc Ha Hb) as (r & vi & E & Hix' & Hc' & Hr).
  unfold ask_vec. rewrite E, go_bind_Ret. eexists r, _. split; [done|]. split; [|by split].
  eapply agree_with_vec; [done|]. exists dv, f. by rewrite Hcopy.
Qed.

Lemma ask_roots st d p f :
  agree st d p -> is_u32 f ->
  exists l p', get_roots p f = Ret (l, p') /\ agree st d p' /\ same p p' /\ frame_roots d f l.
Proof.
  intros Hag Hf. destruct (plaw_GetFrameRoots (p_store p) d f (ag_rep _ _ _ Hag) Hf) as (l & t & E & Ht & Hl).
  unfold get_roots. rewrite E, go_bind_Ret. eexists l, _. split; [done|].
  split; [by eapply agree_with_store|]. by split.
Qed.

(** The roots of the store are those of the connected events. *)
Definition roots_known (hs : list hash) (d : PosetData) : Prop :=
  forall r, root_key r ∈ pd_roots d <-> is_root G hs r.

(** The counting loop: its answer is whether the causing roots are a quorum. *)
Lemma countObserved_spec st d (id : hash) roots : forall p counter X,
  agree st d p -> id ∈ st.1 -> counter_ok V counter X ->
  (forall r, r ∈ roots -> root_ID r ∈ st.1 /\ slot_Validator (root_Slot r) ∈ Validators_SortedIDs V) ->
  exists b p', countObserved p id roots counter = Ret (b, p') /\ agree st d p' /\ same p p' /\
    (b = true <-> is_quorum V (X ∪ creators V (filter (fun r => forkless_causeb V G st.1 id (root_ID r) = true) roots))).
Proof.
  induction roots as [|r roots IH]; intros p counter X Hag Hid Hcnt Hroots.
  { exists (StakeCounter_HasQuorum counter), p. split; [done|]. split; [done|]. split; [done|].
    rewrite (HasQuorum_ok V _ _ Hcnt), bool_decide_eq_true. cbn. by rewrite union_empty_r_L. }
  destruct (Hroots r ltac:(set_solver)) as [Hr Hv]. cbn [countObserved].
  destruct (ask_ForklessCause st d p id (root_ID r) Hag Hid Hr) as (c & p1 & E1 & Hag1 & Hs1 & _ & Hc).
  rewrite E1, go_bind_Ret. rewrite <-(forkless_causeb_spec V G st.1 (agree_dag _ _ _ Hag) Hvv id (root_ID r) Hid) in Hc.
  assert (exists counter' X', counter_ok V counter' X' /\
    (if c then '(_, c0) ← StakeCounter_Count counter (slot_Validator (root_Slot r)); Ret c0 else Ret counter) = Ret counter' /\
    X' ∪ creators V (filter (fun r => forkless_causeb V G st.1 id (root_ID r) = true) roots) =
    X ∪ creators V (filter (fun r => forkless_causeb V G st.1 id (root_ID r) = true) (r :: roots)))
    as (counter' & X' & Hcnt' & Ecnt & EX).
  { rewrite filter_cons. destruct c.
    - destruct (Count_ok V Hvv counter X _ Hcnt Hv) as (s' & Es & Hs'). exists s'. eexists. split; [done|].
      rewrite Es. split; [done|]. rewrite decide_True by (by apply Hc). unfold creators at 2. csimpl.
      fold (creators V (filter (fun r => forkless_causeb V G st.1 id (root_ID r) = true) roots)).
      unfold vidx, val. set_solver.
    - exists counter, X. split; [done|]. split; [done|]. rewrite decide_False; [done|].
      intros Ht. apply Hc in Ht. done. }
  rewrite Ecnt, go_bind_Ret.
  rewrite (HasQuorum_ok V _ _ Hcnt'). case_bool_decide as HQ.
  - exists true, p1. split; [done|]. split; [done|]. split; [done|]. split; [intros _|done]. rewrite <-EX.
    assert (X' ⊆ X' ∪ creators V (filter (fun r => forkless_causeb V G st.1 id (root_ID r) = true) roots)) as Hsub by set_solver.
    pose proof (stake_of_mono V Hvv _ _ Hsub). unfold is_quorum in *. lia.
  - destruct (IH p1 counter' X' Hag1 Hid Hcnt' ltac:(set_solver)) as (b & p2 & E2 & Hag2 & Hs2 & Hb).
    exists b, p2. split; [done|]. split; [done|]. split; [by etrans|]. by rewrite Hb, EX.
Qed.

Lemma root_connected hs r : dag V G hs -> is_root G hs r ->
  root_ID r ∈ hs /\ slot_Validator (root_Slot r) ∈ Validators_SortedIDs V.
Proof. intros Hd Hr. destruct (root_data V G hs Hd r Hr) as (? & _ & _ & _ & ?). done. Qed.

(** ** The frame of an event *)

Lemma forkless_cause_observes (a b : hash) : forkless_cause V G a b -> observes G a b.
Proof.
  intros (_ & Q & HQ & _ & Hall). destruct (set_choose_or_empty Q) as [[c Hc]|He].
  - destruct (Hall c Hc) as (_ & x & Hax & _ & Hxb). by eapply observes_trans.
  - exfalso. apply (quorum_nonempty V Hvv Q HQ). by apply leibniz_equiv.
Qed.

(** The state in which [h] is connected and the roots are those before it. *)
Record adding (hs : list hash) (h : hash) (e : EventHeaderData) (d : PosetData) : Prop := {
  ad_get : G h = Some e;
  ad_hash : event_Hash e = h;
  ad_roots : roots_known hs d;
  ad_frames : frames_ok V G hs;
  ad_new : h ∉ hs
}.

Lemma quorumOn_spec hs saved (h : hash) e e0 d p f :
  agree (hs ++ [h], saved) d p -> adding hs h e d -> event_Hash e0 = h -> is_u32 f -> (IsRoot e = true -> f <> Frame e) ->
  exists b p', forklessCausedByQuorumOn event_Hash p e0 f = Ret (b, p') /\ agree (hs ++ [h], saved) d p' /\ same p p' /\
    (b = true <-> exists Q, is_quorum V Q /\ causing_roots V G h f Q).
Proof.
  intros Hag Had Eh Hf Hne. pose proof (agree_dag _ _ _ Hag) as Hd. cbn [fst] in Hd.
  destruct (ask_roots _ d p f Hag Hf) as (l & p1 & E1 & Hag1 & Hs1 & Hnd & Hl).
  assert (forall r, r ∈ l <-> slot_Frame (root_Slot r) = f /\ is_root G hs r) as Hl'.
  { intros r. by rewrite Hl, (ad_roots _ _ _ _ Had r). }
  assert (forall r, is_root G hs r -> is_root G (hs ++ [h]) r) as Hmono.
  { intros r (Hh & e1 & ? & ? & ?)%is_root_spec. apply is_root_spec. split; [set_solver|eauto]. }
  destruct (countObserved_spec (hs ++ [h], saved) d h l p1 (newStakeCounter V) ∅ Hag1) as (b & p2 & E2 & Hag2 & Hs2 & Hb).
  - cbn [fst]. set_solver.
  - by apply newStakeCounter_ok.
  - intros r [_ Hr]%Hl'. cbn [fst]. apply root_connected; [done|by apply Hmono].
  - unfold forklessCausedByQuorumOn. rewrite E1, go_bind_Ret, Eh, (ag_vals _ _ _ Hag1), E2.
    exists b, p2. split; [done|]. split; [done|]. split; [by etrans|]. rewrite Hb. cbn [fst].
    rewrite union_empty_l_L. set (C := creators V _).
    assert (forall c, c ∈ C <-> exists r, r ∈ l /\ forkless_cause V G h (root_ID r) /\ vidx V r = c) as HC.
    { intros c. unfold C. rewrite elem_of_creators. setoid_rewrite list_elem_of_filter.
      assert (h ∈ hs ++ [h]) as Hin by set_solver.
      setoid_rewrite (fun r => forkless_causeb_spec V G (hs ++ [h]) Hd Hvv h (root_ID r) Hin). naive_solver. }
    split.
    + intros HQ. exists C. split; [done|]. intros c (r & Hr & Hfc & <-)%HC. apply Hl' in Hr as [Hfr Hr].
      destruct (root_data V G (hs ++ [h]) Hd r (Hmono r Hr)) as (_ & Hrt & Ef & Ec & _).
      exists (root_ID r). split_and!; [done|by apply forkless_cause_observes|done|congruence|done].
    + intros (Q & HQ & Hc). assert (Q ⊆ C) as Hsub.
      { intros c Hcq. destruct (Hc c Hcq) as (r & Hfc & Ho & Hrt & Hfr & Ec). apply HC.
        assert (r ∈ hs) as Hrh.
        { assert (r ∈ hs ++ [h]) as Hin by (apply (dag_closed V G (hs ++ [h]) h r Hd); [set_solver|done]).
          apply elem_of_app in Hin as [?| ->%list_elem_of_singleton]; [done|].
          exfalso. unfold fr in Hfr. unfold rt in Hrt. rewrite (ad_get _ _ _ _ Had) in Hfr, Hrt. by apply Hne. }
        destruct (root_of G hs r Hrh Hrt) as (rr & Hrr & <-).
        destruct (root_data V G (hs ++ [h]) Hd rr (Hmono rr Hrr)) as (_ & _ & Ef & Ecr & _).
        exists rr. split; [apply Hl'; split; [congruence|done]|]. split; [done|]. unfold vidx, val. congruence. }
      pose proof (stake_of_mono V Hvv _ _ Hsub). unfold is_quorum in *. lia.
Qed.

Lemma parentFrames_spec p (e : EventHeaderData) :
  getEvent input p = G -> (forall q, q ∈ Parents e -> is_Some (G q)) ->
  exists m, go_fold (parentFrame input p e) (0, 0) (Parents e) = Ret (m, sp_frame G e).
Proof.
  intros Hget Hpar.
  destruct (go_fold_inv (parentFrame input p e)
              (fun dn acc => acc.2 = match SelfParent e with
                                     | Some q => if decide (q ∈ dn) then fr G q else 0
                                     | None => 0 end)
              (Parents e) (0, 0)) as ([m s] & Ef & Hs).
  - cbn [snd]. destruct (SelfParent e); [|done]. rewrite decide_False; [done|]. apply not_elem_of_nil.
  - intros dn q rest [m s] El Hs. cbn [snd] in Hs. destruct (Hpar q) as [eq Eq]; [rewrite El; set_solver|].
    unfold parentFrame. rewrite Hget, Eq. eexists. split; [done|]. cbn [snd]. unfold IsSelfParent.
    destruct (SelfParent e) as [q'|]; [|by rewrite Hs]. case_bool_decide as Ec.
    + subst q'. rewrite decide_True by set_solver. unfold fr. by rewrite Eq.
    + rewrite Hs. repeat case_decide; set_solver.
  - exists m. rewrite Ef. cbn [snd] in Hs. subst s. unfold sp_frame. do 2 f_equal.
    destruct (SelfParent e) as [q|] eqn:Esp; [|done]. rewrite decide_True; [done|].
    unfold SelfParent in Esp. destruct (_ || _); [done|]. destruct (Parents e); [done|]. injection Esp as ->. set_solver.
Qed.

(** The rule, with the case of an event without parents. *)
Definition frame_rule (h : hash) (e : EventHeaderData) : Prop :=
  frame_ok V G h e /\ (Parents e = [] -> IsRoot e = true).

Lemma sp_frame_range (hs : list hash) e :
  dag V G hs -> frames_ok V G hs -> event_ok V G hs e -> 0 <= sp_frame G e < MaxInt32.
Proof.
  intros Hd Hfr Hok. unfold sp_frame. destruct (SelfParent e) as [q|] eqn:Esp; [|word_unfold; lia].
  assert (q ∈ hs) as Hq.
  { apply (ek_parents _ _ _ _ Hok). unfold SelfParent in Esp. destruct (_ || _); [done|].
    destruct (Parents e); [done|]. injection Esp as ->. set_solver. }
  pose proof (frame_range V Hvv G hs Hd Hfr q Hq). destruct (dag_cr V G hs q Hvv Hd Hq) as [_ ?]. lia.
Qed.

Lemma calcFrameIdx_check hs saved (h : hash) e d p :
  agree (hs ++ [h], saved) d p -> adding hs h e d -> dag V G hs -> event_ok V G hs e -> is_u32 (Frame e) ->
  exists fi ir p', calcFrameIdx input event_Hash p e true = Ret ((fi, ir), p') /\
    agree (hs ++ [h], saved) d p' /\ same p p' /\ (IsRoot e = ir /\ Frame e = fi <-> frame_rule h e).
Proof.
  intros Hag Had Hd Hok Hu. unfold calcFrameIdx, frame_rule, frame_ok. case_bool_decide as Hpar.
  { exists 1, true, p. split; [done|]. split; [done|]. split; [done|].
    assert (sp_frame G e = 0) as ->.
    { unfold sp_frame, SelfParent. rewrite Hpar. by rewrite orb_true_r. }
    destruct (IsRoot e); [split; [intros [_ ->]; split; [split; [done|lia]|done]|intros [[-> _] _]; done]|].
    split; [by intros [? _]|]. intros [_ Hr]. by specialize (Hr Hpar). }
  destruct (parentFrames_spec p e (agree_get _ _ _ Hag)) as (m & Em).
  { intros q Hq. destruct (dag_event V G hs q Hd (ek_parents _ _ _ _ Hok q Hq)) as (_ & eq & _ & _ & _ & Eq & _). by exists eq. }
  rewrite Em, go_bind_Ret. pose proof (sp_frame_range hs e Hd (ad_frames _ _ _ _ Had) Hok) as Hsp.
  rewrite (u32_id (sp_frame G e + 1)) by (word_unfold; lia).
  destruct (IsRoot e) eqn:Er; cbn [negb].
  2:{ exists (sp_frame G e), false, p. split; [done|]. split; [done|]. split; [done|]. naive_solver. }
  destruct (Z.eqb_spec (Frame e) (sp_frame G e + 1)) as [Ef|Ef]; cbn [negb].
  2:{ exists (sp_frame G e + 1), false, p. split; [done|]. split; [done|]. split; [done|]. naive_solver. }
  destruct (Z.leb_spec (Frame e) 1) as [Hle|Hgt].
  { exists (sp_frame G e + 1), true, p. split; [done|]. split; [done|]. split; [done|].
    split; [intros _; split; [split; [done|lia]|done]|naive_solver]. }
  rewrite (u32_id (Frame e - 1)) by (word_unfold; lia).
  destruct (quorumOn_spec hs saved h e e d p (Frame e - 1) Hag Had (ad_hash _ _ _ _ Had)) as (b & p' & Eb & Hag' & Hs & Hb);
    [word_unfold; lia|lia|].
  rewrite Eb, go_bind_Ret. exists (sp_frame G e + 1), b, p'. split; [done|]. split; [done|]. split; [done|].
  split.
  - intros [<- _]. split; [|done]. split; [done|]. intros _. by apply Hb.
  - intros [[_ Hq] _]. split; [symmetry; by apply Hb, Hq|done].
Qed.

(** ** Connecting an event *)

Context (keccak_rlp_genesis : GenesisState -> bytes) (fuel : nat).

(** What is known of an event before it is processed: the event checks. *)
Record candidate (hs : list hash) (h : hash) (e : EventHeaderData) : Prop := {
  ca_get : G h = Some e;
  ca_hash : event_Hash e = h;
  ca_length : length h = 32%nat;
  ca_new : h ∉ hs;
  ca_ok : event_ok V G hs e;
  ca_frame : is_u32 (Frame e);
  ca_creator : is_u32 (Creator e);
  ca_bound : 8 * (zlen (Validators_SortedIDs V) + zlen hs + 1) < 2 ^ 32;
  ca_fuel : (walk_fuel G hs e <= fuel)%nat
}.

Lemma drop_spec st d p : agree st d p ->
  exists p', drop_not_flushed p = Ret p' /\ agree (st.2, st.2) d p' /\ same p p' /\ p_store p' = p_store p.
Proof.
  intros Hag. rewrite <-Hcopy in Hvv.
  destruct (exec_simulates V G event_Hash fuel Hvv (p_vecClock p) st OpDropNotFlushed (ag_vec _ _ _ Hag) I) as (r & vi & Ex & Hs & _).
  cbn [exec] in Ex. unfold drop_not_flushed. destruct (DropNotFlushed (p_vecClock p)) as [vi'|] eqn:Ed; [|done].
  cbn in Ex. injection Ex as _ <-. eexists. split; [reflexivity|]. split; [by eapply agree_with_vec|by split].
Qed.

Lemma nocheaters_spec hs d p (h : hash) e :
  agree (hs, hs) d p -> candidate hs h e ->
  exists l p', ask_vec p (NoCheaters (getEvent input p) (p_vecClock p) (SelfParent e) (Parents e)) = Ret (l, p') /\
    agree (hs, hs) d p' /\ same p p' /\ p_store p' = p_store p.
Proof.
  intros Hag Hc. rewrite (agree_get _ _ _ Hag). unfold ask_vec.
  destruct (SelfParent e) as [sp|] eqn:Esp.
  2:{ eexists _, _. split; [done|]. split; [|by split]. eapply agree_with_vec; [done|apply Hag]. }
  assert (sp ∈ hs) as Hsp.
  { apply (ek_parents _ _ _ _ (ca_ok _ _ _ Hc)). unfold SelfParent in Esp. destruct (_ || _); [done|].
    destruct (Parents e); [done|]. injection Esp as ->. set_solver. }
  pose proof Hvv as Hvv'. rewrite <-Hcopy in Hvv'.
  destruct (NoCheaters_spec V G Hvv' (p_vecClock p) (hs, hs) sp (Parents e) (ag_vec _ _ _ Hag) Hsp) as (l & vi & El & Hs & _).
  { intros q Hq%(ek_parents _ _ _ _ (ca_ok _ _ _ Hc)). pose proof (agree_dag _ _ _ Hag) as Hd.
    destruct (dag_event V G hs q Hd Hq) as (pre & eq & _ & _ & _ & Eq & Hokq). exists eq. split; [done|].
    rewrite Hcopy. apply (ek_creator _ _ _ _ Hokq). }
  rewrite El, go_bind_Ret. eexists _, _. split; [done|]. split; [by eapply agree_with_vec|by split].
Qed.

Lemma add_spec hs d p (h : hash) e :
  agree (hs, hs) d p -> candidate hs h e ->
  exists vi, Add (getEvent input p) event_Hash fuel (p_vecClock p) e = Ret vi /\ agree (hs ++ [h], hs) d (with_vec p vi).
Proof.
  intros Hag Hc. rewrite (agree_get _ _ _ Hag). pose proof Hvv as Hvv'. rewrite <-Hcopy in Hvv'.
  destruct (exec_simulates V G event_Hash fuel Hvv' (p_vecClock p) (hs, hs) (OpAdd h) (ag_vec _ _ _ Hag)) as (r & vi & Ex & Hs & _).
  { exists e. rewrite Hcopy. destruct Hc. cbn [fst]. split_and!; done. }
  cbn [exec] in Ex. rewrite (ca_get _ _ _ Hc) in Ex. destruct (Add _ _ _ _ _) as [vi'|] eqn:Ea; [|done].
  cbn in Ex. injection Ex as _ <-. exists vi'. split; [done|]. eapply agree_with_vec; [done|].
  cbn [abs_op fst snd] in Hs. rewrite decide_False in Hs by apply (ca_new _ _ _ Hc). done.
Qed.

(** The data of the store with the new event. *)
Definition data_with (d : PosetData) (h : hash) (e : EventHeaderData) : PosetData :=
  if IsRoot e then data_roots d ({[(Frame e, Creator e, h)]} ∪ pd_roots d) else d.

Lemma roots_known_with hs d (h : hash) e :
  G h = Some e -> roots_known hs d -> roots_known (hs ++ [h]) (data_with d h e).
Proof.
  intros He Hk r. unfold data_with.
  assert (is_root G (hs ++ [h]) r <-> is_root G hs r \/ IsRoot e = true /\ r = mkRoot h (mkSlot (Frame e) (Creator e))) as ->.
  { rewrite !is_root_spec, elem_of_app, list_elem_of_singleton. split.
    - intros [[Hh|Eh] Hex]; [by left|]. destruct Hex as (e' & He' & Hr & Es). rewrite Eh, He in He'. injection He' as <-.
      right. split; [done|]. destruct r. simpl in *. by subst.
    - intros [[Hh Hex]|[Hr ->]]; [by eauto|]. simpl. split; [by right|]. eauto. }
  rewrite <-(Hk r). destruct (IsRoot e); cbn [data_roots pd_roots].
  - rewrite elem_of_union, elem_of_singleton. unfold root_key. destruct r as [id [f v]]. simpl. naive_solver.
  - naive_solver.
Qed.

Lemma save_root hs saved d p (h : hash) e :
  agree (hs ++ [h], saved) d p -> candidate hs h e -> roots_known hs d ->
  exists p', (if IsRoot e
              then t ← ps_AddRoot (p_store p) (mkRoot (event_Hash e) (mkSlot (Frame e) (Creator e))); Ret (with_store p t)
              else Ret p) = Ret p' /\ agree (hs ++ [h], saved) (data_with d h e) p' /\ same p p'.
Proof.
  intros Hag Hc Hk. unfold data_with. rewrite (ca_hash _ _ _ Hc). destruct (IsRoot e) eqn:Er; [|by exists p].
  destruct (plaw_AddRoot (p_store p) d (mkRoot h (mkSlot (Frame e) (Creator e))) (ag_rep _ _ _ Hag)) as (t & Et & Ht).
  - split; apply Hc.
  - rewrite (Hk _). intros [Hin _]%is_root_spec. by apply (ca_new _ _ _ Hc).
  - rewrite Et, go_bind_Ret. eexists. split; [done|]. split; [by eapply agree_with_store|by split].
Qed.

(** The part between [Add] and the deferred drop. *)
Lemma checkAdded_spec hs d p (h : hash) e :
  agree (hs ++ [h], hs) d p -> candidate hs h e -> dag V G hs -> roots_known hs d -> frames_ok V G hs ->
  exists err p', checkAdded input event_Hash p e = Ret (err, p') /\ same p p' /\
    match err with
    | None => frame_rule h e /\ agree (hs ++ [h], hs ++ [h]) (data_with d h e) p'
    | Some _ => agree (hs ++ [h], hs) d p'
    end.
Proof.
  intros Hag Hc Hd Hk Hfr. unfold checkAdded.
  assert (adding hs h e d) as Had by (destruct Hc; by split).
  destruct (calcFrameIdx_check hs hs h e d p Hag Had Hd (ca_ok _ _ _ Hc) (ca_frame _ _ _ Hc))
    as (fi & ir & p1 & E1 & Hag1 & Hs1 & Hrule).
  rewrite E1, go_bind_Ret. destruct (Bool.eqb (IsRoot e) ir) eqn:Er; cbn [negb]; [|by eexists _, p1].
  destruct (Z.eqb_spec (Frame e) fi) as [Ef|Ef]; cbn [negb]; [|by eexists _, p1].
  apply Bool.eqb_prop in Er. pose proof (ag_vec _ _ _ Hag1) as (dv & f & Hix & Hf & Hcc). cbn [fst] in Hix. rewrite Hcopy in Hix.
  destruct (MedianTime_spec V Hvv G (p_vecClock p1) (hs ++ [h]) dv f h (gs_Time (PrevEpoch (p_EpochState p1))) Hix)
    as (m & l & vi & Em & Hix2 & Ec & _); [set_solver|].
  unfold ask_vec. rewrite (ca_hash _ _ _ Hc), Em, !go_bind_Ret. cbn [p_vecClock with_vec].
  assert (agree (hs ++ [h], hs) d (with_vec p1 vi)) as Hag2.
  { eapply agree_with_vec; [done|]. exists dv, f. cbn [fst snd]. rewrite Hcopy in *. rewrite Ec. done. }
  destruct (Event.MedianTime e =? m); cbn [negb]; [|eexists _, (with_vec p1 vi); split; [done|]; split; [etrans; [exact Hs1|by split]|done]].
  pose proof Hvv as Hvv'. rewrite <-Hcopy in Hvv'.
  destruct (exec_simulates V G event_Hash fuel Hvv' vi (hs ++ [h], hs) OpFlush (ag_vec _ _ _ Hag2) I) as (r & vi2 & Ex & Hs2 & _).
  cbn [exec] in Ex. destruct (Flush vi) as [vi'|] eqn:Efl; [|done]. cbn in Ex. injection Ex as _ <-. rewrite go_bind_Ret.
  assert (agree (hs ++ [h], hs ++ [h]) d (with_vec (with_vec p1 vi) vi')) as Hag3 by (by eapply agree_with_vec).
  destruct (save_root hs (hs ++ [h]) d _ h e Hag3 Hc Hk) as (p4 & E4 & Hag4 & Hs4).
  rewrite (ca_hash _ _ _ Hc) in E4. rewrite E4, go_bind_Ret. eexists _, p4. split; [done|].
  split; [etrans; [exact Hs1|etrans; [|exact Hs4]; by split]|]. split; [|done]. by apply Hrule.
Qed.

Lemma checkAndSaveEvent_spec hs d p (h : hash) e :
  agree (hs, hs) d p -> candidate hs h e -> roots_known hs d -> frames_ok V G hs ->
  exists err p', checkAndSaveEvent input event_Hash keccak_rlp_genesis fuel p e = Ret (err, p') /\ same p p' /\
    match err with
    | None => frame_rule h e /\ agree (hs ++ [h], hs ++ [h]) (data_with d h e) p'
    | Some _ => agree (hs, hs) d p'
    end.
Proof.
  intros Hag Hc Hk Hfr. pose proof (agree_dag _ _ _ Hag) as Hd. unfold checkAndSaveEvent.
  destruct (_ && _); [by eexists _, p|]. destruct (_ && _); [by eexists _, p|].
  destruct (nocheaters_spec hs d p h e Hag Hc) as (l & p1 & E1 & Hag1 & Hs1 & _). rewrite E1, go_bind_Ret.
  destruct (zlen l =? zlen (Parents e)); cbn [negb]; [|by eexists _, p1].
  destruct (add_spec hs d p1 h e Hag1 Hc) as (vi & Ea & Hag2).
  rewrite Ea, go_bind_Ret.
  destruct (checkAdded_spec hs d _ h e Hag2 Hc Hd Hk Hfr) as (err & p3 & E3 & Hs3 & Herr). rewrite E3, go_bind_Ret.
  assert (same p p3) as Hs by (etrans; [exact Hs1|etrans; [|exact Hs3]; by split]).
  destruct err as [err|].
  - destruct (drop_spec _ _ _ Herr) as (p4 & E4 & Hag4 & Hs4 & _). rewrite E4, go_bind_Ret.
    eexists _, p4. split; [done|]. split; [by etrans|done].
  - destruct Herr as [Hrule Hag3]. destruct (drop_spec _ _ _ Hag3) as (p4 & E4 & Hag4 & Hs4 & _). rewrite E4, go_bind_Ret.
    eexists _, p4. split; [done|]. split; [by etrans|done].
Qed.


(** ** Preparing an event *)

Lemma median_spec st d p (h : hash) : agree st d p -> h ∈ st.1 ->
  exists m p', ask_vec p (VecIndex.MedianTime (p_vecClock p) h (gs_Time (PrevEpoch (p_EpochState p)))) = Ret (m, p') /\
    agree st d p' /\ same p p' /\
    exists l, Forall2 (contributes V G h (gs_Time (PrevEpoch (p_EpochState p)))) (seqZ 0 (zlen (Validators_SortedIDs V))) l /\ is_median l m.
Proof.
  intros Hag Hh. pose proof (ag_vec _ _ _ Hag) as (dv & f & Hix & Hf & Hcc). rewrite Hcopy in Hix, Hf, Hcc.
  destruct (MedianTime_spec V Hvv G (p_vecClock p) st.1 dv f h (gs_Time (PrevEpoch (p_EpochState p))) Hix Hh)
    as (m & l & vi & Em & Hix2 & Ec & Hl & Hm).
  unfold ask_vec. rewrite Em, go_bind_Ret. eexists m, _. split; [done|]. split; [|split; [by split|by exists l]].
  eapply agree_with_vec; [done|]. exists dv, f. by rewrite Hcopy, Ec.
Qed.

(** The frame that [Prepare] claims is one that the check accepts, and it is
    a root whenever it can be. *)
Lemma calcFrameIdx_prepare hs saved (h : hash) e d p :
  agree (hs ++ [h], saved) d p -> adding hs h e d -> dag V G hs -> event_ok V G hs e -> IsRoot e = false ->
  exists fi ir p', calcFrameIdx input event_Hash p e false = Ret ((fi, ir), p') /\
    agree (hs ++ [h], saved) d p' /\ same p p' /\
    (forall e', IsRoot e' = ir -> Frame e' = fi -> Parents e' = Parents e -> SelfParent e' = SelfParent e -> frame_rule h e') /\
    ((exists Q, is_quorum V Q /\ causing_roots V G h (sp_frame G e) Q) -> ir = true).
Proof.
  intros Hag Had Hd Hok Hr. unfold calcFrameIdx, frame_rule, frame_ok.
  assert (forall e', SelfParent e' = SelfParent e -> sp_frame G e' = sp_frame G e) as Hsp'
    by (intros e' E; unfold sp_frame; by rewrite E).
  case_bool_decide as Hpar.
  { exists 1, true, p. split; [done|]. split; [done|]. split; [done|]. split; [|done].
    assert (sp_frame G e = 0) as E0. { unfold sp_frame, SelfParent. rewrite Hpar. by rewrite orb_true_r. }
    intros e' -> -> _ Es. rewrite (Hsp' e' Es), E0. split; [split; [done|lia]|done]. }
  destruct (parentFrames_spec p e (agree_get _ _ _ Hag)) as (m & Em).
  { intros q Hq. destruct (dag_event V G hs q Hd (ek_parents _ _ _ _ Hok q Hq)) as (_ & eq & _ & _ & _ & Eq & _). by exists eq. }
  rewrite Em, go_bind_Ret. pose proof (sp_frame_range hs e Hd (ad_frames _ _ _ _ Had) Hok) as Hsp.
  destruct (SelfParent e) as [q|] eqn:Eself.
  2:{ exists 1, true, p. split; [done|]. split; [done|]. split; [done|]. split; [|done].
      assert (sp_frame G e = 0) as E0 by (unfold sp_frame; by rewrite Eself).
      intros e' -> -> _ Es. rewrite (Hsp' e' Es), E0. split; [split; [done|lia]|done]. }
  destruct (quorumOn_spec hs saved h e e d p (sp_frame G e) Hag Had (ad_hash _ _ _ _ Had)) as (b & p' & Eb & Hag' & Hs & Hb);
    [word_unfold; lia|by rewrite Hr|].
  rewrite Eb, go_bind_Ret. destruct b.
  - rewrite u32_id by (word_unfold; lia). exists (sp_frame G e + 1), true, p'. split; [done|]. split; [done|]. split; [done|].
    split; [|done]. intros e' -> -> _ Es. rewrite (Hsp' e' Es). split; [|done]. split; [done|]. intros _.
    rewrite Z.add_simpl_r. by apply Hb.
  - exists (sp_frame G e), false, p'. split; [done|]. split; [done|]. split; [done|]. split.
    + intros e' -> -> Ep Es. rewrite (Hsp' e' Es). split; [done|]. by rewrite Ep.
    + intros HQ. by apply Hb in HQ.
Qed.

Lemma Prepare_spec hs d p (h : hash) e :
  agree (hs, hs) d p -> candidate hs h e -> roots_known hs d -> frames_ok V G hs -> IsRoot e = false ->
  epochcheck_Validate V n e = None ->
  exists e' p', Prepare input event_Hash keccak_rlp_genesis fuel p e = Ret (Some e', p') /\ agree (hs, hs) d p' /\ same p p' /\
    e' = set_consensus e (Frame e') (IsRoot e') (Event.MedianTime e') (PrevEpochHash e') /\
    frame_rule h e' /\ ((exists Q, is_quorum V Q /\ causing_roots V G h (sp_frame G e) Q) -> IsRoot e' = true) /\
    PrevEpochHash e' = (if Seq e <=? 1 then prevEpochHash keccak_rlp_genesis p else ZeroHash) /\
    exists l, Forall2 (contributes V G h (gs_Time (PrevEpoch (p_EpochState p)))) (seqZ 0 (zlen (Validators_SortedIDs V))) l /\
      is_median l (Event.MedianTime e').
Proof.
  intros Hag Hc Hk Hfr Hr Hv. pose proof (agree_dag _ _ _ Hag) as Hd. cbn [fst] in Hd. unfold Prepare.
  rewrite (ag_vals _ _ _ Hag), (ag_epoch _ _ _ Hag), Hv. cbv zeta.
  destruct (add_spec hs d p h e Hag Hc) as (vi & Ea & Hag1). rewrite Ea, go_bind_Ret.
  assert (adding hs h e d) as Had by (destruct Hc; by split).
  destruct (calcFrameIdx_prepare hs hs h e d _ Hag1 Had Hd (ca_ok _ _ _ Hc) Hr) as (fi & ir & p2 & E2 & Hag2 & Hs2 & Hrule & Hmax).
  rewrite E2, go_bind_Ret. destruct (median_spec _ d p2 h Hag2) as (m & p3 & E3 & Hag3 & Hs3 & Hm); [cbn; set_solver|].
  rewrite (ca_hash _ _ _ Hc), E3, go_bind_Ret. destruct (drop_spec _ d p3 Hag3) as (p4 & E4 & Hag4 & Hs4 & _).
  rewrite E4, go_bind_Ret.
  assert (p_EpochState p2 = p_EpochState p) as Ee2 by (by rewrite (sm_epoch _ _ Hs2)).
  assert (p_EpochState p3 = p_EpochState p) as Ee3 by (by rewrite (sm_epoch _ _ Hs3)).
  eexists _, p4. split; [done|]. split; [done|].
  split; [etrans; [|exact Hs4]; etrans; [|exact Hs3]; etrans; [|exact Hs2]; by split|].
  cbn [Frame IsRoot Event.MedianTime PrevEpochHash set_consensus]. split; [done|]. split; [by apply Hrule|]. split; [done|].
  split; [unfold prevEpochHash; by rewrite Ee3|]. by rewrite Ee2 in Hm.
Qed.
End node.
