(* ===== verification/PosetElect.v ===== *)
(** * Roots in the election of a node

    [processRoot] and [processKnownRoots]: a node feeds the election of the
    lowest undecided frame with the roots it knows, in an order in which what
    a root observes comes first.  The election of the node is always one of the
    states that elections over the graph can reach, so that it never fails and
    agrees with that of every other node. *)

From S2P Require Import Prelude Bytes Kvdb KvdbLaws Pos Event Vector VecStore VecIndex Dag VecInv VecMerge VecWalk VecAdd ForklessCause VecSpec VecExample MedianTime VecMerged EventCheck Election ElectionSafety ElectionYes PosetStore Poset PosetRoots PosetNode.

(** ** The world of the election grows with the graph *)

Section worlds.
Context (V : Validators) (Hvv : validators_ok V) (G : hash -> option EventHeaderData).

Lemma is_root_mono (hs hs' : list hash) r : hs ⊆ hs' -> is_root G hs r -> is_root G hs' r.
Proof. intros Hs (Hh & e & ? & ? & ?)%is_root_spec. apply is_root_spec. split; [by apply Hs|eauto]. Qed.

Lemma Obs_perm (hs hs' : list hash) (x : hash) :
  dag V G hs -> dag V G hs' -> hs ⊆ hs' -> x ∈ hs -> Obs V G hs x ≡ₚ Obs V G hs' x.
Proof.
  intros Hd Hd' Hs Hx. apply NoDup_Permutation.
  - apply NoDup_filter, (roots_of_nodup V G hs Hd).
  - apply NoDup_filter, (roots_of_nodup V G hs' Hd').
  - intros r. rewrite (elem_of_Obs V Hvv G hs Hd x r Hx), (elem_of_Obs V Hvv G hs' Hd' x r (Hs x Hx)).
    split; [intros (? & ? & ?); split_and!; [by eapply is_root_mono|done..]|].
    intros (Hr & Hf & Hc). split_and!; [|done..]. apply is_root_spec in Hr as [_ Hex]. apply is_root_spec.
    split; [|done]. eapply dag_closed; [exact Hd|exact Hx|]. by apply (forkless_cause_observes (fun _ => G) 0 V Hvv).
Qed.

Lemma reach_mono (hs hs' : list hash) F P el :
  dag V G hs -> dag V G hs' -> hs ⊆ hs' ->
  reach V (is_root G hs) (Obs V G hs) F P el -> reach V (is_root G hs') (Obs V G hs') F P el.
Proof.
  intros Hd Hd' Hs. induction 1 as [|P el observe frameRoots X res el' _ IH Hn [C1 C2 C3] Ep]; [constructor|].
  eapply reach_step; [exact IH|done| |exact Ep].
  assert (root_ID X ∈ hs) as HX by (by apply is_root_spec in C1 as [? _]).
  pose proof (Obs_perm hs hs' (root_ID X) Hd Hd' Hs HX) as Hp. split.
  - by eapply is_root_mono.
  - by rewrite C2.
  - intros HF r Hr. apply C3; [done|]. by rewrite Hp.
Qed.
End worlds.

Section elect.
Context {T EDB VT F A : Type} `{HP : PosetStoreLaws T EDB} `{HV : VecStoreLaws VT} `{HL : LruLaws (hash * hash) bool F}.
Context (input : Z -> hash -> option EventHeaderData) (event_Hash : EventHeaderData -> hash).
Context (n : Z) (V : Validators) (Hvv : validators_ok V) (Hcopy : Validators_Copy V = V).
Abbreviation G := (input n).
Abbreviation agree := (agree input n V).
Abbreviation roots_known := (roots_known input n).
Implicit Types p : Poset T VT F A.

Context (hs : list hash) (Hd : dag V G hs) (Hfr : frames_ok V G hs).
Context (B : gset Z) (HB : byzantine V G hs B) (HBsub : B ⊆ all_idx V) (Hstake : 3 * stake_of V B < Validators_TotalStake V).
Abbreviation reach := (reach V (is_root G hs) (Obs V G hs)).

Lemma validators_some (h : hash) : h ∈ hs -> 0 < zlen (Validators_SortedIDs V).
Proof. intros Hh. destruct (dag_cr V G hs h Hvv Hd Hh) as [Hc%elem_of_all_idx _]. lia. Qed.

Lemma world_ok Fd : 0 <= Fd -> roots_ok V (is_root G hs) (Obs V G hs) Fd.
Proof. by apply (graph_roots_ok V Hvv G hs Hd Hfr B). Qed.

Lemma world_first Fd x : 1 <= Fd -> is_root G hs x -> frame x = Fd + 1 -> is_quorum V (creators V (Obs V G hs (root_ID x))).
Proof. intros HF Hx Fx. apply (ro_quorum _ _ _ _ (world_ok (Fd - 1) ltac:(lia)) x Hx). lia. Qed.

(** ** One root *)

(** The answers that are collected before the vote. *)
Lemma observe_answers d (id : hash) roots p :
  agree (hs, hs) d p -> id ∈ hs -> (forall r, r ∈ roots -> root_ID r ∈ hs) ->
  exists answers p', go_fold (observeRoot id) ([], p) roots = Ret (answers, p') /\ agree (hs, hs) d p' /\ same p p' /\
    forall r, r ∈ roots -> default false (assoc_get answers (root_ID r)) = true <-> forkless_cause V G id (root_ID r).
Proof.
  intros Hag Hid Hroots.
  destruct (go_fold_inv (observeRoot id)
              (fun dn st => agree (hs, hs) d st.2 /\ same p st.2 /\
                 (forall x b, (x, b) ∈ st.1 -> b = true <-> forkless_cause V G id x) /\
                 (forall r, r ∈ dn -> is_Some (assoc_get st.1 (root_ID r)))) roots ([], p)) as ([answers p'] & Ef & I1 & I2 & I3 & I4).
  - cbn [fst snd]. split_and!; [done|done|by intros ?? ?%elem_of_nil|by intros ? ?%elem_of_nil].
  - intros dn r rest [answers q] El (I1 & I2 & I3 & I4). cbn [fst snd] in *.
    destruct (ask_ForklessCause input n V Hvv Hcopy (hs, hs) d q id (root_ID r) I1 Hid) as (c & q' & Eq & Hag' & Hs' & _ & Hc).
    { apply Hroots. rewrite El. set_solver. }
    unfold observeRoot. rewrite Eq, go_bind_Ret. eexists. split; [done|]. cbn [fst snd].
    split_and!; [done|by etrans| |].
    + intros x b [Hin|Hin]%elem_of_app; [by apply I3|]. apply list_elem_of_singleton in Hin as [= -> ->]. done.
    + intros r' Hr'. assert (forall l x, is_Some (assoc_get l x) -> is_Some (assoc_get (l ++ [(root_ID r, c)]) x)) as Happ.
      { induction l as [|[y b] l IH]; intros x; simpl; [by intros [? ?]|]. case_decide; [done|]. apply IH. }
      apply elem_of_app in Hr' as [Hr'|Hr']; [by apply Happ, I4|]. apply list_elem_of_singleton in Hr' as ->.
      clear. induction answers as [|[y b] l IH]; simpl; [by rewrite decide_True|]. by case_decide.
  - exists answers, p'. cbn [fst snd] in *. split; [done|]. split; [done|]. split; [done|]. intros r Hr.
    destruct (I4 r Hr) as [b Eb]. rewrite Eb. simpl. apply I3. revert Eb. clear.
    induction answers as [|[y c] l IH]; simpl; [done|]. case_decide; [subst; intros [= ->]; set_solver|].
    intros Hl%IH. set_solver.
Qed.

Lemma processRoot_spec d p P Fd X :
  agree (hs, hs) d p -> roots_known hs d -> 1 <= Fd -> reach Fd P (p_election p) -> chooseAtropos (p_election p) = inr None ->
  is_root G hs X -> (Fd + 1 < frame X -> forall r, r ∈ Obs V G hs (root_ID X) -> r ∈ P) ->
  exists dec p', processRoot p (slot_Frame (root_Slot X)) (slot_Validator (root_Slot X)) (root_ID X) = Ret (dec, p') /\
    agree (hs, hs) d p' /\ same (with_election p (p_election p')) p' /\ chooseAtropos (p_election p') = inr dec /\
    if decide (Fd < frame X) then reach Fd (X :: P) (p_election p') else p_election p' = p_election p.
Proof.
  intros Hag Hk HF Hreach Hun HX Hbefore. pose proof (world_ok Fd ltac:(lia)) as HW.
  pose proof (reach_ok V _ _ Fd Hvv HW ltac:(lia) _ _ Hreach) as Hel.
  destruct (root_data V G hs Hd X HX) as (Hxh & Hxr & Hxf & Hxc & Hxv). fold (frame X) in Hxf.
  unfold processRoot, gather, votes_now. rewrite Hun, (eo_frame _ _ _ _ _ _ Hel). fold (frame X).
  assert (mkRoot (root_ID X) (mkSlot (frame X) (slot_Validator (root_Slot X))) = X) as EX
    by (unfold frame; by destruct X as [? []]).
  case_decide as Hlt.
  - rewrite (proj2 (Z.ltb_lt _ _) Hlt). pose proof (ElectionSafety.ro_frame _ _ _ _ HW X HX) as Hfx.
    rewrite (u32_id (frame X - 1)) by (word_unfold; lia).
    destruct (ask_roots input n V (hs, hs) d p (frame X - 1) Hag) as (roots & p1 & E1 & Hag1 & Hs1 & Hnd & Hl);
      [word_unfold; lia|].
    rewrite E1, !go_bind_Ret.
    assert (forall r, r ∈ roots <-> frame r + 1 = frame X /\ is_root G hs r) as Hl'.
    { intros r. rewrite Hl, (Hk r). unfold frame. naive_solver lia. }
    destruct (observe_answers d (root_ID X) roots p1 Hag1 Hxh) as (answers & p2 & E2 & Hag2 & Hs2 & Ha).
    { intros r [_ Hr]%Hl'. by apply is_root_spec in Hr as [? _]. }
    rewrite E2, !go_bind_Ret, EX.
    set (observe := fun _ r : hash => default false (assoc_get answers r)).
    assert (call_ok (is_root G hs) (Obs V G hs) Fd observe (fun _ => roots) P X) as Hcall.
    { split; [done| |done]. unfold observedRoots. apply NoDup_Permutation.
      - by apply NoDup_filter.
      - apply NoDup_filter, (roots_of_nodup V G hs Hd).
      - intros r. rewrite list_elem_of_filter, (elem_of_Obs V Hvv G hs Hd (root_ID X) r Hxh). unfold observe. split.
        + intros [Hr Hin]. apply Ha in Hr; [|done]. apply Hl' in Hin as [Hf Hin]. split_and!; [done| |done].
          unfold frame in Hf. by rewrite Hf, Hxf.
        + intros (Hin & Hf & Hc). assert (r ∈ roots) as Hr.
          { apply Hl'. split; [|done]. unfold frame at 1. by rewrite Hf, Hxf. }
          split; [by apply Ha|done]. }
    assert (p_election p2 = p_election p) as Eel by (by rewrite (sm_election _ _ Hs2), (sm_election _ _ Hs1)).
    destruct (ProcessRoot_spec V _ _ Fd Hvv HW ltac:(lia) observe (fun _ => roots) P (p_election p) X Hcall Hel)
      as (el' & Ep & Hel' & _).
    rewrite Eel. fold observe. rewrite Ep, go_bind_Ret.
    assert (reach Fd (X :: P) el') as Hr' by (by eapply reach_step).
    destruct (choose_cases V (roots_of G hs) (Obs V G hs) Fd (X :: P) el' Hvv (validators_some _ Hxh) HW) as [Ech|(res & Ech & _)].
    { intros x Hx Fx. by apply (world_first Fd). }
    { by apply Hel'. }
    + rewrite Ech. eexists None, _. split; [done|]. cbn [p_election with_election]. split; [by destruct Hag2|].
      split; [|by split]. split; cbn; [by rewrite (sm_checkpoint _ _ Hs2), (sm_checkpoint _ _ Hs1)
        |by rewrite (sm_epoch _ _ Hs2), (sm_epoch _ _ Hs1)|done|by rewrite (sm_app _ _ Hs2), (sm_app _ _ Hs1)].
    + rewrite Ech. eexists (Some res), _. split; [done|]. cbn [p_election with_election]. split; [by destruct Hag2|].
      split; [|by split]. split; cbn; [by rewrite (sm_checkpoint _ _ Hs2), (sm_checkpoint _ _ Hs1)
        |by rewrite (sm_epoch _ _ Hs2), (sm_epoch _ _ Hs1)|done|by rewrite (sm_app _ _ Hs2), (sm_app _ _ Hs1)].
  - rewrite (proj2 (Z.ltb_ge _ _)) by lia. rewrite go_bind_Ret, EX. unfold ProcessRoot. rewrite Hun.
    fold (frame X). rewrite (eo_frame _ _ _ _ _ _ Hel), (proj2 (Z.leb_le _ _)) by lia. rewrite go_bind_Ret.
    eexists None, _. split; [done|]. cbn [p_election with_election]. split; [by destruct Hag|]. split; [by split|]. done.
Qed.

(** ** All known roots *)

Definition processed_below (Fd f : Z) (P : list RootAndSlot) : Prop :=
  forall r, is_root G hs r -> Fd < frame r < f -> r ∈ P.

(** Roots that observe roots of the frame before. *)
Lemma obs_before Fd f P X :
  is_root G hs X -> frame X = f -> processed_below Fd f P ->
  Fd + 1 < frame X -> forall r, r ∈ Obs V G hs (root_ID X) -> r ∈ P.
Proof.
  intros HX <- Hb HF r Hr. destruct (root_data V G hs Hd X HX) as (Hxh & _ & Hxf & _).
  apply (elem_of_Obs V Hvv G hs Hd) in Hr as (Hr & Hf & _); [|done]. apply Hb; [done|]. unfold frame in *. lia.
Qed.

Record elected (d : PosetData) p (P : list RootAndSlot) (Fd : Z) (dec : option Res) p' (P' : list RootAndSlot) : Prop := {
  ed_agree : agree (hs, hs) d p';
  ed_same : same (with_election p (p_election p')) p';
  ed_reach : reach Fd P' (p_election p');
  ed_choose : chooseAtropos (p_election p') = inr dec;
  ed_mono : P ⊆ P'
}.

Lemma elected_trans d p P Fd p1 P1 dec p2 P2 :
  elected d p P Fd None p1 P1 -> elected d p1 P1 Fd dec p2 P2 -> elected d p P Fd dec p2 P2.
Proof.
  intros [A1 [S1 S2 S3 S4] _ _ M1] [A2 [S1' S2' S3' S4'] R2 C2 M2].
  split; try done; [|set_solver]. split; cbn in *; congruence.
Qed.

Lemma processFrameRoots_spec d Fd f l : forall p P,
  agree (hs, hs) d p -> roots_known hs d -> 1 <= Fd -> reach Fd P (p_election p) -> chooseAtropos (p_election p) = inr None ->
  (forall r, r ∈ l -> is_root G hs r /\ frame r = f) -> processed_below Fd f P ->
  exists dec p' P', processFrameRoots p l = Ret (dec, p') /\ elected d p P Fd dec p' P' /\
    (dec = None -> Fd < f -> forall r, r ∈ l -> r ∈ P').
Proof.
  induction l as [|X l IH]; intros p P Hag Hk HF Hr Hun Hl Hb.
  { exists None, p, P. split; [done|]. split; [|by intros _ _ r ?%elem_of_nil]. by split. }
  destruct (Hl X ltac:(set_solver)) as [HX Hf]. cbn [processFrameRoots].
  destruct (processRoot_spec d p P Fd X Hag Hk HF Hr Hun HX) as (dec & p1 & E1 & Hag1 & Hs1 & Hch & Hcase).
  { by apply (obs_before Fd f). }
  rewrite E1, go_bind_Ret.
  assert (exists P1, reach Fd P1 (p_election p1) /\ P ⊆ P1 /\ (Fd < f -> X ∈ P1)) as (P1 & Hr1 & Hm1 & HX1).
  { case_decide; [exists (X :: P); set_solver|]. exists P. rewrite Hcase. split; [done|]. split; [done|]. lia. }
  assert (elected d p P Fd dec p1 P1) as He1 by (by split).
  destruct dec as [res|]; [by exists (Some res), p1, P1|].
  destruct (IH p1 P1 Hag1 Hk HF Hr1 Hch ltac:(set_solver)) as (dec & p2 & P2 & E2 & He2 & Hin).
  { intros r Hroot Hfr'. by apply Hm1, Hb. }
  exists dec, p2, P2. split; [done|]. split; [by eapply elected_trans|].
  intros -> Hlt r [->|Hr']%elem_of_cons; [by apply (ed_mono _ _ _ _ _ _ _ He2), HX1|by apply Hin].
Qed.

(** No frame is empty below a root. *)
Lemma frames_contiguous (k : nat) : forall x f, is_root G hs x -> 1 <= f -> frame x = f + Z.of_nat k ->
  exists r, is_root G hs r /\ frame r = f.
Proof.
  induction k as [|k IH]; intros x f Hx Hf Hk; [exists x; split; [done|lia]|].
  pose proof (ro_quorum _ _ _ _ (world_ok 0 ltac:(lia)) x Hx ltac:(lia)) as HQ.
  destruct (Obs V G hs (root_ID x)) as [|r l] eqn:Eo; [by apply (quorum_nonempty V Hvv) in HQ|].
  destruct (root_data V G hs Hd x Hx) as (Hxh & _ & Hxf & _). fold (frame x) in Hxf.
  assert (r ∈ Obs V G hs (root_ID x)) as Hr by (rewrite Eo; set_solver).
  apply (elem_of_Obs V Hvv G hs Hd) in Hr as (Hr & Hrf & _); [|done]. apply (IH r f Hr Hf). unfold frame in *. lia.
Qed.

Definition roots_from (f : Z) : list RootAndSlot := filter (fun r => f <= frame r) (roots_of G hs).

Lemma roots_from_lt f r : is_root G hs r -> frame r = f -> (length (roots_from (f + 1)) < length (roots_from f))%nat.
Proof.
  unfold is_root, roots_from. intros Hr Hf. induction (roots_of G hs) as [|x l IH]; [by apply elem_of_nil in Hr|].
  assert ((length (filter (fun r => (f + 1 <= frame r)%Z) l) <= length (filter (fun r => (f <= frame r)%Z) l))%nat) as Hle.
  { clear. induction l as [|y l IH]; [done|]. rewrite !filter_cons. repeat case_decide; simpl; lia. }
  rewrite !filter_cons. apply elem_of_cons in Hr as [<-|Hr].
  - rewrite decide_False by lia. rewrite decide_True by lia. simpl. lia.
  - specialize (IH Hr). repeat case_decide; simpl; lia.
Qed.

Lemma processKnownFrom_spec d Fd (m : nat) : forall p P f,
  agree (hs, hs) d p -> roots_known hs d -> 1 <= Fd -> reach Fd P (p_election p) -> chooseAtropos (p_election p) = inr None ->
  Fd <= f < MaxInt32 + 1 -> processed_below Fd f P -> (length (roots_from f) < m)%nat ->
  exists dec p' P', processKnownFrom m p f = Ret (dec, p') /\ elected d p P Fd dec p' P' /\
    (dec = None -> forall r, is_root G hs r -> Fd < frame r -> r ∈ P').
Proof.
  induction m as [|m IH]; intros p P f Hag Hk HF Hr Hun Hf Hb Hm; [lia|]. cbn [processKnownFrom].
  destruct (ask_roots input n V (hs, hs) d p f Hag) as (l & p1 & E1 & Hag1 & Hs1 & Hnd & Hl); [word_unfold; lia|].
  assert (forall r, r ∈ l <-> frame r = f /\ is_root G hs r) as Hl' by (intros r; by rewrite Hl, (Hk r)).
  rewrite E1, go_bind_Ret. pose proof (sm_election _ _ Hs1) as Eel.
  assert (elected d p P Fd None p1 P) as He1.
  { destruct Hs1. split; [done|by split|by rewrite Eel|by rewrite Eel|done]. }
  destruct (processFrameRoots_spec d Fd f l p1 P Hag1 Hk HF ltac:(by rewrite Eel) ltac:(by rewrite Eel)) as (dec & p2 & P2 & E2 & He2 & Hin).
  { intros r [? ?]%Hl'. done. }
  { done. }
  rewrite E2, go_bind_Ret. pose proof (elected_trans _ _ _ _ _ _ _ _ _ He1 He2) as He.
  destruct dec as [res|]; [by exists (Some res), p2, P2|].
  case_bool_decide as Hnil.
  - exists None, p2, P2. split; [done|]. split; [done|]. intros _ r Hroot Hlt.
    destruct (decide (frame r < f)) as [Hlf|Hge]; [apply (ed_mono _ _ _ _ _ _ _ He), Hb; [done|lia]|]. exfalso.
    destruct (frames_contiguous (Z.to_nat (frame r - f)) r f Hroot ltac:(lia) ltac:(lia)) as (r' & Hr' & Ef').
    assert (r' ∈ l) as Hin' by (by apply Hl'). rewrite Hnil in Hin'. by apply elem_of_nil in Hin'.
  - destruct l as [|r0 l]; [done|]. destruct (proj1 (Hl' r0) ltac:(set_solver)) as [Ef0 Hr0].
    pose proof (roots_from_lt f r0 Hr0 Ef0) as Hless.
    destruct (root_data V G hs Hd r0 Hr0) as (Hh0 & _ & Hf0 & _). fold (frame r0) in Hf0.
    pose proof (frame_range V Hvv G hs Hd Hfr _ Hh0) as Hrange. destruct (dag_cr V G hs _ Hvv Hd Hh0) as [_ Hsq].
    rewrite (u32_id (f + 1)) by (word_unfold; lia).
    destruct (IH p2 P2 (f + 1) (ed_agree _ _ _ _ _ _ _ He) Hk HF (ed_reach _ _ _ _ _ _ _ He) (ed_choose _ _ _ _ _ _ _ He))
      as (dec & p3 & P3 & E3 & He3 & Hall).
    { lia. }
    { intros r Hroot Hlt. destruct (decide (frame r = f)) as [Ef|Hne].
      - apply Hin; [done|lia|]. by apply Hl'.
      - apply (ed_mono _ _ _ _ _ _ _ He), Hb; [done|lia]. }
    { lia. }
    exists dec, p3, P3. split; [done|]. split; [by eapply elected_trans|done].
Qed.

End elect.
