(* ===== verification/PosetDecide.v ===== *)
(** * Deciding a frame: the block as a function of the graph

    [confirmBlock] and [onFrameDecided]: given the Atropos, the block, the
    cheaters, the marks, the frame info, the checkpoint and the state of the
    application are computed from the graph and from what was decided before,
    and from nothing else a node knows.  [chain] is that state, and
    [decide_frame] the function. *)

From S2P Require Import Prelude Bytes Kvdb KvdbLaws Pos Event Vector VecStore VecIndex Dag VecInv VecMerge VecWalk VecAdd ForklessCause VecSpec VecExample MedianTime VecMerged EventCheck Election ElectionSafety ElectionYes PosetStore Poset PosetOrder PosetConfirm PosetRoots PosetNode PosetElect.

Lemma filter_ext_elem {X} (P Q : X -> Prop) `{forall x, Decision (P x)} `{forall x, Decision (Q x)} (l : list X) :
  (forall x, x ∈ l -> P x <-> Q x) -> filter P l = filter Q l.
Proof.
  induction l as [|x l IH]; intros Hl; [done|]. rewrite !filter_cons, IH by set_solver.
  pose proof (Hl x ltac:(set_solver)). repeat case_decide; naive_solver.
Qed.

(** ** The abstract decision *)

Record chain (A : Type) := mkChain {
  ch_confirmed : gmap hash Z;
  ch_frames : gmap (Z * Z) FrameInfo;
  ch_checkpoint : Checkpoint;
  ch_app : A
}.
Arguments mkChain {A} _ _ _ _.
Arguments ch_confirmed {A} _.
Arguments ch_frames {A} _.
Arguments ch_checkpoint {A} _.
Arguments ch_app {A} _.

Section decision.
Context {A : Type} (event_Hash : EventHeaderData -> hash) (hash_Of : list bytes -> hash).
Context (callback : ConsensusCallbacks A) (fuel : nat).
Context (V : Validators) (G : hash -> option EventHeaderData) (n : Z).

(** What the Atropos observes of each validator. *)
Definition clock_ok (h : hash) (clk : Z -> BranchSeq) : Prop :=
  forall k, 0 <= k < zlen (Validators_SortedIDs V) ->
    (sees_fork V G h k -> clk k = forkDetectedSeq) /\
    (~ sees_fork V G h k -> is_range (bs_MinSeq (clk k)) (bs_Seq (clk k)) (seen_of V G h k)).

Definition acc_step (clk : Z -> BranchSeq) (acc : blockAcc (A := A)) (e : EventHeaderData) : blockAcc :=
  let highest := clk (Validators_GetIdx V (Creator e)) in
  let depth := seqDepth highest e in
  let allowed := match IsEventAllowedIntoBlock callback with None => true | Some f => f (ba_app acc) e depth end in
  mkBlockAcc (if negb (IsForkDetected highest) && allowed then ba_events acc ++ [e] else ba_events acc)
    (if (ba_highest acc =? 0) || (ba_highest acc <? Lamport e) then Lamport e else ba_highest acc)
    (if (ba_lowest acc =? 0) || (ba_lowest acc >? Lamport e) then Lamport e else ba_lowest acc)
    (match OnEventConfirmed callback with None => ba_app acc | Some f => f (ba_app acc) e depth end).

Definition cheaters_of (clk : Z -> BranchSeq) : list Z :=
  (filter (fun ic => IsForkDetected (clk ic.1) = true) (enumerate (Validators_SortedIDs V))).*2.

(** The consensus time of the frame before. *)
Definition last_time (genesisTime : Z) (c : chain A) (frame : Z) : Z :=
  if frame - 1 =? 0 then genesisTime
  else match ch_frames c !! (n, frame - 1) with Some i => LastConsensusTime i | None => 0 end.

Definition decide_frame (genesisTime : Z) (clk : Z -> BranchSeq) (c : chain A) (frame : Z) (atropos : hash)
    : (Block * list Z) * bool * chain A :=
  let l := newly G fuel [atropos] (confirmed_set (ch_confirmed c)) in
  let acc := foldl (acc_step clk) (mkBlockAcc [] 0 0 (ch_app c)) l in
  let median := match G atropos with Some e => Event.MedianTime e | None => 0 end in
  let info := frameTimes (last_time genesisTime c frame) median (ba_highest acc) (ba_lowest acc) in
  let cp := ch_checkpoint c in
  let block := NewBlock (u64 (LastBlockN cp + 1)) (LastConsensusTime info) atropos (LastAtropos cp)
                 (fareOrdering event_Hash (ba_events acc)) in
  let '(appHash, seal, app) :=
    match ApplyBlock callback with
    | None => (AppHash cp, false, ba_app acc)
    | Some f => let '((newHash, seal), app) := f (ba_app acc) block frame (cheaters_of clk) in
                (hash_Of [AppHash cp; newHash], seal, app)
    end in
  ((block, cheaters_of clk), seal,
   mkChain (mark_confirmed frame (event_Hash <$> l) (ch_confirmed c)) (<[(n, frame) := info]> (ch_frames c))
     (mkCheckpoint frame (u64 (LastBlockN cp + 1)) atropos appHash) app).

(** The clock is determined by the graph. *)
Lemma is_range_unique lo hi lo' hi' (P : Z -> Prop) : is_range lo hi P -> is_range lo' hi' P -> lo = lo' /\ hi = hi'.
Proof.
  intros [(-> & -> & H1)|(H0 & Hl & Hh & H1)] [(-> & -> & H2)|(H0' & Hl' & Hh' & H2)]; try done.
  - by apply H1 in Hl'.
  - by apply H2 in Hl.
  - pose proof (H1 _ Hl'). pose proof (H1 _ Hh'). pose proof (H2 _ Hl). pose proof (H2 _ Hh). lia.
Qed.

Lemma clock_unique hs (h : hash) clk clk' k :
  dag V G hs -> h ∈ hs -> clock_ok h clk -> clock_ok h clk' -> 0 <= k < zlen (Validators_SortedIDs V) -> clk k = clk' k.
Proof.
  intros Hd Hh H1 H2 Hk. destruct (H1 k Hk) as [F1 R1], (H2 k Hk) as [F2 R2].
  destruct (sees_forkb V G hs h k) eqn:Es.
  - apply (sees_forkb_spec V G hs Hd h k Hh) in Es. by rewrite F1, F2.
  - assert (~ sees_fork V G h k) as Hn by (intros Hs; apply (sees_forkb_spec V G hs Hd h k Hh) in Hs; congruence).
    destruct (is_range_unique _ _ _ _ _ (R1 Hn) (R2 Hn)). destruct (clk k), (clk' k). simpl in *. by subst.
Qed.

(** So is the decision. *)
Lemma decide_frame_ext genesisTime clk clk' c frame atropos :
  validators_ok V -> (forall k, 0 <= k < zlen (Validators_SortedIDs V) -> clk k = clk' k) ->
  (forall e, e ∈ newly G fuel [atropos] (confirmed_set (ch_confirmed c)) -> Creator e ∈ Validators_SortedIDs V) ->
  decide_frame genesisTime clk c frame atropos = decide_frame genesisTime clk' c frame atropos.
Proof.
  intros Hvv Hclk Hcr. unfold decide_frame.
  assert (cheaters_of clk = cheaters_of clk') as ->.
  { unfold cheaters_of. f_equal. apply filter_ext_elem. intros [k v] Hin%elem_of_enumerate%slice_get_lt. cbn [fst].
    by rewrite Hclk. }
  assert (forall acc l, (forall e, e ∈ l -> Creator e ∈ Validators_SortedIDs V) ->
            foldl (acc_step clk) acc l = foldl (acc_step clk') acc l) as Hfold.
  { intros acc l. revert acc. induction l as [|e l IH]; intros acc Hl; [done|]. cbn [foldl].
    rewrite IH by set_solver. f_equal. unfold acc_step.
    rewrite Hclk; [done|]. apply elem_of_all_idx, (GetIdx_elem V Hvv). apply Hl. set_solver. }
  by rewrite (Hfold _ _ Hcr).
Qed.
End decision.

(** ** The node computes it *)

Section node.
Context {T EDB VT F A : Type} `{HP : PosetStoreLaws T EDB} `{HV : VecStoreLaws VT} `{HL : LruLaws (hash * hash) bool F}.
Context (input : Z -> hash -> option EventHeaderData) (event_Hash : EventHeaderData -> hash).
Context (keccak_rlp_genesis : GenesisState -> bytes) (hash_Of : list bytes -> hash) (Hhash : forall l, length (hash_Of l) = 32%nat).
Context (callback : ConsensusCallbacks A) (openEpochDb : Z -> EDB * VT) (fuel : nat).
Context (n : Z) (Hn : is_u32 n) (V : Validators) (Hvv : validators_ok V) (Hcopy : Validators_Copy V = V).
Abbreviation G := (input n).
Abbreviation agree := (agree input n V).
Implicit Types p : Poset T VT F A.

Context (hs : list hash) (Hstored : stored_closed G event_Hash hs) (Hfuel : (confirm_fuel G hs <= fuel)%nat).

Lemma onConfirmed_spec (atropos : hash) s c e acc :
  merged_ok V G atropos s c -> observes G atropos (event_Hash e) -> G (event_Hash e) = Some e ->
  Creator e ∈ Validators_SortedIDs V ->
  onConfirmed callback V s acc e = Ret (acc_step callback V (hb_at s) acc e).
Proof.
  intros Hm Ho He Hcr. destruct (GetIdx_elem V Hvv _ Hcr) as [_ Hk]. apply elem_of_all_idx in Hk.
  unfold onConfirmed. rewrite (HighestBeforeSeq_Get_spec s _ (mg_seq _ _ _ _ _ Hm)), go_bind_Ret by lia.
  set (k := Validators_GetIdx V (Creator e)) in *. unfold acc_step. fold k.
  destruct (IsForkDetected_spec (hb_at s k)) as [Ef|Ef]; cbn [negb andb]; [done|].
  destruct (mg_entry _ _ _ _ _ Hm k Hk) as [Hf Hr _].
  assert (~ sees_fork V G atropos k) as Hn' by (intros Hs; by apply Ef, Hf). specialize (Hr Hn').
  assert (seen_of V G atropos k (Seq e)) as Hseen.
  { exists (event_Hash e). split; [done|]. unfold cr, sq. rewrite He. done. }
  destruct Hr as [(_ & _ & Hno)|(_ & _ & _ & Hall)]; [by apply Hno in Hseen|].
  apply Hall in Hseen. rewrite (proj2 (Z.ltb_ge _ _)) by lia. done.
Qed.

Lemma onConfirmed_all (atropos : hash) s c l : forall acc,
  merged_ok V G atropos s c ->
  (forall e, e ∈ l -> observes G atropos (event_Hash e) /\ G (event_Hash e) = Some e /\ Creator e ∈ Validators_SortedIDs V) ->
  go_fold (onConfirmed callback V s) acc l = Ret (foldl (acc_step callback V (hb_at s)) acc l).
Proof.
  induction l as [|e l IH]; intros acc Hm Hl; [done|]. cbn [go_fold foldl].
  destruct (Hl e ltac:(set_solver)) as (? & ? & ?).
  rewrite (onConfirmed_spec atropos s c e acc Hm) by done. rewrite go_bind_Ret. apply IH; [done|set_solver].
Qed.

Lemma cheaters_loop (atropos : hash) s c : merged_ok V G atropos s c ->
  go_fold (addCheater s) [] (enumerate (Validators_SortedIDs V)) = Ret (cheaters_of V (hb_at s)).
Proof.
  intros Hm. unfold cheaters_of.
  assert (forall l acc, (forall k v, (k, v) ∈ l -> 0 <= k) ->
            go_fold (addCheater s) acc l =
            Ret (acc ++ (filter (fun ic : Z * Z => IsForkDetected (hb_at s ic.1) = true) l).*2)) as Hgen.
  { induction l as [|[k v] l IH]; intros acc Hl; [by rewrite app_nil_r|]. cbn [go_fold addCheater].
    rewrite (HighestBeforeSeq_Get_spec s k (mg_seq _ _ _ _ _ Hm)), !go_bind_Ret by (apply (Hl k v); set_solver).
    rewrite IH by (intros k' v' Hin; apply (Hl k' v'); set_solver). rewrite filter_cons. cbn [fst].
    destruct (IsForkDetected (hb_at s k)); [|done]. rewrite decide_True by done. csimpl. by rewrite <-app_assoc. }
  rewrite Hgen; [done|]. intros k v Hin%elem_of_enumerate%slice_get_lt. lia.
Qed.

Definition chain_of (d : PosetData) p : chain A :=
  mkChain (pd_confirmed d) (pd_frames d) (p_Checkpoint p) (p_app p).

Lemma merged_clock (atropos : hash) s c : merged_ok V G atropos s c -> clock_ok V G atropos (hb_at s).
Proof. intros Hm k Hk. destruct (mg_entry _ _ _ _ _ Hm k Hk) as [H1' H2' _]. by split. Qed.

Lemma newly_events d (atropos : hash) :
  dag V G hs -> atropos ∈ hs -> confirmed_closed G d ->
  forall e, e ∈ newly G fuel [atropos] (confirmed_set (pd_confirmed d)) ->
    observes G atropos (event_Hash e) /\ G (event_Hash e) = Some e /\ Creator e ∈ Validators_SortedIDs V.
Proof.
  intros Hd Ha Hcl e He. pose proof (rounds_fuel G hs atropos (confirmed_set (pd_confirmed d))) as Hr.
  destruct (newly_exact G event_Hash hs Hstored fuel atropos (confirmed_set (pd_confirmed d)) Ha ltac:(lia)) as (_ & N2 & N3).
  { intros x y. rewrite !elem_of_confirmed_set. apply Hcl. }
  assert (observes G atropos (event_Hash e)) as Ho by (apply N3, list_elem_of_fmap; eauto).
  split; [done|]. split; [by apply N2|].
  apply (ek_creator _ _ _ _ (dag_event_ok V G hs (event_Hash e) e Hd (dag_closed V G hs _ _ Hd Ha Ho) (N2 e He))).
Qed.

Lemma frameTimes_ok last now high low : info_ok (frameTimes last now high low).
Proof.
  unfold frameTimes. split; cbn [TimeOffset TimeRatio LastConsensusTime]; [apply i64_range| |apply u64_range].
  unfold MaxTimestamp, MaxLamport. repeat case_match; word.
Qed.

(** The parts of the state that [confirmBlock] leaves alone. *)
Lemma confirmBlock_spec d p frame (atropos : hash) :
  agree (hs, hs) d p -> atropos ∈ hs -> confirmed_closed G d -> 0 < frame < MaxInt32 ->
  (frame - 1 = 0 \/ is_Some (pd_frames d !! (n, frame - 1))) ->
  exists clk block cheaters p' info acc, clock_ok V G atropos clk /\
    confirmBlock input event_Hash callback fuel p frame atropos = Ret ((block, cheaters), p') /\
    let l := newly G fuel [atropos] (confirmed_set (pd_confirmed d)) in
    acc = foldl (acc_step callback V clk) (mkBlockAcc [] 0 0 (p_app p)) l /\
    info = frameTimes (last_time n (gs_Time (PrevEpoch (p_EpochState p))) (chain_of d p) frame)
             (match G atropos with Some e => Event.MedianTime e | None => 0 end) (ba_highest acc) (ba_lowest acc) /\
    block = NewBlock (u64 (LastBlockN (p_Checkpoint p) + 1)) (LastConsensusTime info) atropos
              (LastAtropos (p_Checkpoint p)) (fareOrdering event_Hash (ba_events acc)) /\
    cheaters = cheaters_of V clk /\
    agree (hs, hs) (data_frames (data_confirmed d (mark_confirmed frame (event_Hash <$> l) (pd_confirmed d)))
                      (<[(n, frame) := info]> (pd_frames d))) p' /\
    confirmed_closed G (data_confirmed d (mark_confirmed frame (event_Hash <$> l) (pd_confirmed d))) /\
    same (with_app p (ba_app acc)) p'.
Proof.
  intros Hag Ha Hcl Hframe Hinfo. pose proof (agree_dag input n V Hcopy _ _ _ Hag) as Hd. cbn [fst] in Hd.
  pose proof (ag_vec _ _ _ _ _ _ Hag) as (dv & f & Hix & Hf & Hcc). rewrite Hcopy in Hix, Hf, Hcc. cbn [fst] in Hix.
  destruct (getHighestBeforeMerged_spec V Hvv G (p_vecClock p) hs dv f atropos Hix Ha) as (s & c & vi & Em & Hix' & Ec & Hm).
  assert (agree (hs, hs) d (with_vec p vi)) as Hag1.
  { eapply agree_with_vec; [done|]. exists dv, f. rewrite Hcopy, Ec. done. }
  set (l := newly G fuel [atropos] (confirmed_set (pd_confirmed d))).
  set (acc := foldl (acc_step callback V (hb_at s)) (mkBlockAcc [] 0 0 (p_app p)) l).
  destruct (confirm_spec G event_Hash hs Hstored frame ltac:(word_unfold; lia) (onConfirmed callback V s) fuel
              (p_store p) d atropos (ag_rep _ _ _ _ _ _ Hag) Ha Hcl Hfuel) as (_ & _ & _ & Hcl' & t & Ht & Ew).
  fold l in Hcl', Ht, Ew.
  assert (go_fold (onConfirmed callback V s) (mkBlockAcc [] 0 0 (p_app p)) l = Ret acc) as Eacc
    by (apply (onConfirmed_all atropos s c l _ Hm); by apply newly_events).
  destruct (dag_event V G hs atropos Hd Ha) as (_ & ea & _ & _ & _ & Eea & _).
  set (d1 := data_confirmed d (mark_confirmed frame (event_Hash <$> l) (pd_confirmed d))) in *.
  set (p2 := with_app (with_store (with_vec p vi) t) (ba_app acc)).
  assert (fareTimestamps input p2 frame atropos (ba_highest acc) (ba_lowest acc) =
          Ret (frameTimes (last_time n (gs_Time (PrevEpoch (p_EpochState p))) (chain_of d p) frame) (Event.MedianTime ea) (ba_highest acc) (ba_lowest acc))) as Ef.
  { unfold fareTimestamps, frameConsensusTime, last_time. rewrite (u32_id (frame - 1)) by (word_unfold; lia).
    cbn [p_EpochState p2 with_app with_store with_vec p_store ch_frames chain_of].
    assert (getEvent input p2 atropos = Some ea) as Eg.
    { change (getEvent input p2) with (getEvent input p). by rewrite (agree_get _ _ _ _ _ _ Hag). }
    destruct (Z.eqb_spec (frame - 1) 0) as [|Hne]; [by rewrite go_bind_Ret, Eg|].
    change (p_EpochN p2) with (p_EpochN p). rewrite (ag_epoch _ _ _ _ _ _ Hag).
    rewrite (plaw_GetFrameInfo t d1 n (frame - 1) Ht Hn ltac:(word_unfold; lia)), go_bind_Ret.
    destruct Hinfo as [|[i Ei]]; [done|]. change (pd_frames d1) with (pd_frames d). rewrite Ei. by rewrite go_bind_Ret, Eg. }
  set (info := frameTimes _ _ _ _) in Ef.
  destruct (plaw_SetFrameInfo t d1 n frame info Ht Hn ltac:(word_unfold; lia) (frameTimes_ok _ _ _ _)) as (t2 & E2 & Ht2).
  exists (hb_at s), (NewBlock (u64 (LastBlockN (p_Checkpoint p) + 1)) (LastConsensusTime info) atropos
              (LastAtropos (p_Checkpoint p)) (fareOrdering event_Hash (ba_events acc))), (cheaters_of V (hb_at s)),
         (with_store p2 t2), info, acc.
  split; [by eapply merged_clock|]. split; [|split_and!; try done].
  - unfold confirmBlock, ask_vec, GetHighestBeforeMerged. rewrite Em, !go_bind_Ret. cbn [default from_option id].
    change (p_Validators (with_vec p vi)) with (p_Validators p). rewrite (ag_vals _ _ _ _ _ _ Hag).
    rewrite (cheaters_loop atropos s c Hm), go_bind_Ret. unfold confirmEvents.
    change (getEvent input (with_vec p vi)) with (getEvent input p). rewrite (agree_get _ _ _ _ _ _ Hag).
    cbn [p_store with_vec p_app]. rewrite Ew, Eacc, !go_bind_Ret. fold p2. rewrite Ef, go_bind_Ret.
    change (p_store p2) with t. change (p_EpochN p2) with (p_EpochN p). rewrite (ag_epoch _ _ _ _ _ _ Hag), E2, go_bind_Ret. done.
  - unfold info. by rewrite Eea.
  - destruct Hag1. split; [done..| |done]. exact Ht2.
Qed.

(** The state in which [sealEpoch] is called, or the frame is left. *)
Record frame_done d p (frame : Z) (atropos : hash) (clk : Z -> BranchSeq) d1 p1 : Prop := {
  fd_agree : agree (hs, hs) d1 p1;
  fd_chain : chain_of d1 p1 =
    (decide_frame event_Hash hash_Of callback fuel V G n (gs_Time (PrevEpoch (p_EpochState p))) clk (chain_of d p) frame atropos).2;
  fd_epoch : p_EpochState p1 = p_EpochState p;
  fd_election : p_election p1 = Election_New V (u32 (frame + 1));
  fd_roots : pd_roots d1 = pd_roots d;
  fd_cp : pd_checkpoint d1 = Some (p_Checkpoint p1);
  fd_ep : pd_epoch d1 = pd_epoch d;
  fd_closed' : confirmed_closed G d1;
  fd_info : is_Some (pd_frames d1 !! (n, frame));
  fd_cpok : checkpoint_ok (p_Checkpoint p1)
}.

Lemma onFrameDecided_spec d p frame (atropos : hash) :
  agree (hs, hs) d p -> atropos ∈ hs -> length atropos = 32%nat -> confirmed_closed G d -> 0 < frame < MaxInt32 ->
  (frame - 1 = 0 \/ is_Some (pd_frames d !! (n, frame - 1))) -> checkpoint_ok (p_Checkpoint p) ->
  exists clk d1 p1, clock_ok V G atropos clk /\ frame_done d p frame atropos clk d1 p1 /\
    let seal := (decide_frame event_Hash hash_Of callback fuel V G n (gs_Time (PrevEpoch (p_EpochState p))) clk
                   (chain_of d p) frame atropos).1.2 in
    onFrameDecided input event_Hash hash_Of callback openEpochDb fuel p frame atropos =
      (p' ← (if seal then sealEpoch callback openEpochDb p1 else Ret p1); Ret (seal, p')).
Proof.
  intros Hag Ha Hlen Hcl Hframe Hinfo [C1 C2 C3 C4].
  set (p0 := with_checkpoint (with_election p (Election_Reset V (u32 (frame + 1))))
               (mkCheckpoint frame (LastBlockN (p_Checkpoint p)) (LastAtropos (p_Checkpoint p)) (AppHash (p_Checkpoint p)))).
  assert (agree (hs, hs) d p0) as Hag0 by (destruct Hag; by split).
  destruct (confirmBlock_spec d p0 frame atropos Hag0 Ha Hcl Hframe Hinfo)
    as (clk & block & cheaters & p1 & info & acc & Hclk & E & Eacc & Einfo & Eblock & Ech & Hag1 & Hcl1 & [S1 S2 S3 S4]).
  change (ba_app (mkBlockAcc [] 0 0 (p_app p0))) with (p_app p) in *.
  change (p_app p0) with (p_app p) in *. change (p_EpochState p0) with (p_EpochState p) in *.
  change (last_time n (gs_Time (PrevEpoch (p_EpochState p))) (chain_of d p0) frame)
    with (last_time n (gs_Time (PrevEpoch (p_EpochState p))) (chain_of d p) frame) in *.
  set (r := decide_frame event_Hash hash_Of callback fuel V G n (gs_Time (PrevEpoch (p_EpochState p))) clk (chain_of d p) frame atropos).
  cbn [p_Checkpoint p0 with_checkpoint with_app with_election p_app LastBlockN LastAtropos AppHash] in S1, S4, Eblock.
  assert (exists appHash seal app, length appHash = 32%nat /\
    match ApplyBlock callback with
    | None => (AppHash (p_Checkpoint p1), false, p_app p1)
    | Some f => let '((newHash, seal), app) := f (p_app p1) block frame cheaters in
                (hash_Of [AppHash (p_Checkpoint p1); newHash], seal, app)
    end = (appHash, seal, app)) as (appHash & seal & app & Hah & Eout).
  { rewrite S1. cbn [AppHash]. destruct (ApplyBlock callback) as [fa|]; [|by eexists _, _, _].
    destruct (fa (p_app p1) block frame cheaters) as [[nh s] a']. eexists _, _, _. split; [apply Hhash|done]. }
  set (cp := mkCheckpoint frame (u64 (LastBlockN (p_Checkpoint p) + 1)) atropos appHash).
  set (p2 := with_app (with_checkpoint p1 cp) app).
  set (d1 := data_frames _ _) in Hag1.
  assert (r = ((block, cheaters), seal, mkChain (pd_confirmed d1) (pd_frames d1) cp app)) as Er.
  { unfold r, decide_frame. cbv zeta. cbn [ch_app ch_confirmed chain_of]. fold (chain_of d p). rewrite <-Eacc, <-Einfo.
    change (ch_checkpoint (chain_of d p)) with (p_Checkpoint p). rewrite <-Eblock, <-Ech.
    rewrite S1, S4 in Eout. cbn [AppHash] in Eout. rewrite Eout. done. }
  assert (checkpoint_ok cp) as Hcp by (split; [cbn; word_unfold; lia|apply u64_range|done|done]).
  assert (agree (hs, hs) d1 p2) as Hag2 by (destruct Hag1; by split).
  destruct (plaw_SetCheckpoint (p_store p2) d1 cp (ag_rep _ _ _ _ _ _ Hag2) Hcp) as (t & Et & Ht).
  exists clk, (data_checkpoint d1 cp), (with_store p2 t). split; [done|]. split.
  - split; try done.
    + by eapply agree_with_store.
    + fold r. by rewrite Er.
    + cbn. rewrite lookup_insert_eq. by eexists.
  - fold r. rewrite Er. cbn [fst snd]. unfold onFrameDecided. rewrite (ag_vals _ _ _ _ _ _ Hag). cbv zeta. cbn [p_Checkpoint with_election]. fold p0.
    rewrite E, go_bind_Ret. rewrite Eout. unfold saveCheckpoint.
    assert (mkCheckpoint (LastDecidedFrame (p_Checkpoint p1)) (u64 (LastBlockN (p_Checkpoint p1) + 1)) atropos appHash = cp) as ->
      by (by rewrite S1).
    fold p2. change (p_Checkpoint p2) with cp. rewrite Et, !go_bind_Ret. done.
Qed.
End node.
