(* ===== verification/PosetRun.v ===== *)
(** * A node over one epoch

    The invariant of a node between two events ([node_ok]): the index, the
    store, the election and the checkpoint all agree with the graph of the
    connected events, and the chain (marks, frame infos, checkpoint, state of
    the application) is the result of deciding the frames one after the other
    ([decided_run]), each with an Atropos that an election over the graph
    chooses. *)

From S2P Require Import Prelude Bytes Kvdb KvdbLaws Pos Event Vector VecStore VecIndex Dag VecInv VecMerge VecWalk VecAdd ForklessCause VecSpec VecExample MedianTime VecMerged EventCheck Election ElectionSafety ElectionYes PosetStore Poset PosetOrder PosetConfirm PosetRoots PosetNode PosetElect PosetDecide.

(** A copy of a built group of validators is the group. *)
Lemma newValidators_copy (vals : gmap Z Z) : Validators_Copy (newValidators vals) = newValidators vals.
Proof.
  assert (values (newValidators (values (newValidators vals))) = values (newValidators vals)) as E.
  { apply map_eq. intros i. apply option_eq. intros s. rewrite newValidators_values.
    rewrite (newValidators_values vals). naive_solver. }
  assert (forall m, newValidators m = mkValidators (values (newValidators m)) (calcCaches (values (newValidators m)))) as Hm by done.
  unfold Validators_Copy. rewrite Hm, E. by rewrite <-Hm.
Qed.

(** The walk of [confirmEvents] stays in the graph. *)
Lemma newly_within (event_Hash : EventHeaderData -> hash) (G : hash -> option EventHeaderData) (hs : list hash) (m : nat) : forall (stack : list hash) (dn : gset hash) (e : EventHeaderData),
  stored_closed G event_Hash hs -> (forall x, x ∈ stack -> x ∈ hs) -> e ∈ newly G m stack dn ->
  event_Hash e ∈ hs /\ G (event_Hash e) = Some e.
Proof.
  induction m as [|m IH]; intros stack dn e Hst Hin He; [by apply elem_of_nil in He|]. cbn [newly] in He.
  destruct (EventsStack_Pop stack) as [[h rest]|] eqn:Ep; [|by apply elem_of_nil in He].
  apply Pop_app_inv in Ep as ->. assert (h ∈ hs) as Hh by (apply Hin; set_solver).
  assert (forall x, x ∈ rest -> x ∈ hs) as Hrest by (intros x Hx; apply Hin; set_solver).
  destruct (Hst h Hh) as (e' & Eg & Eh & Hp). rewrite Eg in He. case_decide as Hd.
  - by apply (IH rest dn e Hst).
  - apply elem_of_cons in He as [->|He]; [by rewrite Eh|].
    eapply (IH _ _ e Hst); [|exact He]. intros x [Hx|Hx]%elem_of_app; [by apply Hrest|by apply Hp].
Qed.

(** ** The frames decided in an epoch *)

Section runs.
Context {A : Type} (event_Hash : EventHeaderData -> hash) (hash_Of : list bytes -> hash).
Context (callback : ConsensusCallbacks A) (fuel : nat).
Context (V : Validators) (Hvv : validators_ok V) (G : hash -> option EventHeaderData) (n : Z) (genesisTime : Z) (c0 : chain A).
Abbreviation decide_frame := (decide_frame event_Hash hash_Of callback fuel V G n genesisTime).

(** An election over the graph chooses [a] in frame [f]. *)
Definition chosen (hs : list hash) (f : Z) (a : hash) : Prop :=
  exists P el, reach V (is_root G hs) (Obs V G hs) f P el /\ chooseAtropos el = inr (Some (mkRes f a)).

Inductive decided_run (hs : list hash) : list hash -> chain A -> bool -> Prop :=
  | run_start : decided_run hs [] c0 false
  | run_step hist c (a : hash) clk :
      decided_run hs hist c false -> chosen hs (zlen hist + 1) a -> clock_ok V G a clk ->
      decided_run hs (hist ++ [a]) (decide_frame clk c (zlen hist + 1) a).2
        (decide_frame clk c (zlen hist + 1) a).1.2.

Lemma chosen_mono (hs hs' : list hash) f (a : hash) :
  dag V G hs -> dag V G hs' -> hs ⊆ hs' -> chosen hs f a -> chosen hs' f a.
Proof. intros Hd Hd' Hs (P & el & Hr & Hc). exists P, el. split; [|done]. by apply (reach_mono V Hvv G hs). Qed.

Lemma decided_run_mono (hs hs' : list hash) hist c s :
  dag V G hs -> dag V G hs' -> hs ⊆ hs' -> decided_run hs hist c s -> decided_run hs' hist c s.
Proof.
  intros Hd Hd' Hs. induction 1 as [|hist c a clk Hr IH Hc Hk]; [constructor|].
  apply run_step; [done|by apply (chosen_mono hs)|done].
Qed.

(** What a decision records. *)
Lemma decide_frame_fields clk c frame (a : hash) :
  ch_confirmed (decide_frame clk c frame a).2 =
    mark_confirmed frame (event_Hash <$> newly G fuel [a] (confirmed_set (ch_confirmed c))) (ch_confirmed c) /\
  LastDecidedFrame (ch_checkpoint (decide_frame clk c frame a).2) = frame /\
  LastAtropos (ch_checkpoint (decide_frame clk c frame a).2) = a.
Proof.
  unfold decide_frame. destruct (ApplyBlock callback) as [f|]; [|done]. destruct (f _ _ _ _) as [[nh s] app]. done.
Qed.

Context (hs : list hash) (Hd : dag V G hs) (Hfr : frames_ok V G hs) (Hstored : stored_closed G event_Hash hs).
Context (B : gset Z) (HB : byzantine V G hs B) (HBsub : B ⊆ all_idx V) (Hstake : 3 * stake_of V B < Validators_TotalStake V).

(** The chosen event is a root of the frame. *)
Lemma chosen_root f (a : hash) : 1 <= f -> chosen hs f a -> exists r, is_root G hs r /\ root_ID r = a /\ frame r = f.
Proof.
  intros Hf (P & el & Hr & Hc). pose proof (graph_roots_ok V Hvv G hs Hd Hfr B HB HBsub Hstake f ltac:(lia)) as HW.
  pose proof (reach_ok V _ _ f Hvv HW ltac:(lia) _ _ Hr) as Hel.
  unfold chooseAtropos in Hc. rewrite (eo_vv _ _ _ _ _ _ Hel) in Hc.
  assert (exists v vote, decidedRoots el !! v = Some vote /\ yes vote = true /\ observedRoot vote = a) as (v & vote & Ev & Ey & Ea).
  { revert Hc. generalize (Validators_SortedIDs V) as l. induction l as [|v l IH]; simpl; [done|].
    destruct (decidedRoots el !! v) as [vote|] eqn:Ev; [|done]. destruct (yes vote) eqn:Ey; [|apply IH].
    intros [= _ Ea]. eauto. }
  destruct (eo_decided _ _ _ _ _ _ Hel v vote Ev) as (_ & X & m & HX & Hm & FX & _ & Hs).
  destruct (Hs Ey) as (x & r & Hx & Fx & Hro & _ & Eid). exists r.
  destruct (root_data V G hs Hd x Hx) as (Hxh & _ & Hxf & _). fold (frame x) in Hxf.
  apply (elem_of_Obs V Hvv G hs Hd) in Hro as (Hr' & Ef & _); [|done].
  split; [done|]. split; [congruence|]. unfold frame in *. lia.
Qed.

Lemma chosen_agree f (a b : hash) : 1 <= f -> chosen hs f a -> chosen hs f b -> a = b.
Proof.
  intros Hf (P1 & el1 & R1 & C1) (P2 & el2 & R2 & C2).
  pose proof (graph_roots_ok V Hvv G hs Hd Hfr B HB HBsub Hstake f ltac:(lia)) as HW.
  apply (reach_ok V _ _ f Hvv HW ltac:(lia)) in R1, R2. unfold chooseAtropos in *.
  rewrite (eo_vv _ _ _ _ _ _ R1) in C1. rewrite (eo_vv _ _ _ _ _ _ R2) in C2.
  destruct (choose_agree V _ _ f Hvv HW P1 P2 el1 el2 _ _ R1 R2 C1) as [E|E]; rewrite E in C2; [by injection C2|done].
Qed.

(** A decision depends on the frame and the graph only. *)
Lemma decided_run_step_eq (hist : list hash) c (a b : hash) clk clk' :
  chosen hs (zlen hist + 1) a -> chosen hs (zlen hist + 1) b -> clock_ok V G a clk -> clock_ok V G b clk' ->
  a = b /\ decide_frame clk c (zlen hist + 1) a = decide_frame clk' c (zlen hist + 1) b.
Proof.
  intros Ca Cb Ka Kb. pose proof (zlen_nonneg hist).
  assert (a = b) as <- by (by apply (chosen_agree (zlen hist + 1)); [lia|..]). split; [done|].
  destruct (chosen_root (zlen hist + 1) a ltac:(lia) Ca) as (r & Hr & Er & _).
  apply is_root_spec in Hr as [Ha _]. rewrite Er in Ha.
  apply decide_frame_ext; [done| |].
  - intros k. by apply (clock_unique V G hs a).
  - intros e He. destruct (newly_within event_Hash G hs fuel [a] (confirmed_set (ch_confirmed c)) e Hstored) as [Hh Eg];
      [by intros x ->%list_elem_of_singleton|done|].
    apply (ek_creator _ _ _ _ (dag_event_ok V G hs _ e Hd Hh Eg)).
Qed.

Lemma decided_run_det hist c s : decided_run hs hist c s -> forall hist' c' s',
  decided_run hs hist' c' s' -> length hist = length hist' -> hist = hist' /\ c = c' /\ s = s'.
Proof.
  induction 1 as [|hist c a clk Hr IH Hc Hk]; intros hist' c' s' Hr' Hl.
  - inversion Hr' as [|? ? ? ? ? ? ? E]; subst; [done|]. rewrite length_app in Hl. simpl in Hl. lia.
  - inversion Hr' as [|hist2 c2 b clk2 Hr2 Hc2 Hk2]; subst; rewrite !length_app in Hl; simpl in Hl; [lia|].
    destruct (IH _ _ _ Hr2 ltac:(lia)) as (-> & -> & _).
    destruct (decided_run_step_eq hist2 c2 a b clk clk2 Hc Hc2 Hk Hk2) as [<- ->]. done.
Qed.

(** A shorter run is the beginning of a longer one. *)
Lemma decided_run_take hist c s : decided_run hs hist c s ->
  forall k : nat, (k <= length hist)%nat -> exists c' s', decided_run hs (take k hist) c' s' /\ ((k < length hist)%nat -> s' = false).
Proof.
  induction 1 as [|hist c a clk Hr IH Hc Hk]; intros k Hl.
  - exists c0, false. rewrite take_nil. split; [constructor|done].
  - rewrite length_app in Hl. simpl in Hl. destruct (decide (k = length hist + 1)%nat) as [->|Hne].
    + rewrite take_ge by (rewrite length_app; simpl; lia). eexists _, _. split; [by apply run_step|].
      rewrite length_app. simpl. lia.
    + rewrite take_app_le by lia. destruct (decide (k = length hist)) as [->|Hne'].
      * rewrite take_ge by done. exists c, false. done.
      * destruct (IH k ltac:(lia)) as (c' & s' & Hr' & Hs). exists c', s'. split; [done|]. intros _. apply Hs. lia.
Qed.

Lemma decided_run_prefix hist1 c1 s1 hist2 c2 s2 :
  decided_run hs hist1 c1 s1 -> decided_run hs hist2 c2 s2 -> (length hist1 <= length hist2)%nat ->
  hist1 `prefix_of` hist2 /\ (length hist1 = length hist2 -> c1 = c2 /\ s1 = s2) /\
  (s1 = true -> length hist1 = length hist2).
Proof.
  intros H1 H2 Hl. destruct (decided_run_take _ _ _ H2 (length hist1) Hl) as (c & s & Ht & Hs).
  destruct (decided_run_det _ _ _ H1 _ _ _ Ht) as (E & _ & ->); [rewrite length_take; lia|]. split; [|split].
  - rewrite E. apply prefix_take.
  - intros El. by destruct (decided_run_det _ _ _ H1 _ _ _ H2 El) as (_ & ? & ?).
  - intros Et. destruct (decide (length hist1 < length hist2)%nat) as [Hlt|]; [|lia]. by rewrite (Hs Hlt) in Et.
Qed.
End runs.

(** ** The invariant *)

Section invariant.
Context {T EDB VT F A : Type} `{HP : PosetStoreLaws T EDB} `{HV : VecStoreLaws VT} `{HL : LruLaws (hash * hash) bool F}.
Context (input : Z -> hash -> option EventHeaderData) (event_Hash : EventHeaderData -> hash).
Context (hash_Of : list bytes -> hash) (callback : ConsensusCallbacks A) (fuel : nat).
Context (openEpochDb : Z -> EDB * VT).
Implicit Types p : Poset T VT F A.

(** The run of an epoch that starts in the epoch state [ep] with the chain [c0]. *)
Definition epoch_run (ep : EpochState) (c0 : chain A) (hs hist : list hash) (c : chain A) (sealed : bool) : Prop :=
  decided_run event_Hash hash_Of callback fuel (ep_Validators ep) (input (EpochN ep)) (EpochN ep)
    (gs_Time (PrevEpoch ep)) c0 hs hist c sealed.

(** The accepted events: a graph that follows the rule of frames. *)
Record graph_ok (ep : EpochState) (hs : list hash) : Prop := {
  go_dag : dag (ep_Validators ep) (input (EpochN ep)) hs;
  go_frames : frames_ok (ep_Validators ep) (input (EpochN ep)) hs;
  go_stored : stored_closed (input (EpochN ep)) event_Hash hs
}.

(** The events [hs] are connected and flushed, and the frames up to
    [length hist] are decided. *)
Record settled (ep : EpochState) (c0 : chain A) (hs hist : list hash) (d : PosetData) p : Prop := {
  st_agree : agree input (EpochN ep) (ep_Validators ep) (hs, hs) d p;
  st_epoch : p_EpochState p = ep;
  st_roots : roots_known input (EpochN ep) hs d;
  st_frames : frames_ok (ep_Validators ep) (input (EpochN ep)) hs;
  st_stored : stored_closed (input (EpochN ep)) event_Hash hs;
  st_len : forall h : hash, h ∈ hs -> length h = 32%nat;
  st_closed : confirmed_closed (input (EpochN ep)) d;
  st_old : forall x : hash, default 0 (pd_confirmed d !! x) <> 0 -> exists k e, k <= EpochN ep /\ input k x = Some e;
  st_cp : pd_checkpoint d = Some (p_Checkpoint p);
  st_ep : pd_epoch d = Some ep;
  st_run : epoch_run ep c0 hs hist (chain_of d p) false;
  st_ldf : LastDecidedFrame (p_Checkpoint p) = zlen hist;
  st_info : zlen hist = 0 \/ is_Some (pd_frames d !! (EpochN ep, zlen hist));
  st_cpok : checkpoint_ok (p_Checkpoint p)
}.

(** Between two events the election of the next frame is open, and the roots
    that take part in it are processed. *)
Record node_ok (ep : EpochState) (c0 : chain A) (hs hist : list hash) (d : PosetData) p (P : list RootAndSlot) : Prop := {
  nk_settled : settled ep c0 hs hist d p;
  nk_reach : reach (ep_Validators ep) (is_root (input (EpochN ep)) hs) (Obs (ep_Validators ep) (input (EpochN ep)) hs)
               (zlen hist + 1) P (p_election p);
  nk_open : chooseAtropos (p_election p) = inr None;
  nk_all : forall r, is_root (input (EpochN ep)) hs r -> zlen hist + 1 < frame r -> r ∈ P
}.

(** What is assumed of the epoch and its events: the group of validators is
    one that fits, the databases of the next epoch are empty, less than a third
    of the stake forks, and the fuel covers the walks over the events. *)
Record epoch_fits (ep : EpochState) : Prop := {
  ef_epoch : 0 <= EpochN ep < 2 ^ 32 - 1;
  ef_vals : validators_ok (ep_Validators ep);
  ef_some : Validators_SortedIDs (ep_Validators ep) <> [];
  ef_built : exists vals, ep_Validators ep = newValidators vals;
  ef_roots : ps_epoch_roots (openEpochDb (EpochN ep + 1)).1 ∅;
  ef_vectors : rep (openEpochDb (EpochN ep + 1)).2 emptyVecData emptyVecData
}.
Record events_fit (ep : EpochState) (hs : list hash) : Prop := {
  vf_byzantine : exists B, byzantine (ep_Validators ep) (input (EpochN ep)) hs B /\ B ⊆ all_idx (ep_Validators ep) /\
                   3 * stake_of (ep_Validators ep) B < Validators_TotalStake (ep_Validators ep);
  vf_confirm : (confirm_fuel (input (EpochN ep)) hs <= fuel)%nat;
  vf_rounds : (length hs < fuel)%nat
}.

Lemma ef_copy ep : epoch_fits ep -> Validators_Copy (ep_Validators ep) = ep_Validators ep.
Proof. intros Hef. destruct (ef_built _ Hef) as [vals ->]. apply newValidators_copy. Qed.

(** The epoch after a sealed one. *)
Definition next_epoch (ep : EpochState) (c : chain A) : EpochState * chain A :=
  let cp := ch_checkpoint c in
  let time := last_time (EpochN ep) (gs_Time (PrevEpoch ep)) c (LastDecidedFrame cp + 1) in
  let '(validators, app) :=
    match SelectValidatorsGroup callback with
    | None => (ep_Validators ep, ch_app c)
    | Some f => f (ch_app c) (EpochN ep) (u32 (EpochN ep + 1))
    end in
  (mkEpochState (u32 (EpochN ep + 1)) (mkGenesisState (EpochN ep) time (LastAtropos cp) (AppHash cp)) validators,
   mkChain (ch_confirmed c) (ch_frames c) (mkCheckpoint 0 (LastBlockN cp) (LastAtropos cp) (AppHash cp)) app).

End invariant.

(** ** Sealing an epoch *)

Section sealing.
Context {T EDB VT F A : Type} `{HP : PosetStoreLaws T EDB} `{HV : VecStoreLaws VT} `{HL : LruLaws (hash * hash) bool F}.
Context (input : Z -> hash -> option EventHeaderData) (event_Hash : EventHeaderData -> hash).
Context (hash_Of : list bytes -> hash) (callback : ConsensusCallbacks A) (fuel : nat).
Context (openEpochDb : Z -> EDB * VT).
Implicit Types p : Poset T VT F A.

(** An event belongs to one epoch, which its identifier carries. *)
Definition one_epoch : Prop :=
  forall k k' (h : hash) e e', input k h = Some e -> input k' h = Some e' -> k = k'.
(** The application selects a group of validators that fits. *)
Definition selects_fit : Prop :=
  forall f (a : A) k k', SelectValidatorsGroup callback = Some f ->
    validators_ok (f a k k').1 /\ Validators_SortedIDs (f a k k').1 <> [] /\ exists vals, (f a k k').1 = newValidators vals.
Context (Hone : one_epoch) (Hselect : selects_fit).
Abbreviation epoch_fits := (epoch_fits openEpochDb).
Abbreviation ef_copy := (ef_copy openEpochDb).

Lemma next_epoch_vals ep c : epoch_fits ep ->
  validators_ok (ep_Validators (next_epoch callback ep c).1) /\
  Validators_SortedIDs (ep_Validators (next_epoch callback ep c).1) <> [] /\
  (exists vals, ep_Validators (next_epoch callback ep c).1 = newValidators vals) /\
  EpochN (next_epoch callback ep c).1 = EpochN ep + 1.
Proof.
  intros [He Hv Hne Hb _ _]. unfold next_epoch. destruct (SelectValidatorsGroup callback) as [f|] eqn:Ef.
  - destruct (f (ch_app c) (EpochN ep) (u32 (EpochN ep + 1))) as [vals app] eqn:Efa.
    destruct (Hselect f (ch_app c) (EpochN ep) (u32 (EpochN ep + 1)) Ef) as (H1' & H2' & H3'). rewrite Efa in H1', H2', H3'.
    cbn. split_and!; [done..|]. apply u32_id. word_unfold. lia.
  - cbn. split_and!; [done..|]. apply u32_id. word_unfold. lia.
Qed.

Lemma sealEpoch_spec ep hs d p :
  epoch_fits ep -> agree input (EpochN ep) (ep_Validators ep) (hs, hs) d p -> p_EpochState p = ep ->
  (forall x : hash, default 0 (pd_confirmed d !! x) <> 0 -> exists k e, k <= EpochN ep /\ input k x = Some e) ->
  checkpoint_ok (p_Checkpoint p) -> 0 < LastDecidedFrame (p_Checkpoint p) ->
  is_Some (pd_frames d !! (EpochN ep, LastDecidedFrame (p_Checkpoint p))) ->
  exists d' p', sealEpoch callback openEpochDb p = Ret p' /\
    node_ok input event_Hash hash_Of callback fuel (next_epoch callback ep (chain_of d p)).1
      (next_epoch callback ep (chain_of d p)).2 [] [] d' p' [].
Proof.
  intros Hef Hag Eep Hold Hcp Hf [i Hi]. destruct (next_epoch_vals ep (chain_of d p) Hef) as (Hv' & Hne' & Hb' & En').
  destruct Hef as [He Hv _ Hb Hr Hvd]. destruct Hcp as [C1 C2 C3 C4].
  assert (frameConsensusTime p (LastDecidedFrame (p_Checkpoint p)) =
          Ret (last_time (EpochN ep) (gs_Time (PrevEpoch ep)) (chain_of d p) (LastDecidedFrame (p_Checkpoint p) + 1))) as Etime.
  { unfold frameConsensusTime, last_time. rewrite Z.add_simpl_r, (proj2 (Z.eqb_neq _ _)) by lia.
    rewrite (ag_epoch _ _ _ _ _ _ Hag), (plaw_GetFrameInfo _ d _ _ (ag_rep _ _ _ _ _ _ Hag)); [|word_unfold; lia|done].
    rewrite go_bind_Ret. cbn [ch_frames chain_of]. by rewrite Hi. }
  unfold sealEpoch. rewrite Etime, go_bind_Ret.
  set (time := last_time _ _ _ _) in *.
  revert Hv' Hne' Hb' En'. unfold next_epoch. cbn [ch_app ch_checkpoint chain_of ch_confirmed ch_frames]. fold time.
  cbv zeta. unfold p_Validators, p_EpochN, setEpochValidators.
  cbn [p_EpochState with_epoch with_app with_checkpoint p_app p_store p_Checkpoint PrevEpoch].
  rewrite Eep. cbn [EpochN ep_Validators].
  destruct (match SelectValidatorsGroup callback with Some f => f (p_app p) (EpochN ep) (u32 (EpochN ep + 1)) | None => _ end)
    as [vals app] eqn:Esel.
  cbn [fst snd EpochN ep_Validators]. intros Hv' Hne' Hb' En'.
  set (ep' := mkEpochState _ _ vals). set (cp' := mkCheckpoint 0 _ _ _).
  assert (epoch_ok ep') as Hepok by (split; [cbn; rewrite En'; word_unfold; lia|done]).
  destruct (plaw_SetEpoch _ _ ep' (ag_rep _ _ _ _ _ _ Hag) Hepok) as (t1 & E1 & Ht1). rewrite E1, go_bind_Ret.
  assert (checkpoint_ok cp') as Hcpok by (split; [word_unfold; cbn; lia|done..]).
  destruct (plaw_SetCheckpoint _ _ cp' Ht1 Hcpok) as (t2 & E2 & Ht2). unfold saveCheckpoint.
  cbn [p_store p_Checkpoint with_store with_checkpoint with_epoch with_app]. rewrite E2, !go_bind_Ret.
  cbn [p_EpochState p_vecClock p_store with_store with_checkpoint with_epoch with_app].
  rewrite <-En' in Hr, Hvd. change (u32 (EpochN ep + 1)) with (EpochN ep') in Hr, Hvd.
  destruct (openEpochDb (EpochN ep')) as [edb vdb]. cbn [fst snd] in Hr, Hvd.
  pose proof (plaw_RecreateEpochDb _ _ _ _ Ht2 Hr) as Ht3.
  destruct (Reset_simulates vals (input (EpochN ep')) (p_vecClock p) vdb []) as (vi & E3 & Hsim).
  { apply holds_empty; [|done]. destruct Hb' as [m ->]. by rewrite newValidators_copy. }
  change (ep_Validators ep') with vals. rewrite E3, go_bind_Ret. eexists _, _. split; [reflexivity|].
  assert (EpochN ep' = EpochN ep + 1) as En by done.
  split; [split; try done| | |].
  - intros r. cbn [pd_roots data_roots]. split; [by intros ?%elem_of_empty|].
    intros [Hn _]%is_root_spec. by apply elem_of_nil in Hn.
  - by intros h e Hn%elem_of_nil.
  - by intros h Hn%elem_of_nil.
  - by intros h Hn%elem_of_nil.
  - intros x y Hx Ho. cbn [pd_confirmed data_roots data_checkpoint data_epoch] in *.
    destruct (Hold x Hx) as (k & e & Hk & Ek). inversion Ho as [|? z ? Hxz]; subst; [done|].
    destruct Hxz as (e' & Ee' & _). pose proof (Hone _ _ _ _ _ Ek Ee'). lia.
  - intros x Hx. destruct (Hold x Hx) as (k & e & Hk & Ek). exists k, e. split; [lia|done].
  - apply run_start.
  - by left.
  - apply reach_new.
  - unfold chooseAtropos. cbn [p_election with_election]. cbn [el_validators Election_Reset].
    by destruct (Validators_SortedIDs vals).
  - intros r [Hn _]%is_root_spec. by apply elem_of_nil in Hn.
Qed.

(** ** Deciding frames *)

Context (Hhash : forall l, length (hash_Of l) = 32%nat).
Abbreviation settled := (settled input event_Hash hash_Of callback fuel).
Abbreviation node_ok := (node_ok input event_Hash hash_Of callback fuel).
Abbreviation epoch_run := (epoch_run input event_Hash hash_Of callback fuel).
Abbreviation events_fit := (events_fit input fuel).
Abbreviation next_epoch := (next_epoch callback).
Abbreviation graph_ok := (graph_ok input event_Hash).

(** Where a node is after an event: in the same epoch with more frames decided,
    or at the start of the next one. *)
Inductive outcome (ep : EpochState) (c0 : chain A) (hs hist : list hash) p : Prop :=
  | outcome_same hist' d P : hist `prefix_of` hist' -> node_ok ep c0 hs hist' d p P -> outcome ep c0 hs hist p
  | outcome_sealed hist' c d : hist `prefix_of` hist' -> graph_ok ep hs -> epoch_run ep c0 hs hist' c true ->
      node_ok (next_epoch ep c).1 (next_epoch ep c).2 [] [] d p [] -> outcome ep c0 hs hist p.

Lemma outcome_prefix ep c0 hs hist hist' p : hist `prefix_of` hist' -> outcome ep c0 hs hist' p -> outcome ep c0 hs hist p.
Proof.
  intros Hp [h d P Hp' Hn|h c d Hp' Hg Hr Hn]; [eapply outcome_same; [by etrans|done]|].
  eapply outcome_sealed; [by etrans|done..].
Qed.

Lemma chosen_event ep c0 hs hist d p (a : hash) :
  epoch_fits ep -> events_fit ep hs -> settled ep c0 hs hist d p ->
  chosen (ep_Validators ep) (input (EpochN ep)) hs (zlen hist + 1) a ->
  a ∈ hs /\ 0 < zlen hist + 1 < MaxInt32 /\ exists r, is_root (input (EpochN ep)) hs r /\ frame r = zlen hist + 1.
Proof.
  intros Hef [(B & HB & HBs & Hst) _ _] Hset Hc. pose proof (agree_dag _ _ _ (ef_copy _ Hef) _ _ _ (st_agree _ _ _ _ _ _ _ _ _ _ _ Hset)) as Hd.
  cbn [fst] in Hd. pose proof (zlen_nonneg hist).
  destruct (chosen_root _ (ef_vals _ _ Hef) _ hs Hd (st_frames _ _ _ _ _ _ _ _ _ _ _ Hset) B HB HBs Hst (zlen hist + 1) a ltac:(lia) Hc)
    as (r & Hr & <- & Ef).
  destruct (root_data _ _ _ Hd r Hr) as (Hh & _ & Hf & _). fold (frame r) in Hf.
  pose proof (frame_range _ (ef_vals _ _ Hef) _ _ Hd (st_frames _ _ _ _ _ _ _ _ _ _ _ Hset) _ Hh).
  destruct (dag_cr _ _ _ _ (ef_vals _ _ Hef) Hd Hh) as [_ Hsq].
  split; [done|]. split; [lia|]. by exists r.
Qed.

Lemma frame_step ep c0 hs hist d p (a : hash) :
  epoch_fits ep -> events_fit ep hs -> settled ep c0 hs hist d p ->
  chosen (ep_Validators ep) (input (EpochN ep)) hs (zlen hist + 1) a ->
  exists p' sealed, onFrameDecided input event_Hash hash_Of callback openEpochDb fuel p (zlen hist + 1) a = Ret (sealed, p') /\
    if sealed : bool
    then exists c d', epoch_run ep c0 hs (hist ++ [a]) c true /\
           node_ok (next_epoch ep c).1 (next_epoch ep c).2 [] [] d' p' []
    else exists d', settled ep c0 hs (hist ++ [a]) d' p' /\
           p_election p' = Election_New (ep_Validators ep) (zlen (hist ++ [a]) + 1).
Proof.
  intros Hef Hev Hset Hc. destruct (chosen_event ep c0 hs hist d p a Hef Hev Hset Hc) as (Ha & Hrange & _).
  pose proof (ef_copy _ Hef) as Hcopy. destruct Hset as [S1 S2 S3 S4 S5 S6 S7 S8 S9 S10 S11 S12 S13 S14].
  assert (is_u32 (EpochN ep)) as Hn by (pose proof (ef_epoch _ _ Hef); word_unfold; lia).
  destruct (onFrameDecided_spec input event_Hash hash_Of Hhash callback openEpochDb fuel (EpochN ep) Hn (ep_Validators ep)
              (ef_vals _ _ Hef) Hcopy hs S5 (vf_confirm _ _ _ _ Hev) d p (zlen hist + 1) a S1 Ha (S6 a Ha) S7 Hrange)
    as (clk & d1 & p1 & Hclk & [F1 F2 F3 F4 F5 F6 F7 F8 F9 F10] & E).
  { by rewrite Z.add_simpl_r. }
  { done. }
  rewrite S2 in *.
  set (r := decide_frame event_Hash hash_Of callback fuel (ep_Validators ep) (input (EpochN ep)) (EpochN ep)
              (gs_Time (PrevEpoch ep)) clk (chain_of d p) (zlen hist + 1) a) in *.
  destruct (decide_frame_fields event_Hash hash_Of callback fuel (ep_Validators ep) (input (EpochN ep)) (EpochN ep)
              (gs_Time (PrevEpoch ep)) clk (chain_of d p) (zlen hist + 1) a) as (D1 & D2 & _). fold r in D1, D2.
  assert (epoch_run ep c0 hs (hist ++ [a]) (chain_of d1 p1) r.1.2) as Hrun by (rewrite F2; by apply run_step).
  rewrite <-F2 in D1, D2. cbn [ch_confirmed ch_checkpoint chain_of] in D1, D2.
  assert (forall x : hash, default 0 (pd_confirmed d1 !! x) <> 0 -> exists k e, k <= EpochN ep /\ input k x = Some e) as Hold.
  { intros x. rewrite D1, <-elem_of_confirmed_set, elem_of_mark_confirmed by lia. intros [Hx|Hx%elem_of_confirmed_set]; [|by apply S8].
    apply list_elem_of_fmap in Hx as (e & -> & He). exists (EpochN ep), e. split; [lia|].
    eapply newly_within in He as [_ He]; [done|exact S5|]. by intros x ->%list_elem_of_singleton. }
  rewrite E. destruct r.1.2 eqn:Es.
  - destruct (sealEpoch_spec ep hs d1 p1 Hef F1 F3 Hold F10) as (d' & p' & Ep' & Hnode); [lia|by rewrite D2|].
    exists p', true. rewrite Ep', go_bind_Ret. split; [done|]. by exists (chain_of d1 p1), d'.
  - exists p1, false. rewrite go_bind_Ret. split; [done|]. exists d1. rewrite zlen_app. change (zlen [a]) with 1. split.
    + split; try done.
      * intros r0. unfold roots_known in S3. rewrite F5. apply S3.
      * by rewrite F7.
      * by rewrite zlen_app.
      * right. by rewrite zlen_app.
    + rewrite F4. f_equal. apply u32_id. word_unfold. lia.
Qed.

Lemma hist_range ep c0 hs hist d p :
  epoch_fits ep -> events_fit ep hs -> settled ep c0 hs hist d p -> 0 <= zlen hist < MaxInt32.
Proof.
  intros Hef [(B & HB & HBs & Hst) _ _] Hset.
  pose proof (agree_dag _ _ _ (ef_copy _ Hef) _ _ _ (st_agree _ _ _ _ _ _ _ _ _ _ _ Hset)) as Hd. cbn [fst] in Hd.
  pose proof (zlen_nonneg hist). destruct (st_run _ _ _ _ _ _ _ _ _ _ _ Hset) as [|hist' c a clk _ Hc _]; [unfold zlen, MaxInt32; simpl; lia|].
  rewrite zlen_app in *. change (zlen [a]) with 1 in *. pose proof (zlen_nonneg hist').
  destruct (chosen_root _ (ef_vals _ _ Hef) _ hs Hd (st_frames _ _ _ _ _ _ _ _ _ _ _ Hset) B HB HBs Hst (zlen hist' + 1) a ltac:(lia) Hc)
    as (r & Hr & <- & Ef).
  destruct (root_data _ _ _ Hd r Hr) as (Hh & _ & Hf & _). fold (frame r) in Hf.
  pose proof (frame_range _ (ef_vals _ _ Hef) _ _ Hd (st_frames _ _ _ _ _ _ _ _ _ _ _ Hset) _ Hh).
  destruct (dag_cr _ _ _ _ (ef_vals _ _ Hef) Hd Hh) as [_ Hsq]. lia.
Qed.

Lemma length_roots_of (get : hash -> option EventHeaderData) hs : (length (roots_of get hs) <= length hs)%nat.
Proof. unfold roots_of. induction hs as [|h hs IH]; [done|]. cbn [omap list_omap length]. destruct (root_at get h); simpl; lia. Qed.

(** A new election is open. *)
Lemma choose_new ep f : epoch_fits ep -> chooseAtropos (Election_New (ep_Validators ep) f) = inr None.
Proof.
  intros Hef. unfold chooseAtropos. cbn [el_validators Election_New Election_Reset]. pose proof (ef_some _ _ Hef).
  by destruct (Validators_SortedIDs (ep_Validators ep)).
Qed.

(** What is settled does not depend on the election. *)
Lemma settled_same ep c0 hs hist d p p' : settled ep c0 hs hist d p ->
  agree input (EpochN ep) (ep_Validators ep) (hs, hs) d p' -> same (with_election p (p_election p')) p' -> settled ep c0 hs hist d p'.
Proof.
  intros [S1 S2 S3 S4 S5 S6 S7 S8 S9 S10 S11 S12 S13 S14] Hag [E1 E2 _ E4]. cbn in E1, E2, E4.
  split; try done; [congruence|congruence| |congruence|congruence]. unfold chain_of in *. by rewrite E1, E4.
Qed.

Lemma settled_graph ep c0 hs hist d p : epoch_fits ep -> settled ep c0 hs hist d p -> graph_ok ep hs.
Proof.
  intros Hef Hset. split; [|apply Hset..]. apply (agree_dag _ _ _ (ef_copy _ Hef) _ _ _ (st_agree _ _ _ _ _ _ _ _ _ _ _ Hset)).
Qed.

(** A result of the election is one that the graph chooses. *)
Lemma elected_chosen ep c0 hs hist d p P p' P' res :
  epoch_fits ep -> events_fit ep hs -> settled ep c0 hs hist d p ->
  elected input (EpochN ep) (ep_Validators ep) hs d p P (zlen hist + 1) (Some res) p' P' ->
  res_Frame res = zlen hist + 1 /\ chosen (ep_Validators ep) (input (EpochN ep)) hs (zlen hist + 1) (res_Atropos res).
Proof.
  intros Hef [(B & HB & HBs & Hst) _ _] Hset [E1 E2 E3 E4 E5].
  pose proof (agree_dag _ _ _ (ef_copy _ Hef) _ _ _ (st_agree _ _ _ _ _ _ _ _ _ _ _ Hset)) as Hd. cbn [fst] in Hd.
  pose proof (zlen_nonneg hist).
  pose proof (graph_roots_ok _ (ef_vals _ _ Hef) _ hs Hd (st_frames _ _ _ _ _ _ _ _ _ _ _ Hset) B HB HBs Hst (zlen hist + 1) ltac:(lia)) as HW.
  pose proof (reach_ok _ _ _ _ (ef_vals _ _ Hef) HW ltac:(lia) _ _ E3) as Hel.
  assert (res_Frame res = zlen hist + 1) as Hf.
  { unfold chooseAtropos in E4. revert E4. generalize (Validators_SortedIDs (el_validators (p_election p'))) as l.
    induction l as [|v l IH]; simpl; [done|]. destruct (decidedRoots (p_election p') !! v) as [vote|]; [|done].
    destruct (yes vote); [|apply IH]. intros [= <-]. apply (eo_frame _ _ _ _ _ _ Hel). }
  split; [done|]. exists P', (p_election p'). split; [done|]. rewrite E4. destruct res. simpl in *. by subst.
Qed.

(** The election [decideKnown] starts from is new: it is reachable. *)
Lemma decideKnown_spec ep c0 hs (m : nat) : forall hist d p,
  epoch_fits ep -> events_fit ep hs -> settled ep c0 hs hist d p ->
  p_election p = Election_New (ep_Validators ep) (zlen hist + 1) ->
  (length (roots_from input (EpochN ep) hs (zlen hist + 1)) < m)%nat ->
  exists p', decideKnown input event_Hash hash_Of callback openEpochDb fuel m p = Ret p' /\ outcome ep c0 hs hist p'.
Proof.
  induction m as [|m IH]; intros hist d p Hef Hev Hset Hel Hm; [lia|]. cbn [decideKnown].
  pose proof (ef_copy _ Hef) as Hcopy. pose proof (zlen_nonneg hist) as Hnn.
  pose proof (agree_dag _ _ _ Hcopy _ _ _ (st_agree _ _ _ _ _ _ _ _ _ _ _ Hset)) as Hd. cbn [fst] in Hd.
  destruct (vf_byzantine _ _ _ _ Hev) as (B & HB & HBs & Hst).
  assert (forall f, length (roots_from input (EpochN ep) hs f) < fuel)%nat as Hrounds.
  { intros f. eapply Nat.le_lt_trans; [|apply (vf_rounds _ _ _ _ Hev)]. unfold roots_from.
    etrans; [apply length_filter|apply length_roots_of]. }
  destruct (processKnownFrom_spec input (EpochN ep) (ep_Validators ep) (ef_vals _ _ Hef) Hcopy hs Hd
              (st_frames _ _ _ _ _ _ _ _ _ _ _ Hset) B HB HBs Hst d (zlen hist + 1) fuel p [] (zlen hist + 1))
    as (dec & p1 & P1 & E1 & He1 & Hall).
  - apply Hset.
  - apply Hset.
  - lia.
  - rewrite Hel. apply reach_new.
  - rewrite Hel. by apply choose_new.
  - pose proof (hist_range _ _ _ _ _ _ Hef Hev Hset). lia.
  - intros r _ Hr. lia.
  - apply Hrounds.
  - unfold processKnownRoots. pose proof (hist_range _ _ _ _ _ _ Hef Hev Hset).
    rewrite (st_ldf _ _ _ _ _ _ _ _ _ _ _ Hset), u32_id, E1, go_bind_Ret by (word_unfold; lia).
    pose proof (settled_same _ _ _ _ _ _ p1 Hset (ed_agree _ _ _ _ _ _ _ _ _ _ _ He1) (ed_same _ _ _ _ _ _ _ _ _ _ _ He1)) as Hset1.
    destruct dec as [res|].
    + destruct (elected_chosen _ _ _ _ _ _ _ _ _ _ Hef Hev Hset He1) as [Hf Hc].
      destruct (frame_step _ _ _ _ _ _ _ Hef Hev Hset1 Hc) as (p2 & sealed & E2 & Hout).
      rewrite Hf, E2, go_bind_Ret. destruct sealed.
      * pose proof (settled_graph _ _ _ _ _ _ Hef Hset) as Hg. destruct Hout as (c & d' & Hrun & Hnode). exists p2. split; [done|].
        eapply outcome_sealed; [|exact Hg|exact Hrun|exact Hnode]. by apply prefix_app_r.
      * destruct Hout as (d' & Hset2 & Hel2).
        destruct (IH _ _ _ Hef Hev Hset2 Hel2) as (p3 & E3 & Hout3).
        { rewrite zlen_app. change (zlen [res_Atropos res]) with 1.
          destruct (chosen_event _ _ _ _ _ _ _ Hef Hev Hset1 Hc) as (_ & _ & r & Hr & Hfr).
          pose proof (roots_from_lt input (EpochN ep) hs _ r Hr Hfr). lia. }
        exists p3. split; [done|]. eapply outcome_prefix; [|exact Hout3]. by apply prefix_app_r.
    + exists p1. split; [done|]. eapply (outcome_same _ _ _ _ _ hist d P1); [done|]. destruct He1. split; try done. by apply Hall.
Qed.

(** ** Processing an event *)

Context (keccak_rlp_genesis : GenesisState -> bytes).
Abbreviation candidate ep := (candidate input event_Hash (EpochN ep) (ep_Validators ep) fuel).

(** The state with the new event connected and saved, before its election. *)
Lemma settled_snoc ep c0 hs hist d p (h : hash) e p' :
  epoch_fits ep -> settled ep c0 hs hist d p -> candidate ep hs h e -> frame_rule input (EpochN ep) (ep_Validators ep) h e ->
  agree input (EpochN ep) (ep_Validators ep) (hs ++ [h], hs ++ [h]) (data_with d h e) p' -> same p p' ->
  settled ep c0 (hs ++ [h]) hist (data_with d h e) p'.
Proof.
  intros Hef [S1 S2 S3 S4 S5 S6 S7 S8 S9 S10 S11 S12 S13 S14] Hc Hrule Hag [E1 E2 E3 E4].
  pose proof (ef_copy _ Hef) as Hcopy.
  pose proof (agree_dag _ _ _ Hcopy _ _ _ S1) as Hd. pose proof (agree_dag _ _ _ Hcopy _ _ _ Hag) as Hd'. cbn [fst] in Hd, Hd'.
  assert (pd_confirmed (data_with d h e) = pd_confirmed d /\ pd_frames (data_with d h e) = pd_frames d /\
          pd_checkpoint (data_with d h e) = pd_checkpoint d /\ pd_epoch (data_with d h e) = pd_epoch d) as (D1 & D2 & D3 & D4)
    by (unfold data_with; by destruct (IsRoot e)).
  split; try done.
  - congruence.
  - apply (roots_known_with input event_Hash); [exact (ca_get _ _ _ _ _ _ _ _ Hc)|done].
  - intros x ex Hx Ex. apply elem_of_app in Hx as [Hx|Hx%list_elem_of_singleton]; [by apply S4|].
    subst x. assert (ex = e) as -> by (pose proof (ca_get _ _ _ _ _ _ _ _ Hc); congruence). apply Hrule.
  - intros x [Hx|Hx%list_elem_of_singleton]%elem_of_app.
    + destruct (S5 x Hx) as (ex & ? & ? & Hp). exists ex. split_and!; [done..|]. intros q Hq. apply elem_of_app. left. by apply Hp.
    + subst x. exists e. split; [exact (ca_get _ _ _ _ _ _ _ _ Hc)|]. split; [exact (ca_hash _ _ _ _ _ _ _ _ Hc)|]. intros q Hq. apply elem_of_app. left.
      by apply (ek_parents _ _ _ _ (ca_ok _ _ _ _ _ _ _ _ Hc)).
  - intros x [Hx|Hx%list_elem_of_singleton]%elem_of_app; [by apply S6|]. subst x. exact (ca_length _ _ _ _ _ _ _ _ Hc).
  - unfold confirmed_closed. by rewrite D1.
  - by rewrite D1.
  - congruence.
  - congruence.
  - unfold epoch_run, PosetRun.epoch_run. unfold chain_of. rewrite D1, D2, E1, E4.
    apply (decided_run_mono event_Hash hash_Of callback fuel _ (ef_vals _ _ Hef) _ _ _ _ hs); [done|done|set_solver|done].
  - congruence.
  - by rewrite D2.
  - congruence.
Qed.

(** The next event is connected to the graph; the rest of the state may be
    that of another run. *)
Lemma handleElection_spec ep c0 hs hist d p (h : hash) e P :
  epoch_fits ep -> events_fit ep hs -> settled ep c0 hs hist d p -> h ∈ hs -> event_Hash e = h -> input (EpochN ep) h = Some e ->
  reach (ep_Validators ep) (is_root (input (EpochN ep)) hs) (Obs (ep_Validators ep) (input (EpochN ep)) hs) (zlen hist + 1) P (p_election p) ->
  chooseAtropos (p_election p) = inr None ->
  (forall r, is_root (input (EpochN ep)) hs r -> root_ID r <> h -> zlen hist + 1 < frame r -> r ∈ P) ->
  exists p', handleElection input event_Hash hash_Of callback openEpochDb fuel p (Some e) = Ret p' /\
    outcome ep c0 hs hist p'.
Proof.
  intros Hef Hev Hset Hh Heh He Hreach Hopen' Hall. pose proof (ef_copy _ Hef) as Hcopy.
  pose proof (agree_dag _ _ _ Hcopy _ _ _ (st_agree _ _ _ _ _ _ _ _ _ _ _ Hset)) as Hd. cbn [fst] in Hd.
  unfold handleElection. destruct (IsRoot e) eqn:Er; cbn [negb].
  2:{ exists p. split; [done|]. eapply (outcome_same _ _ _ _ _ hist d P); [done|]. split; try done.
      intros r Hr Hfr. apply Hall; try done. intros E. apply is_root_spec in Hr as (_ & e' & He' & Hr' & _). congruence. }
  set (X := mkRoot h (mkSlot (Frame e) (Creator e))).
  assert (is_root (input (EpochN ep)) hs X) as HX by (apply is_root_spec; cbn; eauto).
  destruct (vf_byzantine _ _ _ _ Hev) as (B & HB & HBs & Hst). pose proof (hist_range _ _ _ _ _ _ Hef Hev Hset) as Hrange.
  assert (Heq : forall r, is_root (input (EpochN ep)) hs r -> root_ID r = h -> r = X).
  { intros r (_ & e' & He' & _ & Es)%is_root_spec E. rewrite E, He in He'. injection He' as <-.
    destruct r. cbn in *. by subst. }
  destruct (processRoot_spec input (EpochN ep) (ep_Validators ep) (ef_vals _ _ Hef) Hcopy hs Hd
              (st_frames _ _ _ _ _ _ _ _ _ _ _ Hset) B HB HBs Hst d p P (zlen hist + 1) X)
    as (dec & p1 & E1 & Hag1 & Hs1 & Hch & Hcase).
  - apply Hset.
  - apply Hset.
  - lia.
  - done.
  - done.
  - done.
  - intros Hf r Hr. destruct (root_data _ _ _ Hd X HX) as (Hxh & _ & Hxf & _). fold (frame X) in Hxf.
    apply (elem_of_Obs _ (ef_vals _ _ Hef) _ _ Hd) in Hr as (Hr & Hrf & _); [|done]. fold (frame r) in Hrf.
    apply Hall; [done| |lia]. intros E. apply Heq in E; [|done]. subst r. lia.
  - cbn [root_Slot slot_Frame slot_Validator root_ID X] in E1. rewrite Heh, E1, go_bind_Ret.
    pose proof (settled_same _ _ _ _ _ _ p1 Hset Hag1 Hs1) as Hset1.
    assert (exists P1, elected input (EpochN ep) (ep_Validators ep) hs d p P (zlen hist + 1) dec p1 P1 /\
              (zlen hist + 1 < frame X -> X ∈ P1)) as (P1 & He1 & HX1).
    { case_decide as Hlt; [exists (X :: P)|exists P].
      - split; [split; try done; intros r; apply list_elem_of_further|]. intros _. apply list_elem_of_here.
      - split; [split; try done; by rewrite Hcase|]. lia. }
    destruct dec as [res|].
    + destruct (elected_chosen _ _ _ _ _ _ _ _ _ _ Hef Hev Hset He1) as [Hf Hc].
      destruct (frame_step _ _ _ _ _ _ _ Hef Hev Hset1 Hc) as (p2 & sealed & E2 & Hout).
      rewrite Hf, E2, go_bind_Ret. destruct sealed.
      * pose proof (settled_graph _ _ _ _ _ _ Hef Hset) as Hg. destruct Hout as (c & d' & Hrun & Hnode). exists p2. split; [done|].
        eapply outcome_sealed; [|exact Hg|exact Hrun|exact Hnode]. by apply prefix_app_r.
      * destruct Hout as (d' & Hset2 & Hel2).
        destruct (decideKnown_spec ep c0 hs fuel _ _ _ Hef Hev Hset2 Hel2) as (p3 & E3 & Hout3).
        { eapply Nat.le_lt_trans; [|apply (vf_rounds _ _ _ _ Hev)]. unfold roots_from.
          etrans; [apply length_filter|apply length_roots_of]. }
        exists p3. split; [done|]. eapply outcome_prefix; [|exact Hout3]. by apply prefix_app_r.
    + exists p1. split; [done|]. eapply (outcome_same _ _ _ _ _ hist d P1); [done|]. destruct He1 as [A1 A2 A3 A4 A5]. split; try done.
      intros r Hr Hfr. destruct (decide (root_ID r = h)) as [E|Hne].
      * rewrite (Heq r Hr E) in *. by apply HX1.
      * by apply A5, Hall.
Qed.

Lemma ProcessEvent_spec ep c0 hs hist d p P (h : hash) e :
  epoch_fits ep -> events_fit ep (hs ++ [h]) -> node_ok ep c0 hs hist d p P -> candidate ep hs h e ->
  exists err p', ProcessEvent input event_Hash keccak_rlp_genesis hash_Of callback openEpochDb fuel p e = Ret (err, p') /\
    match err with
    | Some _ => node_ok ep c0 hs hist d p' P /\ same p p'
    | None => frame_rule input (EpochN ep) (ep_Validators ep) h e /\ outcome ep c0 (hs ++ [h]) hist p'
    end.
Proof.
  intros Hef Hev [Hset Hreach Hop Hall] Hc. unfold ProcessEvent.
  destruct (epochcheck_Validate _ _ e) as [ce|]; [by exists (Some (ErrEpochCheck ce)), p|].
  destruct (checkAndSaveEvent_spec input event_Hash (EpochN ep) (ep_Validators ep) (ef_vals _ _ Hef) (ef_copy _ Hef)
              keccak_rlp_genesis fuel hs d p h e (st_agree _ _ _ _ _ _ _ _ _ _ _ Hset) Hc
              (st_roots _ _ _ _ _ _ _ _ _ _ _ Hset) (st_frames _ _ _ _ _ _ _ _ _ _ _ Hset)) as (err & p1 & E1 & Hs1 & Hcase).
  rewrite E1, go_bind_Ret. destruct err as [err|].
  - exists (Some err), p1. split; [done|]. split; [|done]. destruct Hs1 as [M1 M2 M3 M4].
    split; [|by rewrite M3|by rewrite M3|done]. apply (settled_same _ _ _ _ _ p); [done|done|by split].
  - destruct Hcase as [Hrule Hag1]. pose proof (settled_snoc _ _ _ _ _ _ _ _ _ Hef Hset Hc Hrule Hag1 Hs1) as Hset1.
    pose proof (agree_dag _ _ _ (ef_copy _ Hef) _ _ _ (st_agree _ _ _ _ _ _ _ _ _ _ _ Hset)) as Hd.
    pose proof (agree_dag _ _ _ (ef_copy _ Hef) _ _ _ Hag1) as Hd'. cbn [fst] in Hd, Hd'.
    destruct (handleElection_spec ep c0 (hs ++ [h]) hist _ p1 h e P Hef Hev Hset1) as (p2 & E2 & Hout).
    + set_solver.
    + exact (ca_hash _ _ _ _ _ _ _ _ Hc).
    + exact (ca_get _ _ _ _ _ _ _ _ Hc).
    + rewrite (sm_election _ _ Hs1). apply (reach_mono _ (ef_vals _ _ Hef) _ hs); [done|done|set_solver|done].
    + by rewrite (sm_election _ _ Hs1).
    + intros r Hr Hne. apply Hall. apply is_root_spec in Hr as [[Hr|Hr%list_elem_of_singleton]%elem_of_app Hex]; [|done].
      by apply is_root_spec.
    + rewrite E2, go_bind_Ret. by exists None, p2.
Qed.


(** ** Start *)

(** [Bootstrap] over the databases that a node with this state has written. *)
Lemma Bootstrap_spec ep c0 hs hist d p (fc : F) (t : T) :
  epoch_fits ep -> events_fit ep hs -> settled ep c0 hs hist d p -> ps_rep t d ->
  ps_epoch_roots (openEpochDb (EpochN ep)).1 (pd_roots d) ->
  holds_events (ep_Validators ep) (input (EpochN ep)) (openEpochDb (EpochN ep)).2 hs ->
  exists p', Bootstrap input event_Hash hash_Of callback openEpochDb fuel fc (inl t) (p_app p) = Ret p' /\
    outcome ep c0 hs hist p'.
Proof.
  intros Hef Hev Hset Ht Hroots Hvecs. pose proof (hist_range _ _ _ _ _ _ Hef Hev Hset) as Hrange.
  unfold Bootstrap. rewrite (plaw_GetCheckpoint t d Ht), go_bind_Ret, (st_cp _ _ _ _ _ _ _ _ _ _ _ Hset).
  unfold loadEpoch. rewrite (plaw_GetEpoch t d Ht), go_bind_Ret, (st_ep _ _ _ _ _ _ _ _ _ _ _ Hset).
  destruct (openEpochDb (EpochN ep)) as [edb vdb] eqn:Eo. cbn [fst snd] in Hroots, Hvecs. rewrite go_bind_Ret.
  pose proof (plaw_RecreateEpochDb t d edb _ Ht Hroots) as Ht'.
  destruct (Reset_simulates (ep_Validators ep) (input (EpochN ep)) (mkIndex (ep_Validators ep) None vdb fc) vdb hs Hvecs) as (vi & Evi & Hsim).
  unfold NewIndex. rewrite Evi, go_bind_Ret. unfold handleElection.
  set (p1 := mkPoset _ _ _ _ _ _).
  assert (data_roots d (pd_roots d) = d) as Ed by (by destruct d). rewrite Ed in Ht'.
  assert (settled ep c0 hs hist d p1) as Hset1.
  { destruct Hset as [S1 S2 S3 S4 S5 S6 S7 S8 S9 S10 S11 S12 S13 S14]. by split. }
  destruct (decideKnown_spec ep c0 hs fuel hist d p1 Hef Hev Hset1) as (p2 & E2 & Hout).
  - unfold p1. cbn [p_election]. f_equal. rewrite (st_ldf _ _ _ _ _ _ _ _ _ _ _ Hset). apply u32_id. word_unfold. lia.
  - eapply Nat.le_lt_trans; [|apply (vf_rounds _ _ _ _ Hev)]. unfold roots_from.
    etrans; [apply length_filter|apply length_roots_of].
  - exists p2. split; [exact E2|done].
Qed.

(** The data of a store to which the genesis was applied. *)
Record genesis_data (ep : EpochState) (cp : Checkpoint) (d : PosetData) : Prop := {
  gd_roots : pd_roots d = ∅;
  gd_confirmed : pd_confirmed d = ∅;
  gd_frames : pd_frames d = ∅;
  gd_cp : pd_checkpoint d = Some cp;
  gd_ep : pd_epoch d = Some ep;
  gd_frame : LastDecidedFrame cp = 0;
  gd_cpok : checkpoint_ok cp
}.

Lemma Bootstrap_genesis ep cp d (fc : F) (t : T) (app : A) :
  epoch_fits ep -> events_fit ep [] -> genesis_data ep cp d -> ps_rep t d ->
  ps_epoch_roots (openEpochDb (EpochN ep)).1 ∅ -> rep (openEpochDb (EpochN ep)).2 emptyVecData emptyVecData ->
  exists p', Bootstrap input event_Hash hash_Of callback openEpochDb fuel fc (inl t) app = Ret p' /\
    outcome ep (mkChain ∅ ∅ cp app) [] [] p'.
Proof.
  intros Hef Hev [D1 D2 D3 D4 D5 D6 D7] Ht Hroots Hvecs.
  assert (holds_events (ep_Validators ep) (input (EpochN ep)) (openEpochDb (EpochN ep)).2 []) as Hv.
  { apply holds_empty; [|done]. rewrite (ef_copy _ Hef). apply (ef_vals _ _ Hef). }
  destruct (Reset_simulates (ep_Validators ep) (input (EpochN ep))
              (mkIndex (ep_Validators ep) None (openEpochDb (EpochN ep)).2 fc) _ [] Hv) as (vi & _ & Hsim).
  apply (Bootstrap_spec ep (mkChain ∅ ∅ cp app) [] [] d (mkPoset t cp ep (Election_New (ep_Validators ep) 1) vi app)); try done.
  2:{ by rewrite D1. }
  split; try done.
  - intros r. rewrite D1. split; [by intros ?%elem_of_empty|]. intros [Hn _]%is_root_spec. by apply elem_of_nil in Hn.
  - by intros h e Hn%elem_of_nil.
  - by intros h Hn%elem_of_nil.
  - by intros h Hn%elem_of_nil.
  - intros x y Hx. by rewrite D2 in Hx.
  - intros x Hx. by rewrite D2 in Hx.
  - unfold chain_of. rewrite D2, D3. apply run_start.
  - by left.
Qed.

End sealing.
