(* ===== verification/PosetAgree.v ===== *)
(** * The nodes of the network agree

    The nodes as a state machine ([node_run]): they start over the same
    genesis, process events that passed the event checks in any order in which
    parents come first, stop, and start again over what they wrote.  Every state
    satisfies the invariant of [PosetRun], no step faults, and two nodes that
    are in the same epoch and have decided the same number of frames have the
    same checkpoint, the same marks and the same state of the application. *)

From S2P Require Import Prelude Bytes Kvdb KvdbLaws Pos Event Vector VecStore VecIndex Dag VecInv VecMerge VecWalk VecAdd ForklessCause VecSpec VecExample MedianTime VecMerged EventCheck Election ElectionSafety ElectionYes PosetStore Poset PosetOrder PosetConfirm PosetRoots PosetNode PosetElect PosetDecide PosetRun.

(** ** The union of two graphs *)

Definition union_of (hs1 hs2 : list hash) : list hash := hs1 ++ filter (fun h => h ∉ hs1) hs2.

Lemma elem_of_union_of (hs1 hs2 : list hash) (h : hash) : h ∈ union_of hs1 hs2 <-> h ∈ hs1 \/ h ∈ hs2.
Proof. unfold union_of. rewrite elem_of_app, list_elem_of_filter. destruct (decide (h ∈ hs1)); naive_solver. Qed.

Section union.
Context (V : Validators) (G : hash -> option EventHeaderData).

Lemma dag_union (hs1 hs2 : list hash) : dag V G hs1 -> dag V G hs2 -> dag V G (union_of hs1 hs2).
Proof.
  intros H1. induction 1 as [|hs h e Hd IH Hn He Hok]; [unfold union_of; by rewrite app_nil_r|].
  unfold union_of in *. rewrite filter_app, filter_cons, filter_nil. case_decide as Hin; [|by rewrite app_nil_r].
  rewrite app_assoc. apply (dag_snoc _ _ _ h e IH); [|done|].
  - rewrite elem_of_app, list_elem_of_filter. naive_solver.
  - apply (event_ok_mono V G hs); [|done]. intros x Hx. fold (union_of hs1 hs). apply elem_of_union_of. by right.
Qed.

Lemma frames_union (hs1 hs2 : list hash) :
  frames_ok V G hs1 -> frames_ok V G hs2 -> frames_ok V G (union_of hs1 hs2).
Proof. intros H1 H2 h e [Hh|Hh]%elem_of_union_of; [by apply H1|by apply H2]. Qed.

Lemma stored_union event_Hash (hs1 hs2 : list hash) :
  stored_closed G event_Hash hs1 -> stored_closed G event_Hash hs2 -> stored_closed G event_Hash (union_of hs1 hs2).
Proof.
  intros H1 H2 h [Hh|Hh]%elem_of_union_of.
  - destruct (H1 h Hh) as (e & ? & ? & Hp). exists e. split_and!; [done..|]. intros q Hq. apply elem_of_union_of. left. by apply Hp.
  - destruct (H2 h Hh) as (e & ? & ? & Hp). exists e. split_and!; [done..|]. intros q Hq. apply elem_of_union_of. right. by apply Hp.
Qed.

Lemma byzantine_mono (hs hs' : list hash) B : hs ⊆ hs' -> byzantine V G hs' B -> byzantine V G hs B.
Proof. intros Hs HB c x y Hx Hy. apply HB; by apply Hs. Qed.
End union.

(** ** An election stays with its frame *)

Definition frame_after (r : el_error * Election + Election) : Z :=
  match r with inl (_, el) | inr el => frameToDecide el end.

Lemma voteSubject_frame round id obsMap obs el s r :
  voteSubject round id obsMap obs el s = Ret r -> frame_after r = frameToDecide el.
Proof.
  unfold voteSubject. case_match; [by intros [= <-]|]. intros (res & _ & E)%go_bind_inv.
  destruct res as [err|tl]; [by injection E as <-|]. case_match; [done|]. by injection E as <-.
Qed.

Lemma voteSubjects_frame round id obsMap obs l : forall el r,
  voteSubjects round id obsMap obs el l = Ret r -> frame_after r = frameToDecide el.
Proof.
  induction l as [|s l IH]; intros el r; cbn [voteSubjects]; [by intros [= <-]|].
  intros (r1 & Es%voteSubject_frame & E)%go_bind_inv. destruct r1 as [err|el1]; [by injection E as <-|].
  by rewrite (IH _ _ E).
Qed.

Lemma ProcessRoot_frame observe roots el X res el' :
  ProcessRoot observe roots el X = Ret (res, el') -> frameToDecide el' = frameToDecide el.
Proof.
  unfold ProcessRoot. destruct (chooseAtropos el) as [|[|]]; [by intros [= _ <-]..|].
  case_match; [by intros [= _ <-]|]. case_match; [by intros [= _ <-]|].
  intros (subj & _ & (r & Er%voteSubjects_frame & E)%go_bind_inv)%go_bind_inv.
  destruct r as [[err el1]|el1]; by injection E as _ <-.
Qed.

Section network.
Context {T EDB VT F A : Type} `{HP : PosetStoreLaws T EDB} `{HV : VecStoreLaws VT} `{HL : LruLaws (hash * hash) bool F}.
Context (input : Z -> hash -> option EventHeaderData) (event_Hash : EventHeaderData -> hash).
Context (keccak_rlp_genesis : GenesisState -> bytes) (hash_Of : list bytes -> hash) (callback : ConsensusCallbacks A) (fuel : nat).
(** The events of each epoch that reach the nodes. *)
Context (K : Z -> list hash).
(** What the genesis gives to every node. *)
Context (ep0 : EpochState) (cp0 : Checkpoint) (app0 : A).
Implicit Types p : Poset T VT F A.
Abbreviation node_ok := (node_ok input event_Hash hash_Of callback fuel).
Abbreviation epoch_run := (epoch_run input event_Hash hash_Of callback fuel).
Abbreviation next_epoch := (next_epoch callback).
Abbreviation candidate ep := (candidate input event_Hash (EpochN ep) (ep_Validators ep) fuel).
Abbreviation graph ep := (input (EpochN ep)).
Abbreviation graph_ok := (graph_ok input event_Hash).
Abbreviation outcome := (outcome input event_Hash hash_Of callback fuel).

(** Less than a third of the stake forks in the epoch. *)
Definition honest (ep : EpochState) : Prop :=
  exists B, byzantine (ep_Validators ep) (graph ep) (K (EpochN ep)) B /\ B ⊆ all_idx (ep_Validators ep) /\
    3 * stake_of (ep_Validators ep) B < Validators_TotalStake (ep_Validators ep).

(** The fuel covers the walks over the events [hs]. *)
Record fuel_ok (ep : EpochState) (hs : list hash) : Prop := {
  fo_confirm : (confirm_fuel (graph ep) hs <= fuel)%nat;
  fo_rounds : (length hs < fuel)%nat
}.

Lemma honest_fits ep hs : honest ep -> hs ⊆ K (EpochN ep) -> fuel_ok ep hs -> events_fit input fuel ep hs.
Proof.
  intros (B & HB & Hs & Hst) Hk [Hc Hr]. split; [|done|done]. exists B. split; [|done]. by apply (byzantine_mono _ _ hs (K (EpochN ep))).
Qed.

(** ** The nodes *)

(** The events of a node: none at the beginning of an epoch. *)
Definition events_after p p' (hs : list hash) : list hash := if p_EpochN p' =? p_EpochN p then hs else [].

(** The store and the databases of the epoch as they are found after a stop. *)
Record reopened (hs : list hash) p (t : T) (openEpochDb : Z -> EDB * VT) : Prop := {
  ro_data d : ps_rep (p_store p) d ->
    ps_rep t d /\ ps_epoch_roots (openEpochDb (EpochN (p_EpochState p))).1 (pd_roots d);
  ro_vectors : holds_events (ep_Validators (p_EpochState p)) (graph (p_EpochState p))
                 (openEpochDb (EpochN (p_EpochState p))).2 hs
}.

Inductive node_run : list hash -> Poset T VT F A -> Prop :=
  | run_genesis (fc : F) (t : T) d openEpochDb p :
      epoch_fits openEpochDb ep0 -> honest ep0 -> fuel_ok ep0 [] -> genesis_data ep0 cp0 d -> ps_rep t d ->
      ps_epoch_roots (openEpochDb (EpochN ep0)).1 ∅ -> rep (openEpochDb (EpochN ep0)).2 emptyVecData emptyVecData ->
      Bootstrap input event_Hash hash_Of callback openEpochDb fuel fc (inl t) app0 = Ret p ->
      node_run [] p
  | run_event (hs : list hash) p openEpochDb (h : hash) e err p' :
      node_run hs p -> epoch_fits openEpochDb (p_EpochState p) -> honest (p_EpochState p) ->
      fuel_ok (p_EpochState p) (hs ++ [h]) -> candidate (p_EpochState p) hs h e -> h ∈ K (p_EpochN p) ->
      ProcessEvent input event_Hash keccak_rlp_genesis hash_Of callback openEpochDb fuel p e = Ret (err, p') ->
      node_run (events_after p p' (if err is Some _ then hs else hs ++ [h])) p'
  | run_prepare (hs : list hash) p openEpochDb (h : hash) e r p' :
      node_run hs p -> epoch_fits openEpochDb (p_EpochState p) -> candidate (p_EpochState p) hs h e -> IsRoot e = false ->
      Prepare input event_Hash keccak_rlp_genesis fuel p e = Ret (r, p') -> node_run hs p'
  | run_restart (hs : list hash) p openEpochDb (fc : F) (t : T) p' :
      node_run hs p -> epoch_fits openEpochDb (p_EpochState p) -> honest (p_EpochState p) -> fuel_ok (p_EpochState p) hs ->
      reopened hs p t openEpochDb ->
      Bootstrap input event_Hash hash_Of callback openEpochDb fuel fc (inl t) (p_app p) = Ret p' ->
      node_run (events_after p p' hs) p'.

(** ** The epochs *)

(** The states with which an epoch of the network can start. *)
Inductive epochs : EpochState -> chain A -> Prop :=
  | epochs_first : epochs ep0 (mkChain ∅ ∅ cp0 app0)
  | epochs_next ep c0 (hs hist : list hash) c (openEpochDb : Z -> EDB * VT) :
      epochs ep c0 -> epoch_fits openEpochDb ep -> honest ep -> hs ⊆ K (EpochN ep) ->
      graph_ok ep hs -> epoch_run ep c0 hs hist c true -> epochs (next_epoch ep c).1 (next_epoch ep c).2.

Context (Hone : one_epoch input) (Hselect : selects_fit callback) (Hhash : forall l, length (hash_Of l) = 32%nat).

Lemma epochs_after ep c0 : epochs ep c0 -> EpochN ep0 <= EpochN ep.
Proof.
  induction 1 as [|ep c0 hs hist c db _ IH Hef _ _ _ _]; [done|].
  destruct (next_epoch_vals callback db Hselect ep c Hef) as (_ & _ & _ & ->). lia.
Qed.

(** Two runs of one epoch over different events. *)
Lemma runs_agree ep c0 (hs1 hs2 hist1 hist2 : list hash) c1 c2 s1 s2 :
  validators_ok (ep_Validators ep) -> honest ep -> hs1 ⊆ K (EpochN ep) -> hs2 ⊆ K (EpochN ep) ->
  graph_ok ep hs1 -> graph_ok ep hs2 ->
  epoch_run ep c0 hs1 hist1 c1 s1 -> epoch_run ep c0 hs2 hist2 c2 s2 -> (length hist1 <= length hist2)%nat ->
  hist1 `prefix_of` hist2 /\ (length hist1 = length hist2 -> c1 = c2 /\ s1 = s2) /\ (s1 = true -> length hist1 = length hist2).
Proof.
  intros Hvv (B & HB & HBs & Hst) K1 K2 [D1 F1 S1] [D2 F2 S2] R1 R2 Hl.
  pose proof (dag_union _ _ _ _ D1 D2) as D. set (hs := union_of hs1 hs2) in *.
  assert (hs ⊆ K (EpochN ep)) as HK by (intros x Hx; apply elem_of_union_of in Hx as [Hx|Hx]; [by apply K1|by apply K2]).
  eapply (decided_run_prefix event_Hash hash_Of callback fuel _ Hvv (graph ep) (EpochN ep) (gs_Time (PrevEpoch ep)) c0 hs D
           (frames_union _ _ _ _ F1 F2) (stored_union _ _ _ _ S1 S2) B (byzantine_mono _ _ _ _ _ HK HB) HBs Hst
           hist1 c1 s1 hist2 c2 s2); [| |done].
  - apply (decided_run_mono event_Hash hash_Of callback fuel _ Hvv _ _ _ _ hs1 hs); [done|done| |done].
    intros x Hx. apply elem_of_union_of. by left.
  - apply (decided_run_mono event_Hash hash_Of callback fuel _ Hvv _ _ _ _ hs2 hs); [done|done| |done].
    intros x Hx. apply elem_of_union_of. by right.
Qed.

(** An epoch has one state to start from. *)
Lemma epochs_det ep c : epochs ep c -> forall ep' c', epochs ep' c' -> EpochN ep = EpochN ep' -> ep = ep' /\ c = c'.
Proof.
  induction 1 as [|ep c0 hs hist c db He IH Hef Hho Hk Hg Hr]; intros ep' c' He' En.
  - destruct He' as [|ep c0 hs hist c db He Hef _ _ _ _]; [done|].
    destruct (next_epoch_vals callback db Hselect ep c Hef) as (_ & _ & _ & E). pose proof (epochs_after _ _ He). lia.
  - destruct (next_epoch_vals callback db Hselect ep c Hef) as (_ & _ & _ & E).
    destruct He' as [|ep' c0' hs' hist' c' db' He' Hef' Hho' Hk' Hg' Hr'].
    { pose proof (epochs_after _ _ He). lia. }
    destruct (next_epoch_vals callback db' Hselect ep' c' Hef') as (_ & _ & _ & E').
    destruct (IH ep' c0' He') as [<- <-]; [lia|].
    assert (c = c') as <-; [|done]. pose proof (ef_vals _ _ Hef) as Hvv.
    destruct (decide (length hist <= length hist')%nat).
    + destruct (runs_agree ep c0 hs hs' hist hist' c c' true true) as (_ & Hc & Hl); try done. by apply Hc, Hl.
    + destruct (runs_agree ep c0 hs' hs hist' hist c' c true true) as (_ & Hc & Hl); try done; [lia|].
      symmetry. by apply Hc, Hl.
Qed.

(** ** The invariant *)

Definition node_inv (hs : list hash) p : Prop :=
  exists ep c0 hist d P, epochs ep c0 /\ hs ⊆ K (EpochN ep) /\ node_ok ep c0 hs hist d p P.

Lemma node_epoch ep c0 hs hist d p P : node_ok ep c0 hs hist d p P -> p_EpochState p = ep.
Proof. intros [Hset _ _ _]. apply (st_epoch _ _ _ _ _ _ _ _ _ _ _ Hset). Qed.

Lemma outcome_inv openEpochDb ep c0 hs hist p p' :
  epochs ep c0 -> epoch_fits openEpochDb ep -> honest ep -> hs ⊆ K (EpochN ep) -> p_EpochState p = ep ->
  outcome ep c0 hs hist p' -> node_inv (events_after p p' hs) p'.
Proof.
  intros He Hef Hho Hk Ep Hout. unfold events_after, p_EpochN. rewrite Ep. destruct Hout as [hist' d P _ Hn|hist' c d _ Hg Hr Hn].
  - rewrite (node_epoch _ _ _ _ _ _ _ Hn), Z.eqb_refl. by exists ep, c0, hist', d, P.
  - destruct (next_epoch_vals callback openEpochDb Hselect ep c Hef) as (_ & _ & _ & E).
    rewrite (node_epoch _ _ _ _ _ _ _ Hn), E, (proj2 (Z.eqb_neq _ _)) by lia.
    exists (next_epoch ep c).1, (next_epoch ep c).2, [], d, []. split; [by eapply epochs_next|].
    split; [by intros x ?%elem_of_nil|done].
Qed.

(** [Prepare] in a node: the index is as before. *)
Lemma node_prepare ep c0 hs hist d p P (h : hash) e :
  node_ok ep c0 hs hist d p P -> validators_ok (ep_Validators ep) -> (exists vals, ep_Validators ep = newValidators vals) ->
  candidate ep hs h e -> IsRoot e = false -> epochcheck_Validate (p_Validators p) (p_EpochN p) e = None ->
  exists e' p', Prepare input event_Hash keccak_rlp_genesis fuel p e = Ret (Some e', p') /\ node_ok ep c0 hs hist d p' P /\ same p p' /\
    e' = set_consensus e (Frame e') (IsRoot e') (Event.MedianTime e') (PrevEpochHash e') /\
    frame_rule input (EpochN ep) (ep_Validators ep) h e' /\
    ((exists Q, is_quorum (ep_Validators ep) Q /\ causing_roots (ep_Validators ep) (graph ep) h (sp_frame (graph ep) e) Q) -> IsRoot e' = true) /\
    PrevEpochHash e' = (if Seq e <=? 1 then prevEpochHash keccak_rlp_genesis p else ZeroHash) /\
    exists l, Forall2 (contributes (ep_Validators ep) (graph ep) h (gs_Time (PrevEpoch ep)))
                (seqZ 0 (zlen (Validators_SortedIDs (ep_Validators ep)))) l /\
      is_median l (Event.MedianTime e').
Proof.
  intros [Hset Hre Hop Hall] Hvv [vals Hb] Hc Hr.
  assert (Validators_Copy (ep_Validators ep) = ep_Validators ep) as Hcopy by (rewrite Hb; apply newValidators_copy).
  pose proof (st_agree _ _ _ _ _ _ _ _ _ _ _ Hset) as Hag. rewrite (ag_vals _ _ _ _ _ _ Hag), (ag_epoch _ _ _ _ _ _ Hag). intros Hv.
  destruct (Prepare_spec input event_Hash (EpochN ep) (ep_Validators ep) Hvv Hcopy keccak_rlp_genesis fuel hs d p h e Hag Hc
              (st_roots _ _ _ _ _ _ _ _ _ _ _ Hset) (st_frames _ _ _ _ _ _ _ _ _ _ _ Hset) Hr Hv)
    as (e' & p' & E & Hag' & Hs & E1 & Hrest).
  rewrite (st_epoch _ _ _ _ _ _ _ _ _ _ _ Hset) in Hrest.
  exists e', p'. split; [done|]. split; [|by split]. destruct Hs as [M1 M2 M3 M4].
  split; [|by rewrite M3|by rewrite M3|done]. apply (settled_same _ _ _ _ _ _ _ _ _ _ p); [done|done|by split].
Qed.

Lemma node_run_inv hs p : node_run hs p -> node_inv hs p.
Proof.
  induction 1 as [fc t d db p Hef Hho Hfu Hgd Ht Hr Hv E|hs p db h e err p' _ IH Hef Hho Hfu Hc Hk E|hs p db h e r p' _ IH Hef Hc Hr E|
    hs p db fc t p' _ IH Hef Hho Hfu [Ro Rv] E].
  - assert (events_fit input fuel ep0 []) as Hev by (apply honest_fits; [done|by intros x ?%elem_of_nil|done]).
    destruct (Bootstrap_genesis input event_Hash hash_Of callback fuel db Hone Hselect Hhash ep0 cp0 d fc t app0 Hef Hev Hgd Ht Hr Hv) as (p' & E' & Hout).
    rewrite E in E'. injection E' as <-.
    assert (node_inv (events_after (with_epoch p ep0) p []) p) as Hi.
    { eapply (outcome_inv db); [constructor|done|done|by intros x ?%elem_of_nil|done|exact Hout]. }
    unfold events_after in Hi. by case_match.
  - destruct IH as (ep & c0 & hist & d & P & He & Hs & Hn). pose proof (node_epoch _ _ _ _ _ _ _ Hn) as Ep.
    unfold p_EpochN in Hk. rewrite Ep in *.
    assert (hs ++ [h] ⊆ K (EpochN ep)) as Hs' by (intros x [Hx|Hx%list_elem_of_singleton]%elem_of_app; [by apply Hs|by subst]).
    destruct (ProcessEvent_spec input event_Hash hash_Of callback fuel db Hone Hselect Hhash keccak_rlp_genesis
                ep c0 hs hist d p P h e Hef (honest_fits ep (hs ++ [h]) Hho Hs' Hfu) Hn Hc) as (err' & p2 & E2 & Hcase).
    rewrite E in E2. injection E2 as <- <-. destruct err as [err|].
    + destruct Hcase as [Hn' _]. unfold events_after, p_EpochN. rewrite (node_epoch _ _ _ _ _ _ _ Hn'), Ep, Z.eqb_refl.
      by exists ep, c0, hist, d, P.
    + destruct Hcase as [_ Hout]. by apply (outcome_inv db ep c0 (hs ++ [h]) hist).
  - destruct IH as (ep & c0 & hist & d & P & He & Hs & Hn). pose proof (node_epoch _ _ _ _ _ _ _ Hn) as Ep. rewrite Ep in *.
    exists ep, c0, hist, d, P. split; [done|]. split; [done|].
    assert (epochcheck_Validate (p_Validators p) (p_EpochN p) e = None \/ p' = p) as [Hv| ->]; [| |done].
    { unfold Prepare in E. destruct (epochcheck_Validate _ _ e); [|by left]. right. by injection E. }
    destruct (node_prepare ep c0 hs hist d p P h e Hn (ef_vals _ _ Hef) (ef_built _ _ Hef) Hc Hr Hv) as (e' & p2 & E2 & Hn2 & _).
    rewrite E in E2. by injection E2 as _ <-.
  - destruct IH as (ep & c0 & hist & d & P & He & Hs & Hn). pose proof (node_epoch _ _ _ _ _ _ _ Hn) as Ep. rewrite Ep in *.
    destruct (Ro d (ag_rep _ _ _ _ _ _ (st_agree _ _ _ _ _ _ _ _ _ _ _ (nk_settled _ _ _ _ _ _ _ _ _ _ _ _ Hn)))) as [Ht Hr].
    destruct (Bootstrap_spec input event_Hash hash_Of callback fuel db Hone Hselect Hhash ep c0 hs hist d p fc t Hef
                (honest_fits ep hs Hho Hs Hfu) (nk_settled _ _ _ _ _ _ _ _ _ _ _ _ Hn) Ht Hr Rv) as (p2 & E2 & Hout).
    rewrite E in E2. injection E2 as <-. by apply (outcome_inv db ep c0 hs hist).
Qed.

(** What the invariant says of the settled part of two nodes. *)
Lemma settled_agree ep c0 (hs1 hs2 hist1 hist2 : list hash) d1 d2 p1 p2 P1 P2 :
  validators_ok (ep_Validators ep) -> (exists vals, ep_Validators ep = newValidators vals) -> honest ep ->
  hs1 ⊆ K (EpochN ep) -> hs2 ⊆ K (EpochN ep) -> node_ok ep c0 hs1 hist1 d1 p1 P1 -> node_ok ep c0 hs2 hist2 d2 p2 P2 ->
  LastDecidedFrame (p_Checkpoint p1) = LastDecidedFrame (p_Checkpoint p2) -> chain_of d1 p1 = chain_of d2 p2.
Proof.
  intros Hvv [vals Hb] Hho K1 K2 [N1 _ _ _] [N2 _ _ _] El.
  assert (Validators_Copy (ep_Validators ep) = ep_Validators ep) as Hcopy by (rewrite Hb; apply newValidators_copy).
  assert (forall hs hist d p, settled input event_Hash hash_Of callback fuel ep c0 hs hist d p -> graph_ok ep hs) as Hg.
  { intros hs hist d p Hs. split; [|apply Hs..]. apply (agree_dag _ _ _ Hcopy _ _ _ (st_agree _ _ _ _ _ _ _ _ _ _ _ Hs)). }
  rewrite (st_ldf _ _ _ _ _ _ _ _ _ _ _ N1), (st_ldf _ _ _ _ _ _ _ _ _ _ _ N2) in El.
  assert (length hist1 = length hist2) as Hl by (unfold zlen in El; lia).
  destruct (runs_agree ep c0 hs1 hs2 hist1 hist2 (chain_of d1 p1) (chain_of d2 p2) false false) as (_ & Hc & _); try done.
  - by eapply Hg.
  - by eapply Hg.
  - apply (st_run _ _ _ _ _ _ _ _ _ _ _ N1).
  - apply (st_run _ _ _ _ _ _ _ _ _ _ _ N2).
  - lia.
  - by apply Hc.
Qed.

(** C1: agreement of the nodes.  Two nodes of a network in which less than a
    third of the stake forks in each epoch, whatever events each has processed
    and in whatever order, with whatever rejected events and restarts between
    them, are in agreement: in the same epoch they have the same epoch state
    (validators, time and hashes of the epoch before), and when both have
    decided the same number of frames, their checkpoints (block number, Atropos,
    application hash), the state of their applications, the frames on which
    events are confirmed and the frame infos are equal. *)
Theorem nodes_agree (hs1 hs2 : list hash) p1 p2 :
  node_run hs1 p1 -> node_run hs2 p2 -> p_EpochN p1 = p_EpochN p2 ->
  validators_ok (p_Validators p1) -> (exists vals, p_Validators p1 = newValidators vals) -> honest (p_EpochState p1) ->
  p_EpochState p1 = p_EpochState p2 /\
  (LastDecidedFrame (p_Checkpoint p1) = LastDecidedFrame (p_Checkpoint p2) ->
   p_Checkpoint p1 = p_Checkpoint p2 /\ p_app p1 = p_app p2 /\
   (forall h : hash, ps_GetEventConfirmedOn (p_store p1) h = ps_GetEventConfirmedOn (p_store p2) h) /\
   forall e f, is_u32 e -> is_u32 f -> ps_GetFrameInfo (p_store p1) e f = ps_GetFrameInfo (p_store p2) e f).
Proof.
  intros (ep & c0 & hist1 & d1 & P1 & He1 & Hs1 & Hn1)%node_run_inv (ep2 & c02 & hist2 & d2 & P2 & He2 & Hs2 & Hn2)%node_run_inv.
  unfold p_EpochN, p_Validators. rewrite (node_epoch _ _ _ _ _ _ _ Hn1), (node_epoch _ _ _ _ _ _ _ Hn2). intros En Hvv Hb Hho.
  destruct (epochs_det _ _ He1 _ _ He2 En) as [<- <-]. split; [done|]. intros El.
  pose proof (settled_agree ep c0 hs1 hs2 hist1 hist2 d1 d2 p1 p2 P1 P2 Hvv Hb Hho Hs1 Hs2 Hn1 Hn2 El) as [= E1 E2 E3 E4].
  assert (forall hs hist d p P, node_ok ep c0 hs hist d p P -> ps_rep (p_store p) d) as Hrep
    by (intros hs hist d p P [Hset _ _ _]; apply (st_agree _ _ _ _ _ _ _ _ _ _ _ Hset)).
  apply Hrep in Hn1, Hn2. split; [done|]. split; [done|]. split.
  - intros h. by rewrite (plaw_GetEventConfirmedOn _ _ _ Hn1), (plaw_GetEventConfirmedOn _ _ _ Hn2), E1.
  - intros e f Hu Hf. by rewrite (plaw_GetFrameInfo _ _ _ _ Hn1 Hu Hf), (plaw_GetFrameInfo _ _ _ _ Hn2 Hu Hf), E2.
Qed.

(** Decided frames are not taken back. *)
Definition advances p p' : Prop :=
  (p_EpochN p' = p_EpochN p + 1 /\ LastDecidedFrame (p_Checkpoint p') = 0) \/
  (p_EpochState p' = p_EpochState p /\ LastDecidedFrame (p_Checkpoint p) <= LastDecidedFrame (p_Checkpoint p')).

Lemma outcome_advances openEpochDb ep c0 hs hs' hist d p p' P :
  epoch_fits openEpochDb ep -> node_ok ep c0 hs hist d p P -> outcome ep c0 hs' hist p' -> advances p p'.
Proof.
  intros Hef Hn Hout. pose proof (st_ldf _ _ _ _ _ _ _ _ _ _ _ (nk_settled _ _ _ _ _ _ _ _ _ _ _ _ Hn)) as El.
  unfold advances, p_EpochN. rewrite (node_epoch _ _ _ _ _ _ _ Hn), El.
  destruct Hout as [hist' d' P' Hp Hn'|hist' c d' _ _ _ Hn'];
    rewrite (node_epoch _ _ _ _ _ _ _ Hn'), (st_ldf _ _ _ _ _ _ _ _ _ _ _ (nk_settled _ _ _ _ _ _ _ _ _ _ _ _ Hn')).
  - right. split; [done|]. apply prefix_length in Hp. unfold zlen. lia.
  - left. destruct (next_epoch_vals callback openEpochDb Hselect ep c Hef) as (_ & _ & _ & ->). done.
Qed.

(** C4: processing never fails.  In every state that a node can reach, the
    next event that passed the event checks (its parents are connected, it is
    new, and the loops have fuel for the events known so far) is processed to
    the end: none of the sanity checks of the index, the store, the election
    and the block processing exits, and no loop runs out of fuel.  A rejected
    event leaves the checkpoint, the epoch, the election and the application as
    they were; an accepted one obeys the rule of frames, and the node either is
    in the same epoch with no fewer frames decided or starts the next epoch. *)
Theorem node_progress (hs : list hash) p openEpochDb (h : hash) e :
  node_run hs p -> epoch_fits openEpochDb (p_EpochState p) -> honest (p_EpochState p) ->
  fuel_ok (p_EpochState p) (hs ++ [h]) -> candidate (p_EpochState p) hs h e -> h ∈ K (p_EpochN p) ->
  exists err p', ProcessEvent input event_Hash keccak_rlp_genesis hash_Of callback openEpochDb fuel p e = Ret (err, p') /\
    match err with
    | Some _ => same p p'
    | None => frame_rule input (p_EpochN p) (p_Validators p) h e /\ advances p p'
    end.
Proof.
  intros (ep & c0 & hist & d & P & He & Hs & Hn)%node_run_inv. unfold p_EpochN, p_Validators.
  rewrite (node_epoch _ _ _ _ _ _ _ Hn). intros Hef Hho Hfu Hc Hk.
  assert (hs ++ [h] ⊆ K (EpochN ep)) as Hs' by (intros x [Hx|Hx%list_elem_of_singleton]%elem_of_app; [by apply Hs|by subst]).
  destruct (ProcessEvent_spec input event_Hash hash_Of callback fuel openEpochDb Hone Hselect Hhash keccak_rlp_genesis
              ep c0 hs hist d p P h e Hef (honest_fits ep (hs ++ [h]) Hho Hs' Hfu) Hn Hc) as (err & p' & E & Hcase).
  exists err, p'. split; [done|]. destruct err as [err|]; [apply Hcase|]. destruct Hcase as [Hrule Hout].
  split; [done|]. by apply (outcome_advances openEpochDb ep c0 hs (hs ++ [h]) hist d p p' P).
Qed.

(** C5: what a node keeps.  In every state that a node can reach, the index
    holds exactly the connected events; the tables of roots hold exactly the
    roots among them, and every event obeys the rule of frames; the stored
    checkpoint and epoch are those in memory; the election is about the frame
    after the last decided one and is open; and the confirmed events are
    closed under observation. *)
Theorem node_consistent (hs : list hash) p :
  node_run hs p ->
  let ep := p_EpochState p in
  simulates (ep_Validators ep) (graph ep) (p_vecClock p) (hs, hs) /\
  (forall f, is_u32 f -> exists l t, ps_GetFrameRoots (p_store p) f = Ret (l, t) /\ NoDup l /\
     forall r, r ∈ l <-> frame r = f /\ is_root (graph ep) hs r) /\
  frames_ok (ep_Validators ep) (graph ep) hs /\
  ps_GetCheckpoint (p_store p) = Ret (Some (p_Checkpoint p)) /\ ps_GetEpoch (p_store p) = Ret (Some ep) /\
  frameToDecide (p_election p) = LastDecidedFrame (p_Checkpoint p) + 1 /\ chooseAtropos (p_election p) = inr None /\
  forall (x y : hash) fx, ps_GetEventConfirmedOn (p_store p) x = Ret fx -> fx <> 0 -> observes (graph ep) x y ->
    exists fy, ps_GetEventConfirmedOn (p_store p) y = Ret fy /\ fy <> 0.
Proof.
  intros (ep & c0 & hist & d & P & He & Hs & Hn)%node_run_inv. cbv zeta. rewrite (node_epoch _ _ _ _ _ _ _ Hn).
  destruct Hn as [[S1 S2 S3 S4 S5 S6 S7 S8 S9 S10 S11 S12 S13 S14] Hr Ho _]. pose proof (ag_rep _ _ _ _ _ _ S1) as Hrep.
  split; [apply S1|]. split.
  { intros f Hf. destruct (plaw_GetFrameRoots _ _ f Hrep Hf) as (l & t & E & _ & Hnd & Hl). exists l, t.
    split; [done|]. split; [done|]. intros r. by rewrite Hl, (S3 r). }
  split; [done|]. split; [by rewrite (plaw_GetCheckpoint _ _ Hrep), S9|]. split; [by rewrite (plaw_GetEpoch _ _ Hrep), S10|].
  split.
  { rewrite S12. clear -Hr. induction Hr as [|P el observe roots X res el' _ IH _ _ E]; [done|].
    rewrite <-IH. by apply (ProcessRoot_frame observe roots el X res). }
  split; [done|]. intros x y fx. rewrite !(plaw_GetEventConfirmedOn _ _ _ Hrep). intros [= <-] Hx Hxy. eexists. split; [done|].
  by apply (S7 x).
Qed.

(** C8: a restart loses nothing.  A node that stops between two events and
    starts over the databases it wrote comes up without a fault, with no fewer
    frames decided than before; with the same number of frames it has the
    checkpoint and the application state it stopped with. *)
Theorem restart_recovers (hs : list hash) p openEpochDb (fc : F) (t : T) :
  node_run hs p -> epoch_fits openEpochDb (p_EpochState p) -> honest (p_EpochState p) -> fuel_ok (p_EpochState p) hs ->
  reopened hs p t openEpochDb ->
  exists p', Bootstrap input event_Hash hash_Of callback openEpochDb fuel fc (inl t) (p_app p) = Ret p' /\ advances p p' /\
    (p_EpochN p' = p_EpochN p -> LastDecidedFrame (p_Checkpoint p') = LastDecidedFrame (p_Checkpoint p) ->
     p_Checkpoint p' = p_Checkpoint p /\ p_app p' = p_app p).
Proof.
  intros (ep & c0 & hist & d & P & He & Hs & Hn)%node_run_inv. pose proof (node_epoch _ _ _ _ _ _ _ Hn) as Ep.
  unfold p_EpochN. rewrite Ep. intros Hef Hho Hfu [Ro Rv]. rewrite Ep in *.
  destruct (Ro d (ag_rep _ _ _ _ _ _ (st_agree _ _ _ _ _ _ _ _ _ _ _ (nk_settled _ _ _ _ _ _ _ _ _ _ _ _ Hn)))) as [Ht Hr].
  destruct (Bootstrap_spec input event_Hash hash_Of callback fuel openEpochDb Hone Hselect Hhash ep c0 hs hist d p fc t Hef
              (honest_fits ep hs Hho Hs Hfu) (nk_settled _ _ _ _ _ _ _ _ _ _ _ _ Hn) Ht Hr Rv) as (p' & E & Hout).
  exists p'. split; [done|]. split; [by apply (outcome_advances openEpochDb ep c0 hs hs hist d p p' P)|].
  destruct Hout as [hist' d' P' _ Hn'|hist' c d' _ _ _ Hn']; intros En El.
  - pose proof (settled_agree ep c0 hs hs hist' hist d' d p' p P' P (ef_vals _ _ Hef) (ef_built _ _ Hef) Hho Hs Hs Hn' Hn El) as [= _ _ E1 E2]. done.
  - rewrite (node_epoch _ _ _ _ _ _ _ Hn') in En.
    destruct (next_epoch_vals callback openEpochDb Hselect ep c Hef) as (_ & _ & _ & E'). lia.
Qed.

(** C9: what [Prepare] claims.  For a new event that its creator fills in
    (its parents are connected and it is not marked as a root), [Prepare]
    returns the event with only the consensus fields changed, and leaves the
    node as it was.  The claimed frame obeys the rule of frames, and the event
    is a root whenever the roots in the frame of its self-parent that are a
    forkless cause of it are a quorum; the hash of the epoch before is the one
    that the check of the first event of a creator demands; the median time is
    that of the claimed times which the event observes. *)
Theorem prepare_follows_rule (hs : list hash) p (h : hash) e :
  node_run hs p -> validators_ok (p_Validators p) -> (exists vals, p_Validators p = newValidators vals) ->
  candidate (p_EpochState p) hs h e -> IsRoot e = false -> epochcheck_Validate (p_Validators p) (p_EpochN p) e = None ->
  let V := p_Validators p in
  let G := input (p_EpochN p) in
  exists e' p', Prepare input event_Hash keccak_rlp_genesis fuel p e = Ret (Some e', p') /\ same p p' /\
    simulates V G (p_vecClock p') (hs, hs) /\
    e' = set_consensus e (Frame e') (IsRoot e') (Event.MedianTime e') (PrevEpochHash e') /\
    frame_rule input (p_EpochN p) V h e' /\
    ((exists Q, is_quorum V Q /\ causing_roots V G h (sp_frame G e) Q) -> IsRoot e' = true) /\
    PrevEpochHash e' = (if Seq e <=? 1 then prevEpochHash keccak_rlp_genesis p else ZeroHash) /\
    exists l, Forall2 (contributes V G h (gs_Time (PrevEpoch (p_EpochState p)))) (seqZ 0 (zlen (Validators_SortedIDs V))) l /\
      is_median l (Event.MedianTime e').
Proof.
  intros (ep & c0 & hist & d & P & He & Hs & Hn)%node_run_inv Hvv Hb Hc Hr Hv. cbv zeta.
  pose proof (node_epoch _ _ _ _ _ _ _ Hn) as Ep. unfold p_EpochN, p_Validators in *. rewrite Ep in *.
  assert (epochcheck_Validate (p_Validators p) (p_EpochN p) e = None) as Hv' by (unfold p_Validators, p_EpochN; by rewrite Ep).
  destruct (node_prepare ep c0 hs hist d p P h e Hn Hvv Hb Hc Hr Hv') as (e' & p' & E & Hn' & Hsm & Hrest).
  exists e', p'. split; [done|]. split; [done|]. split; [|done].
  apply (st_agree _ _ _ _ _ _ _ _ _ _ _ (nk_settled _ _ _ _ _ _ _ _ _ _ _ _ Hn')).
Qed.
End network.
