(* ===== verification/NodeExample.v ===== *)
(** * A concrete store of the consensus

    Memory databases, a bounded cache and a reversible encoding of the stored
    values: the instance at which the theorems about the store of the
    consensus are applied. *)

From S2P Require Import Prelude Bytes Kvdb KvdbLaws Pos Event Vector VecStore VecIndex Dag VecInv VecMerge VecWalk VecAdd ForklessCause VecSpec VecExample MedianTime VecMerged EventCheck Election ElectionSafety ElectionYes PosetStore Poset PosetOrder PosetConfirm PosetRoots PosetNode PosetElect PosetDecide PosetRun PosetAgree.

(** ** Encodings *)

Definition ex_rlp_frame : RlpCodec (Z * Z * Z) :=
  mkRlp (fun m => [m.1.1; m.1.2; m.2]) (fun b => match b with [x; y; z] => Some (x, y, z) | _ => None end).

Definition ex_rlp_checkpoint : RlpCodec Checkpoint :=
  mkRlp (fun c => LastDecidedFrame c :: LastBlockN c :: ex_enc_list (LastAtropos c) ++ ex_enc_list (AppHash c))
    (fun b => match b with
              | f :: n :: b =>
                  '(a, b) ← ex_dec_list b; '(h, _) ← ex_dec_list (b : bytes); Some (mkCheckpoint f n a h)
              | _ => None
              end).

Fixpoint ex_dec_validators (b : bytes) : list validator :=
  match b with i :: s :: b => mkValidator i s :: ex_dec_validators b | _ => [] end.

Definition ex_rlp_epoch : RlpCodec EpochState :=
  mkRlp (fun e => EpochN e :: gs_Epoch (PrevEpoch e) :: gs_Time (PrevEpoch e) ::
                  ex_enc_list (gs_LastAtropos (PrevEpoch e)) ++ ex_enc_list (gs_AppHash (PrevEpoch e)) ++
                  mjoin ((fun v => [v_ID v; v_Stake v]) <$> Validators_EncodeRLP (ep_Validators e)))
    (fun b => match b with
              | n :: p :: tm :: b =>
                  '(a, b) ← ex_dec_list b; '(h, b) ← ex_dec_list (b : bytes);
                  Some (mkEpochState n (mkGenesisState p tm a h) (Validators_DecodeRLP (ex_dec_validators b)))
              | _ => None
              end).

Lemma ex_dec_enc_end l : ex_dec_list (ex_enc_list l) = Some (l, []).
Proof. pose proof (ex_dec_enc l []) as E. by rewrite app_nil_r in E. Qed.

Lemma ex_frame_roundtrip m : frame_triple m -> rlp_dec ex_rlp_frame (rlp_enc ex_rlp_frame m) = Some m.
Proof. by destruct m as [[??]?]. Qed.

Lemma ex_checkpoint_roundtrip c :
  checkpoint_ok c -> rlp_dec ex_rlp_checkpoint (rlp_enc ex_rlp_checkpoint c) = Some c.
Proof.
  intros _. destruct c as [f n a h]. cbn [rlp_dec rlp_enc ex_rlp_checkpoint LastDecidedFrame LastBlockN LastAtropos AppHash].
  rewrite ex_dec_enc. cbn [mbind option_bind]. by rewrite ex_dec_enc_end.
Qed.

Lemma ex_dec_enc_validators l : ex_dec_validators (mjoin ((fun v => [v_ID v; v_Stake v]) <$> l)) = l.
Proof. induction l as [|[i s] l IH]; [done|]. by csimpl; rewrite IH. Qed.

Lemma ex_epoch_roundtrip e : epoch_ok e -> rlp_dec ex_rlp_epoch (rlp_enc ex_rlp_epoch e) = Some e.
Proof.
  intros [_ [vals Hv]]. destruct e as [n [p tm a h] vv]. simpl in Hv. subst vv.
  cbn [rlp_dec rlp_enc ex_rlp_epoch EpochN PrevEpoch gs_Epoch gs_Time gs_LastAtropos gs_AppHash ep_Validators].
  rewrite ex_dec_enc. cbn [mbind option_bind]. rewrite ex_dec_enc. cbn [mbind option_bind].
  by rewrite ex_dec_enc_validators, Validators_decode_encode.
Qed.

(** ** The store *)

Abbreviation ex_P := (PTables Database (simplelru Z (list RootAndSlot))).

#[export] Instance ex_pstore : PosetStore ex_P Database :=
  PTables_PosetStore ex_rlp_frame ex_rlp_checkpoint ex_rlp_epoch.
#[export] Instance ex_pstore_laws : PosetStoreLaws ex_P Database :=
  PTables_laws _ _ _ ex_frame_roundtrip ex_checkpoint_roundtrip ex_epoch_roundtrip.

Definition ex_ptables : ex_P := mkPTables memorydb_New memorydb_New (Some (mkSimplelru 2 [])) None.

Abbreviation ex_prep := (ptables_rep ex_rlp_frame ex_rlp_checkpoint ex_rlp_epoch).

Lemma ex_ptables_rep : ex_prep ex_ptables emptyPosetData.
Proof.
  split.
  - exists ∅. split; [done|]. split; try done. by intros e [?|?].
  - exists ∅. split; [done|]. split; [done|]. intros r Hr. by apply elem_of_empty in Hr.
  - intros c f l [= <-]. done.
Qed.

(** ** The theorems about the store at this instance *)

Definition ex_keccak (g : GenesisState) : bytes := replicate 32 (gs_Time g).
Definition ex_genesis (time : Z) : Genesis := mkGenesis [mkGenesisValidator 1 (ex_id 1) 5] time.

Theorem genesis_applied_once_witness :
  exists t', ApplyGenesis ex_rlp_checkpoint ex_rlp_epoch ex_keccak 1000 ex_ptables ex_ptables
      (Some (ex_genesis 10)) (ex_id 1) (ex_id 2) = Ret (None, t') /\
    ex_prep t' (data_after_genesis 1000 emptyPosetData (ex_genesis 10) (ex_id 1) (ex_id 2)) /\
    ApplyGenesis ex_rlp_checkpoint ex_rlp_epoch ex_keccak 1000 t' ex_ptables
      (Some (ex_genesis 10)) (ex_id 1) (ex_id 2) = Ret (None, t') /\
    (ex_id 10 <> ex_id 11 ->
     ApplyGenesis ex_rlp_checkpoint ex_rlp_epoch ex_keccak 1000 t' ex_ptables
       (Some (ex_genesis 11)) (ex_id 1) (ex_id 2) =
       Ret (Some (GenesisMismatchError (ex_id 11) (ex_id 10)), t')).
Proof.
  apply (genesis_applied_once ex_rlp_frame ex_rlp_checkpoint ex_rlp_epoch ex_keccak 1000
           ex_frame_roundtrip ex_checkpoint_roundtrip ex_epoch_roundtrip ex_ptables ex_ptables emptyPosetData
           (ex_genesis 10) (ex_genesis 11) (ex_id 1) (ex_id 2) (ex_id 1) (ex_id 2));
    first [apply ex_ptables_rep | reflexivity | discriminate].
Defined.

Definition ex_root : RootAndSlot := mkRoot (ex_id 1) (mkSlot 1 4).
Definition ex_ops : list ps_op :=
  [PGetFrameRoots 1; PAddRoot ex_root; PGetFrameRoots 1; PSetFrameInfo 1 1 (mkFrameInfo (-7) 2 3); PGetFrameInfo 1 1].

Lemma ex_ops_allowed : ps_allowed emptyPosetData ex_ops.
Proof.
  split; [do 2 eexists; apply (step_GetFrameRoots _ 1 []); [done|]; split; [constructor|]; intros; simpl; set_solver|].
  intros a d Hs. inversion Hs; subst. split; [do 2 eexists; apply step_AddRoot; [done|set_solver]|].
  clear Hs. intros a d Hs. inversion Hs; subst.
  split; [do 2 eexists; apply (step_GetFrameRoots _ 1 [ex_root]); [done|]; split; [apply NoDup_singleton|]|].
  { intros [id [f v]]. cbn [data_roots pd_roots]. rewrite list_elem_of_singleton, elem_of_union, elem_of_singleton.
    simpl. split; [intros [= -> -> ->]; auto|]. intros (-> & [[= -> ->]|?]); [done|set_solver]. }
  clear Hs. intros a d Hs. inversion Hs; subst. split; [do 2 eexists; by apply step_SetFrameInfo|].
  clear Hs. intros a d Hs. inversion Hs; subst. split; [do 2 eexists; by apply step_GetFrameInfo|done].
Qed.

Theorem poset_store_refines_witness :
  exists l t' d', ps_run ex_ptables ex_ops = Ret (l, t') /\ ps_steps emptyPosetData ex_ops l d' /\ ex_prep t' d'.
Proof.
  exact (poset_store_refines ex_rlp_frame ex_rlp_checkpoint ex_rlp_epoch
           ex_frame_roundtrip ex_checkpoint_roundtrip ex_epoch_roundtrip
           ex_ptables emptyPosetData ex_ops ex_ptables_rep ex_ops_allowed).
Defined.

Example ex_ops_run : exists t', ps_run ex_ptables ex_ops =
  Ret ([PRoots []; PDone; PRoots [ex_root]; PDone; PInfo (Some (mkFrameInfo (-7) 2 3))], t').
Proof. eexists. vm_compute. reflexivity. Qed.

(** ** Confirming events of the graph of the example *)

Definition ex_poset {VT F} (vi : Index VT F) : Poset ex_P VT F unit :=
  mkPoset ex_ptables (mkCheckpoint 0 0 ZeroHash ZeroHash) (mkEpochState 1 (mkGenesisState 0 0 ZeroHash ZeroHash) ex_validators)
    (Election_New ex_validators 1) vi ().

Definition stored_closedb (get : hash -> option EventHeaderData) (event_Hash : EventHeaderData -> hash) (hs : list hash) : bool :=
  forallb (fun h => match get h with
                    | Some e => bool_decide (event_Hash e = h) && forallb (fun q => bool_decide (q ∈ hs)) (Parents e)
                    | None => false end) hs.

Lemma stored_closedb_sound get event_Hash hs : stored_closedb get event_Hash hs = true -> stored_closed get event_Hash hs.
Proof.
  unfold stored_closedb. rewrite forallb_forall. intros Hall h Hh%list_elem_of_In. specialize (Hall h Hh).
  destruct (get h) as [e|]; [|done]. apply andb_true_iff in Hall as [He%bool_decide_eq_true Hp]. exists e.
  split; [done|]. split; [done|]. rewrite forallb_forall in Hp. intros q Hq%list_elem_of_In.
  by apply Hp, bool_decide_eq_true in Hq.
Qed.

Theorem confirm_events_exact_witness :
  exists (vi : Index ex_T ex_F) l t' d', 
    let p := ex_poset vi in
    let get := getEvent (fun _ => ex_getEvent) p in
    confirmEvents (fun _ => ex_getEvent) ex_Hash 100 p 1 (ex_id 8) (fun k _ => Ret (k + 1)) 0 =
      (go_fold (fun k _ => Ret (k + 1)) 0 l ≫= fun w' => Ret (t', w')) /\
    NoDup (ex_Hash <$> l) /\ (forall e, e ∈ l -> get (ex_Hash e) = Some e) /\
    (forall x : hash, x ∈ ex_Hash <$> l <-> observes get (ex_id 8) x /\ default 0 (pd_confirmed emptyPosetData !! x) = 0) /\
    ps_rep t' d' /\ d' = data_confirmed emptyPosetData (pd_confirmed d') /\ confirmed_closed get d' /\
    forall x : hash, pd_confirmed d' !! x =
      if decide (x ∈ ex_Hash <$> l) then Some 1 else pd_confirmed emptyPosetData !! x.
Proof.
  destruct ex_reached as (vi & _ & _). exists vi.
  apply (confirm_events_exact (fun _ => ex_getEvent) ex_Hash 100 (ex_poset vi) emptyPosetData ex_connected 1 (ex_id 8)
           (fun k _ => Ret (k + 1)) 0).
  - apply ex_ptables_rep.
  - apply stored_closedb_sound. by vm_compute.
  - apply (bool_decide_unpack _). by vm_compute.
  - intros x y Hx. by destruct Hx.
  - lia.
  - apply Nat.leb_le. by vm_compute.
Defined.

(** * A network of two validators

    Nodes over memory databases that process the events of two validators with
    one unit of stake each, in two orders: the instance at which the theorems
    about nodes are applied. *)

(** ** Events and configuration *)

Definition net_vals : Validators := newValidators (<[1 := 1]> (<[2 := 1]> ∅)).
Definition net_prev : GenesisState := mkGenesisState 0 5 ZeroHash ZeroHash.
Definition net_ep : EpochState := mkEpochState 1 net_prev net_vals.
Definition net_cp : Checkpoint := mkCheckpoint 0 0 ZeroHash ZeroHash.

(** Event [i] of a creator with its sequence number, frame, parents and
    median time; the ninth event is not filled in. *)
Definition net_event (i creator seq frame : Z) (isRoot : bool) (parents : list Z) (median : Z) : hash * EventHeaderData :=
  (ex_id i, mkHeader 0 1 seq frame isRoot creator (if seq <=? 1 then ex_keccak net_prev else ZeroHash) (ex_id <$> parents)
              [0; 0] 0 i (10 * i) median ZeroHash [] (Some (ex_id i))).

Definition net_events : list (hash * EventHeaderData) :=
  [net_event 1 1 1 1 true [] 5; net_event 2 2 1 1 true [] 5; net_event 3 1 2 1 false [1; 2] 20;
   net_event 4 2 2 2 true [2; 3] 30; net_event 5 1 3 2 true [3; 4] 40; net_event 6 2 3 3 true [4; 5] 50;
   net_event 7 1 4 3 true [5; 6] 60; net_event 8 2 4 4 true [6; 7] 70;
   net_event 9 1 5 0 false [7; 8] 0].

Definition net_input (k : Z) (h : hash) : option EventHeaderData := if k =? 1 then assoc_get net_events h else None.
Definition net_hash_Of (l : list bytes) : hash := take 32 (mjoin l ++ replicate 32 0).

(** The application keeps the list of the Atropos events. *)
Definition net_callback : ConsensusCallbacks (list hash) :=
  mkCallbacks (Some (fun a b _ _ => ((ZeroHash, false), a ++ [bl_Atropos b]))) None None None.

Definition net_K (_ : Z) : list hash := ex_id <$> [1; 2; 3; 4; 5; 6; 7; 8; 9].
Definition net_db (_ : Z) : Database * ex_T := (memorydb_New, ex_tables).

Abbreviation net_P := (Poset ex_P ex_T ex_F (list hash)).
Definition net_process (p : net_P) (e : EventHeaderData) : go (option poset_error * net_P) :=
  ProcessEvent net_input ex_Hash ex_keccak net_hash_Of net_callback net_db 100 p e.

Abbreviation net_run := (node_run (VT := ex_T) (F := ex_F) net_input ex_Hash ex_keccak net_hash_Of net_callback 100 net_K net_ep net_cp []).

(** ** What the theorems assume *)

Lemma net_vals_ok : validators_ok net_vals.
Proof.
  apply newValidators_ok. split.
  - intros id s. rewrite !lookup_insert, lookup_empty. repeat case_decide; naive_solver lia.
  - by vm_compute.
  - by vm_compute.
Qed.

Lemma net_fits (db : Z -> Database * ex_T) : db 2 = (memorydb_New, ex_tables) -> epoch_fits db net_ep.
Proof.
  intros E. split; try (change (EpochN net_ep + 1) with 2; rewrite E).
  - cbn. lia.
  - apply net_vals_ok.
  - by vm_compute.
  - by eexists.
  - exists ∅. split; [done|]. split; [done|]. intros r Hr. by apply elem_of_empty in Hr.
  - apply ex_tables_rep.
Qed.

Lemma net_honest : honest net_input net_K net_ep.
Proof.
  exists ∅. split; [|split; [set_solver|by vm_compute]].
  assert (Forall (fun x => Forall (fun y => x = y \/ sq (net_input 1) x <> sq (net_input 1) y \/
            cr net_vals (net_input 1) x <> cr net_vals (net_input 1) y) (net_K 1)) (net_K 1)) as Hall
    by (apply (bool_decide_unpack _); by vm_compute).
  intros c x y Hx Hy (Hne & Cx & Cy & Hs). rewrite Forall_forall in Hall. specialize (Hall x Hx).
  rewrite Forall_forall in Hall. specialize (Hall y Hy). destruct Hall as [?|[?|?]]; cbn in *; congruence.
Qed.

Lemma net_one_epoch : one_epoch net_input.
Proof. intros k k' h e e'. unfold net_input. do 2 case_match; naive_solver lia. Qed.
Lemma net_selects : selects_fit net_callback.
Proof. by intros f a k k'. Qed.
Lemma net_hash_length l : length (net_hash_Of l) = 32%nat.
Proof. unfold net_hash_Of. rewrite length_take, length_app, length_replicate. lia. Qed.

(** ** Runs *)

Definition net_start : go ex_P := t ← ps_SetCheckpoint ex_ptables net_cp; ps_SetEpoch t net_ep.
Definition net_boot : go net_P :=
  t ← net_start; Bootstrap net_input ex_Hash net_hash_Of net_callback net_db 100 ex_cache (inl t) [].

Definition candidateb (hs : list hash) (h : hash) (e : EventHeaderData) : bool :=
  bool_decide (ex_Hash e = h) && (length h =? 32)%nat && bool_decide (h ∉ hs) && event_okb net_vals (net_input 1) hs e &&
  bool_decide (is_u32 (Frame e)) && bool_decide (is_u32 (Creator e)) &&
  (8 * (zlen (Validators_SortedIDs net_vals) + zlen hs + 1) <? 2 ^ 32) && (walk_fuel (net_input 1) hs e <=? 100)%nat &&
  (confirm_fuel (net_input 1) (hs ++ [h]) <=? 100)%nat && (length (hs ++ [h]) <? 100)%nat && bool_decide (h ∈ net_K 1).

Lemma candidateb_sound hs h e : net_input 1 h = Some e -> candidateb hs h e = true ->
  candidate net_input ex_Hash 1 net_vals 100 hs h e /\ fuel_ok net_input 100 net_ep (hs ++ [h]) /\ h ∈ net_K 1.
Proof.
  intros He. unfold candidateb.
  rewrite !andb_true_iff, !bool_decide_eq_true, Z.ltb_lt, Nat.eqb_eq, !Nat.leb_le, Nat.ltb_lt.
  intros ((((((((((H1 & H2) & H3) & H4) & H5) & H6) & H7) & H8) & H9) & H10) & H11).
  split; [|done]. split; try done. by apply event_okb_sound.
Qed.

(** Process the events of a list, checking that each is accepted. *)
Fixpoint net_all (hs : list hash) (p : net_P) (l : list Z) : option net_P :=
  match l with
  | [] => Some p
  | i :: l =>
      match net_input 1 (ex_id i) with
      | None => None
      | Some e =>
          match net_process p e with
          | Ret (None, p') =>
              if candidateb hs (ex_id i) e && (p_EpochN p' =? 1) then net_all (hs ++ [ex_id i]) p' l else None
          | _ => None
          end
      end
  end.

Lemma net_epoch hs (p : net_P) : net_run hs p -> p_EpochN p = 1 -> p_EpochState p = net_ep.
Proof.
  intros (ep & c0 & hist & d & P & He & _ & Hn)%node_run_inv En;
    [|apply net_one_epoch|apply net_selects|apply net_hash_length].
  pose proof (node_epoch _ _ _ _ _ _ _ _ _ _ _ _ Hn) as Ep. rewrite Ep.
  eapply (epochs_det net_input ex_Hash net_hash_Of net_callback 100 net_K net_ep net_cp []); [apply net_selects|done|constructor|].
  unfold p_EpochN in En. by rewrite Ep in En.
Qed.

Lemma net_all_run l : forall hs p p', net_run hs p -> p_EpochN p = 1 -> net_all hs p l = Some p' ->
  net_run (hs ++ (ex_id <$> l)) p' /\ p_EpochN p' = 1.
Proof.
  induction l as [|i l IH]; intros hs p p' Hr En; cbn [net_all].
  - intros [= <-]. by rewrite app_nil_r.
  - destruct (net_input 1 (ex_id i)) as [e|] eqn:Ee; [|done]. destruct (net_process p e) as [[[|] p1]|] eqn:E; [done| |done].
    destruct (candidateb hs (ex_id i) e && (p_EpochN p1 =? 1)) eqn:Ec; [|done].
    apply andb_true_iff in Ec as [Hc%candidateb_sound E1%Z.eqb_eq]; [|done]. destruct Hc as (Hc & Hf & Hk).
    intros Hall. csimpl. rewrite cons_middle, app_assoc. apply (IH _ p1); [|done|done].
    pose proof (net_epoch hs p Hr En) as Ep.
    pose proof (run_event (VT := ex_T) (F := ex_F) net_input ex_Hash ex_keccak net_hash_Of net_callback 100 net_K net_ep net_cp []
      hs p net_db (ex_id i) e None p1 Hr) as Hrun.
    unfold events_after in Hrun. rewrite En, E1 in Hrun. rewrite Ep in Hrun. apply Hrun; try done.
    + by apply net_fits.
    + apply net_honest.
Qed.

Lemma net_boot_run : exists p, net_boot = Ret p /\ net_run [] p /\ p_EpochN p = 1.
Proof.
  destruct (@plaw_SetCheckpoint ex_P Database ex_pstore ex_pstore_laws ex_ptables emptyPosetData net_cp ex_ptables_rep) as (t1 & E1 & Ht1).
  { split; [by vm_compute|by vm_compute|done..]. }
  destruct (@plaw_SetEpoch ex_P Database ex_pstore ex_pstore_laws t1 _ net_ep Ht1) as (t2 & E2 & Ht2).
  { split; [by vm_compute|by eexists]. }
  assert (fuel_ok net_input 100 net_ep []) as Hfu by (split; apply Nat.leb_le; by vm_compute).
  assert (genesis_data net_ep net_cp (data_epoch (data_checkpoint emptyPosetData net_cp) net_ep)) as Hgd.
  { by split. }
  pose proof (net_fits net_db eq_refl) as Hef.
  assert (events_fit net_input 100 net_ep []) as Hev.
  { apply (honest_fits net_input 100 net_K); [apply net_honest|by intros x ?%elem_of_nil|done]. }
  destruct (Bootstrap_genesis net_input ex_Hash net_hash_Of net_callback 100 net_db net_one_epoch net_selects net_hash_length
              net_ep net_cp _ ex_cache t2 [] Hef Hev Hgd Ht2 (ef_roots _ _ Hef) (ef_vectors _ _ Hef)) as (p & E & _).
  exists p. assert (net_boot = Ret p) as Eb.
  { unfold net_boot, net_start. rewrite E1, go_bind_Ret, E2, go_bind_Ret. exact E. }
  split; [done|]. split.
  - eapply run_genesis; [exact Hef|apply net_honest|done|exact Hgd|exact Ht2| | |exact E].
    + apply (ef_roots _ _ Hef).
    + apply (ef_vectors _ _ Hef).
  - assert ((p ← net_boot; Ret (p_EpochN p)) = Ret 1) as E' by (by vm_compute). rewrite Eb in E'. by injection E'.
Qed.

(** A run that is computed. *)
Definition net_result {X} (l : list Z) (f : net_P -> X) : option X :=
  match net_boot with Ret p => f <$> net_all [] p l | Fault _ => None end.

Lemma net_result_run {X} l (f : net_P -> X) x : net_result l f = Some x ->
  exists p, net_run (ex_id <$> l) p /\ p_EpochState p = net_ep /\ f p = x.
Proof.
  unfold net_result. destruct net_boot_run as (p0 & -> & Hr & En). destruct (net_all [] p0 l) as [p|] eqn:E; [|done].
  intros [= <-]. destruct (net_all_run l [] p0 p Hr En E) as [Hr' En']. exists p. split; [done|].
  split; [|done]. by apply (net_epoch _ _ Hr').
Qed.

(** Both nodes decide the first frame at the sixth event. *)
Definition net_view (p : net_P) : Z * hash * list hash :=
  (LastDecidedFrame (p_Checkpoint p), LastAtropos (p_Checkpoint p), p_app p).

Lemma net_run_a : net_result [1; 2; 3; 4; 5; 6] net_view = Some (1, ex_id 1, [ex_id 1]).
Proof. by vm_compute. Qed.
Lemma net_run_b : net_result [2; 1; 3; 4; 5; 6; 7] net_view = Some (1, ex_id 1, [ex_id 1]).
Proof. by vm_compute. Qed.

Theorem nodes_agree_witness :
  exists p1 p2, net_run (ex_id <$> [1; 2; 3; 4; 5; 6]) p1 /\ net_run (ex_id <$> [2; 1; 3; 4; 5; 6; 7]) p2 /\
    LastDecidedFrame (p_Checkpoint p1) = 1 /\ LastDecidedFrame (p_Checkpoint p2) = 1 /\
    p_EpochState p1 = p_EpochState p2 /\
    (LastDecidedFrame (p_Checkpoint p1) = LastDecidedFrame (p_Checkpoint p2) ->
     p_Checkpoint p1 = p_Checkpoint p2 /\ p_app p1 = p_app p2 /\
     (forall h : hash, ps_GetEventConfirmedOn (p_store p1) h = ps_GetEventConfirmedOn (p_store p2) h) /\
     forall e f, is_u32 e -> is_u32 f -> ps_GetFrameInfo (p_store p1) e f = ps_GetFrameInfo (p_store p2) e f).
Proof.
  destruct (net_result_run _ _ _ net_run_a) as (p1 & R1 & E1 & [= F1 _ _]).
  destruct (net_result_run _ _ _ net_run_b) as (p2 & R2 & E2 & [= F2 _ _]).
  exists p1, p2. split; [done|]. split; [done|]. split; [done|]. split; [done|].
  apply (nodes_agree net_input ex_Hash ex_keccak net_hash_Of net_callback 100 net_K net_ep net_cp []
           net_one_epoch net_selects net_hash_length _ _ p1 p2 R1 R2).
  - unfold p_EpochN. by rewrite E1, E2.
  - unfold p_Validators. rewrite E1. apply net_vals_ok.
  - unfold p_Validators. rewrite E1. by eexists.
  - rewrite E1. apply net_honest.
Defined.

Theorem node_progress_witness :
  exists p e err p', net_run (ex_id <$> [1; 2; 3; 4; 5]) p /\ net_input 1 (ex_id 6) = Some e /\
    net_process p e = Ret (err, p') /\
    match err with
    | Some _ => same p p'
    | None => frame_rule net_input (p_EpochN p) (p_Validators p) (ex_id 6) e /\ advances p p'
    end.
Proof.
  assert (net_result [1; 2; 3; 4; 5] p_EpochN = Some 1) as Er by (by vm_compute).
  destruct (net_result_run _ _ _ Er) as (p & R & Ep & _). exists p.
  destruct (net_input 1 (ex_id 6)) as [e|] eqn:Ee; [|by vm_compute in Ee]. exists e.
  assert (candidateb (ex_id <$> [1; 2; 3; 4; 5]) (ex_id 6) e = true) as Hcb by (vm_compute in Ee; injection Ee as <-; by vm_compute).
  destruct (candidateb_sound _ _ _ Ee Hcb) as (Hc & Hf & Hk).
  destruct (node_progress net_input ex_Hash ex_keccak net_hash_Of net_callback 100 net_K net_ep net_cp []
              net_one_epoch net_selects net_hash_length (ex_id <$> [1; 2; 3; 4; 5]) p net_db (ex_id 6) e R) as (err & p' & E & Hcase).
  - rewrite Ep. by apply net_fits.
  - rewrite Ep. apply net_honest.
  - rewrite Ep. exact Hf.
  - rewrite Ep. exact Hc.
  - exact Hk.
  - exists err, p'. split; [done|]. split; [done|]. split; [exact E|exact Hcase].
Defined.

Theorem node_consistent_witness :
  exists p, net_run (ex_id <$> [1; 2; 3; 4; 5; 6]) p /\ LastDecidedFrame (p_Checkpoint p) = 1 /\
    ps_GetCheckpoint (p_store p) = Ret (Some (p_Checkpoint p)) /\
    frameToDecide (p_election p) = LastDecidedFrame (p_Checkpoint p) + 1.
Proof.
  destruct (net_result_run _ _ _ net_run_a) as (p & R & Ep & [= F1 _ _]). exists p. split; [done|]. split; [done|].
  destruct (node_consistent net_input ex_Hash ex_keccak net_hash_Of net_callback 100 net_K net_ep net_cp []
              net_one_epoch net_selects net_hash_length _ p R) as (_ & _ & _ & H4 & _ & H6 & _). done.
Defined.

(** A node that stops after six events and starts again. *)
Theorem restart_recovers_witness :
  exists (p : net_P) db p', net_run (ex_id <$> [1; 2; 3; 4; 5; 6]) p /\
    Bootstrap net_input ex_Hash net_hash_Of net_callback db 100 ex_cache (inl (p_store p)) (p_app p) = Ret p' /\ advances p p' /\
    (p_EpochN p' = p_EpochN p -> LastDecidedFrame (p_Checkpoint p') = LastDecidedFrame (p_Checkpoint p) ->
     p_Checkpoint p' = p_Checkpoint p /\ p_app p' = p_app p).
Proof.
  destruct (net_result_run _ _ _ net_run_a) as (p & R & Ep & _).
  set (db := fun k => if k =? 1 then (epochDb (p_store p), vi_store (p_vecClock p)) else net_db k).
  destruct (restart_recovers net_input ex_Hash ex_keccak net_hash_Of net_callback 100 net_K net_ep net_cp []
              net_one_epoch net_selects net_hash_length (ex_id <$> [1; 2; 3; 4; 5; 6]) p db ex_cache (p_store p) R) as (p' & Hp').
  - rewrite Ep. by apply net_fits.
  - rewrite Ep. apply net_honest.
  - rewrite Ep. split; apply Nat.leb_le; by vm_compute.
  - split; rewrite Ep; cbn [fst snd db].
    + intros d Hd. split; [exact Hd|]. apply (pr_epoch _ _ _ _ _ Hd).
    + apply node_run_inv in R as (ep & c0 & hist & d & P & _ & _ & Hn);
        [|apply net_one_epoch|apply net_selects|apply net_hash_length].
      pose proof (node_epoch _ _ _ _ _ _ _ _ _ _ _ _ Hn) as Ep'. rewrite Ep in Ep'. subst ep.
      destruct Hn as [Hset _ _ _]. pose proof (ag_vec _ _ _ _ _ _ (st_agree _ _ _ _ _ _ _ _ _ _ _ Hset)) as (dv & f & Hix & Hf & _).
      exists dv, f. split; [apply (ix_rep _ _ _ _ _ _ Hix)|exact Hf].
  - exists p, db, p'. split; [done|exact Hp'].
Defined.

Theorem prepare_follows_rule_witness :
  exists p e e' p', net_run (ex_id <$> [1; 2; 3; 4; 5; 6; 7; 8]) p /\ net_input 1 (ex_id 9) = Some e /\
    Prepare net_input ex_Hash ex_keccak 100 p e = Ret (Some e', p') /\ same p p' /\
    e' = set_consensus e (Frame e') (IsRoot e') (Event.MedianTime e') (PrevEpochHash e') /\
    frame_rule net_input 1 net_vals (ex_id 9) e'.
Proof.
  assert (net_result [1; 2; 3; 4; 5; 6; 7; 8] p_EpochN = Some 1) as Er by (by vm_compute).
  destruct (net_result_run _ _ _ Er) as (p & R & Ep & _). exists p.
  destruct (net_input 1 (ex_id 9)) as [e|] eqn:Ee; [|by vm_compute in Ee]. exists e.
  assert (candidateb (ex_id <$> [1; 2; 3; 4; 5; 6; 7; 8]) (ex_id 9) e = true) as Hcb by (vm_compute in Ee; injection Ee as <-; by vm_compute).
  destruct (candidateb_sound _ _ _ Ee Hcb) as (Hc & _ & _).
  destruct (prepare_follows_rule net_input ex_Hash ex_keccak net_hash_Of net_callback 100 net_K net_ep net_cp []
              net_one_epoch net_selects net_hash_length _ p (ex_id 9) e R) as (e' & p' & E & Hs & _ & E1 & E2 & _).
  - unfold p_Validators. rewrite Ep. apply net_vals_ok.
  - unfold p_Validators. rewrite Ep. by eexists.
  - rewrite Ep. exact Hc.
  - vm_compute in Ee. by injection Ee as <-.
  - unfold p_Validators, p_EpochN. rewrite Ep. vm_compute in Ee. injection Ee as <-. by vm_compute.
  - exists e', p'. unfold p_EpochN, p_Validators in E2. rewrite Ep in E2. exact (conj R (conj eq_refl (conj E (conj Hs (conj E1 E2))))).
Defined.
