(* ===== verification/EventBuffer.v ===== *)
(** * The ordering buffer: gossip/ordering/event_buffer.go

    Events arrive in any order; the buffer hands them to the consensus only
    after their parents.  The node behind the callbacks is an interface
    ([NodeLaws]): processing an event connects it or leaves the node as it was.
    The LRU cache of go-lru is an interface too, with a list as its instance. *)

From S2P Require Import Prelude Bytes Pos Event VecStore EventCheck.

(** ** The cache of github.com/hashicorp/golang-lru, as the buffer uses it *)

Class LruKeys (K V C : Type) `{Lru K V C} := {
  lru_Keys : C -> list K;        (* from the oldest to the newest *)
  lru_Remove : C -> K -> C;
  lru_cap : C -> nat
}.

Class LruKeysLaws (K V C : Type) `{LruKeys K V C} : Prop := {
  lk_lru : LruLaws K V C;
  lk_keys (c : C) k : k ∈ lru_Keys c <-> is_Some (lru_peek c k);
  lk_nodup (c : C) : NoDup (lru_Keys c);
  lk_remove (c : C) k : lru_peek (lru_Remove c k) k = None;
  lk_remove_other (c : C) k k' : k <> k' -> lru_peek (lru_Remove c k) k' = lru_peek c k';
  (** with room for a new key, nothing is evicted *)
  lk_room (c : C) k v : k ∈ lru_Keys c \/ (length (lru_Keys c) < lru_cap c)%nat -> lru_peek (lru_Add c k v) k = Some v;
  lk_room_other (c : C) k v k' : k ∈ lru_Keys c \/ (length (lru_Keys c) < lru_cap c)%nat -> k <> k' ->
    lru_peek (lru_Add c k v) k' = lru_peek c k';
  lk_cap_add (c : C) k v : lru_cap (lru_Add c k v) = lru_cap c;
  lk_cap_touch (c : C) k : lru_cap (lru_touch c k) = lru_cap c;
  lk_cap_remove (c : C) k : lru_cap (lru_Remove c k) = lru_cap c;
  lk_cap_purge (c : C) : lru_cap (lru_Purge c) = lru_cap c
}.
#[export] Existing Instance lk_lru.

(** A bounded list of pairs with different keys, the newest first. *)
Record lrulist (K V : Type) := mkLrulist {
  ll_cap : nat;
  ll_items : list (K * V);
  ll_ok : NoDup ll_items.*1 /\ (length ll_items <= ll_cap)%nat
}.
Arguments mkLrulist {K V} _ _ _.
Arguments ll_cap {K V} _.
Arguments ll_items {K V} _.
Arguments ll_ok {K V} _.

Section lrulist.
Context {K V : Type} `{EqDecision K}.
Implicit Types (l : list (K * V)) (c : lrulist K V).

Lemma assoc_del_keys l k : (assoc_del l k).*1 = filter (fun x => x <> k) l.*1.
Proof.
  induction l as [|[x v] l IH]; [done|]. unfold assoc_del in *. csimpl. rewrite !filter_cons. cbn [fst].
  case_decide; csimpl; by rewrite IH.
Qed.

Lemma assoc_get_Some l k : is_Some (assoc_get l k) <-> k ∈ l.*1.
Proof.
  induction l as [|[x v] l IH]; csimpl.
  - split; [by intros [? ?]|by intros ?%elem_of_nil].
  - rewrite elem_of_cons. case_decide as Hx; [split; [by left|by eexists]|]. rewrite IH. naive_solver.
Qed.

Lemma del_ok c k : NoDup (assoc_del (ll_items c) k).*1 /\ (length (assoc_del (ll_items c) k) <= ll_cap c)%nat.
Proof.
  destruct (ll_ok c) as [Hn Hl]. split; [rewrite assoc_del_keys; by apply NoDup_filter|].
  etrans; [apply length_filter|done].
Qed.

Lemma del_shorter l k : k ∈ l.*1 -> (length (assoc_del l k) < length l)%nat.
Proof.
  intros Hk. assert (length (assoc_del l k).*1 < length l.*1)%nat as Hlt; [|by rewrite !length_fmap in Hlt].
  rewrite assoc_del_keys. apply (length_filter_lt _ _ k); [done|]. naive_solver.
Qed.

Lemma front_nodup c k (v : V) : NoDup ((k, v) :: assoc_del (ll_items c) k).*1.
Proof.
  csimpl. apply NoDup_cons_2; [|apply del_ok]. rewrite assoc_del_keys, list_elem_of_filter. naive_solver.
Qed.

Lemma add_ok c k v : NoDup (take (ll_cap c) ((k, v) :: assoc_del (ll_items c) k)).*1 /\
  (length (take (ll_cap c) ((k, v) :: assoc_del (ll_items c) k)) <= ll_cap c)%nat.
Proof.
  split; [rewrite fmap_take; eapply sublist_NoDup; [apply front_nodup|apply sublist_take]|]. rewrite length_take. lia.
Qed.

Lemma purge_ok c : NoDup ([] : list (K * V)).*1 /\ (length ([] : list (K * V)) <= ll_cap c)%nat.
Proof. split; [apply NoDup_nil_2|simpl; lia]. Qed.

Definition ll_add c k v : lrulist K V := mkLrulist (ll_cap c) _ (add_ok c k v).

#[export] Instance lrulist_Lru : Lru K V (lrulist K V) := {|
  lru_peek c k := assoc_get (ll_items c) k;
  lru_touch c k := match assoc_get (ll_items c) k with Some v => ll_add c k v | None => c end;
  lru_Add := ll_add;
  lru_Purge c := mkLrulist (ll_cap c) [] (purge_ok c)
|}.

#[export] Instance lrulist_LruKeys : LruKeys K V (lrulist K V) := {|
  lru_Keys c := reverse (ll_items c).*1;
  lru_Remove c k := mkLrulist (ll_cap c) (assoc_del (ll_items c) k) (del_ok c k);
  lru_cap := ll_cap
|}.

(** With room, the new pair is put in front and nothing is cut off. *)
Lemma add_room c k v : k ∈ (ll_items c).*1 \/ (length (ll_items c) < ll_cap c)%nat ->
  ll_items (ll_add c k v) = (k, v) :: assoc_del (ll_items c) k.
Proof.
  intros Hr. cbn [ll_add ll_items]. apply take_ge. cbn [length]. destruct (ll_ok c) as [_ Hl]. destruct Hr as [Hk|Hlt].
  - pose proof (del_shorter _ _ Hk). lia.
  - assert (length (assoc_del (ll_items c) k) <= length (ll_items c))%nat by apply length_filter. lia.
Qed.

Lemma keys_room c k : k ∈ reverse (ll_items c).*1 \/ (length (reverse (ll_items c).*1) < ll_cap c)%nat ->
  k ∈ (ll_items c).*1 \/ (length (ll_items c) < ll_cap c)%nat.
Proof. by rewrite elem_of_reverse, length_reverse, length_fmap. Qed.

#[export] Instance lrulist_laws : LruKeysLaws K V (lrulist K V).
Proof.
  split.
  - split; cbn [lru_peek lru_touch lru_Add lru_Purge lrulist_Lru].
    + intros c k k'. destruct (assoc_get (ll_items c) k) as [v|] eqn:E; [|done].
      rewrite add_room by (left; apply assoc_get_Some; by eexists). simpl. case_decide as Hk; [by subst|]. by apply assoc_del_other.
    + intros c k v x Hx. apply assoc_get_take in Hx. simpl in Hx. rewrite decide_True in Hx by done. congruence.
    + intros c k k' v x Hne Hx. apply assoc_get_take in Hx. simpl in Hx. rewrite decide_False in Hx by done.
      by rewrite assoc_del_other in Hx.
    + done.
  - intros c k. cbn. by rewrite elem_of_reverse, assoc_get_Some.
  - intros c. cbn. rewrite reverse_Permutation. apply ll_ok.
  - intros c k. cbn. apply assoc_del_same.
  - intros c k k' Hne. cbn. by apply assoc_del_other.
  - intros c k v Hr. cbn [lru_peek lru_Add lrulist_Lru]. rewrite add_room by (by apply keys_room). simpl. by rewrite decide_True.
  - intros c k v k' Hr Hne. cbn [lru_peek lru_Add lrulist_Lru]. rewrite add_room by (by apply keys_room).
    simpl. rewrite decide_False by done. by apply assoc_del_other.
  - done.
  - intros c k. cbn. by destruct (assoc_get (ll_items c) k).
  - done.
  - done.
Qed.
End lrulist.

Section buffer.
Context {E P S C : Type} (event_Hash : E -> hash) (event_Parents : E -> list hash).

(** An event with the peer that sent it. *)
Record event := mkEvent { ev_Event : E; ev_peer : P }.

Definition ev_hash (w : event) : hash := event_Hash (ev_Event w).
Definition ev_Parents (w : event) : list hash := event_Parents (ev_Event w).

(** The callbacks act on the node [S]; [H] are headers. *)
Record Callback (H : Type) := mkCallback {
  Process : S -> E -> option check_error * S;
  Drop : S -> E -> P -> check_error -> S;
  Get : S -> hash -> option H;
  Exists : S -> hash -> bool;
  Check : option (S -> E -> list H -> option check_error)
}.
Arguments mkCallback {H} _ _ _ _ _.
Arguments Process {H} _.
Arguments Drop {H} _.
Arguments Get {H} _.
Arguments Exists {H} _.
Arguments Check {H} _.

Context {H : Type} (callback : Callback H) `{LruKeys hash event C}.

(** *** The buffer and the node *)
Definition state : Type := C * S.

Definition getIncompleteEventsList (c : C) : list event := omap (lru_peek c) (lru_Keys c).

(** The loop over the parents: their headers, or [None] at the first missing
    one. Looking a parent up refreshes it in the cache. *)
Fixpoint loadParents (st : state) (parents : list hash) : option (list H) * state :=
  match parents with
  | [] => (Some [], st)
  | p :: parents =>
      let st := (lru_touch st.1 p, st.2) in
      match Get callback st.2 p with
      | None => (None, st)
      | Some h => let '(r, st) := loadParents st parents in ((fun l => h :: l) <$> r, st)
      end
  end.

Definition check (s : S) (e : E) (parents : list H) : option check_error :=
  match Check callback with None => None | Some f => f s e parents end.

Fixpoint pushEvent (n : nat) (st : state) (e : event) (incompletes : list event) (strict : bool) : go state :=
  match n with
  | O => Fault OutOfFuel
  | Datatypes.S n =>
      if Exists callback st.2 (ev_hash e) then
        Ret (st.1, if strict then Drop callback st.2 (ev_Event e) (ev_peer e) ErrAlreadyConnectedEvent else st.2)
      else
        let '(parents, st) := loadParents st (ev_Parents e) in
        match parents with
        | None => Ret (lru_Add st.1 (ev_hash e) e, st.2)
        | Some parents =>
            match check st.2 (ev_Event e) parents with
            | Some err => Ret (st.1, Drop callback st.2 (ev_Event e) (ev_peer e) err)
            | None =>
                match Process callback st.2 (ev_Event e) with
                | (Some err, s) => Ret (st.1, Drop callback s (ev_Event e) (ev_peer e) err)
                | (None, s) =>
                    go_fold (fun st child =>
                      go_fold (fun st parent =>
                        if bool_decide (parent = ev_hash e) then pushEvent n st child incompletes false else Ret st)
                        st (ev_Parents child))
                      (lru_Remove st.1 (ev_hash e), s) incompletes
                end
            end
        end
  end.

Definition PushEvent (n : nat) (st : state) (e : E) (peer : P) : go state :=
  pushEvent n st (mkEvent e peer) (getIncompleteEventsList st.1) true.

Definition IsBuffered (c : C) (id : hash) : bool := bool_decide (is_Some (lru_peek c id)).
Definition Clear (c : C) : C := lru_Purge c.

(** Events that arrive one after the other. *)
Definition pushAll (n : nat) (st : state) (l : list (E * P)) : go state :=
  go_fold (fun st ep => PushEvent n st ep.1 ep.2) st l.

End buffer.
Arguments event E P : clear implicits.
Arguments Callback E P S H : clear implicits.

(** ** What the buffer relies on and promises *)

Section order.
Context {E P S C H : Type} (event_Hash : E -> hash) (event_Parents : E -> list hash) (callback : Callback E P S H).
Context `{LruKeysLaws hash (event E P) C}.
(** The events that are connected in the node, in order. *)
Context (connected : S -> list hash).
Abbreviation ev_hash := (ev_hash event_Hash).
Abbreviation ev_Parents := (ev_Parents event_Parents).
Abbreviation pushEvent := (pushEvent event_Hash event_Parents callback).
Implicit Types (st : state (S := S) (C := C)) (w : event E P).

Record NodeLaws : Prop := {
  nl_exists s h : Exists _ callback s h = true <-> h ∈ connected s;
  nl_get s h : is_Some (Get _ callback s h) <-> h ∈ connected s;
  nl_process s e : match Process _ callback s e with
                   | (None, s') => connected s' = connected s ++ [event_Hash e]
                   | (Some _, s') => connected s' = connected s
                   end;
  nl_drop s e p err : connected (Drop _ callback s e p err) = connected s
}.
Context (HN : NodeLaws) (evs : list E).

(** New events, each once, after their parents. *)
Inductive delivered (base : list hash) : list hash -> Prop :=
  | delivered_nil : delivered base []
  | delivered_snoc new e : delivered base new -> e ∈ evs -> event_Hash e ∉ base ++ new ->
      (forall p, p ∈ event_Parents e -> p ∈ base ++ new) -> delivered base (new ++ [event_Hash e]).

Lemma delivered_app base new1 new2 :
  delivered base new1 -> delivered (base ++ new1) new2 -> delivered base (new1 ++ new2).
Proof.
  intros H1'. induction 1 as [|new e _ IH He Hn Hp]; [by rewrite app_nil_r|]. rewrite app_assoc.
  apply delivered_snoc; [done|done|by rewrite app_assoc|by rewrite app_assoc].
Qed.

(** Every buffered event is one of those that arrived. *)
Definition buffered_ok st : Prop :=
  forall k w, lru_peek st.1 k = Some w -> ev_hash w = k /\ ev_Event w ∈ evs.

(** What a call does to the node. *)
Definition grows st st' : Prop :=
  buffered_ok st' /\ exists new, connected st'.2 = connected st.2 ++ new /\ delivered (connected st.2) new.

Lemma grows_refl st : buffered_ok st -> grows st st.
Proof. intros Hb. split; [done|]. exists []. rewrite app_nil_r. split; [done|constructor]. Qed.

Lemma grows_trans st1 st2 st3 : grows st1 st2 -> grows st2 st3 -> grows st1 st3.
Proof.
  intros [_ (n1 & E1 & D1)] [Hb (n2 & E2 & D2)]. split; [done|]. exists (n1 ++ n2).
  rewrite E2, E1, app_assoc. split; [done|]. rewrite E1 in D2. by apply delivered_app.
Qed.

Lemma buffered_touch st k : buffered_ok st -> buffered_ok (lru_touch st.1 k, st.2).
Proof. intros Hb k' w. cbn [fst]. rewrite law_touch. apply Hb. Qed.

Lemma buffer_loadParents parents : forall st,
  exists r c, loadParents callback st parents = (r, (c, st.2)) /\ (forall k, lru_peek c k = lru_peek st.1 k) /\
    lru_cap c = lru_cap st.1 /\ (is_Some r <-> forall p, p ∈ parents -> p ∈ connected st.2).
Proof.
  induction parents as [|p parents IH]; intros st; cbn [loadParents].
  { exists (Some []), st.1. destruct st. split_and!; try done. split; [by intros _ q ?%elem_of_nil|by eexists]. }
  destruct (Get _ callback st.2 p) as [h|] eqn:Eg; cbn [snd]; rewrite Eg.
  - destruct (IH (lru_touch st.1 p, st.2)) as (r & c & E1 & Hc & Hcap & Hr). rewrite E1. cbn [fst snd] in *.
    exists ((fun l => h :: l) <$> r), c. split; [done|]. split; [intros k; by rewrite Hc, law_touch|].
    split; [by rewrite Hcap, lk_cap_touch|]. rewrite fmap_is_Some, Hr.
    assert (p ∈ connected st.2) as Hp by (apply (nl_get HN); by eexists).
    split; [intros Hall q [->|Hq]%elem_of_cons; [done|by apply Hall]|intros Hall q Hq; apply Hall; by right].
  - exists None, (lru_touch st.1 p). split; [done|]. split; [intros k; by rewrite law_touch|].
    split; [by rewrite lk_cap_touch|]. split; [by intros [? ?]|]. intros Hall.
    assert (is_Some (Get _ callback st.2 p)) as [? Ex] by (apply (nl_get HN), Hall; by left). congruence.
Qed.

(** The events of the list that are not connected yet. *)
Definition missing (l : list (event E P)) st : nat :=
  size (list_to_set (ev_hash <$> l) ∖ list_to_set (connected st.2) : gset hash).

Lemma missing_grows l st st' : grows st st' -> (missing l st' <= missing l st)%nat.
Proof. intros [_ (new & E1 & _)]. apply subseteq_size. rewrite E1. set_solver. Qed.

Lemma missing_done l st st' h : h ∈ ev_hash <$> l -> h ∉ connected st.2 -> connected st'.2 = connected st.2 ++ [h] ->
  (missing l st' < missing l st)%nat.
Proof.
  intros Hl Hn E1. apply subset_size. rewrite E1. split; [set_solver|]. intros Hsub.
  assert (h ∈ (list_to_set (ev_hash <$> l) ∖ list_to_set (connected st.2) : gset hash)) as Hin by set_solver.
  apply Hsub in Hin. set_solver.
Qed.

(** A call returns, whatever the checks and the processing say. *)
Lemma pushEvent_grows (n : nat) : forall st w l strict,
  buffered_ok st -> ev_Event w ∈ evs -> (forall x, x ∈ l -> ev_Event x ∈ evs) ->
  (missing l st + (if decide (ev_hash w ∈ ev_hash <$> l) then 0 else 1) < n)%nat ->
  exists st', pushEvent n st w l strict = Ret st' /\ grows st st'.
Proof.
  induction n as [|n IH]; intros st w l strict Hb Hw Hl Hn; [lia|]. cbn [EventBuffer.pushEvent].
  assert (forall s, connected s = connected st.2 -> grows st (st.1, s)) as Hsame.
  { intros s Es. split; [exact Hb|]. exists []. rewrite app_nil_r. split; [exact Es|constructor]. }
  destruct (Exists _ callback st.2 (ev_hash w)) eqn:Ex.
  { eexists. split; [done|]. apply Hsame. destruct strict; [apply (nl_drop HN)|done]. }
  assert (ev_hash w ∉ connected st.2) as Hnew by (intros Hin; apply (nl_exists HN) in Hin; congruence).
  destruct (buffer_loadParents (ev_Parents w) st) as (r & c & El & Hc & Hcap & Hr). rewrite El.
  assert (buffered_ok (c, st.2)) as Hbc by (intros k x; cbn [fst]; rewrite Hc; apply Hb).
  destruct r as [ps|].
  2:{ eexists. split; [done|]. cbn [fst snd]. split; [|exists []; rewrite app_nil_r; split; [done|constructor]].
      intros k x Hx. cbn [fst] in Hx. destruct (decide (ev_hash w = k)) as [<-|Hne].
      - apply law_add_same in Hx as ->. done.
      - apply law_add_other in Hx; [|done]. by apply Hbc. }
  cbn [fst snd]. destruct (check callback st.2 (ev_Event w) ps) as [err|].
  { eexists. split; [done|]. split; [exact Hbc|]. exists []. rewrite app_nil_r. split; [apply (nl_drop HN)|constructor]. }
  pose proof (nl_process HN st.2 (ev_Event w)) as Hp. destruct (Process _ callback st.2 (ev_Event w)) as [[err|] s].
  { eexists. split; [done|]. split; [exact Hbc|]. exists []. rewrite app_nil_r. cbn [snd].
    split; [by rewrite (nl_drop HN)|constructor]. }
  set (st1 := (lru_Remove c (ev_hash w), s)).
  assert (grows st st1) as Hg1.
  { split.
    - intros k x. cbn [fst st1]. destruct (decide (ev_hash w = k)) as [<-|Hne];
        [by rewrite lk_remove|rewrite lk_remove_other by done; apply Hbc].
    - exists [ev_hash w]. split; [done|]. apply (delivered_snoc _ []); [constructor|done|by rewrite app_nil_r|].
      rewrite app_nil_r. apply Hr. by eexists. }
  assert (missing l st1 < n)%nat as Hm.
  { case_decide as Hin.
    - pose proof (missing_done l st st1 (ev_hash w) Hin Hnew Hp). lia.
    - pose proof (missing_grows l st st1 Hg1). lia. }
  destruct (go_fold_inv (fun st child => go_fold (fun st parent =>
              if bool_decide (parent = ev_hash w) then EventBuffer.pushEvent event_Hash event_Parents callback n st child l false else Ret st)
              st (ev_Parents child)) (fun _ st2 => grows st1 st2) l st1) as (st' & Ef & Hg).
  - apply grows_refl, Hg1.
  - intros dn child rest st2 E1 Hg2.
    destruct (go_fold_inv (fun st parent => if bool_decide (parent = ev_hash w)
                then EventBuffer.pushEvent event_Hash event_Parents callback n st child l false else Ret st)
                (fun _ st3 => grows st1 st3) (ev_Parents child) st2) as (st3 & Ef & Hg3); [done| |by exists st3].
    intros dn' p rest' st3 _ Hg3. case_bool_decide; [|by exists st3].
    assert (child ∈ l) as Hch by (rewrite E1; set_solver).
    destruct (IH st3 child l false) as (st4 & E4 & Hg4).
    + apply Hg3.
    + by apply Hl.
    + done.
    + rewrite decide_True by (by apply list_elem_of_fmap_2). pose proof (missing_grows l _ _ Hg3). lia.
    + exists st4. split; [done|]. by apply (grows_trans _ st3).
  - exists st'. split; [exact Ef|]. by apply (grows_trans _ st1).
Qed.

(** ** Completeness *)

(** The identifier of an event determines its parents; the node accepts the
    events once their parents are connected. *)
Definition content_addressed : Prop :=
  forall e1 e2, e1 ∈ evs -> e2 ∈ evs -> event_Hash e1 = event_Hash e2 -> event_Parents e1 = event_Parents e2.
Definition accepting : Prop :=
  forall s e ps, e ∈ evs -> event_Hash e ∉ connected s -> (forall p, p ∈ event_Parents e -> p ∈ connected s) ->
    check callback s e ps = None /\ (Process _ callback s e).1 = None.
Context (Hcontent : content_addressed) (Haccept : accepting).

Definition hashes : gset hash := list_to_set (event_Hash <$> evs).
Definition room st : Prop := (size hashes <= lru_cap st.1)%nat.
Definition fresh st : Prop := forall k, is_Some (lru_peek st.1 k) -> k ∉ connected st.2.

(** Buffered, and not waiting for a parent. *)
Definition ready st (k : hash) : Prop :=
  exists w, lru_peek st.1 k = Some w /\ forall p, p ∈ ev_Parents w -> p ∈ connected st.2.

Record keeps (L : hash -> Prop) st st' : Prop := {
  kp_grows : grows st st';
  kp_cap : lru_cap st'.1 = lru_cap st.1;
  kp_fresh : fresh st';
  kp_keys k : is_Some (lru_peek st'.1 k) -> is_Some (lru_peek st.1 k) \/ L k;
  kp_held k : is_Some (lru_peek st.1 k) -> is_Some (lru_peek st'.1 k) \/ k ∈ connected st'.2;
  kp_ready k : ready st' k -> ready st k
}.

Lemma connected_grows st st' h : grows st st' -> h ∈ connected st.2 -> h ∈ connected st'.2.
Proof. intros [_ (new & -> & _)] Hh. set_solver. Qed.

Lemma keeps_refl L st : buffered_ok st -> fresh st -> keeps L st st.
Proof. intros Hb Hf. split; [by apply grows_refl|done|done|by left|by left|done]. Qed.

Lemma keeps_trans L st1 st2 st3 : keeps L st1 st2 -> keeps L st2 st3 -> keeps L st1 st3.
Proof.
  intros [G1 C1 F1 K1 H1' R1] [G2 C2 F2 K2 H2' R2]. split; [by apply (grows_trans _ st2)|congruence|done| | |].
  - intros k [Hk|Hk]%K2; [by apply K1|by right].
  - intros k [Hk|Hk]%H1'; [by apply H2'|right; by apply (connected_grows st2)].
  - intros k Hk. by apply R1, R2.
Qed.

Lemma room_for st w : buffered_ok st -> ev_Event w ∈ evs -> room st ->
  ev_hash w ∈ lru_Keys st.1 \/ (length (lru_Keys st.1) < lru_cap st.1)%nat.
Proof.
  intros Hb Hw Hroom. destruct (decide (ev_hash w ∈ lru_Keys st.1)) as [|Hn]; [by left|]. right.
  assert (length (lru_Keys st.1) < size hashes)%nat; [|unfold room in Hroom; lia].
  rewrite <-(size_list_to_set (C := gset hash)) by apply lk_nodup. apply subset_size. split.
  - intros k Hk%elem_of_list_to_set%lk_keys. destruct Hk as [x Hx]. destruct (Hb k x Hx) as [<- Hin].
    apply elem_of_list_to_set, list_elem_of_fmap. by exists (ev_Event x).
  - intros Hsub. apply Hn. apply (elem_of_list_to_set (C := gset hash)). apply Hsub.
    apply elem_of_list_to_set, list_elem_of_fmap. by exists (ev_Event w).
Qed.

(** The event waits: it is buffered. *)
Lemma keeps_add L st c w :
  buffered_ok st -> fresh st -> room st -> ev_Event w ∈ evs -> ev_hash w ∉ connected st.2 -> L (ev_hash w) ->
  (forall k, lru_peek c k = lru_peek st.1 k) -> lru_cap c = lru_cap st.1 ->
  ~ (forall p, p ∈ ev_Parents w -> p ∈ connected st.2) ->
  keeps L st (lru_Add c (ev_hash w) w, st.2) /\ ~ ready (lru_Add c (ev_hash w) w, st.2) (ev_hash w) /\
  is_Some (lru_peek (lru_Add c (ev_hash w) w) (ev_hash w)).
Proof.
  intros Hb Hf Hroom Hw Hn HL Hc Hcap Hwait.
  assert (buffered_ok (c, st.2)) as Hbc by (intros k x; cbn [fst]; rewrite Hc; apply Hb).
  assert (ev_hash w ∈ lru_Keys c \/ (length (lru_Keys c) < lru_cap c)%nat) as Hr
    by (apply (room_for (c, st.2) w Hbc Hw); unfold room; cbn [fst]; by rewrite Hcap).
  assert (forall k, ev_hash w <> k -> lru_peek (lru_Add c (ev_hash w) w) k = lru_peek st.1 k) as Ho
    by (intros k Hne; by rewrite lk_room_other, Hc).
  pose proof (lk_room c (ev_hash w) w Hr) as Hs.
  assert (~ ready (lru_Add c (ev_hash w) w, st.2) (ev_hash w)) as Hnr.
  { intros (x & Hx & Hp). cbn [fst snd] in *. rewrite Hs in Hx. injection Hx as <-. done. }
  split; [|split; [done|by rewrite Hs; eexists]]. split.
  - split; [|exists []; rewrite app_nil_r; split; [done|constructor]].
    intros k x. cbn [fst]. destruct (decide (ev_hash w = k)) as [<-|Hne]; [rewrite Hs; by intros [= <-]|rewrite Ho by done; apply Hb].
  - cbn [fst]. by rewrite lk_cap_add.
  - intros k. cbn [fst snd]. destruct (decide (ev_hash w = k)) as [<-|Hne]; [done|rewrite Ho by done; apply Hf].
  - intros k. cbn [fst]. destruct (decide (ev_hash w = k)) as [<-|Hne]; [by right|rewrite Ho by done; by left].
  - intros k Hk. left. cbn [fst]. destruct (decide (ev_hash w = k)) as [<-|Hne]; [rewrite Hs; by eexists|by rewrite Ho].
  - intros k Hk. destruct (decide (ev_hash w = k)) as [<-|Hne]; [done|]. destruct Hk as (x & Hx & Hp). exists x.
    cbn [fst snd] in *. by rewrite Ho in Hx.
Qed.

(** The event is connected and leaves the buffer: the events that waited for
    it alone become ready. *)
Lemma process_step st c s w :
  buffered_ok st -> fresh st -> ev_Event w ∈ evs -> ev_hash w ∉ connected st.2 ->
  (forall k, lru_peek c k = lru_peek st.1 k) -> connected s = connected st.2 ++ [ev_hash w] ->
  (forall p, p ∈ ev_Parents w -> p ∈ connected st.2) ->
  let st1 := (lru_Remove c (ev_hash w), s) in
  grows st st1 /\ fresh st1 /\ (forall k, is_Some (lru_peek st1.1 k) -> is_Some (lru_peek st.1 k)) /\
  (forall k, is_Some (lru_peek st.1 k) -> is_Some (lru_peek st1.1 k) \/ k ∈ connected st1.2) /\
  (forall k, ready st1 k -> ready st k \/ exists x, lru_peek st.1 k = Some x /\ ev_hash w ∈ ev_Parents x).
Proof.
  intros Hb Hf Hw Hn Hc Es Hp st1.
  assert (forall k x, lru_peek st1.1 k = Some x -> ev_hash w <> k /\ lru_peek st.1 k = Some x) as Hpeek.
  { intros k x. cbn [fst st1]. destruct (decide (ev_hash w = k)) as [<-|Hne]; [by rewrite lk_remove|].
    by rewrite lk_remove_other, Hc. }
  split; [split|split; [|split; [|split]]].
  - intros k x [_ Hx]%Hpeek. by apply Hb.
  - exists [ev_hash w]. split; [done|]. apply (delivered_snoc _ []); [constructor|done|by rewrite app_nil_r|].
    by rewrite app_nil_r.
  - intros k [x [Hne Hx]%Hpeek]. cbn [snd st1]. rewrite Es, elem_of_app, list_elem_of_singleton.
    intros [Hk| ->]; [|done]. by apply (Hf k); [eexists|].
  - intros k [x [_ Hx]%Hpeek]. by exists x.
  - intros k [x Hx]. cbn [fst snd st1]. destruct (decide (ev_hash w = k)) as [<-|Hne].
    + right. rewrite Es. set_solver.
    + left. rewrite lk_remove_other, Hc by done. by exists x.
  - intros k (x & [_ Hx]%Hpeek & Hpar). cbn [snd st1] in Hpar. setoid_rewrite Es in Hpar.
    destruct (decide (ev_hash w ∈ ev_Parents x)) as [Hin|Hnin]; [right; by exists x|]. left. exists x. split; [done|].
    intros p Hpx. specialize (Hpar p Hpx). apply elem_of_app in Hpar as [?| ->%list_elem_of_singleton]; done.
Qed.

Lemma pushEvent_keeps (n : nat) : forall st w l strict,
  buffered_ok st -> fresh st -> room st -> ev_Event w ∈ evs -> (forall x, x ∈ l -> ev_Event x ∈ evs) ->
  (forall k, is_Some (lru_peek st.1 k) -> k ∈ ev_hash <$> l) ->
  (missing l st + (if decide (ev_hash w ∈ ev_hash <$> l) then 0 else 1) < n)%nat ->
  exists st', pushEvent n st w l strict = Ret st' /\
    keeps (fun k => k ∈ ev_hash <$> l \/ k = ev_hash w) st st' /\ ~ ready st' (ev_hash w) /\
    (is_Some (lru_peek st'.1 (ev_hash w)) \/ ev_hash w ∈ connected st'.2).
Proof.
  induction n as [|n IH]; intros st w l strict Hb Hf Hroom Hw Hl Hcov Hn; [lia|]. cbn [EventBuffer.pushEvent].
  destruct (Exists _ callback st.2 (ev_hash w)) eqn:Ex.
  { apply (nl_exists HN) in Ex.
    assert (forall s, connected s = connected st.2 -> keeps (fun k => k ∈ ev_hash <$> l \/ k = ev_hash w) st (st.1, s)) as Hk.
    { intros s Es. split; [|done| |by left|by left|].
      - split; [exact Hb|]. exists []. rewrite app_nil_r. split; [exact Es|constructor].
      - intros k. cbn [fst snd]. rewrite Es. apply Hf.
      - intros k (x & Hx & Hp). exists x. cbn [fst snd] in *. split; [done|]. intros p Hpx. rewrite <-Es. by apply Hp. }
    eexists. split; [done|]. cbn [fst snd].
    assert (connected (if strict then Drop _ callback st.2 (ev_Event w) (ev_peer w) ErrAlreadyConnectedEvent else st.2) = connected st.2) as Es
      by (destruct strict; [apply (nl_drop HN)|done]).
    split; [by apply Hk|]. rewrite Es. split; [|by right]. intros (x & Hx & _). cbn [fst] in Hx.
    by apply (Hf (ev_hash w)); [eexists|]. }
  assert (ev_hash w ∉ connected st.2) as Hnew by (intros Hin; apply (nl_exists HN) in Hin; congruence).
  destruct (buffer_loadParents (ev_Parents w) st) as (r & c & El & Hc & Hcap & Hr). rewrite El.
  destruct r as [ps|].
  2:{ eexists. split; [done|]. cbn [fst snd].
      destruct (keeps_add (fun k => k ∈ ev_hash <$> l \/ k = ev_hash w) st c w Hb Hf Hroom Hw Hnew ltac:(by right) Hc Hcap)
        as (Hk & Hnr & Hs); [|by auto]. intros Hp. apply Hr in Hp as [? Hp]. done. }
  assert (forall p, p ∈ ev_Parents w -> p ∈ connected st.2) as Hp by (apply Hr; by eexists).
  cbn [fst snd]. destruct (Haccept st.2 (ev_Event w) ps Hw Hnew Hp) as [-> Hproc].
  pose proof (nl_process HN st.2 (ev_Event w)) as Hs. destruct (Process _ callback st.2 (ev_Event w)) as [[err|] s]; [done|].
  clear Hproc.
  destruct (process_step st c s w Hb Hf Hw Hnew Hc Hs Hp) as (Hg1 & Hf1 & Hk1 & Hh1 & Hr1).
  set (st1 := (lru_Remove c (ev_hash w), s)) in *. set (L := fun k => k ∈ ev_hash <$> l).
  assert (missing l st1 < n)%nat as Hm.
  { case_decide as Hin.
    - pose proof (missing_done l st st1 (ev_hash w) Hin Hnew Hs). lia.
    - pose proof (missing_grows l st st1 Hg1). lia. }
  assert (forall st2, keeps L st1 st2 -> forall child, child ∈ l -> exists st3,
            EventBuffer.pushEvent event_Hash event_Parents callback n st2 child l false = Ret st3 /\ keeps L st1 st3 /\
            keeps L st2 st3 /\ ~ ready st3 (ev_hash child)) as Hpush.
  { intros st2 Hk2 child Hch. pose proof (list_elem_of_fmap_2 ev_hash l child Hch) as HchL.
    destruct (IH st2 child l false) as (st3 & E3 & Hk3 & Hnr & _).
    - apply (kp_grows _ _ _ Hk2).
    - apply (kp_fresh _ _ _ Hk2).
    - unfold room. rewrite (kp_cap _ _ _ Hk2). cbn [fst st1]. by rewrite lk_cap_remove, Hcap.
    - by apply Hl.
    - done.
    - intros k [Hk|Hk]%(kp_keys _ _ _ Hk2); [by apply Hcov, Hk1|exact Hk].
    - rewrite decide_True by done. pose proof (missing_grows l _ _ (kp_grows _ _ _ Hk2)). lia.
    - assert (keeps L st2 st3) as Hk23.
      { destruct Hk3 as [G3 C3 F3 K3 H3 R3]. split; try done. intros k [?|[?| ->]]%K3; [by left|by right|by right]. }
      exists st3. split; [done|]. split; [by apply (keeps_trans _ _ st2)|]. done. }
  destruct (go_fold_inv (fun st child => go_fold (fun st parent =>
              if bool_decide (parent = ev_hash w) then EventBuffer.pushEvent event_Hash event_Parents callback n st child l false else Ret st)
              st (ev_Parents child))
              (fun dn st2 => keeps L st1 st2 /\ forall k, ready st2 k -> ready st k \/
                 (k ∉ ev_hash <$> dn) /\ exists x, x ∈ l /\ ev_hash x = k /\ ev_hash w ∈ ev_Parents x) l st1) as (st' & Ef & Hk' & Hr').
  - split; [apply keeps_refl; [apply Hg1|done]|]. intros k [Hk|(x & Hx & Hin)]%Hr1; [by left|]. right. split; [apply not_elem_of_nil|].
    assert (k ∈ ev_hash <$> l) as Hkl by (apply Hcov; by eexists). apply list_elem_of_fmap in Hkl as (y & -> & Hy).
    exists y. split; [done|]. split; [done|]. destruct (Hb _ _ Hx) as [Eh Hxe].
    unfold EventBuffer.ev_Parents in *. rewrite (Hcontent (ev_Event y) (ev_Event x)); [done|by apply Hl|done|by symmetry].
  - intros dn child rest st2 E1 [Hk2 Hr2]. assert (child ∈ l) as Hch by (rewrite E1; set_solver).
    destruct (go_fold_inv (fun st parent => if bool_decide (parent = ev_hash w)
                then EventBuffer.pushEvent event_Hash event_Parents callback n st child l false else Ret st)
                (fun dn' st3 => keeps L st1 st3 /\ keeps L st2 st3 /\ (ev_hash w ∈ dn' -> ~ ready st3 (ev_hash child)))
                (ev_Parents child) st2) as (st3 & Ef & Hk13 & Hk23 & Hnr).
    + split; [done|]. split; [|by intros ?%elem_of_nil]. apply keeps_refl; [apply (kp_grows _ _ _ Hk2)|apply (kp_fresh _ _ _ Hk2)].
    + intros dn' p rest' st3 _ (Hk13 & Hk23 & Hnr). case_bool_decide as Ep.
      * destruct (Hpush st3 Hk13 child Hch) as (st4 & E4 & Hk14 & Hk34 & Hnr4). exists st4. split; [done|].
        split; [done|]. split; [by apply (keeps_trans _ _ st3)|done].
      * exists st3. split; [done|]. split; [done|]. split; [done|].
        intros [?|Hin%list_elem_of_singleton]%elem_of_app; [by apply Hnr|by symmetry in Hin].
    + exists st3. split; [done|]. split; [done|]. intros k Hk.
      destruct (Hr2 k (kp_ready _ _ _ Hk23 k Hk)) as [|[Hd (x & Hx & <- & Hin)]]; [by left|]. right.
      split; [|by exists x]. rewrite fmap_app, elem_of_app. intros [?|Eh%list_elem_of_singleton]; [done|].
      apply Hnr; [|by rewrite <-Eh].
      unfold EventBuffer.ev_Parents in *. rewrite (Hcontent (ev_Event child) (ev_Event x)); [done|by apply Hl|by apply Hl|by symmetry].
  - exists st'. split; [exact Ef|].
    assert (forall k, ready st' k -> ready st k) as Hready.
    { intros k [?|[Hd (x & Hx & <- & _)]]%Hr'; [done|]. by destruct (Hd (list_elem_of_fmap_2 ev_hash l x Hx)). }
    assert (ev_hash w ∈ connected st'.2) as Hconn.
    { apply (connected_grows st1); [apply (kp_grows _ _ _ Hk')|]. cbn [snd st1]. rewrite Hs. set_solver. }
    destruct Hk' as [G2 C2 F2 K2 H2' R2]. split; [|split; [|by right]].
    + split; [by apply (grows_trans _ st1)| |done| | |exact Hready].
      * rewrite C2. cbn [fst st1]. by rewrite lk_cap_remove.
      * intros k [Hk|Hk]%K2; [left; by apply Hk1|right; by left].
      * intros k [Hk|Hk]%Hh1; [by apply H2'|right; by apply (connected_grows st1)].
    + intros (x & Hx & _). by apply (F2 (ev_hash w)); [eexists|].
Qed.

(** *** A sequence of arrivals *)

Lemma incompletes_spec st : buffered_ok st ->
  (forall x, x ∈ getIncompleteEventsList st.1 -> ev_Event x ∈ evs) /\
  (forall k, is_Some (lru_peek st.1 k) -> k ∈ ev_hash <$> getIncompleteEventsList st.1).
Proof.
  intros Hb. unfold getIncompleteEventsList. split.
  - intros x (k & _ & Hx)%list_elem_of_omap. apply (Hb k x Hx).
  - intros k [x Hx]. destruct (Hb k x Hx) as [<- _]. apply list_elem_of_fmap_2, list_elem_of_omap.
    exists (ev_hash x). split; [|done]. apply lk_keys. by eexists.
Qed.

Lemma missing_bound l st : (forall x : event E P, x ∈ l -> ev_Event x ∈ evs) -> (missing l st <= length evs)%nat.
Proof.
  intros Hl. etrans; [apply (subseteq_size _ hashes)|].
  - intros k [Hk _]%elem_of_difference. apply elem_of_list_to_set, list_elem_of_fmap in Hk as (x & -> & Hx).
    apply elem_of_list_to_set, list_elem_of_fmap. exists (ev_Event x). split; [done|by apply Hl].
  - unfold hashes. clear. induction evs as [|e l IH]; [done|]. csimpl.
    set (X := list_to_set (event_Hash <$> l) : gset hash) in *. destruct (decide (event_Hash e ∈ X)) as [Hin|Hn].
    + assert ({[event_Hash e]} ∪ X = X) as -> by set_solver. simpl. lia.
    + rewrite size_union, size_singleton by set_solver. simpl. lia.
Qed.

Lemma pushAll_grows (n : nat) (arrivals : list (E * P)) : (length evs + 1 < n)%nat -> forall st,
  buffered_ok st -> (forall ep, ep ∈ arrivals -> ep.1 ∈ evs) ->
  exists st', pushAll event_Hash event_Parents callback n st arrivals = Ret st' /\ grows st st'.
Proof.
  intros Hn. unfold pushAll. induction arrivals as [|[e q] l IH]; intros st Hb Hl.
  { exists st. split; [done|]. by apply grows_refl. }
  cbn [go_fold fst snd]. destruct (incompletes_spec st Hb) as [Hi _]. pose proof (missing_bound _ st Hi).
  destruct (pushEvent_grows n st (mkEvent e q) (getIncompleteEventsList st.1) true Hb) as (st1 & E1 & Hg1); [|done|case_decide; lia|].
  { apply (Hl (e, q)). by left. }
  unfold PushEvent. rewrite E1, go_bind_Ret. destruct (IH st1) as (st2 & E2 & Hg2).
  - apply Hg1.
  - intros ep Hep. apply Hl. by right.
  - exists st2. split; [done|]. by apply (grows_trans _ st1).
Qed.

(** Between two arrivals every buffered event waits for a parent. *)
Record waiting (arrived : list E) st : Prop := {
  wt_buffered : buffered_ok st;
  wt_fresh : fresh st;
  wt_room : room st;
  wt_none k : ~ ready st k;
  wt_held e : e ∈ arrived -> is_Some (lru_peek st.1 (event_Hash e)) \/ event_Hash e ∈ connected st.2
}.

Lemma pushAll_waiting (n : nat) (arrivals : list (E * P)) : (length evs + 1 < n)%nat -> forall arrived st,
  waiting arrived st -> (forall ep, ep ∈ arrivals -> ep.1 ∈ evs) ->
  exists st', pushAll event_Hash event_Parents callback n st arrivals = Ret st' /\ waiting (arrived ++ arrivals.*1) st'.
Proof.
  intros Hn. unfold pushAll. induction arrivals as [|[e q] l IH]; intros arrived st Hw Hl.
  { exists st. by rewrite app_nil_r. }
  cbn [go_fold fst snd]. destruct Hw as [W1 W2 W3 W4 W5]. destruct (incompletes_spec st W1) as [Hi Hcov].
  pose proof (missing_bound _ st Hi).
  destruct (pushEvent_keeps n st (mkEvent e q) (getIncompleteEventsList st.1) true W1 W2 W3) as (st1 & E1 & [G1 C1 F1 K1 H1' R1] & Hnr & Hin);
    [|done|done|case_decide; lia|].
  { apply (Hl (e, q)). by left. }
  unfold PushEvent. rewrite E1, go_bind_Ret. destruct (IH (arrived ++ [e]) st1) as (st2 & E2 & Hw2).
  - split; [apply G1|done|unfold room; by rewrite C1|intros k Hk; by apply (W4 k), R1|].
    intros x [Hx|Hx%list_elem_of_singleton]%elem_of_app; [|by subst x].
    destruct (W5 x Hx) as [Hk|Hk]; [by apply H1'|right; by apply (connected_grows st)].
  - intros ep Hep. apply Hl. by right.
  - exists st2. split; [done|]. csimpl. by rewrite cons_middle, app_assoc.
Qed.

(** Ranked events cannot all wait for each other. *)
Lemma waiting_done (base : S) (rank : hash -> nat) st :
  waiting evs st -> (forall h, h ∈ connected base -> h ∈ connected st.2) ->
  (forall e p, e ∈ evs -> p ∈ event_Parents e -> p ∈ connected base \/
     exists e', e' ∈ evs /\ event_Hash e' = p /\ (rank p < rank (event_Hash e))%nat) ->
  forall e, e ∈ evs -> event_Hash e ∈ connected st.2.
Proof.
  intros [W1 W2 W3 W4 W5] Hbase Hrank.
  assert (forall (m : nat) e, e ∈ evs -> (rank (event_Hash e) < m)%nat -> event_Hash e ∈ connected st.2) as Hm.
  { induction m as [|m IH]; intros e He Hr; [lia|]. destruct (W5 e He) as [[x Hx]|]; [|done]. exfalso.
    apply (W4 (event_Hash e)). exists x. split; [done|]. intros p Hp. destruct (W1 _ _ Hx) as [Eh Hxe].
    unfold EventBuffer.ev_Parents in Hp. rewrite (Hcontent (ev_Event x) e Hxe He Eh) in Hp.
    destruct (Hrank e p He Hp) as [Hb|(e' & He' & <- & Hlt)]; [by apply Hbase|]. apply IH; [done|lia]. }
  intros e He. by apply (Hm (Datatypes.S (rank (event_Hash e)))); [|lia].
Qed.

Lemma empty_cache_ok (base : S) (c : C) : lru_Keys c = [] -> buffered_ok (c, base) /\ fresh (c, base) /\ forall k, lru_peek c k = None.
Proof.
  intros Hc. assert (forall k, lru_peek c k = None) as Hn.
  { intros k. apply eq_None_not_Some. rewrite <-lk_keys, Hc. apply not_elem_of_nil. }
  split; [|split; [|done]]; intros k; cbn [fst]; rewrite Hn; [done|]. by intros [? ?].
Qed.

(** C11: The ordering buffer hands events over in causal order.  Whatever
    events arrive, in whatever order and how often, whatever the checks and the
    processing answer and whatever the cache evicts, the calls return, and what
    they add to the node are arrived events, each new and each after all of
    its parents. *)
Theorem buffer_causal_order (n : nat) (arrivals : list (E * P)) (base : S) (c : C) :
  lru_Keys c = [] -> (length evs + 1 < n)%nat -> (forall ep, ep ∈ arrivals -> ep.1 ∈ evs) ->
  exists st' new, pushAll event_Hash event_Parents callback n (c, base) arrivals = Ret st' /\
    connected st'.2 = connected base ++ new /\ delivered (connected base) new /\
    (forall k, IsBuffered st'.1 k = true -> exists e, e ∈ evs /\ event_Hash e = k).
Proof.
  intros Hc Hn Hl. destruct (empty_cache_ok base c Hc) as [Hb _].
  destruct (pushAll_grows n arrivals Hn (c, base) Hb Hl) as (st' & E1 & Hb' & new & E2 & D).
  exists st', new. split_and!; [done..|]. intros k Hk%bool_decide_eq_true. destruct Hk as [x Hx].
  exists (ev_Event x). destruct (Hb' k x Hx) as [Eh Hx']. by split.
Qed.

(** C10: Nothing is lost when the cache is large enough.  If every event of
    [evs] arrives at least once, in any order, the node accepts them once their
    parents are there, and their parents are connected or among them with a
    smaller rank (identifiers are hashes, so parents have no cycle), then at
    the end all of them are connected, each once and after its parents, and
    the buffer is empty. *)
Theorem buffer_delivers_all (n : nat) (arrivals : list (E * P)) (base : S) (c : C) (rank : hash -> nat) :
  lru_Keys c = [] -> (size hashes <= lru_cap c)%nat -> (length evs + 1 < n)%nat ->
  (forall ep, ep ∈ arrivals -> ep.1 ∈ evs) -> (forall e, e ∈ evs -> e ∈ arrivals.*1) ->
  (forall e p, e ∈ evs -> p ∈ event_Parents e -> p ∈ connected base \/
     exists e', e' ∈ evs /\ event_Hash e' = p /\ (rank p < rank (event_Hash e))%nat) ->
  exists st' new, pushAll event_Hash event_Parents callback n (c, base) arrivals = Ret st' /\
    connected st'.2 = connected base ++ new /\ delivered (connected base) new /\
    (forall e, e ∈ evs -> event_Hash e ∈ connected base ++ new) /\ lru_Keys st'.1 = [].
Proof.
  intros Hc Hroom Hn Hl Hall Hrank. destruct (empty_cache_ok base c Hc) as (Hb & Hf & Hnone).
  destruct (pushAll_grows n arrivals Hn (c, base) Hb Hl) as (st1 & E1 & _ & new & E2 & D).
  cbn [snd] in E2, D. destruct (pushAll_waiting n arrivals Hn [] (c, base)) as (st' & E3 & Hw); [|done|].
  { split; [done|done|done| |by intros e ?%elem_of_nil]. intros k (x & Hx & _). cbn [fst] in Hx. by rewrite Hnone in Hx. }
  rewrite E1 in E3. injection E3 as <-. exists st1, new. split_and!; [done..| |].
  - intros e He. rewrite <-E2. apply (waiting_done base rank st1); [|intros h Hh; rewrite E2; set_solver|done|done].
    destruct Hw as [W1 W2 W3 W4 W5]. split; try done. intros x Hx. by apply W5, Hall.
  - destruct (lru_Keys st1.1) as [|k l] eqn:Ek; [done|]. exfalso.
    assert (is_Some (lru_peek st1.1 k)) as [x Hx] by (apply lk_keys; rewrite Ek; by left).
    destruct (wt_buffered _ _ Hw k x Hx) as [<- Hxe]. apply (wt_fresh _ _ Hw (ev_hash x)); [by eexists|].
    apply (waiting_done base rank st1); [|intros h Hh; rewrite E2; set_solver|done|done].
    destruct Hw as [W1 W2 W3 W4 W5]. split; try done. intros y Hy. by apply W5, Hall.
Qed.
End order.

(** ** An example: three events of which the last arrives first *)

Definition toy_event : Type := hash * list hash.
Definition toy_node : Callback toy_event bytes (list hash) unit := {|
  Process s e := (None, s ++ [e.1]);
  Drop s _ _ _ := s;
  Get s h := if bool_decide (h ∈ s) then Some tt else None;
  Exists s h := bool_decide (h ∈ s);
  Check := Some (fun _ _ _ => None)
|}.
Definition toy_events : list toy_event := [([1], []); ([2], [[1]]); ([3], [[1]; [2]])].
Definition toy_arrivals : list (toy_event * bytes) :=
  [(([3], [[1]; [2]]), [7]); (([2], [[1]]), [8]); (([3], [[1]; [2]]), [8]); (([1], []), [7])].

Lemma toy_laws : NodeLaws fst toy_node id.
Proof.
  split; intros s; cbn.
  - intros h. apply bool_decide_eq_true.
  - intros h. case_bool_decide; [split; [done|by eexists]|split; [by intros [? ?]|done]].
  - done.
  - done.
Qed.

Lemma purged_ok (n : nat) : NoDup ([] : list (hash * event toy_event bytes)).*1 /\
  (length ([] : list (hash * event toy_event bytes)) <= n)%nat.
Proof. split; [apply NoDup_nil_2|simpl; lia]. Qed.
Definition toy_cache (n : nat) : lrulist hash (event toy_event bytes) := mkLrulist n [] (purged_ok n).
Definition toy_rank (h : hash) : nat := match h with [x] => Z.to_nat x | _ => 0 end.

(** The buffer keeps the two early events and hands them over at the end;
    with room for one of them only, the other is lost. *)
Example toy_run :
  (st ← pushAll fst snd toy_node 5 (toy_cache 3, []) toy_arrivals; Ret (ll_items st.1, st.2)) = Ret ([], [[1]; [2]; [3]]) /\
  (st ← pushAll fst snd toy_node 5 (toy_cache 1, []) toy_arrivals; Ret st.2) = Ret [[1]].
Proof. split; vm_compute; reflexivity. Qed.

Ltac decide_mem := apply list_elem_of_In; simpl; tauto.

Lemma toy_arrived ep : ep ∈ toy_arrivals -> ep.1 ∈ toy_events.
Proof. intros Hep%list_elem_of_In. simpl in Hep. destruct Hep as [<-|[<-|[<-|[<-|[]]]]]; decide_mem. Qed.

Lemma buffer_causal_order_witness : exists st' new,
  pushAll fst snd toy_node 5 (toy_cache 1, []) toy_arrivals = Ret st' /\
  st'.2 = [] ++ new /\ delivered fst snd toy_events [] new /\
  (forall k, IsBuffered st'.1 k = true -> exists e, e ∈ toy_events /\ e.1 = k).
Proof.
  apply (buffer_causal_order fst snd toy_node id toy_laws toy_events 5 toy_arrivals [] (toy_cache 1)); [done|simpl; lia|].
  exact toy_arrived.
Defined.

Lemma buffer_delivers_all_witness : exists st' new,
  pushAll fst snd toy_node 5 (toy_cache 3, []) toy_arrivals = Ret st' /\
  st'.2 = [] ++ new /\ delivered fst snd toy_events [] new /\
  (forall e, e ∈ toy_events -> e.1 ∈ [] ++ new) /\ lru_Keys st'.1 = [].
Proof.
  apply (buffer_delivers_all fst snd toy_node id toy_laws toy_events) with (rank := toy_rank).
  - intros e1 e2 He1%list_elem_of_In He2%list_elem_of_In Eh. simpl in He1, He2.
    destruct He1 as [<-|[<-|[<-|[]]]], He2 as [<-|[<-|[<-|[]]]]; done.
  - intros s e ps _ _ _. by split.
  - done.
  - vm_compute. lia.
  - simpl. lia.
  - exact toy_arrived.
  - intros e He%list_elem_of_In. simpl in He. destruct He as [<-|[<-|[<-|[]]]]; decide_mem.
  - intros e p He%list_elem_of_In Hp%list_elem_of_In. simpl in He. right.
    destruct He as [<-|[<-|[<-|[]]]]; simpl in Hp; intuition subst.
    + exists ([1], []). split; [decide_mem|]. split; [done|vm_compute; lia].
    + exists ([1], []). split; [decide_mem|]. split; [done|vm_compute; lia].
    + exists ([2], [[1]]). split; [decide_mem|]. split; [done|vm_compute; lia].
Defined.
