(* ===== verification/Shuffle.v ===== *)
(** * Weighted random permutations: utils/weighted_shuffle.go

    The validators take turns to include a transaction in an order drawn by
    weight.  The draw walks a binary heap of weights; the model keeps the heap
    in the slice [nodes] as the code does.  SHA-256 is a parameter. *)

From S2P Require Import Prelude Bytes Event.

(** ** The heap *)

Record weightedShuffleNode := mkNode { thisWeight : Z; leftWeight : Z; rightWeight : Z }.

Record weightedShuffleTree := mkTree {
  seed : bytes;
  seedIndex : Z;
  weights : list Z;
  nodes : list weightedShuffleNode
}.

Definition leftIndex (i : Z) : Z := i * 2 + 1.
Definition rightIndex (i : Z) : Z := i * 2 + 2.

Definition with_nodes (t : weightedShuffleTree) (ns : list weightedShuffleNode) : weightedShuffleTree :=
  mkTree (seed t) (seedIndex t) (weights t) ns.

Fixpoint build (n : nat) (t : weightedShuffleTree) (i : Z) : go (Z * weightedShuffleTree) :=
  match n with
  | O => Fault OutOfFuel
  | S n =>
      if zlen (weights t) <=? i then Ret (0, t)
      else
        thisW ← slice_at (weights t) i;
        '(leftW, t) ← build n t (leftIndex i);
        '(rightW, t) ← build n t (rightIndex i);
        if thisW <=? 0 then Fault (PanicMsg "all the weight must be positive")
        else
          ns ← slice_set (nodes t) i (mkNode thisW leftW rightW);
          Ret (u64 (u64 (thisW + leftW) + rightW), with_nodes t ns)
  end.

Section shuffle.
Context (sha256 : bytes -> bytes).

Definition rand64 (t : weightedShuffleTree) : go (Z * weightedShuffleTree) :=
  let t := if seedIndex t =? 32 then mkTree (sha256 (seed t)) 0 (weights t) (nodes t) else t in
  res ← littleendian_BytesToInt64 (sub_bytes (seed t) (Z.to_nat (seedIndex t)) (Z.to_nat (seedIndex t) + 8));
  Ret (res, mkTree (seed t) (seedIndex t + 8) (weights t) (nodes t)).

Fixpoint retrieve (n : nat) (t : weightedShuffleTree) (i : Z) : go (Z * weightedShuffleTree) :=
  match n with
  | O => Fault OutOfFuel
  | S n =>
      node ← slice_at (nodes t) i;
      let total := u64 (u64 (rightWeight node + leftWeight node) + thisWeight node) in
      '(x, t) ← rand64 t;
      if total =? 0 then Fault (PanicMsg "integer divide by zero")
      else
        let r := x `mod` total in
        if r <? thisWeight node then
          ns ← slice_set (nodes t) i (mkNode 0 (leftWeight node) (rightWeight node));
          Ret (i, with_nodes t ns)
        else if r <? u64 (thisWeight node + leftWeight node) then
          '(chosen, t) ← retrieve n t (leftIndex i);
          w ← slice_at (weights t) chosen;
          node ← slice_at (nodes t) i;
          ns ← slice_set (nodes t) i (mkNode (thisWeight node) (u64 (leftWeight node - w)) (rightWeight node));
          Ret (chosen, with_nodes t ns)
        else
          '(chosen, t) ← retrieve n t (rightIndex i);
          w ← slice_at (weights t) chosen;
          node ← slice_at (nodes t) i;
          ns ← slice_set (nodes t) i (mkNode (thisWeight node) (leftWeight node) (u64 (rightWeight node - w)));
          Ret (chosen, with_nodes t ns)
  end.

(** The draws of the loop, one after the other. *)
Fixpoint draws (fuel : nat) (t : weightedShuffleTree) (size : nat) : go (list Z) :=
  match size with
  | O => Ret []
  | S size =>
      '(c, t) ← retrieve fuel t 0;
      l ← draws fuel t size;
      Ret (c :: l)
  end.

(** The fuel is one more than the number of weights: the index at least
    doubles on the way down. *)
Definition WeightedPermutation (size : Z) (ws : list Z) (sd : bytes) : go (list Z) :=
  if zlen ws <? size then Fault (PanicMsg "the permutation size must be less or equal to weights size")
  else if zlen ws =? 0 then Ret []
  else
    let fuel := S (length ws) in
    '(_, t) ← build fuel (mkTree sd 0 ws (replicate (length ws) (mkNode 0 0 0))) 0;
    if size <? 0 then Fault (PanicMsg "makeslice: len out of range")
    else draws fuel t (Z.to_nat size).

End shuffle.

(** ** The heap as a tree *)

Section heap.
Context (m : Z).  (* the number of nodes *)

(** The indices of the subtree under [i]. *)
Fixpoint sub (k : nat) (i : Z) : list Z :=
  match k with
  | O => []
  | S k => if m <=? i then [] else i :: sub k (leftIndex i) ++ sub k (rightIndex i)
  end.

(** The weight that is left in the subtree, when [f j] is left at [j]. *)
Fixpoint rem (f : Z -> Z) (k : nat) (i : Z) : Z :=
  match k with
  | O => 0
  | S k => if m <=? i then 0 else f i + rem f k (leftIndex i) + rem f k (rightIndex i)
  end.

Fixpoint heap_ok (f : Z -> Z) (ns : list weightedShuffleNode) (k : nat) (i : Z) : Prop :=
  match k with
  | O => True
  | S k => i < m -> slice_get ns i = Some (mkNode (f i) (rem f k (leftIndex i)) (rem f k (rightIndex i))) /\
             heap_ok f ns k (leftIndex i) /\ heap_ok f ns k (rightIndex i)
  end.

Lemma rem_sum f k : forall i, rem f k i = zsum (f <$> sub k i).
Proof.
  induction k as [|k IH]; intros i; [done|]. simpl. case_match; [done|]. csimpl.
  rewrite fmap_app, zsum_app, !IH. lia.
Qed.

(** The descendants of [i] share its leading binary digits. *)
Lemma sub_digits k : forall i j, 0 <= i -> j ∈ sub k i ->
  i <= j < m /\ exists d : nat, (i + 1) * 2 ^ Z.of_nat d <= j + 1 < (i + 2) * 2 ^ Z.of_nat d.
Proof.
  induction k as [|k IH]; intros i j Hi; simpl; [by intros ?%elem_of_nil|].
  case_match eqn:Em; [by intros ?%elem_of_nil|]. apply Z.leb_gt in Em.
  assert (forall c d, (c = leftIndex i \/ c = rightIndex i) ->
            (c + 1) * 2 ^ Z.of_nat d <= j + 1 < (c + 2) * 2 ^ Z.of_nat d ->
            (i + 1) * 2 ^ Z.of_nat (S d) <= j + 1 < (i + 2) * 2 ^ Z.of_nat (S d)) as Hup.
  { intros c d Hc Hd. rewrite Nat2Z.inj_succ, Z.pow_succ_r by lia. unfold leftIndex, rightIndex in Hc.
    assert (0 < 2 ^ Z.of_nat d) by lia. destruct Hc as [-> | ->]; nia. }
  unfold leftIndex, rightIndex in *. intros [->|[Hj|Hj]%elem_of_app]%elem_of_cons.
  - split; [lia|]. exists O. simpl. lia.
  - destruct (IH (i * 2 + 1) j ltac:(lia) Hj) as [Hl [d Hd]]. split; [lia|]. exists (S d). by apply (Hup (i * 2 + 1)); [left|].
  - destruct (IH (i * 2 + 2) j ltac:(lia) Hj) as [Hl [d Hd]]. split; [lia|]. exists (S d). by apply (Hup (i * 2 + 2)); [right|].
Qed.

Lemma sub_disjoint k i j : 0 <= i -> j ∈ sub k (leftIndex i) -> j ∈ sub k (rightIndex i) -> False.
Proof.
  intros Hi Hl Hr. unfold leftIndex, rightIndex in *.
  apply sub_digits in Hl as [_ [d Hd]]; [|lia]. apply sub_digits in Hr as [_ [e He]]; [|lia].
  destruct (Nat.le_gt_cases d e) as [Hde|Hde].
  - assert (2 ^ Z.of_nat d <= 2 ^ Z.of_nat e) by (apply Z.pow_le_mono_r; lia). nia.
  - assert (2 ^ Z.of_nat (S e) <= 2 ^ Z.of_nat d) as Hp by (apply Z.pow_le_mono_r; lia).
    rewrite Nat2Z.inj_succ, Z.pow_succ_r in Hp by lia. assert (0 < 2 ^ Z.of_nat e) by lia. nia.
Qed.

Lemma sub_root k i : 0 <= i -> (i ∉ sub k (leftIndex i)) /\ (i ∉ sub k (rightIndex i)).
Proof. intros Hi. unfold leftIndex, rightIndex. split; intros [Hj _]%sub_digits; lia. Qed.

Lemma sub_nodup k : forall i, 0 <= i -> NoDup (sub k i).
Proof.
  induction k as [|k IH]; intros i Hi; simpl; [constructor|]. case_match; [constructor|].
  destruct (sub_root k i Hi) as [Hl Hr]. apply NoDup_cons. split; [rewrite elem_of_app; tauto|].
  apply NoDup_app. split; [apply IH; unfold leftIndex; lia|]. split; [|apply IH; unfold rightIndex; lia].
  intros j Hj Hj'. by apply (sub_disjoint k i j).
Qed.

(** Every index is under the root. *)
Lemma sub_child k : forall i j c, 0 <= i -> m <= i + Z.of_nat k -> j ∈ sub k i -> c < m ->
  c = leftIndex j \/ c = rightIndex j -> c ∈ sub k i.
Proof.
  induction k as [|k IH]; intros i j c Hi Hk; simpl; [by intros ?%elem_of_nil|].
  case_match eqn:Em; [by intros ?%elem_of_nil|]. apply Z.leb_gt in Em.
  intros [->|[Hj|Hj]%elem_of_app]%elem_of_cons Hc Ec; apply elem_of_cons; right; apply elem_of_app.
  - assert (forall x, 0 <= i -> c = x -> i < x -> c ∈ sub k x) as Hs.
    { intros x _ <- Hx. destruct k; simpl; [lia|]. rewrite (proj2 (Z.leb_gt _ _)) by lia. by left. }
    unfold leftIndex, rightIndex in *. destruct Ec; [left|right]; apply Hs; lia.
  - left. apply (IH (leftIndex i) j); unfold leftIndex in *; try done; lia.
  - right. apply (IH (rightIndex i) j); unfold rightIndex in *; try done; lia.
Qed.

Lemma sub_all k j : m <= Z.of_nat k -> 0 <= j < m -> j ∈ sub k 0.
Proof.
  intros Hk Hj. destruct Hj as [H0 Hm]. revert Hm. apply (Zlt_0_ind (fun j => j < m -> j ∈ sub k 0)); [|done]. clear j H0. intros j IH H0 Hm.
  destruct (decide (j = 0)) as [->|Hn].
  { destruct k; simpl; [lia|]. rewrite (proj2 (Z.leb_gt _ _)) by lia. by left. }
  apply (sub_child k 0 ((j - 1) / 2)); [lia|lia| |done|].
  - apply IH; [|assert ((j - 1) / 2 <= j - 1) by (apply Z.div_le_upper_bound; lia); lia].
    split; [apply Z.div_pos; lia|apply Z.div_lt_upper_bound; lia].
  - unfold leftIndex, rightIndex. pose proof (Z.div_mod (j - 1) 2). pose proof (Z.mod_pos_bound (j - 1) 2). lia.
Qed.

End heap.

Definition weight_at (ws : list Z) (j : Z) : Z := default 0 (slice_get ws j).
(** What is left after [c] was drawn. *)
Definition without (f : Z -> Z) (c j : Z) : Z := if decide (j = c) then 0 else f j.

Lemma weights_seqZ (ws : list Z) : weight_at ws <$> seqZ 0 (zlen ws) = ws.
Proof.
  apply list_eq. intros i. rewrite list_lookup_fmap. destruct (decide (i < length ws)%nat) as [Hi|Hi].
  - rewrite (lookup_seqZ_lt 0) by (unfold zlen; lia). cbn. rewrite Z.add_0_l. unfold weight_at. rewrite slice_get_nat.
    by destruct (lookup_lt_is_Some_2 ws i Hi) as [w ->].
  - rewrite (lookup_seqZ_ge 0) by (unfold zlen; lia). cbn. symmetry. apply lookup_ge_None. lia.
Qed.

Section frame.
Context (m : Z).
Implicit Types (f : Z -> Z) (ns : list weightedShuffleNode).

Lemma rem_ext f f' k i : (forall j, j ∈ sub m k i -> f j = f' j) -> rem m f k i = rem m f' k i.
Proof.
  intros Hf. rewrite !rem_sum. f_equal. apply list_fmap_ext. intros n j Hj. apply Hf. by eapply list_elem_of_lookup_2.
Qed.

Lemma rem_nonneg f k i : (forall j, j ∈ sub m k i -> 0 <= f j) -> 0 <= rem m f k i.
Proof. intros Hf. rewrite rem_sum. apply zsum_nonneg, Forall_fmap, Forall_forall. exact Hf. Qed.

Lemma rem_without f c k i : 0 <= i -> c ∈ sub m k i -> rem m (without f c) k i = rem m f k i - f c.
Proof.
  intros Hi Hc. rewrite !rem_sum. pose proof (sub_nodup m k i Hi) as Hn. revert Hc Hn.
  generalize (sub m k i) as l. induction l as [|j l IH]; intros Hc Hn; [by apply elem_of_nil in Hc|].
  apply NoDup_cons in Hn as [Hj Hn]. csimpl. unfold without at 1. case_decide as Hjc.
  - subst j. assert (zsum (without f c <$> l) = zsum (f <$> l)) as ->; [|lia].
    f_equal. apply list_fmap_ext. intros n x Hx%list_elem_of_lookup_2. unfold without.
    rewrite decide_False; [done|]. by intros ->.
  - apply elem_of_cons in Hc as [?|Hc]; [by subst|]. rewrite (IH Hc Hn). lia.
Qed.

Lemma heap_ok_frame f f' ns ns' k : forall i,
  (forall j, j ∈ sub m k i -> slice_get ns' j = slice_get ns j /\ f' j = f j) ->
  heap_ok m f ns k i -> heap_ok m f' ns' k i.
Proof.
  induction k as [|k IH]; intros i Hj; [done|]. cbn [heap_ok sub] in *. intros Hh Hi. specialize (Hh Hi) as (Hn & Hl & Hr).
  rewrite (proj2 (Z.leb_gt _ _)) in Hj by lia.
  assert (forall j, j ∈ sub m k (leftIndex i) -> slice_get ns' j = slice_get ns j /\ f' j = f j) as Hjl
    by (intros j Hj'; apply Hj; right; apply elem_of_app; by left).
  assert (forall j, j ∈ sub m k (rightIndex i) -> slice_get ns' j = slice_get ns j /\ f' j = f j) as Hjr
    by (intros j Hj'; apply Hj; right; apply elem_of_app; by right).
  destruct (Hj i) as [En Ef]; [by left|]. split; [|split; [by apply IH|by apply IH]].
  rewrite En, Hn, Ef. do 2 f_equal; apply rem_ext; intros j Hj'; symmetry; [by apply Hjl|by apply Hjr].
Qed.

(** Unfolding the sum and the indices at an index in range. *)
Lemma rem_S f k i : i < m -> rem m f (S k) i = f i + rem m f k (leftIndex i) + rem m f k (rightIndex i).
Proof. intros Hi. simpl. by rewrite (proj2 (Z.leb_gt _ _)) by lia. Qed.
Lemma sub_S k i : i < m -> sub m (S k) i = i :: sub m k (leftIndex i) ++ sub m k (rightIndex i).
Proof. intros Hi. simpl. by rewrite (proj2 (Z.leb_gt _ _)) by lia. Qed.
Lemma rem_pos_lt f k i : 0 < rem m f k i -> exists k', k = S k' /\ i < m.
Proof.
  destruct k as [|k]; simpl; [lia|]. case_match eqn:Em; [lia|]. apply Z.leb_gt in Em. intros _. by exists k.
Qed.
Lemma sub_left k i j : i < m -> j ∈ sub m k (leftIndex i) -> j ∈ sub m (S k) i.
Proof. intros Hi Hj. rewrite sub_S by done. right. apply elem_of_app. by left. Qed.
Lemma sub_right k i j : i < m -> j ∈ sub m k (rightIndex i) -> j ∈ sub m (S k) i.
Proof. intros Hi Hj. rewrite sub_S by done. right. apply elem_of_app. by right. Qed.

(** The heap under [i] after a change in the left or in the right subtree. *)
Lemma heap_ok_left f ns ns' k i c w :
  0 <= i < m -> heap_ok m f ns (S k) i -> c ∈ sub m k (leftIndex i) -> w = f c ->
  heap_ok m (without f c) ns' k (leftIndex i) ->
  slice_get ns' i = Some (mkNode (f i) (rem m f k (leftIndex i) - w) (rem m f k (rightIndex i))) ->
  (forall j, j <> i -> j ∉ sub m k (leftIndex i) -> slice_get ns' j = slice_get ns j) ->
  heap_ok m (without f c) ns' (S k) i.
Proof.
  intros Hi Hh Hc -> Hl Hni Hout _. destruct (Hh ltac:(lia)) as (_ & _ & Hr).
  destruct (sub_root m k i) as [Hrl Hrr]; [lia|].
  assert (forall j, j ∈ sub m k (rightIndex i) -> j <> c /\ j <> i /\ j ∉ sub m k (leftIndex i)) as Hd.
  { intros j Hj. split; [|split; [by intros ->|intros Hjl; exact (sub_disjoint m k i j (proj1 Hi) Hjl Hj)]].
    intros ->. exact (sub_disjoint m k i c (proj1 Hi) Hc Hj). }
  split; [|split; [done|]].
  - rewrite Hni. unfold without at 1. rewrite decide_False by (by intros ->).
    rewrite (rem_without f c k (leftIndex i)) by (try done; unfold leftIndex; lia). do 2 f_equal. apply rem_ext. intros j Hj.
    unfold without. rewrite decide_False; [done|]. by apply Hd.
  - revert Hr. apply heap_ok_frame. intros j Hj. destruct (Hd j Hj) as (H1 & H2 & H3). split; [by apply Hout|].
    unfold without. by rewrite decide_False.
Qed.

Lemma heap_ok_right f ns ns' k i c w :
  0 <= i < m -> heap_ok m f ns (S k) i -> c ∈ sub m k (rightIndex i) -> w = f c ->
  heap_ok m (without f c) ns' k (rightIndex i) ->
  slice_get ns' i = Some (mkNode (f i) (rem m f k (leftIndex i)) (rem m f k (rightIndex i) - w)) ->
  (forall j, j <> i -> j ∉ sub m k (rightIndex i) -> slice_get ns' j = slice_get ns j) ->
  heap_ok m (without f c) ns' (S k) i.
Proof.
  intros Hi Hh Hc -> Hr Hni Hout _. destruct (Hh ltac:(lia)) as (_ & Hl & _).
  destruct (sub_root m k i) as [Hrl Hrr]; [lia|].
  assert (forall j, j ∈ sub m k (leftIndex i) -> j <> c /\ j <> i /\ j ∉ sub m k (rightIndex i)) as Hd.
  { intros j Hj. split; [|split; [by intros ->|intros Hjr; exact (sub_disjoint m k i j (proj1 Hi) Hj Hjr)]].
    intros ->. exact (sub_disjoint m k i c (proj1 Hi) Hj Hc). }
  split; [|split; [|done]].
  - rewrite Hni. unfold without at 1. rewrite decide_False by (by intros ->).
    rewrite (rem_without f c k (rightIndex i)) by (try done; unfold rightIndex; lia). do 2 f_equal.
    apply rem_ext. intros j Hj. unfold without. rewrite decide_False; [done|]. by apply Hd.
  - revert Hl. apply heap_ok_frame. intros j Hj. destruct (Hd j Hj) as (H1 & H2 & H3). split; [by apply Hout|].
    unfold without. by rewrite decide_False.
Qed.
End frame.

(** ** Building the heap *)

Section build.
Context (ws : list Z) (Hpos : Forall (fun w => 0 < w) ws).
Abbreviation m := (zlen ws).
Abbreviation wt := (weight_at ws).

Lemma weight_at_get j : 0 <= j < m -> slice_get ws j = Some (wt j) /\ 0 < wt j.
Proof.
  intros Hj. unfold weight_at. destruct (slice_get_is_Some ws j Hj) as [w Hw]. rewrite Hw. split; [done|]. cbn.
  unfold slice_get in Hw. rewrite decide_True in Hw by lia. exact (Forall_lookup_1 _ _ _ _ Hpos Hw).
Qed.

Lemma weight_nonneg k i j : 0 <= i -> j ∈ sub m k i -> 0 <= wt j.
Proof. intros Hi [Hj _]%sub_digits; [|done]. pose proof (weight_at_get j ltac:(lia)). lia. Qed.

Lemma rem_parts k i : 0 <= i -> i < m ->
  0 < wt i /\ 0 <= rem m wt k (leftIndex i) /\ 0 <= rem m wt k (rightIndex i).
Proof.
  intros Hi Hm. split; [by apply weight_at_get|].
  split; apply rem_nonneg; intros j; apply weight_nonneg; unfold leftIndex, rightIndex; lia.
Qed.

Record built (t t' : weightedShuffleTree) (k : nat) (i : Z) : Prop := {
  bt_seed : seed t' = seed t;
  bt_index : seedIndex t' = seedIndex t;
  bt_weights : weights t' = weights t;
  bt_len : zlen (nodes t') = zlen (nodes t);
  bt_heap : heap_ok m wt (nodes t') k i;
  bt_out j : j ∉ sub m k i -> slice_get (nodes t') j = slice_get (nodes t) j
}.

Lemma build_ok k : forall t i, weights t = ws -> zlen (nodes t) = m -> 0 <= i -> (0 < k)%nat -> m < i + Z.of_nat k ->
  rem m wt k i < 2 ^ 64 -> exists t', build k t i = Ret (rem m wt k i, t') /\ built t t' k i.
Proof.
  induction k as [|k IH]; intros t i Hw Hn Hi Hk Hf Hfit; [lia|]. cbn [build]. rewrite Hw.
  destruct (m <=? i) eqn:Em.
  { exists t. cbn [rem]. rewrite Em. split; [done|]. split; try done. cbn [heap_ok]. lia. }
  apply Z.leb_gt in Em. rewrite rem_S in * by done. destruct (rem_parts k i Hi Em) as (H1 & H2 & H3).
  destruct (weight_at_get i) as [Hwi _]; [lia|]. rewrite (proj2 (slice_at_Ret _ _ _) Hwi), go_bind_Ret.
  destruct (IH t (leftIndex i) Hw Hn) as (t1 & E1 & [A1 A2 A3 A4 A5 A6]); [unfold leftIndex; lia..|lia|].
  rewrite E1, go_bind_Ret.
  destruct (IH t1 (rightIndex i)) as (t2 & E2 & [B1 B2 B3 B4 B5 B6]); [congruence|congruence|unfold rightIndex; lia..|lia|].
  rewrite E2, go_bind_Ret. rewrite (proj2 (Z.leb_gt _ _)) by lia.
  rewrite slice_set_Ret by lia. rewrite go_bind_Ret. rewrite (u64_id (wt i + _)) by word. rewrite u64_id by word.
  eexists. split; [done|]. destruct (sub_root m k i Hi) as [Hrl Hrr].
  assert (forall j, slice_get (<[Z.to_nat i:=mkNode (wt i) (rem m wt k (leftIndex i)) (rem m wt k (rightIndex i))]> (nodes t2)) j =
    if decide (i = j) then Some (mkNode (wt i) (rem m wt k (leftIndex i)) (rem m wt k (rightIndex i))) else slice_get (nodes t2) j)
    as Hget by (intros j; apply slice_get_insert; lia).
  split; cbn [seed seedIndex weights nodes with_nodes]; try congruence.
  - unfold zlen in *. by rewrite length_insert, B4, A4.
  - intros _. split; [rewrite Hget; by rewrite decide_True|]. split.
    + revert A5. apply heap_ok_frame. intros j Hj. split; [|done]. rewrite Hget, decide_False by (by intros ->).
      apply B6. intros Hjr. exact (sub_disjoint m k i j Hi Hj Hjr).
    + revert B5. apply heap_ok_frame. intros j Hj. split; [|done]. by rewrite Hget, decide_False by (by intros ->).
  - intros j Hj. rewrite sub_S in Hj by done. apply not_elem_of_cons in Hj as [Hji Hj]. rewrite elem_of_app in Hj.
    rewrite Hget, decide_False by done. rewrite B6, A6 by tauto. done.
Qed.

End build.

(** ** Drawing *)

Section draw.
Context (sha256 : bytes -> bytes) (Hsha : forall b, length (sha256 b) = 32%nat).
Context (ws : list Z) (Hpos : Forall (fun w => 0 < w) ws).
Abbreviation m := (zlen ws).
Abbreviation wt := (weight_at ws).
Implicit Types (t : weightedShuffleTree) (f : Z -> Z).

Definition seed_ok t : Prop := length (seed t) = 32%nat /\ exists q : Z, seedIndex t = 8 * q /\ 0 <= q <= 4.

Lemma rand64_ok t : seed_ok t ->
  exists x t', rand64 sha256 t = Ret (x, t') /\ seed_ok t' /\ weights t' = weights t /\ nodes t' = nodes t.
Proof.
  intros [Hl (q & Hq & Hr)]. unfold rand64.
  set (t1 := if seedIndex t =? 32 then mkTree (sha256 (seed t)) 0 (weights t) (nodes t) else t).
  assert (length (seed t1) = 32%nat /\ (exists q, seedIndex t1 = 8 * q /\ 0 <= q < 4) /\ weights t1 = weights t /\ nodes t1 = nodes t)
    as (L & (q1 & Q & R) & W & N).
  { unfold t1. destruct (seedIndex t =? 32) eqn:E; cbn [seed seedIndex weights nodes].
    - split_and!; [apply Hsha|by exists 0|done|done].
    - split_and!; [done|exists q; lia|done|done]. }
  unfold littleendian_BytesToInt64, sub_bytes. rewrite decide_True.
  2:{ rewrite length_take, length_drop, L. lia. }
  rewrite go_bind_Ret. do 2 eexists. split; [done|]. cbn [weights nodes]. split; [|done].
  split; [done|]. exists (q1 + 1). cbn [seedIndex]. lia.
Qed.

(** What is left at an index is nothing or its weight. *)
Definition left_ok f : Prop := forall j, 0 <= j < m -> f j = 0 \/ f j = wt j.

Record drawn t t' f k i c : Prop := {
  dr_in : c ∈ sub m k i;
  dr_new : f c = wt c;
  dr_pos : 0 < f c;
  dr_seed : seed_ok t';
  dr_weights : weights t' = ws;
  dr_len : zlen (nodes t') = m;
  dr_heap : heap_ok m (without f c) (nodes t') k i;
  dr_out j : j ∉ sub m k i -> slice_get (nodes t') j = slice_get (nodes t) j
}.

Lemma left_nonneg f k i j : left_ok f -> 0 <= i -> j ∈ sub m k i -> 0 <= f j.
Proof.
  intros Hf Hi Hj. pose proof (weight_nonneg ws Hpos k i j Hi Hj). apply sub_digits in Hj as [Hj _]; [|done].
  destruct (Hf j); lia.
Qed.

Lemma left_parts f k i : left_ok f -> 0 <= i < m ->
  0 <= f i /\ 0 <= rem m f k (leftIndex i) /\ 0 <= rem m f k (rightIndex i).
Proof.
  intros Hf Hi. split; [destruct (Hf i Hi); pose proof (weight_at_get ws Hpos i Hi); lia|].
  split; apply rem_nonneg; intros j; apply left_nonneg; unfold leftIndex, rightIndex; try done; lia.
Qed.

(** The weight of a drawn index is at most what was left in its subtree. *)
Lemma drawn_le f c k i : left_ok f -> 0 <= i -> c ∈ sub m k i -> f c <= rem m f k i.
Proof.
  intros Hf Hi Hc. assert (0 <= rem m (without f c) k i) as Hr.
  { apply rem_nonneg. intros j Hj. unfold without. case_decide; [lia|]. by apply (left_nonneg f k i). }
  rewrite rem_without in Hr by done. lia.
Qed.

(** The three ways out of [retrieve]. *)
Lemma drawn_here t t1 f k i : weights t1 = ws -> zlen (nodes t1) = m -> seed_ok t1 -> left_ok f -> 0 <= i < m ->
  nodes t1 = nodes t -> heap_ok m f (nodes t) (S k) i -> 0 < f i ->
  drawn t (with_nodes t1 (<[Z.to_nat i := mkNode 0 (rem m f k (leftIndex i)) (rem m f k (rightIndex i))]> (nodes t1))) f (S k) i i.
Proof.
  intros Hw Hn Hs Hf Hi N Hh Hp. destruct (sub_root m k i) as [Hrl Hrr]; [lia|]. destruct (Hh ltac:(lia)) as (_ & Hl & Hr).
  assert (forall j, i <> j -> slice_get (<[Z.to_nat i := mkNode 0 (rem m f k (leftIndex i)) (rem m f k (rightIndex i))]> (nodes t1)) j
    = slice_get (nodes t) j) as Hne by (intros j Hj; rewrite slice_get_insert by lia; by rewrite decide_False, N).
  split; cbn [seed seedIndex weights nodes with_nodes]; try done.
  - rewrite sub_S by lia. by left.
  - destruct (Hf i Hi); [lia|done].
  - unfold zlen in *. by rewrite length_insert.
  - intros _. rewrite slice_get_insert by lia. rewrite decide_True by done. split; [|split].
    + do 2 f_equal; [unfold without; by rewrite decide_True|..]; apply rem_ext; intros j Hj; unfold without;
        rewrite decide_False; congruence.
    + revert Hl. apply heap_ok_frame. intros j Hj. assert (j <> i) by (by intros ->).
      rewrite Hne by done. split; [done|]. unfold without. by rewrite decide_False.
    + revert Hr. apply heap_ok_frame. intros j Hj. assert (j <> i) by (by intros ->).
      rewrite Hne by done. split; [done|]. unfold without. by rewrite decide_False.
  - intros j Hj. apply Hne. intros ->. apply Hj. rewrite sub_S by lia. by left.
Qed.

Lemma drawn_left t t1 t2 f k i c : 0 <= i < m -> nodes t1 = nodes t -> heap_ok m f (nodes t) (S k) i ->
  drawn t1 t2 f k (leftIndex i) c ->
  drawn t (with_nodes t2 (<[Z.to_nat i := mkNode (f i) (rem m f k (leftIndex i) - wt c) (rem m f k (rightIndex i))]> (nodes t2))) f (S k) i c.
Proof.
  intros Hi N Hh [D1 D2 D3 D4 D5 D6 D7 D8]. destruct (sub_root m k i) as [Hrl Hrr]; [lia|].
  split; cbn [seed seedIndex weights nodes with_nodes]; try done.
  - apply sub_left; [lia|done].
  - unfold zlen in *. by rewrite length_insert.
  - eapply (heap_ok_left m f (nodes t) _ k i c (wt c)); [lia|done|done|done| | |].
    + revert D7. apply heap_ok_frame. intros j Hj. split; [|done]. rewrite slice_get_insert by lia.
      rewrite decide_False; [done|]. by intros ->.
    + rewrite slice_get_insert by lia. by rewrite decide_True.
    + intros j Hj Hjl. rewrite slice_get_insert by lia. rewrite decide_False by done. by rewrite D8, N.
  - intros j Hj. rewrite sub_S, not_elem_of_cons, elem_of_app in Hj by lia. rewrite slice_get_insert by lia.
    rewrite decide_False by (intros ->; tauto). rewrite D8, N; [done|tauto].
Qed.

Lemma drawn_right t t1 t2 f k i c : 0 <= i < m -> nodes t1 = nodes t -> heap_ok m f (nodes t) (S k) i ->
  drawn t1 t2 f k (rightIndex i) c ->
  drawn t (with_nodes t2 (<[Z.to_nat i := mkNode (f i) (rem m f k (leftIndex i)) (rem m f k (rightIndex i) - wt c)]> (nodes t2))) f (S k) i c.
Proof.
  intros Hi N Hh [D1 D2 D3 D4 D5 D6 D7 D8]. destruct (sub_root m k i) as [Hrl Hrr]; [lia|].
  split; cbn [seed seedIndex weights nodes with_nodes]; try done.
  - apply sub_right; [lia|done].
  - unfold zlen in *. by rewrite length_insert.
  - eapply (heap_ok_right m f (nodes t) _ k i c (wt c)); [lia|done|done|done| | |].
    + revert D7. apply heap_ok_frame. intros j Hj. split; [|done]. rewrite slice_get_insert by lia.
      rewrite decide_False; [done|]. by intros ->.
    + rewrite slice_get_insert by lia. by rewrite decide_True.
    + intros j Hj Hjl. rewrite slice_get_insert by lia. rewrite decide_False by done. by rewrite D8, N.
  - intros j Hj. rewrite sub_S, not_elem_of_cons, elem_of_app in Hj by lia. rewrite slice_get_insert by lia.
    rewrite decide_False by (intros ->; tauto). rewrite D8, N; [done|tauto].
Qed.

(** What the caller reads after the recursive call. *)
Lemma drawn_reads t1 t2 f k i ch c nd : left_ok f -> 0 <= ch -> i ∉ sub m k ch -> slice_get (nodes t1) i = Some nd ->
  drawn t1 t2 f k ch c ->
  slice_at (weights t2) c = Ret (wt c) /\ slice_at (nodes t2) i = Ret nd /\ 0 < wt c <= rem m f k ch.
Proof.
  intros Hf Hch Hi Hnd [D1 D2 D3 D4 D5 D6 D7 D8]. pose proof (drawn_le f c k ch Hf Hch D1).
  assert (0 <= c < m) as Hc by (apply sub_digits in D1 as [? _]; lia). split_and!; [| |lia|lia].
  - rewrite D5. apply slice_at_Ret. by apply weight_at_get.
  - apply slice_at_Ret. by rewrite D8.
Qed.

Lemma retrieve_ok f k : left_ok f -> forall t i, weights t = ws -> zlen (nodes t) = m -> seed_ok t -> 0 <= i ->
  heap_ok m f (nodes t) k i -> 0 < rem m f k i < 2 ^ 64 ->
  exists c t', retrieve sha256 k t i = Ret (c, t') /\ drawn t t' f k i c.
Proof.
  intros Hf. induction k as [|k IH]; intros t i Hw Hn Hs Hi Hh Hr; [simpl in Hr; lia|].
  destruct (rem_pos_lt m f (S k) i (proj1 Hr)) as (_ & _ & Him).
  destruct (left_parts f k i Hf (conj Hi Him)) as (P1 & P2 & P3). rewrite rem_S in Hr by done.
  destruct (Hh Him) as (Hni & Hl & Hrr). cbn [retrieve].
  rewrite (proj2 (slice_at_Ret _ _ _) Hni), go_bind_Ret. cbn [thisWeight leftWeight rightWeight].
  destruct (rand64_ok t Hs) as (x & t1 & -> & Hs1 & W1 & N1). rewrite go_bind_Ret.
  rewrite (u64_id (rem m f k (rightIndex i) + _)), (u64_id (_ + f i)), (u64_id (f i + _)) by word.
  rewrite (proj2 (Z.eqb_neq _ _)) by lia. set (r := x `mod` _). destruct (sub_root m k i Hi) as [Hrl Hrrt].
  assert (0 <= r < rem m f k (rightIndex i) + rem m f k (leftIndex i) + f i) as Hrange by (apply Z.mod_pos_bound; lia).
  rewrite <-N1 in Hl, Hrr, Hni.
  destruct (r <? f i) eqn:E1; [apply Z.ltb_lt in E1|apply Z.ltb_ge in E1; destruct (r <? _) eqn:E2; [apply Z.ltb_lt in E2|apply Z.ltb_ge in E2]].
  - rewrite slice_set_Ret by (rewrite N1, Hn; lia). rewrite go_bind_Ret. do 2 eexists. split; [done|].
    apply drawn_here; try done; try congruence. lia.
  - destruct (IH t1 (leftIndex i)) as (c & t2 & -> & D); [congruence|congruence|done|unfold leftIndex; lia|done|lia|].
    rewrite go_bind_Ret. destruct (drawn_reads t1 t2 f k i (leftIndex i) c _ Hf ltac:(unfold leftIndex; lia) Hrl Hni D) as (-> & -> & Hc).
    pose proof (dr_len _ _ _ _ _ _ D). rewrite !go_bind_Ret. cbn [thisWeight leftWeight rightWeight].
    rewrite slice_set_Ret by lia. rewrite go_bind_Ret, u64_id by word. do 2 eexists. split; [done|].
    by apply (drawn_left t t1).
  - destruct (IH t1 (rightIndex i)) as (c & t2 & -> & D); [congruence|congruence|done|unfold rightIndex; lia|done|lia|].
    rewrite go_bind_Ret. destruct (drawn_reads t1 t2 f k i (rightIndex i) c _ Hf ltac:(unfold rightIndex; lia) Hrrt Hni D) as (-> & -> & Hc).
    pose proof (dr_len _ _ _ _ _ _ D). rewrite !go_bind_Ret. cbn [thisWeight leftWeight rightWeight].
    rewrite slice_set_Ret by lia. rewrite go_bind_Ret, u64_id by word. do 2 eexists. split; [done|].
    by apply (drawn_right t t1).
Qed.

(** *** The whole heap *)

Abbreviation n := (length ws).

Lemma sub_root_perm : sub m (S n) 0 ≡ₚ seqZ 0 m.
Proof.
  apply NoDup_Permutation; [by apply sub_nodup|apply NoDup_seqZ|]. intros j. rewrite elem_of_seqZ. split.
  - intros [Hj _]%sub_digits; lia.
  - intros Hj. apply sub_all; unfold zlen in *; lia.
Qed.

Lemma weight_sum : rem m wt (S n) 0 = zsum ws.
Proof.
  by rewrite rem_sum, sub_root_perm, weights_seqZ.
Qed.

Lemma left_sum f : left_ok f -> rem m f (S n) 0 <= zsum ws.
Proof.
  intros Hf. rewrite <-weight_sum, !rem_sum. pose proof (sub_digits m (S n) 0) as Hd.
  assert (forall j, j ∈ sub m (S n) 0 -> f j <= wt j) as Hle.
  { intros j Hj. apply (Hd j ltac:(lia)) in Hj as [Hj _]. destruct (Hf j Hj); pose proof (weight_at_get ws Hpos j Hj); lia. }
  clear Hd. revert Hle. generalize (sub m (S n) 0) as l. induction l as [|j l IH]; intros Hle; [done|]. csimpl.
  assert (f j <= wt j) by (apply Hle; by left). assert (zsum (f <$> l) <= zsum (wt <$> l)) by (apply IH; intros; apply Hle; by right). lia.
Qed.

Lemma draws_ok (size : nat) : forall t f (L : list Z),
  weights t = ws -> zlen (nodes t) = m -> seed_ok t -> left_ok f -> heap_ok m f (nodes t) (S n) 0 -> zsum ws < 2 ^ 64 ->
  (forall j, 0 <= j < m -> (f j = 0 <-> j ∈ L)) -> (length L + size <= n)%nat ->
  exists l, draws sha256 (S n) t size = Ret l /\ length l = size /\ NoDup l /\ forall j, j ∈ l -> 0 <= j < m /\ j ∉ L.
Proof.
  induction size as [|size IH]; intros t f L Hw Hn Hs Hf Hh Hfit HL Hlen.
  { exists []. split_and!; [done|done|constructor|]. by intros j ?%elem_of_nil. }
  assert (exists j, 0 <= j < m /\ j ∉ L) as (j & Hj & HjL).
  { assert (Exists (fun j => j ∉ L) (seqZ 0 m)) as Hex.
    { apply not_Forall_Exists; [apply _|]. intros Hall. rewrite Forall_forall in Hall.
      assert (length (seqZ 0 m) <= length L)%nat as Hc.
      { apply submseteq_length, NoDup_submseteq; [apply NoDup_seqZ|]. exact Hall. }
      rewrite length_seqZ in Hc. unfold zlen in Hc. lia. }
    apply Exists_exists in Hex as (j & Hj%elem_of_seqZ & HjL). exists j. split; [lia|done]. }
  assert (0 < f j) as Hfj by (pose proof (HL j Hj); destruct (Hf j Hj); pose proof (weight_at_get ws Hpos j Hj); [tauto|lia]).
  pose proof (drawn_le f j (S n) 0 Hf ltac:(lia) ltac:(apply sub_all; unfold zlen in *; lia)) as Hle.
  pose proof (left_sum f Hf). destruct (retrieve_ok f (S n) Hf t 0 Hw Hn Hs) as (c & t1 & E & D); [lia|done|lia|].
  destruct D as [D1 D2 D3 D4 D5 D6 D7 D8]. assert (0 <= c < m) as Hc by (apply sub_digits in D1 as [? _]; lia).
  destruct (IH t1 (without f c) (c :: L)) as (l & El & Hl & Hnd & Hin); try done.
  - intros x Hx. unfold without. case_decide; [by left|by apply Hf].
  - intros x Hx. unfold without. rewrite elem_of_cons, <-HL by done. case_decide; naive_solver.
  - simpl. lia.
  - exists (c :: l). cbn [draws]. rewrite E, go_bind_Ret, El, go_bind_Ret. split_and!; [done|simpl; by rewrite Hl| |].
    + apply NoDup_cons. split; [|done]. intros Hcl. apply Hin in Hcl as [_ Hcl]. apply Hcl. by left.
    + intros x [->|Hx]%elem_of_cons; [split; [done|]; rewrite <-HL by done; lia|].
      apply Hin in Hx as [Hx Hx']. split; [done|]. intros ?. apply Hx'. by right.
Qed.
End draw.

Lemma draws_prefix sha256 fuel (k : nat) : forall (size : nat) t l,
  draws sha256 fuel t size = Ret l -> (k <= size)%nat -> draws sha256 fuel t k = Ret (take k l).
Proof.
  induction k as [|k IH]; intros size t l Hd Hk; [done|]. destruct size as [|size]; [lia|]. cbn [draws] in *.
  destruct (retrieve sha256 fuel t 0) as [[c t1]|]; [|done]. rewrite go_bind_Ret in *.
  destruct (draws sha256 fuel t1 size) as [l1|] eqn:E; [|done]. rewrite go_bind_Ret in Hd. injection Hd as <-.
  rewrite (IH size t1 l1 E ltac:(lia)), go_bind_Ret. done.
Qed.

(** All the draws succeed, and a shorter call is a prefix. *)
Lemma weighted_permutation_exists (sha256 : bytes -> bytes) (ws : list Z) (sd : bytes) :
  (forall b, length (sha256 b) = 32%nat) -> Forall (fun w => 0 < w) ws -> zsum ws < 2 ^ 64 -> length sd = 32%nat ->
  exists l, l ≡ₚ seqZ 0 (zlen ws) /\
    forall size, 0 <= size <= zlen ws -> WeightedPermutation sha256 size ws sd = Ret (take (Z.to_nat size) l).
Proof.
  intros Hsha Hpos Hfit Hsd. destruct (decide (zlen ws = 0)) as [E0|E0].
  { exists []. rewrite E0. split; [done|]. intros size Hs. unfold WeightedPermutation.
    rewrite E0, (proj2 (Z.ltb_ge 0 size)), take_nil by lia. done. }
  pose proof (zlen_nonneg ws).
  destruct (build_ok ws Hpos (S (length ws)) (mkTree sd 0 ws (replicate (length ws) (mkNode 0 0 0))) 0) as (t & E1 & B).
  { done. } { unfold zlen. cbn [nodes]. by rewrite length_replicate. } { lia. } { lia. } { unfold zlen in *. lia. }
  { by rewrite weight_sum. }
  destruct B as [B1 B2 B3 B4 B5 B6].
  destruct (draws_ok sha256 Hsha ws Hpos (length ws) t (weight_at ws) []) as (l & E2 & Hl & Hnd & Hin); try done.
  - rewrite B4. unfold zlen. cbn [nodes]. by rewrite length_replicate.
  - split; [by rewrite B1|]. exists 0. rewrite B2. cbn [seedIndex]. lia.
  - intros j Hj. by right.
  - intros j Hj. pose proof (weight_at_get ws Hpos j Hj). split; [lia|by intros ?%elem_of_nil].
  - exists l. split.
    + apply submseteq_length_Permutation; [|unfold zlen; rewrite length_seqZ; lia].
      apply NoDup_submseteq; [done|]. intros j Hj. apply elem_of_seqZ. destruct (Hin j Hj). lia.
    + intros size Hs. unfold WeightedPermutation. rewrite (proj2 (Z.ltb_ge _ size)), (proj2 (Z.eqb_neq _ 0)) by lia.
      rewrite E1, go_bind_Ret, (proj2 (Z.ltb_ge size 0)) by lia. apply (draws_prefix sha256 _ _ (length ws)); [done|].
      unfold zlen in *. lia.
Qed.

(** A weighted permutation returns the number of different indices that
    was asked for: with positive weights whose sum fits in 64 bits no step
    panics (no division by zero, no index out of range) and no recursion runs
    out of fuel; with the full size every index is drawn once, and a shorter
    call returns a prefix of it. *)
Theorem weighted_permutation_distinct (sha256 : bytes -> bytes) (ws : list Z) (sd : bytes) (size : Z) :
  (forall b, length (sha256 b) = 32%nat) -> Forall (fun w => 0 < w) ws -> zsum ws < 2 ^ 64 -> length sd = 32%nat ->
  0 <= size <= zlen ws ->
  exists l, WeightedPermutation sha256 (zlen ws) ws sd = Ret l /\ l ≡ₚ seqZ 0 (zlen ws) /\
    WeightedPermutation sha256 size ws sd = Ret (take (Z.to_nat size) l).
Proof.
  intros Hsha Hpos Hfit Hsd Hsize. destruct (weighted_permutation_exists sha256 ws sd Hsha Hpos Hfit Hsd) as (l & Hp & Hpre).
  exists l. split_and!; [|done|by apply Hpre]. rewrite Hpre by (pose proof (zlen_nonneg ws); lia). f_equal. apply take_ge.
  rewrite Hp, length_seqZ. lia.
Qed.

Lemma weighted_permutation_distinct_witness :
  exists l, WeightedPermutation (fun b => replicate 32 (zsum b mod 251)) 5 [4; 1; 1; 7; 2] (replicate 32 9) = Ret l /\ l ≡ₚ seqZ 0 5 /\
    WeightedPermutation (fun b => replicate 32 (zsum b mod 251)) 3 [4; 1; 1; 7; 2] (replicate 32 9) = Ret (take 3 l).
Proof.
  apply (weighted_permutation_distinct (fun b => replicate 32 (zsum b mod 251)) [4; 1; 1; 7; 2] (replicate 32 9) 3).
  - intros b. apply length_replicate.
  - repeat constructor; lia.
  - vm_compute. done.
  - done.
  - vm_compute. split; discriminate.
Defined.

(** Weights that are not positive are refused. *)
Example zero_weight : WeightedPermutation id 1 [3; 0] (replicate 32 9) = Fault (PanicMsg "all the weight must be positive").
Proof. vm_compute. reflexivity. Qed.
