(* ===== verification/OccurredTxs.v ===== *)
(** * Originated and not yet confirmed transactions: gossip/occuredtxs

    A bounded buffer of transaction hashes with their senders and a counter
    per sender, kept by the eviction callback of the LRU cache.  The emitter
    asks it whether a transaction may be in flight already. *)

From S2P Require Import Prelude Bytes Pos Event VecStore EventBuffer.

(** ** The cache with an eviction callback: what [Add] throws out *)

Class LruEvict (K V C : Type) `{LruKeys K V C} := lru_evicted : C -> K -> V -> list (K * V).

Class LruEvictLaws (K V C : Type) `{LruEvict K V C} `{!LruKeysLaws K V C} : Prop := {
  le_add (c : C) k v : (0 < lru_cap c)%nat -> lru_peek c k = None -> lru_peek (lru_Add c k v) k = Some v;
  le_kept (c : C) k v k' : lru_peek c k = None -> k <> k' -> k' ∉ (lru_evicted c k v).*1 ->
    lru_peek (lru_Add c k v) k' = lru_peek c k';
  le_gone (c : C) k v k' x : (0 < lru_cap c)%nat -> lru_peek c k = None -> (k', x) ∈ lru_evicted c k v ->
    lru_peek c k' = Some x /\ lru_peek (lru_Add c k v) k' = None;
  le_nodup (c : C) k v : NoDup (lru_evicted c k v).*1
}.

Section ring.
Context {A T : Type} `{Countable A} {C : Type} `{LruEvict hash A C}.

(** ** The ring *)

Record buffer := mkBuffer { senders : C; from : gmap A Z }.

Definition decreaseSender (fr : gmap A Z) (sender : A) : gmap A Z :=
  let was := default 0 (fr !! sender) in
  if was <=? 1 then delete sender fr else <[sender := was - 1]> fr.

Definition ring_Add (ring : buffer) (h : hash) (sender : A) : buffer :=
  match lru_peek (senders ring) h with
  | Some _ => ring
  | None =>
      let fr := foldl decreaseSender (from ring) (lru_evicted (senders ring) h sender).*2 in
      mkBuffer (lru_Add (senders ring) h sender) (<[sender := default 0 (fr !! sender) + 1]> fr)
  end.

(** [Remove] calls the callback for the removed pair. *)
Definition ring_Delete (ring : buffer) (h : hash) : buffer :=
  match lru_peek (senders ring) h with
  | Some sender => mkBuffer (lru_Remove (senders ring) h) (decreaseSender (from ring) sender)
  | None => ring
  end.

Definition ring_Get (ring : buffer) (h : hash) : option A := lru_peek (senders ring) h.
Definition GetTxsNum (ring : buffer) (sender : A) : Z := default 0 (from ring !! sender).
Definition ring_Clear (ring : buffer) : buffer := mkBuffer (lru_Purge (senders ring)) ∅.

(** ** The buffer: the signer of go-ethereum is a parameter *)

Context {err : Type} (tx_Hash : T -> hash) (Sender : T -> err + A).

Fixpoint CollectNotConfirmedTxs (ring : buffer) (txs : list T) : option err * buffer :=
  match txs with
  | [] => (None, ring)
  | tx :: txs =>
      match Sender tx with
      | inl e => (Some e, ring)
      | inr sender => CollectNotConfirmedTxs (ring_Add ring (tx_Hash tx) sender) txs
      end
  end.

Definition CollectConfirmedTxs (ring : buffer) (txs : list T) : buffer :=
  foldl (fun ring tx => ring_Delete ring (tx_Hash tx)) ring txs.

Definition MayBeConflicted (ring : buffer) (sender : A) (txHash : hash) : bool :=
  match ring_Get ring txHash with
  | Some _ => true
  | None => negb (GetTxsNum ring sender =? 0)
  end.

Definition Len (ring : buffer) : Z := zlen (lru_Keys (senders ring)).

Inductive op :=
  | NotConfirmed (txs : list T)
  | Confirmed (txs : list T)
  | Clear.
Definition run_op (ring : buffer) (o : op) : buffer :=
  match o with
  | NotConfirmed txs => (CollectNotConfirmedTxs ring txs).2
  | Confirmed txs => CollectConfirmedTxs ring txs
  | Clear => ring_Clear ring
  end.

(** ** The counters are exact *)

Context `{!LruKeysLaws hash A C, !LruEvictLaws hash A C}.

(** The buffered transactions of a sender. *)
Definition txs_of (c : C) (a : A) : gset hash := filter (fun h => lru_peek c h = Some a) (list_to_set (lru_Keys c)).

Lemma elem_txs_of c a h : h ∈ txs_of c a <-> lru_peek c h = Some a.
Proof.
  unfold txs_of. rewrite elem_of_filter, elem_of_list_to_set. split; [by intros [? _]|]. intros Hh. split; [done|].
  apply lk_keys. by eexists.
Qed.

Definition counts (n : nat) : option Z := if decide (n = 0)%nat then None else Some (Z.of_nat n).
Lemma counts_default n : default 0 (counts n) = Z.of_nat n.
Proof. unfold counts. case_decide; [by subst|done]. Qed.
Lemma counts_S n : counts (S n) = Some (Z.of_nat n + 1).
Proof. unfold counts. rewrite decide_False by lia. f_equal. lia. Qed.

(** [fr] counts the pairs of [X], a set of hashes with their senders. *)
Definition counted (fr : gmap A Z) (X : A -> gset hash) : Prop := forall a, fr !! a = counts (size (X a)).
Definition ring_ok (ring : buffer) : Prop :=
  counted (from ring) (txs_of (senders ring)) /\ (0 < lru_cap (senders ring))%nat.

Lemma decrease_counted (fr : gmap A Z) (X X' : A -> gset hash) (a : A) (h : hash) : counted fr X -> h ∈ X a ->
  X' a = X a ∖ {[h]} -> (forall b, b <> a -> X' b = X b) -> counted (decreaseSender fr a) X'.
Proof.
  intros Hc Hh Ha Hb b. unfold decreaseSender. cbv zeta. rewrite (Hc a), counts_default.
  assert (size (X' a) = size (X a) - 1 /\ 0 < size (X a))%nat as [Hs Hp].
  { rewrite Ha, size_difference, size_singleton by set_solver. split; [done|].
    apply Nat.neq_0_lt_0. intros Hz%size_empty_inv. set_solver. }
  destruct (decide (b = a)) as [->|Hne].
  - rewrite Hs. case_match eqn:E; [apply Z.leb_le in E; rewrite lookup_delete_eq|apply Z.leb_gt in E; rewrite lookup_insert_eq];
      unfold counts; case_decide; try done; try lia. f_equal. lia.
  - rewrite Hb by done. case_match; [rewrite lookup_delete_ne by done|rewrite lookup_insert_ne by done]; apply Hc.
Qed.

Lemma increase_counted (fr : gmap A Z) (X X' : A -> gset hash) (a : A) (h : hash) : counted fr X -> h ∉ X a ->
  X' a = {[h]} ∪ X a -> (forall b, b <> a -> X' b = X b) -> counted (<[a := default 0 (fr !! a) + 1]> fr) X'.
Proof.
  intros Hc Hh Ha Hb b. rewrite Hc, counts_default. destruct (decide (b = a)) as [->|Hne].
  - rewrite lookup_insert_eq, Ha, size_union, size_singleton by set_solver. by rewrite <-counts_S.
  - rewrite lookup_insert_ne by done. rewrite Hb by done. apply Hc.
Qed.

(** The evicted pairs leave the counters one by one. *)
Lemma decrease_all (l : list (hash * A)) : forall (fr : gmap A Z) (X : A -> gset hash),
  counted fr X -> NoDup l.*1 -> (forall h a, (h, a) ∈ l -> h ∈ X a) -> (forall h a b, h ∈ X a -> h ∈ X b -> a = b) ->
  counted (foldl decreaseSender fr l.*2) (fun a => X a ∖ list_to_set l.*1).
Proof.
  induction l as [|[h a] l IH]; intros fr X Hc Hn Hl Hf; csimpl.
  { intros b. rewrite Hc. do 2 f_equal. set_solver. }
  apply NoDup_cons in Hn as [Hh Hn]. assert (h ∈ X a) as Hha by (apply Hl; by left).
  pose proof (decrease_counted fr X (fun b => X b ∖ {[h]}) a h Hc Hha eq_refl) as Hd.
  assert (counted (decreaseSender fr a) (fun b => X b ∖ {[h]})) as Hc1.
  { apply Hd. intros b Hb. assert (h ∉ X b) by (intros Hhb; apply Hb; by eapply Hf). set_solver. }
  specialize (IH _ _ Hc1 Hn). intros b. rewrite IH; [do 2 f_equal; set_solver| |].
  - intros h' a' Hin. apply elem_of_difference. split; [apply Hl; by right|].
    intros ->%elem_of_singleton. apply Hh. by apply (list_elem_of_fmap_2 fst l (h, a')).
  - intros h' a1 a2. set_solver.
Qed.

Lemma ring_Add_ok ring h a : ring_ok ring -> ring_ok (ring_Add ring h a).
Proof.
  intros [Hr Hcap]. unfold ring_Add. destruct (lru_peek (senders ring) h) eqn:Eh; [done|].
  split; [|cbn [senders]; by rewrite lk_cap_add].
  set (ev := lru_evicted (senders ring) h a). set (X := txs_of (senders ring)).
  assert (counted (foldl decreaseSender (from ring) ev.*2) (fun b => X b ∖ list_to_set ev.*1)) as Hc.
  { apply decrease_all; [exact Hr|apply le_nodup| |].
    - intros h' b Hin. apply elem_txs_of. by eapply le_gone.
    - intros h' b1 b2. unfold X. rewrite !elem_txs_of. congruence. }
  assert (h ∉ ev.*1) as Hne.
  { intros Hin. apply list_elem_of_fmap in Hin as ([h' b] & -> & Hin). cbn [fst] in *.
    apply le_gone in Hin as [Hin _]; [congruence|done|done]. }
  intros b. cbn [senders from]. eapply (increase_counted _ _ _ a h Hc).
  - unfold X. rewrite elem_of_difference, elem_txs_of. naive_solver congruence.
  - apply set_eq. intros h'. rewrite elem_txs_of, elem_of_union, elem_of_singleton, elem_of_difference. unfold X. rewrite elem_txs_of.
    destruct (decide (h = h')) as [<-|Hh']; [rewrite le_add by done; naive_solver|].
    destruct (decide (h' ∈ ev.*1)) as [Hin|Hnin].
    + pose proof Hin as Hin'. apply list_elem_of_fmap in Hin as ([h2 b2] & -> & Hin). cbn [fst] in *.
      apply le_gone in Hin as [_ ->]; [|done|done]. rewrite elem_of_list_to_set. naive_solver.
    + rewrite le_kept by done. rewrite elem_of_list_to_set. naive_solver.
  - intros c Hca. apply set_eq. intros h'. rewrite elem_txs_of, elem_of_difference. unfold X. rewrite elem_txs_of, elem_of_list_to_set.
    destruct (decide (h = h')) as [<-|Hh']; [rewrite le_add by done; naive_solver congruence|].
    destruct (decide (h' ∈ ev.*1)) as [Hin|Hnin].
    + pose proof Hin as Hin'. apply list_elem_of_fmap in Hin as ([h2 b2] & -> & Hin). cbn [fst] in *.
      apply le_gone in Hin as [_ ->]; [|done|done]. naive_solver.
    + rewrite le_kept by done. naive_solver.
Qed.

Lemma ring_Delete_ok ring h : ring_ok ring -> ring_ok (ring_Delete ring h).
Proof.
  intros [Hr Hcap]. unfold ring_Delete. destruct (lru_peek (senders ring) h) as [a|] eqn:Eh; [|done].
  split; [|cbn [senders]; by rewrite lk_cap_remove].
  intros b. cbn [senders from]. apply (decrease_counted (from ring) (txs_of (senders ring)) _ a h Hr).
  - by apply elem_txs_of.
  - apply set_eq. intros h'. rewrite elem_txs_of, elem_of_difference, elem_of_singleton, elem_txs_of.
    destruct (decide (h = h')) as [<-|Hne]; [rewrite lk_remove; naive_solver|]. rewrite lk_remove_other by done. naive_solver.
  - intros c Hca. apply set_eq. intros h'. rewrite !elem_txs_of.
    destruct (decide (h = h')) as [<-|Hne]; [rewrite lk_remove; naive_solver congruence|]. by rewrite lk_remove_other.
Qed.

Lemma ring_Clear_ok ring : ring_ok ring -> ring_ok (ring_Clear ring).
Proof.
  intros [_ Hcap]. split; [|cbn [senders ring_Clear]; by rewrite lk_cap_purge]. intros a. cbn. rewrite lookup_empty. assert (txs_of (lru_Purge (senders ring)) a = ∅) as ->.
  { apply set_eq. intros h. rewrite elem_txs_of, law_purge. set_solver. }
  by rewrite size_empty.
Qed.

Lemma run_op_ok ring o : ring_ok ring -> ring_ok (run_op ring o).
Proof.
  intros Hr. destruct o as [txs|txs|]; cbn [run_op].
  - revert ring Hr. induction txs as [|tx txs IH]; intros ring Hr; [done|]. cbn [CollectNotConfirmedTxs].
    destruct (Sender tx); [done|]. by apply IH, ring_Add_ok.
  - unfold CollectConfirmedTxs. revert ring Hr. induction txs as [|tx txs IH]; intros ring Hr; [done|].
    cbn [foldl]. by apply IH, ring_Delete_ok.
  - by apply ring_Clear_ok.
Qed.

(** After any sequence of collected, confirmed and cleared transactions,
    evictions and failed signature checks included, the counter of a sender is
    the number of its buffered transactions, and [MayBeConflicted] answers
    exactly whether the transaction is buffered or its sender has a buffered
    transaction. *)
Theorem occurred_txs_exact (c : C) (ops : list op) (sender : A) (txHash : hash) :
  lru_Keys c = [] -> (0 < lru_cap c)%nat ->
  let ring := foldl run_op (mkBuffer c ∅) ops in
  GetTxsNum ring sender = Z.of_nat (size (txs_of (senders ring) sender)) /\
  (MayBeConflicted ring sender txHash = true <->
     exists h a, lru_peek (senders ring) h = Some a /\ (h = txHash \/ a = sender)).
Proof.
  intros Hk Hcap ring. assert (ring_ok ring) as [Hr _].
  { apply (foldl_inv _ (fun _ r => ring_ok r)); [|intros; by apply run_op_ok]. split; [|done]. intros a. cbn [from senders].
    rewrite lookup_empty. assert (txs_of c a = ∅) as ->; [|by rewrite size_empty]. unfold txs_of. rewrite Hk. set_solver. }
  assert (GetTxsNum ring sender = Z.of_nat (size (txs_of (senders ring) sender))) as Hn by (unfold GetTxsNum; by rewrite (Hr sender), counts_default).
  split; [exact Hn|]. unfold MayBeConflicted, ring_Get. destruct (lru_peek (senders ring) txHash) as [a|] eqn:Eh.
  { split; [intros _; exists txHash, a; by split; [|left]|done]. }
  rewrite Hn, negb_true_iff, Z.eqb_neq. split.
  - intros Hs. destruct (decide (txs_of (senders ring) sender = ∅)) as [He|He]; [rewrite He, size_empty in Hs; lia|].
    apply set_choose_L in He as [h Hh%elem_txs_of]. exists h, sender. by split; [|right].
  - intros (h & a & Hh & [->| ->]); [congruence|]. assert (h ∈ txs_of (senders ring) sender) as Hin by (by apply elem_txs_of).
    assert (size (txs_of (senders ring) sender) <> 0)%nat; [|lia]. intros Hz%size_empty_inv. set_solver.
Qed.
End ring.

(** ** The list of pairs as such a cache *)

Section instance.
Context {K V : Type} `{EqDecision K}.
Implicit Types (l : list (K * V)).

#[export] Instance lrulist_evict : LruEvict K V (lrulist K V) :=
  fun c k v => drop (ll_cap c) ((k, v) :: assoc_del (ll_items c) k).

Lemma assoc_get_in l k v : NoDup l.*1 -> (assoc_get l k = Some v <-> (k, v) ∈ l).
Proof.
  induction l as [|[x y] l IH]; csimpl; intros Hn; [split; [done|by intros ?%elem_of_nil]|].
  apply NoDup_cons in Hn as [Hx Hn]. rewrite elem_of_cons. case_decide as Hk.
  - subst x. split; [intros [= ->]; by left|]. intros [[= ->]|Hin]; [done|].
    exfalso. apply Hx. by apply (list_elem_of_fmap_2 fst l (k, v)).
  - rewrite IH by done. naive_solver.
Qed.

Lemma assoc_get_none l k : assoc_get l k = None <-> k ∉ l.*1.
Proof. rewrite eq_None_not_Some, assoc_get_Some. done. Qed.

Lemma take_drop_keys (n : nat) l k : NoDup l.*1 -> k ∈ (take n l).*1 -> k ∈ (drop n l).*1 -> False.
Proof.
  intros Hn H1 H2. rewrite <-(take_drop n l), fmap_app in Hn. apply NoDup_app in Hn as (_ & Hd & _). by apply (Hd k).
Qed.

#[export] Instance lrulist_evict_laws : LruEvictLaws K V (lrulist K V).
Proof.
  split; cbn [lru_peek lru_Add lrulist_Lru lru_cap lrulist_LruKeys ll_add ll_items]; unfold lru_evicted, lrulist_evict.
  - intros c k v Hcap _. destruct (ll_cap c); [lia|]. simpl. by rewrite decide_True.
  - intros c k v k' Hk Hne Hd. set (l := (k, v) :: assoc_del (ll_items c) k) in *.
    assert (assoc_get (take (ll_cap c) l) k' = assoc_get l k') as ->.
    { destruct (assoc_get (take (ll_cap c) l) k') as [x|] eqn:E; [by apply assoc_get_take in E|].
      symmetry. apply assoc_get_none. apply assoc_get_none in E. intros Hin. rewrite <-(take_drop (ll_cap c) l), fmap_app in Hin.
      apply elem_of_app in Hin as [?|?]; done. }
    simpl. rewrite decide_False by done. by apply assoc_del_other.
  - intros c k v k' x Hcap Hk Hin. set (l := (k, v) :: assoc_del (ll_items c) k) in *.
    pose proof (front_nodup c k v) as Hn. fold l in Hn.
    assert (k' ∈ (drop (ll_cap c) l).*1) as Hd by (by apply (list_elem_of_fmap_2 fst _ (k', x))). split.
    + assert ((k', x) ∈ assoc_del (ll_items c) k) as Hi.
      { subst l. destruct (ll_cap c); [lia|]. cbn [drop] in Hin. by eapply subseteq_drop. }
      apply assoc_get_in; [apply ll_ok|]. unfold assoc_del in Hi. by apply list_elem_of_filter in Hi as [_ Hi].
    + apply assoc_get_none. intros Ht. by eapply take_drop_keys.
  - intros c k v. eapply sublist_NoDup; [apply (front_nodup c k v)|]. rewrite fmap_drop. apply sublist_drop.
Qed.
End instance.

Definition toy_ring (n : nat) : lrulist hash Z := mkLrulist n [] (conj (NoDup_nil_2) (Nat.le_0_l n)).

Definition toy_ops : list (op (T := hash * Z)) :=
  [NotConfirmed [([1], 5); ([2], 5)]; NotConfirmed [([3], 6); ([4], -1); ([9], 6)]; Confirmed [([2], 5)]].
Definition toy_sender (tx : hash * Z) : string + Z := if tx.2 <? 0 then inl "invalid signature"%string else inr tx.2.

(** With room for two hashes the first one is evicted when the third arrives;
    the fourth has no valid signature and stops the collection. *)
Example toy_ring_run :
  let ring := foldl (run_op fst toy_sender) (mkBuffer (toy_ring 2) ∅) toy_ops in
  (GetTxsNum ring 5, GetTxsNum ring 6, MayBeConflicted ring 6 [9], MayBeConflicted ring 5 [1]) = (0, 1, true, false).
Proof. vm_compute. reflexivity. Qed.

Lemma occurred_txs_exact_witness :
  let ring := foldl (run_op fst toy_sender) (mkBuffer (toy_ring 2) ∅) toy_ops in
  GetTxsNum ring 6 = Z.of_nat (size (txs_of (senders ring) 6)) /\
  (MayBeConflicted ring 6 [9] = true <-> exists h a, lru_peek (senders ring) h = Some a /\ (h = [9] \/ a = 6)).
Proof. apply (occurred_txs_exact fst toy_sender (toy_ring 2) toy_ops 6 [9]); [done|cbn; lia]. Defined.
