(* ===== verification/Parents.v ===== *)
(** * The choice of parents: inter/ancestor/parents.go

    [FindBestParents] asks a strategy again and again for the next parent.
    The strategy is an interface: a class with its laws, with the strategy
    over the vector clock and the random one as instances. *)

From S2P Require Import Prelude Bytes Kvdb KvdbLaws Pos Event Vector VecStore VecIndex Dag VecInv VecMerge VecWalk VecAdd ForklessCause VecSpec VecExample MedianTime VecMerged.

(** ** The interface *)

Class SearchStrategy (St : Type) := {
  Init : St -> option hash -> go St;
  Find : St -> list hash -> go (hash * St)
}.

(** A strategy in a good state finds one of the options it is offered, as long
    as they are known to it. *)
Class SearchStrategyLaws (St : Type) `{SearchStrategy St} (known : hash -> Prop) (ok : St -> Prop) : Prop := {
  law_Init st (selfParent : option hash) : ok st -> (forall h, selfParent = Some h -> known h) ->
    exists st', Init st selfParent = Ret st' /\ ok st';
  law_Find st (options : list hash) : ok st -> options <> [] -> (forall h, h ∈ options -> known h) ->
    exists h st', Find st options = Ret (h, st') /\ h ∈ options /\ ok st'
}.

Lemma size_add (X : gset hash) (h : hash) : h ∉ X -> size ({[h]} ∪ X) = S (size X).
Proof. intros Hh. rewrite size_union, size_singleton by set_solver. done. Qed.

Section best.
Context {St : Type} `{SearchStrategy St}.
(** The order in which Go ranges over a set. *)
Context (Slice : gset hash -> list hash).

(** The loop; each turn takes one option. *)
Fixpoint findParents (n : nat) (max : Z) (optionsSet : gset hash) (parents : list hash) (st : St) : go (list hash * St) :=
  if (zlen parents <? max) && (0 <? Z.of_nat (size optionsSet)) then
    match n with
    | O => Fault OutOfFuel
    | S n =>
        '(best, st) ← Find st (Slice optionsSet);
        findParents n max (EventsSet_Erase optionsSet [best]).1 (parents ++ [best]) st
    end
  else Ret (parents, st).

Definition FindBestParents (max : Z) (options : list hash) (selfParent : option hash) (st : St)
    : go (option hash * list hash * St) :=
  let optionsSet := Events_Set options in
  let '(parents, optionsSet) :=
    match selfParent with
    | Some p => ([p], (EventsSet_Erase optionsSet [p]).1)
    | None => ([], optionsSet)
    end in
  if max <? 0 then Fault (PanicMsg "makeslice: cap out of range")
  else
    st ← Init st selfParent;
    '(parents, st) ← findParents (size optionsSet) max optionsSet parents st;
    Ret (selfParent, parents, st).

(** ** What is chosen *)

Context (Hslice : forall X, Slice X ≡ₚ elements X) (known : hash -> Prop) (ok : St -> Prop) `{!SearchStrategyLaws St known ok}.

Lemma EventsSet_Erase_one (X : gset hash) h : (EventsSet_Erase X [h]).1 = X ∖ {[h]}.
Proof. unfold EventsSet_Erase. cbn. case_match; cbn; set_solver. Qed.

Lemma findParents_spec (n : nat) (max : Z) : forall (X : gset hash) parents st,
  (size X <= n)%nat -> ok st -> (forall h, h ∈ X -> known h) -> NoDup parents -> (forall h, h ∈ parents -> h ∉ X) ->
  exists new st', findParents n max X parents st = Ret (parents ++ new, st') /\ ok st' /\ NoDup (parents ++ new) /\
    (forall h, h ∈ new -> h ∈ X) /\
    zlen (parents ++ new) = Z.max (zlen parents) (Z.min max (zlen parents + Z.of_nat (size X))).
Proof.
  induction n as [|n IH]; intros X parents st Hn Hok Hk Hnd Hd; cbn [findParents].
  all: assert (0 <= zlen parents) by apply zlen_nonneg.
  - assert (size X = 0)%nat as Hz by lia. rewrite Hz, (proj2 (Z.ltb_ge 0 _)), andb_false_r by lia.
    exists [], st. rewrite app_nil_r. split_and!; try done; [by intros h ?%elem_of_nil|lia].
  - destruct (zlen parents <? max) eqn:E1; cbn [andb]; [apply Z.ltb_lt in E1|apply Z.ltb_ge in E1].
    2:{ exists [], st. rewrite app_nil_r. split_and!; try done; [by intros h ?%elem_of_nil|lia]. }
    destruct (0 <? Z.of_nat (size X)) eqn:E2; [apply Z.ltb_lt in E2|apply Z.ltb_ge in E2].
    2:{ exists [], st. rewrite app_nil_r. split_and!; try done; [by intros h ?%elem_of_nil|lia]. }
    destruct (law_Find st (Slice X) Hok) as (b & st1 & -> & Hb & Hok1).
    { intros E. assert (length (Slice X) = size X) by (rewrite Hslice; done). rewrite E in *. simpl in *. lia. }
    { intros h. rewrite Hslice, elem_of_elements. apply Hk. }
    rewrite Hslice, elem_of_elements in Hb. rewrite go_bind_Ret, EventsSet_Erase_one.
    assert (size (X ∖ {[b]}) = size X - 1)%nat as Hs by (rewrite size_difference, size_singleton by set_solver; done).
    destruct (IH (X ∖ {[b]}) (parents ++ [b]) st1) as (new & st' & -> & Hok' & Hnd' & Hin & Hl).
    + lia.
    + done.
    + intros h Hh. apply Hk. set_solver.
    + apply NoDup_app. split; [done|]. split; [|apply NoDup_singleton]. intros x Hx ->%list_elem_of_singleton. by apply (Hd b).
    + intros h [Hh| ->%list_elem_of_singleton]%elem_of_app; [pose proof (Hd h Hh)|]; set_solver.
    + exists (b :: new), st'. rewrite <-app_assoc in *. split_and!; [done|done|done| |].
      * intros h [->|Hh]%elem_of_cons; [done|]. apply Hin in Hh. set_solver.
      * cbn [app] in *. rewrite Hl, zlen_app. change (zlen [b]) with 1. lia.
Qed.

(** [FindBestParents] returns, whatever the strategy: the self-parent
    comes first, no parent is listed twice, every other parent is one of the
    options, and there are as many as the options and [max] allow. *)
Theorem parents_well_chosen (max : Z) (options : list hash) (selfParent : option hash) (st : St) :
  1 <= max -> ok st -> (forall h, h ∈ options -> known h) -> (forall h, selfParent = Some h -> known h) ->
  exists parents st', FindBestParents max options selfParent st = Ret (selfParent, parents, st') /\ ok st' /\
    NoDup parents /\ (forall p, selfParent = Some p -> parents !! O = Some p) /\
    (forall h, h ∈ parents -> h ∈ options \/ selfParent = Some h) /\
    zlen parents = Z.min max (Z.of_nat (size (list_to_set (option_list selfParent ++ options) : gset hash))).
Proof.
  intros Hmax Hok Hopt Hself. unfold FindBestParents. rewrite (proj2 (Z.ltb_ge max 0)) by lia.
  set (X := Events_Set options). assert (forall h, h ∈ X <-> h ∈ options) as HX by (intros h; apply elem_of_Events_Set).
  destruct (law_Init st selfParent Hok Hself) as (st1 & E1 & Hok1).
  destruct selfParent as [p|].
  - rewrite E1, go_bind_Ret, EventsSet_Erase_one.
    destruct (findParents_spec (size (X ∖ {[p]})) max (X ∖ {[p]}) [p] st1) as (new & st' & -> & Hok' & Hnd & Hin & Hl).
    + done.
    + done.
    + intros h Hh. apply Hopt, HX. set_solver.
    + apply NoDup_singleton.
    + intros h ->%list_elem_of_singleton. set_solver.
    + rewrite go_bind_Ret. exists ([p] ++ new), st'. split_and!; [done|done|done| | |].
      * by intros q [= ->].
      * intros h [->%list_elem_of_singleton|Hh]%elem_of_app; [by right|left]. apply HX. apply Hin in Hh. set_solver.
      * rewrite Hl. change (zlen [p]) with 1. change (option_list (Some p) ++ options) with (p :: options).
        assert ((list_to_set (p :: options) : gset hash) = {[p]} ∪ (X ∖ {[p]})) as ->.
        { apply set_eq. intros h. rewrite elem_of_list_to_set, elem_of_cons, elem_of_union, elem_of_difference, HX, elem_of_singleton.
          destruct (decide (h = p)); tauto. }
        rewrite size_add by set_solver. lia.
  - rewrite E1, go_bind_Ret.
    destruct (findParents_spec (size X) max X [] st1) as (new & st' & -> & Hok' & Hnd & Hin & Hl).
    + done.
    + done.
    + intros h Hh. by apply Hopt, HX.
    + apply NoDup_nil_2.
    + by intros h ?%elem_of_nil.
    + rewrite go_bind_Ret. exists ([] ++ new), st'. split_and!; [done|done|done| | |].
      * done.
      * intros h Hh. left. by apply HX, Hin.
      * rewrite Hl. change (zlen []) with 0. change (option_list None ++ options) with options. assert ((list_to_set options : gset hash) = X) as ->; [|lia].
        apply set_eq. intros h. by rewrite HX, elem_of_list_to_set.
Qed.
End best.

(** ** RandomStrategy: math/rand is a parameter *)

Section random.
Context {R : Type} (Intn : R -> Z -> Z * R).
Record RandomStrategy := mkRandomStrategy { rs_r : R }.

Definition random_Find (st : RandomStrategy) (heads : list hash) : go (hash * RandomStrategy) :=
  if zlen heads <=? 0 then Fault (PanicMsg "invalid argument to Intn")
  else
    let '(i, r) := Intn (rs_r st) (zlen heads) in
    h ← slice_at heads i;
    Ret (h, mkRandomStrategy r).

#[export] Instance random_strategy : SearchStrategy RandomStrategy := {|
  Init st _ := Ret st;
  Find := random_Find
|}.

#[export] Instance random_laws : (forall r n, 0 < n -> 0 <= (Intn r n).1 < n) ->
  SearchStrategyLaws RandomStrategy (fun _ => True) (fun _ => True).
Proof.
  intros HI. split; [intros st sp _ _; by exists st|]. intros st options _ Hne _. cbn [Find random_strategy]. unfold random_Find.
  assert (0 < zlen options) as Hl by (destruct options; [done|unfold zlen; simpl; lia]).
  rewrite (proj2 (Z.leb_gt _ _)) by done. specialize (HI (rs_r st) _ Hl). destruct (Intn _ _) as [i r]. cbn [fst] in HI.
  destruct (slice_get_is_Some options i HI) as [h Hh]. rewrite (proj2 (slice_at_Ret _ _ _) Hh), go_bind_Ret.
  exists h, (mkRandomStrategy r). split; [done|]. split; [|done]. unfold slice_get in Hh. rewrite decide_True in Hh by lia.
  by eapply list_elem_of_lookup_2.
Qed.
End random.

(** ** CasualityStrategy: the vector clock decides *)

Section casuality.
Context {T F : Type} `{HT : VecStoreLaws T} `{HF : LruLaws (hash * hash) bool F}.

Record CasualityStrategy := mkCasualityStrategy {
  cs_vecClock : Index T F;
  cs_template : slice;
  cs_validators : Validators
}.
Definition NewCasualityStrategy (vecClock : Index T F) (validators : Validators) : CasualityStrategy :=
  mkCasualityStrategy vecClock None validators.

Record eventScore := mkEventScore { es_event : hash; es_score : Z; es_vec : slice }.

Definition casuality_Init (st : CasualityStrategy) (selfParent : option hash) : go CasualityStrategy :=
  match selfParent with
  | Some p =>
      '(template, vi) ← GetHighestBeforeMerged (cs_vecClock st) p;
      Ret (mkCasualityStrategy vi template (cs_validators st))
  | None => Ret st
  end.

(** The loop over the creators. *)
Definition scoreCreator (template vec : bytes) (score creatorIdx : Z) : go Z :=
  my ← HighestBeforeSeq_Get template creatorIdx;
  his ← HighestBeforeSeq_Get vec creatorIdx;
  let score := if (bs_Seq my <? bs_Seq his) && negb (IsForkDetected my) then u32 (score + 1) else score in
  Ret (if IsForkDetected his && negb (IsForkDetected my) then u32 (score + 1) else score).

(** One turn of the loop over the options. *)
Definition scoreOption (st : CasualityStrategy * list eventScore) (id : hash) : go (CasualityStrategy * list eventScore) :=
  let '(st, scores) := st in
  '(vec, vi) ← GetHighestBeforeMerged (cs_vecClock st) id;
  let n := Validators_Len (cs_validators st) in
  let template := match cs_template st with None => NewHighestBeforeSeq n | Some b => b end in
  score ← go_fold (scoreCreator template (default [] vec)) 0 (seqZ 0 n);
  Ret (mkCasualityStrategy vi (Some template) (cs_validators st), scores ++ [mkEventScore id score vec]).

(** [sort.Slice] may place equal scores in any order. *)
Context (sort_scores : list eventScore -> list eventScore).

Definition casuality_Find (st : CasualityStrategy) (options : list hash) : go (hash * CasualityStrategy) :=
  '(st, scores) ← go_fold scoreOption (st, []) options;
  match sort_scores scores with
  | [] => Fault IndexOutOfRange
  | best :: _ => Ret (es_event best, mkCasualityStrategy (cs_vecClock st) (es_vec best) (cs_validators st))
  end.

#[export] Instance casuality_strategy : SearchStrategy CasualityStrategy := {|
  Init := casuality_Init;
  Find := casuality_Find
|}.

(** *** What it finds *)

Context (Hperm : forall l, sort_scores l ≡ₚ l).
Context (Hsorted : forall l, StronglySorted (fun a b => es_score a <= es_score b) (sort_scores l)).
Context (vv : Validators) (Hvv : validators_ok vv) (getEvent : hash -> option EventHeaderData).
Context (hs : list hash) (d f : VecData) (fc : F).
Abbreviation nv := (zlen (Validators_SortedIDs vv)).

(** How many validators [vec] knows more of than [template], a newly seen
    fork counted as well. *)
Definition more_at (template vec : bytes) (k : Z) : Z :=
  (if (bs_Seq (hb_at template k) <? bs_Seq (hb_at vec k)) && negb (IsForkDetected (hb_at template k)) then 1 else 0) +
  (if IsForkDetected (hb_at vec k) && negb (IsForkDetected (hb_at template k)) then 1 else 0).
Definition more (template vec : bytes) : Z := zsum (more_at template vec <$> seqZ 0 nv).

Lemma more_at_bound template vec k : 0 <= more_at template vec k <= 2.
Proof. unfold more_at. repeat case_match; lia. Qed.

Lemma scoreCreator_spec template vec acc k : vec_ok 8 template -> vec_ok 8 vec -> 0 <= k -> 0 <= acc -> acc + 2 < 2 ^ 32 ->
  scoreCreator template vec acc k = Ret (acc + more_at template vec k).
Proof.
  intros Ht Hv Hk Ha Hb. unfold scoreCreator, more_at.
  rewrite (HighestBeforeSeq_Get_spec template k Ht Hk), go_bind_Ret, (HighestBeforeSeq_Get_spec vec k Hv Hk), go_bind_Ret.
  f_equal. repeat case_match; rewrite ?u32_id by word; lia.
Qed.

Lemma scores_fold template vec (l : list Z) : forall acc, vec_ok 8 template -> vec_ok 8 vec -> Forall (fun k => 0 <= k) l ->
  0 <= acc -> acc + 2 * zlen l < 2 ^ 32 ->
  go_fold (scoreCreator template vec) acc l = Ret (acc + zsum (more_at template vec <$> l)).
Proof.
  induction l as [|k l IH]; intros acc Ht Hv Hl Ha Hb; [cbn; f_equal; lia|]. rewrite fmap_cons. cbn [go_fold zsum].
  apply Forall_cons in Hl as [Hk Hl]. unfold zlen in *. cbn [length] in Hb. pose proof (more_at_bound template vec k).
  rewrite scoreCreator_spec, go_bind_Ret, IH by (done || lia). f_equal. lia.
Qed.

Record strategy_ok (st : CasualityStrategy) : Prop := {
  cso_index : index_ok vv getEvent (cs_vecClock st) hs d f;
  cso_cache : c_ForklessCause (cs_vecClock st) = fc;
  cso_vv : Validators_Len (cs_validators st) = nv;
  cso_template b : cs_template st = Some b -> vec_ok 8 b
}.

Lemma GetHighestBeforeMerged_known (vi : Index T F) (h : hash) : index_ok vv getEvent vi hs d f -> h ∈ hs ->
  exists s vi', GetHighestBeforeMerged vi h = Ret (Some s, vi') /\ index_ok vv getEvent vi' hs d f /\
    c_ForklessCause vi' = c_ForklessCause vi /\ vec_ok 8 s /\ 8 * nv < 2 ^ 32 /\ exists c, merged_ok vv getEvent h s c.
Proof.
  intros Hix Hh. destruct (getHighestBeforeMerged_spec vv Hvv getEvent vi hs d f h Hix Hh) as (s & c & vi' & E & Hix' & Ec & Hm).
  exists s, vi'. unfold GetHighestBeforeMerged. rewrite E, go_bind_Ret. split_and!; [done|done|done|apply Hm| |by exists c].
  pose proof (mg_size _ _ _ _ _ Hm) as Hsz. destruct (decide (nv = 0)) as [->|]; [lia|].
  pose proof (zlen_nonneg (Validators_SortedIDs vv)).
  pose proof (vec_ok_offset 8 s (nv - 1) ltac:(lia) (mg_seq _ _ _ _ _ Hm)) as Hv.
  unfold HighestBeforeSeq_Size in *. lia.
Qed.

(** The scores of the options against the template of the strategy. *)
Definition template_of (st : CasualityStrategy) : bytes := default (NewHighestBeforeSeq nv) (cs_template st).
Definition score_ok (template : bytes) (id : hash) (s : eventScore) : Prop :=
  es_event s = id /\ exists vec c, es_vec s = Some vec /\ vec_ok 8 vec /\ merged_ok vv getEvent id vec c /\ es_score s = more template vec.

Lemma scoreOptions_spec st options : strategy_ok st -> (forall h, h ∈ options -> h ∈ hs) ->
  exists st' scores, go_fold scoreOption (st, []) options = Ret (st', scores) /\ strategy_ok st' /\
    Forall2 (score_ok (template_of st)) options scores.
Proof.
  intros Hst Hopt.
  destruct (go_fold_inv scoreOption (fun dn p => strategy_ok p.1 /\ template_of p.1 = template_of st /\
              Forall2 (score_ok (template_of st)) dn p.2) options (st, [])) as ([st' scores] & E & H1 & _ & H2).
  { split_and!; [done|done|constructor]. }
  2:{ by exists st', scores. }
  intros dn id rest [st1 scores] El ([H1 Hfc H2 H3] & Et & Hsc). cbn [fst snd] in *. unfold scoreOption.
  destruct (GetHighestBeforeMerged_known (cs_vecClock st1) id H1) as (s & vi' & -> & Hix & Ec & Hs & Hnv & c & Hm).
  { apply Hopt. rewrite El. set_solver. }
  rewrite go_bind_Ret, H2.
  pose proof (zlen_nonneg (Validators_SortedIDs vv)) as Hn0.
  set (template := match cs_template st1 with None => NewHighestBeforeSeq nv | Some b => b end).
  assert (template = template_of st) as Ett by (rewrite <-Et; unfold template, template_of; by destruct (cs_template st1)).
  assert (vec_ok 8 template) as Htv.
  { unfold template. destruct (cs_template st1) as [b|] eqn:Eb; [by apply H3|]. apply (vec_ok_new 8); lia. }
  change (default [] (Some s)) with s. rewrite (scores_fold template s (seqZ 0 nv) 0 Htv Hs).
  - rewrite go_bind_Ret. eexists. split; [done|]. cbn [fst snd]. split_and!.
    + split; [done|cbn [cs_vecClock]; congruence|done|]. by intros b [= <-].
    + exact Ett.
    + apply Forall2_app; [done|]. apply Forall2_cons_2; [|constructor]. split; [done|]. exists s, c.
      split_and!; [done|done|done|]. cbn [es_score]. rewrite <-Ett. unfold more. lia.
  - apply Forall_forall. intros k Hk%elem_of_seqZ. lia.
  - lia.
  - unfold zlen at 1. rewrite length_seqZ. lia.
Qed.

(** The strategy takes an option whose merged vector knows least more than the
    template: the list is sorted by ascending score and its head is taken. *)
Lemma casuality_Find_spec st options : strategy_ok st -> options <> [] -> (forall h, h ∈ options -> h ∈ hs) ->
  exists h vec st', casuality_Find st options = Ret (h, st') /\ h ∈ options /\ strategy_ok st' /\ cs_template st' = Some vec /\
    (exists c, merged_ok vv getEvent h vec c) /\
    forall h', h' ∈ options -> exists vec' c, merged_ok vv getEvent h' vec' c /\ more (template_of st) vec <= more (template_of st) vec'.
Proof.
  intros Hst Hne Hopt. destruct (scoreOptions_spec st options Hst Hopt) as (st1 & scores & E & [H1 Hfc H2 H3] & Hsc).
  unfold casuality_Find. rewrite E, go_bind_Ret. pose proof (Hperm scores) as Hp. pose proof (Hsorted scores) as Hs.
  destruct (sort_scores scores) as [|best rest].
  { apply Permutation_nil in Hp. subst scores. by apply Forall2_nil_inv_r in Hsc. }
  assert (best ∈ scores) as Hbest by (rewrite <-Hp; by left).
  destruct (list_elem_of_lookup_1 _ _ Hbest) as [i Hi]. destruct (Forall2_lookup_r _ _ _ _ _ Hsc Hi) as (h & Hh & Eh & vec & c & Ev & Hv & Hm & Es).
  exists (es_event best), vec. eexists. split; [done|]. rewrite Eh. split; [by eapply list_elem_of_lookup_2|].
  split; [|split; [done|split; [by exists c|]]].
  - split; [done|done|done|]. cbn [cs_template]. rewrite Ev. by intros b [= <-].
  - intros h' [j Hj]%list_elem_of_lookup_1. destruct (Forall2_lookup_l _ _ _ _ _ Hsc Hj) as (s' & Hs' & _ & vec' & c' & _ & _ & Hm' & Es').
    exists vec', c'. split; [done|]. rewrite <-Es, <-Es'. apply StronglySorted_inv in Hs as [_ Hs]. rewrite Forall_forall in Hs.
    assert (s' ∈ best :: rest) as [->|Hin]%elem_of_cons; [rewrite Hp; by eapply list_elem_of_lookup_2|lia|]. by apply Hs.
Qed.

#[export] Instance casuality_laws : SearchStrategyLaws CasualityStrategy (fun h => h ∈ hs) strategy_ok.
Proof.
  split.
  - intros st [p|] [H1 Hfc H2 H3] Hp; cbn [Init casuality_strategy casuality_Init]; [|by exists st].
    destruct (GetHighestBeforeMerged_known (cs_vecClock st) p H1 (Hp p eq_refl)) as (s & vi' & -> & Hix & Ec & Hs & _).
    rewrite go_bind_Ret. eexists. split; [done|]. split; [done|cbn [cs_vecClock]; congruence|done|]. by intros b [= <-].
  - intros st options Hst Hne Hopt. destruct (casuality_Find_spec st options Hst Hne Hopt) as (h & vec & st' & E & Hin & Hst' & _).
    by exists h, st'.
Qed.

End casuality.

(** ** An example: the third validator's next event *)

Definition score_le (a b : eventScore) : Prop := es_score a <= es_score b.
#[export] Instance score_le_dec a b : Decision (score_le a b).
Proof. unfold score_le. apply _. Defined.
#[export] Instance score_le_total : Total score_le.
Proof. intros a b. unfold score_le. lia. Qed.
#[export] Instance score_le_trans : Transitive score_le.
Proof. intros a b c. unfold score_le. lia. Qed.

Lemma parents_well_chosen_witness : exists (vi : Index ex_T ex_F) parents st',
  FindBestParents (H := casuality_strategy (merge_sort score_le)) elements 2 [ex_id 8; ex_id 9] (Some (ex_id 6))
    (NewCasualityStrategy vi (Validators_Copy ex_validators)) = Ret (Some (ex_id 6), parents, st') /\
  NoDup parents /\ parents !! O = Some (ex_id 6) /\ (forall h, h ∈ parents -> h ∈ [ex_id 8; ex_id 9] \/ Some (ex_id 6) = Some h) /\
  zlen parents = 2.
Proof.
  destruct ex_reached as (vi & saved & d & f & Hix & _).
  destruct (parents_well_chosen (H := casuality_strategy (merge_sort score_le)) elements ltac:(done) (fun h => h ∈ ex_connected)
              (strategy_ok (Validators_Copy ex_validators) ex_getEvent ex_connected d f (c_ForklessCause vi))
              (SearchStrategyLaws0 := casuality_laws (merge_sort score_le) (merge_sort_Permutation score_le)
                 (StronglySorted_merge_sort score_le) (Validators_Copy ex_validators) ex_validators_ok ex_getEvent ex_connected d f (c_ForklessCause vi))
              2 [ex_id 8; ex_id 9] (Some (ex_id 6)) (NewCasualityStrategy vi (Validators_Copy ex_validators)))
    as (parents & st' & E & _ & Hn & Hs & Hin & Hl).
  - lia.
  - split; [exact Hix|done|by vm_compute|done].
  - intros h Hh. apply (bool_decide_unpack _). revert h Hh. apply Forall_forall. repeat constructor; by vm_compute.
  - intros h [= <-]. apply (bool_decide_unpack _). by vm_compute.
  - exists vi, parents, st'. split_and!; [done|done|by apply Hs|done|]. rewrite Hl. by vm_compute.
Defined.
