(* ===== verification/Emitter.v ===== *)
(** * The emitter of events: gossip/emitter.go, gossip/piecefunc

    How a validator builds its next event: the parents, the fields that depend
    on them, the gas power, the transactions it originates, and the rules that
    say when it may emit.  The engine, the stores and the signer behind
    [EmitterWorld] are parameters; the vector index and the choice of parents
    are those of the development.  [time.Time] and [time.Duration] are
    nanoseconds; the two places where the code computes with floats (in which
    it needs no determinism) are parameters. *)

From S2P Require Import Prelude Bytes Pos Event Vector VecStore VecIndex Dag EventCheck EventBuffer Shuffle OccurredTxs Parents.

(** ** gossip/piecefunc/piecefunc.go *)

Definition PercentUnit : Z := 1000000.

Record Dot := mkDot { X : Z; Y : Z }.

Definition piece_Mul (a b : Z) : Z := u64 (a * b) / PercentUnit.
Definition piece_Div (a b : Z) : go Z :=
  if b =? 0 then Fault (PanicMsg "integer divide by zero") else Ret (u64 (a * PercentUnit) / b).

(** The first inner dot to the right of [x] ends the piece. *)
Fixpoint findPiece (pieces : list Dot) (i len x p0 : Z) : Z :=
  match pieces with
  | [] => p0
  | piece :: pieces =>
      if (1 <=? i) && (i <? len - 1) && (x <? X piece) then i - 1
      else findPiece pieces (i + 1) len x p0
  end.

Definition piece_Get (x : Z) (pieces : list Dot) : go Z :=
  let p0 := findPiece pieces 0 (zlen pieces) x (zlen pieces - 2) in
  let p1 := p0 + 1 in
  d0 ← slice_at pieces p0;
  d1 ← slice_at pieces p1;
  ratio ← piece_Div (u64 (x - X d0)) (u64 (X d1 - X d0));
  Ret (u64 (piece_Mul (Y d0) (u64 (PercentUnit - ratio)) + piece_Mul (Y d1) ratio)).

(** ** Configuration and state *)

Definition TxTurnPeriod : Z := 4 * second.
Definition TxTurnNonces : Z := 8.

Record EmitIntervals := mkEmitIntervals { ei_Min : Z; ei_Max : Z; ei_Confirming : Z; ei_SelfForkProtection : Z }.

Record EmitterConfig := mkEmitterConfig {
  VersionToPublish : bytes;
  ec_EmitIntervals : EmitIntervals;
  MaxTxsFromSender : Z;
  EpochTailLength : Z;
  ec_MaxParents : Z;
  SmoothTpsThreshold : Z;
  NoTxsThreshold : Z;
  EmergencyThreshold : Z
}.

Record selfForkProtection := mkSelfFork {
  connectedTime : Z;
  syncedTime : Z;
  prevLocalEmittedID : hash;
  prevExternalEmittedTime : Z;
  becameValidatorTime : Z
}.

(** [t.Sub(u)] saturates. *)
Definition Time_Sub (t u : Z) : Z := Z.max (- 2 ^ 63) (Z.min (2 ^ 63 - 1) (t - u)).

(** ** Fields of an event *)

Definition set_gas (e : EventHeaderData) (left : list Z) (used : Z) : EventHeaderData :=
  mkHeader (Version e) (Epoch e) (Seq e) (Frame e) (IsRoot e) (Creator e) (PrevEpochHash e) (Parents e)
    left used (Lamport e) (ClaimedTime e) (Event.MedianTime e) (TxHash e) (Extra e) (hash_cache e).
Definition set_Extra (e : EventHeaderData) (extra : bytes) : EventHeaderData :=
  mkHeader 0 (Epoch e) (Seq e) (Frame e) (IsRoot e) (Creator e) (PrevEpochHash e) (Parents e)
    (GasPowerLeft e) (GasPowerUsed e) (Lamport e) (ClaimedTime e) (Event.MedianTime e) (TxHash e) extra (hash_cache e).
Definition set_TxHash (e : EventHeaderData) (h : hash) : EventHeaderData :=
  mkHeader (Version e) (Epoch e) (Seq e) (Frame e) (IsRoot e) (Creator e) (PrevEpochHash e) (Parents e)
    (GasPowerLeft e) (GasPowerUsed e) (Lamport e) (ClaimedTime e) (Event.MedianTime e) h (Extra e) (hash_cache e).
(** [inter.NewEvent()] with the fields that depend on the parents. *)
Definition new_header (epoch seq creator lamport claimed : Z) (parents : list hash) : EventHeaderData :=
  mkHeader 0 epoch seq 0 false creator ZeroHash parents [0; 0] 0 lamport claimed 0 ZeroHash [] None.

Section emitter.

(** ** The turn of a transaction *)

Context {A : Type} `{Countable A} (addr_Bytes : A -> bytes).
Context {C L : Type} `{LruEvict hash A C} `{Lru hash Z L}.
Context (sha256 : bytes -> bytes) (hash_Of : list bytes -> bytes).
Context (tx_Hash : Transaction -> hash) (tx_Nonce : Transaction -> Z).

(** Whether the validator [me] includes the transaction now; the time at which
    it was first met is remembered. *)
Definition isMyTxTurn (txTime : L) (epoch : Z) (txHash : hash) (sender : A) (accountNonce now : Z)
    (validatorsArr validatorsArrStakes : list Z) (me : Z) : go (bool * L) :=
  let turnHash := hash_Of [addr_Bytes sender; bigendian_Int64ToBytes (accountNonce / TxTurnNonces); Epoch_Bytes epoch] in
  let '(t, txTime) := match lru_peek txTime txHash with
                      | Some t => (t, lru_touch txTime txHash)
                      | None => (now, lru_Add txTime txHash now)
                      end in
  if zlen validatorsArr =? 0 then Fault (PanicMsg "integer divide by zero")
  else
    let roundIndex := Z.rem (Z.quot (Time_Sub now t) TxTurnPeriod) (zlen validatorsArr) in
    turns ← WeightedPermutation sha256 (roundIndex + 1) validatorsArrStakes turnHash;
    i ← slice_at turns roundIndex;
    v ← slice_at validatorsArr i;
    Ret (v =? me, txTime).

(** ** The gas policy *)

Context (net : DagConfig) (config : EmitterConfig).
(** [uint64(passedTime * gasRate * MaxGasRateGrowthFactor)] *)
Context (rateGas : Z -> Z -> Z).

Definition isEpochTail (e : EventHeaderData) : bool := u32 (MaxEpochBlocks net - EpochTailLength config) <=? Frame e.

Definition maxGasPowerToUse (prevEmittedTime : Z) (e : EventHeaderData) : go Z :=
  if isEpochTail e then Ret 0
  else
    left ← GasPowerLeft_Min (GasPowerLeft e);
    if left <=? NoTxsThreshold config then Ret 0
    else if left <? u64 (NoTxsThreshold config + MaxGasPowerUsed) then Ret (u64 (left - NoTxsThreshold config))
    else if left <=? SmoothTpsThreshold config then
      let maxGasUsed := rateGas (ClaimedTime e) prevEmittedTime in
      Ret (if maxGasUsed >? MaxGasPowerUsed then MaxGasPowerUsed else maxGasUsed)
    else Ret MaxGasPowerUsed.

(** ** Adding transactions *)

Definition with_tx (e : FullEvent) (tx : Transaction) : FullEvent :=
  let h := ev_header e in
  EventCheck.mkEvent (set_gas h (GasPowerLeft_Sub (GasPowerLeft h) (tx_Gas tx)) (u64 (GasPowerUsed h + tx_Gas tx)))
    (ev_Sig e) (ev_Transactions e ++ [tx]).

(** The chain of transactions of one sender. *)
Fixpoint addSenderTxs (ring : buffer (A := A) (C := C)) (epoch now maxGasUsed : Z) (arr stakes : list Z) (sender : A)
    (txs : list Transaction) (e : FullEvent) (txTime : L) : go (FullEvent * L) :=
  match txs with
  | [] => Ret (e, txTime)
  | tx :: txs =>
      left ← GasPowerLeft_Min (GasPowerLeft (ev_header e));
      if (left <=? tx_Gas tx) || (maxGasUsed <=? u64 (GasPowerUsed (ev_header e) + tx_Gas tx)) then Ret (e, txTime)
      else if MayBeConflicted ring sender (tx_Hash tx) then Ret (e, txTime)
      else
        '(mine, txTime) ← isMyTxTurn txTime epoch (tx_Hash tx) sender (tx_Nonce tx) now arr stakes (Creator (ev_header e));
        if negb mine then Ret (e, txTime)
        else addSenderTxs ring epoch now maxGasUsed arr stakes sender txs (with_tx e tx) txTime
  end.

(** The pool is a map: its order is that of the list. *)
Definition addTxs (ring : buffer (A := A) (C := C)) (epoch now prevEmittedTime : Z) (validators : Validators)
    (e : FullEvent) (poolTxs : list (A * list Transaction)) (txTime : L) : go (FullEvent * L) :=
  match poolTxs with
  | [] => Ret (e, txTime)
  | _ =>
      maxGasUsed ← maxGasPowerToUse prevEmittedTime (ev_header e);
      let arr := Validators_SortedIDs validators in
      let stakes := Validators_Get validators <$> arr in
      go_fold (fun (st : FullEvent * L) (p : A * list Transaction) =>
        let '(e, txTime) := st in
        if MaxTxsFromSender config <? 0 then Fault IndexOutOfRange
        else addSenderTxs ring epoch now maxGasUsed arr stakes p.1 (take (Z.to_nat (MaxTxsFromSender config)) p.2) e txTime)
        (e, txTime) poolTxs
  end.

(** ** When to emit *)

(** [time.Duration(maxT - (maxT-minT)*factor)] *)
Context (adjustedInterval : Z -> Z -> Z -> Z -> Z).

Definition powerDecreasing (left : Z) (selfParent : option EventHeaderData) : go bool :=
  if left <=? EmergencyThreshold config then
    match selfParent with
    | None => Ret false
    | Some sp => l ← GasPowerLeft_Min (GasPowerLeft sp); Ret (left <? l)
    end
  else Ret false.

Definition isAllowedToEmit (intervals : EmitIntervals) (ring : buffer (A := A) (C := C)) (prevEmittedTime : Z)
    (e : FullEvent) (selfParent : option EventHeaderData) : go bool :=
  let h := ev_header e in
  let passedTime := Time_Sub (i64 (ClaimedTime h)) prevEmittedTime in
  left ← GasPowerLeft_Min (GasPowerLeft h);
  if (left <=? NoTxsThreshold config) &&
     (passedTime <? adjustedInterval (ei_Min intervals) (ei_Max intervals) left (NoTxsThreshold config)) then Ret false
  else
    emergency ← powerDecreasing left selfParent;
    if (emergency : bool) then Ret false
    else if (passedTime <? ei_Max intervals) && (Len ring =? 0) && (zlen (ev_Transactions e) =? 0) && negb (isEpochTail h)
    then Ret false
    else if (passedTime <? ei_Confirming intervals) && negb (Len ring =? 0) && (zlen (ev_Transactions e) =? 0)
    then Ret false
    else Ret true.

(** The protection against a second instance of the validator; [None] is
    synced, otherwise the reason and the time to wait. *)
Inductive not_synced := NoConnections | Synchronizing | NotDownloaded | JustJoined | WaitingAdditional | RecentlyConnected.

Definition isSynced (intervals : EmitIntervals) (peersNum : Z) (world_IsSynced : bool) (status : selfForkProtection) (now : Z)
    : option (not_synced * Z) :=
  let p := ei_SelfForkProtection intervals in
  if p =? 0 then None
  else if peersNum =? 0 then Some (NoConnections, 0)
  else if negb world_IsSynced then Some (Synchronizing, 0)
  else if Time_Sub now (prevExternalEmittedTime status) <? p then Some (NotDownloaded, i64 (p - Time_Sub now (prevExternalEmittedTime status)))
  else if Time_Sub now (becameValidatorTime status) <? p then Some (JustJoined, i64 (p - Time_Sub now (becameValidatorTime status)))
  else if Time_Sub now (syncedTime status) <? p then Some (WaitingAdditional, i64 (p - Time_Sub now (syncedTime status)))
  else if Time_Sub now (connectedTime status) <? p then Some (RecentlyConnected, i64 (p - Time_Sub now (connectedTime status)))
  else None.

(** ** Building an event *)

(** gossip/service.go: [AddVersion]. *)
Definition AddVersion (e : EventHeaderData) : EventHeaderData :=
  let version := [118; 45] ++ VersionToPublish config in
  if (Seq e <=? 1) && (0 <? zlen (VersionToPublish config)) && (zlen version <=? MaxExtraData) then set_Extra e version
  else set_Extra e (Extra e).

Context {T F R : Type} `{VecStore T} `{Lru (hash * hash) bool F}.
Context (getEvent : hash -> option EventHeaderData) (event_Hash : EventHeaderData -> hash).
(** The order of Go maps, [sort.Slice] and math/rand. *)
Context (Slice : gset hash -> list hash) (sort_scores : list eventScore -> list eventScore) (Intn : R -> Z -> Z * R).
Abbreviation Index := (Index T F).

Definition findBestParents (vi : Index) (validators : Validators) (selfParent : option hash) (heads : list hash)
    (rand : bool) (r : R) : go (option (list hash) * Index) :=
  '(heads, vi) ← NoCheaters getEvent vi selfParent heads;
  '(forked, vi) ← match selfParent with
                  | None => Ret (false, vi)
                  | Some p => '(l, vi) ← NoCheaters getEvent vi selfParent [p]; Ret (zlen l =? 0, vi)
                  end;
  if (forked : bool) then Ret (None, vi)
  else
    let maxParents := ec_MaxParents config in
    let maxParents := if maxParents <? MaxFreeParents net then MaxFreeParents net else maxParents in
    let maxParents := if maxParents >? MaxParents net then MaxParents net else maxParents in
    if rand then
      '(_, parents, _) ← FindBestParents (H := random_strategy Intn) Slice maxParents heads selfParent (mkRandomStrategy r);
      Ret (Some parents, vi)
    else
      '(_, parents, st) ← FindBestParents (H := casuality_strategy sort_scores) Slice maxParents heads selfParent
                            (NewCasualityStrategy vi validators);
      Ret (Some parents, cs_vecClock st).

(** The headers of the parents and their highest Lamport time; [None] when a
    parent other than the first is an own event. *)
Fixpoint parentHeaders (me i maxLamport : Z) (parents : list hash) : go (option (list EventHeaderData * Z)) :=
  match parents with
  | [] => Ret (Some ([], maxLamport))
  | p :: parents =>
      match getEvent p with
      | None => Fault (Crit "Emitter: head not found")
      | Some parent =>
          if (Creator parent =? me) && negb (i =? 0) then Ret None
          else
            rest ← parentHeaders me (i + 1) (MaxLamport maxLamport (Lamport parent)) parents;
            Ret (match rest with None => None | Some (l, m) => Some (parent :: l, m) end)
      end
  end.

Definition draftEvent (epoch me now : Z) (parents : list hash) (selfParentHeader : option EventHeaderData) (maxLamport : Z)
    : EventHeaderData :=
  let '(selfParentSeq, selfParentTime) := match selfParentHeader with Some sp => (Seq sp, ClaimedTime sp) | None => (0, 0) end in
  AddVersion (new_header epoch (u32 (selfParentSeq + 1)) me (u32 (maxLamport + 1))
                (MaxTimestamp (u64 now) (u64 (selfParentTime + 1))) parents).

(** The initial gas power; [None] when it does not suffice. *)
Definition initialGas (h : EventHeaderData) (selfParentHeader : option EventHeaderData) (ctx : ValidationContext)
    : go (option EventHeaderData) :=
  let used := CalcGasPowerUsed (EventCheck.mkEvent h [] []) net in
  r ← CalcGasPower h selfParentHeader ctx;
  match r with
  | inl _ => Ret None
  | inr available =>
      m ← GasPowerLeft_Min available;
      if used >? m then Ret None else Ret (Some (set_gas h (GasPowerLeft_Sub available used) used))
  end.

Context (Prepare : Index -> EventHeaderData -> go (option EventHeaderData * Index)).
Context (DeriveSha : list Transaction -> hash) (Sign : EventHeaderData -> option bytes).
Context (Validate : FullEvent -> list EventHeaderData -> go (option check_error)).

Record EmitterWorld := mkEmitterWorld {
  ew_myStakerID : Z;
  ew_intervals : EmitIntervals;
  ew_prevEmittedTime : Z;
  ew_epoch : Z;
  ew_validators : Validators;
  ew_synced : bool;
  ew_LastEvent : option hash;
  ew_Heads : list hash;
  ew_ring : buffer (A := A) (C := C);
  ew_gas : ValidationContext;
  ew_pool : list (A * list Transaction)
}.

(** The event before it is signed, with the headers of its parents. *)
Definition unsignedEvent (w : EmitterWorld) (vi : Index) (txTime : L) (now1 now2 : Z) (rand : bool) (r : R)
    : go (option (FullEvent * list EventHeaderData) * Index * L) :=
  '(found, vi) ← findBestParents vi (ew_validators w) (ew_LastEvent w) (ew_Heads w) rand r;
  match found with
  | None => Ret (None, vi, txTime)
  | Some parents =>
      loaded ← parentHeaders (ew_myStakerID w) 0 0 parents;
      match loaded with
      | None => Ret (None, vi, txTime)
      | Some (headers, maxLamport) =>
          selfParentHeader ← match ew_LastEvent w with
                             | Some _ => sp ← slice_at headers 0; Ret (Some sp)
                             | None => Ret None
                             end;
          '(prepared, vi) ← Prepare vi (draftEvent (ew_epoch w) (ew_myStakerID w) now1 parents selfParentHeader maxLamport);
          match prepared with
          | None => Ret (None, vi, txTime)
          | Some h =>
              withGas ← initialGas h selfParentHeader (ew_gas w);
              match withGas with
              | None => Ret (None, vi, txTime)
              | Some h =>
                  '(e, txTime) ← addTxs (ew_ring w) (ew_epoch w) now2 (ew_prevEmittedTime w) (ew_validators w)
                                   (EventCheck.mkEvent h [] []) (ew_pool w) txTime;
                  allowed ← isAllowedToEmit (ew_intervals w) (ew_ring w) (ew_prevEmittedTime w) e selfParentHeader;
                  if negb allowed then Ret (None, vi, txTime)
                  else
                    Ret (Some (EventCheck.mkEvent (set_TxHash (ev_header e) (DeriveSha (ev_Transactions e))) (ev_Sig e) (ev_Transactions e),
                               headers), vi, txTime)
              end
          end
      end
  end.

Definition createEvent (w : EmitterWorld) (vi : Index) (txTime : L) (now1 now2 : Z) (rand : bool) (r : R)
    : go (option FullEvent * Index * L) :=
  if ew_myStakerID w =? 0 then Ret (None, vi, txTime)
  else if negb (ew_synced w) then Ret (None, vi, txTime)
  else
    '(u, vi, txTime) ← unsignedEvent w vi txTime now1 now2 rand r;
    match u with
    | None => Ret (None, vi, txTime)
    | Some (e, headers) =>
        match Sign (ev_header e) with
        | None => Ret (None, vi, txTime)
        | Some sig =>
            let e := EventCheck.mkEvent (set_cache (ev_header e) (Some (event_Hash (ev_header e)))) sig (ev_Transactions e) in
            err ← Validate e headers;
            Ret (match err with Some _ => None | None => Some e end, vi, txTime)
        end
    end.

(** ** A new epoch *)

Definition confirmingEmitIntervalPieces : list Dot :=
  [mkDot 0 1000000; mkDot 330000 1050000; mkDot 660000 1200000; mkDot 800000 1500000; mkDot 900000 3000000; mkDot 1000000 3900000].
Definition maxEmitIntervalPieces : list Dot := [mkDot 0 1000000; mkDot 1000000 890000].

(** The emit intervals of a validator, by the stake of those before it. *)
Definition epochIntervals (newValidators : Validators) (me : Z) (intervals : EmitIntervals) : go EmitIntervals :=
  let myIdx := Validators_GetIdx newValidators me in
  let '(totalStake, totalStakeBeforeMe) :=
    foldl (fun (acc : Z * Z) (x : Z * Z) => (u64 (acc.1 + x.2), if x.1 <? myIdx then u64 (acc.2 + x.2) else acc.2))
      (0, 0) (enumerate (Validators_SortedStakes newValidators)) in
  if totalStake =? 0 then Fault (PanicMsg "integer divide by zero")
  else
    let stakeRatio := u64 (totalStakeBeforeMe * PercentUnit) / totalStake in
    confirmingRatio ← piece_Get stakeRatio confirmingEmitIntervalPieces;
    maxRatio ← piece_Get stakeRatio maxEmitIntervalPieces;
    Ret (mkEmitIntervals (ei_Min intervals)
           (i64 (piece_Mul (u64 (ei_Max (ec_EmitIntervals config))) maxRatio))
           (i64 (piece_Mul (u64 (ei_Confirming (ec_EmitIntervals config))) confirmingRatio))
           (ei_SelfForkProtection intervals)).

(** The first of the validators of the epoch with the address. *)
Definition findMyStakerID (myAddress zeroAddress : A) (validators : list (Z * A)) : option Z :=
  if bool_decide (myAddress = zeroAddress) then None
  else fst <$> find (fun it => bool_decide (it.2 = myAddress)) validators.

(** The time of the last own event of the epoch. *)
Definition loadPrevEmitTime (me prevEmittedTime : Z) (lastEvent : option hash) : Z :=
  if me =? 0 then prevEmittedTime
  else match lastEvent with
       | None => prevEmittedTime
       | Some id => match getEvent id with None => prevEmittedTime | Some e => i64 (ClaimedTime e) end
       end.

(** New transactions of the pool get the time at which they are first met. *)
Definition memorizeTxTimes (txTime : L) (me now : Z) (txs : list Transaction) : L :=
  if me =? 0 then txTime
  else foldl (fun (c : L) tx => match lru_peek c (tx_Hash tx) with
                                | Some _ => lru_touch c (tx_Hash tx)
                                | None => lru_Add c (tx_Hash tx) now
                                end) txTime txs.

(** Whether an own event arrived that this node did not emit; the second
    component tells that the process is locked for a doublesign. *)
Definition OnNewEvent (intervals : EmitIntervals) (status : selfForkProtection) (me now : Z) (id : hash) (e : EventHeaderData)
    : selfForkProtection * bool :=
  if negb (me =? 0) && negb (bool_decide (prevLocalEmittedID status = id)) && (Creator e =? me) then
    let passed := Time_Sub now (i64 (MaxTimestamp (ClaimedTime e) (Event.MedianTime e))) in
    let threshold := if ei_SelfForkProtection intervals >? minute then minute else ei_SelfForkProtection intervals in
    (mkSelfFork (connectedTime status) (syncedTime status) (prevLocalEmittedID status) now (becameValidatorTime status),
     passed <=? threshold)
  else (status, false).
End emitter.
