(* ===== verification/EmitterSpec.v ===== *)
(** * What the emitter promises

    Transactions rotate fairly among the validators; adding transactions keeps
    the gas account of the event exact; the event that is built passes the
    checks that every other node applies; the emit intervals stay in their
    bounds. *)

From S2P Require Import Prelude Bytes Pos Event Vector VecStore VecIndex Dag VecInv VecAdd VecSpec EventCheck EventBuffer Shuffle OccurredTxs Parents Emitter.

(** ** Turns *)

Lemma rounds_range (now t n : Z) : 0 <= now - t < 2 ^ 63 -> 0 < n ->
  Z.rem (Z.quot (Time_Sub now t) TxTurnPeriod) n = ((now - t) / TxTurnPeriod) mod n.
Proof.
  intros Hd Hn. unfold Time_Sub. rewrite Z.min_r, Z.max_r by lia.
  assert (0 < TxTurnPeriod) by done. rewrite Z.quot_div_nonneg by lia. apply Z.rem_mod_nonneg; [|lia]. apply Z.div_pos; lia.
Qed.

Lemma slice_get_take {B} (l : list B) i n : 0 <= i < n -> slice_get (take (Z.to_nat n) l) i = slice_get l i.
Proof. intros Hi. unfold slice_get. rewrite !decide_True by lia. apply lookup_take_lt. lia. Qed.

Section turns.
Context {A : Type} `{Countable A} (addr_Bytes : A -> bytes) {L : Type} `{Lru hash Z L}.
Context (sha256 : bytes -> bytes) (hash_Of : list bytes -> bytes).

(** When the transaction was first met. *)
Definition met (txTime : L) (txHash : hash) (now : Z) : Z := default now (lru_peek txTime txHash).

(** Transactions rotate.  For one sender and one block of eight nonces
    the validators have an order of turns, a permutation of all of them, and
    in each period of four seconds since the transaction was first met exactly
    the next validator of that order has the turn: no two validators include
    it in the same period, and each gets its chance once a round. *)
Lemma turn_order (arr stakes : list Z) (sender : A) (epoch block : Z) :
  (forall b, length (sha256 b) = 32%nat) -> (forall l, length (hash_Of l) = 32%nat) ->
  arr <> [] -> length stakes = length arr -> Forall (fun w => 0 < w) stakes -> zsum stakes < 2 ^ 64 ->
  exists order, order ≡ₚ arr /\
    forall txTime txHash nonce now me, nonce / TxTurnNonces = block -> 0 <= now - met txTime txHash now < 2 ^ 63 ->
      exists txTime',
        isMyTxTurn addr_Bytes sha256 hash_Of txTime epoch txHash sender nonce now arr stakes me =
          Ret (bool_decide (slice_get order (((now - met txTime txHash now) / TxTurnPeriod) mod zlen arr) = Some me), txTime').
Proof.
  intros Hsha Hh Hne Hl Hpos Hfit. assert (0 < zlen arr) as Hn by (destruct arr; [done|unfold zlen; simpl; lia]).
  assert (zlen stakes = zlen arr) as Hz by (unfold zlen; lia).
  set (sd := hash_Of [addr_Bytes sender; bigendian_Int64ToBytes block; Epoch_Bytes epoch]).
  destruct (weighted_permutation_exists sha256 stakes sd Hsha Hpos Hfit (Hh _)) as (l & Hp & Hpre).
  exists (weight_at arr <$> l). split.
  { by rewrite Hp, Hz, weights_seqZ. }
  intros txTime txHash nonce now me <- Hd. unfold isMyTxTurn. fold sd. rewrite (proj2 (Z.eqb_neq (zlen arr) 0)) by lia.
  set (r := ((now - met txTime txHash now) / TxTurnPeriod) mod zlen arr).
  assert (0 <= r < zlen arr) as Hr by (apply Z.mod_pos_bound; lia).
  assert (exists txTime', (match lru_peek txTime txHash with
           | Some t => (t, lru_touch txTime txHash) | None => (now, lru_Add txTime txHash now) end) = (met txTime txHash now, txTime'))
    as (tt & ->) by (unfold met; destruct (lru_peek txTime txHash); eexists; done).
  rewrite rounds_range by lia. fold r. rewrite (Hpre (r + 1)) by lia. rewrite go_bind_Ret. exists tt.
  assert (zlen l = zlen arr) as Hll by (unfold zlen; rewrite Hp, length_seqZ; unfold zlen in *; lia).
  destruct (slice_get_is_Some l r) as [i Hi]; [lia|].
  assert (slice_get (take (Z.to_nat (r + 1)) l) r = Some i) as Hi'.
  { rewrite slice_get_take by lia. done. }
  rewrite (proj2 (slice_at_Ret _ _ _) Hi'), go_bind_Ret.
  assert (0 <= i < zlen arr) as Hia.
  { assert (i ∈ l) as Hin by (unfold slice_get in Hi; rewrite decide_True in Hi by lia; by eapply list_elem_of_lookup_2).
    rewrite Hp, Hz in Hin. apply elem_of_seqZ in Hin. lia. }
  destruct (slice_get_is_Some arr i Hia) as [v Hv]. rewrite (proj2 (slice_at_Ret _ _ _) Hv), go_bind_Ret.
  do 2 f_equal. rewrite slice_get_fmap, Hi. cbn. unfold weight_at. rewrite Hv. cbn.
  apply eq_true_iff_eq. rewrite Z.eqb_eq, bool_decide_eq_true. split; [by intros ->|by intros [= ->]].
Qed.

(** The period a validator sees the transaction in. *)
Definition turn_round (txTime : L) (txHash : hash) (now : Z) : Z := (now - met txTime txHash now) / TxTurnPeriod.

(** Turns exclude each other and come round.  For the transactions of one
    sender and one block of eight nonces, in every period (of four seconds,
    since the node met the transaction) one validator has the turn: two nodes
    that are in the same period never both include it; and each validator has
    the turn in exactly one of any [n] successive periods, [n] the number of
    validators. *)
Theorem tx_turns_rotate (arr stakes : list Z) (sender : A) (epoch block : Z) :
  (forall b, length (sha256 b) = 32%nat) -> (forall l, length (hash_Of l) = 32%nat) ->
  NoDup arr -> arr <> [] -> length stakes = length arr -> Forall (fun w => 0 < w) stakes -> zsum stakes < 2 ^ 64 ->
  exists has_turn : Z -> Z -> bool,
    (forall txTime txHash nonce now me, nonce / TxTurnNonces = block -> 0 <= now - met txTime txHash now < 2 ^ 63 ->
      exists txTime', isMyTxTurn addr_Bytes sha256 hash_Of txTime epoch txHash sender nonce now arr stakes me =
        Ret (has_turn (turn_round txTime txHash now) me, txTime')) /\
    (forall round me1 me2, has_turn round me1 = true -> has_turn round me2 = true -> me1 = me2) /\
    (forall start me, 0 <= start -> me ∈ arr ->
      exists round, start <= round < start + zlen arr /\
        forall r, start <= r < start + zlen arr -> (has_turn r me = true <-> r = round)).
Proof.
  intros Hsha Hh Hnd Hne Hl Hpos Hfit. assert (0 < zlen arr) as Hn by (destruct arr; [done|unfold zlen; simpl; lia]).
  destruct (turn_order arr stakes sender epoch block Hsha Hh Hne Hl Hpos Hfit) as (order & Hp & Hturn).
  exists (fun round me => bool_decide (slice_get order (round mod zlen arr) = Some me)). split_and!; [exact Hturn| |].
  { intros round me1 me2 E1%bool_decide_eq_true E2%bool_decide_eq_true. congruence. }
  intros start me Hs Hme. rewrite <-Hp in Hme. apply list_elem_of_lookup_1 in Hme as [i Hi].
  assert (Z.of_nat i < zlen arr) as Hin by (apply lookup_lt_Some in Hi; unfold zlen; rewrite <-Hp; lia).
  exists (start + (Z.of_nat i - start) mod zlen arr).
  pose proof (Z.mod_pos_bound (Z.of_nat i - start) (zlen arr) Hn) as Hb. split; [lia|]. intros r Hr.
  rewrite bool_decide_eq_true. assert (slice_get order (r mod zlen arr) = Some me <-> r mod zlen arr = Z.of_nat i) as ->.
  { pose proof (Z.mod_pos_bound r (zlen arr) Hn). rewrite <-(Z2Nat.id (r mod zlen arr)) by lia. rewrite slice_get_nat. split; [|intros E].
    - intros Hr'. f_equal. apply (NoDup_lookup order _ _ me); [|done|done]. by rewrite Hp.
    - by replace (Z.to_nat (r mod zlen arr)) with i by lia. }
  split; intros E.
  - rewrite <-E, Zminus_mod_idemp_l. rewrite Z.mod_small; lia.
  - subst r. rewrite Zplus_mod_idemp_r. replace (start + (Z.of_nat i - start)) with (Z.of_nat i) by lia. apply Z.mod_small. lia.
Qed.
End turns.

Definition toy_sum (b : bytes) : bytes := replicate 32 (zsum b mod 251).

Lemma tx_turns_rotate_witness :
  exists has_turn : Z -> Z -> bool,
    (forall txTime txHash nonce now me, nonce / TxTurnNonces = 3 -> 0 <= now - met txTime txHash now < 2 ^ 63 ->
      exists txTime', isMyTxTurn (L := lrulist hash Z) (fun a : Z => [a]) toy_sum (fun l => toy_sum (mjoin l)) txTime 1 txHash 7 nonce now [4; 9; 2] [10; 1; 3] me =
        Ret (has_turn (turn_round txTime txHash now) me, txTime')) /\
    (forall round me1 me2, has_turn round me1 = true -> has_turn round me2 = true -> me1 = me2) /\
    (forall start me, 0 <= start -> me ∈ [4; 9; 2] ->
      exists round, start <= round < start + zlen [4; 9; 2] /\
        forall r, start <= r < start + zlen [4; 9; 2] -> (has_turn r me = true <-> r = round)).
Proof.
  apply (tx_turns_rotate (L := lrulist hash Z) (fun a : Z => [a]) toy_sum (fun l => toy_sum (mjoin l)) [4; 9; 2] [10; 1; 3] 7 1 3).
  - intros b. apply length_replicate.
  - intros l. apply length_replicate.
  - apply (bool_decide_unpack _). by vm_compute.
  - done.
  - done.
  - repeat constructor; lia.
  - cbn. lia.
Defined.

(** ** Adding transactions *)

Lemma GasPowerLeft_Min_spec g : g <> [] -> exists m, GasPowerLeft_Min g = Ret m /\ m ∈ g /\ forall x, x ∈ g -> m <= x.
Proof.
  intros Hne. destruct g as [|g0 g]; [done|]. unfold GasPowerLeft_Min. change (slice_at (g0 :: g) 0) with (Ret g0). rewrite go_bind_Ret.
  eexists. split; [done|].
  pose proof (foldl_inv (fun m x => if m >? x then x else m)
    (fun dn m => (m = g0 \/ m ∈ dn) /\ m <= g0 /\ forall x, x ∈ dn -> m <= x) (g0 :: g) g0) as Hinv.
  destruct Hinv as (Hin & _ & Hle).
  - split_and!; [by left|lia|by intros x ?%elem_of_nil].
  - intros dn x rest m _ (Hin & H0 & Hle). rewrite Z.gtb_ltb. destruct (Z.ltb_spec x m).
    + split_and!; [right; set_solver|lia|]. intros y [Hy| ->%list_elem_of_singleton]%elem_of_app; [|lia]. specialize (Hle y Hy). lia.
    + split_and!; [destruct Hin; [by left|right; set_solver]|lia|].
      intros y [Hy| ->%list_elem_of_singleton]%elem_of_app; [by apply Hle|lia].
  - split; [|done]. destruct Hin as [->|]; [by left|done].
Qed.

(** The gas account of an event can be kept in 64 bits. *)
Record gas_ok (h : EventHeaderData) : Prop := {
  go_some : GasPowerLeft h <> [];
  go_used : 0 <= GasPowerUsed h;
  go_left x : x ∈ GasPowerLeft h -> 0 <= x /\ x + GasPowerUsed h < 2 ^ 64
}.

(** [h] after [d] gas was spent. *)
Definition spend (h : EventHeaderData) (d : Z) : EventHeaderData :=
  set_gas h ((fun x => x - d) <$> GasPowerLeft h) (GasPowerUsed h + d).
Definition gas_of (txs : list Transaction) : Z := zsum (tx_Gas <$> txs).

Lemma spend_0 h : spend h 0 = h.
Proof.
  unfold spend, set_gas. rewrite Z.add_0_r. replace ((fun x => x - 0) <$> GasPowerLeft h) with (GasPowerLeft h); [by destruct h|].
  symmetry. rewrite <-(list_fmap_id (GasPowerLeft h)) at 2. apply list_fmap_ext. intros. simpl. lia.
Qed.

Lemma spend_spend h a b : spend (spend h a) b = spend h (a + b).
Proof.
  unfold spend, set_gas. cbn. rewrite <-list_fmap_compose. f_equal; [|lia]. apply list_fmap_ext. intros. simpl. lia.
Qed.

Lemma with_tx_spend e tx m : gas_ok (ev_header e) -> GasPowerLeft_Min (GasPowerLeft (ev_header e)) = Ret m ->
  0 <= tx_Gas tx < m ->
  with_tx e tx = EventCheck.mkEvent (spend (ev_header e) (tx_Gas tx)) (ev_Sig e) (ev_Transactions e ++ [tx]) /\
  gas_ok (spend (ev_header e) (tx_Gas tx)) /\ u64 (GasPowerUsed (ev_header e) + tx_Gas tx) = GasPowerUsed (ev_header e) + tx_Gas tx.
Proof.
  intros [G1 G2 G3] Hm Ht. destruct (GasPowerLeft_Min_spec _ G1) as (m' & Em & Hin & Hle). rewrite Hm in Em. injection Em as <-.
  pose proof (G3 m Hin). rewrite u64_id by word. split_and!; [| |done].
  - unfold with_tx, spend, GasPowerLeft_Sub. rewrite (u64_id (_ + _)) by word. do 2 f_equal. apply list_fmap_ext.
    intros i x Hx%list_elem_of_lookup_2. specialize (G3 x Hx). specialize (Hle x Hx). apply u64_id. word.
  - split; cbn.
    + by destruct (GasPowerLeft (ev_header e)).
    + lia.
    + intros y (x & -> & Hx)%list_elem_of_fmap. specialize (G3 x Hx). specialize (Hle x Hx). lia.
Qed.

(** The stakes of the sorted validators, read one by one. *)
Lemma stakes_of_ids validators : validators_ok validators ->
  Validators_Get validators <$> Validators_SortedIDs validators = Validators_SortedStakes validators.
Proof.
  intros Hvv. apply list_eq. intros i. rewrite list_lookup_fmap.
  destruct (Validators_SortedIDs validators !! i) as [id|] eqn:Ei.
  - cbn. unfold Validators_Get. rewrite <-slice_get_nat in Ei. rewrite <-slice_get_nat. pose proof (vo_stake _ Hvv id _ Ei) as Hs.
    assert (is_Some (values validators !! id)) as [x Hx].
    { apply (vo_exists _ Hvv). rewrite slice_get_nat in Ei. by eapply list_elem_of_lookup_2. }
    by rewrite Hs, Hx.
  - cbn. symmetry. apply lookup_ge_None. rewrite (vo_len _ Hvv). by apply lookup_ge_None in Ei.
Qed.

Lemma list_choose {B} (l : list B) : l <> [] -> exists x, x ∈ l.
Proof. destruct l as [|x l]; [done|]. intros _. exists x. by left. Qed.

Section add_txs.
Context {A : Type} `{Countable A} (addr_Bytes : A -> bytes).
Context {C L : Type} `{LruEvict hash A C} `{HL : LruLaws hash Z L}.
Context (sha256 : bytes -> bytes) (hash_Of : list bytes -> bytes) (tx_Hash : Transaction -> hash) (tx_Nonce : Transaction -> Z).
Context (Hsha : forall b, length (sha256 b) = 32%nat) (Hhash : forall l, length (hash_Of l) = 32%nat).
Context (net : DagConfig) (config : EmitterConfig) (rateGas : Z -> Z -> Z).

(** The recorded times are not in the future. *)
Definition past (txTime : L) (now : Z) : Prop := forall h t, lru_peek txTime h = Some t -> 0 <= now - t < 2 ^ 63.

Lemma met_past txTime now h : past txTime now -> 0 <= now - met txTime h now < 2 ^ 63.
Proof. intros Hp. unfold met. destruct (lru_peek txTime h) eqn:E; cbn; [by apply (Hp h)|lia]. Qed.

Lemma isMyTxTurn_past txTime epoch txHash sender nonce now arr stakes me b txTime' :
  past txTime now -> isMyTxTurn addr_Bytes sha256 hash_Of txTime epoch txHash sender nonce now arr stakes me = Ret (b, txTime') ->
  past txTime' now.
Proof.
  intros Hp. unfold isMyTxTurn.
  set (p := match lru_peek txTime txHash with
            | Some t => (t, lru_touch txTime txHash) | None => (now, lru_Add txTime txHash now) end).
  assert (past p.2 now) as Hp2.
  { unfold p. destruct (lru_peek txTime txHash) eqn:E; cbn [snd]; intros h t Ht.
    - rewrite law_touch in Ht. by apply (Hp h).
    - destruct (decide (txHash = h)) as [->|Hne]; [apply law_add_same in Ht as ->; lia|].
      apply law_add_other in Ht; [by apply (Hp h)|done]. }
  destruct p as [t tt]. cbn [snd] in Hp2. case_match; [done|].
  intros (turns & _ & (i & _ & (v & _ & [= _ <-])%go_bind_inv)%go_bind_inv)%go_bind_inv. done.
Qed.

Section sender.
Context (ring : buffer (A := A) (C := C)) (epoch now maxGasUsed : Z) (arr stakes : list Z) (me : Z).
Context (Harr : arr <> []) (Hl : length stakes = length arr) (Hpos : Forall (fun w => 0 < w) stakes) (Hfit : zsum stakes < 2 ^ 64).
Abbreviation turn := (isMyTxTurn addr_Bytes sha256 hash_Of).

(** Why a transaction may be included. *)
Definition may_add (sender : A) (tx : Transaction) : Prop :=
  MayBeConflicted ring sender (tx_Hash tx) = false /\
  exists txTime txTime', past txTime now /\ turn txTime epoch (tx_Hash tx) sender (tx_Nonce tx) now arr stakes me = Ret (true, txTime').

Lemma addSenderTxs_spec sender txs : forall e txTime,
  gas_ok (ev_header e) -> past txTime now -> Creator (ev_header e) = me -> Forall (fun tx => 0 <= tx_Gas tx) txs ->
  exists added txTime',
    addSenderTxs addr_Bytes sha256 hash_Of tx_Hash tx_Nonce ring epoch now maxGasUsed arr stakes sender txs e txTime =
      Ret (EventCheck.mkEvent (spend (ev_header e) (gas_of added)) (ev_Sig e) (ev_Transactions e ++ added), txTime') /\
    past txTime' now /\ gas_ok (spend (ev_header e) (gas_of added)) /\
    added `prefix_of` txs /\ Forall (may_add sender) added /\
    (added = [] \/ GasPowerUsed (ev_header e) + gas_of added < maxGasUsed).
Proof.
  induction txs as [|tx txs IH]; intros e txTime Hg Hp Hc Hpool; cbn [addSenderTxs].
  all: assert (exists added txTime', Ret (e, txTime) =
      Ret (EventCheck.mkEvent (spend (ev_header e) (gas_of added)) (ev_Sig e) (ev_Transactions e ++ added), txTime') /\
      past txTime' now /\ gas_ok (spend (ev_header e) (gas_of added)) /\ added = []) as (a0 & tt0 & E0 & P0 & G0 & ->)
    by (exists [], txTime; unfold gas_of; simpl; rewrite spend_0, app_nil_r; by destruct e).
  { exists [], tt0. split_and!; [done..|apply prefix_nil|constructor|by left]. }
  assert (exists added txTime', Ret (e, txTime) =
      Ret (EventCheck.mkEvent (spend (ev_header e) (gas_of added)) (ev_Sig e) (ev_Transactions e ++ added), txTime') /\
      past txTime' now /\ gas_ok (spend (ev_header e) (gas_of added)) /\ added `prefix_of` tx :: txs /\ Forall (may_add sender) added /\
      (added = [] \/ GasPowerUsed (ev_header e) + gas_of added < maxGasUsed)) as Hstop
    by (exists [], tt0; split_and!; [done..|apply prefix_nil|constructor|by left]).
  apply Forall_cons in Hpool as [Ht Hpool]. destruct (GasPowerLeft_Min_spec _ (go_some _ Hg)) as (m & Em & _). rewrite Em, go_bind_Ret.
  destruct ((m <=? tx_Gas tx) || _) eqn:Eg; [done|]. apply orb_false_iff in Eg as [E1 E2]. apply Z.leb_gt in E1, E2.
  destruct (MayBeConflicted ring sender (tx_Hash tx)) eqn:Ec; [done|].
  destruct (turn_order addr_Bytes sha256 hash_Of arr stakes sender epoch (tx_Nonce tx / TxTurnNonces) Hsha Hhash Harr Hl Hpos Hfit)
    as (order & _ & Hturn).
  destruct (Hturn txTime (tx_Hash tx) (tx_Nonce tx) now me eq_refl (met_past _ _ _ Hp)) as (tt1 & Et).
  pose proof (isMyTxTurn_past _ _ _ _ _ _ _ _ _ _ _ Hp Et) as P1.
  rewrite Hc, Et, go_bind_Ret. case_bool_decide as Hmine; cbn [negb].
  2:{ exists [], tt1. unfold gas_of; simpl. rewrite spend_0, app_nil_r.
      split_and!; [by destruct e|done|done|apply prefix_nil|constructor|by left]. }
  destruct (with_tx_spend e tx m Hg Em ltac:(lia)) as (-> & Hg1 & Eu). rewrite Eu in E2.
  destruct (IH (EventCheck.mkEvent (spend (ev_header e) (tx_Gas tx)) (ev_Sig e) (ev_Transactions e ++ [tx])) tt1)
    as (added & tt2 & E & P2 & G2 & Hpre & Hmay & Hmax); [done|done|done|done|].
  cbn [ev_header ev_Sig ev_Transactions] in *. rewrite spend_spend in *.
  assert (gas_of (tx :: added) = tx_Gas tx + gas_of added) as Ega by done.
  exists (tx :: added), tt2. rewrite Ega. split_and!; [by rewrite E, <-app_assoc|done|done|by apply prefix_cons| |].
  - constructor; [|done]. split; [done|]. by exists txTime, tt1.
  - right. destruct Hmax as [->|Hmax]; [unfold gas_of; simpl; lia|]. cbn in Hmax. lia.
Qed.
End sender.

(** The gas of the transactions counts modulo 2^64. *)
Lemma foldl_u64_mod (l : list Transaction) : forall acc, is_u64 acc ->
  foldl (fun g tx => u64 (g + tx_Gas tx)) acc l = u64 (acc + gas_of l).
Proof.
  induction l as [|tx l IH]; intros acc Ha; unfold gas_of in *; cbn; [rewrite Z.add_0_r; by rewrite u64_id|].
  rewrite IH by apply u64_range. rewrite u64_add_l. f_equal. lia.
Qed.

Lemma CalcGasPowerUsed_add (h h' : EventHeaderData) sig txs added :
  Parents h' = Parents h -> Extra h' = Extra h ->
  CalcGasPowerUsed (EventCheck.mkEvent h' sig (txs ++ added)) net = u64 (CalcGasPowerUsed (EventCheck.mkEvent h sig txs) net + gas_of added).
Proof.
  intros Hp He. unfold CalcGasPowerUsed. cbn [ev_header ev_Transactions]. rewrite Hp, He.
  rewrite !foldl_u64_mod by (unfold is_u64; lia). unfold gas_of. rewrite fmap_app, zsum_app.
  match goal with |- context [if ?b then ?x else 0] => generalize (if b then x else 0) end. intros pg.
  generalize (u64 (zlen (Extra h) * ExtraDataGas)). intros x. repeat progress rewrite <-?Z.add_assoc, ?u64_add_l. f_equal. lia.
Qed.

Context (Hmax : 0 <= MaxTxsFromSender config) (Hthr : is_u64 (NoTxsThreshold config)).

Lemma maxGasPowerToUse_spec prevEmittedTime h : gas_ok h ->
  exists g, maxGasPowerToUse net config rateGas prevEmittedTime h = Ret g /\ g <= MaxGasPowerUsed /\
    (isEpochTail net config h = true -> g = 0).
Proof.
  intros Hg. unfold maxGasPowerToUse. destruct (isEpochTail net config h); [by exists 0|].
  destruct (GasPowerLeft_Min_spec _ (go_some _ Hg)) as (m & -> & Hin & _). rewrite go_bind_Ret.
  pose proof (go_left _ Hg m Hin). pose proof (go_used _ Hg).
  assert (MaxGasPowerUsed = 10028000) as HM by done. rewrite HM.
  destruct (Z.leb_spec m (NoTxsThreshold config)); [exists 0; by split_and!|].
  destruct (Z.ltb_spec m (u64 (NoTxsThreshold config + 10028000))) as [Hlt|Hge].
  { eexists. split; [done|]. split; [|done]. rewrite u64_id by word. assert (u64 (NoTxsThreshold config + 10028000) <= NoTxsThreshold config + 10028000) by word. lia. }
  destruct (m <=? SmoothTpsThreshold config); [|eexists; by split_and!].
  eexists. split; [done|]. rewrite Z.gtb_ltb. split; [|done]. destruct (Z.ltb_spec 10028000 (rateGas (ClaimedTime h) prevEmittedTime)); lia.
Qed.

Lemma addPool_spec ring epoch now g validators e (pool : list (A * list Transaction)) txTime :
  let arr := Validators_SortedIDs validators in
  let stakes := Validators_Get validators <$> arr in
  validators_ok validators -> arr <> [] -> gas_ok (ev_header e) -> past txTime now ->
  Forall (fun p => Forall (fun tx => 0 <= tx_Gas tx) p.2) pool ->
  exists chosen txTime',
    go_fold (fun (st : FullEvent * L) (p : A * list Transaction) =>
        let '(e, txTime) := st in
        if MaxTxsFromSender config <? 0 then Fault IndexOutOfRange
        else addSenderTxs addr_Bytes sha256 hash_Of tx_Hash tx_Nonce ring epoch now g arr stakes p.1
               (take (Z.to_nat (MaxTxsFromSender config)) p.2) e txTime) (e, txTime) pool =
      Ret (EventCheck.mkEvent (spend (ev_header e) (gas_of (concat chosen))) (ev_Sig e) (ev_Transactions e ++ concat chosen), txTime') /\
    gas_ok (spend (ev_header e) (gas_of (concat chosen))) /\
    Forall2 (fun p l => l `prefix_of` take (Z.to_nat (MaxTxsFromSender config)) p.2 /\
      Forall (may_add ring epoch now arr stakes (Creator (ev_header e)) p.1) l) pool chosen /\
    (concat chosen = [] \/ GasPowerUsed (ev_header e) + gas_of (concat chosen) < g).
Proof.
  intros arr stakes Hvv Hne Hg Hp Hpool.
  assert (stakes = Validators_SortedStakes validators) as Hst by (apply stakes_of_ids, Hvv).
  set (may := may_add ring epoch now arr stakes (Creator (ev_header e))).
  destruct (go_fold_inv (fun (st : FullEvent * L) (p : A * list Transaction) =>
        let '(e, txTime) := st in
        if MaxTxsFromSender config <? 0 then Fault IndexOutOfRange
        else addSenderTxs addr_Bytes sha256 hash_Of tx_Hash tx_Nonce ring epoch now g arr stakes p.1
               (take (Z.to_nat (MaxTxsFromSender config)) p.2) e txTime)
     (fun dn st => exists chosen, st.1 = EventCheck.mkEvent (spend (ev_header e) (gas_of (concat chosen))) (ev_Sig e) (ev_Transactions e ++ concat chosen) /\
        past st.2 now /\ gas_ok (spend (ev_header e) (gas_of (concat chosen))) /\
        Forall2 (fun p l => l `prefix_of` take (Z.to_nat (MaxTxsFromSender config)) p.2 /\ Forall (may p.1) l) dn chosen /\
        (concat chosen = [] \/ GasPowerUsed (ev_header e) + gas_of (concat chosen) < g)) pool (e, txTime)) as ([e' tt'] & E & chosen & E1 & _ & G1 & F1 & M1).
  - exists []. unfold gas_of. simpl. rewrite spend_0, app_nil_r. split_and!; [by destruct e|done|done|constructor|by left].
  - intros dn p rest [e1 tt1] El (chosen & E1 & P1 & G1 & F1 & M1). cbn [fst snd] in *. rewrite (proj2 (Z.ltb_ge _ 0)) by done. subst e1.
    destruct (addSenderTxs_spec ring epoch now g arr stakes (Creator (ev_header e)) Hne
               ltac:(rewrite Hst; apply (vo_len _ Hvv)) ltac:(rewrite Hst; apply (vo_pos _ Hvv))
               ltac:(rewrite Hst, <-(vo_total _ Hvv); pose proof (vo_fits _ Hvv); lia) p.1
               (take (Z.to_nat (MaxTxsFromSender config)) p.2)
               (EventCheck.mkEvent (spend (ev_header e) (gas_of (concat chosen))) (ev_Sig e) (ev_Transactions e ++ concat chosen)) tt1 G1 P1 eq_refl) as (added & tt2 & E2 & P2 & G2 & Hpre & Hmay & Hm).
    { apply Forall_take. rewrite Forall_forall in Hpool. apply Hpool. rewrite El. set_solver. }
    rewrite E2. eexists. split; [done|]. cbn [fst snd ev_header ev_Sig ev_Transactions] in *. exists (chosen ++ [added]).
    assert (concat (chosen ++ [added]) = concat chosen ++ added) as -> by (rewrite concat_app; simpl; by rewrite app_nil_r).
    assert (gas_of (concat chosen ++ added) = gas_of (concat chosen) + gas_of added) as Hga by (unfold gas_of; by rewrite fmap_app, zsum_app).
    rewrite Hga, <-spend_spend, app_assoc. split_and!; [done|done|done| |].
    + apply Forall2_app; [done|]. by constructor; [|constructor].
    + destruct Hm as [->|Hm]; [|right; cbn in Hm; lia]. destruct M1 as [->|M1]; [by left|right]. unfold gas_of in *. simpl. lia.
  - cbn [fst snd] in *. subst e'. by exists chosen, tt'.
Qed.

(** What the emitter adds to an event.  For each sender it takes a chain
    from the front of its pending transactions, no more than the configured
    number, none of which may be in flight and each in this validator's turn;
    the gas power left and used account exactly for them, without wrapping, so
    that the gas used is still what the checks compute and within their limit;
    and nothing is added at the tail of an epoch. *)
Lemma addTxs_spec ring epoch now prevEmittedTime validators e (pool : list (A * list Transaction)) txTime :
  validators_ok validators -> Validators_SortedIDs validators <> [] ->
  gas_ok (ev_header e) -> past txTime now -> Forall (fun p => Forall (fun tx => 0 <= tx_Gas tx) p.2) pool ->
  exists chosen txTime',
    addTxs addr_Bytes sha256 hash_Of tx_Hash tx_Nonce net config rateGas ring epoch now prevEmittedTime validators e pool txTime =
      Ret (EventCheck.mkEvent (spend (ev_header e) (gas_of (concat chosen))) (ev_Sig e) (ev_Transactions e ++ concat chosen), txTime') /\
    Forall2 (fun p l => l `prefix_of` take (Z.to_nat (MaxTxsFromSender config)) p.2 /\
      Forall (may_add ring epoch now (Validators_SortedIDs validators)
                (Validators_Get validators <$> Validators_SortedIDs validators) (Creator (ev_header e)) p.1) l) pool chosen /\
    gas_ok (spend (ev_header e) (gas_of (concat chosen))) /\
    (concat chosen = [] \/ GasPowerUsed (ev_header e) + gas_of (concat chosen) < MaxGasPowerUsed) /\
    (isEpochTail net config (ev_header e) = true -> concat chosen = []) /\
    (GasPowerUsed (ev_header e) = CalcGasPowerUsed e net ->
     CalcGasPowerUsed (EventCheck.mkEvent (spend (ev_header e) (gas_of (concat chosen))) (ev_Sig e) (ev_Transactions e ++ concat chosen)) net =
       GasPowerUsed (ev_header e) + gas_of (concat chosen)).
Proof.
  intros Hvv Hne Hg Hp Hpool. unfold addTxs.
  destruct (maxGasPowerToUse_spec prevEmittedTime (ev_header e) Hg) as (g & Eg & Hgm & Hgt).
  set (arr := Validators_SortedIDs validators) in *. set (stakes := Validators_Get validators <$> arr).
  assert (forall chosen : list (list Transaction), gas_ok (spend (ev_header e) (gas_of (concat chosen))) ->
    GasPowerUsed (ev_header e) = CalcGasPowerUsed e net ->
     CalcGasPowerUsed (EventCheck.mkEvent (spend (ev_header e) (gas_of (concat chosen))) (ev_Sig e) (ev_Transactions e ++ concat chosen)) net =
       GasPowerUsed (ev_header e) + gas_of (concat chosen)) as Hcalc.
  { intros chosen [G1 G2 G3] Hu. rewrite (CalcGasPowerUsed_add (ev_header e)) by done. destruct e as [h sg txs]. cbn in *. rewrite <-Hu.
    apply u64_id. destruct (list_choose _ G1) as [x Hx]. specialize (G3 x Hx). word. }
  destruct pool as [|p0 pool0] eqn:Epool.
  { exists [], txTime. unfold gas_of. simpl. rewrite spend_0, app_nil_r. destruct e as [h sg txs]. cbn in *.
    split_and!; [done|constructor|done|by left|done|]. intros Hu. rewrite Z.add_0_r. done. }
  rewrite <-Epool in *. clear p0 pool0 Epool. rewrite Eg, go_bind_Ret.
  destruct (addPool_spec ring epoch now g validators e pool txTime Hvv Hne Hg Hp Hpool) as (chosen & tt' & E & G1 & F1 & M1).
  exists chosen, tt'. split_and!; [exact E|exact F1|exact G1|destruct M1; [by left|right; lia]| |by apply Hcalc].
  intros Ht. destruct M1 as [?|M1]; [done|]. rewrite (Hgt Ht) in M1. pose proof (go_used _ G1) as Hu. cbn in Hu. lia.
Qed.
End add_txs.

