(* ===== verification/EmitterEvent.v ===== *)
(** * The event that the emitter builds

    [unsignedEvent] never gets stuck, and what it builds passes the epoch
    check, the parents check, the gas check and the gas power check of every
    other node. *)

From S2P Require Import Prelude Bytes Kvdb KvdbLaws Pos Event Vector VecStore VecIndex Dag VecInv VecMerge VecWalk VecAdd ForklessCause VecSpec VecExample EventCheck Poset EventBuffer Shuffle OccurredTxs Parents Emitter EmitterSpec.

(** ** The gas power can be computed *)

Lemma zsum_elem (l : list Z) x : Forall (fun y => 0 <= y) l -> x ∈ l -> x <= zsum l.
Proof.
  induction 1 as [|y l Hy Hl IH]; [by intros ?%elem_of_nil|]. pose proof (zsum_nonneg l Hl).
  intros [->|Hx]%elem_of_cons; cbn; [lia|]. specialize (IH Hx). lia.
Qed.

Lemma stake_total vv id : validators_ok vv -> Validators_Get vv id <> 0 -> Validators_TotalStake vv <> 0.
Proof.
  intros Hvv Hne. unfold Validators_Get in Hne. destruct (values vv !! id) as [s|] eqn:Es; [|done]. cbn in Hne.
  assert (id ∈ Validators_SortedIDs vv) as Hid by (apply (vo_exists _ Hvv); by eexists).
  apply list_elem_of_lookup_1 in Hid as [i Hi]. rewrite <-slice_get_nat in Hi. pose proof (vo_stake _ Hvv _ _ Hi) as Hs.
  rewrite Es, slice_get_nat in Hs. apply list_elem_of_lookup_2 in Hs. pose proof (vo_pos _ Hvv) as Hpos.
  rewrite (vo_total _ Hvv). pose proof (zsum_elem _ s ltac:(eapply Forall_impl; [exact Hpos|intros y Hy; simpl in *; lia]) Hs).
  rewrite Forall_forall in Hpos. specialize (Hpos s Hs). lia.
Qed.

Record gas_ctx_ok (ctx : ValidationContext) (epoch : Z) : Prop := {
  gx_epoch : vc_Epoch ctx = epoch;
  gx_vals : validators_ok (vc_Validators ctx);
  gx_some : vc_Configs ctx <> [];
  gx_idx c : c ∈ vc_Configs ctx -> 0 <= gc_Idx c < 2;
  gx_prev k h : vc_PrevEpochLastHeaders ctx !! k = Some h -> length (GasPowerLeft h) = 2%nat
}.

Lemma slice_at_two (l : list Z) i : length l = 2%nat -> 0 <= i < 2 -> exists x, slice_at l i = Ret x.
Proof.
  intros Hl Hi. destruct (slice_get_is_Some l i) as [x Hx]; [unfold zlen; lia|]. exists x. by apply slice_at_Ret.
Qed.

Lemma perSec_returns validator vv c : validators_ok vv ->
  exists perSec maxG startup, calcValidatorGasPowerPerSec validator vv c = Ret (perSec, maxG, startup) /\ is_u64 maxG.
Proof.
  intros Hvv. unfold calcValidatorGasPowerPerSec. destruct (Z.eqb_spec (Validators_Get vv validator) 0) as [|Hne]; [exists 0, 0, 0; by split|].
  unfold mul_div. rewrite (proj2 (Z.eqb_neq _ 0)) by (by apply stake_total in Hne). rewrite go_bind_Ret.
  do 3 eexists. split; [done|]. apply u64_range.
Qed.

Lemma calcGasPower_returns h sp ctx c epoch : gas_ctx_ok ctx epoch -> c ∈ vc_Configs ctx ->
  (SelfParent h = None \/ exists s, sp = Some s /\ length (GasPowerLeft s) = 2%nat) ->
  exists g, calcGasPower h sp ctx c = Ret g /\ is_u64 g.
Proof.
  intros [_ Hvv _ Hidx Hprev] Hc Hsp. specialize (Hidx c Hc). unfold calcGasPower.
  destruct (perSec_returns (Creator h) (vc_Validators ctx) c Hvv) as (perSec & maxG & st & -> & Hmax).
  rewrite go_bind_Ret.
  match goal with |- context [match SelfParent h with Some _ => ?a | None => ?b end] =>
    assert (exists g t, match SelfParent h with Some _ => a | None => b end = Ret (g, t)) as (g & t & ->) end.
  { destruct (SelfParent h) as [p|].
    - destruct Hsp as [|(s & -> & Hl)]; [done|]. destruct (slice_at_two _ (gc_Idx c) Hl Hidx) as [x ->]. rewrite go_bind_Ret. by do 2 eexists.
    - destruct (vc_PrevEpochLastHeaders ctx !! Creator h) as [prev|] eqn:E; [|by do 2 eexists].
      destruct (slice_at_two _ (gc_Idx c) (Hprev _ _ E) Hidx) as [x ->]. rewrite go_bind_Ret. by do 2 eexists. }
  rewrite go_bind_Ret. unfold mul_div. rewrite (proj2 (Z.eqb_neq second 0)) by done. rewrite go_bind_Ret.
  eexists. split; [done|]. rewrite Z.gtb_ltb. case_match; [done|apply u64_range].
Qed.

Lemma CalcGasPower_returns h sp ctx epoch : gas_ctx_ok ctx epoch -> Epoch h = epoch ->
  (SelfParent h = None \/ exists s, sp = Some s /\ length (GasPowerLeft s) = 2%nat) ->
  exists gs, CalcGasPower h sp ctx = Ret (inr gs) /\ gs <> [] /\ Forall is_u64 gs.
Proof.
  intros Hctx He Hsp. unfold CalcGasPower. rewrite (gx_epoch _ _ Hctx), He, Z.eqb_refl.
  destruct (go_fold_inv (fun acc c => g ← calcGasPower h sp ctx c; Ret (acc ++ [g]))
              (fun dn acc => length acc = length dn /\ Forall is_u64 acc) (vc_Configs ctx) []) as (gs & E & Hl & Hall).
  - by split.
  - intros dn c rest acc El [Hl Hall]. destruct (calcGasPower_returns h sp ctx c epoch Hctx) as (g & -> & Hg); [rewrite El; set_solver|done|].
    rewrite go_bind_Ret. eexists. split; [done|]. rewrite !length_app, Hl. split; [done|]. apply Forall_app. by split; [|constructor].
  - cbn [negb]. rewrite E, go_bind_Ret. exists gs. split_and!; [done| |done]. pose proof (gx_some _ _ Hctx). destruct gs, (vc_Configs ctx); done.
Qed.

(** ** The parents *)

Section parents.
Context (v : Validators) (Hvv : validators_ok v) (Hcopy : Validators_Copy v = v).
Context (getEvent : hash -> option EventHeaderData) (event_Hash : EventHeaderData -> hash).
Context {T F R : Type} `{HT : VecStoreLaws T} `{HF : LruLaws (hash * hash) bool F}.
Context (Slice : gset hash -> list hash) (Hslice : forall X, Slice X ≡ₚ elements X).
Context (sort_scores : list eventScore -> list eventScore) (Hperm : forall l, sort_scores l ≡ₚ l).
Context (Hsorted : forall l, StronglySorted (fun a b => es_score a <= es_score b) (sort_scores l)).
Context (Intn : R -> Z -> Z * R) (HIntn : forall r n, 0 < n -> 0 <= (Intn r n).1 < n).
Context (net : DagConfig) (config : EmitterConfig).
Context (hs saved : list hash).
Abbreviation simulates := (simulates v getEvent (T := T) (F := F)).
Implicit Types vi : Index T F.

(** The limits of the rules of the network. *)
Record net_ok : Prop := {
  no_free : 1 <= MaxFreeParents net <= MaxParents net;
  no_parents : MaxParents net <= 1000
}.
Context (Hnet : net_ok).

(** What the store holds about connected events. *)
Record header_ok (h : hash) (e : EventHeaderData) : Prop := {
  ho_hash : event_Hash e = h;
  ho_creator : Creator e ∈ Validators_SortedIDs v;
  ho_seq : 1 <= Seq e < 2 ^ 32 - 1;
  ho_lamport : 0 <= Lamport e < 2 ^ 32 - 1;
  ho_time : 0 <= ClaimedTime e < 2 ^ 64 - 1;
  ho_gas : length (GasPowerLeft e) = 2%nat
}.
Context (Hknown : forall h, h ∈ hs -> exists e, getEvent h = Some e /\ header_ok h e).

Lemma keeps_heads vi (selfParent : option hash) options :
  simulates vi (hs, saved) -> (forall h, h ∈ options -> h ∈ hs) -> (forall p, selfParent = Some p -> p ∈ hs) ->
  exists l vi', NoCheaters getEvent vi selfParent options = Ret (l, vi') /\ simulates vi' (hs, saved) /\
    (forall h, h ∈ l -> h ∈ options /\ forall p, selfParent = Some p -> ~ sees_fork v getEvent p (cr v getEvent h)).
Proof.
  intros Hs Hopt Hsp. destruct selfParent as [p|].
  2:{ exists options, vi. split_and!; [done|done|]. intros h Hh. by split. }
  destruct (NoCheaters_spec v getEvent ltac:(by rewrite Hcopy) vi (hs, saved) p options Hs (Hsp p eq_refl)) as (l & vi' & E & Hs' & _ & Hl).
  { intros h Hh. destruct (Hknown h (Hopt h Hh)) as (e & He & Hok). exists e. split; [done|]. rewrite Hcopy. apply Hok. }
  exists l, vi'. split_and!; [done|done|]. intros h Hh. apply Hl in Hh as [Hh Hf]. split; [done|]. intros q [= <-]. by rewrite Hcopy in Hf.
Qed.

(** The parents of the next event: the self-parent first, no duplicates, no
    more than the rules allow, no head of a creator whose fork is seen. *)
Record parents_ok (selfParent : option hash) (heads parents : list hash) : Prop := {
  po_nodup : NoDup parents;
  po_self p : selfParent = Some p -> parents !! O = Some p;
  po_len : zlen parents <= MaxParents net;
  po_in h : h ∈ parents -> selfParent = Some h \/
    h ∈ heads /\ forall p, selfParent = Some p -> ~ sees_fork v getEvent p (cr v getEvent h)
}.

Lemma findBestParents_spec vi (selfParent : option hash) heads rand r :
  simulates vi (hs, saved) -> (forall h, h ∈ heads -> h ∈ hs) -> (forall p, selfParent = Some p -> p ∈ hs) ->
  exists res vi', findBestParents net config getEvent Slice sort_scores Intn vi v selfParent heads rand r = Ret (res, vi') /\
    simulates vi' (hs, saved) /\ forall parents, res = Some parents -> parents_ok selfParent heads parents.
Proof.
  intros Hs Hheads Hsp. unfold findBestParents.
  destruct (keeps_heads vi selfParent heads Hs Hheads Hsp) as (l & vi1 & -> & Hs1 & Hl). rewrite go_bind_Ret.
  match goal with |- context [match selfParent with None => ?a | Some p => @?b p end] =>
    assert (exists forked vi2, match selfParent with None => a | Some p => b p end = Ret (forked, vi2) /\ simulates vi2 (hs, saved))
      as (forked & vi2 & -> & Hs2) end.
  { destruct selfParent as [p|]; [|by exists false, vi1].
    destruct (keeps_heads vi1 (Some p) [p] Hs1) as (l' & vi2 & -> & Hs2 & _); [|done|rewrite go_bind_Ret; by do 2 eexists].
    intros h ->%list_elem_of_singleton. by apply Hsp. }
  rewrite go_bind_Ret. destruct forked; [by exists None, vi2|].
  set (maxP := if _ >? _ then _ else _). assert (1 <= maxP <= MaxParents net) as Hmax.
  { pose proof (no_free Hnet). unfold maxP. destruct (Z.ltb_spec (ec_MaxParents config) (MaxFreeParents net)); rewrite Z.gtb_ltb; case_match eqn:Eg;
      rewrite ?Z.ltb_lt, ?Z.ltb_ge in Eg; lia. }
  assert (forall parents, NoDup parents -> (forall p, selfParent = Some p -> parents !! O = Some p) ->
    (forall h, h ∈ parents -> h ∈ l \/ selfParent = Some h) ->
    zlen parents = Z.min maxP (Z.of_nat (size (list_to_set (option_list selfParent ++ l) : gset hash))) ->
    parents_ok selfParent heads parents) as Hok.
  { intros parents Hn Hp Hin Hlen. split; [done|done|lia|]. intros h Hh. destruct (Hin h Hh) as [Hl'|]; [|by left]. right. by apply Hl. }
  assert (forall h, h ∈ l -> h ∈ hs) as Hlh by (intros h Hh; by apply Hheads, Hl).
  destruct rand.
  - destruct (parents_well_chosen (H := random_strategy Intn) Slice Hslice (fun _ => True) (fun _ => True)
                (SearchStrategyLaws0 := random_laws Intn HIntn) maxP l selfParent (mkRandomStrategy r)) as (parents & st & E & _ & H1 & H2 & H3 & H4);
      [lia|done..|].
    rewrite E, go_bind_Ret. exists (Some parents), vi2. split_and!; [done|done|]. intros ? [= <-]. by apply Hok.
  - destruct Hs2 as (d & f & Hix & Hf & Hc). rewrite Hcopy in Hix, Hf, Hc.
    destruct (parents_well_chosen (H := casuality_strategy sort_scores) Slice Hslice (fun h => h ∈ hs)
                (strategy_ok v getEvent hs d f (c_ForklessCause vi2))
                (SearchStrategyLaws0 := casuality_laws sort_scores Hperm Hsorted v Hvv getEvent hs d f (c_ForklessCause vi2))
                maxP l selfParent (NewCasualityStrategy vi2 v)) as (parents & st & E & Hst & H1 & H2 & H3 & H4); [lia| |done|done|].
    { split; [exact Hix|done|by apply Validators_Len_nv|done]. }
    rewrite E, go_bind_Ret. exists (Some parents), (cs_vecClock st). split_and!; [done| |intros ? [= <-]; by apply Hok].
    exists d, f. rewrite Hcopy. destruct Hst as [Hi Hfc _ _]. split_and!; [done|done|by rewrite Hfc].
Qed.

(** ** The fields that depend on the parents *)

Lemma parentHeaders_spec me (parents : list hash) : forall i m, 0 <= i -> (forall h, h ∈ parents -> h ∈ hs) ->
  exists res, parentHeaders getEvent me i m parents = Ret res /\
    forall headers maxL, res = Some (headers, maxL) ->
      Forall2 (fun p e => getEvent p = Some e /\ header_ok p e) parents headers /\
      maxL = foldl (fun m e => MaxLamport m (Lamport e)) m headers /\
      forall (j : nat) e, headers !! j = Some e -> i + Z.of_nat j <> 0 -> Creator e <> me.
Proof.
  induction parents as [|p parents IH]; intros i m Hi Hin; cbn [parentHeaders].
  { eexists. split; [done|]. intros headers maxL [= <- <-]. split_and!; [constructor|done|]. intros j e Hj. by rewrite lookup_nil in Hj. }
  destruct (Hknown p) as (e & He & Hok); [apply Hin; by left|]. rewrite He.
  destruct ((Creator e =? me) && negb (i =? 0)) eqn:Ec; [by eexists|].
  destruct (IH (i + 1) (MaxLamport m (Lamport e))) as (res & -> & Hres); [lia|intros h Hh; apply Hin; by right|].
  rewrite go_bind_Ret. eexists. split; [done|]. intros headers maxL. destruct res as [[l x]|]; [|done]. intros [= <- <-].
  destruct (Hres l x eq_refl) as (HF2 & -> & Hc). split_and!; [by constructor|done|].
  intros [|j] e' Hj Hne; cbn in Hj.
  - injection Hj as <-. apply andb_false_iff in Ec as [Ec|Ec]; [by apply Z.eqb_neq in Ec|]. apply negb_false_iff, Z.eqb_eq in Ec. lia.
  - apply (Hc j); [done|lia].
Qed.

Lemma AddVersion_spec h : let h' := AddVersion config h in
  Epoch h' = Epoch h /\ Seq h' = Seq h /\ Creator h' = Creator h /\ Parents h' = Parents h /\ Lamport h' = Lamport h /\
  ClaimedTime h' = ClaimedTime h /\ Version h' = 0 /\ zlen (Extra h') <= Z.max MaxExtraData (zlen (Extra h)).
Proof.
  unfold AddVersion. destruct (_ && _) eqn:E; cbn [set_Extra Epoch Seq Creator Parents Lamport ClaimedTime Version Extra]; split_and!; try done; [|lia].
  apply andb_true_iff in E as [_ E]. apply Z.leb_le in E. lia.
Qed.

(** The fields of the event that no later step changes. *)
Record fields_of (epoch me : Z) (parents : list hash) (sp : option EventHeaderData) (maxL : Z) (h : EventHeaderData) : Prop := {
  fo_epoch : Epoch h = epoch;
  fo_seq : Seq h = u32 (match sp with Some s => Seq s | None => 0 end + 1);
  fo_creator : Creator h = me;
  fo_parents : Parents h = parents;
  fo_lamport : Lamport h = u32 (maxL + 1);
  fo_time : u64 (match sp with Some s => ClaimedTime s | None => 0 end + 1) <= ClaimedTime h;
  fo_version : Version h = 0;
  fo_extra : zlen (Extra h) <= MaxExtraData
}.

Lemma draftEvent_spec epoch me now parents sp maxL :
  fields_of epoch me parents sp maxL (draftEvent config epoch me now parents sp maxL).
Proof.
  unfold draftEvent. set (st := match sp with Some s => (Seq s, ClaimedTime s) | None => (0, 0) end).
  assert (st = (match sp with Some s => Seq s | None => 0 end, match sp with Some s => ClaimedTime s | None => 0 end)) as -> by (by destruct sp).
  match goal with |- context [AddVersion config ?x] => destruct (AddVersion_spec x) as (A1 & A2 & A3 & A4 & A5 & A6 & A7 & A8) end.
  split; rewrite ?A1, ?A2, ?A3, ?A4, ?A5, ?A6; try done. cbn [ClaimedTime new_header]. unfold MaxTimestamp.
  rewrite Z.gtb_ltb. match goal with |- context [?a <? ?b] => destruct (Z.ltb_spec a b) end; lia.
Qed.

(** ** The parents check *)

Context (me epoch : Z) (last : option hash) (heads : list hash).
(** The last own event is connected, and without one no head is an own event. *)
Record own_ok : Prop := {
  oo_last p : last = Some p -> p ∈ hs;
  oo_mine p e : last = Some p -> getEvent p = Some e -> Creator e = me;
  oo_first h e : last = None -> h ∈ heads -> getEvent h = Some e -> Creator e <> me;
  oo_heads h : h ∈ heads -> h ∈ hs
}.
Context (Hown : own_ok).

Lemma built_parents_pass parents headers sp maxL h :
  parents_ok last heads parents -> Forall2 (fun p e => getEvent p = Some e /\ header_ok p e) parents headers ->
  maxL = foldl (fun m e => MaxLamport m (Lamport e)) 0 headers ->
  (forall (j : nat) e, headers !! j = Some e -> 0 + Z.of_nat j <> 0 -> Creator e <> me) ->
  match last with Some _ => headers !! O = sp /\ is_Some sp | None => sp = None end ->
  fields_of epoch me parents sp maxL h ->
  parentscheck_Validate event_Hash h headers = Ret None /\
  (SelfParent h = None \/ exists s, sp = Some s /\ length (GasPowerLeft s) = 2%nat) /\
  (SelfParent h = None <-> sp = None).
Proof.
  intros [Hn Hself Hlen Hin] Hall2 HL Hc Hsp [F1 F2 F3 F4 F5 F6 _ _].
  assert (zlen parents = zlen headers) as Hzl by (unfold zlen; f_equal; by eapply Forall2_length).
  assert (match last with
          | Some p => exists s rest, sp = Some s /\ parents = p :: rest /\ header_ok p s /\ Creator s = me /\ headers !! O = Some s
          | None => sp = None /\ forall j e, headers !! j = Some e -> Creator e <> me end) as Hcase.
  { destruct last as [p|] eqn:El.
    - destruct Hsp as [Hh [s ->]]. specialize (Hself p eq_refl). destruct parents as [|q rest]; [done|]. injection Hself as ->.
      destruct headers as [|s' hrest]; [done|]. injection Hh as ->. apply Forall2_cons in Hall2 as [[Hg Hk] _].
      exists s, rest. split_and!; try done. by apply (oo_mine Hown p).
    - split; [done|]. intros [|j] e Hj; [|apply (Hc (S j)); [done|lia]].
      destruct (Forall2_lookup_r _ _ _ _ _ Hall2 Hj) as (p & Hp & Hg & _). apply list_elem_of_lookup_2 in Hp.
      destruct (Hin p Hp) as [|[Hh _]]; [done|]. by apply (oo_first Hown p). }
  assert (SelfParent h = last) as Hsph.
  { unfold SelfParent. rewrite F2, F4. destruct last as [p|].
    - destruct Hcase as (s & rest & -> & -> & Hk & _). pose proof (ho_seq _ _ Hk). rewrite u32_id by word.
      rewrite (proj2 (Z.leb_gt _ _)) by lia. done.
    - destruct Hcase as [-> _]. done. }
  split; [|split; [|]].
  2:{ destruct last as [p|]; [right|by left]. destruct Hcase as (s & rest & -> & _ & Hk & _). exists s. split; [done|apply Hk]. }
  2:{ rewrite Hsph. destruct last as [p|]; [destruct Hcase as (s & rest & -> & _); done|]. destruct Hcase as [-> _]. done. }
  unfold parentscheck_Validate. rewrite F4, Hzl, Z.eqb_refl. cbn [negb]. cbv zeta.
  rewrite !and_then_None. unfold fail_if.
  assert (forall b e (k : go (option check_error)), b = false -> (Ret (if b then Some e else None) ;;? k) = k) as Hskip by (by intros b e k ->).
  split; [by rewrite <-HL, <-F5, Z.eqb_refl|].
  split; [rewrite (proj2 (Events_Set_nodup parents) Hn); fold (zlen parents); by rewrite Hzl, Z.eqb_refl|].
  split.
  { assert (selfParents_ok h headers = true) as ->; [|done]. unfold selfParents_ok. rewrite F4. apply forallb_forall.
    intros [p e] Hpe. apply list_elem_of_In, elem_of_lookup_zip_with in Hpe as (j & x & y & [= -> ->] & Hx & Hy). cbn [fst snd].
    apply eqb_true_iff, eq_true_iff_eq. rewrite Z.eqb_eq, F3. unfold IsSelfParent. rewrite Hsph. destruct last as [q|].
    - destruct Hcase as (s & rest & _ & Ep & _ & Cs & Hs). rewrite bool_decide_eq_true. destruct j as [|j].
      + rewrite Ep in Hx. cbn in Hx. rewrite Hs in Hy. injection Hx as <-. injection Hy as <-. done.
      + split; [intros Hce; by destruct (Hc (S j) y Hy ltac:(lia))|]. intros <-. rewrite Ep in Hn, Hx. cbn in Hx.
        apply NoDup_cons in Hn as [Hq _]. destruct Hq. by eapply list_elem_of_lookup_2.
    - destruct Hcase as [_ Hall]. split; [intros Hce; by destruct (Hall j y Hy)|done]. }
  rewrite Hsph. destruct last as [p|].
  - destruct Hcase as (s & rest & -> & -> & Hk & _ & Hs). pose proof (ho_seq _ _ Hk). pose proof (ho_time _ _ Hk).
    split; [rewrite F2, u32_id by word; by rewrite (proj2 (Z.leb_gt _ _)) by lia|].
    unfold slice_at. change 0 with (Z.of_nat 0). rewrite slice_get_nat, Hs, go_bind_Ret. rewrite !and_then_None. split_and!.
    + unfold IsSelfParent. rewrite Hsph, (ho_hash _ _ Hk), bool_decide_eq_true_2 by done. done.
    + by rewrite F2, Z.eqb_refl.
    + rewrite u64_id in F6 by word. by rewrite (proj2 (Z.leb_gt _ _)) by lia.
  - destruct Hcase as [-> _]. split; [rewrite F2; done|done].
Qed.
End parents.

(** ** The gas account *)

(** The fields that the gas rules read are not changed by the steps that set
    the gas or the hash of the transactions. *)
Lemma initialGas_spec net h sp ctx epoch : gas_ctx_ok ctx epoch -> Epoch h = epoch ->
  (SelfParent h = None \/ exists s, sp = Some s /\ length (GasPowerLeft s) = 2%nat) ->
  exists res gs, initialGas net h sp ctx = Ret res /\ CalcGasPower h sp ctx = Ret (inr gs) /\
    forall h', res = Some h' ->
      let used := CalcGasPowerUsed (EventCheck.mkEvent h [] []) net in
      h' = set_gas h ((fun x => x - used) <$> gs) used /\ gas_ok h' /\ Forall is_u64 gs.
Proof.
  intros Hctx He Hsp. unfold initialGas. destruct (CalcGasPower_returns h sp ctx epoch Hctx He Hsp) as (gs & E & Hne & Hgs).
  rewrite E, go_bind_Ret. destruct (GasPowerLeft_Min_spec gs Hne) as (m & -> & Hm & Hle). rewrite go_bind_Ret.
  set (used := CalcGasPowerUsed _ net). assert (is_u64 used) as Hu by apply u64_range.
  rewrite Z.gtb_ltb. destruct (Z.ltb_spec m used) as [Hlt|Hge]; [by exists None, gs|].
  eexists (Some _), gs. split; [done|]. split; [done|]. intros h' [= <-]. cbv zeta.
  assert (GasPowerLeft_Sub gs used = (fun x => x - used) <$> gs) as ->.
  { unfold GasPowerLeft_Sub. apply list_fmap_ext. intros i x Hx%list_elem_of_lookup_2.
    rewrite Forall_forall in Hgs. specialize (Hgs x Hx). specialize (Hle x Hx). apply u64_id. word. }
  split_and!; [done| |done]. split; cbn.
  - by destruct gs.
  - word.
  - intros y (x & -> & Hx)%list_elem_of_fmap. rewrite Forall_forall in Hgs. specialize (Hgs x Hx). specialize (Hle x Hx). word.
Qed.

Lemma empty_event_gas net h : net_ok net -> zlen (Parents h) <= MaxParents net -> zlen (Extra h) <= MaxExtraData ->
  CalcGasPowerUsed (EventCheck.mkEvent h [] []) net <= MaxGasPowerUsed.
Proof.
  intros [N1 N2] Hp He. unfold CalcGasPowerUsed. cbn [ev_header ev_Transactions foldl].
  assert (MaxGasPowerUsed = 10028000) as -> by done. assert (MaxExtraData = 128) as HE by done. rewrite HE in He.
  pose proof (zlen_nonneg (Parents h)). pose proof (zlen_nonneg (Extra h)).
  unfold ParentGas, ExtraDataGas, EventGas. rewrite Z.gtb_ltb. destruct (Z.ltb_spec (MaxFreeParents net) (zlen (Parents h))); word.
Qed.

Lemma gas_power_pass h sp ctx epoch gs used d hash : gas_ctx_ok ctx epoch -> Epoch h = epoch ->
  CalcGasPower h sp ctx = Ret (inr gs) -> Forall is_u64 gs ->
  gaspowercheck_Validate (set_TxHash (spend (set_gas h ((fun x => x - used) <$> gs) used) d) hash) sp ctx = Ret None.
Proof.
  intros Hctx He E Hgs. unfold gaspowercheck_Validate.
  change (CalcGasPower (set_TxHash (spend (set_gas h ((fun x => x - used) <$> gs) used) d) hash) sp ctx) with (CalcGasPower h sp ctx).
  rewrite E, go_bind_Ret. unfold fail_if. assert (gasPowerLeft_ok (set_TxHash (spend (set_gas h ((fun x => x - used) <$> gs) used) d) hash) gs = true) as ->; [|done].
  unfold gasPowerLeft_ok. cbn [set_TxHash spend set_gas GasPowerLeft GasPowerUsed]. rewrite <-list_fmap_compose. apply forallb_forall.
  intros [x g] Hin. apply list_elem_of_In, elem_of_lookup_zip_with in Hin as (i & y & z & [= -> ->] & Hy & Hz). cbn [fst snd].
  rewrite list_lookup_fmap, Hz in Hy. cbn in Hy. injection Hy as <-. rewrite Forall_forall in Hgs.
  specialize (Hgs z ltac:(by eapply list_elem_of_lookup_2)). apply Z.eqb_eq. rewrite <-(u64_id z) at 2 by done. f_equal. lia.
Qed.

Lemma isAllowedToEmit_returns {A C} `{Countable A} `{LruKeys hash A C} net config adjusted intervals (ring : buffer (A := A) (C := C)) prev e sp :
  GasPowerLeft (ev_header e) <> [] -> (forall s, sp = Some s -> GasPowerLeft s <> []) ->
  exists b, isAllowedToEmit net config adjusted intervals ring prev e sp = Ret b.
Proof.
  intros Hne Hsp. unfold isAllowedToEmit. destruct (GasPowerLeft_Min_spec _ Hne) as (m & -> & _). rewrite go_bind_Ret.
  case_match; [by eexists|].
  assert (exists b, powerDecreasing config m sp = Ret b) as (b & ->).
  { unfold powerDecreasing. case_match; [|by eexists]. destruct sp as [s|]; [|by eexists].
    destruct (GasPowerLeft_Min_spec _ (Hsp s eq_refl)) as (m' & -> & _). rewrite go_bind_Ret. by eexists. }
  rewrite go_bind_Ret. repeat case_match; by eexists.
Qed.

(** ** The event as a whole *)

Section event.
Context {A : Type} `{Countable A} (addr_Bytes : A -> bytes).
Context {C L : Type} `{LruEvict hash A C} `{HL : LruLaws hash Z L}.
Context (sha256 : bytes -> bytes) (hash_Of : list bytes -> bytes) (tx_Hash : Transaction -> hash) (tx_Nonce : Transaction -> Z).
Context (Hsha : forall b, length (sha256 b) = 32%nat) (Hhash : forall l, length (hash_Of l) = 32%nat).
Context (net : DagConfig) (config : EmitterConfig) (rateGas : Z -> Z -> Z) (adjusted : Z -> Z -> Z -> Z -> Z).
Context {T F R : Type} `{HT : VecStoreLaws T} `{HF : LruLaws (hash * hash) bool F}.
Context (getEvent : hash -> option EventHeaderData) (event_Hash : EventHeaderData -> hash).
Context (Slice : gset hash -> list hash) (Hslice : forall X, Slice X ≡ₚ elements X).
Context (sort_scores : list eventScore -> list eventScore) (Hperm : forall l, sort_scores l ≡ₚ l).
Context (Hsorted : forall l, StronglySorted (fun a b => es_score a <= es_score b) (sort_scores l)).
Context (Intn : R -> Z -> Z * R) (HIntn : forall r n, 0 < n -> 0 <= (Intn r n).1 < n).
Context (Prepare : Index T F -> EventHeaderData -> go (option EventHeaderData * Index T F)).
Context (DeriveSha : list Transaction -> hash).
Context (hs saved : list hash) (w : EmitterWorld (A := A) (C := C)).
Abbreviation v := (ew_validators w).
Abbreviation me := (ew_myStakerID w).

(** What the emitter relies on: the store of connected events, the epoch, the
    gas context, and the configuration. *)
Record world_ok : Prop := {
  wo_net : net_ok net;
  wo_txs : 0 <= MaxTxsFromSender config;
  wo_threshold : is_u64 (NoTxsThreshold config);
  wo_vals : validators_ok v;
  wo_copy : Validators_Copy v = v;
  wo_me : me ∈ Validators_SortedIDs v;
  wo_known h : h ∈ hs -> exists e, getEvent h = Some e /\ header_ok v event_Hash h e;
  wo_own : own_ok getEvent hs me (ew_LastEvent w) (ew_Heads w);
  wo_gas : gas_ctx_ok (ew_gas w) (ew_epoch w);
  wo_pool : Forall (fun p => Forall (fun tx => 0 <= tx_Gas tx) p.2) (ew_pool w)
}.

(** [Prepare] of the engine: it may refuse an event; otherwise it fills in the
    consensus fields only. *)
Definition prepares : Prop := forall vi h,
  simulates v getEvent vi (hs, saved) -> Epoch h = ew_epoch w -> Creator h = me -> (forall p, p ∈ Parents h -> p ∈ hs) ->
  exists res vi', Prepare vi h = Ret (res, vi') /\
    forall h', res = Some h' -> exists frame isRoot medianTime prev, h' = set_consensus h frame isRoot medianTime prev.

Context (Hw : world_ok) (Hprep : prepares).
Abbreviation unsigned := (unsignedEvent addr_Bytes sha256 hash_Of tx_Hash tx_Nonce net config rateGas adjusted getEvent Slice sort_scores Intn Prepare DeriveSha w).

(** The checks of all.go up to the limits on sizes, the transactions and the
    signature. *)
Definition passes (e : FullEvent) (headers : list EventHeaderData) : Prop :=
  epochcheck_Validate v (ew_epoch w) (ev_header e) = None /\
  parentscheck_Validate event_Hash (ev_header e) headers = Ret None /\
  checkGas net e = None /\
  gaspowercheck_Validate (ev_header e) (match SelfParent (ev_header e) with Some _ => headers !! O | None => None end) (ew_gas w) = Ret None /\
  zlen (Parents (ev_header e)) <= MaxParents net /\ zlen (Extra (ev_header e)) <= MaxExtraData.

Lemma built_event_passes parents headers sp maxL h gs added :
  parents_ok v getEvent net (ew_LastEvent w) (ew_Heads w) parents ->
  Forall2 (fun p e => getEvent p = Some e /\ header_ok v event_Hash p e) parents headers ->
  maxL = foldl (fun m e => MaxLamport m (Lamport e)) 0 headers ->
  (forall (j : nat) e, headers !! j = Some e -> 0 + Z.of_nat j <> 0 -> Creator e <> me) ->
  match ew_LastEvent w with Some _ => headers !! O = sp /\ is_Some sp | None => sp = None end ->
  fields_of (ew_epoch w) me parents sp maxL h ->
  CalcGasPower h sp (ew_gas w) = Ret (inr gs) -> Forall is_u64 gs ->
  let used := CalcGasPowerUsed (EventCheck.mkEvent h [] []) net in
  let h1 := set_gas h ((fun x => x - used) <$> gs) used in
  (added = [] \/ used + gas_of added < MaxGasPowerUsed) ->
  CalcGasPowerUsed (EventCheck.mkEvent (spend h1 (gas_of added)) [] added) net = used + gas_of added ->
  passes (EventCheck.mkEvent (set_TxHash (spend h1 (gas_of added)) (DeriveSha added)) [] added) headers.
Proof.
  intros Hpar Hall HL' Hc Hsp Hf Egs Hgs used h1 Hmax Hcalc. destruct Hw as [W1 W2 W3 W4 W5 W6 W7 W8 W9 W10].
  set (hf := set_TxHash (spend h1 (gas_of added)) (DeriveSha added)).
  assert (fields_of (ew_epoch w) me parents sp maxL hf) as Hff by (destruct Hf; by split).
  destruct (built_parents_pass v getEvent event_Hash net hs me (ew_epoch w) (ew_LastEvent w) (ew_Heads w) W8 parents headers sp maxL hf Hpar Hall HL' Hc Hsp Hff)
    as (P1 & P2 & P3).
  unfold passes. cbn [ev_header]. fold hf. split_and!.
  - unfold epochcheck_Validate. rewrite (fo_epoch _ _ _ _ _ _ Hff), Z.eqb_refl, (fo_creator _ _ _ _ _ _ Hff). cbn [negb].
    unfold Validators_Exists. apply (vo_exists _ W4) in W6 as [x Hx]. rewrite bool_decide_eq_true_2 by (by eexists). done.
  - exact P1.
  - unfold checkGas. cbn [ev_header]. change (GasPowerUsed hf) with (used + gas_of added).
    change (CalcGasPowerUsed (EventCheck.mkEvent hf [] added) net) with (CalcGasPowerUsed (EventCheck.mkEvent (spend h1 (gas_of added)) [] added) net).
    rewrite Hcalc, Z.eqb_refl. cbn [negb]. rewrite Z.gtb_ltb, (proj2 (Z.ltb_ge _ _)); [done|]. destruct Hmax as [->|Hmax]; [|lia].
    unfold gas_of. cbn. rewrite Z.add_0_r. apply empty_event_gas; [done|rewrite (fo_parents _ _ _ _ _ _ Hf); apply Hpar|apply Hf].
  - assert (match SelfParent hf with Some _ => headers !! O | None => None end = sp) as ->.
    { destruct (SelfParent hf) as [q|] eqn:Eq; [|by symmetry; apply P3].
      destruct (ew_LastEvent w); [by destruct Hsp|]. subst sp. by discriminate (proj2 P3 eq_refl). }
    by apply (gas_power_pass h sp (ew_gas w) (ew_epoch w)); [|apply Hf| |].
  - rewrite (fo_parents _ _ _ _ _ _ Hff). apply Hpar.
  - apply Hff.
Qed.

(** C12: The emitter builds valid events.  Whatever the pool, the time and the
    strategy, it returns; an event it builds has the self-parent first, no
    parent twice, no head of a creator that its self-parent sees forking, and
    passes the epoch, parents, gas and gas power checks of every node, so that the
    final sanity check can only fail on sizes, transactions or the signature;
    its transactions are, for each sender, a chain from the front of its pending
    ones, none of them in flight and each in this validator's turn. *)
Theorem emitted_event_passes (vi : Index T F) (txTime : L) (now1 now2 : Z) (rand : bool) (r : R) :
  simulates v getEvent vi (hs, saved) -> past txTime now2 ->
  exists res vi' txTime', unsigned vi txTime now1 now2 rand r = Ret (res, vi', txTime') /\
    forall e headers, res = Some (e, headers) ->
      parents_ok v getEvent net (ew_LastEvent w) (ew_Heads w) (Parents (ev_header e)) /\ passes e headers /\
      exists chosen, ev_Transactions e = concat chosen /\
        Forall2 (fun p l => l `prefix_of` take (Z.to_nat (MaxTxsFromSender config)) p.2 /\
          Forall (may_add addr_Bytes sha256 hash_Of tx_Hash tx_Nonce (ew_ring w) (ew_epoch w) now2 (Validators_SortedIDs v)
                    (Validators_Get v <$> Validators_SortedIDs v) me p.1) l) (ew_pool w) chosen.
Proof.
  intros Hs Hpast. pose proof Hw as [W1 W2 W3 W4 W5 W6 W7 W8 W9 W10]. unfold unsignedEvent.
  destruct (findBestParents_spec v W4 W5 getEvent event_Hash Slice Hslice sort_scores Hperm Hsorted Intn HIntn net config hs saved W1 W7
              vi (ew_LastEvent w) (ew_Heads w) rand r Hs (oo_heads _ _ _ _ _ W8) (oo_last _ _ _ _ _ W8)) as (found & vi1 & -> & Hs1 & Hfound).
  rewrite go_bind_Ret. destruct found as [parents|]; [|do 3 eexists; by split].
  specialize (Hfound parents eq_refl). assert (forall h, h ∈ parents -> h ∈ hs) as Hph.
  { intros h Hh. destruct (po_in _ _ _ _ _ _ Hfound h Hh) as [Hl|[Hl _]]; [by apply (oo_last _ _ _ _ _ W8)|by apply (oo_heads _ _ _ _ _ W8)]. }
  destruct (parentHeaders_spec v getEvent event_Hash hs W7 me parents 0 0 ltac:(lia) Hph) as (loaded & -> & Hloaded).
  rewrite go_bind_Ret. destruct loaded as [[headers maxL]|]; [|do 3 eexists; by split].
  destruct (Hloaded headers maxL eq_refl) as (Hall & HLam & Hc).
  assert (exists sp, match ew_LastEvent w with Some _ => sp ← slice_at headers 0; Ret (Some sp) | None => Ret None end = Ret sp /\
    match ew_LastEvent w with Some _ => headers !! O = sp /\ is_Some sp | None => sp = None end) as (sp & -> & Hsp).
  { destruct (ew_LastEvent w) as [p|]; [|by exists None]. pose proof (po_self _ _ _ _ _ _ Hfound p eq_refl) as Hp.
    destruct (Forall2_lookup_l _ _ _ _ _ Hall Hp) as (s & Hs0 & _). exists (Some s). unfold slice_at. change 0 with (Z.of_nat 0).
    rewrite slice_get_nat, Hs0, go_bind_Ret. split; [done|]. split; [done|by eexists]. }
  rewrite go_bind_Ret. set (h0 := draftEvent config (ew_epoch w) me now1 parents sp maxL).
  assert (fields_of (ew_epoch w) me parents sp maxL h0) as Hf0 by apply draftEvent_spec.
  destruct (Hprep vi1 h0 Hs1 (fo_epoch _ _ _ _ _ _ Hf0) (fo_creator _ _ _ _ _ _ Hf0)) as (prepared & vi2 & -> & Hset).
  { rewrite (fo_parents _ _ _ _ _ _ Hf0). exact Hph. }
  rewrite go_bind_Ret. destruct prepared as [h|]; [|do 3 eexists; by split].
  destruct (Hset h eq_refl) as (frame & isRoot & mt & prev & Eh).
  assert (fields_of (ew_epoch w) me parents sp maxL h) as Hf by (subst h; destruct Hf0; by split).
  destruct (built_parents_pass v getEvent event_Hash net hs me (ew_epoch w) (ew_LastEvent w) (ew_Heads w) W8 parents headers sp maxL h Hfound Hall HLam Hc Hsp Hf)
    as (_ & Hlen & _).
  destruct (initialGas_spec net h sp (ew_gas w) (ew_epoch w) W9 (fo_epoch _ _ _ _ _ _ Hf) Hlen) as (g & gs & -> & Egs & Hg).
  rewrite go_bind_Ret. destruct g as [h1|]; [|do 3 eexists; by split]. destruct (Hg h1 eq_refl) as (-> & Hgok & Hgs).
  set (h1 := set_gas h _ _) in *.
  destruct (addTxs_spec addr_Bytes sha256 hash_Of tx_Hash tx_Nonce Hsha Hhash net config rateGas W2 W3 (ew_ring w) (ew_epoch w) now2
             (ew_prevEmittedTime w) v (EventCheck.mkEvent h1 [] []) (ew_pool w) txTime W4 ltac:(intros E; by rewrite E in W6; apply elem_of_nil in W6)
             Hgok Hpast W10) as (chosen & tt & -> & Hchosen & Hgok' & Hmax & _ & Hcalc).
  rewrite go_bind_Ret. cbn [ev_header ev_Sig ev_Transactions app] in *.
  destruct (isAllowedToEmit_returns net config adjusted (ew_intervals w) (ew_ring w) (ew_prevEmittedTime w)
              (EventCheck.mkEvent (spend h1 (gas_of (concat chosen))) [] (concat chosen)) sp) as (b & ->).
  { apply (go_some _ Hgok'). } { intros s ->. destruct (ew_LastEvent w); [|done]. destruct Hsp as [Hs0 _].
    destruct (Forall2_lookup_r _ _ _ _ _ Hall Hs0) as (p & _ & _ & Hk). pose proof (ho_gas _ _ _ _ Hk). by destruct (GasPowerLeft s). }
  rewrite go_bind_Ret. destruct b; cbn [negb]; [|do 3 eexists; by split]. do 3 eexists. split; [done|].
  intros e hd [= <- <-]. cbn [ev_header]. split_and!.
  - change (Parents (set_TxHash (spend h1 (gas_of (concat chosen))) (DeriveSha (concat chosen)))) with (Parents h).
    by rewrite (fo_parents _ _ _ _ _ _ Hf).
  - apply (built_event_passes parents headers sp maxL h gs (concat chosen)); try done. by apply Hcalc.
  - exists chosen. split; [done|]. change (Creator h1) with (Creator h) in Hchosen. by rewrite (fo_creator _ _ _ _ _ _ Hf) in Hchosen.
Qed.
End event.

(** ** An example: the second validator's next event *)

Definition ex_hash_of (l : list bytes) : bytes := toy_sum (mjoin l).
Definition ex_tx (gas : Z) : Transaction := mkTransaction 0 0 gas [] None.
Definition ex_config : EmitterConfig :=
  mkEmitterConfig [49; 46; 48] (mkEmitIntervals 1 100 50 0) 2 1 3 0 0 0.

(** The head 9 is of the first validator; event 6 is the own last event; one
    sender has two transactions, another has one. *)
Definition ex_world : EmitterWorld (A := Z) (C := lrulist hash Z) :=
  mkEmitterWorld 2 (mkEmitIntervals 1 100 50 0) 0 1 ex_validators true (Some (ex_id 6)) [ex_id 9]
    (mkBuffer (toy_ring 2) ∅)
    (mkValidationContext 1 [mkGasConfig 0 (100 * EventGas) (60 * minute) (5 * second) EventGas;
                            mkGasConfig 1 (1000 * EventGas) (10 * minute) (5 * second) EventGas]
       ex_validators ∅ 0 ∅)
    [(5, [ex_tx 21000; ex_tx 21001]); (7, [ex_tx 30000])].

(** An engine that finds every event in frame 1, a minute after the start. *)
Definition ex_prepare (vi : Index ex_T ex_F) (h : EventHeaderData) : go (option EventHeaderData * Index ex_T ex_F) :=
  Ret (Some (set_consensus h 1 false (60 * second) ZeroHash), vi).

Definition ex_unsigned (vi : Index ex_T ex_F) (now : Z) :=
  unsignedEvent (fun a : Z => [a]) toy_sum ex_hash_of (fun tx => [tx_Gas tx]) (fun _ => 0) DefaultDagConfig ex_config
    (fun _ _ => MaxGasPowerUsed) (fun _ mx _ _ => mx) ex_getEvent elements (merge_sort score_le) (fun (r : unit) _ => (0, r))
    ex_prepare (fun txs => toy_sum (tx_Gas <$> txs)) ex_world vi (toy_ring 2) now now false tt.

Definition ex_summary (res : option (FullEvent * list EventHeaderData)) :=
  (fun x : FullEvent * list EventHeaderData =>
     (tx_Gas <$> ev_Transactions x.1, GasPowerUsed (ev_header x.1), GasPowerLeft (ev_header x.1), Parents (ev_header x.1))) <$> res.

(** It has the turn for the transactions of the first sender only. *)
Example ex_emits :
  (vi ← NewIndex ex_cache ex_validators ex_tables;
   '(_, vi) ← exec_all ex_getEvent ex_Hash 100 vi (take 13 ex_ops);
   '(res, _, _) ← ex_unsigned vi 1000;
   Ret (ex_summary res)) = Ret (Some ([21000; 21001], 70001, [41929999; 419929999], [ex_id 6; ex_id 9])).
Proof. vm_compute. reflexivity. Qed.

Lemma ex_Copy : Validators_Copy ex_validators = ex_validators.
Proof. vm_compute. reflexivity. Qed.

Lemma ex_world_ok : world_ok DefaultDagConfig ex_config ex_getEvent ex_Hash ex_connected ex_world.
Proof.
  pose proof ex_validators_ok as Hv. rewrite ex_Copy in Hv. split; try done.
  - apply (bool_decide_unpack _). by vm_compute.
  - intros h Hh. assert (Forall (fun h => exists e, ex_getEvent h = Some e /\ header_ok ex_validators ex_Hash h e) ex_connected) as Hall.
    { repeat constructor; (eexists; split; [by vm_compute|]; split; cbn; try done; try lia; apply (bool_decide_unpack _); by vm_compute). }
    rewrite Forall_forall in Hall. by apply Hall.
  - split.
    + intros p [= <-]. apply (bool_decide_unpack _). by vm_compute.
    + intros p e [= <-] He. vm_compute in He. by injection He as <-.
    + done.
    + intros h Hh. apply list_elem_of_singleton in Hh as ->. apply (bool_decide_unpack _). by vm_compute.
  - split; try done. intros c Hc. cbn in Hc. repeat (apply elem_of_cons in Hc as [->|Hc]; [cbn; lia|]). by apply elem_of_nil in Hc.
  - repeat constructor; cbn; lia.
Qed.

Lemma emitted_event_passes_witness : exists (vi vi' : Index ex_T ex_F) res txTime',
  ex_unsigned vi 1000 = Ret (res, vi', txTime') /\
  forall e headers, res = Some (e, headers) -> passes DefaultDagConfig ex_Hash ex_world e headers.
Proof.
  destruct ex_reached as (vi & saved & Hs). exists vi.
  assert (forall b, length (toy_sum b) = 32%nat) as Hsum by (intros b; apply length_replicate).
  destruct (emitted_event_passes (T := ex_T) (F := ex_F) (fun a : Z => [a]) toy_sum ex_hash_of (fun tx => [tx_Gas tx]) (fun _ => 0) Hsum (fun l => Hsum (mjoin l))
              DefaultDagConfig ex_config (fun _ _ => MaxGasPowerUsed) (fun _ mx _ _ => mx) ex_getEvent ex_Hash elements ltac:(done)
              (merge_sort score_le) (merge_sort_Permutation score_le) (StronglySorted_merge_sort score_le)
              (fun (r : unit) _ => (0, r)) ltac:(intros r n Hn; cbn; lia)
              ex_prepare (fun txs => toy_sum (tx_Gas <$> txs)) ex_connected saved ex_world ex_world_ok) with (vi := vi) (txTime := toy_ring 2)
    (now1 := 1000) (now2 := 1000) (rand := false) (r := tt) as (res & vi' & txTime' & E & Hres).
  - intros vi1 h _ _ _ _. do 2 eexists. split; [done|]. intros h' [= <-]. by do 4 eexists.
  - exact Hs.
  - intros h t Ht. vm_compute in Ht. done.
  - exists vi', res, txTime'. split; [exact E|]. intros e headers He. by destruct (Hres e headers He) as (_ & Hp & _).
Defined.

(** * The emit intervals of an epoch

    The piecewise linear ratios that slow a validator down by the stake of
    those before it. *)

(** ** The emit intervals *)

Lemma floor_sum a b lo hi : lo * 1000000 <= a + b <= hi * 1000000 -> lo - 1 <= a / 1000000 + b / 1000000 <= hi.
Proof. intros Hab. Z.to_euclidean_division_equations; lia. Qed.

Lemma piece_interp (d0 d1 : Dot) x :
  0 <= X d0 <= x -> x <= X d1 <= PercentUnit -> X d0 < X d1 -> 0 <= Y d0 < 2 ^ 32 -> 0 <= Y d1 < 2 ^ 32 ->
  exists r, (ratio ← piece_Div (u64 (x - X d0)) (u64 (X d1 - X d0));
             Ret (u64 (piece_Mul (Y d0) (u64 (PercentUnit - ratio)) + piece_Mul (Y d1) ratio))) = Ret r /\
    Z.min (Y d0) (Y d1) - 1 <= r <= Z.max (Y d0) (Y d1) /\ (x = X d0 -> r = Y d0).
Proof.
  unfold PercentUnit, piece_Div. intros H0 H1 Hlt Hy0 Hy1. rewrite (u64_id (x - X d0)), (u64_id (X d1 - X d0)) by word.
  rewrite (proj2 (Z.eqb_neq _ 0)) by lia. rewrite go_bind_Ret. unfold PercentUnit.
  rewrite (u64_id ((x - X d0) * 1000000)) by word.
  set (q := (x - X d0) * 1000000 / (X d1 - X d0)).
  assert (0 <= q <= 1000000) as Hq by (split; [apply Z.div_pos; lia|apply Z.div_le_upper_bound; lia]).
  assert (x = X d0 -> q = 0) as Hq0 by (intros ->; unfold q; by rewrite Z.sub_diag, Z.div_0_l by lia).
  rewrite (u64_id (1000000 - q)) by word. unfold piece_Mul, PercentUnit.
  assert (0 <= Y d0 * (1000000 - q) <= 2 ^ 32 * 1000000) as B0 by nia. assert (0 <= Y d1 * q <= 2 ^ 32 * 1000000) as B1 by nia.
  rewrite (u64_id (Y d0 * _)), (u64_id (Y d1 * q)) by word.
  set (a := Y d0 * (1000000 - q)) in *. set (b := Y d1 * q) in *.
  assert (Z.min (Y d0) (Y d1) * 1000000 <= a + b <= Z.max (Y d0) (Y d1) * 1000000) as Hab by (subst a b; nia).
  assert (0 <= a / 1000000 <= 2 ^ 32) by (split; [apply Z.div_pos; lia|apply Z.div_le_upper_bound; lia]).
  assert (0 <= b / 1000000 <= 2 ^ 32) by (split; [apply Z.div_pos; lia|apply Z.div_le_upper_bound; lia]).
  eexists. split; [done|]. rewrite u64_id by word. split; [by apply floor_sum|].
  intros Hx. specialize (Hq0 Hx). subst a b. rewrite Hq0, Z.mul_0_r, Z.sub_0_r, Z.div_mul, Z.div_0_l by lia. lia.
Qed.

Lemma confirming_ratio x : 0 <= x <= PercentUnit ->
  exists r, piece_Get x confirmingEmitIntervalPieces = Ret r /\ PercentUnit - 1 <= r <= 3900000 /\ (x = 0 -> r = PercentUnit).
Proof.
  unfold PercentUnit. intros Hx. unfold piece_Get. change (zlen confirmingEmitIntervalPieces) with 6.
  assert (findPiece confirmingEmitIntervalPieces 0 6 x (6 - 2) =
    if x <? 330000 then 0 else if x <? 660000 then 1 else if x <? 800000 then 2 else if x <? 900000 then 3 else 4) as -> by done.
  assert (forall p0 d0 d1, slice_at confirmingEmitIntervalPieces p0 = Ret d0 -> slice_at confirmingEmitIntervalPieces (p0 + 1) = Ret d1 ->
            0 <= X d0 <= x -> x <= X d1 <= PercentUnit -> X d0 < X d1 -> 1000000 <= Y d0 <= 3900000 -> 1000000 <= Y d1 <= 3900000 ->
            (x = 0 -> Y d0 = 1000000) ->
            exists r, (d0 ← slice_at confirmingEmitIntervalPieces p0; d1 ← slice_at confirmingEmitIntervalPieces (p0 + 1);
                       ratio ← piece_Div (u64 (x - X d0)) (u64 (X d1 - X d0));
                       Ret (u64 (piece_Mul (Y d0) (u64 (PercentUnit - ratio)) + piece_Mul (Y d1) ratio))) = Ret r /\
              1000000 - 1 <= r <= 3900000 /\ (x = 0 -> r = 1000000)) as Hp.
  { intros p0 d0 d1 E0 E1 Hd0 Hd1 Hlt Hy0 Hy1 Hz. rewrite E0, go_bind_Ret, E1, go_bind_Ret.
    destruct (piece_interp d0 d1 x) as (r & -> & Hr & H0); try lia. exists r. split; [done|]. split; [lia|].
    intros E. rewrite H0 by lia. by apply Hz. }
  repeat match goal with |- context [x <? ?b] => destruct (Z.ltb_spec x b) end;
    (eapply Hp; [done|done|cbn; unfold PercentUnit; lia..]).
Qed.

Lemma max_ratio x : 0 <= x <= PercentUnit ->
  exists r, piece_Get x maxEmitIntervalPieces = Ret r /\ 889999 <= r <= PercentUnit /\ (x = 0 -> r = PercentUnit).
Proof.
  intros Hx. destruct (piece_interp (mkDot 0 1000000) (mkDot 1000000 890000) x) as (r & E & Hr & H0);
    [unfold PercentUnit in *; cbn; lia..|]. exists r. split; [exact E|]. cbn in *. unfold PercentUnit. split; [lia|done].
Qed.

Lemma stakes_before (l : list Z) myIdx : forall i t b, Forall (fun s => 0 <= s) l -> 0 <= b <= t -> t + zsum l < 2 ^ 64 ->
  foldl (fun (acc : Z * Z) (x : Z * Z) => (u64 (acc.1 + x.2), if x.1 <? myIdx then u64 (acc.2 + x.2) else acc.2)) (t, b)
    (imap (fun j x => (Z.of_nat (i + j), x)) l) = (t + zsum l, b + zsum (take (Z.to_nat myIdx - i) l)).
Proof.
  induction l as [|s l IH]; intros i t b Hpos Hb Hfit; cbn [imap foldl zsum].
  - by rewrite take_nil, !Z.add_0_r.
  - apply Forall_cons in Hpos as [Hs Hpos]. cbn [zsum] in Hfit. pose proof (zsum_nonneg l Hpos). rewrite Nat.add_0_r. cbn [fst snd].
    rewrite !u64_id by word.
    rewrite (imap_ext _ (fun j x => (Z.of_nat (S i + j), x))) by (intros j y _; unfold compose; by rewrite Nat.add_succ_r).
    destruct (Z.ltb_spec (Z.of_nat i) myIdx) as [Hlt|Hge].
    + rewrite IH by (done || lia). replace (Z.to_nat myIdx - i)%nat with (S (Z.to_nat myIdx - S i))%nat by lia. cbn [take zsum]. f_equal; lia.
    + rewrite IH by (done || lia). replace (Z.to_nat myIdx - i)%nat with O by lia. replace (Z.to_nat myIdx - S i)%nat with O by lia. cbn. f_equal; lia.
Qed.

Lemma zsum_take_le (l : list Z) n : Forall (fun s => 0 <= s) l -> 0 <= zsum (take n l) <= zsum l.
Proof.
  intros Hl. revert n. induction Hl as [|s l Hs Hl IH]; intros n; [by rewrite take_nil|]. pose proof (zsum_nonneg l Hl).
  destruct n; cbn; [lia|]. specialize (IH n). lia.
Qed.

(** Smaller validators confirm less often and never go silent.  At a new
    epoch the computation of the emit intervals does not divide by zero, index
    out of range or wrap: the maximal interval becomes between 0.889999 and 1
    of the configured one, the confirming interval between 0.999999 and 3.9 of
    it, the others stay; and the validator with the most stake keeps the
    configured intervals. *)
Theorem emit_intervals_scaled (config : EmitterConfig) (vv : Validators) (me : Z) (intervals : EmitIntervals) :
  validators_ok vv -> Validators_SortedIDs vv <> [] -> Validators_TotalStake vv * PercentUnit < 2 ^ 64 ->
  0 <= ei_Max (ec_EmitIntervals config) < 2 ^ 40 -> 0 <= ei_Confirming (ec_EmitIntervals config) < 2 ^ 40 ->
  exists mr cr, 889999 <= mr <= PercentUnit /\ PercentUnit - 1 <= cr <= 3900000 /\
    epochIntervals config vv me intervals =
      Ret (mkEmitIntervals (ei_Min intervals) (ei_Max (ec_EmitIntervals config) * mr / PercentUnit)
             (ei_Confirming (ec_EmitIntervals config) * cr / PercentUnit) (ei_SelfForkProtection intervals)) /\
    (Validators_GetIdx vv me = 0 -> mr = PercentUnit /\ cr = PercentUnit).
Proof.
  intros Hvv Hne Hfit Hmax Hconf. assert (Forall (fun s => 0 <= s) (Validators_SortedStakes vv)) as Hpos
    by (eapply Forall_impl; [exact (vo_pos _ Hvv)|intros s ?; simpl in *; lia]).
  assert (0 < Validators_TotalStake vv) as Ht.
  { rewrite (vo_total _ Hvv). pose proof (vo_pos _ Hvv) as Hp. pose proof (vo_len _ Hvv) as Hl.
    destruct (Validators_SortedStakes vv) as [|s l]; [by destruct (Validators_SortedIDs vv)|]. apply Forall_cons in Hp as [Hs _].
    apply Forall_cons in Hpos as [_ Hl0]. pose proof (zsum_nonneg l Hl0). cbn. lia. }
  unfold epochIntervals, enumerate. pose proof (stakes_before _ (Validators_GetIdx vv me) 0 0 0 Hpos ltac:(lia)) as Hsum.
  change (fun (j : nat) (x : Z) => (Z.of_nat (0 + j), x)) with (fun (j : nat) (x : Z) => (Z.of_nat j, x)) in Hsum.
  rewrite Hsum by (rewrite <-(vo_total _ Hvv); unfold PercentUnit in *; lia). clear Hsum.
  rewrite !Z.add_0_l, <-(vo_total _ Hvv), Nat.sub_0_r, (proj2 (Z.eqb_neq _ 0)) by lia.
  set (b := zsum _). assert (0 <= b <= Validators_TotalStake vv) as Hb by (rewrite (vo_total _ Hvv); by apply zsum_take_le).
  rewrite (u64_id (b * PercentUnit)) by (unfold PercentUnit in *; word).
  assert (0 <= b * PercentUnit / Validators_TotalStake vv <= PercentUnit) as Hx
    by (unfold PercentUnit; split; [apply Z.div_pos; lia|apply Z.div_le_upper_bound; nia]).
  destruct (confirming_ratio _ Hx) as (cr & -> & Hcr & C0). destruct (max_ratio _ Hx) as (mr & -> & Hmr & M0). rewrite !go_bind_Ret.
  exists mr, cr. split_and!; try lia.
  - assert (forall a r, 0 <= a < 2 ^ 40 -> 0 <= r <= 3900000 -> i64 (piece_Mul (u64 a) r) = a * r / PercentUnit) as Hs.
    { intros a r Ha Hr. rewrite (u64_id a) by word. unfold piece_Mul, PercentUnit. assert (0 <= a * r < 2 ^ 40 * 3900001) by nia.
      rewrite (u64_id (a * r)) by word. assert (0 <= a * r / 1000000 < 2 ^ 50) by (split; [apply Z.div_pos; lia|apply Z.div_lt_upper_bound; lia]).
      word. }
    unfold PercentUnit in *. by rewrite !Hs by lia.
  - intros E. assert (b = 0) as -> by (subst b; by rewrite E). rewrite Z.mul_0_l, Z.div_0_l in * by lia. by split; [apply M0|apply C0].
Qed.

Lemma emit_intervals_scaled_witness : exists mr cr, 889999 <= mr <= PercentUnit /\ PercentUnit - 1 <= cr <= 3900000 /\
  epochIntervals ex_config ex_validators 3 (mkEmitIntervals 1 100 50 7) =
    Ret (mkEmitIntervals 1 (100 * mr / PercentUnit) (50 * cr / PercentUnit) 7).
Proof.
  pose proof ex_validators_ok as Hv. rewrite ex_Copy in Hv.
  destruct (emit_intervals_scaled ex_config ex_validators 3 (mkEmitIntervals 1 100 50 7) Hv) as (mr & cr & Hm & Hc & E & _);
    [done|vm_compute; done|cbn; lia|cbn; lia|]. exists mr, cr. exact (conj Hm (conj Hc E)).
Defined.

Example third_of_four : epochIntervals ex_config ex_validators 3 (mkEmitIntervals 1 100 50 7) = Ret (mkEmitIntervals 1 94 56 7).
Proof. vm_compute. reflexivity. Qed.
