(* ===== verification/SfcStore.v ===== *)
(** * Stored objects behind pointer caches: app/store_sfc_stakers.go, app/store_sfc_delegators.go

    The application keeps stakers and delegators in tables of RLP records with
    LRU caches that hold pointers, so that a change of an object through one
    pointer is seen through every other one.  The interface [ObjStore] is what
    the handlers of the contract's logs use; [PtrStore] is the code: a heap of
    objects, the tables, and the two caches.  The laws say that the store
    behaves as plain maps; they hold as long as no pointer is in both caches. *)

From S2P Require Import Prelude VecStore EventBuffer.

(** ** The interface *)

Class ObjStore (K V P S : Type) := {
  os_Get : S -> K -> option P * S;
  os_Read : S -> P -> V;
  os_Write : S -> P -> V -> P * S;       (* the fields of an object are assigned *)
  os_New : S -> V -> P * S;              (* a pointer to a new object *)
  os_Set : S -> K -> P -> S;
  os_Del : S -> K -> S;
  os_All : S -> list (K * P) * S;        (* decoded anew, in the order of the keys *)
  os_SetSnap : S -> Z -> list (K * P) -> S;
  os_GetSnap : S -> Z -> list (K * P) * S;
  os_HasSnap : S -> Z -> K -> bool
}.

Section sorted.
Context {K V : Type} `{Countable K} (le : relation K) `{!RelDecision le}.

Definition entry_le (a b : K * V) : Prop := le a.1 b.1.
#[export] Instance entry_le_dec : RelDecision entry_le.
Proof. intros a b. unfold entry_le. apply _. Defined.

(** The entries of a map in the order of their keys. *)
Definition sorted_entries (m : gmap K V) : list (K * V) := merge_sort entry_le (map_to_list m).

Context `{!Total le, !Transitive le, !AntiSymm (=) le}.

#[local] Instance entry_le_total : Total entry_le.
Proof. intros a b. apply (total le). Qed.
#[local] Instance entry_le_trans : Transitive entry_le.
Proof. intros a b c. apply (transitivity (R := le)). Qed.

Lemma obj_sorted_entries_perm m : sorted_entries m ≡ₚ map_to_list m.
Proof. apply merge_sort_Permutation. Qed.

Lemma obj_sorted_entries_nodup m : NoDup (sorted_entries m).*1.
Proof. rewrite obj_sorted_entries_perm. apply NoDup_fst_map_to_list. Qed.

Lemma obj_elem_of_sorted_entries m k v : (k, v) ∈ sorted_entries m <-> m !! k = Some v.
Proof. rewrite obj_sorted_entries_perm. apply elem_of_map_to_list. Qed.

Lemma sorted_entries_sorted m : StronglySorted entry_le (sorted_entries m).
Proof. apply (StronglySorted_merge_sort entry_le). Qed.

Lemma sublist_sorted (l k : list (K * V)) : k `sublist_of` l -> StronglySorted entry_le l -> StronglySorted entry_le k.
Proof.
  induction 1 as [|x k l Hs IH|x k l Hs IH]; intros Hl; [done|..]; apply StronglySorted_inv in Hl as [Hl Hx]; [|by apply IH].
  constructor; [by apply IH|]. rewrite Forall_forall in *. intros y Hy. apply Hx. by eapply sublist_subseteq.
Qed.

(** Two sorted lists of entries with the same content are the same. *)
Lemma sorted_unique (l k : list (K * V)) :
  StronglySorted entry_le l -> StronglySorted entry_le k -> NoDup l.*1 -> l ≡ₚ k -> l = k.
Proof.
  revert k. induction l as [|x l IH]; intros k Hl Hk Hn Hp; [by apply Permutation_nil_l in Hp|].
  destruct k as [|y k]; [by apply Permutation_nil_r in Hp|]. cbn in Hn. apply NoDup_cons in Hn as [Hx Hn].
  apply StronglySorted_inv in Hl as [Hl Hlx]. apply StronglySorted_inv in Hk as [Hk Hky].
  rewrite Forall_forall in Hlx, Hky. assert (x = y) as <-.
  { assert (y ∈ x :: l) as [->|Hy]%elem_of_cons by (rewrite Hp; by left); [done|].
    assert (x ∈ y :: k) as [->|Hxk]%elem_of_cons by (rewrite <-Hp; by left); [done|].
    exfalso. apply Hx. assert (x.1 = y.1) as -> by (apply (anti_symm le); [by apply Hlx|by apply Hky]).
    by apply list_elem_of_fmap_2. }
  f_equal. apply IH; [done..|]. by apply (Permutation_cons_inv (a := x)).
Qed.
End sorted.

(** What a store promises, given the contents [m] of its table and the
    snapshots [sn] of past and future epochs; [own s ps] says that the objects
    behind [ps] are reachable through no cache. *)
Class ObjStoreLaws (K V P S : Type) `{ObjStore K V P S} `{Countable K} (le : relation K) `{!RelDecision le}
    (rep : S -> gmap K V -> (Z -> list (K * V)) -> Prop) (own : S -> list P -> Prop) : Prop := {
  os_get (s : S) m sn k : rep s m sn ->
    exists r s', os_Get s k = (r, s') /\ rep s' m sn /\
      match m !! k with
      | None => r = None
      | Some v => exists p, r = Some p /\ os_Read s' p = v /\
          forall v' : V, exists p' s2, os_Write s' p v' = (p', s2) /\ rep (os_Set s2 k p') (<[k := v']> m) sn /\
            os_Read (os_Set s2 k p') p' = v'
      end;
  os_new (s : S) m sn k (v : V) : rep s m sn ->
    exists p s2, os_New s v = (p, s2) /\ rep (os_Set s2 k p) (<[k := v]> m) sn;
  os_del (s : S) m sn k : rep s m sn -> rep (os_Del s k) (delete k m) sn;
  os_all (s : S) m sn : rep s m sn ->
    exists l s', os_All s = (l, s') /\ rep s' m sn /\ own s' l.*2 /\ prod_map id (os_Read s') <$> l = sorted_entries le m;
  os_own_sub (s : S) (ps qs : list P) : qs `sublist_of` ps -> own s ps -> own s qs;
  os_own_set (s : S) m sn k p (ps : list P) (v : V) : rep s m sn -> own s (p :: ps) ->
    exists p' s2, os_Write s p v = (p', s2) /\ rep (os_Set s2 k p') (<[k := v]> m) sn /\ own (os_Set s2 k p') ps /\
      os_Read (os_Set s2 k p') p' = v /\ forall q, q ∈ ps -> os_Read (os_Set s2 k p') q = os_Read s q;
  os_set_snap (s : S) m sn e (l : list (K * P)) : rep s m sn -> own s l.*2 -> sn e = [] -> NoDup l.*1 ->
    StronglySorted (entry_le le) (prod_map id (os_Read s) <$> l) ->
    rep (os_SetSnap s e l) m (fun e' => if decide (e' = e) then prod_map id (os_Read s) <$> l else sn e');
  os_get_snap (s : S) m sn e : rep s m sn ->
    exists l s', os_GetSnap s e = (l, s') /\ rep s' m sn /\ prod_map id (os_Read s') <$> l = sn e;
  os_has_snap (s : S) m sn e k : rep s m sn -> os_HasSnap s e k = bool_decide (k ∈ (sn e).*1)
}.

(** ** The code: tables and caches of pointers *)

Record PtrStore (K V C CV : Type) `{Countable K} := mkPtrStore {
  ps_heap : list V;                 (* a pointer is an index *)
  ps_table : gmap K V;
  ps_cache : C;
  ps_snaps : gmap (Z * K) V;
  ps_snapCache : CV
}.
Arguments mkPtrStore {K V C CV _ _} _ _ _ _ _.
Arguments ps_heap {K V C CV _ _} _.
Arguments ps_table {K V C CV _ _} _.
Arguments ps_cache {K V C CV _ _} _.
Arguments ps_snaps {K V C CV _ _} _.
Arguments ps_snapCache {K V C CV _ _} _.

Section ptr.
Context {K V C CV : Type} `{Countable K} `{Inhabited V} `{LruKeys K nat C} `{Lru Z (list (K * nat)) CV}.
Context (le : relation K) `{!RelDecision le}.
Abbreviation Store := (PtrStore K V C CV).
Implicit Types (s : Store) (k : K) (v : V) (p : nat) (e : Z).

Definition ps_Read s p : V := default inhabitant (ps_heap s !! p).
Definition ps_Write s p v : nat * Store :=
  (p, mkPtrStore (<[p := v]> (ps_heap s)) (ps_table s) (ps_cache s) (ps_snaps s) (ps_snapCache s)).
Definition ps_New s v : nat * Store :=
  (length (ps_heap s), mkPtrStore (ps_heap s ++ [v]) (ps_table s) (ps_cache s) (ps_snaps s) (ps_snapCache s)).

(** GetSfcStaker, GetSfcDelegator *)
Definition ps_Get s k : option nat * Store :=
  match lru_peek (ps_cache s) k with
  | Some p => (Some p, mkPtrStore (ps_heap s) (ps_table s) (lru_touch (ps_cache s) k) (ps_snaps s) (ps_snapCache s))
  | None =>
      match ps_table s !! k with
      | None => (None, s)
      | Some v =>
          let '(p, s) := ps_New s v in
          (Some p, mkPtrStore (ps_heap s) (ps_table s) (lru_Add (ps_cache s) k p) (ps_snaps s) (ps_snapCache s))
      end
  end.

(** SetSfcStaker, SetSfcDelegator *)
Definition ps_Set s k p : Store :=
  mkPtrStore (ps_heap s) (<[k := ps_Read s p]> (ps_table s)) (lru_Add (ps_cache s) k p) (ps_snaps s) (ps_snapCache s).

(** DelSfcStaker, DelSfcDelegator *)
Definition ps_Del s k : Store :=
  mkPtrStore (ps_heap s) (delete k (ps_table s)) (lru_Remove (ps_cache s) k) (ps_snaps s) (ps_snapCache s).

(** The iterator decodes every record into a new object. *)
Definition ps_decode s (entries : list (K * V)) : list (K * nat) * Store :=
  (zip entries.*1 (seq (length (ps_heap s)) (length entries)),
   mkPtrStore (ps_heap s ++ entries.*2) (ps_table s) (ps_cache s) (ps_snaps s) (ps_snapCache s)).

(** GetSfcStakers *)
Definition ps_All s : list (K * nat) * Store := ps_decode s (sorted_entries le (ps_table s)).

(** SetEpochValidators *)
Definition ps_SetSnap s e (vv : list (K * nat)) : Store :=
  mkPtrStore (ps_heap s) (ps_table s) (ps_cache s)
    (foldl (fun t (x : K * nat) => <[(e, x.1) := ps_Read s x.2]> t) (ps_snaps s) vv) (lru_Add (ps_snapCache s) e vv).

(** The records whose keys start with the epoch. *)
Definition with_epoch (t : gmap (Z * K) V) e : gmap K V :=
  list_to_map ((fun x : Z * K * V => (x.1.2, x.2)) <$> filter (fun x : Z * K * V => x.1.1 = e) (map_to_list t)).

(** GetEpochValidators *)
Definition ps_GetSnap s e : list (K * nat) * Store :=
  match lru_peek (ps_snapCache s) e with
  | Some vv => (vv, mkPtrStore (ps_heap s) (ps_table s) (ps_cache s) (ps_snaps s) (lru_touch (ps_snapCache s) e))
  | None =>
      let '(vv, s) := ps_decode s (sorted_entries le (with_epoch (ps_snaps s) e)) in
      (vv, mkPtrStore (ps_heap s) (ps_table s) (ps_cache s) (ps_snaps s) (lru_Add (ps_snapCache s) e vv))
  end.

(** HasEpochValidator *)
Definition ps_HasSnap s e k : bool := bool_decide (is_Some (ps_snaps s !! (e, k))).

#[export] Instance ptr_store : ObjStore K V nat Store := {|
  os_Get := ps_Get; os_Read := ps_Read; os_Write := ps_Write; os_New := ps_New; os_Set := ps_Set; os_Del := ps_Del;
  os_All := ps_All; os_SetSnap := ps_SetSnap; os_GetSnap := ps_GetSnap; os_HasSnap := ps_HasSnap
|}.

(** A process that starts over the same tables has empty caches. *)
Definition restarted (c : C) (cv : CV) s : Store := mkPtrStore [] (ps_table s) c (ps_snaps s) cv.

(** ** The code behaves as plain maps *)

Context `{!Total le, !Transitive le, !AntiSymm (=) le}.
Context `{!LruKeysLaws K nat C} `{!LruLaws Z (list (K * nat)) CV}.

Definition valid s p : Prop := (p < length (ps_heap s))%nat.
Definition cached s p : Prop := exists k, lru_peek (ps_cache s) k = Some p.
Definition snapped s p : Prop := exists e l, lru_peek (ps_snapCache s) e = Some l /\ p ∈ l.*2.

(** Both caches are coherent with the tables and share no pointer. *)
Record ptr_rep s (m : gmap K V) (sn : Z -> list (K * V)) : Prop := {
  pr_table : ps_table s = m;
  pr_cache k p : lru_peek (ps_cache s) k = Some p -> ps_heap s !! p = m !! k /\ valid s p;
  pr_inj k k' p : lru_peek (ps_cache s) k = Some p -> lru_peek (ps_cache s) k' = Some p -> k = k';
  pr_snaps e k v : ps_snaps s !! (e, k) = Some v <-> (k, v) ∈ sn e;
  pr_sorted e : NoDup (sn e).*1 /\ StronglySorted (entry_le le) (sn e);
  pr_snapCache e l : lru_peek (ps_snapCache s) e = Some l ->
    l.*1 = (sn e).*1 /\ (fun p => ps_heap s !! p) <$> l.*2 = Some <$> (sn e).*2;
  pr_apart p : cached s p -> ~ snapped s p
}.

Definition ptr_own s (ps : list nat) : Prop :=
  NoDup ps /\ forall p, p ∈ ps -> valid s p /\ ~ cached s p /\ ~ snapped s p.

Lemma ps_Read_lookup s p v : ps_heap s !! p = Some v -> ps_Read s p = v.
Proof. unfold ps_Read. by intros ->. Qed.

Lemma snap_valid s m sn p : ptr_rep s m sn -> snapped s p -> valid s p.
Proof.
  intros Hr (e & l & Hl & Hp). destruct (pr_snapCache _ _ _ Hr e l Hl) as [_ Hh]. apply list_elem_of_lookup_1 in Hp as [i Hi].
  assert (((fun p => ps_heap s !! p) <$> l.*2) !! i = Some (ps_heap s !! p)) as E by (by rewrite list_lookup_fmap, Hi).
  rewrite Hh, list_lookup_fmap in E. destruct ((sn e).*2 !! i) as [v|]; [|done]. cbn in E. injection E as E.
  unfold valid. by apply (lookup_lt_Some _ _ v).
Qed.

Lemma cache_add s k p k' q : lru_peek (lru_Add (ps_cache s) k p) k' = Some q ->
  (k' = k /\ q = p) \/ (k' <> k /\ lru_peek (ps_cache s) k' = Some q).
Proof.
  intros Hp. destruct (decide (k' = k)) as [->|Hne]; [left|right]; split; try done.
  - by apply law_add_same in Hp.
  - by apply law_add_other in Hp.
Qed.

(** The heap may grow, and objects that no cache knows may change. *)
Lemma rep_heap s m sn h : ptr_rep s m sn -> (forall p, cached s p \/ snapped s p -> h !! p = ps_heap s !! p) ->
  ptr_rep (mkPtrStore h (ps_table s) (ps_cache s) (ps_snaps s) (ps_snapCache s)) m sn.
Proof.
  intros Hr Hh. pose proof Hr as [R1 R2 R3 R4 R5 R6 R7]. split; cbn; try done.
  - intros k p Hp. destruct (R2 k p Hp) as [E Hv]. rewrite Hh by (left; by exists k). split; [done|].
    unfold valid in *. cbn. apply lookup_lt_is_Some. rewrite Hh by (left; by exists k). by apply lookup_lt_is_Some.
  - intros e l Hl. destruct (R6 e l Hl) as [E1 E2]. split; [done|]. rewrite <-E2. apply list_fmap_ext. intros i p Hp.
    apply Hh. right. exists e, l. split; [done|]. by eapply list_elem_of_lookup_2.
Qed.

Lemma rep_touch s m sn c' : ptr_rep s m sn -> (forall k, lru_peek c' k = lru_peek (ps_cache s) k) ->
  ptr_rep (mkPtrStore (ps_heap s) (ps_table s) c' (ps_snaps s) (ps_snapCache s)) m sn.
Proof.
  intros [R1 R2 R3 R4 R5 R6 R7] Hc. split; cbn; try done.
  - intros k p. rewrite Hc. apply R2.
  - intros k k' p. rewrite !Hc. apply R3.
  - intros p (k & Hk). cbn in Hk. rewrite Hc in Hk. apply R7. by exists k.
Qed.

(** Assigning an object that only the cache entry of [k] may know, and saving
    it under [k]. *)
Lemma rep_set s m sn k p v : ptr_rep s m sn -> valid s p -> ~ snapped s p ->
  (forall k', lru_peek (ps_cache s) k' = Some p -> k' = k) ->
  ptr_rep (ps_Set (ps_Write s p v).2 k p) (<[k := v]> m) sn /\ ps_Read (ps_Set (ps_Write s p v).2 k p) p = v.
Proof.
  intros [R1 R2 R3 R4 R5 R6 R7] Hv Hsn Hc. assert (<[p := v]> (ps_heap s) !! p = Some v) as Hp by (by apply list_lookup_insert_eq).
  split; [|by apply ps_Read_lookup]. unfold ps_Set, ps_Write. cbn [fst snd]. split; cbn; try done.
  - rewrite R1. f_equal. by apply (ps_Read_lookup (mkPtrStore _ _ _ _ _)).
  - intros k' q Hq. apply cache_add in Hq as [[-> ->]|[Hne Hq]]; cbn in *.
    + rewrite lookup_insert_eq. split; [done|]. unfold valid. cbn. by rewrite length_insert.
    + rewrite lookup_insert_ne by done. destruct (R2 k' q Hq) as [E Hq']. assert (p <> q) by (intros ->; by destruct (Hne (Hc _ Hq))).
      rewrite list_lookup_insert_ne by done. split; [done|]. unfold valid in *. cbn. by rewrite length_insert.
  - intros k1 k2 q H1' H2'. apply cache_add in H1' as [[-> ->]|[Hn1 H1']], H2' as [[-> E]|[Hn2 H2']]; cbn in *; try done.
    + by rewrite (Hc _ H2').
    + subst q. by rewrite (Hc _ H1').
    + by eapply R3.
  - intros e l Hl. destruct (R6 e l Hl) as [E1 E2]. split; [done|]. rewrite <-E2. apply list_fmap_ext. intros i q Hq.
    apply list_lookup_insert_ne. intros ->. apply Hsn. exists e, l. split; [done|]. by eapply list_elem_of_lookup_2.
  - intros q (k' & Hk'). cbn in Hk'. intros (e & l & Hl & Hq). cbn in Hl.
    apply cache_add in Hk' as [[-> ->]|[_ Hk']]; cbn in *; [apply Hsn|apply (R7 q); [by exists k'|]]; by exists e, l.
Qed.

Lemma rep_add s m sn k p : ptr_rep s m sn -> ps_heap s !! p = m !! k -> valid s p -> ~ snapped s p ->
  (forall k', lru_peek (ps_cache s) k' = Some p -> k' = k) ->
  ptr_rep (mkPtrStore (ps_heap s) (ps_table s) (lru_Add (ps_cache s) k p) (ps_snaps s) (ps_snapCache s)) m sn.
Proof.
  intros [R1 R2 R3 R4 R5 R6 R7] Hp Hv Hsn Hc. split; cbn; try done.
  - intros k' q Hq. apply cache_add in Hq as [[-> ->]|[Hne Hq]]; cbn in *; [done|by apply R2].
  - intros k1 k2 q H1' H2'. apply cache_add in H1' as [[-> ->]|[Hn1 H1']], H2' as [[-> E]|[Hn2 H2']]; cbn in *; try done.
    + by rewrite (Hc _ H2').
    + subst q. by rewrite (Hc _ H1').
    + by eapply R3.
  - intros q (k' & Hk'). cbn in Hk'. apply cache_add in Hk' as [[-> ->]|[_ Hk']]; cbn in *; [done|apply R7; by exists k'].
Qed.

Lemma cached_valid s m sn p : ptr_rep s m sn -> cached s p -> valid s p.
Proof. intros Hr (k & Hk). by destruct (pr_cache _ _ _ Hr k p Hk). Qed.

(** New objects at the end of the heap are reachable through no cache. *)
Lemma rep_grow s m sn vs : ptr_rep s m sn ->
  let s' := mkPtrStore (ps_heap s ++ vs) (ps_table s) (ps_cache s) (ps_snaps s) (ps_snapCache s) in
  ptr_rep s' m sn /\ ptr_own s' (seq (length (ps_heap s)) (length vs)).
Proof.
  intros Hr. split.
  - apply rep_heap; [done|]. intros p [Hp|Hp]; apply lookup_app_l; [by eapply cached_valid|by eapply snap_valid].
  - split; [apply NoDup_seq|]. intros p Hp%elem_of_seq. split_and!.
    + unfold valid. cbn. rewrite length_app. lia.
    + intros Hc. apply (cached_valid s m sn) in Hc; [|done]. unfold valid in Hc. lia.
    + intros Hc. apply (snap_valid s m sn) in Hc; [|done]. unfold valid in Hc. lia.
Qed.

Lemma Read_grow s vs (p : nat) : valid s p ->
  ps_Read (mkPtrStore (ps_heap s ++ vs) (ps_table s) (ps_cache s) (ps_snaps s) (ps_snapCache s)) p = ps_Read s p.
Proof. intros Hp. unfold ps_Read. cbn. by rewrite lookup_app_l. Qed.

(** What the iterator returns. *)
Lemma decode_spec s m sn entries : ptr_rep s m sn ->
  exists l s', ps_decode s entries = (l, s') /\ ptr_rep s' m sn /\ ptr_own s' l.*2 /\ prod_map id (ps_Read s') <$> l = entries /\
    l.*1 = entries.*1 /\ ps_snapCache s' = ps_snapCache s /\ (fun p => ps_heap s' !! p) <$> l.*2 = Some <$> entries.*2.
Proof.
  intros Hr. unfold ps_decode. set (n := length (ps_heap s)). set (ptrs := seq n (length entries)).
  destruct (rep_grow s m sn entries.*2 Hr) as [Hr' Ho]. rewrite length_fmap in Ho. fold n ptrs in Ho.
  assert (length entries.*1 = length ptrs) as Hlen by (unfold ptrs; by rewrite length_fmap, length_seq).
  do 2 eexists. split; [done|]. split; [exact Hr'|].
  assert ((fun p => (ps_heap s ++ entries.*2) !! p) <$> ptrs = Some <$> entries.*2) as Hh.
  { apply list_eq. intros i. rewrite !list_lookup_fmap. unfold ptrs. destruct (decide (i < length entries)%nat) as [Hi|Hi].
    - rewrite lookup_seq_lt by done. cbn. rewrite lookup_app_r by (subst n; lia). replace (n + i - length (ps_heap s))%nat with i by (subst n; lia).
      rewrite list_lookup_fmap. apply lookup_lt_is_Some in Hi as [x ->]. done.
    - rewrite lookup_seq_ge by lia. by rewrite (lookup_ge_None_2 entries) by lia. }
  rewrite snd_zip, fst_zip by lia. split; [exact Ho|]. split; [|by split_and!].
  apply list_eq. intros i. rewrite list_lookup_fmap. destruct (entries !! i) as [[k v]|] eqn:Ei.
  - assert (ptrs !! i = Some (n + i)%nat) as Ep by (apply lookup_seq_lt; by apply lookup_lt_Some in Ei).
    assert (zip entries.*1 ptrs !! i = Some (k, (n + i)%nat)) as ->.
    { apply lookup_zip_with_Some. exists k, (n + i)%nat. split_and!; [done| |done]. by rewrite list_lookup_fmap, Ei. }
    cbn. unfold prod_map. cbn. do 2 f_equal. apply ps_Read_lookup. cbn.
    assert (((fun p => (ps_heap s ++ entries.*2) !! p) <$> ptrs) !! i = Some (Some v)) as E by (by rewrite Hh, !list_lookup_fmap, Ei).
    rewrite list_lookup_fmap, Ep in E. by injection E.
  - apply fmap_None, lookup_ge_None. apply lookup_ge_None in Ei. rewrite length_zip_with, length_fmap. lia.
Qed.

Lemma own_sub s ps qs : qs `sublist_of` ps -> ptr_own s ps -> ptr_own s qs.
Proof.
  intros Hs [Hn Ho]. split; [by eapply sublist_NoDup|]. intros p Hp. apply Ho. by eapply sublist_subseteq.
Qed.

Lemma get_spec s m sn k : ptr_rep s m sn ->
  exists r s', ps_Get s k = (r, s') /\ ptr_rep s' m sn /\
    match m !! k with
    | None => r = None
    | Some v => exists p, r = Some p /\ ps_Read s' p = v /\ valid s' p /\ ~ snapped s' p /\
        forall k', lru_peek (ps_cache s') k' = Some p -> k' = k
    end.
Proof.
  intros Hr. unfold ps_Get. destruct (lru_peek (ps_cache s) k) as [p|] eqn:Ep.
  - do 2 eexists. split; [done|]. assert (forall k', lru_peek (lru_touch (ps_cache s) k) k' = lru_peek (ps_cache s) k') as Ht
      by (intros k'; apply law_touch). split; [by apply rep_touch|].
    destruct (pr_cache _ _ _ Hr k p Ep) as [Eh Hv]. destruct (m !! k) as [v|] eqn:Em.
    + exists p. split_and!; [done|by apply ps_Read_lookup|exact Hv| |].
      * intros (e & l & Hl). eapply (pr_apart _ _ _ Hr p); [by exists k|by exists e, l].
      * intros k'. cbn. rewrite Ht. intros Hk'. by eapply (pr_inj _ _ _ Hr).
    + apply lookup_ge_None in Eh. unfold valid in Hv. lia.
  - rewrite <-(pr_table _ _ _ Hr). destruct (ps_table s !! k) as [v|] eqn:Em; [|by exists None, s; rewrite (pr_table _ _ _ Hr)].
    unfold ps_New. set (p := length (ps_heap s)). destruct (rep_grow s m sn [v] Hr) as [Hr' Ho].
    set (s1 := mkPtrStore (ps_heap s ++ [v]) (ps_table s) (ps_cache s) (ps_snaps s) (ps_snapCache s)) in *.
    destruct Ho as [_ Ho]. destruct (Ho p) as (Hv & Hc & Hsn); [by left|].
    assert (ps_heap s1 !! p = Some v) as Ep' by (cbn; by apply list_lookup_middle).
    do 2 eexists. split; [done|]. rewrite (pr_table _ _ _ Hr) in *. split.
    + apply (rep_add s1); [done| |done|done|]; [by rewrite Ep', Em|]. intros k' Hk'. destruct Hc. by exists k'.
    + exists p. split_and!; [done|by apply ps_Read_lookup|exact Hv|exact Hsn|]. intros k' Hk'.
      apply (cache_add s1) in Hk' as [[-> _]|[_ Hk']]; [done|]. destruct Hc. by exists k'.
Qed.

Lemma with_epoch_lookup (t : gmap (Z * K) V) e k : with_epoch t e !! k = t !! (e, k).
Proof.
  unfold with_epoch. set (l := filter _ _).
  assert (forall v, (k, v) ∈ (fun x : Z * K * V => (x.1.2, x.2)) <$> l <-> t !! (e, k) = Some v) as Hin.
  { intros v. rewrite list_elem_of_fmap. split.
    - intros ([[e' k'] v'] & [= -> ->] & [He Hx]%list_elem_of_filter). cbn in He. subst e'. by apply elem_of_map_to_list.
    - intros Hk. exists (e, k, v). split; [done|]. apply list_elem_of_filter. split; [done|]. by apply elem_of_map_to_list. }
  assert (NoDup ((fun x : Z * K * V => (x.1.2, x.2)) <$> l).*1) as Hnd.
  { rewrite <-list_fmap_compose. apply NoDup_fmap_2_strong; [|apply NoDup_filter, NoDup_map_to_list].
    intros [[e1 k1] v1] [[e2 k2] v2] [E1 H1']%list_elem_of_filter [E2 H2']%list_elem_of_filter Hk. cbn in *. subst.
    apply elem_of_map_to_list in H1', H2'. congruence. }
  destruct (t !! (e, k)) as [v|] eqn:Et.
  - apply elem_of_list_to_map; [done|]. by apply Hin.
  - apply not_elem_of_list_to_map. intros ([k' v] & Ek & Hx)%list_elem_of_fmap. cbn in Ek. subst k'. apply Hin in Hx. congruence.
Qed.

Lemma snaps_sorted s m sn e : ptr_rep s m sn -> sorted_entries le (with_epoch (ps_snaps s) e) = sn e.
Proof.
  intros Hr. destruct (pr_sorted _ _ _ Hr e) as [Hnd Hs]. apply (sorted_unique le); [|exact Hs|by apply obj_sorted_entries_nodup|].
  - by apply sorted_entries_sorted.
  - apply NoDup_Permutation; [eapply NoDup_fmap_1, obj_sorted_entries_nodup; done|by eapply NoDup_fmap_1|]. intros [k v].
    rewrite obj_elem_of_sorted_entries, with_epoch_lookup. apply (pr_snaps _ _ _ Hr).
Qed.

Lemma rep_snapCache s m sn e l cv : ptr_rep s m sn -> l.*1 = (sn e).*1 ->
  (fun p => ps_heap s !! p) <$> l.*2 = Some <$> (sn e).*2 -> (forall p, p ∈ l.*2 -> ~ cached s p) ->
  (forall e' l', lru_peek cv e' = Some l' -> (e' = e /\ l' = l) \/ lru_peek (ps_snapCache s) e' = Some l') ->
  ptr_rep (mkPtrStore (ps_heap s) (ps_table s) (ps_cache s) (ps_snaps s) cv) m sn.
Proof.
  intros [R1 R2 R3 R4 R5 R6 R7] Hk Hh Ho Hcv. split; cbn; try done.
  - intros e' l' Hl'. apply Hcv in Hl' as [[-> ->]|Hl']; [done|by apply R6].
  - intros p Hp (e' & l' & Hl' & Hin). cbn in Hl'. apply Hcv in Hl' as [[-> ->]|Hl']; [by apply (Ho p)|]. apply (R7 p Hp). by exists e', l'.
Qed.

Lemma snap_add s e l cv : cv = lru_Add (ps_snapCache s) e l ->
  forall e' l', lru_peek cv e' = Some l' -> (e' = e /\ l' = l) \/ (e' <> e /\ lru_peek (ps_snapCache s) e' = Some l').
Proof.
  intros -> e' l' Hl. destruct (decide (e' = e)) as [->|Hne]; [left|right].
  - by apply law_add_same in Hl.
  - by apply law_add_other in Hl.
Qed.

Lemma get_snap_spec s m sn e : ptr_rep s m sn ->
  exists l s', ps_GetSnap s e = (l, s') /\ ptr_rep s' m sn /\ prod_map id (ps_Read s') <$> l = sn e.
Proof.
  intros Hr. unfold ps_GetSnap. destruct (lru_peek (ps_snapCache s) e) as [vv|] eqn:Ee.
  - destruct (pr_snapCache _ _ _ Hr e vv Ee) as [Hk Hh]. do 2 eexists. split; [done|]. split.
    + apply (rep_snapCache s m sn e vv); [done..| |].
      * intros p Hp Hc. eapply (pr_apart _ _ _ Hr p Hc). by exists e, vv.
      * intros e' l'. rewrite law_touch. by right.
    + apply list_eq. intros i. rewrite list_lookup_fmap.
      assert (vv.*1 !! i = (sn e).*1 !! i) as E1 by (by rewrite Hk).
      assert (((fun p => ps_heap s !! p) <$> vv.*2) !! i = (Some <$> (sn e).*2) !! i) as E2 by (by rewrite Hh).
      rewrite !list_lookup_fmap in E1. rewrite !list_lookup_fmap in E2. destruct (vv !! i) as [[k p]|], (sn e !! i) as [[k' v]|]; try done. cbn in *.
      injection E1 as ->. injection E2 as E2. unfold prod_map. cbn. do 2 f_equal. by apply ps_Read_lookup.
  - pose proof (snaps_sorted s m sn e Hr) as Es. rewrite Es.
    destruct (decode_spec s m sn (sn e) Hr) as (l & s' & -> & Hr' & Ho & Hv & Hk & Hcv & Hh). do 2 eexists. split; [done|].
    split; [|exact Hv]. apply (rep_snapCache s' m sn e l); [done..| |].
    + intros p Hp. by apply Ho.
    + intros e' l' [?|[_ ?]]%(snap_add s' e l _ eq_refl); [by left|by right].
Qed.

Lemma fold_snaps (f : nat -> V) e (l : list (K * nat)) : forall (t : gmap (Z * K) V) e' k v, NoDup l.*1 ->
  (forall k', k' ∈ l.*1 -> t !! (e, k') = None) ->
  foldl (fun t (x : K * nat) => <[(e, x.1) := f x.2]> t) t l !! (e', k) = Some v <->
  (e' = e /\ (k, v) ∈ prod_map id f <$> l) \/ t !! (e', k) = Some v.
Proof.
  induction l as [|[k0 p] l IH]; intros t e' k v Hn Ht; csimpl.
  { split; [by right|]. by intros [[_ ?%elem_of_nil]|?]. }
  apply NoDup_cons in Hn as [Hk0 Hn]. rewrite IH; [|done|].
  2:{ intros k' Hk'. rewrite lookup_insert_ne; [apply Ht; by right|]. intros [= <-]. done. }
  rewrite lookup_insert_Some, elem_of_cons. cbn. unfold prod_map at 2. cbn. assert (t !! (e, k0) = None) as Hk00 by (apply Ht; by left). split.
  - intros [[-> Hin]|[[[= <- <-] <-]|[Hne ?]]]; [left|left|by right]; split; try done; [by right|by left].
  - intros [[-> [[= -> ->]|Hin]]|Htk]; [right; by left|left; by split|]. right. right. split; [|done]. intros [= <- <-]. congruence.
Qed.

Lemma set_snap_spec s m sn e l : ptr_rep s m sn -> ptr_own s l.*2 -> sn e = [] -> NoDup l.*1 ->
  StronglySorted (entry_le le) (prod_map id (ps_Read s) <$> l) ->
  ptr_rep (ps_SetSnap s e l) m (fun e' => if decide (e' = e) then prod_map id (ps_Read s) <$> l else sn e').
Proof.
  intros Hr [Hno Ho] Hse Hnd Hsort. pose proof Hr as [R1 R2 R3 R4 R5 R6 R7].
  assert (forall k, ps_snaps s !! (e, k) = None) as Hfresh.
  { intros k. destruct (ps_snaps s !! (e, k)) as [v|] eqn:E; [|done]. apply R4 in E. rewrite Hse in E. by apply elem_of_nil in E. }
  assert ((prod_map id (ps_Read s) <$> l).*1 = l.*1) as Hkeys by (rewrite <-list_fmap_compose; by apply list_fmap_ext).
  unfold ps_SetSnap. split; cbn; try done.
  - intros e' k v. rewrite (fold_snaps (ps_Read s)) by done. case_decide as He; [subst e'|].
    + rewrite Hfresh. split; [by intros [[_ ?]|]|]. intros Hin. by left.
    + rewrite R4. split; [by intros [[? _]|]|by right].
  - intros e'. case_decide; [by rewrite Hkeys|by apply R5].
  - intros e' l' Hl'. apply (snap_add s e l _ eq_refl) in Hl' as [[-> ->]|[Hne Hl']].
    + rewrite decide_True by done. split; [done|]. rewrite <-!list_fmap_compose. apply list_fmap_ext. intros i [k p] Hi. cbn.
      destruct (Ho p) as [Hv _]; [apply (list_elem_of_fmap_2 snd _ (k, p)); by eapply list_elem_of_lookup_2|].
      unfold valid in Hv. apply lookup_lt_is_Some in Hv as [v Hv]. rewrite Hv. f_equal. symmetry. by apply ps_Read_lookup.
    + rewrite decide_False by done. by apply R6.
  - intros p Hp (e' & l' & Hl' & Hin). cbn in Hl'. apply (snap_add s e l _ eq_refl) in Hl' as [[-> ->]|[Hne Hl']].
    + by destruct (Ho p Hin) as (_ & Hc & _).
    + apply (R7 p Hp). by exists e', l'.
Qed.

#[export] Instance ptr_store_laws : ObjStoreLaws K V nat Store le ptr_rep ptr_own.
Proof.
  split; cbn [os_Get os_Read os_Write os_New os_Set os_Del os_All os_SetSnap os_GetSnap os_HasSnap ptr_store].
  - intros s m sn k Hr. destruct (get_spec s m sn k Hr) as (r & s' & E & Hr' & Hm). exists r, s'. split; [done|]. split; [done|].
    destruct (m !! k) as [v|]; [|done]. destruct Hm as (p & -> & Hv & Hp & Hsn & Hc). exists p. split; [done|]. split; [done|].
    intros v'. do 2 eexists. split; [done|]. apply (rep_set s' m sn k p v'); done.
  - intros s m sn k v Hr. destruct (rep_grow s m sn [v] Hr) as [Hr' [_ Ho]]. destruct (Ho (length (ps_heap s))) as (Hv & Hc & Hsn); [by left|].
    do 2 eexists. split; [done|].
    destruct (rep_set _ m sn k (length (ps_heap s)) v Hr' Hv Hsn) as [Hs _]; [intros k' Hk'; destruct Hc; by exists k'|].
    unfold ps_Write in Hs. cbn in Hs. rewrite list_insert_id in Hs; [done|]. by apply list_lookup_middle.
  - intros s m sn k [R1 R2 R3 R4 R5 R6 R7]. unfold ps_Del. assert (forall k' p, lru_peek (lru_Remove (ps_cache s) k) k' = Some p ->
      k <> k' /\ lru_peek (ps_cache s) k' = Some p) as Hrem.
    { intros k' p Hp. destruct (decide (k = k')) as [<-|Hne]; [by rewrite lk_remove in Hp|]. by rewrite lk_remove_other in Hp. }
    split; cbn; try done.
    + by rewrite R1.
    + intros k' p [Hne Hp]%Hrem. rewrite lookup_delete_ne by done. by apply R2.
    + intros k1 k2 p [_ Hp1]%Hrem [_ Hp2]%Hrem. by eapply R3.
    + intros p (k' & Hk'). cbn in Hk'. apply Hrem in Hk' as [_ Hk']. apply R7. by exists k'.
  - intros s m sn Hr. unfold ps_All. rewrite (pr_table _ _ _ Hr).
    destruct (decode_spec s m sn (sorted_entries le m) Hr) as (l & s' & E & Hr' & Ho & Hv & _). by exists l, s'.
  - apply own_sub.
  - intros s m sn k p ps v Hr [Hno Ho]. apply NoDup_cons in Hno as [Hp Hno]. destruct (Ho p) as (Hv & Hc & Hsn); [by left|].
    do 2 eexists. split; [done|]. destruct (rep_set s m sn k p v Hr Hv Hsn) as [Hr' Hrd]; [intros k' Hk'; destruct Hc; by exists k'|].
    split; [done|]. split; [|split; [done|]].
    + split; [done|]. intros q Hq. destruct (Ho q) as (Hqv & Hqc & Hqs); [by right|]. split_and!.
      * unfold valid in *. cbn. by rewrite length_insert.
      * intros (k' & Hk'). cbn in Hk'. apply cache_add in Hk' as [[-> ->]|[_ Hk']]; [done|]. apply Hqc. by exists k'.
      * exact Hqs.
    + intros q Hq. unfold ps_Read. cbn. rewrite list_lookup_insert_ne; [done|]. by intros ->.
  - apply set_snap_spec.
  - intros s m sn e Hr. by apply get_snap_spec.
  - intros s m sn e k Hr. unfold ps_HasSnap. apply bool_decide_ext. split.
    + intros [v Hv]. apply (pr_snaps _ _ _ Hr) in Hv. by apply (list_elem_of_fmap_2 fst _ (k, v)).
    + intros ([k' v] & -> & Hin)%list_elem_of_fmap. exists v. by apply (pr_snaps _ _ _ Hr).
Qed.

(** After a restart the caches are empty, and the contents are the same. *)
Lemma restarted_rep s m sn (c : C) (cv : CV) : ps_table s = m -> (forall e k v, ps_snaps s !! (e, k) = Some v <-> (k, v) ∈ sn e) ->
  (forall e, NoDup (sn e).*1 /\ StronglySorted (entry_le le) (sn e)) ->
  (forall k, lru_peek c k = None) -> (forall e, lru_peek cv e = None) -> ptr_rep (restarted c cv s) m sn.
Proof.
  intros Ht Hsn Hs Hc Hcv. split; cbn; try done; try (intros; congruence).
  intros p (k & Hk). cbn in Hk. by rewrite Hc in Hk.
Qed.
End ptr.
