(* ===== verification/Sfc.v ===== *)
(** * The index of the SFC contract: app/sfc_index.go, inter/sfctype

    The application mirrors the staking contract: it reads the logs of the
    contract after every block, flags cheaters and offline stakers, and at the
    end of an epoch writes the snapshot from which the contract pays rewards
    and selects the validators of the next epoch.  A big integer is a [Z]; the
    tables store its absolute value, as [Bytes] does.  The keys of the tables
    are fixed-width encodings of the keys of the maps below.  The state of the
    EVM and Keccak are parameters. *)

From S2P Require Import Prelude Bytes Pos Event VecStore EventBuffer SfcStore.

(** ** inter/sfctype/sfc_type.go *)

Definition ForkBit : Z := 1.
Definition OfflineBit : Z := 256.
Definition CheaterMask : Z := ForkBit.

Record SfcStaker := mkStaker {
  s_CreatedEpoch : Z;
  s_CreatedTime : Z;
  s_DeactivatedEpoch : Z;
  s_DeactivatedTime : Z;
  StakeAmount : Z;
  DelegatedMe : Z;
  s_Address : bytes;
  Status : Z
}.
#[export] Instance SfcStaker_inhabited : Inhabited SfcStaker := populate (mkStaker 0 0 0 0 0 0 [] 0).

Definition Staker_Ok (s : SfcStaker) : bool := (Status s =? 0) && (s_DeactivatedEpoch s =? 0).
Definition Staker_IsCheater (s : SfcStaker) : bool := negb (Z.land (Status s) CheaterMask =? 0).
Definition Staker_HasFork (s : SfcStaker) : bool := negb (Z.land (Status s) ForkBit =? 0).
Definition Staker_Offline (s : SfcStaker) : bool := negb (Z.land (Status s) OfflineBit =? 0).
Definition CalcTotalStake (s : SfcStaker) : Z := StakeAmount s + DelegatedMe s.

Definition set_amounts (s : SfcStaker) (stake delegated : Z) : SfcStaker :=
  mkStaker (s_CreatedEpoch s) (s_CreatedTime s) (s_DeactivatedEpoch s) (s_DeactivatedTime s) stake delegated (s_Address s) (Status s).
Definition deactivate (s : SfcStaker) (epoch time : Z) : SfcStaker :=
  mkStaker (s_CreatedEpoch s) (s_CreatedTime s) epoch time (StakeAmount s) (DelegatedMe s) (s_Address s) (Status s).
Definition set_bits (s : SfcStaker) (bits : Z) : SfcStaker :=
  mkStaker (s_CreatedEpoch s) (s_CreatedTime s) (s_DeactivatedEpoch s) (s_DeactivatedTime s) (StakeAmount s) (DelegatedMe s) (s_Address s)
    (Z.lor (Status s) bits).

Record SfcDelegator := mkDelegator {
  d_CreatedEpoch : Z;
  d_CreatedTime : Z;
  d_DeactivatedEpoch : Z;
  d_DeactivatedTime : Z;
  Amount : Z;
  ToStakerID : Z
}.
#[export] Instance SfcDelegator_inhabited : Inhabited SfcDelegator := populate (mkDelegator 0 0 0 0 0 0).

Record EpochStats := mkEpochStats { Start : Z; End_ : Z; TotalFee : Z }.
Definition Duration (s : EpochStats) : Z := u64 (End_ s - Start s).
(** [Timestamp.Unix] *)
Definition Unix (t : Z) : Z := Z.quot (i64 t) second.

(** ** Logs of the EVM *)

Record Log := mkLog { l_Address : bytes; l_Topics : list hash; l_Data : bytes }.

Record SfcConstants := mkConstants {
  ShortGasPowerAllocPerSec : Z;
  LongGasPowerAllocPerSec : Z;
  BaseRewardPerSec : Z      (* nil is stored and read as zero *)
}.

(** The part of the network's rules that the application reads. *)
Record EconomyConfig := mkEconomy {
  PoiPeriodDuration : Z;
  BlockMissedLatency : Z;
  OfflineBlocksNum : Z;
  OfflinePeriod : Z;
  TxRewardPoiImpact : Z;
  InitialRewardPerSecond : Z;
  MaxRewardPerSecond : Z
}.

Record BlocksMissed := mkMissed { bm_Num : Z; bm_Period : Z }.

(** ** The state of the EVM, as far as the application changes it *)

Class StateDB (E : Type) := {
  SetState : E -> bytes -> hash -> hash -> E;
  GetState : E -> bytes -> hash -> hash;
  AddBalance : E -> bytes -> Z -> E;
  GetBalance : E -> bytes -> Z
}.

Class StateDBLaws (E : Type) `{StateDB E} : Prop := {
  sdb_get_set (s : E) a k v a' k' : GetState (SetState s a k v) a' k' = if decide (a' = a /\ k' = k) then v else GetState s a' k';
  sdb_get_add (s : E) a x a' k' : GetState (AddBalance s a x) a' k' = GetState s a' k';
  sdb_bal_set (s : E) a k v a' : GetBalance (SetState s a k v) a' = GetBalance s a';
  sdb_bal_add (s : E) a x a' : GetBalance (AddBalance s a x) a' = if decide (a' = a) then GetBalance s a + x else GetBalance s a'
}.

(** ** utils/uint2hash.go *)

Definition BigTo256 (b : Z) : hash := be_encode 32 (Z.abs b).
Definition U64to256 (n : Z) : hash := BigTo256 n.

(** ** lachesis/genesis/sfc/sfcpos/positions.go *)

Definition string_bytes (s : string) : bytes := (fun c => Z.of_N (Ascii.N_of_ascii c)) <$> String.list_ascii_of_string s.

Section positions.
Context (hash_Of : list bytes -> hash).

Definition topic (signature : string) : hash := hash_Of [string_bytes signature].

Definition CreatedStake : hash := topic "CreatedStake(uint256,address,uint256)".
Definition IncreasedStake : hash := topic "IncreasedStake(uint256,uint256,uint256)".
Definition CreatedDelegation : hash := topic "CreatedDelegation(address,uint256,uint256)".
Definition PreparedToWithdrawStake : hash := topic "PreparedToWithdrawStake(uint256)".
Definition PreparedToWithdrawDelegation : hash := topic "PreparedToWithdrawDelegation(address, uint256)".
Definition WithdrawnStake : hash := topic "WithdrawnStake(uint256,uint256)".
Definition WithdrawnDelegation : hash := topic "WithdrawnDelegation(address,uint256,uint256)".
Definition ClaimedDelegationReward : hash := topic "ClaimedDelegationReward(address,uint256,uint256,uint256,uint256)".
Definition ClaimedValidatorReward : hash := topic "ClaimedValidatorReward(uint256,uint256,uint256,uint256)".
Definition UpdatedBaseRewardPerSec : hash := topic "UpdatedBaseRewardPerSec(uint256)".
Definition UpdatedGasPowerAllocationRate : hash := topic "UpdatedGasPowerAllocationRate(uint256,uint256)".
Definition DeactivatedStake : hash := topic "DeactivatedStake(uint256)".
Definition DeactivatedDelegation : hash := topic "DeactivatedDelegation(address,uint256)".
Definition UpdatedStake : hash := topic "UpdatedStake(uint256,uint256,uint256)".
Definition UpdatedDelegation : hash := topic "UpdatedDelegation(address,uint256,uint256,uint256)".

Definition sfc_offset : Z := 30.
Definition CurrentSealedEpoch : hash := U64to256 (sfc_offset + 0).

Definition getMapValue (base : hash) (key : hash) (mapIdx : Z) : hash := hash_Of [key; BigTo256 (be_decode base + mapIdx)].

(** [object.Field]: the base is a big integer. *)
Definition Field (base : Z) (offset : Z) : hash := if offset =? 0 then BigTo256 base else BigTo256 (base + offset).

Definition pos_Staker (stakerID : Z) : Z := be_decode (getMapValue ZeroHash (U64to256 stakerID) (sfc_offset + 2)).
Definition StakePos_Status (p : Z) : hash := Field p 0.

Definition pos_EpochSnapshot (epoch : Z) : Z := be_decode (getMapValue ZeroHash (U64to256 epoch) (sfc_offset + 1)).
Definition EpochPos_EndTime (p : Z) : hash := Field p 1.
Definition EpochPos_Duration (p : Z) : hash := Field p 2.
Definition EpochPos_EpochFee (p : Z) : hash := Field p 3.
Definition EpochPos_TotalBaseRewardWeight (p : Z) : hash := Field p 4.
Definition EpochPos_TotalTxRewardWeight (p : Z) : hash := Field p 5.
Definition EpochPos_BaseRewardPerSecond (p : Z) : hash := Field p 6.
Definition EpochPos_StakeTotalAmount (p : Z) : hash := Field p 7.
Definition EpochPos_DelegationsTotalAmount (p : Z) : hash := Field p 8.
Definition EpochPos_TotalSupply (p : Z) : hash := Field p 9.

Definition ValidatorMerit (p : Z) (stakerID : Z) : Z := be_decode (getMapValue (Field p 0) (U64to256 stakerID) 0).
Definition MeritPos_StakeAmount (p : Z) : hash := Field p 0.
Definition MeritPos_DelegatedMe (p : Z) : hash := Field p 1.
Definition MeritPos_BaseRewardWeight (p : Z) : hash := Field p 2.
Definition MeritPos_TxRewardWeight (p : Z) : hash := Field p 3.
End positions.

(** ** The tables of the application: app/store*.go *)

(** The counters of missed blocks, with their write-through cache of values. *)
Record Downtime (B : Type) := mkDowntime { bd_table : gmap Z BlocksMissed; bd_cache : B }.
Arguments mkDowntime {B} _ _.
Arguments bd_table {B} _.
Arguments bd_cache {B} _.

Section downtime.
Context {B : Type} `{Lru Z BlocksMissed B}.

Definition GetBlocksMissed (d : Downtime B) (stakerID : Z) : BlocksMissed * Downtime B :=
  match lru_peek (bd_cache d) stakerID with
  | Some missed => (missed, mkDowntime (bd_table d) (lru_touch (bd_cache d) stakerID))
  | None =>
      match bd_table d !! stakerID with
      | None => (mkMissed 0 0, d)
      | Some missed => (missed, mkDowntime (bd_table d) (lru_Add (bd_cache d) stakerID missed))
      end
  end.

Definition IncBlocksMissed (d : Downtime B) (stakerID periodDiff : Z) : Downtime B :=
  let '(missed, d) := GetBlocksMissed d stakerID in
  let missed := mkMissed (u64 (bm_Num missed + 1)) (u64 (bm_Period missed + periodDiff)) in
  mkDowntime (<[stakerID := missed]> (bd_table d)) (lru_Add (bd_cache d) stakerID missed).

Definition ResetBlocksMissed (d : Downtime B) (stakerID : Z) : Downtime B :=
  mkDowntime (delete stakerID (bd_table d)) (lru_Add (bd_cache d) stakerID (mkMissed 0 0)).
End downtime.

(** Tables of big integers: absent is zero. *)
Definition big_get {K} `{Countable K} (t : gmap K Z) (k : K) : Z := default 0 (t !! k).
Definition big_put {K} `{Countable K} (t : gmap K Z) (k : K) (v : Z) : gmap K Z := <[k := Z.abs v]> t.
Definition big_add {K} `{Countable K} (t : gmap K Z) (k : K) (diff : Z) : gmap K Z := big_put t k (big_get t k + diff).

(** The score economy: store_scores.go *)
Record Scores (B : Type) := mkScores {
  ActiveValidation : gmap Z Z;
  DirtyValidation : gmap Z Z;
  ActiveOrigination : gmap Z Z;
  DirtyOrigination : gmap Z Z;
  BlockDowntime : Downtime B;
  BlockDowntimeEpoch : gmap (Z * Z) BlocksMissed;
  ActiveValidationEpoch : gmap (Z * Z) Z
}.
Arguments mkScores {B} _ _ _ _ _ _ _.
Arguments ActiveValidation {B} _.
Arguments DirtyValidation {B} _.
Arguments ActiveOrigination {B} _.
Arguments DirtyOrigination {B} _.
Arguments BlockDowntime {B} _.
Arguments BlockDowntimeEpoch {B} _.
Arguments ActiveValidationEpoch {B} _.

(** The proof of importance: store_poi.go *)
Record Poi := mkPoi {
  StakerPOI : gmap Z Z;
  AddressFee : gmap (bytes * Z) Z;
  StakerDelegatorsFee : gmap Z Z;
  AddressLastTxTime : gmap bytes Z;
  TotalPoiFee : gmap Z Z
}.

(** The claimed rewards: store_rewards_history.go *)
Record Rewards := mkRewards {
  StakerOldRewards : gmap Z Z;
  DelegatorOldRewards : gmap bytes Z;
  StakerDelegatorsOldRewards : gmap Z Z
}.

Record AppStore (S D B : Type) := mkAppStore {
  a_Stakers : S;                      (* and the validators of the epochs *)
  a_Delegators : D;
  a_Constants : gmap Z SfcConstants;
  a_TotalSupply : Z;
  a_LastVoting : Z * Z;
  a_Blocks : gmap Z Z;                (* the times of the blocks *)
  a_Scores : Scores B;
  a_Poi : Poi;
  a_Rewards : Rewards
}.
Arguments mkAppStore {S D B} _ _ _ _ _ _ _ _ _.
Arguments a_Stakers {S D B} _.
Arguments a_Delegators {S D B} _.
Arguments a_Constants {S D B} _.
Arguments a_TotalSupply {S D B} _.
Arguments a_LastVoting {S D B} _.
Arguments a_Blocks {S D B} _.
Arguments a_Scores {S D B} _.
Arguments a_Poi {S D B} _.
Arguments a_Rewards {S D B} _.

Section updates.
Context {S D B : Type}.
Implicit Types a : AppStore S D B.

Definition with_stakers a s : AppStore S D B := mkAppStore s (a_Delegators a) (a_Constants a) (a_TotalSupply a) (a_LastVoting a) (a_Blocks a) (a_Scores a) (a_Poi a) (a_Rewards a).
Definition with_delegators a d : AppStore S D B := mkAppStore (a_Stakers a) d (a_Constants a) (a_TotalSupply a) (a_LastVoting a) (a_Blocks a) (a_Scores a) (a_Poi a) (a_Rewards a).
Definition with_constants a c : AppStore S D B := mkAppStore (a_Stakers a) (a_Delegators a) c (a_TotalSupply a) (a_LastVoting a) (a_Blocks a) (a_Scores a) (a_Poi a) (a_Rewards a).
Definition with_supply a t : AppStore S D B := mkAppStore (a_Stakers a) (a_Delegators a) (a_Constants a) t (a_LastVoting a) (a_Blocks a) (a_Scores a) (a_Poi a) (a_Rewards a).
Definition with_voting a v : AppStore S D B := mkAppStore (a_Stakers a) (a_Delegators a) (a_Constants a) (a_TotalSupply a) v (a_Blocks a) (a_Scores a) (a_Poi a) (a_Rewards a).
Definition with_blocks a b : AppStore S D B := mkAppStore (a_Stakers a) (a_Delegators a) (a_Constants a) (a_TotalSupply a) (a_LastVoting a) b (a_Scores a) (a_Poi a) (a_Rewards a).
Definition with_scores a s : AppStore S D B := mkAppStore (a_Stakers a) (a_Delegators a) (a_Constants a) (a_TotalSupply a) (a_LastVoting a) (a_Blocks a) s (a_Poi a) (a_Rewards a).
Definition with_poi a p : AppStore S D B := mkAppStore (a_Stakers a) (a_Delegators a) (a_Constants a) (a_TotalSupply a) (a_LastVoting a) (a_Blocks a) (a_Scores a) p (a_Rewards a).
Definition with_rewards a r : AppStore S D B := mkAppStore (a_Stakers a) (a_Delegators a) (a_Constants a) (a_TotalSupply a) (a_LastVoting a) (a_Blocks a) (a_Scores a) (a_Poi a) r.

(** store_sfc_constants.go *)
Definition GetSfcConstants a (epoch : Z) : SfcConstants := default (mkConstants 0 0 0) (a_Constants a !! epoch).
Definition HasSfcConstants a (epoch : Z) : bool := bool_decide (is_Some (a_Constants a !! epoch)).
Definition SetSfcConstants a (epoch : Z) (c : SfcConstants) : AppStore S D B := with_constants a (<[epoch := c]> (a_Constants a)).

(** store_total_supply.go *)
Definition SetTotalSupply a (amount : Z) : AppStore S D B := with_supply a (Z.abs amount).
End updates.

(** ** app/sfc_index.go *)

Section handlers.
Context (hash_Of : list bytes -> hash) (ContractAddress : bytes).
Context {S D B PS PD : Type} `{ObjStore Z SfcStaker PS S} `{ObjStore bytes SfcDelegator PD D} `{Lru Z BlocksMissed B}.
Abbreviation App := (AppStore S D B).
Implicit Types (a : App) (l : Log).

(** [idx.StakerID(new(big.Int).SetBytes(b).Uint64())] *)
Definition topic_StakerID (b : bytes) : Z := u32 (u64 (be_decode b)).
(** [common.BytesToAddress(topic[12:])] *)
Definition topic_Address (b : bytes) : bytes := drop 12 b.
Definition data_word (data : bytes) (i : nat) : Z := be_decode (take 32 (drop (32 * i) data)).

Definition delAllStakerData a (stakerID : Z) : App :=
  let sc := a_Scores a in
  let a := with_stakers a (os_Del (a_Stakers a) stakerID) in
  let a := with_scores a
    (mkScores (delete stakerID (ActiveValidation sc)) (delete stakerID (DirtyValidation sc))
       (delete stakerID (ActiveOrigination sc)) (delete stakerID (DirtyOrigination sc))
       (ResetBlocksMissed (BlockDowntime sc) stakerID) (BlockDowntimeEpoch sc) (ActiveValidationEpoch sc)) in
  let p := a_Poi a in
  let a := with_poi a (mkPoi (delete stakerID (StakerPOI p)) (AddressFee p) (delete stakerID (StakerDelegatorsFee p)) (AddressLastTxTime p) (TotalPoiFee p)) in
  let r := a_Rewards a in
  with_rewards a (mkRewards (delete stakerID (StakerOldRewards r)) (DelegatorOldRewards r) (delete stakerID (StakerDelegatorsOldRewards r))).

Definition delAllDelegatorData a (address : bytes) : App :=
  let a := with_delegators a (os_Del (a_Delegators a) address) in
  let r := a_Rewards a in
  with_rewards a (mkRewards (StakerOldRewards r) (delete address (DelegatorOldRewards r)) (StakerDelegatorsOldRewards r)).

(** One [if] of the loop over the logs; [false] is [continue]. *)
Definition handler := App -> go (bool * App).
Definition when (guard : bool) (h : handler) : handler := fun a => if guard then h a else Ret (true, a).
Definition is_topic (t0 t : hash) : bool := bool_decide (t0 = t).

Definition onCreatedStake (epoch time : Z) l : handler := fun a =>
  t1 ← slice_at (l_Topics l) 1;
  t2 ← slice_at (l_Topics l) 2;
  let '(p, s) := os_New (a_Stakers a) (mkStaker epoch time 0 0 (data_word (l_Data l) 0) 0 (topic_Address t2) 0) in
  Ret (true, with_stakers a (os_Set s (topic_StakerID t1) p)).

Definition onIncreasedStake l : handler := fun a =>
  t1 ← slice_at (l_Topics l) 1;
  let '(staker, s) := os_Get (a_Stakers a) (topic_StakerID t1) in
  match staker with
  | None => Ret (false, with_stakers a s)
  | Some p =>
      let st := os_Read s p in
      let '(p, s) := os_Write s p (set_amounts st (data_word (l_Data l) 0) (DelegatedMe st)) in
      Ret (true, with_stakers a (os_Set s (topic_StakerID t1) p))
  end.

Definition onCreatedDelegation (epoch time : Z) l : handler := fun a =>
  t1 ← slice_at (l_Topics l) 1;
  t2 ← slice_at (l_Topics l) 2;
  let amount := data_word (l_Data l) 0 in
  let '(staker, s) := os_Get (a_Stakers a) (topic_StakerID t2) in
  match staker with
  | None => Ret (false, with_stakers a s)
  | Some p =>
      let st := os_Read s p in
      let '(p, s) := os_Write s p (set_amounts st (StakeAmount st) (DelegatedMe st + amount)) in
      let '(q, d) := os_New (a_Delegators a) (mkDelegator epoch time 0 0 amount (topic_StakerID t2)) in
      let d := os_Set d (topic_Address t1) q in
      Ret (true, with_delegators (with_stakers a (os_Set s (topic_StakerID t2) p)) d)
  end.

Definition onDeactivatedStake (epoch time : Z) l : handler := fun a =>
  t1 ← slice_at (l_Topics l) 1;
  let '(staker, s) := os_Get (a_Stakers a) (topic_StakerID t1) in
  match staker with
  | None => Fault NilDereference
  | Some p =>
      let '(p, s) := os_Write s p (deactivate (os_Read s p) epoch time) in
      Ret (true, with_stakers a (os_Set s (topic_StakerID t1) p))
  end.

Definition onDeactivatedDelegation (epoch time : Z) l : handler := fun a =>
  t1 ← slice_at (l_Topics l) 1;
  let '(delegator, d) := os_Get (a_Delegators a) (topic_Address t1) in
  match delegator with
  | None => Fault NilDereference
  | Some q =>
      let dl := os_Read d q in
      let '(staker, s) := os_Get (a_Stakers a) (ToStakerID dl) in
      let s := match staker with
               | None => s
               | Some p =>
                   let st := os_Read s p in
                   let left := DelegatedMe st - Amount dl in
                   let '(p, s) := os_Write s p (set_amounts st (StakeAmount st) (if left <? 0 then 0 else left)) in
                   os_Set s (ToStakerID dl) p
               end in
      let '(q, d) := os_Write d q (mkDelegator (d_CreatedEpoch dl) (d_CreatedTime dl) epoch time (Amount dl) (ToStakerID dl)) in
      Ret (true, with_delegators (with_stakers a s) (os_Set d (topic_Address t1) q))
  end.

Definition onUpdatedStake l : handler := fun a =>
  t1 ← slice_at (l_Topics l) 1;
  let '(staker, s) := os_Get (a_Stakers a) (topic_StakerID t1) in
  match staker with
  | None => Ret (false, with_stakers a s)
  | Some p =>
      let '(p, s) := os_Write s p (set_amounts (os_Read s p) (data_word (l_Data l) 0) (data_word (l_Data l) 1)) in
      Ret (true, with_stakers a (os_Set s (topic_StakerID t1) p))
  end.

Definition onUpdatedDelegation l : handler := fun a =>
  t1 ← slice_at (l_Topics l) 1;
  t3 ← slice_at (l_Topics l) 3;
  let '(delegator, d) := os_Get (a_Delegators a) (topic_Address t1) in
  match delegator with
  | None => Ret (false, with_delegators a d)
  | Some q =>
      let dl := os_Read d q in
      let '(q, d) := os_Write d q (mkDelegator (d_CreatedEpoch dl) (d_CreatedTime dl) (d_DeactivatedEpoch dl) (d_DeactivatedTime dl)
                                     (data_word (l_Data l) 0) (topic_StakerID t3)) in
      Ret (true, with_delegators a (os_Set d (topic_Address t1) q))
  end.

Definition onWithdrawnStake l : handler := fun a =>
  t1 ← slice_at (l_Topics l) 1;
  Ret (true, delAllStakerData a (topic_StakerID t1)).

Definition onWithdrawnDelegation l : handler := fun a =>
  t1 ← slice_at (l_Topics l) 1;
  Ret (true, delAllDelegatorData a (topic_Address t1)).

Definition onUpdatedBaseReward (epoch : Z) l : handler := fun a =>
  let c := GetSfcConstants a epoch in
  Ret (true, SetSfcConstants a epoch (mkConstants (ShortGasPowerAllocPerSec c) (LongGasPowerAllocPerSec c) (data_word (l_Data l) 0))).

Definition onUpdatedGasPower (epoch : Z) l : handler := fun a =>
  let c := GetSfcConstants a epoch in
  Ret (true, SetSfcConstants a epoch (mkConstants (u64 (data_word (l_Data l) 0)) (u64 (data_word (l_Data l) 1)) (BaseRewardPerSec c))).

Definition onClaimedValidatorReward l : handler := fun a =>
  t1 ← slice_at (l_Topics l) 1;
  let r := a_Rewards a in
  Ret (true, with_rewards a (mkRewards (big_add (StakerOldRewards r) (topic_StakerID t1) (data_word (l_Data l) 0))
                               (DelegatorOldRewards r) (StakerDelegatorsOldRewards r))).

Definition onClaimedDelegationReward l : handler := fun a =>
  t1 ← slice_at (l_Topics l) 1;
  t2 ← slice_at (l_Topics l) 2;
  let r := a_Rewards a in
  let reward := data_word (l_Data l) 0 in
  Ret (true, with_rewards a (mkRewards (StakerOldRewards r) (big_add (DelegatorOldRewards r) (topic_Address t1) reward)
                               (big_add (StakerDelegatorsOldRewards r) (topic_StakerID t2) reward))).

(** The loop body over the logs. *)
Fixpoint run_handlers (hs : list handler) a : go App :=
  match hs with
  | [] => Ret a
  | h :: hs => '(proceed, a) ← h a; if (proceed : bool) then run_handlers hs a else Ret a
  end.

Definition log_handlers (epoch time : Z) (t0 : hash) l : list handler :=
  let n := zlen (l_Topics l) in
  let d := zlen (l_Data l) in
  [when (is_topic t0 (CreatedStake hash_Of) && (2 <? n) && (32 <=? d)) (onCreatedStake epoch time l);
   when (is_topic t0 (IncreasedStake hash_Of) && (1 <? n) && (32 <=? d)) (onIncreasedStake l);
   when (is_topic t0 (CreatedDelegation hash_Of) && (1 <? n) && (32 <=? d)) (onCreatedDelegation epoch time l);
   when ((is_topic t0 (DeactivatedStake hash_Of) || is_topic t0 (PreparedToWithdrawStake hash_Of)) && (1 <? n)) (onDeactivatedStake epoch time l);
   when ((is_topic t0 (DeactivatedDelegation hash_Of) || is_topic t0 (PreparedToWithdrawDelegation hash_Of)) && (1 <? n)) (onDeactivatedDelegation epoch time l);
   when (is_topic t0 (UpdatedStake hash_Of) && (1 <? n) && (64 <=? d)) (onUpdatedStake l);
   when (is_topic t0 (UpdatedDelegation hash_Of) && (3 <? n) && (32 <=? d)) (onUpdatedDelegation l);
   when (is_topic t0 (WithdrawnStake hash_Of) && (1 <? n)) (onWithdrawnStake l);
   when (is_topic t0 (WithdrawnDelegation hash_Of) && (1 <? n)) (onWithdrawnDelegation l);
   when (is_topic t0 (UpdatedBaseRewardPerSec hash_Of) && (32 <=? d)) (onUpdatedBaseReward epoch l);
   when (is_topic t0 (UpdatedGasPowerAllocationRate hash_Of) && (64 <=? d)) (onUpdatedGasPower epoch l);
   when (is_topic t0 (ClaimedValidatorReward hash_Of) && (1 <? n) && (32 <=? d)) (onClaimedValidatorReward l);
   when (is_topic t0 (ClaimedDelegationReward hash_Of) && (2 <? n) && (32 <=? d)) (onClaimedDelegationReward l)].

Definition processLog (epoch time : Z) a l : go App :=
  if negb (bool_decide (l_Address l = ContractAddress)) then Ret a
  else t0 ← slice_at (l_Topics l) 0; run_handlers (log_handlers epoch time t0 l) a.

(** The loops over the receipts and their logs. *)
Definition processLogs (epoch time : Z) (receipts : list (list Log)) a : go App :=
  go_fold (processLog epoch time) a (mjoin receipts).

Context {E : Type} `{StateDB E} (config : EconomyConfig).
Implicit Types e : E.

(** [a.setState(position.Status(), ...)] *)
Definition setStatus e (stakerID status : Z) : E :=
  SetState e ContractAddress (StakePos_Status (pos_Staker hash_Of stakerID)) (U64to256 status).

Definition writeCheater (st : App * E) (stakerID : Z) : go (App * E) :=
  let '(a, e) := st in
  let '(staker, s) := os_Get (a_Stakers a) stakerID in
  match staker with
  | None => Fault NilDereference
  | Some p =>
      if Staker_HasFork (os_Read s p) then Ret (with_stakers a s, e)
      else
        let '(p, s) := os_Write s p (set_bits (os_Read s p) ForkBit) in
        let s := os_Set s stakerID p in
        Ret (with_stakers a s, setStatus e stakerID (Status (os_Read s p)))
  end.

(** Offline stakers are flagged. *)
Definition writeOffline (st : App * E) (it : Z * PS) : App * E :=
  let '(a, e) := st in
  if Staker_Offline (os_Read (a_Stakers a) it.2) then st
  else
    let sc := a_Scores a in
    let '(gotMissed, dt) := GetBlocksMissed (BlockDowntime sc) it.1 in
    let a := with_scores a (mkScores (ActiveValidation sc) (DirtyValidation sc) (ActiveOrigination sc) (DirtyOrigination sc) dt
                              (BlockDowntimeEpoch sc) (ActiveValidationEpoch sc)) in
    if (OfflineBlocksNum config <=? bm_Num gotMissed) && (u64 (OfflinePeriod config) <=? bm_Period gotMissed) then
      let '(p, s) := os_Write (a_Stakers a) it.2 (set_bits (os_Read (a_Stakers a) it.2) OfflineBit) in
      let s := os_Set s it.1 p in
      (with_stakers a s, setStatus e it.1 (Status (os_Read s p)))
    else (a, e).

Definition max128 : Z := 2 ^ 128 - 1.
Definition RewardPercentUnit : Z := 1000000.

(** {stake} * {validation score / duration} ^ 2 *)
Definition baseRewardWeight (stake validationScore duration : Z) : Z :=
  let w := stake * validationScore / duration in
  let w := w * validationScore / duration in
  if w >? max128 then max128 else w.

(** ({origination score} + {CONST} * {PoI}) * {validation score / duration} *)
Definition txRewardWeight (originationScore poi validationScore duration : Z) : Z :=
  let poiWithRatio := poi * TxRewardPoiImpact config / RewardPercentUnit in
  let w := (originationScore + poiWithRatio) * validationScore / duration in
  if w >? max128 then max128 else w.

Definition calcRewardWeights a (stakers : list (Z * SfcStaker)) (epochDuration : Z) : list Z * list Z :=
  let duration := if epochDuration =? 0 then 1 else epochDuration in
  let sc := a_Scores a in
  ((fun it : Z * SfcStaker => baseRewardWeight (CalcTotalStake it.2) (big_get (ActiveValidation sc) it.1) duration) <$> stakers,
   (fun it : Z * SfcStaker => txRewardWeight (big_get (ActiveOrigination sc) it.1) (big_get (StakerPOI (a_Poi a)) it.1)
                                (big_get (ActiveValidation sc) it.1) duration) <$> stakers).

Definition getRewardPerSec a (epoch : Z) : Z :=
  let r := BaseRewardPerSec (GetSfcConstants a epoch) in
  let r := if r =? 0 then InitialRewardPerSecond config else r in
  if r >? MaxRewardPerSecond config then MaxRewardPerSecond config else r.

Record Totals := mkTotals { tBase : Z; tTx : Z; tStake : Z; tDelegated : Z }.

(** One validator of the epoch, with its weights. *)
Definition writeMerit (epochPos : Z) (cheaters : list Z) (st : Totals * E) (x : Z * SfcStaker * (Z * Z)) : Totals * E :=
  let '(t, e) := st in
  let '(stakerID, staker, (base, tx)) := x in
  let t := mkTotals (tBase t) (tTx t) (tStake t + StakeAmount staker) (tDelegated t + DelegatedMe staker) in
  if bool_decide (stakerID ∈ cheaters) then (t, e)
  else if (base =? 0) && (tx =? 0) then (t, e)
  else
    let meritPos := ValidatorMerit hash_Of epochPos stakerID in
    let e := SetState e ContractAddress (MeritPos_StakeAmount meritPos) (BigTo256 (StakeAmount staker)) in
    let e := SetState e ContractAddress (MeritPos_DelegatedMe meritPos) (BigTo256 (DelegatedMe staker)) in
    let e := SetState e ContractAddress (MeritPos_BaseRewardWeight meritPos) (BigTo256 base) in
    let e := SetState e ContractAddress (MeritPos_TxRewardWeight meritPos) (BigTo256 tx) in
    (mkTotals (tBase t + base) (tTx t + tx) (tStake t) (tDelegated t), e).

(** The end of an epoch. *)
Definition sealSfc (epoch : Z) (cheaters : list Z) (stats : EpochStats) a e : App * E :=
  let a := if HasSfcConstants a epoch then SetSfcConstants a (u32 (epoch + 1)) (GetSfcConstants a epoch) else a in
  let '(stakers, s) := os_All (a_Stakers a) in
  let '(a, e) := foldl writeOffline (with_stakers a s, e) stakers in
  let epochPos := pos_EpochSnapshot hash_Of epoch in
  let '(vv, s) := os_GetSnap (a_Stakers a) epoch in
  let a := with_stakers a s in
  let epochValidators := prod_map id (os_Read s) <$> vv in
  let '(baseWeights, txWeights) := calcRewardWeights a epochValidators (Duration stats) in
  let '(t, e) := foldl (writeMerit epochPos cheaters) (mkTotals 0 0 0 0, e) (zip epochValidators (zip baseWeights txWeights)) in
  let baseRewardPerSec := getRewardPerSec a (u32 (epoch - 1)) in
  let rewards := Unix (Duration stats) * baseRewardPerSec + TotalFee stats in
  let totalSupply := a_TotalSupply a + rewards in
  let e := SetState e ContractAddress CurrentSealedEpoch (U64to256 epoch) in
  let a := SetTotalSupply a totalSupply in
  let put (e : E) k v := SetState e ContractAddress k v in
  let e := put e (EpochPos_TotalBaseRewardWeight epochPos) (BigTo256 (tBase t)) in
  let e := put e (EpochPos_TotalTxRewardWeight epochPos) (BigTo256 (tTx t)) in
  let e := put e (EpochPos_EpochFee epochPos) (BigTo256 (TotalFee stats)) in
  let e := put e (EpochPos_EndTime epochPos) (U64to256 (u64 (Unix (End_ stats)))) in
  let e := put e (EpochPos_Duration epochPos) (U64to256 (u64 (Unix (Duration stats)))) in
  let e := put e (EpochPos_BaseRewardPerSecond epochPos) (BigTo256 baseRewardPerSec) in
  let e := put e (EpochPos_StakeTotalAmount epochPos) (BigTo256 (tStake t)) in
  let e := put e (EpochPos_DelegationsTotalAmount epochPos) (BigTo256 (tDelegated t)) in
  let e := put e (EpochPos_TotalSupply epochPos) (BigTo256 totalSupply) in
  let e := put e CurrentSealedEpoch (U64to256 epoch) in
  let e := AddBalance e ContractAddress rewards in
  let '(all, s) := os_All (a_Stakers a) in
  let active := filter (fun it : Z * PS => Staker_Ok (os_Read s it.2) = true) all in
  (with_stakers a (os_SetSnap s (u32 (epoch + 1)) active), e).

Definition processSfc (epoch time : Z) (receipts : list (list Log)) (cheaters : list Z) (sealEpoch : bool) (stats : EpochStats) a e
    : go (App * E) :=
  a ← processLogs epoch time receipts a;
  '(a, e) ← go_fold writeCheater (a, e) cheaters;
  Ret (if sealEpoch then sealSfc epoch cheaters stats a e else (a, e)).

(** ** app/apply_genesis.go *)

(** A validator of the genesis becomes a staker; the same object is saved and
    collected for the first epoch. *)
Definition genesisStaker (time : Z) (st : S * list (Z * PS)) (v : GenesisValidator) : S * list (Z * PS) :=
  let '(p, s) := os_New st.1 (mkStaker 0 time 0 0 (gv_Stake v) 0 (gv_Address v) 0) in
  (os_Set s (gv_ID v) p, st.2 ++ [(gv_ID v, p)]).

Definition applyGenesis (balances : list Z) (validators : list GenesisValidator) (time : Z) a : App :=
  let a := with_blocks a (<[0 := time]> (a_Blocks a)) in
  let a := SetTotalSupply a (zsum balances) in
  let '(s, vv) := foldl (genesisStaker time) (a_Stakers a, []) validators in
  with_voting (with_stakers a (os_SetSnap s 1 vv)) (0, time).
End handlers.
