(* ===== verification/SfcSim.v ===== *)
(** * The caches of the application are invisible

    The handlers of the contract's logs run over any store that keeps the laws
    of [ObjStore].  [MapStore] is the plainest one: the tables themselves.  A
    run over any lawful store takes the same steps, faults included, and writes
    the same state of the EVM as the run over the plain tables it stands for:
    two nodes with the same tables and different caches stay together. *)

From S2P Require Import Prelude Bytes Pos Event VecStore EventBuffer SfcStore Sfc.

#[export] Instance bytes_le_rel_dec : RelDecision bytes_le := bytes_le_dec.

(** ** The plain tables *)

Record MapStore (K V : Type) `{Countable K} := mkMapStore { mp_table : gmap K V; mp_snaps : Z -> list (K * V) }.
Arguments mkMapStore {K V _ _} _ _.
Arguments mp_table {K V _ _} _.
Arguments mp_snaps {K V _ _} _ _.

Definition map_store {K V : Type} `{Countable K} (le : relation K) `{!RelDecision le} : ObjStore K V V (MapStore K V) := {|
  os_Get s k := (mp_table s !! k, s);
  os_Read s p := p;
  os_Write s p v := (v, s);
  os_New s v := (v, s);
  os_Set s k p := mkMapStore (<[k := p]> (mp_table s)) (mp_snaps s);
  os_Del s k := mkMapStore (delete k (mp_table s)) (mp_snaps s);
  os_All s := (sorted_entries le (mp_table s), s);
  os_SetSnap s e l := mkMapStore (mp_table s) (fun e' => if decide (e' = e) then l else mp_snaps s e');
  os_GetSnap s e := (mp_snaps s e, s);
  os_HasSnap s e k := bool_decide (k ∈ (mp_snaps s e).*1)
|}.

(** A cache that forgets everything. *)
Inductive nocache : Type := NoCache.
#[export] Instance nocache_lru {K V} : Lru K V nocache := {|
  lru_peek c k := None; lru_touch c k := c; lru_Add c k v := c; lru_Purge c := c
|}.

(** ** Related runs *)

Definition go_rel {A B} (R : A -> B -> Prop) (m : go A) (n : go B) : Prop :=
  match m, n with Ret a, Ret b => R a b | Fault f, Fault g => f = g | _, _ => False end.

Lemma go_rel_bind {A B A' B'} (R : A -> B -> Prop) (R' : A' -> B' -> Prop) m n k k' :
  go_rel R m n -> (forall a b, R a b -> go_rel R' (k a) (k' b)) -> go_rel R' (m ≫= k) (n ≫= k').
Proof. destruct m, n; cbn; naive_solver. Qed.

(** A step that does not depend on the state. *)
Lemma go_rel_same {A A' B'} (R' : A' -> B' -> Prop) (m : go A) k k' :
  (forall a, go_rel R' (k a) (k' a)) -> go_rel R' (m ≫= k) (m ≫= k').
Proof. intros Hk. apply (go_rel_bind eq); [by destruct m|]. intros a b ->. apply Hk. Qed.

Lemma go_rel_fold {X S T} (R : S -> T -> Prop) f g (l : list X) : forall s t, R s t ->
  (forall s t x, R s t -> go_rel R (f s x) (g t x)) -> go_rel R (go_fold f s l) (go_fold g t l).
Proof.
  induction l as [|x l IH]; intros s t Hst Hfg; cbn; [done|]. apply (go_rel_bind R); [by apply Hfg|]. intros s' t' Hst'. by apply IH.
Qed.

(** ** Missed blocks *)

Section downtime.
Context {B : Type} `{LruLaws Z BlocksMissed B}.

Definition missed_of (t : gmap Z BlocksMissed) (id : Z) : BlocksMissed := default (mkMissed 0 0) (t !! id).

Record downtime_rel (d : Downtime B) (t : gmap Z BlocksMissed) : Prop := {
  dr_table : bd_table d = t;
  dr_cache id x : lru_peek (bd_cache d) id = Some x -> x = missed_of t id
}.

Lemma GetBlocksMissed_rel d t id : downtime_rel d t ->
  exists d', GetBlocksMissed d id = (missed_of t id, d') /\ downtime_rel d' t.
Proof.
  intros [Ht Hc]. unfold GetBlocksMissed. destruct (lru_peek (bd_cache d) id) as [x|] eqn:Ex.
  - eexists. split; [by rewrite (Hc id x Ex)|]. split; cbn; [done|]. intros id' y. rewrite law_touch. apply Hc.
  - rewrite Ht. unfold missed_of at 1. destruct (t !! id) as [x|] eqn:Et; cbn; [|by exists d; split].
    eexists. split; [done|]. split; cbn; [done|]. intros id' y Hy. destruct (decide (id = id')) as [<-|Hne].
    + apply law_add_same in Hy. unfold missed_of. by rewrite Et.
    + apply law_add_other in Hy; [by apply Hc|done].
Qed.

Lemma IncBlocksMissed_rel d t id diff : downtime_rel d t ->
  downtime_rel (IncBlocksMissed d id diff)
    (<[id := mkMissed (u64 (bm_Num (missed_of t id) + 1)) (u64 (bm_Period (missed_of t id) + diff))]> t).
Proof.
  intros Hd. unfold IncBlocksMissed. destruct (GetBlocksMissed_rel d t id Hd) as (d' & -> & [Ht Hc]). split; cbn; [by rewrite Ht|].
  intros id' x Hx. unfold missed_of. destruct (decide (id = id')) as [<-|Hne].
  - apply law_add_same in Hx. by rewrite lookup_insert_eq.
  - apply law_add_other in Hx; [|done]. rewrite lookup_insert_ne by done. by apply Hc.
Qed.

Lemma ResetBlocksMissed_rel d t id : downtime_rel d t -> downtime_rel (ResetBlocksMissed d id) (delete id t).
Proof.
  intros [Ht Hc]. split; cbn; [by rewrite Ht|]. intros id' x Hx. unfold missed_of. destruct (decide (id = id')) as [<-|Hne].
  - apply law_add_same in Hx. by rewrite lookup_delete_eq.
  - apply law_add_other in Hx; [|done]. rewrite lookup_delete_ne by done. by apply Hc.
Qed.
End downtime.

(** The plain instance keeps them in the table alone. *)
#[export] Instance nocache_laws {K V} : LruLaws K V nocache.
Proof. by split. Qed.

(** ** The application over both stores *)

Section sim.
Context (hash_Of : list bytes -> hash) (ContractAddress : bytes) (config : EconomyConfig).
Context {S D B PS PD : Type} {repS : S -> gmap Z SfcStaker -> (Z -> list (Z * SfcStaker)) -> Prop} {ownS : S -> list PS -> Prop}
  {repD : D -> gmap bytes SfcDelegator -> (Z -> list (bytes * SfcDelegator)) -> Prop} {ownD : D -> list PD -> Prop}.
Context `{OS : ObjStore Z SfcStaker PS S} `{OD : ObjStore bytes SfcDelegator PD D} `{LB : LruLaws Z BlocksMissed B}.
Context {LS : ObjStoreLaws Z SfcStaker PS S Z.le repS ownS} {LD : ObjStoreLaws bytes SfcDelegator PD D bytes_le repD ownD}.

Abbreviation App := (AppStore S D B).
Abbreviation Plain := (AppStore (MapStore Z SfcStaker) (MapStore bytes SfcDelegator) nocache).
#[local] Instance plainS : ObjStore Z SfcStaker SfcStaker (MapStore Z SfcStaker) := map_store Z.le.
#[local] Instance plainD : ObjStore bytes SfcDelegator SfcDelegator (MapStore bytes SfcDelegator) := map_store bytes_le.

Record scores_rel (x : Scores B) (y : Scores nocache) : Prop := {
  sr_av : ActiveValidation x = ActiveValidation y;
  sr_dv : DirtyValidation x = DirtyValidation y;
  sr_ao : ActiveOrigination x = ActiveOrigination y;
  sr_do : DirtyOrigination x = DirtyOrigination y;
  sr_down : downtime_rel (BlockDowntime x) (bd_table (BlockDowntime y));
  sr_de : BlockDowntimeEpoch x = BlockDowntimeEpoch y;
  sr_ae : ActiveValidationEpoch x = ActiveValidationEpoch y
}.

(** The plain tables that a store stands for. *)
Record app_rel (a : App) (p : Plain) : Prop := {
  ar_stakers : repS (a_Stakers a) (mp_table (a_Stakers p)) (mp_snaps (a_Stakers p));
  ar_delegators : repD (a_Delegators a) (mp_table (a_Delegators p)) (mp_snaps (a_Delegators p));
  ar_constants : a_Constants a = a_Constants p;
  ar_supply : a_TotalSupply a = a_TotalSupply p;
  ar_voting : a_LastVoting a = a_LastVoting p;
  ar_blocks : a_Blocks a = a_Blocks p;
  ar_scores : scores_rel (a_Scores a) (a_Scores p);
  ar_poi : a_Poi a = a_Poi p;
  ar_rewards : a_Rewards a = a_Rewards p
}.

Lemma rel_stakers a p s t : app_rel a p -> repS s (mp_table t) (mp_snaps t) -> app_rel (with_stakers a s) (with_stakers p t).
Proof. intros [] Hs. by split. Qed.
Lemma rel_stakers_same a p s : app_rel a p -> repS s (mp_table (a_Stakers p)) (mp_snaps (a_Stakers p)) -> app_rel (with_stakers a s) p.
Proof. intros [] Hs. by split. Qed.
Lemma rel_delegators a p d t : app_rel a p -> repD d (mp_table t) (mp_snaps t) -> app_rel (with_delegators a d) (with_delegators p t).
Proof. intros [] Hs. by split. Qed.
Lemma rel_delegators_same a p d : app_rel a p -> repD d (mp_table (a_Delegators p)) (mp_snaps (a_Delegators p)) -> app_rel (with_delegators a d) p.
Proof. intros [] Hs. by split. Qed.
Lemma rel_rewards a p r : app_rel a p -> app_rel (with_rewards a r) (with_rewards p r).
Proof. intros []. by split. Qed.
Lemma rel_constants a p c : app_rel a p -> app_rel (with_constants a c) (with_constants p c).
Proof. intros []. by split. Qed.
Lemma rel_supply a p c : app_rel a p -> app_rel (with_supply a c) (with_supply p c).
Proof. intros []. by split. Qed.
Lemma rel_scores a p x y : app_rel a p -> scores_rel x y -> app_rel (with_scores a x) (with_scores p y).
Proof. intros [] Hs. by split. Qed.
Lemma rel_poi a p c : app_rel a p -> app_rel (with_poi a c) (with_poi p c).
Proof. intros []. by split. Qed.

Definition hrel (h : handler (S := S) (D := D) (B := B)) (h' : handler (S := MapStore Z SfcStaker) (D := MapStore bytes SfcDelegator) (B := nocache)) : Prop :=
  forall a p, app_rel a p -> go_rel (fun x y => x.1 = y.1 /\ app_rel x.2 y.2) (h a) (h' p).

Lemma hrel_when b h h' : hrel h h' -> hrel (when b h) (when b h').
Proof. intros Hh a p Hr. destruct b; [by apply Hh|done]. Qed.

Lemma created_stake_sim epoch time l : hrel (onCreatedStake epoch time l) (onCreatedStake epoch time l).
Proof.
  intros a p Hr. unfold onCreatedStake. apply go_rel_same. intros t1. apply go_rel_same. intros t2.
  set (v := mkStaker _ _ _ _ _ _ _ _). destruct (os_new (a_Stakers a) _ _ (topic_StakerID t1) v (ar_stakers _ _ Hr)) as (q & s2 & -> & Hs).
  cbn. split; [done|]. by apply (rel_stakers a p _ (mkMapStore _ _)).
Qed.

Lemma increased_stake_sim l : hrel (onIncreasedStake l) (onIncreasedStake l).
Proof.
  intros a p Hr. unfold onIncreasedStake. apply go_rel_same. intros t1.
  destruct (os_get (a_Stakers a) _ _ (topic_StakerID t1) (ar_stakers _ _ Hr)) as (r & s' & -> & Hs & Hm). cbn.
  destruct (mp_table (a_Stakers p) !! topic_StakerID t1) as [v|].
  - destruct Hm as (q & -> & Hv & Hw). rewrite Hv.
    destruct (Hw (set_amounts v (data_word (l_Data l) 0) (DelegatedMe v))) as (q' & s2 & -> & Hs2 & _).
    cbn. split; [done|]. by apply (rel_stakers a p _ (mkMapStore _ _)).
  - subst r. cbn. split; [done|]. by apply (rel_stakers a p).
Qed.

Lemma updated_stake_sim l : hrel (onUpdatedStake l) (onUpdatedStake l).
Proof.
  intros a p Hr. unfold onUpdatedStake. apply go_rel_same. intros t1.
  destruct (os_get (a_Stakers a) _ _ (topic_StakerID t1) (ar_stakers _ _ Hr)) as (r & s' & -> & Hs & Hm). cbn.
  destruct (mp_table (a_Stakers p) !! topic_StakerID t1) as [v|].
  - destruct Hm as (q & -> & Hv & Hw). rewrite Hv. destruct (Hw (set_amounts v (data_word (l_Data l) 0) (data_word (l_Data l) 1))) as (q' & s2 & -> & Hs2 & _).
    cbn. split; [done|]. by apply (rel_stakers a p _ (mkMapStore _ _)).
  - subst r. cbn. split; [done|]. by apply (rel_stakers a p).
Qed.

Lemma deactivated_stake_sim epoch time l : hrel (onDeactivatedStake epoch time l) (onDeactivatedStake epoch time l).
Proof.
  intros a p Hr. unfold onDeactivatedStake. apply go_rel_same. intros t1.
  destruct (os_get (a_Stakers a) _ _ (topic_StakerID t1) (ar_stakers _ _ Hr)) as (r & s' & -> & Hs & Hm). cbn.
  destruct (mp_table (a_Stakers p) !! topic_StakerID t1) as [v|]; [|by subst r].
  destruct Hm as (q & -> & Hv & Hw). rewrite Hv. destruct (Hw (deactivate v epoch time)) as (q' & s2 & -> & Hs2 & _).
  cbn. split; [done|]. by apply (rel_stakers a p _ (mkMapStore _ _)).
Qed.

Lemma created_delegation_sim epoch time l : hrel (onCreatedDelegation epoch time l) (onCreatedDelegation epoch time l).
Proof.
  intros a p Hr. unfold onCreatedDelegation. apply go_rel_same. intros t1. apply go_rel_same. intros t2.
  destruct (os_get (a_Stakers a) _ _ (topic_StakerID t2) (ar_stakers _ _ Hr)) as (r & s' & -> & Hs & Hm). cbn.
  destruct (mp_table (a_Stakers p) !! topic_StakerID t2) as [v|].
  - destruct Hm as (q & -> & Hv & Hw). rewrite Hv.
    destruct (Hw (set_amounts v (StakeAmount v) (DelegatedMe v + data_word (l_Data l) 0))) as (q' & s2 & -> & Hs2 & _).
    set (dv := mkDelegator _ _ _ _ _ _). destruct (os_new (a_Delegators a) _ _ (topic_Address t1) dv (ar_delegators _ _ Hr)) as (qd & d2 & -> & Hd).
    cbn. split; [done|]. apply (rel_delegators _ (with_stakers p _) _ (mkMapStore _ _)); [|done]. by apply (rel_stakers a p _ (mkMapStore _ _)).
  - subst r. cbn. split; [done|]. by apply (rel_stakers a p).
Qed.

Lemma deactivated_delegation_sim epoch time l : hrel (onDeactivatedDelegation epoch time l) (onDeactivatedDelegation epoch time l).
Proof.
  intros a p Hr. unfold onDeactivatedDelegation. apply go_rel_same. intros t1.
  destruct (os_get (a_Delegators a) _ _ (topic_Address t1) (ar_delegators _ _ Hr)) as (r & d' & -> & Hd & Hm). cbn.
  destruct (mp_table (a_Delegators p) !! topic_Address t1) as [dl|]; [|by subst r].
  destruct Hm as (qd & -> & Hv & Hw). rewrite Hv.
  destruct (os_get (a_Stakers a) _ _ (ToStakerID dl) (ar_stakers _ _ Hr)) as (r & s' & -> & Hs & Hms).
  set (dv := mkDelegator _ _ _ _ _ _). destruct (Hw dv) as (qd' & d2 & -> & Hd2 & _).
  destruct (mp_table (a_Stakers p) !! ToStakerID dl) as [v|].
  - destruct Hms as (q & -> & Hvs & Hws). rewrite Hvs. set (left := DelegatedMe v - Amount dl).
    destruct (Hws (set_amounts v (StakeAmount v) (if left <? 0 then 0 else left))) as (q' & s2 & -> & Hs2 & _).
    cbn. split; [done|]. apply (rel_delegators _ (with_stakers p _) _ (mkMapStore _ _)); [|done]. by apply (rel_stakers a p _ (mkMapStore _ _)).
  - subst r. cbn. split; [done|]. apply (rel_delegators _ (with_stakers p _) _ (mkMapStore _ _)); [|done]. by apply (rel_stakers a p).
Qed.

Lemma updated_delegation_sim l : hrel (onUpdatedDelegation l) (onUpdatedDelegation l).
Proof.
  intros a p Hr. unfold onUpdatedDelegation. apply go_rel_same. intros t1. apply go_rel_same. intros t3.
  destruct (os_get (a_Delegators a) _ _ (topic_Address t1) (ar_delegators _ _ Hr)) as (r & d' & -> & Hd & Hm). cbn.
  destruct (mp_table (a_Delegators p) !! topic_Address t1) as [dl|].
  - destruct Hm as (qd & -> & Hv & Hw). rewrite Hv. set (dv := mkDelegator _ _ _ _ _ _). destruct (Hw dv) as (qd' & d2 & -> & Hd2 & _).
    cbn. split; [done|]. by apply (rel_delegators a p _ (mkMapStore _ _)).
  - subst r. cbn. split; [done|]. by apply (rel_delegators a p).
Qed.

Lemma withdrawn_stake_sim l : hrel (onWithdrawnStake l) (onWithdrawnStake l).
Proof.
  intros a p Hr. unfold onWithdrawnStake. apply go_rel_same. intros t1. cbn. split; [done|].
  pose proof (os_del (a_Stakers a) _ _ (topic_StakerID t1) (ar_stakers _ _ Hr)) as Hs. destruct Hr as [R1 R2 R3 R4 R5 R6 [S1 S2 S3 S4 S5 S6 S7] R8 R9].
  unfold delAllStakerData. split; cbn; try done; try (by rewrite R8); try (by rewrite R9).
  split; cbn; try done; try congruence. by apply ResetBlocksMissed_rel.
Qed.

Lemma withdrawn_delegation_sim l : hrel (onWithdrawnDelegation l) (onWithdrawnDelegation l).
Proof.
  intros a p Hr. unfold onWithdrawnDelegation. apply go_rel_same. intros t1. cbn. split; [done|].
  pose proof (os_del (a_Delegators a) _ _ (topic_Address t1) (ar_delegators _ _ Hr)) as Hs. destruct Hr as [R1 R2 R3 R4 R5 R6 R7 R8 R9].
  unfold delAllDelegatorData. split; cbn; try done. by rewrite R9.
Qed.

Lemma updated_base_reward_sim epoch l : hrel (onUpdatedBaseReward epoch l) (onUpdatedBaseReward epoch l).
Proof.
  intros a p Hr. unfold onUpdatedBaseReward, SetSfcConstants, GetSfcConstants. rewrite (ar_constants _ _ Hr). split; [done|]. by apply rel_constants.
Qed.

Lemma updated_gas_power_sim epoch l : hrel (onUpdatedGasPower epoch l) (onUpdatedGasPower epoch l).
Proof.
  intros a p Hr. unfold onUpdatedGasPower, SetSfcConstants, GetSfcConstants. rewrite (ar_constants _ _ Hr). split; [done|]. by apply rel_constants.
Qed.

Lemma claimed_validator_sim l : hrel (onClaimedValidatorReward l) (onClaimedValidatorReward l).
Proof.
  intros a p Hr. unfold onClaimedValidatorReward. apply go_rel_same. intros t1. rewrite (ar_rewards _ _ Hr). split; [done|]. by apply rel_rewards.
Qed.

Lemma claimed_delegation_sim l : hrel (onClaimedDelegationReward l) (onClaimedDelegationReward l).
Proof.
  intros a p Hr. unfold onClaimedDelegationReward. apply go_rel_same. intros t1. apply go_rel_same. intros t2.
  rewrite (ar_rewards _ _ Hr). split; [done|]. by apply rel_rewards.
Qed.

Lemma run_handlers_sim hs hs' : Forall2 hrel hs hs' -> forall a p, app_rel a p -> go_rel app_rel (run_handlers hs a) (run_handlers hs' p).
Proof.
  induction 1 as [|h h' hs hs' Hh Hhs IH]; intros a p Hr; cbn [run_handlers]; [done|].
  apply (go_rel_bind (fun x y => x.1 = y.1 /\ app_rel x.2 y.2)); [by apply Hh|].
  intros [b1 a'] [b2 p'] [Hb Hr']. cbn in Hb, Hr'. subst b2. destruct b1; [by apply IH|done].
Qed.

Lemma log_handlers_sim epoch time t0 l : Forall2 hrel (log_handlers hash_Of epoch time t0 l) (log_handlers hash_Of epoch time t0 l).
Proof.
  unfold log_handlers.
  apply Forall2_cons_2; [apply hrel_when, created_stake_sim|].
  apply Forall2_cons_2; [apply hrel_when, increased_stake_sim|].
  apply Forall2_cons_2; [apply hrel_when, created_delegation_sim|].
  apply Forall2_cons_2; [apply hrel_when, deactivated_stake_sim|].
  apply Forall2_cons_2; [apply hrel_when, deactivated_delegation_sim|].
  apply Forall2_cons_2; [apply hrel_when, updated_stake_sim|].
  apply Forall2_cons_2; [apply hrel_when, updated_delegation_sim|].
  apply Forall2_cons_2; [apply hrel_when, withdrawn_stake_sim|].
  apply Forall2_cons_2; [apply hrel_when, withdrawn_delegation_sim|].
  apply Forall2_cons_2; [apply hrel_when, updated_base_reward_sim|].
  apply Forall2_cons_2; [apply hrel_when, updated_gas_power_sim|].
  apply Forall2_cons_2; [apply hrel_when, claimed_validator_sim|].
  apply Forall2_cons_2; [apply hrel_when, claimed_delegation_sim|].
  apply Forall2_nil_2.
Qed.

Lemma processLogs_sim epoch time receipts a p : app_rel a p ->
  go_rel app_rel (processLogs hash_Of ContractAddress epoch time receipts a) (processLogs hash_Of ContractAddress epoch time receipts p).
Proof.
  intros Hr. apply go_rel_fold; [done|]. intros a1 p1 l Hr1. unfold processLog. case_match; [done|]. apply go_rel_same. intros t0.
  apply run_handlers_sim; [apply log_handlers_sim|done].
Qed.

(** ** The cheaters and the end of the epoch *)

Context {E : Type} `{SE : StateDB E}.
Definition state_rel (x : App * E) (y : Plain * E) : Prop := app_rel x.1 y.1 /\ x.2 = y.2.

Lemma writeCheater_sim x y id : state_rel x y ->
  go_rel state_rel (writeCheater hash_Of ContractAddress x id) (writeCheater hash_Of ContractAddress y id).
Proof.
  destruct x as [a e], y as [p e']. intros [Hr He]. cbn in Hr, He. subst e'. unfold writeCheater.
  destruct (os_get (a_Stakers a) _ _ id (ar_stakers _ _ Hr)) as (r & s' & -> & Hs & Hm). cbn.
  destruct (mp_table (a_Stakers p) !! id) as [v|]; [|by subst r].
  destruct Hm as (q & -> & Hv & Hw). rewrite Hv. destruct (Staker_HasFork v).
  - cbn. split; [|done]. by apply (rel_stakers a p).
  - destruct (Hw (set_bits v ForkBit)) as (q' & s2 & -> & Hs2 & Hv2). cbn. rewrite Hv2. split; [|done].
    by apply (rel_stakers a p _ (mkMapStore _ _)).
Qed.

Lemma writeOffline_step a p e id q (ps : list PS) : app_rel a p -> ownS (a_Stakers a) (q :: ps) ->
  let x := writeOffline hash_Of ContractAddress config (a, e) (id, q) in
  state_rel x (writeOffline hash_Of ContractAddress config (p, e) (id, os_Read (a_Stakers a) q)) /\
  ownS (a_Stakers x.1) ps /\ forall q0, q0 ∈ ps -> os_Read (a_Stakers x.1) q0 = os_Read (a_Stakers a) q0.
Proof.
  intros Hr Ho. cbv zeta. set (v := os_Read (a_Stakers a) q). unfold writeOffline. cbn [fst snd]. fold v.
  change (os_Read (ObjStore := plainS) (a_Stakers p) v) with v.
  assert (ownS (a_Stakers a) ps) as Ho' by (eapply os_own_sub; [|exact Ho]; by apply sublist_cons).
  destruct (Staker_Offline v); [by split_and!|].
  destruct (GetBlocksMissed_rel _ _ id (sr_down _ _ (ar_scores _ _ Hr))) as (d' & -> & Hd).
  assert (downtime_rel (BlockDowntime (a_Scores p)) (bd_table (BlockDowntime (a_Scores p)))) as Hn by (split; [done|]; intros k x Hx; discriminate Hx).
  destruct (GetBlocksMissed_rel _ _ id Hn) as (d2 & -> & Hd2).
  set (sc1 := mkScores _ _ _ _ d' _ _). set (sc2 := mkScores _ _ _ _ d2 _ _).
  assert (scores_rel sc1 sc2) as Hsc.
  { destruct (ar_scores _ _ Hr) as [S1 S2 S3 S4 S5 S6 S7]. split; cbn; try done. by rewrite (dr_table _ _ Hd2). }
  pose proof (rel_scores a p sc1 sc2 Hr Hsc) as Hr2. destruct (_ && _); [|by split_and!].
  destruct (os_own_set (a_Stakers a) _ _ id q ps (set_bits v OfflineBit) (ar_stakers _ _ Hr) Ho) as (q' & s2 & E2 & Hs2 & Ho2 & Hv2 & Hq).
  cbn [with_scores a_Stakers]. fold v. rewrite E2, Hv2. cbn. split_and!; [|done|done]. split; [|done].
  by apply (rel_stakers _ _ _ (mkMapStore _ _)).
Qed.

Lemma writeOffline_sim stakers : forall a p e, app_rel a p -> ownS (a_Stakers a) stakers.*2 ->
  state_rel (foldl (writeOffline hash_Of ContractAddress config) (a, e) stakers)
    (foldl (writeOffline hash_Of ContractAddress config) (p, e) (prod_map id (os_Read (a_Stakers a)) <$> stakers)).
Proof.
  induction stakers as [|[k q] stakers IH]; intros a p e Hr Ho; [by split|]. rewrite fmap_cons. cbn [foldl].
  change (prod_map id (os_Read (a_Stakers a)) (k, q)) with (k, os_Read (a_Stakers a) q).
  destruct (writeOffline_step a p e k q stakers.*2 Hr Ho) as ([Hr' He] & Ho' & Hq).
  destruct (writeOffline _ _ _ (a, e) _) as [a' e1], (writeOffline _ _ _ (p, e) _) as [p' e2]. cbn in Hr', He, Ho', Hq. subst e2.
  replace (prod_map id (os_Read (a_Stakers a)) <$> stakers) with (prod_map id (os_Read (a_Stakers a')) <$> stakers); [by apply IH|].
  apply list_fmap_ext. intros i [k0 q0] Hi. unfold prod_map. cbn. f_equal. apply Hq. apply (list_elem_of_fmap_2 snd _ (k0, q0)).
  by eapply list_elem_of_lookup_2.
Qed.

Lemma calcRewardWeights_rel a p vals duration : app_rel a p ->
  calcRewardWeights config a vals duration = calcRewardWeights config p vals duration.
Proof.
  intros Hr. unfold calcRewardWeights. destruct (ar_scores _ _ Hr) as [S1 S2 S3 S4 S5 S6 S7]. by rewrite S1, S3, (ar_poi _ _ Hr).
Qed.

(** The next epoch has no validators yet. *)
Definition epoch_fresh (p : Plain) (epoch : Z) : Prop := mp_snaps (a_Stakers p) (u32 (epoch + 1)) = [].

Lemma writeOffline_snaps a e it : mp_snaps (a_Stakers (writeOffline hash_Of ContractAddress config (a : Plain, e) it).1) = mp_snaps (a_Stakers a).
Proof. unfold writeOffline. case_match; [done|]. destruct (GetBlocksMissed _ _) as [m d]. case_match; done. Qed.

Lemma writeOffline_fold_snaps l : forall (a : Plain) (e : E),
  mp_snaps (a_Stakers (foldl (writeOffline hash_Of ContractAddress config) (a, e) l).1) = mp_snaps (a_Stakers a).
Proof.
  induction l as [|it l IH]; intros a e; [done|]. cbn [foldl]. pose proof (writeOffline_snaps a e it) as E1.
  destruct (writeOffline _ _ _ (a, e) it) as [a' e']. by rewrite IH.
Qed.

Lemma filter_fmap_sim (f : Z * PS -> Z * SfcStaker) (l : list (Z * PS)) :
  f <$> filter (fun it => Staker_Ok (f it).2 = true) l = filter (fun it : Z * SfcStaker => Staker_Ok it.2 = true) (f <$> l).
Proof.
  induction l as [|x l IH]; [done|]. rewrite fmap_cons, !filter_cons. destruct (decide (Staker_Ok (f x).2 = true)); [|done].
  by rewrite fmap_cons, IH.
Qed.

Lemma snd_filter_sublist (P : Z * PS -> Prop) `{!forall x, Decision (P x)} (l : list (Z * PS)) : (filter P l).*2 `sublist_of` l.*2.
Proof.
  induction l as [|x l IH]; [done|]. rewrite filter_cons. cbn. destruct (decide (P x)); cbn; [by apply sublist_skip|by apply sublist_cons].
Qed.

Lemma fst_filter_sublist {X} (P : Z * X -> Prop) `{!forall x, Decision (P x)} (l : list (Z * X)) : (filter P l).*1 `sublist_of` l.*1.
Proof.
  induction l as [|x l IH]; [done|]. rewrite filter_cons. cbn. destruct (decide (P x)); cbn; [by apply sublist_skip|by apply sublist_cons].
Qed.

Lemma sealSfc_sim epoch cheaters stats a p e : app_rel a p -> epoch_fresh p epoch ->
  state_rel (sealSfc hash_Of ContractAddress config epoch cheaters stats a e) (sealSfc hash_Of ContractAddress config epoch cheaters stats p e).
Proof.
  intros Hr Hfresh. unfold sealSfc.
  assert (exists a0 p0, (if HasSfcConstants a epoch then SetSfcConstants a (u32 (epoch + 1)) (GetSfcConstants a epoch) else a) = a0 /\
    (if HasSfcConstants p epoch then SetSfcConstants p (u32 (epoch + 1)) (GetSfcConstants p epoch) else p) = p0 /\
    app_rel a0 p0 /\ epoch_fresh p0 epoch) as (a0 & p0 & -> & -> & Hr0 & Hf0).
  { do 2 eexists. split; [done|]. split; [done|]. unfold HasSfcConstants, SetSfcConstants, GetSfcConstants. rewrite (ar_constants _ _ Hr).
    case_match; split; try done. by apply rel_constants. }
  clear Hr Hfresh a p. rename a0 into a, p0 into p, Hr0 into Hr, Hf0 into Hfresh.
  destruct (os_all (a_Stakers a) _ _ (ar_stakers _ _ Hr)) as (l & s1 & -> & Hs1 & Ho & Hl).
  change (os_All (ObjStore := plainS) (a_Stakers p)) with (sorted_entries Z.le (mp_table (a_Stakers p)), a_Stakers p).
  cbv beta iota. rewrite <-Hl.
  pose proof (writeOffline_sim l (with_stakers a s1) (with_stakers p (a_Stakers p)) e (rel_stakers a p s1 (a_Stakers p) Hr Hs1) Ho) as [Hr1 He].
  pose proof (writeOffline_fold_snaps (prod_map id (os_Read s1) <$> l) (with_stakers p (a_Stakers p)) e) as Hsn.
  change (a_Stakers (with_stakers a s1)) with s1 in *.
  destruct (foldl (writeOffline _ _ _) (with_stakers a s1, e) l) as [a1 e1].
  destruct (foldl (writeOffline _ _ _) (with_stakers p (a_Stakers p), e) _) as [p1 e1']. cbn [fst snd] in Hr1, He, Hsn. subst e1'.
  assert (epoch_fresh p1 epoch) as Hf1 by (unfold epoch_fresh; by rewrite Hsn). clear Hsn Hfresh.
  destruct (os_get_snap (a_Stakers a1) _ _ epoch (ar_stakers _ _ Hr1)) as (vv & s2 & -> & Hs2 & Hvv).
  change (os_GetSnap (ObjStore := plainS) (a_Stakers p1) epoch) with (mp_snaps (a_Stakers p1) epoch, a_Stakers p1).
  cbv beta iota. rewrite Hvv.
  assert (prod_map id (os_Read (ObjStore := plainS) (a_Stakers p1)) <$> mp_snaps (a_Stakers p1) epoch = mp_snaps (a_Stakers p1) epoch) as ->.
  { rewrite <-(list_fmap_id (mp_snaps _ _)) at 2. apply list_fmap_ext. by intros i [k v] _. }
  pose proof (rel_stakers a1 p1 s2 (a_Stakers p1) Hr1 Hs2) as Hr2.
  rewrite (calcRewardWeights_rel _ _ _ _ Hr2). destruct (calcRewardWeights config (with_stakers p1 (a_Stakers p1)) _ _) as [bw tw].
  destruct (foldl (writeMerit _ _ _ _) _ _) as [t e2].
  unfold getRewardPerSec, GetSfcConstants. rewrite (ar_constants _ _ Hr2), (ar_supply _ _ Hr2).
  set (rate := if _ >? MaxRewardPerSecond config then _ else _). set (supply := a_TotalSupply _ + _).
  pose proof (rel_supply _ _ (Z.abs supply) Hr2) as Hr3. unfold SetTotalSupply.
  destruct (os_all s2 _ _ Hs2) as (l2 & s3 & E3 & Hs3 & Ho3 & Hl3).
  change (os_All (ObjStore := plainS) (a_Stakers (with_supply (with_stakers p1 (a_Stakers p1)) (Z.abs supply))))
    with (sorted_entries Z.le (mp_table (a_Stakers p1)), a_Stakers p1).
  change (a_Stakers (with_supply (with_stakers a1 s2) (Z.abs supply))) with s2. rewrite E3. cbv beta iota. split; [|done]. cbn [fst].
  pose proof (filter_fmap_sim (prod_map id (os_Read s3)) l2) as Hff. rewrite Hl3 in Hff.
  set (act := filter (fun it : Z * PS => Staker_Ok (os_Read s3 it.2) = true) l2) in *.
  change (filter (fun it : Z * PS => Staker_Ok ((prod_map id (os_Read s3) it).2) = true) l2) with act in Hff.
  apply rel_stakers; [exact Hr3|]. cbn [os_SetSnap plainS map_store mp_table mp_snaps].
  match goal with |- repS _ _ (fun e' => if _ then ?l else _) => assert (l = prod_map id (os_Read s3) <$> act) as -> by (symmetry; exact Hff) end.
  apply (os_set_snap s3 _ _ _ act Hs3).
  - eapply os_own_sub; [|exact Ho3]. apply snd_filter_sublist.
  - exact Hf1.
  - eapply sublist_NoDup; [|apply fst_filter_sublist]. replace l2.*1 with (sorted_entries Z.le (mp_table (a_Stakers p1))).*1; [apply obj_sorted_entries_nodup|].
    rewrite <-Hl3, <-list_fmap_compose. apply list_fmap_ext. by intros i [k q] _.
  - rewrite Hff. eapply sublist_sorted; [apply sublist_filter|]. apply sorted_entries_sorted; apply _.
Qed.

(** The snapshots do not change while logs are read. *)
Definition keeps_snaps (h : handler (S := MapStore Z SfcStaker) (D := MapStore bytes SfcDelegator) (B := nocache)) : Prop :=
  forall (a a' : Plain) c, h a = Ret (c, a') -> mp_snaps (a_Stakers a') = mp_snaps (a_Stakers a).

Lemma keeps_when b h : keeps_snaps h -> keeps_snaps (when b h).
Proof. intros Hh a a' c. destruct b; [apply Hh|]. cbn. by intros [= _ ->]. Qed.

Ltac keeps_snaps_tac f :=
  apply keeps_when; intros a a' c Ha; unfold f in Ha; repeat (apply go_bind_inv in Ha as (? & _ & Ha)); cbn in Ha;
  repeat case_match; simplify_eq; done.

Lemma log_handlers_keep (epoch time : Z) t0 l : Forall keeps_snaps (log_handlers hash_Of epoch time t0 l).
Proof.
  unfold log_handlers.
  apply Forall_cons_2; [keeps_snaps_tac @onCreatedStake|].
  apply Forall_cons_2; [keeps_snaps_tac @onIncreasedStake|].
  apply Forall_cons_2; [keeps_snaps_tac @onCreatedDelegation|].
  apply Forall_cons_2; [keeps_snaps_tac @onDeactivatedStake|].
  apply Forall_cons_2; [keeps_snaps_tac @onDeactivatedDelegation|].
  apply Forall_cons_2; [keeps_snaps_tac @onUpdatedStake|].
  apply Forall_cons_2; [keeps_snaps_tac @onUpdatedDelegation|].
  apply Forall_cons_2; [keeps_snaps_tac @onWithdrawnStake|].
  apply Forall_cons_2; [keeps_snaps_tac @onWithdrawnDelegation|].
  apply Forall_cons_2; [keeps_snaps_tac @onUpdatedBaseReward|].
  apply Forall_cons_2; [keeps_snaps_tac @onUpdatedGasPower|].
  apply Forall_cons_2; [keeps_snaps_tac @onClaimedValidatorReward|].
  apply Forall_cons_2; [keeps_snaps_tac @onClaimedDelegationReward|].
  apply Forall_nil_2.
Qed.

Lemma processLogs_snaps (epoch time : Z) (receipts : list (list Log)) (p p' : Plain) :
  processLogs hash_Of ContractAddress epoch time receipts p = Ret p' -> mp_snaps (a_Stakers p') = mp_snaps (a_Stakers p).
Proof.
  unfold processLogs. generalize (mjoin receipts). intros ls. revert p. induction ls as [|l ls IH]; intros p Hrun; cbn in Hrun; [by injection Hrun as ->|].
  apply go_bind_inv in Hrun as (p1 & Hl & Hrun). rewrite (IH _ Hrun). clear IH Hrun. unfold processLog in Hl. case_match; [by injection Hl as ->|].
  apply go_bind_inv in Hl as (t0 & _ & Hrun). pose proof (log_handlers_keep epoch time t0 l) as Hall.
  revert p Hrun. induction Hall as [|h hs Hh _ IH]; intros p Hrun; cbn in Hrun; [by injection Hrun as ->|].
  apply go_bind_inv in Hrun as ([b a] & Ha & Hrun). rewrite <-(Hh _ _ _ Ha). destruct b; [by apply IH|by injection Hrun as ->].
Qed.

Lemma writeCheaters_snaps (ids : list Z) : forall (p p' : Plain) (e e' : E),
  go_fold (writeCheater hash_Of ContractAddress) (p, e) ids = Ret (p', e') -> mp_snaps (a_Stakers p') = mp_snaps (a_Stakers p).
Proof.
  induction ids as [|id ids IH]; intros p p' e e' Hrun; cbn [go_fold] in Hrun; [by injection Hrun as -> _|].
  apply go_bind_inv in Hrun as ([p1 e1] & H1 & Hrun). rewrite (IH _ _ _ _ Hrun). unfold writeCheater in H1. cbn in H1.
  repeat case_match; by simplify_eq.
Qed.

(** A whole block of the index, over any lawful store and over the tables. *)
Lemma processSfc_sim (epoch time : Z) (receipts : list (list Log)) (cheaters : list Z) (sealEpoch : bool) (stats : EpochStats) (a : App) (p : Plain) (e : E) : app_rel a p -> epoch_fresh p epoch ->
  go_rel state_rel (processSfc hash_Of ContractAddress config epoch time receipts cheaters sealEpoch stats a e)
    (processSfc hash_Of ContractAddress config epoch time receipts cheaters sealEpoch stats p e).
Proof.
  intros Hr Hf. unfold processSfc. pose proof (processLogs_sim epoch time receipts a p Hr) as Hlogs.
  pose proof (processLogs_snaps epoch time receipts p) as Hsn.
  destruct (processLogs _ _ _ _ _ a) as [a1|f], (processLogs _ _ _ _ _ p) as [p1|f']; try done. rewrite !go_bind_Ret. cbn in Hlogs.
  assert (go_rel state_rel (go_fold (writeCheater hash_Of ContractAddress) (a1, e) cheaters) (go_fold (writeCheater hash_Of ContractAddress) (p1, e) cheaters))
    as Hch by (apply go_rel_fold; [by split|]; intros; by apply writeCheater_sim).
  pose proof (fun p' e' => writeCheaters_snaps cheaters p1 p' e e') as Hsn2.
  destruct (go_fold (writeCheater _ _) (a1, e) cheaters) as [[a2 e2]|f], (go_fold (writeCheater _ _) (p1, e) cheaters) as [[p2 e2']|f']; try done.
  rewrite !go_bind_Ret. destruct Hch as [Hr2 He]. cbn in Hr2, He. subst e2'. cbn. destruct sealEpoch; [|by split].
  apply sealSfc_sim; [done|]. unfold epoch_fresh in *. by rewrite (Hsn2 _ _ eq_refl), (Hsn _ eq_refl).
Qed.
End sim.

(** * What the index of the SFC contract guarantees

    The snapshot of a sealed epoch adds up, and where the laws of the caches
    fail: the genesis puts one staker object in two caches. *)

(** ** An example network *)

(** The state of the EVM as two maps. *)
Record MemState := mkMemState { ms_storage : gmap (bytes * hash) hash; ms_balance : gmap bytes Z }.
#[export] Instance mem_state : StateDB MemState := {|
  SetState e a k v := mkMemState (<[(a, k) := v]> (ms_storage e)) (ms_balance e);
  GetState e a k := default ZeroHash (ms_storage e !! (a, k));
  AddBalance e a x := mkMemState (ms_storage e) (<[a := default 0 (ms_balance e !! a) + x]> (ms_balance e));
  GetBalance e a := default 0 (ms_balance e !! a)
|}.
#[export] Instance mem_state_laws : StateDBLaws MemState.
Proof.
  split; intros; cbn; try done.
  - case_decide as Hk; [destruct Hk as [-> ->]; by rewrite lookup_insert_eq|]. rewrite lookup_insert_ne; [done|]. intros [= <- <-]. by apply Hk.
  - case_decide as Hk; [subst; by rewrite lookup_insert_eq|]. by rewrite lookup_insert_ne.
Qed.

Definition toy_hash (l : list bytes) : hash := be_encode 32 (foldl (fun acc b => (acc * 257 + b + 1) mod (2 ^ 255 - 19)) 0 (mjoin l)).
Definition toy_contract : bytes := replicate 20 252.
Definition toy_config : EconomyConfig := mkEconomy (900 * second) 3 10 (600 * second) 450000 16483988584467592592 (2 * 16483988584467592592).

Abbreviation NodeStakers := (PtrStore Z SfcStaker (lrulist Z nat) (simplelru Z (list (Z * nat)))).
Abbreviation NodeDelegators := (PtrStore bytes SfcDelegator (lrulist bytes nat) (simplelru Z (list (bytes * nat)))).
Abbreviation NodeStore := (AppStore NodeStakers NodeDelegators (simplelru Z BlocksMissed)).
#[export] Instance node_stakers : ObjStore Z SfcStaker nat NodeStakers := ptr_store Z.le.
#[export] Instance node_delegators : ObjStore bytes SfcDelegator nat NodeDelegators := ptr_store bytes_le.

Definition empty_cache {K} `{EqDecision K} (n : nat) : lrulist K nat := mkLrulist n [] (conj (NoDup_nil_2) (Nat.le_0_l n)).
Definition new_node : NodeStore :=
  mkAppStore (mkPtrStore [] ∅ (empty_cache 8) ∅ (mkSimplelru 2 [])) (mkPtrStore [] ∅ (empty_cache 8) ∅ (mkSimplelru 2 []))
    ∅ 0 (0, 0) ∅ (mkScores ∅ ∅ ∅ ∅ (mkDowntime ∅ (mkSimplelru 8 [])) ∅ ∅) (mkPoi ∅ ∅ ∅ ∅ ∅) (mkRewards ∅ ∅ ∅).

(** The same databases opened by a new process. *)
Definition restart (a : NodeStore) : NodeStore :=
  let sc := a_Scores a in
  with_scores
    (with_delegators (with_stakers a (restarted (empty_cache 8) (mkSimplelru 2 []) (a_Stakers a)))
       (restarted (empty_cache 8) (mkSimplelru 2 []) (a_Delegators a)))
    (mkScores (ActiveValidation sc) (DirtyValidation sc) (ActiveOrigination sc) (DirtyOrigination sc)
       (mkDowntime (bd_table (BlockDowntime sc)) (mkSimplelru 8 [])) (BlockDowntimeEpoch sc) (ActiveValidationEpoch sc)).

(** The plain tables on disk. *)
Abbreviation PlainStore := (AppStore (MapStore Z SfcStaker) (MapStore bytes SfcDelegator) nocache).
Definition plain_of (a : NodeStore) : PlainStore :=
  let sc := a_Scores a in
  mkAppStore (mkMapStore (ps_table (a_Stakers a)) (fun e => sorted_entries Z.le (with_epoch (ps_snaps (a_Stakers a)) e)))
    (mkMapStore (ps_table (a_Delegators a)) (fun e => sorted_entries bytes_le (with_epoch (ps_snaps (a_Delegators a)) e)))
    (a_Constants a) (a_TotalSupply a) (a_LastVoting a) (a_Blocks a)
    (mkScores (ActiveValidation sc) (DirtyValidation sc) (ActiveOrigination sc) (DirtyOrigination sc)
       (mkDowntime (bd_table (BlockDowntime sc)) NoCache) (BlockDowntimeEpoch sc) (ActiveValidationEpoch sc))
    (a_Poi a) (a_Rewards a).

Abbreviation node_rel := (app_rel (repS := ptr_rep Z.le) (repD := ptr_rep bytes_le) (B := simplelru Z BlocksMissed)).

(** After a restart a node stands for its tables. *)
Lemma restart_rel (a : NodeStore) : node_rel (restart a) (plain_of a).
Proof.
  assert (forall K V (HK : EqDecision K) (HC : Countable K) (le : relation K) (Hle : RelDecision le), Total le -> Transitive le -> AntiSymm (=) le ->
    forall (HV : Inhabited V) (s : PtrStore K V (lrulist K nat) (simplelru Z (list (K * nat)))),
    ptr_rep le (restarted (empty_cache 8) (mkSimplelru 2 []) s) (ps_table s) (fun e => sorted_entries le (with_epoch (ps_snaps s) e))) as Hrep.
  { intros K V HK HC le Hle H1 H2 H3 HV s. apply restarted_rep; try done.
    - intros e k v. rewrite (obj_elem_of_sorted_entries le). by rewrite with_epoch_lookup.
    - intros e. split; [apply obj_sorted_entries_nodup|by apply sorted_entries_sorted]. }
  split; [apply Hrep; apply _|apply Hrep; apply _|done..| |done|done]. split; done.
Qed.

Definition toy_genesis : NodeStore :=
  applyGenesis [1000] [mkGenesisValidator 1 (replicate 20 1) 100; mkGenesisValidator 2 (replicate 20 2) 50] (7 * second) new_node.

(** Staker 1 raises its stake to 175. *)
Definition toy_increase : Log := mkLog toy_contract [IncreasedStake toy_hash; U64to256 1] (BigTo256 175 ++ BigTo256 75).

(** The stake that the snapshot of epoch 1 records when it is sealed: the two nodes write different ones, and so different
    states of the EVM. *)
Definition sealed_stake (a : NodeStore) : go hash :=
  '(_, e) ← processSfc toy_hash toy_contract toy_config 1 (9 * second) [[toy_increase]] [] true (mkEpochStats (7 * second) (9 * second) 0) a (mkMemState ∅ ∅);
  Ret (GetState e toy_contract (EpochPos_StakeTotalAmount (pos_EpochSnapshot toy_hash 1))).

Example sealed_warm : sealed_stake toy_genesis = Ret (BigTo256 225).
Proof. vm_compute. reflexivity. Qed.
Example sealed_cold : sealed_stake (restart toy_genesis) = Ret (BigTo256 150).
Proof. vm_compute. reflexivity. Qed.

(** ** Raised stakes in the first epoch *)

(** The staker that a log of IncreasedStake names, and the new amount of its stake. *)
Definition increased (l : Log) : Z := match l_Topics l with _ :: t1 :: _ => topic_StakerID t1 | _ => 0 end.
Definition new_stake (l : Log) : Z := data_word (l_Data l) 0.

Section increase.
Context {P S : Type} `{ObjStore Z SfcStaker P S}.

(** What such a log does to the stakers. *)
Definition raise_in (s : S) (l : Log) : S :=
  let '(r, s) := os_Get s (increased l) in
  match r with
  | None => s
  | Some p => let st := os_Read s p in let '(p, s) := os_Write s p (set_amounts st (new_stake l) (DelegatedMe st)) in os_Set s (increased l) p
  end.

(** The same on a table, and the stake of one staker after some logs. *)
Definition raise (t : gmap Z SfcStaker) (l : Log) : gmap Z SfcStaker :=
  match t !! increased l with Some st => <[increased l := set_amounts st (new_stake l) (DelegatedMe st)]> t | None => t end.
Definition last_stake (id : Z) (x : Z) (logs : list Log) : Z := foldl (fun x l => if decide (increased l = id) then new_stake l else x) x logs.

Lemma raise_stake (id : Z) (logs : list Log) : forall t, StakeAmount <$> foldl raise t logs !! id = (fun st => last_stake id (StakeAmount st) logs) <$> t !! id.
Proof.
  induction logs as [|l logs IH]; intros t; cbn [foldl]; [by destruct (t !! id)|]. rewrite IH. unfold raise.
  destruct (t !! increased l) as [st|] eqn:Et.
  - destruct (decide (increased l = id)) as [<-|Hne]; [rewrite lookup_insert_eq, Et; cbn; by rewrite decide_True|].
    rewrite lookup_insert_ne by done. destruct (t !! id); [cbn|done]. by rewrite decide_False.
  - destruct (t !! id) as [st|] eqn:Ei; [cbn|done]. rewrite decide_False; [done|congruence].
Qed.

Context {D B PD : Type} `{ObjStore bytes SfcDelegator PD D} `{Lru Z BlocksMissed B} (hash_Of : list bytes -> hash) (ContractAddress : bytes).

(** The topic differs from those of the other logs, which are hashes of other signatures. *)
Definition other_topics : list hash :=
  [CreatedStake hash_Of; CreatedDelegation hash_Of; DeactivatedStake hash_Of; PreparedToWithdrawStake hash_Of; DeactivatedDelegation hash_Of;
   PreparedToWithdrawDelegation hash_Of; UpdatedStake hash_Of; UpdatedDelegation hash_Of; WithdrawnStake hash_Of; WithdrawnDelegation hash_Of;
   UpdatedBaseRewardPerSec hash_Of; UpdatedGasPowerAllocationRate hash_Of; ClaimedValidatorReward hash_Of; ClaimedDelegationReward hash_Of].
Definition is_increase (ids : list Z) (l : Log) : Prop :=
  l_Address l = ContractAddress /\ (exists t1 rest, l_Topics l = IncreasedStake hash_Of :: t1 :: rest) /\ increased l ∈ ids /\ 32 <= zlen (l_Data l).

Context (topics_differ : IncreasedStake hash_Of ∉ other_topics).

Lemma increase_log (epoch time : Z) (ids : list Z) (l : Log) (a : AppStore S D B) : is_increase ids l ->
  processLog hash_Of ContractAddress epoch time a l = Ret (with_stakers a (raise_in (a_Stakers a) l)).
Proof.
  intros (Hadr & (t1 & rest & Ht) & _ & Hd). unfold processLog. rewrite bool_decide_true by done. cbn [negb]. rewrite Ht.
  change (slice_at (IncreasedStake hash_Of :: t1 :: rest) 0) with (Ret (IncreasedStake hash_Of)). rewrite go_bind_Ret.
  assert (forall t, t ∈ other_topics -> is_topic (IncreasedStake hash_Of) t = false) as Hno by (intros t Hin; apply bool_decide_false; by intros <-).
  unfold log_handlers.
  assert (is_topic (IncreasedStake hash_Of) (IncreasedStake hash_Of) = true) as -> by (by apply bool_decide_true).
  unfold other_topics in Hno. repeat (rewrite (Hno _) by (repeat (apply elem_of_cons; (left; reflexivity) || right))).
  assert ((1 <? zlen (l_Topics l)) = true) as -> by (apply Z.ltb_lt; rewrite Ht; unfold zlen; cbn [length]; lia). rewrite (proj2 (Z.leb_le _ _) Hd). cbn [andb orb when run_handlers].
  unfold onIncreasedStake, raise_in, new_stake, increased. rewrite Ht.
  change (slice_at (IncreasedStake hash_Of :: t1 :: rest) 1) with (Ret t1). rewrite !go_bind_Ret.
  destruct (os_Get (a_Stakers a) (topic_StakerID t1)) as [[p|] s]; [|reflexivity]. destruct (os_Write _ _ _) as [p' s']. reflexivity.
Qed.

Lemma increase_logs (epoch time : Z) (ids : list Z) (receipts : list (list Log)) (a : AppStore S D B) : Forall (is_increase ids) (mjoin receipts) ->
  processLogs hash_Of ContractAddress epoch time receipts a = Ret (with_stakers a (foldl raise_in (a_Stakers a) (mjoin receipts))).
Proof.
  unfold processLogs. intros Hall. revert a. induction Hall as [|l ls Hl _ IH]; intros a; cbn [go_fold foldl]; [by destruct a|].
  rewrite (increase_log epoch time ids l a Hl), go_bind_Ret, IH. done.
Qed.
End increase.

(** A store whose caches hold other objects for the validators follows the tables. *)
Lemma raise_cold {C CV : Type} `{LruKeysLaws Z nat C} `{LruLaws Z (list (Z * nat)) CV} (logs : list Log) : forall (s : PtrStore Z SfcStaker C CV) t sn,
  ptr_rep Z.le s t sn -> ptr_rep Z.le (foldl (raise_in (H := ptr_store Z.le)) s logs) (foldl raise t logs) sn.
Proof.
  induction logs as [|l logs IH]; intros s t sn Hr; cbn [foldl]; [done|]. apply IH. unfold raise_in, raise.
  destruct (os_get (ObjStoreLaws := ptr_store_laws Z.le) s t sn (increased l) Hr) as (r & s' & -> & Hr' & Hm).
  destruct (t !! increased l) as [st|]; [|by rewrite Hm]. destruct Hm as (p & -> & -> & Hw).
  destruct (Hw (set_amounts st (new_stake l) (DelegatedMe st))) as (p' & s2 & -> & Hr2 & _). done.
Qed.

(** A store whose validators of epoch 1 are the very objects of its cache. *)
Record shared (vv : list (Z * nat)) (t : gmap Z SfcStaker) (s : NodeStakers) : Prop := {
  sh_ids : NoDup vv.*1;
  sh_ptrs : NoDup vv.*2;
  sh_table : ps_table s = t;
  sh_heap id p : (id, p) ∈ vv -> ps_heap s !! p = t !! id /\ is_Some (t !! id);
  sh_cache id p : (id, p) ∈ vv -> lru_peek (ps_cache s) id = Some p;
  sh_snap : lru_peek (ps_snapCache s) 1 = Some vv
}.

Lemma NoDup_fmap_fst_unique {A B} (l : list (A * B)) (a : A) (b b2 : B) : NoDup l.*1 -> (a, b) ∈ l -> (a, b2) ∈ l -> b = b2.
Proof.
  induction l as [|[x y] l IH]; csimpl; [by intros _ ?%elem_of_nil|]. intros [Hx Hn]%NoDup_cons. rewrite !elem_of_cons. intros [[= -> ->]|Hb] [[= ->]|Hb2]; try done.
  - destruct Hx. by apply (list_elem_of_fmap_2 fst _ (x, b2)).
  - subst. destruct Hx. by apply (list_elem_of_fmap_2 fst _ (x, b)).
  - by apply IH.
Qed.

Lemma NoDup_fmap_snd_unique {A B} (l : list (A * B)) (a a2 : A) (b : B) : NoDup l.*2 -> (a, b) ∈ l -> (a2, b) ∈ l -> a = a2.
Proof.
  induction l as [|[x y] l IH]; csimpl; [by intros _ ?%elem_of_nil|]. intros [Hx Hn]%NoDup_cons. rewrite !elem_of_cons. intros [[= -> ->]|Hb] [[= ->]|Hb2]; try done.
  - destruct Hx. by apply (list_elem_of_fmap_2 snd _ (a2, y)).
  - subst. destruct Hx. by apply (list_elem_of_fmap_2 snd _ (a, y)).
  - by apply IH.
Qed.

Lemma ll_add_peek {K V : Type} `{EqDecision K} (c : lrulist K V) (k : K) (v : V) (k' : K) : is_Some (lru_peek c k) \/ (length (ll_items c) < ll_cap c)%nat ->
  lru_peek (lru_Add c k v) k' = if decide (k = k') then Some v else lru_peek c k'.
Proof.
  intros Hroom. cbn [lru_peek lru_Add lrulist_Lru]. rewrite add_room by (destruct Hroom as [Hk|Hlt]; [left; by apply assoc_get_Some|by right]). cbn [assoc_get].
  case_decide; [done|]. by apply assoc_del_other.
Qed.

Lemma raise_in_hit (s : NodeStakers) (l : Log) (p : nat) (st : SfcStaker) : lru_peek (ps_cache s) (increased l) = Some p -> ps_heap s !! p = Some st ->
  raise_in s l = let st' := set_amounts st (new_stake l) (DelegatedMe st) in
    mkPtrStore (<[p := st']> (ps_heap s)) (<[increased l := st']> (ps_table s)) (lru_Add (lru_touch (ps_cache s) (increased l)) (increased l) p) (ps_snaps s) (ps_snapCache s).
Proof.
  intros Hc Hh. unfold raise_in. cbn [os_Get os_Read os_Write os_Set node_stakers ptr_store]. unfold ps_Get. rewrite Hc. cbv zeta. rewrite (ps_Read_lookup _ p st) by done.
  unfold ps_Write, ps_Set. cbn [ps_heap ps_table ps_cache ps_snaps ps_snapCache]. erewrite (ps_Read_lookup (mkPtrStore _ _ _ _ _) p); [done|].
  cbn. apply list_lookup_insert_eq. by eapply lookup_lt_Some.
Qed.

Lemma raise_warm (logs : list Log) (vv : list (Z * nat)) : Forall (fun l => increased l ∈ vv.*1) logs -> forall s t, shared vv t s ->
  let s' := foldl raise_in s logs in shared vv (foldl raise t logs) s' /\ ps_snaps s' = ps_snaps s.
Proof.
  induction 1 as [|l logs Hl _ IH]; intros s t Hs; cbn [foldl]; [done|]. apply list_elem_of_fmap in Hl as ([id p] & Hid & Hin). cbn in Hid.
  destruct (sh_heap _ _ _ Hs id p Hin) as [Hheap [st Hst]]. pose proof (sh_cache _ _ _ Hs id p Hin) as Hc. rewrite Hst in Hheap.
  assert (shared vv (raise t l) (raise_in s l) /\ ps_snaps (raise_in s l) = ps_snaps s) as [H1 H2]; [|destruct (IH _ _ H1) as [? E]; by rewrite E].
  rewrite <-Hid in *. rewrite (raise_in_hit s l p st Hc Hheap). unfold raise. rewrite Hst. set (st' := set_amounts _ _ _). rewrite Hid in *. split; [|done].
  assert (p < length (ps_heap s))%nat as Hp by (by apply lookup_lt_Some in Hheap).
  split; cbn -[lru_peek lru_Add lru_touch]; [apply Hs|apply Hs|by rewrite (sh_table _ _ _ Hs)| | |apply Hs].
  - intros id' p' Hin'. destruct (decide (id = id')) as [<-|Hne].
    + assert (p' = p) as -> by (eapply NoDup_fmap_fst_unique; [apply Hs|done|done]). rewrite lookup_insert_eq, list_lookup_insert_eq by done. by split; [|eexists].
    + assert (p <> p') as Hpp by (intros <-; apply Hne; eapply NoDup_fmap_snd_unique; [apply Hs|done|done]).
      rewrite lookup_insert_ne, list_lookup_insert_ne by done. by apply Hs.
  - intros id' p' Hin'. rewrite ll_add_peek by (left; rewrite law_touch, Hc; by eexists). destruct (decide (id = id')) as [<-|Hne].
    + f_equal. eapply NoDup_fmap_fst_unique; [apply Hs|done|done].
    + rewrite law_touch. by apply Hs.
Qed.

(** ** The objects of the genesis *)

Definition genesis_staker (time : Z) (v : GenesisValidator) : SfcStaker := mkStaker 0 time 0 0 (gv_Stake v) 0 (gv_Address v) 0.
Definition new_stakers (n m : nat) : NodeStakers := mkPtrStore [] ∅ (empty_cache n) ∅ (mkSimplelru m []).

Lemma length_seq_snoc_zip {A : Type} (l : list A) (a : A) (n : nat) : length l = n -> zip (l ++ [a]) (seq 0 (n + 1)) = zip l (seq 0 n) ++ [(a, n)].
Proof. intros Hl. rewrite seq_app. rewrite zip_with_app by (by rewrite length_seq). done. Qed.

Lemma genesis_loop (time : Z) (n m : nat) (validators : list GenesisValidator) : NoDup (gv_ID <$> validators) -> (length validators <= n)%nat ->
  exists s, foldl (genesisStaker time) (new_stakers n m, []) validators = (s, zip (gv_ID <$> validators) (seq 0 (length validators))) /\
    ps_heap s = genesis_staker time <$> validators /\ ps_snaps s = ∅ /\ ps_snapCache s = mkSimplelru m [] /\
    (forall v, v ∈ validators -> ps_table s !! gv_ID v = Some (genesis_staker time v)) /\
    (forall id p, (id, p) ∈ zip (gv_ID <$> validators) (seq 0 (length validators)) -> lru_peek (ps_cache s) id = Some p) /\
    ll_cap (ps_cache s) = n /\ (length (ll_items (ps_cache s)) <= length validators)%nat.
Proof.
  induction validators as [|v vs IH] using rev_ind; intros Hn Hlen.
  { exists (new_stakers n m). split_and!; try done; by intros ? ?%elem_of_nil || intros ? ? ?%elem_of_nil. }
  rewrite fmap_app in *. apply NoDup_app in Hn as (Hn & Hv & _). rewrite length_app in *. cbn [length] in *.
  destruct IH as (s & Hf & Hh & Hsn & Hsc & Ht & Hc & Hcap & Hit); [done|lia|].
  assert (length (ps_heap s) = length vs) as Hp by (by rewrite Hh, length_fmap). rewrite foldl_app, Hf. cbn [foldl]. unfold genesisStaker. cbn [fst snd os_New os_Set node_stakers ptr_store].
  unfold ps_New. rewrite Hp. unfold ps_Set. cbn [ps_heap ps_table ps_cache ps_snaps ps_snapCache]. fold (genesis_staker time v). erewrite (ps_Read_lookup _ (length vs)) by (cbn; rewrite <-Hp; by apply list_lookup_middle).
  assert (forall x, x ∈ vs -> gv_ID x <> gv_ID v) as Hne by (intros x Hx E; apply (Hv (gv_ID x)); [by apply list_elem_of_fmap_2|rewrite E; by left]).
  assert (forall k, lru_peek (lru_Add (ps_cache s) (gv_ID v) (length vs)) k = if decide (gv_ID v = k) then Some (length vs) else lru_peek (ps_cache s) k) as Hadd
    by (intros k; apply ll_add_peek; right; lia).
  change (gv_ID <$> [v]) with [gv_ID v]. rewrite length_seq_snoc_zip by (by rewrite length_fmap). eexists. split; [reflexivity|].
  cbn [ps_heap ps_table ps_cache ps_snaps ps_snapCache]. split_and!; try done.
  - by rewrite Hh, fmap_app.
  - intros x [Hx| ->%list_elem_of_singleton]%elem_of_app; [|by rewrite lookup_insert_eq]. rewrite lookup_insert_ne by (intros E; by apply (Hne x)). by apply Ht.
  - intros id p. rewrite Hadd. intros [Hin|[= -> ->]%list_elem_of_singleton]%elem_of_app; [|by rewrite decide_True].
    rewrite decide_False; [by apply Hc|]. intros <-. apply elem_of_zip_l in Hin. apply list_elem_of_fmap in Hin as (x & E & Hx). by apply (Hne x).
  - cbn [lru_Add lrulist_Lru]. rewrite add_room by (right; lia). cbn [length]. pose proof (length_filter (fun kv => kv.1 <> gv_ID v) (ll_items (ps_cache s))). unfold assoc_del. lia.
Qed.

(** The stakers of the genesis, in the table, in the cache and as validators of epoch 1. *)
Lemma genesis_spec (balances : list Z) (validators : list GenesisValidator) (time : Z) (a0 : NodeStore) (n m : nat) :
  a_Stakers a0 = new_stakers n m -> NoDup (gv_ID <$> validators) -> (length validators <= n)%nat -> (0 < m)%nat ->
  exists t, let vv := zip (gv_ID <$> validators) (seq 0 (length validators)) in
    let s := a_Stakers (applyGenesis balances validators time a0) in shared vv t s /\
    (forall v, v ∈ validators -> t !! gv_ID v = Some (genesis_staker time v)) /\
    forall e id st, ps_snaps s !! (e, id) = Some st <-> e = 1 /\ exists v, v ∈ validators /\ id = gv_ID v /\ st = genesis_staker time v.
Proof.
  intros Ha Hn Hlen Hm. destruct (genesis_loop time n m validators Hn Hlen) as (s & Hf & Hh & Hsn & Hsc & Ht & Hc & _).
  unfold applyGenesis. cbn [a_Stakers with_blocks SetTotalSupply with_supply]. rewrite Ha, Hf. cbn [a_Stakers with_voting with_stakers os_SetSnap node_stakers ptr_store].
  set (vv := zip _ _) in *. assert (length (gv_ID <$> validators) = length (seq 0 (length validators))) as Hl by (by rewrite length_fmap, length_seq).
  assert (forall id p, (id, p) ∈ vv -> exists v, v ∈ validators /\ id = gv_ID v /\ ps_heap s !! p = Some (genesis_staker time v)) as Hvv.
  { intros id p (i & Hi)%list_elem_of_lookup. unfold vv in Hi. apply lookup_zip_Some in Hi as [Hi Hp]. apply lookup_seq in Hp as [-> Hp].
    rewrite list_lookup_fmap in Hi. destruct (validators !! i) as [v|] eqn:Ev; [|done]. injection Hi as <-. exists v. split; [by eapply list_elem_of_lookup_2|]. split; [done|].
    rewrite Hh, list_lookup_fmap. cbn. by rewrite Ev. }
  assert (NoDup vv.*1) as Hids by (unfold vv; by rewrite fst_zip by lia).
  exists (ps_table s). split; [|split; [exact Ht|]].
  - split; [done|unfold vv; rewrite snd_zip by lia; apply NoDup_seq|done| | |].
    + intros id p (v & Hv & -> & Hp)%Hvv. unfold ps_SetSnap. cbn [ps_heap]. rewrite Hp, (Ht v Hv). by split; [|eexists].
    + exact Hc.
    + unfold ps_SetSnap. cbn [ps_snapCache]. rewrite Hsc. cbn. destruct m; [lia|]. done.
  - intros e id st. unfold ps_SetSnap. cbn [ps_snaps]. rewrite Hsn, fold_snaps; [|done|by intros; apply lookup_empty]. rewrite lookup_empty.
    split; [intros [[-> Hin]|[=]]|intros (-> & v & Hv & -> & ->); left]; (split; [done|]).
    + apply list_elem_of_fmap in Hin as ([id' p] & [= -> ->] & (v & Hv & -> & Hp)%Hvv). exists v. split_and!; [done|done|by apply ps_Read_lookup].
    + apply list_elem_of_lookup in Hv as [i Hi]. apply list_elem_of_fmap. exists (gv_ID v, i). split.
      * unfold prod_map. cbn. f_equal. symmetry. apply ps_Read_lookup. by rewrite Hh, list_lookup_fmap, Hi.
      * apply list_elem_of_lookup. exists i. unfold vv. apply lookup_zip_Some. rewrite list_lookup_fmap, Hi. split; [done|]. apply lookup_seq. split; [done|]. by apply lookup_lt_Some in Hi.
Qed.

(** The stakes of the validators of an epoch, as [sealSfc] reads them. *)
Definition epoch_stakes (a : NodeStore) (epoch : Z) : list (Z * Z) :=
  let '(vv, s) := os_GetSnap (a_Stakers a) epoch in prod_map id StakeAmount <$> (prod_map id (os_Read s) <$> vv).

Lemma shared_stakes (a : NodeStore) (vv : list (Z * nat)) (t : gmap Z SfcStaker) : shared vv t (a_Stakers a) ->
  epoch_stakes a 1 = (fun id => (id, default 0 (StakeAmount <$> t !! id))) <$> vv.*1.
Proof.
  intros Hs. unfold epoch_stakes. cbn [os_GetSnap node_stakers ptr_store os_Read]. unfold ps_GetSnap. rewrite (sh_snap _ _ _ Hs).
  rewrite <-!list_fmap_compose. apply list_fmap_ext. intros i [id p] Hi. apply list_elem_of_lookup_2, (sh_heap _ _ _ Hs) in Hi as [Hh [st Hst]]. cbn -[lru_touch].
  rewrite Hst in *. unfold prod_map. cbn -[lru_touch]. f_equal. f_equal. by apply ps_Read_lookup.
Qed.

Lemma cold_stakes (a : NodeStore) (m : gmap Z SfcStaker) (sn : Z -> list (Z * SfcStaker)) (e : Z) : ptr_rep Z.le (a_Stakers a) m sn ->
  epoch_stakes a e = prod_map id StakeAmount <$> sn e.
Proof.
  intros Hr. unfold epoch_stakes. cbn [os_GetSnap os_Read node_stakers ptr_store]. destruct (get_snap_spec Z.le _ _ _ e Hr) as (l & s' & -> & _ & <-). done.
Qed.

(** C31: The first epoch is the exception to the rule that the caches are invisible.  The genesis saves each staker
    object and hands the same pointer to the validators of epoch 1, so that a
    later log changes the validators of the running epoch too, in memory only.  For every genesis whose
    stakers fit in the cache and all logs by which genesis validators raise their stakes in epoch 1: a
    node that has run since the genesis and a node that was restarted, with caches of any size, process them to equal tables of stakers and of
    validators; but as the validators of epoch 1, which the end of the epoch reads and writes into its snapshot, the
    first one has the raised stakes, and the other one those of the genesis. *)
Theorem genesis_shares_stakers (hash_Of : list bytes -> hash) (ContractAddress : bytes) (balances : list Z) (validators : list GenesisValidator)
    (time blockTime : Z) (a0 cold : NodeStore) (n m n' m' : nat) (receipts : list (list Log)) :
  let warm := applyGenesis balances validators time a0 in
  let logs := mjoin receipts in
  a_Stakers a0 = new_stakers n m -> NoDup (gv_ID <$> validators) -> (length validators <= n)%nat -> (0 < m)%nat ->
  a_Stakers cold = restarted (empty_cache n') (mkSimplelru m' []) (a_Stakers warm) ->
  IncreasedStake hash_Of ∉ other_topics hash_Of -> Forall (is_increase hash_Of ContractAddress (gv_ID <$> validators)) logs ->
  exists warm' cold', processLogs hash_Of ContractAddress 1 blockTime receipts warm = Ret warm' /\ processLogs hash_Of ContractAddress 1 blockTime receipts cold = Ret cold' /\
    ps_table (a_Stakers warm') = ps_table (a_Stakers cold') /\ ps_snaps (a_Stakers warm') = ps_snaps (a_Stakers cold') /\
    epoch_stakes warm' 1 = (fun v => (gv_ID v, last_stake (gv_ID v) (gv_Stake v) logs)) <$> validators /\
    epoch_stakes cold' 1 ≡ₚ (fun v => (gv_ID v, gv_Stake v)) <$> validators.
Proof.
  intros warm logs Ha0 Hn Hlen Hm Hcold Htop Hlogs. destruct (genesis_spec balances validators time a0 n m Ha0 Hn Hlen Hm) as (t & Hsh & Ht & Hsn). fold warm in Hsh, Hsn. cbv zeta in Hsh.
  set (vv := zip _ _) in Hsh. assert (vv.*1 = gv_ID <$> validators) as Hvv by (unfold vv; rewrite fst_zip; [done|by rewrite length_fmap, length_seq]).
  set (sn e := sorted_entries Z.le (with_epoch (ps_snaps (a_Stakers warm)) e)).
  assert (ptr_rep Z.le (a_Stakers cold) t sn) as Hrep.
  { rewrite Hcold. apply restarted_rep; [apply Hsh| | |done|done].
    - intros e k v. unfold sn. by rewrite (obj_elem_of_sorted_entries Z.le), with_epoch_lookup.
    - intros e. split; [apply obj_sorted_entries_nodup|apply sorted_entries_sorted; apply _]. }
  pose proof (raise_warm logs vv) as Hwarm. destruct (Hwarm ltac:(rewrite Hvv; eapply Forall_impl; [exact Hlogs|]; by intros l (_ & _ & Hin & _)) _ _ Hsh) as [Hsh' Hsn']. clear Hwarm.
  assert (ptr_rep Z.le (foldl raise_in (a_Stakers cold) logs) (foldl raise t logs) sn) as Hrep' by exact (raise_cold logs _ _ _ Hrep).
  eexists _, _. split; [by apply (increase_logs hash_Of ContractAddress Htop 1 blockTime (gv_ID <$> validators))|].
  split; [by apply (increase_logs hash_Of ContractAddress Htop 1 blockTime (gv_ID <$> validators))|]. cbn [a_Stakers with_stakers]. fold logs.
  split; [by rewrite (sh_table _ _ _ Hsh'), (pr_table _ _ _ _ Hrep')|]. split.
  { rewrite Hsn'. apply map_eq. intros [e k]. apply option_eq. intros v. rewrite (pr_snaps _ _ _ _ Hrep'). unfold sn. by rewrite (obj_elem_of_sorted_entries Z.le), with_epoch_lookup. }
  split.
  - erewrite shared_stakes by exact Hsh'. rewrite Hvv, <-list_fmap_compose. apply list_fmap_ext. intros i v Hv%list_elem_of_lookup_2. cbn. f_equal.
    by rewrite raise_stake, (Ht v Hv).
  - erewrite cold_stakes by exact Hrep'. apply NoDup_Permutation.
    + apply (NoDup_fmap_1 fst). rewrite <-list_fmap_compose. apply (obj_sorted_entries_nodup Z.le).
    + apply (NoDup_fmap_1 fst). rewrite <-list_fmap_compose. exact Hn.
    + intros [id x]. rewrite !list_elem_of_fmap. split.
      * intros ([id' st] & [= -> ->] & Hin). unfold sn in Hin. rewrite (obj_elem_of_sorted_entries Z.le), with_epoch_lookup in Hin. apply Hsn in Hin as (_ & v & Hv & -> & ->). by exists v.
      * intros (v & [= -> ->] & Hv). exists (gv_ID v, genesis_staker time v). split; [done|]. unfold sn. rewrite (obj_elem_of_sorted_entries Z.le), with_epoch_lookup. apply Hsn. split; [done|]. by exists v.
Qed.

Lemma genesis_shares_stakers_witness : exists warm' cold',
  processLogs toy_hash toy_contract 1 (9 * second) [[toy_increase]] toy_genesis = Ret warm' /\
  processLogs toy_hash toy_contract 1 (9 * second) [[toy_increase]] (restart toy_genesis) = Ret cold' /\
  ps_table (a_Stakers warm') = ps_table (a_Stakers cold') /\ ps_snaps (a_Stakers warm') = ps_snaps (a_Stakers cold') /\
  epoch_stakes warm' 1 = [(1, 175); (2, 50)] /\ epoch_stakes cold' 1 ≡ₚ [(1, 100); (2, 50)].
Proof.
  refine (genesis_shares_stakers toy_hash toy_contract [1000] [mkGenesisValidator 1 (replicate 20 1) 100; mkGenesisValidator 2 (replicate 20 2) 50]
    (7 * second) (9 * second) new_node (restart toy_genesis) 8 2 8 2 [[toy_increase]] eq_refl _ _ _ eq_refl _ _).
  - apply (bool_decide_unpack _). by vm_compute.
  - cbn. lia.
  - lia.
  - apply (bool_decide_unpack _). by vm_compute.
  - apply Forall_singleton. split; [done|]. split; [by exists (U64to256 1), []|]. split; [|by vm_compute]. apply (bool_decide_unpack _). by vm_compute.
Defined.

(** ** Two nodes, one of them with warm caches *)

#[local] Existing Instance plainS.
#[local] Existing Instance plainD.

Lemma warm_rel (a : NodeStore) (p : PlainStore) (id : Z) : node_rel a p -> node_rel (with_stakers a (os_Get (a_Stakers a) id).2) p.
Proof. intros Hr. destruct (os_get (a_Stakers a) _ _ id (ar_stakers _ _ Hr)) as (r & s' & -> & Hs & _). by apply rel_stakers_same. Qed.

Definition cold_node : NodeStore := restart toy_genesis.
Definition warm_node : NodeStore := with_stakers cold_node (os_Get (a_Stakers cold_node) 1).2.
