(* ===== verification/SfcSeal.v ===== *)
(** * The seal of an epoch

    What a sealing block writes: the validators of the next epoch, the total
    supply, and the snapshot from which the contract pays rewards. *)

From S2P Require Import Prelude Bytes Pos Event VecStore EventBuffer SfcStore Sfc SfcSim.

(** ** Writes to the contract *)

Section puts.
Context {E : Type} `{SE : StateDB E} {LE : StateDBLaws E} (C : bytes).

Definition puts (e : E) (kvs : list (hash * hash)) : E := foldl (fun e kv => SetState e C kv.1 kv.2) e kvs.

Lemma puts_app e l k : puts e (l ++ k) = puts (puts e l) k.
Proof. apply foldl_app. Qed.

Lemma puts_other (kvs : list (hash * hash)) : forall (e : E) (k : hash), k ∉ kvs.*1 -> GetState (puts e kvs) C k = GetState e C k.
Proof.
  induction kvs as [|[k' v] kvs IH]; intros e k Hk; [done|]. cbn in Hk. apply not_elem_of_cons in Hk as [Hne Hk]. cbn. rewrite IH by done.
  rewrite sdb_get_set. rewrite decide_False; [done|]. by intros [_ ?].
Qed.

Lemma puts_in (kvs : list (hash * hash)) : forall (e : E) (k v : hash), (k, v) ∈ kvs -> (forall v', (k, v') ∈ kvs -> v' = v) ->
  GetState (puts e kvs) C k = v.
Proof.
  induction kvs as [|[k' v'] kvs IH]; intros e k v Hin Hv; [by apply elem_of_nil in Hin|]. cbn. destruct (decide (k ∈ kvs.*1)) as [Hk|Hk].
  - apply list_elem_of_fmap in Hk as ([k2 v2] & -> & Hin2). cbn in *. assert (v2 = v) as -> by (apply Hv; by right).
    apply IH; [done|]. intros v3 H3. apply Hv. by right.
  - rewrite (puts_other kvs) by done. apply elem_of_cons in Hin as [[= -> ->]|Hin].
    + rewrite sdb_get_set. by rewrite decide_True.
    + destruct Hk. by apply (list_elem_of_fmap_2 fst _ (k, v)).
Qed.

Lemma puts_balance (kvs : list (hash * hash)) : forall (e : E) (a : bytes), GetBalance (puts e kvs) a = GetBalance e a.
Proof. induction kvs as [|[k v] kvs IH]; intros e a; [done|]. cbn. by rewrite IH, sdb_bal_set. Qed.

(** A key that occurs once has one value. *)
Lemma nodup_value (kvs : list (hash * hash)) (k v v' : hash) : NoDup kvs.*1 -> (k, v) ∈ kvs -> (k, v') ∈ kvs -> v' = v.
Proof.
  intros Hn [i Hi]%list_elem_of_lookup_1 [j Hj]%list_elem_of_lookup_1.
  assert (i = j) as <-; [|congruence]. apply (NoDup_lookup kvs.*1 _ _ k Hn); by rewrite list_lookup_fmap, ?Hi, ?Hj.
Qed.
End puts.

Section merit.
Context (hash_Of : list bytes -> hash) (C : bytes) {E : Type} `{SE : StateDB E} {LE : StateDBLaws E}.
Context (epochPos : Z) (cheaters : list Z).

Definition rewarded (x : Z * SfcStaker * (Z * Z)) : bool :=
  negb (bool_decide (x.1.1 ∈ cheaters)) && negb ((x.2.1 =? 0) && (x.2.2 =? 0)).

Definition merit_kvs (x : Z * SfcStaker * (Z * Z)) : list (hash * hash) :=
  let m := ValidatorMerit hash_Of epochPos x.1.1 in
  [(MeritPos_StakeAmount m, BigTo256 (StakeAmount x.1.2)); (MeritPos_DelegatedMe m, BigTo256 (DelegatedMe x.1.2));
   (MeritPos_BaseRewardWeight m, BigTo256 x.2.1); (MeritPos_TxRewardWeight m, BigTo256 x.2.2)].

Lemma writeMerit_step (x : Z * SfcStaker * (Z * Z)) (t : Totals) (e : E) :
  writeMerit hash_Of C epochPos cheaters (t, e) x =
    (mkTotals (tBase t + (if rewarded x then x.2.1 else 0)) (tTx t + (if rewarded x then x.2.2 else 0))
       (tStake t + StakeAmount x.1.2) (tDelegated t + DelegatedMe x.1.2), puts C e (if rewarded x then merit_kvs x else [])).
Proof.
  destruct x as [[id st] [base tx]]. unfold writeMerit, rewarded. cbn [fst snd].
  case_bool_decide; cbn [negb andb]; [by rewrite !Z.add_0_r|]. destruct ((base =? 0) && (tx =? 0)); cbn [negb]; [by rewrite !Z.add_0_r|done].
Qed.

Lemma totals_eq a b c d a' b' c' d' : a = a' -> b = b' -> c = c' -> d = d' -> mkTotals a b c d = mkTotals a' b' c' d'.
Proof. congruence. Qed.

(** The loop over the validators adds up and writes one record for each
    rewarded one. *)
Lemma writeMerits (l : list (Z * SfcStaker * (Z * Z))) : forall (t : Totals) (e : E),
  foldl (writeMerit hash_Of C epochPos cheaters) (t, e) l =
    (mkTotals (tBase t + zsum ((fun x => x.2.1) <$> filter (fun x => rewarded x = true) l))
              (tTx t + zsum ((fun x => x.2.2) <$> filter (fun x => rewarded x = true) l))
              (tStake t + zsum ((fun x => StakeAmount x.1.2) <$> l)) (tDelegated t + zsum ((fun x => DelegatedMe x.1.2) <$> l)),
     puts C e (mjoin (merit_kvs <$> filter (fun x => rewarded x = true) l))).
Proof.
  induction l as [|x l IH]; intros t e.
  { cbn. rewrite !Z.add_0_r. by destruct t. }
  cbn [foldl]. rewrite writeMerit_step, IH. cbn [tBase tTx tStake tDelegated]. rewrite filter_cons. destruct (rewarded x) eqn:Er.
  - rewrite !decide_True by done. rewrite !fmap_cons. cbn [zsum]. apply f_equal2; [apply totals_eq; lia|]. cbn [mjoin list_join]. by rewrite puts_app.
  - rewrite !decide_False by done. rewrite !fmap_cons. cbn [zsum]. apply f_equal2; [apply totals_eq; lia|done].
Qed.
End merit.

(** ** The stakers of a sealing block *)

Section seal.
Context (hash_Of : list bytes -> hash) (C : bytes) (config : EconomyConfig).
Context {E : Type} `{SE : StateDB E} {LE : StateDBLaws E}.
Abbreviation Plain := (AppStore (MapStore Z SfcStaker) (MapStore bytes SfcDelegator) nocache).
Abbreviation stakers_of p := (mp_table (a_Stakers p)).

#[local] Existing Instance plainS.
#[local] Existing Instance plainD.

(** The penalty for being offline. *)
Definition missed_enough (p : Plain) (id : Z) : bool :=
  let missed := missed_of (bd_table (BlockDowntime (a_Scores p))) id in
  (OfflineBlocksNum config <=? bm_Num missed) && (u64 (OfflinePeriod config) <=? bm_Period missed).
Definition penalised (p : Plain) (id : Z) (st : SfcStaker) : SfcStaker :=
  if Staker_Offline st then st else if missed_enough p id then set_bits st OfflineBit else st.

Lemma writeOffline_plain (p : Plain) (e : E) (id : Z) (st : SfcStaker) : stakers_of p !! id = Some st -> exists e',
  writeOffline hash_Of C config (p, e) (id, st) =
    (with_stakers p (mkMapStore (<[id := penalised p id st]> (stakers_of p)) (mp_snaps (a_Stakers p))), e') /\
  (forall a, GetBalance e' a = GetBalance e a).
Proof.
  intros Hid. destruct p as [[m sn] pd pc pt pv pb [s1 s2 s3 s4 [bt bc] s6 s7] pp pr]. cbn in Hid.
  unfold writeOffline, penalised, missed_enough. cbn. destruct (Staker_Offline st) eqn:Eo; [rewrite insert_id by done; by eexists|].
  unfold GetBlocksMissed. cbn. fold (missed_of bt id). unfold missed_of.
  destruct (bt !! id) as [ms|]; cbn; (case_match; [eexists; split; [done|]; intros a; apply sdb_bal_set|rewrite insert_id by done; by eexists]).
Qed.

Abbreviation with_table p t := (with_stakers p (mkMapStore t (mp_snaps (a_Stakers p)))).

Lemma writeOfflines (l : list (Z * SfcStaker)) : forall (p : Plain) (e : E), NoDup l.*1 ->
  (forall id st, (id, st) ∈ l -> stakers_of p !! id = Some st) -> exists t' e',
  foldl (writeOffline hash_Of C config) (p, e) l = (with_table p t', e') /\
  (forall id, t' !! id = if decide (id ∈ l.*1) then penalised p id <$> stakers_of p !! id else stakers_of p !! id) /\
  (forall a, GetBalance e' a = GetBalance e a).
Proof.
  induction l as [|[id st] l IH]; intros p e Hn Hl.
  { exists (stakers_of p), e. split; [by destruct p as [[m sn]]|]. split; [|done]. intros id. by rewrite decide_False by apply not_elem_of_nil. }
  cbn [fmap list_fmap fst] in *. apply NoDup_cons in Hn as [Hid Hn]. cbn [foldl].
  assert (stakers_of p !! id = Some st) as Hst by (apply Hl; by left).
  destruct (writeOffline_plain p e id st Hst) as (e1 & -> & Hb1).
  set (t1 := <[id := penalised p id st]> (stakers_of p)). destruct (IH (with_table p t1) e1 Hn) as (t' & e' & Hf & Ht & Hb).
  { intros id' st' Hin. cbn. unfold t1. rewrite lookup_insert_ne; [apply Hl; by right|]. intros <-. apply Hid. by apply (list_elem_of_fmap_2 fst _ (id, st')). }
  exists t', e'. split; [exact Hf|]. split; [|intros a; by rewrite Hb, Hb1]. intros id'. rewrite Ht. cbn [a_Stakers with_stakers mp_table].
  change (penalised (with_table p t1) id') with (penalised p id'). unfold t1. destruct (decide (id' = id)) as [->|Hne].
  - rewrite decide_False, lookup_insert_eq by done. rewrite decide_True by (by left). by rewrite Hst.
  - rewrite lookup_insert_ne by done. destruct (decide (id' ∈ l.*1)) as [Hin|Hin].
    + by rewrite decide_True by (by right).
    + rewrite decide_False; [done|]. intros [?|?]%elem_of_cons; done.
Qed.

Lemma writeOfflines_all (p : Plain) (e : E) : exists t' e',
  foldl (writeOffline hash_Of C config) (p, e) (sorted_entries Z.le (stakers_of p)) = (with_table p t', e') /\
  (forall id, t' !! id = penalised p id <$> stakers_of p !! id) /\ (forall a, GetBalance e' a = GetBalance e a).
Proof.
  destruct (writeOfflines (sorted_entries Z.le (stakers_of p)) p e) as (t' & e' & Hf & Ht & Hb).
  - apply obj_sorted_entries_nodup.
  - intros id st. by rewrite obj_elem_of_sorted_entries.
  - exists t', e'. split; [exact Hf|]. split; [|exact Hb]. intros id. rewrite Ht. case_decide as Hin; [done|].
    destruct (stakers_of p !! id) as [st|] eqn:Hst; [|done]. destruct Hin. apply (list_elem_of_fmap_2 fst _ (id, st)). by rewrite obj_elem_of_sorted_entries.
Qed.

(** The penalty for a fork. *)
Definition flagged (st : SfcStaker) : SfcStaker := if Staker_HasFork st then st else set_bits st ForkBit.

Lemma has_fork_bit st : Staker_HasFork st = Z.testbit (Status st) 0.
Proof.
  unfold Staker_HasFork, ForkBit. rewrite (Z.land_ones _ 1) by lia. change (2 ^ 1) with 2. rewrite Z.bit0_odd, Zmod_odd. by destruct (Z.odd _).
Qed.

Lemma flagged_fork st : Staker_HasFork (flagged st) = true.
Proof.
  unfold flagged. destruct (Staker_HasFork st) eqn:Ef; [done|]. rewrite has_fork_bit. cbn [set_bits Status]. by rewrite Z.lor_spec, orb_true_r.
Qed.

Lemma flagged_twice st : flagged (flagged st) = flagged st.
Proof. unfold flagged at 1. by rewrite flagged_fork. Qed.

Lemma penalised_fork p id st : Staker_HasFork (penalised p id st) = Staker_HasFork st.
Proof.
  unfold penalised. repeat case_match; try done. rewrite !has_fork_bit. cbn [set_bits Status]. rewrite Z.lor_spec. by rewrite orb_false_r.
Qed.

Lemma forked_not_ok st : Staker_HasFork st = true -> Staker_Ok st = false.
Proof. rewrite has_fork_bit. unfold Staker_Ok. destruct (Status st =? 0) eqn:Es; [|done]. apply Z.eqb_eq in Es as ->. by rewrite Z.bits_0. Qed.

Lemma penalised_offline p id st : missed_enough p id = true -> Staker_Offline (penalised p id st) = true.
Proof.
  intros Hm. unfold penalised. destruct (Staker_Offline st) eqn:Eo; [done|]. rewrite Hm. unfold Staker_Offline. cbn [set_bits Status].
  apply negb_true_iff, Z.eqb_neq. intros Hz. apply (f_equal (fun z => Z.testbit z 8)) in Hz.
  by rewrite Z.land_spec, Z.lor_spec, orb_true_r, Z.bits_0 in Hz.
Qed.

Lemma offline_not_ok st : Staker_Offline st = true -> Staker_Ok st = false.
Proof. unfold Staker_Offline, Staker_Ok. destruct (Status st =? 0) eqn:Es; [|done]. by apply Z.eqb_eq in Es as ->. Qed.

Lemma writeCheaters (ids : list Z) : forall (p : Plain) (e : E), (forall id, id ∈ ids -> is_Some (stakers_of p !! id)) -> exists t' e',
  go_fold (writeCheater hash_Of C) (p, e) ids = Ret (with_table p t', e') /\
  (forall id, t' !! id = if decide (id ∈ ids) then flagged <$> stakers_of p !! id else stakers_of p !! id) /\
  (forall a, GetBalance e' a = GetBalance e a).
Proof.
  induction ids as [|id ids IH]; intros p e Hk.
  { exists (stakers_of p), e. split; [by destruct p as [[m sn]]|]. split; [|done]. intros id. by rewrite decide_False by apply not_elem_of_nil. }
  destruct (Hk id) as [st Hst]; [by left|]. cbn [go_fold].
  assert (exists e1, writeCheater hash_Of C (p, e) id = Ret (with_table p (<[id := flagged st]> (stakers_of p)), e1) /\
    (forall a, GetBalance e1 a = GetBalance e a)) as (e1 & -> & Hb1).
  { destruct p as [[m sn] pd pc pt pv pb ps pp pr]. cbn in Hst. unfold writeCheater, flagged. cbn. rewrite Hst.
    destruct (Staker_HasFork st); [rewrite insert_id by done; by eexists|]. eexists. split; [done|]. intros a. apply sdb_bal_set. }
  rewrite go_bind_Ret. destruct (IH (with_table p (<[id := flagged st]> (stakers_of p))) e1) as (t' & e' & Hf & Ht & Hb).
  { intros id' Hin. cbn. rewrite lookup_insert_is_Some'. right. apply Hk. by right. }
  exists t', e'. split; [exact Hf|]. split; [|intros a; by rewrite Hb, Hb1]. intros id'. rewrite Ht. cbn [a_Stakers with_stakers mp_table].
  destruct (decide (id' = id)) as [->|Hne].
  - rewrite lookup_insert_eq, (decide_True (P := id ∈ id :: ids)) by (by left). rewrite Hst. cbn. case_decide; by rewrite ?flagged_twice.
  - rewrite lookup_insert_ne by done. destruct (decide (id' ∈ ids)) as [Hin|Hin].
    + by rewrite decide_True by (by right).
    + rewrite decide_False; [done|]. intros [?|?]%elem_of_cons; done.
Qed.

(** ** The seal *)

(** The constants of the contract carry over to the next epoch. *)
Definition carried (p : Plain) (epoch : Z) : Plain :=
  if HasSfcConstants p epoch then SetSfcConstants p (u32 (epoch + 1)) (GetSfcConstants p epoch) else p.

(** A validator of the epoch with its weights. *)
Definition reward_row (p : Plain) (duration : Z) (it : Z * SfcStaker) : Z * SfcStaker * (Z * Z) :=
  let sc := a_Scores p in
  let d := if duration =? 0 then 1 else duration in
  (it, (baseRewardWeight (CalcTotalStake it.2) (big_get (ActiveValidation sc) it.1) d,
        txRewardWeight config (big_get (ActiveOrigination sc) it.1) (big_get (StakerPOI (a_Poi p)) it.1) (big_get (ActiveValidation sc) it.1) d)).
Definition reward_rows (p : Plain) (epoch : Z) (stats : EpochStats) : list (Z * SfcStaker * (Z * Z)) :=
  reward_row p (Duration stats) <$> mp_snaps (a_Stakers p) epoch.
Definition paid (cheaters : list Z) (rows : list (Z * SfcStaker * (Z * Z))) := filter (fun x => rewarded cheaters x = true) rows.

Definition epoch_rewards (p : Plain) (epoch : Z) (stats : EpochStats) : Z :=
  Unix (Duration stats) * getRewardPerSec config (carried p epoch) (u32 (epoch - 1)) + TotalFee stats.

(** What the seal writes into the contract after the flags of the stakers. *)
Definition epoch_record (p : Plain) (epoch : Z) (cheaters : list Z) (stats : EpochStats) : list (hash * hash) :=
  let pos := pos_EpochSnapshot hash_Of epoch in
  let rows := reward_rows p epoch stats in
  mjoin (merit_kvs hash_Of pos <$> paid cheaters rows) ++
  [(CurrentSealedEpoch, U64to256 epoch);
   (EpochPos_TotalBaseRewardWeight pos, BigTo256 (zsum ((fun x => x.2.1) <$> paid cheaters rows)));
   (EpochPos_TotalTxRewardWeight pos, BigTo256 (zsum ((fun x => x.2.2) <$> paid cheaters rows)));
   (EpochPos_EpochFee pos, BigTo256 (TotalFee stats));
   (EpochPos_EndTime pos, U64to256 (u64 (Unix (End_ stats))));
   (EpochPos_Duration pos, U64to256 (u64 (Unix (Duration stats))));
   (EpochPos_BaseRewardPerSecond pos, BigTo256 (getRewardPerSec config (carried p epoch) (u32 (epoch - 1))));
   (EpochPos_StakeTotalAmount pos, BigTo256 (zsum ((fun x => StakeAmount x.1.2) <$> rows)));
   (EpochPos_DelegationsTotalAmount pos, BigTo256 (zsum ((fun x => DelegatedMe x.1.2) <$> rows)));
   (EpochPos_TotalSupply pos, BigTo256 (a_TotalSupply p + epoch_rewards p epoch stats))].

Lemma reward_rows_zip (p : Plain) (d : Z) (l : list (Z * SfcStaker)) :
  zip l (zip (calcRewardWeights config p l d).1 (calcRewardWeights config p l d).2) = reward_row p d <$> l.
Proof. unfold calcRewardWeights. cbn [fst snd]. induction l as [|it l IH]; [done|]. rewrite !fmap_cons. cbn [zip zip_with]. by rewrite IH. Qed.

(** Neither depends on the table of the stakers. *)
Lemma rate_table (p : Plain) t epoch n : getRewardPerSec config (carried (with_table p t) epoch) n = getRewardPerSec config (carried p epoch) n.
Proof. unfold carried. change (HasSfcConstants (with_table p t) epoch) with (HasSfcConstants p epoch). by destruct (HasSfcConstants p epoch). Qed.

Lemma epoch_rewards_table (p : Plain) t epoch stats : epoch_rewards (with_table p t) epoch stats = epoch_rewards p epoch stats.
Proof. unfold epoch_rewards. by rewrite rate_table. Qed.

Lemma epoch_record_table (p : Plain) t epoch cheaters stats : epoch_record (with_table p t) epoch cheaters stats = epoch_record p epoch cheaters stats.
Proof. unfold epoch_record. by rewrite rate_table, epoch_rewards_table. Qed.

Lemma read_plain (s : MapStore Z SfcStaker) (l : list (Z * SfcStaker)) : prod_map id (os_Read s) <$> l = l.
Proof. rewrite <-(list_fmap_id l) at 2. apply list_fmap_ext. by intros i [k v] _. Qed.

Lemma sealSfc_eq (p : Plain) (e : E) (epoch : Z) (cheaters : list Z) (stats : EpochStats) : exists t' e1,
  let valid := filter (fun it : Z * SfcStaker => Staker_Ok it.2 = true) (sorted_entries Z.le t') in
  sealSfc hash_Of C config epoch cheaters stats p e =
    (with_stakers (with_supply (carried p epoch) (Z.abs (a_TotalSupply p + epoch_rewards p epoch stats)))
       (mkMapStore t' (fun e' => if decide (e' = u32 (epoch + 1)) then valid else mp_snaps (a_Stakers p) e')),
     AddBalance (puts C e1 (epoch_record p epoch cheaters stats ++ [(CurrentSealedEpoch, U64to256 epoch)])) C (epoch_rewards p epoch stats)) /\
  (forall id, t' !! id = penalised p id <$> stakers_of p !! id) /\ (forall a, GetBalance e1 a = GetBalance e a).
Proof.
  assert (a_Stakers (carried p epoch) = a_Stakers p /\ a_Scores (carried p epoch) = a_Scores p /\ a_Poi (carried p epoch) = a_Poi p /\
    a_TotalSupply (carried p epoch) = a_TotalSupply p) as (Hst & Hsc & Hpoi & Hsup) by (unfold carried; by destruct (HasSfcConstants p epoch)).
  set (q := carried p epoch) in *. destruct (writeOfflines_all q e) as (t' & e1 & Hf & Ht & Hb).
  exists t', e1. cbv zeta. split; [|split; [|exact Hb]].
  2: { intros id. rewrite Ht, Hst. unfold penalised, missed_enough. by rewrite Hsc. }
  unfold sealSfc. fold (carried p epoch). fold q.
  change (os_All (a_Stakers q)) with (sorted_entries Z.le (stakers_of q), a_Stakers q). cbv beta iota.
  replace (with_stakers q (a_Stakers q)) with q by (by destruct q). rewrite Hf. cbv beta iota. clear Hf.
  change (os_GetSnap (a_Stakers (with_table q t')) epoch) with (mp_snaps (a_Stakers q) epoch, mkMapStore t' (mp_snaps (a_Stakers q))). cbv beta iota.
  rewrite (read_plain (mkMapStore t' (mp_snaps (a_Stakers q)))).
  match goal with |- context [calcRewardWeights config ?x ?l ?d] => pose proof (reward_rows_zip x d l) as Hz; destruct (calcRewardWeights config x l d) as [bw tw] end.
  cbn [fst snd] in Hz. rewrite Hz. clear Hz bw tw.
  assert (reward_row (with_stakers (with_table q t') (mkMapStore t' (mp_snaps (a_Stakers q)))) (Duration stats) <$> mp_snaps (a_Stakers q) epoch =
    reward_rows p epoch stats) as ->.
  { unfold reward_rows. rewrite Hst. apply list_fmap_ext. intros i x _. unfold reward_row. cbn [a_Scores a_Poi with_stakers]. by rewrite Hsc, Hpoi. }
  rewrite (writeMerits hash_Of C). cbv beta iota. cbn [tBase tTx tStake tDelegated]. rewrite !Z.add_0_l. fold (paid cheaters (reward_rows p epoch stats)).
  change (getRewardPerSec config (with_stakers (with_table q t') (mkMapStore t' (mp_snaps (a_Stakers q)))) (u32 (epoch - 1)))
    with (getRewardPerSec config q (u32 (epoch - 1))).
  cbn [os_All plainS map_store a_Stakers with_stakers SetTotalSupply with_supply a_TotalSupply os_SetSnap mp_table mp_snaps].
  rewrite Hsup, Hst. apply f_equal2; [done|]. unfold epoch_record. cbv zeta. rewrite !puts_app. done.
Qed.
End seal.

(** ** The block that seals an epoch, over any lawful store *)

Section sealed.
Context (hash_Of : list bytes -> hash) (C : bytes) (config : EconomyConfig).
Context {S D B PS PD : Type} {repS : S -> gmap Z SfcStaker -> (Z -> list (Z * SfcStaker)) -> Prop} {ownS : S -> list PS -> Prop}
  {repD : D -> gmap bytes SfcDelegator -> (Z -> list (bytes * SfcDelegator)) -> Prop} {ownD : D -> list PD -> Prop}.
Context `{OS : ObjStore Z SfcStaker PS S} `{OD : ObjStore bytes SfcDelegator PD D} `{LB : LruLaws Z BlocksMissed B}.
Context {LS : ObjStoreLaws Z SfcStaker PS S Z.le repS ownS} {LD : ObjStoreLaws bytes SfcDelegator PD D bytes_le repD ownD}.
Context {E : Type} `{SE : StateDB E} {LE : StateDBLaws E}.
Abbreviation Plain := (AppStore (MapStore Z SfcStaker) (MapStore bytes SfcDelegator) nocache).
Abbreviation stakers_of p := (mp_table (a_Stakers p)).
Abbreviation with_table p t := (with_stakers p (mkMapStore t (mp_snaps (a_Stakers p)))).
Abbreviation rel := (app_rel (repS := repS) (repD := repD) (B := B)).
#[local] Existing Instance plainS.
#[local] Existing Instance plainD.

(** The logs read, every cheater known: the block is processed and ends as the
    plain one. *)
Lemma processSfc_returns (epoch time : Z) (receipts : list (list Log)) (cheaters : list Z) (stats : EpochStats)
    (a : AppStore S D B) (p p1 : Plain) (e : E) :
  rel a p -> epoch_fresh p epoch -> processLogs hash_Of C epoch time receipts p = Ret p1 ->
  (forall id, id ∈ cheaters -> is_Some (stakers_of p1 !! id)) -> exists a' t' e1,
  processSfc hash_Of C config epoch time receipts cheaters true stats a e =
    Ret (a', (sealSfc hash_Of C config epoch cheaters stats (with_table p1 t') e1).2) /\
  rel a' (sealSfc hash_Of C config epoch cheaters stats (with_table p1 t') e1).1 /\
  (forall id, t' !! id = if decide (id ∈ cheaters) then flagged <$> stakers_of p1 !! id else stakers_of p1 !! id) /\
  (forall x, GetBalance e1 x = GetBalance e x).
Proof.
  intros Hr Hf Hl Hk. pose proof (processSfc_sim hash_Of C config epoch time receipts cheaters true stats a p e Hr Hf) as Hsim.
  destruct (writeCheaters hash_Of C cheaters p1 e Hk) as (t' & e1 & Hc & Ht & Hb).
  unfold processSfc in Hsim at 2. rewrite Hl, go_bind_Ret, Hc, go_bind_Ret in Hsim. cbv beta iota in Hsim.
  destruct (processSfc hash_Of C config epoch time receipts cheaters true stats a e) as [[a' e']|f]; [|done]. destruct Hsim as [R1 R2]. cbn [fst snd] in *.
  exists a', t', e1. by rewrite R2.
Qed.

(** C30: The block that seals an epoch selects the validators of the next
    one: exactly the stakers that are not deactivated and carry no flag, in
    the order of their identifiers.  Every validator reported as a cheater is
    flagged as a fork and every staker that missed enough blocks for long
    enough is flagged as offline, in this block, and neither is selected. *)
Theorem sealed_epoch_selects_validators (epoch time : Z) (receipts : list (list Log)) (cheaters : list Z) (stats : EpochStats)
    (a : AppStore S D B) (p p1 : Plain) (e : E) :
  rel a p -> epoch_fresh p epoch -> processLogs hash_Of C epoch time receipts p = Ret p1 ->
  (forall id, id ∈ cheaters -> is_Some (stakers_of p1 !! id)) -> exists a' e' p',
  processSfc hash_Of C config epoch time receipts cheaters true stats a e = Ret (a', e') /\ rel a' p' /\
  let next := mp_snaps (a_Stakers p') (u32 (epoch + 1)) in
  (forall id st, (id, st) ∈ next <-> stakers_of p' !! id = Some st /\ Staker_Ok st = true) /\ StronglySorted (entry_le Z.le) next /\
  (forall id, id ∈ cheaters -> (exists st, stakers_of p' !! id = Some st /\ Staker_HasFork st = true) /\ id ∉ next.*1) /\
  (forall id st, stakers_of p1 !! id = Some st -> missed_enough config p1 id = true ->
     (exists st', stakers_of p' !! id = Some st' /\ Staker_Offline st' = true) /\ id ∉ next.*1).
Proof.
  intros Hr Hf Hl Hk. destruct (processSfc_returns epoch time receipts cheaters stats a p p1 e Hr Hf Hl Hk) as (a' & t' & e1 & -> & Ha & Ht & _).
  destruct (sealSfc_eq hash_Of C config (with_table p1 t') e1 epoch cheaters stats) as (t & e2 & Heq & Htt & _). cbv zeta in Heq.
  rewrite Heq in *. cbn [fst snd] in *. do 3 eexists. split; [reflexivity|]. split; [exact Ha|].
  cbn [a_Stakers with_stakers mp_snaps mp_table] in *. rewrite decide_True by done.
  assert (forall id st, (id, st) ∈ filter (fun it : Z * SfcStaker => Staker_Ok it.2 = true) (sorted_entries Z.le t) <->
    t !! id = Some st /\ Staker_Ok st = true) as Hmem.
  { intros id st. rewrite list_elem_of_filter, obj_elem_of_sorted_entries. cbn. tauto. }
  assert (forall id st, t !! id = Some st -> Staker_Ok st = false ->
    id ∉ (filter (fun it : Z * SfcStaker => Staker_Ok it.2 = true) (sorted_entries Z.le t)).*1) as Hout.
  { intros id st Hid Hok ([id' st'] & -> & Hin)%list_elem_of_fmap. apply Hmem in Hin as [Hid' Hok']. cbn in Hid. congruence. }
  split; [exact Hmem|]. split; [eapply sublist_sorted; [apply sublist_filter|]; apply sorted_entries_sorted; apply _|]. split.
  - intros id Hc. destruct (Hk id Hc) as [st Hst]. specialize (Htt id). rewrite Ht, decide_True, Hst in Htt by done. cbn in Htt.
    assert (Staker_HasFork (penalised config (with_table p1 t') id (flagged st)) = true) as Hfk by (rewrite penalised_fork; apply flagged_fork).
    split; [by eexists|]. eapply Hout; [exact Htt|]. by apply forked_not_ok.
  - intros id st Hst Hm. specialize (Htt id). rewrite Ht, Hst in Htt.
    assert (exists st1, t !! id = Some (penalised config p1 id st1)) as [st1 H1].
    { case_decide; cbn in Htt; by eexists. }
    assert (Staker_Offline (penalised config p1 id st1) = true) as Hoff by by apply penalised_offline.
    split; [by eexists|]. eapply Hout; [exact H1|]. by apply offline_not_ok.
Qed.

(** The block that seals an epoch pays for it.  The rewards, the base
    rate for the seconds of the epoch plus the fees, are added to the balance
    of the contract and to the total supply; and, the positions of the record
    being distinct, the storage of the contract holds the whole record: the
    stake and the weights of every validator of the epoch that is neither a
    cheater nor without weight, and the totals, which are the sums of these
    weights and of all stakes and delegations of the epoch's validators. *)
Theorem sealed_epoch_pays (epoch time : Z) (receipts : list (list Log)) (cheaters : list Z) (stats : EpochStats)
    (a : AppStore S D B) (p p1 : Plain) (e : E) :
  rel a p -> epoch_fresh p epoch -> processLogs hash_Of C epoch time receipts p = Ret p1 ->
  (forall id, id ∈ cheaters -> is_Some (stakers_of p1 !! id)) ->
  NoDup (epoch_record hash_Of config p1 epoch cheaters stats).*1 -> exists a' e',
  processSfc hash_Of C config epoch time receipts cheaters true stats a e = Ret (a', e') /\
  GetBalance e' C = GetBalance e C + epoch_rewards config p1 epoch stats /\
  a_TotalSupply a' = Z.abs (a_TotalSupply p1 + epoch_rewards config p1 epoch stats) /\
  Forall (fun kv => GetState e' C kv.1 = kv.2) (epoch_record hash_Of config p1 epoch cheaters stats).
Proof.
  intros Hr Hf Hl Hk Hn. destruct (processSfc_returns epoch time receipts cheaters stats a p p1 e Hr Hf Hl Hk) as (a' & t' & e1 & -> & Ha & _ & Hb).
  destruct (sealSfc_eq hash_Of C config (with_table p1 t') e1 epoch cheaters stats) as (t & e2 & Heq & _ & Hb2). cbv zeta in Heq.
  rewrite Heq in *. cbn [fst snd] in *. do 2 eexists. split; [reflexivity|].
  rewrite epoch_rewards_table, epoch_record_table in *.
  split; [|split].
  - rewrite sdb_bal_add, decide_True by done. by rewrite (puts_balance C), Hb2, Hb.
  - exact (ar_supply _ _ Ha).
  - apply Forall_forall. intros [k v] Hin. cbn. rewrite sdb_get_add. apply (puts_in C); [apply elem_of_app; by left|].
    intros v' [Hin'|Hin']%elem_of_app; [by eapply nodup_value|]. apply list_elem_of_singleton in Hin' as [= -> ->].
    eapply nodup_value; [exact Hn|exact Hin|]. unfold epoch_record. apply elem_of_app. right. by left.
Qed.
End sealed.

(** ** An example: the first epoch of two validators, one of them a cheater *)

#[local] Existing Instance plainS.
#[local] Existing Instance plainD.

Definition toy_scored : NodeStore :=
  let sc := a_Scores toy_genesis in
  with_scores toy_genesis
    (mkScores {[1 := 2 * second; 2 := 2 * second]} ∅ {[1 := 5]} ∅ (BlockDowntime sc) (BlockDowntimeEpoch sc) (ActiveValidationEpoch sc)).
Definition toy_running : NodeStore := restart toy_scored.
Definition toy_stats : EpochStats := mkEpochStats (7 * second) (9 * second) 11.
Definition toy_logged : PlainStore :=
  match processLogs toy_hash toy_contract 1 (9 * second) [[toy_increase]] (plain_of toy_scored) with Ret p => p | Fault _ => plain_of toy_scored end.

Lemma toy_logged_eq : processLogs toy_hash toy_contract 1 (9 * second) [[toy_increase]] (plain_of toy_scored) = Ret toy_logged.
Proof. unfold toy_logged. destruct (processLogs _ _ _ _ _ _) eqn:Er; [done|]. vm_compute in Er. discriminate. Qed.

Lemma toy_known id : id ∈ [2] -> is_Some (mp_table (a_Stakers toy_logged) !! id).
Proof. intros ->%list_elem_of_singleton. vm_compute. by eexists. Qed.

(** The rewarded validator is the honest one. *)
Example toy_paid : (fun x => x.1.1) <$> paid [2] (reward_rows toy_config toy_logged 1 toy_stats) = [1].
Proof. vm_compute. reflexivity. Qed.

Lemma sealed_epoch_selects_validators_witness : exists a' e' p',
  processSfc toy_hash toy_contract toy_config 1 (9 * second) [[toy_increase]] [2] true toy_stats toy_running (mkMemState ∅ ∅) = Ret (a', e') /\
  node_rel a' p' /\
  let next := mp_snaps (a_Stakers p') (u32 (1 + 1)) in
  (forall id st, (id, st) ∈ next <-> mp_table (a_Stakers p') !! id = Some st /\ Staker_Ok st = true) /\ StronglySorted (entry_le Z.le) next /\
  (forall id, id ∈ [2] -> (exists st, mp_table (a_Stakers p') !! id = Some st /\ Staker_HasFork st = true) /\ id ∉ next.*1) /\
  (forall id st, mp_table (a_Stakers toy_logged) !! id = Some st -> missed_enough toy_config toy_logged id = true ->
     (exists st', mp_table (a_Stakers p') !! id = Some st' /\ Staker_Offline st' = true) /\ id ∉ next.*1).
Proof.
  apply (sealed_epoch_selects_validators toy_hash toy_contract toy_config 1 (9 * second) [[toy_increase]] [2] toy_stats
           toy_running (plain_of toy_scored) toy_logged (mkMemState ∅ ∅)).
  - apply restart_rel.
  - vm_compute. reflexivity.
  - exact toy_logged_eq.
  - exact toy_known.
Defined.

Lemma sealed_epoch_pays_witness : exists a' e',
  processSfc toy_hash toy_contract toy_config 1 (9 * second) [[toy_increase]] [2] true toy_stats toy_running (mkMemState ∅ ∅) = Ret (a', e') /\
  GetBalance e' toy_contract = GetBalance (mkMemState ∅ ∅) toy_contract + epoch_rewards toy_config toy_logged 1 toy_stats /\
  a_TotalSupply a' = Z.abs (a_TotalSupply toy_logged + epoch_rewards toy_config toy_logged 1 toy_stats) /\
  Forall (fun kv => GetState e' toy_contract kv.1 = kv.2) (epoch_record toy_hash toy_config toy_logged 1 [2] toy_stats).
Proof.
  apply (sealed_epoch_pays toy_hash toy_contract toy_config 1 (9 * second) [[toy_increase]] [2] toy_stats
           toy_running (plain_of toy_scored) toy_logged (mkMemState ∅ ∅)).
  - apply restart_rel.
  - vm_compute. reflexivity.
  - exact toy_logged_eq.
  - exact toy_known.
  - apply (bool_decide_unpack _). vm_compute. exact I.
Defined.
