(* ===== verification/StateTransition.v ===== *)
(** * Transactions over the state of the EVM: evmcore

    evmcore/gaspool.go, state_transition.go, state_processor.go, evm.go: the
    gas pool of a block, the purchase and the refund of gas around a call of
    the virtual machine, and the loop over the transactions of a block that
    skips what cannot run.  The virtual machine, the state database and the
    recovery of senders belong to go-ethereum: they are parameters, with what
    the code relies on as laws. *)

From S2P Require Import Prelude Bytes Pos Event VecStore EventCheck EventBuffer SfcStore Sfc.

(** ** Parameters *)

Inductive tx_error :=
  | ErrMalformed | ErrNonceTooHigh | ErrNonceTooLow | ErrInsufficientFunds | errInsufficientBalanceForGas
  | ErrGasLimitReached | vm_ErrOutOfGas | vm_ErrInsufficientBalance | vm_OtherError.
#[global] Instance tx_error_eq_dec : EqDecision tx_error.
Proof. solve_decision. Defined.

(** What the code reads of a transaction of go-ethereum. *)
Record EthTx := mkEthTx { et_tx : Transaction; et_Nonce : Z; et_Hash : hash }.

(** The state database and the virtual machine over it. *)
Class EvmState (E : Type) := {
  es_StateDB :: StateDB E;
  SubBalance : E -> bytes -> Z -> E;
  GetNonce : E -> bytes -> Z;
  SetNonce : E -> bytes -> Z -> E;
  GetRefund : E -> Z;
  Prepare : E -> hash -> hash -> Z -> E;      (* the transaction that runs next *)
  Finalise : E -> E;
  GetLogs : E -> hash -> list Log;
  TxIndex : E -> Z;
  (* caller, data, gas, value; the gas left, the error and the state *)
  vm_Create : E -> bytes -> bytes -> Z -> Z -> Z * option tx_error * E;
  vm_Call : E -> bytes -> bytes -> bytes -> Z -> Z -> Z * option tx_error * E
}.

(** ** evmcore/evm.go *)

Section evm.
Context {E : Type} `{EvmState E}.
Implicit Types (db : E) (sender recipient : bytes) (amount : Z).

Definition CanTransfer db sender amount : bool := amount <=? GetBalance db sender.
Definition Transfer db sender recipient amount : E := AddBalance (SubBalance db sender amount) recipient amount.
End evm.

(** The machine does not create gas and fails for want of balance only when
    [CanTransfer], which it is given, says so. *)
Class EvmStateLaws (E : Type) `{EvmState E} : Prop := {
  es_sub_same (e : E) a x : GetBalance (SubBalance e a x) a = GetBalance e a - x;
  es_sub_nonce (e : E) a x b : GetNonce (SubBalance e a x) b = GetNonce e b;
  es_nonce_balance (e : E) a n b : GetBalance (SetNonce e a n) b = GetBalance e b;
  es_refund (e : E) : 0 <= GetRefund e;
  es_create_gas (e : E) a d gas v : 0 <= gas -> 0 <= (vm_Create e a d gas v).1.1 <= gas;
  es_call_gas (e : E) a t d gas v : 0 <= gas -> 0 <= (vm_Call e a t d gas v).1.1 <= gas;
  es_create_balance (e : E) a d gas v : CanTransfer e a v = true -> (vm_Create e a d gas v).1.2 <> Some vm_ErrInsufficientBalance;
  es_call_balance (e : E) a t d gas v : CanTransfer e a v = true -> (vm_Call e a t d gas v).1.2 <> Some vm_ErrInsufficientBalance
}.

(** ** evmcore/gaspool.go *)

Definition AddGas (gp amount : Z) : go Z :=
  if gp >? MaxUint64 - amount then Fault (PanicMsg "gas pool pushed above uint64") else Ret (u64 (gp + amount)).
Definition SubGas (gp amount : Z) : option Z := if gp <? amount then None else Some (gp - amount).

(** ** evmcore/state_transition.go *)

Record Message := mkMessage {
  m_From : bytes;
  m_To : option bytes;
  m_GasPrice : Z;
  m_Gas : Z;
  m_Value : Z;
  m_Nonce : Z;
  m_CheckNonce : bool;
  m_Data : bytes
}.

Record StateTransition (E : Type) := mkStateTransition { st_gp : Z; st_gas : Z; st_initialGas : Z; st_state : E }.
Arguments mkStateTransition {E} _ _ _ _.
Arguments st_gp {E} _.
Arguments st_gas {E} _.
Arguments st_initialGas {E} _.
Arguments st_state {E} _.

Section transition.
Context (eth : EthParams) {E : Type} `{EvmState E}.
Implicit Types (st : StateTransition E) (msg : Message).

Definition NewStateTransition (e : E) (gp : Z) : StateTransition E := mkStateTransition gp 0 0 e.

Definition useGas st amount : option (StateTransition E) :=
  if st_gas st <? amount then None else Some (mkStateTransition (st_gp st) (st_gas st - amount) (st_initialGas st) (st_state st)).

(** An error leaves the transition as it was. *)
Definition buyGas st msg : tx_error + StateTransition E :=
  let mgval := m_Gas msg * m_GasPrice msg in
  if GetBalance (st_state st) (m_From msg) <? mgval then inl errInsufficientBalanceForGas
  else match SubGas (st_gp st) (m_Gas msg) with
       | None => inl ErrGasLimitReached
       | Some gp => inr (mkStateTransition gp (u64 (st_gas st + m_Gas msg)) (m_Gas msg) (SubBalance (st_state st) (m_From msg) mgval))
       end.

Definition preCheck st msg : tx_error + StateTransition E :=
  let nonce := GetNonce (st_state st) (m_From msg) in
  if m_CheckNonce msg && (nonce <? m_Nonce msg) then inl ErrNonceTooHigh
  else if m_CheckNonce msg && (m_Nonce msg <? nonce) then inl ErrNonceTooLow
  else buyGas st msg.

Definition gasUsed st : Z := u64 (st_initialGas st - st_gas st).

Definition refundGas st msg : go (StateTransition E) :=
  let refund := gasUsed st / 2 in
  let refund := if refund >? GetRefund (st_state st) then GetRefund (st_state st) else refund in
  let gas := u64 (st_gas st + refund) in
  let e := AddBalance (st_state st) (m_From msg) (gas * m_GasPrice msg) in
  gp ← AddGas (st_gp st) gas;
  Ret (mkStateTransition gp gas (st_initialGas st) e).

(** The call of the virtual machine. *)
Definition runMessage st msg : StateTransition E * option tx_error :=
  let e := st_state st in
  let '(gas, vmerr, e) :=
    match m_To msg with
    | None => vm_Create e (m_From msg) (m_Data msg) (st_gas st) (m_Value msg)
    | Some to => vm_Call (SetNonce e (m_From msg) (u64 (GetNonce e (m_From msg) + 1))) (m_From msg) to (m_Data msg) (st_gas st) (m_Value msg)
    end in
  (mkStateTransition (st_gp st) gas (st_initialGas st) e, vmerr).

(** The used gas, the fee and whether the machine failed. *)
Definition TransitionDb st msg : go ((tx_error + Z * Z * bool) * StateTransition E) :=
  match preCheck st msg with
  | inl err => Ret (inl err, st)
  | inr st =>
      match IntrinsicGas eth (m_Data msg) (bool_decide (m_To msg = None)) with
      | inl _ => Ret (inl vm_ErrOutOfGas, st)
      | inr gas =>
          match useGas st gas with
          | None => Ret (inl vm_ErrOutOfGas, st)
          | Some st =>
              let '(st, vmerr) := runMessage st msg in
              (* use 10% of not used gas *)
              match useGas st (st_gas st / 10) with
              | None => Ret (inl vm_ErrOutOfGas, st)
              | Some st =>
                  if bool_decide (vmerr = Some vm_ErrInsufficientBalance) then Ret (inl vm_ErrInsufficientBalance, st)
                  else
                    st ← refundGas st msg;
                    Ret (inr (gasUsed st, gasUsed st * m_GasPrice msg, bool_decide (is_Some vmerr)), st)
              end
          end
      end
  end.

Definition ApplyMessage (e : E) msg (gp : Z) := TransitionDb (NewStateTransition e gp) msg.
End transition.

(** ** evmcore/state_processor.go *)

Record Receipt := mkReceipt {
  r_Failed : bool;
  r_CumulativeGasUsed : Z;
  r_TxHash : hash;
  r_GasUsed : Z;
  r_Logs : list Log;
  r_TransactionIndex : Z
}.

Record EvmBlock := mkEvmBlock { eb_GasLimit : Z; eb_Hash : hash; eb_Transactions : list EthTx }.

Section processor.
Context (eth : EthParams) {E : Type} `{EvmState E}.
Context (Sender : EthTx -> option bytes) (Cost : EthTx -> Z).
Implicit Types (e : E) (tx : EthTx).

(** [tx.AsMessage]. *)
Definition AsMessage tx : option Message :=
  let t := et_tx tx in
  from ← Sender tx; Some (mkMessage from (tx_To t) (tx_GasPrice t) (tx_Gas t) (tx_Value t) (et_Nonce tx) true (tx_Data t)).

Definition TransactionPreCheck e (msg : Message) tx : option tx_error :=
  let nonce := GetNonce e (m_From msg) in
  if nonce <? m_Nonce msg then Some ErrNonceTooHigh
  else if m_Nonce msg <? nonce then Some ErrNonceTooLow
  else if GetBalance e (m_From msg) <? Cost tx then Some ErrInsufficientFunds
  else None.

(** The chain rules are those after Byzantium. *)
Definition ApplyTransaction (gp : Z) e tx (usedGas : Z) (strict : bool) : go ((tx_error + Receipt * Z * Z) * Z * Z * E) :=
  match AsMessage tx with
  | None => Ret (inl ErrMalformed, gp, usedGas, e)
  | Some msg =>
      match (if negb strict then TransactionPreCheck e msg tx else None) with
      | Some err => Ret (inl err, gp, usedGas, e)
      | None =>
          '(res, st) ← ApplyMessage eth e msg gp;
          match res with
          | inl err => Ret (inl err, st_gp st, usedGas, st_state st)
          | inr (gas, fee, failed) =>
              let e := Finalise (st_state st) in
              let usedGas := u64 (usedGas + gas) in
              Ret (inr (mkReceipt failed usedGas (et_Hash tx) gas (GetLogs e (et_Hash tx)) (TxIndex e), gas, fee), st_gp st, usedGas, e)
          end
      end
  end.

Record Processed := mkProcessed {
  pr_receipts : list Receipt;
  pr_gp : Z;
  pr_usedGas : Z;
  pr_totalFee : Z;
  pr_skipped : list Z;
  pr_state : E
}.

(** One round of the loop; a strict run does not survive a failing one. *)
Definition process_tx (block : EvmBlock) (strict : bool) (s : Z * Processed) tx : go (Z * Processed) :=
  let '(i, p) := s in
  let e := Prepare (pr_state p) (et_Hash tx) (eb_Hash block) i in
  '(res, gp, usedGas, e) ← ApplyTransaction (pr_gp p) e tx (pr_usedGas p) strict;
  match res with
  | inl _ =>
      if negb strict then Ret (i + 1, mkProcessed (pr_receipts p) gp usedGas (pr_totalFee p) (pr_skipped p ++ [i]) e)
      else Fault NilDereference
  | inr (receipt, _, fee) => Ret (i + 1, mkProcessed (pr_receipts p ++ [receipt]) gp usedGas (pr_totalFee p + fee) (pr_skipped p) e)
  end.

Definition Process (block : EvmBlock) e (strict : bool) : go Processed :=
  gp ← AddGas 0 (eb_GasLimit block);
  '(_, p) ← go_fold (process_tx block strict) (0, mkProcessed [] gp 0 0 [] e) (eb_Transactions block);
  Ret p.
End processor.

(** ** app/app.go: [filterSkippedTxs] *)

(** [i] is the index of the loop, [skipped] what is left of the skipped
    indices. *)
Fixpoint filter_from {T} (i : Z) (skipped : list Z) (txs : list T) : list T :=
  match txs with
  | [] => []
  | tx :: txs =>
      match skipped with
      | s :: rest => if s =? i then filter_from (i + 1) rest txs else tx :: filter_from (i + 1) skipped txs
      | [] => tx :: filter_from (i + 1) skipped txs
      end
  end.
Definition filterSkippedTxs (skipped : list Z) (block : EvmBlock) : EvmBlock :=
  mkEvmBlock (eb_GasLimit block) (eb_Hash block) (filter_from 0 skipped (eb_Transactions block)).
