(* ===== verification/TransitionSpec.v ===== *)
(** * What the processing of transactions guarantees

    A transaction that passed the checks of its event either runs and pays, or
    leaves no trace; the gas pool never overflows; and the receipts of a block
    line up with the transactions that were not skipped. *)

From S2P Require Import Prelude Bytes Pos Event VecStore EventCheck EventBuffer SfcStore Sfc SfcSim StateTransition.

(** The gas prices are those of the library: positive. *)
Definition eth_ok (eth : EthParams) : Prop :=
  is_u64 (TxGasContractCreation eth) /\ is_u64 (TxGas eth).

Lemma intrinsic_nonneg eth data creation gas : eth_ok eth -> IntrinsicGas eth data creation = inr gas -> 0 <= gas.
Proof.
  unfold eth_ok, is_u64. intros [H1 H2]. unfold IntrinsicGas. case_bool_decide.
  - intros [= <-]. destruct creation; lia.
  - repeat case_match; intros [= <-]; apply u64_range.
Qed.

Section transition.
Context (eth : EthParams) {E : Type} `{LE : EvmStateLaws E} (eth_prices : eth_ok eth).
Implicit Types (st : StateTransition E) (msg : Message).

Lemma useGas_some st n : n <= st_gas st ->
  useGas st n = Some (mkStateTransition (st_gp st) (st_gas st - n) (st_initialGas st) (st_state st)).
Proof. intros Hn. unfold useGas. by rewrite (proj2 (Z.ltb_ge _ _)). Qed.

(** The refund: at most half of the used gas, and the pool gets the rest back. *)
Lemma refundGas_spec st msg : is_u64 (st_initialGas st) -> 0 <= st_gas st <= st_initialGas st -> 0 <= st_gp st ->
  st_gp st + st_initialGas st <= MaxUint64 -> exists st', refundGas st msg = Ret st' /\
  st_initialGas st' = st_initialGas st /\ st_gp st' = st_gp st + st_gas st' /\ st_gas st <= st_gas st' <= st_initialGas st /\
  st_initialGas st - st_gas st <= 2 * gasUsed st' /\ gasUsed st' = st_initialGas st - st_gas st' /\
  st_state st' = AddBalance (st_state st) (m_From msg) (st_gas st' * m_GasPrice msg).
Proof.
  unfold is_u64, MaxUint64. intros Hi Hg Hgp Hsum. unfold refundGas.
  assert (gasUsed st = st_initialGas st - st_gas st) as -> by (unfold gasUsed; apply u64_id; unfold is_u64; lia).
  set (refund := if _ >? _ then _ else _).
  assert (0 <= refund /\ 2 * refund <= st_initialGas st - st_gas st) as [Hr0 Hr].
  { pose proof (es_refund (st_state st)). assert (2 * ((st_initialGas st - st_gas st) / 2) <= st_initialGas st - st_gas st) by (apply Z.mul_div_le; lia).
    assert (0 <= (st_initialGas st - st_gas st) / 2) by (apply Z.div_pos; lia).
    unfold refund. destruct (_ >? _) eqn:Er; [rewrite Z.gtb_ltb in Er; apply Z.ltb_lt in Er|]; lia. }
  rewrite (u64_id (st_gas st + refund)) by (unfold is_u64; lia). unfold AddGas, MaxUint64. destruct (Z.gtb_spec (st_gp st) (18446744073709551615 - (st_gas st + refund))); [lia|].
  rewrite go_bind_Ret, (u64_id (st_gp st + (st_gas st + refund))) by (unfold is_u64; lia). eexists. split; [reflexivity|].
  unfold gasUsed. cbn. rewrite u64_id by (unfold is_u64; lia). split_and!; try done; lia.
Qed.

(** What a transaction of a checked event promises. *)
Record msg_ok (msg : Message) (intr : Z) : Prop := {
  mo_intrinsic : IntrinsicGas eth (m_Data msg) (bool_decide (m_To msg = None)) = inr intr;
  mo_gas : intr <= m_Gas msg <= MaxUint64
}.

Lemma runMessage_spec st msg : 0 <= st_gas st -> CanTransfer (st_state st) (m_From msg) (m_Value msg) = true -> exists gas e vmerr,
  runMessage st msg = (mkStateTransition (st_gp st) gas (st_initialGas st) e, vmerr) /\ 0 <= gas <= st_gas st /\
  vmerr <> Some vm_ErrInsufficientBalance.
Proof.
  intros Hg Hc. unfold runMessage. destruct (m_To msg) as [to|].
  - set (e1 := SetNonce _ _ _). pose proof (es_call_gas e1 (m_From msg) to (m_Data msg) (st_gas st) (m_Value msg) Hg) as Hgas.
    assert (CanTransfer e1 (m_From msg) (m_Value msg) = true) as Hc1 by (unfold CanTransfer in *; unfold e1; by rewrite es_nonce_balance).
    pose proof (es_call_balance e1 (m_From msg) to (m_Data msg) (st_gas st) (m_Value msg) Hc1) as Hv.
    destruct (vm_Call _ _ _ _ _ _) as [[gas vmerr] e]. by exists gas, e, vmerr.
  - pose proof (es_create_gas (st_state st) (m_From msg) (m_Data msg) (st_gas st) (m_Value msg) Hg) as Hgas.
    pose proof (es_create_balance (st_state st) (m_From msg) (m_Data msg) (st_gas st) (m_Value msg) Hc) as Hv.
    destruct (vm_Create _ _ _ _ _) as [[gas vmerr] e]. by exists gas, e, vmerr.
Qed.

Lemma ApplyMessage_spec (e : E) msg intr gp : msg_ok msg intr -> is_u64 gp ->
  m_Gas msg * m_GasPrice msg + m_Value msg <= GetBalance e (m_From msg) -> 0 <= m_Value msg -> exists res st',
  ApplyMessage eth e msg gp = Ret (res, st') /\
  match res with
  | inl _ => st_gp st' = gp /\ st_state st' = e
  | inr (gas, fee, _) => fee = gas * m_GasPrice msg /\ intr <= 2 * gas /\ 0 <= gas <= m_Gas msg /\ m_Gas msg <= gp /\ st_gp st' = gp - gas
  end.
Proof.
  unfold is_u64. intros [Hi Hgas] Hgp Hbal Hval. pose proof (intrinsic_nonneg eth _ _ _ eth_prices Hi) as Hi0. unfold ApplyMessage, TransitionDb, preCheck.
  cbn [NewStateTransition st_state]. destruct (m_CheckNonce msg && (GetNonce e (m_From msg) <? m_Nonce msg)); [by eexists _, _; split; [reflexivity|]|].
  destruct (m_CheckNonce msg && (m_Nonce msg <? GetNonce e (m_From msg))); [by eexists _, _; split; [reflexivity|]|].
  unfold buyGas. cbn [st_state st_gp st_gas NewStateTransition]. destruct (GetBalance e (m_From msg) <? m_Gas msg * m_GasPrice msg); [by eexists _, _; split; [reflexivity|]|].
  unfold SubGas. destruct (Z.ltb_spec gp (m_Gas msg)); [by eexists _, _; split; [reflexivity|]|]. unfold MaxUint64 in Hgas.
  rewrite Hi, Z.add_0_l, (u64_id (m_Gas msg)) by (unfold is_u64; lia). rewrite useGas_some by (cbn; lia). cbn [st_gp st_gas st_initialGas st_state].
  match goal with |- context [runMessage ?s msg] => destruct (runMessage_spec s msg) as (gas & e1 & vmerr & -> & Hg & Hv) end; cbn [st_gas st_gp st_state st_initialGas] in *.
  { lia. }
  { unfold CanTransfer. rewrite es_sub_same. apply Z.leb_le. lia. }
  assert (0 <= gas / 10 <= gas) by (split; [apply Z.div_pos|apply Z.div_le_upper_bound]; lia).
  rewrite useGas_some by (cbn; lia). cbn [st_gas st_gp st_state st_initialGas]. rewrite bool_decide_eq_false_2 by done.
  match goal with |- context [refundGas ?s msg] => destruct (refundGas_spec s msg) as (st' & -> & Hin & Hgp' & Hga & Hus & Hgu & _) end;
    cbn [st_gas st_gp st_state st_initialGas] in *; unfold is_u64, MaxUint64 in *; [lia..|].
  rewrite go_bind_Ret. do 2 eexists. split; [reflexivity|]. cbn. split_and!; try lia.
Qed.
End transition.

(** ** Blocks of transactions *)

Section process.
Context (eth : EthParams) {E : Type} `{LE : EvmStateLaws E} (eth_prices : eth_ok eth).
Context (Sender : EthTx -> option bytes) (Cost : EthTx -> Z).
Implicit Types (e : E) (tx : EthTx).

(** A transaction of an event that passed the basic checks; its cost is what
    the library documents. *)
Record tx_ok tx : Prop := {
  to_valid : validateTx eth (et_tx tx) = None;
  to_gas : is_u64 (tx_Gas (et_tx tx));
  to_cost : Cost tx = tx_Gas (et_tx tx) * tx_GasPrice (et_tx tx) + tx_Value (et_tx tx)
}.

Lemma tx_ok_intrinsic tx : tx_ok tx -> 0 <= tx_Value (et_tx tx) /\ exists intr,
  IntrinsicGas eth (tx_Data (et_tx tx)) (bool_decide (tx_To (et_tx tx) = None)) = inr intr /\ intr <= tx_Gas (et_tx tx).
Proof.
  intros [Hv _ _]. unfold validateTx in Hv. destruct (Z.ltb_spec (tx_Value (et_tx tx)) 0); [done|]. cbn in Hv. destruct (_ <? 0); [done|].
  destruct (IntrinsicGas _ _ _) as [|intr]; [done|]. destruct (Z.ltb_spec (tx_Gas (et_tx tx)) intr); [done|]. split; [lia|]. by exists intr.
Qed.

(** What a transaction that runs leaves behind. *)
Definition ran tx (gp used : Z) (r : Receipt) (gas fee gp' used' : Z) : Prop :=
  r_TxHash r = et_Hash tx /\ r_GasUsed r = gas /\ fee = gas * tx_GasPrice (et_tx tx) /\ 0 <= gas <= tx_Gas (et_tx tx) /\
  (exists intr, IntrinsicGas eth (tx_Data (et_tx tx)) (bool_decide (tx_To (et_tx tx) = None)) = inr intr /\ intr <= 2 * gas) /\
  gas <= gp /\ gp' = gp - gas /\ used' = used + gas.

Lemma ApplyTransaction_spec gp e tx used : tx_ok tx -> 0 <= gp -> 0 <= used -> gp + used <= MaxUint64 -> exists res gp' used' e',
  ApplyTransaction eth Sender Cost gp e tx used false = Ret (res, gp', used', e') /\
  match res with
  | inl _ => gp' = gp /\ used' = used /\ e' = e
  | inr (r, gas, fee) => ran tx gp used r gas fee gp' used'
  end.
Proof.
  intros Hok Hgp Hused Hsum. destruct (tx_ok_intrinsic tx Hok) as (Hval & intr & Hi & Hintr). destruct Hok as [_ Hgas Hcost].
  unfold ApplyTransaction, AsMessage. destruct (Sender tx) as [from|]; [|by eexists _, _, _, _; split; [reflexivity|]]. cbn [mbind option_bind negb].
  set (msg := mkMessage _ _ _ _ _ _ _ _). destruct (TransactionPreCheck Cost e msg tx) as [err|] eqn:Hpre; [by eexists _, _, _, _; split; [reflexivity|]|].
  assert (m_Gas msg * m_GasPrice msg + m_Value msg <= GetBalance e (m_From msg)) as Hbal.
  { unfold TransactionPreCheck in Hpre. repeat case_match; try done. cbn. unfold msg in *. cbn in *. rewrite <-Hcost. by apply Z.ltb_ge. }
  unfold is_u64, MaxUint64 in *.
  destruct (ApplyMessage_spec eth eth_prices e msg intr gp) as (res & st' & -> & Hres); [split; [exact Hi|cbn; unfold MaxUint64; lia]|unfold is_u64; lia|done|done|].
  rewrite go_bind_Ret. cbv beta iota. destruct res as [err|[[gas fee] failed]].
  - destruct Hres as [<- <-]. by eexists _, _, _, _; split; [reflexivity|].
  - destruct Hres as (-> & Hlo & Hhi & Hle & Hgp'). rewrite (u64_id (used + gas)) by (unfold is_u64; lia). do 4 eexists. split; [reflexivity|].
    unfold ran. subst msg. cbn in *. split_and!; [done|done|done|lia|lia|by exists intr|lia|lia|lia].
Qed.

(** C26: A transaction of a checked event either runs or leaves no trace.
    When it is skipped, whatever the reason, the state, the gas pool and the
    used gas are as before: in particular the sender has not paid for gas.
    When it runs it uses at least half of its intrinsic gas and at most its
    gas limit, the fee is the used gas at its price, the pool falls and the
    used gas of the block grows by exactly that; the pool never overflows. *)
Theorem tx_runs_or_leaves_no_trace (gp : Z) (e : E) (tx : EthTx) (used : Z) :
  tx_ok tx -> 0 <= gp -> 0 <= used -> gp + used <= MaxUint64 -> exists res gp' used' e',
  ApplyTransaction eth Sender Cost gp e tx used false = Ret (res, gp', used', e') /\
  match res with
  | inl _ => gp' = gp /\ used' = used /\ e' = e
  | inr (r, gas, fee) => ran tx gp used r gas fee gp' used'
  end.
Proof. apply ApplyTransaction_spec. Qed.

(** The receipt of a transaction. *)
Definition receipt_of tx (r : Receipt) : Prop := r_TxHash r = et_Hash tx /\ 0 <= r_GasUsed r <= tx_Gas (et_tx tx).
Definition fee_of tx (r : Receipt) : Z := r_GasUsed r * tx_GasPrice (et_tx tx).

(** An index that is still to come is not the current one. *)
Lemma filter_from_keep (i : Z) (sk : list Z) tx txs : Forall (fun j => i + 1 <= j) sk ->
  filter_from i sk (tx :: txs) = tx :: filter_from (i + 1) sk txs.
Proof. intros Hsk. destruct Hsk as [|j sk Hj Hsk]; [done|]. cbn. destruct (Z.eqb_spec j i); [lia|done]. Qed.

Lemma process_loop (block : EvmBlock) (txs : list EthTx) : forall (i : Z) (p : Processed (E := E)),
  Forall tx_ok txs -> 0 <= pr_gp p -> 0 <= pr_usedGas p -> pr_gp p + pr_usedGas p <= MaxUint64 -> exists i' p' sk rs,
  go_fold (process_tx eth Sender Cost block false) (i, p) txs = Ret (i', p') /\
  pr_skipped p' = pr_skipped p ++ sk /\ pr_receipts p' = pr_receipts p ++ rs /\ Forall (fun j => i <= j) sk /\
  Forall2 receipt_of (filter_from i sk txs) rs /\
  pr_totalFee p' = pr_totalFee p + zsum (zip_with fee_of (filter_from i sk txs) rs) /\
  pr_usedGas p' = pr_usedGas p + zsum (r_GasUsed <$> rs) /\ 0 <= pr_usedGas p' <= MaxUint64.
Proof.
  induction txs as [|tx txs IH]; intros i p Hok Hgp Hused Hsum.
  { exists i, p, [], []. cbn. rewrite !app_nil_r. split_and!; try done; try lia. }
  apply Forall_cons in Hok as [Htx Hok]. cbn [go_fold]. unfold process_tx at 2. cbv beta iota zeta.
  set (e := Prepare _ _ _ _). destruct (ApplyTransaction_spec (pr_gp p) e tx (pr_usedGas p) Htx Hgp Hused Hsum) as (res & gp' & used' & e' & -> & Hres).
  rewrite go_bind_Ret. cbv beta iota. destruct res as [err|[[r gas] fee]]; cbn [negb]; rewrite go_bind_Ret.
  - destruct Hres as (-> & -> & ->). match goal with |- context [go_fold _ ?st txs] => destruct (IH (i + 1) st.2 Hok) as (i' & p' & sk & rs & Hf & Hsk & Hrs & Hi & Hl & Hfee & Hu & Hr) end; [done..|].
    cbn [snd] in *. exists i', p', (i :: sk), rs. split; [exact Hf|]. cbn [pr_skipped pr_receipts pr_totalFee pr_usedGas] in *.
    cbn [filter_from]. rewrite Z.eqb_refl. rewrite <-app_assoc in Hsk. split_and!; try done; [constructor; [lia|]; eapply Forall_impl; [exact Hi|cbn; lia]|lia|lia].
  - destruct Hres as (Hh & Hg & -> & Hb & _ & Hle & -> & ->).
    match goal with |- context [go_fold _ ?st txs] => destruct (IH (i + 1) st.2 Hok) as (i' & p' & sk & rs & Hf & Hsk & Hrs & Hi & Hl & Hfee & Hu & Hr) end; [cbn; lia..|].
    cbn [snd] in *. exists i', p', sk, (r :: rs). split; [exact Hf|]. cbn [pr_skipped pr_receipts pr_totalFee pr_usedGas] in *.
    rewrite filter_from_keep by done. rewrite <-app_assoc in Hrs. cbn [zip_with zsum fmap list_fmap]. unfold fee_of at 1. rewrite Hg.
    split_and!; try done; try lia; [eapply Forall_impl; [exact Hi|cbn; lia]|].
    constructor; [|done]. unfold receipt_of. by rewrite Hg.
Qed.

(** The whole block. *)
Lemma process_returns (block : EvmBlock) (e : E) :
  Forall tx_ok (eb_Transactions block) -> is_u64 (eb_GasLimit block) -> exists p,
  Process eth Sender Cost block e false = Ret p /\
  let kept := eb_Transactions (filterSkippedTxs (pr_skipped p) block) in
  Forall2 receipt_of kept (pr_receipts p) /\
  pr_totalFee p = zsum (zip_with fee_of kept (pr_receipts p)) /\
  pr_usedGas p = zsum (r_GasUsed <$> pr_receipts p) /\ is_u64 (pr_usedGas p).
Proof.
  intros Hok Hlim. unfold Process, AddGas. unfold is_u64, MaxUint64 in *. destruct (Z.gtb_spec 0 (18446744073709551615 - eb_GasLimit block)); [lia|].
  rewrite go_bind_Ret, Z.add_0_l, u64_id by done.
  destruct (process_loop block (eb_Transactions block) 0 (mkProcessed [] (eb_GasLimit block) 0 0 [] e) Hok) as (i' & p' & sk & rs & -> & Hsk & Hrs & _ & Hl & Hfee & Hu & Hr);
    cbn in *; unfold MaxUint64 in *; [lia..|].
  exists p'. rewrite Hsk, Hrs. cbn. split_and!; try done; try lia.
Qed.
(** The transactions of a block are processed to the end, without a
    panic, whatever they do.  The transactions that remain once the skipped
    ones are filtered out line up one to one with the receipts, so that the
    later loops that read the receipt of each transaction by its index never
    fall out of range and read the right one; the used gas of the block and
    its total fee are the sums over these receipts. *)
Theorem receipts_line_up (block : EvmBlock) (e : E) :
  Forall tx_ok (eb_Transactions block) -> is_u64 (eb_GasLimit block) -> exists p,
  Process eth Sender Cost block e false = Ret p /\
  let kept := eb_Transactions (filterSkippedTxs (pr_skipped p) block) in
  Forall2 receipt_of kept (pr_receipts p) /\
  pr_totalFee p = zsum (zip_with fee_of kept (pr_receipts p)) /\
  pr_usedGas p = zsum (r_GasUsed <$> pr_receipts p) /\ is_u64 (pr_usedGas p).
Proof. apply process_returns. Qed.
End process.

(** ** An example machine: it transfers the value and burns half of the gas *)

Record MemEvm := mkMemEvm { me_state : MemState; me_nonces : gmap bytes Z; me_index : Z }.
#[export] Instance mem_evm_state : StateDB MemEvm := {|
  SetState e a k v := mkMemEvm (SetState (me_state e) a k v) (me_nonces e) (me_index e);
  GetState e a k := GetState (me_state e) a k;
  AddBalance e a x := mkMemEvm (AddBalance (me_state e) a x) (me_nonces e) (me_index e);
  GetBalance e a := GetBalance (me_state e) a
|}.

Definition mem_sub (e : MemEvm) (a : bytes) (x : Z) : MemEvm := AddBalance e a (- x).
Definition mem_move (e : MemEvm) (from to : bytes) (gas value : Z) : Z * option tx_error * MemEvm :=
  if GetBalance e from <? value then (gas, Some vm_ErrInsufficientBalance, e)
  else (gas / 2, None, AddBalance (mem_sub e from value) to value).

#[export] Instance mem_evm : EvmState MemEvm := {|
  es_StateDB := mem_evm_state;
  SubBalance := mem_sub;
  GetNonce e a := default 0 (me_nonces e !! a);
  SetNonce e a n := mkMemEvm (me_state e) (<[a := n]> (me_nonces e)) (me_index e);
  GetRefund _ := 0;
  Prepare e _ _ i := mkMemEvm (me_state e) (me_nonces e) i;
  Finalise e := e;
  GetLogs _ _ := [];
  TxIndex e := me_index e;
  vm_Create e from data gas value := mem_move e from (replicate 20 9) gas value;
  vm_Call e from to data gas value := mem_move e from to gas value
|}.

#[export] Instance mem_evm_laws : EvmStateLaws MemEvm.
Proof.
  assert (forall e from to gas v, 0 <= gas -> 0 <= (mem_move e from to gas v).1.1 <= gas) as Hgas.
  { intros. unfold mem_move. case_match; cbn; [lia|]. split; [apply Z.div_pos; lia|apply Z.div_le_upper_bound; lia]. }
  assert (forall e from to gas v, CanTransfer e from v = true -> (mem_move e from to gas v).1.2 <> Some vm_ErrInsufficientBalance) as Hbal.
  { intros e from to gas v Hc. unfold mem_move, CanTransfer in *. apply Z.leb_le in Hc. by rewrite (proj2 (Z.ltb_ge _ _)). }
  split; intros; cbn; try done; auto.
  by rewrite lookup_insert_eq.
Qed.

Definition toy_tx (nonce gas value : Z) : EthTx := mkEthTx (mkTransaction value MinGasPrice gas [] (Some (replicate 20 2))) nonce [nonce; gas].
Definition toy_sender (tx : EthTx) : option bytes := Some (replicate 20 1).
Definition toy_cost (tx : EthTx) : Z := tx_Gas (et_tx tx) * tx_GasPrice (et_tx tx) + tx_Value (et_tx tx).
Definition toy_evm : MemEvm := AddBalance (mkMemEvm (mkMemState ∅ ∅) ∅ 0) (replicate 20 1) (100000 * MinGasPrice).

(** The second transaction has a wrong nonce, the fourth costs too much. *)
Definition toy_block : EvmBlock := mkEvmBlock MaxUint64 ZeroHash [toy_tx 0 30000 5; toy_tx 0 30000 5; toy_tx 1 40000 7; toy_tx 2 90000 1].

Lemma toy_tx_ok tx : tx ∈ eb_Transactions toy_block -> tx_ok example_eth toy_cost tx.
Proof.
  intros Htx. assert (exists nonce gas value, tx = toy_tx nonce gas value /\ 0 <= value /\ is_u64 gas /\ 21000 <= gas) as (nonce & gas & value & -> & Hv & Hg & H21).
  { unfold toy_block in Htx. cbn [eb_Transactions] in Htx. unfold is_u64.
    repeat (apply elem_of_cons in Htx as [->|Htx]; [do 3 eexists; split; [reflexivity|lia]|]). by apply elem_of_nil in Htx. }
  split; [|exact Hg|done]. unfold validateTx. cbn. rewrite (proj2 (Z.ltb_ge value 0)) by lia. cbn. by rewrite (proj2 (Z.ltb_ge gas 21000)) by lia.
Qed.

Example toy_skips : pr_skipped <$> Process example_eth toy_sender toy_cost toy_block toy_evm false = Ret [1; 3].
Proof. vm_compute. reflexivity. Qed.

Lemma tx_runs_or_leaves_no_trace_witness : exists res gp' used' e',
  ApplyTransaction example_eth toy_sender toy_cost MaxUint64 toy_evm (toy_tx 0 30000 5) 0 false = Ret (res, gp', used', e') /\
  match res with
  | inl _ => gp' = MaxUint64 /\ used' = 0 /\ e' = toy_evm
  | inr (r, gas, fee) => ran example_eth (toy_tx 0 30000 5) MaxUint64 0 r gas fee gp' used'
  end.
Proof.
  apply (tx_runs_or_leaves_no_trace example_eth); [split; vm_compute; split; congruence|apply toy_tx_ok; by left|vm_compute; discriminate..].
Defined.

Lemma receipts_line_up_witness : exists p,
  Process example_eth toy_sender toy_cost toy_block toy_evm false = Ret p /\
  let kept := eb_Transactions (filterSkippedTxs (pr_skipped p) toy_block) in
  Forall2 receipt_of kept (pr_receipts p) /\
  pr_totalFee p = zsum (zip_with fee_of kept (pr_receipts p)) /\
  pr_usedGas p = zsum (r_GasUsed <$> pr_receipts p) /\ is_u64 (pr_usedGas p).
Proof.
  apply (receipts_line_up example_eth); [split; vm_compute; split; congruence|apply Forall_forall; exact toy_tx_ok|vm_compute; split; congruence].
Defined.
