(* ===== verification/App.v ===== *)
(** * The application: app/app.go, scores.go, poi.go

    The blocks of the consensus run as in a Tendermint application: a block is
    begun, its transactions are delivered to the EVM, and at its end the
    scores, the proof of importance and the index of the SFC contract are
    updated and the state is committed.  The log index and the receipts for
    the RPC are left out. *)

From S2P Require Import Prelude Bytes Pos Event VecStore EventCheck EventBuffer SfcStore Sfc StateTransition.

Definition big_div (a b : Z) : go Z := if b =? 0 then Fault (PanicMsg "division by zero") else Ret (a / b).

(** ** app/scores.go *)

Record TxPosition := mkTxPosition { tp_Block : Z; tp_Event : hash; tp_Creator : Z; tp_EventOffset : Z; tp_BlockOffset : Z }.

Section scores.
Context {S D B PS PD : Type} `{ObjStore Z SfcStaker PS S} `{ObjStore bytes SfcDelegator PD D} `{Lru Z BlocksMissed B}.
Abbreviation Tables := (AppStore S D B).
Implicit Types (a : Tables).

Definition AddDirtyOriginationScore a (id v : Z) : Tables :=
  let sc := a_Scores a in
  with_scores a (mkScores (ActiveValidation sc) (DirtyValidation sc) (ActiveOrigination sc) (big_add (DirtyOrigination sc) id v)
    (BlockDowntime sc) (BlockDowntimeEpoch sc) (ActiveValidationEpoch sc)).
Definition AddDirtyValidationScore a (id v : Z) : Tables :=
  let sc := a_Scores a in
  with_scores a (mkScores (ActiveValidation sc) (big_add (DirtyValidation sc) id v) (ActiveOrigination sc) (DirtyOrigination sc)
    (BlockDowntime sc) (BlockDowntimeEpoch sc) (ActiveValidationEpoch sc)).
Definition with_downtime a (dt : Downtime B) : Tables :=
  let sc := a_Scores a in
  with_scores a (mkScores (ActiveValidation sc) (DirtyValidation sc) (ActiveOrigination sc) (DirtyOrigination sc)
    dt (BlockDowntimeEpoch sc) (ActiveValidationEpoch sc)).

(** [DelAllActive...] followed by [MoveDirty...ToActive]: the table of the
    active scores is emptied, every dirty record is put there and deleted. *)
Definition move_all {V} (from to : gmap Z V) : gmap Z V * gmap Z V :=
  foldl (fun ft kv => (delete kv.1 ft.1, <[kv.1 := kv.2]> ft.2)) (from, to) (map_to_list from).
Definition drop_all {V} (t : gmap Z V) : gmap Z V := foldl (fun t k => delete k t) t (map_to_list t).*1.

Definition MoveOrigination a : Tables :=
  let sc := a_Scores a in
  let '(dirty, active) := move_all (DirtyOrigination sc) (drop_all (ActiveOrigination sc)) in
  with_scores a (mkScores (ActiveValidation sc) (DirtyValidation sc) active dirty
    (BlockDowntime sc) (BlockDowntimeEpoch sc) (ActiveValidationEpoch sc)).
Definition MoveValidation a : Tables :=
  let sc := a_Scores a in
  let '(dirty, active) := move_all (DirtyValidation sc) (drop_all (ActiveValidation sc)) in
  with_scores a (mkScores active dirty (ActiveOrigination sc) (DirtyOrigination sc)
    (BlockDowntime sc) (BlockDowntimeEpoch sc) (ActiveValidationEpoch sc)).

(** [newEpochDump]: the records under keys that start with the epoch. *)
Definition newEpochDump {V} (from : gmap Z V) (to : gmap (Z * Z) V) (epoch : Z) : gmap (Z * Z) V :=
  foldl (fun t kv => <[(epoch, kv.1) := kv.2]> t) to (map_to_list from).

(** One transaction of the block: an unknown one counts for the staker zero. *)
Definition creditOrigination (receipts : list Receipt) (txPositions : gmap hash TxPosition) (st : Z * Tables) (tx : EthTx) : go (Z * Tables) :=
  let '(i, a) := st in
  r ← slice_at receipts i;
  let creator := match txPositions !! r_TxHash r with Some pos => tp_Creator pos | None => 0 end in
  Ret (i + 1, AddDirtyOriginationScore a creator (r_GasUsed r * tx_GasPrice (et_tx tx))).

Definition updateOriginationScores (sealEpoch : bool) (txs : list EthTx) (receipts : list Receipt) (txPositions : gmap hash TxPosition) a : go Tables :=
  '(_, a) ← go_fold (creditOrigination receipts txPositions) (0, a) txs;
  Ret (if sealEpoch then MoveOrigination a else a).

(** [a.store.GetBlock(n).Time] *)
Definition blockTime a (n : Z) : go Z := match a_Blocks a !! n with Some t => Ret t | None => Fault NilDereference end.

(** [GetActiveSfcStakers] *)
Definition GetActiveSfcStakers a : list (Z * PS) * Tables :=
  let '(all, s) := os_All (a_Stakers a) in
  (filter (fun it : Z * PS => Staker_Ok (os_Read s it.2) = true) all, with_stakers a s).

(** The score for the block [index - i], which was missed. *)
Definition creditMissed (index id : Z) a (i : Z) : go Tables :=
  cur ← blockTime a (u64 (index - i));
  prev ← blockTime a (u64 (u64 (index - i) - 1));
  Ret (AddDirtyValidationScore a id (u64 (cur - prev))).

Context (config : EconomyConfig).

(** The loop runs over the i with [1 <= i <= missedNum] and [i < index]. *)
Definition creditValidator (epoch index blockTimeDiff : Z) (participated : gset Z) a (id : Z) : go Tables :=
  if negb (os_HasSnap (a_Stakers a) epoch id) then Ret a
  else if negb (bool_decide (id ∈ participated)) then Ret (with_downtime a (IncBlocksMissed (BlockDowntime (a_Scores a)) id blockTimeDiff))
  else
    let '(missed, dt) := GetBlocksMissed (BlockDowntime (a_Scores a)) id in
    let missedNum := if bm_Num missed >? BlockMissedLatency config then BlockMissedLatency config else bm_Num missed in
    let a := AddDirtyValidationScore (with_downtime a dt) id blockTimeDiff in
    a ← go_fold (creditMissed index id) a (seqZ 1 (Z.min missedNum (index - 1)));
    Ret (with_downtime a (ResetBlocksMissed (BlockDowntime (a_Scores a)) id)).

Record AppIndexes := mkAppIndexes { EpochDowntimeIndex : bool; EpochActiveValidationScoreIndex : bool }.

Definition updateValidationScores (indexes : AppIndexes) (sealEpoch : bool) (epoch index time : Z) (participated : gset Z) a : go Tables :=
  prev ← blockTime a (u64 (index - 1));
  let '(stakers, a) := GetActiveSfcStakers a in
  a ← go_fold (creditValidator epoch index (u64 (time - prev)) participated) a stakers.*1;
  if negb sealEpoch then Ret a
  else
    let sc := a_Scores a in
    let a := with_scores a
      (mkScores (ActiveValidation sc) (DirtyValidation sc) (ActiveOrigination sc) (DirtyOrigination sc) (BlockDowntime sc)
         (if EpochDowntimeIndex indexes then newEpochDump (bd_table (BlockDowntime sc)) (BlockDowntimeEpoch sc) epoch else BlockDowntimeEpoch sc)
         (if EpochActiveValidationScoreIndex indexes then newEpochDump (ActiveValidation sc) (ActiveValidationEpoch sc) epoch else ActiveValidationEpoch sc)) in
    Ret (MoveValidation a).
End scores.

(** ** app/poi.go *)

Section poi.
Context {S D B PS PD : Type} `{ObjStore Z SfcStaker PS S} `{ObjStore bytes SfcDelegator PD D} `{Lru Z BlocksMissed B}.
Context (config : EconomyConfig).
Abbreviation Tables := (AppStore S D B).
Implicit Types (a : Tables).

Definition PoiPeriod (t : Z) : go Z := big_div t (u64 (PoiPeriodDuration config)).

Definition AddPoiFee a (period diff : Z) : Tables :=
  if diff =? 0 then a
  else let p := a_Poi a in
    with_poi a (mkPoi (StakerPOI p) (AddressFee p) (StakerDelegatorsFee p) (AddressLastTxTime p) (big_add (TotalPoiFee p) period diff)).
Definition SetWeightedDelegatorsFee a (id v : Z) : Tables :=
  let p := a_Poi a in
  with_poi a (mkPoi (StakerPOI p) (AddressFee p) (big_put (StakerDelegatorsFee p) id v) (AddressLastTxTime p) (TotalPoiFee p)).
Definition SetStakerPOI a (id v : Z) : Tables :=
  let p := a_Poi a in
  with_poi a (mkPoi (big_put (StakerPOI p) id v) (AddressFee p) (StakerDelegatorsFee p) (AddressLastTxTime p) (TotalPoiFee p)).
Definition SetAddressFee a (address : bytes) (period v : Z) : Tables :=
  let p := a_Poi a in
  with_poi a (mkPoi (StakerPOI p) (big_put (AddressFee p) (address, period) v) (StakerDelegatorsFee p) (AddressLastTxTime p) (TotalPoiFee p)).
Definition SetAddressLastTxTime a (address : bytes) (t : Z) : Tables :=
  let p := a_Poi a in
  with_poi a (mkPoi (StakerPOI p) (AddressFee p) (StakerDelegatorsFee p) (<[address := t]> (AddressLastTxTime p)) (TotalPoiFee p)).
Definition DelAllWeightedDelegatorsFee a : Tables :=
  let p := a_Poi a in
  with_poi a (mkPoi (StakerPOI p) (AddressFee p) (drop_all (StakerDelegatorsFee p)) (AddressLastTxTime p) (TotalPoiFee p)).

(** The fee of a delegator counts for its staker in proportion to the
    delegated amount. *)
Definition creditDelegation a (sender : bytes) (txFee : Z) : go Tables :=
  let '(delegator, d) := os_Get (a_Delegators a) sender in
  let a := with_delegators a d in
  match delegator with
  | None => Ret a
  | Some q =>
      let to := ToStakerID (os_Read d q) in
      let '(staker, s) := os_Get (a_Stakers a) to in
      let a := with_stakers a s in
      match staker with
      | None => Ret a
      | Some p =>
          w ← big_div (txFee * Amount (os_Read d q)) (CalcTotalStake (os_Read s p));
          Ret (SetWeightedDelegatorsFee a to (w + big_get (StakerDelegatorsFee (a_Poi a)) to))
      end
  end.

(** One transaction; [updateAddressPOI] is empty. *)
Definition updateUserPOI (Sender : EthTx -> option bytes) (time poiPeriod : Z) (receipts : list Receipt) (st : Z * Tables) (tx : EthTx) : go (Z * Tables) :=
  let '(i, a) := st in
  r ← slice_at receipts i;
  let txFee := r_GasUsed r * tx_GasPrice (et_tx tx) in
  match Sender tx with
  | None => Fault (Crit "Failed to get sender from transaction")
  | Some sender =>
      prevUserPoiPeriod ← PoiPeriod (default 0 (AddressLastTxTime (a_Poi a) !! sender));
      let senderTotalFee := big_get (AddressFee (a_Poi a)) (sender, prevUserPoiPeriod) in
      a ← creditDelegation a sender txFee;
      let senderTotalFee := if negb (prevUserPoiPeriod =? poiPeriod) then 0 else senderTotalFee in
      let a := SetAddressLastTxTime a sender time in
      Ret (i + 1, SetAddressFee a sender poiPeriod (senderTotalFee + txFee))
  end.

Definition updateUsersPOI (Sender : EthTx -> option bytes) (time totalFee : Z) (txs : list EthTx) (receipts : list Receipt) a : go Tables :=
  poiPeriod ← PoiPeriod time;
  '(_, a) ← go_fold (updateUserPOI Sender time poiPeriod receipts) (0, AddPoiFee a poiPeriod totalFee) txs;
  Ret a.

Definition updateStakerPOI (poiPeriod : Z) a (it : Z * bytes) : go Tables :=
  let '(stakerID, stakerAddress) := it in
  let '(staker, s) := os_Get (a_Stakers a) stakerID in
  let a := with_stakers a s in
  let vFee := big_get (AddressFee (a_Poi a)) (stakerAddress, poiPeriod) in
  let weightedDFee := big_get (StakerDelegatorsFee (a_Poi a)) stakerID in
  if (vFee =? 0) && (weightedDFee =? 0) then Ret (SetStakerPOI a stakerID 0)
  else match staker with
       | None => Fault NilDereference
       | Some p =>
           let st := os_Read s p in
           w ← big_div (vFee * StakeAmount st) (CalcTotalStake st);
           let weightedFee := weightedDFee + w in
           Ret (if weightedFee =? 0 then SetStakerPOI a stakerID 0 else SetStakerPOI a stakerID weightedFee)
       end.

Definition updateStakersPOI (index time : Z) a : go Tables :=
  poiPeriod ← PoiPeriod time;
  prevTime ← blockTime a (u64 (index - 1));
  prevBlockPoiPeriod ← PoiPeriod prevTime;
  if negb (poiPeriod =? prevBlockPoiPeriod) then
    let '(stakers, a) := GetActiveSfcStakers a in
    let its := (fun it : Z * PS => (it.1, s_Address (os_Read (a_Stakers a) it.2))) <$> stakers in
    a ← go_fold (updateStakerPOI prevBlockPoiPeriod) a its;
    Ret (DelAllWeightedDelegatorsFee a)
  else Ret a.
End poi.

(** ** app/app.go *)

Definition EpochIsForceSealed (hash_Of : list bytes -> hash) (receipts : list Receipt) : bool :=
  existsb (fun r => existsb (fun l => match l_Topics l with [] => false | t0 :: _ => is_topic t0 (hash_Of [string_bytes "AdvanceEpoch()"]) end)
                      (r_Logs r)) receipts.

(** The block of the consensus, as far as the application reads it. *)
Record AppBlock := mkAppBlock { ab_Index : Z; ab_Time : Z; ab_Atropos : hash; ab_SkippedTxs : list Z; ab_GasUsed : Z }.

Record blockContext (E : Type) := mkContext { ctx_statedb : E; ctx_sealEpoch : bool; ctx_totalFee : Z }.
Arguments mkContext {E} _ _ _.
Arguments ctx_statedb {E} _.
Arguments ctx_sealEpoch {E} _.
Arguments ctx_totalFee {E} _.

Section app.
Context (hash_Of : list bytes -> hash) (ContractAddress : bytes) (eth : EthParams) (dag : DagConfig) (economy : EconomyConfig) (indexes : AppIndexes).
Context {S D B PS PD : Type} `{ObjStore Z SfcStaker PS S} `{ObjStore bytes SfcDelegator PD D} `{Lru Z BlocksMissed B}.
Context {E : Type} `{EvmState E} (Sender : EthTx -> option bytes) (Cost : EthTx -> Z) (StateDB_open : hash -> E) (Commit : E -> hash).
Abbreviation Tables := (AppStore S D B).
Implicit Types (a : Tables) (ctx : blockContext E) (block : AppBlock).

Definition shouldSealEpoch a block (cheaters : list Z) : bool :=
  let '(startBlock, startTime) := a_LastVoting a in
  (MaxEpochBlocks dag <=? u64 (ab_Index block - startBlock)) ||
  (u64 (MaxEpochDuration dag) <=? u64 (ab_Time block - startTime)) || (0 <? zlen cheaters).

Definition BeginBlock a block (cheaters : list Z) (stateHash : hash) : Tables * blockContext E :=
  let a := with_blocks a (<[ab_Index block := ab_Time block]> (a_Blocks a)) in
  (a, mkContext (StateDB_open stateHash) (shouldSealEpoch a block cheaters) 0).

(** The gas limit of a block is the greatest integer. *)
Definition DeliverTxs ctx block (evmBlock : EvmBlock) : go (AppBlock * EvmBlock * list Receipt * blockContext E) :=
  p ← Process eth Sender Cost evmBlock (ctx_statedb ctx) false;
  let block := mkAppBlock (ab_Index block) (ab_Time block) (ab_Atropos block) (pr_skipped p) (pr_usedGas p) in
  let ctx := mkContext (pr_state p) (ctx_sealEpoch ctx || EpochIsForceSealed hash_Of (pr_receipts p)) (pr_totalFee p) in
  let evmBlock := filterSkippedTxs (ab_SkippedTxs block) evmBlock in
  let evmBlock := mkEvmBlock MaxUint64 (ab_Atropos block) (eb_Transactions evmBlock) in
  Ret (block, evmBlock, pr_receipts p, ctx).

Definition EndBlock (epoch : Z) ctx block (evmBlock : EvmBlock) (receipts : list Receipt) (cheaters : list Z) (stats : EpochStats)
    (txPositions : gmap hash TxPosition) (blockParticipated : gset Z) a : go (hash * Z * Tables) :=
  let txs := eb_Transactions evmBlock in
  a ← updateOriginationScores (ctx_sealEpoch ctx) txs receipts txPositions a;
  a ← updateValidationScores economy indexes (ctx_sealEpoch ctx) epoch (ab_Index block) (ab_Time block) blockParticipated a;
  a ← updateUsersPOI economy Sender (ab_Time block) (ctx_totalFee ctx) txs receipts a;
  a ← updateStakersPOI economy (ab_Index block) (ab_Time block) a;
  '(a, e) ← processSfc hash_Of ContractAddress economy epoch (ab_Time block) (r_Logs <$> receipts) cheaters (ctx_sealEpoch ctx) stats a (ctx_statedb ctx);
  Ret (Commit e,
       (if ctx_sealEpoch ctx then u32 (epoch + 1) else epoch),
       (if ctx_sealEpoch ctx then with_voting a (ab_Index block, ab_Time block) else a)).
End app.
