(* ===== verification/AppSim.v ===== *)
(** * The application over its plain tables

    The scores, the proof of importance and the whole of [EndBlock] take the
    same steps over any lawful store and over the tables it stands for. *)

From S2P Require Import Prelude Bytes Pos Event VecStore EventCheck EventBuffer SfcStore Sfc SfcSim StateTransition App.

Section sim.
Context (hash_Of : list bytes -> hash) (ContractAddress : bytes) (config : EconomyConfig) (indexes : AppIndexes).
Context {S D B PS PD : Type} {repS : S -> gmap Z SfcStaker -> (Z -> list (Z * SfcStaker)) -> Prop} {ownS : S -> list PS -> Prop}
  {repD : D -> gmap bytes SfcDelegator -> (Z -> list (bytes * SfcDelegator)) -> Prop} {ownD : D -> list PD -> Prop}.
Context `{OS : ObjStore Z SfcStaker PS S} `{OD : ObjStore bytes SfcDelegator PD D} `{LB : LruLaws Z BlocksMissed B}.
Context {LS : ObjStoreLaws Z SfcStaker PS S Z.le repS ownS} {LD : ObjStoreLaws bytes SfcDelegator PD D bytes_le repD ownD}.
Context {E : Type} `{EV : EvmState E} (Sender : EthTx -> option bytes) (Commit : E -> hash).
Abbreviation Tables := (AppStore S D B).
Abbreviation Plain := (AppStore (MapStore Z SfcStaker) (MapStore bytes SfcDelegator) nocache).
Abbreviation rel := (app_rel (repS := repS) (repD := repD) (B := B)).
Implicit Types (a : Tables) (p : Plain).
#[local] Existing Instance plainS.
#[local] Existing Instance plainD.

(** Related steps, with what they returned. *)
Lemma go_rel_bind_eqn {A1 A2 A1' A2'} (R : A1 -> A2 -> Prop) (R' : A1' -> A2' -> Prop) m n k k' :
  go_rel R m n -> (forall x y, R x y -> m = Ret x -> n = Ret y -> go_rel R' (k x) (k' y)) -> go_rel R' (m ≫= k) (n ≫= k').
Proof. destruct m, n; cbn; naive_solver. Qed.

(** ** The scores *)

Lemma origination_rel a p id v : rel a p -> rel (AddDirtyOriginationScore a id v) (AddDirtyOriginationScore p id v).
Proof. intros Hr. apply rel_scores; [done|]. destruct (ar_scores _ _ Hr). split; cbn; congruence || done. Qed.

Lemma validation_rel a p id v : rel a p -> rel (AddDirtyValidationScore a id v) (AddDirtyValidationScore p id v).
Proof. intros Hr. apply rel_scores; [done|]. destruct (ar_scores _ _ Hr). split; cbn; congruence || done. Qed.

Lemma with_downtime_rel a p (d : Downtime B) (d' : Downtime nocache) : rel a p -> downtime_rel d (bd_table d') -> rel (with_downtime a d) (with_downtime p d').
Proof. intros Hr Hd. apply rel_scores; [done|]. by destruct (ar_scores _ _ Hr). Qed.

Lemma move_origination_rel a p : rel a p -> rel (MoveOrigination a) (MoveOrigination p).
Proof.
  intros Hr. unfold MoveOrigination. destruct (ar_scores _ _ Hr) as [S1 S2 S3 S4 S5 S6 S7]. rewrite S3, S4.
  destruct (move_all _ _) as [dirty active]. apply rel_scores; [done|]. by split.
Qed.

Lemma move_validation_rel a p : rel a p -> rel (MoveValidation a) (MoveValidation p).
Proof.
  intros Hr. unfold MoveValidation. destruct (ar_scores _ _ Hr) as [S1 S2 S3 S4 S5 S6 S7]. rewrite S1, S2.
  destruct (move_all _ _) as [dirty active]. apply rel_scores; [done|]. by split.
Qed.

Lemma blockTime_rel a p n : rel a p -> blockTime a n = blockTime p n.
Proof. intros Hr. unfold blockTime. by rewrite (ar_blocks _ _ Hr). Qed.

Lemma plain_downtime (d : Downtime nocache) : downtime_rel d (bd_table d).
Proof. split; [done|]. intros k x Hx. discriminate Hx. Qed.

Lemma updateOriginationScores_sim (sealEpoch : bool) (txs : list EthTx) (receipts : list Receipt) (txPositions : gmap hash TxPosition) a p : rel a p ->
  go_rel rel (updateOriginationScores sealEpoch txs receipts txPositions a) (updateOriginationScores sealEpoch txs receipts txPositions p).
Proof.
  intros Hr. unfold updateOriginationScores. apply (go_rel_bind (fun x y => x.1 = y.1 /\ rel x.2 y.2)).
  - apply go_rel_fold; [done|]. intros [i a1] [i' p1] tx [Hi Hr1]. cbn in Hi, Hr1. subst i'. apply go_rel_same. intros r. split; [done|].
    by apply origination_rel.
  - intros [i a1] [i' p1] [_ Hr1]. cbn in Hr1. destruct sealEpoch; [by apply move_origination_rel|done].
Qed.

Lemma GetActiveSfcStakers_sim a p : rel a p -> exists l a',
  GetActiveSfcStakers a = (l, a') /\ rel a' p /\ GetActiveSfcStakers p = (prod_map id (os_Read (a_Stakers a')) <$> l, p).
Proof.
  intros Hr. unfold GetActiveSfcStakers. destruct (os_all (a_Stakers a) _ _ (ar_stakers _ _ Hr)) as (l & s1 & -> & Hs1 & _ & Hl).
  do 2 eexists. split; [reflexivity|]. split; [by apply rel_stakers_same|]. cbn.
  pose proof (filter_fmap_sim (prod_map id (os_Read s1)) l) as Hf. rewrite Hl in Hf.
  apply f_equal2; [symmetry; exact Hf|by destruct p].
Qed.

Lemma creditValidator_sim (epoch index diff : Z) (participated : gset Z) a p (id : Z) : rel a p ->
  go_rel rel (creditValidator config epoch index diff participated a id) (creditValidator config epoch index diff participated p id).
Proof.
  intros Hr. unfold creditValidator. rewrite (os_has_snap (a_Stakers a) _ _ epoch id (ar_stakers _ _ Hr)).
  change (os_HasSnap (ObjStore := plainS) (a_Stakers p) epoch id) with (bool_decide (id ∈ (mp_snaps (a_Stakers p) epoch).*1)).
  destruct (negb _); [done|]. destruct (negb _).
  { pose proof (IncBlocksMissed_rel _ _ id diff (sr_down _ _ (ar_scores _ _ Hr))) as Hd.
    pose proof (IncBlocksMissed_rel _ _ id diff (plain_downtime (BlockDowntime (a_Scores p)))) as Hd2.
    apply with_downtime_rel; [done|]. by rewrite (dr_table _ _ Hd2). }
  destruct (GetBlocksMissed_rel _ _ id (sr_down _ _ (ar_scores _ _ Hr))) as (d' & -> & Hd).
  destruct (GetBlocksMissed_rel _ _ id (plain_downtime (BlockDowntime (a_Scores p)))) as (d2 & -> & Hd2). cbv zeta beta iota.
  apply (go_rel_bind rel).
  - apply go_rel_fold; [apply validation_rel, with_downtime_rel; [done|by rewrite (dr_table _ _ Hd2)]|].
    intros a1 p1 i Hr1. unfold creditMissed. rewrite !(blockTime_rel a1 p1) by done. apply go_rel_same. intros cur. apply go_rel_same. intros prev.
    by apply validation_rel.
  - intros a1 p1 Hr1. pose proof (ResetBlocksMissed_rel _ _ id (sr_down _ _ (ar_scores _ _ Hr1))) as Hd3.
    pose proof (ResetBlocksMissed_rel _ _ id (plain_downtime (BlockDowntime (a_Scores p1)))) as Hd4.
    apply with_downtime_rel; [done|]. by rewrite (dr_table _ _ Hd4).
Qed.

Lemma updateValidationScores_sim (sealEpoch : bool) (epoch index time : Z) (participated : gset Z) a p : rel a p ->
  go_rel rel (updateValidationScores config indexes sealEpoch epoch index time participated a)
    (updateValidationScores config indexes sealEpoch epoch index time participated p).
Proof.
  intros Hr. unfold updateValidationScores. rewrite (blockTime_rel a p) by done. apply go_rel_same. intros prev.
  destruct (GetActiveSfcStakers_sim a p Hr) as (l & a1 & -> & Hr1 & ->). cbv beta iota.
  assert ((prod_map id (os_Read (a_Stakers a1)) <$> l).*1 = l.*1) as -> by (rewrite <-list_fmap_compose; apply list_fmap_ext; by intros i [k q] _).
  apply (go_rel_bind rel); [apply go_rel_fold; [done|]; intros; by apply creditValidator_sim|].
  intros a2 p2 Hr2. destruct sealEpoch; cbn [negb]; [|done]. apply move_validation_rel, rel_scores; [done|].
  destruct (ar_scores _ _ Hr2) as [S1 S2 S3 S4 S5 S6 S7]. split; cbn; try done.
  - by rewrite S6, (dr_table _ _ S5).
  - by rewrite S1, S7.
Qed.

(** ** The proof of importance *)

Ltac poi_rel Hr := unfold AddPoiFee, SetWeightedDelegatorsFee, SetStakerPOI, SetAddressFee, SetAddressLastTxTime, DelAllWeightedDelegatorsFee;
  rewrite (ar_poi _ _ Hr); by apply rel_poi.

Lemma weighted_rel a p id v : rel a p -> rel (SetWeightedDelegatorsFee a id v) (SetWeightedDelegatorsFee p id v).
Proof. intros Hr. poi_rel Hr. Qed.
Lemma staker_poi_rel a p id v : rel a p -> rel (SetStakerPOI a id v) (SetStakerPOI p id v).
Proof. intros Hr. poi_rel Hr. Qed.
Lemma address_fee_rel a p x n v : rel a p -> rel (SetAddressFee a x n v) (SetAddressFee p x n v).
Proof. intros Hr. poi_rel Hr. Qed.
Lemma last_time_rel a p x t : rel a p -> rel (SetAddressLastTxTime a x t) (SetAddressLastTxTime p x t).
Proof. intros Hr. poi_rel Hr. Qed.
Lemma drop_weighted_rel a p : rel a p -> rel (DelAllWeightedDelegatorsFee a) (DelAllWeightedDelegatorsFee p).
Proof. intros Hr. poi_rel Hr. Qed.
Lemma poi_fee_rel a p n v : rel a p -> rel (AddPoiFee a n v) (AddPoiFee p n v).
Proof. intros Hr. unfold AddPoiFee. destruct (v =? 0); [done|]. rewrite (ar_poi _ _ Hr). by apply rel_poi. Qed.

(** The store read through a cache, and the plain one. *)
Lemma get_staker_sim a p id : rel a p -> exists r s, os_Get (a_Stakers a) id = (r, s) /\ rel (with_stakers a s) p /\
  match mp_table (a_Stakers p) !! id with None => r = None | Some v => exists q, r = Some q /\ os_Read s q = v end.
Proof.
  intros Hr. destruct (os_get (a_Stakers a) _ _ id (ar_stakers _ _ Hr)) as (r & s' & -> & Hs & Hm). exists r, s'. split; [done|].
  split; [by apply rel_stakers_same|]. destruct (mp_table _ !! id); [|done]. destruct Hm as (q & -> & Hv & _). by exists q.
Qed.
Lemma get_delegator_sim a p x : rel a p -> exists r d, os_Get (a_Delegators a) x = (r, d) /\ rel (with_delegators a d) p /\
  match mp_table (a_Delegators p) !! x with None => r = None | Some v => exists q, r = Some q /\ os_Read d q = v end.
Proof.
  intros Hr. destruct (os_get (a_Delegators a) _ _ x (ar_delegators _ _ Hr)) as (r & s' & -> & Hs & Hm). exists r, s'. split; [done|].
  split; [by apply rel_delegators_same|]. destruct (mp_table _ !! x); [|done]. destruct Hm as (q & -> & Hv & _). by exists q.
Qed.

Lemma same_stakers p : with_stakers p (a_Stakers p) = p.
Proof. by destruct p. Qed.
Lemma same_delegators p : with_delegators p (a_Delegators p) = p.
Proof. by destruct p. Qed.

Lemma creditDelegation_sim a p sender fee : rel a p -> go_rel rel (creditDelegation a sender fee) (creditDelegation p sender fee).
Proof.
  intros Hr. unfold creditDelegation. destruct (get_delegator_sim a p sender Hr) as (r & d & -> & Hr1 & Hm).
  change (os_Get (a_Delegators p) sender) with (mp_table (a_Delegators p) !! sender, a_Delegators p). cbv beta iota zeta. rewrite same_delegators.
  destruct (mp_table (a_Delegators p) !! sender) as [dl|]; [|by rewrite Hm]. destruct Hm as (q & -> & Hq). rewrite Hq.
  destruct (get_staker_sim (with_delegators a d) p (ToStakerID dl) Hr1) as (r2 & s & -> & Hr2 & Hm2).
  change (os_Get (a_Stakers p) (ToStakerID (os_Read (a_Delegators p) dl))) with (mp_table (a_Stakers p) !! ToStakerID dl, a_Stakers p). cbv beta iota.
  rewrite same_stakers. destruct (mp_table (a_Stakers p) !! ToStakerID dl) as [st|]; [|by rewrite Hm2]. destruct Hm2 as (q2 & -> & Hq2). rewrite Hq2.
  apply go_rel_same. intros w. rewrite (ar_poi _ _ Hr2). by apply weighted_rel.
Qed.

Lemma updateUsersPOI_sim (time totalFee : Z) (txs : list EthTx) (receipts : list Receipt) a p : rel a p ->
  go_rel rel (updateUsersPOI config Sender time totalFee txs receipts a) (updateUsersPOI config Sender time totalFee txs receipts p).
Proof.
  intros Hr. unfold updateUsersPOI. apply go_rel_same. intros period. apply (go_rel_bind (fun x y => x.1 = y.1 /\ rel x.2 y.2)).
  - apply go_rel_fold; [split; [done|]; by apply poi_fee_rel|]. intros [i a1] [i' p1] tx [Hi Hr1]. cbn in Hi, Hr1. subst i'. unfold updateUserPOI.
    apply go_rel_same. intros r. destruct (Sender tx) as [sender|]; [|done]. cbv zeta. rewrite (ar_poi _ _ Hr1). apply go_rel_same. intros prev.
    apply (go_rel_bind rel); [by apply creditDelegation_sim|]. intros a2 p2 Hr2. split; [done|]. by apply address_fee_rel, last_time_rel.
  - intros [i a1] [i' p1] [_ Hr1]. exact Hr1.
Qed.

Lemma updateStakerPOI_sim (period : Z) (it : Z * bytes) a p : rel a p -> go_rel rel (updateStakerPOI period a it) (updateStakerPOI period p it).
Proof.
  intros Hr. unfold updateStakerPOI. destruct it as [id address]. destruct (get_staker_sim a p id Hr) as (r & s & -> & Hr1 & Hm).
  change (os_Get (a_Stakers p) id) with (mp_table (a_Stakers p) !! id, a_Stakers p). cbv beta iota zeta. rewrite same_stakers, (ar_poi _ _ Hr1).
  destruct (_ && _); [by apply staker_poi_rel|]. destruct (mp_table (a_Stakers p) !! id) as [st|]; [|by rewrite Hm].
  destruct Hm as (q & -> & Hq). rewrite Hq. apply go_rel_same. intros w. cbn. destruct (_ =? 0); by apply staker_poi_rel.
Qed.

Lemma updateStakersPOI_sim (index time : Z) a p : rel a p -> go_rel rel (updateStakersPOI config index time a) (updateStakersPOI config index time p).
Proof.
  intros Hr. unfold updateStakersPOI. apply go_rel_same. intros period. rewrite (blockTime_rel a p) by done. apply go_rel_same. intros prevTime.
  apply go_rel_same. intros prev. destruct (negb _); [|done]. destruct (GetActiveSfcStakers_sim a p Hr) as (l & a1 & -> & Hr1 & ->). cbv beta iota zeta.
  assert ((fun it : Z * SfcStaker => (it.1, s_Address (os_Read (a_Stakers p) it.2))) <$> (prod_map id (os_Read (a_Stakers a1)) <$> l) =
    (fun it : Z * PS => (it.1, s_Address (os_Read (a_Stakers a1) it.2))) <$> l) as ->.
  { rewrite <-list_fmap_compose. apply list_fmap_ext. by intros i [k q] _. }
  apply (go_rel_bind rel); [apply go_rel_fold; [done|]; intros; by apply updateStakerPOI_sim|]. intros a2 p2 Hr2. by apply drop_weighted_rel.
Qed.

(** ** The stakers do not change before the logs are read *)

Lemma go_fold_keep {X T} (P : T -> Prop) (f : T -> X -> go T) (l : list X) : (forall s x s', P s -> f s x = Ret s' -> P s') ->
  forall s s', P s -> go_fold f s l = Ret s' -> P s'.
Proof.
  intros Hf. induction l as [|x l IH]; intros s s' Hs Hrun; cbn in Hrun; [by injection Hrun as <-|].
  apply go_bind_inv in Hrun as (s1 & H1 & Hrun). by eapply IH, Hrun; eapply Hf.
Qed.

Lemma origination_keeps sealEpoch txs receipts txPositions p p' :
  updateOriginationScores sealEpoch txs receipts txPositions p = Ret p' -> a_Stakers p' = a_Stakers p.
Proof.
  unfold updateOriginationScores. intros ([i p1] & Hf & Hp)%go_bind_inv. assert (a_Stakers p1 = a_Stakers p) as <-.
  { eapply (go_fold_keep (fun st => a_Stakers st.2 = a_Stakers p)) in Hf; [exact Hf| |done].
    intros [j q] tx [j' q'] Hq Hs. cbn in *. apply go_bind_inv in Hs as (r & _ & Hs). by injection Hs as <- <-. }
  destruct sealEpoch; injection Hp as <-; [|done]. unfold MoveOrigination. by destruct (move_all _ _).
Qed.

Lemma validation_keeps sealEpoch epoch index time participated p p' :
  updateValidationScores config indexes sealEpoch epoch index time participated p = Ret p' -> a_Stakers p' = a_Stakers p.
Proof.
  unfold updateValidationScores. intros (prev & _ & Hp)%go_bind_inv. unfold GetActiveSfcStakers in Hp.
  cbn [os_All plainS map_store] in Hp. rewrite same_stakers in Hp. apply go_bind_inv in Hp as (p1 & Hf & Hp). assert (a_Stakers p1 = a_Stakers p) as <-.
  { eapply (go_fold_keep (fun q => a_Stakers q = a_Stakers p)) in Hf; [exact Hf| |done].
    intros q id q' Hq Hs. unfold creditValidator in Hs. destruct (negb (os_HasSnap _ _ _)); [by injection Hs as <-|]. destruct (negb (bool_decide _)); [by injection Hs as <-|].
    destruct (GetBlocksMissed _ _) as [m dt]. apply go_bind_inv in Hs as (q1 & Hg & Hs). injection Hs as <-. cbn.
    eapply (go_fold_keep (fun q => a_Stakers q = a_Stakers p)) in Hg; [exact Hg| |done].
    intros q2 j q3 Hq2 Hc. unfold creditMissed in Hc. apply go_bind_inv in Hc as (t1 & _ & Hc). apply go_bind_inv in Hc as (t2 & _ & Hc). by injection Hc as <-. }
  destruct (negb sealEpoch); injection Hp as <-; [done|]. unfold MoveValidation. by destruct (move_all _ _).
Qed.

Lemma delegation_keeps sender fee p p' : creditDelegation p sender fee = Ret p' -> a_Stakers p' = a_Stakers p.
Proof.
  unfold creditDelegation. cbn. rewrite same_delegators. destruct (mp_table (a_Delegators p) !! sender); [|by intros [= <-]].
  rewrite same_stakers. destruct (mp_table (a_Stakers p) !! _); [|by intros [= <-]]. intros (w & _ & Hp)%go_bind_inv. by injection Hp as <-.
Qed.

Lemma users_keeps time totalFee txs receipts p p' :
  updateUsersPOI config Sender time totalFee txs receipts p = Ret p' -> a_Stakers p' = a_Stakers p.
Proof.
  unfold updateUsersPOI. intros (period & _ & Hp)%go_bind_inv. apply go_bind_inv in Hp as ([i p1] & Hf & Hp). injection Hp as <-.
  eapply (go_fold_keep (fun st => a_Stakers st.2 = a_Stakers p)) in Hf; [exact Hf| |unfold AddPoiFee; cbn; by case_match].
  intros [j q] tx [j' q'] Hq Hs. unfold updateUserPOI in Hs. apply go_bind_inv in Hs as (r & _ & Hs). destruct (Sender tx); [|done].
  apply go_bind_inv in Hs as (prev & _ & Hs). apply go_bind_inv in Hs as (q1 & Hd & Hs). injection Hs as <- <-. cbn in *. by rewrite (delegation_keeps _ _ _ _ Hd).
Qed.

Lemma stakers_poi_keeps index time p p' : updateStakersPOI config index time p = Ret p' -> a_Stakers p' = a_Stakers p.
Proof.
  unfold updateStakersPOI. intros (period & _ & Hp)%go_bind_inv. apply go_bind_inv in Hp as (t & _ & Hp). apply go_bind_inv in Hp as (prev & _ & Hp).
  destruct (negb _); [|by injection Hp as <-]. unfold GetActiveSfcStakers in Hp. cbn [os_All plainS map_store] in Hp. rewrite same_stakers in Hp.
  apply go_bind_inv in Hp as (p1 & Hf & Hp). injection Hp as <-. cbn.
  eapply (go_fold_keep (fun q => a_Stakers q = a_Stakers p)) in Hf; [exact Hf| |done].
  intros q [id x] q' Hq Hs. unfold updateStakerPOI in Hs. cbn in Hs. rewrite same_stakers in Hs. destruct (_ && _); [by injection Hs as <-|].
  destruct (mp_table (a_Stakers q) !! id); [|done]. apply go_bind_inv in Hs as (w & _ & Hs). case_match; by injection Hs as <-.
Qed.

(** ** The end of a block *)

Lemma EndBlock_sim (epoch : Z) (ctx : blockContext E) (block : AppBlock) (evmBlock : EvmBlock) (receipts : list Receipt) (cheaters : list Z)
    (stats : EpochStats) (txPositions : gmap hash TxPosition) (participated : gset Z) a p : rel a p -> epoch_fresh p epoch ->
  go_rel (fun x y => x.1 = y.1 /\ rel x.2 y.2)
    (EndBlock hash_Of ContractAddress config indexes Sender Commit epoch ctx block evmBlock receipts cheaters stats txPositions participated a)
    (EndBlock hash_Of ContractAddress config indexes Sender Commit epoch ctx block evmBlock receipts cheaters stats txPositions participated p).
Proof.
  intros Hr Hf. unfold EndBlock. cbv zeta.
  apply (go_rel_bind_eqn rel); [by apply updateOriginationScores_sim|]. intros a1 p1 Hr1 _ K1%origination_keeps.
  apply (go_rel_bind_eqn rel); [by apply updateValidationScores_sim|]. intros a2 p2 Hr2 _ K2%validation_keeps.
  apply (go_rel_bind_eqn rel); [by apply updateUsersPOI_sim|]. intros a3 p3 Hr3 _ K3%users_keeps.
  apply (go_rel_bind_eqn rel); [by apply updateStakersPOI_sim|]. intros a4 p4 Hr4 _ K4%stakers_poi_keeps.
  eapply go_rel_bind; [refine (processSfc_sim hash_Of ContractAddress config _ _ _ _ _ _ _ _ _ Hr4 _); unfold epoch_fresh in *; by rewrite K4, K3, K2, K1|].
  intros [a5 e5] [p5 e5'] [Hr5 He]. cbn in Hr5, He. subst e5'. cbn. split; [done|]. destruct (ctx_sealEpoch ctx); [|done].
  destruct Hr5. by split.
Qed.
End sim.
