(* ===== verification/AppScores.v ===== *)
(** * The scores of the validators

    The dirty scores become the active ones when an epoch is sealed; the fees
    of a block all become origination scores; and the validation score of a
    validator never counts the same time twice. *)

From S2P Require Import Prelude Bytes Pos Event VecStore EventCheck EventBuffer SfcStore Sfc SfcSim StateTransition TransitionSpec App AppSim.

(** ** Tables *)

Section tables.
Context {V : Type}.
Implicit Types (t : gmap Z V).

Lemma drop_all_empty t : drop_all t = ∅.
Proof.
  unfold drop_all. apply map_eq. intros k. rewrite lookup_empty.
  assert (forall (l : list Z) (u : gmap Z V), foldl (fun t k => delete k t) u l !! k = if decide (k ∈ l) then None else u !! k) as Hf.
  { induction l as [|j l IH]; intros u; cbn; [by rewrite decide_False by apply not_elem_of_nil|]. rewrite IH.
    destruct (decide (k ∈ l)); [by rewrite decide_True by (by right)|]. destruct (decide (k = j)) as [->|Hne].
    - rewrite decide_True by (by left). by rewrite lookup_delete_eq.
    - rewrite lookup_delete_ne by done. rewrite decide_False; [done|]. by intros [?|?]%elem_of_cons. }
  rewrite Hf. case_decide as Hk; [done|]. destruct (t !! k) as [v|] eqn:Et; [|done]. destruct Hk.
  apply (list_elem_of_fmap_2 fst _ (k, v)). by apply elem_of_map_to_list.
Qed.

(** Every record moves. *)
Lemma move_all_spec t (to : gmap Z V) : move_all t to = (∅, t ∪ to).
Proof.
  unfold move_all.
  assert (forall (l : list (Z * V)) (u v : gmap Z V), NoDup l.*1 ->
    foldl (fun ft kv => (delete kv.1 ft.1, <[kv.1 := kv.2]> ft.2)) (u, v) l = (foldl (fun t k => delete k t) u l.*1, list_to_map l ∪ v)) as Hf.
  { induction l as [|[k x] l IH]; intros u v Hn; cbn; [by rewrite map_empty_union|]. cbn in Hn. apply NoDup_cons in Hn as [Hk Hn].
    rewrite IH by done. f_equal. cbn. rewrite <-insert_union_l, insert_union_r; [done|]. by apply not_elem_of_list_to_map. }
  rewrite Hf by apply NoDup_fst_map_to_list. rewrite list_to_map_to_list. f_equal. apply (drop_all_empty t).
Qed.

Corollary move_fresh t (active : gmap Z V) : move_all t (drop_all active) = (∅, t).
Proof. by rewrite move_all_spec, drop_all_empty, map_union_empty. Qed.
End tables.

(** The sum of a table of scores. *)
Definition table_sum (t : gmap Z Z) : Z := zsum (map_to_list t).*2.
Definition table_nonneg (t : gmap Z Z) : Prop := map_Forall (fun _ v => 0 <= v) t.

Lemma table_sum_insert (t : gmap Z Z) k v : table_sum (<[k := v]> t) = table_sum t - big_get t k + v.
Proof.
  unfold table_sum, big_get. rewrite <-insert_delete_eq. rewrite map_to_list_insert by apply lookup_delete_eq. cbn.
  destruct (t !! k) as [x|] eqn:Et; cbn.
  - rewrite <-(insert_delete_id t k x) at 2 by done. rewrite map_to_list_insert by apply lookup_delete_eq. cbn. lia.
  - rewrite delete_id by done. lia.
Qed.

Lemma big_get_nonneg t k : table_nonneg t -> 0 <= big_get t k.
Proof. intros Hn. unfold big_get. destruct (t !! k) as [v|] eqn:Et; cbn; [|lia]. exact (Hn k v Et). Qed.

Lemma big_add_sum t k v : table_nonneg t -> 0 <= v -> table_sum (big_add t k v) = table_sum t + v /\ table_nonneg (big_add t k v).
Proof.
  intros Hn Hv. pose proof (big_get_nonneg t k Hn). unfold big_add, big_put. rewrite Z.abs_eq by lia. split; [rewrite table_sum_insert; lia|].
  apply map_Forall_insert_2; [lia|done].
Qed.

(** ** Origination *)

Section origination.
Context {S D B : Type} `{Lru Z BlocksMissed B}.
Abbreviation Tables := (AppStore S D B).
Implicit Types (a : Tables).

Lemma origination_loop (positions : gmap hash TxPosition) (receipts : list Receipt) (txs : list EthTx) : forall (i : Z) (rs : list Receipt) a,
  (forall j r, rs !! j = Some r -> slice_at receipts (i + Z.of_nat j) = Ret r) -> Forall2 receipt_of txs rs ->
  Forall (fun tx => 0 <= tx_GasPrice (et_tx tx)) txs -> table_nonneg (DirtyOrigination (a_Scores a)) -> exists i' a',
  go_fold (creditOrigination receipts positions) (i, a) txs = Ret (i', a') /\
  table_sum (DirtyOrigination (a_Scores a')) = table_sum (DirtyOrigination (a_Scores a)) + zsum (zip_with fee_of txs rs) /\
  table_nonneg (DirtyOrigination (a_Scores a')).
Proof.
  induction txs as [|tx txs IH]; intros i rs a Hget Hrs Hp Hn; [apply Forall2_nil_inv_l in Hrs as ->; exists i, a; cbn; split_and!; try done; lia|].
  apply Forall2_cons_inv_l in Hrs as (r & rs' & [Hh Hg] & Hrs & ->). apply Forall_cons in Hp as [Hp Hps]. cbn [go_fold]. unfold creditOrigination at 2.
  pose proof (Hget 0%nat r eq_refl) as Hr. rewrite Z.add_0_r in Hr. rewrite Hr, go_bind_Ret. cbv zeta. rewrite go_bind_Ret.
  set (creator := match _ with Some _ => _ | None => _ end).
  destruct (big_add_sum (DirtyOrigination (a_Scores a)) creator (fee_of tx r) Hn) as [Hs Hn']; [unfold fee_of; nia|].
  destruct (IH (i + 1) rs' (AddDirtyOriginationScore a creator (fee_of tx r))) as (i' & a' & Hf & Hsum & Hnn); [|done..|].
  { intros j r' Hj. rewrite <-(Hget (Datatypes.S j) r' Hj). f_equal. lia. }
  exists i', a'. split; [exact Hf|]. split; [|exact Hnn]. rewrite Hsum. cbn. rewrite Hs. lia.
Qed.
End origination.

Lemma filter_from_sublist {T} (txs : list T) : forall (i : Z) (sk : list Z), filter_from i sk txs `sublist_of` txs.
Proof.
  induction txs as [|tx txs IH]; intros i sk; [done|]. cbn. destruct sk as [|s sk]; [by apply sublist_skip|].
  destruct (s =? i); [by apply sublist_cons|by apply sublist_skip].
Qed.

Section fees.
Context (hash_Of : list bytes -> hash) (eth : EthParams) (eth_prices : eth_ok eth).
Context {S D B : Type} `{Lru Z BlocksMissed B}.
Context {E : Type} `{LE : EvmStateLaws E} (Sender : EthTx -> option bytes) (Cost : EthTx -> Z).

(** The fees of a block all become origination scores.  The transactions
    of a checked block are delivered without a panic; the scores are then
    updated without one either, since every remaining transaction has its
    receipt; and the dirty scores of all stakers together grow by the total
    fee that the processor counted, whichever events the transactions came
    from.  At the end of an epoch they all become the active scores. *)
Theorem fees_become_scores (ctx : blockContext E) (block : AppBlock) (evmBlock : EvmBlock) (positions : gmap hash TxPosition) (a : AppStore S D B) :
  Forall (tx_ok eth Cost) (eb_Transactions evmBlock) -> is_u64 (eb_GasLimit evmBlock) -> table_nonneg (DirtyOrigination (a_Scores a)) ->
  exists block' evmBlock' receipts ctx' a',
  DeliverTxs hash_Of eth Sender Cost ctx block evmBlock = Ret (block', evmBlock', receipts, ctx') /\
  updateOriginationScores (ctx_sealEpoch ctx') (eb_Transactions evmBlock') receipts positions a = Ret a' /\
  let total := table_sum (DirtyOrigination (a_Scores a)) + ctx_totalFee ctx' in
  if ctx_sealEpoch ctx' then table_sum (ActiveOrigination (a_Scores a')) = total /\ DirtyOrigination (a_Scores a') = ∅
  else table_sum (DirtyOrigination (a_Scores a')) = total.
Proof.
  intros Hok Hlim Hn. unfold DeliverTxs.
  destruct (process_returns eth eth_prices Sender Cost evmBlock (ctx_statedb ctx) Hok Hlim) as (p & -> & Hl & Hfee & _). rewrite go_bind_Ret. cbv zeta.
  set (kept := eb_Transactions (filterSkippedTxs (pr_skipped p) evmBlock)) in *. cbn [ab_SkippedTxs ctx_totalFee ctx_sealEpoch].
  set (seal := ctx_sealEpoch ctx || _).
  destruct (origination_loop positions (pr_receipts p) kept 0 (pr_receipts p) a) as (i' & a' & Hf & Hs & Hnn); [| |  |done|].
  { intros j r Hj. apply slice_at_Ret. rewrite Z.add_0_l. unfold slice_get. rewrite decide_True by lia. by rewrite Nat2Z.id. }
  { exact Hl. }
  { apply Forall_forall. intros tx Hin. 
    assert (tx ∈ eb_Transactions evmBlock) as Htx by exact (sublist_subseteq _ _ (filter_from_sublist _ _ _) _ Hin). rewrite Forall_forall in Hok.
    destruct (Hok tx Htx) as [Hv _ _]. unfold validateTx in Hv. destruct (Z.ltb_spec (tx_GasPrice (et_tx tx)) 0); [by rewrite orb_true_r in Hv|done]. }
  do 5 eexists. split; [reflexivity|]. unfold updateOriginationScores. cbn [ctx_sealEpoch eb_Transactions]. fold kept. rewrite Hf, go_bind_Ret.
  split; [reflexivity|]. cbn [ctx_totalFee]. rewrite Hfee. destruct seal; [|exact Hs].
  unfold MoveOrigination. rewrite move_fresh. by split.
Qed.
End fees.

(** ** Validation *)

Section validation.
Context (config : EconomyConfig) (indexes : AppIndexes) (latency : 0 <= BlockMissedLatency config).
Abbreviation Plain := (AppStore (MapStore Z SfcStaker) (MapStore bytes SfcDelegator) nocache).
Implicit Types (p : Plain).
#[local] Existing Instance plainS.
#[local] Existing Instance plainD.

Definition score p (id : Z) : Z := big_get (DirtyValidation (a_Scores p)) id.
Definition missed_num p (id : Z) : Z := bm_Num (missed_of (bd_table (BlockDowntime (a_Scores p))) id).
Definition time_at (blocks : gmap Z Z) (n : Z) : Z := default 0 (blocks !! n).

(** The blocks up to [n] are stored, and their times do not go back. *)
Record chain (blocks : gmap Z Z) (n : Z) : Prop := {
  ch_known i : 0 <= i <= n -> is_Some (blocks !! i);
  ch_mono i j : 0 <= i <= j -> j <= n -> time_at blocks i <= time_at blocks j;
  ch_u64 i : 0 <= i <= n -> is_u64 (time_at blocks i)
}.

Lemma blockTime_chain p n i : chain (a_Blocks p) n -> 0 <= i <= n -> blockTime p i = Ret (time_at (a_Blocks p) i).
Proof. intros Hc Hi. unfold blockTime, time_at. destruct (ch_known _ _ Hc i Hi) as [t ->]. done. Qed.

(** What crediting [v] to [id] changes. *)
Record credited p p' (id v : Z) : Prop := {
  cr_blocks : a_Blocks p' = a_Blocks p;
  cr_stakers : a_Stakers p' = a_Stakers p;
  cr_down : bd_table (BlockDowntime (a_Scores p')) = bd_table (BlockDowntime (a_Scores p));
  cr_score : score p' id = score p id + v;
  cr_other id' : id' <> id -> score p' id' = score p id';
  cr_nonneg : table_nonneg (DirtyValidation (a_Scores p'))
}.

Lemma add_dirty_credited p id v : table_nonneg (DirtyValidation (a_Scores p)) -> 0 <= v -> credited p (AddDirtyValidationScore p id v) id v.
Proof.
  intros Hn Hv. pose proof (big_get_nonneg _ id Hn) as H0. split; try done; cbn.
  - unfold score, AddDirtyValidationScore. cbn. unfold big_add, big_put. unfold big_get at 1. rewrite lookup_insert_eq. cbn. lia.
  - intros id' Hne. unfold score, AddDirtyValidationScore. cbn. unfold big_add, big_put, big_get. by rewrite lookup_insert_ne.
  - by apply big_add_sum.
Qed.

Lemma credited_trans p1 p2 p3 id v w : credited p1 p2 id v -> credited p2 p3 id w -> credited p1 p3 id (v + w).
Proof.
  intros [A1 A2 A3 A4 A5 A6] [B1 B2 B3 B4 B5 B6]. split; [congruence..|lia| |done]. intros id' Hne. by rewrite B5, A5.
Qed.

(** The loop over the missed blocks telescopes. *)
Lemma credit_loop (index id : Z) p (k : nat) : chain (a_Blocks p) index -> is_u64 index -> table_nonneg (DirtyValidation (a_Scores p)) ->
  Z.of_nat k <= index - 1 -> exists p', go_fold (creditMissed index id) p (seqZ 1 (Z.of_nat k)) = Ret p' /\
  credited p p' id (time_at (a_Blocks p) (index - 1) - time_at (a_Blocks p) (index - 1 - Z.of_nat k)).
Proof.
  intros Hc Hi Hn. induction k as [|k IH]; intros Hk.
  { exists p. split; [done|]. split; try done. replace (index - 1 - Z.of_nat 0) with (index - 1) by lia. lia. }
  destruct IH as (p1 & Hf & H1); [lia|]. rewrite seqZ_S, go_fold_app. rewrite Hf, go_bind_Ret. cbn [go_fold].
  unfold is_u64 in Hi. unfold creditMissed. pose proof (cr_blocks _ _ _ _ H1) as Hb.
  replace (1 + Z.of_nat k) with (Z.of_nat k + 1) by lia. rewrite (u64_id (index - (Z.of_nat k + 1))) by (unfold is_u64; lia).
  rewrite (u64_id (index - (Z.of_nat k + 1) - 1)) by (unfold is_u64; lia). rewrite <-Hb in Hc. rewrite !(blockTime_chain p1 index) by (done || lia).
  rewrite !go_bind_Ret, Hb. rewrite Hb in Hc. assert (time_at (a_Blocks p) (index - (Z.of_nat k + 1) - 1) <= time_at (a_Blocks p) (index - (Z.of_nat k + 1))) by (apply (ch_mono _ _ Hc); lia).
  assert (is_u64 (time_at (a_Blocks p) (index - (Z.of_nat k + 1)))) as Hu1 by (apply (ch_u64 _ _ Hc); lia).
  assert (is_u64 (time_at (a_Blocks p) (index - (Z.of_nat k + 1) - 1))) as Hu2 by (apply (ch_u64 _ _ Hc); lia). unfold is_u64 in Hu1, Hu2.
  rewrite u64_id by (unfold is_u64; lia). eexists. split; [reflexivity|].
  pose proof (credited_trans _ _ _ _ _ _ H1 (add_dirty_credited p1 id (time_at (a_Blocks p) (index - (Z.of_nat k + 1)) - time_at (a_Blocks p) (index - (Z.of_nat k + 1) - 1))
    (cr_nonneg _ _ _ _ H1) ltac:(lia))) as Ht.
  replace (index - 1 - Z.of_nat k) with (index - (Z.of_nat k + 1)) in Ht by lia. replace (index - 1 - Z.of_nat (Datatypes.S k)) with (index - (Z.of_nat k + 1) - 1) by lia.
  match type of Ht with credited _ _ _ ?v => match goal with |- credited _ _ _ ?w => by replace w with v by lia end end.
Qed.

(** The time before which everything the validator may still be credited for
    lies: that of the last block it did not miss. *)
Definition frontier p (n id : Z) : Z := time_at (a_Blocks p) (n - missed_num p id).

(** One validator after the block [index]. *)
Record stepped p p' (index id : Z) : Prop := {
  sp_score : score p id <= score p' id /\ score p' id - score p id <= frontier p' index id - frontier p (index - 1) id;
  sp_missed : 0 <= missed_num p' id <= index
}.

(** All but one validator keep what they had. *)
Record framed p p' (id : Z) : Prop := {
  fr_blocks : a_Blocks p' = a_Blocks p;
  fr_stakers : a_Stakers p' = a_Stakers p;
  fr_nonneg : table_nonneg (DirtyValidation (a_Scores p'));
  fr_other id' : id' <> id -> score p' id' = score p id' /\ missed_num p' id' = missed_num p id'
}.

Lemma missed_num_put p (dt : Downtime nocache) id missed id' : bd_table dt = <[id := missed]> (bd_table (BlockDowntime (a_Scores p))) ->
  missed_num (with_downtime p dt) id' = if decide (id' = id) then bm_Num missed else missed_num p id'.
Proof.
  intros Hd. unfold missed_num. cbn. rewrite Hd. unfold missed_of. case_decide as He; [subst; by rewrite lookup_insert_eq|by rewrite lookup_insert_ne].
Qed.

Lemma missed_num_del p (dt : Downtime nocache) id id' : bd_table dt = delete id (bd_table (BlockDowntime (a_Scores p))) ->
  missed_num (with_downtime p dt) id' = if decide (id' = id) then 0 else missed_num p id'.
Proof.
  intros Hd. unfold missed_num. cbn. rewrite Hd. unfold missed_of. case_decide as He; [subst; by rewrite lookup_delete_eq|by rewrite lookup_delete_ne].
Qed.

(** A validator that is passed over. *)
Lemma stepped_same p p' index id : chain (a_Blocks p) index -> a_Blocks p' = a_Blocks p -> score p' id = score p id -> missed_num p' id = missed_num p id ->
  0 <= missed_num p id <= index - 1 -> stepped p p' index id.
Proof.
  intros Hc Hb Hs Hm Hr. split; [|lia]. rewrite Hs. split; [lia|]. unfold frontier. rewrite Hb, Hm.
  assert (time_at (a_Blocks p) (index - 1 - missed_num p id) <= time_at (a_Blocks p) (index - missed_num p id)); [|lia].
  apply (ch_mono _ _ Hc); lia.
Qed.

Lemma creditValidator_spec (epoch index id : Z) (participated : gset Z) p :
  chain (a_Blocks p) index -> 1 <= index -> is_u64 index -> table_nonneg (DirtyValidation (a_Scores p)) -> 0 <= missed_num p id <= index - 1 -> exists p',
  creditValidator config epoch index (u64 (time_at (a_Blocks p) index - time_at (a_Blocks p) (index - 1))) participated p id = Ret p' /\
  framed p p' id /\ stepped p p' index id.
Proof.
  intros Hc Hi Hu Hn Hm.
  assert (time_at (a_Blocks p) (index - 1) <= time_at (a_Blocks p) index) as Hmono by (apply (ch_mono _ _ Hc); lia).
  assert (is_u64 (time_at (a_Blocks p) (index - 1)) /\ is_u64 (time_at (a_Blocks p) index)) as [Hu1 Hu2] by (split; apply (ch_u64 _ _ Hc); lia).
  unfold is_u64 in Hu, Hu1, Hu2. rewrite u64_id by (unfold is_u64; lia). set (diff := time_at _ index - _).
  unfold creditValidator. destruct (negb _); [exists p; split_and!; [done|by split|by apply stepped_same]|]. destruct (negb _).
  - pose proof (IncBlocksMissed_rel _ _ id diff (plain_downtime (BlockDowntime (a_Scores p)))) as [Ht _].
    eexists. split; [reflexivity|]. assert (forall id', missed_num (with_downtime p (IncBlocksMissed (BlockDowntime (a_Scores p)) id diff)) id' =
      if decide (id' = id) then missed_num p id + 1 else missed_num p id') as Hmn.
    { intros id'. erewrite missed_num_put by exact Ht. cbn. fold (missed_num p id). rewrite u64_id by (unfold is_u64; lia). done. }
    split.
    + split; try done. intros id' Hne. rewrite Hmn. by rewrite decide_False.
    + split; rewrite ?Hmn, ?decide_True by done; [|lia]. unfold frontier. rewrite Hmn, decide_True by done. cbn [a_Blocks with_downtime with_scores].
      change (score (with_downtime p (IncBlocksMissed (BlockDowntime (a_Scores p)) id diff)) id) with (score p id).
      replace (index - (missed_num p id + 1)) with (index - 1 - missed_num p id) by lia. lia.
  - destruct (GetBlocksMissed_rel _ _ id (plain_downtime (BlockDowntime (a_Scores p)))) as (dt & -> & Hdt). cbv zeta beta iota. fold (missed_num p id).
    set (num := if _ >? _ then _ else _). assert (0 <= num <= missed_num p id) as Hnum by (unfold num; destruct (Z.gtb_spec (missed_num p id) (BlockMissedLatency config)); lia).
    set (k := Z.min num (index - 1)). assert (0 <= k <= index - 1 /\ k <= missed_num p id) as [Hk Hkm] by lia.
    pose proof (add_dirty_credited (with_downtime p dt) id diff Hn ltac:(lia)) as H1. set (p1 := AddDirtyValidationScore _ id diff) in *.
    assert (a_Blocks p1 = a_Blocks p) as Hb1 by exact (cr_blocks _ _ _ _ H1).
    destruct (credit_loop index id p1 (Z.to_nat k)) as (p2 & Hf & H2); [by rewrite Hb1|done|exact (cr_nonneg _ _ _ _ H1)|lia|].
    rewrite Z2Nat.id in Hf, H2 by lia. rewrite Hf, go_bind_Ret. eexists. split; [reflexivity|].
    pose proof (credited_trans _ _ _ _ _ _ H1 H2) as [B1 B2 B3 B4 B5 B6]. rewrite Hb1 in B4. cbn in B1, B2, B3.
    pose proof (ResetBlocksMissed_rel _ _ id (plain_downtime (BlockDowntime (a_Scores p2)))) as [Ht _].
    assert (forall id', missed_num (with_downtime p2 (ResetBlocksMissed (BlockDowntime (a_Scores p2)) id)) id' = if decide (id' = id) then 0 else missed_num p id') as Hmn.
    { intros id'. erewrite missed_num_del by exact Ht. unfold missed_num. rewrite B3. by rewrite (dr_table _ _ Hdt). }
    split.
    + split; try done. intros id' Hne. rewrite Hmn, decide_False by done. split; [|done].
      change (score (with_downtime p2 _) id') with (score p2 id'). by rewrite B5.
    + assert (time_at (a_Blocks p) (index - 1 - missed_num p id) <= time_at (a_Blocks p) (index - 1 - k)) as Hle by (apply (ch_mono _ _ Hc); lia).
      assert (time_at (a_Blocks p) (index - 1 - k) <= time_at (a_Blocks p) (index - 1)) as Hle2 by (apply (ch_mono _ _ Hc); lia).
      assert (score (with_downtime p2 (ResetBlocksMissed (BlockDowntime (a_Scores p2)) id)) id = score p id + (time_at (a_Blocks p) index - time_at (a_Blocks p) (index - 1 - k))) as Hs.
      { change (score (with_downtime p2 _) id) with (score p2 id). rewrite B4. change (score (with_downtime p dt) id) with (score p id). unfold diff. lia. }
      split; rewrite ?Hmn, ?decide_True by done; [|lia]. rewrite Hs. unfold frontier. rewrite Hmn, decide_True by done. cbn [a_Blocks with_downtime with_scores].
      rewrite B1, Z.sub_0_r. lia.
Qed.

Lemma validators_loop (epoch index : Z) (participated : gset Z) (l : list Z) : forall p,
  NoDup l -> chain (a_Blocks p) index -> 1 <= index -> is_u64 index -> table_nonneg (DirtyValidation (a_Scores p)) ->
  (forall id, 0 <= missed_num p id <= index - 1) -> exists p',
  go_fold (creditValidator config epoch index (u64 (time_at (a_Blocks p) index - time_at (a_Blocks p) (index - 1))) participated) p l = Ret p' /\
  a_Blocks p' = a_Blocks p /\ table_nonneg (DirtyValidation (a_Scores p')) /\
  forall id, if decide (id ∈ l) then stepped p p' index id else score p' id = score p id /\ missed_num p' id = missed_num p id.
Proof.
  assert (forall ids p, NoDup ids -> chain (a_Blocks p) index -> 1 <= index -> is_u64 index -> table_nonneg (DirtyValidation (a_Scores p)) ->
    (forall id, id ∈ ids -> 0 <= missed_num p id <= index - 1) -> exists p',
    go_fold (creditValidator config epoch index (u64 (time_at (a_Blocks p) index - time_at (a_Blocks p) (index - 1))) participated) p ids = Ret p' /\
    a_Blocks p' = a_Blocks p /\ table_nonneg (DirtyValidation (a_Scores p')) /\
    forall id, if decide (id ∈ ids) then stepped p p' index id else score p' id = score p id /\ missed_num p' id = missed_num p id) as Hgen.
  2: { intros p Hl Hc Hi Hu Hn Hm. by apply Hgen. }
  induction ids as [|id0 ids IH]; intros p Hl Hc Hi Hu Hn Hm.
  { exists p. split_and!; try done. }
  apply NoDup_cons in Hl as [Hid0 Hl]. cbn [go_fold].
  destruct (creditValidator_spec epoch index id0 participated p Hc Hi Hu Hn (Hm id0 ltac:(by left))) as (p1 & -> & [F1 F2 F3 F4] & S1). rewrite go_bind_Ret.
  destruct (IH p1) as (p' & Hf & Hb & Hn' & Hids); [done|by rewrite F1|done|done|done| |].
  { intros id Hin. destruct (F4 id) as [_ ->]; [by intros ->|]. apply Hm. by right. }
  rewrite F1 in Hf. exists p'. split; [exact Hf|]. split; [congruence|]. split; [done|]. intros id. specialize (Hids id).
  destruct (decide (id = id0)) as [->|Hne].
  - rewrite decide_True by (by left). rewrite decide_False in Hids by done. destruct Hids as [Hs Hmn]. destruct S1 as [A1 A2].
    split; rewrite ?Hs, ?Hmn; [|done]. unfold frontier in *. by rewrite Hb, Hmn.
  - destruct (F4 id Hne) as [Es Em]. destruct (decide (id ∈ ids)) as [Hin|Hin].
    + rewrite decide_True by (by right). destruct Hids as [A1 A2]. split; [|done]. rewrite <-Es. unfold frontier in *. by rewrite F1, Em in A1.
    + rewrite decide_False by (by intros [?|?]%elem_of_cons). destruct Hids as [-> ->]. done.
Qed.

(** Between two blocks. *)
Record ready p (n : Z) : Prop := {
  rd_chain : chain (a_Blocks p) n;
  rd_nonneg : table_nonneg (DirtyValidation (a_Scores p));
  rd_missed id : 0 <= missed_num p id <= n
}.

Lemma chain_extend (blocks : gmap Z Z) (n t : Z) : 0 <= n -> chain blocks n -> time_at blocks n <= t -> is_u64 t ->
  chain (<[n + 1 := t]> blocks) (n + 1) /\ forall i, i <= n -> time_at (<[n + 1 := t]> blocks) i = time_at blocks i.
Proof.
  intros Hn Hc Ht Hu. assert (forall i, i <= n -> time_at (<[n + 1 := t]> blocks) i = time_at blocks i) as Hsame.
  { intros i Hi. unfold time_at. rewrite lookup_insert_ne; [done|lia]. }
  assert (time_at (<[n + 1 := t]> blocks) (n + 1) = t) as Hlast by (unfold time_at; by rewrite lookup_insert_eq).
  split; [|exact Hsame]. split.
  - intros i Hi. destruct (decide (i = n + 1)) as [->|]; [rewrite lookup_insert_eq; by eexists|]. rewrite lookup_insert_ne by done. apply (ch_known _ _ Hc). lia.
  - intros i j Hij Hj. destruct (decide (j = n + 1)) as [->|].
    + rewrite Hlast. destruct (decide (i = n + 1)) as [->|]; [lia|]. rewrite Hsame by lia. pose proof (ch_mono _ _ Hc i n ltac:(lia) ltac:(lia)). lia.
    + rewrite !Hsame by lia. apply (ch_mono _ _ Hc); lia.
  - intros i Hi. destruct (decide (i = n + 1)) as [->|]; [by rewrite Hlast|]. rewrite Hsame by lia. apply (ch_u64 _ _ Hc). lia.
Qed.

Lemma block_step (epoch n t : Z) (participated : gset Z) p : ready p n -> 0 <= n -> is_u64 (n + 1) -> time_at (a_Blocks p) n <= t -> is_u64 t -> exists p',
  updateValidationScores config indexes false epoch (n + 1) t participated (with_blocks p (<[n + 1 := t]> (a_Blocks p))) = Ret p' /\
  ready p' (n + 1) /\ time_at (a_Blocks p') (n + 1) = t /\
  forall id, score p id <= score p' id /\ score p' id - score p id <= frontier p' (n + 1) id - frontier p n id.
Proof.
  intros [Hc Hn Hm] Hn0 Hu Ht Hut. destruct (chain_extend _ _ _ Hn0 Hc Ht Hut) as [Hc1 Hsame]. set (q := with_blocks p _).
  unfold updateValidationScores. unfold is_u64 in Hu. rewrite (u64_id (n + 1 - 1)) by (unfold is_u64; lia). replace (n + 1 - 1) with n by lia.
  rewrite (blockTime_chain q (n + 1)) by (done || lia). rewrite go_bind_Ret. unfold GetActiveSfcStakers. cbn [os_All plainS map_store]. rewrite same_stakers.
  set (ids := (filter _ _).*1). assert (NoDup ids) as Hids.
  { eapply sublist_NoDup; [|apply fst_filter_sublist]. apply obj_sorted_entries_nodup. }
  assert (t = time_at (a_Blocks q) (n + 1)) as Et by (unfold time_at; cbn; by rewrite lookup_insert_eq).
  assert (u64 (t - time_at (a_Blocks q) n) = u64 (time_at (a_Blocks q) (n + 1) - time_at (a_Blocks q) n)) as -> by (by rewrite <-Et).
  destruct (validators_loop epoch (n + 1) participated ids q Hids Hc1 ltac:(lia)) as (p' & Hf & Hb & Hn' & Hids'); [unfold is_u64; lia|done|intros id; cbn; pose proof (Hm id); change (missed_num q id) with (missed_num p id); lia|].
  replace (n + 1 - 1) with n in Hf by lia. rewrite Hf, go_bind_Ret. cbn [negb]. exists p'. split; [done|].
  assert (forall id, stepped q p' (n + 1) id) as Hst.
  { intros id. specialize (Hids' id). case_decide; [done|]. destruct Hids' as [Es Em]. apply stepped_same; try done.
    change (missed_num q id) with (missed_num p id). pose proof (Hm id). lia. }
  split; [|split].
  - split; [by rewrite Hb|done|]. intros id. apply (sp_missed _ _ _ _ (Hst id)).
  - by rewrite Hb, Et.
  - intros id. destruct (sp_score _ _ _ _ (Hst id)) as [A1 A2]. change (score q id) with (score p id) in *. split; [done|].
    assert (frontier q (n + 1 - 1) id = frontier p n id) as <-; [|done].
    unfold frontier. change (missed_num q id) with (missed_num p id). replace (n + 1 - 1) with n by lia. apply Hsame. pose proof (Hm id). lia.
Qed.
End validation.

(** ** A run of blocks *)

(** Consecutive blocks of an epoch: each is stored and the scores updated. *)
Fixpoint run_scores {S D B PS PD} `{ObjStore Z SfcStaker PS S} `{ObjStore bytes SfcDelegator PD D} `{Lru Z BlocksMissed B}
    (config : EconomyConfig) (indexes : AppIndexes) (epoch n : Z) (blocks : list (Z * gset Z)) (a : AppStore S D B) : go (AppStore S D B) :=
  match blocks with
  | [] => Ret a
  | (t, participated) :: blocks =>
      a ← updateValidationScores config indexes false epoch (n + 1) t participated (with_blocks a (<[n + 1 := t]> (a_Blocks a)));
      run_scores config indexes epoch (n + 1) blocks a
  end.

(** The times of the blocks do not go back. *)
Fixpoint times_ok (t : Z) (blocks : list (Z * gset Z)) : Prop :=
  match blocks with [] => True | (t', _) :: blocks => t <= t' /\ is_u64 t' /\ times_ok t' blocks end.

Section run.
Context (config : EconomyConfig) (indexes : AppIndexes).
Context {S D B PS PD : Type} {repS : S -> gmap Z SfcStaker -> (Z -> list (Z * SfcStaker)) -> Prop} {ownS : S -> list PS -> Prop}
  {repD : D -> gmap bytes SfcDelegator -> (Z -> list (bytes * SfcDelegator)) -> Prop} {ownD : D -> list PD -> Prop}.
Context `{OS : ObjStore Z SfcStaker PS S} `{OD : ObjStore bytes SfcDelegator PD D} `{LB : LruLaws Z BlocksMissed B}.
Context {LS : ObjStoreLaws Z SfcStaker PS S Z.le repS ownS} {LD : ObjStoreLaws bytes SfcDelegator PD D bytes_le repD ownD}.
Abbreviation Plain := (AppStore (MapStore Z SfcStaker) (MapStore bytes SfcDelegator) nocache).
Abbreviation rel := (app_rel (repS := repS) (repD := repD) (B := B)).
#[local] Existing Instance plainS.
#[local] Existing Instance plainD.

Lemma run_scores_sim (epoch : Z) (blocks : list (Z * gset Z)) : forall (n : Z) (a : AppStore S D B) (p : Plain), rel a p ->
  go_rel rel (run_scores config indexes epoch n blocks a) (run_scores config indexes epoch n blocks p).
Proof.
  induction blocks as [|[t part] blocks IH]; intros n a p Hr; [done|]. cbn [run_scores].
  eapply go_rel_bind; [refine (updateValidationScores_sim config indexes false epoch (n + 1) t part _ _ _)|intros; by apply IH].
  rewrite (ar_blocks _ _ Hr). destruct Hr. by split.
Qed.

Lemma run_scores_spec (latency : 0 <= BlockMissedLatency config) (epoch : Z) (blocks : list (Z * gset Z)) : forall (n : Z) (p : Plain),
  ready p n -> 0 <= n -> is_u64 (n + zlen blocks) -> times_ok (time_at (a_Blocks p) n) blocks -> exists p',
  run_scores config indexes epoch n blocks p = Ret p' /\ ready p' (n + zlen blocks) /\
  forall id, score p id <= score p' id /\ score p' id - score p id <= frontier p' (n + zlen blocks) id - frontier p n id.
Proof.
  induction blocks as [|[t part] blocks IH]; intros n p Hr Hn Hu Ht.
  { exists p. change (zlen []) with 0. rewrite Z.add_0_r. split_and!; try done. intros id. lia. }
  destruct Ht as (Ht & Hut & Hts). unfold is_u64, zlen in *. cbn [length] in *. cbn [run_scores].
  destruct (block_step config indexes latency epoch n t part p Hr Hn ltac:(unfold is_u64; lia) Ht Hut) as (p1 & -> & Hr1 & Ht1 & Hs1).
  rewrite go_bind_Ret. destruct (IH (n + 1) p1) as (p' & -> & Hr' & Hs'); [done|lia|lia|by rewrite Ht1|].
  replace (n + Z.of_nat (Datatypes.S (length blocks))) with (n + 1 + Z.of_nat (length blocks)) by lia. exists p'. split_and!; try done. intros id. destruct (Hs1 id), (Hs' id). lia.
Qed.

(** A validator is never credited twice for the same time.  Over any run
    of blocks, whichever of them it takes part in, every block is processed
    without a panic and the score of a validator never falls; it grows by at
    most the time between the block before those it had missed at the start
    and the last block of the run, although a validator that comes back is
    credited for blocks that it missed. *)
Theorem validation_time_credited_once (epoch n : Z) (blocks : list (Z * gset Z)) (a : AppStore S D B) (p : Plain) :
  0 <= BlockMissedLatency config -> rel a p -> ready p n -> 0 <= n -> is_u64 (n + zlen blocks) -> times_ok (time_at (a_Blocks p) n) blocks -> exists a',
  run_scores config indexes epoch n blocks a = Ret a' /\
  forall id, let gained := big_get (DirtyValidation (a_Scores a')) id - big_get (DirtyValidation (a_Scores a)) id in
    0 <= gained <= time_at (a_Blocks a') (n + zlen blocks) - time_at (a_Blocks a) (n - missed_num p id).
Proof.
  intros Hlat Hr Hrd Hn Hu Ht. pose proof (run_scores_sim epoch blocks n a p Hr) as Hsim.
  destruct (run_scores_spec Hlat epoch blocks n p Hrd Hn Hu Ht) as (p' & Hrun & Hrd' & Hs). rewrite Hrun in Hsim.
  destruct (run_scores config indexes epoch n blocks a) as [a'|f]; [|done]. cbn in Hsim. exists a'. split; [done|]. intros id gained. unfold gained.
  rewrite (sr_dv _ _ (ar_scores _ _ Hr)), (sr_dv _ _ (ar_scores _ _ Hsim)), (ar_blocks _ _ Hr), (ar_blocks _ _ Hsim).
  destruct (Hs id) as [H1 H2]. unfold score, frontier in *. split; [lia|].
  assert (time_at (a_Blocks p') (n + zlen blocks - missed_num p' id) <= time_at (a_Blocks p') (n + zlen blocks)); [|lia].
  pose proof (rd_missed _ _ Hrd' id). apply (ch_mono _ _ (rd_chain _ _ Hrd')); lia.
Qed.
End run.

(** * What the application guarantees

    Nodes with the same tables end every block alike whatever their caches
    hold; with the example network of the index of the SFC contract, the
    witnesses for the theorems on scores. *)

(** ** Two nodes *)

Section two_nodes.
Context (hash_Of : list bytes -> hash) (ContractAddress : bytes) (config : EconomyConfig) (indexes : AppIndexes).
Context {S D B PS PD : Type} {repS : S -> gmap Z SfcStaker -> (Z -> list (Z * SfcStaker)) -> Prop} {ownS : S -> list PS -> Prop}
  {repD : D -> gmap bytes SfcDelegator -> (Z -> list (bytes * SfcDelegator)) -> Prop} {ownD : D -> list PD -> Prop}.
Context `{OS : ObjStore Z SfcStaker PS S} `{OD : ObjStore bytes SfcDelegator PD D} `{LB : LruLaws Z BlocksMissed B}.
Context {LS : ObjStoreLaws Z SfcStaker PS S Z.le repS ownS} {LD : ObjStoreLaws bytes SfcDelegator PD D bytes_le repD ownD}.
Context {E : Type} `{EV : EvmState E} (Sender : EthTx -> option bytes) (Commit : E -> hash).
Abbreviation rel := (app_rel (repS := repS) (repD := repD) (B := B)).

(** C25: The caches of the application never show.  Two nodes whose stores
    stand for the same tables end a block alike: both crash with the same
    fault, or both commit the same state of the EVM, go to the same epoch and
    again stand for the same tables.  A node may therefore restart, or evict
    what it likes, between two blocks, as long as its caches are coherent with the tables; that
    is so after every restart and kept by every block, but not yet on a node in the epoch of
    its genesis ([genesis_shares_stakers]). *)
Theorem app_caches_invisible (epoch : Z) (ctx : blockContext E) (block : AppBlock) (evmBlock : EvmBlock) (receipts : list Receipt) (cheaters : list Z)
    (stats : EpochStats) (txPositions : gmap hash TxPosition) (participated : gset Z)
    (a1 a2 : AppStore S D B) (p : AppStore (MapStore Z SfcStaker) (MapStore bytes SfcDelegator) nocache) :
  rel a1 p -> rel a2 p -> epoch_fresh p epoch ->
  go_rel (fun x y => x.1 = y.1 /\ exists p', rel x.2 p' /\ rel y.2 p')
    (EndBlock hash_Of ContractAddress config indexes Sender Commit epoch ctx block evmBlock receipts cheaters stats txPositions participated a1)
    (EndBlock hash_Of ContractAddress config indexes Sender Commit epoch ctx block evmBlock receipts cheaters stats txPositions participated a2).
Proof.
  intros H1 H2 Hf.
  pose proof (EndBlock_sim hash_Of ContractAddress config indexes Sender Commit epoch ctx block evmBlock receipts cheaters stats txPositions participated a1 p H1 Hf) as S1.
  pose proof (EndBlock_sim hash_Of ContractAddress config indexes Sender Commit epoch ctx block evmBlock receipts cheaters stats txPositions participated a2 p H2 Hf) as S2.
  destruct (EndBlock _ _ _ _ _ _ _ _ _ _ _ _ _ _ _ a1), (EndBlock _ _ _ _ _ _ _ _ _ _ _ _ _ _ _ a2), (EndBlock _ _ _ _ _ _ _ _ _ _ _ _ _ _ _ p); try done; cbn in *.
  - destruct S1 as [R1 E1], S2 as [R2 E2]. split; [congruence|]. by eexists.
  - congruence.
Qed.
End two_nodes.

(** ** Two nodes, one of them with warm caches *)

Definition toy_commit (e : MemEvm) : hash := GetState e toy_contract (EpochPos_StakeTotalAmount (pos_EpochSnapshot toy_hash 1)).
Definition toy_ctx : blockContext MemEvm := mkContext toy_evm true 0.
Definition toy_app_block : AppBlock := mkAppBlock 1 (9 * second) ZeroHash [] 0.
Definition toy_receipt : Receipt := mkReceipt false 21000 [0; 30000] 21000 [toy_increase] 0.
Definition toy_evm_block : EvmBlock := mkEvmBlock MaxUint64 ZeroHash [toy_tx 0 30000 5].

Lemma app_caches_invisible_witness :
  ps_cache (a_Stakers cold_node) <> ps_cache (a_Stakers warm_node) /\
  go_rel (fun x y => x.1 = y.1 /\ exists p', node_rel x.2 p' /\ node_rel y.2 p')
    (EndBlock toy_hash toy_contract toy_config (mkAppIndexes true true) toy_sender toy_commit 1 toy_ctx toy_app_block toy_evm_block [toy_receipt] [2]
       (mkEpochStats (7 * second) (9 * second) 0) ∅ {[1]} cold_node)
    (EndBlock toy_hash toy_contract toy_config (mkAppIndexes true true) toy_sender toy_commit 1 toy_ctx toy_app_block toy_evm_block [toy_receipt] [2]
       (mkEpochStats (7 * second) (9 * second) 0) ∅ {[1]} warm_node).
Proof.
  split; [intros He; apply (f_equal (fun c => lru_peek c 1)) in He; vm_compute in He; discriminate|].
  apply (app_caches_invisible toy_hash toy_contract toy_config (mkAppIndexes true true) toy_sender toy_commit 1 toy_ctx toy_app_block toy_evm_block [toy_receipt] [2]
           (mkEpochStats (7 * second) (9 * second) 0) ∅ {[1]} cold_node warm_node (plain_of toy_genesis)).
  - apply restart_rel.
  - apply warm_rel, restart_rel.
  - vm_compute. reflexivity.
Defined.

(** The block ends, and the snapshot of the epoch was written. *)
Example toy_end : (fun r => r.1) <$>
  EndBlock toy_hash toy_contract toy_config (mkAppIndexes true true) toy_sender toy_commit 1 toy_ctx toy_app_block toy_evm_block [toy_receipt] [2]
    (mkEpochStats (7 * second) (9 * second) 0) ∅ {[1]} cold_node = Ret (BigTo256 150, 2).
Proof. vm_compute. reflexivity. Qed.

(** ** Scores *)

(** A forced seal of the epoch is not asked for. *)
Lemma fees_become_scores_witness : exists block' evmBlock' receipts ctx' a',
  DeliverTxs toy_hash example_eth toy_sender toy_cost (mkContext toy_evm false 0) toy_app_block toy_block = Ret (block', evmBlock', receipts, ctx') /\
  updateOriginationScores (ctx_sealEpoch ctx') (eb_Transactions evmBlock') receipts {[ [0; 30000] := mkTxPosition 1 [] 1 0 0 ]} cold_node = Ret a' /\
  let total := table_sum (DirtyOrigination (a_Scores cold_node)) + ctx_totalFee ctx' in
  if ctx_sealEpoch ctx' then table_sum (ActiveOrigination (a_Scores a')) = total /\ DirtyOrigination (a_Scores a') = ∅
  else table_sum (DirtyOrigination (a_Scores a')) = total.
Proof.
  apply (fees_become_scores toy_hash example_eth); [split; vm_compute; split; congruence|apply _|apply Forall_forall; exact toy_tx_ok|vm_compute; split; congruence|].
  intros k v Hk. change ((∅ : gmap Z Z) !! k = Some v) in Hk. by rewrite lookup_empty in Hk.
Defined.

Definition toy_run : list (Z * gset Z) := [(8 * second, {[1]}); (9 * second, ∅); (10 * second, {[1; 2]})].

(** Validator 1 missed the second block only and is credited for all three
    seconds; validator 2 comes back after two. *)
Example toy_scores : (fun a => (big_get (DirtyValidation (a_Scores a)) 1, big_get (DirtyValidation (a_Scores a)) 2)) <$>
  run_scores toy_config (mkAppIndexes true true) 1 0 toy_run cold_node = Ret (3 * second, 3 * second).
Proof. vm_compute. reflexivity. Qed.

Lemma toy_ready : ready (plain_of toy_genesis) 0.
Proof.
  split; [|intros k v Hk; change ((∅ : gmap Z Z) !! k = Some v) in Hk; by rewrite lookup_empty in Hk|].
  - split.
    + intros i Hi. assert (i = 0) as -> by lia. vm_compute. by eexists.
    + intros i j Hi Hj. assert (i = 0) as -> by lia. assert (j = 0) as -> by lia. lia.
    + intros i Hi. assert (i = 0) as -> by lia. vm_compute. split; congruence.
  - intros id. unfold missed_num, missed_of. change (bd_table _) with (∅ : gmap Z BlocksMissed). rewrite lookup_empty. cbn. lia.
Qed.

Lemma validation_time_credited_once_witness : exists a',
  run_scores toy_config (mkAppIndexes true true) 1 0 toy_run cold_node = Ret a' /\
  forall id, let gained := big_get (DirtyValidation (a_Scores a')) id - big_get (DirtyValidation (a_Scores cold_node)) id in
    0 <= gained <= time_at (a_Blocks a') (0 + zlen toy_run) - time_at (a_Blocks cold_node) (0 - missed_num (plain_of toy_genesis) id).
Proof.
  apply (validation_time_credited_once (repS := ptr_rep Z.le) (repD := ptr_rep bytes_le) (LS := ptr_store_laws Z.le) toy_config (mkAppIndexes true true) 1 0 toy_run cold_node (plain_of toy_genesis)).
  - vm_compute. discriminate.
  - apply restart_rel.
  - exact toy_ready.
  - lia.
  - vm_compute. split; congruence.
  - vm_compute. repeat split; congruence.
Defined.
