(* ===== verification/AppVoting.v ===== *)
(** * The last sealed block, as the application remembers it

    [a_LastVoting] is written by [EndBlock] alone, and only when the epoch is
    sealed: no handler of a log, no score and no proof of importance touches
    it. *)

From S2P Require Import Prelude Bytes Pos Event VecStore EventCheck EventBuffer SfcStore Sfc StateTransition App.

(** ** Steps that keep a part of the state *)

Lemma go_fold_proj {A T V} (v : T -> V) (f : T -> A -> go T) (l : list A) :
  (forall s x s', f s x = Ret s' -> v s' = v s) -> forall s s', go_fold f s l = Ret s' -> v s' = v s.
Proof.
  intros Hf. induction l as [|x l IH]; intros s s' Hr; cbn [go_fold] in Hr; [by injection Hr as <-|].
  apply go_bind_inv in Hr as (s1 & H1 & Hr). by rewrite (IH _ _ Hr), (Hf _ _ _ H1).
Qed.

Lemma foldl_keep {A T V} (v : T -> V) (f : T -> A -> T) (l : list A) : (forall s x, v (f s x) = v s) -> forall s, v (foldl f s l) = v s.
Proof. intros Hf. induction l as [|x l IH]; intros s; cbn; [done|]. by rewrite IH, Hf. Qed.

(** Splits a run [H : ... = Ret _] into its steps and its cases. *)
Ltac run_cases H :=
  repeat first
    [ progress (cbv beta iota zeta in H)
    | discriminate H
    | let x := fresh "r" in let E := fresh "E" in apply go_bind_inv in H; destruct H as (x & E & H)
    | match type of H with context [match ?x with _ => _ end] => destruct x eqn:? end ];
  injection H; clear H; intros; subst.

Section keeps.
Context (hash_Of : list bytes -> hash) (ContractAddress : bytes) (economy : EconomyConfig) (indexes : AppIndexes).
Context {S D B PS PD : Type} `{OS : ObjStore Z SfcStaker PS S} `{OD : ObjStore bytes SfcDelegator PD D} `{LB : Lru Z BlocksMissed B}.
Context {E : Type} `{EV : EvmState E} (Sender : EthTx -> option bytes) (Commit : E -> hash).
Abbreviation Tables := (AppStore S D B).
Abbreviation voting := (a_LastVoting (S := S) (D := D) (B := B)).
Implicit Types (a : Tables) (h : Tables -> go (bool * Tables)).

Definition keeps h : Prop := forall a r, h a = Ret r -> voting r.2 = voting a.

Lemma voting_when (guard : bool) h : keeps h -> keeps (when guard h).
Proof. intros Hh a r. unfold when. destruct guard; [apply Hh|]. by intros [= <-]. Qed.

Lemma keeps_handlers (hs : list (handler (S := S) (D := D) (B := B))) : Forall keeps hs -> forall a a', run_handlers hs a = Ret a' -> voting a' = voting a.
Proof.
  induction 1 as [|h hs Hh _ IH]; intros a a' Hr; cbn [run_handlers] in Hr; [by injection Hr as <-|].
  apply go_bind_inv in Hr as ([proceed a1] & H1 & Hr). apply Hh in H1. cbn in H1. destruct proceed; [|by injection Hr as <-].
  by rewrite (IH _ _ Hr).
Qed.

Ltac handler_keeps f := intros a r Hr; unfold f in Hr; run_cases Hr; done.

Lemma keeps_log (epoch time : Z) (t0 : hash) (l : Log) : Forall keeps (log_handlers hash_Of epoch time t0 l).
Proof.
  unfold log_handlers. repeat (apply Forall_cons; split); try apply Forall_nil; try done; apply voting_when.
  - handler_keeps @onCreatedStake.
  - handler_keeps @onIncreasedStake.
  - handler_keeps @onCreatedDelegation.
  - handler_keeps @onDeactivatedStake.
  - handler_keeps @onDeactivatedDelegation.
  - handler_keeps @onUpdatedStake.
  - handler_keeps @onUpdatedDelegation.
  - handler_keeps @onWithdrawnStake.
  - handler_keeps @onWithdrawnDelegation.
  - handler_keeps @onUpdatedBaseReward.
  - handler_keeps @onUpdatedGasPower.
  - handler_keeps @onClaimedValidatorReward.
  - handler_keeps @onClaimedDelegationReward.
Qed.

(** ** The SFC contract *)

Lemma logs_keep (epoch time : Z) (receipts : list (list Log)) a a' :
  processLogs hash_Of ContractAddress epoch time receipts a = Ret a' -> voting a' = voting a.
Proof.
  apply (go_fold_proj voting). clear a a'. intros a l a' Hr. unfold processLog in Hr. destruct (negb _); [by injection Hr as <-|].
  apply go_bind_inv in Hr as (t0 & _ & Hr). eapply keeps_handlers; [apply keeps_log|exact Hr].
Qed.

Lemma cheaters_keep (st st' : Tables * E) (cheaters : list Z) :
  go_fold (writeCheater hash_Of ContractAddress) st cheaters = Ret st' -> voting st'.1 = voting st.1.
Proof.
  apply (go_fold_proj (fun st : Tables * E => voting st.1)). clear st st'. intros [a e] id st' Hr. unfold writeCheater in Hr. run_cases Hr; done.
Qed.

Lemma offline_keep (st : Tables * E) (stakers : list (Z * PS)) :
  voting (foldl (writeOffline hash_Of ContractAddress economy) st stakers).1 = voting st.1.
Proof.
  apply (foldl_keep (fun st : Tables * E => voting st.1)). clear st. intros [a e] it. unfold writeOffline.
  destruct (Staker_Offline _); [done|]. destruct (GetBlocksMissed _ _). destruct (_ && _); [by destruct (os_Write _ _ _)|done].
Qed.

Lemma seal_keep (epoch : Z) (cheaters : list Z) (stats : EpochStats) a (e : E) :
  voting (sealSfc hash_Of ContractAddress economy epoch cheaters stats a e).1 = voting a.
Proof.
  unfold sealSfc. set (a1 := if HasSfcConstants a epoch then _ else _). assert (voting a1 = voting a) as H1 by (unfold a1; by destruct (HasSfcConstants a epoch)).
  cbv zeta. destruct (os_All (a_Stakers a1)) as [stakers s]. pose proof (offline_keep (with_stakers a1 s, e) stakers) as Hoff.
  destruct (foldl _ _ _) as [a2 e2]. cbn [fst] in Hoff. destruct (os_GetSnap _ _) as [vv s2]. destruct (calcRewardWeights _ _ _). destruct (foldl _ _ _) as [t e3].
  destruct (os_All _). cbn. by rewrite Hoff.
Qed.

Lemma processSfc_keep (epoch time : Z) (receipts : list (list Log)) (cheaters : list Z) (sealEpoch : bool) (stats : EpochStats) a (e : E) r :
  processSfc hash_Of ContractAddress economy epoch time receipts cheaters sealEpoch stats a e = Ret r -> voting r.1 = voting a.
Proof.
  unfold processSfc. intros Hr. apply go_bind_inv in Hr as (a1 & H1 & Hr). apply go_bind_inv in Hr as ([a2 e2] & H2 & Hr). injection Hr as <-.
  apply logs_keep in H1. apply cheaters_keep in H2. cbn in H2. destruct sealEpoch; [rewrite seal_keep|cbn]; congruence.
Qed.

(** ** Scores and the proof of importance *)

Lemma stakers_keep a : voting (GetActiveSfcStakers a).2 = voting a.
Proof. unfold GetActiveSfcStakers. by destruct (os_All _). Qed.

Lemma origination_keep (sealEpoch : bool) (txs : list EthTx) (receipts : list Receipt) (txPositions : gmap hash TxPosition) a a' :
  updateOriginationScores sealEpoch txs receipts txPositions a = Ret a' -> voting a' = voting a.
Proof.
  unfold updateOriginationScores. intros Hr. apply go_bind_inv in Hr as ([i a1] & H1 & Hr). injection Hr as <-.
  apply (go_fold_proj (fun st : Z * Tables => voting st.2)) in H1; [|by intros [j b] tx st' Hs; unfold creditOrigination in Hs; run_cases Hs].
  destruct sealEpoch; [|done]. unfold MoveOrigination. by destruct (move_all _ _).
Qed.

Lemma validation_keep (sealEpoch : bool) (epoch index time : Z) (participated : gset Z) a a' :
  updateValidationScores economy indexes sealEpoch epoch index time participated a = Ret a' -> voting a' = voting a.
Proof.
  unfold updateValidationScores. intros Hr. apply go_bind_inv in Hr as (prev & _ & Hr). pose proof (stakers_keep a) as Hs.
  destruct (GetActiveSfcStakers a) as [stakers a1]. cbn in Hs. apply go_bind_inv in Hr as (a2 & H2 & Hr).
  apply (go_fold_proj voting) in H2.
  2: { clear. intros a id a' Hc. unfold creditValidator in Hc. destruct (negb _); [by injection Hc as <-|]. destruct (negb _); [by injection Hc as <-|].
       destruct (GetBlocksMissed _ _). apply go_bind_inv in Hc as (a1 & Hm & Hc). injection Hc as <-. cbn.
       apply (go_fold_proj voting) in Hm; [by rewrite Hm|]. clear. intros a i a' Hm. unfold creditMissed in Hm. by run_cases Hm. }
  destruct (negb sealEpoch); injection Hr as <-; [congruence|]. unfold MoveValidation. destruct (move_all _ _). cbn. congruence.
Qed.

Lemma users_keep (time totalFee : Z) (txs : list EthTx) (receipts : list Receipt) a a' :
  updateUsersPOI economy Sender time totalFee txs receipts a = Ret a' -> voting a' = voting a.
Proof.
  unfold updateUsersPOI. intros Hr. apply go_bind_inv in Hr as (period & _ & Hr). apply go_bind_inv in Hr as ([i a1] & H1 & Hr). injection Hr as <-.
  apply (go_fold_proj (fun st : Z * Tables => voting st.2)) in H1.
  - cbn in H1. rewrite H1. unfold AddPoiFee. by destruct (_ =? 0).
  - clear. intros [j b] tx st' Hs. unfold updateUserPOI in Hs. apply go_bind_inv in Hs as (rc & _ & Hs). cbv zeta in Hs. destruct (Sender tx); [|done].
    apply go_bind_inv in Hs as (pp & _ & Hs). apply go_bind_inv in Hs as (b1 & Hd & Hs). injection Hs as <-. cbn.
    unfold creditDelegation in Hd. by run_cases Hd.
Qed.

Lemma stakersPOI_keep (index time : Z) a a' : updateStakersPOI economy index time a = Ret a' -> voting a' = voting a.
Proof.
  unfold updateStakersPOI. intros Hr. apply go_bind_inv in Hr as (p1 & _ & Hr). apply go_bind_inv in Hr as (t1 & _ & Hr). apply go_bind_inv in Hr as (p2 & _ & Hr).
  destruct (negb _); [|by injection Hr as <-]. pose proof (stakers_keep a) as Hs. destruct (GetActiveSfcStakers a) as [stakers a1]. cbn in Hs.
  apply go_bind_inv in Hr as (a2 & H2 & Hr). injection Hr as <-. cbn. rewrite <-Hs. revert H2. apply (go_fold_proj voting).
  clear. intros a [id address] a' Hu. unfold updateStakerPOI in Hu. by run_cases Hu.
Qed.

(** ** The end of a block *)

Lemma EndBlock_voting (epoch : Z) (ctx : blockContext E) (block : AppBlock) (evmBlock : EvmBlock) (receipts : list Receipt) (cheaters : list Z)
    (stats : EpochStats) (txPositions : gmap hash TxPosition) (participated : gset Z) a (r : hash * Z) a' :
  EndBlock hash_Of ContractAddress economy indexes Sender Commit epoch ctx block evmBlock receipts cheaters stats txPositions participated a = Ret (r, a') ->
  voting a' = if ctx_sealEpoch ctx then (ab_Index block, ab_Time block) else voting a.
Proof.
  unfold EndBlock. cbv zeta. intros Hr. apply go_bind_inv in Hr as (a1 & H1%origination_keep & Hr). apply go_bind_inv in Hr as (a2 & H2%validation_keep & Hr).
  apply go_bind_inv in Hr as (a3 & H3%users_keep & Hr). apply go_bind_inv in Hr as (a4 & H4%stakersPOI_keep & Hr).
  apply go_bind_inv in Hr as ([a5 e] & H5%processSfc_keep & Hr). cbn in H5. injection Hr as _ <-. destruct (ctx_sealEpoch ctx); [done|congruence].
Qed.
End keeps.
