(* ===== verification/TempDbs.v ===== *)
(** * The databases of the running epochs: gossip/temporary

    A ring of at most five databases with consecutive numbers, opened on
    demand and removed from the oldest on.  What makes a database is a
    parameter; a removed one is closed and dropped. *)

From S2P Require Import Prelude Bytes.

(** ** gossip/temporary/ringbuf.go *)

Record ringbuf (P : Type) := mkRingbuf { rb_Min : Z; rb_offset : Z; rb_count : Z; rb_seq : list (option P) }.
Arguments mkRingbuf {P} _ _ _ _.
Arguments rb_Min {P} _.
Arguments rb_offset {P} _.
Arguments rb_count {P} _.
Arguments rb_seq {P} _.

Section ringbuf.
Context {P : Type}.
Implicit Types r : ringbuf P.

Definition ring_len r : Z := zlen (rb_seq r).

Definition ringbuf_Get r (num : Z) : go (option P) :=
  let i := i64 (num - rb_Min r) in
  if (num <? rb_Min r) || (rb_count r <=? i) then Ret None
  else slice_at (rb_seq r) (Z.rem (i + rb_offset r) (ring_len r)).

Definition ringbuf_Set r (num : Z) (val : P) : go (ringbuf P) :=
  if ring_len r <=? rb_count r then Fault (PanicMsg "no space")
  else
    let min := if rb_count r =? 0 then num else rb_Min r in
    let i := i64 (num - min) in
    if negb (i =? rb_count r) then Fault (PanicMsg "sequence is broken")
    else
      seq ← slice_set (rb_seq r) (Z.rem (i + rb_offset r) (ring_len r)) (Some val);
      Ret (mkRingbuf min (rb_offset r) (rb_count r + 1) seq).

Definition ringbuf_Del r (num : Z) : go (ringbuf P) :=
  if negb (num =? rb_Min r) then Fault (PanicMsg "sequence is broken")
  else Ret (mkRingbuf (u64 (rb_Min r + 1)) (Z.rem (rb_offset r + 1) (ring_len r)) (rb_count r - 1) (rb_seq r)).
End ringbuf.

(** ** gossip/temporary/db.go *)

Record Dbs (P : Type) := mkDbs {
  td_min : option Z;        (* the saved number of the oldest database *)
  td_seq : ringbuf P;
  td_dropped : list P       (* the databases closed and dropped, the last first *)
}.
Arguments mkDbs {P} _ _ _.
Arguments td_min {P} _.
Arguments td_seq {P} _.
Arguments td_dropped {P} _.

Section dbs.
Context {P : Type} (maker : Z -> P).
Implicit Types t : Dbs P.

Definition empty_ring (min : Z) : ringbuf P := mkRingbuf min 0 0 (replicate 5 None).

Definition NewDbs (saved : option Z) : Dbs P := mkDbs saved (empty_ring (default 0 saved)) [].

Definition Dbs_Get t (ver : Z) : go (option P * Dbs P) :=
  if ver <? rb_Min (td_seq t) then Ret (None, t)
  else
    tmp ← ringbuf_Get (td_seq t) ver;
    match tmp with
    | Some p => Ret (Some p, t)
    | None => seq ← ringbuf_Set (td_seq t) ver (maker ver); Ret (Some (maker ver), mkDbs (td_min t) seq (td_dropped t))
    end.

Definition Dbs_Del_one t (i : Z) : go (Dbs P) :=
  tmp ← ringbuf_Get (td_seq t) i;
  let dropped := match tmp with Some p => p :: td_dropped t | None => td_dropped t end in
  seq ← ringbuf_Del (td_seq t) i;
  Ret (mkDbs (td_min t) seq dropped).

Definition Dbs_Del t (ver : Z) : go (Dbs P) :=
  let min := rb_Min (td_seq t) in
  if ver <? min then Ret t
  else
    t ← go_fold Dbs_Del_one t (seqZ min (ver - min + 1));
    Ret (mkDbs (Some (rb_Min (td_seq t))) (td_seq t) (td_dropped t)).
End dbs.

(** ** The window of open databases *)

Section window.
Context {P : Type} (maker : Z -> P).
Implicit Types (t : Dbs P) (r : ringbuf P).

(** The open databases are those with the numbers from [lo] below [hi]. *)
Record window r (lo hi : Z) : Prop := {
  wd_min : rb_Min r = lo;
  wd_count : rb_count r = hi - lo;
  wd_range : 0 <= lo <= hi /\ hi <= lo + 5 /\ hi < 2 ^ 63;
  wd_len : ring_len r = 5;
  wd_offset : 0 <= rb_offset r < 5;
  wd_open i : lo <= i < hi -> slice_get (rb_seq r) (Z.rem (i - lo + rb_offset r) 5) = Some (Some (maker i))
}.

Lemma rem5 a : 0 <= a -> Z.rem a 5 = a mod 5.
Proof. intros Ha. by apply Z.rem_mod_nonneg. Qed.

Lemma get_open r lo hi i : window r lo hi -> lo <= i < hi -> ringbuf_Get r i = Ret (Some (maker i)).
Proof.
  intros [Hm Hc (Hlo & Hsz & Hhi) Hl Ho Hop] Hi. unfold ringbuf_Get. rewrite Hm, Hc, Hl, i64_id by (unfold is_i64; lia).
  rewrite (proj2 (Z.ltb_ge _ _)), (proj2 (Z.leb_gt _ _)) by lia. cbn. apply slice_at_Ret. by apply Hop.
Qed.

Lemma get_closed r lo hi i : window r lo hi -> 0 <= i < 2 ^ 63 -> ~ (lo <= i < hi) -> ringbuf_Get r i = Ret None.
Proof.
  intros [Hm Hc (Hlo & Hsz & Hhi) Hl Ho Hop] Hr Hi. unfold ringbuf_Get. rewrite Hm, Hc. destruct (Z.ltb_spec i lo); [done|].
  rewrite i64_id by (unfold is_i64; lia). by rewrite (proj2 (Z.leb_le _ _)) by lia.
Qed.

(** The next number goes behind the others; an empty ring starts anywhere. *)
Lemma set_next r lo hi num : window r lo hi -> (if decide (lo = hi) then 0 <= num < 2 ^ 63 - 1 else num = hi /\ hi < lo + 5 /\ hi < 2 ^ 63 - 1) ->
  exists r', ringbuf_Set r num (maker num) = Ret r' /\ window r' (if decide (lo = hi) then num else lo) (num + 1).
Proof.
  intros [Hm Hc (Hlo & Hsz & Hhi) Hl Ho Hop] Hnum. unfold ringbuf_Set. rewrite Hl, Hc, Hm.
  set (lo' := if decide (lo = hi) then num else lo).
  assert ((if hi - lo =? 0 then num else lo) = lo') as -> by (unfold lo'; destruct (decide (lo = hi)), (Z.eqb_spec (hi - lo) 0); lia).
  assert (num - lo' = hi - lo /\ 0 <= lo' <= num /\ num < 2 ^ 63 - 1 /\ hi - lo < 5) as (Hd & Hlo' & Hn & H5) by (unfold lo'; destruct (decide (lo = hi)); lia).
  rewrite (proj2 (Z.leb_gt _ _)) by lia. rewrite i64_id by (unfold is_i64; lia). rewrite Hd, Z.eqb_refl. cbn [negb].
  rewrite rem5 by lia. pose proof (Z.mod_pos_bound (hi - lo + rb_offset r) 5 ltac:(lia)). unfold ring_len in Hl.
  rewrite slice_set_Ret by lia. rewrite go_bind_Ret. eexists. split; [reflexivity|]. split; cbn; try done; try lia.
  - unfold ring_len, zlen in *. cbn. by rewrite length_insert.
  - intros i Hi. rewrite rem5 by lia. pose proof (Z.mod_pos_bound (i - lo' + rb_offset r) 5 ltac:(lia)).
    destruct (decide (i = num)) as [->|Hne].
    + rewrite slice_get_insert by lia. rewrite Hd. by rewrite decide_True.
    + rewrite slice_get_insert by lia. rewrite decide_False.
      * assert (lo <> hi) as Hlh by (unfold lo' in Hi; destruct (decide (lo = hi)); lia). unfold lo' in *. rewrite decide_False in * by done.
        rewrite <-(rem5 (i - lo + rb_offset r)) by lia. apply Hop. lia.
      * intros He. assert (i - lo' = hi - lo); [|lia]. 
        pose proof (Z.div_mod (i - lo' + rb_offset r) 5 ltac:(lia)). pose proof (Z.div_mod (hi - lo + rb_offset r) 5 ltac:(lia)). lia.
Qed.

(** A number past the next one is refused, and with five databases the next one is too. *)
Lemma set_refused r lo hi num : window r lo hi -> lo < hi -> hi <= num < 2 ^ 63 -> (num = hi -> lo + 5 <= hi) -> exists msg, ringbuf_Set r num (maker num) = Fault (PanicMsg msg).
Proof.
  intros [Hm Hc (Hlo & Hsz & Hhi) Hl Ho Hop] Hlt Hnum Hfull. unfold ringbuf_Set. rewrite Hl, Hc, Hm. destruct (Z.leb_spec 5 (hi - lo)); [by eexists|].
  destruct (Z.eqb_spec (hi - lo) 0); [lia|]. rewrite i64_id by (unfold is_i64; lia). destruct (Z.eqb_spec (num - lo) (hi - lo)); [|by eexists].
  assert (num = hi) as He by lia. specialize (Hfull He). lia.
Qed.

Lemma del_first r lo hi : window r lo hi -> lo < hi -> exists r', ringbuf_Del r lo = Ret r' /\ window r' (lo + 1) hi.
Proof.
  intros [Hm Hc (Hlo & Hsz & Hhi) Hl Ho Hop] Hlt. unfold ringbuf_Del. rewrite Hm, Z.eqb_refl. cbn [negb]. eexists. split; [reflexivity|].
  rewrite Hl, rem5 by lia. pose proof (Z.mod_pos_bound (rb_offset r + 1) 5 ltac:(lia)). split; cbn; try done; try lia.
  - rewrite u64_id; [done|]. unfold is_u64. lia.
  - intros i Hi. pose proof (Hop i ltac:(lia)) as Hg. rewrite rem5 in * by lia. rewrite <-Hg. f_equal.
    rewrite Z.add_mod_idemp_r by lia. f_equal. lia.
Qed.

(** ** What the service sees *)

Lemma Dbs_Del_loop t (n : nat) : forall lo hi, window (td_seq t) lo hi -> lo + Z.of_nat n <= hi -> exists t',
  go_fold Dbs_Del_one t (seqZ lo (Z.of_nat n)) = Ret t' /\ window (td_seq t') (lo + Z.of_nat n) hi /\
  td_dropped t' = rev (maker <$> seqZ lo (Z.of_nat n)) ++ td_dropped t.
Proof.
  revert t. induction n as [|n IH]; intros t lo hi Hw Hn.
  { exists t. cbn. rewrite Z.add_0_r. done. }
  rewrite seqZ_cons by lia. replace (Z.pred (Z.of_nat (S n))) with (Z.of_nat n) by lia. cbn [go_fold]. unfold Dbs_Del_one at 2.
  rewrite (get_open _ lo hi) by (done || lia). rewrite go_bind_Ret. cbv zeta. destruct (del_first _ lo hi Hw ltac:(lia)) as (r' & -> & Hw'). rewrite !go_bind_Ret.
  destruct (IH (mkDbs (td_min t) r' (maker lo :: td_dropped t)) (lo + 1) hi Hw' ltac:(lia)) as (t' & Hf & Hw2 & Hd).
  exists t'. split; [exact Hf|]. split; [by replace (lo + Z.of_nat (S n)) with (lo + 1 + Z.of_nat n) by lia|].
  rewrite Hd. cbn. rewrite <-app_assoc. done.
Qed.

(** The operations of the service: an epoch's tables, the removal of the past. *)
Inductive db_op := OpGet (ver : Z) | OpDel (ver : Z).

(** The window that they leave; [None] is the far future. *)
Definition op_window (w : Z * Z) (o : db_op) : option (Z * Z) :=
  let '(lo, hi) := w in
  match o with
  | OpGet v => if v <? lo then Some w else if lo =? hi then Some (v, v + 1)
               else if v <? hi then Some w else if (v =? hi) && (hi <? lo + 5) then Some (lo, hi + 1) else None
  | OpDel v => if v <? lo then Some w else if v <? hi then Some (v + 1, hi) else None
  end.

Definition run_op t (o : db_op) : go (option P * Dbs P) :=
  match o with OpGet v => Dbs_Get maker t v | OpDel v => t ← Dbs_Del t v; Ret (None, t) end.

Fixpoint run_ops t (ops : list db_op) : go (list (option P) * Dbs P) :=
  match ops with
  | [] => Ret ([], t)
  | o :: ops => '(r, t) ← run_op t o; '(rs, t) ← run_ops t ops; Ret (r :: rs, t)
  end.

(** What they return and what they drop. *)
Fixpoint ops_spec (w : Z * Z) (ops : list db_op) : option (list (option P) * list P * (Z * Z)) :=
  match ops with
  | [] => Some ([], [], w)
  | o :: ops =>
      w' ← op_window w o;
      '(rs, ds, w'') ← ops_spec w' ops;
      let r := match o with OpGet v => if v <? w.1 then None else Some (maker v) | OpDel _ => None end in
      let d := match o with OpGet _ => [] | OpDel v => maker <$> seqZ w.1 (v - w.1 + 1) end in
      Some (r :: rs, d ++ ds, w'')
  end.

Lemma op_step t lo hi (o : db_op) u : window (td_seq t) lo hi -> u.2 < 2 ^ 63 - 1 -> op_window (lo, hi) o = Some u -> exists t1,
  run_op t o = Ret (match o with OpGet v => if v <? lo then None else Some (maker v) | OpDel _ => None end, t1) /\
  window (td_seq t1) u.1 u.2 /\ td_dropped t1 = rev (match o with OpGet _ => [] | OpDel v => maker <$> seqZ lo (v - lo + 1) end) ++ td_dropped t.
Proof.
  intros Hw Hb Eo. pose proof (wd_range _ _ _ Hw) as Hr. destruct o as [v|v]; cbn [run_op op_window] in *.
  - unfold Dbs_Get. rewrite (wd_min _ _ _ Hw). destruct (Z.ltb_spec v lo) as [Hv|Hv]; [injection Eo as <-; by exists t|].
    destruct (Z.eqb_spec lo hi) as [->|Hlt].
    { injection Eo as <-. cbn [fst snd] in *. rewrite (get_closed _ hi hi) by (done || lia). rewrite go_bind_Ret.
      destruct (set_next (td_seq t) hi hi v Hw) as (r' & -> & Hw'); [rewrite decide_True by done; lia|]. rewrite decide_True in Hw' by done.
      rewrite go_bind_Ret. eexists. split; [reflexivity|]. done. }
    destruct (Z.ltb_spec v hi) as [Hv'|Hv'].
    + injection Eo as <-. rewrite (get_open _ lo hi) by (done || lia). rewrite go_bind_Ret. by exists t.
    + destruct ((v =? hi) && (hi <? lo + 5)) eqn:Ev; [|done]. injection Eo as <-. apply andb_true_iff in Ev as [->%Z.eqb_eq H5%Z.ltb_lt]. cbn [fst snd] in *.
      rewrite (get_closed _ lo hi) by (done || lia). rewrite go_bind_Ret.
      destruct (set_next (td_seq t) lo hi hi Hw) as (r' & -> & Hw'); [rewrite decide_False by lia; lia|]. rewrite decide_False in Hw' by lia.
      rewrite go_bind_Ret. eexists. split; [reflexivity|]. done.
  - unfold Dbs_Del. rewrite (wd_min _ _ _ Hw). destruct (Z.ltb_spec v lo) as [Hv|Hv].
    + injection Eo as <-. exists t. rewrite go_bind_Ret. split_and!; try done. by rewrite seqZ_nil by lia.
    + destruct (Z.ltb_spec v hi); [|done]. injection Eo as <-.
      destruct (Dbs_Del_loop t (Z.to_nat (v - lo + 1)) lo hi Hw ltac:(lia)) as (t1 & Hf & Hw1 & Hd1). rewrite Z2Nat.id in Hf, Hw1, Hd1 by lia.
      rewrite Hf, !go_bind_Ret. eexists. split; [reflexivity|]. cbn. replace (v + 1) with (lo + (v - lo + 1)) by lia. done.
Qed.

(** The databases of the epochs form a moving window.  As long as a new
    epoch is the next one, or no epoch is open, and at most five are open, no
    operation panics: an epoch before the window has no tables, one within it
    always has the same ones, opened at the first use; removing an epoch closes
    and drops it and all before it, each database once and in the order of
    their epochs. *)
Theorem epoch_dbs_window (ops : list db_op) : forall (t : Dbs P) (w : Z * Z) (rs : list (option P)) (ds : list P) (w' : Z * Z),
  window (td_seq t) w.1 w.2 -> w'.2 < 2 ^ 63 - 1 -> ops_spec w ops = Some (rs, ds, w') -> exists t',
  run_ops t ops = Ret (rs, t') /\ window (td_seq t') w'.1 w'.2 /\ td_dropped t' = rev ds ++ td_dropped t.
Proof.
  assert (forall os u u' rs ds, ops_spec u os = Some (rs, ds, u') -> u.2 <= u'.2) as Hmono.
  { induction os as [|o os IH]; intros [lo hi] u' rs ds Hs; cbn [ops_spec] in Hs; [by injection Hs as <- <- <-|].
    destruct (op_window (lo, hi) o) as [u1|] eqn:Eo; [|done]. cbn [mbind option_bind] in Hs. destruct (ops_spec u1 os) as [[[rs1 ds1] u2]|] eqn:Es; [|done].
    cbn in Hs. injection Hs as <- <- <-. pose proof (IH _ _ _ _ Es). cbn. unfold op_window in Eo. destruct o; repeat case_match; simplify_eq; cbn in *; lia. }
  induction ops as [|o ops IH]; intros t [lo hi] rs ds w' Hw Hb Hs; cbn [ops_spec] in Hs.
  { injection Hs as <- <- <-. by exists t. }
  destruct (op_window (lo, hi) o) as [u1|] eqn:Eo; [|done]. cbn [mbind option_bind] in Hs. destruct (ops_spec u1 ops) as [[[rs1 ds1] u2]|] eqn:Es; [|done].
  cbn in Hs. injection Hs as <- <- <-. pose proof (Hmono _ _ _ _ _ Es) as Hm. cbn [fst snd] in *.
  destruct (op_step t lo hi o u1 Hw) as (t1 & E1 & Hw1 & Hd1); [lia|done|].
  destruct (IH t1 u1 rs1 ds1 u2 Hw1 Hb Es) as (t' & E' & Hw' & Hd'). exists t'. cbn [run_ops]. rewrite E1, go_bind_Ret, E', go_bind_Ret.
  split; [done|]. split; [done|]. by rewrite Hd', Hd1, rev_app_distr, app_assoc.
Qed.

(** What is beyond the window has no tables, only a panic. *)
Lemma Dbs_Get_refused t lo hi ver : window (td_seq t) lo hi -> 0 <= ver < 2 ^ 63 -> op_window (lo, hi) (OpGet ver) = None ->
  exists msg, Dbs_Get maker t ver = Fault (PanicMsg msg).
Proof.
  intros Hw Hv Ho. pose proof (wd_range _ _ _ Hw) as Hrange. cbn [op_window] in Ho.
  destruct (Z.ltb_spec ver lo) as [|Hlo]; [done|]. destruct (Z.eqb_spec lo hi) as [|Hne]; [done|]. destruct (Z.ltb_spec ver hi) as [|Hhi]; [done|].
  unfold Dbs_Get. rewrite (wd_min _ _ _ Hw), (proj2 (Z.ltb_ge _ _) Hlo). rewrite (get_closed _ lo hi) by (done || lia). rewrite go_bind_Ret.
  destruct (set_refused _ lo hi ver Hw) as [msg ->]; [lia|lia| |by exists msg].
  intros ->. rewrite Z.eqb_refl in Ho. destruct (Z.ltb_spec hi (lo + 5)); [done|lia].
Qed.

Lemma far_epoch_panics t lo hi ver : window (td_seq t) lo hi -> lo < hi -> hi < ver < 2 ^ 63 -> exists msg, Dbs_Get maker t ver = Fault (PanicMsg msg).
Proof.
  intros Hw Hlt Hv. pose proof (wd_range _ _ _ Hw) as Hrange. apply (Dbs_Get_refused t lo hi); [done|lia|]. cbn [op_window].
  rewrite (proj2 (Z.ltb_ge _ _)), (proj2 (Z.eqb_neq _ _)), (proj2 (Z.ltb_ge _ _)), (proj2 (Z.eqb_neq _ _)) by lia. done.
Qed.

(** The first use opens the window. *)
Lemma first_epoch saved ver : 0 <= default 0 saved <= ver -> ver < 2 ^ 63 - 1 -> exists t,
  Dbs_Get maker (NewDbs saved) ver = Ret (Some (maker ver), t) /\ window (td_seq t) ver (ver + 1).
Proof.
  intros Hs Hv. assert (window (empty_ring (P := P) (default 0 saved)) (default 0 saved) (default 0 saved)) as Hw.
  { split; cbn; try done; try lia. }
  unfold Dbs_Get. cbn [td_seq NewDbs rb_Min empty_ring]. destruct (Z.ltb_spec ver (default 0 saved)); [lia|].
  change (mkRingbuf (default 0 saved) 0 0 (replicate 5 None)) with (empty_ring (P := P) (default 0 saved)).
  rewrite (get_closed _ _ _ _ Hw) by lia. rewrite go_bind_Ret.
  destruct (set_next _ _ _ ver Hw) as (r' & Hset & Hw'); [rewrite decide_True by done; lia|]. rewrite decide_True in Hw' by done.
  rewrite Hset, go_bind_Ret. by eexists.
Qed.
End window.

(** A service that started in epoch 1, sealed it and went on. *)
Definition one_epoch : Dbs Z := mkDbs None (mkRingbuf 1 0 1 [Some 1; None; None; None; None]) [].

Lemma one_epoch_window : window id (td_seq one_epoch) 1 2.
Proof.
  split; cbn; try done; try lia. intros i Hi. assert (i = 1) as -> by lia. done.
Qed.

Lemma epoch_dbs_window_witness : exists t', run_ops id one_epoch [OpGet 1; OpDel 1; OpGet 2; OpGet 1; OpGet 2; OpGet 3] = Ret ([Some 1; None; Some 2; None; Some 2; Some 3], t') /\
  window id (td_seq t') 2 4 /\ td_dropped t' = [1].
Proof.
  exact (epoch_dbs_window id [OpGet 1; OpDel 1; OpGet 2; OpGet 1; OpGet 2; OpGet 3] one_epoch (1, 2) [Some 1; None; Some 2; None; Some 2; Some 3] [1] (2, 4)
           one_epoch_window eq_refl eq_refl).
Defined.
