(* ===== verification/Gossip.v ===== *)
(** * The gossip service behind the consensus: gossip/

    consensus_callbacks.go, gas_refunds.go, sfc_index.go, pack.go and the
    tables of the store: what the service does with each connected event and
    with each decided block.  The application is [App]; the engine is a
    parameter of [processEvent].  The feeds, the tracing, the indexes for the
    RPC and the signature caches are left out; the LRU caches of the store
    hold objects that nobody changes and are left out too. *)

From S2P Require Import Prelude Bytes Pos Event VecStore EventCheck EventBuffer OccurredTxs SfcStore Sfc StateTransition App TempDbs.

(** ** The tables *)

Record GEvent := mkGEvent { ge_header : EventHeaderData; ge_txs : list EthTx }.

(** One epoch: store_epoch.go, store_heads.go *)
Record EpochStore := mkEpochStore { es_Headers : gmap hash EventHeaderData; es_Tips : gmap Z hash; es_Heads : gset hash }.
Definition empty_epoch : EpochStore := mkEpochStore ∅ ∅ ∅.

Record PackInfo := mkPackInfo { pi_Index : Z; pi_Size : Z; pi_NumOfEvents : Z; pi_Heads : list hash }.

Record GStore := mkGStore {
  gs_Events : gmap hash GEvent;
  gs_EpochDbs : Dbs Z;                      (* the open epochs, by their number *)
  gs_epochs : gmap Z EpochStore;            (* the contents of their databases *)
  gs_LastHeaders : gmap (Z * Z) EventHeaderData;
  gs_Refunds : gmap (Z * Z) Z;
  gs_EpochStats : gmap Z EpochStats;
  gs_Blocks : gmap Z Block;
  gs_BlockHashes : gmap hash Z;
  gs_TxPositions : gmap hash TxPosition;
  gs_PackInfos : gmap (Z * Z) PackInfo;
  gs_Packs : gmap (Z * Z) (gset hash);
  gs_PacksNum : gmap Z Z
}.

Section updates.
Implicit Types g : GStore.
Definition set_Events g x := mkGStore x (gs_EpochDbs g) (gs_epochs g) (gs_LastHeaders g) (gs_Refunds g) (gs_EpochStats g) (gs_Blocks g) (gs_BlockHashes g) (gs_TxPositions g) (gs_PackInfos g) (gs_Packs g) (gs_PacksNum g).
Definition set_EpochDbs g x := mkGStore (gs_Events g) x (gs_epochs g) (gs_LastHeaders g) (gs_Refunds g) (gs_EpochStats g) (gs_Blocks g) (gs_BlockHashes g) (gs_TxPositions g) (gs_PackInfos g) (gs_Packs g) (gs_PacksNum g).
Definition set_epochs g x := mkGStore (gs_Events g) (gs_EpochDbs g) x (gs_LastHeaders g) (gs_Refunds g) (gs_EpochStats g) (gs_Blocks g) (gs_BlockHashes g) (gs_TxPositions g) (gs_PackInfos g) (gs_Packs g) (gs_PacksNum g).
Definition set_LastHeaders g x := mkGStore (gs_Events g) (gs_EpochDbs g) (gs_epochs g) x (gs_Refunds g) (gs_EpochStats g) (gs_Blocks g) (gs_BlockHashes g) (gs_TxPositions g) (gs_PackInfos g) (gs_Packs g) (gs_PacksNum g).
Definition set_Refunds g x := mkGStore (gs_Events g) (gs_EpochDbs g) (gs_epochs g) (gs_LastHeaders g) x (gs_EpochStats g) (gs_Blocks g) (gs_BlockHashes g) (gs_TxPositions g) (gs_PackInfos g) (gs_Packs g) (gs_PacksNum g).
Definition set_EpochStats g x := mkGStore (gs_Events g) (gs_EpochDbs g) (gs_epochs g) (gs_LastHeaders g) (gs_Refunds g) x (gs_Blocks g) (gs_BlockHashes g) (gs_TxPositions g) (gs_PackInfos g) (gs_Packs g) (gs_PacksNum g).
Definition set_Blocks g x y := mkGStore (gs_Events g) (gs_EpochDbs g) (gs_epochs g) (gs_LastHeaders g) (gs_Refunds g) (gs_EpochStats g) x y (gs_TxPositions g) (gs_PackInfos g) (gs_Packs g) (gs_PacksNum g).
Definition set_TxPositions g x := mkGStore (gs_Events g) (gs_EpochDbs g) (gs_epochs g) (gs_LastHeaders g) (gs_Refunds g) (gs_EpochStats g) (gs_Blocks g) (gs_BlockHashes g) x (gs_PackInfos g) (gs_Packs g) (gs_PacksNum g).
Definition set_PackTables g x y z := mkGStore (gs_Events g) (gs_EpochDbs g) (gs_epochs g) (gs_LastHeaders g) (gs_Refunds g) (gs_EpochStats g) (gs_Blocks g) (gs_BlockHashes g) (gs_TxPositions g) x y z.
End updates.

Section store.
Context (event_Hash : EventHeaderData -> hash).
Implicit Types (g : GStore) (e : GEvent).

(** [getEpochStore]: the number of the database, opened when it is new. *)
Definition getEpochStore g (epoch : Z) : go (option Z * GStore) :=
  '(r, dbs) ← Dbs_Get id (gs_EpochDbs g) epoch; Ret (r, set_EpochDbs g dbs).

Definition epoch_tables g (db : Z) : EpochStore := default empty_epoch (gs_epochs g !! db).

(** An operation on the tables of an epoch; nothing without them. *)
Definition in_epoch g (epoch : Z) (f : EpochStore -> EpochStore) : go GStore :=
  '(r, g) ← getEpochStore g epoch;
  match r with
  | None => Ret g
  | Some db => Ret (set_epochs g (<[db := f (epoch_tables g db)]> (gs_epochs g)))
  end.

Definition delEpochStore g (epoch : Z) : go GStore :=
  let was := td_dropped (gs_EpochDbs g) in
  dbs ← Dbs_Del (gs_EpochDbs g) epoch;
  let dropped := take (length (td_dropped dbs) - length was) (td_dropped dbs) in
  Ret (set_epochs (set_EpochDbs g dbs) (foldl (fun t db => delete db t) (gs_epochs g) dropped)).

Definition SetLastEvent g (epoch from : Z) (h : hash) : go GStore :=
  in_epoch g epoch (fun es => mkEpochStore (es_Headers es) (<[from := h]> (es_Tips es)) (es_Heads es)).
Definition SetEventHeader g (epoch : Z) (h : hash) (header : EventHeaderData) : go GStore :=
  in_epoch g epoch (fun es => mkEpochStore (<[h := header]> (es_Headers es)) (es_Tips es) (es_Heads es)).
Definition DelEventHeader g (epoch : Z) (h : hash) : go GStore :=
  in_epoch g epoch (fun es => mkEpochStore (delete h (es_Headers es)) (es_Tips es) (es_Heads es)).
Definition DelHead g (epoch : Z) (h : hash) : go GStore :=
  in_epoch g epoch (fun es => mkEpochStore (es_Headers es) (es_Tips es) (es_Heads es ∖ {[h]})).
Definition AddHead g (epoch : Z) (h : hash) : go GStore :=
  in_epoch g epoch (fun es => mkEpochStore (es_Headers es) (es_Tips es) (es_Heads es ∪ {[h]})).

(** A reader of the tables of an epoch. *)
Definition from_epoch {X} g (epoch : Z) (none : X) (f : EpochStore -> X) : go (X * GStore) :=
  '(r, g) ← getEpochStore g epoch;
  Ret (match r with None => none | Some db => f (epoch_tables g db) end, g).

Definition GetLastEvent g (epoch from : Z) : go (option hash * GStore) := from_epoch g epoch None (fun es => es_Tips es !! from).
Definition GetEventHeader g (epoch : Z) (h : hash) : go (option EventHeaderData * GStore) := from_epoch g epoch None (fun es => es_Headers es !! h).
Definition HasEventHeader g (h : hash) : go (bool * GStore) :=
  epoch ← hash_Epoch h; from_epoch g epoch false (fun es => bool_decide (is_Some (es_Headers es !! h))).
Definition GetHeads g (epoch : Z) : go (list hash * GStore) := from_epoch g epoch [] (fun es => merge_sort bytes_le (elements (es_Heads es))).

Definition SetEvent g e : go GStore :=
  let h := event_Hash (ge_header e) in
  SetEventHeader (set_Events g (<[h := e]> (gs_Events g))) (Epoch (ge_header e)) h (ge_header e).
Definition DeleteEvent g (epoch : Z) (h : hash) : go GStore :=
  DelEventHeader (set_Events g (delete h (gs_Events g))) epoch h.

Definition GetEvent g (h : hash) : option GEvent := gs_Events g !! h.
Definition HasEvent g (h : hash) : bool := bool_decide (is_Some (gs_Events g !! h)).

(** The events whose hash starts with a prefix, in the order of their hashes. *)
Definition events_with_prefix g (prefix : bytes) : list hash :=
  merge_sort bytes_le (filter (fun h => take (length prefix) h = prefix) (map_to_list (gs_Events g)).*1).
Definition FindEventHashes g (epoch lamport : Z) (hashPrefix : bytes) : list hash :=
  events_with_prefix g (Epoch_Bytes epoch ++ Lamport_Bytes lamport ++ hashPrefix).
(** Until the callback says stop; its state is [st]. *)
Definition ForEachEvent {T} g (epoch : Z) (onEvent : T -> GEvent -> bool * T) (st : T) : T :=
  (fix go (l : list hash) (st : T) : T :=
     match l with
     | [] => st
     | h :: l => match gs_Events g !! h with
                 | Some e => let '(more, st) := onEvent st e in if more : bool then go l st else st
                 | None => go l st
                 end
     end) (events_with_prefix g (Epoch_Bytes epoch)) st.

(** store_heads.go *)
Definition IsHead g (epoch : Z) (h : hash) : go (bool * GStore) := from_epoch g epoch false (fun es => bool_decide (h ∈ es_Heads es)).

(** store_epoch_stats.go *)
Definition pendingEpoch : Z := 4294967293.
Definition GetDirtyEpochStats g : option EpochStats := gs_EpochStats g !! pendingEpoch.
Definition GetEpochStats g (epoch : Z) : option EpochStats := gs_EpochStats g !! epoch.
Definition SetEpochStats g (epoch : Z) (s : EpochStats) : GStore := set_EpochStats g (<[epoch := s]> (gs_EpochStats g)).
Definition SetDirtyEpochStats g (s : EpochStats) : GStore := SetEpochStats g pendingEpoch s.

(** store_refund.go *)
Definition GetGasPowerRefund g (epoch stakerID : Z) : Z := default 0 (gs_Refunds g !! (epoch, stakerID)).
Definition SetGasPowerRefund g (epoch stakerID refund : Z) : GStore := set_Refunds g (<[(epoch, stakerID) := refund]> (gs_Refunds g)).
Definition IncGasPowerRefund g (epoch stakerID diff : Z) : GStore :=
  if diff =? 0 then g else SetGasPowerRefund g epoch stakerID (u64 (GetGasPowerRefund g epoch stakerID + diff)).
Definition DelGasPowerRefunds g (epoch : Z) : GStore := set_Refunds g (filter (fun kv => kv.1.1 <> epoch) (gs_Refunds g)).
Definition GetGasPowerRefunds g (epoch : Z) : gmap Z Z := SfcStore.with_epoch (gs_Refunds g) epoch.

(** store_last_headers.go *)
Definition DelLastHeader g (epoch creator : Z) : GStore := set_LastHeaders g (delete (epoch, creator) (gs_LastHeaders g)).
Definition DelLastHeaders g (epoch : Z) : GStore := set_LastHeaders g (filter (fun kv => kv.1.1 <> epoch) (gs_LastHeaders g)).
Definition AddLastHeader g (epoch : Z) (header : EventHeaderData) : GStore := set_LastHeaders g (<[(epoch, Creator header) := header]> (gs_LastHeaders g)).
Definition GetLastHeaders g (epoch : Z) : gmap Z EventHeaderData := SfcStore.with_epoch (gs_LastHeaders g) epoch.

(** store_block.go *)
Definition SetBlock g (b : Block) : GStore := set_Blocks g (<[bl_Index b := b]> (gs_Blocks g)) (gs_BlockHashes g).
Definition SetBlockIndex g (h : hash) (n : Z) : GStore := set_Blocks g (gs_Blocks g) (<[h := n]> (gs_BlockHashes g)).
Definition GetBlock g (n : Z) : option Block := gs_Blocks g !! n.
Definition GetBlockIndex g (h : hash) : option Z := gs_BlockHashes g !! h.
(** The index is not checked. *)
Definition GetBlockByHash g (h : hash) : go (option Block) :=
  match GetBlockIndex g h with Some n => Ret (GetBlock g n) | None => Fault NilDereference end.

(** store_tx_position.go *)
Definition SetTxPosition g (txid : hash) (p : TxPosition) : GStore := set_TxPositions g (<[txid := p]> (gs_TxPositions g)).
Definition GetTxPosition g (txid : hash) : option TxPosition := gs_TxPositions g !! txid.

(** handler.go: the events a peer announces; their epochs are what the peer
    wrote. *)
Definition onlyNotConnectedEvents g (ids : list hash) : go (list hash * GStore) :=
  go_fold (fun (st : list hash * GStore) h =>
    '(known, g) ← HasEventHeader st.2 h;
    Ret ((if known : bool then st.1 else st.1 ++ [h]), g)) ([], g) ids.

(** The events worth fetching: of the epoch of the engine, neither waiting for
    their parents nor connected. *)
Definition onlyInterestedEvents g (engineEpoch : Z) (isBuffered : hash -> bool) (ids : list hash) : go (list hash * GStore) :=
  go_fold (fun (st : list hash * GStore) h =>
    epoch ← hash_Epoch h;
    if negb (epoch =? engineEpoch) then Ret st
    else if isBuffered h then Ret st
    else '(known, g) ← HasEventHeader st.2 h; Ret ((if known : bool then st.1 else st.1 ++ [h]), g)) ([], g) ids.
End store.

(** ** pack.go, store_pack.go *)

Section packs.
Context (event_Hash : EventHeaderData -> hash) (event_Size : GEvent -> Z).
Implicit Types (g : GStore) (e : GEvent).

Definition softLimitItems : Z := 250.
Definition softResponseLimitSize : Z := 2 * 1024 * 1024.
Definition maxPackSize : Z := softResponseLimitSize.
Definition maxPackEventsNum : Z := softLimitItems.

Definition GetPacksNum g (epoch : Z) : option Z := gs_PacksNum g !! epoch.
Definition GetPacksNumOrDefault g (epoch : Z) : Z := default 1 (GetPacksNum g epoch).
Definition SetPacksNum g (epoch num : Z) : GStore := set_PackTables g (gs_PackInfos g) (gs_Packs g) (<[epoch := num]> (gs_PacksNum g)).
Definition GetPackInfo g (epoch idx : Z) : option PackInfo := gs_PackInfos g !! (epoch, idx).
Definition GetPackInfoOrDefault g (epoch idx : Z) : PackInfo := default (mkPackInfo idx 0 0 []) (GetPackInfo g epoch idx).
Definition SetPackInfo g (epoch idx : Z) (v : PackInfo) : GStore :=
  set_PackTables g (<[(epoch, idx) := v]> (gs_PackInfos g)) (gs_Packs g) (gs_PacksNum g).
Definition GetPack g (epoch idx : Z) : gset hash := default ∅ (gs_Packs g !! (epoch, idx)).
Definition AddToPack g (epoch idx : Z) (h : hash) : GStore :=
  set_PackTables g (gs_PackInfos g) (<[(epoch, idx) := GetPack g epoch idx ∪ {[h]}]> (gs_Packs g)) (gs_PacksNum g).

(** [engineEpoch] is [s.engine.GetEpoch()]. *)
Definition packsOnNewEvent (engineEpoch : Z) g e (epoch : Z) : go GStore :=
  let packIdx := GetPacksNumOrDefault g epoch in
  let packInfo := GetPackInfoOrDefault g engineEpoch packIdx in
  let g := AddToPack g epoch packIdx (event_Hash (ge_header e)) in
  let num := u32 (pi_NumOfEvents packInfo + 1) in
  let size := u32 (pi_Size packInfo + u32 (event_Size e)) in
  if (maxPackEventsNum <=? num) || (maxPackSize <=? size) then
    '(heads, g) ← GetHeads g epoch;
    Ret (SetPackInfo (SetPacksNum g epoch (u32 (packIdx + 1))) epoch packIdx (mkPackInfo packIdx size num heads))
  else Ret (SetPackInfo g epoch packIdx (mkPackInfo packIdx size num (pi_Heads packInfo))).

Definition packsOnNewEpoch (engineEpoch : Z) g (oldEpoch : Z) : go GStore :=
  let packIdx := GetPacksNumOrDefault g oldEpoch in
  let packInfo := GetPackInfoOrDefault g engineEpoch packIdx in
  '(heads, g) ← GetHeads g oldEpoch;
  Ret (SetPacksNum (SetPackInfo g oldEpoch packIdx (mkPackInfo (pi_Index packInfo) (pi_Size packInfo) (pi_NumOfEvents packInfo) heads))
         oldEpoch (u32 (packIdx + 1))).
End packs.

(** ** consensus_callbacks.go, gas_refunds.go, sfc_index.go *)

(** The rules of the network that the service reads. *)
Record ServiceConfig := mkServiceConfig { BlockGasHardLimit : Z; cfg_dag : DagConfig; cfg_economy : EconomyConfig; cfg_indexes : AppIndexes; TxIndexing : bool }.

Record Service (S D B R : Type) := mkService {
  sv_store : GStore;
  sv_app : AppStore S D B;
  sv_appEpoch : Z;
  sv_occurred : R;
  sv_participated : gset Z
}.
Arguments mkService {S D B R} _ _ _ _ _.
Arguments sv_store {S D B R} _.
Arguments sv_app {S D B R} _.
Arguments sv_appEpoch {S D B R} _.
Arguments sv_occurred {S D B R} _.
Arguments sv_participated {S D B R} _.

Section service.
Context (hash_Of : list bytes -> hash) (ContractAddress : bytes) (eth : EthParams) (Ether : Z) (config : ServiceConfig).
Context (event_Hash : EventHeaderData -> hash) (event_Size : GEvent -> Z) (DeriveSha : list EthTx -> hash).
Context {S D B PS PD : Type} `{ObjStore Z SfcStaker PS S} `{ObjStore bytes SfcDelegator PD D} `{Lru Z BlocksMissed B}.
Context {E : Type} `{EvmState E} (Sender : EthTx -> option bytes) (Cost : EthTx -> Z) (StateDB_open : hash -> E) (Commit : E -> hash).
Context {C : Type} `{LruEvict hash bytes C}.
Abbreviation Ring := (OccurredTxs.buffer (A := bytes) (C := C)).
Abbreviation Svc := (Service S D B Ring).
Implicit Types (s : Svc) (e : GEvent) (g : GStore).

Definition with_gstore s g : Svc := mkService g (sv_app s) (sv_appEpoch s) (sv_occurred s) (sv_participated s).

(** [spillBlockEvents]: from the last event back, as long as the limit of gas
    is kept; [rest] are the events before, in reverse order. *)
Fixpoint spill (limit sum : Z) (events : gmap hash GEvent) (rest : list hash) (kept : list hash) (full : list GEvent) : go (list hash * list GEvent) :=
  match rest with
  | [] => Ret (kept, full)
  | h :: rest =>
      match events !! h with
      | None => Fault (Crit "Event not found")
      | Some e =>
          let sum := u64 (sum + GasPowerUsed (ge_header e)) in
          if sum >? limit then Ret (kept, full) else spill limit sum events rest (h :: kept) (e :: full)
      end
  end.

Definition with_events (b : Block) (events : list hash) : Block :=
  mkBlock (bl_Index b) (bl_Time b) (bl_TxHash b) events (bl_SkippedTxs b) (bl_GasUsed b) (bl_PrevHash b) (bl_Root b) (bl_Atropos b).

Definition spillBlockEvents g (block : Block) : go (Block * list GEvent) :=
  '(kept, full) ← spill (BlockGasHardLimit config) 0 (gs_Events g) (reverse (bl_Events block)) [] [];
  Ret (with_events block kept, full).

(** The events are returned twice over: the loop appends to the slice it
    ranges over. *)
Definition assembleEvmBlock g (block : Block) : go (Block * EvmBlock * list GEvent) :=
  if negb (bool_decide (bl_SkippedTxs block = [])) then Fault (Crit "Building with SkippedTxs isn't supported")
  else
    '(block, events) ← spillBlockEvents g block;
    Ret (block, mkEvmBlock MaxUint64 (bl_Atropos block) (mjoin (ge_txs <$> events)), events ++ events).

(** The transactions of one event; the first event that has one keeps it. *)
Definition indexTx (e : GEvent) (positions : gmap hash TxPosition) (it : nat * EthTx) : gmap hash TxPosition :=
  match positions !! et_Hash it.2 with
  | Some _ => positions
  | None => <[et_Hash it.2 := mkTxPosition 0 (event_Hash (ge_header e)) (Creator (ge_header e)) (u32 (Z.of_nat it.1)) 0]> positions
  end.
Definition indexTxs (events : list GEvent) : gmap hash TxPosition :=
  foldl (fun positions e => foldl (indexTx e) positions (imap pair (ge_txs e))) ∅ events.

(** The positions in the block. *)
Definition placeTx (blockIndex : Z) (positions : gmap hash TxPosition) (it : nat * EthTx) : gmap hash TxPosition :=
  let p := default (mkTxPosition 0 ZeroHash 0 0 0) (positions !! et_Hash it.2) in
  <[et_Hash it.2 := mkTxPosition blockIndex (tp_Event p) (tp_Creator p) (tp_EventOffset p) (u32 (Z.of_nat it.1))]> positions.

Definition minGasPowerRefund : Z := 800.

Definition refundTx (epoch : Z) (receipts : list Receipt) (positions : gmap hash TxPosition) (st : Z * GStore) (tx : EthTx) : go (Z * GStore) :=
  let '(i, g) := st in
  r ← slice_at receipts i;
  let creator := match positions !! r_TxHash r with Some pos => tp_Creator pos | None => 0 end in
  if tx_Gas (et_tx tx) <? r_GasUsed r then Fault (Crit "Transaction gas used is higher than tx gas limit")
  else
    let notUsedGas := tx_Gas (et_tx tx) - r_GasUsed r in
    Ret (i + 1, if minGasPowerRefund <=? notUsedGas then IncGasPowerRefund g epoch creator notUsedGas else g).

Definition incGasPowerRefund g (epoch : Z) (txs : list EthTx) (receipts : list Receipt) (positions : gmap hash TxPosition) (sealEpoch : bool) : go GStore :=
  '(_, g) ← go_fold (refundTx epoch receipts positions) (0, g) txs;
  Ret (if sealEpoch then DelGasPowerRefunds g (u32 (epoch - 1)) else g).

Definition updateEpochStats g (epoch blockTime blockFee : Z) (sealEpoch : bool) : go (EpochStats * GStore) :=
  match GetDirtyEpochStats g with
  | None => Fault NilDereference
  | Some stats =>
      let fee := TotalFee stats + blockFee in
      if sealEpoch then
        let stats := mkEpochStats (Start stats) blockTime fee in
        Ret (stats, SetDirtyEpochStats (SetEpochStats g epoch stats) (mkEpochStats blockTime 0 0))
      else
        let stats := mkEpochStats (Start stats) (End_ stats) fee in
        Ret (stats, SetDirtyEpochStats g stats)
  end.

Definition onEpochSealed g (epoch : Z) (cheaters : list Z) : GStore :=
  DelLastHeaders (foldl (fun g id => DelLastHeader g epoch id) g cheaters) (u32 (epoch - 1)).

(** [legacyShouldSealEpoch] *)
Definition legacyShouldSealEpoch g (block : Block) (decidedFrame : Z) (cheaters : list Z) : go bool :=
  match GetDirtyEpochStats g with
  | None => Fault NilDereference
  | Some stats =>
      Ret ((MaxEpochBlocks (cfg_dag config) <=? decidedFrame) ||
           (u64 (MaxEpochDuration (cfg_dag config)) <=? u64 (bl_Time block - Start stats)) || (0 <? zlen cheaters))
  end.

Definition fill_block (b : Block) (txHash : hash) (skipped : list Z) (gasUsed : Z) (root : hash) : Block :=
  mkBlock (bl_Index b) (bl_Time b) txHash (bl_Events b) skipped gasUsed (bl_PrevHash b) root (bl_Atropos b).

Record Applied := mkApplied { ap_block : Block; ap_txs : list EthTx; ap_receipts : list Receipt; ap_positions : gmap hash TxPosition; ap_seal : bool }.

(** [epoch] is the epoch of the engine. *)
Definition applyNewState s (epoch : Z) (block : Block) (cheaters : list Z) : go (Applied * Svc) :=
  '(block, evmBlock, blockEvents) ← assembleEvmBlock (sv_store s) block;
  let positions := indexTxs blockEvents in
  match GetBlock (sv_store s) (u64 (bl_Index block - 1)) with
  | None => Fault NilDereference
  | Some prev =>
      let ab := mkAppBlock (bl_Index block) (bl_Time block) (bl_Atropos block) [] 0 in
      let '(a, ctx) := BeginBlock (cfg_dag config) StateDB_open (sv_app s) ab cheaters (bl_Root prev) in
      '(ab, evmBlock, receipts, ctx) ← DeliverTxs hash_Of eth Sender Cost ctx ab evmBlock;
      let txs := eb_Transactions evmBlock in
      let positions := foldl (placeTx (bl_Index block)) positions (imap pair txs) in
      g ← incGasPowerRefund (sv_store s) epoch txs receipts positions (ctx_sealEpoch ctx);
      '(stats, g) ← updateEpochStats g epoch (bl_Time block) (ctx_totalFee ctx) (ctx_sealEpoch ctx);
      '(root, appEpoch, a) ← EndBlock hash_Of ContractAddress (cfg_economy config) (cfg_indexes config) Sender Commit (sv_appEpoch s) ctx ab evmBlock
                               receipts cheaters stats positions (sv_participated s) a;
      let g := if ctx_sealEpoch ctx then onEpochSealed g epoch cheaters else g in
      Ret (mkApplied (fill_block block (DeriveSha txs) (ab_SkippedTxs ab) (ab_GasUsed ab) root) txs receipts positions (ctx_sealEpoch ctx),
           mkService g a appEpoch (sv_occurred s) (sv_participated s))
  end.

Definition applyBlock s (epoch : Z) (block : Block) (decidedFrame : Z) (cheaters : list Z) : go (hash * bool * Svc) :=
  legacySealEpoch ← legacyShouldSealEpoch (sv_store s) block decidedFrame cheaters;
  '(ap, s) ← applyNewState s epoch block cheaters;
  let legacySealEpoch := legacySealEpoch || EpochIsForceSealed hash_Of (ap_receipts ap) in
  if negb (eqb legacySealEpoch (ap_seal ap)) then Fault (PanicMsg "SealEpoch is not compatible with legacy")
  else
    let g := SetBlockIndex (SetBlock (sv_store s) (ap_block ap)) (bl_Atropos block) (bl_Index block) in
    let g := if TxIndexing config then
               foldl (fun g tx => match ap_positions ap !! et_Hash tx with
                                  | Some p => SetTxPosition g (et_Hash tx) p
                                  | None => SetTxPosition g (et_Hash tx) (mkTxPosition 0 ZeroHash 0 0 0) end) g (ap_txs ap)
             else g in
    Ret (bl_TxHash (ap_block ap), ap_seal ap, mkService g (sv_app s) (sv_appEpoch s) (sv_occurred s) ∅).

Definition selectValidatorsGroup s (newEpoch : Z) : Validators * Svc :=
  let '(vv, st) := os_GetSnap (a_Stakers (sv_app s)) newEpoch in
  let group := foldl (fun b (it : Z * PS) => builder_Set b it.1 (BalanceToStake Ether (CalcTotalStake (os_Read st it.2)))) ∅ vv in
  (Build group, mkService (sv_store s) (with_stakers (sv_app s) st) (sv_appEpoch s) (sv_occurred s) (sv_participated s)).

Context (EmptyTxHash : hash).

Definition onEventConfirmed s (header : EventHeaderData) (seqDepth : Z) : go Svc :=
  occurred ← (if negb (NoTransactions EmptyTxHash header) then
      match gs_Events (sv_store s) !! event_Hash header with
      | None => Fault NilDereference
      | Some e => Ret (CollectConfirmedTxs et_Hash (sv_occurred s) (ge_txs e))
      end
    else Ret (sv_occurred s));
  let g := if seqDepth =? 0 then AddLastHeader (sv_store s) (Epoch header) header else sv_store s in
  Ret (mkService g (sv_app s) (sv_appEpoch s) occurred (sv_participated s ∪ {[Creator header]})).

Definition isEventAllowedIntoBlock (header : EventHeaderData) (seqDepth : Z) : bool :=
  if NoTransactions EmptyTxHash header then false
  else if seqDepth >? MaxValidatorEventsInBlock (cfg_dag config) then false
  else true.

(** ** [processEvent] over an engine with state [X], which calls back *)

Context {X err err' : Type} (engine_ProcessEvent : X -> Svc -> EventHeaderData -> go (option err * X * Svc)) (engine_GetEpoch : X -> Z).
Context (TxSender : EthTx -> err' + bytes).

(** The heads of the epoch: the parents are no longer, the event is one. *)
Definition trackHeads (g : GStore) (header : EventHeaderData) : go GStore :=
  g ← go_fold (fun g parent => DelHead g (Epoch header) parent) g (Parents header);
  AddHead g (Epoch header) (event_Hash header).

(** What follows the engine, which moved on to the state [x]. *)
Definition connectEvent (x : X) s e : go Svc :=
  let header := ge_header e in
  let oldEpoch := Epoch header in
  let '(_, occurred) := CollectNotConfirmedTxs et_Hash TxSender (sv_occurred s) (ge_txs e) in
  g ← SetLastEvent (sv_store s) (Epoch header) (Creator header) (event_Hash header);
  g ← trackHeads g header;
  g ← packsOnNewEvent event_Hash event_Size (engine_GetEpoch x) g e (Epoch header);
  let newEpoch := engine_GetEpoch x in
  '(g, occurred) ← (if negb (newEpoch =? oldEpoch) then
      g ← packsOnNewEpoch (engine_GetEpoch x) g oldEpoch;
      g ← delEpochStore g oldEpoch;
      '(_, g) ← getEpochStore g newEpoch;
      Ret (g, ring_Clear occurred)
    else Ret (g, occurred));
  Ret (mkService g (sv_app s) (sv_appEpoch s) occurred (sv_participated s)).

(** [Some None] in the first place is [ErrAlreadyConnectedEvent]. *)
Definition processEvent (x : X) s e : go (option (option err) * X * Svc) :=
  let header := ge_header e in
  let h := event_Hash header in
  '(known, g) ← HasEventHeader (sv_store s) h;
  if known : bool then Ret (Some None, x, with_gstore s g)
  else
    g ← SetEvent event_Hash g e;
    '(failed, x, s) ← engine_ProcessEvent x (with_gstore s g) header;
    match failed with
    | Some err => g ← DeleteEvent (sv_store s) (Epoch header) h; Ret (Some (Some err), x, with_gstore s g)
    | None => s ← connectEvent x s e; Ret (None, x, s)
    end.
End service.
