(* ===== verification/GossipSpec.v ===== *)
(** * What the service guarantees for a block

    The events of a block are cut to the limit of gas from the oldest on; the
    application and the engine agree on when an epoch ends; and a peer can
    crash the service with the hash of an event of a far epoch. *)

From S2P Require Import Prelude Bytes Pos Event VecStore EventCheck EventBuffer OccurredTxs SfcStore Sfc StateTransition TransitionSpec App AppVoting TempDbs Gossip.

(** ** The events of a block *)

Section spill.
Context (config : ServiceConfig) (maxGas : Z) (gas_room : BlockGasHardLimit config + maxGas < 2 ^ 64) (limit_ok : 0 <= BlockGasHardLimit config).
Implicit Types (events : gmap hash GEvent).

Definition event_gas (e : GEvent) : Z := GasPowerUsed (ge_header e).
Definition gas_of (l : list GEvent) : Z := zsum (event_gas <$> l).

(** The event [h] is stored, with a gas that passed the checks. *)
Definition stored events (h : hash) : Prop := exists e, events !! h = Some e /\ 0 <= event_gas e <= maxGas.

Lemma spill_spec events (rest : list hash) : forall (sum : Z) (kept : list hash) (full : list GEvent),
  Forall (stored events) rest -> Forall2 (fun h e => events !! h = Some e) kept full -> sum = gas_of full -> 0 <= sum <= BlockGasHardLimit config ->
  exists dropped kept' full', spill (BlockGasHardLimit config) sum events rest kept full = Ret (kept', full') /\
  reverse rest ++ kept = dropped ++ kept' /\ Forall2 (fun h e => events !! h = Some e) kept' full' /\ gas_of full' <= BlockGasHardLimit config /\
  match last dropped with
  | None => True
  | Some h => exists e, events !! h = Some e /\ BlockGasHardLimit config < event_gas e + gas_of full'
  end.
Proof.
  induction rest as [|h rest IH]; intros sum kept full Hst Hk Hsum Hr; cbn [spill].
  { exists [], kept, full. subst sum. split_and!; try done; lia. }
  apply Forall_cons in Hst as [(e & He & Hg) Hst]. rewrite He. unfold event_gas in Hg. rewrite u64_id by (unfold is_u64; lia).
  destruct (Z.gtb_spec (sum + GasPowerUsed (ge_header e)) (BlockGasHardLimit config)) as [Hgt|Hle].
  - exists (reverse rest ++ [h]), kept, full. split; [done|]. rewrite reverse_cons, <-app_assoc. split_and!; try done; [lia|].
    rewrite last_snoc. exists e. split; [done|]. unfold event_gas. lia.
  - destruct (IH (sum + GasPowerUsed (ge_header e)) (h :: kept) (e :: full)) as (dropped & kept' & full' & Hf & Happ & Hk' & Hg' & Hl);
      [done|by constructor|unfold gas_of in *; cbn; unfold event_gas at 1; lia|lia|].
    exists dropped, kept', full'. split; [exact Hf|]. rewrite reverse_cons, <-app_assoc. done.
Qed.

(** The events of a block are cut to its limit of gas from the oldest
    on.  Of stored events the service keeps the longest run of newest ones,
    in their order, whose gas is within the limit: the block and the list of
    full events name the same events, and when an event is dropped, the last
    dropped one would exceed the limit. *)
Theorem block_keeps_newest (g : GStore) (block : Block) :
  Forall (stored (gs_Events g)) (bl_Events block) -> exists dropped block' full,
  spillBlockEvents config g block = Ret (block', full) /\ bl_Events block = dropped ++ bl_Events block' /\
  Forall2 (fun h e => gs_Events g !! h = Some e) (bl_Events block') full /\ gas_of full <= BlockGasHardLimit config /\
  match last dropped with
  | None => True
  | Some h => exists e, gs_Events g !! h = Some e /\ BlockGasHardLimit config < event_gas e + gas_of full
  end.
Proof.
  intros Hst. unfold spillBlockEvents.
  destruct (spill_spec (gs_Events g) (reverse (bl_Events block)) 0 [] []) as (dropped & kept & full & -> & Happ & Hk & Hg & Hl); [by apply Forall_reverse|done|done|lia|].
  rewrite reverse_involutive, app_nil_r in Happ. exists dropped, (with_events block kept), full. by rewrite go_bind_Ret.
Qed.
End spill.

(** ** The end of an epoch *)

Section sealing.
Context (hash_Of : list bytes -> hash) (ContractAddress : bytes) (eth : EthParams) (config : ServiceConfig).
Context (event_Hash : EventHeaderData -> hash) (DeriveSha : list EthTx -> hash).
Context {S D B PS PD : Type} `{ObjStore Z SfcStaker PS S} `{ObjStore bytes SfcDelegator PD D} `{Lru Z BlocksMissed B}.
Context {E : Type} `{EvmState E} (Sender : EthTx -> option bytes) (Cost : EthTx -> Z) (StateDB_open : hash -> E) (Commit : E -> hash).
Context {C : Type} `{LruEvict hash bytes C}.
Abbreviation Ring := (OccurredTxs.buffer (A := bytes) (C := C)).
Abbreviation Svc := (Service S D B Ring).
Abbreviation applyNewState := (applyNewState hash_Of ContractAddress eth config event_Hash DeriveSha Sender Cost StateDB_open Commit).
Abbreviation applyBlock := (applyBlock hash_Of ContractAddress eth config event_Hash DeriveSha Sender Cost StateDB_open Commit).
Abbreviation voting s := (a_LastVoting (sv_app s)).
Implicit Types (s : Svc) (block : Block) (g : GStore).

(** The application remembers the block and the time of the last seal, the
    service the time at which the running epoch started and the engine the
    frames that were decided since. *)
Record in_sync (frame index : Z) s : Prop := {
  is_start : exists stats, GetDirtyEpochStats (sv_store s) = Some stats /\ Start stats = (voting s).2;
  is_index : (voting s).1 + frame = index
}.

(** The guards of the seal: the frames and the time of the epoch, the
    cheaters, a demand of the contract. *)
Definition seal_due (start frame time : Z) (cheaters : list Z) (receipts : list Receipt) : bool :=
  (MaxEpochBlocks (cfg_dag config) <=? frame) || (u64 (MaxEpochDuration (cfg_dag config)) <=? u64 (time - start)) || (0 <? zlen cheaters) ||
  EpochIsForceSealed hash_Of receipts.

Lemma refunds_keep_stats g g' (epoch : Z) (txs : list EthTx) (receipts : list Receipt) (positions : gmap hash TxPosition) (seal : bool) :
  incGasPowerRefund g epoch txs receipts positions seal = Ret g' -> gs_EpochStats g' = gs_EpochStats g.
Proof.
  unfold incGasPowerRefund. intros Hr. apply go_bind_inv in Hr as ([i g1] & Hf & Hr). injection Hr as <-.
  apply (go_fold_proj (fun st : Z * GStore => gs_EpochStats st.2)) in Hf; [cbn in Hf; by destruct seal|].
  clear. intros [j g0] tx st' Hs. unfold refundTx in Hs. apply go_bind_inv in Hs as (r & _ & Hs). cbv zeta in Hs. destruct (_ <? _); [done|]. injection Hs as <-. cbn [snd].
  destruct (minGasPowerRefund <=? _); [|done]. unfold IncGasPowerRefund. by destruct (_ =? 0).
Qed.

Lemma stats_start g g' (epoch blockTime fee : Z) (seal : bool) (stats : EpochStats) : updateEpochStats g epoch blockTime fee seal = Ret (stats, g') ->
  exists st st', GetDirtyEpochStats g = Some st /\ GetDirtyEpochStats g' = Some st' /\ Start st' = if seal then blockTime else Start st.
Proof.
  unfold updateEpochStats. destruct (GetDirtyEpochStats g) as [st|] eqn:Eg; [|done].
  destruct seal; intros Hs; injection Hs as _ <-; eexists _, _; unfold GetDirtyEpochStats, SetDirtyEpochStats, SetEpochStats; cbn; by rewrite lookup_insert_eq.
Qed.

Lemma sealed_keeps_stats g (epoch : Z) (cheaters : list Z) : gs_EpochStats (onEpochSealed g epoch cheaters) = gs_EpochStats g.
Proof. unfold onEpochSealed. cbn. by rewrite (foldl_keep gs_EpochStats). Qed.

Lemma applyNewState_seal s (epoch frame index : Z) block (cheaters : list Z) (ap : Applied) s' : in_sync frame index s -> is_u64 (frame + 1) -> bl_Index block = index + 1 ->
  applyNewState s epoch block cheaters = Ret (ap, s') ->
  ap_seal ap = seal_due (voting s).2 (frame + 1) (bl_Time block) cheaters (ap_receipts ap) /\ in_sync (if ap_seal ap then 0 else frame + 1) (index + 1) s'.
Proof.
  intros [(st & Hst & Hstart) Hidx] Hu Hbi Ha. unfold Gossip.applyNewState in Ha. apply go_bind_inv in Ha as ([[b eb] evs] & Hb & Ha). cbv beta iota zeta in Ha.
  assert (bl_Index b = bl_Index block /\ bl_Time b = bl_Time block) as [Hbi' Hbt].
  { unfold assembleEvmBlock in Hb. destruct (negb _); [done|]. apply go_bind_inv in Hb as ([b1 evs1] & Hb1 & Hb). injection Hb as <- _ _.
    unfold spillBlockEvents in Hb1. apply go_bind_inv in Hb1 as ([kept full] & _ & Hb1). by injection Hb1 as <- _. }
  destruct (GetBlock (sv_store s) (u64 (bl_Index b - 1))) as [prev|]; [|done].
  unfold BeginBlock in Ha. cbv beta iota zeta in Ha. apply go_bind_inv in Ha as ([[[ab eb1] rs] ctx] & Hd & Ha). cbv beta iota zeta in Ha.
  apply go_bind_inv in Ha as (g1 & Hg1%refunds_keep_stats & Ha). apply go_bind_inv in Ha as ([stats g2] & Hg2 & Ha). cbv beta iota in Ha.
  apply go_bind_inv in Ha as ([[root aep] a] & He%EndBlock_voting & Ha). injection Ha as <- <-. cbn [ap_seal ap_receipts sv_app sv_store].
  unfold DeliverTxs in Hd. apply go_bind_inv in Hd as (p & _ & Hd). cbv zeta in Hd. injection Hd as <- _ <- <-. cbn [ctx_sealEpoch ab_Index ab_Time] in *.
  apply stats_start in Hg2 as (st1 & st2 & H1' & H2' & Hs2). unfold GetDirtyEpochStats in H1', Hst. rewrite Hg1, Hst in H1'. injection H1' as <-.
  set (seal := shouldSealEpoch _ _ _ _ || _) in *. assert (seal = seal_due (voting s).2 (frame + 1) (bl_Time block) cheaters (pr_receipts p)) as Hseal.
  { unfold seal, seal_due, shouldSealEpoch. cbn [a_LastVoting with_blocks ab_Index ab_Time]. destruct (voting s) as [sb t0] eqn:Ev. cbn [fst snd] in *. rewrite Hbi', Hbt, Hbi.
    replace (index + 1 - sb) with (frame + 1) by lia. by rewrite u64_id. }
  split; [exact Hseal|]. split; cbn [sv_store sv_app]; rewrite He; [|destruct seal; cbn; [|cbn in Hidx]; lia].
  exists st2. split.
  - destruct seal; [|exact H2']. unfold GetDirtyEpochStats. rewrite sealed_keeps_stats. exact H2'.
  - rewrite Hs2. destruct seal; cbn; congruence.
Qed.

(** C13: The application and the engine end epochs at the same blocks.  Both
    count the blocks and the time of an epoch on their own, and a difference
    would stop the node; from a state in which they agree, as the genesis
    leaves it, a block fails only when its execution itself does.  An epoch
    ends with the first block for which one of the guards holds, and the next
    block finds both in agreement again. *)
Theorem seals_agree s (epoch frame index : Z) block (cheaters : list Z) : in_sync frame index s -> is_u64 (frame + 1) -> bl_Index block = index + 1 ->
  match applyNewState s epoch block cheaters with
  | Fault f => applyBlock s epoch block (frame + 1) cheaters = Fault f
  | Ret (ap, _) =>
      ap_seal ap = seal_due (voting s).2 (frame + 1) (bl_Time block) cheaters (ap_receipts ap) /\
      exists s', applyBlock s epoch block (frame + 1) cheaters = Ret (bl_TxHash (ap_block ap), ap_seal ap, s') /\
        in_sync (if ap_seal ap then 0 else frame + 1) (index + 1) s'
  end.
Proof.
  intros Hsync Hu Hbi. pose proof (is_start _ _ _ Hsync) as (st & Hst & Hstart).
  unfold Gossip.applyBlock, legacyShouldSealEpoch. rewrite Hst, go_bind_Ret.
  destruct (applyNewState s epoch block cheaters) as [[ap s1]|f] eqn:Ea; [|done]. rewrite go_bind_Ret.
  destruct (applyNewState_seal s epoch frame index block cheaters ap s1 Hsync Hu Hbi Ea) as [Hseal Hs1]. split; [exact Hseal|].
  rewrite Hstart. fold (seal_due (voting s).2 (frame + 1) (bl_Time block) cheaters (ap_receipts ap)). rewrite <-Hseal, eqb_reflx. cbn [negb].
  eexists. split; [reflexivity|]. destruct Hs1 as [(st' & Hst' & Hstart') Hidx']. split; cbn [sv_store sv_app]; [|exact Hidx'].
  exists st'. split; [|exact Hstart']. unfold GetDirtyEpochStats in *. destruct (TxIndexing config); [|exact Hst'].
  rewrite (foldl_keep gs_EpochStats); [exact Hst'|]. intros g tx. by destruct (ap_positions ap !! et_Hash tx).
Qed.
End sealing.

(** ** The announcement of a far epoch *)

(** The epochs whose databases are open, from the first to below the second; the numbers of epochs have 32 bits. *)
Definition store_window (g : GStore) : Z * Z := let r := td_seq (gs_EpochDbs g) in (rb_Min r, rb_Min r + rb_count r).
Definition store_open (g : GStore) : Prop := window id (td_seq (gs_EpochDbs g)) (store_window g).1 (store_window g).2 /\ (store_window g).2 <= 2 ^ 32.

Lemma store_open_window (g : GStore) (lo hi : Z) : window id (td_seq (gs_EpochDbs g)) lo hi -> hi <= 2 ^ 32 -> store_open g /\ store_window g = (lo, hi).
Proof.
  intros Hw Hhi. assert (store_window g = (lo, hi)) as He by (unfold store_window; rewrite (wd_min _ _ _ _ Hw), (wd_count _ _ _ _ Hw); f_equal; lia).
  unfold store_open. by rewrite He.
Qed.

(** The window after the epochs were looked up in turn; [None]: one of them cannot be opened. *)
Fixpoint open_epochs (w : Z * Z) (epochs : list Z) : option (Z * Z) :=
  match epochs with [] => Some w | v :: epochs => w ← op_window w (OpGet v); open_epochs w epochs end.

(** Past epochs and the running ones are there. *)
Lemma open_epochs_running (lo hi : Z) (epochs : list Z) : lo < hi -> Forall (fun v => v < hi) epochs -> open_epochs (lo, hi) epochs = Some (lo, hi).
Proof.
  intros Hlt. induction 1 as [|v epochs Hv _ IH]; [done|]. cbn [open_epochs op_window]. destruct (Z.ltb_spec v lo); [exact IH|].
  rewrite (proj2 (Z.eqb_neq _ _)), (proj2 (Z.ltb_lt _ _)) by lia. exact IH.
Qed.

Lemma from_epoch_window {X} (g : GStore) (epoch : Z) (none : X) (f : EpochStore -> X) : store_open g -> is_u32 epoch ->
  match op_window (store_window g) (OpGet epoch) with
  | Some w => exists x g', from_epoch g epoch none f = Ret (x, g') /\ store_open g' /\ store_window g' = w
  | None => exists msg, from_epoch g epoch none f = Fault (PanicMsg msg)
  end.
Proof.
  intros [Hw Hhi] Hu. unfold is_u32 in Hu. unfold from_epoch, getEpochStore. destruct (store_window g) as [lo hi]. cbn [fst snd] in *. pose proof (wd_range _ _ _ _ Hw) as Hr.
  destruct (op_window (lo, hi) (OpGet epoch)) as [[lo' hi']|] eqn:Ho.
  - assert (hi' <= 2 ^ 32) as Hhi' by (unfold op_window in Ho; repeat case_match; simplify_eq; lia).
    destruct (op_step id (gs_EpochDbs g) lo hi (OpGet epoch) (lo', hi') Hw ltac:(cbn; lia) Ho) as (t1 & Hrun & Hw1 & _). cbn [run_op fst snd] in Hrun, Hw1.
    rewrite Hrun, !go_bind_Ret. eexists _, _. split; [reflexivity|]. by apply store_open_window.
  - destruct (Dbs_Get_refused id (gs_EpochDbs g) lo hi epoch Hw ltac:(lia) Ho) as [msg ->]. by exists msg.
Qed.

Lemma is_hash_Epoch (h : hash) : is_hash h -> exists epoch, hash_Epoch h = Ret epoch /\ is_u32 epoch.
Proof.
  intros [Hlen Hb]. unfold hash_Epoch, sub_bytes, BytesToEpoch, bigendian_BytesToInt32. rewrite drop_0. cbn [Nat.sub].
  rewrite decide_True by (rewrite length_take; lia). eexists. split; [reflexivity|]. unfold is_u32, be_decode.
  assert (is_bytes (reverse (take 4 (take 4 h)))) as Hr by (apply Forall_reverse; by do 2 apply Forall_take).
  pose proof (le_decode_range _ Hr) as Hrange. rewrite length_reverse, !length_take, Hlen in Hrange. exact Hrange.
Qed.

(** The epochs of the hashes among some that are looked up. *)
Definition looked_up (P : Z -> hash -> bool) (ids : list hash) : list Z :=
  omap (fun h => match hash_Epoch h with Ret epoch => if P epoch h then Some epoch else None | Fault _ => None end) ids.

Lemma lookups_window (step : list hash * GStore -> hash -> go (list hash * GStore)) (P : Z -> hash -> bool) (ids : list hash) :
  (forall st h epoch, hash_Epoch h = Ret epoch -> P epoch h = false -> step st h = Ret st) ->
  (forall st h epoch, hash_Epoch h = Ret epoch -> P epoch h = true ->
     step st h = ('(known, g) ← HasEventHeader st.2 h; Ret ((if known : bool then st.1 else st.1 ++ [h]), g))) ->
  forall st, store_open st.2 -> Forall is_hash ids ->
  match open_epochs (store_window st.2) (looked_up P ids) with
  | Some w => exists l g', go_fold step st ids = Ret (l, g') /\ store_open g' /\ store_window g' = w
  | None => exists msg, go_fold step st ids = Fault (PanicMsg msg)
  end.
Proof.
  intros Hskip Hlook. induction ids as [|h ids IH]; intros [l g] Ho Hids; [cbn in *; by exists l, g|]. apply Forall_cons in Hids as [Hh Hids].
  destruct (is_hash_Epoch h Hh) as (epoch & He & Hu). unfold looked_up. cbn [omap list_omap]. rewrite He. fold (looked_up P ids). cbn [go_fold].
  destruct (P epoch h) eqn:HP; [|rewrite (Hskip _ _ _ He HP); exact (IH (l, g) Ho Hids)].
  cbn [open_epochs]. rewrite (Hlook _ _ _ He HP). unfold HasEventHeader. cbn [fst snd] in *. rewrite He, go_bind_Ret.
  pose proof (from_epoch_window g epoch false (fun es => bool_decide (is_Some (es_Headers es !! h))) Ho Hu) as Hfrom.
  destruct (op_window (store_window g) (OpGet epoch)) as [w|]; cbn [mbind option_bind].
  - destruct Hfrom as (known & g' & -> & Ho' & <-). cbn [mbind go_bind]. exact (IH (if known : bool then l else l ++ [h], g') Ho' Hids).
  - destruct Hfrom as [msg ->]. by exists msg.
Qed.

Lemma onlyNotConnected_window (g : GStore) (ids : list hash) : store_open g -> Forall is_hash ids ->
  match open_epochs (store_window g) (looked_up (fun _ _ => true) ids) with
  | Some w => exists l g', onlyNotConnectedEvents g ids = Ret (l, g') /\ store_open g' /\ store_window g' = w
  | None => exists msg, onlyNotConnectedEvents g ids = Fault (PanicMsg msg)
  end.
Proof. intros Ho Hids. unfold onlyNotConnectedEvents. by refine (lookups_window _ (fun _ _ => true) ids _ _ ([], g) Ho Hids). Qed.

Lemma onlyInterested_window (g : GStore) (engineEpoch : Z) (isBuffered : hash -> bool) (ids : list hash) : store_open g -> Forall is_hash ids ->
  match open_epochs (store_window g) (looked_up (fun epoch h => (epoch =? engineEpoch) && negb (isBuffered h)) ids) with
  | Some w => exists l g', onlyInterestedEvents g engineEpoch isBuffered ids = Ret (l, g') /\ store_open g' /\ store_window g' = w
  | None => exists msg, onlyInterestedEvents g engineEpoch isBuffered ids = Fault (PanicMsg msg)
  end.
Proof.
  intros Ho Hids. unfold onlyInterestedEvents. refine (lookups_window _ (fun epoch h => (epoch =? engineEpoch) && negb (isBuffered h)) ids _ _ ([], g) Ho Hids);
    intros st h epoch He HP; rewrite He, go_bind_Ret; destruct (epoch =? engineEpoch), (isBuffered h); done.
Qed.

(** A peer can crash the service.  The events that a peer announces in
    its packs are looked up by the epoch that their hash carries; when that is
    beyond the epoch after the running ones, the ring of the databases panics
    instead of saying that the event is not known. *)
Theorem far_epoch_crashes (g : GStore) (lo hi epoch : Z) (h : hash) (ids : list hash) :
  window id (td_seq (gs_EpochDbs g)) lo hi -> lo < hi -> hi < epoch < 2 ^ 63 -> hash_Epoch h = Ret epoch ->
  exists msg, onlyNotConnectedEvents g (h :: ids) = Fault (PanicMsg msg).
Proof.
  intros Hw Hlt He Hh. unfold onlyNotConnectedEvents. cbn [go_fold fst snd]. unfold HasEventHeader. rewrite Hh, go_bind_Ret. unfold from_epoch, getEpochStore.
  destruct (far_epoch_panics id (gs_EpochDbs g) lo hi epoch Hw Hlt He) as [msg ->]. by exists msg.
Qed.

(** * The genesis of the service: gossip/apply_genesis.go

    The genesis block and the statistics of the first epoch, written once; a
    node refuses to start over the tables of another network.  The migration
    of old tables before it is left out, and so are the state of the EVM and
    its root, which come from the application. *)

(** The rules of the network that name it. *)
Record NetGenesis := mkNetGenesis { gn_Time : Z; gn_ExtraData : bytes; gn_AccountsHash : hash; gn_MaxEpochBlocks : Z }.

Inductive genesis_error := GenesisMismatchError (stored new : hash).

Section genesis.
Context (marshal : EventHeaderData -> bytes) (keccak_rlp : bytes -> bytes).
Implicit Types (g : GStore) (net : NetGenesis).

(** The identifier of an event of epoch zero that spells the rules out. *)
Definition prettyHash net : hash :=
  let extra := if bool_decide (gn_ExtraData net = []) then string_bytes "lachesis-ex" else gn_ExtraData net in
  CalcHash marshal keccak_rlp
    (mkHeader 0 0 0 0 false 0 ZeroHash [] [0; 0] 0 (gn_MaxEpochBlocks net) (gn_Time net) 0 (gn_AccountsHash net) extra None).

Definition with_root (b : Block) (root : hash) : Block :=
  mkBlock (bl_Index b) (bl_Time b) (bl_TxHash b) (bl_Events b) (bl_SkippedTxs b) (bl_GasUsed b) (bl_PrevHash b) root (bl_Atropos b).

Definition applyGenesis g net (root : hash) : hash * GStore :=
  let genesisAtropos := prettyHash net in
  let block := with_root (NewBlock 0 (gn_Time net) genesisAtropos ZeroHash [genesisAtropos]) root in
  let g := SetBlockIndex (SetBlock g block) genesisAtropos (bl_Index block) in
  let g := SetEpochStats g 0 (mkEpochStats (gn_Time net) (gn_Time net) 0) in
  (genesisAtropos, SetDirtyEpochStats g (mkEpochStats (gn_Time net) 0 0)).

(** The tables of a process without a disk. *)
Definition NewMemStore : GStore := mkGStore ∅ (NewDbs None) ∅ ∅ ∅ ∅ ∅ ∅ ∅ ∅ ∅ ∅.

Definition calcGenesisHash net (root : hash) : hash := (applyGenesis NewMemStore net root).1.

(** The atropos, the state, whether the genesis is new and the error. *)
Definition ApplyGenesis g net (root : hash) : hash * hash * bool * option genesis_error * GStore :=
  match GetBlock g 0 with
  | Some stored =>
      let newHash := calcGenesisHash net root in
      if negb (bool_decide (bl_Atropos stored = newHash)) then (ZeroHash, ZeroHash, true, Some (GenesisMismatchError (bl_Atropos stored) newHash), g)
      else (bl_Atropos stored, bl_Atropos stored, false, None, g)
  | None => let '(atropos, g) := applyGenesis g net root in (atropos, atropos, true, None, g)
  end.

(** The first start writes the genesis; a restart with the same rules changes
    nothing, one with other rules fails and changes nothing. *)
Lemma genesis_once g net (root : hash) : GetBlock g 0 = None -> exists g',
  ApplyGenesis g net root = (prettyHash net, prettyHash net, true, None, g') /\
  (exists b, GetBlock g' 0 = Some b /\ bl_Root b = root /\ bl_Time b = gn_Time net) /\
  GetDirtyEpochStats g' = Some (mkEpochStats (gn_Time net) 0 0) /\
  forall net' root', ApplyGenesis g' net' root' =
    if bool_decide (prettyHash net = prettyHash net') then (prettyHash net, prettyHash net, false, None, g')
    else (ZeroHash, ZeroHash, true, Some (GenesisMismatchError (prettyHash net) (prettyHash net')), g').
Proof.
  intros Hnone. unfold ApplyGenesis at 1. rewrite Hnone. unfold applyGenesis. cbv zeta. eexists. split; [reflexivity|].
  set (g' := SetDirtyEpochStats _ _).
  assert (exists b, GetBlock g' 0 = Some b /\ bl_Root b = root /\ bl_Time b = gn_Time net /\ bl_Atropos b = prettyHash net) as (b & Hb & Hr & Ht & Ha).
  { eexists. unfold g', GetBlock. cbn. by rewrite lookup_insert_eq. }
  split; [by exists b|]. split; [unfold g', GetDirtyEpochStats, SetDirtyEpochStats, SetEpochStats; cbn; by rewrite lookup_insert_eq|].
  intros net' root'. unfold ApplyGenesis. rewrite Hb, Ha. unfold calcGenesisHash, applyGenesis. cbn [fst].
  by destruct (bool_decide (prettyHash net = prettyHash net')).
Qed.
End genesis.

(** ** The node starts in agreement *)

Section start.
Context {S D B PS PD : Type} `{ObjStore Z SfcStaker PS S} `{ObjStore bytes SfcDelegator PD D} `{Lru Z BlocksMissed B}.
Context {C : Type} `{LruEvict hash bytes C}.

(** integration/assembly.go: the genesis of the application, then the one of
    the service, with the same rules. *)
Lemma genesis_in_sync (marshal : EventHeaderData -> bytes) (keccak_rlp : bytes -> bytes) (balances : list Z) (validators : list GenesisValidator)
    (net : NetGenesis) (root : hash) (g g' : GStore) (a : AppStore S D B) (ring : OccurredTxs.buffer (A := bytes) (C := C)) (ids : hash * hash) (isNew : bool) :
  GetBlock g 0 = None -> ApplyGenesis marshal keccak_rlp g net root = (ids, isNew, None, g') ->
  in_sync 0 0 (mkService g' (Sfc.applyGenesis balances validators (gn_Time net) a) 1 ring ∅).
Proof.
  intros Hnone Hg. destruct (genesis_once marshal keccak_rlp g net root Hnone) as (g1 & Hg1 & _ & Hd & _). rewrite Hg in Hg1. injection Hg1 as _ _ <-.
  unfold Sfc.applyGenesis. destruct (foldl _ _ _) as [s vv]. split; cbn; [|done]. by exists (mkEpochStats (gn_Time net) 0 0).
Qed.
End start.
