(* ===== verification/GossipHeads.v ===== *)
(** * Heads and packs of a running epoch: gossip/

    The invariant that [processEvent] keeps while an epoch runs.  The engine
    is a parameter; all that is asked of it is that it touches the service
    through its callbacks only, and these leave the tables below alone. *)

From S2P Require Import Prelude Bytes Pos Event VecStore EventCheck EventBuffer OccurredTxs SfcStore Sfc StateTransition App TempDbs Gossip.

Lemma join_snoc {A} (ls : list (list A)) l : mjoin (ls ++ [l]) = mjoin ls ++ l.
Proof. rewrite join_app. cbn. by rewrite app_nil_r. Qed.

Lemma length_snoc {A} (l : list A) x : zlen (l ++ [x]) = zlen l + 1.
Proof. unfold zlen. rewrite length_app. cbn. lia. Qed.

Lemma key_ne (ep i j : Z) : i <> j -> (ep, i) <> (ep, j).
Proof. congruence. Qed.

(** ** The tables of a running epoch *)

Section tables.
Context (event_Hash : EventHeaderData -> hash) (event_Size : GEvent -> Z).
Implicit Types (g : GStore) (e : GEvent) (evs cur : list GEvent) (pinned : list (list GEvent)).
Abbreviation ehash e := (event_Hash (ge_header e)).
Abbreviation hashes evs := ((fun e : GEvent => event_Hash (ge_header e)) <$> evs).

(** The database of the epoch is open. *)
Definition open g (ep : Z) : Prop := exists lo hi, window id (td_seq (gs_EpochDbs g)) lo hi /\ lo <= ep < hi.

Lemma getEpochStore_open g (ep : Z) : open g ep -> getEpochStore g ep = Ret (Some ep, g).
Proof.
  intros (lo & hi & Hw & Hr). unfold getEpochStore, Dbs_Get. rewrite (wd_min _ _ _ _ Hw), (proj2 (Z.ltb_ge _ _)) by lia.
  rewrite (get_open _ _ _ _ _ Hw Hr). rewrite !go_bind_Ret. by destruct g.
Qed.

Lemma in_epoch_open g (ep : Z) f : open g ep -> in_epoch g ep f = Ret (set_epochs g (<[ep := f (epoch_tables g ep)]> (gs_epochs g))).
Proof. intros Ho. unfold in_epoch. by rewrite getEpochStore_open. Qed.

Lemma from_epoch_open {X} g (ep : Z) (none : X) f : open g ep -> from_epoch g ep none f = Ret (f (epoch_tables g ep), g).
Proof. intros Ho. unfold from_epoch. by rewrite getEpochStore_open. Qed.

Lemma epoch_tables_set g (ep : Z) es m : epoch_tables (set_epochs g (<[ep := es]> m)) ep = es.
Proof. unfold epoch_tables. cbn. by rewrite lookup_insert_eq. Qed.

(** The children of an event are connected after it. *)
Definition is_head evs (h : hash) : Prop := h ∈ hashes evs /\ forall e, e ∈ evs -> h ∉ Parents (ge_header e).
Definition parent_of evs (a b : hash) : Prop := exists e, e ∈ evs /\ ehash e = a /\ b ∈ Parents (ge_header e).

Lemma in_hashes evs e : e ∈ evs -> ehash e ∈ hashes evs.
Proof. intros He. apply list_elem_of_fmap. by exists e. Qed.

(** A pack is pinned by its last event: enough of them, or of bytes. *)
Definition full cur : Prop := maxPackEventsNum <= zlen cur \/ maxPackSize <= zsum (event_Size <$> cur).

Record packs_ok (ep : Z) evs pinned cur g : Prop := {
  po_events : evs = mjoin pinned ++ cur;
  po_num : GetPacksNumOrDefault g ep = 1 + zlen pinned;
  po_pinned (i : nat) c : pinned !! i = Some c ->
    full c /\ GetPack g ep (1 + Z.of_nat i) = list_to_set (hashes c) /\
    exists heads, gs_PackInfos g !! (ep, 1 + Z.of_nat i) = Some (mkPackInfo (1 + Z.of_nat i) (zsum (event_Size <$> c)) (zlen c) heads) /\
      forall h, h ∈ heads <-> is_head (mjoin (take (S i) pinned)) h;
  po_current : ~ full cur /\ GetPack g ep (1 + zlen pinned) = list_to_set (hashes cur) /\
    GetPackInfoOrDefault g ep (1 + zlen pinned) = mkPackInfo (1 + zlen pinned) (zsum (event_Size <$> cur)) (zlen cur) [];
  po_beyond i : 1 + zlen pinned < i -> gs_PackInfos g !! (ep, i) = None /\ gs_Packs g !! (ep, i) = None
}.

Record epoch_ok (ep : Z) evs g : Prop := {
  eo_open : open g ep;
  eo_nodup : NoDup (hashes evs);
  eo_stored e : e ∈ evs -> gs_Events g !! ehash e = Some e;
  eo_headers (h : hash) hd : es_Headers (epoch_tables g ep) !! h = Some hd <-> exists e, e ∈ evs /\ ehash e = h /\ ge_header e = hd;
  eo_heads (h : hash) : h ∈ es_Heads (epoch_tables g ep) <-> is_head evs h;
  eo_packs : exists pinned cur, packs_ok ep evs pinned cur g
}.

Lemma packs_ok_ext (ep : Z) evs pinned cur g g' : gs_PackInfos g' = gs_PackInfos g -> gs_Packs g' = gs_Packs g -> gs_PacksNum g' = gs_PacksNum g ->
  packs_ok ep evs pinned cur g -> packs_ok ep evs pinned cur g'.
Proof.
  intros Hi Hp Hn []. split; unfold GetPacksNumOrDefault, GetPacksNum, GetPack, GetPackInfoOrDefault, GetPackInfo in *; rewrite ?Hi, ?Hp, ?Hn; done.
Qed.

(** A new epoch. *)
Record fresh (ep : Z) g : Prop := {
  fr_open : open g ep;
  fr_tables : epoch_tables g ep = empty_epoch;
  fr_num : gs_PacksNum g !! ep = None;
  fr_packs i : gs_PackInfos g !! (ep, i) = None /\ gs_Packs g !! (ep, i) = None
}.

Lemma fresh_ok (ep : Z) g : fresh ep g -> epoch_ok ep [] g.
Proof.
  intros [Ho Ht Hn Hp]. split; try done.
  - by apply NoDup_nil.
  - by intros e He%not_elem_of_nil.
  - intros h hd. rewrite Ht. cbn. rewrite lookup_empty. split; [done|]. by intros (e & He%not_elem_of_nil & _).
  - intros h. rewrite Ht. cbn. split; [set_solver|]. intros [Hh _]. by apply not_elem_of_nil in Hh.
  - exists [], []. split; try done.
    + unfold GetPacksNumOrDefault, GetPacksNum. by rewrite Hn.
    + destruct (Hp 1) as [Hi Hk]. change (1 + zlen (@nil (list GEvent))) with 1. unfold GetPack, GetPackInfoOrDefault, GetPackInfo. rewrite Hi, Hk. split; [|done].
      unfold full, zlen, maxPackEventsNum, softLimitItems, maxPackSize, softResponseLimitSize. cbn. lia.
Qed.

(** ** Heads *)

Lemma is_head_snoc evs e h : (forall e' p, e' ∈ evs -> p ∈ Parents (ge_header e') -> p ∈ hashes evs) ->
  (forall p, p ∈ Parents (ge_header e) -> p ∈ hashes evs) -> ehash e ∉ hashes evs ->
  (is_head (evs ++ [e]) h <-> (is_head evs h /\ h ∉ Parents (ge_header e)) \/ h = ehash e).
Proof.
  intros Hcl Hpar Hnew. unfold is_head. rewrite fmap_app, elem_of_app. cbn. rewrite list_elem_of_singleton. split.
  - intros [[Hh| ->] Hno]; [left|by right]. split; [|apply Hno; set_solver]. split; [done|]. intros e' He'. apply Hno. set_solver.
  - intros [[[Hh Hno] Hp]| ->].
    + split; [by left|]. intros e' [He'| ->%list_elem_of_singleton]%elem_of_app; eauto.
    + split; [by right|]. intros e' [He'| ->%list_elem_of_singleton]%elem_of_app Hin; eauto.
Qed.

(** Every connected event is a head or an ancestor of one. *)
Lemma heads_cover evs : (forall evs1 e evs2, evs = evs1 ++ e :: evs2 -> forall p, p ∈ Parents (ge_header e) -> p ∈ hashes evs1) ->
  NoDup (hashes evs) -> forall e, e ∈ evs -> exists h, is_head evs h /\ rtc (parent_of evs) h (ehash e).
Proof.
  induction evs as [|e0 evs IH] using rev_ind; intros Hpar Hnd e He; [by apply not_elem_of_nil in He|].
  assert (forall evs1 e evs2, evs = evs1 ++ e :: evs2 -> forall p, p ∈ Parents (ge_header e) -> p ∈ hashes evs1) as Hpar'.
  { intros evs1 e1 evs2 ->. apply (Hpar evs1 e1 (evs2 ++ [e0])). by rewrite <-app_assoc. }
  pose proof (Hpar evs e0 [] eq_refl) as Hp0. rewrite fmap_app in Hnd. apply NoDup_app in Hnd as (Hnd & Hdis & _).
  assert (ehash e0 ∉ hashes evs) as Hnew by (intros Hin; apply (Hdis _ Hin); set_solver).
  assert (forall h, is_head (evs ++ [e0]) h <-> (is_head evs h /\ h ∉ Parents (ge_header e0)) \/ h = ehash e0) as Hheads.
  { intros h. apply is_head_snoc; try done. intros e' p (evs1 & evs2 & ->)%list_elem_of_split Hp.
    rewrite fmap_app, elem_of_app. left. by apply (Hpar' evs1 e' evs2). }
  assert (forall a b, parent_of evs a b -> parent_of (evs ++ [e0]) a b) as Hmono by (intros a b (e1 & H1 & H2); exists e1; set_solver).
  assert (forall a b, rtc (parent_of evs) a b -> rtc (parent_of (evs ++ [e0])) a b) as Hmono'.
  { intros a b. induction 1; [reflexivity|]. eapply rtc_l; eauto. }
  apply elem_of_app in He as [He| ->%list_elem_of_singleton]; [|exists (ehash e0); split; [apply Hheads; by right|reflexivity]].
  destruct (IH Hpar' Hnd e He) as (h & Hh & Hr). destruct (decide (h ∈ Parents (ge_header e0))) as [Hin|Hin].
  - exists (ehash e0). split; [apply Hheads; by right|]. apply rtc_l with h; [|by apply Hmono']. exists e0. set_solver.
  - exists h. split; [apply Hheads; by left|by apply Hmono'].
Qed.

(** ** Packs *)

Lemma elem_of_GetHeads g (ep : Z) : open g ep -> exists heads, GetHeads g ep = Ret (heads, g) /\ forall h, h ∈ heads <-> h ∈ es_Heads (epoch_tables g ep).
Proof.
  intros Ho. unfold GetHeads. rewrite from_epoch_open by done. eexists. split; [reflexivity|]. intros h. by rewrite merge_sort_Permutation, elem_of_elements.
Qed.

Context (size_ok : forall e, 0 <= event_Size e < 2 ^ 31).

Lemma sizes_nonneg cur : 0 <= zsum (event_Size <$> cur).
Proof. induction cur as [|e cur IH]; cbn; [done|]. pose proof (size_ok e). lia. Qed.

Lemma pinned_le_events (ep : Z) evs pinned cur g : packs_ok ep evs pinned cur g -> zlen pinned <= zlen evs.
Proof.
  intros [-> _ Hp _ _]. assert (Forall (fun c : list GEvent => 1 <= zlen c) pinned) as Hne.
  { apply Forall_lookup_2. intros i c Hc. destruct (Hp i c Hc) as [Hf _]. destruct c; [|unfold zlen; cbn; lia].
    unfold full, zlen, maxPackEventsNum, softLimitItems, maxPackSize, softResponseLimitSize in Hf. cbn in Hf. lia. }
  rewrite zlen_app. pose proof (zlen_nonneg cur). clear Hp. induction Hne as [|c pinned Hc Hne IH]; [unfold zlen; cbn; lia|].
  change (mjoin (c :: pinned)) with (c ++ mjoin pinned). rewrite zlen_app. unfold zlen in *. rewrite length_cons. lia.
Qed.

(** Only the tables of the packs change. *)
Definition only_packs g g' : Prop := exists x y z, g' = set_PackTables g x y z.

Lemma only_packs_ok g g' (ep : Z) : only_packs g g' ->
  (open g ep -> open g' ep) /\ epoch_tables g' ep = epoch_tables g ep /\ gs_Events g' = gs_Events g /\ gs_EpochDbs g' = gs_EpochDbs g.
Proof. by intros (x & y & z & ->). Qed.

Lemma zsum_sizes_snoc cur e : zsum (event_Size <$> (cur ++ [e])) = zsum (event_Size <$> cur) + event_Size e.
Proof. rewrite fmap_app, zsum_app. cbn. lia. Qed.

Lemma GetPack_added g (ep idx : Z) (h : hash) (i : Z) :
  GetPack (AddToPack g ep idx h) ep i = if decide (i = idx) then GetPack g ep idx ∪ {[h]} else GetPack g ep i.
Proof.
  unfold GetPack at 1. cbn. destruct (decide (i = idx)) as [->|Hne]; [by rewrite lookup_insert_eq|].
  by rewrite lookup_insert_ne by congruence.
Qed.

Lemma packs_step (ep : Z) evs pinned cur g e :
  packs_ok ep evs pinned cur g -> open g ep -> (forall h, h ∈ es_Heads (epoch_tables g ep) <-> is_head (evs ++ [e]) h) -> zlen evs < 2 ^ 31 ->
  exists g' pinned' cur', packsOnNewEvent event_Hash event_Size ep g e ep = Ret g' /\ packs_ok ep (evs ++ [e]) pinned' cur' g' /\ only_packs g g'.
Proof.
  intros Hok Ho Hheads Hlen. pose proof (pinned_le_events _ _ _ _ _ Hok) as Hple. destruct Hok as [-> Hnum Hpin (Hnf & Hcp & Hci) Hbey].
  pose proof (size_ok e). pose proof (sizes_nonneg cur). pose proof (zlen_nonneg cur). pose proof (zlen_nonneg pinned).
  unfold packsOnNewEvent. rewrite Hnum, Hci. cbn [pi_NumOfEvents pi_Size pi_Heads].
  assert (zlen cur < 250 /\ zsum (event_Size <$> cur) < 2097152) as [Hn Hz].
  { unfold full, maxPackEventsNum, softLimitItems, maxPackSize, softResponseLimitSize in Hnf. lia. }
  rewrite (u32_id (event_Size e)), (u32_id (zlen cur + 1)), (u32_id (zsum (event_Size <$> cur) + event_Size e)), (u32_id (1 + zlen pinned + 1)) by (unfold is_u32; lia).
  rewrite <-zsum_sizes_snoc. replace (zlen cur + 1) with (zlen (cur ++ [e])) by apply length_snoc.
  set (g1 := AddToPack g ep (1 + zlen pinned) (ehash e)).
  pose proof (fun i => GetPack_added g ep (1 + zlen pinned) (ehash e) i) as Hpo. fold g1 in Hpo.
  assert (GetPack g1 ep (1 + zlen pinned) = list_to_set (hashes (cur ++ [e]))) as Hpk.
  { rewrite Hpo, decide_True, Hcp, fmap_app, list_to_set_app_L by done. cbn. set_solver. }
  assert (only_packs g g1) as Hg1 by (unfold only_packs, g1, AddToPack; eauto).
  destruct ((maxPackEventsNum <=? zlen (cur ++ [e])) || (maxPackSize <=? zsum (event_Size <$> (cur ++ [e])))) eqn:Ef.
  - destruct (elem_of_GetHeads g1 ep) as (heads & -> & Hh); [by apply (only_packs_ok g g1 ep Hg1)|]. rewrite go_bind_Ret.
    eexists _, (pinned ++ [cur ++ [e]]), []. split; [reflexivity|]. split; [|by unfold only_packs, g1, AddToPack; eauto].
    assert (forall i, GetPack (SetPackInfo (SetPacksNum g1 ep (1 + zlen pinned + 1)) ep (1 + zlen pinned)
      (mkPackInfo (1 + zlen pinned) (zsum (event_Size <$> (cur ++ [e]))) (zlen (cur ++ [e])) heads)) ep i = GetPack g1 ep i) as Hgp by done.
    split; [| | | |]; try setoid_rewrite Hgp; cbn [gs_PackInfos SetPackInfo SetPacksNum set_PackTables].
    + rewrite join_snoc, app_nil_r, app_assoc. done.
    + unfold GetPacksNumOrDefault, GetPacksNum. cbn. rewrite lookup_insert_eq, length_snoc. cbn. lia.
    + intros i c [Hi|[Hi Hc]]%lookup_app_Some.
      * pose proof (lookup_lt_Some _ _ _ Hi) as Hlt. destruct (Hpin i c Hi) as (Hf & Hc & hs & Hinf & Hhs). rewrite Hpo, decide_False by (unfold zlen; lia).
        split_and!; [done..|]. exists hs. rewrite lookup_insert_ne by (apply key_ne; unfold zlen; lia). split; [done|]. by rewrite take_app_le by lia.
      * assert (i = length pinned) as -> by (apply lookup_lt_Some in Hc; cbn in Hc; lia). rewrite Nat.sub_diag in Hc. injection Hc as <-.
        change (Z.of_nat (length pinned)) with (zlen pinned). rewrite Hpk, lookup_insert_eq. split_and!; [|done|].
        { unfold full. apply orb_true_iff in Ef as [Ef%Z.leb_le|Ef%Z.leb_le]; auto. }
        exists heads. split; [done|]. intros h. rewrite take_ge by (rewrite length_app; cbn; lia). rewrite join_snoc, app_assoc. exact (iff_trans (Hh h) (Hheads h)).
    + replace (1 + zlen (pinned ++ [cur ++ [e]])) with (1 + zlen pinned + 1) by (rewrite length_snoc; lia). rewrite Hpo, decide_False by lia.
      destruct (Hbey (1 + zlen pinned + 1) ltac:(lia)) as [Hi Hk]. unfold GetPack, GetPackInfoOrDefault, GetPackInfo. cbn. rewrite Hk, lookup_insert_ne, Hi by (apply key_ne; lia).
      split_and!; try done. unfold full, zlen, maxPackEventsNum, softLimitItems, maxPackSize, softResponseLimitSize. cbn. lia.
    + intros i Hi. rewrite length_snoc in Hi. destruct (Hbey i ltac:(lia)) as [Hi' Hk]. cbn. rewrite !lookup_insert_ne by (apply key_ne; lia). done.
  - exists (SetPackInfo g1 ep (1 + zlen pinned) (mkPackInfo (1 + zlen pinned) (zsum (event_Size <$> (cur ++ [e]))) (zlen (cur ++ [e])) [])), pinned, (cur ++ [e]).
    split; [done|]. split; [|by unfold only_packs, g1, AddToPack; eauto].
    split; cbn [gs_PackInfos SetPackInfo set_PackTables].
    + by rewrite app_assoc.
    + done.
    + intros i c Hi. pose proof (lookup_lt_Some _ _ _ Hi) as Hlt. destruct (Hpin i c Hi) as (Hf & Hc & hs & Hinf & Hhs).
      split; [done|]. split; [rewrite <-Hc; etransitivity; [apply Hpo|]; by rewrite decide_False by (unfold zlen; lia)|]. exists hs. by rewrite lookup_insert_ne by (apply key_ne; unfold zlen; lia).
    + split_and!; [|exact Hpk|].
      * unfold full. apply orb_false_iff in Ef as [Ef1%Z.leb_gt Ef2%Z.leb_gt]. lia.
      * unfold GetPackInfoOrDefault, GetPackInfo. cbn. by rewrite lookup_insert_eq.
    + intros i Hi. destruct (Hbey i Hi) as [Hi' Hk]. cbn. rewrite !lookup_insert_ne by (apply key_ne; lia). done.
Qed.

End tables.

Section connect.
Context (event_Hash : EventHeaderData -> hash).
Implicit Types (g : GStore).

(** The tables of the epoch after an event. *)
Definition connect_tables es (header : EventHeaderData) (tips : gmap Z hash) : EpochStore :=
  mkEpochStore (es_Headers es) tips ((es_Heads es ∖ list_to_set (Parents header)) ∪ {[event_Hash header]}).

Lemma DelHead_fold (ep : Z) (parents : list hash) : forall g, open g ep -> exists m,
  go_fold (fun g parent => DelHead g ep parent) g parents = Ret (set_epochs g m) /\ open (set_epochs g m) ep /\
  (forall x, <[ep := x]> m = <[ep := x]> (gs_epochs g)) /\
  epoch_tables (set_epochs g m) ep = mkEpochStore (es_Headers (epoch_tables g ep)) (es_Tips (epoch_tables g ep)) (es_Heads (epoch_tables g ep) ∖ list_to_set parents).
Proof.
  induction parents as [|p ps IH]; intros g Ho; cbn [go_fold].
  { exists (gs_epochs g). split; [by destruct g|]. split; [done|]. split; [done|]. change (epoch_tables (set_epochs g (gs_epochs g)) ep) with (epoch_tables g ep).
    destruct (epoch_tables g ep). cbn. f_equal. set_solver. }
  unfold DelHead at 2. rewrite in_epoch_open by done. rewrite go_bind_Ret. cbv beta.
  set (m1 := <[ep := _]> (gs_epochs g)). destruct (IH (set_epochs g m1)) as (m & -> & Ho' & Hx & Ht); [done|].
  exists m. split; [done|]. split; [done|]. split; [intros x; rewrite Hx; unfold m1; cbn; apply insert_insert_eq|].
  unfold epoch_tables in Ht |- *. cbn in Ht |- *. rewrite Ht. unfold m1. rewrite lookup_insert_eq. cbn. f_equal. set_solver.
Qed.

Lemma trackHeads_open g (header : EventHeaderData) : open g (Epoch header) ->
  trackHeads event_Hash g header =
    Ret (set_epochs g (<[Epoch header := connect_tables (epoch_tables g (Epoch header)) header (es_Tips (epoch_tables g (Epoch header)))]> (gs_epochs g))).
Proof.
  intros Ho. unfold trackHeads. destruct (DelHead_fold (Epoch header) (Parents header) g Ho) as (m & -> & Ho' & Hx & Ht). rewrite go_bind_Ret.
  unfold AddHead. rewrite in_epoch_open by done. cbn [gs_epochs set_epochs]. rewrite Hx, Ht. done.
Qed.
End connect.

(** ** What the callbacks leave alone *)

Record outside (g g' : GStore) : Prop := {
  ou_Events : gs_Events g' = gs_Events g;
  ou_Dbs : gs_EpochDbs g' = gs_EpochDbs g;
  ou_epochs : gs_epochs g' = gs_epochs g;
  ou_infos : gs_PackInfos g' = gs_PackInfos g;
  ou_packs : gs_Packs g' = gs_Packs g;
  ou_num : gs_PacksNum g' = gs_PacksNum g
}.
#[global] Instance outside_preorder : PreOrder outside.
Proof. split; [by intros g|]. intros g1 g2 g3 [] []. split; congruence. Qed.

Lemma outside_foldl {A} (f : GStore -> A -> GStore) (l : list A) : (forall g x, outside g (f g x)) -> forall g, outside g (foldl f g l).
Proof. intros Hf. induction l as [|x l IH]; intros g; cbn; [done|]. etrans; [apply Hf|apply IH]. Qed.

Lemma outside_refunds (epoch : Z) (txs : list EthTx) (receipts : list Receipt) (positions : gmap hash TxPosition) (seal : bool) (g g' : GStore) :
  incGasPowerRefund g epoch txs receipts positions seal = Ret g' -> outside g g'.
Proof.
  unfold incGasPowerRefund. intros Hr. apply go_bind_inv in Hr as ([i g1] & Hf & Hr). injection Hr as <-.
  assert (outside g g1) as Hg1.
  { change g with ((0, g).2). change g1 with ((i, g1).2). revert Hf. generalize (0, g) as st0. generalize (i, g1) as st1.
    induction txs as [|tx txs IH]; intros st1 st0 Hf; cbn [go_fold] in Hf; [by injection Hf as <-|].
    apply go_bind_inv in Hf as (st & Hs & Hf). etrans; [|by apply IH]. destruct st0 as [j g0]. unfold refundTx in Hs. go_inv Hs.
    destruct (tx_Gas (et_tx tx) <? r_GasUsed x); [done|]. injection Hs as <-. cbn [snd].
    destruct (minGasPowerRefund <=? _); [|done]. unfold IncGasPowerRefund. by destruct (_ =? 0). }
  destruct seal; [|done]. by etrans; [exact Hg1|].
Qed.

Lemma outside_stats (g g' : GStore) (epoch blockTime blockFee : Z) (seal : bool) (stats : EpochStats) :
  updateEpochStats g epoch blockTime blockFee seal = Ret (stats, g') -> outside g g'.
Proof. unfold updateEpochStats. destruct (GetDirtyEpochStats g); [|done]. by destruct seal; intros Hs; injection Hs as <- <-. Qed.

Lemma outside_sealed (g : GStore) (epoch : Z) (cheaters : list Z) : outside g (onEpochSealed g epoch cheaters).
Proof. unfold onEpochSealed. etrans; [by apply (outside_foldl (fun g id => DelLastHeader g epoch id))|]. done. Qed.

Section running.
Context (hash_Of : list bytes -> hash) (ContractAddress : bytes) (eth : EthParams) (Ether : Z) (config : ServiceConfig).
Context (event_Hash : EventHeaderData -> hash) (event_Size : GEvent -> Z) (DeriveSha : list EthTx -> hash).
Context {S D B PS PD : Type} `{ObjStore Z SfcStaker PS S} `{ObjStore bytes SfcDelegator PD D} `{Lru Z BlocksMissed B}.
Context {E : Type} `{EvmState E} (Sender : EthTx -> option bytes) (Cost : EthTx -> Z) (StateDB_open : hash -> E) (Commit : E -> hash).
Context {C : Type} `{LruEvict hash bytes C}.
Context (EmptyTxHash : hash).
Abbreviation Ring := (OccurredTxs.buffer (A := bytes) (C := C)).
Abbreviation Svc := (Service S D B Ring).
Abbreviation applyBlock := (applyBlock hash_Of ContractAddress eth config event_Hash DeriveSha Sender Cost StateDB_open Commit).
Abbreviation applyNewState := (applyNewState hash_Of ContractAddress eth config event_Hash DeriveSha Sender Cost StateDB_open Commit).
Abbreviation onEventConfirmed := (onEventConfirmed event_Hash EmptyTxHash).
Implicit Types s : Svc.

Lemma outside_applyNewState s (epoch : Z) (block : Block) (cheaters : list Z) (ap : Applied) s' :
  applyNewState s epoch block cheaters = Ret (ap, s') -> outside (sv_store s) (sv_store s').
Proof.
  unfold Gossip.applyNewState. intros Ha. apply go_bind_inv in Ha as ([[b eb] evs] & _ & Ha). cbv beta iota zeta in Ha.
  destruct (GetBlock (sv_store s) (u64 (bl_Index b - 1))) as [prev|]; [|done]. cbv beta iota in Ha.
  destruct (BeginBlock _ _ _ _ _ _) as [a ctx]. cbv beta iota in Ha. apply go_bind_inv in Ha as ([[[ab eb1] rs] ctx1] & _ & Ha). cbv beta iota zeta in Ha.
  apply go_bind_inv in Ha as (g1 & Hg1 & Ha). apply go_bind_inv in Ha as ([st g2] & Hg2 & Ha). cbv beta iota in Ha.
  apply go_bind_inv in Ha as ([[root aep] a1] & _ & Ha). cbv beta iota zeta in Ha. injection Ha as _ <-. cbn.
  etrans; [by eapply outside_refunds|]. etrans; [by eapply outside_stats|]. destruct (ctx_sealEpoch ctx1); [apply outside_sealed|done].
Qed.

Lemma outside_applyBlock s (epoch : Z) (block : Block) (decided : Z) (cheaters : list Z) (r : hash * bool) s' :
  applyBlock s epoch block decided cheaters = Ret (r, s') -> outside (sv_store s) (sv_store s').
Proof.
  unfold Gossip.applyBlock. intros Ha. apply go_bind_inv in Ha as (leg & _ & Ha). apply go_bind_inv in Ha as ([ap s1] & Hn & Ha). cbv beta iota zeta in Ha.
  case_match; [done|]. injection Ha as <- <-. cbn. etrans; [by eapply outside_applyNewState|].
  case_match; [|done]. etrans; [|apply outside_foldl]; [done|]. intros g tx. by case_match.
Qed.

(** The callbacks that the engine makes while it processes an event. *)
Inductive callback s : Svc -> Prop :=
  | cb_confirmed (header : EventHeaderData) (seqDepth : Z) s' : onEventConfirmed s header seqDepth = Ret s' -> callback s s'
  | cb_block (epoch : Z) (block : Block) (decided : Z) (cheaters : list Z) (r : hash * bool) s' : applyBlock s epoch block decided cheaters = Ret (r, s') -> callback s s'
  | cb_validators (newEpoch : Z) : callback s (selectValidatorsGroup Ether s newEpoch).2.

Lemma outside_callback s s' : callback s s' -> outside (sv_store s) (sv_store s').
Proof.
  intros [header depth s1 Hc|epoch block d ch r s1 Hb|newEpoch].
  - unfold Gossip.onEventConfirmed in Hc. apply go_bind_inv in Hc as (occ & _ & Hc). injection Hc as <-. cbn. by case_match.
  - by eapply outside_applyBlock.
  - unfold selectValidatorsGroup. by destruct (os_GetSnap _ _).
Qed.

Lemma outside_callbacks s s' : rtc callback s s' -> outside (sv_store s) (sv_store s').
Proof. induction 1 as [|s1 s2 s3 Hs1 _ IH]; [done|]. etrans; [by apply outside_callback|done]. Qed.
End running.

(** ** A running epoch *)

Section epoch.
Context (hash_Of : list bytes -> hash) (ContractAddress : bytes) (eth : EthParams) (Ether : Z) (config : ServiceConfig).
Context (event_Hash : EventHeaderData -> hash) (event_Size : GEvent -> Z) (DeriveSha : list EthTx -> hash).
Context {S D B PS PD : Type} `{ObjStore Z SfcStaker PS S} `{ObjStore bytes SfcDelegator PD D} `{Lru Z BlocksMissed B}.
Context {E : Type} `{EvmState E} (Sender : EthTx -> option bytes) (Cost : EthTx -> Z) (StateDB_open : hash -> E) (Commit : E -> hash).
Context {C : Type} `{LruEvict hash bytes C}.
Context (EmptyTxHash : hash).
Abbreviation Ring := (OccurredTxs.buffer (A := bytes) (C := C)).
Abbreviation Svc := (Service S D B Ring).
Abbreviation callback := (callback hash_Of ContractAddress eth Ether config event_Hash DeriveSha Sender Cost StateDB_open Commit EmptyTxHash).
Context {X err err' : Type} (engine_ProcessEvent : X -> Svc -> EventHeaderData -> go (option err * X * Svc)) (engine_GetEpoch : X -> Z).
Context (TxSender : EthTx -> err' + bytes).
Abbreviation processEvent := (processEvent event_Hash event_Size engine_ProcessEvent engine_GetEpoch TxSender).
Abbreviation ehash e := (event_Hash (ge_header e)).
Abbreviation hashes evs := ((fun e : GEvent => event_Hash (ge_header e)) <$> evs).
Implicit Types (s : Svc) (e : GEvent) (evs : list GEvent) (x : X) (g : GStore).

Context (hash_epoch : forall hd, is_u32 (Epoch hd) -> hash_Epoch (event_Hash hd) = Ret (Epoch hd)).
Context (size_ok : forall e, 0 <= event_Size e < 2 ^ 31).
Context (engine_calls_back : forall x s hd r x' s', engine_ProcessEvent x s hd = Ret (r, x', s') -> rtc callback s s').

Lemma HasEventHeader_open g (ep : Z) evs e : epoch_ok event_Hash event_Size ep evs g -> Epoch (ge_header e) = ep -> is_u32 ep ->
  HasEventHeader g (ehash e) = Ret (bool_decide (ehash e ∈ hashes evs), g).
Proof.
  intros Hok He Hu. unfold HasEventHeader. rewrite hash_epoch by (by rewrite He). rewrite go_bind_Ret, He, from_epoch_open by apply Hok.
  f_equal. f_equal. apply bool_decide_ext. rewrite list_elem_of_fmap. split.
  - intros [hd (e' & He' & Hh & _)%(eo_headers _ _ _ _ _ Hok)]. by exists e'.
  - intros (e' & Hh & He'). exists (ge_header e'). apply (eo_headers _ _ _ _ _ Hok). by exists e'.
Qed.

(** The store with the event, before the engine accepts it. *)
Definition with_event g e : GStore :=
  let es := epoch_tables g (Epoch (ge_header e)) in
  set_epochs (set_Events g (<[ehash e := e]> (gs_Events g)))
    (<[Epoch (ge_header e) := mkEpochStore (<[ehash e := ge_header e]> (es_Headers es)) (es_Tips es) (es_Heads es)]> (gs_epochs g)).

Lemma SetEvent_open g e : open g (Epoch (ge_header e)) -> SetEvent event_Hash g e = Ret (with_event g e).
Proof. intros Ho. unfold SetEvent, SetEventHeader. by rewrite in_epoch_open. Qed.

Lemma outside_tables g g' (ep : Z) : outside g g' -> epoch_tables g' ep = epoch_tables g ep /\ (open g ep -> open g' ep).
Proof. intros []. unfold epoch_tables, open. by rewrite ou_epochs0, ou_Dbs0. Qed.

(** An event that the engine refuses leaves nothing behind. *)
Lemma refused_step (ep : Z) evs g g1 e : epoch_ok event_Hash event_Size ep evs g -> Epoch (ge_header e) = ep -> ehash e ∉ hashes evs ->
  outside (with_event g e) g1 -> exists g', DeleteEvent g1 (Epoch (ge_header e)) (ehash e) = Ret g' /\ epoch_ok event_Hash event_Size ep evs g'.
Proof.
  intros Hok He Hnew Hout. destruct (outside_tables _ _ ep Hout) as [Ht Ho]. specialize (Ho (eo_open _ _ _ _ _ Hok)).
  unfold with_event in Ht. rewrite He, epoch_tables_set in Ht. unfold DeleteEvent, DelEventHeader. rewrite He, in_epoch_open by done.
  eexists. split; [reflexivity|]. change (epoch_tables (set_Events g1 (delete (ehash e) (gs_Events g1))) ep) with (epoch_tables g1 ep). rewrite Ht. cbn [es_Headers es_Tips es_Heads].
  destruct Hok as [_ Hnd Hst Hhd Hheads (pinned & cur & Hp)]. split; rewrite ?epoch_tables_set; cbn [es_Headers es_Heads]; try done.
  - intros e' He'. cbn. rewrite (ou_Events _ _ Hout). cbn. assert (ehash e' <> ehash e) by (intros Heq; apply Hnew; rewrite <-Heq; by apply in_hashes).
    rewrite lookup_delete_ne, lookup_insert_ne by done. by apply Hst.
  - intros h hd. rewrite <-Hhd. rewrite delete_insert_id; [done|]. destruct (es_Headers (epoch_tables g ep) !! ehash e) eqn:El; [|done].
    apply Hhd in El as (e' & He' & Hh & _). exfalso. apply Hnew. rewrite <-Hh. by apply in_hashes.
  - exists pinned, cur. destruct Hout. by apply (packs_ok_ext _ _ _ _ _ _ g).
Qed.

(** An accepted one becomes the head over its parents. *)
Lemma connected_step (ep : Z) evs g g1 e : epoch_ok event_Hash event_Size ep evs g -> Epoch (ge_header e) = ep -> ehash e ∉ hashes evs ->
  (forall e' p, e' ∈ evs -> p ∈ Parents (ge_header e') -> p ∈ hashes evs) ->
  (forall p, p ∈ Parents (ge_header e) -> p ∈ hashes evs) -> outside (with_event g e) g1 ->
  exists g2, SetLastEvent g1 (Epoch (ge_header e)) (Creator (ge_header e)) (ehash e) = Ret g2 /\ exists g3, trackHeads event_Hash g2 (ge_header e) = Ret g3 /\
  (zlen evs < 2 ^ 31 -> exists g4, packsOnNewEvent event_Hash event_Size ep g3 e ep = Ret g4 /\ epoch_ok event_Hash event_Size ep (evs ++ [e]) g4) /\
  open g3 ep /\ gs_EpochDbs g3 = gs_EpochDbs g /\ (forall h, h ∈ es_Heads (epoch_tables g3 ep) <-> is_head event_Hash (evs ++ [e]) h) /\ 
  (forall ep', ep' <> ep -> epoch_tables g3 ep' = epoch_tables g ep') /\ outside (set_epochs g1 (gs_epochs g3)) g3.
Proof.
  intros Hok He Hnew Hcl Hpar Hout. destruct (outside_tables _ _ ep Hout) as [Ht Ho]. specialize (Ho (eo_open _ _ _ _ _ Hok)).
  unfold with_event in Ht. rewrite He, epoch_tables_set in Ht. unfold SetLastEvent. rewrite He, in_epoch_open, Ht by done. cbn [es_Headers es_Tips es_Heads].
  eexists. split; [reflexivity|]. rewrite (trackHeads_open event_Hash) by (by rewrite He). rewrite He, !epoch_tables_set. cbn [es_Headers es_Tips es_Heads connect_tables].
  eexists. split; [reflexivity|]. set (g3 := set_epochs _ _).
  assert (epoch_tables g3 ep = connect_tables event_Hash (mkEpochStore (<[ehash e := ge_header e]> (es_Headers (epoch_tables g ep))) ∅ (es_Heads (epoch_tables g ep))) (ge_header e)
    (<[Creator (ge_header e) := ehash e]> (es_Tips (epoch_tables g ep)))) as Ht3 by (unfold g3; by rewrite epoch_tables_set).
  assert (forall h, h ∈ es_Heads (epoch_tables g3 ep) <-> is_head event_Hash (evs ++ [e]) h) as Hheads.
  { intros h. rewrite Ht3. cbn. rewrite (is_head_snoc _ event_Size _ _ _ Hcl Hpar Hnew), elem_of_union, elem_of_difference, elem_of_list_to_set, elem_of_singleton.
    by rewrite (eo_heads _ _ _ _ _ Hok). }
  assert (open g3 ep) as Ho3 by done.
  split; [|split; [exact Ho3|]; split; [exact (ou_Dbs _ _ Hout)|]; split; [exact Hheads|]; split; [|by split]].
  2: { intros ep' Hne. unfold g3, epoch_tables. cbn. rewrite !lookup_insert_ne, (ou_epochs _ _ Hout) by done. unfold with_event. cbn. by rewrite He, lookup_insert_ne by done. }
  intros Hlen. destruct Hok as [_ Hnd Hst Hhd _ (pinned & cur & Hp)].
  destruct (packs_step event_Hash event_Size size_ok ep evs pinned cur g3 e) as (g4 & pinned' & cur' & -> & Hp' & Hop); try done.
  { destruct Hout. by apply (packs_ok_ext _ _ _ _ _ _ g). }
  eexists. split; [reflexivity|]. destruct (only_packs_ok g3 g4 ep Hop) as (Ho4 & Ht4 & He4 & _). split; rewrite ?Ht4, ?Ht3; cbn [connect_tables es_Headers]; try done.
  - by apply Ho4.
  - rewrite fmap_app. apply NoDup_app. split_and!; [done| |by apply NoDup_singleton]. intros h Hh ->%list_elem_of_singleton. done.
  - intros e' He'. rewrite He4. cbn. rewrite (ou_Events _ _ Hout). cbn. apply elem_of_app in He' as [He'| ->%list_elem_of_singleton]; [|by rewrite lookup_insert_eq].
    rewrite lookup_insert_ne; [by apply Hst|]. intros Heq. apply Hnew. rewrite Heq. by apply in_hashes.
  - intros h hd. rewrite lookup_insert_Some, Hhd. split.
    + intros [[<- <-]|[_ (e' & He' & Hh)]]; [exists e; set_solver|exists e'; set_solver].
    + intros (e' & [He'| ->%list_elem_of_singleton]%elem_of_app & Hh & Hd); [right|by left]. split; [|by exists e'].
      intros <-. apply Hnew. rewrite <-Hh. by apply in_hashes.
  - rewrite <-Ht3. exact Hheads.
  - by exists pinned', cur'.
Qed.

(** The events of an epoch: the connected ones, in their order. *)
Inductive epoch_run (ep : Z) : list GEvent -> X -> Svc -> Prop :=
  | er_start x s : fresh ep (sv_store s) -> epoch_run ep [] x s
  | er_connected evs x s e x' s' : epoch_run ep evs x s -> Epoch (ge_header e) = ep ->
      (forall p, p ∈ Parents (ge_header e) -> p ∈ hashes evs) ->
      processEvent x s e = Ret (None, x', s') -> engine_GetEpoch x' = ep -> epoch_run ep (evs ++ [e]) x' s'
  | er_refused evs x s e r x' s' : epoch_run ep evs x s -> Epoch (ge_header e) = ep -> processEvent x s e = Ret (Some r, x', s') -> epoch_run ep evs x' s'.

Definition parents_first evs : Prop := forall evs1 e evs2, evs = evs1 ++ e :: evs2 -> forall p, p ∈ Parents (ge_header e) -> p ∈ hashes evs1.

Lemma parents_first_closed evs : parents_first evs -> forall e p, e ∈ evs -> p ∈ Parents (ge_header e) -> p ∈ hashes evs.
Proof.
  intros Hpf e p (evs1 & evs2 & ->)%list_elem_of_split Hp. rewrite fmap_app, elem_of_app. left. by apply (Hpf evs1 e evs2).
Qed.

Abbreviation connectEvent := (connectEvent event_Hash event_Size engine_GetEpoch TxSender).

(** The cases of [processEvent]: the event is known, refused or connected. *)
Lemma processEvent_cases (ep : Z) evs x s e r x' s' : epoch_ok event_Hash event_Size ep evs (sv_store s) -> Epoch (ge_header e) = ep -> is_u32 ep ->
  processEvent x s e = Ret (r, x', s') ->
  (r = Some None /\ x' = x /\ s' = s) \/
  ((ehash e ∉ hashes evs) /\ exists s1, outside (with_event (sv_store s) e) (sv_store s1) /\
   ((exists er, r = Some (Some er) /\ exists g, DeleteEvent (sv_store s1) (Epoch (ge_header e)) (ehash e) = Ret g /\ s' = with_gstore s1 g) \/
    (r = None /\ connectEvent x' s1 e = Ret s'))).
Proof.
  intros Hok He Hu Hp. unfold Gossip.processEvent in Hp. rewrite (HasEventHeader_open _ ep evs) in Hp by done. rewrite go_bind_Ret in Hp. cbv beta iota zeta in Hp.
  case_bool_decide as Hin; [injection Hp as <- <- <-; left; by destruct s|].
  right. split; [done|]. rewrite SetEvent_open in Hp by (rewrite He; apply Hok). rewrite go_bind_Ret in Hp.
  apply go_bind_inv in Hp as ([[failed x1] s1] & Hen & Hp). cbv beta iota zeta in Hp. exists s1.
  split; [apply engine_calls_back in Hen; exact (outside_callbacks _ _ _ _ _ _ _ _ _ _ _ _ _ _ Hen)|].
  destruct failed as [er|].
  - apply go_bind_inv in Hp as (g & Hd & Hp). injection Hp as <- <- <-. left. exists er. split; [done|]. by exists g.
  - apply go_bind_inv in Hp as (s2 & Hc & Hp). injection Hp as <- <- <-. by right.
Qed.

Lemma epoch_run_ok (ep : Z) evs x s : epoch_run ep evs x s -> is_u32 ep -> zlen evs < 2 ^ 31 -> epoch_ok event_Hash event_Size ep evs (sv_store s) /\ parents_first evs.
Proof.
  intros Hrun Hu. induction Hrun as [x s Hf|evs x s e x' s' Hrun IH He Hpar Hp Hep|evs x s e r x' s' Hrun IH He Hp]; intros Hlen.
  - split; [by apply fresh_ok|]. intros [|? ?] e evs2; discriminate.
  - rewrite length_snoc in Hlen. destruct IH as [Hok Hpf]; [lia|]. split.
    + destruct (processEvent_cases ep evs x s e None x' s' Hok He Hu Hp) as [(? & _)|(Hnew & s1 & Hout & [(? & ? & _)|(_ & Hc)])]; [done..|].
      destruct (connected_step ep evs (sv_store s) (sv_store s1) e Hok He Hnew (parents_first_closed evs Hpf) Hpar Hout) as (g2 & E2 & g3 & E3 & Hpk & _).
      destruct (Hpk ltac:(lia)) as (g4 & E4 & Hok4). unfold Gossip.connectEvent in Hc. destruct (CollectNotConfirmedTxs _ _ _ _) as [o1 o2].
      rewrite E2, go_bind_Ret, E3, go_bind_Ret, Hep, He, E4, go_bind_Ret, Z.eqb_refl in Hc. injection Hc as <-. done.
    + intros evs1 e1 evs2. destruct evs2 as [|e2 evs2 _] using rev_ind; intros Heq.
      * apply app_inj_tail in Heq as [<- <-]. done.
      * rewrite app_comm_cons, app_assoc in Heq. apply app_inj_tail in Heq as [-> _]. by apply (Hpf evs1 e1 evs2).
  - destruct (IH Hlen) as [Hok Hpf]. split; [|done].
    destruct (processEvent_cases ep evs x s e (Some r) x' s' Hok He Hu Hp) as [(_ & _ & ->)|(Hnew & s1 & Hout & [(er & _ & g & Hd & ->)|(? & _)])]; [done| |done].
    destruct (refused_step ep evs (sv_store s) (sv_store s1) e Hok He Hnew Hout) as (g' & Ed & Hok'). rewrite Ed in Hd. by injection Hd as <-.
Qed.

(** C14: The tables of a running epoch describe its events.  After any
    sequence of events the heads are the connected events without connected
    children; the packs cut the connected events, in their order, into groups
    that end as soon as they hold 250 events or two megabytes, each described
    by its number of events and its size; and the heads pinned with a pack
    reach, through parents, every event of that pack and of the packs before:
    a peer that follows them misses nothing. *)
Theorem epoch_heads_and_packs (ep : Z) (evs : list GEvent) (x : X) (s : Svc) : epoch_run ep evs x s -> is_u32 ep -> zlen evs < 2 ^ 31 ->
  (exists heads, GetHeads (sv_store s) ep = Ret (heads, sv_store s) /\ forall h, h ∈ heads <-> is_head event_Hash evs h) /\
  exists pinned cur, packs_ok event_Hash event_Size ep evs pinned cur (sv_store s) /\
    forall (i : nat) info e, (i < length pinned)%nat -> gs_PackInfos (sv_store s) !! (ep, 1 + Z.of_nat i) = Some info -> e ∈ mjoin (take (Datatypes.S i) pinned) ->
      exists h, h ∈ pi_Heads info /\ rtc (parent_of event_Hash evs) h (ehash e).
Proof.
  intros Hrun Hu Hlen. destruct (epoch_run_ok ep evs x s Hrun Hu Hlen) as [Hok Hpf]. split.
  { destruct (elem_of_GetHeads (sv_store s) ep (eo_open _ _ _ _ _ Hok)) as (heads & Hg & Hh). exists heads. split; [done|].
    intros h. rewrite Hh. apply Hok. }
  pose proof (eo_packs _ _ _ _ _ Hok) as (pinned & cur & Hp). exists pinned, cur. split; [done|]. intros i info e Hi Hinf He.
  destruct (lookup_lt_is_Some_2 pinned i Hi) as [c Hc]. destruct (po_pinned _ _ _ _ _ _ _ Hp i c Hc) as (_ & _ & heads & Hinf' & Hh).
  rewrite Hinf in Hinf'. injection Hinf' as ->. cbn [pi_Heads].
  set (prefix := mjoin (take (Datatypes.S i) pinned)) in *. assert (exists rest, evs = prefix ++ rest) as [rest Heq].
  { exists (mjoin (drop (Datatypes.S i) pinned) ++ cur). rewrite (po_events _ _ _ _ _ _ _ Hp), app_assoc. f_equal. unfold prefix. by rewrite <-join_app, take_drop. }
  destruct (heads_cover event_Hash event_Size prefix) with (e := e) as (h & Hhd & Hr); [| |done|].
  - intros evs1 e1 evs2 Hpre. apply (Hpf evs1 e1 (evs2 ++ rest)). by rewrite Heq, Hpre, <-app_assoc.
  - pose proof (eo_nodup _ _ _ _ _ Hok) as Hnd. rewrite Heq, fmap_app in Hnd. by apply NoDup_app in Hnd as (Hnd & _).
  - exists h. split; [by apply Hh|]. clear -Hr Heq. induction Hr as [|a b c Hab _ IH]; [done|]. apply rtc_l with b; [|done].
    destruct Hab as (e1 & He1 & Hab). exists e1. split; [|done]. rewrite Heq. set_solver.
Qed.

(** Nothing is known of the epoch. *)
Definition unused (ep : Z) g : Prop :=
  epoch_tables g ep = empty_epoch /\ gs_PacksNum g !! ep = None /\ forall i, gs_PackInfos g !! (ep, i) = None /\ gs_Packs g !! (ep, i) = None.

(** The databases move to the next epoch. *)
Lemma next_databases (ep : Z) g : open g ep -> is_u32 ep -> unused (ep + 1) g ->
  exists g1 g2, delEpochStore g ep = Ret g1 /\ getEpochStore g1 (ep + 1) = Ret (Some (ep + 1), g2) /\ fresh (ep + 1) g2 /\
    gs_PackInfos g2 = gs_PackInfos g /\ gs_Packs g2 = gs_Packs g /\ gs_PacksNum g2 = gs_PacksNum g.
Proof.
  intros (lo & hi & Hw & Hr) Hu (Ht & Hn & Hp). pose proof (wd_range _ _ _ _ Hw) as Hrange. unfold is_u32 in Hu.
  assert (op_window (lo, hi) (OpDel ep) = Some (ep + 1, hi)) as Ed.
  { cbn. destruct (Z.ltb_spec ep lo); [lia|]. destruct (Z.ltb_spec ep hi); [done|lia]. }
  destruct (op_step id _ lo hi (OpDel ep) (ep + 1, hi) Hw ltac:(cbn [snd]; lia) Ed) as (t1 & E1 & Hw1 & Hd1). cbn [fst snd] in Hw1.
  cbn [run_op] in E1. apply go_bind_inv in E1 as (t & E1 & E1b). injection E1b as ->.
  assert (exists u, op_window (ep + 1, hi) (OpGet (ep + 1)) = Some u /\ u.2 < 2 ^ 63 - 1 /\ u.1 <= ep + 1 < u.2) as (u & Eg & Hub & Hur).
  { unfold op_window. rewrite Z.ltb_irrefl. destruct (Z.eqb_spec (ep + 1) hi); [|destruct (Z.ltb_spec (ep + 1) hi); [|lia]]; eexists; (split; [reflexivity|cbn [fst snd]; lia]). }
  destruct (op_step id t1 (ep + 1) hi (OpGet (ep + 1)) u Hw1 Hub Eg) as (t2 & E2 & Hw2 & Hd2). cbn [run_op] in E2. rewrite Z.ltb_irrefl in E2.
  unfold delEpochStore. rewrite E1, go_bind_Ret. cbv zeta. eexists _, _. split; [reflexivity|].
  unfold getEpochStore. cbn [gs_EpochDbs set_epochs set_EpochDbs]. rewrite E2, go_bind_Ret. split; [reflexivity|]. split; [|done].
  split; cbn; try done.
  - exists u.1, u.2. done.
  - unfold epoch_tables in Ht |- *. cbn. rewrite Hd1. rewrite length_app, Nat.add_sub, take_app_length.
    assert (forall l m, (ep + 1) ∉ l -> foldl (fun (t : gmap Z EpochStore) db => delete db t) m l !! (ep + 1) = m !! (ep + 1)) as Hf.
    { induction l as [|a l IH]; intros m Hl; cbn; [done|]. rewrite IH by set_solver. apply lookup_delete_ne. set_solver. }
    rewrite Hf; [done|]. rewrite list_elem_of_In, <-in_rev, <-list_elem_of_In, list_fmap_id, elem_of_seqZ. lia.
Qed.

(** The pack of the last event: it is described by what the tables say of the
    next epoch, which is nothing. *)
Lemma last_pack (ep : Z) evs pinned cur g e : packs_ok event_Hash event_Size ep evs pinned cur g -> open g ep -> zlen evs < 2 ^ 31 -> event_Size e < maxPackSize ->
  (forall i, gs_PackInfos g !! (ep + 1, i) = None) ->
  exists g1 g2 heads, packsOnNewEvent event_Hash event_Size (ep + 1) g e ep = Ret g1 /\ packsOnNewEpoch (ep + 1) g1 ep = Ret g2 /\ only_packs g g2 /\
    (forall h, h ∈ heads <-> h ∈ es_Heads (epoch_tables g ep)) /\ GetPacksNumOrDefault g2 ep = 2 + zlen pinned /\
    gs_PackInfos g2 !! (ep, 1 + zlen pinned) = Some (mkPackInfo (1 + zlen pinned) 0 0 heads) /\
    GetPack g2 ep (1 + zlen pinned) = list_to_set (hashes (cur ++ [e])) /\
    forall ep', ep' <> ep -> gs_PacksNum g2 !! ep' = gs_PacksNum g !! ep' /\ forall i, gs_PackInfos g2 !! (ep', i) = gs_PackInfos g !! (ep', i) /\ gs_Packs g2 !! (ep', i) = gs_Packs g !! (ep', i).
Proof.
  intros Hok Ho Hlen Hsz Hun. pose proof (pinned_le_events _ _ _ _ _ _ _ Hok) as Hple. destruct Hok as [-> Hnum _ (_ & Hcp & _) _].
  pose proof (size_ok e). pose proof (zlen_nonneg pinned). unfold packsOnNewEvent. rewrite Hnum. unfold GetPackInfoOrDefault, GetPackInfo at 1 2 3. rewrite Hun. cbn [default from_option pi_NumOfEvents pi_Size pi_Heads].
  rewrite (u32_id (event_Size e)), (u32_id (0 + 1)), (u32_id (0 + event_Size e)) by (unfold is_u32; lia).
  rewrite (proj2 (Z.leb_gt maxPackEventsNum (0 + 1))), (proj2 (Z.leb_gt maxPackSize (0 + event_Size e))) by (unfold maxPackEventsNum, softLimitItems; lia). cbn [orb].
  set (g1 := SetPackInfo _ _ _ _). eexists _. unfold packsOnNewEpoch.
  assert (GetPacksNumOrDefault g1 ep = 1 + zlen pinned) as -> by exact Hnum.
  assert (GetPackInfoOrDefault g1 (ep + 1) (1 + zlen pinned) = mkPackInfo (1 + zlen pinned) 0 0 []) as Hi1.
  { unfold GetPackInfoOrDefault, GetPackInfo, g1. cbn. by rewrite lookup_insert_ne, Hun by (intros [=]; lia). }
  rewrite Hi1. cbn [pi_Index pi_Size pi_NumOfEvents].
  destruct (elem_of_GetHeads g1 ep Ho) as (heads & Eh & Hh). eexists _, heads. split; [reflexivity|]. rewrite Eh, go_bind_Ret.
  split; [reflexivity|]. split; [by unfold only_packs, g1, AddToPack; eauto|]. split; [exact Hh|]. unfold g1, GetPacksNumOrDefault, GetPacksNum, GetPack. cbn.
  rewrite !lookup_insert_eq. cbn. rewrite u32_id by (unfold is_u32; lia). split_and!; [lia|done| |].
  - change (default ∅ (gs_Packs g !! (ep, 1 + zlen pinned))) with (GetPack g ep (1 + zlen pinned)). rewrite Hcp, fmap_app, list_to_set_app_L. cbn. set_solver.
  - intros ep' Hne. rewrite lookup_insert_ne by done. split; [done|]. intros i. by rewrite !lookup_insert_ne by congruence.
Qed.

(** C15: Sealing an epoch pins its last pack and opens the next one.  The
    heads of the last pack are those of the whole epoch, the pack holds the
    events since the pack before, the databases of the epoch are dropped and
    the next epoch starts with empty tables; but the pack is described as if
    it had no events and no bytes, as its description is looked up under the
    epoch that begins. *)
Theorem sealed_epoch_last_pack (ep : Z) (evs : list GEvent) (x : X) (s : Svc) (e : GEvent) (x' : X) (s' : Svc) :
  epoch_run ep evs x s -> is_u32 ep -> zlen evs < 2 ^ 31 -> Epoch (ge_header e) = ep -> (forall p, p ∈ Parents (ge_header e) -> p ∈ hashes evs) ->
  event_Size e < maxPackSize -> unused (ep + 1) (sv_store s) -> processEvent x s e = Ret (None, x', s') -> engine_GetEpoch x' = ep + 1 ->
  exists idx pinned cur heads, evs = mjoin pinned ++ cur /\ GetPacksNumOrDefault (sv_store s') ep = idx + 1 /\
    gs_PackInfos (sv_store s') !! (ep, idx) = Some (mkPackInfo idx 0 0 heads) /\ (forall h, h ∈ heads <-> is_head event_Hash (evs ++ [e]) h) /\
    GetPack (sv_store s') ep idx = list_to_set (hashes (cur ++ [e])) /\ fresh (ep + 1) (sv_store s').
Proof.
  intros Hrun Hu Hlen He Hpar Hsz (Ht & Hn & Hun) Hp Hep. destruct (epoch_run_ok ep evs x s Hrun Hu Hlen) as [Hok Hpf].
  destruct (processEvent_cases ep evs x s e None x' s' Hok He Hu Hp) as [(? & _)|(Hnew & s1 & Hout & [(? & ? & _)|(_ & Hc)])]; [done..|].
  destruct (connected_step ep evs (sv_store s) (sv_store s1) e Hok He Hnew (parents_first_closed evs Hpf) Hpar Hout) as (g2 & E2 & g3 & E3 & _ & Ho3 & _ & Hheads & Hother & Hg3).
  pose proof (eo_packs _ _ _ _ _ Hok) as (pinned & cur & Hpk).
  assert (packs_ok event_Hash event_Size ep evs pinned cur g3) as Hpk3 by (apply (packs_ok_ext _ _ _ _ _ _ (sv_store s));
    [exact (eq_trans (ou_infos _ _ Hg3) (ou_infos _ _ Hout))|exact (eq_trans (ou_packs _ _ Hg3) (ou_packs _ _ Hout))|exact (eq_trans (ou_num _ _ Hg3) (ou_num _ _ Hout))|done]).
  assert (forall i, gs_PackInfos g3 !! (ep + 1, i) = None /\ gs_Packs g3 !! (ep + 1, i) = None) as Hun3.
  { intros i. rewrite (ou_infos _ _ Hg3), (ou_packs _ _ Hg3). cbn. rewrite (ou_infos _ _ Hout), (ou_packs _ _ Hout). apply Hun. }
  destruct (last_pack ep evs pinned cur g3 e Hpk3 Ho3 Hlen Hsz (fun i => proj1 (Hun3 i))) as (g4 & g5 & heads & E4 & E5 & Hop & Hh & Hnum & Hinf & Hgp & Hoth).
  destruct (only_packs_ok g3 g5 ep Hop) as (Ho5 & _). destruct (Hoth (ep + 1) ltac:(lia)) as [Hn5 Hp5].
  destruct (next_databases ep g5 (Ho5 Ho3) Hu) as (g6 & g7 & E6 & E7 & Hfr & Hi7 & Hp7 & Hn7).
  { split_and!; [|rewrite Hn5|intros i; by destruct (Hp5 i) as [-> ->]].
    - destruct Hop as (a & b & c & ->). etransitivity; [apply Hother; lia|exact Ht].
    - rewrite (ou_num _ _ Hg3). cbn. rewrite (ou_num _ _ Hout). exact Hn. }
  unfold Gossip.connectEvent in Hc. destruct (CollectNotConfirmedTxs _ _ _ _) as [o1 o2].
  rewrite E2, go_bind_Ret, E3, go_bind_Ret, Hep, He, E4, go_bind_Ret in Hc. destruct (Z.eqb_spec (ep + 1) ep); [lia|]. cbn [negb] in Hc.
  rewrite E5, go_bind_Ret, E6, go_bind_Ret, E7, !go_bind_Ret in Hc. injection Hc as <-. cbn [sv_store].
  exists (1 + zlen pinned), pinned, cur, heads. unfold GetPacksNumOrDefault, GetPacksNum, GetPack in *. rewrite Hi7, Hp7, Hn7.
  split_and!; [apply Hpk|rewrite Hnum; lia|done| |done|done]. intros h. by rewrite Hh, Hheads.
Qed.
End epoch.
