(* ===== verification/GossipExample.v ===== *)
(** * A service that runs

    A node of the example network with an engine that accepts every event
    and seals the epoch with the second one; the witnesses for the theorems
    on the service. *)

From S2P Require Import Prelude Bytes Pos Event VecStore EventCheck EventBuffer OccurredTxs SfcStore Sfc SfcSim StateTransition TransitionSpec App AppScores TempDbs Gossip GossipSpec GossipHeads.

Definition toy_marshal (hd : EventHeaderData) : bytes := [Creator hd; Seq hd].
Definition toy_keccak (b : bytes) : bytes := replicate (32 - length b) 0 ++ b.
Definition toy_event_hash : EventHeaderData -> hash := CalcHash toy_marshal toy_keccak.
Definition toy_size (e : GEvent) : Z := 1000.

Lemma toy_hash_epoch (hd : EventHeaderData) : is_u32 (Epoch hd) -> hash_Epoch (toy_event_hash hd) = Ret (Epoch hd).
Proof. apply CalcHash_Epoch. Qed.

Abbreviation ToyRing := (OccurredTxs.buffer (A := bytes) (C := lrulist hash bytes)).
Abbreviation ToyService := (Service NodeStakers NodeDelegators (simplelru Z BlocksMissed) ToyRing).
Definition toy_net : NetGenesis := mkNetGenesis (7 * second) [] ZeroHash 1000.
Definition toy_service_config : ServiceConfig :=
  mkServiceConfig 100000 (mkDagConfig 10 3 1000 (600 * second) 50) toy_config (mkAppIndexes true true) true.
Definition empty_ring_cache : lrulist hash bytes := mkLrulist 8 [] (conj (NoDup_nil_2) (Nat.le_0_l 8)).

(** The genesis, and the tables of the first epoch. *)
Definition toy_gstore : GStore :=
  let '(_, g) := ApplyGenesis toy_marshal toy_keccak NewMemStore toy_net ZeroHash in
  match getEpochStore g 1 with Ret (_, g) => g | Fault _ => g end.
Definition toy_service : ToyService := mkService toy_gstore cold_node 1 (mkBuffer empty_ring_cache ∅) ∅.

Lemma toy_window : window id (td_seq (gs_EpochDbs toy_gstore)) 1 2.
Proof.
  assert (gs_EpochDbs toy_gstore = one_epoch) as -> by (vm_compute; reflexivity). apply one_epoch_window.
Qed.

Lemma toy_fresh : fresh 1 toy_gstore.
Proof.
  split; [exists 1, 2; split; [apply toy_window|lia]|vm_compute; reflexivity|vm_compute; reflexivity|].
  intros i. split; [change (gs_PackInfos toy_gstore) with (∅ : gmap (Z * Z) PackInfo)|change (gs_Packs toy_gstore) with (∅ : gmap (Z * Z) (gset hash))]; apply lookup_empty.
Qed.

(** An engine that accepts every event; its state is the epoch. *)
Definition toy_engine (seal : Z) (epoch : Z) (s : ToyService) (hd : EventHeaderData) : go (option string * Z * ToyService) :=
  Ret (None, (if Seq hd =? seal then epoch + 1 else epoch), s).
Definition toy_tx_sender (tx : EthTx) : string + bytes := inr [0].
Definition toy_process (seal : Z) := processEvent toy_event_hash toy_size (toy_engine seal) id toy_tx_sender.

Definition toy_header (seq : Z) (parents : list hash) : EventHeaderData :=
  mkHeader 0 1 seq 1 false 1 ZeroHash parents [0; 0] 0 seq 0 0 ZeroHash [] None.
Definition toy_e1 : GEvent := mkGEvent (toy_header 1 []) [].
Definition toy_e2 : GEvent := mkGEvent (toy_header 2 [toy_event_hash (toy_header 1 [])]) [].

Definition after (r : go (option (option string) * Z * ToyService)) : ToyService := match r with Ret (_, _, s) => s | Fault _ => toy_service end.
Definition toy_s1 : ToyService := after (toy_process 2 1 toy_service toy_e1).
Definition toy_s2 : ToyService := after (toy_process 2 1 toy_s1 toy_e2).

Example toy_first : toy_process 2 1 toy_service toy_e1 = Ret (None, 1, toy_s1).
Proof. vm_compute. reflexivity. Qed.
Example toy_second : toy_process 2 1 toy_s1 toy_e2 = Ret (None, 2, toy_s2).
Proof. vm_compute. reflexivity. Qed.

(** ** Witnesses *)

Abbreviation toy_callback := (callback toy_hash toy_contract example_eth 1000 toy_service_config toy_event_hash (fun _ => ZeroHash) toy_sender toy_cost (fun _ => toy_evm) toy_commit ZeroHash).

Lemma toy_calls_back (seal : Z) (x : Z) (s : ToyService) (hd : EventHeaderData) (r : option string) (x' : Z) (s' : ToyService) :
  toy_engine seal x s hd = Ret (r, x', s') -> rtc toy_callback s s'.
Proof. unfold toy_engine. intros Ht. injection Ht as _ _ <-. reflexivity. Qed.

Lemma toy_size_ok (e : GEvent) : 0 <= toy_size e < 2 ^ 31.
Proof. unfold toy_size. lia. Qed.

Lemma toy_run_1 : epoch_run toy_event_hash toy_size (toy_engine 2) id toy_tx_sender 1 [toy_e1] 1 toy_s1.
Proof.
  refine (er_connected _ _ _ _ _ 1 [] 1 toy_service toy_e1 1 toy_s1 (er_start _ _ _ _ _ 1 1 toy_service toy_fresh) eq_refl _ toy_first eq_refl).
  intros p Hp. by apply not_elem_of_nil in Hp.
Qed.

Lemma epoch_heads_and_packs_witness :
  (exists heads, GetHeads (sv_store toy_s1) 1 = Ret (heads, sv_store toy_s1) /\ forall h, h ∈ heads <-> is_head toy_event_hash [toy_e1] h) /\
  exists pinned cur, packs_ok toy_event_hash toy_size 1 [toy_e1] pinned cur (sv_store toy_s1) /\
    forall (i : nat) info e, (i < length pinned)%nat -> gs_PackInfos (sv_store toy_s1) !! (1, 1 + Z.of_nat i) = Some info -> e ∈ mjoin (take (S i) pinned) ->
      exists h, h ∈ pi_Heads info /\ rtc (parent_of toy_event_hash [toy_e1]) h (toy_event_hash (ge_header e)).
Proof.
  exact (epoch_heads_and_packs toy_hash toy_contract example_eth 1000 toy_service_config toy_event_hash toy_size (fun _ => ZeroHash) toy_sender toy_cost (fun _ => toy_evm) toy_commit ZeroHash
           (toy_engine 2) id toy_tx_sender toy_hash_epoch toy_size_ok (toy_calls_back 2) 1 [toy_e1] 1 toy_s1 toy_run_1 ltac:(unfold is_u32; lia) ltac:(reflexivity)).
Defined.

(** The second event seals the epoch. *)
Lemma sealed_epoch_last_pack_witness :
  exists idx pinned cur heads, [toy_e1] = mjoin pinned ++ cur /\ GetPacksNumOrDefault (sv_store toy_s2) 1 = idx + 1 /\
    gs_PackInfos (sv_store toy_s2) !! (1, idx) = Some (mkPackInfo idx 0 0 heads) /\ (forall h, h ∈ heads <-> is_head toy_event_hash ([toy_e1] ++ [toy_e2]) h) /\
    GetPack (sv_store toy_s2) 1 idx = list_to_set ((fun e : GEvent => toy_event_hash (ge_header e)) <$> (cur ++ [toy_e2])) /\ fresh 2 (sv_store toy_s2).
Proof.
  refine (sealed_epoch_last_pack toy_hash toy_contract example_eth 1000 toy_service_config toy_event_hash toy_size (fun _ => ZeroHash) toy_sender toy_cost (fun _ => toy_evm) toy_commit ZeroHash
           (toy_engine 2) id toy_tx_sender toy_hash_epoch toy_size_ok (toy_calls_back 2) 1 [toy_e1] 1 toy_s1 toy_e2 2 toy_s2 toy_run_1 _ eq_refl eq_refl _ eq_refl _ toy_second eq_refl).
  - unfold is_u32. lia.
  - intros p ->%list_elem_of_singleton. apply list_elem_of_fmap. exists toy_e1. split; [done|by left].
  - split; [vm_compute; reflexivity|]. split; [vm_compute; reflexivity|]. intros i.
    assert (gs_PackInfos (sv_store toy_s1) = {[ (1, 1) := mkPackInfo 1 1000 1 [] ]}) as -> by (vm_compute; reflexivity).
    assert (gs_Packs (sv_store toy_s1) = {[ (1, 1) := {[toy_event_hash (ge_header toy_e1)]} ]}) as -> by (vm_compute; reflexivity). by rewrite !lookup_singleton_ne.
Defined.

(** Two events of which only the second one fits. *)
Definition heavy (seq : Z) : GEvent := mkGEvent (mkHeader 0 1 seq 1 false 1 ZeroHash [] [0; 0] 60000 seq 0 0 ZeroHash [] None) [].
Definition heavy_hash (seq : Z) : hash := toy_event_hash (ge_header (heavy seq)).
Definition heavy_store : GStore := set_Events toy_gstore {[ heavy_hash 1 := heavy 1; heavy_hash 2 := heavy 2 ]}.
Definition heavy_block : Block := NewBlock 1 0 ZeroHash ZeroHash [heavy_hash 1; heavy_hash 2].

Example heavy_spilled : (fun r => bl_Events r.1) <$> spillBlockEvents toy_service_config heavy_store heavy_block = Ret [heavy_hash 2].
Proof. vm_compute. reflexivity. Qed.

Lemma block_keeps_newest_witness :
  exists dropped block' full,
  spillBlockEvents toy_service_config heavy_store heavy_block = Ret (block', full) /\ [heavy_hash 1; heavy_hash 2] = dropped ++ bl_Events block' /\
  Forall2 (fun h e => gs_Events heavy_store !! h = Some e) (bl_Events block') full /\ gas_of full <= 100000 /\
  match last dropped with
  | None => True
  | Some h => exists e, gs_Events heavy_store !! h = Some e /\ 100000 < event_gas e + gas_of full
  end.
Proof.
  apply (block_keeps_newest toy_service_config 60000 ltac:(reflexivity) ltac:(vm_compute; discriminate) heavy_store heavy_block).
  repeat constructor; [exists (heavy 1)|exists (heavy 2)]; (split; [vm_compute; reflexivity|cbn; lia]).
Defined.

(** A hash of epoch seven, while the first one runs. *)
Lemma far_epoch_crashes_witness :
  exists msg, onlyNotConnectedEvents toy_gstore [toy_event_hash (set_cache (mkHeader 0 7 1 1 false 1 ZeroHash [] [0; 0] 0 1 0 0 ZeroHash [] None) None)] = Fault (PanicMsg msg).
Proof.
  apply (far_epoch_crashes toy_gstore 1 2 7); [apply toy_window|lia|lia|]. vm_compute. reflexivity.
Defined.

(** The node after the genesis, with one validator, and its first blocks: one
    that goes on with the epoch and one that ends it. *)
Definition first_node : ToyService :=
  mkService toy_gstore (Sfc.applyGenesis [] [mkGenesisValidator 1 (replicate 20 1) 100] (gn_Time toy_net) new_node) 1 (mkBuffer empty_ring_cache ∅) {[1]}.

Lemma first_in_sync : in_sync 0 0 first_node.
Proof. split; [|reflexivity]. exists (mkEpochStats (7 * second) 0 0). split; vm_compute; reflexivity. Qed.

Abbreviation toy_applyNewState := (applyNewState toy_hash toy_contract example_eth toy_service_config toy_event_hash (fun _ => ZeroHash) toy_sender toy_cost (fun _ => toy_evm) toy_commit).
Abbreviation toy_applyBlock := (applyBlock toy_hash toy_contract example_eth toy_service_config toy_event_hash (fun _ => ZeroHash) toy_sender toy_cost (fun _ => toy_evm) toy_commit).

Example first_blocks : (fun time => (fun r => r.1.2) <$> toy_applyBlock first_node 1 (NewBlock 1 time ZeroHash ZeroHash []) 1 []) <$> [9 * second; 700 * second] = [Ret false; Ret true].
Proof. vm_compute. reflexivity. Qed.

Definition second_block : Block := NewBlock 1 (700 * second) ZeroHash ZeroHash [].

Lemma seals_agree_witness :
    match toy_applyNewState first_node 1 second_block [] with
  | Fault f => toy_applyBlock first_node 1 second_block (0 + 1) [] = Fault f
  | Ret (ap, _) =>
      ap_seal ap = seal_due toy_hash toy_service_config (a_LastVoting (sv_app first_node)).2 (0 + 1) (bl_Time second_block) [] (ap_receipts ap) /\
      exists s', toy_applyBlock first_node 1 second_block (0 + 1) [] = Ret (bl_TxHash (ap_block ap), ap_seal ap, s') /\ in_sync (if ap_seal ap then 0 else 0 + 1) (0 + 1) s'
  end.
Proof.
  pose proof (seals_agree toy_hash toy_contract example_eth toy_service_config toy_event_hash (fun _ => ZeroHash) toy_sender toy_cost (fun _ => toy_evm) toy_commit
                first_node 1 0 0 second_block [] first_in_sync) as Hagree.
  exact (Hagree ltac:(unfold is_u64; lia) eq_refl).
Defined.
