(* ===== verification/PacksDl.v ===== *)
(** * The download of packs: gossip/packsdownloader

    A node that is behind looks for the first pack of its peer that it does
    not have, by a binary search over the descriptions of packs, and then
    asks for whole packs.  One iteration of the loop is a step over its
    notifications; the time is an argument, and what goes out to the peer and
    to the fetcher is listed. *)

From S2P Require Import Prelude Bytes Event.

(** ** peer_downloader.go *)

Definition forceSyncPeriod : Z := 5 * 60 * second.
Definition pack_arriveTimeout : Z := 10 * second.
Definition maxPeerPacks : Z := 128.
Definition maxFetchingFullPacks : Z := 3.

(** What goes out. *)
Inductive effect :=
  | RequestPackInfos (epoch index : Z)
  | RequestPack (epoch index : Z)
  | NotifyFetcher (ids : list hash)
  | DropPeer.

Record PeerDl := mkPeerDl {
  pd_myEpoch : Z;
  pd_packsNum : Z;                    (* the packs that the peer has *)
  pd_packInfos : gmap Z (list hash);  (* the heads of its packs, by number *)
  pd_fetchingInfo : gmap Z Z;
  pd_fetchingFull : gmap Z Z;
  pd_prevRequest : option Z           (* none yet is the zero time *)
}.

Definition newPeer (myEpoch : Z) : PeerDl := mkPeerDl myEpoch 0 ∅ ∅ ∅ None.

Section peer.
Context (onlyNotConnected : list hash -> list hash).
Implicit Types d : PeerDl.

Definition allKnown (heads : list hash) : bool := bool_decide (onlyNotConnected heads = []).

(** The descriptions from the highest number down. *)
Definition info_le (x y : Z * list hash) : Prop := x.1 <= y.1.
#[global] Instance info_le_dec x y : Decision (info_le x y).
Proof. unfold info_le. apply _. Defined.
Definition descending (infos : gmap Z (list hash)) : list (Z * list hash) := reverse (merge_sort info_le (map_to_list infos)).

(** The request, whether it is for a whole pack, and whether there is none. *)
Fixpoint search (packsNum : Z) (l : list (Z * list hash)) (prevIdx : option Z) : Z * bool * bool :=
  match l with
  | [] =>
      match prevIdx with
      | None => (1, false, false)
      | Some p => if p =? 1 then (1, true, false) else (p / 2, false, false)
      end
  | (packIdx, heads) :: l =>
      if allKnown heads then
        let next (nextReq : Z) := (if nextReq <=? packIdx then u32 (packIdx + 1) else nextReq, false, false) in
        match prevIdx with
        | None => if packsNum <=? packIdx then (packIdx, false, true) else next (u32 (packIdx + u32 (packsNum - packIdx) / 2))
        | Some p => if u32 (packIdx + 1) =? p then (u32 (packIdx + 1), true, false) else next (u32 (packIdx + u32 (p - packIdx) / 2))
        end
      else search packsNum l (Some packIdx)
  end.

Definition binarySearchReq d : Z * bool * bool := search (pd_packsNum d) (descending (pd_packInfos d)) None.

(** A request goes out when none did, or too long ago. *)
Definition due (now : Z) (sent : option Z) : bool := match sent with None => true | Some t => pack_arriveTimeout <=? now - t end.

Definition timedRequestFullPack (now : Z) d (index : Z) (pinned : bool) : list effect * PeerDl :=
  if due now (pd_fetchingFull d !! index) then
    ([RequestPack (pd_myEpoch d) index],
     mkPeerDl (pd_myEpoch d) (pd_packsNum d) (pd_packInfos d) (pd_fetchingInfo d)
       (if pinned then <[index := now]> (pd_fetchingFull d) else pd_fetchingFull d) (Some now))
  else ([], d).

Definition timedRequestPackInfo (now : Z) d (index : Z) : list effect * PeerDl :=
  if due now (pd_fetchingInfo d !! index) then
    ([RequestPackInfos (pd_myEpoch d) index],
     mkPeerDl (pd_myEpoch d) (pd_packsNum d) (pd_packInfos d) (<[index := now]> (pd_fetchingInfo d)) (pd_fetchingFull d) (Some now))
  else ([], d).

(** A few packs at once, and the descriptions of the next ones; [n] counts
    the iterations left. *)
Fixpoint requestFulls (n : nat) (now : Z) d (i limit : Z) : list effect * PeerDl :=
  match n with
  | O => ([], d)
  | S n =>
      if (i <? limit) && (i <=? pd_packsNum d) then
        let '(out1, d) := timedRequestFullPack now d i true in
        let '(out2, d) :=
          if (u32 (i + 1) <=? pd_packsNum d) && bool_decide (pd_packInfos d !! u32 (i + 1) = None) then timedRequestPackInfo now d (u32 (i + 1)) else ([], d) in
        let '(out3, d) := requestFulls n now d (u32 (i + 1)) limit in
        (out1 ++ out2 ++ out3, d)
      else ([], d)
  end.

Definition tryToSync (now : Z) (overloaded : bool) d : list effect * PeerDl :=
  if overloaded then ([], d)
  else
    let '(index, requestFull, syncedUp) := binarySearchReq d in
    if syncedUp then
      let stalled := match pd_prevRequest d with None => true | Some t => forceSyncPeriod <? now - t end in
      if stalled then
        let '(out1, d) := timedRequestPackInfo now d (u32 (pd_packsNum d + 1)) in
        let '(out2, d) := timedRequestFullPack now d (u32 (pd_packsNum d + 1)) false in
        (out1 ++ out2, d)
      else ([], d)
    else if requestFull then requestFulls 3 now d index (u32 (index + maxFetchingFullPacks))
    else timedRequestPackInfo now d index.

Definition forgetPack d (index : Z) : PeerDl :=
  mkPeerDl (pd_myEpoch d) (pd_packsNum d) (delete index (pd_packInfos d)) (delete index (pd_fetchingInfo d)) (delete index (pd_fetchingFull d)) (pd_prevRequest d).

(** What is below the highest known pack. *)
Fixpoint to_remove (l : list (Z * list hash)) (allKnownMet : bool) : list Z :=
  match l with
  | [] => []
  | (packIdx, heads) :: l =>
      if allKnownMet then packIdx :: to_remove l true else to_remove l (allKnown heads)
  end.

Definition sweepKnown d : PeerDl := foldl forgetPack d (to_remove (descending (pd_packInfos d)) false).

(** ** The loop *)

Inductive notification :=
  | PacksNumOp (epoch packsNum : Z)
  | PackInfoOp (epoch index : Z) (heads : list hash)
  | PackOp (epoch index : Z) (ids : list hash)
  | TickOp.

Definition with_packsNum d (n : Z) : PeerDl :=
  mkPeerDl (pd_myEpoch d) (if pd_packsNum d <? n then n else pd_packsNum d) (pd_packInfos d) (pd_fetchingInfo d) (pd_fetchingFull d) (pd_prevRequest d).

Definition peer_step (now : Z) (overloaded : bool) d (op : notification) : list effect * PeerDl :=
  match op with
  | PacksNumOp epoch n => if negb (pd_myEpoch d =? epoch) then ([], d) else ([], with_packsNum d n)
  | PackInfoOp epoch index heads =>
      if negb (pd_myEpoch d =? epoch) then ([], d)
      else
        let d := with_packsNum d index in
        let out := if maxPeerPacks <? Z.of_nat (size (pd_packInfos d)) then [DropPeer] else [] in
        if (index <=? 0) || (MaxInt32 <=? index) then (out, d)
        else
          let d := mkPeerDl (pd_myEpoch d) (pd_packsNum d) (<[index := heads]> (pd_packInfos d)) (delete index (pd_fetchingInfo d)) (pd_fetchingFull d) (pd_prevRequest d) in
          let '(out1, d) := tryToSync now overloaded d in
          (out ++ out1, sweepKnown d)
  | PackOp epoch index ids => if negb (pd_myEpoch d =? epoch) then ([], d) else ([NotifyFetcher ids], with_packsNum d index)
  | TickOp => let '(out, d) := tryToSync now overloaded d in (out, sweepKnown d)
  end.
End peer.

(** ** packs_downloader.go *)

Definition maxPeers : Z := 6.

(** The downloader of each peer with the epoch that the peer announced. *)
Record PacksDl := mkPacksDl { pk_peers : gmap string (Z * PeerDl); pk_terminated : bool }.

Section downloader.
Implicit Types k : PacksDl.

Definition UnregisterPeer k (peer : string) : PacksDl := mkPacksDl (delete peer (pk_peers k)) (pk_terminated k).

Definition RegisterPeer k (peer : string) (peerEpoch myEpoch : Z) : PacksDl :=
  if peerEpoch <? myEpoch then UnregisterPeer k peer
  else if pk_terminated k then k
  else if negb (bool_decide (pk_peers k !! peer = None)) || (maxPeers <=? Z.of_nat (size (pk_peers k))) then k
  else mkPacksDl (<[peer := (peerEpoch, newPeer myEpoch)]> (pk_peers k)) (pk_terminated k).

(** [peerEpoch] is what the peer announced since. *)
Definition OnNewEpoch k (myEpoch : Z) (peerEpoch : string -> Z) : PacksDl :=
  mkPacksDl (map_imap (fun peer it => if myEpoch <=? peerEpoch peer then Some (it.1, newPeer myEpoch) else None) (pk_peers k)) (pk_terminated k).

Definition Peer k (peer : string) : option PeerDl := snd <$> pk_peers k !! peer.
Definition PeersNum k : Z := Z.of_nat (size (pk_peers k)).
Definition Terminate k : PacksDl := mkPacksDl ∅ true.
End downloader.

(** ** The bounds of the search *)

Section bounds.
Context (onlyNotConnected : list hash -> list hash) (k N : Z).
Implicit Types (infos : gmap Z (list hash)) (l : list (Z * list hash)).
Abbreviation allKnown := (allKnown onlyNotConnected).

(** The first [k] of the [N] packs of the peer are connected, and so are the
    heads of their descriptions. *)
Definition honest infos : Prop := forall i heads, infos !! i = Some heads -> 1 <= i <= N /\ (allKnown heads = true <-> i <= k).

(** The highest known number, or zero, and the lowest unknown one. *)
Record bounds infos (lo : Z) (hi : option Z) : Prop := {
  bd_lo : (lo = 0 /\ forall i, is_Some (infos !! i) -> k < i) \/ (is_Some (infos !! lo) /\ lo <= k /\ 1 <= lo /\ forall i, is_Some (infos !! i) -> i <= k -> i <= lo);
  bd_hi : match hi with
          | None => forall i, is_Some (infos !! i) -> i <= k
          | Some b => is_Some (infos !! b) /\ k < b /\ forall i, is_Some (infos !! i) -> k < i -> b <= i
          end
}.

(** The answer of the search in terms of the bounds. *)
Definition answer (lo : Z) (hi : option Z) : Z * bool * bool :=
  match hi with
  | None => if lo =? 0 then (1, false, false) else if N <=? lo then (lo, false, true) else (Z.max (lo + 1) (lo + (N - lo) / 2), false, false)
  | Some b => if lo + 1 =? b then (lo + 1, true, false) else (Z.max (lo + 1) (lo + (b - lo) / 2), false, false)
  end.

Lemma search_answer l : forall prev, StronglySorted (fun x y : Z * list hash => y.1 < x.1) l -> N < 2 ^ 31 ->
  (forall i heads, (i, heads) ∈ l -> 1 <= i <= N /\ (allKnown heads = true <-> i <= k)) ->
  match prev with None => True | Some p => 1 <= p <= N /\ k < p /\ forall i heads, (i, heads) ∈ l -> i < p end ->
  exists lo hi, search onlyNotConnected N l prev = answer lo hi /\
    ((lo = 0 /\ forall i heads, (i, heads) ∈ l -> k < i) \/ (lo <= k /\ 1 <= lo /\ (exists heads, (lo, heads) ∈ l) /\ forall i heads, (i, heads) ∈ l -> i <= k -> i <= lo)) /\
    match hi with
    | None => prev = None /\ forall i heads, (i, heads) ∈ l -> i <= k
    | Some b => k < b /\ (prev = Some b \/ exists heads, (b, heads) ∈ l) /\ forall i heads, (i, heads) ∈ l -> k < i -> b <= i
    end.
Proof.
  induction l as [|[i heads] l IH]; intros prev Hs HN Hh Hp; cbn [search].
  { exists 0, prev. split; [|split; [left; split; [done|]; by intros i heads Hi%not_elem_of_nil|]].
    - unfold answer. destruct prev as [p|]; [|done]. destruct (Z.eqb_spec p 1) as [->|Hne]; [done|]. destruct (Z.eqb_spec (0 + 1) p); [lia|].
      f_equal. f_equal. rewrite Z.sub_0_r, Z.add_0_l. pose proof (Z.div_le_lower_bound p 2 1). lia.
    - destruct prev as [p|]; [|by split; [|intros i heads Hi%not_elem_of_nil]]. destruct Hp as (Hpr & Hkp & _).
      split_and!; [done|by left|]. by intros i heads Hi%not_elem_of_nil. }
  apply StronglySorted_inv in Hs as [Hs Hall]. rewrite Forall_forall in Hall. destruct (Hh i heads ltac:(by left)) as [Hi Hk].
  destruct (allKnown heads) eqn:Ek.
  - apply proj1 in Hk. specialize (Hk eq_refl).
    exists i, prev. split; [|split].
    + unfold answer. destruct (Z.eqb_spec i 0); [lia|]. destruct prev as [p|].
      * destruct Hp as (Hpr & Hkp & Hlt). rewrite (u32_id (i + 1)), (u32_id (p - i)) by (unfold is_u32; lia). destruct (Z.eqb_spec (i + 1) p); [done|].
        pose proof (Z.div_pos (p - i) 2 ltac:(lia) ltac:(lia)). pose proof (Z.div_le_upper_bound (p - i) 2 (p - i) ltac:(lia) ltac:(lia)).
        rewrite u32_id by (unfold is_u32; lia). f_equal. f_equal. destruct (Z.leb_spec (i + (p - i) / 2) i); lia.
      * destruct (Z.leb_spec N i); [done|]. rewrite (u32_id (i + 1)), (u32_id (N - i)) by (unfold is_u32; lia).
        pose proof (Z.div_pos (N - i) 2 ltac:(lia) ltac:(lia)). pose proof (Z.div_le_upper_bound (N - i) 2 (N - i) ltac:(lia) ltac:(lia)).
        rewrite u32_id by (unfold is_u32; lia). f_equal. f_equal. destruct (Z.leb_spec (i + (N - i) / 2) i); lia.
    + right. split_and!; [done|lia|by eexists; left|]. intros j hs [[= -> ->]|Hj]%elem_of_cons _; [done|]. specialize (Hall _ Hj). cbn in Hall. lia.
    + assert (forall j hs, (j, hs) ∈ (i, heads) :: l -> j <= k) as Hle.
      { intros j hs [[= -> ->]|Hj]%elem_of_cons; [done|]. specialize (Hall _ Hj). cbn in Hall. lia. }
      destruct prev as [p|]; [|done]. destruct Hp as (Hpr & Hkp & _). split_and!; [done|by left|]. intros j hs Hj Hjk. specialize (Hle j hs Hj). lia.
  - assert (k < i) as Hki by (destruct (Z.le_gt_cases i k) as [Hle|?]; [apply Hk in Hle; done|lia]).
    destruct (IH (Some i)) as (lo & hi & -> & Hlo & Hhi); [done|done|intros j hs Hj; apply Hh; by right| |].
    { split_and!; [lia|lia|done|]. intros j hs Hj. exact (Hall _ Hj). }
    exists lo, hi. split; [done|]. split.
    + destruct Hlo as [[-> Hno]|(H1 & H2 & [hs H3] & H4)].
      * left. split; [done|]. intros j hs [[= -> ->]|Hj]%elem_of_cons; [done|]. by eapply Hno.
      * right. split_and!; [done|done|by eexists; right|]. intros j hs' [[= -> ->]|Hj]%elem_of_cons Hle; [lia|]. by eapply H4.
    + destruct hi as [b|]; [|by destruct Hhi]. destruct Hhi as (Hb & [[= <-]|[hs Hb2]] & Hmin).
      * split_and!; [done|right; by eexists; left|]. intros j hs' [[= -> ->]|Hj]%elem_of_cons Hj2; [done|]. by eapply Hmin.
      * split_and!; [done|right; by eexists; right|]. intros j hs' [[= -> ->]|Hj]%elem_of_cons Hj2; [|by eapply Hmin].
        pose proof (Hall _ Hb2) as Hlt. cbn in Hlt. lia.
Qed.
End bounds.
