(* ===== verification/PacksSpec.v ===== *)
(** * The search for the first missing pack

    With a peer that answers, the descriptions of packs close in on the first
    pack that is not connected: after at most 33 answers the downloader asks
    for exactly that pack, or knows that nothing is missing. *)

From S2P Require Import Prelude Bytes Event PacksDl.

(** ** The descriptions in their order *)

#[export] Instance info_le_total : Total info_le.
Proof. intros x y. unfold info_le. lia. Qed.
#[export] Instance info_le_trans : Transitive info_le.
Proof. intros x y z. unfold info_le. lia. Qed.

Lemma elem_of_descending (infos : gmap Z (list hash)) i heads : (i, heads) ∈ descending infos <-> infos !! i = Some heads.
Proof. unfold descending. by rewrite elem_of_reverse, merge_sort_Permutation, elem_of_map_to_list. Qed.

Lemma StronglySorted_snoc {A} (R : A -> A -> Prop) (l : list A) x : StronglySorted R l -> Forall (fun y => R y x) l -> StronglySorted R (l ++ [x]).
Proof.
  induction 1 as [|y l Hs IH Hall]; intros Hx; cbn; [by repeat constructor|]. apply Forall_cons in Hx as [Hyx Hx].
  constructor; [by apply IH|]. apply Forall_app. split; [done|by repeat constructor].
Qed.

Lemma StronglySorted_reverse {A} (R : A -> A -> Prop) (l : list A) : StronglySorted R l -> StronglySorted (flip R) (reverse l).
Proof.
  induction 1 as [|x l Hs IH Hall]; [constructor|]. rewrite reverse_cons. apply StronglySorted_snoc; [done|]. by apply Forall_reverse.
Qed.

Lemma descending_sorted (infos : gmap Z (list hash)) : StronglySorted (fun x y : Z * list hash => y.1 < x.1) (descending infos).
Proof.
  assert (NoDup (descending infos).*1) as Hnd.
  { unfold descending. rewrite reverse_Permutation, merge_sort_Permutation. apply NoDup_fst_map_to_list. }
  assert (StronglySorted (flip info_le) (descending infos)) as Hs.
  { apply StronglySorted_reverse. apply Sorted_StronglySorted; [apply _|]. apply Sorted_merge_sort. apply _. }
  revert Hnd. induction Hs as [|x l Hs IH Hall]; intros Hnd; [constructor|]. cbn in Hnd. apply NoDup_cons in Hnd as [Hx Hnd].
  constructor; [by apply IH|]. apply Forall_forall. intros y Hy. rewrite Forall_forall in Hall. specialize (Hall y Hy). unfold flip, info_le in Hall.
  assert (x.1 <> y.1); [|lia]. intros Heq. apply Hx. rewrite Heq. by apply list_elem_of_fmap_2.
Qed.

Section spec.
Context (onlyNotConnected : list hash -> list hash) (k N : Z).
Implicit Types (infos : gmap Z (list hash)) (d : PeerDl).
Abbreviation honest := (honest onlyNotConnected k N).
Abbreviation bounds := (bounds k).
Abbreviation answer := (answer N).

Lemma search_bounds infos lo hi : honest infos -> N < 2 ^ 31 -> bounds infos lo hi -> search onlyNotConnected N (descending infos) None = answer lo hi.
Proof.
  intros Hh HN [Hlo Hhi].
  destruct (search_answer onlyNotConnected k N (descending infos) None) as (lo' & hi' & -> & Hlo' & Hhi'); [apply descending_sorted|done| |done|].
  { intros i heads Hi%elem_of_descending. by apply Hh. }
  assert (forall i heads, (i, heads) ∈ descending infos <-> infos !! i = Some heads) as Hd by apply elem_of_descending.
  f_equal.
  - destruct Hlo' as [[-> Hno]|(H1 & H2 & [hs H3] & H4)], Hlo as [[-> Hno2]|([hs2 G3] & G1 & G2 & G4)].
    + done.
    + apply Hd, Hno in G3. lia.
    + apply Hd in H3. assert (k < lo') by (apply Hno2; eauto). lia.
    + apply Hd in G3. pose proof (H4 _ _ G3 G1). apply Hd in H3. assert (lo' <= lo) by (apply G4; eauto). lia.
  - destruct hi' as [b'|], hi as [b|].
    + destruct Hhi as ([hs G1] & G2 & G3), Hhi' as (H1 & [[=]|[hs' H2]] & H3). f_equal. apply Hd in H2. assert (b <= b') by (apply G3; eauto).
      apply Hd in G1. pose proof (H3 _ _ G1 G2). lia.
    + destruct Hhi' as (H1 & [[=]|[hs' H2]] & H3). apply Hd in H2. assert (b' <= k) by (apply Hhi; eauto). lia.
    + destruct Hhi' as [_ H3], Hhi as ([hs G1] & G2 & _). apply Hd, H3 in G1. lia.
    + done.
Qed.

Lemma bounds_empty : bounds ∅ 0 None.
Proof. split; [left; split; [done|]|]; intros i [hs Hi]; by rewrite lookup_empty in Hi. Qed.

(** A new description moves one of the bounds. *)
Lemma bounds_insert infos lo hi i heads : bounds infos lo hi -> lo < i -> match hi with Some b => i < b | None => True end ->
  bounds (<[i := heads]> infos) (if i <=? k then i else lo) (if i <=? k then hi else Some i).
Proof.
  intros [Hlo Hhi] Hi Hb. assert (forall j, is_Some (<[i := heads]> infos !! j) <-> j = i \/ is_Some (infos !! j)) as Hd.
  { intros j. destruct (decide (j = i)) as [->|Hne]; [rewrite lookup_insert_eq; split; [by left|by eexists]|]. rewrite lookup_insert_ne by done. naive_solver. }
  destruct (Z.leb_spec i k) as [Hk|Hk]; split.
  - right. split_and!; [apply Hd; by left|done|destruct Hlo as [[-> _]|(_ & _ & ? & _)]; lia|]. intros j [->|Hj]%Hd Hjk; [done|].
    destruct Hlo as [[-> Hno]|(_ & _ & _ & Hmax)]; [specialize (Hno j Hj); lia|]. specialize (Hmax j Hj Hjk). lia.
  - destruct hi as [b|].
    + destruct Hhi as (H1 & H2 & H3). split_and!; [apply Hd; by right|done|]. intros j [->|Hj]%Hd Hjk; [lia|by apply H3].
    + intros j [->|Hj]%Hd; [done|by apply Hhi].
  - destruct Hlo as [[-> Hno]|(H1 & H2 & H3 & H4)]; [left; split; [done|]; intros j [->|Hj]%Hd; [done|by apply Hno]|].
    right. split_and!; [apply Hd; by right|done|done|]. intros j [->|Hj]%Hd Hjk; [lia|by apply H4].
  - split_and!; [apply Hd; by left|done|]. intros j [->|Hj]%Hd Hjk; [done|]. destruct hi as [b|].
    + destruct Hhi as (_ & _ & H3). specialize (H3 j Hj Hjk). lia.
    + specialize (Hhi j Hj). lia.
Qed.

(** Forgetting what is below the highest known pack changes nothing. *)
Lemma to_remove_below l : forall met x, StronglySorted (fun x y : Z * list hash => y.1 < x.1) l -> x ∈ to_remove onlyNotConnected l met ->
  exists heads, (x, heads) ∈ l /\ (met = true \/ exists y hs, (y, hs) ∈ l /\ x < y /\ allKnown onlyNotConnected hs = true).
Proof.
  induction l as [|[i heads] l IH]; intros met x Hs Hx; cbn [to_remove] in Hx; [by apply not_elem_of_nil in Hx|].
  apply StronglySorted_inv in Hs as [Hs Hall]. rewrite Forall_forall in Hall. destruct met.
  - apply elem_of_cons in Hx as [->|Hx]; [exists heads; split; [by left|by left]|]. destruct (IH true x Hs Hx) as (hs & Hin & _). exists hs. split; [by right|by left].
  - destruct (IH _ x Hs Hx) as (hs & Hin & Hor). exists hs. split; [by right|]. right. destruct Hor as [Hk|(y & hs' & Hy & Hlt & Hk)].
    + exists i, heads. split_and!; [by left|exact (Hall _ Hin)|done].
    + exists y, hs'. split_and!; [by right|done|done].
Qed.

Lemma sweep_infos d (l : list Z) : pd_packInfos (foldl forgetPack d l) = foldl (fun m i => delete i m) (pd_packInfos d) l.
Proof. revert d. induction l as [|i l IH]; intros d; cbn; [done|]. by rewrite IH. Qed.

Lemma delete_fold infos (l : list Z) j : foldl (fun m i => delete i m) infos l !! j = if decide (j ∈ l) then None else infos !! j.
Proof.
  revert infos. induction l as [|i l IH]; intros infos; cbn; [by rewrite decide_False by apply not_elem_of_nil|]. rewrite IH.
  destruct (decide (j ∈ l)); [by rewrite decide_True by (by right)|]. destruct (decide (j = i)) as [->|Hne].
  - rewrite decide_True by (by left). by rewrite lookup_delete_eq.
  - rewrite lookup_delete_ne by done. rewrite decide_False; [done|]. by intros [?|?]%elem_of_cons.
Qed.

Lemma sweep_bounds d lo hi : honest (pd_packInfos d) -> bounds (pd_packInfos d) lo hi ->
  honest (pd_packInfos (sweepKnown onlyNotConnected d)) /\ bounds (pd_packInfos (sweepKnown onlyNotConnected d)) lo hi.
Proof.
  intros Hh [Hlo Hhi]. unfold sweepKnown. rewrite sweep_infos. set (l := to_remove _ _ _).
  assert (forall j heads, foldl (fun m i => delete i m) (pd_packInfos d) l !! j = Some heads -> pd_packInfos d !! j = Some heads) as Hsub.
  { intros j heads. rewrite delete_fold. by case_decide. }
  assert (forall j, j ∈ l -> j < lo) as Hl.
  { intros j Hj. destruct (to_remove_below _ _ _ (descending_sorted _) Hj) as (hs & _ & [[=]|(y & hs' & Hy & Hlt & Hk)]).
    apply elem_of_descending in Hy. destruct (Hh _ _ Hy) as [_ Hyk]. apply Hyk in Hk. destruct Hlo as [[_ Hno]|(_ & _ & _ & Hmax)].
    - assert (k < y) by (apply Hno; eauto). lia.
    - assert (y <= lo) by (apply Hmax; eauto). lia. }
  assert (forall j, lo <= j -> is_Some (pd_packInfos d !! j) -> is_Some (foldl (fun m i => delete i m) (pd_packInfos d) l !! j)) as Hkeep.
  { intros j Hj Hs. rewrite delete_fold, decide_False; [done|]. intros Hin. specialize (Hl j Hin). lia. }
  split; [intros j heads Hj; by apply Hh, Hsub|]. split.
  - destruct Hlo as [[-> Hno]|(H1 & H2 & H3 & H4)].
    + left. split; [done|]. intros j [hs Hj%Hsub]. apply Hno. eauto.
    + right. split_and!; [by apply Hkeep|done|done|]. intros j [hs Hj%Hsub]. apply H4. eauto.
  - destruct hi as [b|]; [|intros j [hs Hj%Hsub]; apply Hhi; eauto]. destruct Hhi as (H1 & H2 & H3).
    split_and!; [|done|intros j [hs Hj%Hsub]; apply H3; eauto]. apply Hkeep; [|done]. destruct Hlo as [[-> Hno]|(_ & H4 & _)]; [|lia].
    destruct H1 as [hs H1]. apply Hh in H1. lia.
Qed.

(** ** A conversation with the peer *)

Context (ep now : Z) (heads_of : Z -> list hash).
Abbreviation step := (peer_step onlyNotConnected now false).

(** The peer answers a single request for a description. *)
Fixpoint converse (fuel : nat) (out : list effect) d : option (list effect * PeerDl) :=
  match out with
  | [RequestPackInfos epoch i] =>
      match fuel with
      | O => None
      | S fuel => let '(out, d) := step d (PackInfoOp epoch i (heads_of i)) in converse fuel out d
      end
  | _ => Some (out, d)
  end.

Context (k_range : 0 <= k <= N) (N_range : 1 <= N < MaxInt32).
Context (heads_ok : forall i, 1 <= i <= N -> allKnown onlyNotConnected (heads_of i) = true <-> i <= k).

(** The bounds hold a gap that the search can split. *)
Definition gap (lo : Z) (hi : option Z) : Z := match hi with Some b => b - lo | None => N - lo end.
Definition splits (lo : Z) (hi : option Z) : Prop := match hi with Some b => lo < b <= N | None => 1 <= lo <= N end.

Lemma answer_splits lo hi i : 0 <= lo -> splits lo hi -> answer lo hi = (i, false, false) ->
  lo < i <= N /\ match hi with Some b => i < b | None => True end /\
  let lo' := if i <=? k then i else lo in let hi' := if i <=? k then hi else Some i in splits lo' hi' /\ 2 * gap lo' hi' <= gap lo hi + 1.
Proof.
  unfold answer, splits, gap. intros Hlo Hs Ha. destruct hi as [b|].
  - destruct (Z.eqb_spec (lo + 1) b); [done|]. injection Ha as <-. pose proof (Z.div_mod (b - lo) 2 ltac:(lia)). pose proof (Z.mod_pos_bound (b - lo) 2 ltac:(lia)).
    rewrite Z.max_r by lia. destruct (Z.leb_spec (lo + (b - lo) / 2) k); cbv beta iota zeta; lia.
  - destruct (Z.eqb_spec lo 0); [lia|]. destruct (Z.leb_spec N lo); [done|]. injection Ha as <-.
    pose proof (Z.div_mod (N - lo) 2 ltac:(lia)). pose proof (Z.mod_pos_bound (N - lo) 2 ltac:(lia)).
    destruct (Z.leb_spec (Z.max (lo + 1) (lo + (N - lo) / 2)) k); cbv beta iota zeta; lia.
Qed.

(** The downloader between two notifications, with the description [i]
    outstanding. *)
Record waiting (m : nat) (lo : Z) (hi : option Z) (i : option Z) d : Prop := {
  wt_epoch : pd_myEpoch d = ep;
  wt_num : pd_packsNum d = N;
  wt_honest : honest (pd_packInfos d);
  wt_bounds : bounds (pd_packInfos d) lo hi;
  wt_size : (size (pd_packInfos d) <= m)%nat;
  wt_info j : Some j <> i -> pd_fetchingInfo d !! j = None;
  wt_full : pd_fetchingFull d = ∅
}.

Lemma sweep_fields d (l : list Z) : let d' := foldl forgetPack d l in
  pd_myEpoch d' = pd_myEpoch d /\ pd_packsNum d' = pd_packsNum d /\ (size (pd_packInfos d') <= size (pd_packInfos d))%nat /\
  (forall j, pd_fetchingInfo d !! j = None -> pd_fetchingInfo d' !! j = None) /\ (pd_fetchingFull d = ∅ -> pd_fetchingFull d' = ∅) /\ pd_prevRequest d' = pd_prevRequest d.
Proof.
  revert d. induction l as [|x l IH]; intros d; cbn; [done|]. destruct (IH (forgetPack d x)) as (H1 & H2 & H3 & H4 & H5 & H6). cbn in *.
  rewrite H1, H2, H6. split_and!; try done.
  - etransitivity; [exact H3|]. rewrite map_size_delete. destruct (pd_packInfos d !! x); cbn; lia.
  - intros j Hj. apply H4. destruct (decide (j = x)) as [->|Hne]; [apply lookup_delete_eq|by rewrite lookup_delete_ne].
  - intros Hf. apply H5. rewrite Hf. apply delete_empty.
Qed.

Lemma waiting_sweep m lo hi i d : waiting m lo hi i d -> waiting m lo hi i (sweepKnown onlyNotConnected d) /\ pd_prevRequest (sweepKnown onlyNotConnected d) = pd_prevRequest d.
Proof.
  intros [H1 H2 H3 H4 H5 H6 H7]. destruct (sweep_bounds d lo hi H3 H4) as [S1 S2].
  destruct (sweep_fields d (to_remove onlyNotConnected (descending (pd_packInfos d)) false)) as (F1 & F2 & F3 & F4 & F5 & F6).
  split; [|exact F6]. split; unfold sweepKnown in *; rewrite ?F1, ?F2; try done; [lia| |by apply F5]. intros j Hj. by apply F4, H6.
Qed.

(** What is asked for when the search ends. *)
Definition found (out : list effect) : Prop :=
  if decide (k = N) then out = []
  else exists rest, out = RequestPack ep (k + 1) :: rest /\
    forall e, e ∈ rest -> (exists j, e = RequestPack ep j /\ k + 1 < j <= N) \/ (exists j, e = RequestPackInfos ep j /\ k + 1 < j <= N).

Lemma requestFulls_step (n : nat) d (i limit : Z) : pd_myEpoch d = ep -> pd_packsNum d = N -> 0 <= i <= N -> i < limit -> exists o1 o2 d',
  (requestFulls (S n) now d i limit).1 = o1 ++ o2 ++ (requestFulls n now d' (i + 1) limit).1 /\ pd_myEpoch d' = ep /\ pd_packsNum d' = N /\
  (forall e, e ∈ o1 -> e = RequestPack ep i) /\ (pd_fetchingFull d !! i = None -> o1 = [RequestPack ep i]) /\
  (forall e, e ∈ o2 -> e = RequestPackInfos ep (i + 1) /\ i + 1 <= N).
Proof.
  unfold MaxInt32 in N_range. intros He Hn Hi Hlim. cbn [requestFulls]. rewrite Hn, (proj2 (Z.ltb_lt i limit)), (proj2 (Z.leb_le i N)), u32_id by (unfold is_u32; lia). cbn [andb].
  assert (exists d1 o1, timedRequestFullPack now d i true = (o1, d1) /\ pd_myEpoch d1 = ep /\ pd_packsNum d1 = N /\
    (forall e, e ∈ o1 -> e = RequestPack ep i) /\ (pd_fetchingFull d !! i = None -> o1 = [RequestPack ep i])) as (d1 & o1 & -> & He1 & Hn1 & Ho1 & Hf1).
  { unfold timedRequestFullPack. rewrite He. destruct (due _ _) eqn:Ed; eexists _, _; (split; [reflexivity|]); cbn; split_and!; try done.
    - by intros e ->%list_elem_of_singleton.
    - by intros e Hin%not_elem_of_nil.
    - intros Hnone. by rewrite Hnone in Ed. }
  rewrite Hn1. destruct ((i + 1 <=? N) && bool_decide (pd_packInfos d1 !! (i + 1) = None)) eqn:Ec.
  - apply andb_true_iff in Ec as [Hle%Z.leb_le _]. unfold timedRequestPackInfo. rewrite He1. destruct (due _ _).
    + destruct (requestFulls n now _ (i + 1) limit) as [o3 d3] eqn:E3. eexists o1, _, _. split; [cbn [fst]; change o3 with ((o3, d3).1); rewrite <-E3; reflexivity|].
      split_and!; try done. by intros e ->%list_elem_of_singleton.
    + destruct (requestFulls n now _ (i + 1) limit) as [o3 d3] eqn:E3. eexists o1, [], d1. rewrite E3. split_and!; try done. by intros e Hin%not_elem_of_nil.
  - destruct (requestFulls n now d1 (i + 1) limit) as [o3 d3] eqn:E3. eexists o1, [], d1. rewrite E3. split_and!; try done. by intros e Hin%not_elem_of_nil.
Qed.

Lemma requestFulls_out (n : nat) d (i limit : Z) : pd_myEpoch d = ep -> pd_packsNum d = N -> 0 <= i ->
  forall e, e ∈ (requestFulls n now d i limit).1 -> (exists j, e = RequestPack ep j /\ i <= j <= N) \/ (exists j, e = RequestPackInfos ep j /\ i < j <= N).
Proof.
  revert d i. induction n as [|n IH]; intros d i He Hn Hi e Hin; [by apply not_elem_of_nil in Hin|].
  destruct (decide (i < limit /\ i <= N)) as [[Hlim HiN]|Hno].
  - destruct (requestFulls_step n d i limit He Hn ltac:(lia) Hlim) as (o1 & o2 & d' & Heq & He' & Hn' & Ho1 & _ & Ho2). rewrite Heq in Hin.
    apply elem_of_app in Hin as [Hin%Ho1|Hin]; [left; exists i; split; [done|lia]|].
    apply elem_of_app in Hin as [Hin%Ho2|Hin]; [right; exists (i + 1); destruct Hin; split; [done|lia]|].
    destruct (IH d' (i + 1) He' Hn' ltac:(lia) e Hin) as [(j & -> & Hj)|(j & -> & Hj)]; [left|right]; exists j; split; (done || lia).
  - cbn [requestFulls] in Hin. rewrite Hn in Hin. destruct (Z.ltb_spec i limit); destruct (Z.leb_spec i N); cbn [andb] in Hin; try (by apply not_elem_of_nil in Hin). lia.
Qed.

(** After an answer the downloader asks for the next description, or the
    search is over. *)
Lemma try_spec m lo hi d : waiting m lo hi None d -> pd_prevRequest d = Some now -> splits lo hi -> 0 <= lo ->
  exists out d', tryToSync onlyNotConnected now false d = (out, d') /\
  ((exists i, answer lo hi = (i, false, false) /\ out = [RequestPackInfos ep i] /\ waiting m lo hi (Some i) d' /\ pd_prevRequest d' = Some now) \/ found out).
Proof.
  intros [H1 H2 H3 H4 H5 H6 H7] Hprev Hs Hlo. unfold MaxInt32 in N_range. pose proof (search_bounds (pd_packInfos d) lo hi H3 ltac:(lia) H4) as Hsearch.
  unfold tryToSync, binarySearchReq. rewrite H2, Hsearch. destruct (answer lo hi) as [[i full] synced] eqn:Ea.
  assert (match hi with Some b => k < b | None => True end) as Hkb by (destruct hi; [by destruct (bd_hi _ _ _ _ H4) as (_ & ? & _)|done]).
  assert (lo <= k) as Hlk by (destruct (bd_lo _ _ _ _ H4) as [[-> _]|(_ & ? & _)]; lia).
  destruct synced; [|destruct full].
  - rewrite Hprev, Z.sub_diag. eexists _, _. split; [reflexivity|]. right. unfold found, answer in *. destruct hi as [b|]; [destruct (lo + 1 =? b); done|].
    destruct (lo =? 0); [done|]. destruct (Z.leb_spec N lo); [|done]. rewrite decide_True by lia. done.
  - assert (i = k + 1 /\ k + 1 <= N) as [-> HkN].
    { unfold answer, splits in *. destruct hi as [b|]; [destruct (Z.eqb_spec (lo + 1) b); [|done]; injection Ea as <-; lia|].
      destruct (lo =? 0); [done|]. by destruct (N <=? lo). }
    destruct (requestFulls 3 now d (k + 1) (u32 (k + 1 + maxFetchingFullPacks))) as [out d'] eqn:Er. exists out, d'. split; [done|]. right.
    rewrite u32_id in Er by (unfold is_u32, maxFetchingFullPacks; lia).
    destruct (requestFulls_step 2 d (k + 1) (k + 1 + maxFetchingFullPacks) H1 H2 ltac:(lia) ltac:(unfold maxFetchingFullPacks; lia)) as (o1 & o2 & d2 & Heq & He2 & Hn2 & _ & Hf1 & Ho2).
    rewrite Er in Heq. cbn [fst] in Heq. rewrite Hf1 in Heq by (by rewrite H7). unfold found. rewrite decide_False by lia. eexists. split; [exact Heq|].
    intros e [Hin%Ho2|Hin]%elem_of_app; [right; exists (k + 1 + 1); destruct Hin; split; [done|lia]|].
    destruct (requestFulls_out 2 d2 (k + 1 + 1) (k + 1 + maxFetchingFullPacks) He2 Hn2 ltac:(lia) e Hin) as [(j & -> & Hj)|(j & -> & Hj)]; [left|right]; exists j; split; (done || lia).
  - unfold timedRequestPackInfo. rewrite H6 by done. cbn [due]. eexists _, _. split; [reflexivity|]. left. exists i. rewrite H1. split_and!; try done.
    split; cbn; try done. intros j Hj. rewrite lookup_insert_ne by congruence. by apply H6.
Qed.

(** One answer of the peer. *)
Lemma answer_step m lo hi i d : waiting m lo hi (Some i) d -> pd_prevRequest d = Some now -> (m < 128)%nat -> lo < i -> 1 <= i <= N ->
  match hi with Some b => i < b | None => True end -> splits (if i <=? k then i else lo) (if i <=? k then hi else Some i) -> 0 <= lo ->
  exists out d', step d (PackInfoOp ep i (heads_of i)) = (out, d') /\
  ((exists i', answer (if i <=? k then i else lo) (if i <=? k then hi else Some i) = (i', false, false) /\ out = [RequestPackInfos ep i'] /\
    waiting (S m) (if i <=? k then i else lo) (if i <=? k then hi else Some i) (Some i') d' /\ pd_prevRequest d' = Some now) \/ found out).
Proof.
  intros [H1 H2 H3 H4 H5 H6 H7] Hprev Hm Hlo Hi Hb Hs Hlo0. unfold MaxInt32 in N_range. unfold peer_step. rewrite H1, Z.eqb_refl. cbn [negb].
  assert (with_packsNum d i = d) as Hsame by (unfold with_packsNum; rewrite H2, (proj2 (Z.ltb_ge N i)) by lia; rewrite <-H2; by destruct d). rewrite Hsame.
  rewrite (proj2 (Z.ltb_ge _ _)) by (unfold maxPeerPacks; lia). rewrite (proj2 (Z.leb_gt i 0)), (proj2 (Z.leb_gt MaxInt32 i)) by (unfold MaxInt32; lia). cbn [orb app].
  set (d1 := mkPeerDl _ _ _ _ _ _).
  assert (waiting (S m) (if i <=? k then i else lo) (if i <=? k then hi else Some i) None d1) as Hw1.
  { split; cbn; try done.
    - intros j hs. destruct (decide (j = i)) as [->|Hne]; [rewrite lookup_insert_eq; intros [= <-]; split; [done|by apply heads_ok]|].
      rewrite lookup_insert_ne by done. apply H3.
    - by apply bounds_insert.
    - rewrite map_size_insert. destruct (pd_packInfos d !! i); cbn; lia.
    - intros j _. destruct (decide (j = i)) as [->|Hne]; [apply lookup_delete_eq|]. rewrite lookup_delete_ne by done. apply H6. congruence. }
  destruct (try_spec _ _ _ d1 Hw1 Hprev Hs) as (out & d' & -> & Hor); [destruct (i <=? k); lia|]. eexists _, _. split; [reflexivity|].
  destruct Hor as [(i' & Ha & -> & Hw & Hp)|Hf]; [left|by right]. destruct (waiting_sweep _ _ _ _ _ Hw) as [Hw' Hp']. exists i'. rewrite Hp'. done.
Qed.

Lemma found_stops (fuel : nat) out d : found out -> converse fuel out d = Some (out, d).
Proof. unfold found. destruct (decide (k = N)) as [|]; [intros ->; by destruct fuel|]. intros (rest & -> & _). by destruct fuel. Qed.

Lemma converse_S (fuel : nat) i d : converse (S fuel) [RequestPackInfos ep i] d = let '(out, d) := step d (PackInfoOp ep i (heads_of i)) in converse fuel out d.
Proof. reflexivity. Qed.

Lemma converse_ends (n : nat) : forall m lo hi i d, waiting m lo hi (Some i) d -> pd_prevRequest d = Some now -> (m + n < 127)%nat -> 0 <= lo -> splits lo hi ->
  answer lo hi = (i, false, false) -> gap lo hi <= 2 ^ Z.of_nat n ->
  exists out d', converse (S n) [RequestPackInfos ep i] d = Some (out, d') /\ found out.
Proof.
  induction n as [|n IH]; intros m lo hi i d Hw Hprev Hm Hlo Hs Ha Hg.
  all: destruct (answer_splits lo hi i Hlo Hs Ha) as (Hi & Hb & Hs' & Hg').
  all: destruct (answer_step m lo hi i d Hw Hprev ltac:(lia) ltac:(lia) ltac:(lia) Hb Hs' Hlo) as (out & d' & Hstep & [(i' & Ha' & -> & Hw' & Hp')|Hf]).
  all: rewrite converse_S, Hstep; try (exists out, d'; split; [by apply found_stops|done]).
  - exfalso. cbv zeta in Hg'. unfold answer, gap, splits in *. destruct (i <=? k); [destruct hi as [b|]|].
    + destruct (Z.eqb_spec (lo + 1) b); [done|]. cbn in Hg. lia.
    + destruct (Z.eqb_spec i 0); [lia|]. destruct (Z.leb_spec N i); [done|]. cbn in Hg. lia.
    + destruct (Z.eqb_spec (lo + 1) i); [done|]. cbn in Hg. destruct hi; lia.
  - apply (IH (S m) _ _ i' d' Hw' Hp'); try done; try lia; [destruct (i <=? k); lia|].
    rewrite Nat2Z.inj_succ, Z.pow_succ_r in Hg by lia. cbv zeta in Hg'. lia.
Qed.

(** C16: The search for the first missing pack ends, and finds it.  Let the
    peer have [N] packs of which the first [k] are connected, and let it
    answer.  A fresh downloader that learns of [N] and then ticks exchanges at
    most 33 descriptions with the peer; when all packs are connected it stops
    asking, and otherwise it asks for whole packs, the first of them the one
    after the last connected, and for nothing that is connected or that the
    peer does not have. *)
Theorem pack_search_finds : let d := (step (newPeer ep) (PacksNumOp ep N)).2 in
  let '(out, d') := step d TickOp in
  exists out' d'', converse 33 out d' = Some (out', d'') /\ found out'.
Proof.
  unfold MaxInt32 in N_range. assert ((step (newPeer ep) (PacksNumOp ep N)).2 = mkPeerDl ep N ∅ ∅ ∅ None) as Hd.
  { cbn. rewrite Z.eqb_refl. cbn. unfold with_packsNum. cbn. by rewrite (proj2 (Z.ltb_lt 0 N)) by lia. }
  cbv zeta. rewrite Hd. unfold peer_step, tryToSync, binarySearchReq, sweepKnown. cbn [pd_packsNum pd_packInfos pd_prevRequest].
  assert (descending ∅ = []) as Hdesc.
  { destruct (descending ∅) as [|[i hs] l] eqn:El; [done|]. assert ((i, hs) ∈ descending ∅) as Hi by (rewrite El; left). apply elem_of_descending in Hi. by rewrite lookup_empty in Hi. }
  rewrite Hdesc. cbn [search]. unfold timedRequestPackInfo. cbn [pd_fetchingInfo]. rewrite lookup_empty. cbn [due pd_myEpoch pd_packInfos]. rewrite Hdesc. cbn [to_remove foldl].
  set (d1 := mkPeerDl _ _ _ _ _ _). assert (waiting 0 0 None (Some 1) d1) as Hw.
  { split; cbn; try done.
    - apply bounds_empty.
    - intros j Hj. rewrite lookup_insert_ne by congruence. apply lookup_empty. }
  destruct (answer_step 0 0 None 1 d1 Hw eq_refl ltac:(lia) ltac:(lia) ltac:(lia) I) as (out & d' & Hstep & Hor); [destruct (Z.leb_spec 1 k); cbn; lia|lia|].
  rewrite (converse_S 32), Hstep.
  destruct Hor as [(i' & Ha' & -> & Hw' & Hp')|Hf]; [|exists out, d'; split; [by apply found_stops|done]].
  apply (converse_ends 31 1 _ _ i' d' Hw' Hp'); [lia|destruct (1 <=? k); lia| |done|].
  - destruct (Z.leb_spec 1 k); cbn; lia.
  - destruct (Z.leb_spec 1 k); cbn; lia.
Qed.
End spec.

(** ** A peer with twelve packs, five of them connected *)

Definition toy_unknown (heads : list hash) : list hash := filter (fun h => 5 < default 0 (head h)) heads.
Definition toy_heads (i : Z) : list hash := [[i]].

(** The packs six to eight are asked for, and the heads of the packs after them. *)
Example toy_search :
  let d := (peer_step toy_unknown 0 false (newPeer 1) (PacksNumOp 1 12)).2 in
  fst <$> converse toy_unknown 0 toy_heads 33 (peer_step toy_unknown 0 false d TickOp).1 (peer_step toy_unknown 0 false d TickOp).2 =
  Some [RequestPack 1 6; RequestPackInfos 1 7; RequestPack 1 7; RequestPackInfos 1 8; RequestPack 1 8; RequestPackInfos 1 9].
Proof. vm_compute. reflexivity. Qed.

Lemma pack_search_finds_witness : let d := (peer_step toy_unknown 0 false (newPeer 1) (PacksNumOp 1 12)).2 in
  let '(out, d') := peer_step toy_unknown 0 false d TickOp in
  exists out' d'', converse toy_unknown 0 toy_heads 33 out d' = Some (out', d'') /\ found 5 12 1 out'.
Proof.
  apply (pack_search_finds toy_unknown 5 12 1 0 toy_heads); [lia|unfold MaxInt32; lia|].
  intros i Hi. unfold allKnown, toy_unknown, toy_heads. rewrite bool_decide_eq_true. unfold filter; cbn. case_decide; cbn in *; split; intros; try done; lia.
Defined.
