(* ===== verification/Fetcher.v ===== *)
(** * The fetching of events: gossip/fetcher

    Announced hashes are requested from the peer that announced them; they
    are requested again from another one when they do not arrive, and
    forgotten in the end.  The counters of announcements per peer protect the
    memory.  One iteration of the loop is a step; the time, the filter of
    interesting hashes and the random choices are arguments of the step, and
    what goes out is listed. *)

From S2P Require Import Prelude Bytes Event Gossip.

(** ** fetcher.go *)

Definition forgetTimeout : Z := 60 * second.
Definition arriveTimeout : Z := second.
Definition gatherSlack : Z := second / 10.
Definition fetchTimeout : Z := 10 * second.
Definition hashLimit : Z := 3000.
Definition maxAnnounceBatch : nat := 256.

(** [oneAnnounce], with the fields of its batch that are read. *)
Record Announce := mkAnnounce { an_peer : string; an_time : Z }.

Record Fetcher := mkFetcher {
  ft_announces : gmap string Z;                (* how many, per peer *)
  ft_announced : gmap hash (list Announce);
  ft_fetching : gmap hash Announce;
  ft_fetchingTime : gmap hash Z
}.
Definition New : Fetcher := mkFetcher ∅ ∅ ∅ ∅.

(** What goes out: requests to peers, received events to the buffer, and
    announcements of parents to the queue of the fetcher itself. *)
Inductive fetch_effect :=
  | FetchEvents (peer : string) (ids : list hash)
  | PushEvent (e : EventHeaderData) (peer : string)
  | NotifyParents (peer : string) (batches : list (list hash)) (time : Z).

Inductive fetch_notification :=
  | NotifyOp (peer : string) (hashes : list hash) (time : Z)
  | InjectOp (peer : string) (events : list EventHeaderData) (time : Z)
  | TimerOp.

(** What an iteration reads of the world. *)
Record world := mkWorld {
  w_now : Z;
  w_interested : list hash -> list hash;
  w_intn : hash -> nat -> nat;          (* [rand.Intn], for a hash *)
  w_overloaded : string -> bool
}.

Section fetcher.
Context (event_Hash : EventHeaderData -> hash).
Implicit Types (f : Fetcher) (w : world).

Definition decAnnounce (announces : gmap string Z) (a : Announce) : gmap string Z :=
  let n := default 0 (announces !! an_peer a) - 1 in
  if n <=? 0 then delete (an_peer a) announces else <[an_peer a := n]> announces.

Definition forgetHash f (h : hash) : Fetcher :=
  mkFetcher (foldl decAnnounce (ft_announces f) (default [] (ft_announced f !! h)))
    (delete h (ft_announced f)) (delete h (ft_fetching f)) (delete h (ft_fetchingTime f)).

Definition cleanupExpiredEvents (now : Z) f : Fetcher :=
  foldl (fun f (it : hash * Announce) => if fetchTimeout <? now - an_time it.2 then forgetHash f it.1 else f) f (map_to_list (ft_fetching f)).

(** One announced hash; the last component collects what is to be fetched. *)
Definition announceHash (peer : string) (time : Z) (st : Fetcher * Z * list hash) (h : hash) : Fetcher * Z * list hash :=
  let '(f, count, toFetch) := st in
  let ann := mkAnnounce peer time in
  let announced := <[h := default [] (ft_announced f !! h) ++ [ann]]> (ft_announced f) in
  if bool_decide (is_Some (ft_fetching f !! h)) then (mkFetcher (ft_announces f) announced (ft_fetching f) (ft_fetchingTime f), count + 1, toFetch)
  else (mkFetcher (ft_announces f) announced (<[h := ann]> (ft_fetching f)) (<[h := time]> (ft_fetchingTime f)), count + 1, toFetch ++ [h]).

Definition onNotify w f (peer : string) (hashes : list hash) (time : Z) : list fetch_effect * Fetcher :=
  if bool_decide (peer = EmptyString) then ([], f)
  else
    let count := default 0 (ft_announces f !! peer) in
    if hashLimit <? count + zlen hashes then ([], f)
    else
      let hashes := w_interested w hashes in
      if bool_decide (hashes = []) then ([], f)
      else
        let '(f, count, toFetch) := foldl (announceHash peer time) (f, count, []) hashes in
        let f := mkFetcher (<[peer := count]> (ft_announces f)) (ft_announced f) (ft_fetching f) (ft_fetchingTime f) in
        (if bool_decide (toFetch = []) then [] else [FetchEvents peer toFetch], f).

(** The batches in which [Notify] divides a long list. *)
Fixpoint divide {A} (n : nat) (fuel : nat) (l : list A) : list (list A) :=
  match fuel, l with
  | S fuel, _ :: _ => take n l :: divide n fuel (drop n l)
  | _, _ => []
  end.
Definition Notify (hashes : list hash) : list (list hash) := divide maxAnnounceBatch (length hashes) hashes.

(** One received event: its parents that are not being fetched are wanted. *)
Definition injectEvent (peer : string) (st : list fetch_effect * list hash * Fetcher) (e : EventHeaderData) : list fetch_effect * list hash * Fetcher :=
  let '(out, parents, f) := st in
  (out ++ [PushEvent e peer], parents ++ filter (fun p => ft_fetching f !! p = None) (Parents e), forgetHash f (event_Hash e)).

Definition onInject w f (peer : string) (events : list EventHeaderData) (time : Z) : list fetch_effect * Fetcher :=
  let '(out, parents, f) := foldl (injectEvent peer) ([], [], f) events in
  let parents := w_interested w parents in
  if negb (bool_decide (parents = [])) && negb (w_overloaded w peer) then (out ++ [NotifyParents peer (Notify parents) time], f) else (out, f).

(** One hash that did not arrive; the map collects the requests. *)
Definition refetch w (st : Fetcher * gmap string (list hash)) (h : hash) : go (Fetcher * gmap string (list hash)) :=
  let '(f, request) := st in
  let announces := default [] (ft_announced f !! h) in
  oldest ← slice_at announces 0;
  if forgetTimeout <? w_now w - an_time oldest then Ret (forgetHash f h, request)
  else if arriveTimeout - gatherSlack <? w_now w - default 0 (ft_fetchingTime f !! h) then
    announce ← slice_at announces (Z.of_nat (w_intn w h (length announces)));
    Ret (mkFetcher (ft_announces f) (ft_announced f) (<[h := announce]> (ft_fetching f)) (<[h := w_now w]> (ft_fetchingTime f)),
         <[an_peer announce := default [] (request !! an_peer announce) ++ [h]]> request)
  else Ret (f, request).

(** The requester of the first hash is asked for all of them. *)
Definition sendRequest f (out : list fetch_effect) (it : string * list hash) : go (list fetch_effect) :=
  h ← slice_at it.2 0;
  match ft_fetching f !! h with
  | None => Fault NilDereference
  | Some _ => Ret (out ++ [FetchEvents it.1 it.2])
  end.

Definition onTimer w f : go (list fetch_effect * Fetcher) :=
  let all := (map_to_list (ft_announced f)).*1 in
  let notArrived := w_interested w all in
  '(f, request) ← go_fold (refetch w) (f, ∅) notArrived;
  let f := foldl (fun f h => if bool_decide (h ∈ notArrived) then f else forgetHash f h) f all in
  out ← go_fold (sendRequest f) [] (map_to_list request);
  Ret (out, f).

(** [processNotifications] *)
Definition processNotification w f (op : fetch_notification) : go (list fetch_effect * Fetcher) :=
  let f := cleanupExpiredEvents (w_now w) f in
  match op with
  | NotifyOp peer hashes time => Ret (onNotify w f peer hashes time)
  | InjectOp peer events time => Ret (onInject w f peer events time)
  | TimerOp => onTimer w f
  end.

Definition OverloadedPeer f (queues_full : bool) (peer : string) : bool :=
  queues_full || (hashLimit <? Z.of_nat (size (ft_announced f))) || (hashLimit / 2 <? default 0 (ft_announces f !! peer)).
End fetcher.

(** ** The counters and the announcements *)

Definition announced_by (p : string) (l : list Announce) : Z := zlen (filter (fun a => an_peer a = p) l).
Definition total_by (p : string) (m : gmap hash (list Announce)) : Z := zsum (announced_by p <$> (map_to_list m).*2).

Lemma announced_by_nonneg p l : 0 <= announced_by p l.
Proof. apply zlen_nonneg. Qed.

Lemma announced_by_snoc p l a : announced_by p (l ++ [a]) = announced_by p l + if decide (an_peer a = p) then 1 else 0.
Proof.
  unfold announced_by. rewrite filter_app, zlen_app. f_equal. destruct (decide (an_peer a = p)); [by rewrite filter_cons_True|by rewrite filter_cons_False].
Qed.

Lemma announced_by_cons p a l : announced_by p (a :: l) = (if decide (an_peer a = p) then 1 else 0) + announced_by p l.
Proof. unfold announced_by. destruct (decide (an_peer a = p)); [rewrite filter_cons_True by done; unfold zlen; cbn; lia|by rewrite filter_cons_False]. Qed.

Lemma total_delete p m h : total_by p (delete h m) = total_by p m - announced_by p (default [] (m !! h)).
Proof.
  unfold total_by. destruct (m !! h) as [l|] eqn:El; cbn [default from_option id]; [|rewrite delete_id by done; change (announced_by p []) with 0; lia].
  rewrite <-(insert_delete_id m h l) at 2 by done. rewrite map_to_list_insert by apply lookup_delete_eq. cbn. lia.
Qed.

Lemma total_insert p m h l : total_by p (<[h := l]> m) = total_by p m - announced_by p (default [] (m !! h)) + announced_by p l.
Proof.
  rewrite <-insert_delete_eq. unfold total_by at 1. rewrite map_to_list_insert by apply lookup_delete_eq. cbn.
  change (zsum (announced_by p <$> (map_to_list (delete h m)).*2)) with (total_by p (delete h m)). rewrite total_delete. lia.
Qed.

Lemma announced_le_total p m h : announced_by p (default [] (m !! h)) <= total_by p m.
Proof.
  assert (forall m', 0 <= total_by p m') as Hn.
  { intros m'. unfold total_by. induction (map_to_list m').*2 as [|l ls IH]; cbn; [done|]. pose proof (announced_by_nonneg p l). lia. }
  pose proof (total_delete p m h). specialize (Hn (delete h m)). lia.
Qed.

(** A counter is kept as long as it is positive. *)
Definition counters (announces : gmap string Z) (count : string -> Z) : Prop :=
  forall p, (announces !! p = None /\ count p = 0) \/ (announces !! p = Some (count p) /\ 0 < count p).

Lemma counters_default announces count p : counters announces count -> default 0 (announces !! p) = count p.
Proof. intros Hc. destruct (Hc p) as [[-> ->]|[-> _]]; done. Qed.

Lemma counters_ext announces c1 c2 : (forall p, c1 p = c2 p) -> counters announces c1 -> counters announces c2.
Proof. intros He Hc p. rewrite <-!He. apply Hc. Qed.

Lemma dec_counters l : forall announces count, counters announces count -> (forall p, announced_by p l <= count p) ->
  counters (foldl decAnnounce announces l) (fun p => count p - announced_by p l).
Proof.
  induction l as [|a l IH]; intros announces count Hc Hle; cbn [foldl].
  { apply (counters_ext _ count); [|done]. intros p. change (announced_by p []) with 0. lia. }
  apply (counters_ext _ (fun p => (count p - if decide (an_peer a = p) then 1 else 0) - announced_by p l)).
  { intros p. rewrite announced_by_cons. lia. }
  apply IH.
  - intros p. specialize (Hle p). rewrite announced_by_cons in Hle. pose proof (announced_by_nonneg p l). unfold decAnnounce. rewrite (counters_default _ _ _ Hc).
    destruct (decide (an_peer a = p)) as [<-|Hne].
    + destruct (Z.leb_spec (count (an_peer a) - 1) 0); [left; rewrite lookup_delete_eq; split; [done|lia]|right; rewrite lookup_insert_eq; split; [done|lia]].
    + rewrite Z.sub_0_r. destruct (Z.leb_spec (count (an_peer a) - 1) 0); [rewrite lookup_delete_ne by done|rewrite lookup_insert_ne by done]; apply Hc.
  - intros p. specialize (Hle p). rewrite announced_by_cons in Hle. lia.
Qed.

(** ** The invariant of the loop *)

Record fetcher_ok (f : Fetcher) : Prop := {
  fo_counters : counters (ft_announces f) (fun p => total_by p (ft_announced f));
  fo_limit p : total_by p (ft_announced f) <= hashLimit;
  fo_nonempty h l : ft_announced f !! h = Some l -> l <> [];
  fo_fetching h : is_Some (ft_fetching f !! h) <-> is_Some (ft_announced f !! h);
  fo_time h : is_Some (ft_fetchingTime f !! h) <-> is_Some (ft_announced f !! h)
}.

Lemma New_ok : fetcher_ok New.
Proof.
  assert (forall p, total_by p ∅ = 0) as H0 by (intros p; unfold total_by; by rewrite map_to_list_empty).
  split; cbn [New ft_announces ft_announced ft_fetching ft_fetchingTime].
  - intros p. left. by rewrite lookup_empty, H0.
  - intros p. by rewrite H0.
  - intros h l. by rewrite lookup_empty.
  - intros h. by rewrite !lookup_empty.
  - intros h. by rewrite !lookup_empty.
Qed.

Lemma forget_ok f h : fetcher_ok f -> fetcher_ok (forgetHash f h).
Proof.
  intros [Hc Hl Hn Hf Ht]. split; cbn.
  - eapply counters_ext; [|apply (dec_counters _ _ _ Hc)]; intros p; cbn; [by rewrite total_delete|apply announced_le_total].
  - intros p. rewrite total_delete. pose proof (announced_by_nonneg p (default [] (ft_announced f !! h))). specialize (Hl p). lia.
  - intros h' l. rewrite lookup_delete_Some. intros [_ Hl']. by eapply Hn.
  - intros h'. rewrite !lookup_delete_is_Some. by rewrite Hf.
  - intros h'. rewrite !lookup_delete_is_Some. by rewrite Ht.
Qed.

Lemma forget_fold_ok {A} (g : Fetcher -> A -> Fetcher) (l : list A) : (forall f x, fetcher_ok f -> fetcher_ok (g f x)) -> forall f, fetcher_ok f -> fetcher_ok (foldl g f l).
Proof. intros Hg. induction l as [|x l IH]; intros f Hf; cbn; [done|]. by apply IH, Hg. Qed.

Lemma cleanup_ok (now : Z) f : fetcher_ok f -> fetcher_ok (cleanupExpiredEvents now f).
Proof. apply forget_fold_ok. intros f0 it H0. destruct (_ <? _); [by apply forget_ok|done]. Qed.

(** While hashes are announced the counter of the peer lags behind. *)
Lemma announce_loop (peer : string) (time : Z) (hashes : list hash) : forall f count toFetch,
  let '(f', count', toFetch') := foldl (announceHash peer time) (f, count, toFetch) hashes in
  (forall h l, ft_announced f !! h = Some l -> l <> []) -> (forall h, is_Some (ft_fetching f !! h) <-> is_Some (ft_announced f !! h)) ->
  (forall h, is_Some (ft_fetchingTime f !! h) <-> is_Some (ft_announced f !! h)) ->
  ft_announces f' = ft_announces f /\ count' = count + zlen hashes /\
  (forall p, total_by p (ft_announced f') = total_by p (ft_announced f) + if decide (p = peer) then zlen hashes else 0) /\
  (forall h l, ft_announced f' !! h = Some l -> l <> []) /\ (forall h, is_Some (ft_fetching f' !! h) <-> is_Some (ft_announced f' !! h)) /\
  (forall h, is_Some (ft_fetchingTime f' !! h) <-> is_Some (ft_announced f' !! h)) /\
  (exists new, toFetch' = toFetch ++ new /\ NoDup new /\ forall h, h ∈ new <-> h ∈ hashes /\ ft_fetching f !! h = None).
Proof.
  induction hashes as [|h hashes IH]; intros f count toFetch; cbn [foldl].
  { intros Hn Hf Ht. unfold zlen. cbn. split_and!; try done; try lia; [intros p; destruct (decide (p = peer)); lia|].
    exists []. rewrite app_nil_r. split_and!; [done|apply NoDup_nil_2|]. intros h. split; [by intros ?%not_elem_of_nil|by intros [?%not_elem_of_nil _]]. }
  unfold announceHash at 2. set (announced := <[h := _]> (ft_announced f)).
  assert (forall p, total_by p announced = total_by p (ft_announced f) + if decide (p = peer) then 1 else 0) as Htot.
  { intros p. unfold announced. rewrite total_insert, announced_by_snoc. cbn. destruct (decide (peer = p)) as [->|]; [rewrite decide_True by done; lia|rewrite decide_False by congruence; lia]. }
  assert (forall h', is_Some (announced !! h') <-> h' = h \/ is_Some (ft_announced f !! h')) as Hdom.
  { intros h'. unfold announced. rewrite lookup_insert_is_Some'. naive_solver. }
  assert (forall n p, total_by p announced + (if decide (p = peer) then n else 0) = total_by p (ft_announced f) + if decide (p = peer) then 1 + n else 0) as Hadd.
  { intros n p. rewrite Htot. destruct (decide (p = peer)); lia. }
  assert (zlen (h :: hashes) = 1 + zlen hashes) as Hlen by (unfold zlen; cbn; lia).
  case_bool_decide as Hfe; (match goal with |- context [foldl (announceHash peer time) (?f1, ?c1, ?t1) hashes] => specialize (IH f1 c1 t1) end);
    destruct (foldl _ _ hashes) as [[f' count'] toFetch']; intros Hn Hf Ht; destruct IH as (I1 & I2 & I3 & I4 & I5 & I6 & new & I7 & I8 & I9); cbn [ft_announces ft_announced ft_fetching ft_fetchingTime] in *.
  1,5: intros h' l; unfold announced; rewrite lookup_insert_Some; intros [[<- <-]|[_ Hl]]; [by destruct (default [] _)|by eapply Hn].
  1,2: intros h'; rewrite Hdom; split; [intros Hs; right; first [by apply Hf|by apply Ht]|intros [->|Hs]; [first [done|by apply Ht, Hf]|first [by apply Hf|by apply Ht]]].
  2,3: intros h'; rewrite Hdom, lookup_insert_is_Some'; rewrite ?Hf, ?Ht; naive_solver.
  - rewrite I1, I2, Hlen. split_and!; try done; [lia|intros p; by rewrite I3, Hadd|]. exists new. split_and!; try done. intros h'. rewrite I9. rewrite elem_of_cons.
    split; [by intros [? ?]; split; [right|]|]. intros [[->|?] Hnone]; [|done]. by rewrite Hnone in Hfe; destruct Hfe.
  - rewrite I1, I2, Hlen. split_and!; try done; [lia|intros p; by rewrite I3, Hadd|]. exists (h :: new). rewrite I7, <-app_assoc. split_and!; [done| |].
    + apply NoDup_cons. split; [|done]. intros [_ Hin]%I9. by rewrite lookup_insert_eq in Hin.
    + intros h'. rewrite !elem_of_cons, I9. apply eq_None_not_Some in Hfe. destruct (decide (h' = h)) as [->|Hne]; [naive_solver|]. rewrite lookup_insert_ne by done. naive_solver.
Qed.

(** What the step asks of the world: the filter drops hashes and [Intn] is
    below its argument. *)
Record world_ok (w : world) : Prop := {
  wo_interested l : w_interested w l `sublist_of` l;
  wo_intn h n : (0 < n)%nat -> (w_intn w h n < n)%nat
}.

Lemma onNotify_ok w f (peer : string) (hashes : list hash) (time : Z) : world_ok w -> fetcher_ok f -> fetcher_ok (onNotify w f peer hashes time).2.
Proof.
  intros Hw [Hc Hl Hn Hf Ht]. unfold onNotify. case_bool_decide; [done|]. destruct (Z.ltb_spec hashLimit (default 0 (ft_announces f !! peer) + zlen hashes)); [done|].
  rewrite (counters_default _ _ _ Hc) in *. case_bool_decide as Hne; [done|].
  pose proof (announce_loop peer time (w_interested w hashes) f (total_by peer (ft_announced f)) []) as Hloop.
  destruct (foldl _ _ _) as [[f' count'] toFetch']. destruct (Hloop Hn Hf Ht) as (I1 & I2 & I3 & I4 & I5 & I6 & _).
  assert (0 < zlen (w_interested w hashes) <= zlen hashes) as Hlen.
  { pose proof (sublist_length _ _ (wo_interested w Hw hashes)). unfold zlen. destruct (w_interested w hashes); [done|]. cbn [length] in *. lia. }
  split; cbn [snd ft_announces ft_announced ft_fetching ft_fetchingTime]; try done.
  - intros p. rewrite I1, I3. destruct (decide (p = peer)) as [->|Hp].
    + right. rewrite lookup_insert_eq, I2. split; [done|]. pose proof (announced_le_total peer (ft_announced f) []). pose proof (announced_by_nonneg peer (default [] (ft_announced f !! []))). lia.
    + rewrite lookup_insert_ne, Z.add_0_r by done. apply Hc.
  - intros p. rewrite I3. specialize (Hl p). destruct (decide (p = peer)) as [->|]; lia.
Qed.

Lemma onInject_ok event_Hash w f (peer : string) (events : list EventHeaderData) (time : Z) : fetcher_ok f -> fetcher_ok (onInject event_Hash w f peer events time).2.
Proof.
  intros Hok. unfold onInject.
  assert (forall out parents, fetcher_ok (foldl (injectEvent event_Hash peer) (out, parents, f) events).2) as Hf.
  { revert f Hok. induction events as [|e es IH]; intros f Hok out parents; cbn [foldl]; [done|]. cbn [injectEvent]. by apply IH, forget_ok. }
  specialize (Hf [] []). destruct (foldl _ _ _) as [[out parents] f']. by destruct (_ && _).
Qed.

(** The requests of the timer name the peer that announced the hash. *)
Definition requests_ok (f : Fetcher) (request : gmap string (list hash)) : Prop :=
  forall p l, request !! p = Some l -> l <> [] /\ forall h, h ∈ l -> exists a, ft_fetching f !! h = Some a /\ an_peer a = p.

Lemma refetch_ok w f request h : world_ok w -> fetcher_ok f -> requests_ok f request -> is_Some (ft_announced f !! h) ->
  (forall p l, request !! p = Some l -> h ∉ l) -> exists f' request', refetch w (f, request) h = Ret (f', request') /\ fetcher_ok f' /\ requests_ok f' request' /\
  (forall h', h' <> h -> ft_announced f' !! h' = ft_announced f !! h') /\
  (forall p l h', request' !! p = Some l -> h' ∈ l -> h' = h \/ exists l0, request !! p = Some l0 /\ h' ∈ l0).
Proof.
  intros Hw Hok Hreq [l Hl] Hnew. pose proof (fo_nonempty _ Hok _ _ Hl) as Hne. unfold refetch. rewrite Hl. cbn [default from_option id].
  destruct (slice_get_is_Some l 0) as [oldest Ho]; [unfold zlen; destruct l; [done|cbn; lia]|]. apply slice_at_Ret in Ho. rewrite Ho, go_bind_Ret.
  destruct (forgetTimeout <? w_now w - an_time oldest).
  { eexists _, _. split; [reflexivity|]. split_and!; [by apply forget_ok| |intros h' Hh; cbn; by apply lookup_delete_ne|intros p l0 h' Hp Hin; right; eauto].
    intros p l0 Hp. destruct (Hreq p l0 Hp) as [H1 H2]. split; [done|]. intros h' Hin. destruct (H2 h' Hin) as (a & Ha & Hpa). exists a. split; [|done].
    cbn. rewrite lookup_delete_ne; [done|]. intros <-. by eapply Hnew. }
  destruct (arriveTimeout - gatherSlack <? _).
  2: { eexists _, _. split; [reflexivity|]. split_and!; try done. intros p l0 h' Hp Hin. right. eauto. }
  destruct (slice_get_is_Some l (Z.of_nat (w_intn w h (length l)))) as [a Ha].
  { pose proof (wo_intn w Hw h (length l)). unfold zlen. destruct l; [done|]. cbn [length] in *. lia. }
  apply slice_at_Ret in Ha. rewrite Ha, go_bind_Ret. eexists _, _. split; [reflexivity|]. destruct Hok as [Hc Hlim Hn Hf Ht]. split_and!.
  - split; cbn; try done; intros h'; rewrite lookup_insert_is_Some'; [rewrite Hf|rewrite Ht]; (split; [intros [->|Hs]; [by rewrite Hl|done]|intros Hs; by right]).
  - assert (forall h', (exists a', ft_fetching f !! h' = Some a' /\ an_peer a' = an_peer a /\ h' <> h) \/ h' = h ->
      exists a', <[h := a]> (ft_fetching f) !! h' = Some a' /\ an_peer a' = an_peer a) as Hin'.
    { intros h' [(a' & Ha' & Hp' & Hne')| ->]; [exists a'; by rewrite lookup_insert_ne|exists a; by rewrite lookup_insert_eq]. }
    intros p l0. cbn [ft_fetching]. rewrite lookup_insert_Some. intros [[<- <-]|[Hpne Hp]].
    + split; [by destruct (default [] _)|]. intros h' [Hh'| ->%list_elem_of_singleton]%elem_of_app; apply Hin'; [left|by right].
      destruct (request !! an_peer a) as [l1|] eqn:E1; cbn in Hh'; [|by apply not_elem_of_nil in Hh']. destruct (Hreq _ _ E1) as [_ H2].
      destruct (H2 h' Hh') as (a' & Ha' & Hp'). exists a'. split_and!; try done. intros ->. by eapply Hnew.
    + destruct (Hreq p l0 Hp) as [H1 H2]. split; [done|]. intros h' Hh'. destruct (H2 h' Hh') as (a' & Ha' & Hp'). exists a'. split; [|done].
      rewrite lookup_insert_ne; [done|]. intros <-. by eapply Hnew.
  - done.
  - intros p l0 h'. rewrite lookup_insert_Some. intros [[<- <-]|[_ Hp]] Hh'; [|right; eauto].
    apply elem_of_app in Hh' as [Hh'| ->%list_elem_of_singleton]; [right|by left]. destruct (request !! an_peer a) as [l1|]; cbn in Hh'; [eauto|by apply not_elem_of_nil in Hh'].
Qed.

Lemma refetch_loop w (hashes : list hash) : world_ok w -> NoDup hashes -> forall f request, fetcher_ok f -> requests_ok f request ->
  (forall h, h ∈ hashes -> is_Some (ft_announced f !! h)) -> (forall p l h, request !! p = Some l -> h ∈ l -> h ∉ hashes) ->
  exists f' request', go_fold (refetch w) (f, request) hashes = Ret (f', request') /\ fetcher_ok f' /\ requests_ok f' request' /\
  (forall p l h, request' !! p = Some l -> h ∈ l -> h ∈ hashes \/ exists l0, request !! p = Some l0 /\ h ∈ l0).
Proof.
  intros Hw. induction 1 as [|h hashes Hh Hnd IH]; intros f request Hok Hreq Hin Hdis; cbn [go_fold].
  { exists f, request. split_and!; try done. intros p l h Hp Hl. right. eauto. }
  destruct (refetch_ok w f request h Hw Hok Hreq) as (f1 & r1 & -> & Hok1 & Hr1 & Ho1 & Hi1); [apply Hin; by left|intros p l Hp Hl; apply (Hdis p l h Hp Hl); by left|].
  rewrite go_bind_Ret. destruct (IH f1 r1 Hok1 Hr1) as (f' & r' & -> & Hok' & Hr' & Hi').
  { intros h' Hh'. rewrite Ho1; [apply Hin; by right|]. by intros ->. }
  { intros p l h' Hp Hl. destruct (Hi1 p l h' Hp Hl) as [->|(l0 & Hp0 & Hl0)]; [done|]. intros Hc. apply (Hdis p l0 h' Hp0 Hl0). by right. }
  exists f', r'. split_and!; try done. intros p l h' Hp Hl. destruct (Hi' p l h' Hp Hl) as [Hc|(l0 & Hp0 & Hl0)]; [left; by right|].
  destruct (Hi1 p l0 h' Hp0 Hl0) as [->|Hr]; [left; by left|by right].
Qed.

Lemma forget_arrived (keep l : list hash) (h : hash) : h ∈ keep -> forall f,
  ft_fetching (foldl (fun f h => if bool_decide (h ∈ keep) then f else forgetHash f h) f l) !! h = ft_fetching f !! h.
Proof.
  intros Hh. induction l as [|h' l IH]; intros f; cbn [foldl]; [done|]. rewrite IH. case_bool_decide as Hk; [done|]. cbn. apply lookup_delete_ne. by intros ->.
Qed.

Lemma sendRequest_loop f (l : list (string * list hash)) : (forall p ids, (p, ids) ∈ l -> ids <> [] /\ forall h, h ∈ ids -> is_Some (ft_fetching f !! h)) ->
  forall out, go_fold (sendRequest f) out l = Ret (out ++ ((fun it => FetchEvents it.1 it.2) <$> l)).
Proof.
  induction l as [|[p ids] l IH]; intros Hl out; cbn [go_fold]; [by rewrite app_nil_r|]. unfold sendRequest at 2. cbn [fst snd].
  destruct (Hl p ids ltac:(by left)) as [Hne Hf]. destruct ids as [|h ids]; [done|]. change (slice_at (h :: ids) 0) with (Ret h). rewrite go_bind_Ret.
  destruct (Hf h ltac:(by left)) as [a ->]. rewrite go_bind_Ret, IH; [cbn; by rewrite <-app_assoc|]. intros p' ids' Hin. apply (Hl p' ids'). by right.
Qed.

Lemma onTimer_ok w f : world_ok w -> fetcher_ok f -> exists out f', onTimer w f = Ret (out, f') /\ fetcher_ok f' /\
  forall e, e ∈ out -> exists p ids, e = FetchEvents p ids /\ ids <> [] /\ forall h, h ∈ ids -> exists a, ft_fetching f' !! h = Some a /\ an_peer a = p.
Proof.
  intros Hw Hok. unfold onTimer. cbv zeta. set (all := (map_to_list (ft_announced f)).*1). pose proof (wo_interested w Hw all) as Hsub.
  assert (NoDup all) as Hall by apply NoDup_fst_map_to_list. assert (NoDup (w_interested w all)) as Hnd by (by eapply sublist_NoDup).
  destruct (refetch_loop w (w_interested w all) Hw Hnd f ∅ Hok) as (f1 & request & -> & Hok1 & Hr1 & Hi1).
  { intros p l. by rewrite lookup_empty. }
  { intros h Hh. eapply (elem_of_sublist _ _ _ Hh) in Hsub. apply list_elem_of_fmap in Hsub as ([h' l] & -> & Hl%elem_of_map_to_list). by exists l. }
  { intros p l h. by rewrite lookup_empty. }
  rewrite go_bind_Ret. set (f2 := foldl _ f1 all).
  assert (fetcher_ok f2) as Hok2 by (apply forget_fold_ok; [|done]; intros f0 h H0; case_bool_decide; [done|by apply forget_ok]).
  assert (forall p ids, (p, ids) ∈ map_to_list request -> ids <> [] /\ forall h, h ∈ ids -> exists a, ft_fetching f2 !! h = Some a /\ an_peer a = p) as Hreq.
  { intros p ids Hp%elem_of_map_to_list. destruct (Hr1 p ids Hp) as [H1 H2]. split; [done|]. intros h Hh. unfold f2. rewrite forget_arrived; [by apply H2|].
    destruct (Hi1 p ids h Hp Hh) as [?|(l0 & Hl0 & _)]; [done|]. by rewrite lookup_empty in Hl0. }
  rewrite sendRequest_loop, go_bind_Ret.
  - eexists _, _. split; [reflexivity|]. split; [done|]. intros e ([p ids] & -> & Hin)%list_elem_of_fmap. exists p, ids. split; [done|]. by apply Hreq.
  - intros p ids Hin. destruct (Hreq p ids Hin) as [H1 H2]. split; [done|]. intros h Hh. destruct (H2 h Hh) as (a & Ha & _). by exists a.
Qed.

(** ** Sequences of iterations *)

Section run.
Context (event_Hash : EventHeaderData -> hash).

(** What each iteration puts out, and the state after it. *)
Fixpoint run_fetcher (f : Fetcher) (steps : list (world * fetch_notification)) : go (list (list fetch_effect * Fetcher)) :=
  match steps with
  | [] => Ret []
  | (w, op) :: steps =>
      '(out, f) ← processNotification event_Hash w f op;
      rest ← run_fetcher f steps;
      Ret ((out, f) :: rest)
  end.

Definition addressed (f : Fetcher) (op : fetch_notification) (e : fetch_effect) : Prop :=
  match e, op with
  | FetchEvents p ids, NotifyOp peer hashes _ => p = peer /\ ids <> []
  | FetchEvents p ids, TimerOp => ids <> [] /\ forall h, h ∈ ids -> exists a, ft_fetching f !! h = Some a /\ an_peer a = p
  | FetchEvents _ _, InjectOp _ _ _ => False
  | _, _ => True
  end.

Lemma step_ok w f op : world_ok w -> fetcher_ok f -> exists out f', processNotification event_Hash w f op = Ret (out, f') /\ fetcher_ok f' /\
  forall e, e ∈ out -> addressed f' op e.
Proof.
  intros Hw Hf. apply (cleanup_ok (w_now w)) in Hf. unfold processNotification. set (f0 := cleanupExpiredEvents (w_now w) f) in *. destruct op as [peer hashes time|peer events time|].
  - pose proof (onNotify_ok w f0 peer hashes time Hw Hf) as Hok. destruct (onNotify w f0 peer hashes time) as [out f'] eqn:En. exists out, f'. split_and!; [done|done|].
    intros e He. unfold onNotify in En. cbv zeta in En.
    destruct (bool_decide (peer = EmptyString)); [injection En as <- _; by apply not_elem_of_nil in He|].
    destruct (hashLimit <? _); [injection En as <- _; by apply not_elem_of_nil in He|].
    destruct (bool_decide (w_interested w hashes = [])); [injection En as <- _; by apply not_elem_of_nil in He|].
    destruct (foldl _ _ _) as [[f1 c1] t1]. injection En as <- _. case_bool_decide; [by apply not_elem_of_nil in He|]. by apply list_elem_of_singleton in He as ->.
  - pose proof (onInject_ok event_Hash w f0 peer events time Hf) as Hok. destruct (onInject event_Hash w f0 peer events time) as [out f'] eqn:En. exists out, f'. split_and!; [done|done|].
    intros e He. assert (forall out0 parents0 f1, (forall e, e ∈ out0 -> exists e', e = PushEvent e' peer) ->
      forall e, e ∈ (foldl (injectEvent event_Hash peer) (out0, parents0, f1) events).1.1 -> exists e', e = PushEvent e' peer) as Hpush.
    { clear. induction events as [|x events IH]; intros out0 parents0 f1 H0; cbn [foldl]; [done|]. cbn [injectEvent]. apply IH.
      intros e [He| ->%list_elem_of_singleton]%elem_of_app; [by apply H0|by eexists]. }
    specialize (Hpush [] [] f0 ltac:(by intros e0 H0%not_elem_of_nil)). unfold onInject in En. destruct (foldl _ _ _) as [[o1 p1] f1]. cbn [fst] in Hpush.
    destruct (_ && _); injection En as <- _; [apply elem_of_app in He as [He| ->%list_elem_of_singleton]; [|done]|]; by destruct (Hpush e He) as [e' ->].
  - destruct (onTimer_ok w f0 Hw Hf) as (out & f' & -> & Hok & Hout). exists out, f'. split_and!; [done|done|].
    intros e He. by destruct (Hout e He) as (p & ids & -> & Hids).
Qed.

(** C17: The fetcher never panics and its counters stay in step.  Whatever is
    announced, arrives or expires, each iteration returns; after it the
    counter of a peer is the number of its announcements that are remembered,
    never more than 3000; a hash is being fetched, and has a time, exactly
    while some announcement of it is remembered; and a request goes to a peer
    that announced what is requested. *)
Theorem fetcher_counts_synced (steps : list (world * fetch_notification)) : Forall (fun s => world_ok s.1) steps ->
  exists trace, run_fetcher New steps = Ret trace /\
  Forall2 (fun (s : world * fetch_notification) (r : list fetch_effect * Fetcher) =>
    (forall p, default 0 (ft_announces r.2 !! p) = total_by p (ft_announced r.2) /\ total_by p (ft_announced r.2) <= hashLimit) /\
    (forall h, is_Some (ft_fetching r.2 !! h) <-> exists l, ft_announced r.2 !! h = Some l /\ l <> []) /\
    (forall h, is_Some (ft_fetchingTime r.2 !! h) <-> is_Some (ft_fetching r.2 !! h)) /\
    forall e, e ∈ r.1 -> addressed r.2 s.2 e) steps trace.
Proof.
  generalize New New_ok. intros f Hf Hws. revert f Hf. induction Hws as [|[w op] steps Hw Hws IH]; intros f Hf; cbn [run_fetcher]; [by exists []|].
  destruct (step_ok w f op Hw Hf) as (out & f1 & -> & Hf1 & Hout). rewrite go_bind_Ret. destruct (IH f1 Hf1) as (trace & -> & Htrace).
  exists ((out, f1) :: trace). rewrite go_bind_Ret. split; [done|]. constructor; [|done]. destruct Hf1 as [Hc Hl Hn Hfe Ht]. cbn [fst snd]. split_and!; [| | |done].
  - intros p. split; [by apply (counters_default _ _ p) in Hc|done].
  - intros h. rewrite Hfe. split; [intros [l Hl']; exists l; split; [done|by eapply Hn]|intros (l & Hl' & _); by exists l].
  - intros h. by rewrite Ht, Hfe.
Qed.
End run.

(** ** A short run *)

Definition toy_world (now : Z) : world := mkWorld now (fun l => l) (fun _ _ => 0%nat) (fun _ => false).
Definition toy_steps : list (world * fetch_notification) :=
  [(toy_world 0, NotifyOp "a" [[1]; [2]] 0); (toy_world 0, NotifyOp "b" [[2]] 0); (toy_world (2 * second), TimerOp);
   (toy_world (2 * second), InjectOp "a" [mkHeader 0 1 1 1 false 1 ZeroHash [[7]] [0; 0] 0 1 0 0 ZeroHash [2] None] 0); (toy_world (70 * second), TimerOp)].

(** The second announcement of a hash asks for nothing; an event that arrives
    announces its parents; what stays away is forgotten. *)
Example toy_fetch : (fun tr : list (list fetch_effect * Fetcher) => (fun r : list fetch_effect * Fetcher => (length r.1, size (ft_announced r.2))) <$> tr) <$> run_fetcher Extra New toy_steps =
  Ret [(1, 2); (0, 2); (1, 2); (2, 1); (0, 0)]%nat.
Proof. vm_compute. reflexivity. Qed.

Lemma toy_world_ok (now : Z) : world_ok (toy_world now).
Proof. split; [intros l; reflexivity|]. intros h n Hn. exact Hn. Qed.

Lemma fetcher_counts_synced_witness : exists trace, run_fetcher Extra New toy_steps = Ret trace /\
  Forall2 (fun (s : world * fetch_notification) (r : list fetch_effect * Fetcher) =>
    (forall p, default 0 (ft_announces r.2 !! p) = total_by p (ft_announced r.2) /\ total_by p (ft_announced r.2) <= hashLimit) /\
    (forall h, is_Some (ft_fetching r.2 !! h) <-> exists l, ft_announced r.2 !! h = Some l /\ l <> []) /\
    (forall h, is_Some (ft_fetchingTime r.2 !! h) <-> is_Some (ft_fetching r.2 !! h)) /\
    forall e, e ∈ r.1 -> addressed r.2 s.2 e) toy_steps trace.
Proof. apply (fetcher_counts_synced Extra toy_steps). repeat constructor; apply toy_world_ok. Defined.
