(* ===== verification/Heap.v ===== *)
(** The priority queue of Go's standard library (container/heap), which the transaction pool builds its nonce
    index and its price index on: [up], [down], [Init], [Push], [Pop] and [Remove] over a slice and a
    [less] function, as the library's code has them, with their contracts: each keeps the elements, restores
    the heap order, and [Pop] takes a least element.

    The library's loops are fuel recursions; a fuel of the slice's length is enough, which the contracts show
    (the heap order could not be restored otherwise).  [Pop] and [Remove]
    panic out of range. *)
From stdpp Require Import list.
From S2P Require Import Prelude.

Section Heap.
Context {A : Type} (less : A -> A -> bool).

(** heap.Interface for a slice: Less and Swap. *)
Definition lessAt (l : list A) (i j : nat) : bool :=
  match l !! i, l !! j with Some a, Some b => less a b | _, _ => false end.

Definition swap (l : list A) (i j : nat) : list A :=
  match l !! i, l !! j with Some a, Some b => <[i:=b]> (<[j:=a]> l) | _, _ => l end.

Definition parent (j : nat) : nat := (j - 1) / 2.

Fixpoint up (fuel : nat) (l : list A) (j : nat) : list A :=
  match fuel with
  | O => l
  | S fuel =>
    let i := parent j in
    if (i =? j)%nat || negb (lessAt l j i) then l else up fuel (swap l i j) i
  end.

(** down returns the slice and the index where the element stopped. *)
Fixpoint down (fuel : nat) (l : list A) (i n : nat) : list A * nat :=
  match fuel with
  | O => (l, i)
  | S fuel =>
    let j1 := (2 * i + 1)%nat in
    if (n <=? j1)%nat then (l, i) else
    let j2 := (j1 + 1)%nat in
    let j := if (j2 <? n)%nat && lessAt l j2 j1 then j2 else j1 in
    if negb (lessAt l j i) then (l, i) else down fuel (swap l i j) j n
  end.

(** for i := n/2 - 1; i >= 0; i-- { down(h, i, n) } *)
Fixpoint init_loop (k : nat) (l : list A) : list A :=
  match k with O => l | S i => init_loop i (down (length l) l i (length l)).1 end.

Definition heap_Init (l : list A) : list A := init_loop (length l / 2) l.

Definition heap_Push (l : list A) (x : A) : list A := up (S (length l)) (l ++ [x]) (length l).

(** The last element of the slice leaves it (the Pop method of the slice types). *)
Definition pop_last (l : list A) : go (A * list A) :=
  match last l with Some x => Ret (x, removelast l) | None => Fault IndexOutOfRange end.

Definition heap_Pop (l : list A) : go (A * list A) :=
  let n := (length l - 1)%nat in
  pop_last (down (length l) (swap l 0 n) 0 n).1.

Definition heap_Remove (l : list A) (i : nat) : go (A * list A) :=
  let n := (length l - 1)%nat in
  if (n =? i)%nat then pop_last l else
  let l1 := swap l i n in
  let (l2, i') := down (length l) l1 i n in
  pop_last (if (i <? i')%nat then l2 else up (S (length l)) l2 i).

(** * The loops do not run out of fuel *)

Lemma parent_lt j : (0 < j)%nat -> (parent j < j)%nat.
Proof. intros Hj. unfold parent. apply Nat.Div0.div_lt_upper_bound. lia. Qed.

Lemma up_enough f1 f2 l j : (j < f1)%nat -> (j < f2)%nat -> up f1 l j = up f2 l j.
Proof.
  revert f2 l j. induction f1 as [|f1 IH]; intros f2 l j Hf1 Hf2; [lia|]. destruct f2 as [|f2]; [lia|]. cbn [up].
  destruct (Nat.eqb_spec (parent j) j) as [|Hne]; [done|]. cbn [orb]. destruct (negb _); [done|].
  assert (0 < j)%nat by (destruct j; [done|lia]). pose proof (parent_lt j ltac:(assumption)). apply IH; lia.
Qed.

Lemma down_enough f1 f2 l i n : (n <= i + f1)%nat -> (n <= i + f2)%nat -> down f1 l i n = down f2 l i n.
Proof.
  revert f2 l i. induction f1 as [|f1 IH]; intros f2 l i Hf1 Hf2.
  - destruct f2 as [|f2]; [done|]. cbn [down]. by rewrite (proj2 (Nat.leb_le _ _)) by lia.
  - destruct f2 as [|f2]; cbn [down]; [by rewrite (proj2 (Nat.leb_le _ _)) by lia|].
    destruct (n <=? _)%nat; [done|]. cbv zeta. destruct (negb _); [done|]. apply IH; case_match; lia.
Qed.

(** * Elements *)

Lemma insert_perm (l : list A) (i : nat) (a b : A) : l !! i = Some a -> b :: l ≡ₚ a :: <[i:=b]> l.
Proof.
  intros Hi. rewrite insert_take_drop by (by eapply lookup_lt_Some). rewrite <-(take_drop_middle l i a Hi) at 1.
  rewrite <-!Permutation_middle. apply perm_swap.
Qed.

Lemma swap_perm (l : list A) (i j : nat) : swap l i j ≡ₚ l.
Proof.
  unfold swap. destruct (l !! i) as [a|] eqn:Ha; [|done]. destruct (l !! j) as [b|] eqn:Hb; [|done].
  apply (Permutation_cons_inv (a:=a)). destruct (decide (i = j)) as [<-|Hne].
  - rewrite Ha in Hb. injection Hb as <-. by rewrite list_insert_insert_eq, list_insert_id.
  - rewrite <-(insert_perm (<[j:=a]> l) i a b), <-(insert_perm l j b a); [done..|]. by rewrite list_lookup_insert_ne.
Qed.

Lemma swap_length (l : list A) (i j : nat) : length (swap l i j) = length l.
Proof. by rewrite swap_perm. Qed.

Lemma up_perm (f : nat) (l : list A) (j : nat) : up f l j ≡ₚ l.
Proof. revert l j. induction f as [|f IH]; intros l j; [done|]. cbn [up]. destruct (_ || _); [done|]. by rewrite IH, swap_perm. Qed.

Lemma down_perm (f : nat) (l : list A) (i n : nat) : (down f l i n).1 ≡ₚ l.
Proof.
  revert l i. induction f as [|f IH]; intros l i; [done|]. cbn [down]. destruct (n <=? _)%nat; [done|]. cbv zeta.
  destruct (negb _); [done|]. by rewrite IH, swap_perm.
Qed.

Lemma init_loop_perm (k : nat) (l : list A) : init_loop k l ≡ₚ l.
Proof. revert l. induction k as [|k IH]; intros l; [done|]. cbn [init_loop]. by rewrite IH, down_perm. Qed.

Lemma heap_Init_perm (l : list A) : heap_Init l ≡ₚ l.
Proof. apply init_loop_perm. Qed.

Lemma heap_Push_perm (l : list A) (x : A) : heap_Push l x ≡ₚ x :: l.
Proof. unfold heap_Push. rewrite up_perm. symmetry. apply Permutation_cons_append. Qed.

(** * Heap order *)

(** [less] is a strict weak order: "not greater" is total and transitive. *)
Class WeakOrder : Prop := {
  less_asym a b : less a b = true -> less b a = false;
  less_trans a b c : less b a = false -> less c b = false -> less c a = false }.

(** The element at [k] is not below the one at its parent. *)
Definition edge (l : list A) (k : nat) : Prop :=
  forall a b, l !! parent k = Some a -> l !! k = Some b -> less b a = false.

Definition heap_ordered (l : list A) : Prop := forall k, (0 < k)%nat -> (k < length l)%nat -> edge l k.

Context `{WeakOrder}.

Lemma less_irrefl (a : A) : less a a = false.
Proof. destruct (less a a) eqn:Ha; [|done]. by rewrite (less_asym a a) in Ha. Qed.

Lemma swap_lookup (l : list A) (i j : nat) (a b : A) : l !! i = Some a -> l !! j = Some b ->
  forall k, swap l i j !! k = if decide (k = i) then Some b else if decide (k = j) then Some a else l !! k.
Proof.
  intros Ha Hb k. unfold swap. rewrite Ha, Hb. destruct (decide (k = i)) as [->|Hi].
  - rewrite list_lookup_insert_eq; [done|]. rewrite length_insert. by eapply lookup_lt_Some.
  - rewrite list_lookup_insert_ne by done. destruct (decide (k = j)) as [->|Hj].
    + rewrite list_lookup_insert_eq; [done|]. by eapply lookup_lt_Some.
    + by rewrite list_lookup_insert_ne.
Qed.

Lemma children (j k : nat) : (0 < k)%nat -> parent k = j -> (k = 2 * j + 1 \/ k = 2 * j + 2)%nat.
Proof. unfold parent. intros Hk <-. pose proof (Nat.div_mod_eq (k - 1) 2). pose proof (Nat.mod_upper_bound (k - 1) 2). lia. Qed.

Lemma parent_left (i : nat) : parent (2 * i + 1) = i.
Proof. unfold parent. replace (2 * i + 1 - 1)%nat with (i * 2)%nat by lia. by apply Nat.div_mul. Qed.

Lemma parent_right (i : nat) : parent (2 * i + 1 + 1) = i.
Proof. unfold parent. symmetry. apply Nat.div_unique with 1%nat; lia. Qed.

(** The root of a heap is a least element. *)
Lemma root_least (l : list A) (a b : A) : heap_ordered l -> l !! 0%nat = Some a -> b ∈ l -> less b a = false.
Proof.
  intros Hh Ha (k & Hk)%list_elem_of_lookup. revert b Hk. induction (lt_wf k) as [k _ IH]. intros b Hk.
  destruct (decide (k = 0%nat)) as [->|Hne]; [rewrite Ha in Hk; injection Hk as <-; apply less_irrefl|].
  pose proof (parent_lt k ltac:(lia)) as Hp. pose proof (lookup_lt_Some _ _ _ Hk) as Hl.
  destruct (lookup_lt_is_Some_2 l (parent k)) as [c Hc]; [lia|].
  eapply less_trans; [apply (IH _ Hp c Hc)|]. apply (Hh k); [lia|done..].
Qed.

(** ** up *)

Lemma up_ordered (f : nat) (l : list A) (j n : nat) : (j < f)%nat -> (j < n)%nat -> (n <= length l)%nat ->
  (forall k, (0 < k)%nat -> (k < n)%nat -> k <> j -> edge l k) ->
  (forall k a b, (0 < k)%nat -> (k < n)%nat -> (0 < j)%nat -> parent k = j -> l !! parent j = Some a -> l !! k = Some b -> less b a = false) ->
  forall k, (0 < k)%nat -> (k < n)%nat -> edge (up f l j) k.
Proof.
  revert l j. induction f as [|f IH]; intros l j Hf Hj Hn He Hg; [lia|]. cbn [up].
  destruct (Nat.eqb_spec (parent j) j) as [Hr|Hne].
  { cbn [orb]. intros k Hk Hl. destruct (decide (k = j)) as [->|Hkj]; [|by apply He]. pose proof (parent_lt j Hk). lia. }
  assert (0 < j)%nat as Hj0 by (destruct j; [done|lia]). pose proof (parent_lt j Hj0) as Hp. cbn [orb].
  destruct (lookup_lt_is_Some_2 l j) as [b Hb]; [lia|]. destruct (lookup_lt_is_Some_2 l (parent j)) as [a Ha]; [lia|].
  unfold lessAt. rewrite Hb, Ha. destruct (less b a) eqn:Hlt; cbn [negb].
  2:{ intros k Hk Hl. destruct (decide (k = j)) as [->|Hkj]; [|by apply He]. intros a' b' Ha' Hb'.
      rewrite Ha in Ha'. rewrite Hb in Hb'. by injection Ha' as <-; injection Hb' as <-. }
  assert (forall k, swap l (parent j) j !! k = if decide (k = j) then Some a else if decide (k = parent j) then Some b else l !! k) as Hs.
  { intros k. rewrite (swap_lookup l (parent j) j a b Ha Hb). repeat case_decide; by subst; try lia. }
  apply IH; [lia|lia|rewrite swap_length; lia|..].
  - intros k Hk Hl Hkp a' b'. rewrite !Hs. destruct (decide (k = j)) as [->|Hkj].
    + rewrite decide_False by done. rewrite decide_True by done. intros [= <-] [= <-]. by apply less_asym.
    + rewrite (decide_False (P := k = parent j)) by done. destruct (decide (parent k = j)) as [Hpk|Hpk].
      * intros [= <-] Hb'. by apply (Hg k a b').
      * destruct (decide (parent k = parent j)) as [Hpp|Hpp]; [|by apply He].
        intros [= <-] Hb'. eapply (less_trans b a b'); [by apply less_asym|]. apply (He k Hk Hl Hkj); [by rewrite Hpp|done].
  - intros k a' b' Hk Hkn Hpj Hpk. pose proof (parent_lt _ Hpj) as Hpp. pose proof (parent_lt _ Hk) as Hpk'.
    rewrite !Hs. rewrite (decide_False (P := parent (parent j) = j)), (decide_False (P := parent (parent j) = parent j)) by lia.
    intros Ha'. destruct (decide (k = j)) as [->|Hkj].
    + intros [= <-]. apply (He (parent j)); [done|lia|lia|done..].
    + rewrite decide_False by lia. intros Hb'. eapply (less_trans a' a b').
      * apply (He (parent j)); [done|lia|lia|done..].
      * apply (He k); [done|done|done|by rewrite Hpk|done].
Qed.

Lemma up_above (f : nat) (l : list A) (j k : nat) : (j < k)%nat -> up f l j !! k = l !! k.
Proof.
  revert l j. induction f as [|f IH]; intros l j Hk; [done|]. cbn [up]. destruct (Nat.eqb_spec (parent j) j); [done|]. cbn [orb].
  destruct (negb _); [done|]. assert (0 < j)%nat by (destruct j; [done|lia]). pose proof (parent_lt j ltac:(assumption)).
  rewrite IH by lia. unfold swap. destruct (l !! parent j), (l !! j); try done. by rewrite !list_lookup_insert_ne by lia.
Qed.

Lemma heap_Push_ordered (l : list A) (x : A) : heap_ordered l -> heap_ordered (heap_Push l x).
Proof.
  intros Hh k Hk Hl. unfold heap_Push in *. rewrite up_perm in Hl. revert k Hk Hl.
  apply up_ordered; [lia|rewrite length_app; cbn; lia|done|..].
  - intros k Hk Hl Hne a b. rewrite length_app in Hl. cbn in Hl. pose proof (parent_lt k Hk) as Hp.
    rewrite !lookup_app_l by lia. apply Hh; lia.
  - intros k a b Hk Hl _ Hp _ _. rewrite length_app in Hl. cbn in Hl. pose proof (parent_lt k Hk). lia.
Qed.

(** ** down *)

(** The child that down compares with: the smaller of the two. *)
Definition smaller_child (l : list A) (i n : nat) : nat :=
  let j1 := (2 * i + 1)%nat in if (j1 + 1 <? n)%nat && lessAt l (j1 + 1) j1 then (j1 + 1)%nat else j1.

Lemma smaller_child_spec (l : list A) (i n : nat) : (2 * i + 1 < n)%nat -> (n <= length l)%nat ->
  parent (smaller_child l i n) = i /\ (i < smaller_child l i n < n)%nat /\
  forall k a b, (0 < k)%nat -> (k < n)%nat -> parent k = i -> l !! smaller_child l i n = Some a -> l !! k = Some b -> less b a = false.
Proof.
  intros Hn Hl. unfold smaller_child. cbv zeta. destruct (Nat.ltb_spec (2 * i + 1 + 1) n) as [H2|H2]; cbn [andb].
  - unfold lessAt. destruct (lookup_lt_is_Some_2 l (2 * i + 1 + 1)) as [c Hc]; [lia|]. destruct (lookup_lt_is_Some_2 l (2 * i + 1)) as [d Hd]; [lia|].
    rewrite Hc, Hd. destruct (less c d) eqn:Hcd; (split; [first [apply parent_right | apply parent_left]|]); (split; [lia|]);
      intros k a b Hk _ Hp Ha Hb; rewrite ?Hc, ?Hd in Ha; injection Ha as <-; destruct (children _ _ Hk Hp) as [->| ->];
      replace (2 * i + 2)%nat with (2 * i + 1 + 1)%nat in * by lia; rewrite ?Hc, ?Hd in Hb; injection Hb as <-;
      first [apply less_irrefl | by apply less_asym | done].
  - split; [apply parent_left|]. split; [lia|]. intros k a b Hk Hkn Hp Ha Hb. destruct (children _ _ Hk Hp) as [->| ->]; [|lia].
    rewrite Ha in Hb. injection Hb as <-. apply less_irrefl.
Qed.

Lemma down_step (f : nat) (l : list A) (i n : nat) : down (S f) l i n =
  if (n <=? 2 * i + 1)%nat then (l, i) else
  if negb (lessAt l (smaller_child l i n) i) then (l, i) else down f (swap l i (smaller_child l i n)) (smaller_child l i n) n.
Proof. reflexivity. Qed.

Lemma down_index (f : nat) (l : list A) (i n : nat) : (i <= (down f l i n).2)%nat.
Proof.
  revert l i. induction f as [|f IH]; intros l i; [done|]. rewrite down_step. destruct (n <=? _)%nat; [done|]. destruct (negb _); [done|].
  etrans; [|apply IH]. unfold smaller_child. cbv zeta. case_match; lia.
Qed.

(** [down] at [i] restores every edge below [lo], but the one into [x] (where [x] is [i] itself) when the element
    stays where it is. *)
Lemma down_ordered (f : nat) (l : list A) (i n x lo : nat) : (n <= length l)%nat -> (n <= i + f)%nat -> (lo <= i)%nat -> (x = i \/ n <= x)%nat ->
  (forall k, (0 < k)%nat -> (k < n)%nat -> (lo <= parent k)%nat -> parent k <> i -> k <> x -> edge l k) ->
  (forall k a b, (0 < k)%nat -> (k < n)%nat -> parent k = i -> (0 < i)%nat -> (lo <= parent i)%nat -> l !! parent i = Some a -> l !! k = Some b -> less b a = false) ->
  forall k, (0 < k)%nat -> (k < n)%nat -> (lo <= parent k)%nat -> (k <> x \/ i < (down f l i n).2)%nat -> edge (down f l i n).1 k.
Proof.
  revert l i x. induction f as [|f IH]; intros l i x Hl Hf Hlo Hx He Hg k Hk Hkn Hpl Hkx.
  { cbn in *. apply He; [done..| |lia]. intros Hp. destruct (children _ _ Hk Hp); lia. }
  revert Hkx. rewrite down_step. destruct (Nat.leb_spec n (2 * i + 1)) as [Hn|Hn].
  { cbn [fst snd]. intros Hkx. apply He; [done..| |lia]. intros Hp. destruct (children _ _ Hk Hp); lia. }
  destruct (smaller_child_spec l i n Hn Hl) as (Hpj & Hj & Hmin). set (j := smaller_child l i n) in *. clearbody j.
  destruct (lookup_lt_is_Some_2 l j) as [vj Hvj]; [lia|]. destruct (lookup_lt_is_Some_2 l i) as [vi Hvi]; [lia|].
  unfold lessAt. rewrite Hvj, Hvi. destruct (less vj vi) eqn:Hlt; cbn [negb].
  2:{ cbn [fst snd]. intros Hkx. destruct (decide (parent k = i)) as [Hp|Hp]; [|apply He; [done..|lia]].
      intros a b Ha Hb. rewrite Hp, Hvi in Ha. injection Ha as <-. eapply less_trans; [exact Hlt|]. by eapply Hmin. }
  intros _. pose proof (swap_lookup l i j vi vj Hvi Hvj) as Hs.
  apply (IH _ _ n); [rewrite swap_length; lia|lia|lia|lia|..|done|done|done|lia].
  - intros k' Hk' Hkn' Hpl' Hpk Hkx' a b. pose proof (parent_lt _ Hk') as Hpk'. rewrite !Hs. rewrite (decide_False (P := parent k' = j)) by done.
    destruct (decide (parent k' = i)) as [Hpi|Hpi].
    + intros [= <-]. rewrite (decide_False (P := k' = i)) by lia. destruct (decide (k' = j)) as [->|Hkj]; [intros [= <-]; by apply less_asym|].
      intros Hb. by apply (Hmin k' vj b).
    + destruct (decide (k' = i)) as [->|Hki].
      * intros Ha [= <-]. apply (Hg j a vj); [lia|lia|done|done|done|done|done].
      * rewrite decide_False by (intros ->; lia). apply He; [done..|lia].
  - intros k' a b Hk' Hkn' Hpk Hj0 Hpl'. pose proof (parent_lt _ Hk') as Hpk'. rewrite Hpj, !Hs.
    rewrite decide_True, (decide_False (P := k' = i)), (decide_False (P := k' = j)) by lia. intros [= <-] Hb.
    apply (He k'); [done|done|lia|lia|lia|by rewrite Hpk|done].
Qed.

(** ** Init, Pop and Remove *)

Lemma init_loop_ordered (k : nat) (l : list A) :
  (forall e, (0 < e)%nat -> (e < length l)%nat -> (k <= parent e)%nat -> edge l e) -> heap_ordered (init_loop k l).
Proof.
  revert l. induction k as [|i IH]; intros l He; [intros e He0 He1; apply (He e); cbn in *; lia|]. cbn [init_loop].
  apply IH. intros e He0 He1 Hp. rewrite down_perm in He1.
  apply (down_ordered _ _ _ _ (length l) i); [lia..| | |done|done|done|lia].
  - intros k Hk Hkn Hpl Hpi _. apply He; lia.
  - intros k a b _ _ _ Hi Hp'. pose proof (parent_lt i Hi). lia.
Qed.

Lemma heap_Init_ordered (l : list A) : heap_ordered (heap_Init l).
Proof.
  apply init_loop_ordered. intros e H0 H1 Hp. pose proof (Nat.div_mod_eq (length l) 2). pose proof (Nat.mod_upper_bound (length l) 2).
  destruct (children _ _ H0 eq_refl); lia.
Qed.

Lemma pop_last_spec (l : list A) (x : A) : l !! (length l - 1)%nat = Some x -> exists l', pop_last l = Ret (x, l') /\ l = l' ++ [x].
Proof.
  intros Hx. destruct l as [|y l _] using rev_ind; [done|]. rewrite length_app in Hx. cbn in Hx. rewrite lookup_app_r in Hx by lia.
  replace (length l + 1 - 1 - length l)%nat with 0%nat in Hx by lia. injection Hx as ->.
  exists l. unfold pop_last. rewrite last_snoc, removelast_last. done.
Qed.

Lemma prefix_ordered (l l' : list A) (x : A) : l = l' ++ [x] ->
  (forall k, (0 < k)%nat -> (k < length l - 1)%nat -> edge l k) -> heap_ordered l'.
Proof.
  intros -> He k Hk Hl a b Ha Hb. rewrite length_app in He. cbn in He. apply (He k); [lia|lia|..]; by rewrite lookup_app_l by (by eapply lookup_lt_Some).
Qed.

Lemma down_above (f : nat) (l : list A) (i n k : nat) : (i < n)%nat -> (n <= k)%nat -> (n <= length l)%nat -> (down f l i n).1 !! k = l !! k.
Proof.
  revert l i. induction f as [|f IH]; intros l i Hi Hk Hl; [done|]. rewrite down_step. destruct (Nat.leb_spec n (2 * i + 1)); [done|].
  destruct (smaller_child_spec l i n) as (_ & Hj & _); [done|done|]. set (j := smaller_child l i n) in *. clearbody j.
  destruct (negb _); [done|]. rewrite IH; [|lia|lia|rewrite swap_length; lia].
  destruct (lookup_lt_is_Some_2 l j) as [vj Hvj]; [lia|]. destruct (lookup_lt_is_Some_2 l i) as [vi Hvi]; [lia|].
  rewrite (swap_lookup l i j vi vj Hvi Hvj). by rewrite !decide_False by lia.
Qed.

Lemma down_stays (f : nat) (l : list A) (i n : nat) : ((down f l i n).2 <= i)%nat -> (down f l i n).1 = l.
Proof.
  destruct f as [|f]; [done|]. rewrite down_step. destruct (Nat.leb_spec n (2 * i + 1)); [done|]. destruct (negb _); [done|].
  pose proof (down_index f (swap l i (smaller_child l i n)) (smaller_child l i n) n).
  assert (i < smaller_child l i n)%nat by (unfold smaller_child; cbv zeta; case_match; lia). lia.
Qed.

Lemma down_singleton (f : nat) (l : list A) (n : nat) : (n = 0)%nat -> (down f l 0 n).1 = l.
Proof. intros ->. by destruct f. Qed.

(** Pop takes the root, which is a least element, and leaves a heap. *)
Lemma heap_Pop_spec (l : list A) (x : A) : heap_ordered l -> l !! 0%nat = Some x ->
  exists l', heap_Pop l = Ret (x, l') /\ l ≡ₚ x :: l' /\ heap_ordered l'.
Proof.
  intros Hh Hx. pose proof (lookup_lt_Some _ _ _ Hx) as Hlen. unfold heap_Pop. set (n := (length l - 1)%nat).
  destruct (lookup_lt_is_Some_2 l n) as [v Hv]; [lia|].
  assert (length (down (length l) (swap l 0 n) 0 n).1 = length l) as Hl2 by (by rewrite down_perm, swap_length).
  pose proof (swap_lookup l 0 n x v Hx Hv) as Hs.
  assert ((down (length l) (swap l 0 n) 0 n).1 !! n = Some x) as Hr.
  { destruct (decide (n = 0%nat)) as [Hn|Hn].
    - rewrite down_singleton by lia. rewrite Hs. repeat case_decide; [|done|lia]. rewrite <-Hv, Hn. done.
    - rewrite down_above by (rewrite ?swap_length; lia). rewrite Hs. by rewrite decide_False, decide_True by lia. }
  destruct (pop_last_spec (down (length l) (swap l 0 n) 0 n).1 x) as (l' & Hp & Hl'); [by rewrite Hl2|].
  exists l'. split; [done|]. split; [by rewrite Permutation_cons_append, <-Hl', down_perm, swap_perm|].
  eapply prefix_ordered; [exact Hl'|]. rewrite Hl2. fold n. intros k Hk Hkn.
  apply (down_ordered _ _ _ _ n 0); [rewrite swap_length; lia|lia|lia|lia|..|done|done|lia|lia].
  - intros k' Hk' Hkn' _ Hp0 Hne a b. pose proof (parent_lt k' Hk'). rewrite !Hs, !decide_False by lia. apply Hh; lia.
  - lia.
Qed.

(** Remove takes the element at the index, and leaves a heap. *)
Lemma heap_Remove_spec (l : list A) (i : nat) (x : A) : heap_ordered l -> l !! i = Some x ->
  exists l', heap_Remove l i = Ret (x, l') /\ l ≡ₚ x :: l' /\ heap_ordered l'.
Proof.
  intros Hh Hx. pose proof (lookup_lt_Some _ _ _ Hx) as Hlen. unfold heap_Remove. set (n := (length l - 1)%nat).
  destruct (Nat.eqb_spec n i) as [Hni|Hni].
  { destruct (pop_last_spec l x) as (l' & Hp & Hl'); [by fold n; rewrite Hni|]. exists l'. split; [done|].
    split; [by rewrite Hl' at 1; rewrite <-Permutation_cons_append|]. eapply prefix_ordered; [exact Hl'|]. intros k H0 H1. apply Hh; lia. }
  destruct (lookup_lt_is_Some_2 l n) as [v Hv]; [lia|]. pose proof (swap_lookup l i n x v Hx Hv) as Hs.
  assert (forall k, (0 < k)%nat -> (k < n)%nat -> parent k <> i -> k <> i -> edge (swap l i n) k) as He.
  { intros k Hk Hkn Hpi Hki a b. pose proof (parent_lt k Hk). rewrite !Hs, !decide_False by lia. apply Hh; lia. }
  assert (forall k a b, (0 < k)%nat -> (k < n)%nat -> parent k = i -> (0 < i)%nat -> swap l i n !! parent i = Some a -> swap l i n !! k = Some b -> less b a = false) as Hg.
  { intros k a b Hk Hkn Hpk Hi. pose proof (parent_lt k Hk). pose proof (parent_lt i Hi). rewrite !Hs, !decide_False by lia. intros Ha Hb.
    destruct (lookup_lt_is_Some_2 l i) as [w Hw]; [lia|]. eapply (less_trans a w b); [by apply (Hh i); [lia|lia|..]|].
    apply (Hh k); [lia|lia|by rewrite Hpk|done]. }
  assert (exists l2 i', down (length l) (swap l i n) i n = (l2, i')) as (l2 & i' & Hd) by (destruct (down _ _ _ _); eauto). rewrite Hd.
  assert (l2 ≡ₚ l) as Hp2 by (change l2 with (l2, i').1; by rewrite <-Hd, down_perm, swap_perm).
  assert (l2 !! n = Some x) as Hr.
  { change l2 with (l2, i').1. rewrite <-Hd, down_above by (rewrite ?swap_length; lia). rewrite Hs. by rewrite decide_False, decide_True by lia. }
  assert (forall k, (0 < k)%nat -> (k < n)%nat -> (k <> i \/ i < i')%nat -> edge l2 k) as Hk2.
  { intros k Hk Hkn Hc. change l2 with (l2, i').1. change i' with (l2, i').2 in Hc. rewrite <-Hd in Hc |- *.
    apply (down_ordered _ _ _ _ i 0); [rewrite swap_length; lia|lia|lia|lia|..|done|done|lia|done]; [by intros; apply He|by intros k' a b Hk' Hkn' Hpk Hi _; apply Hg]. }
  pose proof (Permutation_length Hp2) as Hl2. destruct (pop_last_spec l2 x) as (l' & Hp & Hl'); [by rewrite Hl2|].
  destruct (Nat.ltb_spec i i') as [Hm|Hm].
  - exists l'. split; [done|]. split; [by rewrite Permutation_cons_append, <-Hl', Hp2|]. eapply prefix_ordered; [exact Hl'|]. rewrite Hl2. intros k H0 H1. apply Hk2; lia.
  - assert (l2 = swap l i n) as ->.
    { change l2 with (l2, i').1. rewrite <-Hd. apply down_stays. rewrite Hd. cbn. lia. }
    destruct (pop_last_spec (up (S (length l)) (swap l i n) i) x) as (l3 & Hp3 & Hl3); [rewrite (Permutation_length (up_perm _ _ _)), Hl2; fold n; by rewrite up_above by lia|].
    exists l3. split; [done|]. split; [by rewrite Permutation_cons_append, <-Hl3, up_perm, Hp2|].
    eapply prefix_ordered; [exact Hl3|]. rewrite (Permutation_length (up_perm _ _ _)), Hl2. fold n. apply up_ordered; [lia|lia|rewrite Hl2; lia|..].
    + intros k Hk Hkn Hki. apply Hk2; lia.
    + intros k a b Hk Hkn Hi Hpk. by apply Hg.
Qed.

End Heap.
