(* ===== verification/TxList.v ===== *)
(** The transaction lists of the pool (src/evmcore/tx_list.go): [txSortedMap], the nonce-sorted map with its
    heap of nonces and its cached order, and [txList], the list of one account's transactions over it, with its
    cost and gas caps and its strict mode.

    Transactions are go-ethereum's and abstract here, with the four accessors that the lists read.  The order in
    which Go ranges over a map is the parameter [range].  [m.items[nonce]] of a missing nonce is nil: lists of
    transactions built from such reads are lists of options. *)
From stdpp Require Import gmap list sorting.
From S2P Require Import Prelude Heap.

Section TxList.
Context {Tx : Type} (Nonce GasPrice Cost Gas : Tx -> Z) (range : gmap Z Tx -> list (Z * Tx)).

(** * txSortedMap *)

Definition nonceLess (a b : Z) : bool := a <? b.

Record txSortedMap := { items : gmap Z Tx; index : list Z; cache : option (list Tx) }.

Definition newTxSortedMap : txSortedMap := {| items := ∅; index := []; cache := None |}.

Definition sm_Get (m : txSortedMap) (nonce : Z) : option Tx := items m !! nonce.

Definition sm_Put (m : txSortedMap) (tx : Tx) : txSortedMap :=
  let nonce := Nonce tx in
  {| items := <[nonce := tx]> (items m);
     index := match items m !! nonce with None => heap_Push nonceLess (index m) nonce | Some _ => index m end;
     cache := None |}.

(** The loop of Forward: nonces, heap and the transactions removed so far. *)
Fixpoint forward_loop (fuel : nat) (threshold : Z) (its : gmap Z Tx) (idx : list Z) (removed : list (option Tx)) :
  go (gmap Z Tx * list Z * list (option Tx)) :=
  match idx with
  | [] => Ret (its, idx, removed)
  | top :: _ =>
    if top <? threshold then
      match fuel with
      | O => Fault OutOfFuel
      | S fuel =>
        p ← heap_Pop nonceLess idx;
        forward_loop fuel threshold (delete p.1 its) p.2 (removed ++ [its !! p.1])
      end
    else Ret (its, idx, removed)
  end.

(** The cached order, where there is one. *)
Definition if_cached {A} (f : A -> go A) (c : option A) : go (option A) :=
  match c with None => Ret None | Some l => l' ← f l; Ret (Some l') end.

Definition sm_Forward (m : txSortedMap) (threshold : Z) : go (list (option Tx) * txSortedMap) :=
  r ← forward_loop (length (index m)) threshold (items m) (index m) [];
  let '(its, idx, removed) := r in
  c ← if_cached (fun l => slice_from l (zlen removed)) (cache m);
  Ret (removed, {| items := its; index := idx; cache := c |}).

Definition filter_step (flt : Tx -> bool) (st : list Tx * gmap Z Tx) (kv : Z * Tx) : list Tx * gmap Z Tx :=
  if flt kv.2 then (st.1 ++ [kv.2], delete kv.1 st.2) else st.

Definition sm_Filter (m : txSortedMap) (flt : Tx -> bool) : list Tx * txSortedMap :=
  let '(removed, its) := foldl (filter_step flt) ([], items m) (range (items m)) in
  match removed with
  | [] => ([], {| items := its; index := index m; cache := cache m |})
  | _ => (removed, {| items := its; index := heap_Init nonceLess (range its).*1; cache := None |})
  end.

(** sort.Sort over nonces. *)
Definition sort_nonces (l : list Z) : list Z := merge_sort Z.le l.

(** for size := len(m.items); size > threshold; size-- *)
Fixpoint cap_loop (k : nat) (size : Z) (its : gmap Z Tx) (idx : list Z) (drops : list (option Tx)) : go (gmap Z Tx * list (option Tx)) :=
  match k with
  | O => Ret (its, drops)
  | S k =>
    nonce ← slice_at idx (size - 1);
    cap_loop k (size - 1) (delete nonce its) idx (drops ++ [its !! nonce])
  end.

Definition sm_Cap (m : txSortedMap) (threshold : Z) : go (list (option Tx) * txSortedMap) :=
  let n := Z.of_nat (size (items m)) in
  if n <=? threshold then Ret ([], m) else
  let idx := sort_nonces (index m) in
  r ← cap_loop (Z.to_nat (n - threshold)) n (items m) idx [];
  let '(its, drops) := r in
  idx' ← slice_to idx threshold;
  c ← if_cached (fun l => slice_to l (zlen l - zlen drops)) (cache m);
  Ret (drops, {| items := its; index := heap_Init nonceLess idx'; cache := c |}).

(** The position of the nonce in the heap's slice. *)
Fixpoint find_nonce (idx : list Z) (nonce : Z) : option nat :=
  match idx with
  | [] => None
  | x :: idx => if x =? nonce then Some O else S <$> find_nonce idx nonce
  end.

Definition sm_Remove (m : txSortedMap) (nonce : Z) : go (bool * txSortedMap) :=
  match items m !! nonce with
  | None => Ret (false, m)
  | Some _ =>
    idx ← match find_nonce (index m) nonce with
          | Some i => p ← heap_Remove nonceLess (index m) i; Ret p.2
          | None => Ret (index m)
          end;
    Ret (true, {| items := delete nonce (items m); index := idx; cache := None |})
  end.

Fixpoint ready_loop (fuel : nat) (next : Z) (its : gmap Z Tx) (idx : list Z) (ready : list (option Tx)) :
  go (gmap Z Tx * list Z * list (option Tx)) :=
  match idx with
  | [] => Ret (its, idx, ready)
  | top :: _ =>
    if top =? next then
      match fuel with
      | O => Fault OutOfFuel
      | S fuel =>
        p ← heap_Pop nonceLess idx;
        ready_loop fuel (u64 (next + 1)) (delete next its) p.2 (ready ++ [its !! next])
      end
    else Ret (its, idx, ready)
  end.

Definition sm_Ready (m : txSortedMap) (start : Z) : go (list (option Tx) * txSortedMap) :=
  match index m with
  | [] => Ret ([], m)
  | top :: _ =>
    if start <? top then Ret ([], m) else
    r ← ready_loop (length (index m)) top (items m) (index m) [];
    let '(its, idx, ready) := r in
    Ret (ready, {| items := its; index := idx; cache := None |})
  end.

Definition sm_Len (m : txSortedMap) : Z := Z.of_nat (size (items m)).

(** types.TxByNonce. *)
Definition nonce_le (a b : Tx) : Prop := Nonce a <= Nonce b.
#[global] Instance nonce_le_dec : RelDecision nonce_le.
Proof. intros a b. unfold nonce_le. apply _. Defined.

Definition sm_Flatten (m : txSortedMap) : list Tx * txSortedMap :=
  let c := match cache m with Some l => l | None => merge_sort nonce_le (range (items m)).*2 end in
  (c, {| items := items m; index := index m; cache := Some c |}).

(** * txList *)

Record txList := { strict : bool; txs : txSortedMap; costcap : Z; gascap : Z }.

Definition newTxList (s : bool) : txList := {| strict := s; txs := newTxSortedMap; costcap := 0; gascap := 0 |}.

Definition with_txs (l : txList) (m : txSortedMap) : txList :=
  {| strict := strict l; txs := m; costcap := costcap l; gascap := gascap l |}.

Definition Overlaps (l : txList) (tx : Tx) : bool := bool_decide (is_Some (sm_Get (txs l) (Nonce tx))).

(** The price a replacement has to reach: old * (100 + priceBump) / 100. *)
Definition bump_threshold (old : Tx) (priceBump : Z) : Z := GasPrice old * (100 + i64 priceBump) / 100.

Definition Add (l : txList) (tx : Tx) (priceBump : Z) : bool * option Tx * txList :=
  let old := sm_Get (txs l) (Nonce tx) in
  let refused := match old with
                 | Some o => (GasPrice tx <=? GasPrice o) || (GasPrice tx <? bump_threshold o priceBump)
                 | None => false end in
  if refused then (false, old, l) else
  (true, old, {| strict := strict l; txs := sm_Put (txs l) tx;
                 costcap := if costcap l <? Cost tx then Cost tx else costcap l;
                 gascap := if gascap l <? Gas tx then Gas tx else gascap l |}).

Definition Forward (l : txList) (threshold : Z) : go (list (option Tx) * txList) :=
  r ← sm_Forward (txs l) threshold; Ret (r.1, with_txs l r.2).

Definition MaxUint64 : Z := 18446744073709551615.

Definition lowest_nonce (removed : list Tx) : Z :=
  foldl (fun lowest tx => if Nonce tx <? lowest then Nonce tx else lowest) MaxUint64 removed.

Definition Filter (l : txList) (costLimit gasLimit : Z) : list Tx * list Tx * txList :=
  if (costcap l <=? costLimit) && (gascap l <=? gasLimit) then ([], [], l) else
  let '(removed, m) := sm_Filter (txs l) (fun tx => (costLimit <? Cost tx) || (gasLimit <? Gas tx)) in
  let l1 := {| strict := strict l; txs := m; costcap := costLimit; gascap := gasLimit |} in
  if strict l && bool_decide (removed <> []) then
    let '(invalids, m') := sm_Filter m (fun tx => lowest_nonce removed <? Nonce tx) in
    (removed, invalids, with_txs l1 m')
  else (removed, [], l1).

Definition Cap (l : txList) (threshold : Z) : go (list (option Tx) * txList) :=
  r ← sm_Cap (txs l) threshold; Ret (r.1, with_txs l r.2).

Definition Remove (l : txList) (tx : Tx) : go (bool * list Tx * txList) :=
  r ← sm_Remove (txs l) (Nonce tx);
  if negb r.1 then Ret (false, [], l) else
  if strict l then
    let '(invalids, m) := sm_Filter r.2 (fun t => Nonce tx <? Nonce t) in Ret (true, invalids, with_txs l m)
  else Ret (true, [], with_txs l r.2).

Definition Ready (l : txList) (start : Z) : go (list (option Tx) * txList) :=
  r ← sm_Ready (txs l) start; Ret (r.1, with_txs l r.2).

Definition Len (l : txList) : Z := sm_Len (txs l).
Definition Empty (l : txList) : bool := Len l =? 0.

Definition Flatten (l : txList) : list Tx * txList :=
  let '(c, m) := sm_Flatten (txs l) in (c, with_txs l m).

End TxList.
