(* ===== verification/TxListSpec.v ===== *)
(** The contract of the nonce-sorted map of the pool (src/evmcore/tx_list.go, [TxList]): each operation runs
    without a panic and does to the map, its heap of nonces and its cached order what a plain operation does to
    a list of transactions that is strictly sorted by nonce. *)
From stdpp Require Import gmap list sorting.
From S2P Require Import Prelude Heap TxList.

Lemma filter_all {A} (P : A -> Prop) `{forall x, Decision (P x)} (l : list A) : Forall P l -> filter P l = l.
Proof. induction 1 as [|x l Hx _ IH]; [done|]. rewrite filter_cons, decide_True by done. by rewrite IH. Qed.

Lemma filter_none {A} (P : A -> Prop) `{forall x, Decision (P x)} (l : list A) : Forall (fun x => ~ P x) l -> filter P l = [].
Proof. induction 1 as [|x l Hx _ IH]; [done|]. by rewrite filter_cons, decide_False by done. Qed.

Lemma drop_app_split {A} (l l1 l2 : list A) : l = l1 ++ l2 -> drop (length l1) l = l2.
Proof. intros ->. apply drop_app_length. Qed.

#[global] Instance nonceLess_order : WeakOrder nonceLess.
Proof. split; unfold nonceLess; intros; rewrite ?Z.ltb_lt, ?Z.ltb_ge in *; lia. Qed.

Section Spec.
Context {Tx : Type} (Nonce : Tx -> Z) (range : gmap Z Tx -> list (Z * Tx)).
Context (Nonce_u64 : forall tx, is_u64 (Nonce tx)) (range_perm : forall m, range m ≡ₚ map_to_list m).

(** * The sorted list *)

Definition below (a b : Tx) : Prop := Nonce a < Nonce b.
Definition ascending (l : list Tx) : Prop := StronglySorted below l.
Definition keyed (tx : Tx) : Z * Tx := (Nonce tx, tx).

Lemma ascending_nodup (l : list Tx) : ascending l -> NoDup (Nonce <$> l).
Proof.
  induction 1 as [|tx l Hl IH Hall]; [constructor|]. cbn. constructor; [|done]. intros (t & Ht & Hin)%list_elem_of_fmap.
  rewrite Forall_forall in Hall. specialize (Hall t Hin). unfold below in Hall. lia.
Qed.

Lemma keyed_keys (l : list Tx) : (keyed <$> l).*1 = Nonce <$> l.
Proof. by rewrite <-list_fmap_compose. Qed.

Lemma keyed_values (l : list Tx) : (keyed <$> l).*2 = l.
Proof. rewrite <-list_fmap_compose. apply list_fmap_id. Qed.

(** The map, the heap and the sorted list of the same transactions. *)
Definition holds (its : gmap Z Tx) (idx : list Z) (l : list Tx) : Prop :=
  ascending l /\ its = list_to_map (keyed <$> l) /\ heap_ordered nonceLess idx /\ idx ≡ₚ Nonce <$> l.

Definition sm_holds (m : txSortedMap) (l : list Tx) : Prop :=
  holds (items m) (index m) l /\ (cache m = None \/ cache m = Some l).

Lemma lookup_keyed (l : list Tx) (n : Z) (tx : Tx) : ascending l ->
  (list_to_map (keyed <$> l) : gmap Z Tx) !! n = Some tx <-> tx ∈ l /\ Nonce tx = n.
Proof.
  intros Hl. rewrite <-elem_of_list_to_map by (rewrite keyed_keys; by apply ascending_nodup).
  rewrite list_elem_of_fmap. unfold keyed. split; [intros (t & [= -> ->] & Ht); done|]. intros [Ht <-]. by exists tx.
Qed.

Lemma lookup_keyed_None (l : list Tx) (n : Z) :
  (list_to_map (keyed <$> l) : gmap Z Tx) !! n = None <-> n ∉ Nonce <$> l.
Proof. rewrite <-keyed_keys. symmetry. apply not_elem_of_list_to_map. Qed.

Lemma size_keyed (l : list Tx) : ascending l -> size (list_to_map (keyed <$> l) : gmap Z Tx) = length l.
Proof. intros Hl. rewrite map_size_list_to_map by (rewrite keyed_keys; by apply ascending_nodup). apply length_fmap. Qed.

Lemma range_keyed (l : list Tx) : ascending l -> range (list_to_map (keyed <$> l)) ≡ₚ keyed <$> l.
Proof. intros Hl. rewrite range_perm. apply map_to_list_to_map. rewrite keyed_keys. by apply ascending_nodup. Qed.

(** Two ascending lists of the same transactions are the same list. *)
Lemma ascending_unique (l k : list Tx) : ascending l -> ascending k -> l ≡ₚ k -> l = k.
Proof.
  apply StronglySorted_unique_strong.
  intros x y _ _ Hxy Hyx. unfold below in *. lia.
Qed.

Lemma merge_sort_ascending (l k : list Tx) : ascending l -> k ≡ₚ l -> merge_sort (nonce_le Nonce) k = l.
Proof.
  intros Hl Hk. assert (Total (nonce_le Nonce)) as Ht by (intros a b; unfold nonce_le; lia).
  assert (Transitive (nonce_le Nonce)) as Htr by (intros a b c; unfold nonce_le; lia).
  apply ascending_unique; [|done|by rewrite merge_sort_Permutation].
  assert (NoDup (Nonce <$> merge_sort (nonce_le Nonce) k)) as Hnd.
  { rewrite merge_sort_Permutation, Hk. by apply ascending_nodup. }
  pose proof (StronglySorted_merge_sort (nonce_le Nonce) k) as Hs.
  induction Hs as [|tx s Hs IH Hall]; [constructor|]. cbn in Hnd. apply NoDup_cons in Hnd as [Hni Hnd].
  constructor; [by apply IH|]. rewrite Forall_forall in *. intros t Ht'. specialize (Hall t Ht'). unfold nonce_le, below in *.
  assert (Nonce tx <> Nonce t); [|lia]. intros Heq. apply Hni. rewrite Heq. by apply list_elem_of_fmap_2.
Qed.

(** * The heap of nonces *)

Lemma holds_nil (its : gmap Z Tx) (idx : list Z) : holds its idx [] -> idx = [] /\ its = ∅.
Proof. intros (_ & -> & _ & Hp). cbn in Hp. by apply Permutation_nil_r in Hp as ->. Qed.

(** The root of the heap is the nonce of the first transaction; popping it leaves the rest. *)
Lemma holds_pop (its : gmap Z Tx) (idx : list Z) (tx : Tx) (l : list Tx) : holds its idx (tx :: l) ->
  exists tl idx', idx = Nonce tx :: tl /\ heap_Pop nonceLess idx = Ret (Nonce tx, idx') /\
    its !! Nonce tx = Some tx /\ holds (delete (Nonce tx) its) idx' l.
Proof.
  intros (Hasc & -> & Hh & Hp). apply StronglySorted_inv in Hasc as [Hasc Hall]. cbn in Hp.
  destruct idx as [|top tl]; [by apply Permutation_nil_l in Hp|].
  assert (top = Nonce tx) as ->.
  { assert (Nonce tx ∈ top :: tl) as Hin by (rewrite Hp; left).
    pose proof (root_least nonceLess _ top _ Hh eq_refl Hin) as Hle. unfold nonceLess in Hle.
    assert (top ∈ Nonce tx :: (Nonce <$> l)) as Hin' by (rewrite <-Hp; left).
    apply elem_of_cons in Hin' as [->|(t & -> & Ht)%list_elem_of_fmap]; [done|].
    rewrite Forall_forall in Hall. specialize (Hall t Ht). unfold below in Hall. lia. }
  destruct (heap_Pop_spec nonceLess _ (Nonce tx) Hh eq_refl) as (idx' & Hpop & Hp' & Hh').
  exists tl, idx'. split; [done|]. split; [done|]. split.
  - cbn. by rewrite lookup_insert_eq.
  - split; [done|]. split.
    + cbn. rewrite delete_insert_eq, delete_id; [done|]. apply lookup_keyed_None. intros (t & Heq & Ht)%list_elem_of_fmap.
      rewrite Forall_forall in Hall. specialize (Hall t Ht). unfold below in Hall. lia.
    + split; [done|]. eapply Permutation_cons_inv. by rewrite <-Hp', Hp.
Qed.

Lemma holds_top (its : gmap Z Tx) (idx : list Z) (l : list Tx) : holds its idx l -> length idx = length l.
Proof. intros (_ & _ & _ & ->). apply length_fmap. Qed.

(** A heap of the same nonces can be built for any sublist. *)
Lemma holds_rebuild (l : list Tx) (idx : list Z) : ascending l -> idx ≡ₚ Nonce <$> l ->
  holds (list_to_map (keyed <$> l)) (heap_Init nonceLess idx) l.
Proof. intros Hl Hp. split; [done|]. split; [done|]. split; [apply heap_Init_ordered; apply _|]. by rewrite heap_Init_perm. Qed.

(** ** Forward *)

Definition older (threshold : Z) (tx : Tx) : Prop := Nonce tx < threshold.
#[global] Instance older_dec (threshold : Z) (tx : Tx) : Decision (older threshold tx).
Proof. unfold older. apply _. Defined.

Lemma forward_loop_runs (l1 l2 : list Tx) (threshold : Z) (its : gmap Z Tx) (idx : list Z) (removed : list (option Tx)) (fuel : nat) :
  holds its idx (l1 ++ l2) -> Forall (older threshold) l1 -> Forall (fun tx => ~ older threshold tx) l2 -> (length l1 <= fuel)%nat ->
  exists its' idx', forward_loop fuel threshold its idx removed = Ret (its', idx', removed ++ (Some <$> l1)) /\ holds its' idx' l2.
Proof.
  revert its idx removed fuel. induction l1 as [|tx l1 IH]; intros its idx removed fuel Hh H1 H2 Hf.
  { exists its, idx. cbn in *. rewrite app_nil_r. split; [|done]. destruct l2 as [|tx l2].
    - pose proof (holds_nil _ _ Hh) as [-> _]. by destruct fuel.
    - destruct (holds_pop _ _ _ _ Hh) as (tl & idx' & -> & _). apply Forall_cons in H2 as [H2 _]. unfold older in H2.
      destruct fuel; cbn [forward_loop]; by rewrite (proj2 (Z.ltb_ge _ _)) by lia. }
  destruct fuel as [|fuel]; [cbn in Hf; lia|]. destruct (holds_pop _ _ _ _ Hh) as (tl & idx' & -> & Hpop & Hlk & Hh').
  apply Forall_cons in H1 as [Hlt H1]. unfold older in Hlt. cbn [forward_loop]. rewrite (proj2 (Z.ltb_lt _ _)) by lia.
  rewrite Hpop. cbn [mbind go_bind fst snd]. rewrite Hlk.
  destruct (IH _ _ (removed ++ [Some tx]) fuel Hh' H1 H2) as (its' & idx'' & Hr & Hh''); [cbn in Hf; lia|].
  exists its', idx''. split; [|done]. rewrite Hr. cbn. by rewrite <-(assoc_L (++)).
Qed.

Lemma split_at (l : list Tx) (threshold : Z) : ascending l ->
  l = filter (older threshold) l ++ filter (fun tx => ~ older threshold tx) l.
Proof.
  induction 1 as [|tx l Hl IH Hall]; [done|]. rewrite !filter_cons. destruct (decide (older threshold tx)) as [Ho|Ho].
  - rewrite decide_False by tauto. cbn. by f_equal.
  - rewrite decide_True by done.
    assert (Forall (fun t => ~ older threshold t) l) as Hge.
    { eapply Forall_impl; [exact Hall|]. intros t Ht. unfold below, older in *. lia. }
    by rewrite filter_none, filter_all.
Qed.

Lemma ascending_filter (P : Tx -> Prop) `{forall tx, Decision (P tx)} (l : list Tx) : ascending l -> ascending (filter P l).
Proof.
  induction 1 as [|tx l Hl IH Hall]; [constructor|]. rewrite filter_cons. case_decide; [|done]. constructor; [done|].
  rewrite Forall_forall in *. intros t [_ Ht]%list_elem_of_filter. by apply Hall.
Qed.

(** Forward removes exactly the transactions below the threshold, in order. *)
Lemma sm_Forward_spec (m : txSortedMap) (l : list Tx) (threshold : Z) : sm_holds m l ->
  exists m', sm_Forward m threshold = Ret (Some <$> filter (older threshold) l, m') /\ sm_holds m' (filter (fun tx => ~ older threshold tx) l).
Proof.
  intros [Hh Hc]. pose proof (split_at l threshold (proj1 Hh)) as Hs. unfold sm_Forward.
  assert (length l = length (filter (older threshold) l) + length (filter (fun tx => ~ older threshold tx) l))%nat as Hlen by (rewrite <-length_app; by f_equal).
  destruct (forward_loop_runs (filter (older threshold) l) (filter (fun tx => ~ older threshold tx) l) threshold (items m) (index m) [] (length (index m)))
    as (its' & idx' & -> & Hh').
  - by rewrite <-Hs.
  - apply Forall_forall. by intros t [Ht _]%list_elem_of_filter.
  - apply Forall_forall. by intros t [Ht _]%list_elem_of_filter.
  - rewrite (holds_top _ _ _ Hh). lia.
  - cbn [mbind go_bind]. destruct Hc as [->| ->]; cbn [if_cached mbind go_bind].
    + eexists. split; [reflexivity|]. split; [done|by left].
    + unfold slice_from, zlen. rewrite app_nil_l, length_fmap.
      rewrite (proj2 (Z.leb_le _ _)), (proj2 (Z.leb_le _ _)) by lia. cbn [andb mbind go_bind].
      eexists. split; [reflexivity|]. split; [done|]. right. cbn [cache]. f_equal. rewrite Nat2Z.id. by apply drop_app_split.
Qed.

(** ** Put *)

(** The list with the transaction at its place, instead of one with its nonce. *)
Definition put (tx : Tx) (l : list Tx) : list Tx :=
  filter (older (Nonce tx)) l ++ tx :: filter (fun t => Nonce tx < Nonce t) l.

Lemma elem_of_put (t tx : Tx) (l : list Tx) : t ∈ put tx l <-> t = tx \/ (t ∈ l /\ Nonce t <> Nonce tx).
Proof.
  unfold put, older. rewrite elem_of_app, elem_of_cons, !list_elem_of_filter.
  split; [intros [[? ?]|[->|[? ?]]]; [right; split; [done|lia]|by left|right; split; [done|lia]]|].
  intros [->|[Ht Hne]]; [by right; left|]. destruct (decide (Nonce t < Nonce tx)); [by left|]. right; right. split; [lia|done].
Qed.

Lemma ascending_app (l1 l2 : list Tx) : ascending l1 -> ascending l2 -> (forall a b, a ∈ l1 -> b ∈ l2 -> below a b) -> ascending (l1 ++ l2).
Proof.
  induction 1 as [|a l1 Hl IH Hall]; intros H2 Hb; [done|]. cbn. constructor.
  - apply IH; [done|]. intros x y Hx. apply Hb. by right.
  - apply Forall_app. split; [done|]. apply Forall_forall. intros y Hy. apply Hb; [by left|done].
Qed.

Lemma ascending_put (tx : Tx) (l : list Tx) : ascending l -> ascending (put tx l).
Proof.
  intros Hl. apply ascending_app; [by apply ascending_filter| |].
  - constructor; [by apply ascending_filter|]. apply Forall_forall. by intros t [Ht _]%list_elem_of_filter.
  - intros a b [Ha _]%list_elem_of_filter [->|[Hb _]%list_elem_of_filter]%elem_of_cons; unfold older, below in *; lia.
Qed.

Lemma keyed_map (its : gmap Z Tx) (l : list Tx) : ascending l ->
  (forall n tx, its !! n = Some tx <-> tx ∈ l /\ Nonce tx = n) -> its = list_to_map (keyed <$> l).
Proof. intros Hl Hm. apply map_eq. intros n. apply option_eq. intros tx. by rewrite Hm, lookup_keyed. Qed.

Lemma elem_of_nonces (n : Z) (l : list Tx) : n ∈ Nonce <$> l <-> exists tx, tx ∈ l /\ Nonce tx = n.
Proof. rewrite list_elem_of_fmap. naive_solver. Qed.

Lemma nonces_put (tx : Tx) (l : list Tx) (n : Z) : n ∈ Nonce <$> put tx l <-> n = Nonce tx \/ n ∈ Nonce <$> l.
Proof.
  rewrite !elem_of_nonces. split.
  - intros (t & [->|[Ht _]]%elem_of_put & <-); [by left|right; by exists t].
  - intros [->|(t & Ht & <-)]; [exists tx; split; [apply elem_of_put; by left|done]|]. destruct (decide (Nonce t = Nonce tx)) as [Heq|Hne].
    + exists tx. split; [apply elem_of_put; by left|done].
    + exists t. split; [apply elem_of_put; by right|done].
Qed.

Lemma nonce_inj (l : list Tx) (t t' : Tx) : ascending l -> t ∈ l -> t' ∈ l -> Nonce t = Nonce t' -> t = t'.
Proof.
  intros Hl Ht Ht' Heq. assert ((list_to_map (keyed <$> l) : gmap Z Tx) !! Nonce t = Some t) as H1 by (by apply lookup_keyed).
  assert ((list_to_map (keyed <$> l) : gmap Z Tx) !! Nonce t = Some t') as H2 by (by apply lookup_keyed). congruence.
Qed.

Lemma sm_Get_spec (m : txSortedMap) (l : list Tx) (n : Z) (tx : Tx) : sm_holds m l -> sm_Get m n = Some tx <-> tx ∈ l /\ Nonce tx = n.
Proof. intros [(Hl & Hm & _) _]. unfold sm_Get. rewrite Hm. by apply lookup_keyed. Qed.

Lemma sm_Put_spec (m : txSortedMap) (l : list Tx) (tx : Tx) : sm_holds m l -> sm_holds (sm_Put Nonce m tx) (put tx l).
Proof.
  intros [(Hl & Hm & Hh & Hp) _]. pose proof (ascending_put tx l Hl) as Hl'. split; [|by left]. split; [done|]. split; [|split].
  - cbn. apply keyed_map; [done|]. intros n t. rewrite elem_of_put. rewrite Hm. destruct (decide (Nonce tx = n)) as [<-|Hne].
    + rewrite lookup_insert_eq. split; [intros [= <-]; split; [by left|done]|]. intros [[->|[_ Hne]] Heq]; [done|lia].
    + rewrite lookup_insert_ne by done. rewrite lookup_keyed by done. split; [intros [Ht <-]; split; [right; split; [done|lia]|done]|].
      intros [[->|[Ht _]] <-]; done.
  - cbn. destruct (items m !! _); [done|]. apply heap_Push_ordered; [apply _|done].
  - cbn [index sm_Put]. pose proof (nonces_put tx l) as Hin.
    destruct (items m !! Nonce tx) as [o|] eqn:Ho; rewrite ?heap_Push_perm, Hp.
    + apply NoDup_Permutation; [by apply ascending_nodup..|]. intros n. rewrite Hin. rewrite Hm in Ho. apply lookup_keyed in Ho as [Ho Hn]; [|done].
      split; [by right|]. intros [->|]; [|done]. rewrite <-Hn. by apply list_elem_of_fmap_2.
    + rewrite Hm in Ho. apply lookup_keyed_None in Ho. apply NoDup_Permutation; [constructor; [done|by apply ascending_nodup]|by apply ascending_nodup|].
      intros n. by rewrite Hin, elem_of_cons.
Qed.

(** ** Filter *)

Lemma filter_loop (flt : Tx -> bool) (kvs : list (Z * Tx)) (removed : list Tx) (its : gmap Z Tx) :
  foldl (filter_step flt) (removed, its) kvs =
  (removed ++ filter (fun tx => flt tx = true) kvs.*2, foldr (fun kv m => delete kv.1 m) its (filter (fun kv => flt kv.2 = true) kvs)).
Proof.
  revert removed its. induction kvs as [|[n tx] kvs IH]; intros removed its; cbn [foldl fmap list_fmap]; [by rewrite app_nil_r|].
  unfold filter_step at 2. cbn [fst snd]. rewrite !filter_cons. cbn [snd]. destruct (flt tx) eqn:Hf.
  - rewrite IH, !decide_True by done. rewrite <-(assoc_L (++)). cbn. f_equal.
    generalize (filter (fun kv : Z * Tx => flt kv.2 = true) kvs). clear. intros l. induction l as [|[k t] l IH]; [done|]. cbn. by rewrite IH, delete_delete.
  - rewrite IH, !decide_False by done. done.
Qed.

Lemma lookup_foldr_delete (its : gmap Z Tx) (kvs : list (Z * Tx)) (n : Z) (tx : Tx) :
  foldr (fun kv m => delete kv.1 m) its kvs !! n = Some tx <-> its !! n = Some tx /\ n ∉ kvs.*1.
Proof.
  induction kvs as [|[k t] kvs IH]; cbn; [split; [intros Hl; split; [done|apply not_elem_of_nil]|tauto]|].
  rewrite lookup_delete_Some, IH, not_elem_of_cons. naive_solver.
Qed.

Lemma sm_Filter_spec (m : txSortedMap) (l : list Tx) (flt : Tx -> bool) : sm_holds m l ->
  exists removed m', sm_Filter range m flt = (removed, m') /\ removed ≡ₚ filter (fun tx => flt tx = true) l /\
    sm_holds m' (filter (fun tx => flt tx <> true) l).
Proof.
  intros [(Hl & Hm & Hh & Hp) Hc]. unfold sm_Filter. rewrite filter_loop.
  assert (range (items m) ≡ₚ keyed <$> l) as Hr by (rewrite Hm; by apply range_keyed).
  set (its := foldr _ _ _). assert (its = list_to_map (keyed <$> filter (fun tx => flt tx <> true) l)) as Hits.
  { apply keyed_map; [by apply ascending_filter|]. intros n tx. unfold its. rewrite lookup_foldr_delete, Hm, lookup_keyed, list_elem_of_filter by done.
    rewrite <-Hm. split.
    - intros [[Ht <-] Hn]. split; [|done]. split; [|done]. intros Hf. apply Hn. apply list_elem_of_fmap. exists (Nonce tx, tx). split; [done|].
      apply list_elem_of_filter. split; [done|]. rewrite Hr. apply list_elem_of_fmap. by exists tx.
    - intros [[Hf Ht] <-]. split; [done|]. intros ([k t] & Hk & [Hft Hin]%list_elem_of_filter)%list_elem_of_fmap. cbn in Hk, Hft. subst k.
      rewrite Hr in Hin. apply list_elem_of_fmap in Hin as (t' & [= Hn ->] & Ht'). apply Hf. by rewrite (nonce_inj l tx t'). }
  assert (filter (fun tx => flt tx = true) (range (items m)).*2 ≡ₚ filter (fun tx => flt tx = true) l) as Hrem.
  { rewrite Hr, keyed_values. done. }
  destruct (filter (fun tx => flt tx = true) (range (items m)).*2) as [|t0 ts] eqn:Hf; rewrite app_nil_l.
  - eexists _, _. split; [reflexivity|]. split; [done|]. apply Permutation_nil_l in Hrem.
    assert (filter (fun tx => flt tx <> true) l = l) as Hk.
    { apply filter_all, Forall_forall. intros t Ht Hft. eapply filter_nil_not_elem_of; [exact (eq_sym Hrem)|exact Hft|exact Ht]. }
    rewrite Hk in *. split; [|done]. split; [done|]. by split.
  - eexists _, _. split; [reflexivity|]. split; [done|]. split; [|by left]. cbn [items index]. rewrite Hits.
    apply holds_rebuild; [by apply ascending_filter|]. rewrite range_keyed by (by apply ascending_filter). by rewrite keyed_keys.
Qed.

(** ** Cap *)

Lemma sort_nonces_spec (idx : list Z) (l : list Tx) : ascending l -> idx ≡ₚ Nonce <$> l -> sort_nonces idx = Nonce <$> l.
Proof.
  intros Hl Hp. unfold sort_nonces. apply (StronglySorted_unique Z.le); [apply StronglySorted_merge_sort; apply _| |by rewrite merge_sort_Permutation].
  clear Hp. induction Hl as [|tx l Hl IH Hall]; [constructor|]. cbn. constructor; [done|].
  apply Forall_fmap. eapply Forall_impl; [exact Hall|]. unfold below. cbn. lia.
Qed.

Lemma delete_last (l : list Tx) (tx : Tx) : ascending (l ++ [tx]) ->
  delete (Nonce tx) (list_to_map (keyed <$> l ++ [tx]) : gmap Z Tx) = list_to_map (keyed <$> l).
Proof.
  intros Hl. assert (ascending l) as Hl1.
  { revert Hl. clear. intros Hl. induction l as [|a l IH]; [constructor|]. cbn in Hl. apply StronglySorted_inv in Hl as [Hl Ha].
    apply Forall_app in Ha as [Ha _]. constructor; [by apply IH|done]. }
  pose proof (ascending_nodup _ Hl) as Hnd. rewrite fmap_app in Hnd. apply NoDup_app in Hnd as (_ & Hnd & _).
  apply keyed_map; [done|]. intros n t. rewrite lookup_delete_Some, lookup_keyed, elem_of_app, list_elem_of_singleton by done. split.
  - intros [Hn [[Ht| ->] <-]]; [done|done].
  - intros [Ht <-]. split; [|split; [by left|done]]. intros Heq. apply (Hnd (Nonce t)); [by apply list_elem_of_fmap_2|]. cbn. rewrite Heq. by left.
Qed.

Lemma ascending_take (l : list Tx) (k : nat) : ascending l -> ascending (take k l).
Proof.
  intros Hl. revert k. induction Hl as [|tx l Hl IH Hall]; intros [|k]; [constructor..|]. cbn. constructor; [by apply IH|].
  rewrite Forall_forall in *. intros t Ht. apply Hall. rewrite <-(take_drop k l). apply elem_of_app. by left.
Qed.

Lemma cap_loop_runs (k : nat) (l rest : list Tx) (drops : list (option Tx)) : (k <= length l)%nat -> ascending l ->
  cap_loop k (zlen l) (list_to_map (keyed <$> l)) (Nonce <$> l ++ rest) drops =
  Ret (list_to_map (keyed <$> take (length l - k) l), drops ++ (Some <$> reverse (drop (length l - k) l))).
Proof.
  revert l rest drops. induction k as [|k IH]; intros l rest drops Hk Hl.
  { cbn [cap_loop]. by rewrite Nat.sub_0_r, firstn_all, drop_all, app_nil_r. }
  destruct l as [|tx l _] using rev_ind; [cbn in Hk; lia|]. cbn [cap_loop]. unfold zlen. rewrite length_app in *. cbn [length] in *.
  replace (Z.of_nat (length l + 1) - 1) with (zlen l) by (unfold zlen; lia).
  assert (slice_at (Nonce <$> (l ++ [tx]) ++ rest) (zlen l) = Ret (Nonce tx)) as ->.
  { apply slice_at_Ret. unfold zlen. rewrite slice_get_nat, list_lookup_fmap, <-(assoc_L (++)), lookup_app_r, Nat.sub_diag; done. }
  cbn [mbind go_bind]. rewrite delete_last by done.
  assert ((list_to_map (keyed <$> l ++ [tx]) : gmap Z Tx) !! Nonce tx = Some tx) as ->.
  { apply lookup_keyed; [done|]. split; [|done]. apply elem_of_app. right. by left. }
  assert (ascending l) as Hl1 by (apply (ascending_take _ (length l)) in Hl; by rewrite take_app_length in Hl).
  rewrite <-(assoc_L (++)). cbn [app]. rewrite IH by (lia || done). replace (length l + 1 - S k)%nat with (length l - k)%nat by lia.
  rewrite take_app_le, drop_app_le by lia. rewrite reverse_snoc, <-(assoc_L (++)). done.
Qed.

(** Cap drops the highest nonces, from the top. *)
Lemma sm_Cap_spec (m : txSortedMap) (l : list Tx) (threshold : Z) : sm_holds m l -> 0 <= threshold ->
  exists m', sm_Cap m threshold = Ret (Some <$> reverse (drop (Z.to_nat threshold) l), m') /\ sm_holds m' (take (Z.to_nat threshold) l).
Proof.
  intros [(Hl & Hm & Hh & Hp) Hc] Ht. unfold sm_Cap. assert (size (items m) = length l) as Hsz by (by rewrite Hm, size_keyed). rewrite Hsz.
  destruct (Z.leb_spec (Z.of_nat (length l)) threshold) as [Hle|Hlt].
  { exists m. rewrite drop_ge, take_ge by lia. split; [done|]. split; [done|done]. }
  rewrite (sort_nonces_spec _ l Hl Hp), Hm. pose proof (cap_loop_runs (Z.to_nat (Z.of_nat (length l) - threshold)) l [] [] ltac:(lia) Hl) as Hr.
  rewrite app_nil_r in Hr. unfold zlen in Hr. rewrite Hr. cbn [mbind go_bind]. replace (length l - Z.to_nat (Z.of_nat (length l) - threshold))%nat with (Z.to_nat threshold) by lia.
  assert (slice_to (Nonce <$> l) threshold = Ret (take (Z.to_nat threshold) (Nonce <$> l))) as ->.
  { unfold slice_to, zlen. rewrite length_fmap. by rewrite (proj2 (Z.leb_le _ _)), (proj2 (Z.leb_le _ _)) by lia. }
  cbn [mbind go_bind].
  assert (if_cached (fun c => slice_to c (zlen c - zlen ([] ++ (Some <$> reverse (drop (Z.to_nat threshold) l))))) (cache m) =
          Ret (match cache m with None => None | Some _ => Some (take (Z.to_nat threshold) l) end)) as ->.
  { destruct Hc as [->| ->]; [done|]. cbn [if_cached]. unfold slice_to, zlen. rewrite app_nil_l, length_fmap, length_reverse, length_drop.
    rewrite (proj2 (Z.leb_le _ _)), (proj2 (Z.leb_le _ _)) by lia. cbn [andb mbind go_bind]. do 3 f_equal. lia. }
  cbn [mbind go_bind]. eexists. split; [reflexivity|]. split.
  - cbn [items index]. apply holds_rebuild; [by apply ascending_take|]. by rewrite fmap_take.
  - cbn [cache]. destruct Hc as [->| ->]; [by left|by right].
Qed.

(** ** Remove, Ready, Flatten *)

Lemma find_nonce_spec (idx : list Z) (n : Z) : n ∈ idx -> exists i, find_nonce idx n = Some i /\ idx !! i = Some n.
Proof.
  induction idx as [|x idx IH]; [by intros ?%not_elem_of_nil|]. cbn. intros Hin. destruct (Z.eqb_spec x n) as [->|Hne]; [by exists 0%nat|].
  apply elem_of_cons in Hin as [->|Hin]; [done|]. destruct (IH Hin) as (i & -> & Hi). by exists (S i).
Qed.

Lemma sm_Remove_spec (m : txSortedMap) (l : list Tx) (n : Z) : sm_holds m l ->
  exists m', sm_Remove m n = Ret (bool_decide (n ∈ Nonce <$> l), m') /\ sm_holds m' (filter (fun t => Nonce t <> n) l).
Proof.
  intros [(Hl & Hm & Hh & Hp) Hc]. unfold sm_Remove. destruct (items m !! n) as [tx|] eqn:Htx; rewrite Hm in Htx.
  2:{ apply lookup_keyed_None in Htx. exists m. rewrite bool_decide_false by done. split; [done|].
      rewrite filter_all; [by split|]. apply Forall_forall. intros t Ht <-. apply Htx. by apply list_elem_of_fmap_2. }
  apply lookup_keyed in Htx as [Htx <-]; [|done]. pose proof (list_elem_of_fmap_2 Nonce _ _ Htx) as Hn.
  destruct (find_nonce_spec (index m) (Nonce tx)) as (i & -> & Hi); [by rewrite Hp|].
  destruct (heap_Remove_spec nonceLess (index m) i (Nonce tx) Hh Hi) as (idx' & -> & Hp' & Hh'). cbn [mbind go_bind].
  eexists. split; [by rewrite bool_decide_true|]. split; [|by left]. cbn [items index].
  assert (ascending (filter (fun t => Nonce t <> Nonce tx) l)) as Hl' by (by apply ascending_filter).
  split; [done|]. split; [|split; [done|]].
  - apply keyed_map; [done|]. intros k t. rewrite lookup_delete_Some, Hm, lookup_keyed, list_elem_of_filter by done. naive_solver.
  - apply (Permutation_cons_inv (a:=Nonce tx)). rewrite <-Hp', Hp. apply NoDup_Permutation; [by apply ascending_nodup| |].
    + constructor; [|by apply ascending_nodup]. by intros (t & Heq & [Hne _]%list_elem_of_filter)%list_elem_of_fmap.
    + intros k. rewrite elem_of_cons, !elem_of_nonces. split.
      * intros (t & Ht & <-). destruct (decide (Nonce t = Nonce tx)) as [->|Hne]; [by left|right]. exists t. split; [by apply list_elem_of_filter|done].
      * intros [->|(t & [_ Ht]%list_elem_of_filter & <-)]; [by exists tx|by exists t].
Qed.

(** The longest run of consecutive nonces at the head. *)
Fixpoint run (next : Z) (l : list Tx) : list Tx :=
  match l with [] => [] | tx :: l => if Nonce tx =? next then tx :: run (next + 1) l else [] end.

Lemma ready_loop_runs (l : list Tx) (next : Z) (its : gmap Z Tx) (idx : list Z) (acc : list (option Tx)) (fuel : nat) :
  holds its idx l -> (length l <= fuel)%nat -> is_u64 next \/ l = [] ->
  exists its' idx', ready_loop fuel next its idx acc = Ret (its', idx', acc ++ (Some <$> run next l)) /\ holds its' idx' (drop (length (run next l)) l).
Proof.
  revert next its idx acc fuel. induction l as [|tx l IH]; intros next its idx acc fuel Hh Hf Hu.
  { pose proof (holds_nil _ _ Hh) as [-> ->]. exists ∅, []. cbn. rewrite app_nil_r. by destruct fuel. }
  destruct fuel as [|fuel]; [cbn in Hf; lia|]. destruct (holds_pop _ _ _ _ Hh) as (tl & idx' & Hidx & Hpop & Hlk & Hh').
  rewrite Hidx. cbn [ready_loop run]. rewrite <-Hidx. destruct (Z.eqb_spec (Nonce tx) next) as [<-|Hne]; [|exists its, idx; cbn; by rewrite app_nil_r].
  rewrite Hpop. cbn [mbind go_bind fst snd]. rewrite Hlk.
  assert (l = [] \/ u64 (Nonce tx + 1) = Nonce tx + 1) as Hw.
  { destruct l as [|t l]; [by left|right]. destruct Hh as (Hl & _). apply StronglySorted_inv in Hl as [_ Hall]. apply Forall_cons in Hall as [Hb _].
    pose proof (Nonce_u64 tx). pose proof (Nonce_u64 t). apply u64_id. unfold is_u64, below in *. lia. }
  assert (exists its' idx'', ready_loop fuel (u64 (Nonce tx + 1)) (delete (Nonce tx) its) idx' (acc ++ [Some tx]) =
     Ret (its', idx'', (acc ++ [Some tx]) ++ (Some <$> run (u64 (Nonce tx + 1)) l)) /\ holds its' idx'' (drop (length (run (u64 (Nonce tx + 1)) l)) l)) as (its' & idx'' & Hr & Hd).
  { apply IH; [done|cbn in Hf; lia|]. left. apply u64_range. }
  assert (run (u64 (Nonce tx + 1)) l = run (Nonce tx + 1) l) as Hrun by (destruct Hw as [->| ->]; done). rewrite Hrun in *.
  exists its', idx''. split; [|done]. rewrite Hr, <-(assoc_L (++)). done.
Qed.

(** The first run of consecutive nonces, where it does not start above [start]. *)
Definition ready_list (start : Z) (l : list Tx) : list Tx :=
  match l with [] => [] | tx :: _ => if start <? Nonce tx then [] else run (Nonce tx) l end.

Lemma sm_Ready_spec (m : txSortedMap) (l : list Tx) (start : Z) : sm_holds m l ->
  exists m', sm_Ready m start = Ret (Some <$> ready_list start l, m') /\ sm_holds m' (drop (length (ready_list start l)) l).
Proof.
  intros [Hh Hc]. unfold sm_Ready, ready_list. destruct l as [|tx l].
  { pose proof (holds_nil _ _ Hh) as [-> _]. exists m. by split. }
  destruct (holds_pop _ _ _ _ Hh) as (tl & idx' & Hidx & _). rewrite Hidx. destruct (start <? Nonce tx); [exists m; by split|]. rewrite <-Hidx.
  destruct (ready_loop_runs (tx :: l) (Nonce tx) (items m) (index m) [] (length (index m)) Hh) as (its' & idx'' & Hr & Hd);
    [by rewrite (holds_top _ _ _ Hh)|left; apply Nonce_u64|].
  rewrite Hr. cbn [mbind go_bind]. rewrite app_nil_l. eexists. split; [reflexivity|]. split; [done|by left].
Qed.

Lemma sm_Flatten_spec (m : txSortedMap) (l : list Tx) : sm_holds m l ->
  exists m', sm_Flatten Nonce range m = (l, m') /\ sm_holds m' l /\ cache m' = Some l.
Proof.
  intros [Hh Hc]. destruct Hh as (Hl & Hm & Hh & Hp).
  assert (match cache m with Some c => c | None => merge_sort (nonce_le Nonce) (range (items m)).*2 end = l) as Heq.
  { destruct Hc as [->| ->]; [|done]. apply merge_sort_ascending; [done|]. by rewrite Hm, range_keyed, keyed_values. }
  unfold sm_Flatten. rewrite Heq. eexists. split; [reflexivity|]. split; [|done]. split; [done|by right].
Qed.

Lemma sm_Len_spec (m : txSortedMap) (l : list Tx) : sm_holds m l -> sm_Len m = zlen l.
Proof. intros [(Hl & Hm & _) _]. unfold sm_Len. by rewrite Hm, size_keyed. Qed.

Lemma sm_new_spec : sm_holds newTxSortedMap [].
Proof. split; [|by left]. split; [constructor|]. split; [done|]. split; [|done]. intros k _ Hk. cbn in Hk. lia. Qed.

(** ** The refinement *)

Inductive sm_op :=
  | OpPut (tx : Tx)
  | OpForward (threshold : Z)
  | OpFilter (flt : Tx -> bool)
  | OpCap (threshold : Z)
  | OpRemove (nonce : Z)
  | OpReady (start : Z)
  | OpFlatten
  | OpLen.

Inductive sm_result :=
  | Done
  | Returned (l : list (option Tx))
  | Found (b : bool)
  | Length (n : Z).

(** What the code does for an operation. *)
Definition sm_run (m : txSortedMap) (op : sm_op) : go (sm_result * txSortedMap) :=
  match op with
  | OpPut tx => Ret (Done, sm_Put Nonce m tx)
  | OpForward t => r ← sm_Forward m t; Ret (Returned r.1, r.2)
  | OpFilter f => Ret (Returned (Some <$> (sm_Filter range m f).1), (sm_Filter range m f).2)
  | OpCap t => r ← sm_Cap m t; Ret (Returned r.1, r.2)
  | OpRemove n => r ← sm_Remove m n; Ret (Found r.1, r.2)
  | OpReady s => r ← sm_Ready m s; Ret (Returned r.1, r.2)
  | OpFlatten => Ret (Returned (Some <$> (sm_Flatten Nonce range m).1), (sm_Flatten Nonce range m).2)
  | OpLen => Ret (Length (sm_Len m), m)
  end.

(** What it means: the operation on the sorted list. *)
Inductive list_step : list Tx -> sm_op -> sm_result -> list Tx -> Prop :=
  | step_put l tx : list_step l (OpPut tx) Done (put tx l)
  | step_forward l t : list_step l (OpForward t) (Returned (Some <$> filter (older t) l)) (filter (fun tx => ~ older t tx) l)
  | step_filter l f removed : removed ≡ₚ filter (fun tx => f tx = true) l ->
      list_step l (OpFilter f) (Returned (Some <$> removed)) (filter (fun tx => f tx <> true) l)
  | step_cap l t : 0 <= t -> list_step l (OpCap t) (Returned (Some <$> reverse (drop (Z.to_nat t) l))) (take (Z.to_nat t) l)
  | step_remove l n : list_step l (OpRemove n) (Found (bool_decide (n ∈ Nonce <$> l))) (filter (fun t => Nonce t <> n) l)
  | step_ready l s : list_step l (OpReady s) (Returned (Some <$> ready_list s l)) (drop (length (ready_list s l)) l)
  | step_flatten l : list_step l OpFlatten (Returned (Some <$> l)) l
  | step_len l : list_step l OpLen (Length (zlen l)) l.

Inductive list_steps : list Tx -> list sm_op -> list sm_result -> list Tx -> Prop :=
  | steps_nil l : list_steps l [] [] l
  | steps_cons l op r l1 ops rs l2 : list_step l op r l1 -> list_steps l1 ops rs l2 -> list_steps l (op :: ops) (r :: rs) l2.

Fixpoint sm_runs (m : txSortedMap) (ops : list sm_op) : go (list sm_result * txSortedMap) :=
  match ops with
  | [] => Ret ([], m)
  | op :: ops => r ← sm_run m op; rs ← sm_runs r.2 ops; Ret (r.1 :: rs.1, rs.2)
  end.

(** No negative limits. *)
Definition op_ok (op : sm_op) : Prop := match op with OpCap t => 0 <= t | _ => True end.

Lemma sm_run_refines (m : txSortedMap) (l : list Tx) (op : sm_op) : sm_holds m l -> op_ok op ->
  exists r m' l', sm_run m op = Ret (r, m') /\ list_step l op r l' /\ sm_holds m' l'.
Proof.
  intros Hm Hok. destruct op as [tx|t|f|t|n|st| |]; cbn [sm_run].
  - eexists _, _, _. split; [reflexivity|]. split; [constructor|by apply sm_Put_spec].
  - destruct (sm_Forward_spec m l t Hm) as (m' & -> & Hm'). eexists _, _, _. split; [reflexivity|]. by split; [constructor|].
  - destruct (sm_Filter_spec m l f Hm) as (removed & m' & -> & Hr & Hm'). eexists _, _, _. split; [reflexivity|]. by split; [constructor|].
  - destruct (sm_Cap_spec m l t Hm Hok) as (m' & -> & Hm'). eexists _, _, _. split; [reflexivity|]. by split; [constructor|].
  - destruct (sm_Remove_spec m l n Hm) as (m' & -> & Hm'). eexists _, _, _. split; [reflexivity|]. by split; [constructor|].
  - destruct (sm_Ready_spec m l st Hm) as (m' & -> & Hm'). eexists _, _, _. split; [reflexivity|]. by split; [constructor|].
  - destruct (sm_Flatten_spec m l Hm) as (m' & -> & Hm' & _). eexists _, _, _. split; [reflexivity|]. by split; [constructor|].
  - eexists _, _, _. split; [reflexivity|]. rewrite (sm_Len_spec m l Hm). by split; [constructor|].
Qed.

(** the pool's sorted map is a sorted list.  From the empty map, any sequence of Put, Forward, Filter, Cap
    (to a limit that is not negative), Remove, Ready, Flatten and Len runs without a panic, whatever the order in
    which Go ranges over its maps, and gives the results of the same operations on a list of transactions that is
    strictly sorted by nonce: Forward takes the nonces below the threshold, in order; Cap drops the highest,
    from the top; Ready takes the first run of consecutive nonces.  The map, the heap of nonces and the cached order stay
    those of that list throughout. *)
Theorem sorted_map_refines (ops : list sm_op) : Forall op_ok ops ->
  exists rs m l, sm_runs newTxSortedMap ops = Ret (rs, m) /\ list_steps [] ops rs l /\ sm_holds m l.
Proof.
  assert (forall (m : txSortedMap) (l : list Tx), sm_holds m l -> Forall op_ok ops ->
    exists rs m' l', sm_runs m ops = Ret (rs, m') /\ list_steps l ops rs l' /\ sm_holds m' l') as Hgen; [|intros Hok; by apply Hgen; [apply sm_new_spec|]].
  induction ops as [|op ops IH]; intros m l Hm Hok.
  - exists [], m, l. split; [done|]. split; [constructor|done].
  - apply Forall_cons in Hok as [Hop Hok]. destruct (sm_run_refines m l op Hm Hop) as (r & m1 & l1 & Hr & Hs & Hm1).
    destruct (IH m1 l1 Hm1 Hok) as (rs & m2 & l2 & Hrs & Hss & Hm2). exists (r :: rs), m2, l2. cbn [sm_runs]. rewrite Hr.
    cbn [mbind go_bind fst snd]. rewrite Hrs. split; [done|]. split; [by econstructor|done].
Qed.

End Spec.

(** * txList *)

Section Lists.
Context {Tx : Type} (Nonce Cost Gas : Tx -> Z) (range : gmap Z Tx -> list (Z * Tx)).
Context (Nonce_u64 : forall tx, is_u64 (Nonce tx)) (range_perm : forall m, range m ≡ₚ map_to_list m).
Abbreviation sm_holds := (sm_holds Nonce).

(** The list's transactions, within the caps. *)
Definition tl_holds (tl : txList) (l : list Tx) : Prop :=
  sm_holds (txs tl) l /\ Forall (fun tx => Cost tx <= costcap tl /\ Gas tx <= gascap tl) l.

Definition over (costLimit gasLimit : Z) (tx : Tx) : bool := (costLimit <? Cost tx) || (gasLimit <? Gas tx).

(** The transactions before the first that [p] rejects. *)
Fixpoint before (p : Tx -> bool) (l : list Tx) : list Tx :=
  match l with [] => [] | tx :: l => if p tx then [] else tx :: before p l end.

Definition gapless (l : list Tx) : Prop := exists s, Nonce <$> l = seqZ s (zlen l).

Lemma before_split (p : Tx -> bool) (l : list Tx) : exists rest, l = before p l ++ rest /\ Forall (fun tx => p tx <> true) (before p l) /\
  (rest = [] \/ exists x tl, rest = x :: tl /\ p x = true).
Proof.
  induction l as [|tx l (rest & Hl & Hb & Hr)]; [exists []; repeat split; [constructor|by left]|]. cbn.
  destruct (p tx) eqn:Hp; [exists (tx :: l); repeat split; [constructor|right; eauto]|].
  exists rest. cbn. split; [by f_equal|]. split; [|done]. constructor; [by rewrite Hp|done].
Qed.

Lemma lowest_bound (removed : list Tx) (acc : Z) : 
  let low := foldl (fun lowest tx => if Nonce tx <? lowest then Nonce tx else lowest) acc removed in
  (low = acc \/ exists t, t ∈ removed /\ low = Nonce t) /\ low <= acc /\ (forall t, t ∈ removed -> low <= Nonce t).
Proof.
  revert acc. induction removed as [|tx removed IH]; intros acc; cbn [foldl].
  { split; [by left|]. split; [lia|]. by intros t ?%not_elem_of_nil. }
  specialize (IH (if Nonce tx <? acc then Nonce tx else acc)). cbv zeta in *. destruct IH as (Hin & Hle & Hall).
  set (low := foldl _ _ removed) in *. clearbody low. destruct (Z.ltb_spec (Nonce tx) acc); split_and!; try lia.
  - destruct Hin as [->|(t & Ht & ->)]; right; [exists tx; split; [by left|done]|exists t; split; [by right|done]].
  - intros t [->|Ht]%elem_of_cons; [lia|by apply Hall].
  - destruct Hin as [->|(t & Ht & ->)]; [by left|right; exists t; split; [by right|done]].
  - intros t [->|Ht]%elem_of_cons; [lia|by apply Hall].
Qed.

(** The lowest nonce removed is the one of the first transaction rejected. *)
Lemma lowest_first (p : Tx -> bool) (pre post removed : list Tx) (x : Tx) : ascending Nonce (pre ++ x :: post) ->
  Forall (fun tx => p tx <> true) pre -> p x = true -> removed ≡ₚ filter (fun tx => p tx = true) (pre ++ x :: post) ->
  lowest_nonce Nonce removed = Nonce x.
Proof.
  intros Hasc Hpre Hx Hr. destruct (lowest_bound removed MaxUint64) as (Hin & Hle & Hall). fold (lowest_nonce Nonce removed) in *.
  rewrite filter_app, filter_none, filter_cons, decide_True in Hr by done. cbn in Hr.
  assert (x ∈ removed) as Hxr by (rewrite Hr; left). specialize (Hall x Hxr).
  destruct Hin as [Hm|(t & Ht & Heq)]; [pose proof (Nonce_u64 x); unfold is_u64, MaxUint64 in *; lia|].
  rewrite Hr in Ht. apply elem_of_cons in Ht as [->|[_ Ht]%list_elem_of_filter]; [done|].
  assert (Nonce x < Nonce t); [|lia]. revert Hasc Ht. clear. intros Hasc Ht. induction pre as [|a pre IH]; cbn in Hasc.
  - apply StronglySorted_inv in Hasc as [_ Hall]. rewrite Forall_forall in Hall. by apply Hall.
  - apply StronglySorted_inv in Hasc as [Hasc _]. by apply IH.
Qed.

Lemma gapless_prefix (l1 l2 : list Tx) : gapless (l1 ++ l2) -> gapless l1.
Proof.
  intros (s & Hs). exists s. rewrite fmap_app, zlen_app in Hs. rewrite seqZ_app in Hs by apply zlen_nonneg.
  apply app_inj_1 in Hs as [Hs _]; [done|]. rewrite length_fmap, length_seqZ. unfold zlen. lia.
Qed.

(** What a strict list keeps above a nonce that leaves. *)
Lemma filter_above (pre post : list Tx) (x : Tx) (q : Tx -> bool) : ascending Nonce (pre ++ x :: post) -> q x = true ->
  Forall (fun tx => q tx <> true) pre ->
  filter (fun tx => (Nonce x <? Nonce tx) <> true) (filter (fun tx => q tx <> true) (pre ++ x :: post)) = pre /\
  filter (fun tx => (Nonce x <? Nonce tx) = true) (filter (fun tx => q tx <> true) (pre ++ x :: post)) = filter (fun tx => q tx <> true) post.
Proof.
  intros Hasc Hqx Hpre. rewrite filter_app, filter_cons, decide_False by tauto. rewrite (filter_all _ pre) by done. rewrite !filter_app.
  assert (Forall (fun tx => Nonce tx < Nonce x) pre /\ Forall (fun tx => Nonce x < Nonce tx) post) as [Hlo Hhi].
  { clear -Hasc. induction pre as [|a pre IH]; cbn in Hasc; apply StronglySorted_inv in Hasc as [Hasc Hall]; [by split; [constructor|]|].
    destruct (IH Hasc) as [Hl Hh]. split; [|done]. constructor; [|done]. apply Forall_app in Hall as [_ Hall]. by apply Forall_cons in Hall as [Hall _]. }
  assert (Forall (fun tx => Nonce x < Nonce tx) (filter (fun tx => q tx <> true) post)) as Hhi'.
  { rewrite Forall_forall in *. intros t [_ Ht]%list_elem_of_filter. by apply Hhi. }
  rewrite (filter_all _ pre), (filter_none _ pre), (filter_none _ (filter _ post)), (filter_all _ (filter _ post)); [by rewrite app_nil_r|..];
    eapply Forall_impl; try exact Hlo; try exact Hhi'; intros t Ht; cbn in Ht |- *; rewrite ?Z.ltb_lt; lia.
Qed.

(** What stays in a list when [p] is rejected: a strict list keeps only what comes before. *)
Definition left_over (s : bool) (p : Tx -> bool) (l : list Tx) : list Tx :=
  if s then before p l else filter (fun tx => p tx <> true) l.

Lemma before_all (p : Tx -> bool) (l : list Tx) : Forall (fun tx => p tx <> true) l -> before p l = l.
Proof. induction 1 as [|tx l Hp _ IH]; [done|]. cbn. destruct (p tx); [done|]. by rewrite IH. Qed.

Lemma before_app (p : Tx -> bool) (pre post : list Tx) (x : Tx) : Forall (fun tx => p tx <> true) pre -> p x = true -> before p (pre ++ x :: post) = pre.
Proof. induction 1 as [|tx pre Hp _ IH]; intros Hx; cbn; [by rewrite Hx|]. destruct (p tx); [done|]. by rewrite IH. Qed.

Lemma left_over_all (s : bool) (p : Tx -> bool) (l : list Tx) : Forall (fun tx => p tx <> true) l -> left_over s p l = l.
Proof. intros Hl. unfold left_over. destruct s; [by apply before_all|by apply filter_all]. Qed.

Lemma left_over_good (s : bool) (p : Tx -> bool) (l : list Tx) : Forall (fun tx => p tx <> true) (left_over s p l).
Proof.
  unfold left_over. destruct s; [by destruct (before_split p l) as (? & _ & Hb & _)|].
  apply Forall_forall. by intros t [Ht _]%list_elem_of_filter.
Qed.

Lemma filter_both (p : Tx -> bool) (l : list Tx) : filter (fun tx => p tx = true) l ++ filter (fun tx => p tx <> true) l ≡ₚ l.
Proof.
  induction l as [|tx l IH]; [done|]. rewrite !filter_cons. destruct (decide (p tx = true)) as [Hp|Hp].
  - rewrite decide_False by tauto. cbn. by rewrite IH.
  - rewrite decide_True by done. by rewrite <-Permutation_middle, IH.
Qed.

Lemma left_over_sub (s : bool) (p : Tx -> bool) (l : list Tx) : exists k, left_over s p l ++ k ≡ₚ l.
Proof.
  unfold left_over. destruct s.
  - destruct (before_split p l) as (rest & Hl & _). exists rest. by rewrite <-Hl.
  - exists (filter (fun tx => p tx = true) l). by rewrite Permutation_app_comm, filter_both.
Qed.

(** A rejection and, in a strict list, the invalidation that follows it. *)
Lemma filter_strict (m : txSortedMap) (l removed : list Tx) (p : Tx -> bool) : sm_holds m (filter (fun tx => p tx <> true) l) -> ascending Nonce l ->
  removed ≡ₚ filter (fun tx => p tx = true) l -> removed <> [] ->
  exists invalids m', sm_Filter range m (fun tx => lowest_nonce Nonce removed <? Nonce tx) = (invalids, m') /\
    removed ++ invalids ++ before p l ≡ₚ l /\ sm_holds m' (before p l).
Proof.
  intros Hm Hasc Hr Hne. destruct (before_split p l) as (rest & Hl & Hb & [->|(x & tl & -> & Hx)]).
  { rewrite app_nil_r in Hl. rewrite <-Hl in Hb. rewrite filter_none in Hr by done. by apply Permutation_nil_r in Hr. }
  set (pre := before p l) in *. clearbody pre. subst l. pose proof (lowest_first p pre tl removed x Hasc Hb Hx Hr) as Hlow. rewrite Hlow.
  destruct (filter_above pre tl x p Hasc Hx Hb) as [Hkeep Hdrop].
  destruct (sm_Filter_spec Nonce range range_perm m _ (fun tx => Nonce x <? Nonce tx) Hm) as (invalids & m' & -> & Hinv & Hm').
  rewrite Hkeep in Hm'. rewrite Hdrop in Hinv. exists invalids, m'. split; [done|]. split; [|done].
  rewrite Hr, Hinv. rewrite filter_app, filter_none, filter_cons, decide_True by done. cbn.
  rewrite (assoc_L (++)), filter_both. rewrite <-Permutation_middle. f_equiv. apply Permutation_app_comm.
Qed.

Lemma Filter_spec (tl : txList) (l : list Tx) (costLimit gasLimit : Z) : tl_holds tl l ->
  exists removed invalids tl', Filter Nonce Cost Gas range tl costLimit gasLimit = (removed, invalids, tl') /\
    removed ≡ₚ filter (fun tx => over costLimit gasLimit tx = true) l /\
    removed ++ invalids ++ left_over (strict tl) (over costLimit gasLimit) l ≡ₚ l /\
    strict tl' = strict tl /\ tl_holds tl' (left_over (strict tl) (over costLimit gasLimit) l).
Proof.
  intros [Hm Hcaps]. unfold Filter. destruct ((costcap tl <=? costLimit) && (gascap tl <=? gasLimit)) eqn:Hshort.
  { apply andb_prop in Hshort as [Hc Hg]. apply Z.leb_le in Hc, Hg.
    assert (Forall (fun tx => over costLimit gasLimit tx <> true) l) as Hall.
    { eapply Forall_impl; [exact Hcaps|]. intros t [H1 H2]. cbn in *. unfold over. rewrite orb_true_iff, !Z.ltb_lt. lia. }
    rewrite left_over_all, filter_none by done. exists [], [], tl. split; [done|]. split; [done|]. split; [done|]. by split. }
  pose proof (proj1 (proj1 Hm)) as Hasc.
  destruct (sm_Filter_spec Nonce range range_perm (txs tl) l (over costLimit gasLimit) Hm) as (removed & m & Hf & Hr & Hm'). fold (over costLimit gasLimit). rewrite Hf.
  assert (forall m1, Forall (fun tx => Cost tx <= costLimit /\ Gas tx <= gasLimit) (left_over (strict tl) (over costLimit gasLimit) l) ->
    sm_holds m1 (left_over (strict tl) (over costLimit gasLimit) l) ->
    tl_holds {| strict := strict tl; txs := m1; costcap := costLimit; gascap := gasLimit |} (left_over (strict tl) (over costLimit gasLimit) l)) as Hmk by (by intros).
  assert (Forall (fun tx => Cost tx <= costLimit /\ Gas tx <= gasLimit) (left_over (strict tl) (over costLimit gasLimit) l)) as Hgood.
  { eapply Forall_impl; [apply left_over_good|]. intros t Ht. cbn in Ht. unfold over in Ht. rewrite orb_true_iff, !Z.ltb_lt in Ht. lia. }
  destruct (strict tl) eqn:Hst; cbn [andb]; [destruct (bool_decide_reflect (removed <> [])) as [Hne|Hne]|].
  - destruct (filter_strict m l removed (over costLimit gasLimit) Hm' Hasc Hr Hne) as (invalids & m' & -> & Hp & Hm'').
    eexists _, _, _. split; [reflexivity|]. split; [done|]. split; [done|]. split; [done|]. by apply Hmk.
  - apply dec_stable in Hne as ->. apply Permutation_nil_l in Hr.
    assert (Forall (fun tx => over costLimit gasLimit tx <> true) l) as Hall.
    { apply Forall_forall. intros t Ht Ho. eapply filter_nil_not_elem_of; [exact (eq_sym Hr)|exact Ho|exact Ht]. }
    rewrite left_over_all in * by done. rewrite filter_all in Hm' by done. rewrite <-Hr.
    eexists _, _, _. split; [reflexivity|]. split; [done|]. split; [done|]. split; [done|]. by apply Hmk.
  - eexists _, _, _. split; [reflexivity|]. split; [done|]. split; [by cbn; rewrite Hr, filter_both|]. split; [done|]. by apply Hmk.
Qed.

(** what the pool can still pay for.  Filter on a list whose caps hold returns exactly the transactions
    over the cost or the gas limit, and keeps a list with every transaction within the limits and the caps; the
    short cut through the caps loses nothing.  A strict list keeps the transactions before the first one over the
    limits, returns the others as invalid, and stays without gaps. *)
Theorem filter_keeps_payable (tl : txList) (l : list Tx) (costLimit gasLimit : Z) : tl_holds tl l ->
  exists removed invalids tl' l', Filter Nonce Cost Gas range tl costLimit gasLimit = (removed, invalids, tl') /\
    removed ≡ₚ filter (fun tx => over costLimit gasLimit tx = true) l /\ removed ++ invalids ++ l' ≡ₚ l /\
    tl_holds tl' l' /\ Forall (fun tx => Cost tx <= costLimit /\ Gas tx <= gasLimit) l' /\
    (if strict tl then l' `prefix_of` l /\ (gapless l -> gapless l') else invalids = []).
Proof.
  intros Hh. destruct (Filter_spec tl l costLimit gasLimit Hh) as (removed & invalids & tl' & Hf & Hr & Hp & Hs & Hh').
  exists removed, invalids, tl', (left_over (strict tl) (over costLimit gasLimit) l). split; [done|]. split; [done|]. split; [done|]. split; [done|]. split.
  - eapply Forall_impl; [apply left_over_good|]. intros t Ht. cbn in Ht. unfold over in Ht. rewrite orb_true_iff, !Z.ltb_lt in Ht. lia.
  - unfold left_over in *. destruct (strict tl).
    + destruct (before_split (over costLimit gasLimit) l) as (rest & Hl & _). split; [by exists rest|]. rewrite Hl at 1. apply gapless_prefix.
    + rewrite Hr in Hp. rewrite <-(filter_both (over costLimit gasLimit) l) in Hp at 3. apply Permutation_app_inv_l in Hp.
      apply (Permutation_app_inv_r _ _ []) in Hp. by apply Permutation_nil_r in Hp.
Qed.

Lemma Remove_spec (tl : txList) (l : list Tx) (tx : Tx) : tl_holds tl l -> tx ∈ l ->
  exists invalids tl', Remove Nonce range tl tx = Ret (true, invalids, tl') /\ strict tl' = strict tl /\ (strict tl = false -> invalids = []) /\
    tx :: invalids ++ left_over (strict tl) (fun t => Nonce t =? Nonce tx) l ≡ₚ l /\
    tl_holds tl' (left_over (strict tl) (fun t => Nonce t =? Nonce tx) l).
Proof.
  intros [Hm Hcaps] Htx. unfold Remove. pose proof (proj1 (proj1 Hm)) as Hasc.
  destruct (sm_Remove_spec Nonce (txs tl) l (Nonce tx) Hm) as (m & -> & Hm'). cbn [mbind go_bind fst snd].
  rewrite bool_decide_true by (by apply list_elem_of_fmap_2). cbn [negb].
  set (p := fun t => Nonce t =? Nonce tx) in *.
  assert (filter (fun t => Nonce t <> Nonce tx) l = filter (fun t => p t <> true) l) as Hfe.
  { apply list_filter_iff. intros t. unfold p. rewrite Z.eqb_eq. done. }
  assert (filter (fun t => p t = true) l = [tx]) as Hone.
  { destruct (list_elem_of_split l tx Htx) as (pre & post & ->). rewrite filter_app, filter_cons, decide_True by (unfold p; lia).
    assert (Forall (fun t => ~ p t = true) (pre ++ post)) as Hno.
    { pose proof (ascending_nodup Nonce _ Hasc) as Hnd. rewrite fmap_app in Hnd. cbn in Hnd. apply Forall_forall. intros t Ht. unfold p. rewrite Z.eqb_eq. intros Heq.
      apply NoDup_app in Hnd as (_ & H1 & H2). apply NoDup_cons in H2 as [H2 _]. apply elem_of_app in Ht as [Ht|Ht].
      - apply (H1 (Nonce t)); [by apply list_elem_of_fmap_2|]. rewrite Heq. by left.
      - apply H2. rewrite <-Heq. by apply list_elem_of_fmap_2. }
    apply Forall_app in Hno as [Hn1 Hn2]. by rewrite !filter_none. }
  rewrite Hfe in Hm'.
  assert (forall m1 c, sm_holds m1 (left_over c p l) -> tl_holds (with_txs tl m1) (left_over c p l)) as Hmk.
  { intros m1 c Hm1. split; [done|]. cbn. destruct (left_over_sub c p l) as (k & Hk). rewrite <-Hk in Hcaps. by apply Forall_app in Hcaps as [Hcaps _]. }
  destruct (strict tl) eqn:Hst.
  - destruct (before_split p l) as (rest & Hl & Hb & Hr). destruct Hr as [->|(x & tl0 & -> & Hx)].
    { rewrite app_nil_r in Hl. rewrite Hl in Hone. by rewrite filter_none in Hone. }
    assert (Nonce x = Nonce tx) as Hxn by (by apply Z.eqb_eq). rewrite <-Hxn.
    destruct (filter_above (before p l) tl0 x p) as [Hkeep Hdrop]; [by rewrite <-Hl|done|done|]. rewrite <-Hl in Hkeep, Hdrop.
    destruct (sm_Filter_spec Nonce range range_perm m _ (fun t => Nonce x <? Nonce t) Hm') as (invalids & m' & -> & Hinv & Hm'').
    rewrite Hkeep in Hm''. rewrite Hdrop in Hinv. eexists _, _. split; [reflexivity|]. split; [done|]. split; [done|]. cbn [left_over]. split; [|by apply (Hmk m' true)].
    assert (filter (fun t => p t <> true) l = before p l ++ filter (fun t => p t <> true) tl0) as Hk.
    { rewrite Hl at 1. rewrite filter_app, filter_all by done. rewrite filter_cons, decide_False by tauto. done. }
    rewrite Hinv, (Permutation_app_comm _ (before p l)), <-Hk. rewrite <-(filter_both p l) at 2. by rewrite Hone.
  - eexists _, _. split; [reflexivity|]. split; [done|]. split; [done|]. split; [|by apply (Hmk m false)]. cbn [left_over app].
    rewrite <-(filter_both p l) at 2. by rewrite Hone.
Qed.

Lemma Remove_miss (tl : txList) (l : list Tx) (tx : Tx) : tl_holds tl l -> sm_Get (txs tl) (Nonce tx) = None ->
  Remove Nonce range tl tx = Ret (false, [], tl).
Proof. intros _ Hn. unfold Remove, sm_Remove. unfold sm_Get in Hn. by rewrite Hn. Qed.

(** Caps stay true for a part of the list. *)
Lemma tl_sub (tl : txList) (l k : list Tx) (m : txSortedMap) : tl_holds tl l -> (forall t, t ∈ k -> t ∈ l) -> sm_holds m k -> tl_holds (with_txs tl m) k.
Proof. intros [_ Hc] Hsub Hm. split; [done|]. cbn. rewrite Forall_forall in *. intros t Ht. by apply Hc, Hsub. Qed.

Lemma Forward_spec (tl : txList) (l : list Tx) (threshold : Z) : tl_holds tl l ->
  exists tl', Forward tl threshold = Ret (Some <$> filter (older Nonce threshold) l, tl') /\ strict tl' = strict tl /\
    tl_holds tl' (filter (fun tx => ~ older Nonce threshold tx) l).
Proof.
  intros Hh. unfold Forward. destruct (sm_Forward_spec Nonce (txs tl) l threshold (proj1 Hh)) as (m' & -> & Hm').
  eexists. split; [reflexivity|]. split; [done|]. eapply tl_sub; [exact Hh| |done]. by intros t [_ Ht]%list_elem_of_filter.
Qed.

Lemma Cap_spec (tl : txList) (l : list Tx) (threshold : Z) : tl_holds tl l -> 0 <= threshold ->
  exists tl', Cap tl threshold = Ret (Some <$> reverse (drop (Z.to_nat threshold) l), tl') /\ strict tl' = strict tl /\
    tl_holds tl' (take (Z.to_nat threshold) l).
Proof.
  intros Hh Ht. unfold Cap. destruct (sm_Cap_spec Nonce (txs tl) l threshold (proj1 Hh) Ht) as (m' & -> & Hm').
  eexists. split; [reflexivity|]. split; [done|]. eapply tl_sub; [exact Hh| |done]. intros t Hin.
  rewrite <-(take_drop (Z.to_nat threshold) l). apply elem_of_app. by left.
Qed.

Lemma Ready_spec (tl : txList) (l : list Tx) (start : Z) : tl_holds tl l ->
  exists tl' R l', Ready tl start = Ret (Some <$> R, tl') /\ strict tl' = strict tl /\ l = R ++ l' /\ R = ready_list Nonce start l /\ tl_holds tl' l'.
Proof.
  intros Hh. unfold Ready. destruct (sm_Ready_spec Nonce Nonce_u64 (txs tl) l start (proj1 Hh)) as (m' & -> & Hm').
  assert (forall next k, exists rest, k = run Nonce next k ++ rest) as Hrun.
  { intros next k. revert next. induction k as [|t k IH]; intros next; [by exists []|]. cbn. destruct (_ =? _); [|by exists (t :: k)].
    destruct (IH (next + 1)) as (rest & Hk). exists rest. cbn. by f_equal. }
  assert (exists l', l = ready_list Nonce start l ++ l') as (l' & Hl).
  { unfold ready_list. destruct l as [|t l]; [by exists []|]. destruct (_ <? _); [by exists (t :: l)|apply Hrun]. }
  eexists _, _, l'. split; [reflexivity|]. split; [done|]. split; [exact Hl|]. split; [done|].
  rewrite (drop_app_split l _ l' Hl) in Hm'. eapply tl_sub; [exact Hh| |done]. intros t Ht. rewrite Hl. apply elem_of_app. by right.
Qed.

Lemma Flatten_spec (tl : txList) (l : list Tx) : tl_holds tl l ->
  exists tl', Flatten Nonce range tl = (l, tl') /\ strict tl' = strict tl /\ tl_holds tl' l.
Proof.
  intros Hh. unfold Flatten. destruct (sm_Flatten_spec Nonce range range_perm (txs tl) l (proj1 Hh)) as (m' & -> & Hm' & _).
  eexists. split; [reflexivity|]. split; [done|]. by eapply tl_sub.
Qed.

Lemma Len_spec (tl : txList) (l : list Tx) : tl_holds tl l -> Len tl = zlen l.
Proof. intros [Hm _]. by apply (sm_Len_spec Nonce). Qed.

Lemma Empty_spec (tl : txList) (l : list Tx) : tl_holds tl l -> Empty tl = bool_decide (l = []).
Proof.
  intros Hh. unfold Empty. rewrite (Len_spec tl l Hh). destruct l as [|t l]; [done|]. unfold zlen. cbn [length]. rewrite bool_decide_false by done.
  apply Z.eqb_neq. lia.
Qed.

Context (GasPrice : Tx -> Z).

Lemma list_Add_spec (tl : txList) (l : list Tx) (tx : Tx) (bump : Z) : tl_holds tl l ->
  match sm_Get (txs tl) (Nonce tx) with
  | Some old => old ∈ l /\ Nonce old = Nonce tx /\
      (if (GasPrice tx <=? GasPrice old) || (GasPrice tx <? bump_threshold GasPrice old bump)
       then Add Nonce GasPrice Cost Gas tl tx bump = (false, Some old, tl)
       else exists tl', Add Nonce GasPrice Cost Gas tl tx bump = (true, Some old, tl') /\ tl_holds tl' (put Nonce tx l) /\ strict tl' = strict tl)
  | None => (Nonce tx ∉ (Nonce <$> l)) /\
      exists tl', Add Nonce GasPrice Cost Gas tl tx bump = (true, None, tl') /\ tl_holds tl' (put Nonce tx l) /\ strict tl' = strict tl
  end.
Proof.
  intros [Hm Hcaps].
  assert (forall tl', txs tl' = sm_Put Nonce (txs tl) tx -> costcap tl' = (if costcap tl <? Cost tx then Cost tx else costcap tl) ->
    gascap tl' = (if gascap tl <? Gas tx then Gas tx else gascap tl) -> tl_holds tl' (put Nonce tx l)) as Hput.
  { intros tl' Htx Hc Hg. split; [rewrite Htx; by apply sm_Put_spec|]. rewrite Hc, Hg. apply Forall_forall. intros t Ht. rewrite Forall_forall in Hcaps.
    apply elem_of_put in Ht as [->|[Ht _]]; [|specialize (Hcaps t Ht)]; destruct (Z.ltb_spec (costcap tl) (Cost tx)), (Z.ltb_spec (gascap tl) (Gas tx)); lia. }
  unfold Add. destruct (sm_Get (txs tl) (Nonce tx)) as [old|] eqn:Hold.
  - apply (sm_Get_spec Nonce _ _ _ _ Hm) in Hold as [Ho Hn]. split; [done|]. split; [done|]. destruct (_ || _); [done|].
    eexists. split; [reflexivity|]. split; [by apply Hput|done].
  - split.
    + intros (t & Heq & Ht)%list_elem_of_fmap. assert (sm_Get (txs tl) (Nonce tx) = Some t) by (by apply (sm_Get_spec Nonce _ _ _ _ Hm)). congruence.
    + eexists. split; [reflexivity|]. split; [by apply Hput|done].
Qed.

End Lists.

(** * A run *)

Section Example.
#[local] Abbreviation ex_range := (map_to_list (K := Z) (A := Z) (M := gmap Z Z)).

Lemma ex_u64 (tx : Z) : is_u64 (u64 tx).
Proof. apply u64_range. Qed.

Lemma ex_range_perm (m : gmap Z Z) : ex_range m ≡ₚ map_to_list m.
Proof. done. Qed.

(** Transactions that are their nonces: Put out of order, Ready, Cap, Flatten. *)
Definition ex_ops : list (sm_op (Tx := Z)) :=
  [OpPut 7; OpPut 5; OpPut 9; OpPut 6; OpFlatten; OpReady 5; OpCap 0; OpRemove 9; OpForward 3].

Lemma ex_sm_ops_ok : Forall op_ok ex_ops.
Proof. unfold ex_ops. repeat (apply Forall_cons; split; [cbn; lia || done|]). apply Forall_nil_2. Qed.

Example sorted_map_refines_witness :
  Forall op_ok ex_ops /\
  exists rs m l, sm_runs u64 ex_range newTxSortedMap ex_ops = Ret (rs, m) /\ list_steps u64 [] ex_ops rs l /\ sm_holds u64 m l.
Proof. split; [exact ex_sm_ops_ok|]. exact (sorted_map_refines u64 ex_range ex_u64 ex_range_perm ex_ops ex_sm_ops_ok). Defined.

(** A strict list of the nonces 0, 1, 2 with a transaction that costs too much in the middle. *)
Definition ex_cost (tx : Z) : Z := if tx =? 1 then 50 else 10.

Definition ex_list : txList (Tx := Z) :=
  foldl (fun l tx => (Add u64 (fun _ => 1) ex_cost (fun _ => 21) l tx 10).2) (newTxList true) [2; 0; 1].

Lemma ex_list_holds : tl_holds u64 ex_cost (fun _ => 21) ex_list [0; 1; 2].
Proof.
  assert (tl_holds u64 ex_cost (fun _ => 21) (newTxList true) []) as H0 by (split; [apply sm_new_spec|constructor]).
  pose proof (list_Add_spec u64 ex_cost (fun _ => 21) (fun _ => 1) _ _ 2 10 H0) as (_ & l1 & E1 & H1 & _).
  pose proof (list_Add_spec u64 ex_cost (fun _ => 21) (fun _ => 1) _ _ 0 10 H1) as Hs. 
  assert (l1 = (Add u64 (fun _ => 1) ex_cost (fun _ => 21) (newTxList true) 2 10).2) as -> by (by rewrite E1).
  destruct Hs as (_ & l2 & E2 & H2 & _).
  pose proof (list_Add_spec u64 ex_cost (fun _ => 21) (fun _ => 1) _ _ 1 10 H2) as Hs.
  set (l1 := (Add u64 (fun _ => 1) ex_cost (fun _ => 21) (newTxList true) 2 10).2) in *.
  assert (l2 = (Add u64 (fun _ => 1) ex_cost (fun _ => 21) l1 0 10).2) as -> by (by rewrite E2).
  destruct Hs as (_ & l3 & E3 & H3 & _). unfold ex_list. cbn [foldl]. fold l1. rewrite E3. exact H3.
Qed.

Example filter_keeps_payable_witness :
  tl_holds u64 ex_cost (fun _ => 21) ex_list [0; 1; 2] /\
  exists removed invalids tl' l', Filter u64 ex_cost (fun _ => 21) ex_range ex_list 30 100 = (removed, invalids, tl') /\
    removed ≡ₚ filter (fun tx => over ex_cost (fun _ => 21) 30 100 tx = true) [0; 1; 2] /\ removed ++ invalids ++ l' ≡ₚ [0; 1; 2] /\
    tl_holds u64 ex_cost (fun _ => 21) tl' l' /\ Forall (fun tx => ex_cost tx <= 30 /\ 21 <= 100) l' /\
    (if strict ex_list then l' `prefix_of` [0; 1; 2] /\ (gapless u64 [0; 1; 2] -> gapless u64 l') else invalids = []).
Proof.
  split; [exact ex_list_holds|].
  exact (filter_keeps_payable u64 ex_cost (fun _ => 21) ex_range ex_u64 ex_range_perm ex_list [0; 1; 2] 30 100 ex_list_holds).
Defined.
End Example.
