(* ===== verification/TxPriced.v ===== *)
(** The pool's index of transactions by hash and by price (src/evmcore/tx_pool.go: txLookup, accountSet;
    src/evmcore/tx_list.go: txPricedList; src/evmcore/tx_noncer.go), with the contracts of the price index: the
    cheapest transactions are the ones that leave a full pool.

    The price index is a heap with stale entries: a transaction that left the pool stays in it until it comes to
    the top or until the index is rebuilt.  types.Sender is go-ethereum's: [Sender], None for an error. *)
From stdpp Require Import gmap list sorting.
From S2P Require Import Prelude Heap.

Section Priced.
Context {Tx Hash Addr : Type} `{Countable Hash, Countable Addr}.
Context (TxHash : Tx -> Hash) (Nonce GasPrice : Tx -> Z) (Sender : Tx -> option Addr) (rangeAll : gmap Hash Tx -> list (Hash * Tx)) (rangeSet : gset Addr -> list Addr).

(** * accountSet *)

Record accountSet := { accounts : gset Addr; as_cache : option (list Addr) }.

Definition newAccountSet (addrs : list Addr) : accountSet :=
  foldl (fun s addr => {| accounts := {[addr]} ∪ accounts s; as_cache := None |}) {| accounts := ∅; as_cache := None |} addrs.
Definition as_contains (s : accountSet) (addr : Addr) : bool := bool_decide (addr ∈ accounts s).
Definition containsTx (s : accountSet) (tx : Tx) : bool := match Sender tx with Some addr => as_contains s addr | None => false end.
Definition as_add (s : accountSet) (addr : Addr) : accountSet := {| accounts := {[addr]} ∪ accounts s; as_cache := None |}.
Definition addTx (s : accountSet) (tx : Tx) : accountSet := match Sender tx with Some addr => as_add s addr | None => s end.
Definition as_flatten (s : accountSet) : list Addr * accountSet :=
  match as_cache s with
  | Some c => (c, s)
  | None => (rangeSet (accounts s), {| accounts := accounts s; as_cache := Some (rangeSet (accounts s)) |})
  end.
Definition as_merge (s other : accountSet) : accountSet := {| accounts := accounts other ∪ accounts s; as_cache := None |}.

(** * txLookup *)

Abbreviation txLookup := (gmap Hash Tx).
Definition lookup_Get (all : txLookup) (h : Hash) : option Tx := all !! h.
Definition lookup_Count (all : txLookup) : Z := Z.of_nat (size all).
Definition lookup_Add (all : txLookup) (tx : Tx) : txLookup := <[TxHash tx := tx]> all.
Definition lookup_Remove (all : txLookup) (h : Hash) : txLookup := delete h all.

(** * txNoncer: nonces over the state's *)

Record txNoncer := { fallback : Addr -> Z; nonces : gmap Addr Z }.
Definition newTxNoncer (statedb : Addr -> Z) : txNoncer := {| fallback := statedb; nonces := ∅ |}.
Definition noncer_load (n : txNoncer) (addr : Addr) : txNoncer :=
  match nonces n !! addr with
  | Some _ => n
  | None => {| fallback := fallback n; nonces := <[addr := fallback n addr]> (nonces n) |}
  end.
(** The nonce of an account, with the entry that the read leaves. *)
Definition noncer_get (n : txNoncer) (addr : Addr) : Z * txNoncer :=
  let n' := noncer_load n addr in (default 0 (nonces n' !! addr), n').
Definition noncer_set (n : txNoncer) (addr : Addr) (nonce : Z) : txNoncer :=
  {| fallback := fallback n; nonces := <[addr := nonce]> (nonces n) |}.
Definition setIfLower (n : txNoncer) (addr : Addr) (nonce : Z) : txNoncer :=
  let n' := noncer_load n addr in
  if default 0 (nonces n' !! addr) <=? nonce then n' else noncer_set n' addr nonce.

(** * txPricedList *)

Definition priceLess (a b : Tx) : bool :=
  match GasPrice a ?= GasPrice b with
  | Lt => true
  | Gt => false
  | Eq => Nonce b <? Nonce a
  end.

Record txPricedList := { pl_items : list Tx; stales : Z }.
Definition newTxPricedList : txPricedList := {| pl_items := []; stales := 0 |}.

Definition pl_Put (l : txPricedList) (tx : Tx) : txPricedList :=
  {| pl_items := heap_Push priceLess (pl_items l) tx; stales := stales l |}.

Definition pl_Removed (all : txLookup) (l : txPricedList) (count : Z) : txPricedList :=
  let s := stales l + count in
  if s <=? zlen (pl_items l) / 4 then {| pl_items := pl_items l; stales := s |}
  else {| pl_items := heap_Init priceLess (rangeAll all).*2; stales := 0 |}.

Definition push_all (items : list Tx) (save : list Tx) : list Tx := foldl (heap_Push priceLess) items save.

(** The loop of Cap: drop and save are what was taken off the heap. *)
Fixpoint plcap_loop (fuel : nat) (all : txLookup) (local : accountSet) (threshold : Z) (l : txPricedList) (drop save : list Tx) :
  go (txPricedList * list Tx * list Tx) :=
  match pl_items l with
  | [] => Ret (l, drop, save)
  | _ :: _ =>
    match fuel with
    | O => Fault OutOfFuel
    | S fuel =>
      p ← heap_Pop priceLess (pl_items l);
      let '(tx, items) := p in
      match lookup_Get all (TxHash tx) with
      | None => plcap_loop fuel all local threshold {| pl_items := items; stales := stales l - 1 |} drop save
      | Some _ =>
        let l' := {| pl_items := items; stales := stales l |} in
        if threshold <=? GasPrice tx then Ret (l', drop, save ++ [tx])
        else if containsTx local tx then plcap_loop fuel all local threshold l' drop (save ++ [tx])
        else plcap_loop fuel all local threshold l' (drop ++ [tx]) save
      end
    end
  end.

Definition pl_Cap (all : txLookup) (l : txPricedList) (threshold : Z) (local : accountSet) : go (list Tx * txPricedList) :=
  r ← plcap_loop (length (pl_items l)) all local threshold l [] [];
  let '(l', drop, save) := r in
  Ret (drop, {| pl_items := push_all (pl_items l') save; stales := stales l' |}).

(** Discard stale price points if found at the heap start. *)
Fixpoint drop_stale (fuel : nat) (all : txLookup) (l : txPricedList) : go txPricedList :=
  match pl_items l with
  | [] => Ret l
  | head :: _ =>
    match lookup_Get all (TxHash head) with
    | Some _ => Ret l
    | None =>
      match fuel with
      | O => Fault OutOfFuel
      | S fuel => p ← heap_Pop priceLess (pl_items l); drop_stale fuel all {| pl_items := p.2; stales := stales l - 1 |}
      end
    end
  end.

Definition Underpriced (all : txLookup) (l : txPricedList) (tx : Tx) (local : accountSet) : go (bool * txPricedList) :=
  if containsTx local tx then Ret (false, l) else
  l' ← drop_stale (length (pl_items l)) all l;
  match pl_items l' with
  | [] => Ret (false, l')
  | cheapest :: _ => Ret (GasPrice tx <=? GasPrice cheapest, l')
  end.

Fixpoint discard_loop (fuel : nat) (all : txLookup) (local : accountSet) (count : Z) (l : txPricedList) (drop save : list Tx) :
  go (txPricedList * list Tx * list Tx) :=
  match pl_items l with
  | [] => Ret (l, drop, save)
  | _ :: _ =>
    if count <=? 0 then Ret (l, drop, save) else
    match fuel with
    | O => Fault OutOfFuel
    | S fuel =>
      p ← heap_Pop priceLess (pl_items l);
      let '(tx, items) := p in
      match lookup_Get all (TxHash tx) with
      | None => discard_loop fuel all local count {| pl_items := items; stales := stales l - 1 |} drop save
      | Some _ =>
        let l' := {| pl_items := items; stales := stales l |} in
        if containsTx local tx then discard_loop fuel all local count l' drop (save ++ [tx])
        else discard_loop fuel all local (count - 1) l' (drop ++ [tx]) save
      end
    end
  end.

(** make(types.Transactions, 0, count) panics for a negative count. *)
Definition pl_Discard (all : txLookup) (l : txPricedList) (count : Z) (local : accountSet) : go (list Tx * txPricedList) :=
  if count <? 0 then Fault (PanicMsg "makeslice: cap out of range") else
  r ← discard_loop (length (pl_items l)) all local count l [] [];
  let '(l', drop, save) := r in
  Ret (drop, {| pl_items := push_all (pl_items l') save; stales := stales l' |}).

End Priced.

(** * Contracts of the price index *)

Section Contracts.
Context {Tx Hash Addr : Type} `{Countable Hash, Countable Addr}.
Context (TxHash : Tx -> Hash) (Nonce GasPrice : Tx -> Z) (Sender : Tx -> option Addr) (rangeAll : gmap Hash Tx -> list (Hash * Tx)).
Context (rangeAll_perm : forall m, rangeAll m ≡ₚ map_to_list m) (TxHash_inj : Inj eq eq TxHash).
Abbreviation less := (priceLess Nonce GasPrice).
Abbreviation local_tx := (containsTx Sender).

#[global] Instance priceLess_order : WeakOrder less.
Proof.
  split; unfold priceLess; intros a b.
  - rewrite (Z.compare_antisym (GasPrice a) (GasPrice b)). destruct (GasPrice a ?= GasPrice b); cbn; rewrite ?Z.ltb_lt, ?Z.ltb_ge; try done. lia.
  - intros c. destruct (Z.compare_spec (GasPrice b) (GasPrice a)), (Z.compare_spec (GasPrice c) (GasPrice b)), (Z.compare_spec (GasPrice c) (GasPrice a));
      rewrite ?Z.ltb_ge; intros; try done; lia.
Qed.

Lemma less_price (a b : Tx) : less b a = false -> GasPrice a <= GasPrice b.
Proof. unfold priceLess. destruct (Z.compare_spec (GasPrice b) (GasPrice a)); intros; try done; lia. Qed.

(** Every transaction of the pool is in the heap. *)
Definition tracked (all : gmap Hash Tx) (l : txPricedList) : Prop :=
  heap_ordered less (pl_items l) /\ forall h t, all !! h = Some t -> TxHash t = h /\ t ∈ pl_items l.

Lemma push_all_perm (items save : list Tx) : push_all Nonce GasPrice items save ≡ₚ save ++ items.
Proof.
  unfold push_all. revert items. induction save as [|t save IH]; intros items; [done|]. cbn [foldl]. rewrite IH, heap_Push_perm. cbn.
  by rewrite Permutation_middle.
Qed.

Lemma push_all_ordered (items save : list Tx) : heap_ordered less items -> heap_ordered less (push_all Nonce GasPrice items save).
Proof.
  unfold push_all. revert items. induction save as [|t save IH]; intros items Hh; [done|]. cbn [foldl]. apply IH. apply heap_Push_ordered; [apply _|done].
Qed.

Lemma tracked_Put (all : gmap Hash Tx) (l : txPricedList) (tx : Tx) : tracked all l ->
  tracked (lookup_Add TxHash all tx) (pl_Put Nonce GasPrice l tx).
Proof.
  intros [Hh Hall]. split; [apply heap_Push_ordered; [apply _|done]|]. intros h t. unfold lookup_Add, pl_Put. cbn [pl_items]. rewrite heap_Push_perm.
  intros [[<- <-]|[_ Ht]]%lookup_insert_Some; [split; [done|by left]|]. destruct (Hall h t Ht). split; [done|by right].
Qed.

Lemma tracked_sub (all all' : gmap Hash Tx) (l : txPricedList) : tracked all l -> all' ⊆ all -> tracked all' l.
Proof. intros [Hh Hall] Hsub. split; [done|]. intros h t Ht. apply Hall. by eapply lookup_weaken. Qed.

Lemma tracked_Removed (all : gmap Hash Tx) (l : txPricedList) (count : Z) : tracked all l ->
  tracked all (pl_Removed Nonce GasPrice rangeAll all l count).
Proof.
  intros [Hh Hall]. unfold pl_Removed. destruct (_ <=? _); [by split|]. split; cbn [pl_items]; [apply heap_Init_ordered; apply _|].
  intros h t Ht. split; [by apply Hall|]. rewrite heap_Init_perm, rangeAll_perm. apply list_elem_of_fmap. exists (h, t). split; [done|].
  by apply elem_of_map_to_list.
Qed.

Lemma pop_head (x : Tx) (items : list Tx) : heap_ordered less (x :: items) ->
  exists rest, heap_Pop less (x :: items) = Ret (x, rest) /\ items ≡ₚ rest /\ heap_ordered less rest /\
    forall t, t ∈ rest -> less t x = false.
Proof.
  intros Hh. destruct (heap_Pop_spec less (x :: items) x Hh eq_refl) as (rest & Hp & Hperm & Hr). exists rest. split; [done|].
  apply Permutation_cons_inv in Hperm. split; [done|]. split; [done|]. intros t Ht. apply (root_least less (x :: items) x t Hh eq_refl). right. by rewrite Hperm.
Qed.

(** ** Underpriced *)

Lemma drop_stale_runs (all : gmap Hash Tx) (l : txPricedList) (fuel : nat) : tracked all l -> (length (pl_items l) <= fuel)%nat ->
  exists l', drop_stale TxHash Nonce GasPrice fuel all l = Ret l' /\ tracked all l' /\
    match pl_items l' with [] => all = ∅ | t :: _ => is_Some (all !! TxHash t) end.
Proof.
  revert l. induction fuel as [|fuel IH]; intros l [Hh Hall] Hf; destruct (pl_items l) as [|x items] eqn:Hi; cbn in Hf; try lia.
  1,2: (exists l; cbn [drop_stale]; rewrite Hi; split; [done|]; split; [by split; rewrite ?Hi|]; apply map_empty; intros h; apply eq_None_not_Some;
     intros [t Ht]; destruct (Hall h t Ht) as [_ Hin]; by apply not_elem_of_nil in Hin).
  cbn [drop_stale]. rewrite Hi. unfold lookup_Get. destruct (all !! TxHash x) as [t|] eqn:Hx.
  - exists l. split; [done|]. split; [split; by rewrite ?Hi|]. by rewrite Hi.
  - destruct (pop_head x items Hh) as (rest & -> & Hperm & Hr & _). cbn [mbind go_bind snd].
    apply IH; [|cbn [pl_items]; rewrite <-Hperm; lia]. split; [done|]. intros h t Ht. destruct (Hall h t Ht) as [<- Hin]. split; [done|].
    apply elem_of_cons in Hin as [->|Hin]; [congruence|]. cbn. by rewrite <-Hperm.
Qed.

Lemma Underpriced_spec (all : gmap Hash Tx) (l : txPricedList) (tx : Tx) (local : accountSet) : tracked all l ->
  exists b l', Underpriced TxHash Nonce GasPrice Sender all l tx local = Ret (b, l') /\ tracked all l' /\
    (b = true <-> local_tx local tx = false /\ all <> ∅ /\ forall h t, all !! h = Some t -> GasPrice tx <= GasPrice t).
Proof.
  intros Ht. unfold Underpriced. destruct (local_tx local tx) eqn:Hloc; [exists false, l; by split_and!; [..|split; [|intros []]]|].
  destruct (drop_stale_runs all l _ Ht (le_n _)) as (l' & -> & Ht' & Hhd). cbn [mbind go_bind].
  destruct (pl_items l') as [|x items] eqn:Hi.
  - exists false, l'. split; [done|]. split; [done|]. split; [done|]. by intros (_ & Hne & _).
  - exists (GasPrice tx <=? GasPrice x), l'. split; [done|]. split; [done|]. rewrite Z.leb_le. destruct Hhd as [x' Hx']. destruct Ht' as [Hh' Hall'].
    assert (x' = x) as -> by (apply (inj TxHash); by apply (Hall' _ _ Hx')). split.
    + intros Hle. split; [done|]. split; [intros ->; by rewrite lookup_empty in Hx'|]. intros h t Hht. destruct (Hall' h t Hht) as [_ Hin].
      pose proof (less_price x t (root_least less (pl_items l') x t Hh' ltac:(by rewrite Hi) Hin)). lia.
    + intros (_ & _ & Hle). by apply (Hle _ _ Hx').
Qed.

(** ** Discard and Cap *)

Definition live (all : gmap Hash Tx) (t : Tx) : Prop := all !! TxHash t = Some t.

(** What a loop that takes the heap's items in order has done: [gone] were stale. *)
Definition split_items (all : gmap Hash Tx) (items gone drop save rest : list Tx) : Prop :=
  items ≡ₚ gone ++ drop ++ save ++ rest /\ heap_ordered less rest /\ Forall (fun t => all !! TxHash t = None) gone.

Lemma discard_loop_runs (all : gmap Hash Tx) (local : accountSet) (fuel : nat) (count : Z) (l : txPricedList) (drop save : list Tx) :
  heap_ordered less (pl_items l) -> (forall h t, all !! h = Some t -> TxHash t = h) -> (length (pl_items l) <= fuel)%nat -> 0 <= count ->
  exists l' gone dr sv, discard_loop TxHash Nonce GasPrice Sender fuel all local count l drop save = Ret (l', drop ++ dr, save ++ sv) /\
    split_items all (pl_items l) gone dr sv (pl_items l') /\
    Forall (fun t => live all t /\ local_tx local t = false) dr /\ Forall (fun t => local_tx local t = true) sv /\
    zlen dr <= count /\ (zlen dr = count \/ pl_items l' = []) /\ (forall d t, d ∈ dr -> t ∈ pl_items l' -> less t d = false).
Proof.
  intros Hh Hkey. revert count l drop save Hh. induction fuel as [|fuel IH]; intros count l drop save Hh Hf Hc;
    destruct (pl_items l) as [|x items] eqn:Hi; cbn in Hf; try lia.
  1,2: (exists l, [], [], []; cbn [discard_loop]; rewrite Hi, !app_nil_r; split; [done|]; split; [by split; [|split; rewrite ?Hi]|];
     do 2 (split; [constructor|]); split; [done|]; split; [by right|]; intros d t Hd; by apply not_elem_of_nil in Hd).
  cbn [discard_loop]. rewrite Hi. destruct (Z.leb_spec count 0) as [Hz|Hz].
  { exists l, [], [], []. rewrite !app_nil_r, Hi. split; [done|]. split; [by split; [|split]|]. do 2 (split; [constructor|]).
    split; [unfold zlen; cbn; lia|]. split; [left; unfold zlen; cbn; lia|]. intros d t Hd. by apply not_elem_of_nil in Hd. }
  destruct (pop_head x items Hh) as (rest & -> & Hperm & Hr & Hmin). cbn [mbind go_bind]. unfold lookup_Get.
  destruct (all !! TxHash x) as [t|] eqn:Hx.
  - assert (t = x) as -> by (apply (inj TxHash); by apply Hkey). destruct (local_tx local x) eqn:Hloc.
    + destruct (IH count {| pl_items := rest; stales := stales l |} drop (save ++ [x])) as (l' & gone & dr & sv & Hrun & (Hp & Ho & Hg) & Hd & Hs & Hn & Hlast & Hless);
        [done|cbn; rewrite <-Hperm; lia|done|]. exists l', gone, dr, (x :: sv). rewrite Hrun, <-(assoc_L (++)). split; [done|].
      split; [split; [|done]|]. { rewrite Hperm. cbn in Hp. rewrite Hp. cbn. by rewrite <-!Permutation_middle. }
      split; [done|]. split; [by constructor|]. done.
    + destruct (IH (count - 1) {| pl_items := rest; stales := stales l |} (drop ++ [x]) save) as (l' & gone & dr & sv & Hrun & (Hp & Ho & Hg) & Hd & Hs & Hn & Hlast & Hless);
        [done|cbn; rewrite <-Hperm; lia|lia|]. exists l', gone, (x :: dr), sv. rewrite Hrun, <-(assoc_L (++)). split; [done|].
      split; [split; [|done]|]. { rewrite Hperm. cbn in Hp. rewrite Hp. cbn. by rewrite <-!Permutation_middle. }
      split; [by constructor|]. split; [done|]. unfold zlen in *. cbn [length]. split; [lia|]. split; [destruct Hlast; [left; lia|by right]|].
      intros d t [->|Hdd]%elem_of_cons Ht; [|by apply Hless]. apply Hmin. cbn in Hp. rewrite Hp, !elem_of_app. by right; right; right.
  - destruct (IH count {| pl_items := rest; stales := stales l - 1 |} drop save) as (l' & gone & dr & sv & Hrun & (Hp & Ho & Hg) & Hrest);
      [done|cbn; rewrite <-Hperm; lia|done|]. exists l', (x :: gone), dr, sv. rewrite Hrun. split; [done|]. split; [|done].
    split; [rewrite Hperm; cbn in Hp; by rewrite Hp|]. split; [done|by constructor].
Qed.

Lemma lookup_remove_all (all : gmap Hash Tx) (drop : list Tx) (h : Hash) (t : Tx) :
  foldl (fun m d => lookup_Remove m (TxHash d)) all drop !! h = Some t <-> all !! h = Some t /\ h ∉ TxHash <$> drop.
Proof.
  revert all. induction drop as [|d drop IH]; intros all; cbn [foldl fmap list_fmap]; [split; [intros; split; [done|apply not_elem_of_nil]|by intros [? _]]|].
  rewrite IH. unfold lookup_Remove. rewrite lookup_delete_Some, not_elem_of_cons.
  split; [intros [[? ?] ?]; split; [done|split; [congruence|done]]|intros [? [? ?]]; split; [split; [congruence|done]|done]].
Qed.

(** What stays tracked once the dropped transactions leave the pool. *)
Lemma tracked_dropped (all : gmap Hash Tx) (l l' : txPricedList) (gone drop save : list Tx) : tracked all l ->
  split_items all (pl_items l) gone drop save (pl_items l') ->
  tracked (foldl (fun m d => lookup_Remove m (TxHash d)) all drop) {| pl_items := push_all Nonce GasPrice (pl_items l') save; stales := stales l' |}.
Proof.
  intros [Hh Hall] (Hp & Ho & Hg). split; [by apply push_all_ordered|]. intros h t [Ht Hnd]%lookup_remove_all.
  destruct (Hall h t Ht) as [<- Hin]. split; [done|]. cbn [pl_items]. rewrite push_all_perm. rewrite Hp, !elem_of_app in Hin. rewrite elem_of_app.
  destruct Hin as [Hin|[Hin|Hin]]; [|by destruct Hnd; apply list_elem_of_fmap_2|done].
  rewrite Forall_forall in Hg. specialize (Hg t Hin). cbn in Hg. congruence.
Qed.

(** Which of the pool's transactions a loop has not taken off the heap. *)
Lemma split_rest (all : gmap Hash Tx) (l : txPricedList) (gone drop save rest : list Tx) (t : Tx) : tracked all l -> live all t ->
  split_items all (pl_items l) gone drop save rest -> t ∈ drop \/ t ∈ save \/ t ∈ rest.
Proof.
  intros [Hh Hall] Hlive (Hp & Ho & Hg). destruct (Hall _ _ Hlive) as [_ Hin]. rewrite Hp, !elem_of_app in Hin. destruct Hin as [Hin|Hin]; [|tauto].
  rewrite Forall_forall in Hg. specialize (Hg t Hin). cbn in Hg. unfold live in Hlive. congruence.
Qed.

Lemma Discard_spec (all : gmap Hash Tx) (l : txPricedList) (count : Z) (local : accountSet) : tracked all l -> 0 <= count ->
  exists drop l', pl_Discard TxHash Nonce GasPrice Sender all l count local = Ret (drop, l') /\
    tracked (foldl (fun m d => lookup_Remove m (TxHash d)) all drop) l' /\
    Forall (fun t => live all t /\ local_tx local t = false) drop /\ zlen drop <= count /\
    (forall d t, d ∈ drop -> live all t -> local_tx local t = false -> t ∉ drop -> GasPrice d <= GasPrice t) /\
    (zlen drop = count \/ forall t, live all t -> local_tx local t = false -> t ∈ drop).
Proof.
  intros Ht Hc. unfold pl_Discard. rewrite (proj2 (Z.ltb_ge _ _)) by lia.
  destruct (discard_loop_runs all local _ count l [] [] (proj1 Ht) (fun h t Hl => proj1 (proj2 Ht h t Hl)) (le_n _) Hc)
    as (l' & gone & dr & sv & -> & Hs & Hd & Hsv & Hn & Hlast & Hless).
  cbn [mbind go_bind]. rewrite !app_nil_l. eexists _, _. split; [reflexivity|]. split; [by eapply tracked_dropped|]. split; [done|]. split; [done|].
  assert (forall t, live all t -> local_tx local t = false -> t ∈ dr \/ t ∈ pl_items l') as Hrest.
  { intros t Hlive Hnl. destruct (split_rest all l gone dr sv _ t Ht Hlive Hs) as [Hin|[Hin|Hin]]; [by left| |by right].
    rewrite Forall_forall in Hsv. specialize (Hsv t Hin). cbn in Hsv. congruence. }
  split.
  - intros d t Hdd Hlive Hnl Hnd. destruct (Hrest t Hlive Hnl) as [Hin|Hin]; [done|]. by apply less_price, Hless.
  - destruct Hlast as [Hl|Hl]; [by left|right]. intros t Hlive Hnl. destruct (Hrest t Hlive Hnl) as [Hin|Hin]; [done|].
    rewrite Hl in Hin. by apply not_elem_of_nil in Hin.
Qed.

Lemma plcap_loop_runs (all : gmap Hash Tx) (local : accountSet) (fuel : nat) (threshold : Z) (l : txPricedList) (drop save : list Tx) :
  heap_ordered less (pl_items l) -> (forall h t, all !! h = Some t -> TxHash t = h) -> (length (pl_items l) <= fuel)%nat ->
  exists l' gone dr sv, plcap_loop TxHash Nonce GasPrice Sender fuel all local threshold l drop save = Ret (l', drop ++ dr, save ++ sv) /\
    split_items all (pl_items l) gone dr sv (pl_items l') /\
    Forall (fun t => live all t /\ local_tx local t = false /\ GasPrice t < threshold) dr /\
    Forall (fun t => local_tx local t = true \/ threshold <= GasPrice t) sv /\ Forall (fun t => threshold <= GasPrice t) (pl_items l').
Proof.
  intros Hh Hkey. revert l drop save Hh. induction fuel as [|fuel IH]; intros l drop save Hh Hf;
    destruct (pl_items l) as [|x items] eqn:Hi; cbn in Hf; try lia.
  1,2: (exists l, [], [], []; cbn [plcap_loop]; rewrite Hi, !app_nil_r; split; [done|]; split; [by split; [|split; rewrite ?Hi]|]; by repeat constructor).
  cbn [plcap_loop]. rewrite Hi. destruct (pop_head x items Hh) as (rest & -> & Hperm & Hr & Hmin). cbn [mbind go_bind]. unfold lookup_Get.
  destruct (all !! TxHash x) as [t|] eqn:Hx.
  - assert (t = x) as -> by (apply (inj TxHash); by apply Hkey). destruct (Z.leb_spec threshold (GasPrice x)) as [Hge|Hlt].
    { exists {| pl_items := rest; stales := stales l |}, [], [], [x]. rewrite app_nil_r. split; [done|]. split; [split; [by rewrite Hperm|by split; [|constructor]]|].
      split; [constructor|]. split; [constructor; [by right|constructor]|]. apply Forall_forall. intros t Ht. cbn in Ht. pose proof (less_price x t (Hmin t Ht)). lia. }
    destruct (local_tx local x) eqn:Hloc.
    + destruct (IH {| pl_items := rest; stales := stales l |} drop (save ++ [x])) as (l' & gone & dr & sv & Hrun & (Hp & Ho & Hg) & Hd & Hs & Hrest);
        [done|cbn; rewrite <-Hperm; lia|]. exists l', gone, dr, (x :: sv). rewrite Hrun, <-(assoc_L (++)). split; [done|].
      split; [split; [|done]|]. { rewrite Hperm. cbn in Hp. rewrite Hp. cbn. by rewrite <-!Permutation_middle. }
      split; [done|]. split; [|done]. constructor; [by left|done].
    + destruct (IH {| pl_items := rest; stales := stales l |} (drop ++ [x]) save) as (l' & gone & dr & sv & Hrun & (Hp & Ho & Hg) & Hd & Hs & Hrest);
        [done|cbn; rewrite <-Hperm; lia|]. exists l', gone, (x :: dr), sv. rewrite Hrun, <-(assoc_L (++)). split; [done|].
      split; [split; [|done]|]. { rewrite Hperm. cbn in Hp. rewrite Hp. cbn. by rewrite <-!Permutation_middle. }
      split; [|done]. by constructor.
  - destruct (IH {| pl_items := rest; stales := stales l - 1 |} drop save) as (l' & gone & dr & sv & Hrun & (Hp & Ho & Hg) & Hrest);
      [done|cbn; rewrite <-Hperm; lia|]. exists l', (x :: gone), dr, sv. rewrite Hrun. split; [done|]. split; [|done].
    split; [rewrite Hperm; cbn in Hp; by rewrite Hp|]. split; [done|by constructor].
Qed.

(** Cap drops exactly the pool's transactions below the threshold that are not local. *)
Lemma plCap_spec (all : gmap Hash Tx) (l : txPricedList) (threshold : Z) (local : accountSet) : tracked all l ->
  exists drop l', pl_Cap TxHash Nonce GasPrice Sender all l threshold local = Ret (drop, l') /\
    tracked (foldl (fun m d => lookup_Remove m (TxHash d)) all drop) l' /\
    forall t, t ∈ drop <-> live all t /\ local_tx local t = false /\ GasPrice t < threshold.
Proof.
  intros Ht. unfold pl_Cap. destruct (plcap_loop_runs all local _ threshold l [] [] (proj1 Ht) (fun h t Hl => proj1 (proj2 Ht h t Hl)) (le_n _))
    as (l' & gone & dr & sv & -> & Hs & Hd & Hsv & Hlast).
  cbn [mbind go_bind]. rewrite !app_nil_l. eexists _, _. split; [reflexivity|]. split; [by eapply tracked_dropped|]. rewrite Forall_forall in Hd, Hsv, Hlast.
  intros t. split; [apply Hd|]. intros (Hlive & Hnl & Hlt). destruct (split_rest all l gone dr sv _ t Ht Hlive Hs) as [Hin|[Hin|Hin]]; [done|..].
  - destruct (Hsv t Hin) as [?|?]; [congruence|lia].
  - specialize (Hlast t Hin). cbn in Hlast. lia.
Qed.

End Contracts.
