(* ===== verification/TxPool.v ===== *)
(** The transaction pool (src/evmcore/tx_pool.go): validation, the pending and the queued lists of each account,
    the promotion of executable transactions and the demotion of those that no longer are, the limits of the
    pool, and a run of the reorganisation that a new block or new transactions ask for.

    Parameters: a transaction with what the pool reads of it ([TxReads], go-ethereum's), the order in which Go ranges over a map,
    the order of the priority queue of go-ethereum (prque), the chain that the pool reads ([stateReader]), and
    types.TxDifference.  The lists are pointers in Go: a list is read from its map, changed, and stored back
    before anything else reads it.  Metrics, tracing and logging are left out; the journal is the list of what was written
    to it. *)
From stdpp Require Import gmap list sorting.
From S2P Require Import Prelude Bytes Event EventCheck Heap TxList TxPriced.

(** What the pool reads of a transaction. *)
Class TxReads (Tx Hash Addr : Type) := {
  TxHash : Tx -> Hash; Nonce : Tx -> Z; GasPrice : Tx -> Z; Cost : Tx -> Z; Gas : Tx -> Z;
  Value : Tx -> Z; Size : Tx -> Z; Data : Tx -> bytes; ToNil : Tx -> bool; Sender : Tx -> option Addr }.

Inductive txError :=
  | KnownTransaction | ErrOversizedData | ErrNegativeValue | ErrGasLimit | ErrInvalidSender | ErrUnderpriced
  | ErrNonceTooLow | ErrInsufficientFunds | ErrIntrinsicGas | ErrIntrinsic (e : check_error) | ErrReplaceUnderpriced.

Inductive TxStatus := TxStatusUnknown | TxStatusQueued | TxStatusPending | TxStatusIncluded.

Record TxPoolConfig := mkTxPoolConfig {
  NoLocals : bool; Journal : bool; Rejournal : Z; PriceLimit : Z; PriceBump : Z;
  AccountSlots : Z; GlobalSlots : Z; AccountQueue : Z; GlobalQueue : Z; Lifetime : Z }.

Definition Second : Z := 1000000000.
Definition Hour : Z := 3600 * Second.

(** Durations in nanoseconds; Journal is whether the path is not empty. *)
Definition DefaultTxPoolConfig : TxPoolConfig :=
  mkTxPoolConfig false true Hour MinGasPrice 10 16 4096 64 1024 (3 * Hour).

Definition FakeTxPoolConfig : TxPoolConfig :=
  let c := DefaultTxPoolConfig in
  mkTxPoolConfig (NoLocals c) false (Rejournal c) (PriceLimit c) (PriceBump c) (AccountSlots c) (GlobalSlots c) (AccountQueue c) (GlobalQueue c) (Lifetime c).

Definition sanitize (c : TxPoolConfig) : TxPoolConfig :=
  let gold := DefaultTxPoolConfig in
  let fix_ v least g := if v <? least then g else v in
  mkTxPoolConfig (NoLocals c) (Journal c) (fix_ (Rejournal c) Second Second) (fix_ (PriceLimit c) 1 (PriceLimit gold)) (fix_ (PriceBump c) 1 (PriceBump gold))
    (fix_ (AccountSlots c) 1 (AccountSlots gold)) (fix_ (GlobalSlots c) 1 (GlobalSlots gold)) (fix_ (AccountQueue c) 1 (AccountQueue gold))
    (fix_ (GlobalQueue c) 1 (GlobalQueue gold)) (fix_ (Lifetime c) 1 (Lifetime gold)).

Section TxPool.
Context {Tx Hash Addr : Type} `{Countable Hash, Countable Addr} {reads : TxReads Tx Hash Addr}.
Context (rangeTxs : gmap Z Tx -> list (Z * Tx)) (rangeAll : gmap Hash Tx -> list (Hash * Tx)) (rangeSet : gset Addr -> list Addr).
Abbreviation txList := (TxList.txList (Tx := Tx)).
Abbreviation txSortedMap := (TxList.txSortedMap (Tx := Tx)).
Context (rangeLists : gmap Addr txList -> list (Addr * txList)) (rangeEvents : gmap Addr txSortedMap -> list (Addr * txSortedMap)).
Context (prque : list (Addr * Z) -> list Addr) (eth : EthParams) (zeroAddr : Addr).

(** The account state of a block, and the heads the pool hears of. *)
Record StateDB := { GetNonce : Addr -> Z; GetBalance : Addr -> Z }.

Record EvmHeader := { hd_Hash : Hash; hd_ParentHash : Hash; hd_Number : Z; hd_Root : Hash; hd_GasLimit : Z }.
Record EvmBlock := { Header : EvmHeader; Transactions : list Tx }.

Record stateReader := {
  CurrentBlock : EvmBlock;
  GetBlock : Hash -> Z -> option EvmBlock;
  StateAt : Hash -> StateDB }.

Context (chain : stateReader) (TxDifference : list Tx -> list Tx -> list Tx).

Record TxPool := mkTxPool {
  config : TxPoolConfig;
  gasPrice : Z;
  currentState : StateDB;
  pendingNonces : txNoncer (Addr := Addr);
  currentMaxGas : Z;
  locals : accountSet (Addr := Addr);
  journal : option (list Tx);
  pending : gmap Addr txList;
  queue : gmap Addr txList;
  beats : gmap Addr Z;
  all : gmap Hash Tx;
  priced : txPricedList (Tx := Tx);
  txEvents : list Tx   (* what was sent to queueTxEventCh *)
}.

Definition set_gasPrice (p : TxPool) x := mkTxPool (config p) x (currentState p) (pendingNonces p) (currentMaxGas p) (locals p) (journal p) (pending p) (queue p) (beats p) (all p) (priced p) (txEvents p).
Definition set_head (p : TxPool) st n g := mkTxPool (config p) (gasPrice p) st n g (locals p) (journal p) (pending p) (queue p) (beats p) (all p) (priced p) (txEvents p).
Definition set_pendingNonces (p : TxPool) x := mkTxPool (config p) (gasPrice p) (currentState p) x (currentMaxGas p) (locals p) (journal p) (pending p) (queue p) (beats p) (all p) (priced p) (txEvents p).
Definition set_locals (p : TxPool) x := mkTxPool (config p) (gasPrice p) (currentState p) (pendingNonces p) (currentMaxGas p) x (journal p) (pending p) (queue p) (beats p) (all p) (priced p) (txEvents p).
Definition set_journal (p : TxPool) x := mkTxPool (config p) (gasPrice p) (currentState p) (pendingNonces p) (currentMaxGas p) (locals p) x (pending p) (queue p) (beats p) (all p) (priced p) (txEvents p).
Definition set_pending (p : TxPool) x := mkTxPool (config p) (gasPrice p) (currentState p) (pendingNonces p) (currentMaxGas p) (locals p) (journal p) x (queue p) (beats p) (all p) (priced p) (txEvents p).
Definition set_queue (p : TxPool) x := mkTxPool (config p) (gasPrice p) (currentState p) (pendingNonces p) (currentMaxGas p) (locals p) (journal p) (pending p) x (beats p) (all p) (priced p) (txEvents p).
Definition set_beats (p : TxPool) x := mkTxPool (config p) (gasPrice p) (currentState p) (pendingNonces p) (currentMaxGas p) (locals p) (journal p) (pending p) (queue p) x (all p) (priced p) (txEvents p).
Definition set_index (p : TxPool) a pr := mkTxPool (config p) (gasPrice p) (currentState p) (pendingNonces p) (currentMaxGas p) (locals p) (journal p) (pending p) (queue p) (beats p) a pr (txEvents p).
Definition set_txEvents (p : TxPool) x := mkTxPool (config p) (gasPrice p) (currentState p) (pendingNonces p) (currentMaxGas p) (locals p) (journal p) (pending p) (queue p) (beats p) (all p) (priced p) x.

(** The calls on the indexes. *)
Definition all_Add (p : TxPool) (tx : Tx) := set_index p (lookup_Add TxHash (all p) tx) (priced p).
Definition all_Remove (p : TxPool) (h : Hash) := set_index p (lookup_Remove (all p) h) (priced p).
Definition priced_Put (p : TxPool) (tx : Tx) := set_index p (all p) (pl_Put Nonce GasPrice (priced p) tx).
Definition priced_Removed (p : TxPool) (n : Z) := set_index p (all p) (pl_Removed Nonce GasPrice rangeAll (all p) (priced p) n).

(** from, _ := types.Sender(pool.signer, tx) *)
Definition sender (tx : Tx) : Addr := default zeroAddr (Sender tx).

Definition list_Add (l : txList) (tx : Tx) (bump : Z) := Add Nonce GasPrice Cost Gas l tx bump.
Definition list_Filter (l : txList) (cost gas : Z) := Filter Nonce Cost Gas rangeTxs l cost gas.
Definition list_Remove (l : txList) (tx : Tx) := Remove Nonce rangeTxs l tx.
Definition list_Flatten (l : txList) := Flatten Nonce rangeTxs l.

(** Ranging over transactions whose methods are called: a nil one panics. *)
Fixpoint for_txs {S} (f : S -> Tx -> go S) (s : S) (l : list (option Tx)) : go S :=
  match l with
  | [] => Ret s
  | None :: _ => Fault NilDereference
  | Some tx :: l => s' ← f s tx; for_txs f s' l
  end.

(** * Validation *)

Definition validateTx (p : TxPool) (tx : Tx) (local : bool) : option txError :=
  if 32 * 1024 <? Size tx then Some ErrOversizedData else
  if Value tx <? 0 then Some ErrNegativeValue else
  if currentMaxGas p <? Gas tx then Some ErrGasLimit else
  match Sender tx with
  | None => Some ErrInvalidSender
  | Some from =>
    let local := local || as_contains (locals p) from in
    if negb local && (GasPrice tx <? gasPrice p) then Some ErrUnderpriced else
    if (MinGasPrice <=? gasPrice p) && (GasPrice tx <? MinGasPrice) then Some ErrUnderpriced else
    if Nonce tx <? GetNonce (currentState p) from then Some ErrNonceTooLow else
    if GetBalance (currentState p) from <? Cost tx then Some ErrInsufficientFunds else
    match IntrinsicGas eth (Data tx) (ToNil tx) with
    | inl e => Some (ErrIntrinsic e)
    | inr intrGas => if Gas tx <? intrGas then Some ErrIntrinsicGas else None
    end
  end.

(** * Queueing, promotion and removal *)

Definition journalTx (p : TxPool) (from : Addr) (tx : Tx) : TxPool :=
  match journal p with
  | Some j => if as_contains (locals p) from then set_journal p (Some (j ++ [tx])) else p
  | None => p
  end.

Definition enqueueTx (p : TxPool) (hash : Hash) (tx : Tx) : bool * option txError * TxPool :=
  let from := sender tx in
  let '(inserted, old, l) := list_Add (default (newTxList false) (queue p !! from)) tx (PriceBump (config p)) in
  let p := set_queue p (<[from := l]> (queue p)) in
  if negb inserted then (false, Some ErrReplaceUnderpriced, p) else
  let p := match old with Some o => priced_Removed (all_Remove p (TxHash o)) 1 | None => p end in
  let p := match lookup_Get (all p) hash with None => priced_Put (all_Add p tx) tx | Some _ => p end in
  (bool_decide (is_Some old), None, p).

Definition promoteTx (now : Z) (p : TxPool) (addr : Addr) (hash : Hash) (tx : Tx) : bool * TxPool :=
  let '(inserted, old, l) := list_Add (default (newTxList true) (pending p !! addr)) tx (PriceBump (config p)) in
  let p := set_pending p (<[addr := l]> (pending p)) in
  if negb inserted then (false, priced_Removed (all_Remove p hash) 1) else
  let p := match old with Some o => priced_Removed (all_Remove p (TxHash o)) 1 | None => p end in
  let p := match lookup_Get (all p) hash with None => priced_Put (all_Add p tx) tx | Some _ => p end in
  let p := set_beats p (<[addr := now]> (beats p)) in
  (true, set_pendingNonces p (noncer_set (pendingNonces p) addr (u64 (Nonce tx + 1)))).

Definition enqueue_all (p : TxPool) (txs : list Tx) : TxPool := foldl (fun p tx => (enqueueTx p (TxHash tx) tx).2) p txs.

Definition removeTx (p : TxPool) (hash : Hash) (outofbound : bool) : go TxPool :=
  match lookup_Get (all p) hash with
  | None => Ret p
  | Some tx =>
    let addr := sender tx in
    let p := all_Remove p hash in
    let p := if outofbound then priced_Removed p 1 else p in
    r ← match pending p !! addr with
        | Some l =>
          r ← list_Remove l tx;
          let '(removed, invalids, l') := r in
          if removed : bool then
            let p := set_pending p (<[addr := l']> (pending p)) in
            let p := if Empty l' then set_beats (set_pending p (delete addr (pending p))) (delete addr (beats p)) else p in
            let p := enqueue_all p invalids in
            Ret (true, set_pendingNonces p (setIfLower (pendingNonces p) addr (Nonce tx)))
          else Ret (false, p)
        | None => Ret (false, p)
        end;
    let '(gone, p) := r in
    if gone : bool then Ret p else
    match queue p !! addr with
    | Some l =>
      r ← list_Remove l tx;
      let '(_, _, l') := r in
      let p := set_queue p (<[addr := l']> (queue p)) in
      Ret (if Empty l' then set_queue p (delete addr (queue p)) else p)
    | None => Ret p
    end
  end.

Definition remove_all (p : TxPool) (txs : list Tx) (outofbound : bool) : go TxPool :=
  go_fold (fun p tx => removeTx p (TxHash tx) outofbound) p txs.

(** If the pool is full, room for a transaction that is not underpriced. *)
Definition make_room (p : TxPool) (tx : Tx) (local : bool) : go (bool * TxPool) :=
  let limit := u64 (GlobalSlots (config p) + GlobalQueue (config p)) in
  if limit <=? lookup_Count (all p) then
    u ← (if local then Ret (false, priced p) else Underpriced TxHash Nonce GasPrice Sender (all p) (priced p) tx (locals p));
    let p := set_index p (all p) u.2 in
    if u.1 : bool then Ret (true, p) else
    d ← pl_Discard TxHash Nonce GasPrice Sender (all p) (priced p) (lookup_Count (all p) - i64 (u64 (limit - 1))) (locals p);
    p ← remove_all (set_index p (all p) d.2) d.1 false;
    Ret (false, p)
  else Ret (false, p).

Definition add (p : TxPool) (tx : Tx) (local : bool) : go (bool * option txError * TxPool) :=
  let hash := TxHash tx in
  match lookup_Get (all p) hash with
  | Some _ => Ret (false, Some KnownTransaction, p)
  | None =>
    match validateTx p tx local with
    | Some err => Ret (false, Some err, p)
    | None =>
      r ← make_room p tx local;
      let '(underpriced, p) := r in
      if underpriced : bool then Ret (false, Some ErrUnderpriced, p) else
      let from := sender tx in
      match (match pending p !! from with Some l => if Overlaps Nonce l tx then Some l else None | None => None end) with
      | Some l =>
        let '(inserted, old, l') := list_Add l tx (PriceBump (config p)) in
        if negb inserted then Ret (false, Some ErrReplaceUnderpriced, p) else
        let p := set_pending p (<[from := l']> (pending p)) in
        let p := match old with Some o => priced_Removed (all_Remove p (TxHash o)) 1 | None => p end in
        let p := priced_Put (all_Add p tx) tx in
        let p := journalTx p from tx in
        Ret (bool_decide (is_Some old), None, set_txEvents p (txEvents p ++ [tx]))
      | None =>
        let '(replaced, err, p) := enqueueTx p hash tx in
        match err with
        | Some e => Ret (false, Some e, p)
        | None =>
          let p := if local && negb (as_contains (locals p) from) then set_locals p (as_add (locals p) from) else p in
          Ret (replaced, None, journalTx p from tx)
        end
      end
    end
  end.

Definition addTxsLocked (p : TxPool) (txs : list Tx) (local : bool) : go (list (option txError) * accountSet (Addr := Addr) * TxPool) :=
  go_fold (fun (st : list (option txError) * accountSet (Addr := Addr) * TxPool) tx =>
    let '(errs, dirty, p) := st in
    r ← add p tx local;
    let '(replaced, err, p) := r in
    let dirty := if bool_decide (err = None) && negb replaced then addTx Sender dirty tx else dirty in
    Ret (errs ++ [err], dirty, p)) ([], newAccountSet [], p) txs.

Definition SetGasPrice (p : TxPool) (price : Z) : go TxPool :=
  let p := set_gasPrice p price in
  d ← pl_Cap TxHash Nonce GasPrice Sender (all p) (priced p) price (locals p);
  remove_all (set_index p (all p) d.2) d.1 false.

(** * Promotion and demotion *)

(** The loops that only take transactions out of the index of the pool. *)
Definition forget_txs (p : TxPool) (txs : list (option Tx)) : go TxPool := for_txs (fun p tx => Ret (all_Remove p (TxHash tx))) p txs.

(** The removed count that the price index hears of. *)
Definition promoteAccount (now : Z) (st : TxPool * list Tx) (addr : Addr) : go (TxPool * list Tx) :=
  let '(p, promoted) := st in
  match queue p !! addr with
  | None => Ret (p, promoted)
  | Some l =>
    r ← Forward l (GetNonce (currentState p) addr);
    let '(forwards, l) := r in
    p ← forget_txs p forwards;
    let '(drops, _, l) := list_Filter l (GetBalance (currentState p) addr) (currentMaxGas p) in
    p ← forget_txs p (Some <$> drops);
    let '(start, n) := noncer_get (pendingNonces p) addr in
    let p := set_pendingNonces p n in
    r ← Ready l start;
    let '(readies, l) := r in
    r ← for_txs (fun st tx =>
           let '(ok, p) := promoteTx now st.1 addr (TxHash tx) tx in
           Ret (p, if ok : bool then st.2 ++ [tx] else st.2)) (p, promoted) readies;
    let '(p, promoted) := r in
    r ← (if as_contains (locals p) addr then Ret ([], l, p) else
           c ← Cap l (i64 (AccountQueue (config p)));
           p ← forget_txs p c.1;
           Ret (c.1, c.2, p));
    let '(caps, l, p) := r in
    let p := priced_Removed p (zlen forwards + zlen drops + zlen caps) in
    Ret (set_queue p (if Empty l then delete addr (queue p) else <[addr := l]> (queue p)), promoted)
  end.

Definition promoteExecutables (now : Z) (p : TxPool) (accounts : list Addr) : go (TxPool * list Tx) :=
  go_fold (promoteAccount now) (p, []) accounts.

Definition demoteAccount (p : TxPool) (addr : Addr) : go TxPool :=
  match pending p !! addr with
  | None => Ret p
  | Some l =>
    let nonce := GetNonce (currentState p) addr in
    r ← Forward l nonce;
    let '(olds, l) := r in
    p ← forget_txs p olds;
    let '(drops, invalids, l) := list_Filter l (GetBalance (currentState p) addr) (currentMaxGas p) in
    p ← forget_txs p (Some <$> drops);
    let p := priced_Removed p (zlen olds + zlen drops) in
    let p := enqueue_all (set_pending p (<[addr := l]> (pending p))) invalids in
    r ← (if (0 <? Len l) && bool_decide (sm_Get (txs l) nonce = None) then
           r ← Cap l 0;
           let '(gapped, l) := r in
           p ← for_txs (fun p tx => Ret (enqueueTx p (TxHash tx) tx).2) (set_pending p (<[addr := l]> (pending p))) gapped;
           Ret (p, l)
         else Ret (p, l));
    let '(p, l) := r in
    Ret (if Empty l then set_beats (set_pending p (delete addr (pending p))) (delete addr (beats p)) else p)
  end.

(** for addr, list := range pool.pending: the lists are pointers, read when their turn comes. *)
Definition demoteUnexecutables (p : TxPool) : go TxPool := go_fold demoteAccount p (rangeLists (pending p)).*1.

(** * The limits of the pool *)

Definition count_txs (m : gmap Addr txList) : Z := foldl (fun n kv => u64 (n + Len kv.2)) 0 (rangeLists m).

Definition pending_list (p : TxPool) (addr : Addr) : go txList :=
  match pending p !! addr with Some l => Ret l | None => Fault NilDereference end.

(** Dropping the last transaction of an account. *)
Definition cap_offender (p : TxPool) (addr : Addr) : go TxPool :=
  l ← pending_list p addr;
  r ← Cap l (Len l - 1);
  let '(caps, l) := r in
  p ← for_txs (fun p tx => Ret (set_pendingNonces (all_Remove p (TxHash tx)) (setIfLower (pendingNonces p) addr (Nonce tx))))
        (set_pending p (<[addr := l]> (pending p))) caps;
  Ret (priced_Removed p (zlen caps)).

(** A round over some offenders; the counter goes down once for each. *)
Definition cap_round (st : TxPool * Z) (offenders : list Addr) : go (TxPool * Z) :=
  go_fold (fun st addr => p ← cap_offender st.1 addr; Ret (p, u64 (st.2 - 1))) st offenders.

(** for pending > GlobalSlots && pool.pending[probe].Len() > threshold, a round *)
Fixpoint cap_rounds (fuel : nat) (st : TxPool * Z) (probe : Addr) (threshold : Z) (offenders : list Addr) : go (TxPool * Z) :=
  if st.2 <=? GlobalSlots (config st.1) then Ret st else
  l ← pending_list st.1 probe;
  if Len l <=? threshold then Ret st else
  match fuel with
  | O => Fault OutOfFuel
  | S fuel => st ← cap_round st offenders; cap_rounds fuel st probe threshold offenders
  end.

(** The loop over the spammers, in the order of the priority queue. *)
Fixpoint equalize (st : TxPool * Z) (offenders : list Addr) (spammers : list Addr) : go (TxPool * Z * list Addr) :=
  match spammers with
  | [] => Ret (st, offenders)
  | offender :: spammers =>
    if st.2 <=? GlobalSlots (config st.1) then Ret (st, offenders) else
    st' ← match last offenders with
          | None => Ret st
          | Some probe =>
            l ← pending_list st.1 offender;
            lp ← pending_list st.1 probe;
            cap_rounds (Z.to_nat (Len lp)) st probe (Len l) offenders
          end;
    equalize st' (offenders ++ [offender]) spammers
  end.

Definition spammers (p : TxPool) : list Addr :=
  prque (omap (fun kv => if negb (as_contains (locals p) kv.1) && (AccountSlots (config p) <? Len kv.2) then Some (kv.1, Len kv.2) else None) (rangeLists (pending p))).

Definition truncatePending (p : TxPool) : go TxPool :=
  let n := count_txs (pending p) in
  if n <=? GlobalSlots (config p) then Ret p else
  r ← equalize (p, n) [] (spammers p);
  let '(st, offenders) := r in
  match last offenders with
  | None => Ret st.1
  | Some probe =>
    if st.2 <=? GlobalSlots (config st.1) then Ret st.1 else
    lp ← pending_list st.1 probe;
    r ← cap_rounds (Z.to_nat (Len lp)) st probe (AccountSlots (config st.1)) offenders;
    Ret r.1
  end.

(** addressesByHeartbeat, sorted by sort.Sort. *)
Definition beat_le (a b : Addr * Z) : Prop := a.2 <= b.2.
#[global] Instance beat_le_dec : RelDecision beat_le.
Proof. intros a b. unfold beat_le. apply _. Defined.

Definition queue_addresses (p : TxPool) : list Addr :=
  (reverse (merge_sort beat_le (omap (fun kv => if as_contains (locals p) kv.1 then None else Some (kv.1, default 0 (beats p !! kv.1))) (rangeLists (queue p))))).*1.

(** for i := len(txs) - 1; i >= 0 && drop > 0; i-- *)
Fixpoint drop_last (p : TxPool) (rtxs : list Tx) (drop : Z) : go (TxPool * Z) :=
  match rtxs with
  | [] => Ret (p, drop)
  | tx :: rtxs => if drop <=? 0 then Ret (p, drop) else p ← removeTx p (TxHash tx) true; drop_last p rtxs (drop - 1)
  end.

Fixpoint truncate_loop (p : TxPool) (drop : Z) (addresses : list Addr) : go TxPool :=
  match addresses with
  | [] => Ret p
  | addr :: addresses =>
    if drop <=? 0 then Ret p else
    match queue p !! addr with
    | None => Fault NilDereference
    | Some l =>
      let '(txs, l') := list_Flatten l in
      let size := Len l in
      let p := set_queue p (<[addr := l']> (queue p)) in
      if size <=? drop then p ← remove_all p txs true; truncate_loop p (drop - size) addresses
      else r ← drop_last p (reverse txs) drop; truncate_loop r.1 r.2 addresses
    end
  end.

Definition truncateQueue (p : TxPool) : go TxPool :=
  let n := count_txs (queue p) in
  if n <=? GlobalQueue (config p) then Ret p else truncate_loop p (n - GlobalQueue (config p)) (queue_addresses p).

(** Eviction of the accounts that were silent for too long (a tick of loop). *)
Definition evict (now : Z) (p : TxPool) : go TxPool :=
  go_fold (fun p addr =>
    if as_contains (locals p) addr then Ret p else
    if Lifetime (config p) <? now - default 0 (beats p !! addr) then
      match queue p !! addr with
      | None => Fault NilDereference
      | Some l =>
        let '(txs, l') := list_Flatten l in
        remove_all (set_queue p (<[addr := l']> (queue p))) txs true
      end
    else Ret p) p (rangeLists (queue p)).*1.

(** * Reset and reorganisation *)

Definition MaxReorgDepth : Z := 64.

(** discarded and included blocks, walked back to a common one; None for the early returns of reset. *)
Fixpoint walk_down (fuel : nat) (b : EvmBlock) (down_to : Z) (txs : list Tx) : go (option (EvmBlock * list Tx)) :=
  if hd_Number (Header b) <=? down_to then Ret (Some (b, txs)) else
  match fuel with
  | O => Fault OutOfFuel
  | S fuel =>
    match GetBlock chain (hd_ParentHash (Header b)) (u64 (hd_Number (Header b) - 1)) with
    | None => Ret None
    | Some b' => walk_down fuel b' down_to (txs ++ Transactions b)
    end
  end.

Fixpoint walk_both (fuel : nat) (rem add : EvmBlock) (discarded included : list Tx) : go (option (list Tx * list Tx)) :=
  if bool_decide (hd_Hash (Header rem) = hd_Hash (Header add)) then Ret (Some (discarded, included)) else
  match fuel with
  | O => Fault OutOfFuel
  | S fuel =>
    match GetBlock chain (hd_ParentHash (Header rem)) (u64 (hd_Number (Header rem) - 1)) with
    | None => Ret None
    | Some rem' =>
      match GetBlock chain (hd_ParentHash (Header add)) (u64 (hd_Number (Header add) - 1)) with
      | None => Ret None
      | Some add' => walk_both fuel rem' add' (discarded ++ Transactions rem) (included ++ Transactions add)
      end
    end
  end.

(** The transactions to inject again after a change of head, None for an early return. *)
Definition reinjected (oldHead : option EvmHeader) (newHead : EvmHeader) : go (option (list Tx)) :=
  match oldHead with
  | None => Ret (Some [])
  | Some old =>
    if bool_decide (hd_Hash old = hd_ParentHash newHead) then Ret (Some []) else
    if MaxReorgDepth <? Z.abs (hd_Number old - hd_Number newHead) then Ret (Some []) else
    match GetBlock chain (hd_Hash old) (hd_Number old) with
    | None => Ret None
    | Some rem =>
      match GetBlock chain (hd_Hash newHead) (hd_Number newHead) with
      | None => Fault NilDereference
      | Some add =>
        let fuel b := Z.to_nat (hd_Number (Header b) + 1) in
        r ← walk_down (fuel rem) rem (hd_Number (Header add)) [];
        match r with
        | None => Ret None
        | Some (rem, discarded) =>
          a ← walk_down (fuel add) add (hd_Number (Header rem)) [];
          match a with
          | None => Ret None
          | Some (add, included) =>
            d ← walk_both (fuel rem) rem add discarded included;
            Ret (match d with None => None | Some (discarded, included) => Some (TxDifference discarded included) end)
          end
        end
      end
    end
  end.

Definition reset (p : TxPool) (oldHead newHead : option EvmHeader) : go TxPool :=
  r ← match oldHead, newHead with
      | Some _, None => Fault NilDereference
      | None, None => Ret (Some [])
      | _, Some h => reinjected oldHead h
      end;
  match r with
  | None => Ret p
  | Some reinject =>
    let head := default (Header (CurrentBlock chain)) newHead in
    let statedb := StateAt chain (hd_Root head) in
    let maxGas := if MaxGasPowerUsed / 2 <? hd_GasLimit head then MaxGasPowerUsed / 2 else hd_GasLimit head in
    let p := set_head p statedb (newTxNoncer (GetNonce statedb)) maxGas in
    a ← addTxsLocked p reinject false;
    Ret a.2
  end.

(** Events for the subscribers: the stale ones leave after a reset. *)
Definition forward_events (st : TxPool * gmap Addr txSortedMap) (addr : Addr) : go (TxPool * gmap Addr txSortedMap) :=
  match st.2 !! addr with
  | None => Ret st
  | Some ev =>
    let '(n, nn) := noncer_get (pendingNonces st.1) addr in
    r ← sm_Forward ev n;
    Ret (set_pendingNonces st.1 nn, if sm_Len r.2 =? 0 then delete addr st.2 else <[addr := r.2]> st.2)
  end.

Definition put_event (events : gmap Addr txSortedMap) (tx : Tx) : gmap Addr txSortedMap :=
  <[sender tx := sm_Put Nonce (default newTxSortedMap (events !! sender tx)) tx]> events.

(** Update all accounts to the latest known pending nonce. *)
Definition refresh_nonce (p : TxPool) (addr : Addr) : go TxPool :=
  l ← pending_list p addr;
  let '(txs, l') := list_Flatten l in
  match last txs with
  | None => Fault IndexOutOfRange
  | Some tx => Ret (set_pendingNonces (set_pending p (<[addr := l']> (pending p))) (noncer_set (pendingNonces p) addr (u64 (Nonce tx + 1))))
  end.

(** runReorg: the pool, and the transactions sent to the subscribers. *)
Definition runReorg (now : Z) (p : TxPool) (rst : option (option EvmHeader * option EvmHeader)) (dirtyAccounts : option (accountSet (Addr := Addr)))
    (events : gmap Addr txSortedMap) : go (TxPool * option (list Tx)) :=
  let promoteAddrs := match dirtyAccounts with Some s => (as_flatten rangeSet s).1 | None => [] end in
  r ← match rst with
      | None => Ret (p, events, promoteAddrs)
      | Some (oldHead, newHead) =>
        p ← reset p oldHead newHead;
        e ← go_fold forward_events (p, events) (rangeEvents events).*1;
        Ret (e.1, e.2, (rangeLists (queue e.1)).*1)
      end;
  let '(p, events, promoteAddrs) := r in
  r ← promoteExecutables now p promoteAddrs;
  let '(p, promoted) := r in
  let events := foldl put_event events promoted in
  p ← match rst with Some _ => demoteUnexecutables p | None => Ret p end;
  p ← truncatePending p;
  p ← truncateQueue p;
  p ← go_fold refresh_nonce p (rangeLists (pending p)).*1;
  Ret (p, if bool_decide (size events = 0%nat) then None
          else Some (foldl (fun txs kv => txs ++ (sm_Flatten Nonce rangeTxs kv.2).1) [] (rangeEvents events))).

(** * The scheduler of the reorganisations *)

Record scheduler := mkScheduler {
  running : bool;                                               (* curDone != nil *)
  launchNextRun : bool;
  sc_reset : option (option EvmHeader * option EvmHeader);      (* oldHead, newHead *)
  dirtyAccounts : option (accountSet (Addr := Addr));
  queuedEvents : gmap Addr txSortedMap }.

Definition newScheduler : scheduler := mkScheduler false false None None ∅.

Inductive sched_msg :=
  | ReqReset (oldHead newHead : option EvmHeader)
  | ReqPromote (set : accountSet (Addr := Addr))
  | QueueTxEvent (tx : Tx)
  | RunDone.

(** One arm of the select of scheduleReorgLoop. *)
Definition sched_step (s : scheduler) (m : sched_msg) : scheduler :=
  match m with
  | ReqReset oldHead newHead =>
    mkScheduler (running s) true (Some (match sc_reset s with Some (o, _) => (o, newHead) | None => (oldHead, newHead) end)) (dirtyAccounts s) (queuedEvents s)
  | ReqPromote set =>
    mkScheduler (running s) true (sc_reset s) (Some (match dirtyAccounts s with Some d => as_merge d set | None => set end)) (queuedEvents s)
  | QueueTxEvent tx => mkScheduler (running s) (launchNextRun s) (sc_reset s) (dirtyAccounts s) (put_event (queuedEvents s) tx)
  | RunDone => mkScheduler false (launchNextRun s) (sc_reset s) (dirtyAccounts s) (queuedEvents s)
  end.

(** The head of the loop: the arguments of the run it launches, if it launches one. *)
Definition sched_launch (s : scheduler) :
  option (option (option EvmHeader * option EvmHeader) * option (accountSet (Addr := Addr)) * gmap Addr txSortedMap) * scheduler :=
  if negb (running s) && launchNextRun s
  then (Some (sc_reset s, dirtyAccounts s, queuedEvents s), mkScheduler true false None None ∅)
  else (None, s).

(** * Queries *)

Definition pool_Get (p : TxPool) (h : Hash) : option Tx := lookup_Get (all p) h.

Definition pool_Nonce (p : TxPool) (addr : Addr) : Z * TxPool :=
  let '(n, nn) := noncer_get (pendingNonces p) addr in (n, set_pendingNonces p nn).

Definition stats (p : TxPool) : Z * Z :=
  (foldl (fun n kv => n + Len kv.2) 0 (rangeLists (pending p)), foldl (fun n kv => n + Len kv.2) 0 (rangeLists (queue p))).

Definition flatten_lists (m : gmap Addr txList) : gmap Addr (list Tx) * gmap Addr txList :=
  ((fun l => (list_Flatten l).1) <$> m, (fun l => (list_Flatten l).2) <$> m).

Definition Pending (p : TxPool) : gmap Addr (list Tx) * TxPool :=
  let '(c, m) := flatten_lists (pending p) in (c, set_pending p m).

Definition Content (p : TxPool) : gmap Addr (list Tx) * gmap Addr (list Tx) * TxPool :=
  let '(cp, mp) := flatten_lists (pending p) in
  let '(cq, mq) := flatten_lists (queue p) in (cp, cq, set_queue (set_pending p mp) mq).

Definition Status (p : TxPool) (hashes : list Hash) : list TxStatus :=
  (fun h => match lookup_Get (all p) h with
            | None => TxStatusUnknown
            | Some tx =>
              match pending p !! sender tx with
              | Some l => if bool_decide (is_Some (items (txs l) !! Nonce tx)) then TxStatusPending else TxStatusQueued
              | None => TxStatusQueued
              end
            end) <$> hashes.

(** NewTxPool, up to the start of the goroutines and the journal. *)
Definition emptyPool (cfg : TxPoolConfig) (localAddrs : list Addr) : TxPool :=
  let cfg := sanitize cfg in
  mkTxPool cfg (PriceLimit cfg) {| GetNonce := fun _ => 0; GetBalance := fun _ => 0 |} (newTxNoncer (fun _ => 0)) 0
    (foldl as_add (newAccountSet []) localAddrs) None ∅ ∅ ∅ ∅ newTxPricedList [].

Definition NewTxPool (cfg : TxPoolConfig) (localAddrs : list Addr) : go TxPool :=
  reset (emptyPool cfg localAddrs) None (Some (Header (CurrentBlock chain))).

End TxPool.
