(* ===== verification/TxPoolInv.v ===== *)
(** The invariant of the transaction pool (src/evmcore/tx_pool.go, [TxPool]): the index by hash holds exactly the
    transactions of the pending and queued lists, each transaction is in the list of its sender, and no nonce of
    an account is both pending and queued.

    Inside an operation transactions are on their way from one list to another, or out of the pool: the invariant
    is stated with these floating transactions, and each step of an operation takes one out of a list, places it, or
    forgets it. *)
From stdpp Require Import gmap list sorting.
From S2P Require Import Prelude Bytes Event EventCheck Heap TxList TxListSpec TxPriced TxPool.

Section Invariant.
Context {Tx Hash Addr : Type} `{Countable Hash, Countable Addr} {reads : TxReads Tx Hash Addr}.
Context (zeroAddr : Addr).
Abbreviation txList := (TxList.txList (Tx := Tx)).
Abbreviation sender := (sender zeroAddr).
Abbreviation tl_holds := (tl_holds Nonce Cost Gas).

(** The transaction of an account with a nonce, in the lists of a map. *)
Definition slot (m : gmap Addr txList) (a : Addr) (n : Z) : option Tx := l ← m !! a; sm_Get (txs l) n.
Definition tx_slot (m : gmap Addr txList) (t : Tx) : option Tx := slot m (sender t) (Nonce t).
Definition key (t : Tx) : Addr * Z := (sender t, Nonce t).

Definition list_ok (s : bool) (a : Addr) (l : txList) (c : list Tx) : Prop :=
  strict l = s /\ tl_holds l c /\ Forall (fun t => sender t = a) c.
Definition lists_ok (s : bool) (m : gmap Addr txList) : Prop := forall a l, m !! a = Some l -> exists c, list_ok s a l c.

(** The lists P and Q, the index A by hash, and the floating transactions F. *)
Record inv (sP : bool) (P : gmap Addr txList) (sQ : bool) (Q : gmap Addr txList) (A : gmap Hash Tx) (F : list Tx) : Prop := {
  inv_P : lists_ok sP P;
  inv_Q : lists_ok sQ Q;
  inv_one : forall a n, slot P a n = None \/ slot Q a n = None;
  inv_float : forall t, t ∈ F -> tx_slot P t = None /\ tx_slot Q t = None;
  inv_keys : NoDup (key <$> F);
  inv_all : forall h t, A !! h = Some t <-> TxHash t = h /\ (tx_slot P t = Some t \/ tx_slot Q t = Some t \/ t ∈ F) }.

Lemma inv_sym sP P sQ Q A F : inv sP P sQ Q A F -> inv sQ Q sP P A F.
Proof.
  intros [HP HQ Ho Hf Hk Ha]. split; [done|done| | |done|].
  - intros a n. destruct (Ho a n); tauto.
  - intros t Ht. destruct (Hf t Ht). done.
  - intros h t. rewrite Ha. tauto.
Qed.

Lemma inv_perm sP P sQ Q A F F' : F ≡ₚ F' -> inv sP P sQ Q A F -> inv sP P sQ Q A F'.
Proof.
  intros Hp [HP HQ Ho Hf Hk Ha]. split; [done|done|done| | |].
  - intros t. rewrite <-Hp. apply Hf.
  - by rewrite <-Hp.
  - intros h t. rewrite Ha, Hp. done.
Qed.

(** ** What a list holds *)

Lemma list_get_spec (l : txList) (c : list Tx) (n : Z) (t : Tx) : tl_holds l c -> sm_Get (txs l) n = Some t <-> t ∈ c /\ Nonce t = n.
Proof. intros [Hm _]. by apply sm_Get_spec. Qed.

Lemma content_unique (l : txList) (c c' : list Tx) : tl_holds l c -> tl_holds l c' -> c ≡ₚ c'.
Proof.
  intros Hc Hc'. apply NoDup_Permutation.
  - eapply (NoDup_fmap_1 Nonce), (ascending_nodup Nonce), Hc.
  - eapply (NoDup_fmap_1 Nonce), (ascending_nodup Nonce), Hc'.
  - intros t. split; intros Ht.
    + by apply (list_get_spec l c' (Nonce t) t Hc'), (list_get_spec l c (Nonce t) t Hc).
    + by apply (list_get_spec l c (Nonce t) t Hc), (list_get_spec l c' (Nonce t) t Hc').
Qed.

Lemma slot_get (m : gmap Addr txList) (a : Addr) (l : txList) (c : list Tx) (n : Z) (t : Tx) : m !! a = Some l -> tl_holds l c ->
  slot m a n = Some t <-> t ∈ c /\ Nonce t = n.
Proof. intros Hl Hc. unfold slot. rewrite Hl. cbn. by apply list_get_spec. Qed.

Lemma slot_key (s : bool) (m : gmap Addr txList) (a : Addr) (n : Z) (t : Tx) : lists_ok s m -> slot m a n = Some t -> sender t = a /\ Nonce t = n.
Proof.
  intros Hok Hs. unfold slot in Hs. destruct (m !! a) as [l|] eqn:Hl; [|done]. cbn in Hs. destruct (Hok a l Hl) as (c & _ & Hc & Hall).
  pose proof (proj1 (list_get_spec l c n t Hc) Hs) as [Ht Hn]. rewrite Forall_forall in Hall. by split; [apply Hall|].
Qed.

Lemma slot_tx (s : bool) (m : gmap Addr txList) (a : Addr) (n : Z) (t : Tx) : lists_ok s m -> slot m a n = Some t -> tx_slot m t = Some t.
Proof. intros Hok Hs. unfold tx_slot. by destruct (slot_key s m a n t Hok Hs) as [-> ->]. Qed.

Lemma slot_other (m : gmap Addr txList) (a b : Addr) (l : txList) (n : Z) : a <> b -> slot (<[a := l]> m) b n = slot m b n.
Proof. intros Hne. unfold slot. by rewrite lookup_insert_ne. Qed.

Lemma slot_same (m : gmap Addr txList) (a : Addr) (l : txList) (n : Z) : slot (<[a := l]> m) a n = sm_Get (txs l) n.
Proof. unfold slot. by rewrite lookup_insert_eq. Qed.

Lemma lists_ok_insert (s : bool) (m : gmap Addr txList) (a : Addr) (l : txList) (c : list Tx) : lists_ok s m -> list_ok s a l c -> lists_ok s (<[a := l]> m).
Proof. intros Hok Hl b l' [[<- <-]|[_ Hb]]%lookup_insert_Some; [by exists c|by apply Hok]. Qed.

(** ** Taking transactions out of a list *)

Lemma inv_take sP P sQ Q A F (a : Addr) (l l' : txList) (c c' R : list Tx) : inv sP P sQ Q A F -> P !! a = Some l -> tl_holds l c ->
  tl_holds l' c' -> strict l' = sP -> c ≡ₚ R ++ c' -> inv sP (<[a := l']> P) sQ Q A (R ++ F).
Proof.
  intros [HP HQ Ho Hf Hk Ha] Hl Hc Hc' Hs Hp. destruct (HP a l Hl) as (c0 & _ & Hc0 & Hall0).
  assert (Forall (fun t => sender t = a) c) as Hall by (by rewrite (content_unique l c c0 Hc Hc0)).
  assert (forall n t, sm_Get (txs l') n = Some t <-> t ∈ c' /\ Nonce t = n) as Hg' by (intros n t; by apply list_get_spec).
  assert (forall n t, slot P a n = Some t <-> t ∈ c /\ Nonce t = n) as Hg by (intros n t; by eapply slot_get).
  assert (NoDup (Nonce <$> R ++ c')) as Hnd by (rewrite <-Hp; apply (ascending_nodup Nonce), Hc).
  rewrite fmap_app in Hnd. apply NoDup_app in Hnd as (HndR & Hdis & _).
  rewrite Hp, Forall_app in Hall. destruct Hall as [HallR Hall'].
  assert (forall n, slot P a n = None -> sm_Get (txs l') n = None) as Hnone.
  { intros n Hn. destruct (sm_Get (txs l') n) as [t|] eqn:Ht; [|done]. apply Hg' in Ht as [Ht <-].
    assert (slot P a (Nonce t) = Some t) as Hs' by (apply Hg; split; [rewrite Hp; set_solver|done]). congruence. }
  assert (forall t, t ∈ R -> sender t = a /\ slot P a (Nonce t) = Some t) as HR.
  { intros t Ht. rewrite Forall_forall in HallR. split; [by apply HallR|]. apply Hg. split; [rewrite Hp; set_solver|done]. }
  assert (forall t, t ∈ R -> sm_Get (txs l') (Nonce t) = None) as HR'.
  { intros t Ht. destruct (sm_Get (txs l') (Nonce t)) as [u|] eqn:Hu; [|done]. apply Hg' in Hu as [Hu Hn]. exfalso.
    apply (Hdis (Nonce t)); [by apply list_elem_of_fmap_2|]. rewrite <-Hn. by apply list_elem_of_fmap_2. }
  split; [eapply lists_ok_insert; [done|by split]|done| | | |].
  - intros b n. destruct (decide (a = b)) as [<-|Hne]; [|rewrite slot_other by done; apply Ho]. rewrite slot_same.
    destruct (Ho a n) as [Hn|Hn]; [left; by apply Hnone|by right].
  - intros t [Ht|Ht]%elem_of_app.
    + destruct (HR t Ht) as [Hs' Hsl]. unfold tx_slot. rewrite Hs', slot_same. split; [by apply HR'|].
      destruct (Ho a (Nonce t)) as [Hn|Hn]; [congruence|done].
    + destruct (Hf t Ht) as [H1 H2]. split; [|done]. unfold tx_slot in *. destruct (decide (a = sender t)) as [Heq|Hne]; [|by rewrite slot_other].
      rewrite <-Heq in *. rewrite slot_same. apply Hnone. exact H1.
  - rewrite fmap_app. apply NoDup_app. split; [|split; [|done]].
    + apply (NoDup_fmap_1 snd). rewrite <-list_fmap_compose. exact HndR.
    + intros k (t & -> & Ht)%list_elem_of_fmap (u & Hk' & Hu)%list_elem_of_fmap. destruct (HR t Ht) as [Hs' Hsl]. destruct (Hf u Hu) as [Hfu _].
      unfold key in Hk'. injection Hk' as H1 H2. unfold tx_slot in Hfu. rewrite <-H1, <-H2, Hs' in Hfu. congruence.
  - intros h t. rewrite Ha. apply and_iff_under. intros <-. rewrite elem_of_app. unfold tx_slot. destruct (decide (a = sender t)) as [->|Hne].
    + rewrite slot_same, Hg', Hg, Hp, elem_of_app. tauto.
    + rewrite slot_other by done. assert (t ∉ R) by (intros Ht; destruct (HR t Ht); congruence). tauto.
Qed.

Lemma inv_drop_list sP P sQ Q A F (a : Addr) (l : txList) : inv sP P sQ Q A F -> P !! a = Some l -> tl_holds l [] -> inv sP (delete a P) sQ Q A F.
Proof.
  intros [HP HQ Ho Hf Hk Ha] Hl Hc.
  assert (forall b n, slot (delete a P) b n = slot P b n) as Hs.
  { intros b n. unfold slot at 1. destruct (decide (a = b)) as [<-|Hne]; [|by rewrite lookup_delete_ne].
    rewrite lookup_delete_eq. cbn. symmetry. apply eq_None_not_Some. intros [t Ht]. apply (slot_get P a l [] n t Hl Hc) in Ht as [Ht _]. by apply not_elem_of_nil in Ht. }
  split; [|done| | |done|]; unfold tx_slot in *.
  - intros b l' [_ Hb]%lookup_delete_Some. by apply HP.
  - intros b n. rewrite Hs. apply Ho.
  - intros t Ht. rewrite Hs. by apply Hf.
  - intros h t. by rewrite Ha, Hs.
Qed.

(** ** Forgetting, placing and creating floating transactions *)

Context (TxHash_inj : Inj eq eq TxHash).

Lemma inv_forget sP P sQ Q A F (t : Tx) : inv sP P sQ Q A (t :: F) -> inv sP P sQ Q (delete (TxHash t) A) F.
Proof.
  intros [HP HQ Ho Hf Hk Ha]. cbn in Hk. apply NoDup_cons in Hk as [Hkt Hk]. split; [done|done|done| |done|].
  - intros u Hu. apply Hf. by right.
  - intros h u. rewrite lookup_delete_Some, Ha. split.
    + intros [Hne [<- Hin]]. split; [done|]. destruct Hin as [?|[?|Hin]]; [tauto..|]. apply elem_of_cons in Hin as [->|?]; [done|tauto].
    + intros [<- Hin]. destruct (Hf t ltac:(left)) as [H1 H2]. split; [|split; [done|]].
      * intros Heq%(inj TxHash). subst u. destruct Hin as [?|[?|Hin]]; [congruence..|]. apply Hkt. by apply list_elem_of_fmap_2.
      * destruct Hin as [?|[?|?]]; [tauto..|]. right; right. by right.
Qed.

Lemma new_holds (s : bool) : tl_holds (newTxList s) [].
Proof. split; [apply sm_new_spec|constructor]. Qed.

(** The list a transaction goes to. *)
Lemma target_ok (s : bool) (m : gmap Addr txList) (a : Addr) : lists_ok s m ->
  exists c, list_ok s a (default (newTxList s) (m !! a)) c /\ forall n, slot m a n = sm_Get (txs (default (newTxList s) (m !! a))) n.
Proof.
  intros Hok. unfold slot. destruct (m !! a) as [l|] eqn:Hl; cbn.
  - destruct (Hok a l Hl) as (c & Hc). by exists c.
  - exists []. split; [split; [done|]; split; [apply new_holds|constructor]|done].
Qed.

Lemma get_put (l' : txList) (c : list Tx) (t u : Tx) (n : Z) : tl_holds l' (put Nonce t c) ->
  sm_Get (txs l') n = Some u <-> (u = t /\ Nonce t = n) \/ (u ∈ c /\ Nonce u = n /\ Nonce u <> Nonce t).
Proof. intros Hc. rewrite (list_get_spec l' _ n u Hc), elem_of_put. split; [intros [[->|[? ?]] ?]; tauto|]. intros [[-> ?]|(? & ? & ?)]; tauto. Qed.

Lemma put_ok (s : bool) (a : Addr) (l l' : txList) (c : list Tx) (t : Tx) : list_ok s a l c -> sender t = a -> strict l' = strict l ->
  tl_holds l' (put Nonce t c) -> list_ok s a l' (put Nonce t c).
Proof.
  intros (Hs & _ & Hall) Ht Hs' Hc. split; [by rewrite Hs'|]. split; [done|]. rewrite Forall_forall in *.
  intros u [->|[Hu _]]%elem_of_put; [done|by apply Hall].
Qed.

(** A floating transaction finds its place free. *)
Lemma inv_place sP P sQ Q A F (t : Tx) (bump : Z) : inv sP P sQ Q A (t :: F) ->
  exists l', list_Add (default (newTxList sP) (P !! sender t)) t bump = (true, None, l') /\ inv sP (<[sender t := l']> P) sQ Q A F.
Proof.
  intros [HP HQ Ho Hf Hk Ha]. cbn in Hk. apply NoDup_cons in Hk as [Hkt Hk]. destruct (Hf t ltac:(left)) as [H1 H2].
  destruct (target_ok sP P (sender t) HP) as (c & Hok & Hs). set (l := default _ _) in *. unfold tx_slot in H1. rewrite Hs in H1.
  pose proof (list_Add_spec Nonce Cost Gas GasPrice l c t bump (proj1 (proj2 Hok))) as Hadd. rewrite H1 in Hadd. destruct Hadd as (Hni & l' & Hadd & Hc' & Hst).
  exists l'. split; [done|]. pose proof (put_ok sP (sender t) l l' c t Hok eq_refl Hst Hc') as Hok'.
  assert (forall n u, slot P (sender t) n = Some u <-> u ∈ c /\ Nonce u = n) as Hg by (intros n u; rewrite Hs; by apply list_get_spec, Hok).
  assert (forall u, u ∈ c -> Nonce u <> Nonce t) as Hne by (intros u Hu Heq; apply Hni; rewrite <-Heq; by apply list_elem_of_fmap_2).
  assert (forall u, tx_slot (<[sender t := l']> P) u = Some u <-> tx_slot P u = Some u \/ u = t) as Hsl.
  { intros u. unfold tx_slot. destruct (decide (sender t = sender u)) as [Heq|Hd].
    - rewrite <-Heq, slot_same, (get_put l' c t u), Hg by done. split; [intros [[-> _]|(? & ? & ?)]; tauto|].
      intros [[Hu _]| ->]; [right; split; [done|]; split; [done|by apply Hne]|by left].
    - rewrite slot_other by done. split; [tauto|]. intros [?| ->]; done. }
  split; [eapply lists_ok_insert; [done|exact Hok']|done| | |done|].
  - intros b n. destruct (decide (sender t = b)) as [<-|Hd]; [|rewrite slot_other by done; apply Ho]. rewrite slot_same.
    destruct (sm_Get (txs l') n) as [u|] eqn:Hu; [right|by left]. apply (get_put l' c t u n Hc') in Hu as [[-> <-]|(Hu & <- & _)]; [done|].
    destruct (Ho (sender t) (Nonce u)) as [Hn|Hn]; [|done]. assert (slot P (sender t) (Nonce u) = Some u) by (by apply Hg). congruence.
  - intros u Hu. destruct (Hf u ltac:(by right)) as [Hu1 Hu2]. split; [|done]. unfold tx_slot in *.
    destruct (decide (sender t = sender u)) as [Heq|Hd]; [|by rewrite slot_other]. rewrite <-Heq, slot_same in *.
    destruct (sm_Get (txs l') (Nonce u)) as [w|] eqn:Hw; [|done]. exfalso. apply (get_put l' c t w (Nonce u) Hc') in Hw as [[-> Hn]|(Hw & Hn & _)].
    + apply Hkt. apply list_elem_of_fmap. exists u. unfold key. by rewrite Heq, Hn.
    + assert (slot P (sender t) (Nonce u) = Some w) by (by apply Hg). congruence.
  - intros h u. rewrite Ha, Hsl, elem_of_cons. tauto.
Qed.

(** A transaction that is new to the pool, for a free place. *)
Lemma inv_new sP P sQ Q A (t : Tx) : inv sP P sQ Q A [] -> A !! TxHash t = None -> tx_slot P t = None -> tx_slot Q t = None ->
  inv sP P sQ Q (<[TxHash t := t]> A) [t].
Proof.
  intros [HP HQ Ho Hf Hk Ha] Hn H1 H2. split; [done|done|done| | |].
  - intros u ->%list_elem_of_singleton. done.
  - cbn. apply NoDup_singleton.
  - intros h u. rewrite lookup_insert_Some, Ha, list_elem_of_singleton. split.
    + intros [[<- ->]|[_ [? Hin]]]; [tauto|]. split; [done|]. destruct Hin as [?|[?|Hin]]; [tauto..|by apply not_elem_of_nil in Hin].
    + intros [<- Hin]. destruct (decide (TxHash t = TxHash u)) as [Heq%(inj TxHash)|Hne]; [left; by subst|right].
      split; [done|]. split; [done|]. destruct Hin as [?|[?| ->]]; [tauto..|done].
Qed.

(** A transaction that is new to the pool, in the place of another one. *)
Lemma inv_replace sP P sQ Q A (t old : Tx) (l l' : txList) (c : list Tx) : inv sP P sQ Q A [] -> A !! TxHash t = None ->
  P !! sender t = Some l -> tl_holds l c -> sm_Get (txs l) (Nonce t) = Some old -> strict l' = strict l -> tl_holds l' (put Nonce t c) ->
  inv sP (<[sender t := l']> P) sQ Q (<[TxHash t := t]> (delete (TxHash old) A)) [].
Proof.
  intros [HP HQ Ho Hf Hk Ha] Hn Hl Hc Hold Hst Hc'. destruct (HP _ _ Hl) as (c0 & Hs0 & Hc0 & Hall0).
  assert (list_ok sP (sender t) l c) as Hok by (split; [done|]; split; [done|]; by rewrite (content_unique l c c0 Hc Hc0)).
  pose proof (put_ok sP (sender t) l l' c t Hok eq_refl Hst Hc') as Hok'.
  assert (forall n u, slot P (sender t) n = Some u <-> u ∈ c /\ Nonce u = n) as Hg by (intros n u; by eapply slot_get).
  pose proof (proj1 (list_get_spec l c (Nonce t) old Hc) Hold) as [Hin Hno].
  assert (sender old = sender t) as Hso. { destruct Hok as (_ & _ & Hall). rewrite Forall_forall in Hall. by apply Hall. }
  assert (old <> t) as Hne.
  { intros ->. assert (A !! TxHash t = Some t); [|congruence]. apply Ha. split; [done|]. left. unfold tx_slot. by apply Hg. }
  assert (tx_slot P old = Some old) as Hold' by (unfold tx_slot; rewrite Hso; by apply Hg).
  assert (forall u, tx_slot (<[sender t := l']> P) u = Some u <-> (tx_slot P u = Some u /\ u <> old) \/ u = t) as Hsl.
  { intros u. unfold tx_slot. destruct (decide (sender t = sender u)) as [Heq|Hd].
    - rewrite <-Heq, slot_same, (get_put l' c t u), Hg by done. split.
      + intros [[-> _]|(Hu & _ & Hnn)]; [by right|left]. split; [done|]. intros ->. by apply Hnn.
      + intros [[[Hu _] Huo]| ->]; [right|by left]. split; [done|]. split; [done|]. intros Heqn. apply Huo.
        apply (nonce_inj Nonce c); [apply Hc|done|done|by rewrite Hno].
    - rewrite slot_other by done. split; [intros Hu; left; split; [done|]; intros ->; congruence|]. intros [[Hu _]| ->]; done. }
  split; [eapply lists_ok_insert; [done|exact Hok']|done| |intros u Hu; by apply not_elem_of_nil in Hu|constructor|].
  - intros b n. destruct (decide (sender t = b)) as [<-|Hd]; [|rewrite slot_other by done; apply Ho]. rewrite slot_same.
    destruct (sm_Get (txs l') n) as [u|] eqn:Hu; [right|by left].
    assert (exists w, slot P (sender t) n = Some w) as [w Hw].
    { apply (get_put l' c t u n Hc') in Hu as [[-> <-]|(Hu & <- & _)]; [exists old|exists u]; by apply Hg. }
    destruct (Ho (sender t) n); [congruence|done].
  - intros h u. rewrite lookup_insert_Some, lookup_delete_Some, Ha, Hsl. split.
    + intros [[<- <-]|[_ [Hno' [<- Hu]]]]; [tauto|]. split; [done|]. destruct Hu as [?|[?|Hu]]; [left; left|tauto|by apply not_elem_of_nil in Hu].
      split; [done|]. by intros ->.
    + intros [<- Hu]. destruct (decide (TxHash t = TxHash u)) as [Heq%(inj TxHash)|Htu]; [left; by subst|right].
      assert (u <> t) as Hut by (by intros ->). split; [done|]. split.
      * intros Heq%(inj TxHash). subst u. destruct Hu as [[[_ ?]| ?]|[Hu|Hu]]; [done|congruence| |by apply not_elem_of_nil in Hu].
        unfold tx_slot in *. rewrite Hso in *. destruct (Ho (sender t) (Nonce old)); congruence.
      * split; [done|]. destruct Hu as [[[? _]| ?]|[?|Hu]]; [tauto|done|tauto|by apply not_elem_of_nil in Hu].
Qed.

End Invariant.
