(* ===== verification/TxPoolSpec.v ===== *)
(** What the operations of the transaction pool do to its invariant (src/evmcore/tx_pool.go, [TxPool], [TxPoolInv]):
    each returns, and keeps the index, the lists and the price index consistent. *)
From stdpp Require Import gmap list sorting.
From S2P Require Import Prelude Bytes Event EventCheck Heap TxList TxListSpec TxPriced TxPool TxPoolInv.

Section Operations.
Context {Tx Hash Addr : Type} `{Countable Hash, Countable Addr} {reads : TxReads Tx Hash Addr}.
Context (rangeTxs : gmap Z Tx -> list (Z * Tx)) (rangeAll : gmap Hash Tx -> list (Hash * Tx)) (zeroAddr : Addr).
Context (Nonce_u64 : forall tx, is_u64 (Nonce tx)) (rangeTxs_perm : forall m, rangeTxs m ≡ₚ map_to_list m) (TxHash_inj : Inj eq eq TxHash).
Context (rangeAll_perm : forall m, rangeAll m ≡ₚ map_to_list m).
Abbreviation txList := (TxList.txList (Tx := Tx)).
Abbreviation sender := (sender zeroAddr).
Abbreviation tl_holds := (tl_holds Nonce Cost Gas).
Abbreviation inv := (inv zeroAddr).
Abbreviation slot := (TxPoolInv.slot (Tx := Tx) (Addr := Addr)).
Abbreviation tx_slot := (tx_slot zeroAddr).
Abbreviation tracked := (tracked TxHash Nonce GasPrice).
Abbreviation pool := (TxPool (Tx := Tx) (Hash := Hash) (Addr := Addr)).
Abbreviation enqueueTx := (enqueueTx rangeAll zeroAddr).
Abbreviation enqueue_all := (enqueue_all rangeAll zeroAddr).
Abbreviation removeTx := (removeTx rangeTxs rangeAll zeroAddr).

(** The lists and the index agree, with floating transactions. *)
Definition pinv (F : list Tx) (p : pool) : Prop := inv true (pending p) false (queue p) (all p) F.

(** No account has an empty pending list. *)
Definition pend_ne (m : gmap Addr txList) : Prop := forall a l, m !! a = Some l -> Empty l = false.

Definition pool_ok (p : pool) : Prop := pinv [] p /\ pend_ne (pending p) /\ tracked (all p) (priced p).

Lemma foldl_delete_forget sP P sQ Q A (R F : list Tx) : inv sP P sQ Q A (R ++ F) ->
  inv sP P sQ Q (foldl (fun m t => lookup_Remove m (TxHash t)) A R) F.
Proof. revert A. induction R as [|t R IH]; intros A Hi; [done|]. cbn. apply IH. by apply (inv_forget zeroAddr TxHash_inj). Qed.

Lemma removed_sub (A : gmap Hash Tx) (R : list Tx) : foldl (fun m t => lookup_Remove m (TxHash t)) A R ⊆ A.
Proof. revert A. induction R as [|t R IH]; intros A; [done|]. cbn. etrans; [apply IH|]. apply delete_subseteq. Qed.

(** ** Forgetting *)

Lemma forget_txs_run (p : pool) (R : list Tx) :
  forget_txs p (Some <$> R) = Ret (set_index p (foldl (fun m t => lookup_Remove m (TxHash t)) (all p) R) (priced p)).
Proof.
  unfold forget_txs. revert p. induction R as [|t R IH]; intros p; cbn [fmap list_fmap for_txs]; [by destruct p|].
  cbn [mbind go_bind]. rewrite IH. by destruct p.
Qed.

(** ** Queueing *)

Lemma enqueue_float (F : list Tx) (p : pool) (t : Tx) : pinv (t :: F) p ->
  exists l', enqueueTx p (TxHash t) t = (false, None, set_queue p (<[sender t := l']> (queue p))) /\
    pinv F (set_queue p (<[sender t := l']> (queue p))).
Proof.
  intros Hi. pose proof (inv_sym _ _ _ _ _ _ _ Hi) as Hs. destruct (inv_place zeroAddr _ _ _ _ _ _ _ (PriceBump (config p)) Hs) as (l' & Hadd & Hp).
  exists l'. split; [|by apply inv_sym]. unfold TxPool.enqueueTx. rewrite Hadd. cbn [negb]. unfold lookup_Get. cbn [all set_queue].
  assert (all p !! TxHash t = Some t) as ->; [|done]. apply Hi. split; [done|]. right; right. by left.
Qed.

Lemma enqueue_floats (R F : list Tx) (p : pool) : pinv (R ++ F) p ->
  exists q, enqueue_all p R = set_queue p q /\ pinv F (set_queue p q) /\ forall b, Forall (fun t => sender t <> b) R -> q !! b = queue p !! b.
Proof.
  revert p. induction R as [|t R IH]; intros p Hi; [exists (queue p); by destruct p|].
  destruct (enqueue_float _ _ _ Hi) as (l' & He & Hi'). destruct (IH _ Hi') as (q & Hq & Hi'' & Hb). exists q.
  unfold TxPool.enqueue_all in *. cbn [foldl]. rewrite He. cbn [snd]. rewrite Hq. split; [by destruct p|]. split; [by destruct p|].
  intros b [Hne Hall]%Forall_cons. rewrite Hb by done. cbn. by rewrite lookup_insert_ne.
Qed.

(** ** Removal *)

Lemma pend_ne_delete (m : gmap Addr txList) (a : Addr) : pend_ne m -> pend_ne (delete a m).
Proof. intros Hm b l [_ Hb]%lookup_delete_Some. by eapply Hm. Qed.

Lemma pend_ne_insert (m : gmap Addr txList) (a : Addr) (l : txList) : pend_ne m -> Empty l = false -> pend_ne (<[a := l]> m).
Proof. intros Hm Hl b l' [[_ <-]|[_ Hb]]%lookup_insert_Some; [done|by eapply Hm]. Qed.

(** What the price index becomes. *)
Definition after_removal (p : pool) (h : Hash) (outofbound : bool) : txPricedList :=
  match all p !! h with
  | Some _ => if outofbound then pl_Removed Nonce GasPrice rangeAll (delete h (all p)) (priced p) 1 else priced p
  | None => priced p
  end.

Definition settings_kept (p p' : pool) : Prop := config p' = config p /\ locals p' = locals p /\ currentState p' = currentState p /\ beats p' ⊆ beats p.

(** The part of removeTx after the index: [p2] is the pool without the hash. *)
Definition unindexed (p p2 : pool) (tx : Tx) (outofbound : bool) : Prop :=
  pending p2 = pending p /\ queue p2 = queue p /\ all p2 = delete (TxHash tx) (all p) /\ priced p2 = after_removal p (TxHash tx) outofbound /\
  config p2 = config p /\ locals p2 = locals p /\ currentState p2 = currentState p /\ beats p2 = beats p.

Definition removed (p p' : pool) (h : Hash) (outofbound : bool) : Prop :=
  pinv [] p' /\ pend_ne (pending p') /\ all p' = delete h (all p) /\ priced p' = after_removal p h outofbound /\ settings_kept p p' /\
  forall b, (forall t, all p !! h = Some t -> sender t <> b) -> queue p' !! b = queue p !! b /\ pending p' !! b = pending p !! b.

Lemma remove_queued (p p2 : pool) (tx : Tx) (outofbound : bool) : pinv [] p -> pend_ne (pending p) -> all p !! TxHash tx = Some tx ->
  unindexed p p2 tx outofbound -> tx_slot (queue p) tx = Some tx ->
  exists p', match queue p2 !! sender tx with
    | Some l => r ← list_Remove rangeTxs l tx; let '(_, _, l') := r in
        let p := set_queue p2 (<[sender tx := l']> (queue p2)) in Ret (if Empty l' then set_queue p (delete (sender tx) (queue p)) else p)
    | None => Ret p2 end = Ret p' /\ removed p p' (TxHash tx) outofbound.
Proof.
  intros Hi Hne Hall (E1 & E2 & E3 & E4 & E5 & E6 & E7 & E8) Hs. rewrite E2. unfold TxPoolInv.tx_slot, TxPoolInv.slot in Hs.
  destruct (queue p !! sender tx) as [l|] eqn:Hl; [|done]. cbn in Hs. destruct (inv_Q _ _ _ _ _ _ _ Hi _ _ Hl) as (c & Hst & Hc & _).
  pose proof (proj1 (list_get_spec l c _ _ Hc) Hs) as [Hin _].
  destruct (Remove_spec Nonce Cost Gas rangeTxs rangeTxs_perm l c tx Hc Hin) as (invalids & l' & Hrem & Hst' & Hno & Hp & Hc').
  unfold list_Remove. rewrite Hrem. cbn [mbind go_bind]. rewrite (Hno Hst) in Hp. cbn [app] in Hp.
  set (k := left_over _ _ _) in *. clearbody k.
  assert (inv false (<[sender tx := l']> (queue p)) true (pending p) (delete (TxHash tx) (all p)) []) as Hi'.
  { apply (inv_forget zeroAddr TxHash_inj). apply (inv_take zeroAddr _ _ _ _ _ [] (sender tx) l l' c k [tx]);
      [by apply inv_sym|done|done|done|by rewrite Hst'|by rewrite <-Hp]. }
  assert (forall q, (forall b, b <> sender tx -> q !! b = queue p !! b) -> inv false q true (pending p) (delete (TxHash tx) (all p)) [] ->
    removed p (set_queue p2 q) (TxHash tx) outofbound) as Hmk.
  { intros q Hq Hq'. unfold removed, pinv, settings_kept. cbn. rewrite E1, E3, E4, E5, E6, E7, E8. split; [by apply inv_sym|]. split; [done|].
    split; [done|]. split; [done|]. split; [done|]. intros b Hb. split; [|done]. apply Hq. intros ->. by apply (Hb tx). }
  destruct (Empty l') eqn:He; eexists; (split; [reflexivity|]); apply Hmk; rewrite ?E2.
  - intros b Hb. cbn. by rewrite lookup_delete_ne, lookup_insert_ne.
  - cbn. apply (inv_drop_list zeroAddr _ _ _ _ _ _ _ l'); [exact Hi'|by rewrite lookup_insert_eq|].
    rewrite (Empty_spec Nonce Cost Gas l' k Hc') in He. apply bool_decide_eq_true in He. by subst k.
  - intros b Hb. by rewrite lookup_insert_ne.
  - done.
Qed.

Lemma enqueue_all_kept (p : pool) (R : list Tx) q : enqueue_all p R = set_queue p q -> all (enqueue_all p R) = all p /\ priced (enqueue_all p R) = priced p.
Proof. by intros ->. Qed.

Lemma remove_pending (p p2 : pool) (tx : Tx) (outofbound : bool) (l : txList) : pinv [] p -> pend_ne (pending p) -> all p !! TxHash tx = Some tx ->
  unindexed p p2 tx outofbound -> pending p !! sender tx = Some l -> tx_slot (pending p) tx = Some tx ->
  exists invalids l', list_Remove rangeTxs l tx = Ret (true, invalids, l') /\
    let p3 := set_pending p2 (<[sender tx := l']> (pending p2)) in
    let p4 := if Empty l' then set_beats (set_pending p3 (delete (sender tx) (pending p3))) (delete (sender tx) (beats p3)) else p3 in
    let p5 := enqueue_all p4 invalids in
    removed p (set_pendingNonces p5 (setIfLower (pendingNonces p5) (sender tx) (Nonce tx))) (TxHash tx) outofbound.
Proof.
  intros Hi Hne Hall (E1 & E2 & E3 & E4 & E5 & E6 & E7 & E8) Hl Hs. unfold TxPoolInv.tx_slot, TxPoolInv.slot in Hs. rewrite Hl in Hs. cbn in Hs.
  destruct (inv_P _ _ _ _ _ _ _ Hi _ _ Hl) as (c & Hst & Hc & Hall_c).
  pose proof (proj1 (list_get_spec l c _ _ Hc) Hs) as [Hin _].
  destruct (Remove_spec Nonce Cost Gas rangeTxs rangeTxs_perm l c tx Hc Hin) as (invalids & l' & Hrem & Hst' & _ & Hp & Hc').
  exists invalids, l'. split; [exact Hrem|]. cbv zeta. set (k := left_over _ _ _) in *. clearbody k.
  assert (Forall (fun t => sender t = sender tx) invalids) as Hsi.
  { rewrite Forall_forall in *. intros t Ht. apply Hall_c. rewrite <-Hp. right. apply elem_of_app. by left. }
  assert (inv true (<[sender tx := l']> (pending p)) false (queue p) (delete (TxHash tx) (all p)) (invalids ++ [])) as Hi'.
  { apply (inv_forget zeroAddr TxHash_inj). apply (inv_take zeroAddr _ _ _ _ _ [] (sender tx) l l' c k (tx :: invalids)); [done|done|done|done|by rewrite Hst'|by rewrite <-Hp]. }
  set (p3 := set_pending p2 _). set (p4 := if Empty l' then _ else p3).
  assert (pinv (invalids ++ []) p4 /\ pend_ne (pending p4) /\ all p4 = delete (TxHash tx) (all p) /\ priced p4 = priced p2 /\ queue p4 = queue p /\
    settings_kept p p4 /\ forall b, b <> sender tx -> pending p4 !! b = pending p !! b) as (H1 & H2 & H3 & H4 & H5 & H6 & H7).
  { unfold p4, p3, pinv, settings_kept. destruct (Empty l') eqn:He; cbn; rewrite E1, E2, E3, E5, E6, E7, E8.
    - split_and!; try done.
      + apply (inv_drop_list zeroAddr _ _ _ _ _ _ _ l'); [exact Hi'|by rewrite lookup_insert_eq|].
        rewrite (Empty_spec Nonce Cost Gas l' k Hc') in He. apply bool_decide_eq_true in He. by subst k.
      + rewrite delete_insert_eq. by apply pend_ne_delete.
      + apply delete_subseteq.
      + intros b Hb. by rewrite lookup_delete_ne, lookup_insert_ne.
    - split_and!; try done; [by apply pend_ne_insert|]. intros b Hb. by rewrite lookup_insert_ne. }
  clearbody p4. clear p3. destruct (enqueue_floats invalids [] p4 H1) as (q & -> & Hq & Hqb).
  unfold removed, settings_kept, pinv. cbn. destruct H6 as (K1 & K2 & K3 & K4). split; [exact Hq|]. split; [exact H2|]. split; [exact H3|]. split; [by rewrite H4, E4|].
  split; [done|]. intros b Hb. assert (b <> sender tx) as Hbs by (intros ->; by apply (Hb tx)). split; [|by apply H7].
  rewrite Hqb; [by rewrite H5|]. eapply Forall_impl; [exact Hsi|]. intros t Ht. cbn in Ht. congruence.
Qed.

Lemma removeTx_spec (p : pool) (h : Hash) (outofbound : bool) : pinv [] p -> pend_ne (pending p) ->
  exists p', removeTx p h outofbound = Ret p' /\ removed p p' h outofbound.
Proof.
  intros Hi Hne. unfold TxPool.removeTx, lookup_Get. destruct (all p !! h) as [tx|] eqn:Hall.
  2:{ exists p. split; [done|]. unfold removed, after_removal. rewrite Hall, delete_id by done. do 4 (split; [done|]). by split; [repeat split|]. }
  pose proof (proj1 (inv_all _ _ _ _ _ _ _ Hi h tx) Hall) as [<- Hin]. set (p2 := if outofbound then _ else _).
  assert (unindexed p p2 tx outofbound) as Hp2 by (unfold unindexed, after_removal, p2; rewrite Hall; by destruct outofbound). clearbody p2.
  pose proof Hp2 as (E1 & E2 & _). rewrite E1.
  assert (forall r : go (bool * pool), r = Ret (false, p2) -> tx_slot (queue p) tx = Some tx ->
    exists p', (r' ← r; let '(gone, p) := r' in if gone : bool then Ret p else
      match queue p !! sender tx with
      | Some l => r ← list_Remove rangeTxs l tx; let '(_, _, l') := r in
          let p := set_queue p (<[sender tx := l']> (queue p)) in Ret (if Empty l' then set_queue p (delete (sender tx) (queue p)) else p)
      | None => Ret p end) = Ret p' /\ removed p p' (TxHash tx) outofbound) as Hqueue.
  { intros r -> Hs. cbn [mbind go_bind]. by apply remove_queued. }
  destruct (pending p !! sender tx) as [l|] eqn:Hl.
  - destruct (sm_Get (txs l) (Nonce tx)) as [u|] eqn:Hu.
    + assert (tx_slot (pending p) tx = Some tx) as Hs.
      { destruct Hin as [Hs|[Hs|Hs]]; [done|exfalso|by apply not_elem_of_nil in Hs].
        destruct (inv_one _ _ _ _ _ _ _ Hi (sender tx) (Nonce tx)) as [Hn|Hn]; [|unfold TxPoolInv.tx_slot in Hs; congruence].
        unfold TxPoolInv.slot in Hn. rewrite Hl in Hn. cbn in Hn. congruence. }
      destruct (remove_pending p p2 tx outofbound l Hi Hne Hall Hp2 Hl Hs) as (invalids & l' & Hr & Hd). rewrite <-E1, Hr. cbn [mbind go_bind].
      eexists. split; [reflexivity|exact Hd].
    + destruct (inv_P _ _ _ _ _ _ _ Hi _ _ Hl) as (c & _ & Hc & _). unfold list_Remove. rewrite (Remove_miss Nonce Cost Gas rangeTxs l c tx Hc Hu).
      cbn [mbind go_bind]. apply (Hqueue (Ret (false, p2))); [done|]. destruct Hin as [Hs|[Hs|Hs]]; [|done|by apply not_elem_of_nil in Hs].
      unfold TxPoolInv.tx_slot, TxPoolInv.slot in Hs. rewrite Hl in Hs. cbn in Hs. congruence.
  - apply (Hqueue (Ret (false, p2))); [done|]. destruct Hin as [Hs|[Hs|Hs]]; [|done|by apply not_elem_of_nil in Hs].
    unfold TxPoolInv.tx_slot, TxPoolInv.slot in Hs. rewrite Hl in Hs. done.
Qed.

Abbreviation remove_all := (remove_all rangeTxs rangeAll zeroAddr).

Lemma settings_trans (p q r : pool) : settings_kept p q -> settings_kept q r -> settings_kept p r.
Proof. intros (A1 & A2 & A3 & A4) (B1 & B2 & B3 & B4). split_and!; [by rewrite B1|by rewrite B2|by rewrite B3|by etrans]. Qed.

Lemma settings_refl (p : pool) : settings_kept p p.
Proof. by repeat split. Qed.

(** Dropping transactions that the price index has given up already. *)
Lemma remove_all_dropped (txs : list Tx) (p : pool) : pinv [] p -> pend_ne (pending p) ->
  exists p', remove_all p txs false = Ret p' /\ pinv [] p' /\ pend_ne (pending p') /\
    all p' = foldl (fun m t => lookup_Remove m (TxHash t)) (all p) txs /\ priced p' = priced p /\ settings_kept p p'.
Proof.
  unfold TxPool.remove_all. revert p. induction txs as [|t txs IH]; intros p Hi Hne; [exists p; by split_and!; [..|apply settings_refl]|].
  cbn [go_fold foldl]. destruct (removeTx_spec p (TxHash t) false Hi Hne) as (p1 & -> & (Hi1 & Hne1 & Ha1 & Hp1 & Hs1 & _)). cbn [mbind go_bind].
  destruct (IH p1 Hi1 Hne1) as (p' & Hr & Hi' & Hne' & Ha' & Hp' & Hs'). exists p'. split; [exact Hr|]. split; [done|]. split; [done|].
  split; [by rewrite Ha', Ha1|]. split; [|by eapply settings_trans]. rewrite Hp', Hp1. unfold after_removal. by destruct (all p !! TxHash t).
Qed.

Lemma after_removal_tracked (p : pool) (h : Hash) (b : bool) : tracked (all p) (priced p) -> tracked (delete h (all p)) (after_removal p h b).
Proof.
  intros Ht. unfold after_removal. assert (tracked (delete h (all p)) (priced p)) as Hd by (eapply tracked_sub; [exact Ht|apply delete_subseteq]).
  destruct (all p !! h); [|done]. destruct b; [|done]. by apply tracked_Removed.
Qed.

Lemma remove_ok (p p' : pool) (h : Hash) (b : bool) : pool_ok p -> removed p p' h b -> pool_ok p'.
Proof. intros (Hi & Hne & Ht) (Hi' & Hne' & Ha & Hp & _). split; [done|]. split; [done|]. rewrite Ha, Hp. by apply after_removal_tracked. Qed.

(** Removing the transactions of an account. *)
Definition only_at (a : Addr) (p p' : pool) : Prop := forall b, b <> a -> queue p' !! b = queue p !! b /\ pending p' !! b = pending p !! b.

Lemma removed_at (p p' : pool) (t : Tx) (b : bool) : pinv [] p -> removed p p' (TxHash t) b -> only_at (sender t) p p'.
Proof.
  intros Hi (_ & _ & _ & _ & _ & Hb) c Hc. apply Hb. intros u Hu.
  apply (inv_all _ _ _ _ _ _ _ Hi) in Hu as [Hu _]. apply (inj TxHash) in Hu. by subst u.
Qed.

Lemma remove_all_ok (a : Addr) (txs : list Tx) (b : bool) (p : pool) : pool_ok p -> Forall (fun t => sender t = a) txs ->
  exists p', remove_all p txs b = Ret p' /\ pool_ok p' /\ settings_kept p p' /\ only_at a p p'.
Proof.
  unfold TxPool.remove_all. revert p. induction txs as [|t txs IH]; intros p Hok Hall.
  { exists p. split; [done|]. split; [done|]. split; [apply settings_refl|]. by intros c _. }
  apply Forall_cons in Hall as [Ht Hall]. cbn [go_fold]. pose proof Hok as (Hi & Hne & _).
  destruct (removeTx_spec p (TxHash t) b Hi Hne) as (p1 & -> & Hr). cbn [mbind go_bind]. pose proof (removed_at p p1 t b Hi Hr) as Hat. rewrite Ht in Hat.
  pose proof (remove_ok p p1 (TxHash t) b Hok Hr) as Hok1. destruct (IH p1 Hok1 Hall) as (p' & Hr' & Hok' & Hs' & Hat'). exists p'.
  split; [done|]. split; [done|]. split; [eapply settings_trans; [apply Hr|done]|]. intros c Hc. destruct (Hat' c Hc) as [-> ->]. by apply Hat.
Qed.

(** ** The price limit *)

Lemma SetGasPrice_ok (p : pool) (price : Z) : pool_ok p ->
  exists p', SetGasPrice rangeTxs rangeAll zeroAddr p price = Ret p' /\ pool_ok p' /\ config p' = config p /\
    all p' = filter (fun ht : Hash * Tx => containsTx Sender (locals p) ht.2 = true \/ price <= GasPrice ht.2) (all p).
Proof.
  intros (Hi & Hne & Ht). unfold SetGasPrice. cbn [all priced locals set_gasPrice].
  destruct (plCap_spec TxHash Nonce GasPrice Sender TxHash_inj (all p) (priced p) price (locals p) Ht) as (drop & l' & -> & Ht' & Hd).
  cbn [mbind go_bind fst snd]. destruct (remove_all_dropped drop (set_index (set_gasPrice p price) (all p) l') Hi Hne) as (p' & Hr & Hi' & Hne' & Ha' & Hp' & Hk').
  exists p'. split; [exact Hr|]. cbn in Ha', Hp'. split; [split; [done|]; split; [done|]; by rewrite Ha', Hp'|]. split; [by destruct Hk' as (-> & _)|].
  rewrite Ha'. apply map_eq. intros h. apply option_eq. intros t. rewrite (lookup_remove_all TxHash), map_lookup_filter_Some. cbn [snd].
  apply and_iff_under. intros Hlt. pose proof (proj1 (inv_all _ _ _ _ _ _ _ Hi h t) Hlt) as [<- _]. split.
  - intros Hnd. destruct (containsTx Sender (locals p) t) eqn:Hl; [by left|right]. destruct (decide (price <= GasPrice t)); [done|].
    exfalso. apply Hnd. apply list_elem_of_fmap_2. apply Hd. split; [done|]. split; [done|lia].
  - intros Hc (u & Heq & Hu)%list_elem_of_fmap. apply (inj TxHash) in Heq as <-. apply Hd in Hu as (_ & Hl & Hlt'). destruct Hc as [Hc|Hc]; [congruence|lia].
Qed.

(** ** Insertion *)

Abbreviation add := (add rangeTxs rangeAll).
Abbreviation make_room := (make_room rangeTxs rangeAll zeroAddr).

Lemma i64_le (x : Z) : 0 <= x -> i64 x <= x.
Proof. intros Hx. word. Qed.

Lemma make_room_ok (p : pool) (tx : Tx) (local : bool) : pool_ok p ->
  exists u p', make_room p tx local = Ret (u, p') /\ pool_ok p' /\ settings_kept p p' /\ all p' ⊆ all p /\ (u = true -> all p' = all p /\ pending p' = pending p /\ queue p' = queue p).
Proof.
  intros Hok. unfold TxPool.make_room. set (limit := u64 _). destruct (Z.leb_spec limit (lookup_Count (all p))) as [Hfull|Hroom].
  2:{ exists false, p. split; [done|]. split; [done|]. split; [apply settings_refl|]. by split. }
  destruct Hok as (Hi & Hne & Ht).
  assert (exists u l, (if local then Ret (false, priced p) else Underpriced TxHash Nonce GasPrice Sender (all p) (priced p) tx (locals p)) = Ret (u, l) /\ tracked (all p) l) as (u & l & -> & Htl).
  { destruct local; [by exists false, (priced p)|].
    destruct (Underpriced_spec TxHash Nonce GasPrice Sender TxHash_inj (all p) (priced p) tx (locals p) Ht) as (u & l & Hu & Hl & _). by exists u, l. }
  cbn [mbind go_bind fst snd]. destruct u.
  { exists true, (set_index p (all p) l). split; [done|]. split; [split; [exact Hi|split; [exact Hne|exact Htl]]|]. split; [by repeat split|]. by split. }
  cbn [all priced locals set_index config].
  assert (0 <= lookup_Count (all p) - i64 (u64 (limit - 1))) as Hc.
  { pose proof (u64_range (GlobalSlots (config p) + GlobalQueue (config p))) as Hl. fold limit in Hl. clearbody limit. unfold is_u64 in Hl.
    destruct (decide (limit = 0)) as [->|Hz].
    - change (i64 (u64 (0 - 1))) with (-1). unfold lookup_Count. lia.
    - rewrite (u64_id (limit - 1)) by (unfold is_u64; lia). pose proof (i64_le (limit - 1) ltac:(lia)). lia. }
  destruct (Discard_spec TxHash Nonce GasPrice Sender TxHash_inj (all p) l _ (locals p) Htl Hc) as (drop & l' & -> & Htl' & _). cbn [mbind go_bind fst snd].
  destruct (remove_all_dropped drop (set_index (set_index p (all p) l) (all p) l') Hi Hne) as (p' & -> & Hi' & Hne' & Ha' & Hp' & Hs').
  cbn [mbind go_bind]. exists false, p'. split; [done|]. cbn in Ha', Hp'. split; [split; [done|]; split; [done|]; by rewrite Ha', Hp'|]. split; [done|].
  split; [|done]. rewrite Ha'. apply removed_sub.
Qed.

(** The index after a replacement. *)
Lemma reindex (p : pool) (tx : Tx) (old : option Tx) : tracked (all p) (priced p) ->
  let p1 := match old with Some o => priced_Removed rangeAll (all_Remove p (TxHash o)) 1 | None => p end in
  let p2 := priced_Put (all_Add p1 tx) tx in
  tracked (all p2) (priced p2) /\ all p2 = <[TxHash tx := tx]> (match old with Some o => delete (TxHash o) (all p) | None => all p end).
Proof.
  intros Ht. destruct old as [o|]; cbn; (split; [|done]); apply tracked_Put; [|done]. apply tracked_Removed; [done|]. eapply tracked_sub; [exact Ht|apply delete_subseteq].
Qed.

Lemma enqueue_new (p : pool) (tx : Tx) : pool_ok p -> all p !! TxHash tx = None -> tx_slot (pending p) tx = None ->
  exists r e p', enqueueTx p (TxHash tx) tx = (r, e, p') /\ pool_ok p' /\ settings_kept p p' /\ pending p' = pending p /\
    (e = None -> all p' !! TxHash tx = Some tx).
Proof.
  intros (Hi & Hne & Ht) Hn Hs. unfold TxPool.enqueueTx. destruct (target_ok zeroAddr false (queue p) (sender tx) (inv_Q _ _ _ _ _ _ _ Hi)) as (c & (Hst & Hc & Hall) & Hslot).
  set (l := default _ _) in *. pose proof (list_Add_spec Nonce Cost Gas GasPrice l c tx (PriceBump (config p)) Hc) as Hadd. unfold list_Add.
  destruct (sm_Get (txs l) (Nonce tx)) as [old|] eqn:Hold.
  - assert (queue p !! sender tx = Some l) as Hl.
    { unfold l in *. destruct (queue p !! sender tx) as [l0|]; [done|]. exfalso. apply (list_get_spec _ _ _ _ (new_holds false)) in Hold as [Hold _]. by apply not_elem_of_nil in Hold. }
    destruct Hadd as (_ & _ & Hadd). destruct (_ || _).
    + rewrite Hadd. cbn [negb]. exists false, (Some ErrReplaceUnderpriced), p. rewrite insert_id by done. split; [by destruct p|]. split; [done|]. split; [apply settings_refl|]. done.
    + destruct Hadd as (l' & -> & Hc' & Hst'). cbn [negb]. set (p1 := set_queue p _).
      assert (pinv [] (set_index p1 (<[TxHash tx := tx]> (delete (TxHash old) (all p))) (priced p1))) as Hi'.
      { apply inv_sym. apply (inv_replace zeroAddr TxHash_inj _ _ _ _ _ _ _ l l' c); [by apply inv_sym|done|done|done|done|done|done]. }
      unfold lookup_Get. cbn [all p1 set_queue priced_Removed all_Remove set_index].
      assert (lookup_Remove (all p) (TxHash old) !! TxHash tx = None) as -> by (apply lookup_delete_None; by right).
      destruct (reindex p1 tx (Some old) Ht) as [Ht' Ha']. eexists _, None, _. split; [reflexivity|]. split; [|split; [|split; [done|]]].
      * split; [|split; [done|exact Ht']]. exact Hi'.
      * by repeat split.
      * intros _. exact (eq_trans (f_equal (lookup (TxHash tx)) Ha') (lookup_insert_eq _ _ _)).
  - destruct Hadd as (Hni & l' & Hadd & Hc' & Hst'). rewrite Hadd. cbn [negb]. unfold lookup_Get. cbn [all set_queue]. rewrite Hn.
    assert (tx_slot (queue p) tx = None) as Hq by (unfold TxPoolInv.tx_slot; rewrite Hslot; done).
    pose proof (inv_sym _ _ _ _ _ _ _ (inv_new zeroAddr TxHash_inj _ _ _ _ _ tx Hi Hn Hs Hq)) as Hi1.
    destruct (inv_place zeroAddr _ _ _ _ _ _ _ (PriceBump (config p)) Hi1) as (l2 & Hadd2 & Hi2). fold l in Hadd2. unfold list_Add in Hadd2. rewrite Hadd in Hadd2. injection Hadd2 as <-.
    destruct (reindex (set_queue p (<[sender tx:=l']> (queue p))) tx None Ht) as [Ht' Ha']. eexists _, None, _. split; [reflexivity|]. split; [|split; [|split; [done|]]].
    + split; [by apply inv_sym|]. split; [done|exact Ht'].
    + by repeat split.
    + intros _. exact (eq_trans (f_equal (lookup (TxHash tx)) Ha') (lookup_insert_eq _ _ _)).
Qed.

Lemma pool_ok_ext (p p' : pool) : pool_ok p -> pending p' = pending p -> queue p' = queue p -> all p' = all p -> priced p' = priced p -> pool_ok p'.
Proof. intros (Hi & Hne & Ht) E1 E2 E3 E4. unfold pool_ok, pinv. by rewrite E1, E2, E3, E4. Qed.

Lemma journalTx_kept (p : pool) (a : Addr) (tx : Tx) : pending (journalTx p a tx) = pending p /\ queue (journalTx p a tx) = queue p /\
  all (journalTx p a tx) = all p /\ priced (journalTx p a tx) = priced p /\ config (journalTx p a tx) = config p /\ currentState (journalTx p a tx) = currentState p.
Proof. unfold journalTx. destruct (journal p); [|done]. by destruct (as_contains _ _). Qed.

(** A pending transaction is replaced by a dearer one. *)
Lemma replace_pending (p : pool) (tx : Tx) (l : txList) : pool_ok p -> all p !! TxHash tx = None -> pending p !! sender tx = Some l -> Overlaps Nonce l tx = true ->
  exists b old l', list_Add l tx (PriceBump (config p)) = (b, Some old, l') /\ (b = true ->
    let p1 := priced_Removed rangeAll (all_Remove (set_pending p (<[sender tx := l']> (pending p))) (TxHash old)) 1 in
    pool_ok (priced_Put (all_Add p1 tx) tx)).
Proof.
  intros (Hi & Hne & Ht) Hn Hl Ho. unfold Overlaps in Ho. apply bool_decide_eq_true in Ho as [old Hold].
  destruct (inv_P _ _ _ _ _ _ _ Hi _ _ Hl) as (c & Hst & Hc & Hall). pose proof (list_Add_spec Nonce Cost Gas GasPrice l c tx (PriceBump (config p)) Hc) as Hadd.
  rewrite Hold in Hadd. destruct Hadd as (_ & _ & Hadd). unfold list_Add. destruct (_ || _); [exists false, old, l; by rewrite Hadd|].
  destruct Hadd as (l' & Hadd & Hc' & Hst'). exists true, old, l'. rewrite Hadd. split; [done|]. intros _. cbv zeta.
  destruct (reindex (set_pending p (<[sender tx := l']> (pending p))) tx (Some old) Ht) as [Ht' Ha'].
  split; [|split; [|exact Ht']].
  - apply (inv_replace zeroAddr TxHash_inj _ _ _ _ _ _ _ l l' c); done.
  - cbn. apply pend_ne_insert; [done|]. rewrite (Empty_spec Nonce Cost Gas l' _ Hc'). apply bool_decide_eq_false. intros Hnil.
    assert (tx ∈ put Nonce tx c) as Hin by (apply elem_of_put; by left). rewrite Hnil in Hin. by apply not_elem_of_nil in Hin.
Qed.

Lemma add_queued (p : pool) (tx : Tx) (local : bool) : pool_ok p -> all p !! TxHash tx = None -> tx_slot (pending p) tx = None ->
  exists r e p', (let '(replaced, err, p) := enqueueTx p (TxHash tx) tx in
    match err with
    | Some e => Ret (false, Some e, p)
    | None =>
      let p := if local && negb (as_contains (locals p) (sender tx)) then set_locals p (as_add (locals p) (sender tx)) else p in
      Ret (replaced, None, journalTx p (sender tx) tx)
    end) = Ret (r, e, p') /\ pool_ok p' /\ config p' = config p /\ currentState p' = currentState p.
Proof.
  intros Hok Hn Hs. destruct (enqueue_new p tx Hok Hn Hs) as (r & e & p2 & -> & Hok2 & (Hc2 & _ & Hst2 & _) & _). destruct e as [e|].
  { exists false, (Some e), p2. split; [done|]. split; [done|]. by rewrite Hc2, Hst2. }
  set (p3 := if _ && _ then _ else p2). assert (pool_ok p3 /\ config p3 = config p2 /\ currentState p3 = currentState p2) as (Hok3 & Hc3 & Hst3).
  { unfold p3. destruct (_ && _); [|done]. split; [eapply pool_ok_ext; [exact Hok2|..]; done|done]. }
  clearbody p3. destruct (journalTx_kept p3 (sender tx) tx) as (J1 & J2 & J3 & J4 & J5 & J6).
  eexists _, None, _. split; [reflexivity|]. split; [eapply pool_ok_ext; [exact Hok3|..]; done|]. by rewrite J5, J6, Hc3, Hst3, Hc2, Hst2.
Qed.

Lemma pool_add_ok (eth : EthParams) (p : pool) (tx : Tx) (local : bool) : pool_ok p ->
  exists r e p', add eth zeroAddr p tx local = Ret (r, e, p') /\ pool_ok p' /\ config p' = config p /\ currentState p' = currentState p.
Proof.
  intros Hok. unfold TxPool.add, lookup_Get. destruct (all p !! TxHash tx) as [t|] eqn:Hn; [by exists false, (Some KnownTransaction), p|].
  destruct (validateTx eth p tx local) as [e|]; [by exists false, (Some e), p|].
  destruct (make_room_ok p tx local Hok) as (u & p1 & -> & Hok1 & (Hc1 & _ & Hst1 & _) & Hsub & _). cbn [mbind go_bind].
  destruct u; [by exists false, (Some ErrUnderpriced), p1|].
  assert (all p1 !! TxHash tx = None) as Hn1 by (by eapply lookup_weaken_None). rewrite <-Hc1, <-Hst1.
  destruct (pending p1 !! sender tx) as [l|] eqn:Hl; [destruct (Overlaps Nonce l tx) eqn:Ho|].
  - destruct (replace_pending p1 tx l Hok1 Hn1 Hl Ho) as (b & old & l' & -> & Hb). destruct b; cbn [negb].
    + specialize (Hb eq_refl). cbv zeta in Hb. set (p2 := priced_Put _ _) in *. destruct (journalTx_kept p2 (sender tx) tx) as (J1 & J2 & J3 & J4 & J5 & J6).
      eexists _, None, _. split; [reflexivity|]. split; [eapply pool_ok_ext; [exact Hb|..]; cbn; done|]. cbn. by rewrite J5, J6.
    + by exists false, (Some ErrReplaceUnderpriced), p1.
  - apply add_queued; [done|done|]. unfold TxPoolInv.tx_slot, TxPoolInv.slot. rewrite Hl. cbn. unfold Overlaps in Ho. apply bool_decide_eq_false in Ho. by apply eq_None_not_Some.
  - apply add_queued; [done|done|]. unfold TxPoolInv.tx_slot, TxPoolInv.slot. by rewrite Hl.
Qed.

Lemma addTxsLocked_ok (eth : EthParams) (p : pool) (ts : list Tx) (local : bool) : pool_ok p ->
  exists errs dirty p', addTxsLocked rangeTxs rangeAll eth zeroAddr p ts local = Ret (errs, dirty, p') /\ pool_ok p' /\
    config p' = config p /\ currentState p' = currentState p.
Proof.
  unfold addTxsLocked. set (f := fun st tx => _). intros Hok.
  assert (forall errs dirty, exists errs' dirty' p', go_fold f (errs, dirty, p) ts = Ret (errs', dirty', p') /\ pool_ok p' /\
    config p' = config p /\ currentState p' = currentState p) as Hgen; [|apply Hgen].
  revert p Hok. induction ts as [|t ts IH]; intros p Hok errs dirty; [by exists errs, dirty, p|]. cbn [go_fold]. unfold f at 2.
  destruct (pool_add_ok eth p t local Hok) as (r & e & p1 & -> & Hok1 & Hc1 & Hs1). cbn [mbind go_bind]. rewrite <-Hc1, <-Hs1. by apply IH.
Qed.

End Operations.
