(* ===== verification/TxPoolReorg.v ===== *)
(** Promotion and demotion in the transaction pool (src/evmcore/tx_pool.go): promoteExecutables and
    demoteUnexecutables return and keep the pool consistent; after a demotion the pending lists start at the
    nonces of the state and hold payable transactions only. *)
From stdpp Require Import gmap list sorting.
From S2P Require Import Prelude Bytes Event EventCheck Heap TxList TxListSpec TxPriced TxPool TxPoolInv TxPoolSpec.

Section Reorg.
Context {Tx Hash Addr : Type} `{Countable Hash, Countable Addr} {reads : TxReads Tx Hash Addr}.
Context (rangeTxs : gmap Z Tx -> list (Z * Tx)) (rangeAll : gmap Hash Tx -> list (Hash * Tx)) (zeroAddr : Addr).
Context (Nonce_u64 : forall tx, is_u64 (Nonce tx)) (rangeTxs_perm : forall m, rangeTxs m ≡ₚ map_to_list m) (TxHash_inj : Inj eq eq TxHash).
Context (rangeAll_perm : forall m, rangeAll m ≡ₚ map_to_list m).
Abbreviation txList := (TxList.txList (Tx := Tx)).
Abbreviation sender := (sender zeroAddr).
Abbreviation tl_holds := (tl_holds Nonce Cost Gas).
Abbreviation inv := (inv zeroAddr).
Abbreviation tracked := (tracked TxHash Nonce GasPrice).
Abbreviation pool := (TxPool (Tx := Tx) (Hash := Hash) (Addr := Addr)).
Abbreviation enqueue_all := (enqueue_all rangeAll zeroAddr).
Abbreviation pinv := (pinv zeroAddr).
Abbreviation pool_ok := (pool_ok zeroAddr).
Abbreviation promoteTx := (promoteTx rangeAll).

(** ** Promotion *)

Lemma get_nonempty (l : txList) (n : Z) (t : Tx) : sm_Get (txs l) n = Some t -> Empty l = false.
Proof.
  unfold sm_Get, Empty, Len, sm_Len. intros Hg. apply Z.eqb_neq. intros Hz.
  assert (items (txs l) = ∅) as He by (apply map_size_empty_iff; lia). by rewrite He, lookup_empty in Hg.
Qed.

Lemma Add_get (l l' : txList) (t : Tx) (bump : Z) old : list_Add l t bump = (true, old, l') -> sm_Get (txs l') (Nonce t) = Some t.
Proof.
  unfold list_Add, Add. set (refused := match _ with Some _ => _ | None => false end). destruct refused; [done|]. intros [= _ <-]. cbn. unfold sm_Get. cbn.
  by rewrite lookup_insert_eq.
Qed.

Lemma promote_float (now : Z) (F : list Tx) (p : pool) (t : Tx) Q : inv true (pending p) false Q (all p) (t :: F) -> pend_ne (pending p) ->
  exists p', promoteTx now p (sender t) (TxHash t) t = (true, p') /\ inv true (pending p') false Q (all p') F /\ pend_ne (pending p') /\
    all p' = all p /\ priced p' = priced p /\ queue p' = queue p /\ config p' = config p /\ locals p' = locals p /\ currentState p' = currentState p /\
    currentMaxGas p' = currentMaxGas p.
Proof.
  intros Hi Hne. destruct (inv_place zeroAddr _ _ _ _ _ _ _ (PriceBump (config p)) Hi) as (l' & Hadd & Hp). unfold TxPool.promoteTx. rewrite Hadd. cbn [negb].
  unfold lookup_Get. cbn [all set_pending]. assert (all p !! TxHash t = Some t) as ->. { apply Hi. split; [done|]. right; right. by left. }
  eexists. split; [reflexivity|]. split; [exact Hp|]. split; [|by repeat split]. cbn. apply pend_ne_insert; [done|]. eapply get_nonempty, Add_get, Hadd.
Qed.

Lemma promote_floats (now : Z) (a : Addr) (R F : list Tx) Q (p : pool) (promoted : list Tx) : inv true (pending p) false Q (all p) (R ++ F) -> pend_ne (pending p) ->
  Forall (fun t => sender t = a) R ->
  exists p', for_txs (fun st tx => let '(ok, p) := promoteTx now st.1 a (TxHash tx) tx in Ret (p, if ok : bool then st.2 ++ [tx] else st.2)) (p, promoted) (Some <$> R) =
      Ret (p', promoted ++ R) /\ inv true (pending p') false Q (all p') F /\ pend_ne (pending p') /\
    all p' = all p /\ priced p' = priced p /\ queue p' = queue p /\ config p' = config p /\ locals p' = locals p /\ currentState p' = currentState p /\
    currentMaxGas p' = currentMaxGas p.
Proof.
  revert p promoted. induction R as [|t R IH]; intros p promoted Hi Hne Hall; [exists p; cbn; rewrite app_nil_r; by repeat (split; [done|])|].
  apply Forall_cons in Hall as [<- Hall]. cbn [fmap list_fmap for_txs fst snd].
  destruct (promote_float now _ _ _ _ Hi Hne) as (p1 & -> & Hi1 & Hne1 & E1 & E2 & E3 & E4 & E5 & E6 & E7). cbn [mbind go_bind].
  destruct (IH p1 (promoted ++ [t]) Hi1 Hne1 Hall) as (p' & -> & Hi' & Hne' & D1 & D2 & D3 & D4 & D5 & D6 & D7). exists p'.
  rewrite <-(assoc_L (++)). split; [done|]. split; [done|]. split; [done|]. split_and!; congruence.
Qed.

(** Taking transactions out of a queued list. *)
Lemma take_queued P Q A F (a : Addr) (l l' : txList) (c c' R : list Tx) : inv true P false Q A F -> Q !! a = Some l -> tl_holds l c ->
  tl_holds l' c' -> strict l' = false -> c ≡ₚ R ++ c' -> inv true P false (<[a := l']> Q) A (R ++ F).
Proof. intros Hi Hl Hc Hc' Hs Hp. apply inv_sym. eapply inv_take; [by apply inv_sym|done..]. Qed.

Lemma filter_parts (P : Tx -> Prop) `{forall t, Decision (P t)} (c : list Tx) : c ≡ₚ filter P c ++ filter (fun t => ~ P t) c.
Proof.
  induction c as [|t c IH]; [done|]. rewrite !filter_cons. destruct (decide (P t)).
  - rewrite decide_False by tauto. cbn. by rewrite <-IH.
  - rewrite decide_True by done. by rewrite <-Permutation_middle, <-IH.
Qed.

Abbreviation forgotten A R := (foldl (fun m t => lookup_Remove m (TxHash t)) A R).

Lemma Filter_loose (l : txList) (c : list Tx) (cost gas : Z) : tl_holds l c -> strict l = false ->
  exists drops l' c', list_Filter rangeTxs l cost gas = (drops, [], l') /\ c ≡ₚ drops ++ c' /\ strict l' = false /\ tl_holds l' c'.
Proof.
  intros Hc Hst. destruct (Filter_spec Nonce Cost Gas rangeTxs Nonce_u64 rangeTxs_perm l c cost gas Hc) as (drops & invalids & l' & Hf & Hr & Hp & Hst' & Hc').
  rewrite Hst in Hp, Hc'. cbn [left_over] in Hp, Hc'. exists drops, l', (filter (fun tx => over Cost Gas cost gas tx <> true) c).
  assert (invalids = []) as ->.
  { rewrite Hr in Hp. rewrite <-(filter_both Cost Gas (over Cost Gas cost gas) c) in Hp at 3. apply Permutation_app_inv_l in Hp.
    apply (Permutation_app_inv_r _ _ []) in Hp. by apply Permutation_nil_r in Hp. }
  split; [exact Hf|]. split; [symmetry; exact Hp|]. split; [congruence|done].
Qed.

(** The limit of the account, which local accounts do not have. *)
Lemma cap_queued (p : pool) (a : Addr) (l : txList) (c : list Tx) Q : inv true (pending p) false Q (all p) [] -> Q !! a = Some l -> tl_holds l c -> strict l = false ->
  0 <= i64 (AccountQueue (config p)) ->
  exists caps l' A, (if as_contains (locals p) a then Ret ([], l, p) else
      c ← Cap l (i64 (AccountQueue (config p))); p ← forget_txs p c.1; Ret (c.1, c.2, p)) = Ret (caps, l', set_index p A (priced p)) /\
    inv true (pending p) false (<[a := l']> Q) A [] /\ A ⊆ all p /\ strict l' = false /\ exists c', tl_holds l' c'.
Proof.
  intros Hi Hl Hc Hst Haq. destruct (as_contains (locals p) a).
  { exists [], l, (all p). rewrite insert_id by done. split; [by destruct p|]. split; [done|]. split; [done|]. split; [done|]. by exists c. }
  destruct (Cap_spec Nonce Cost Gas l c _ Hc Haq) as (l' & -> & Hst' & Hc'). cbn [mbind go_bind fst snd]. rewrite forget_txs_run. cbn [mbind go_bind].
  eexists _, l', _. split; [reflexivity|]. split; [|split; [apply removed_sub|split; [congruence|by eexists]]].
  apply (foldl_delete_forget zeroAddr TxHash_inj). eapply take_queued; [exact Hi|exact Hl|exact Hc|exact Hc'|congruence|].
  rewrite reverse_Permutation, Permutation_app_comm. by rewrite take_drop.
Qed.

Lemma promoteAccount_ok (now : Z) (p : pool) (promoted : list Tx) (a : Addr) : pool_ok p -> 0 <= i64 (AccountQueue (config p)) ->
  exists p' promoted', promoteAccount rangeTxs rangeAll now (p, promoted) a = Ret (p', promoted') /\ pool_ok p' /\
    config p' = config p /\ locals p' = locals p /\ currentState p' = currentState p /\ currentMaxGas p' = currentMaxGas p.
Proof.
  intros (Hi & Hne & Ht) Haq. unfold promoteAccount. destruct (queue p !! a) as [l|] eqn:Hl; [|by exists p, promoted].
  destruct (inv_Q _ _ _ _ _ _ _ Hi _ _ Hl) as (c & Hst & Hc & Hall).
  destruct (Forward_spec Nonce Cost Gas l c (GetNonce (currentState p) a) Hc) as (l1 & -> & Hst1 & Hc1). cbn [mbind go_bind].
  set (R1 := filter (older Nonce _) c) in *. set (c1 := filter _ c) in Hc1.
  assert (c ≡ₚ R1 ++ c1) as Hp1 by apply filter_parts. clearbody R1 c1.
  pose proof (take_queued _ _ _ _ a l l1 c c1 R1 Hi Hl Hc Hc1 ltac:(congruence) Hp1) as Hi1.
  apply (foldl_delete_forget zeroAddr TxHash_inj) in Hi1.
  rewrite forget_txs_run. cbn [mbind go_bind]. set (A1 := forgotten (all p) R1) in *. cbn [currentState currentMaxGas set_index].
  destruct (Filter_loose l1 c1 (GetBalance (currentState p) a) (currentMaxGas p) Hc1 ltac:(congruence)) as (drops & l2 & c2 & -> & Hp2 & Hst2 & Hc2).
  pose proof (take_queued _ _ _ _ a l1 l2 c1 c2 drops Hi1 ltac:(by rewrite lookup_insert_eq) Hc1 Hc2 Hst2 Hp2) as Hi2.
  apply (foldl_delete_forget zeroAddr TxHash_inj) in Hi2. rewrite insert_insert_eq in Hi2.
  rewrite forget_txs_run. cbn [mbind go_bind all set_index]. set (A2 := forgotten A1 drops) in *.
  destruct (noncer_get _ a) as [start n]. destruct (Ready_spec Nonce Cost Gas Nonce_u64 l2 c2 start Hc2) as (l3 & R3 & c3 & -> & Hst3 & Hp3 & _ & Hc3).
  cbn [mbind go_bind]. set (p2 := set_pendingNonces _ n).
  pose proof (take_queued _ _ _ _ a l2 l3 c2 c3 R3 Hi2 ltac:(by rewrite lookup_insert_eq) Hc2 Hc3 ltac:(congruence) ltac:(by rewrite Hp3)) as Hi3.
  rewrite insert_insert_eq in Hi3.
  assert (Forall (fun t => sender t = a) R3) as Hall3.
  { rewrite Forall_forall in *. intros t Htin. apply Hall. rewrite Hp1, Hp2, Hp3, !elem_of_app. by right; right; left. }
  destruct (promote_floats now a R3 [] _ p2 promoted Hi3 Hne Hall3) as (p3 & -> & Hi4 & Hne4 & E1 & E2 & E3 & E4 & E5 & E6 & E7). cbn [mbind go_bind].
  destruct (cap_queued p3 a l3 c3 (<[a:=l3]> (queue p)) Hi4) as (caps & l4 & A4 & -> & Hi5 & Hsub & Hst5 & c5 & Hc5);
    [by rewrite lookup_insert_eq|done|congruence|by rewrite E4|]. rewrite insert_insert_eq in Hi5. cbn [mbind go_bind].
  eexists _, _. split; [reflexivity|]. split; [|cbn; by rewrite E4, E5, E6, E7]. split; [|split; [exact Hne4|]].
  - unfold TxPoolSpec.pinv. cbn. rewrite E3. cbn. destruct (Empty l4) eqn:He; [|exact Hi5].
    rewrite <-(delete_insert_eq (queue p) a l4). apply inv_sym. eapply inv_drop_list; [by apply inv_sym|by rewrite lookup_insert_eq|].
    rewrite (Empty_spec Nonce Cost Gas l4 c5 Hc5) in He. apply bool_decide_eq_true in He. by subst c5.
  - cbn. apply tracked_Removed; [done|]. rewrite E2. cbn. eapply tracked_sub; [exact Ht|].
    etrans; [exact Hsub|]. rewrite E1. cbn. etrans; apply removed_sub.
Qed.

Lemma promoteExecutables_ok (now : Z) (p : pool) (accounts : list Addr) : pool_ok p -> 0 <= i64 (AccountQueue (config p)) ->
  exists p' promoted, promoteExecutables rangeTxs rangeAll now p accounts = Ret (p', promoted) /\ pool_ok p' /\
    config p' = config p /\ locals p' = locals p /\ currentState p' = currentState p /\ currentMaxGas p' = currentMaxGas p.
Proof.
  unfold promoteExecutables. generalize (@nil Tx) as promoted. revert p. induction accounts as [|a accounts IH]; intros p promoted Hok Haq; [by exists p, promoted|].
  cbn [go_fold]. destruct (promoteAccount_ok now p promoted a Hok Haq) as (p1 & pr1 & -> & Hok1 & E1 & E2 & E3 & E4). cbn [mbind go_bind].
  destruct (IH p1 pr1 Hok1 ltac:(by rewrite E1)) as (p' & pr & Hr & Hok' & D1 & D2 & D3 & D4). exists p', pr. split; [exact Hr|]. split; [done|]. split_and!; congruence.
Qed.

(** ** Demotion *)

Lemma for_txs_enqueue (p : pool) (R : list Tx) :
  for_txs (fun p tx => Ret (enqueueTx rangeAll zeroAddr p (TxHash tx) tx).2) p (Some <$> R) = Ret (enqueue_all p R).
Proof. revert p. induction R as [|t R IH]; intros p; [done|]. cbn [fmap list_fmap for_txs mbind go_bind]. rewrite IH. done. Qed.

(** What demotion leaves of an account: transactions that the state can execute, from the first nonce on. *)
Definition executable (p : pool) (a : Addr) : Prop := forall l, pending p !! a = Some l ->
  is_Some (sm_Get (txs l) (GetNonce (currentState p) a)) /\
  exists c, tl_holds l c /\ Forall (fun t => GetNonce (currentState p) a <= Nonce t /\ Cost t <= GetBalance (currentState p) a /\ Gas t <= currentMaxGas p) c.

Definition ne_but (a : Addr) (m : gmap Addr txList) : Prop := forall b l, b <> a -> m !! b = Some l -> Empty l = false.

Lemma ne_but_insert (a : Addr) (m : gmap Addr txList) (l : txList) : ne_but a m -> ne_but a (<[a := l]> m).
Proof. intros Hm b l' Hb [[? _]|[_ Hl]]%lookup_insert_Some; [done|]. by eapply Hm. Qed.

Definition base_kept (p p' : pool) : Prop := config p' = config p /\ locals p' = locals p /\ currentState p' = currentState p /\ currentMaxGas p' = currentMaxGas p.

Lemma base_refl (p : pool) : base_kept p p.
Proof. by repeat split. Qed.

Lemma base_trans (p q r : pool) : base_kept p q -> base_kept q r -> base_kept p r.
Proof. intros (A1 & A2 & A3 & A4) (B1 & B2 & B3 & B4). split_and!; congruence. Qed.

(** An account whose pending list does not start at the nonce of the state: everything goes back to the queue. *)
Lemma postpone (p : pool) (a : Addr) (l : txList) (c : list Tx) (nonce : Z) : pinv [] p -> pending p !! a = Some l -> tl_holds l c -> strict l = true ->
  tracked (all p) (priced p) ->
  exists p' l' c', (if (0 <? Len l) && bool_decide (sm_Get (txs l) nonce = None) then
           r ← Cap l 0;
           let '(gapped, l) := r in
           p ← for_txs (fun p tx => Ret (enqueueTx rangeAll zeroAddr p (TxHash tx) tx).2) (set_pending p (<[a := l]> (pending p))) gapped;
           Ret (p, l)
         else Ret (p, l)) = Ret (p', l') /\
    pinv [] p' /\ pending p' = <[a := l']> (pending p) /\ tl_holds l' c' /\ (c' = [] \/ c' = c /\ l' = l /\ is_Some (sm_Get (txs l) nonce)) /\
    tracked (all p') (priced p') /\ base_kept p p'.
Proof.
  intros Hi Hl Hc Hst Ht. destruct ((0 <? Len l) && bool_decide (sm_Get (txs l) nonce = None)) eqn:Hgap.
  - destruct (Cap_spec Nonce Cost Gas l c 0 Hc ltac:(lia)) as (l' & -> & Hst' & Hc'). change (take (Z.to_nat 0) c) with (@nil Tx) in Hc'. change (drop (Z.to_nat 0) c) with c. cbn [mbind go_bind].
    rewrite for_txs_enqueue. cbn [mbind go_bind].
    assert (pinv (reverse c ++ []) (set_pending p (<[a:=l']> (pending p)))) as Hi'.
    { unfold TxPoolSpec.pinv. cbn. eapply inv_take; [exact Hi|exact Hl|exact Hc|exact Hc'|congruence|]. by rewrite reverse_Permutation, app_nil_r. }
    destruct (enqueue_floats rangeAll zeroAddr (reverse c) [] _ Hi') as (q & -> & Hq & _). eexists _, l', []. split; [reflexivity|].
    split; [exact Hq|]. split; [done|]. split; [done|]. split; [by left|]. split; [done|]. by repeat split.
  - exists p, l, c. split; [done|]. split; [done|]. split; [by rewrite insert_id|]. split; [done|]. split; [|split; [done|apply base_refl]].
    apply andb_false_iff in Hgap as [Hz|Hn].
    + left. rewrite (Len_spec Nonce Cost Gas l c Hc) in Hz. apply Z.ltb_ge in Hz. destruct c; [done|]. unfold zlen in Hz. cbn in Hz. lia.
    + right. split; [done|]. split; [done|]. apply bool_decide_eq_false in Hn. by apply not_eq_None_Some.
Qed.

Lemma left_over_bounds (l : txList) (c : list Tx) (nonce cost gas : Z) : Forall (fun t => ~ older Nonce nonce t) c ->
  Forall (fun t => nonce <= Nonce t /\ Cost t <= cost /\ Gas t <= gas) (left_over (strict l) (over Cost Gas cost gas) c).
Proof.
  intros Hc. rewrite Forall_forall in *. intros t Ht. pose proof (left_over_good (strict l) (over Cost Gas cost gas) c) as Hg.
  rewrite Forall_forall in Hg. specialize (Hg t Ht). unfold over in Hg. rewrite orb_true_iff, !Z.ltb_lt in Hg.
  assert (t ∈ c) as Htc. { destruct (left_over_sub Cost Gas (strict l) (over Cost Gas cost gas) c) as (k & Hk). rewrite <-Hk. apply elem_of_app. by left. }
  specialize (Hc t Htc). unfold older in Hc. lia.
Qed.

Lemma demoteAccount_ok (p : pool) (a : Addr) : pool_ok p ->
  exists p', demoteAccount rangeTxs rangeAll zeroAddr p a = Ret p' /\ pool_ok p' /\ base_kept p p' /\ executable p' a /\
    forall b, b <> a -> pending p' !! b = pending p !! b.
Proof.
  intros (Hi & Hne & Ht). unfold demoteAccount. destruct (pending p !! a) as [l|] eqn:Hl.
  2:{ exists p. split; [done|]. split; [done|]. split; [apply base_refl|]. split; [|done]. intros l Hl'. congruence. }
  destruct (inv_P _ _ _ _ _ _ _ Hi _ _ Hl) as (c & Hst & Hc & Hall). set (nonce := GetNonce (currentState p) a).
  destruct (Forward_spec Nonce Cost Gas l c nonce Hc) as (l1 & -> & Hst1 & Hc1). cbn [mbind go_bind].
  set (R1 := filter (older Nonce _) c) in *. set (c1 := filter _ c) in Hc1.
  assert (c ≡ₚ R1 ++ c1) as Hp1 by apply filter_parts.
  assert (Forall (fun t => ~ older Nonce nonce t) c1) as Hold by (apply Forall_forall; by intros t [Hn _]%list_elem_of_filter). clearbody R1 c1.
  pose proof (inv_take zeroAddr _ _ _ _ _ _ a l l1 c c1 R1 Hi Hl Hc Hc1 ltac:(congruence) Hp1) as Hi1.
  apply (foldl_delete_forget zeroAddr TxHash_inj) in Hi1.
  rewrite forget_txs_run. cbn [mbind go_bind]. set (A1 := forgotten (all p) R1) in *. cbn [currentState currentMaxGas set_index].
  destruct (Filter_spec Nonce Cost Gas rangeTxs Nonce_u64 rangeTxs_perm l1 c1 (GetBalance (currentState p) a) (currentMaxGas p) Hc1) as (drops & invalids & l2 & Hf & _ & Hp2 & Hst2 & Hc2).
  unfold list_Filter. rewrite Hf. pose proof (left_over_bounds l1 c1 nonce (GetBalance (currentState p) a) (currentMaxGas p) Hold) as Hb2.
  set (c2 := left_over _ _ c1) in *. clearbody c2.
  assert (inv true (<[a:=l2]> (<[a:=l1]> (pending p))) false (queue p) A1 (drops ++ invalids ++ [])) as Hi2.
  { rewrite (assoc_L (++)). eapply inv_take; [exact Hi1|by rewrite lookup_insert_eq|exact Hc1|exact Hc2|congruence|]. by rewrite <-(assoc_L (++)), Hp2. }
  apply (foldl_delete_forget zeroAddr TxHash_inj) in Hi2. rewrite insert_insert_eq in Hi2.
  rewrite forget_txs_run. cbn [mbind go_bind all set_index]. set (A2 := forgotten A1 drops) in *.
  set (p3 := set_pending _ _). assert (pinv (invalids ++ []) p3) as Hi3 by exact Hi2.
  assert (tracked (all p3) (priced p3)) as Ht3.
  { cbn. apply tracked_Removed; [done|]. eapply tracked_sub; [exact Ht|]. etrans; apply removed_sub. }
  destruct (enqueue_floats rangeAll zeroAddr invalids [] p3 Hi3) as (q & -> & Hi4 & _). set (p4 := set_queue p3 q) in *.
  destruct (postpone p4 a l2 c2 nonce Hi4) as (p5 & l5 & c5 & -> & Hi5 & Hpend & Hc5 & Hcase & Ht5 & Hb5); [by cbn; rewrite lookup_insert_eq|done|congruence|exact Ht3|].
  cbn [mbind go_bind]. assert (pending p5 = <[a:=l5]> (pending p)) as Hpend' by (rewrite Hpend; cbn; by rewrite insert_insert_eq).
  assert (base_kept p p5) as Hbase by (eapply base_trans; [|exact Hb5]; by repeat split).
  rewrite (Empty_spec Nonce Cost Gas l5 c5 Hc5). destruct (bool_decide_reflect (c5 = [])) as [->|Hne5].
  - eexists. split; [reflexivity|]. split; [|split; [exact Hbase|split]].
    + split; [|split; [|exact Ht5]]; cbn.
      * unfold TxPoolSpec.pinv. cbn. eapply inv_drop_list; [exact Hi5|by rewrite Hpend', lookup_insert_eq|done].
      * rewrite Hpend', delete_insert_eq. by apply pend_ne_delete.
    + intros l' Hl'. cbn in Hl'. by rewrite lookup_delete_eq in Hl'.
    + intros b Hb. cbn. by rewrite Hpend', lookup_delete_ne, lookup_insert_ne.
  - exists p5. split; [done|]. destruct Hcase as [?|(-> & -> & Hget)]; [done|]. split; [|split; [exact Hbase|split]].
    + split; [exact Hi5|]. split; [|exact Ht5]. rewrite Hpend'. apply pend_ne_insert; [done|]. destruct Hget as [t Hget]. by eapply get_nonempty.
    + intros l' Hl'. rewrite Hpend', lookup_insert_eq in Hl'. injection Hl' as <-. destruct Hbase as (_ & _ & E3 & E4). rewrite E3, E4. split; [done|]. by exists c2.
    + intros b Hb. by rewrite Hpend', lookup_insert_ne.
Qed.

(** The whole demotion. *)
Lemma executable_kept (p p' : pool) (a : Addr) : executable p a -> pending p' !! a = pending p !! a -> base_kept p p' -> executable p' a.
Proof. intros He Ha (_ & _ & E3 & E4) l Hl. rewrite E3, E4. apply He. congruence. Qed.

Lemma demote_all (addrs : list Addr) (p : pool) : pool_ok p ->
  exists p', go_fold (demoteAccount rangeTxs rangeAll zeroAddr) p addrs = Ret p' /\ pool_ok p' /\ base_kept p p' /\
    (forall a, a ∈ addrs \/ executable p a -> executable p' a) /\ forall b, b ∉ addrs -> pending p' !! b = pending p !! b.
Proof.
  revert p. induction addrs as [|a addrs IH]; intros p Hok.
  { exists p. split; [done|]. split; [done|]. split; [apply base_refl|]. split; [|done]. by intros a [Ha%not_elem_of_nil|Ha]. }
  cbn [go_fold]. destruct (demoteAccount_ok p a Hok) as (p1 & -> & Hok1 & Hb1 & Hx1 & Ho1). cbn [mbind go_bind].
  destruct (IH p1 Hok1) as (p' & Hr & Hok' & Hb' & Hx' & Ho'). exists p'. split; [done|]. split; [done|]. split; [by eapply base_trans|]. split.
  - intros b Hb. apply Hx'. destruct (decide (b = a)) as [->|Hne]; [by right|].
    destruct Hb as [Hb|Hb]; [apply elem_of_cons in Hb as [Hb|Hb]; [done|by left]|right]. by eapply executable_kept; [|apply Ho1|].
  - intros b Hb. rewrite not_elem_of_cons in Hb. destruct Hb. rewrite Ho' by done. by apply Ho1.
Qed.

Lemma demote_ok (rangeLists : gmap Addr txList -> list (Addr * txList)) (p : pool) : (forall m, rangeLists m ≡ₚ map_to_list m) -> pool_ok p ->
  exists p', demoteUnexecutables rangeTxs rangeAll rangeLists zeroAddr p = Ret p' /\ pool_ok p' /\ base_kept p p' /\ forall a, executable p' a.
Proof.
  intros Hperm Hok. unfold demoteUnexecutables. destruct (demote_all (rangeLists (pending p)).*1 p Hok) as (p' & -> & Hok' & Hb & Hx & Ho).
  exists p'. split; [done|]. split; [done|]. split; [done|]. intros a. destruct (pending p !! a) as [l|] eqn:Hl.
  - apply Hx. left. rewrite Hperm. apply list_elem_of_fmap. exists (a, l). split; [done|]. by apply elem_of_map_to_list.
  - intros l Hl'. rewrite Ho in Hl'; [congruence|]. rewrite Hperm. intros ((b & l0) & -> & Hin)%list_elem_of_fmap. apply elem_of_map_to_list in Hin. cbn in Hl. congruence.
Qed.

End Reorg.
