(* ===== verification/TxPoolLimits.v ===== *)
(** The limits of the transaction pool (src/evmcore/tx_pool.go): truncatePending and truncateQueue return, keep the
    pool consistent, bring it under its limits whenever the accounts they may touch allow it, and touch no local
    account; truncatePending cuts no account below its guaranteed slots. *)
From stdpp Require Import gmap list sorting.
From S2P Require Import Prelude Bytes Event EventCheck Heap TxList TxListSpec TxPriced TxPool TxPoolInv TxPoolSpec TxPoolReorg.

Section Limits.
Context {Tx Hash Addr : Type} `{Countable Hash, Countable Addr} {reads : TxReads Tx Hash Addr}.
Context (rangeTxs : gmap Z Tx -> list (Z * Tx)) (rangeAll : gmap Hash Tx -> list (Hash * Tx)) (zeroAddr : Addr).
Context (Nonce_u64 : forall tx, is_u64 (Nonce tx)) (rangeTxs_perm : forall m, rangeTxs m ≡ₚ map_to_list m) (TxHash_inj : Inj eq eq TxHash).
Context (rangeAll_perm : forall m, rangeAll m ≡ₚ map_to_list m).
Abbreviation txList := (TxList.txList (Tx := Tx)).
Context (rangeLists : gmap Addr txList -> list (Addr * txList)) (rangeLists_perm : forall m, rangeLists m ≡ₚ map_to_list m).
Abbreviation sender := (sender zeroAddr).
Abbreviation tl_holds := (tl_holds Nonce Cost Gas).
Abbreviation tracked := (tracked TxHash Nonce GasPrice).
Abbreviation pool := (TxPool (Tx := Tx) (Hash := Hash) (Addr := Addr)).
Abbreviation pinv := (pinv zeroAddr).
Abbreviation pool_ok := (pool_ok zeroAddr).
Abbreviation forgotten A R := (foldl (fun m t => lookup_Remove m (TxHash t)) A R).

(** ** The number of transactions of a map *)

Definition total (m : gmap Addr txList) : Z := map_fold (fun _ l n => Len l + n) 0 m.

Lemma txs_total_insert (m : gmap Addr txList) (a : Addr) (l : txList) : m !! a = None -> total (<[a := l]> m) = Len l + total m.
Proof. intros Ha. unfold total. rewrite (map_fold_insert_L (fun (_ : Addr) (l : txList) n => Len l + n) 0 a l m); [done|intros; lia|done]. Qed.

Lemma txs_total_delete (m : gmap Addr txList) (a : Addr) (l : txList) : m !! a = Some l -> total m = Len l + total (delete a m).
Proof. intros Ha. rewrite <-(insert_delete_id m a l Ha) at 1. apply txs_total_insert, lookup_delete_eq. Qed.

Lemma txs_total_update (m : gmap Addr txList) (a : Addr) (l l' : txList) : m !! a = Some l -> total (<[a := l']> m) = total m - Len l + Len l'.
Proof. intros Ha. rewrite (txs_total_delete m a l Ha), <-insert_delete_eq, (txs_total_insert _ a) by apply lookup_delete_eq. lia. Qed.

Lemma count_total (m : gmap Addr txList) : count_txs rangeLists m = u64 (total m).
Proof.
  assert (forall (l : list (Addr * txList)) n, foldl (fun n kv => u64 (n + Len kv.2)) (u64 n) l = u64 (foldr (fun kv s => Len kv.2 + s) n l)) as Hl.
  { induction l as [|kv l IH]; intros n; [done|]. cbn [foldl foldr]. rewrite u64_add_l, IH. f_equal. clear IH. revert n.
    induction l as [|kv' l IH]; intros n; cbn [foldr]; [lia|]. rewrite IH. lia. }
  unfold count_txs. change 0 with (u64 0) at 1. rewrite Hl. f_equal. unfold total. rewrite map_fold_foldr.
  transitivity (foldr (fun kv s => Len kv.2 + s) 0 (map_to_list m)).
  - apply (foldr_permutation eq (fun kv s => Len kv.2 + s) 0); [intros; lia|done].
  - clear Hl. induction (map_to_list m) as [|[a l] t IH]; [done|]. cbn. by rewrite IH.
Qed.

(** ** Dropping the last transactions of an account *)

(** A list cut to a prefix that is not shorter than a bound. *)
Definition cut (b : Z) (l l' : txList) : Prop :=
  strict l' = strict l /\ b <= Len l' < Len l /\ forall c, tl_holds l c -> exists k, tl_holds l' (take k c).

(** The lists of some accounts may have been cut. *)
Definition cut_at (b : Z) (offs : list Addr) (p p' : pool) : Prop :=
  queue p' = queue p /\ base_kept p p' /\
  forall a, pending p' !! a = pending p !! a \/ a ∈ offs /\ exists l l', pending p !! a = Some l /\ pending p' !! a = Some l' /\ cut b l l'.

Lemma cut_trans (b : Z) (l l' l'' : txList) : cut b l l' -> cut b l' l'' -> cut b l l''.
Proof.
  intros (S1 & L1 & C1) (S2 & L2 & C2). split; [congruence|]. split; [lia|]. intros c Hc. destruct (C1 c Hc) as [k Hk]. destruct (C2 _ Hk) as [j Hj].
  rewrite take_take in Hj. by eexists.
Qed.

Lemma cut_weaken (b b' : Z) (l l' : txList) : b' <= b -> cut b l l' -> cut b' l l'.
Proof. intros Hb (S1 & L1 & C1). split; [done|]. split; [lia|done]. Qed.

Lemma cut_at_refl (b : Z) (offs : list Addr) (p : pool) : cut_at b offs p p.
Proof. split; [done|]. split; [apply base_refl|]. intros a. by left. Qed.

Lemma cut_at_trans (b : Z) (offs : list Addr) (p q r : pool) : cut_at b offs p q -> cut_at b offs q r -> cut_at b offs p r.
Proof.
  intros (Q1 & B1 & C1) (Q2 & B2 & C2). split; [congruence|]. split; [by eapply base_trans|]. intros a. destruct (C1 a) as [E1|(Hin & l & l' & G1 & G2 & Hc)].
  - destruct (C2 a) as [E2|(Hin & l & l' & G1 & G2 & Hc)]; [left; congruence|right]. split; [done|]. exists l, l'. by rewrite <-E1.
  - right. split; [done|]. destruct (C2 a) as [E2|(_ & l1 & l'' & G3 & G4 & Hc2)]; [exists l, l'; by rewrite E2|].
    exists l, l''. rewrite G2 in G3. injection G3 as <-. split; [done|]. split; [done|]. by eapply cut_trans.
Qed.

Lemma cut_at_weaken (b b' : Z) (offs offs' : list Addr) (p p' : pool) : b' <= b -> offs ⊆ offs' -> cut_at b offs p p' -> cut_at b' offs' p p'.
Proof.
  intros Hb Ho (Q1 & B1 & C1). split; [done|]. split; [done|]. intros a. destruct (C1 a) as [E1|(Hin & l & l' & G1 & G2 & Hc)]; [by left|right].
  split; [by apply Ho|]. exists l, l'. split; [done|]. split; [done|]. by eapply cut_weaken.
Qed.

Lemma cut_txs_run (a : Addr) (R : list Tx) (p : pool) : exists n,
  for_txs (fun p tx => Ret (set_pendingNonces (all_Remove p (TxHash tx)) (setIfLower (pendingNonces p) a (Nonce tx)))) p (Some <$> R) =
  Ret (set_pendingNonces (set_index p (forgotten (all p) R) (priced p)) n).
Proof.
  revert p. induction R as [|t R IH]; intros p; cbn [fmap list_fmap for_txs]; [exists (pendingNonces p); by destruct p|].
  cbn [mbind go_bind]. edestruct IH as [n ->]. by exists n.
Qed.

Abbreviation cap_offender := (cap_offender (Tx := Tx) (Hash := Hash) (Addr := Addr) rangeAll).
Abbreviation cap_round := (cap_round (Tx := Tx) (Hash := Hash) (Addr := Addr) rangeAll).
Abbreviation cap_rounds := (cap_rounds (Tx := Tx) (Hash := Hash) (Addr := Addr) rangeAll).
Abbreviation equalize := (equalize (Tx := Tx) (Hash := Hash) (Addr := Addr) rangeAll).

Lemma cap_offender_ok (p : pool) (a : Addr) (l : txList) : pool_ok p -> pending p !! a = Some l -> 1 < Len l ->
  exists p' l', cap_offender p a = Ret p' /\ pool_ok p' /\ pending p' = <[a := l']> (pending p) /\ Len l' = Len l - 1 /\ cut (Len l - 1) l l' /\
    queue p' = queue p /\ base_kept p p'.
Proof.
  intros (Hi & Hne & Ht) Hl Hlen. unfold TxPool.cap_offender, pending_list. rewrite Hl. cbn [mbind go_bind].
  destruct (inv_P _ _ _ _ _ _ _ Hi _ _ Hl) as (c & Hst & Hc & Hall). pose proof (Len_spec Nonce Cost Gas l c Hc) as Hlc.
  destruct (Cap_spec Nonce Cost Gas l c (Len l - 1) Hc ltac:(lia)) as (l' & Hcap & Hst' & Hc'). rewrite Hcap. cbn [mbind go_bind].
  destruct (cut_txs_run a (reverse (drop (Z.to_nat (Len l - 1)) c)) (set_pending p (<[a:=l']> (pending p)))) as [n ->]. cbn [mbind go_bind].
  assert (Len l' = Len l - 1) as Hlen'. { rewrite (Len_spec Nonce Cost Gas l' _ Hc'). unfold zlen in *. rewrite length_take. lia. }
  eexists _, l'. split; [reflexivity|]. split; [|split; [done|split; [done|split; [|done]]]].
  - split; [|split].
    + unfold TxPoolSpec.pinv. cbn. apply (foldl_delete_forget zeroAddr TxHash_inj). eapply (inv_take zeroAddr); [exact Hi|exact Hl|exact Hc|exact Hc'|congruence|].
      rewrite reverse_Permutation, Permutation_app_comm. by rewrite take_drop.
    + cbn. apply pend_ne_insert; [done|]. unfold Empty. apply Z.eqb_neq. lia.
    + cbn. apply tracked_Removed; [done|]. eapply tracked_sub; [exact Ht|]. apply removed_sub.
  - split; [congruence|]. split; [lia|]. intros c2 Hc2. exists (Z.to_nat (Len l - 1)).
    destruct (Cap_spec Nonce Cost Gas l c2 (Len l - 1) Hc2 ltac:(lia)) as (l2 & Hcap2 & _ & Hc2'). rewrite Hcap in Hcap2. by injection Hcap2 as _ <-.
Qed.

(** The counter of the loops is the number of pending transactions. *)
Definition counted (st : pool * Z) : Prop := pool_ok st.1 /\ st.2 = u64 (total (pending st.1)).

(** The offenders have lists of one length. *)
Definition level (p : pool) (offs : list Addr) (L : Z) : Prop := forall a, a ∈ offs -> exists l, pending p !! a = Some l /\ Len l = L.

Lemma cap_round_ok (offs : list Addr) (L : Z) (st : pool * Z) : counted st -> NoDup offs -> level st.1 offs L -> 1 < L ->
  exists st', cap_round st offs = Ret st' /\ counted st' /\ level st'.1 offs (L - 1) /\ cut_at (L - 1) offs st.1 st'.1.
Proof.
  unfold TxPool.cap_round. revert st. induction offs as [|a offs IH]; intros [p n] [Hok Hn] Hnd Hlev HL.
  { exists (p, n). split; [done|]. split; [done|]. split; [|apply cut_at_refl]. by intros a Ha%not_elem_of_nil. }
  cbn in Hok, Hn, Hlev. apply NoDup_cons in Hnd as [Ha Hnd]. cbn [go_fold fst snd]. destruct (Hlev a ltac:(by left)) as (l & Hl & HLl).
  destruct (cap_offender_ok p a l Hok Hl ltac:(lia)) as (p1 & l1 & -> & Hok1 & Hp1 & Hlen1 & Hcut & Hq1 & Hb1). cbn [mbind go_bind]. rewrite HLl in Hcut.
  assert (cut_at (L - 1) (a :: offs) p p1) as Hc1.
  { split; [done|]. split; [done|]. intros b. rewrite Hp1. destruct (decide (b = a)) as [->|Hb].
    - right. split; [by left|]. exists l, l1. by rewrite lookup_insert_eq.
    - left. by rewrite lookup_insert_ne. }
  assert (counted (p1, u64 (n - 1))) as Hcnt.
  { split; [done|]. cbn [fst snd]. rewrite Hp1, (txs_total_update _ _ l) by done. rewrite Hn, <-Z.add_opp_r, u64_add_l. f_equal. lia. }
  destruct (IH _ Hcnt Hnd) as (st' & Hr & Hcnt' & Hlev' & Hcut'); [|done|].
  { intros b Hb. cbn [fst]. rewrite Hp1, lookup_insert_ne by (by intros ->). apply Hlev. by right. }
  exists st'. split; [exact Hr|]. split; [done|]. cbn [fst] in *. split.
  - intros b [->|Hb]%elem_of_cons; [|by apply Hlev']. destruct Hcut' as (_ & _ & Hc). destruct (Hc a) as [->|[? _]]; [|done].
    exists l1. rewrite Hp1, lookup_insert_eq. split; [done|lia].
  - eapply cut_at_trans; [exact Hc1|]. eapply cut_at_weaken; [done| |exact Hcut']. set_solver.
Qed.

(** Rounds down to a threshold, or until there are few enough transactions. *)
Lemma cap_rounds_ok (fuel : nat) (st : pool * Z) (probe : Addr) (offs : list Addr) (L threshold : Z) : counted st -> NoDup offs -> level st.1 offs L ->
  probe ∈ offs -> 1 <= threshold <= L -> L <= Z.of_nat fuel + threshold ->
  exists st', cap_rounds fuel st probe threshold offs = Ret st' /\ counted st' /\ cut_at threshold offs st.1 st'.1 /\
    (st'.2 <= GlobalSlots (config st'.1) \/ level st'.1 offs threshold).
Proof.
  revert st L. induction fuel as [|fuel IH]; intros st L Hcnt Hnd Hlev Hin HL Hf; cbn [TxPool.cap_rounds];
    (destruct (Z.leb_spec st.2 (GlobalSlots (config st.1))) as [Hle|_]; [exists st; split; [done|]; split; [done|]; split; [apply cut_at_refl|by left]|]);
    destruct (Hlev probe Hin) as (l & Hl & HLl); unfold pending_list; rewrite Hl; cbn [mbind go_bind]; destruct (Z.leb_spec (Len l) threshold) as [Hth|Hth];
    try (assert (L = threshold) as -> by lia; exists st; split; [done|]; split; [done|]; split; [apply cut_at_refl|by right]); [lia|].
  destruct (cap_round_ok offs L st Hcnt Hnd Hlev ltac:(lia)) as (st1 & -> & Hcnt1 & Hlev1 & Hcut1). cbn [mbind go_bind].
  destruct (IH st1 (L - 1) Hcnt1 Hnd Hlev1 Hin ltac:(lia) ltac:(lia)) as (st' & Hr & Hcnt' & Hcut' & Hend). exists st'. split; [exact Hr|]. split; [done|].
  split; [|done]. eapply cut_at_trans; [|exact Hcut']. eapply cut_at_weaken; [|reflexivity|exact Hcut1]. lia.
Qed.

(** ** The offenders, from the one that holds the most *)

(** What the queue of the spammers says of their lists. *)
Definition recorded (p : pool) (spam : list (Addr * Z)) : Prop := forall a n, (a, n) ∈ spam -> exists l, pending p !! a = Some l /\ Len l = n.

Lemma recorded_kept (b : Z) (offs : list Addr) (p p' : pool) (spam : list (Addr * Z)) : recorded p spam -> cut_at b offs p p' -> (forall a, a ∈ spam.*1 -> a ∉ offs) -> recorded p' spam.
Proof.
  intros Hr (_ & _ & Hc) Hd a n Hin. destruct (Hc a) as [->|[Ha _]]; [by apply Hr|]. exfalso. apply (Hd a); [|done]. by apply (list_elem_of_fmap_2 fst _ (a, n)).
Qed.

Lemma equalize_stop (st : pool * Z) (offs spam : list Addr) : st.2 <= GlobalSlots (config st.1) -> equalize st offs spam = Ret (st, offs).
Proof. intros Hle. destruct spam; [done|]. cbn [TxPool.equalize]. by rewrite (proj2 (Z.leb_le _ _) Hle). Qed.

Lemma equalize_ok (b : Z) (spam : list (Addr * Z)) (st : pool * Z) (offs : list Addr) (L : Z) : counted st -> 1 <= b ->
  NoDup (offs ++ spam.*1) -> recorded st.1 spam -> StronglySorted (fun x y => y.2 <= x.2) spam -> Forall (fun an => b <= an.2 <= L) spam ->
  level st.1 offs L -> b <= L ->
  exists st' offs', equalize st offs spam.*1 = Ret (st', offs') /\ counted st' /\ cut_at b (offs ++ spam.*1) st.1 st'.1 /\
    (st'.2 <= GlobalSlots (config st'.1) \/ offs' = offs ++ spam.*1 /\ exists L', b <= L' /\ level st'.1 offs' L').
Proof.
  revert st offs L. induction spam as [|[a n] spam IH]; intros st offs L Hcnt Hb Hnd Hrec Hsort Hall Hlev HbL.
  { exists st, offs. rewrite app_nil_r. split; [done|]. split; [done|]. split; [apply cut_at_refl|]. right. split; [done|]. by exists L. }
  cbn [fmap list_fmap fst TxPool.equalize]. destruct (Z.leb_spec st.2 (GlobalSlots (config st.1))) as [Hle|_].
  { exists st, offs. split; [done|]. split; [done|]. split; [apply cut_at_refl|by left]. }
  apply StronglySorted_inv in Hsort as [Hsort Hmax]. apply Forall_cons in Hall as [Hn Hall]. cbn [snd] in Hn, Hmax.
  assert (Forall (fun an : Addr * Z => b <= an.2 <= n) spam) as Hall'.
  { rewrite Forall_forall in *. intros x Hx. specialize (Hall x Hx). specialize (Hmax x Hx). lia. }
  destruct (Hrec a n ltac:(by left)) as (l & Hl & Hln).
  set (step := match last offs with None => _ | Some _ => _ end).
  assert (exists st1, step = Ret st1 /\ counted st1 /\ cut_at b offs st.1 st1.1 /\ (st1.2 <= GlobalSlots (config st1.1) \/ level st1.1 offs n)) as (st1 & -> & Hcnt1 & Hcut1 & Hend).
  { unfold step. destruct (last offs) as [probe|] eqn:Hlast.
    - assert (probe ∈ offs) as Hpin by (apply last_Some_elem_of; done). destruct (Hlev probe Hpin) as (lp & Hlp & HLp). unfold pending_list. rewrite Hl, Hlp. cbn [mbind go_bind].
      destruct (cap_rounds_ok (Z.to_nat (Len lp)) st probe offs L (Len l) Hcnt) as (st1 & -> & Hcnt1 & Hcut1 & Hend); [by apply NoDup_app in Hnd as [? _]|done|done|lia|lia|].
      exists st1. split; [done|]. split; [done|]. split; [|by rewrite <-Hln]. eapply cut_at_weaken; [|reflexivity|exact Hcut1]. lia.
    - apply last_None in Hlast as ->. exists st. split; [done|]. split; [done|]. split; [apply cut_at_refl|right]. by intros c Hc%not_elem_of_nil. }
  cbn [mbind go_bind]. assert (NoDup ((offs ++ [a]) ++ spam.*1)) as Hnd1 by (by rewrite <-(assoc_L (++))).
  assert (forall c, c ∈ a :: spam.*1 -> c ∉ offs) as Hdis. { apply NoDup_app in Hnd as (_ & Hd & _). intros c Hc Hc'. by apply (Hd c). }
  destruct Hend as [Hle|Hlev1].
  - exists st1, (offs ++ [a]). rewrite equalize_stop by done. split; [done|]. split; [done|]. split; [|by left]. eapply cut_at_weaken; [reflexivity| |exact Hcut1]. set_solver.
  - destruct (IH st1 (offs ++ [a]) n Hcnt1 Hb Hnd1) as (st' & offs' & Hr & Hcnt' & Hcut' & Hend'); [|done|done| |lia|].
    + eapply recorded_kept; [|exact Hcut1|intros c Hc; apply Hdis; by right]. intros c m Hc. apply Hrec. by right.
    + intros c [Hc|Hc%list_elem_of_singleton]%elem_of_app; [by apply Hlev1|]. subst c. exists l. split; [|done].
      destruct Hcut1 as (_ & _ & Hc). destruct (Hc a) as [->|[Ha _]]; [done|]. exfalso. apply (Hdis a); [by left|done].
    + exists st', offs'. rewrite <-(assoc_L (++)) in Hcut', Hend'. split; [exact Hr|]. split; [done|]. split; [|done].
      eapply cut_at_trans; [|exact Hcut']. eapply cut_at_weaken; [reflexivity| |exact Hcut1]. set_solver.
Qed.

(** ** The limit of the pending transactions *)

Context (prque : list (Addr * Z) -> list Addr).
(** The queue of go-ethereum pops the values by decreasing priority. *)
Context (prque_order : forall l, exists l', l' ≡ₚ l /\ prque l = l'.*1 /\ StronglySorted (fun x y => y.2 <= x.2) l').

Lemma spammers_spec (p : pool) : exists spam, spammers rangeLists prque p = spam.*1 /\ NoDup spam.*1 /\ StronglySorted (fun x y => y.2 <= x.2) spam /\
  recorded p spam /\ forall a n, (a, n) ∈ spam <-> exists l, pending p !! a = Some l /\ Len l = n /\ as_contains (locals p) a = false /\ AccountSlots (config p) < n.
Proof.
  unfold spammers. set (f := fun kv : Addr * txList => _). destruct (prque_order (omap f (rangeLists (pending p)))) as (spam & Hp & -> & Hs). exists spam.
  assert (forall a n, (a, n) ∈ spam <-> exists l, pending p !! a = Some l /\ Len l = n /\ as_contains (locals p) a = false /\ AccountSlots (config p) < n) as Hin.
  { intros a n. rewrite Hp, list_elem_of_omap. setoid_rewrite rangeLists_perm. unfold f. split.
    - intros ([b l] & Hbl & Hf). apply elem_of_map_to_list in Hbl. cbn [fst snd] in Hf. destruct (as_contains (locals p) b) eqn:Hloc; [done|].
      destruct (Z.ltb_spec (AccountSlots (config p)) (Len l)); [|done]. injection Hf as <- <-. by exists l.
    - intros (l & Hl & <- & Hloc & Hlt). exists (a, l). split; [by apply elem_of_map_to_list|]. cbn [fst snd]. rewrite Hloc, (proj2 (Z.ltb_lt _ _) Hlt). done. }
  split; [done|]. split; [|split; [done|split; [|done]]].
  - assert (forall m, (omap f m).*1 `sublist_of` m.*1) as Hsub.
    { induction m as [|kv m IHm]; [done|]. cbn. unfold f at 1. destruct (_ && _); cbn; by constructor. }
    rewrite Hp. eapply sublist_NoDup; [|apply Hsub]. rewrite rangeLists_perm. apply NoDup_fst_map_to_list.
  - intros a n (l & Hl & Hn & _)%Hin. by exists l.
Qed.

Definition account_slots_kept (p p' : pool) : Prop :=
  queue p' = queue p /\ base_kept p p' /\ forall a, pending p' !! a = pending p !! a \/
    as_contains (locals p) a = false /\ exists l l', pending p !! a = Some l /\ pending p' !! a = Some l' /\ cut (AccountSlots (config p)) l l'.

Lemma truncatePending_ok (p : pool) : pool_ok p -> 1 <= AccountSlots (config p) ->
  exists p', truncatePending rangeAll rangeLists prque p = Ret p' /\ pool_ok p' /\ account_slots_kept p p' /\
    (count_txs rangeLists (pending p') <= GlobalSlots (config p) \/
     forall a l, pending p' !! a = Some l -> as_contains (locals p) a = false -> Len l <= AccountSlots (config p)).
Proof.
  intros Hok Hslots. unfold truncatePending. set (b := AccountSlots (config p)) in *. destruct (Z.leb_spec (count_txs rangeLists (pending p)) (GlobalSlots (config p))) as [Hle|_].
  { exists p. split; [done|]. split; [done|]. split; [|by left]. split; [done|]. split; [apply base_refl|]. intros a. by left. }
  destruct (spammers_spec p) as (spam & -> & Hnd & Hs & Hrec & Hin).
  assert (Forall (fun an => b <= an.2 <= foldr Z.max b (snd <$> spam)) spam) as Hall.
  { apply Forall_forall. intros [a n] Ha. split; [apply Hin in Ha as (l & _ & _ & _ & ?); cbn; lia|]. clear -Ha.
    induction spam as [|x spam IH]; [by apply not_elem_of_nil in Ha|]. cbn. apply elem_of_cons in Ha as [<-|Ha]; cbn; [lia|]. specialize (IH Ha). cbn in IH. lia. }
  assert (forall p', cut_at b spam.*1 p p' -> account_slots_kept p p') as Hkept.
  { intros p' (Hq & Hb & Hc). split; [done|]. split; [done|]. intros a. destruct (Hc a) as [?|(Ha & Hcut)]; [by left|right]. split; [|done].
    apply list_elem_of_fmap in Ha as ([a' n] & -> & Ha). by apply Hin in Ha as (l & _ & _ & ? & _). }
  assert (counted (p, count_txs rangeLists (pending p))) as Hcnt by (split; [done|apply count_total]).
  assert (level p [] (foldr Z.max b (snd <$> spam))) as Hlev by (by intros a Ha%not_elem_of_nil).
  destruct (equalize_ok b spam _ [] _ Hcnt Hslots Hnd Hrec Hs Hall Hlev) as (st & offs & -> & Hcnt1 & Hcut1 & Hend).
  { clear. induction spam as [|x spam IH]; cbn; lia. }
  cbn [mbind go_bind app fst] in *. destruct Hcut1 as (Hq1 & Hb1 & Hc1).
  assert (config st.1 = config p) as Hcfg by apply Hb1. assert (cut_at b spam.*1 p st.1) as Hcut1 by done.
  assert (forall st' : pool * Z, counted st' -> config st'.1 = config p -> st'.2 <= GlobalSlots (config st'.1) -> count_txs rangeLists (pending st'.1) <= GlobalSlots (config p)) as Hcount.
  { intros st' [_ Hn] Hcf Hle. rewrite count_total, <-Hn, <-Hcf. done. }
  assert (forall p' : pool, (forall a, a ∈ spam.*1 -> exists l, pending p' !! a = Some l /\ Len l <= b) -> cut_at b spam.*1 p p' ->
    forall a l, pending p' !! a = Some l -> as_contains (locals p) a = false -> Len l <= b) as Hsmall.
  { intros p' Hsp (_ & _ & Hc) a l Hl Hloc. destruct (decide (a ∈ spam.*1)) as [Ha|Ha]; [destruct (Hsp a Ha) as (l' & Hl' & ?); congruence|].
    destruct (Hc a) as [He|[? _]]; [|done]. destruct (Z.le_gt_cases (Len l) b) as [|Hgt]; [done|]. exfalso. apply Ha.
    apply (list_elem_of_fmap_2 fst _ (a, Len l)). apply Hin. exists l. rewrite <-He. split_and!; [done|done|done|]. fold b. lia. }
  destruct (last offs) as [probe|] eqn:Hlast.
  - destruct (Z.leb_spec (st.2) (GlobalSlots (config st.1))) as [Hle|Hgt].
    { exists st.1. split; [done|]. split; [apply Hcnt1|]. split; [by apply Hkept|]. left. by apply Hcount. }
    destruct Hend as [?|(-> & L' & HL' & Hlev')]; [lia|]. assert (probe ∈ spam.*1) as Hpin by (apply last_Some_elem_of; done).
    destruct (Hlev' probe Hpin) as (lp & Hlp & HLp). unfold pending_list. rewrite Hlp. cbn [mbind go_bind]. rewrite Hcfg. fold b.
    destruct (cap_rounds_ok (Z.to_nat (Len lp)) st probe spam.*1 L' b Hcnt1 Hnd Hlev' Hpin ltac:(lia) ltac:(lia)) as (st' & -> & Hcnt' & Hcut' & Hend).
    cbn [mbind go_bind]. assert (cut_at b spam.*1 p st'.1) as Hcut by (by eapply cut_at_trans).
    exists st'.1. split; [done|]. split; [apply Hcnt'|]. split; [by apply Hkept|]. destruct Hend as [Hle|Hl].
    + left. apply Hcount; [done| |done]. apply Hcut.
    + right. apply Hsmall; [|done]. intros a Ha. destruct (Hl a Ha) as (l & Hl' & ?). exists l. split; [done|lia].
  - exists st.1. split; [done|]. split; [apply Hcnt1|]. split; [by apply Hkept|]. apply last_None in Hlast as ->. destruct Hend as [Hle|(Heq & _)]; [left; by apply Hcount|right].
    apply Hsmall; [|done]. rewrite <-Heq. by intros a Ha%not_elem_of_nil.
Qed.

(** ** The limit of the queued transactions *)

Abbreviation removeTx := (removeTx rangeTxs rangeAll zeroAddr).
Abbreviation remove_all := (remove_all rangeTxs rangeAll zeroAddr).

(** What the removals from the queue leave alone. *)
Definition quiet (p p' : pool) : Prop := base_kept p p' /\ pending p' = pending p /\ beats p' = beats p.

Lemma quiet_refl (p : pool) : quiet p p.
Proof. by split; [apply base_refl|]. Qed.

Lemma quiet_trans (p q r : pool) : quiet p q -> quiet q r -> quiet p r.
Proof. intros (B1 & P1 & E1) (B2 & P2 & E2). split; [by eapply base_trans|]. split; congruence. Qed.

(** The queue with the transactions [k] left of the account. *)
Definition queue_left (p p' : pool) (a : Addr) (k : list Tx) : Prop :=
  match k with
  | [] => queue p' = delete a (queue p)
  | _ => exists l, tl_holds l k /\ queue p' = <[a := l]> (queue p)
  end.

Definition queue_only (a : Addr) (p p' : pool) : Prop := quiet p p' /\ forall b, b <> a -> queue p' !! b = queue p !! b.

Lemma removeTx_queued (p : pool) (a : Addr) (l : txList) (c : list Tx) (t : Tx) : pool_ok p -> queue p !! a = Some l -> tl_holds l c -> t ∈ c ->
  exists p' k, removeTx p (TxHash t) true = Ret p' /\ pool_ok p' /\ t :: k ≡ₚ c /\ quiet p p' /\ queue_left p p' a k.
Proof.
  intros Hok Hl Hc Ht. pose proof Hok as (Hi & Hne & Htr). destruct (inv_Q _ _ _ _ _ _ _ Hi _ _ Hl) as (c0 & Hst & Hc0 & Hall).
  assert (sender t = a) as Hs. { rewrite Forall_forall in Hall. apply Hall. by rewrite (content_unique l c0 c Hc0 Hc). } subst a.
  assert (sm_Get (txs l) (Nonce t) = Some t) as Hget by (by apply (list_get_spec l c (Nonce t) t Hc)).
  assert (slot (queue p) (sender t) (Nonce t) = Some t) as Hsl by (unfold slot; rewrite Hl; done).
  assert (all p !! TxHash t = Some t) as Hat by (apply Hi; split; [done|]; right; left; done).
  destruct (removeTx_spec rangeTxs rangeAll zeroAddr rangeTxs_perm TxHash_inj p (TxHash t) true Hi Hne) as (p' & Hrun & Hrem).
  assert (pool_ok p') as Hok' by (by eapply remove_ok).
  destruct (Remove_spec Nonce Cost Gas rangeTxs rangeTxs_perm l c t Hc Ht) as (invalids & l' & Hr & Hst' & Hno & Hp & Hc').
  rewrite (Hno Hst) in Hp. set (k := left_over _ _ _) in *. exists p', k. split; [exact Hrun|]. split; [done|]. split; [done|].
  unfold TxPool.removeTx, lookup_Get in Hrun. rewrite Hat in Hrun. cbn [pending queue priced_Removed all_Remove set_index] in Hrun.
  set (p2 := priced_Removed rangeAll (all_Remove p (TxHash t)) 1) in Hrun.
  assert (forall r : go (bool * pool), r = Ret (false, p2) ->
    (r' ← r; let '(gone, p) := r' in if gone : bool then Ret p else
      match queue p !! sender t with
      | Some l => r ← list_Remove rangeTxs l t; let '(_, _, l') := r in
          let p := set_queue p (<[sender t := l']> (queue p)) in Ret (if Empty l' then set_queue p (delete (sender t) (queue p)) else p)
      | None => Ret p end) = Ret p' -> quiet p p' /\ queue_left p p' (sender t) k) as Hfin.
  { intros r ->. cbn [mbind go_bind]. unfold p2 at 1. cbn [queue priced_Removed all_Remove set_index]. rewrite Hl. unfold list_Remove. rewrite Hr. cbn [mbind go_bind].
    rewrite (Empty_spec Nonce Cost Gas l' k Hc'). intros [= <-]. unfold queue_left. destruct k as [|u k]; cbn.
    - split; [by repeat split|]. by rewrite delete_insert_eq.
    - split; [by repeat split|]. by exists l'. }
  destruct (pending p !! sender t) as [lp|] eqn:Hlp; [|exact (Hfin (Ret (false, p2)) eq_refl Hrun)].
  destruct (inv_P _ _ _ _ _ _ _ Hi _ _ Hlp) as (cp & _ & Hcp & _). unfold list_Remove in Hrun. rewrite (Remove_miss Nonce Cost Gas rangeTxs lp cp t Hcp) in Hrun.
  - cbn [mbind go_bind] in Hrun. exact (Hfin (Ret (false, p2)) eq_refl Hrun).
  - destruct (inv_one _ _ _ _ _ _ _ Hi (sender t) (Nonce t)) as [Hn|Hn]; [|congruence]. unfold slot in Hn. rewrite Hlp in Hn. done.
Qed.

Lemma queue_left_lookup (p p' : pool) (a : Addr) (k : list Tx) : queue_left p p' a k -> forall b, b <> a -> queue p' !! b = queue p !! b.
Proof. unfold queue_left. destruct k; [intros ->|intros (l & _ & ->)]; intros b Hb; [by rewrite lookup_delete_ne|by rewrite lookup_insert_ne]. Qed.

(** Removing transactions of a queued list, in any order. *)
Lemma remove_queued_all (ts : list Tx) (p : pool) (a : Addr) (l : txList) (c k : list Tx) : pool_ok p -> queue p !! a = Some l -> tl_holds l c -> ts ++ k ≡ₚ c -> ts <> [] ->
  exists p' k', remove_all p ts true = Ret p' /\ pool_ok p' /\ quiet p p' /\ k' ≡ₚ k /\ queue_left p p' a k'.
Proof.
  unfold TxPool.remove_all. revert p l c. induction ts as [|t ts IH]; intros p l c Hok Hl Hc Hp Hnil; [done|]. cbn [go_fold].
  destruct (removeTx_queued p a l c t Hok Hl Hc) as (p1 & k1 & -> & Hok1 & Hk1 & Hb1 & Hq1); [rewrite <-Hp; by left|]. cbn [mbind go_bind].
  rewrite <-Hp in Hk1. cbn [app] in Hk1. apply Permutation_cons_inv in Hk1. destruct ts as [|t' ts].
  { exists p1, k1. cbn [go_fold]. by split_and!. }
  unfold queue_left in Hq1. destruct k1 as [|u k1]; [by apply Permutation_nil_l in Hk1|]. destruct Hq1 as (l1 & Hl1 & Hq1).
  destruct (IH p1 l1 (u :: k1) Hok1 ltac:(by rewrite Hq1, lookup_insert_eq) Hl1 ltac:(by symmetry) ltac:(done)) as (p' & k' & Hr & Hok' & Hb' & Hk' & Hq').
  exists p', k'. split; [exact Hr|]. split; [done|]. split; [by eapply quiet_trans|]. split; [done|].
  unfold queue_left in *. rewrite Hq1 in Hq'. destruct k'; [by rewrite Hq', delete_insert_eq|]. destruct Hq' as (l' & ? & ->). exists l'. by rewrite insert_insert_eq.
Qed.

Lemma drop_last_run (rtxs : list Tx) (p : pool) (drop : Z) : 0 <= drop <= zlen rtxs ->
  drop_last rangeTxs rangeAll zeroAddr p rtxs drop = (p ← remove_all p (take (Z.to_nat drop) rtxs) true; Ret (p, 0)).
Proof.
  unfold TxPool.remove_all. revert p drop. induction rtxs as [|t rtxs IH]; intros p drop Hd; unfold zlen in *; cbn [length drop_last] in *.
  { rewrite take_nil. cbn. do 2 f_equal. lia. }
  destruct (Z.leb_spec drop 0) as [Hz|Hz]; [assert (drop = 0) as -> by lia; done|].
  replace (Z.to_nat drop) with (S (Z.to_nat (drop - 1))) by lia. cbn [take go_fold]. destruct (removeTx p (TxHash t) true) as [p1|f]; [|done].
  cbn [mbind go_bind]. apply IH. lia.
Qed.

Lemma queue_left_total (p p' : pool) (a : Addr) (l : txList) (k : list Tx) : queue p !! a = Some l -> queue_left p p' a k -> total (queue p') = total (queue p) - Len l + zlen k.
Proof.
  unfold queue_left. intros Hl. destruct k as [|t k].
  - intros ->. rewrite (txs_total_delete (queue p) a l Hl). unfold zlen. cbn [length]. lia.
  - intros (l' & Hl' & ->). by rewrite (txs_total_update _ _ l), (Len_spec Nonce Cost Gas l' _ Hl').
Qed.

(** Flatten only fills the cache of a list. *)
Lemma flatten_queue (p : pool) (a : Addr) (l : txList) : pool_ok p -> queue p !! a = Some l ->
  exists c l', list_Flatten rangeTxs l = (c, l') /\ tl_holds l' c /\ Len l = zlen c /\ Forall (fun t => sender t = a) c /\ pool_ok (set_queue p (<[a := l']> (queue p))) /\
    total (<[a := l']> (queue p)) = total (queue p).
Proof.
  intros (Hi & Hne & Ht) Hl. destruct (inv_Q _ _ _ _ _ _ _ Hi _ _ Hl) as (c & Hst & Hc & Hall).
  destruct (Flatten_spec Nonce Cost Gas rangeTxs rangeTxs_perm l c Hc) as (l' & Hf & Hst' & Hc'). exists c, l'.
  pose proof (Len_spec Nonce Cost Gas l c Hc) as Hlen. split; [done|]. split; [done|]. split; [done|]. split; [done|]. split.
  - split; [|split; [done|exact Ht]]. unfold TxPoolSpec.pinv. cbn. apply (inv_sym zeroAddr).
    eapply (inv_take zeroAddr _ _ _ _ _ [] a l l' c c []); [by apply inv_sym|done|done|done|congruence|done].
  - rewrite (txs_total_update _ _ l), (Len_spec Nonce Cost Gas l' c Hc') by done. lia.
Qed.

(** What is left of the accounts that a run of the loop has been through. *)
Lemma truncate_account (p : pool) (a : Addr) (l : txList) (drop : Z) : pool_ok p -> queue p !! a = Some l -> 0 < drop ->
  exists p', (let '(txs, l') := list_Flatten rangeTxs l in
      let p := set_queue p (<[a := l']> (queue p)) in
      if Len l <=? drop then p ← remove_all p txs true; Ret (p, drop - Len l) else drop_last rangeTxs rangeAll zeroAddr p (reverse txs) drop) =
    Ret (p', if Len l <=? drop then drop - Len l else 0) /\ pool_ok p' /\ queue_only a p p' /\
    total (queue p') = total (queue p) - (drop `min` Len l) /\
    (Len l <= drop -> forall l', queue p' !! a = Some l' -> Len l' = 0).
Proof.
  intros Hok Hl Hdrop. destruct (flatten_queue p a l Hok Hl) as (c & l1 & -> & Hc & Hlen & _ & Hok1 & Htot). cbv zeta. set (p1 := set_queue p _) in *.
  assert (queue p1 !! a = Some l1) as Hl1 by (cbn; by rewrite lookup_insert_eq). pose proof (Len_spec Nonce Cost Gas l1 c Hc) as Hlen1.
  assert (forall ts k, ts ++ k ≡ₚ c -> ts <> [] -> exists p', remove_all p1 ts true = Ret p' /\ pool_ok p' /\ queue_only a p p' /\
    total (queue p') = total (queue p) - Len l + zlen k /\ (k = [] -> queue p' !! a = None)) as Hrem.
  { intros ts k Hts Hnil. destruct (remove_queued_all ts p1 a l1 c k Hok1 Hl1 Hc Hts Hnil) as (p' & k' & Hr & Hok' & Hb' & Hk' & Hq'). exists p'.
    split; [done|]. split; [done|]. split; [split; [done|]|split].
    - intros b Hb. rewrite (queue_left_lookup p1 p' a k' Hq' b Hb). cbn. by rewrite lookup_insert_ne.
    - rewrite (queue_left_total p1 p' a l1 k' Hl1 Hq'). cbn [queue p1 set_queue]. rewrite Htot. unfold zlen in *. rewrite Hk'. lia.
    - intros ->. apply Permutation_nil_r in Hk' as ->. unfold queue_left in Hq'. by rewrite Hq', lookup_delete_eq. }
  destruct (Z.leb_spec (Len l) drop) as [Hle|Hgt].
  - destruct (decide (c = [])) as [->|Hnil].
    + exists p1. cbn. split; [done|]. split; [done|]. unfold zlen in *. cbn in *. split; [split; [by repeat split|]; intros b Hb; unfold p1; cbn; by rewrite lookup_insert_ne|].
      split; [rewrite Htot; lia|]. intros _ l'. rewrite lookup_insert_eq. intros [= <-]. done.
    + destruct (Hrem c [] ltac:(by rewrite app_nil_r) Hnil) as (p' & -> & Hok' & Hq' & Ht' & Hn'). exists p'. cbn [mbind go_bind]. split; [done|]. split; [done|]. split; [done|].
      unfold zlen in Ht'. cbn [length] in Ht'. split; [lia|]. intros _ l'. by rewrite Hn'.
  - assert (zlen (reverse c) = Len l) as Hrev by (unfold zlen in *; rewrite length_reverse; lia). rewrite drop_last_run by lia.
    destruct (Hrem (take (Z.to_nat drop) (reverse c)) (list.drop (Z.to_nat drop) (reverse c))) as (p' & -> & Hok' & Hq' & Ht' & _).
    + by rewrite take_drop, reverse_Permutation.
    + intros He. apply (f_equal length) in He. rewrite length_take in He. unfold zlen in Hrev. cbn [length] in He. lia.
    + cbn [mbind go_bind]. exists p'. split; [done|]. split; [done|]. split; [done|]. split; [|lia]. rewrite Ht'. unfold zlen in *. rewrite length_drop. lia.
Qed.

Definition queue_kept_off (addrs : list Addr) (p p' : pool) : Prop := quiet p p' /\ forall b, b ∉ addrs -> queue p' !! b = queue p !! b.

Definition cleared (p : pool) (a : Addr) : Prop := forall l, queue p !! a = Some l -> Len l = 0.

Lemma queue_only_trans (a : Addr) (addrs : list Addr) (p q r : pool) : queue_only a p q -> queue_kept_off addrs q r -> queue_kept_off (a :: addrs) p r.
Proof.
  intros (B1 & Q1) (B2 & Q2). split; [by eapply quiet_trans|]. intros b Hb. rewrite not_elem_of_cons in Hb. destruct Hb.
  rewrite Q2 by done. by apply Q1.
Qed.

Lemma truncate_loop_ok (addrs : list Addr) (p : pool) (drop : Z) : pool_ok p -> NoDup addrs -> (forall a, a ∈ addrs -> is_Some (queue p !! a)) -> 0 <= drop ->
  exists p', truncate_loop rangeTxs rangeAll zeroAddr p drop addrs = Ret p' /\ pool_ok p' /\ queue_kept_off addrs p p' /\
    total (queue p) - drop <= total (queue p') /\ (total (queue p') = total (queue p) - drop \/ forall a, a ∈ addrs -> cleared p' a).
Proof.
  revert p drop. induction addrs as [|a addrs IH]; intros p drop Hok Hnd Hin Hdrop.
  { exists p. split; [done|]. split; [done|]. split; [split; [apply quiet_refl|done]|]. split; [lia|right]. by intros a Ha%not_elem_of_nil. }
  apply NoDup_cons in Hnd as [Ha Hnd]. cbn [truncate_loop]. destruct (Z.leb_spec drop 0) as [Hz|Hz].
  { exists p. split; [done|]. split; [done|]. split; [split; [apply quiet_refl|done]|]. split; [lia|left; lia]. }
  destruct (Hin a ltac:(by left)) as [l Hl]. rewrite Hl. destruct (truncate_account p a l drop Hok Hl Hz) as (p1 & Hrun & Hok1 & Hq1 & Ht1 & Hc1).
  pose proof Hq1 as (Hb1 & Hoff1).
  destruct (IH p1 (if Len l <=? drop then drop - Len l else 0) Hok1 Hnd) as (p' & Hr & Hok' & Hq' & Hlo' & Hend).
  { intros b Hb. rewrite Hoff1 by (by intros ->). apply Hin. by right. }
  { destruct (Z.leb_spec (Len l) drop); lia. }
  exists p'. split; [|split; [done|]].
  { rewrite <-Hr. destruct (list_Flatten rangeTxs l) as [txs l']. cbv zeta in *. destruct (Len l <=? drop).
    - destruct (remove_all (set_queue p (<[a:=l']> (queue p))) txs true) as [p2|f]; cbn [mbind go_bind] in *; [by injection Hrun as ->|done].
    - rewrite Hrun. done. }
  split; [by eapply queue_only_trans|]. destruct (Z.leb_spec (Len l) drop) as [Hle|Hgt]; (split; [lia|]).
  - destruct Hend as [Heq|Hcl]; [left; lia|right]. intros b [->|Hb]%elem_of_cons; [|by apply Hcl]. intros l'. destruct Hq' as (_ & ->); [by apply Hc1|done].
  - left. assert (total (queue p') <= total (queue p1)); [|lia]. destruct Hend as [Heq|_]; [lia|].
    enough (p' = p1) as Heq by (rewrite Heq; lia). destruct addrs as [|b addrs]; cbn in Hr; congruence.
Qed.

Lemma omap_queue_nodup (g : Addr * txList -> option (Addr * Z)) (m : list (Addr * txList)) : (forall kv x, g kv = Some x -> x.1 = kv.1) -> NoDup m.*1 -> NoDup (omap g m).*1.
Proof.
  intros Hg Hnd. eapply sublist_NoDup; [exact Hnd|]. clear Hnd. induction m as [|kv m IH]; [done|]. cbn. destruct (g kv) as [x|] eqn:Hx; cbn; [rewrite (Hg kv x Hx)|]; by constructor.
Qed.

Lemma queue_addresses_spec (p : pool) : NoDup (queue_addresses rangeLists p) /\
  forall a, a ∈ queue_addresses rangeLists p <-> is_Some (queue p !! a) /\ as_contains (locals p) a = false.
Proof.
  unfold queue_addresses. set (g := fun kv : Addr * txList => _). split.
  - rewrite fmap_reverse, reverse_Permutation, merge_sort_Permutation. apply omap_queue_nodup.
    + intros kv x. unfold g. destruct (as_contains _ _); [done|]. by intros [= <-].
    + rewrite rangeLists_perm. apply NoDup_fst_map_to_list.
  - intros a. rewrite fmap_reverse, elem_of_reverse, list_elem_of_fmap. setoid_rewrite merge_sort_Permutation. setoid_rewrite list_elem_of_omap. setoid_rewrite rangeLists_perm. split.
    + intros ([b n] & -> & [c l] & Hin & Hg). apply elem_of_map_to_list in Hin. unfold g in Hg. cbn [fst] in *. destruct (as_contains (locals p) c) eqn:Hloc; [done|].
      injection Hg as <- <-. by split; [exists l|].
    + intros [[l Hl] Hloc]. eexists (a, _). split; [done|]. exists (a, l). split; [by apply elem_of_map_to_list|]. unfold g. cbn [fst]. by rewrite Hloc.
Qed.

Lemma truncateQueue_ok (p : pool) : pool_ok p -> 0 <= GlobalQueue (config p) ->
  exists p', truncateQueue rangeTxs rangeAll rangeLists zeroAddr p = Ret p' /\ pool_ok p' /\ quiet p p' /\
    (forall a, as_contains (locals p) a = true -> queue p' !! a = queue p !! a) /\
    total (queue p) - Z.max 0 (count_txs rangeLists (queue p) - GlobalQueue (config p)) <= total (queue p') /\
    (count_txs rangeLists (queue p') <= GlobalQueue (config p) \/ forall a, as_contains (locals p) a = false -> cleared p' a).
Proof.
  intros Hok Hgq. unfold truncateQueue. set (n := count_txs rangeLists (queue p)). destruct (Z.leb_spec n (GlobalQueue (config p))) as [Hle|Hgt].
  { exists p. split; [done|]. split; [done|]. split; [apply quiet_refl|]. split; [done|]. split; [lia|by left]. }
  destruct (queue_addresses_spec p) as [Hnd Hin].
  destruct (truncate_loop_ok (queue_addresses rangeLists p) p (n - GlobalQueue (config p)) Hok Hnd) as (p' & -> & Hok' & (Hb & Hoff) & Hlo & Hend).
  { intros a Ha. by apply Hin. }
  { lia. }
  exists p'. split; [done|]. split; [done|]. split; [done|]. split; [|split; [lia|]].
  - intros a Ha. apply Hoff. rewrite Hin. intros [_ ?]. congruence.
  - destruct Hend as [Heq|Hcl]; [left|right].
    + rewrite count_total, Heq. pose proof (count_total (queue p)) as Hn. fold n in Hn.
      replace (total (queue p) - (n - GlobalQueue (config p))) with (total (queue p) + (GlobalQueue (config p) - n)) by lia.
      rewrite <-u64_add_l, <-Hn. replace (n + (GlobalQueue (config p) - n)) with (GlobalQueue (config p)) by lia. unfold u64. by apply Z.mod_le.
    + intros a Ha. destruct (queue p !! a) as [l|] eqn:Hl.
      * apply Hcl. apply Hin. split; [by exists l|done].
      * intros l' Hl'. rewrite Hoff in Hl'; [congruence|]. rewrite Hin. intros [[? ?] _]. congruence.
Qed.

(** ** The eviction of silent accounts *)

Definition expired (now : Z) (p : pool) (a : Addr) : bool := negb (as_contains (locals p) a) && (Lifetime (config p) <? now - default 0 (beats p !! a)).

Lemma clear_account (p : pool) (a : Addr) (l : txList) : pool_ok p -> queue p !! a = Some l ->
  exists p', (let '(txs, l') := list_Flatten rangeTxs l in remove_all (set_queue p (<[a := l']> (queue p))) txs true) = Ret p' /\ pool_ok p' /\ queue_only a p p' /\ cleared p' a.
Proof.
  intros Hok Hl. destruct (truncate_account p a l (Len l + 1) Hok Hl) as (p' & Hr & Hok' & Hq & _ & Hc).
  { destruct (flatten_queue p a l Hok Hl) as (c & ? & _ & _ & -> & _). unfold zlen. lia. }
  rewrite (proj2 (Z.leb_le (Len l) (Len l + 1))) in Hr by lia. exists p'. split; [|split; [done|]; split; [done|]; exact (Hc ltac:(lia))].
  destruct (list_Flatten rangeTxs l) as [txs l']. cbv zeta in Hr. destruct (remove_all (set_queue p (<[a:=l']> (queue p))) txs true) as [p2|f]; cbn [mbind go_bind] in Hr; [by injection Hr as ->|done].
Qed.

Lemma evict_ok (now : Z) (p : pool) : pool_ok p ->
  exists p', evict rangeTxs rangeAll rangeLists zeroAddr now p = Ret p' /\ pool_ok p' /\ quiet p p' /\
    forall a, if expired now p a then cleared p' a else queue p' !! a = queue p !! a.
Proof.
  unfold evict. intros Hok. set (f := fun p addr => _).
  assert (forall addrs q, pool_ok q -> NoDup addrs -> (forall a, a ∈ addrs -> is_Some (queue q !! a)) -> exists p', go_fold f q addrs = Ret p' /\ pool_ok p' /\ quiet q p' /\
    (forall a, a ∉ addrs -> queue p' !! a = queue q !! a) /\
    forall a, a ∈ addrs -> if expired now q a then cleared p' a else queue p' !! a = queue q !! a) as Hgen.
  { induction addrs as [|a addrs IH]; intros q Hokq Hnd Hin.
    { exists q. split; [done|]. split; [done|]. split; [apply quiet_refl|]. split; [done|]. by intros a Ha%not_elem_of_nil. }
    apply NoDup_cons in Hnd as [Ha Hnd]. cbn [go_fold].
    assert (exists q1, f q a = Ret q1 /\ pool_ok q1 /\ queue_only a q q1 /\ if expired now q a then cleared q1 a else queue q1 !! a = queue q !! a) as (q1 & -> & Hok1 & [Hq1 Hoff1] & Hx).
    { unfold f, expired. destruct (as_contains (locals q) a); cbn [negb andb]; [exists q; by split_and!; [..|split; [apply quiet_refl|]|]|].
      destruct (Lifetime (config q) <? _); [|exists q; by split_and!; [..|split; [apply quiet_refl|]|]].
      destruct (Hin a ltac:(by left)) as [l Hl]. rewrite Hl. by apply clear_account. }
    cbn [mbind go_bind]. destruct (IH q1 Hok1 Hnd) as (p' & Hr & Hok' & Hq' & Hoff' & Hall').
    { intros b Hb. rewrite Hoff1 by (by intros ->). apply Hin. by right. }
    exists p'. split; [exact Hr|]. split; [done|]. split; [by eapply quiet_trans|]. split.
    - intros b Hb. rewrite not_elem_of_cons in Hb. destruct Hb. rewrite Hoff' by done. by apply Hoff1.
    - assert (forall b, expired now q1 b = expired now q b) as He by (intros b; unfold expired; destruct Hq1 as ((-> & -> & _) & _ & ->); done).
      intros b [->|Hb]%elem_of_cons.
      + destruct (expired now q a); [intros l'; rewrite Hoff' by done; apply Hx|by rewrite Hoff'].
      + specialize (Hall' b Hb). rewrite He in Hall'. destruct (expired now q b); [done|]. rewrite Hall'. apply Hoff1. by intros ->. }
  destruct (Hgen (rangeLists (queue p)).*1 p Hok) as (p' & -> & Hok' & Hq' & Hoff' & Hall').
  { rewrite rangeLists_perm. apply NoDup_fst_map_to_list. }
  { intros a. rewrite rangeLists_perm. intros ([b l] & -> & Hin%elem_of_map_to_list)%list_elem_of_fmap. by exists l. }
  exists p'. split; [done|]. split; [done|]. split; [done|]. intros a. destruct (decide (a ∈ (rangeLists (queue p)).*1)) as [Ha|Ha]; [by apply Hall'|].
  assert (queue p !! a = None) as Hn. { apply eq_None_not_Some. intros [l Hl]. apply Ha. rewrite rangeLists_perm. apply (list_elem_of_fmap_2 fst _ (a, l)). by apply elem_of_map_to_list. }
  rewrite <-(Hoff' a Ha) in Hn. destruct (expired now p a); [intros l; by rewrite Hn|by rewrite Hoff'].
Qed.

End Limits.
