(* ===== verification/TxPoolRun.v ===== *)
(** A run of the reorganisation of the transaction pool (src/evmcore/tx_pool.go, reset and runReorg): it returns, and
    leaves a consistent pool under its limits, whose pending lists the state can execute after a change of head and
    whose virtual nonces are those after the pending transactions. *)
From stdpp Require Import gmap list sorting.
From S2P Require Import Prelude Bytes Event EventCheck Heap TxList TxListSpec TxPriced TxPool TxPoolInv TxPoolSpec TxPoolReorg TxPoolLimits.

Section Run.
Context {Tx Hash Addr : Type} `{Countable Hash, Countable Addr} {reads : TxReads Tx Hash Addr}.
Context (rangeTxs : gmap Z Tx -> list (Z * Tx)) (rangeAll : gmap Hash Tx -> list (Hash * Tx)) (zeroAddr : Addr).
Context (Nonce_u64 : forall tx, is_u64 (Nonce tx)) (rangeTxs_perm : forall m, rangeTxs m ≡ₚ map_to_list m) (TxHash_inj : Inj eq eq TxHash).
Context (rangeAll_perm : forall m, rangeAll m ≡ₚ map_to_list m).
Abbreviation txList := (TxList.txList (Tx := Tx)).
Abbreviation txSortedMap := (TxList.txSortedMap (Tx := Tx)).
Context (rangeLists : gmap Addr txList -> list (Addr * txList)) (rangeLists_perm : forall m, rangeLists m ≡ₚ map_to_list m).
Abbreviation sender := (sender zeroAddr).
Abbreviation tl_holds := (tl_holds Nonce Cost Gas).
Abbreviation pool := (TxPool (Tx := Tx) (Hash := Hash) (Addr := Addr)).
Abbreviation pinv := (pinv zeroAddr).
Abbreviation pool_ok := (pool_ok zeroAddr).

(** ** What the limits keep of the demotion *)

Lemma cut_executable (p p' : pool) (a : Addr) (l l' : txList) : executable p a -> base_kept p p' -> pending p !! a = Some l -> pending p' !! a = Some l' ->
  cut 1 l l' -> executable p' a.
Proof.
  intros He (_ & _ & E3 & E4) Hl Hl' (_ & Hlen & Hcut). destruct (He l Hl) as ([t Hget] & c & Hc & Hall). destruct (Hcut c Hc) as [k Hk].
  intros l2 Hl2. rewrite Hl' in Hl2. injection Hl2 as <-. rewrite E3, E4. pose proof (Len_spec Nonce Cost Gas l' _ Hk) as Hlk.
  pose proof (proj1 (list_get_spec l c _ t Hc) Hget) as [Ht Hn]. split.
  - exists t. apply (list_get_spec l' _ _ t Hk). split; [|done]. pose proof (proj1 (proj1 (proj1 Hc))) as Hasc.
    destruct c as [|u c]; [by apply not_elem_of_nil in Ht|]. destruct k as [|k]; [unfold zlen in Hlk; cbn in Hlk; lia|]. cbn [take].
    apply elem_of_cons in Ht as [->|Ht]; [by left|]. exfalso. apply StronglySorted_inv in Hasc as [_ Hlow]. rewrite Forall_forall in Hlow, Hall.
    specialize (Hlow t Ht). specialize (Hall u ltac:(by left)). unfold below in Hlow. lia.
  - exists (take k c). split; [done|]. rewrite Forall_forall in *. intros u Hu. apply Hall. rewrite <-(take_drop k c). apply elem_of_app. by left.
Qed.

(** ** The virtual nonces *)

(** The virtual nonce of an account follows its pending transactions. *)
Definition nonce_follows (p : pool) (a : Addr) : Prop := forall l c t, pending p !! a = Some l -> tl_holds l c -> last c = Some t ->
  (pool_Nonce p a).1 = u64 (Nonce t + 1).

(** Every list of the pool holds the same as in the other. *)
Definition same_lists (p p' : pool) : Prop := forall a, match pending p !! a, pending p' !! a with
  | Some l, Some l' => Len l' = Len l /\ forall c, tl_holds l c -> tl_holds l' c
  | None, None => True
  | _, _ => False
  end.

Lemma same_lists_refl (p : pool) : same_lists p p.
Proof. intros a. by destruct (pending p !! a). Qed.

Lemma same_lists_trans (p q r : pool) : same_lists p q -> same_lists q r -> same_lists p r.
Proof.
  intros Hpq Hqr a. specialize (Hpq a). specialize (Hqr a). destruct (pending p !! a), (pending q !! a), (pending r !! a); try done.
  destruct Hpq as [L1 C1], Hqr as [L2 C2]. split; [congruence|]. intros c Hc. by apply C2, C1.
Qed.

Lemma same_executable (p p' : pool) (a : Addr) : executable p a -> base_kept p p' -> same_lists p p' -> executable p' a.
Proof.
  intros He (_ & _ & E3 & E4) Hs l' Hl'. specialize (Hs a). rewrite Hl' in Hs. destruct (pending p !! a) as [l|] eqn:Hl; [|done]. destruct Hs as [_ Hs].
  rewrite E3, E4. destruct (He l Hl) as ([t Ht] & c & Hc & Hall). split; [|exists c; split; [by apply Hs|done]].
  exists t. apply (list_get_spec l' c _ t (Hs c Hc)). by apply (list_get_spec l c _ t Hc).
Qed.

Lemma holds_unique (l : txList) (c c' : list Tx) : tl_holds l c -> tl_holds l c' -> c = c'.
Proof.
  intros Hc Hc'. destruct (Flatten_spec Nonce Cost Gas rangeTxs rangeTxs_perm l c Hc) as (? & Hf & _).
  destruct (Flatten_spec Nonce Cost Gas rangeTxs rangeTxs_perm l c' Hc') as (? & Hf' & _). congruence.
Qed.

Definition refreshed (p p' : pool) : Prop := base_kept p p' /\ queue p' = queue p /\ beats p' = beats p /\ same_lists p p'.

Lemma refreshed_trans (p q r : pool) : refreshed p q -> refreshed q r -> refreshed p r.
Proof.
  intros (B1 & Q1 & E1 & S1) (B2 & Q2 & E2 & S2). split; [by eapply base_trans|]. split; [congruence|]. split; [congruence|]. by eapply same_lists_trans.
Qed.

Abbreviation refresh_nonce := (refresh_nonce (Tx := Tx) (Hash := Hash) (Addr := Addr) rangeTxs).

Lemma refresh_nonce_ok (p : pool) (a : Addr) : pool_ok p -> is_Some (pending p !! a) ->
  exists p', refresh_nonce p a = Ret p' /\ pool_ok p' /\ refreshed p p' /\ nonce_follows p' a /\ forall b, b <> a -> nonce_follows p b -> nonce_follows p' b.
Proof.
  intros (Hi & Hne & Ht) [l Hl]. unfold TxPool.refresh_nonce, pending_list. rewrite Hl. cbn [mbind go_bind].
  destruct (inv_P _ _ _ _ _ _ _ Hi _ _ Hl) as (c & Hst & Hc & Hall). destruct (Flatten_spec Nonce Cost Gas rangeTxs rangeTxs_perm l c Hc) as (l' & Hf & Hst' & Hc').
  unfold list_Flatten. rewrite Hf. assert (Len l' = Len l) as Hlen by (by rewrite (Len_spec Nonce Cost Gas l' c Hc'), (Len_spec Nonce Cost Gas l c Hc)).
  destruct (last c) as [t|] eqn:Hlast.
  2:{ exfalso. apply last_None in Hlast as ->. pose proof (Hne a l Hl) as He. by rewrite (Empty_spec Nonce Cost Gas l [] Hc) in He. }
  eexists. split; [reflexivity|]. split; [|split; [|split]].
  - split; [|split; [|exact Ht]].
    + unfold TxPoolSpec.pinv. cbn. eapply (inv_take zeroAddr _ _ _ _ _ [] a l l' c c []); [done..|congruence|done].
    + cbn. apply pend_ne_insert; [done|]. unfold Empty. rewrite Hlen. exact (Hne a l Hl).
  - split; [by repeat split|]. split; [done|]. split; [done|]. intros b. cbn. destruct (decide (b = a)) as [->|Hb].
    + rewrite Hl, lookup_insert_eq. split; [done|]. intros c2 Hc2. by rewrite (holds_unique l c2 c Hc2 Hc).
    + rewrite lookup_insert_ne by done. by destruct (pending p !! b).
  - intros l2 c2 t2 Hl2 Hc2 Hlast2. cbn in Hl2. rewrite lookup_insert_eq in Hl2. injection Hl2 as <-. rewrite (holds_unique l' c2 c Hc2 Hc') in Hlast2.
    unfold pool_Nonce, noncer_get, noncer_load. cbn. rewrite !lookup_insert_eq. cbn. rewrite lookup_insert_eq. cbn. congruence.
  - intros b Hb Hf0 l2 c2 t2 Hl2 Hc2 Hlast2. cbn in Hl2. rewrite lookup_insert_ne in Hl2 by done. rewrite <-(Hf0 l2 c2 t2 Hl2 Hc2 Hlast2).
    unfold pool_Nonce, noncer_get, noncer_load. cbn. rewrite lookup_insert_ne by done. destruct (nonces (pendingNonces p) !! b); cbn; [by rewrite lookup_insert_ne|].
    by rewrite !lookup_insert_eq.
Qed.

Lemma refresh_all (p : pool) : pool_ok p ->
  exists p', go_fold refresh_nonce p (rangeLists (pending p)).*1 = Ret p' /\ pool_ok p' /\ refreshed p p' /\ forall a, nonce_follows p' a.
Proof.
  intros Hok.
  assert (forall addrs q, pool_ok q -> (forall a, a ∈ addrs -> is_Some (pending q !! a)) -> exists p', go_fold refresh_nonce q addrs = Ret p' /\ pool_ok p' /\ refreshed q p' /\
    forall a, a ∈ addrs \/ nonce_follows q a -> nonce_follows p' a) as Hgen.
  { induction addrs as [|a addrs IH]; intros q Hq Hin.
    { exists q. split; [done|]. split; [done|]. split; [split; [apply base_refl|]; split; [done|]; split; [done|apply same_lists_refl]|]. by intros a [Ha%not_elem_of_nil|Ha]. }
    cbn [go_fold]. destruct (refresh_nonce_ok q a Hq (Hin a ltac:(by left))) as (q1 & -> & Hok1 & Hr1 & Hn1 & Ho1). cbn [mbind go_bind].
    destruct (IH q1 Hok1) as (p' & Hr & Hok' & Hr' & Hn').
    { intros b Hb. destruct (Hin b ltac:(by right)) as [l Hl]. destruct Hr1 as (_ & _ & _ & Hs). specialize (Hs b). rewrite Hl in Hs. destruct (pending q1 !! b); [done|contradiction]. }
    exists p'. split; [exact Hr|]. split; [done|]. split; [by eapply refreshed_trans|]. intros b Hb. apply Hn'. destruct (decide (b = a)) as [->|Hne]; [by right|].
    destruct Hb as [[Hb|Hb]%elem_of_cons|Hb]; [done|by left|right; by apply Ho1]. }
  destruct (Hgen (rangeLists (pending p)).*1 p Hok) as (p' & -> & Hok' & Hr' & Hn').
  { intros a. rewrite rangeLists_perm. intros ([b l] & -> & Hin%elem_of_map_to_list)%list_elem_of_fmap. by exists l. }
  exists p'. split; [done|]. split; [done|]. split; [done|]. intros a. destruct (pending p !! a) as [l|] eqn:Hl.
  - apply Hn'. left. rewrite rangeLists_perm. apply (list_elem_of_fmap_2 fst _ (a, l)). by apply elem_of_map_to_list.
  - intros l' c t Hl'. destruct Hr' as (_ & _ & _ & Hs). specialize (Hs a). by rewrite Hl, Hl' in Hs.
Qed.

Lemma refreshed_total (p p' : pool) : refreshed p p' -> total (pending p') = total (pending p).
Proof.
  intros (_ & _ & _ & Hs).
  assert (forall m m' : gmap Addr txList, (forall a, match m !! a, m' !! a with Some l, Some l' => Len l' = Len l | None, None => True | _, _ => False end) -> total m' = total m) as Hgen.
  { induction m as [|a l m Ha IH] using map_ind; intros m' Hm.
    - assert (m' = ∅) as ->; [|done]. apply map_empty. intros b. specialize (Hm b). rewrite lookup_empty in Hm. by destruct (m' !! b).
    - pose proof (Hm a) as Hma. rewrite lookup_insert_eq in Hma. destruct (m' !! a) as [l'|] eqn:Hl'; [|done].
      rewrite (txs_total_delete m' a l' Hl'), txs_total_insert by done. rewrite Hma. f_equal. apply IH. intros b. specialize (Hm b). destruct (decide (b = a)) as [->|Hb].
      + by rewrite Ha, lookup_delete_eq.
      + by rewrite lookup_insert_ne in Hm; [rewrite lookup_delete_ne|]. }
  apply Hgen. intros a. specialize (Hs a). destruct (pending p !! a), (pending p' !! a); try done. by destruct Hs.
Qed.

(** ** The walk back to a common block *)

Abbreviation EvmBlock := (EvmBlock (Tx := Tx) (Hash := Hash)).
Abbreviation EvmHeader := (EvmHeader (Hash := Hash)).
Context (chain : stateReader (Tx := Tx) (Hash := Hash) (Addr := Addr)) (TxDifference : list Tx -> list Tx -> list Tx).
(** A block that the chain finds by a number has it, and no block has the last number of 64 bits. *)
Context (chain_numbers : forall h n b, GetBlock chain h n = Some b -> hd_Number (Header b) = n /\ 0 <= n < 18446744073709551615).

Definition number (b : EvmBlock) : Z := hd_Number (Header b).

Lemma walk_down_ok (fuel : nat) (b : EvmBlock) (down_to : Z) (ts : list Tx) : 0 <= down_to -> 0 <= number b < 18446744073709551616 -> number b < Z.of_nat fuel + down_to + 1 ->
  exists r, walk_down chain fuel b down_to ts = Ret r /\ forall b' ts', r = Some (b', ts') -> number b' = number b `min` down_to.
Proof.
  revert b ts. unfold number. induction fuel as [|fuel IH]; intros b ts Hd Hb Hf; cbn [walk_down]; destruct (Z.leb_spec (hd_Number (Header b)) down_to) as [Hle|Hgt];
    try (eexists; split; [reflexivity|]; intros b' ts' [= <- <-]; lia); [lia|].
  rewrite u64_id by (unfold is_u64; lia). destruct (GetBlock chain _ _) as [b1|] eqn:Hg; [|by eexists].
  destruct (chain_numbers _ _ _ Hg) as [Hn Hr]. destruct (IH b1 (ts ++ Transactions b) Hd) as (r & Hrun & Hres); [lia..|].
  exists r. split; [exact Hrun|]. intros b' ts' Hr'. rewrite (Hres b' ts' Hr'). lia.
Qed.

Lemma walk_both_ok (fuel : nat) (rem add : EvmBlock) (ds is_ : list Tx) : number rem = number add -> 0 <= number rem < 18446744073709551616 -> number rem < Z.of_nat fuel ->
  exists r, walk_both chain fuel rem add ds is_ = Ret r.
Proof.
  revert rem add ds is_. unfold number. induction fuel as [|fuel IH]; intros rem add ds is_ Heq Hr Hf; [lia|]. cbn [walk_both].
  destruct (bool_decide _); [by eexists|]. destruct (GetBlock chain (hd_ParentHash (Header rem)) _) as [rem'|] eqn:Hg; [|by eexists].
  destruct (GetBlock chain (hd_ParentHash (Header add)) _) as [add'|] eqn:Ha; [|by eexists].
  destruct (chain_numbers _ _ _ Hg) as [Hn Hrn]. destruct (chain_numbers _ _ _ Ha) as [Hm _]. rewrite Heq in Hn.
  assert (hd_Number (Header add) <> 0) as Hz. { intros Hz. rewrite Heq, Hz in Hrn. change (u64 (0 - 1)) with 18446744073709551615 in Hrn. lia. }
  rewrite u64_id in Hn by (unfold is_u64; lia). rewrite Heq, u64_id in Hrn by (unfold is_u64; lia). rewrite u64_id in Hm by (unfold is_u64; lia).
  apply IH; lia.
Qed.

Definition known (h : EvmHeader) : Prop := is_Some (GetBlock chain (hd_Hash h) (hd_Number h)).

Lemma reinjected_ok (oldHead : option EvmHeader) (newHead : EvmHeader) : known newHead -> exists r, reinjected chain TxDifference oldHead newHead = Ret r.
Proof.
  intros [add Hadd]. unfold reinjected. destruct oldHead as [old|]; [|by eexists]. destruct (bool_decide _); [by eexists|]. destruct (_ <? _); [by eexists|].
  destruct (GetBlock chain (hd_Hash old) _) as [rem|] eqn:Hrem; [|by eexists]. rewrite Hadd.
  destruct (chain_numbers _ _ _ Hrem) as [Hn1 Hr1]. destruct (chain_numbers _ _ _ Hadd) as [Hn2 Hr2].
  edestruct (walk_down_ok (Z.to_nat (hd_Number (Header rem) + 1)) rem (hd_Number (Header add)) []) as ([[rem1 ds]|] & -> & Hd1); [unfold number; lia..| |]; cbn [mbind go_bind]; [|by eexists].
  specialize (Hd1 _ _ eq_refl). unfold number in Hd1.
  edestruct (walk_down_ok (Z.to_nat (hd_Number (Header add) + 1)) add (hd_Number (Header rem1)) []) as ([[add1 is_]|] & -> & Hd2); [unfold number; lia..| |]; cbn [mbind go_bind]; [|by eexists].
  specialize (Hd2 _ _ eq_refl). unfold number in Hd2.
  edestruct (walk_both_ok (Z.to_nat (hd_Number (Header rem1) + 1)) rem1 add1 ds is_) as ([[? ?]|] & ->); [unfold number; lia..| |]; cbn [mbind go_bind]; by eexists.
Qed.

(** ** A change of head *)

Context (eth : EthParams).

(** The heads that a reset may be given: an old head comes with a new one, which the chain knows. *)
Definition heads_ok (oldHead newHead : option EvmHeader) : Prop := match oldHead, newHead with Some _, None => False | _, Some h => known h | None, None => True end.

Lemma reset_ok (p : pool) (oldHead newHead : option EvmHeader) : pool_ok p -> heads_ok oldHead newHead ->
  exists p', reset rangeTxs rangeAll eth zeroAddr chain TxDifference p oldHead newHead = Ret p' /\ pool_ok p' /\ config p' = config p.
Proof.
  intros Hok Hh. unfold reset.
  assert (exists r, match oldHead, newHead with Some _, None => Fault NilDereference | None, None => Ret (Some []) | _, Some h => reinjected chain TxDifference oldHead h end = Ret r) as [r ->].
  { destruct oldHead, newHead; [by apply reinjected_ok|done|by apply reinjected_ok|by eexists]. }
  cbn [mbind go_bind]. destruct r as [ts|]; [|by exists p]. set (p1 := set_head p _ _ _).
  assert (pool_ok p1) as Hok1 by (eapply pool_ok_ext; [exact Hok|done..]).
  destruct (addTxsLocked_ok rangeTxs rangeAll zeroAddr rangeTxs_perm TxHash_inj rangeAll_perm eth p1 ts false Hok1) as (errs & dirty & p2 & -> & Hok2 & Hc & _).
  cbn [mbind go_bind snd]. by exists p2.
Qed.

(** The events for the subscribers are sorted maps by sender. *)
Definition events_ok (ev : gmap Addr txSortedMap) : Prop := forall a m, ev !! a = Some m -> exists c, sm_holds Nonce m c.

Lemma put_event_ok (ev : gmap Addr txSortedMap) (t : Tx) : events_ok ev -> events_ok (put_event zeroAddr ev t).
Proof.
  intros Hev a m. unfold put_event. intros [[<- <-]|[_ Hm]]%lookup_insert_Some; [|by eapply Hev].
  destruct (ev !! sender t) as [m|] eqn:Hm; cbn; [destruct (Hev _ _ Hm) as [c Hc]|]; eexists; apply sm_Put_spec; [done|apply sm_new_spec].
Qed.

Lemma forward_events_ok (addrs : list Addr) (p : pool) (ev : gmap Addr txSortedMap) : events_ok ev ->
  exists n ev', go_fold forward_events (p, ev) addrs = Ret (set_pendingNonces p n, ev') /\ events_ok ev'.
Proof.
  revert p ev. induction addrs as [|a addrs IH]; intros p ev Hev; [exists (pendingNonces p), ev; by destruct p|]. cbn [go_fold].
  unfold forward_events at 2. cbn [fst snd]. destruct (ev !! a) as [m|] eqn:Hm; [|by apply IH]. destruct (noncer_get _ a) as [n nn].
  destruct (Hev a m Hm) as [c Hc]. destruct (sm_Forward_spec Nonce m c n Hc) as (m' & -> & Hm'). cbn [mbind go_bind fst snd].
  edestruct (IH (set_pendingNonces p nn)) as (n' & ev' & Hr & Hev'); [|exists n', ev'; by split; [exact Hr|]].
  intros b mb. destruct (sm_Len m' =? 0); [intros [_ Hb]%lookup_delete_Some; by eapply Hev|]. intros [[_ <-]|[_ Hb]]%lookup_insert_Some; [by eexists|by eapply Hev].
Qed.

(** ** A run of the reorganisation *)

Context (rangeSet : gset Addr -> list Addr) (rangeEvents : gmap Addr txSortedMap -> list (Addr * txSortedMap)) (prque : list (Addr * Z) -> list Addr).
Context (prque_order : forall l, exists l', l' ≡ₚ l /\ prque l = l'.*1 /\ StronglySorted (fun x y => y.2 <= x.2) l').

(** The limits that a sane configuration sets. *)
Definition limits_ok (p : pool) : Prop := 1 <= AccountSlots (config p) /\ 0 <= i64 (AccountQueue (config p)) /\ 0 <= GlobalQueue (config p).

Definition within_limits (p : pool) : Prop :=
  (count_txs rangeLists (pending p) <= GlobalSlots (config p) \/
   forall a l, pending p !! a = Some l -> as_contains (locals p) a = false -> Len l <= AccountSlots (config p)) /\
  (count_txs rangeLists (queue p) <= GlobalQueue (config p) \/ forall a, as_contains (locals p) a = false -> cleared p a).

(** The part of a run that follows the promotion. *)
Definition settle (p : pool) (demote : bool) : go pool :=
  p ← (if demote then demoteUnexecutables rangeTxs rangeAll rangeLists zeroAddr p else Ret p);
  p ← truncatePending rangeAll rangeLists prque p;
  p ← truncateQueue rangeTxs rangeAll rangeLists zeroAddr p;
  go_fold refresh_nonce p (rangeLists (pending p)).*1.

Lemma kept_executable (p p' : pool) (a : Addr) : 1 <= AccountSlots (config p) -> executable p a -> account_slots_kept p p' -> executable p' a.
Proof.
  intros Hs He (_ & Hb & Hc). destruct (Hc a) as [Heq|(_ & l & l' & Hl & Hl' & Hcut)]; [by eapply executable_kept|].
  eapply cut_executable; [exact He|exact Hb|exact Hl|exact Hl'|]. by eapply cut_weaken.
Qed.

Lemma refreshed_limits (p p' : pool) : refreshed p p' -> within_limits p -> within_limits p'.
Proof.
  intros Hr [Hp Hq]. pose proof (refreshed_total p p' Hr) as Ht. destruct Hr as ((E1 & E2 & _) & Eq & _ & Hs). unfold within_limits, cleared. rewrite E1, E2, Eq.
  split; [|exact Hq]. destruct Hp as [Hp|Hp]; [left; by rewrite !(count_total rangeLists rangeLists_perm) in *; rewrite Ht|right].
  intros a l' Hl' Ha. specialize (Hs a). rewrite Hl' in Hs. destruct (pending p !! a) as [l|] eqn:Hl; [|done]. destruct Hs as [-> _]. by eapply Hp.
Qed.

Lemma settle_ok (p : pool) (demote : bool) : pool_ok p -> limits_ok p ->
  exists p', settle p demote = Ret p' /\ pool_ok p' /\ base_kept p p' /\ within_limits p' /\ (forall a, nonce_follows p' a) /\
    (demote = true -> forall a, executable p' a).
Proof.
  intros Hok Hlim. unfold settle.
  assert (exists p1, (if demote then demoteUnexecutables rangeTxs rangeAll rangeLists zeroAddr p else Ret p) = Ret p1 /\ pool_ok p1 /\ base_kept p p1 /\
    (demote = true -> forall a, executable p1 a)) as (p1 & -> & Hok1 & Hb1 & Hx1).
  { destruct demote; [|exists p; by split; [|split; [|split; [apply base_refl|]]]].
    destruct (demote_ok rangeTxs rangeAll zeroAddr Nonce_u64 rangeTxs_perm TxHash_inj rangeAll_perm rangeLists p rangeLists_perm Hok) as (p1 & -> & Hok1 & Hb1 & Hx1). by exists p1. }
  assert (limits_ok p1) as Hlim1 by (unfold limits_ok; by destruct Hb1 as (-> & _)). cbn [mbind go_bind].
  destruct (truncatePending_ok rangeTxs rangeAll zeroAddr Nonce_u64 rangeTxs_perm TxHash_inj rangeAll_perm rangeLists rangeLists_perm prque prque_order p1 Hok1 (proj1 Hlim1))
    as (p2 & -> & Hok2 & Hk2 & Hl2). cbn [mbind go_bind]. pose proof Hk2 as (_ & Hb2 & _).
  assert (limits_ok p2) as Hlim2 by (unfold limits_ok; by destruct Hb2 as (-> & _)).
  destruct (truncateQueue_ok rangeTxs rangeAll zeroAddr rangeTxs_perm TxHash_inj rangeAll_perm rangeLists rangeLists_perm p2 Hok2 (proj2 (proj2 Hlim2)))
    as (p3 & -> & Hok3 & (Hb3 & Hp3 & _) & _ & _ & Hl3). cbn [mbind go_bind].
  destruct (refresh_all p3 Hok3) as (p4 & -> & Hok4 & Hr4 & Hn4). exists p4. split; [done|]. split; [done|].
  split; [eapply base_trans; [exact Hb1|]; eapply base_trans; [exact Hb2|]; eapply base_trans; [exact Hb3|apply Hr4]|]. split; [|split; [done|]].
  - apply (refreshed_limits p3 p4 Hr4). destruct Hb3 as (E1 & E2 & _). destruct Hb2 as (D1 & D2 & _). unfold within_limits. rewrite Hp3, E1, E2, D1, D2.
    split; [exact Hl2|]. by rewrite D1, D2 in Hl3.
  - intros Hd a. destruct Hr4 as (Hb4 & _ & _ & Hs4). apply (same_executable p3 p4 a); [|done|done].
    apply (executable_kept p2 p3 a); [|by rewrite Hp3|done]. eapply kept_executable; [apply Hlim1|by apply Hx1|exact Hk2].
Qed.

Lemma settle_then {B} (p : pool) (demote : bool) (k : pool -> go B) :
  (p ← (if demote then demoteUnexecutables rangeTxs rangeAll rangeLists zeroAddr p else Ret p);
   p ← truncatePending rangeAll rangeLists prque p;
   p ← truncateQueue rangeTxs rangeAll rangeLists zeroAddr p;
   p ← go_fold refresh_nonce p (rangeLists (pending p)).*1; k p) = (p ← settle p demote; k p).
Proof.
  unfold settle. destruct (if demote then _ else _) as [p1|f]; [|done]. cbn [mbind go_bind]. destruct (truncatePending _ _ _ p1) as [p2|f]; [|done].
  cbn [mbind go_bind]. by destruct (truncateQueue _ _ _ _ p2).
Qed.

Abbreviation runReorg := (runReorg rangeTxs rangeAll rangeSet rangeLists rangeEvents prque eth zeroAddr chain TxDifference).

Lemma runReorg_ok (now : Z) (p : pool) (rst : option (option EvmHeader * option EvmHeader)) (dirty : option (accountSet (Addr := Addr))) (events : gmap Addr txSortedMap) :
  pool_ok p -> limits_ok p -> events_ok events -> (forall o n, rst = Some (o, n) -> heads_ok o n) ->
  exists p' sent, runReorg now p rst dirty events = Ret (p', sent) /\ pool_ok p' /\ config p' = config p /\ within_limits p' /\
    (forall a, nonce_follows p' a) /\ (rst <> None -> forall a, executable p' a).
Proof.
  intros Hok Hlim Hev Hh. unfold TxPool.runReorg. set (addrs0 := match dirty with Some _ => _ | None => [] end).
  assert (exists p1 ev1 addrs, match rst with
      | None => Ret (p, events, addrs0)
      | Some (oldHead, newHead) =>
        p ← reset rangeTxs rangeAll eth zeroAddr chain TxDifference p oldHead newHead;
        e ← go_fold forward_events (p, events) (rangeEvents events).*1;
        Ret (e.1, e.2, (rangeLists (queue e.1)).*1)
      end = Ret (p1, ev1, addrs) /\ pool_ok p1 /\ config p1 = config p) as (p1 & ev1 & addrs & -> & Hok1 & Hc1).
  { destruct rst as [[o n]|]; [|by exists p, events, addrs0]. destruct (reset_ok p o n Hok (Hh o n eq_refl)) as (p1 & -> & Hok1 & Hc1). cbn [mbind go_bind].
    destruct (forward_events_ok (rangeEvents events).*1 p1 events Hev) as (nn & ev & -> & _). cbn [mbind go_bind fst snd]. eexists _, ev, _. split; [reflexivity|].
    split; [|done]. eapply pool_ok_ext; [exact Hok1|done..]. }
  cbn [mbind go_bind]. destruct (promoteExecutables_ok rangeTxs rangeAll zeroAddr Nonce_u64 rangeTxs_perm TxHash_inj rangeAll_perm now p1 addrs Hok1) as (p2 & promoted & -> & Hok2 & Hc2 & _).
  { rewrite Hc1. apply Hlim. }
  cbn [mbind go_bind]. set (demote := match rst with Some _ => true | None => false end).
  assert (match rst with Some _ => demoteUnexecutables rangeTxs rangeAll rangeLists zeroAddr p2 | None => Ret p2 end =
    if demote then demoteUnexecutables rangeTxs rangeAll rangeLists zeroAddr p2 else Ret p2) as -> by (by destruct rst).
  rewrite settle_then. destruct (settle_ok p2 demote Hok2) as (p' & -> & Hok' & Hb' & Hl' & Hn' & Hx').
  { unfold limits_ok. rewrite Hc2, Hc1. exact Hlim. }
  cbn [mbind go_bind]. eexists p', _. split; [reflexivity|]. split; [done|]. split; [destruct Hb' as (-> & _); congruence|]. split; [done|]. split; [done|].
  intros Hr. apply Hx'. by destruct rst as [[o n]|].
Qed.

End Run.
