(* ===== verification/TxPoolSteps.v ===== *)
(** The transaction pool as a state machine (src/evmcore/tx_pool.go): the operations that change it, in any order from
    the new pool, with the invariant of all the pools they reach; and what a run of the reorganisation, the
    truncation of the pending transactions and the eviction promise. *)
From stdpp Require Import gmap list sorting.
From S2P Require Import Prelude Bytes Event EventCheck Heap TxList TxListSpec TxPriced TxPool TxPoolInv TxPoolSpec TxPoolReorg TxPoolLimits TxPoolRun.

Section Steps.
Context {Tx Hash Addr : Type} `{Countable Hash, Countable Addr} {reads : TxReads Tx Hash Addr}.
Context (rangeTxs : gmap Z Tx -> list (Z * Tx)) (rangeAll : gmap Hash Tx -> list (Hash * Tx)) (zeroAddr : Addr).
Abbreviation txList := (TxList.txList (Tx := Tx)).
Abbreviation txSortedMap := (TxList.txSortedMap (Tx := Tx)).
Context (rangeLists : gmap Addr txList -> list (Addr * txList)) (rangeSet : gset Addr -> list Addr) (rangeEvents : gmap Addr txSortedMap -> list (Addr * txSortedMap)).
Context (prque : list (Addr * Z) -> list Addr) (eth : EthParams).
Context (chain : stateReader (Tx := Tx) (Hash := Hash) (Addr := Addr)) (TxDifference : list Tx -> list Tx -> list Tx).
Abbreviation pool := (TxPool (Tx := Tx) (Hash := Hash) (Addr := Addr)).
Abbreviation EvmHeader := (EvmHeader (Hash := Hash)).
Abbreviation pool_ok := (pool_ok zeroAddr).

(** The operations that take the pool's lock to change it; the nonces are those that Nonce caches. *)
Inductive pool_op :=
  | OpAdd (txs : list Tx) (local : bool)
  | OpRemove (hash : Hash) (outofbound : bool)
  | OpSetGasPrice (price : Z)
  | OpEvict (now : Z)
  | OpNonce (addr : Addr)
  | OpRun (now : Z) (rst : option (option EvmHeader * option EvmHeader)) (dirty : option (accountSet (Addr := Addr))) (events : gmap Addr txSortedMap).

Definition pool_do (p : pool) (op : pool_op) : go pool :=
  match op with
  | OpAdd txs local => r ← addTxsLocked rangeTxs rangeAll eth zeroAddr p txs local; Ret r.2
  | OpRemove hash outofbound => removeTx rangeTxs rangeAll zeroAddr p hash outofbound
  | OpSetGasPrice price => SetGasPrice rangeTxs rangeAll zeroAddr p price
  | OpEvict now => evict rangeTxs rangeAll rangeLists zeroAddr now p
  | OpNonce addr => Ret (pool_Nonce p addr).2
  | OpRun now rst dirty events =>
    r ← runReorg rangeTxs rangeAll rangeSet rangeLists rangeEvents prque eth zeroAddr chain TxDifference now p rst dirty events; Ret r.1
  end.

Definition op_valid (op : pool_op) : Prop :=
  match op with
  | OpRun _ rst _ events => events_ok events /\ forall o n, rst = Some (o, n) -> heads_ok chain o n
  | _ => True
  end.

Context (Nonce_u64 : forall tx, is_u64 (Nonce tx)) (TxHash_inj : Inj eq eq TxHash).
Context (rangeTxs_perm : forall m, rangeTxs m ≡ₚ map_to_list m) (rangeAll_perm : forall m, rangeAll m ≡ₚ map_to_list m).
Context (rangeLists_perm : forall m, rangeLists m ≡ₚ map_to_list m).
Context (prque_order : forall l, exists l', l' ≡ₚ l /\ prque l = l'.*1 /\ StronglySorted (fun x y => y.2 <= x.2) l').
Context (chain_numbers : forall h n b, GetBlock chain h n = Some b -> hd_Number (Header b) = n /\ 0 <= n < 18446744073709551615).

Lemma pool_do_ok (p : pool) (op : pool_op) : pool_ok p -> limits_ok p -> op_valid op ->
  exists p', pool_do p op = Ret p' /\ pool_ok p' /\ config p' = config p.
Proof.
  intros Hok Hlim Hv. destruct op; cbn [pool_do op_valid] in *.
  - destruct (addTxsLocked_ok rangeTxs rangeAll zeroAddr rangeTxs_perm TxHash_inj rangeAll_perm eth p txs local Hok) as (errs & dirty & p' & -> & Hok' & Hc & _). by exists p'.
  - destruct Hok as (Hi & Hne & Ht). destruct (removeTx_spec rangeTxs rangeAll zeroAddr rangeTxs_perm TxHash_inj p hash outofbound Hi Hne) as (p' & -> & Hr).
    exists p'. split; [done|]. split; [by eapply (remove_ok rangeAll zeroAddr rangeAll_perm p)|]. by destruct Hr as (_ & _ & _ & _ & (-> & _) & _).
  - destruct (SetGasPrice_ok rangeTxs rangeAll zeroAddr rangeTxs_perm TxHash_inj p price Hok) as (p' & -> & Hok' & Hc & _). by exists p'.
  - destruct (evict_ok rangeTxs rangeAll zeroAddr rangeTxs_perm TxHash_inj rangeAll_perm rangeLists rangeLists_perm now p Hok) as (p' & -> & Hok' & ((Hc & _) & _) & _). by exists p'.
  - eexists. split; [done|]. unfold pool_Nonce. destruct (noncer_get _ addr) as [n nn]. cbn. split; [|done]. eapply pool_ok_ext; [exact Hok|done..].
  - destruct Hv as [Hev Hh].
    destruct (runReorg_ok rangeTxs rangeAll zeroAddr Nonce_u64 rangeTxs_perm TxHash_inj rangeAll_perm rangeLists rangeLists_perm chain TxDifference chain_numbers eth
      rangeSet rangeEvents prque prque_order now p rst dirty events Hok Hlim Hev Hh) as (p' & sent & -> & Hok' & Hc & _). by exists p'.
Qed.

Lemma empty_ok (cfg : TxPoolConfig) (localAddrs : list Addr) : pool_ok (emptyPool cfg localAddrs).
Proof.
  split; [|split; [by intros a l|split; [|by intros h t]]].
  - split; cbn; [by intros a l|by intros a l|by left| |by apply NoDup_nil|].
    + by intros t Ht%not_elem_of_nil.
    + intros h t. rewrite lookup_empty. split; [done|]. intros [_ [Hs|[Hs|Hs%not_elem_of_nil]]]; [..|done]; unfold TxPoolInv.tx_slot, TxPoolInv.slot in Hs; by rewrite lookup_empty in Hs.
  - intros k _ Hk. cbn in Hk. lia.
Qed.

Lemma sane_limits (cfg : TxPoolConfig) (localAddrs : list Addr) : AccountQueue cfg <= MaxInt64 -> limits_ok (emptyPool (Tx := Tx) (Hash := Hash) cfg localAddrs).
Proof.
  intros Hq. unfold limits_ok. cbn. split; [|split].
  - destruct (Z.ltb_spec (AccountSlots cfg) 1); lia.
  - destruct (Z.ltb_spec (AccountQueue cfg) 1); [done|]. word.
  - destruct (Z.ltb_spec (GlobalQueue cfg) 1); lia.
Qed.

Lemma pool_ops_ok (ops : list pool_op) (p : pool) : pool_ok p -> limits_ok p -> Forall op_valid ops ->
  exists p', go_fold pool_do p ops = Ret p' /\ pool_ok p' /\ config p' = config p.
Proof.
  revert p. induction ops as [|op ops IH]; intros p Hok Hlim Hv; [by exists p|]. apply Forall_cons in Hv as [Hv Hvs]. cbn [go_fold].
  destruct (pool_do_ok p op Hok Hlim Hv) as (p1 & -> & Hok1 & Hc1). cbn [mbind go_bind].
  destruct (IH p1 Hok1 ltac:(by unfold limits_ok; rewrite Hc1) Hvs) as (p' & Hr & Hok' & Hc'). exists p'. split; [exact Hr|]. split; [done|congruence].
Qed.

(** The invariant in the words of the pool's indexes. *)
Definition in_list (m : gmap Addr txList) (t : Tx) : Prop := exists l, m !! sender zeroAddr t = Some l /\ sm_Get (txs l) (Nonce t) = Some t.

Definition consistent (p : pool) : Prop :=
  (forall h t, all p !! h = Some t <-> TxHash t = h /\ (in_list (pending p) t \/ in_list (queue p) t)) /\
  (forall t t', in_list (pending p) t -> in_list (queue p) t' -> ~ (sender zeroAddr t = sender zeroAddr t' /\ Nonce t = Nonce t')) /\
  (forall a l, pending p !! a = Some l -> strict l = true /\ Empty l = false /\ exists c, tl_holds Nonce Cost Gas l c /\ Forall (fun t => sender zeroAddr t = a) c) /\
  (forall a l, queue p !! a = Some l -> strict l = false /\ exists c, tl_holds Nonce Cost Gas l c /\ Forall (fun t => sender zeroAddr t = a) c) /\
  (forall h t, all p !! h = Some t -> t ∈ pl_items (priced p)).

Lemma in_list_slot (m : gmap Addr txList) (t : Tx) : in_list m t <-> tx_slot zeroAddr m t = Some t.
Proof.
  unfold in_list, TxPoolInv.tx_slot, TxPoolInv.slot. split; [by intros (l & -> & Hl)|]. destruct (m !! sender zeroAddr t) as [l|]; [|done]. intros Hl. by exists l.
Qed.

Lemma pool_ok_consistent (p : pool) : pool_ok p -> consistent p.
Proof.
  intros ([HP HQ Ho _ _ Ha] & Hne & [_ Ht]). split; [|split; [|split; [|split]]].
  - intros h t. rewrite Ha, !in_list_slot. split; [intros [? [?|[?|?%not_elem_of_nil]]]; by auto|intros [? [?|?]]; by auto].
  - intros t t' Hp Hq [Hs Hn]. rewrite in_list_slot in Hp, Hq. unfold TxPoolInv.tx_slot in *. rewrite Hs, Hn in Hp. destruct (Ho (sender zeroAddr t') (Nonce t')); congruence.
  - intros a l Hl. destruct (HP a l Hl) as (c & Hst & Hc & Hall). split; [done|]. split; [by apply (Hne a)|by exists c].
  - intros a l Hl. destruct (HQ a l Hl) as (c & Hst & Hc & Hall). split; [done|by exists c].
  - intros h t Hh. by apply (Ht h).
Qed.

(** C22: the pool stays consistent.  From the new pool, with any configuration that sanitize accepts, any sequence of
    additions, removals, changes of the price limit, evictions and runs of the reorganisation returns without a
    panic, whatever the order in which Go ranges over its maps; and then the index by hash holds exactly the
    transactions of the pending and the queued lists, each under its hash and in the list of its sender, no nonce of an
    account is both pending and queued, each list is a sorted map whose caps bound its transactions, no pending list is
    empty, and the price index knows every transaction. *)
Theorem pool_stays_consistent (cfg : TxPoolConfig) (localAddrs : list Addr) (ops : list pool_op) : AccountQueue cfg <= MaxInt64 -> Forall op_valid ops ->
  exists p, go_fold pool_do (emptyPool cfg localAddrs) ops = Ret p /\ consistent p.
Proof.
  intros Hq Hv. destruct (pool_ops_ok ops _ (empty_ok cfg localAddrs) (sane_limits cfg localAddrs Hq) Hv) as (p & Hr & Hok & _).
  exists p. split; [exact Hr|by apply pool_ok_consistent].
Qed.

(** The pools that the operations reach. *)
Definition reached (cfg : TxPoolConfig) (localAddrs : list Addr) (ops : list pool_op) (p : pool) : Prop :=
  AccountQueue cfg <= MaxInt64 /\ Forall op_valid ops /\ go_fold pool_do (emptyPool cfg localAddrs) ops = Ret p.

Lemma reached_ok (cfg : TxPoolConfig) (localAddrs : list Addr) (ops : list pool_op) (p : pool) : reached cfg localAddrs ops p -> pool_ok p /\ limits_ok p.
Proof.
  intros (Hq & Hv & Hr). pose proof (sane_limits cfg localAddrs Hq) as Hlim.
  destruct (pool_ops_ok ops _ (empty_ok cfg localAddrs) Hlim Hv) as (p' & Hr' & Hok & Hc).
  rewrite Hr in Hr'. injection Hr' as <-. split; [done|]. unfold limits_ok. by rewrite Hc.
Qed.

(** The transactions of a list in the order of their nonces. *)
Abbreviation contents := (list_Flatten (Tx := Tx) (Hash := Hash) (Addr := Addr) rangeTxs).

Lemma executable_contents (p : pool) (a : Addr) (l : txList) : executable p a -> pending p !! a = Some l ->
  Nonce <$> head (contents l).1 = Some (GetNonce (currentState p) a) /\
  Forall (fun t => Cost t <= GetBalance (currentState p) a /\ Gas t <= currentMaxGas p) (contents l).1.
Proof.
  intros He Hl. destruct (He l Hl) as ([t Hget] & c & Hc & Hall). destruct (Flatten_spec Nonce Cost Gas rangeTxs rangeTxs_perm l c Hc) as (l' & Hf & _).
  unfold list_Flatten. rewrite Hf. cbn [fst]. pose proof (proj1 (list_get_spec l c _ t Hc) Hget) as [Ht Hn]. pose proof (proj1 (proj1 (proj1 Hc))) as Hasc.
  split; [|eapply Forall_impl; [exact Hall|]; intros u Hu; apply Hu]. destruct c as [|u c]; [by apply not_elem_of_nil in Ht|]. cbn. f_equal.
  apply elem_of_cons in Ht as [->|Ht]; [done|]. exfalso. apply StronglySorted_inv in Hasc as [_ Hlow]. rewrite Forall_forall in Hlow, Hall.
  specialize (Hlow t Ht). specialize (Hall u ltac:(by left)). unfold below in Hlow. lia.
Qed.

Lemma follows_contents (p : pool) (a : Addr) (l : txList) (t : Tx) : pool_ok p -> nonce_follows p a -> pending p !! a = Some l -> last (contents l).1 = Some t ->
  (pool_Nonce p a).1 = u64 (Nonce t + 1).
Proof.
  intros (Hi & _) Hn Hl Ht. destruct (inv_P _ _ _ _ _ _ _ Hi _ _ Hl) as (c & _ & Hc & _). destruct (Flatten_spec Nonce Cost Gas rangeTxs rangeTxs_perm l c Hc) as (l' & Hf & _).
  unfold list_Flatten in Ht. rewrite Hf in Ht. by eapply Hn.
Qed.

(** C23: what a run of the reorganisation leaves.  In every pool that the operations reach, a run over valid heads returns,
    and the pool it leaves is consistent and within its limits: the pending transactions are at most GlobalSlots, or no account that
    is not local has more than AccountSlots, and the queued ones are at most GlobalQueue, or all are of local accounts; the nonce
    that the pool reports for an account with pending transactions is the one after the last of them; and when the head
    changed, each pending list starts at the nonce of the account in the state and holds transactions that its balance and
    the block can pay for. *)
Theorem run_settles_pool (cfg : TxPoolConfig) (localAddrs : list Addr) (ops : list pool_op) (p : pool) (now : Z)
    (rst : option (option EvmHeader * option EvmHeader)) (dirty : option (accountSet (Addr := Addr))) (events : gmap Addr txSortedMap) :
  reached cfg localAddrs ops p -> op_valid (OpRun now rst dirty events) ->
  exists p' sent, runReorg rangeTxs rangeAll rangeSet rangeLists rangeEvents prque eth zeroAddr chain TxDifference now p rst dirty events = Ret (p', sent) /\
    consistent p' /\
    (count_txs rangeLists (pending p') <= GlobalSlots (config p') \/
     forall a l, pending p' !! a = Some l -> as_contains (locals p') a = false -> Len l <= AccountSlots (config p')) /\
    (count_txs rangeLists (queue p') <= GlobalQueue (config p') \/
     forall a l, queue p' !! a = Some l -> as_contains (locals p') a = false -> Len l = 0) /\
    (forall a l t, pending p' !! a = Some l -> last (contents l).1 = Some t -> (pool_Nonce p' a).1 = u64 (Nonce t + 1)) /\
    (rst <> None -> forall a l, pending p' !! a = Some l ->
      Nonce <$> head (contents l).1 = Some (GetNonce (currentState p') a) /\
      Forall (fun t => Cost t <= GetBalance (currentState p') a /\ Gas t <= currentMaxGas p') (contents l).1).
Proof.
  intros Hreach [Hev Hh]. destruct (reached_ok cfg localAddrs ops p Hreach) as [Hok Hlim].
  destruct (runReorg_ok rangeTxs rangeAll zeroAddr Nonce_u64 rangeTxs_perm TxHash_inj rangeAll_perm rangeLists rangeLists_perm chain TxDifference chain_numbers eth
    rangeSet rangeEvents prque prque_order now p rst dirty events Hok Hlim Hev Hh) as (p' & sent & Hr & Hok' & _ & [Hp Hq] & Hn & Hx).
  exists p', sent. split; [exact Hr|]. split; [by apply pool_ok_consistent|]. split; [exact Hp|]. split; [|split].
  - destruct Hq as [Hq|Hq]; [by left|right]. intros a l Hl Ha. by apply (Hq a Ha).
  - intros a l t Hl Ht. by eapply follows_contents.
  - intros Hne a l Hl. by apply executable_contents; [apply Hx|].
Qed.

(** C24: the limit of the pending transactions is fair.  In every pool that the operations reach, the promotion of any
    accounts returns, and truncatePending, called on the pool it leaves, returns and keeps it consistent; afterwards the pending
    transactions are at most GlobalSlots, or no account that is not local has more than AccountSlots; the queued
    transactions are the same; and the pending transactions of an account are the same too, unless the account is not local and had
    more than AccountSlots: then it keeps at least AccountSlots of them, the ones of the lowest nonces. *)
Theorem pending_limit_fair (cfg : TxPoolConfig) (localAddrs : list Addr) (ops : list pool_op) (p0 : pool) (now : Z) (addrs : list Addr) :
  reached cfg localAddrs ops p0 ->
  exists p promoted p', promoteExecutables rangeTxs rangeAll now p0 addrs = Ret (p, promoted) /\
    truncatePending rangeAll rangeLists prque p = Ret p' /\ consistent p' /\ queue p' = queue p /\
    (count_txs rangeLists (pending p') <= GlobalSlots (config p) \/
     forall a l, pending p' !! a = Some l -> as_contains (locals p) a = false -> Len l <= AccountSlots (config p)) /\
    forall a, pending p' !! a = pending p !! a \/
      as_contains (locals p) a = false /\ exists l l' k, pending p !! a = Some l /\ pending p' !! a = Some l' /\
        (contents l').1 = take k (contents l).1 /\ AccountSlots (config p) <= Len l' < Len l.
Proof.
  intros Hreach. destruct (reached_ok cfg localAddrs ops p0 Hreach) as [Hok0 Hlim].
  destruct (promoteExecutables_ok rangeTxs rangeAll zeroAddr Nonce_u64 rangeTxs_perm TxHash_inj rangeAll_perm now p0 addrs Hok0 ltac:(apply Hlim))
    as (p & promoted & Hpr & Hok & Hcfg & _). exists p, promoted.
  destruct (truncatePending_ok rangeTxs rangeAll zeroAddr Nonce_u64 rangeTxs_perm TxHash_inj rangeAll_perm rangeLists rangeLists_perm prque prque_order p Hok ltac:(rewrite Hcfg; apply Hlim))
    as (p' & Hr & Hok' & (Hq & _ & Hc) & Hl). exists p'. split; [exact Hpr|]. split; [exact Hr|]. split; [by apply pool_ok_consistent|]. split; [done|]. split; [exact Hl|].
  intros a. destruct (Hc a) as [?|(Ha & l & l' & Hl1 & Hl2 & (_ & Hlen & Hcut))]; [by left|right]. split; [done|].
  destruct (inv_P _ _ _ _ _ _ _ (proj1 Hok) _ _ Hl1) as (c & _ & Hcc & _). destruct (Hcut c Hcc) as [k Hk]. exists l, l', k. split; [done|]. split; [done|].
  destruct (Flatten_spec Nonce Cost Gas rangeTxs rangeTxs_perm l c Hcc) as (? & Hf & _). destruct (Flatten_spec Nonce Cost Gas rangeTxs rangeTxs_perm l' _ Hk) as (? & Hf' & _).
  unfold list_Flatten. by rewrite Hf, Hf'.
Qed.

End Steps.

(** * An example: transactions are their senders, nonces and prices, and the blocks are empty *)

Definition ex_tx : Type := Z * Z * Z.
#[local] Instance ex_reads : TxReads ex_tx ex_tx Z := {|
  TxHash := id; Nonce := fun t => u64 t.1.2; GasPrice := fun t => t.2; Cost := fun _ => 100; Gas := fun _ => 21000;
  Value := fun _ => 0; Size := fun _ => 100; Data := fun _ => []; ToNil := fun _ => false; Sender := fun t => Some t.1.1 |}.

#[local] Abbreviation ex_list := (map_to_list (K := Z) (A := txList (Tx := ex_tx)) (M := gmap Z (txList (Tx := ex_tx)))).
#[local] Abbreviation ex_events := (map_to_list (K := Z) (A := txSortedMap (Tx := ex_tx)) (M := gmap Z (txSortedMap (Tx := ex_tx)))).
#[local] Abbreviation ex_txs := (map_to_list (K := Z) (A := ex_tx) (M := gmap Z ex_tx)).
#[local] Abbreviation ex_all := (map_to_list (K := ex_tx) (A := ex_tx) (M := gmap ex_tx ex_tx)).

Definition by_priority (x y : Z * Z) : Prop := y.2 <= x.2.
#[local] Instance by_priority_dec : RelDecision by_priority.
Proof. intros x y. unfold by_priority. apply _. Defined.
Definition ex_prque (l : list (Z * Z)) : list Z := (merge_sort by_priority l).*1.

Lemma ex_prque_order (l : list (Z * Z)) : exists l', l' ≡ₚ l /\ ex_prque l = l'.*1 /\ StronglySorted (fun x y => y.2 <= x.2) l'.
Proof.
  exists (merge_sort by_priority l). split; [apply merge_sort_Permutation|]. split; [done|].
  assert (Transitive by_priority) by (intros x y z; unfold by_priority; lia). assert (Total by_priority) by (intros x y; unfold by_priority; lia).
  by apply (StronglySorted_merge_sort by_priority).
Qed.

Definition ex_header (n : Z) : EvmHeader (Hash := ex_tx) :=
  {| hd_Hash := (0, n, 0); hd_ParentHash := (0, n - 1, 0); hd_Number := n; hd_Root := (0, 0, n); hd_GasLimit := 100000 |}.
Definition ex_block (n : Z) : EvmBlock (Tx := ex_tx) (Hash := ex_tx) := {| Header := ex_header n; Transactions := [] |}.
Definition ex_chain : stateReader (Tx := ex_tx) (Hash := ex_tx) (Addr := Z) := {|
  CurrentBlock := ex_block 5;
  GetBlock := fun _ n => if (0 <=? n) && (n <? 10) then Some (ex_block n) else None;
  StateAt := fun _ => {| GetNonce := fun _ => 0; GetBalance := fun _ => 1000 |} |}.

Lemma ex_chain_numbers : forall h n b, GetBlock ex_chain h n = Some b -> hd_Number (Header b) = n /\ 0 <= n < 18446744073709551615.
Proof. intros h n b. cbn. destruct (Z.leb_spec 0 n), (Z.ltb_spec n 10); cbn; intros; simplify_eq; cbn; lia. Qed.

Definition ex_config : TxPoolConfig := mkTxPoolConfig false false Hour MinGasPrice 10 1 4 4 6 Hour.

(** The first head, then transactions of four accounts, with a gap in the nonces of two, and a run for the accounts. *)
Definition ex_ops : list (pool_op (Tx := ex_tx) (Hash := ex_tx) (Addr := Z)) :=
  [OpRun 1 (Some (None, Some (ex_header 5))) None ∅;
   OpAdd [(1, 0, MinGasPrice); (1, 1, MinGasPrice); (1, 2, MinGasPrice); (2, 0, MinGasPrice); (2, 1, MinGasPrice); (3, 5, MinGasPrice)] false;
   OpAdd [(4, 0, MinGasPrice); (4, 2, MinGasPrice)] true].

Lemma ex_ops_valid : Forall (op_valid ex_chain) ex_ops.
Proof. apply Forall_cons. split; [split; [by intros a m|intros o n [= <- <-]; cbn; by eexists]|by repeat constructor]. Qed.

#[local] Abbreviation ex_do := (pool_do ex_txs ex_all 0 ex_list elements ex_events ex_prque example_eth ex_chain (fun a _ => a)).

Definition ex_counts (r : go (TxPool (Tx := ex_tx) (Hash := ex_tx) (Addr := Z))) : option (list (Z * Z) * list (Z * Z)) :=
  match r with
  | Ret p => Some ((fun kv => (kv.1, Len kv.2)) <$> ex_list (pending p), (fun kv => (kv.1, Len kv.2)) <$> ex_list (queue p))
  | Fault _ => None
  end.

Definition ex_dirty : accountSet (Addr := Z) := newAccountSet [1; 2; 3; 4].

(** The run promotes, and then cuts the accounts 1 and 2 down to one transaction. *)
Lemma ex_run_counts :
  ex_counts (go_fold ex_do (emptyPool ex_config []) ex_ops) = Some ([], [(3, 1); (4, 2); (2, 2); (1, 3)]) /\
  ex_counts (go_fold ex_do (emptyPool ex_config []) (ex_ops ++ [OpRun 2 None (Some ex_dirty) ∅])) = Some ([(4, 1); (2, 1); (1, 1)], [(3, 1); (4, 1)]).
Proof. split; vm_compute; reflexivity. Qed.

Definition ex_pool : TxPool (Tx := ex_tx) (Hash := ex_tx) (Addr := Z) :=
  match go_fold ex_do (emptyPool ex_config []) ex_ops with Ret p => p | Fault _ => emptyPool ex_config [] end.

Lemma ex_pool_reached : reached ex_txs ex_all 0 ex_list elements ex_events ex_prque example_eth ex_chain (fun a _ => a) ex_config [] ex_ops ex_pool.
Proof.
  split; [by vm_compute|]. split; [exact ex_ops_valid|]. unfold ex_pool.
  assert (exists p, go_fold ex_do (emptyPool ex_config []) ex_ops = Ret p) as [p ->]; [|done].
  pose proof (proj1 ex_run_counts) as Hc. destruct (go_fold ex_do (emptyPool ex_config []) ex_ops) as [p|f]; [by exists p|done].
Qed.

Lemma ex_tx_u64 (t : ex_tx) : is_u64 (Nonce t).
Proof. apply u64_range. Qed.

Lemma pool_stays_consistent_witness : exists p,
  go_fold ex_do (emptyPool ex_config []) (ex_ops ++ [OpRun 2 None (Some ex_dirty) ∅]) = Ret p /\ consistent 0 p.
Proof.
  apply (pool_stays_consistent ex_txs ex_all 0 ex_list elements ex_events ex_prque example_eth ex_chain (fun a _ => a)
    ex_tx_u64 _ (fun _ => reflexivity _) (fun _ => reflexivity _) (fun _ => reflexivity _) ex_prque_order ex_chain_numbers ex_config []).
  - by vm_compute.
  - apply Forall_app. split; [exact ex_ops_valid|]. apply Forall_cons. split; [split; [by intros a m|done]|done].
Defined.

(** A run with a change of head of two blocks, which walks back to the common block. *)
Lemma run_settles_pool_witness : exists p' sent,
  runReorg ex_txs ex_all elements ex_list ex_events ex_prque example_eth 0 ex_chain (fun a _ => a) 2 ex_pool (Some (Some (ex_header 5), Some (ex_header 7))) (Some ex_dirty) ∅ = Ret (p', sent) /\
  consistent 0 p' /\ count_txs ex_list (pending p') = 3 /\ count_txs ex_list (queue p') = 2.
Proof.
  destruct (run_settles_pool ex_txs ex_all 0 ex_list elements ex_events ex_prque example_eth ex_chain (fun a _ => a)
    ex_tx_u64 _ (fun _ => reflexivity _) (fun _ => reflexivity _) (fun _ => reflexivity _) ex_prque_order ex_chain_numbers ex_config [] ex_ops ex_pool 2
    (Some (Some (ex_header 5), Some (ex_header 7))) (Some ex_dirty) ∅ ex_pool_reached) as (p' & sent & Hr & Hc & _).
  { split; [by intros a m|]. intros o n [= <- <-]. cbn. by eexists. }
  exists p', sent. split; [exact Hr|]. split; [exact Hc|].
  assert (match runReorg ex_txs ex_all elements ex_list ex_events ex_prque example_eth 0 ex_chain (fun a _ => a) 2 ex_pool (Some (Some (ex_header 5), Some (ex_header 7))) (Some ex_dirty) ∅ with
    | Ret (p, _) => count_txs ex_list (pending p) = 3 /\ count_txs ex_list (queue p) = 2 | Fault _ => False end) as He by (vm_compute; split; reflexivity).
  rewrite Hr in He. exact He.
Defined.

Lemma pending_limit_fair_witness : exists p promoted p',
  promoteExecutables ex_txs ex_all 2 ex_pool [1; 2; 3; 4] = Ret (p, promoted) /\ truncatePending ex_all ex_list ex_prque p = Ret p' /\
  consistent 0 p' /\ queue p' = queue p.
Proof.
  destruct (pending_limit_fair ex_txs ex_all 0 ex_list elements ex_events ex_prque example_eth ex_chain (fun a _ => a)
    ex_tx_u64 _ (fun _ => reflexivity _) (fun _ => reflexivity _) (fun _ => reflexivity _) ex_prque_order ex_chain_numbers ex_config [] ex_ops ex_pool 2 [1; 2; 3; 4] ex_pool_reached)
    as (p & promoted & p' & Hp & Ht & Hc & Hq & _). exists p, promoted, p'. by split; [|split; [|split]].
Defined.
