(* ===== verification/Peer.v ===== *)
(** * The peers of a node: gossip/peer.go, gossip/protocol.go

    What a node keeps of each peer: the hashes that the peer knows, the queues of what waits to be sent, and the
    progress that it announced; and the set of the registered peers.  A peer is a pointer in Go: the set holds the numbers
    of the connections, the objects are kept apart.

    Parameters: the hash that Pop of the set library takes out, and whether the network of go-ethereum takes
    a message. *)

From S2P Require Import Prelude Bytes Event StateTransition Gossip.

(** ** protocol.go *)

Definition protocolMaxMsgSize : Z := 10 * 1024 * 1024.
Definition EthStatusMsg : Z := 0.
Definition EvmTxMsg : Z := 2.
Definition ProgressMsg : Z := 240.
Definition NewEventHashesMsg : Z := 241.
Definition GetEventsMsg : Z := 242.
Definition EventsMsg : Z := 243.
Definition GetPackInfosMsg : Z := 244.
Definition PackInfosMsg : Z := 245.
Definition GetPackMsg : Z := 246.
Definition PackMsg : Z := 247.

Inductive errCode :=
  | ErrMsgTooLarge | ErrDecode | ErrInvalidMsgCode | ErrProtocolVersionMismatch | ErrNetworkIDMismatch | ErrGenesisMismatch
  | ErrNoStatusMsg | ErrExtraStatusMsg | ErrSuspendedPeer | ErrEmptyMessage.

Record PeerProgress := mkPeerProgress { pp_Epoch : Z; pp_NumOfBlocks : Z; pp_LastPackInfo : PackInfo; pp_LastBlock : hash }.
Definition zeroProgress : PeerProgress := mkPeerProgress 0 0 (mkPackInfo 0 0 0 []) ZeroHash.

Record ethStatusData := mkEthStatusData { st_ProtocolVersion : Z; st_NetworkID : Z; st_DummyTD : Z; st_DummyCurrentBlock : hash; st_Genesis : hash }.

(** What goes over the wire; raw values are encoded already. *)
Inductive message :=
  | SendStatus (st : ethStatusData)
  | SendTxs (txs : list EthTx)
  | SendProgressOf (progress : PeerProgress)
  | SendHashes (ids : list hash)
  | SendGetEvents (ids : list hash)
  | SendEventsOf (events : list GEvent)
  | SendEventsRaw (events : list bytes)
  | SendGetPackInfos (epoch : Z) (indexes : list Z)
  | SendPackInfosRaw (epoch total : Z) (infos : list bytes)
  | SendGetPack (epoch index : Z)
  | SendPackOf (epoch index : Z) (ids : list hash).

(** ** peer.go *)

Definition maxKnownTxs : Z := 24576.
Definition maxKnownEvents : Z := 16384.
Definition maxQueuedTxs : Z := 128.
Definition maxQueuedProps : Z := 128.
Definition maxQueuedAnns : Z := 128.

Record peer := mkPeer {
  p_id : string;
  p_version : Z;
  p_trusted : bool;
  knownTxs : gset hash;
  knownEvents : gset hash;
  queuedTxs : list (list EthTx);
  queuedProps : list (list GEvent);
  queuedAnns : list (list hash);
  term : bool;                  (* the channel is closed *)
  progress : PeerProgress;
  wire : list message           (* what the network took *)
}.

Definition newPeer (id : string) (version : Z) (trusted : bool) : peer := mkPeer id version trusted ∅ ∅ [] [] [] false zeroProgress [].

Section updates.
Implicit Types p : peer.
Definition set_knownTxs p x := mkPeer (p_id p) (p_version p) (p_trusted p) x (knownEvents p) (queuedTxs p) (queuedProps p) (queuedAnns p) (term p) (progress p) (wire p).
Definition set_knownEvents p x := mkPeer (p_id p) (p_version p) (p_trusted p) (knownTxs p) x (queuedTxs p) (queuedProps p) (queuedAnns p) (term p) (progress p) (wire p).
Definition set_queuedTxs p x := mkPeer (p_id p) (p_version p) (p_trusted p) (knownTxs p) (knownEvents p) x (queuedProps p) (queuedAnns p) (term p) (progress p) (wire p).
Definition set_queuedProps p x := mkPeer (p_id p) (p_version p) (p_trusted p) (knownTxs p) (knownEvents p) (queuedTxs p) x (queuedAnns p) (term p) (progress p) (wire p).
Definition set_queuedAnns p x := mkPeer (p_id p) (p_version p) (p_trusted p) (knownTxs p) (knownEvents p) (queuedTxs p) (queuedProps p) x (term p) (progress p) (wire p).
Definition set_term p x := mkPeer (p_id p) (p_version p) (p_trusted p) (knownTxs p) (knownEvents p) (queuedTxs p) (queuedProps p) (queuedAnns p) x (progress p) (wire p).
Definition SetProgress p x := mkPeer (p_id p) (p_version p) (p_trusted p) (knownTxs p) (knownEvents p) (queuedTxs p) (queuedProps p) (queuedAnns p) (term p) x (wire p).
Definition set_wire p x := mkPeer (p_id p) (p_version p) (p_trusted p) (knownTxs p) (knownEvents p) (queuedTxs p) (queuedProps p) (queuedAnns p) (term p) (progress p) x.
End updates.

(** close(p.term): a second close panics. *)
Definition close (p : peer) : go peer := if term p then Fault (PanicMsg "close of closed channel") else Ret (set_term p true).

Definition Less (a b : PeerProgress) : bool :=
  if negb (pp_Epoch a =? pp_Epoch b) then pp_Epoch a <? pp_Epoch b
  else if negb (pp_NumOfBlocks a =? pp_NumOfBlocks b) then pp_NumOfBlocks a <? pp_NumOfBlocks b
  else pi_Index (pp_LastPackInfo a) <? pi_Index (pp_LastPackInfo b).

Definition InterestedIn (p : peer) (h : hash) : go bool :=
  e ← hash_Epoch h;
  Ret (negb (e =? 0) && negb (pp_Epoch (progress p) =? 0) &&
       ((e =? pp_Epoch (progress p)) || (e =? u32 (pp_Epoch (progress p) + 1))) && negb (bool_decide (h ∈ knownEvents p))).

Section peer.
Context (event_Hash : EventHeaderData -> hash) (pop : gset hash -> hash) (network : string -> list message -> message -> bool).
Implicit Types p : peer.

Definition GHash (e : GEvent) : hash := event_Hash (ge_header e).

(** for known.Cardinality() >= max { known.Pop() } *)
Fixpoint trim_loop (fuel : nat) (known : gset hash) (max : Z) : go (gset hash) :=
  if Z.of_nat (size known) <? max then Ret known
  else match fuel with
       | O => Fault OutOfFuel
       | S fuel => trim_loop fuel (known ∖ {[pop known]}) max
       end.
Definition trim (known : gset hash) (max : Z) : go (gset hash) := trim_loop (size known) known max.

Definition add_all (known : gset hash) (hs : list hash) : gset hash := foldl (fun s h => {[h]} ∪ s) known hs.

Definition MarkEvent p (h : hash) : go peer :=
  known ← trim (knownEvents p) maxKnownEvents; Ret (set_knownEvents p ({[h]} ∪ known)).
Definition MarkTransaction p (h : hash) : go peer :=
  known ← trim (knownTxs p) maxKnownTxs; Ret (set_knownTxs p ({[h]} ∪ known)).

(** All the hashes first, then the limit. *)
Definition add_events p (hs : list hash) : go peer :=
  known ← trim (add_all (knownEvents p) hs) maxKnownEvents; Ret (set_knownEvents p known).
Definition add_txs p (hs : list hash) : go peer :=
  known ← trim (add_all (knownTxs p) hs) maxKnownTxs; Ret (set_knownTxs p known).
(** The limit after each hash. *)
Definition add_events_each p (hs : list hash) : go peer := go_fold (fun p h => add_events p [h]) p hs.

(** p2p.Send: false is an error. *)
Definition p2p_Send p (m : message) : bool * peer :=
  if network (p_id p) (wire p) m then (true, set_wire p (wire p ++ [m])) else (false, p).

Definition SendTransactions p (txs : list EthTx) : go (bool * peer) :=
  p ← add_txs p (et_Hash <$> txs); Ret (p2p_Send p (SendTxs txs)).
Definition AsyncSendTransactions p (txs : list EthTx) : go peer :=
  if zlen (queuedTxs p) <? maxQueuedTxs then add_txs (set_queuedTxs p (queuedTxs p ++ [txs])) (et_Hash <$> txs) else Ret p.
Definition SendNewEventHashes p (hashes : list hash) : go (bool * peer) :=
  p ← add_events p hashes; Ret (p2p_Send p (SendHashes hashes)).
Definition AsyncSendNewEventHashes p (ids : list hash) : go peer :=
  if zlen (queuedAnns p) <? maxQueuedAnns then add_events (set_queuedAnns p (queuedAnns p ++ [ids])) ids else Ret p.
Definition SendEvents p (events : list GEvent) : go (bool * peer) :=
  p ← add_events_each p (GHash <$> events); Ret (p2p_Send p (SendEventsOf events)).
Definition SendEventsRLP p (events : list bytes) (ids : list hash) : go (bool * peer) :=
  p ← add_events_each p ids; Ret (p2p_Send p (SendEventsRaw events)).
Definition AsyncSendEvents p (events : list GEvent) : go peer :=
  if zlen (queuedProps p) <? maxQueuedProps then add_events (set_queuedProps p (queuedProps p ++ [events])) (GHash <$> events) else Ret p.

Definition SendPackInfosRLP p (epoch total : Z) (infos : list bytes) : bool * peer := p2p_Send p (SendPackInfosRaw epoch total infos).
Definition SendPack p (epoch index : Z) (ids : list hash) : bool * peer := p2p_Send p (SendPackOf epoch index ids).
Definition SendProgress p (x : PeerProgress) : bool * peer := p2p_Send p (SendProgressOf x).
Definition RequestPackInfos p (epoch : Z) (indexes : list Z) : bool * peer := p2p_Send p (SendGetPackInfos epoch indexes).
Definition RequestPack p (epoch index : Z) : bool * peer := p2p_Send p (SendGetPack epoch index).

(** The batches of at most softLimitItems, until one fails. *)
Fixpoint request_batches (fuel : nat) p (ids : list hash) : go (bool * peer) :=
  match ids with
  | [] => Ret (true, p)
  | _ =>
    match fuel with
    | O => Fault OutOfFuel
    | S fuel =>
      let '(ok, p) := p2p_Send p (SendGetEvents (take (Z.to_nat softLimitItems) ids)) in
      if ok : bool then request_batches fuel p (drop (Z.to_nat softLimitItems) ids) else Ret (false, p)
    end
  end.
Definition RequestEvents p (ids : list hash) : go (bool * peer) := request_batches (length ids) p ids.

(** One turn of the loop of broadcast, on the case that the select chose; false when the loop returns. *)
Inductive broadcast_case := CaseTxs | CaseProps | CaseAnns | CaseTerm.
Definition broadcast p (c : broadcast_case) : go (option (bool * peer)) :=
  match c with
  | CaseTxs => match queuedTxs p with [] => Ret None | txs :: rest => r ← SendTransactions (set_queuedTxs p rest) txs; Ret (Some r) end
  | CaseProps => match queuedProps p with [] => Ret None | es :: rest => r ← SendEvents (set_queuedProps p rest) es; Ret (Some r) end
  | CaseAnns => match queuedAnns p with [] => Ret None | ids :: rest => r ← SendNewEventHashes (set_queuedAnns p rest) ids; Ret (Some r) end
  | CaseTerm => Ret (if term p then Some (false, p) else None)
  end.

(** The first message that the peer sends: None for an error of the network. *)
Definition readStatus p (network_id : Z) (genesis : hash) (msg : option (Z * Z * option ethStatusData)) : option (option errCode) :=
  match msg with
  | None => None
  | Some (code, size, status) =>
    Some (if negb (code =? EthStatusMsg) then Some ErrNoStatusMsg
    else if protocolMaxMsgSize <? size then Some ErrMsgTooLarge
    else match status with
         | None => Some ErrDecode
         | Some st =>
           if negb (bool_decide (st_Genesis st = genesis)) then Some ErrGenesisMismatch
           else if negb (st_NetworkID st =? network_id) then Some ErrNetworkIDMismatch
           else if negb (st_ProtocolVersion st =? p_version p) then Some ErrProtocolVersionMismatch
           else None
         end)
  end.

(** The status and the progress that the node sends first. *)
Definition handshake_status p (network_id : Z) (x : PeerProgress) (genesis : hash) : message :=
  SendStatus (mkEthStatusData (u32 (p_version p)) network_id (i64 (pp_NumOfBlocks x)) (pp_LastBlock x) genesis).

(** The set of the peers: the connection of each id. *)
Record peerSet := mkPeerSet { ps_peers : gmap string nat; ps_closed : bool }.
Definition newPeerSet : peerSet := mkPeerSet ∅ false.

Inductive set_error := errClosed | errAlreadyRegistered | errNotRegistered.

Definition Register (ps : peerSet) (id : string) (c : nat) : option set_error * peerSet :=
  if ps_closed ps then (Some errClosed, ps)
  else match ps_peers ps !! id with
       | Some _ => (Some errAlreadyRegistered, ps)
       | None => (None, mkPeerSet (<[id := c]> (ps_peers ps)) (ps_closed ps))
       end.

(** The objects of the connections. *)
Abbreviation objects := (gmap nat peer).

Definition Unregister (ps : peerSet) (objs : objects) (id : string) : go (option set_error * peerSet * objects) :=
  match ps_peers ps !! id with
  | None => Ret (Some errNotRegistered, ps, objs)
  | Some c =>
    match objs !! c with
    | None => Fault NilDereference
    | Some p => p ← close p; Ret (None, mkPeerSet (delete id (ps_peers ps)) (ps_closed ps), <[c := p]> objs)
    end
  end.

Definition Len (ps : peerSet) : Z := Z.of_nat (size (ps_peers ps)).

(** A range over the set: the order is the map's. *)
Context (rangePeers : gmap string nat -> list (string * nat)).
Definition List_ (ps : peerSet) : list nat := (rangePeers (ps_peers ps)).*2.

Definition read_peer (objs : objects) (c : nat) : go peer := match objs !! c with Some p => Ret p | None => Fault NilDereference end.

Definition PeersWithoutEvent (ps : peerSet) (objs : objects) (e : hash) : go (list nat) :=
  go_fold (fun l c => p ← read_peer objs c; b ← InterestedIn p e; Ret (if b : bool then l ++ [c] else l)) [] (List_ ps).
Definition PeersWithoutTx (ps : peerSet) (objs : objects) (h : hash) : go (list nat) :=
  go_fold (fun l c => p ← read_peer objs c; Ret (if bool_decide (h ∈ knownTxs p) then l else l ++ [c])) [] (List_ ps).

Definition BestPeer (ps : peerSet) (objs : objects) : go (option nat) :=
  r ← go_fold (fun (best : option nat * PeerProgress) c => p ← read_peer objs c; Ret (if Less best.2 (progress p) then (Some c, progress p) else best))
        (None, zeroProgress) (List_ ps);
  Ret r.1.

(** Close disconnects the peers; the connections end by themselves. *)
Definition Close (ps : peerSet) : peerSet := mkPeerSet (ps_peers ps) true.
End peer.
