(* ===== verification/PeerSpec.v ===== *)
(** * What the operations of a peer keep: gossip/peer.go ([Peer])

    The sets of known hashes and the queues stay within their limits, whatever hash Pop takes out; the requests of
    events are cut into batches that together are the request; the best peer is one of the highest progress. *)

From S2P Require Import Prelude Bytes Event StateTransition Gossip Peer.

Section peer.
Context (event_Hash : EventHeaderData -> hash) (pop : gset hash -> hash) (network : string -> list message -> message -> bool).
Context (pop_in : forall s, s <> ∅ -> pop s ∈ s).
Implicit Types p : peer.

(** ** The limit of a set of known hashes *)

Lemma trim_loop_spec (fuel : nat) (s : gset hash) (max : Z) : 0 < max -> (size s <= fuel)%nat ->
  exists k, trim_loop pop fuel s max = Ret k /\ k ⊆ s /\ Z.of_nat (size k) < max /\ (Z.of_nat (size s) < max -> k = s).
Proof.
  intros Hmax. revert s. induction fuel as [|fuel IH]; intros s Hs; cbn [trim_loop]; destruct (Z.ltb_spec (Z.of_nat (size s)) max) as [Hlt|Hge];
    try (exists s; by split_and!); [lia|].
  assert (s <> ∅) as Hne by (intros ->; rewrite size_empty in Hge; lia).
  assert (size (s ∖ {[pop s]}) = (size s - 1)%nat) as Hsz.
  { rewrite size_difference by (apply singleton_subseteq_l, pop_in, Hne). by rewrite size_singleton. }
  destruct (IH (s ∖ {[pop s]})) as (k & -> & Hk & Hlt & _); [lia|]. exists k. split; [done|]. split; [set_solver|]. split; [done|lia].
Qed.

Lemma trim_spec (s : gset hash) (max : Z) : 0 < max ->
  exists k, trim pop s max = Ret k /\ k ⊆ s /\ Z.of_nat (size k) < max /\ (Z.of_nat (size s) < max -> k = s).
Proof. intros Hmax. by apply trim_loop_spec. Qed.

Lemma elem_of_add_all (known : gset hash) (hs : list hash) (h : hash) : h ∈ add_all known hs <-> h ∈ hs \/ h ∈ known.
Proof.
  unfold add_all. revert known. induction hs as [|h' hs IH]; intros known; cbn [foldl]; [rewrite elem_of_nil; naive_solver|].
  rewrite IH, elem_of_cons, elem_of_union, elem_of_singleton. naive_solver.
Qed.

(** ** What a peer keeps *)

Record peer_ok p : Prop := {
  ok_txs : Z.of_nat (size (knownTxs p)) <= maxKnownTxs;
  ok_events : Z.of_nat (size (knownEvents p)) <= maxKnownEvents;
  ok_qtxs : zlen (queuedTxs p) <= maxQueuedTxs;
  ok_qprops : zlen (queuedProps p) <= maxQueuedProps;
  ok_qanns : zlen (queuedAnns p) <= maxQueuedAnns }.

Definition same_peer p p' : Prop := p_id p' = p_id p /\ p_trusted p' = p_trusted p /\ term p' = term p /\ progress p' = progress p.

Lemma same_refl p : same_peer p p.
Proof. by repeat split. Qed.

Lemma same_trans p q r : same_peer p q -> same_peer q r -> same_peer p r.
Proof. intros (A1 & A2 & A3 & A4) (B1 & B2 & B3 & B4). split_and!; congruence. Qed.

(** The result of an operation on a peer. *)
Definition kept p p' : Prop := (peer_ok p -> peer_ok p') /\ same_peer p p'.

Lemma kept_refl p : kept p p.
Proof. by split; [|apply same_refl]. Qed.

Lemma kept_trans p q r : kept p q -> kept q r -> kept p r.
Proof. intros [A1 A2] [B1 B2]. split; [auto|by eapply same_trans]. Qed.

Lemma newPeer_ok (id : string) (version : Z) (trusted : bool) : peer_ok (newPeer id version trusted).
Proof. by split; vm_compute. Qed.

Lemma MarkEvent_ok p (h : hash) : exists p', MarkEvent pop p h = Ret p' /\ kept p p'.
Proof.
  unfold MarkEvent. destruct (trim_spec (knownEvents p) maxKnownEvents ltac:(done)) as (k & -> & _ & Hk & _). cbn [mbind go_bind]. eexists. split; [done|].
  split; [|by repeat split]. intros []. split; [done| |done..]. cbn [knownEvents set_knownEvents].
  assert (size ({[h]} ∪ k : gset hash) <= 1 + size k)%nat; [|lia]. rewrite size_union_alt, size_singleton. pose proof (subseteq_size (k ∖ {[h]}) k ltac:(set_solver)). lia.
Qed.

Lemma MarkTransaction_ok p (h : hash) : exists p', MarkTransaction pop p h = Ret p' /\ kept p p'.
Proof.
  unfold MarkTransaction. destruct (trim_spec (knownTxs p) maxKnownTxs ltac:(done)) as (k & -> & _ & Hk & _). cbn [mbind go_bind]. eexists. split; [done|].
  split; [|by repeat split]. intros []. split; [|done..]. cbn [knownTxs set_knownTxs].
  assert (size ({[h]} ∪ k : gset hash) <= 1 + size k)%nat; [|lia]. rewrite size_union_alt, size_singleton. pose proof (subseteq_size (k ∖ {[h]}) k ltac:(set_solver)). lia.
Qed.

Lemma add_events_ok p (hs : list hash) : exists k, add_events pop p hs = Ret (set_knownEvents p k) /\ kept p (set_knownEvents p k) /\ k ⊆ add_all (knownEvents p) hs /\
  (Z.of_nat (size (add_all (knownEvents p) hs)) < maxKnownEvents -> k = add_all (knownEvents p) hs).
Proof.
  unfold add_events. destruct (trim_spec (add_all (knownEvents p) hs) maxKnownEvents ltac:(done)) as (k & -> & Hsub & Hk & Hfull). exists k. cbn [mbind go_bind]. split; [done|].
  split; [|done]. split; [|by repeat split]. intros []. split; [done| |done..]. cbn. lia.
Qed.

Lemma add_txs_ok p (hs : list hash) : exists k, add_txs pop p hs = Ret (set_knownTxs p k) /\ kept p (set_knownTxs p k).
Proof.
  unfold add_txs. destruct (trim_spec (add_all (knownTxs p) hs) maxKnownTxs ltac:(done)) as (k & -> & Hsub & Hk & Hfull). exists k. cbn [mbind go_bind]. split; [done|].
  split; [|by repeat split]. intros []. split; [|done..]. cbn. lia.
Qed.

Lemma add_each_ok p (hs : list hash) : exists k, add_events_each pop p hs = Ret (set_knownEvents p k) /\ kept p (set_knownEvents p k).
Proof.
  unfold add_events_each. revert p. induction hs as [|h hs IH]; intros p; [exists (knownEvents p); destruct p; by split; [|apply kept_refl]|]. cbn [go_fold].
  destruct (add_events_ok p [h]) as (k & -> & Hk & _). cbn [mbind go_bind]. destruct (IH (set_knownEvents p k)) as (k' & -> & Hk'). exists k'. split; [done|]. by eapply kept_trans.
Qed.

Lemma mark_all_ok p (hs : list hash) : exists p', go_fold (MarkEvent pop) p hs = Ret p' /\ kept p p'.
Proof.
  revert p. induction hs as [|h hs IH]; intros p; [exists p; by split; [|apply kept_refl]|]. cbn [go_fold].
  destruct (MarkEvent_ok p h) as (p1 & -> & H1). cbn [mbind go_bind]. destruct (IH p1) as (p' & Hr & H2). exists p'. split; [exact Hr|by eapply kept_trans].
Qed.

Lemma Send_ok p (m : message) : exists b p', p2p_Send network p m = (b, p') /\ kept p p'.
Proof.
  unfold p2p_Send. destruct (network _ _ _); eexists _, _; (split; [reflexivity|]); [|apply kept_refl].
  split; [|by repeat split]. by intros [].
Qed.

Lemma SendTransactions_ok p (txs : list EthTx) : exists b p', SendTransactions pop network p txs = Ret (b, p') /\ kept p p'.
Proof.
  unfold SendTransactions. destruct (add_txs_ok p (et_Hash <$> txs)) as (k & -> & Hk). cbn [mbind go_bind].
  destruct (Send_ok (set_knownTxs p k) (SendTxs txs)) as (b & p' & -> & Hs). exists b, p'. split; [done|by eapply kept_trans].
Qed.

Lemma SendNewEventHashes_ok p (ids : list hash) : exists b p', SendNewEventHashes pop network p ids = Ret (b, p') /\ kept p p'.
Proof.
  unfold SendNewEventHashes. destruct (add_events_ok p ids) as (k & -> & Hk & _). cbn [mbind go_bind].
  destruct (Send_ok (set_knownEvents p k) (SendHashes ids)) as (b & p' & -> & Hs). exists b, p'. split; [done|by eapply kept_trans].
Qed.

Lemma SendEvents_ok p (es : list GEvent) : exists b p', SendEvents event_Hash pop network p es = Ret (b, p') /\ kept p p'.
Proof.
  unfold SendEvents. destruct (add_each_ok p (GHash event_Hash <$> es)) as (k & -> & Hk). cbn [mbind go_bind].
  destruct (Send_ok (set_knownEvents p k) (SendEventsOf es)) as (b & p' & -> & Hs). exists b, p'. split; [done|by eapply kept_trans].
Qed.

Lemma pop_front_ok p : (forall t r, queuedTxs p = t :: r -> kept p (set_queuedTxs p r)) /\ (forall t r, queuedProps p = t :: r -> kept p (set_queuedProps p r)) /\
  (forall t r, queuedAnns p = t :: r -> kept p (set_queuedAnns p r)).
Proof.
  assert (forall {A} (q : list A) t r n, q = t :: r -> zlen q <= n -> zlen r <= n) as Hq by (intros A q t r n ->; unfold zlen; cbn; lia).
  split_and!; intros t r Heq; (split; [|by repeat split]); intros []; (split; cbn; try done); by eapply Hq.
Qed.

(** A turn of the loop of a peer. *)
Lemma broadcast_ok p (c : broadcast_case) : exists r, broadcast event_Hash pop network p c = Ret r /\ forall b p', r = Some (b, p') -> kept p p'.
Proof.
  destruct (pop_front_ok p) as (H1 & H2 & H3). destruct c; cbn [broadcast].
  - destruct (queuedTxs p) as [|t r] eqn:Hq; [by exists None|]. destruct (SendTransactions_ok (set_queuedTxs p r) t) as (b & p' & -> & Hk). cbn [mbind go_bind]. eexists. split; [done|].
    intros ? ? [= <- <-]. eapply kept_trans; [by eapply H1|done].
  - destruct (queuedProps p) as [|t r] eqn:Hq; [by exists None|]. destruct (SendEvents_ok (set_queuedProps p r) t) as (b & p' & -> & Hk). cbn [mbind go_bind]. eexists. split; [done|].
    intros ? ? [= <- <-]. eapply kept_trans; [by eapply H2|done].
  - destruct (queuedAnns p) as [|t r] eqn:Hq; [by exists None|]. destruct (SendNewEventHashes_ok (set_queuedAnns p r) t) as (b & p' & -> & Hk). cbn [mbind go_bind]. eexists. split; [done|].
    intros ? ? [= <- <-]. eapply kept_trans; [by eapply H3|done].
  - destruct (term p); eexists; (split; [reflexivity|]); [|done]. intros ? ? [= _ <-]. apply kept_refl.
Qed.

(** ** Queueing *)

(** What an asynchronous send of an event does to a peer: queued, unless the queue is full, and known from then on,
    unless too many are. *)
Lemma AsyncSendEvents_spec p (e : GEvent) : exists p', AsyncSendEvents event_Hash pop p [e] = Ret p' /\ kept p p' /\
  if zlen (queuedProps p) <? maxQueuedProps
  then exists k, p' = set_knownEvents (set_queuedProps p (queuedProps p ++ [[e]])) k /\
       (Z.of_nat (size (knownEvents p)) < maxKnownEvents - 1 -> k = {[GHash event_Hash e]} ∪ knownEvents p)
  else p' = p.
Proof.
  unfold AsyncSendEvents. destruct (Z.ltb_spec (zlen (queuedProps p)) maxQueuedProps) as [Hlt|Hge]; [|exists p; by split; [|split; [apply kept_refl|]]].
  set (p1 := set_queuedProps p _). destruct (add_events_ok p1 (GHash event_Hash <$> [e])) as (k & -> & Hk & _ & Hfull). eexists. split; [done|]. split.
  - eapply kept_trans; [|exact Hk]. split; [|by repeat split]. intros []. split; [done..| |done]. cbn. rewrite zlen_app. unfold zlen in *. cbn. lia.
  - exists k. split; [done|]. intros Hlt'. apply Hfull. cbn. rewrite size_union_alt, size_singleton.
    pose proof (subseteq_size (knownEvents p ∖ {[GHash event_Hash e]}) (knownEvents p) ltac:(set_solver)). lia.
Qed.

Lemma AsyncSendHashes_spec p (h : hash) : exists p', AsyncSendNewEventHashes pop p [h] = Ret p' /\ kept p p' /\
  if zlen (queuedAnns p) <? maxQueuedAnns
  then exists k, p' = set_knownEvents (set_queuedAnns p (queuedAnns p ++ [[h]])) k /\
       (Z.of_nat (size (knownEvents p)) < maxKnownEvents - 1 -> k = {[h]} ∪ knownEvents p)
  else p' = p.
Proof.
  unfold AsyncSendNewEventHashes. destruct (Z.ltb_spec (zlen (queuedAnns p)) maxQueuedAnns) as [Hlt|Hge]; [|exists p; by split; [|split; [apply kept_refl|]]].
  set (p1 := set_queuedAnns p _). destruct (add_events_ok p1 [h]) as (k & -> & Hk & _ & Hfull). eexists. split; [done|]. split.
  - eapply kept_trans; [|exact Hk]. split; [|by repeat split]. intros []. split; [done..|]. cbn. rewrite zlen_app. unfold zlen in *. cbn. lia.
  - exists k. split; [done|]. intros Hlt'. apply Hfull. cbn. rewrite size_union_alt, size_singleton.
    pose proof (subseteq_size (knownEvents p ∖ {[h]}) (knownEvents p) ltac:(set_solver)). lia.
Qed.

Lemma AsyncSendTransactions_ok p (txs : list EthTx) : exists p', AsyncSendTransactions pop p txs = Ret p' /\ kept p p'.
Proof.
  unfold AsyncSendTransactions. destruct (Z.ltb_spec (zlen (queuedTxs p)) maxQueuedTxs) as [Hlt|Hge]; [|exists p; by split; [|apply kept_refl]].
  set (p1 := set_queuedTxs p _). destruct (add_txs_ok p1 (et_Hash <$> txs)) as (k & -> & Hk). eexists. split; [done|].
  eapply kept_trans; [|exact Hk]. split; [|by repeat split]. intros []. split; [done..| |done|done]. cbn. rewrite zlen_app. unfold zlen in *. cbn. lia.
Qed.

(** ** Requests *)

Lemma request_batches_ok (fuel : nat) p (ids : list hash) : (length ids <= fuel)%nat ->
  exists ok p' bs, request_batches network fuel p ids = Ret (ok, p') /\ kept p p' /\ wire p' = wire p ++ (SendGetEvents <$> bs) /\
    Forall (fun b : list hash => 0 < zlen b <= softLimitItems) bs /\ mjoin bs `prefix_of` ids /\ (ok = true -> mjoin bs = ids).
Proof.
  revert p ids. induction fuel as [|fuel IH]; intros p ids Hf; destruct ids as [|h ids]; cbn [request_batches];
    try (exists true, p, []; cbn; rewrite app_nil_r; by split_and!; [..|apply kept_refl| | | |]); [cbn in Hf; lia|].
  set (b := take (Z.to_nat softLimitItems) (h :: ids)). set (rest := drop (Z.to_nat softLimitItems) (h :: ids)).
  assert (b ++ rest = h :: ids) as Hcut by apply take_drop.
  assert (0 < zlen b <= softLimitItems) as Hb. { unfold b, zlen. rewrite length_take. cbn [length]. change softLimitItems with 250. lia. }
  assert (length rest <= fuel)%nat as Hr. { unfold rest. rewrite length_drop. cbn [length] in *. change (Z.to_nat softLimitItems) with 250%nat. lia. }
  clearbody b rest. unfold p2p_Send. destruct (network _ _ _).
  - destruct (IH (set_wire p (wire p ++ [SendGetEvents b])) rest Hr) as (ok & p' & bs & -> & Hk & Hw & Hall & Hpre & Hok).
    exists ok, p', (b :: bs). split; [done|]. split; [eapply kept_trans; [|exact Hk]; split; [by intros []|by repeat split]|].
    split; [rewrite Hw; cbn; by rewrite <-(assoc_L (++))|]. split; [by constructor|]. change (mjoin (b :: bs)) with (b ++ mjoin bs). rewrite <-Hcut. split; [by apply prefix_app|]. intros Ht. by rewrite Hok.
  - exists false, p, []. split; [done|]. split; [apply kept_refl|]. split; [by rewrite app_nil_r|]. split; [done|]. split; [apply prefix_nil|done].
Qed.

(** ** The best peer *)

Lemma Less_trans (a b c : PeerProgress) : Less a b = false -> Less b c = false -> Less a c = false.
Proof. unfold Less. repeat case_match; rewrite ?negb_true_iff, ?negb_false_iff, ?Z.eqb_eq, ?Z.eqb_neq, ?Z.ltb_ge in *; lia. Qed.

Lemma Less_asym (a b : PeerProgress) : Less a b = true -> Less b a = false.
Proof. unfold Less. repeat case_match; rewrite ?negb_true_iff, ?negb_false_iff, ?Z.eqb_eq, ?Z.eqb_neq, ?Z.ltb_ge, ?Z.ltb_lt in *; lia. Qed.

Lemma Less_irrefl (a : PeerProgress) : Less a a = false.
Proof. destruct (Less a a) eqn:Hl; [|done]. pose proof (Less_asym a a Hl). congruence. Qed.

Lemma BestPeer_ok (range : gmap string nat -> list (string * nat)) (ps : peerSet) (objs : gmap nat peer) : (forall c, c ∈ List_ range ps -> is_Some (objs !! c)) ->
  exists best, BestPeer range ps objs = Ret best /\
    match best with
    | Some c => c ∈ List_ range ps /\ exists p, objs !! c = Some p /\ Less zeroProgress (progress p) = true /\
        forall c' p', c' ∈ List_ range ps -> objs !! c' = Some p' -> Less (progress p) (progress p') = false
    | None => forall c' p', c' ∈ List_ range ps -> objs !! c' = Some p' -> Less zeroProgress (progress p') = false
    end.
Proof.
  intros Hobjs. unfold BestPeer. set (f := fun best c => _).
  assert (forall cs best, (forall c, c ∈ cs -> is_Some (objs !! c)) -> exists best', go_fold f best cs = Ret best' /\
    Less best'.2 best.2 = false /\ (forall c' p', c' ∈ cs -> objs !! c' = Some p' -> Less best'.2 (progress p') = false) /\
    (best' = best \/ exists c p, c ∈ cs /\ objs !! c = Some p /\ best' = (Some c, progress p) /\ Less best.2 best'.2 = true)) as Hgen.
  { induction cs as [|c cs IH]; intros best Hc.
    { exists best. split; [done|]. split; [apply Less_irrefl|]. split; [by intros c' p' Hin%not_elem_of_nil|by left]. }
    cbn [go_fold]. destruct (Hc c ltac:(by left)) as [p Hp]. unfold f at 2, read_peer. rewrite Hp. cbn [mbind go_bind].
    destruct (IH (if Less best.2 (progress p) then (Some c, progress p) else best)) as (best' & -> & Hlow & Hall & Hcase); [intros c' Hc'; apply Hc; by right|].
    exists best'. split; [done|]. destruct (Less best.2 (progress p)) eqn:Hl; cbn [snd] in *.
    - assert (Less best'.2 best.2 = false) as Hb by (eapply Less_trans; [exact Hlow|by apply Less_asym]). split; [done|]. split.
      + intros c' p' [->|Hin]%elem_of_cons Hp'; [|by eapply Hall]. rewrite Hp in Hp'. by injection Hp' as <-.
      + right. destruct Hcase as [->|(c1 & p1 & Hin & Hp1 & -> & Hl1)]; [exists c, p; split; [by left|done]|]. exists c1, p1. split; [by right|]. split; [done|]. split; [done|].
        cbn [snd] in *. destruct (Less best.2 (progress p1)) eqn:Hl2; [done|]. pose proof (Less_trans _ _ _ Hl2 Hlow). congruence.
    - split; [done|]. split.
      + intros c' p' [->|Hin]%elem_of_cons Hp'; [|by eapply Hall]. rewrite Hp in Hp'. injection Hp' as <-. by eapply Less_trans.
      + destruct Hcase as [->|(c1 & p1 & Hin & Hp1 & -> & Hl1)]; [by left|right]. exists c1, p1. by split; [right|]. }
  destruct (Hgen (List_ range ps) (None, zeroProgress) Hobjs) as ([best pr] & -> & Hlow & Hall & Hcase). cbn [mbind go_bind fst snd] in *. exists best. split; [done|].
  destruct Hcase as [[= -> ->]|(c & p & Hin & Hp & [= -> ->] & Hl)]; [exact Hall|]. split; [done|]. by exists p.
Qed.

End peer.
