(* ===== verification/Handler.v ===== *)
(** * The protocol manager: gossip/handler.go

    The life of a connection, the handling of its messages, and the broadcasts of events, transactions and progress.

    The fetcher, the downloaders of the peers, the transaction pool and the ordering buffer are behind channels
    and locks of their own ([Fetcher], [PacksDl], [TxPool], [EventBuffer]): what the manager asks of them is listed as
    actions; the set of the downloaders itself is part of the state.  What the engine and the load of the fetcher are at
    a call is an argument.  Messages are decoded by a parameter, the class [Rlp]: [handleMsg] starts from the decoded
    content, and what decoding costs or does to a malformed message is not part of it ([Serializer] has the decoding of an
    event's header).  Logging and the start and stop of the goroutines are left out. *)

From S2P Require Import Prelude Bytes Pos Event EventCheck StateTransition Gossip PacksDl Peer.

(** ** Limits and checks *)

Definition hardLimitItems : Z := softLimitItems * 4.

Definition checkLenLimits (size : Z) : option errCode :=
  if size <=? 0 then Some ErrEmptyMessage else if hardLimitItems <? size then Some ErrMsgTooLarge else None.

(** makeFetcher: the checks before and after an event waits for its parents. *)
Definition firstCheck (eth : EthParams) (config : DagConfig) (validators : Validators) (epoch : Z) (e : FullEvent) : go (option check_error) :=
  basiccheck_Validate eth config e ;;? Ret (epochcheck_Validate validators epoch (ev_header e)).

Definition bufferedCheck (HashOf : EventHeaderData -> hash) (ctx : ValidationContext) (e : EventHeaderData) (parents : list EventHeaderData) : go (option check_error) :=
  selfParent ← match SelfParent e with Some _ => p ← slice_at parents 0; Ret (Some p) | None => Ret None end;
  parentscheck_Validate HashOf e parents ;;? gaspowercheck_Validate e selfParent ctx.

(** The messages of a peer, with the decoders of go-ethereum's rlp package. *)
Class Rlp (M : Type) := {
  decode_Progress : M -> option PeerProgress;
  decode_Hashes : M -> option (list hash);
  decode_Events : M -> option (list GEvent);
  decode_Txs : M -> option (list (option EthTx));
  decode_GetPackInfos : M -> option (Z * list Z);
  decode_GetPack : M -> option (Z * Z);
  decode_PackInfos : M -> option (Z * Z * list PackInfo);
  decode_Pack : M -> option (Z * Z * list hash) }.

Record Msg (M : Type) := mkMsg { msg_Code : Z; msg_Size : Z; msg_Payload : M }.
Arguments mkMsg {M} _ _ _.
Arguments msg_Code {M} _.
Arguments msg_Size {M} _.
Arguments msg_Payload {M} _.

(** What the manager asks of the other parts, in order. *)
Inductive action :=
  | FetcherNotify (peer : string) (ids : list hash)
  | FetcherEnqueue (peer : string) (events : list GEvent)
  | PoolAddRemotes (txs : list EthTx)
  | NotifyDownloader (peer : string) (op : notification)
  | SyncTransactions (c : nat)
  | ClearBuffer
  | Disconnect (c : nat).

(** What is read of the engine. *)
Record EngineView := mkEngineView { en_Epoch : Z; en_LastBlock : Z * hash; en_GenesisHash : hash }.

Record ProtocolConfig := mkProtocolConfig { NetworkID : Z; LatencyImportance : Z; ThroughputImportance : Z }.

Record ProtocolManager := mkPM {
  pm_synced : bool;
  pm_maxPeers : Z;
  pm_peers : peerSet;
  pm_objs : gmap nat peer;
  pm_downloader : PacksDl;
  pm_store : GStore;
  pm_actions : list action }.

Section updates.
Implicit Types pm : ProtocolManager.
Definition set_synced pm x := mkPM x (pm_maxPeers pm) (pm_peers pm) (pm_objs pm) (pm_downloader pm) (pm_store pm) (pm_actions pm).
Definition set_peers pm x := mkPM (pm_synced pm) (pm_maxPeers pm) x (pm_objs pm) (pm_downloader pm) (pm_store pm) (pm_actions pm).
Definition set_objs pm x := mkPM (pm_synced pm) (pm_maxPeers pm) (pm_peers pm) x (pm_downloader pm) (pm_store pm) (pm_actions pm).
Definition set_downloader pm x := mkPM (pm_synced pm) (pm_maxPeers pm) (pm_peers pm) (pm_objs pm) x (pm_store pm) (pm_actions pm).
Definition act pm (a : action) := mkPM (pm_synced pm) (pm_maxPeers pm) (pm_peers pm) (pm_objs pm) (pm_downloader pm) (pm_store pm) (pm_actions pm ++ [a]).
Definition set_store pm x := mkPM (pm_synced pm) (pm_maxPeers pm) (pm_peers pm) (pm_objs pm) (pm_downloader pm) x (pm_actions pm).
Definition put_peer pm (c : nat) (p : peer) := set_objs pm (<[c := p]> (pm_objs pm)).
End updates.

(** Errors of a handler: of the protocol, of the network or of the peer set, and p2p.DiscTooManyPeers and DiscReadTimeout. *)
Inductive handleErr := ErrResp (e : errCode) | ErrNetwork | ErrSet (e : set_error) | DiscTooManyPeers | DiscReadTimeout.

Section manager.
Context (event_Hash : EventHeaderData -> hash) (event_Size : GEvent -> Z) (pop : gset hash -> hash) (network : string -> list message -> message -> bool).
Context (rangePeers : gmap string nat -> list (string * nat)) (rangeTxset : gmap nat (list EthTx) -> list (nat * list EthTx)).
Context (event_RLP : GEvent -> bytes) (packInfo_RLP : PackInfo -> bytes).
Context {M : Type} `{Rlp M} (config : ProtocolConfig).
Implicit Types pm : ProtocolManager.

Abbreviation read pm c := (read_peer (pm_objs pm) c).

(** ** Peers *)

Definition removePeer pm (id : string) : go ProtocolManager :=
  match ps_peers (pm_peers pm) !! id with
  | None => Ret pm
  | Some c =>
    let pm := set_downloader pm (UnregisterPeer (pm_downloader pm) id) in
    r ← Unregister (pm_peers pm) (pm_objs pm) id;
    let '(_, ps, objs) := r in
    Ret (act (set_objs (set_peers pm ps) objs) (Disconnect c))
  end.

Definition myProgress pm (en : EngineView) : PeerProgress :=
  let epoch := en_Epoch en in
  mkPeerProgress epoch (en_LastBlock en).1 (GetPackInfoOrDefault (pm_store pm) epoch (u32 (GetPacksNumOrDefault (pm_store pm) epoch - 1))) (en_LastBlock en).2.

Definition highestPeerProgress pm (en : EngineView) : go PeerProgress :=
  go_fold (fun best c => p ← read pm c; Ret (if pp_NumOfBlocks best <? pp_NumOfBlocks (progress p) then progress p else best)) (myProgress pm en) (List_ rangePeers (pm_peers pm)).

(** ** Messages *)

(** The peer knows what it sent. *)
Definition mark_events pm (c : nat) (ids : list hash) : go ProtocolManager :=
  p ← read pm c; p ← go_fold (MarkEvent pop) p ids; Ret (put_peer pm c p).

(** Received transactions are marked one by one; a nil one ends it. *)
Fixpoint mark_txs (p : peer) (txs : list (option EthTx)) : go (bool * peer) :=
  match txs with
  | [] => Ret (true, p)
  | None :: _ => Ret (false, p)
  | Some tx :: txs => p ← MarkTransaction pop p (et_Hash tx); mark_txs p txs
  end.

Definition GetEventRLP (g : GStore) (h : hash) : option bytes := event_RLP <$> gs_Events g !! h.
Definition GetPackInfoRLP (g : GStore) (epoch idx : Z) : option bytes := packInfo_RLP <$> gs_PackInfos g !! (epoch, idx).
(** The hashes of a pack, in the order of the keys. *)
Definition pack_list (g : GStore) (epoch idx : Z) : list hash := merge_sort bytes_le (elements (GetPack g epoch idx)).

(** Found items until the size limit of a response. *)
Fixpoint collect {K} (get : K -> option bytes) (keys : list K) (size : Z) : list (K * bytes) :=
  match keys with
  | [] => []
  | k :: keys =>
    match get k with
    | Some raw =>
      let size := size + zlen raw in
      (k, raw) :: (if softResponseLimitSize <=? size then [] else collect get keys size)
    | None => if softResponseLimitSize <=? size then [] else collect get keys size
    end
  end.

(** for i, id := range ... { append; if i >= softLimitItems { break } } *)
Definition pack_response (ids : list hash) : list hash := take (Z.to_nat (softLimitItems + 1)) ids.

Definition onProgress pm (c : nat) (myEpoch : Z) (x : PeerProgress) : go ProtocolManager :=
  p ← read pm c;
  let pm := put_peer pm c (SetProgress p x) in
  let pm := if pp_Epoch x =? myEpoch then set_synced pm true else pm in
  let pm := set_downloader pm (RegisterPeer (pm_downloader pm) (p_id p) (pp_Epoch x) myEpoch) in
  Ret (if bool_decide (is_Some (PacksDl.Peer (pm_downloader pm) (p_id p))) && (0 <? pi_Index (pp_LastPackInfo x))
       then act pm (NotifyDownloader (p_id p) (PackInfoOp (pp_Epoch x) (pi_Index (pp_LastPackInfo x)) (pi_Heads (pp_LastPackInfo x)))) else pm).

Definition onGetEvents pm (c : nat) (requests : list hash) : go ProtocolManager :=
  let found := collect (GetEventRLP (pm_store pm)) requests 0 in
  if bool_decide (found = []) then Ret pm
  else p ← read pm c; r ← SendEventsRLP pop network p found.*2 found.*1; Ret (put_peer pm c r.2).

Definition onGetPackInfos pm (c : nat) (epoch : Z) (indexes : list Z) : go ProtocolManager :=
  match GetPacksNum (pm_store pm) epoch with
  | None => Ret pm
  | Some packsNum =>
    let raws := collect (GetPackInfoRLP (pm_store pm) epoch) (filter (fun i => i < packsNum) indexes) 0 in
    if bool_decide (raws = []) then Ret pm
    else p ← read pm c; Ret (put_peer pm c (SendPackInfosRLP network p epoch packsNum raws.*2).2)
  end.

Definition onGetPack pm (c : nat) (myEpoch epoch index : Z) : go ProtocolManager :=
  if myEpoch <? epoch then Ret pm
  else
    let ids := pack_response (pack_list (pm_store pm) epoch index) in
    if bool_decide (ids = []) then Ret pm
    else p ← read pm c; Ret (put_peer pm c (SendPack network p epoch index ids).2).

(** The descriptions one by one; one without heads ends it with an error. *)
Definition onPackInfo (c : nat) (id : string) (epoch : Z) (st : option errCode * ProtocolManager) (info : PackInfo) : go (option errCode * ProtocolManager) :=
  match st.1 with
  | Some e => Ret st
  | None =>
    if bool_decide (pi_Heads info = []) then Ret (Some ErrEmptyMessage, st.2)
    else pm ← mark_events st.2 c (pi_Heads info);
         Ret (None, act pm (NotifyDownloader id (PackInfoOp epoch (pi_Index info) (pi_Heads info))))
  end.

(** [handleMsg], after the message was read. *)
Definition handleMsg (en : EngineView) (overloaded : bool) pm (c : nat) (msg : Msg M) : go (option errCode * ProtocolManager) :=
  if protocolMaxMsgSize <? msg_Size msg then Ret (Some ErrMsgTooLarge, pm) else
  p ← read pm c;
  let myEpoch := en_Epoch en in
  let peerDwnlr := PacksDl.Peer (pm_downloader pm) (p_id p) in
  let code := msg_Code msg in
  let data := msg_Payload msg in
  let decoded {T} (r : option T) (k : T -> go (option errCode * ProtocolManager)) := match r with None => Ret (Some ErrDecode, pm) | Some x => k x end in
  let limited (n : Z) (k : go (option errCode * ProtocolManager)) := match checkLenLimits n with Some e => Ret (Some e, pm) | None => k end in
  let done (r : go ProtocolManager) := pm ← r; Ret (None, pm) in
  if code =? EthStatusMsg then Ret (Some ErrExtraStatusMsg, pm) else
  if code =? ProgressMsg then decoded (decode_Progress data) (fun x => done (onProgress pm c myEpoch x)) else
  if code =? NewEventHashesMsg then
    if overloaded || negb (pm_synced pm) then Ret (None, pm) else
    decoded (decode_Hashes data) (fun announces => limited (zlen announces)
      (pm ← mark_events pm c announces; Ret (None, act pm (FetcherNotify (p_id p) announces)))) else
  if code =? EventsMsg then
    if overloaded then Ret (None, pm) else
    decoded (decode_Events data) (fun events => limited (zlen events)
      (pm ← mark_events pm c (GHash event_Hash <$> events); Ret (None, act pm (FetcherEnqueue (p_id p) events)))) else
  if code =? EvmTxMsg then
    if negb (pm_synced pm) then Ret (None, pm) else
    decoded (decode_Txs data) (fun txs =>
      r ← mark_txs p txs;
      let pm := put_peer pm c r.2 in
      Ret (if r.1 : bool then (None, act pm (PoolAddRemotes (omap id txs))) else (Some ErrDecode, pm))) else
  if code =? GetEventsMsg then decoded (decode_Hashes data) (fun requests => limited (zlen requests) (done (onGetEvents pm c requests))) else
  if code =? GetPackInfosMsg then
    decoded (decode_GetPackInfos data) (fun r => limited (zlen r.2) (done (onGetPackInfos pm c r.1 r.2))) else
  if code =? GetPackMsg then decoded (decode_GetPack data) (fun r => done (onGetPack pm c myEpoch r.1 r.2)) else
  if code =? PackInfosMsg then
    if bool_decide (peerDwnlr = None) then Ret (None, pm) else
    decoded (decode_PackInfos data) (fun r =>
      let '(epoch, total, infos) := r in
      limited (zlen infos) (go_fold (onPackInfo c (p_id p) epoch) (None, act pm (NotifyDownloader (p_id p) (PacksNumOp epoch total))) infos)) else
  if code =? PackMsg then
    if bool_decide (peerDwnlr = None) then Ret (None, pm) else
    decoded (decode_Pack data) (fun r =>
      let '(epoch, index, ids) := r in
      limited (zlen ids) (pm ← mark_events pm c ids; Ret (None, act pm (NotifyDownloader (p_id p) (PackOp epoch index ids))))) else
  Ret (Some ErrInvalidMsgCode, pm).

(** ** The life of a connection *)

(** What arrives in the channel of Handshake: the results of the two sends (the progress is sent in any case), and the
    result of the reader at some place [at_] between them; the node takes two of them, if they come in time. *)
Definition handshake_results (sent_status sent_progress : bool) (status : option handleErr) (at_ : nat) : list (option handleErr) :=
  let sends := (if sent_status then [] else [Some ErrNetwork]) ++ [if sent_progress then None else Some ErrNetwork] in
  take at_ sends ++ [status] ++ drop at_ sends.

Definition Handshake (in_time : list (option handleErr)) : option handleErr :=
  match in_time with
  | Some e :: _ => Some e
  | None :: Some e :: _ => Some e
  | None :: None :: _ => None
  | _ => Some DiscReadTimeout
  end.

(** Messages until one fails; the end of the list is an error of the network. *)
Fixpoint handle_loop pm (c : nat) (msgs : list (EngineView * bool * Msg M)) : go (handleErr * ProtocolManager) :=
  match msgs with
  | [] => Ret (ErrNetwork, pm)
  | (en, overloaded, msg) :: msgs =>
    r ← handleMsg en overloaded pm c msg;
    match r.1 with Some e => Ret (ErrResp e, r.2) | None => handle_loop r.2 c msgs end
  end.

(** [handle] up to the loop: an error, or none and the peer is registered. *)
Definition accept pm (c : nat) (handshake : option handleErr) : go (option handleErr * ProtocolManager) :=
  p ← read pm c;
  if (pm_maxPeers pm <=? Len (pm_peers pm)) && negb (p_trusted p) then Ret (Some DiscTooManyPeers, pm) else
  match handshake with
  | Some e => Ret (Some e, pm)
  | None =>
    match Register (pm_peers pm) (p_id p) c with
    | (Some e, _) => Ret (Some (ErrSet e), pm)
    | (None, ps) => Ret (None, act (set_peers pm ps) (SyncTransactions c))
    end
  end.

Definition handle pm (c : nat) (handshake : option handleErr) (msgs : list (EngineView * bool * Msg M)) : go (handleErr * ProtocolManager) :=
  r ← accept pm c handshake;
  match r.1 with
  | Some e => Ret (e, r.2)
  | None =>
    s ← handle_loop r.2 c msgs;
    p ← read s.2 c;
    pm ← removePeer s.2 (p_id p);
    Ret (s.1, pm)
  end.

(** ** Broadcasts *)

Definition Millisecond : Z := 1000000.

(** Durations are int64 nanoseconds; the root of a number of peers is exact in a float64. *)
Definition decideBroadcastAggressiveness (size passed peersNum : Z) : Z :=
  let percents := 100 in
  let maxPercents := 1000000 * percents in
  let tradeoff := if ThroughputImportance config =? 0 then maxPercents
                  else Z.quot (i64 (LatencyImportance config * percents)) (ThroughputImportance config) in
  let byteCost := Z.quot Millisecond 2 in
  let broadcastCost := i64 (passed + i64 (size * byteCost)) in
  let broadcastAllCostTarget := Z.quot (i64 (tradeoff * (700 * Millisecond))) percents in
  let broadcastSqrtCostTarget := i64 (broadcastAllCostTarget * 20) in
  let fullRecipients :=
    if maxPercents <=? tradeoff then peersNum
    else if tradeoff <=? 0 then 0
    else if broadcastCost <=? broadcastAllCostTarget then peersNum
    else if (broadcastCost <=? broadcastSqrtCostTarget) || (passed =? 0) then Z.max (Z.sqrt peersNum) 4
    else 0 in
  Z.min fullRecipients peersNum.

(** An asynchronous send to each of some connections. *)
Definition for_peers pm (f : peer -> go peer) (cs : list nat) : go ProtocolManager :=
  go_fold (fun pm c => p ← read pm c; p ← f p; Ret (put_peer pm c p)) pm cs.

Definition BroadcastEvent pm (e : GEvent) (passed : Z) : go (Z * ProtocolManager) :=
  let passed := Z.max passed 0 in
  let id := GHash event_Hash e in
  peers ← PeersWithoutEvent rangePeers (pm_peers pm) (pm_objs pm) id;
  if bool_decide (peers = []) then Ret (0, pm) else
  let fullRecipients := decideBroadcastAggressiveness (event_Size e) passed (zlen peers) in
  fullBroadcast ← slice_to peers fullRecipients;
  pm ← for_peers pm (fun p => AsyncSendEvents event_Hash pop p [e]) fullBroadcast;
  pm ← for_peers pm (fun p => AsyncSendNewEventHashes pop p [id]) (drop (Z.to_nat fullRecipients) peers);
  Ret (zlen peers, pm).

Definition BroadcastTxs pm (txs : list EthTx) : go ProtocolManager :=
  let txs := take (Z.to_nat softLimitItems) txs in
  txset ← go_fold (fun txset tx =>
    peers ← PeersWithoutTx rangePeers (pm_peers pm) (pm_objs pm) (et_Hash tx);
    Ret (foldl (fun m c => <[c := default [] (m !! c) ++ [tx]]> m) txset peers)) ∅ txs;
  go_fold (fun pm ct => p ← read pm ct.1; p ← AsyncSendTransactions pop p ct.2; Ret (put_peer pm ct.1 p)) pm (rangeTxset txset).

(** A turn of progressBroadcastLoop: the progress of the turn before goes out. *)
Definition onNewPack (st : PeerProgress * ProtocolManager) (en : EngineView) : go (PeerProgress * ProtocolManager) :=
  pm ← for_peers st.2 (fun p => Ret (SendProgress network p st.1).2) (List_ rangePeers (pm_peers st.2));
  Ret (myProgress pm en, pm).

(** A turn of onNewEpochLoop. *)
Definition onNewEpoch pm (myEpoch : Z) : go ProtocolManager :=
  synced ← go_fold (fun b c => p ← read pm c; Ret (b || (pp_Epoch (progress p) =? myEpoch))) (pm_synced pm) (List_ rangePeers (pm_peers pm));
  let pm := act (set_synced pm synced) ClearBuffer in
  let peerEpoch id := match ps_peers (pm_peers pm) !! id with
                      | None => 0
                      | Some c => match pm_objs pm !! c with Some p => pp_Epoch (progress p) | None => 0 end
                      end in
  Ret (set_downloader pm (OnNewEpoch (pm_downloader pm) myEpoch peerEpoch)).

(** time.Sub saturates. *)
Definition time_Sub (now t : Z) : Z := Z.max (- 2 ^ 63) (Z.min (now - t) MaxInt64).

(** The callbacks of the ordering buffer: an event that the engine took is broadcast, a wrong one costs the peer. *)
Definition onProcessed pm (e : GEvent) (now : Z) : go ProtocolManager :=
  if pm_synced pm then r ← BroadcastEvent pm e (time_Sub now (ClaimedTime (ge_header e))); Ret r.2 else Ret pm.
Definition onDropped pm (peer : string) (err : option check_error) : go ProtocolManager :=
  if IsBan err then removePeer pm peer else Ret pm.

(** What the buffer, the fetcher and the downloaders ask of the stored events.  A lookup can open the tables of an epoch; the
    epoch is the one that the hash carries, so a peer chooses it. *)
Definition in_store {X} pm (r : go (X * GStore)) : go (X * ProtocolManager) := '(x, g) ← r; Ret (x, set_store pm g).
Definition bufferExists pm (h : hash) : go (bool * ProtocolManager) := in_store pm (HasEventHeader (pm_store pm) h).
Definition bufferGet pm (h : hash) : go (option EventHeaderData * ProtocolManager) :=
  epoch ← hash_Epoch h; in_store pm (GetEventHeader (pm_store pm) epoch h).
Definition notConnected pm (ids : list hash) : go (list hash * ProtocolManager) := in_store pm (onlyNotConnectedEvents (pm_store pm) ids).
Definition interestedIn pm (en : EngineView) (isBuffered : hash -> bool) (ids : list hash) : go (list hash * ProtocolManager) :=
  in_store pm (onlyInterestedEvents (pm_store pm) (en_Epoch en) isBuffered ids).

(** NodeInfo and Info *)
Definition NodeInfo (en : EngineView) : Z * hash * Z * Z := (NetworkID config, en_GenesisHash en, en_Epoch en, (en_LastBlock en).1).
Definition Info (p : peer) : Z * Z * Z := (p_version p, pp_Epoch (progress p), pp_NumOfBlocks (progress p)).
End manager.

Definition NewProtocolManager (store : GStore) (maxPeers : Z) : ProtocolManager := mkPM false maxPeers newPeerSet ∅ (mkPacksDl ∅ false) store [].
