(* ===== verification/HandlerSpec.v ===== *)
(** * What the protocol manager promises: gossip/handler.go ([Handler])

    Whatever peers send and whatever happens in between, the manager panics for one reason only, the lookup of an event whose
    hash carries an epoch far ahead, and what it keeps of each peer stays within its limits; an event goes to every interested peer, in full or as an announcement; responses hold
    what was requested, up to their limits. *)

From S2P Require Import Prelude Bytes Pos Event EventCheck StateTransition TempDbs Gossip GossipSpec GossipExample PacksDl Peer PeerSpec Handler.

Section manager.
Context (event_Hash : EventHeaderData -> hash) (event_Size : GEvent -> Z) (pop : gset hash -> hash) (network : string -> list message -> message -> bool).
Context (rangePeers : gmap string nat -> list (string * nat)) (rangeTxset : gmap nat (list EthTx) -> list (nat * list EthTx)).
Context (event_RLP : GEvent -> bytes) (packInfo_RLP : PackInfo -> bytes).
Context {M : Type} `{Rlp M} (config : ProtocolConfig).
Context (pop_in : forall s, s <> ∅ -> pop s ∈ s).
Implicit Types pm : ProtocolManager.

(** ** The invariant *)

Record pm_ok pm : Prop := {
  pm_registered : forall id c, ps_peers (pm_peers pm) !! id = Some c -> exists p, pm_objs pm !! c = Some p /\ p_id p = id /\ term p = false;
  pm_bounded : forall c p, pm_objs pm !! c = Some p -> peer_ok p }.

(** The connections stay, with their ids. *)
Definition grows pm pm' : Prop := forall c p, pm_objs pm !! c = Some p -> exists p', pm_objs pm' !! c = Some p' /\ p_id p' = p_id p.

Lemma conns_refl pm : grows pm pm.
Proof. intros c p Hc. by exists p. Qed.

Lemma conns_trans pm1 pm2 pm3 : grows pm1 pm2 -> grows pm2 pm3 -> grows pm1 pm3.
Proof. intros G1 G2 c p Hc. destruct (G1 c p Hc) as (p2 & H2 & <-). destruct (G2 c p2 H2) as (p3 & H3 & <-). by exists p3. Qed.

(** An operation that registers and removes nobody. *)
Record fine pm pm' : Prop := { fine_ok : pm_ok pm'; fine_grows : grows pm pm'; fine_peers : pm_peers pm' = pm_peers pm; fine_store : pm_store pm' = pm_store pm }.

Lemma fine_refl pm : pm_ok pm -> fine pm pm.
Proof. intros Hok. by split; [|apply conns_refl| |]. Qed.

Lemma fine_trans pm1 pm2 pm3 : fine pm1 pm2 -> fine pm2 pm3 -> fine pm1 pm3.
Proof. intros [] []. split; [done|by eapply conns_trans|congruence|congruence]. Qed.

Lemma fine_objs pm pm' : pm_ok pm -> pm_objs pm' = pm_objs pm -> pm_peers pm' = pm_peers pm -> pm_store pm' = pm_store pm -> fine pm pm'.
Proof. intros [H1 H2] E1 E2 E3. split; [split|..]; [by rewrite E1, E2|by rewrite E1| |done|done]. intros c p Hc. exists p. by rewrite E1. Qed.

Lemma fine_put pm (c : nat) (p p' : peer) : pm_ok pm -> pm_objs pm !! c = Some p -> peer_ok p' -> p_id p' = p_id p -> term p' = term p -> fine pm (put_peer pm c p').
Proof.
  intros [H1 H2] Hc Hp Hid Ht. split; [split|..]; [| | |done|done].
  - intros id c' Hr. destruct (H1 id c' Hr) as (q & Hq & Hqid & Hqt). cbn. destruct (decide (c' = c)) as [->|Hne]; [|exists q; by rewrite lookup_insert_ne].
    rewrite Hc in Hq. injection Hq as <-. exists p'. rewrite lookup_insert_eq. by rewrite Hid, Ht.
  - intros c' q. cbn. intros [[_ <-]|[_ Hq]]%lookup_insert_Some; [done|by eapply H2].
  - intros c' q Hq. cbn. destruct (decide (c' = c)) as [->|Hne]; [|exists q; by rewrite lookup_insert_ne]. rewrite Hc in Hq. injection Hq as <-. exists p'. by rewrite lookup_insert_eq.
Qed.

Lemma fine_kept pm (c : nat) (p p' : peer) : pm_ok pm -> pm_objs pm !! c = Some p -> kept p p' -> fine pm (put_peer pm c p').
Proof. intros Hok Hc [Hp (Hid & _ & Ht & _)]. eapply fine_put; [done|done| |done|done]. apply Hp. by eapply pm_bounded. Qed.

Lemma read_ok pm (c : nat) : is_Some (pm_objs pm !! c) -> exists p, read_peer (pm_objs pm) c = Ret p /\ pm_objs pm !! c = Some p.
Proof. intros [p Hp]. exists p. unfold read_peer. by rewrite Hp. Qed.

Lemma fine_is pm pm' (c : nat) : fine pm pm' -> is_Some (pm_objs pm !! c) -> is_Some (pm_objs pm' !! c).
Proof. intros Hf [p Hp]. destruct (fine_grows _ _ Hf c p Hp) as (p' & Hp' & _). by exists p'. Qed.

(** ** Messages *)

Lemma mark_events_ok pm (c : nat) (ids : list hash) : pm_ok pm -> is_Some (pm_objs pm !! c) -> exists pm', mark_events pop pm c ids = Ret pm' /\ fine pm pm'.
Proof.
  intros Hok Hc. destruct (read_ok pm c Hc) as (p & Hr & Hp). unfold mark_events. rewrite Hr. cbn [mbind go_bind].
  destruct (mark_all_ok pop pop_in p ids) as (p' & -> & Hk). eexists. split; [done|]. by eapply fine_kept.
Qed.

Lemma mark_txs_ok (p : peer) (txs : list (option EthTx)) : exists b p', mark_txs pop p txs = Ret (b, p') /\ kept p p'.
Proof.
  revert p. induction txs as [|[tx|] txs IH]; intros p; cbn [mark_txs]; [by exists true, p; split; [|apply kept_refl]| |by exists false, p; split; [|apply kept_refl]].
  destruct (MarkTransaction_ok pop pop_in p (et_Hash tx)) as (p1 & -> & H1). cbn [mbind go_bind]. destruct (IH p1) as (b & p' & -> & H2). exists b, p'. split; [done|by eapply kept_trans].
Qed.

Lemma onProgress_ok pm (c : nat) (myEpoch : Z) (x : PeerProgress) : pm_ok pm -> is_Some (pm_objs pm !! c) -> exists pm', onProgress pm c myEpoch x = Ret pm' /\ fine pm pm'.
Proof.
  intros Hok Hc. destruct (read_ok pm c Hc) as (p & Hr & Hp). unfold onProgress. rewrite Hr. cbn [mbind go_bind]. cbv zeta.
  eexists. split; [reflexivity|]. assert (fine pm (put_peer pm c (SetProgress p x))) as H1.
  { eapply fine_put; [done|done| |done|done]. destruct (pm_bounded pm Hok c p Hp). by split. }
  eapply fine_trans; [exact H1|]. apply fine_objs; [apply H1|..]; by repeat case_match.
Qed.

Lemma onGetEvents_ok pm (c : nat) (requests : list hash) : pm_ok pm -> is_Some (pm_objs pm !! c) -> exists pm', onGetEvents pop network event_RLP pm c requests = Ret pm' /\ fine pm pm'.
Proof.
  intros Hok Hc. unfold onGetEvents. case_match; [exists pm; by split; [|apply fine_refl]|]. destruct (read_ok pm c Hc) as (p & Hr & Hp). rewrite Hr. cbn [mbind go_bind].
  unfold SendEventsRLP. destruct (add_each_ok pop pop_in p (collect (GetEventRLP event_RLP (pm_store pm)) requests 0).*1) as (k & -> & Hk). cbn [mbind go_bind].
  destruct (Send_ok network (set_knownEvents p k) (SendEventsRaw (collect (GetEventRLP event_RLP (pm_store pm)) requests 0).*2)) as (b & p' & -> & Hs).
  eexists. split; [done|]. eapply fine_kept; [done|done|]. by eapply kept_trans.
Qed.

Lemma onGetPackInfos_ok pm (c : nat) (epoch : Z) (indexes : list Z) : pm_ok pm -> is_Some (pm_objs pm !! c) ->
  exists pm', onGetPackInfos network packInfo_RLP pm c epoch indexes = Ret pm' /\ fine pm pm'.
Proof.
  intros Hok Hc. unfold onGetPackInfos. destruct (GetPacksNum _ _) as [n|]; [|exists pm; by split; [|apply fine_refl]].
  case_match; [exists pm; by split; [|apply fine_refl]|]. destruct (read_ok pm c Hc) as (p & Hr & Hp). rewrite Hr. cbn [mbind go_bind]. unfold SendPackInfosRLP.
  edestruct (Send_ok network p) as (b & p' & -> & Hs). eexists. split; [done|]. by eapply fine_kept.
Qed.

Lemma onGetPack_ok pm (c : nat) (myEpoch epoch index : Z) : pm_ok pm -> is_Some (pm_objs pm !! c) -> exists pm', onGetPack network pm c myEpoch epoch index = Ret pm' /\ fine pm pm'.
Proof.
  intros Hok Hc. unfold onGetPack. case_match; [exists pm; by split; [|apply fine_refl]|]. case_match; [exists pm; by split; [|apply fine_refl]|].
  destruct (read_ok pm c Hc) as (p & Hr & Hp). rewrite Hr. cbn [mbind go_bind]. unfold SendPack.
  edestruct (Send_ok network p) as (b & p' & -> & Hs). eexists. split; [done|]. by eapply fine_kept.
Qed.

Lemma onPackInfos_ok (c : nat) (id : string) (epoch : Z) (infos : list PackInfo) (st : option errCode * ProtocolManager) : pm_ok st.2 -> is_Some (pm_objs st.2 !! c) ->
  exists e pm', go_fold (onPackInfo pop c id epoch) st infos = Ret (e, pm') /\ fine st.2 pm'.
Proof.
  revert st. induction infos as [|info infos IH]; intros [e pm] Hok Hc; [exists e, pm; by split; [|apply fine_refl]|]. cbn [go_fold fst snd] in *.
  assert (exists st', onPackInfo pop c id epoch (e, pm) info = Ret st' /\ fine pm st'.2) as ([e1 pm1] & -> & H1).
  { unfold onPackInfo. cbn [fst snd]. destruct e as [e|]; [eexists; split; [done|by apply fine_refl]|]. case_match; [eexists; split; [done|by apply fine_refl]|].
    destruct (mark_events_ok pm c (pi_Heads info) Hok Hc) as (pm1 & -> & H1). cbn [mbind go_bind]. eexists. split; [done|]. eapply fine_trans; [exact H1|]. by apply fine_objs; [apply H1|..]. }
  cbn [mbind go_bind]. destruct (IH (e1, pm1)) as (e' & pm' & Hr & Hf); [apply H1|by eapply fine_is|]. exists e', pm'. split; [exact Hr|]. by eapply fine_trans.
Qed.

Abbreviation handleMsg := (handleMsg event_Hash pop network event_RLP packInfo_RLP).

Lemma act_fine pm pm' (a : action) : fine pm pm' -> fine pm (act pm' a).
Proof. intros Hf. eapply fine_trans; [exact Hf|]. by apply fine_objs; [apply Hf|..]. Qed.

Lemma handleMsg_ok (en : EngineView) (overloaded : bool) pm (c : nat) (msg : Msg M) : pm_ok pm -> is_Some (pm_objs pm !! c) ->
  exists e pm', handleMsg en overloaded pm c msg = Ret (e, pm') /\ fine pm pm'.
Proof.
  intros Hok Hc. unfold Handler.handleMsg. assert (forall e : option errCode, exists e' pm', Ret (e, pm) = Ret (e', pm') /\ fine pm pm') as Hstay by (intros e; exists e, pm; by split; [|apply fine_refl]).
  case_match; [apply Hstay|]. destruct (read_ok pm c Hc) as (p & Hr & Hp). rewrite Hr. cbn [mbind go_bind]. cbv zeta.
  assert (forall r : go ProtocolManager, (exists pm', r = Ret pm' /\ fine pm pm') -> exists e pm', (pm' ← r; Ret (@None errCode, pm')) = Ret (e, pm') /\ fine pm pm') as Hdone.
  { intros r (pm' & -> & Hf). by exists None, pm'. }
  destruct (msg_Code msg =? EthStatusMsg); [apply Hstay|].
  destruct (msg_Code msg =? ProgressMsg).
  { destruct (decode_Progress _); [|apply Hstay]. by apply Hdone, onProgress_ok. }
  destruct (msg_Code msg =? NewEventHashesMsg).
  { destruct (_ || _); [apply Hstay|]. destruct (decode_Hashes _) as [ids|]; [|apply Hstay]. destruct (checkLenLimits _); [apply Hstay|].
    destruct (mark_events_ok pm c ids Hok Hc) as (pm' & -> & Hf). eexists _, _. split; [done|by apply act_fine]. }
  destruct (msg_Code msg =? EventsMsg).
  { destruct overloaded; [apply Hstay|]. destruct (decode_Events _) as [es|]; [|apply Hstay]. destruct (checkLenLimits _); [apply Hstay|].
    destruct (mark_events_ok pm c (GHash event_Hash <$> es) Hok Hc) as (pm' & -> & Hf). eexists _, _. split; [done|by apply act_fine]. }
  destruct (msg_Code msg =? EvmTxMsg).
  { destruct (negb _); [apply Hstay|]. destruct (decode_Txs _) as [txs|]; [|apply Hstay]. destruct (mark_txs_ok p txs) as (b & p' & -> & Hk). cbn [mbind go_bind fst snd].
    pose proof (fine_kept pm c p p' Hok Hp Hk) as Hf. destruct b; eexists _, _; (split; [reflexivity|]); [by apply act_fine|done]. }
  destruct (msg_Code msg =? GetEventsMsg).
  { destruct (decode_Hashes _) as [ids|]; [|apply Hstay]. destruct (checkLenLimits _); [apply Hstay|]. by apply Hdone, onGetEvents_ok. }
  destruct (msg_Code msg =? GetPackInfosMsg).
  { destruct (decode_GetPackInfos _) as [r|]; [|apply Hstay]. destruct (checkLenLimits _); [apply Hstay|]. by apply Hdone, onGetPackInfos_ok. }
  destruct (msg_Code msg =? GetPackMsg).
  { destruct (decode_GetPack _) as [r|]; [|apply Hstay]. by apply Hdone, onGetPack_ok. }
  destruct (msg_Code msg =? PackInfosMsg).
  { destruct (bool_decide _); [apply Hstay|]. destruct (decode_PackInfos _) as [[[epoch total] infos]|]; [|apply Hstay]. destruct (checkLenLimits _); [apply Hstay|].
    assert (fine pm (act pm (NotifyDownloader (p_id p) (PacksNumOp epoch total)))) as H1 by (by apply act_fine, fine_refl).
    destruct (onPackInfos_ok c (p_id p) epoch infos (None, act pm (NotifyDownloader (p_id p) (PacksNumOp epoch total)))) as (e & pm' & Hrun & Hf); [apply H1|done|].
    exists e, pm'. split; [exact Hrun|]. by eapply fine_trans. }
  destruct (msg_Code msg =? PackMsg).
  { destruct (bool_decide _); [apply Hstay|]. destruct (decode_Pack _) as [[[epoch index] ids]|]; [|apply Hstay]. destruct (checkLenLimits _); [apply Hstay|].
    destruct (mark_events_ok pm c ids Hok Hc) as (pm' & -> & Hf). eexists _, _. split; [done|by apply act_fine]. }
  apply Hstay.
Qed.

(** ** Connections *)

Lemma removePeer_ok pm (id : string) : pm_ok pm ->
  exists pm', removePeer pm id = Ret pm' /\ pm_ok pm' /\ grows pm pm' /\ ps_peers (pm_peers pm') = delete id (ps_peers (pm_peers pm)) /\
    ps_closed (pm_peers pm') = ps_closed (pm_peers pm) /\ pm_store pm' = pm_store pm /\
    (is_Some (ps_peers (pm_peers pm) !! id) -> pm_downloader pm' = UnregisterPeer (pm_downloader pm) id).
Proof.
  intros [Hreg Hb]. unfold removePeer, Unregister. destruct (ps_peers (pm_peers pm) !! id) as [c|] eqn:Hid.
  2:{ exists pm. split; [done|]. split; [done|]. split; [apply conns_refl|]. rewrite delete_id by done. do 3 (split; [done|]). by intros [? ?]. }
  destruct (Hreg id c Hid) as (p & Hp & Hpid & Hterm). cbn [pm_peers pm_objs set_downloader]. rewrite Hid, Hp. unfold close. rewrite Hterm. cbn [mbind go_bind].
  eexists. split; [reflexivity|]. split; [split|split; [|done]].
  - cbn. intros id' c' [Hne Hr]%lookup_delete_Some. destruct (Hreg id' c' Hr) as (q & Hq & Hqid & Hqt). exists q. rewrite lookup_insert_ne; [done|]. intros ->. congruence.
  - cbn. intros c' q [[_ <-]|[_ Hq]]%lookup_insert_Some; [|by eapply Hb]. destruct (Hb c p Hp). by split.
  - intros c' q Hq. cbn. destruct (decide (c' = c)) as [->|Hne]; [|exists q; by rewrite lookup_insert_ne]. rewrite lookup_insert_eq. eexists. split; [done|]. rewrite Hp in Hq. by injection Hq as <-.
Qed.

(** A new connection: its object, and what handle does before the loop. *)
Definition connect pm (c : nat) (id : string) (version : Z) (trusted : bool) (handshake : option handleErr) : go (option handleErr * ProtocolManager) :=
  accept (put_peer pm c (newPeer id version trusted)) c handshake.

Lemma connect_ok pm (c : nat) (id : string) (version : Z) (trusted : bool) (handshake : option handleErr) : pm_ok pm -> pm_objs pm !! c = None ->
  exists e pm', connect pm c id version trusted handshake = Ret (e, pm') /\ pm_ok pm' /\ grows pm pm' /\ pm_store pm' = pm_store pm /\ is_Some (pm_objs pm' !! c) /\
    ps_peers (pm_peers pm') = if bool_decide (e = None) then <[id := c]> (ps_peers (pm_peers pm)) else ps_peers (pm_peers pm).
Proof.
  intros [Hreg Hb] Hc. unfold connect, accept. cbn [pm_objs put_peer set_objs]. unfold read_peer at 1. rewrite lookup_insert_eq. cbn [mbind go_bind].
  set (pm1 := put_peer pm c (newPeer id version trusted)). cbn [p_id newPeer p_trusted].
  assert (pm_ok pm1 /\ grows pm pm1) as [H1 G1].
  { split; [split|].
    - intros id' c' Hr. destruct (Hreg id' c' Hr) as (q & Hq & ? & ?). exists q. unfold pm1. cbn. rewrite lookup_insert_ne; [done|]. intros ->. congruence.
    - unfold pm1. cbn. intros c' q [[_ <-]|[_ Hq]]%lookup_insert_Some; [apply newPeer_ok|by eapply Hb].
    - intros c' q Hq. exists q. unfold pm1. cbn. rewrite lookup_insert_ne; [done|]. intros ->. congruence. }
  assert (pm_objs pm1 !! c = Some (newPeer id version trusted)) as Hobj by (unfold pm1; cbn; apply lookup_insert_eq).
  assert (forall e : handleErr, exists e' pm', Ret (Some e, pm1) = Ret (e', pm') /\ pm_ok pm' /\ grows pm pm' /\ pm_store pm' = pm_store pm /\ is_Some (pm_objs pm' !! c) /\
    ps_peers (pm_peers pm') = if bool_decide (e' = None) then <[id := c]> (ps_peers (pm_peers pm)) else ps_peers (pm_peers pm)) as Hfail.
  { intros e. exists (Some e), pm1. do 4 (split; [done|]). split; [by eexists|done]. }
  change (pm_maxPeers pm1) with (pm_maxPeers pm). change (pm_peers pm1) with (pm_peers pm). destruct (_ && _); [apply Hfail|]. destruct handshake as [e|]; [apply Hfail|].
  unfold Register. destruct (ps_closed (pm_peers pm)); [apply Hfail|]. destruct (ps_peers (pm_peers pm) !! id) as [c0|] eqn:Hid; [apply Hfail|].
  eexists None, _. split; [reflexivity|]. split; [split|split; [exact G1|split; [done|split; [by eexists|done]]]].
  - cbn [pm_peers act set_peers ps_peers pm_objs]. intros id' c' [[<- <-]|[Hne Hr]]%lookup_insert_Some; [by eexists|]. by apply (pm_registered pm1 H1).
  - exact (pm_bounded pm1 H1).
Qed.

(** ** Broadcasts *)

Context (rangePeers_perm : forall m, rangePeers m ≡ₚ map_to_list m).

Lemma elem_of_List (ps : peerSet) (c : nat) : c ∈ List_ rangePeers ps <-> exists id, ps_peers ps !! id = Some c.
Proof.
  unfold List_. rewrite rangePeers_perm, list_elem_of_fmap. split.
  - intros ([id c'] & -> & Hin%elem_of_map_to_list). by exists id.
  - intros [id Hid]. exists (id, c). split; [done|by apply elem_of_map_to_list].
Qed.

Lemma List_objs pm (c : nat) : pm_ok pm -> c ∈ List_ rangePeers (pm_peers pm) -> is_Some (pm_objs pm !! c).
Proof. intros Hok [id Hid]%elem_of_List. destruct (pm_registered pm Hok id c Hid) as (p & Hp & _). by exists p. Qed.

Lemma List_nodup pm : pm_ok pm -> NoDup (List_ rangePeers (pm_peers pm)).
Proof.
  intros Hok. unfold List_. rewrite rangePeers_perm.
  apply (NoDup_fmap_2_strong snd); [|apply NoDup_map_to_list]. intros [id c] [id' c'] Hin%elem_of_map_to_list Hin'%elem_of_map_to_list Heq. cbn in Heq. subst c'.
  destruct (pm_registered pm Hok id c Hin) as (p & Hp & <- & _). destruct (pm_registered pm Hok id' c Hin') as (p' & Hp' & <- & _). congruence.
Qed.

(** Only the objects change. *)
Definition same_but_objs pm pm' : Prop := pm' = set_objs pm (pm_objs pm').

Lemma for_peers_ok pm (f : peer -> go peer) (cs : list nat) : pm_ok pm -> (forall p, exists p', f p = Ret p' /\ kept p p') -> (forall c, c ∈ cs -> is_Some (pm_objs pm !! c)) -> NoDup cs ->
  exists pm', for_peers pm f cs = Ret pm' /\ fine pm pm' /\ same_but_objs pm pm' /\
    (forall c, c ∉ cs -> pm_objs pm' !! c = pm_objs pm !! c) /\
    (forall c p, c ∈ cs -> pm_objs pm !! c = Some p -> exists p', f p = Ret p' /\ pm_objs pm' !! c = Some p').
Proof.
  intros Hok Hf. revert pm Hok. unfold for_peers. induction cs as [|c cs IH]; intros pm Hok Hc Hnd.
  { exists pm. split; [done|]. split; [by apply fine_refl|]. split; [by destruct pm|]. split; [done|]. by intros c p Hin%not_elem_of_nil. }
  apply NoDup_cons in Hnd as [Hnc Hnd]. cbn [go_fold]. destruct (read_ok pm c (Hc c ltac:(by left))) as (p & Hr & Hp). rewrite Hr. cbn [mbind go_bind].
  destruct (Hf p) as (p' & Hfp & Hk). rewrite Hfp. cbn [mbind go_bind]. pose proof (fine_kept pm c p p' Hok Hp Hk) as H1.
  destruct (IH (put_peer pm c p')) as (pm' & Hrun & H2 & Hs & Hoff & Hon); [apply H1|intros c' Hc'; eapply fine_is; [exact H1|]; apply Hc; by right|done|].
  exists pm'. split; [exact Hrun|]. split; [by eapply fine_trans|]. split; [by rewrite Hs|]. split.
  - intros c' Hc'. rewrite not_elem_of_cons in Hc'. destruct Hc'. rewrite Hoff by done. cbn. by rewrite lookup_insert_ne.
  - intros c' q [->|Hin]%elem_of_cons Hq.
    + exists p'. rewrite Hp in Hq. injection Hq as <-. split; [done|]. rewrite Hoff by done. cbn. by rewrite lookup_insert_eq.
    + apply Hon; [done|]. cbn. rewrite lookup_insert_ne; [done|]. intros <-. done.
Qed.

Definition interested pm (h : hash) (c : nat) : Prop := c ∈ List_ rangePeers (pm_peers pm) /\ exists p, pm_objs pm !! c = Some p /\ InterestedIn p h = Ret true.

Lemma PeersWithoutEvent_ok pm (h : hash) : pm_ok pm -> returns (hash_Epoch h) ->
  exists l, PeersWithoutEvent rangePeers (pm_peers pm) (pm_objs pm) h = Ret l /\ NoDup l /\ forall c, c ∈ l <-> interested pm h c.
Proof.
  intros Hok [e He]. unfold PeersWithoutEvent, interested. pose proof (List_nodup pm Hok) as Hnd.
  assert (forall c, c ∈ List_ rangePeers (pm_peers pm) -> is_Some (pm_objs pm !! c)) as Hobjs by (intros c; by apply List_objs).
  revert Hnd Hobjs. generalize (List_ rangePeers (pm_peers pm)) as cs. intros cs Hnd Hobjs.
  assert (forall l, NoDup l -> (forall c, c ∈ l -> c ∉ cs) -> exists l', go_fold (fun l c => p ← read_peer (pm_objs pm) c; b ← InterestedIn p h; Ret (if b : bool then l ++ [c] else l)) l cs = Ret l' /\
    NoDup l' /\ forall c, c ∈ l' <-> c ∈ l \/ c ∈ cs /\ exists p, pm_objs pm !! c = Some p /\ InterestedIn p h = Ret true) as Hgen.
  { induction cs as [|c cs IH]; intros l Hl Hd.
    { exists l. split; [done|]. split; [done|]. intros c. split; [by left|]. by intros [?|[Hin%not_elem_of_nil _]]. }
    apply NoDup_cons in Hnd as [Hnc Hnd]. cbn [go_fold]. destruct (Hobjs c ltac:(by left)) as [p Hp]. unfold read_peer at 2. rewrite Hp. cbn [mbind go_bind].
    assert (exists b, InterestedIn p h = Ret b) as [b Hb] by (unfold InterestedIn; rewrite He; by eexists). rewrite Hb. cbn [mbind go_bind].
    destruct (IH Hnd ltac:(intros c' Hc'; apply Hobjs; by right) (if b then l ++ [c] else l)) as (l' & -> & Hl' & Hin').
    - destruct b; [|done]. apply NoDup_app. split; [done|]. split; [|apply NoDup_singleton]. intros c' Hc' ->%list_elem_of_singleton. apply (Hd c Hc'). by left.
    - intros c' Hc' Hcs. destruct b; [|apply (Hd c' Hc'); by right]. apply elem_of_app in Hc' as [Hc'| ->%list_elem_of_singleton]; [|done]. apply (Hd c' Hc'). by right.
    - exists l'. split; [done|]. split; [done|]. intros c'. rewrite Hin'. destruct b.
      + rewrite elem_of_app, list_elem_of_singleton, elem_of_cons. split.
        * intros [[?| ->]|[? ?]]; [by left|right; split; [by left|by exists p]|right; split; [by right|done]].
        * intros [?|[[->|?] ?]]; [by left; left|by left; right|by right].
      + rewrite elem_of_cons. split; [intros [?|[? ?]]; [by left|right; split; [by right|done]]|].
        intros [?|[[->|?] (q & Hq & Hi)]]; [by left| |right; split; [done|by exists q]]. rewrite Hp in Hq. injection Hq as <-. congruence. }
  destruct (Hgen [] ltac:(by apply NoDup_nil) ltac:(by intros c Hin%not_elem_of_nil)) as (l & -> & Hnd' & Hin). exists l. split; [done|]. split; [done|].
  intros c. rewrite Hin. split; [by intros [Hc%not_elem_of_nil|?]|by right].
Qed.

Lemma decide_bounds (size passed n : Z) : 0 <= n -> 0 <= decideBroadcastAggressiveness config size passed n <= n.
Proof.
  intros Hn. unfold decideBroadcastAggressiveness. set (t := if ThroughputImportance config =? 0 then _ else _). set (x := if _ <=? t then _ else _).
  assert (0 <= x); [|lia]. unfold x. repeat case_match; lia.
Qed.

(** An event goes out to a connection in full or as an announcement: it is queued, and known to the peer from then on;
    but a full queue drops it, and too large a memory may drop any hash. *)
Definition queued_full (e : GEvent) (p p' : peer) : Prop :=
  if zlen (queuedProps p) <? maxQueuedProps
  then exists k, p' = set_knownEvents (set_queuedProps p (queuedProps p ++ [[e]])) k /\
       (Z.of_nat (size (knownEvents p)) < maxKnownEvents - 1 -> k = {[GHash event_Hash e]} ∪ knownEvents p)
  else p' = p.
Definition queued_hash (h : hash) (p p' : peer) : Prop :=
  if zlen (queuedAnns p) <? maxQueuedAnns
  then exists k, p' = set_knownEvents (set_queuedAnns p (queuedAnns p ++ [[h]])) k /\
       (Z.of_nat (size (knownEvents p)) < maxKnownEvents - 1 -> k = {[h]} ∪ knownEvents p)
  else p' = p.

Abbreviation BroadcastEvent := (BroadcastEvent event_Hash event_Size pop rangePeers config).

Lemma BroadcastEvent_ok pm (e : GEvent) (passed : Z) : pm_ok pm -> returns (hash_Epoch (GHash event_Hash e)) ->
  exists l pm', let k := decideBroadcastAggressiveness config (event_Size e) (Z.max passed 0) (zlen l) in
    BroadcastEvent pm e passed = Ret (zlen l, pm') /\ fine pm pm' /\ same_but_objs pm pm' /\
    NoDup l /\ (forall c, c ∈ l <-> interested pm (GHash event_Hash e) c) /\ 0 <= k <= zlen l /\
    (forall c p, pm_objs pm !! c = Some p -> exists p', pm_objs pm' !! c = Some p' /\
       (c ∈ take (Z.to_nat k) l -> queued_full e p p') /\ (c ∈ drop (Z.to_nat k) l -> queued_hash (GHash event_Hash e) p p') /\ (c ∉ l -> p' = p)).
Proof.
  intros Hok Hret. destruct (PeersWithoutEvent_ok pm _ Hok Hret) as (l & Hl & Hnd & Hin). exists l. unfold Handler.BroadcastEvent. rewrite Hl. cbn [mbind go_bind]. cbv zeta.
  set (k := decideBroadcastAggressiveness config (event_Size e) (Z.max passed 0) (zlen l)).
  pose proof (decide_bounds (event_Size e) (Z.max passed 0) (zlen l) (zlen_nonneg l)) as Hk. fold k in Hk.
  destruct (bool_decide_reflect (l = [])) as [->|Hne].
  { exists pm. split; [done|]. split; [by apply fine_refl|]. split; [by destruct pm|]. split; [done|]. split; [done|]. split; [done|].
    intros c p Hp. exists p. split; [done|]. rewrite take_nil, drop_nil. by split_and!; [intros ?%not_elem_of_nil|intros ?%not_elem_of_nil|]. }
  unfold slice_to. replace ((0 <=? k) && (k <=? zlen l)) with true by (symmetry; apply andb_true_iff; split; apply Z.leb_le; lia). cbn [mbind go_bind].
  assert (forall c, c ∈ l -> is_Some (pm_objs pm !! c)) as Hobjs by (intros c Hc; apply Hin in Hc as [_ (p & Hp & _)]; by exists p).
  rewrite <-(take_drop (Z.to_nat k) l) in Hnd, Hobjs. pose proof Hnd as (Hnd1 & Hdis & Hnd2)%NoDup_app.
  destruct (for_peers_ok pm (fun p => AsyncSendEvents event_Hash pop p [e]) (take (Z.to_nat k) l) Hok) as (pm1 & -> & Hf1 & Hs1 & Hoff1 & Hon1);
    [intros p; destruct (AsyncSendEvents_spec event_Hash pop pop_in p e) as (p' & ? & ? & _); by exists p'|intros c Hc; apply Hobjs, elem_of_app; by left|done|].
  cbn [mbind go_bind].
  destruct (for_peers_ok pm1 (fun p => AsyncSendNewEventHashes pop p [GHash event_Hash e]) (drop (Z.to_nat k) l)) as (pm2 & -> & Hf2 & Hs2 & Hoff2 & Hon2);
    [apply Hf1|intros p; destruct (AsyncSendHashes_spec pop pop_in p (GHash event_Hash e)) as (p' & ? & ? & _); by exists p'|intros c Hc; eapply fine_is; [exact Hf1|]; apply Hobjs, elem_of_app; by right|done|].
  cbn [mbind go_bind]. exists pm2. split; [done|]. split; [by eapply fine_trans|]. split; [rewrite Hs2, Hs1; done|]. rewrite (take_drop (Z.to_nat k) l) in Hnd. split; [done|]. split; [done|]. split; [done|].
  intros c p Hp. destruct (decide (c ∈ take (Z.to_nat k) l)) as [Ht|Ht].
  - destruct (Hon1 c p Ht Hp) as (p' & Hsend & Hp'). exists p'. rewrite Hoff2 by (intros Hd; by apply (Hdis c)). split; [done|]. split; [|split].
    + intros _. destruct (AsyncSendEvents_spec event_Hash pop pop_in p e) as (p2 & Hsend2 & _ & Hq). rewrite Hsend in Hsend2. injection Hsend2 as <-. exact Hq.
    + intros Hd. by destruct (Hdis c).
    + intros Hn. destruct Hn. rewrite <-(take_drop (Z.to_nat k) l). apply elem_of_app. by left.
  - assert (pm_objs pm1 !! c = Some p) as Hp1 by (by rewrite Hoff1). destruct (decide (c ∈ drop (Z.to_nat k) l)) as [Hd|Hd].
    + destruct (Hon2 c p Hd Hp1) as (p' & Hsend & Hp'). exists p'. split; [done|]. split; [done|]. split.
      * intros _. destruct (AsyncSendHashes_spec pop pop_in p (GHash event_Hash e)) as (p2 & Hsend2 & _ & Hq). rewrite Hsend in Hsend2. injection Hsend2 as <-. exact Hq.
      * intros Hn. destruct Hn. rewrite <-(take_drop (Z.to_nat k) l). apply elem_of_app. by right.
    + exists p. rewrite Hoff2 by done. split; [done|]. by split_and!.
Qed.

Lemma PeersWithoutTx_ok pm (h : hash) : pm_ok pm -> exists l, PeersWithoutTx rangePeers (pm_peers pm) (pm_objs pm) h = Ret l /\ forall c, c ∈ l -> c ∈ List_ rangePeers (pm_peers pm).
Proof.
  intros Hok. unfold PeersWithoutTx. assert (forall c, c ∈ List_ rangePeers (pm_peers pm) -> is_Some (pm_objs pm !! c)) as Hobjs by (intros c; by apply List_objs).
  revert Hobjs. generalize (List_ rangePeers (pm_peers pm)) as cs. intros cs Hobjs.
  assert (forall l, exists l', go_fold (fun l c => p ← read_peer (pm_objs pm) c; Ret (if bool_decide (h ∈ knownTxs p) then l else l ++ [c])) l cs = Ret l' /\ forall c, c ∈ l' -> c ∈ l \/ c ∈ cs) as Hgen.
  { induction cs as [|c cs IH]; intros l; [exists l; split; [done|]; by left|]. cbn [go_fold]. destruct (Hobjs c ltac:(by left)) as [p Hp]. unfold read_peer at 2. rewrite Hp. cbn [mbind go_bind].
    destruct (IH ltac:(intros c' Hc'; apply Hobjs; by right) (if bool_decide (h ∈ knownTxs p) then l else l ++ [c])) as (l' & -> & Hin). exists l'. split; [done|].
    intros c' Hc'. destruct (Hin c' Hc') as [Hc1|Hc1]; [|right; by right]. case_bool_decide; [by left|]. apply elem_of_app in Hc1 as [?| ->%list_elem_of_singleton]; [by left|right; by left]. }
  destruct (Hgen []) as (l & -> & Hin). exists l. split; [done|]. intros c Hc. by destruct (Hin c Hc) as [?%not_elem_of_nil|?].
Qed.

Context (rangeTxset_perm : forall m, rangeTxset m ≡ₚ map_to_list m).

Lemma BroadcastTxs_ok pm (txs : list EthTx) : pm_ok pm -> exists pm', BroadcastTxs pop rangePeers rangeTxset pm txs = Ret pm' /\ fine pm pm'.
Proof.
  intros Hok. unfold BroadcastTxs. set (ts := take _ txs).
  assert (forall (m : gmap nat (list EthTx)), (forall c, is_Some (m !! c) -> c ∈ List_ rangePeers (pm_peers pm)) -> exists m', go_fold (fun txset tx =>
      peers ← PeersWithoutTx rangePeers (pm_peers pm) (pm_objs pm) (et_Hash tx);
      Ret (foldl (fun m c => <[c := default [] (m !! c) ++ [tx]]> m) txset peers)) m ts = Ret m' /\ forall c, is_Some (m' !! c) -> c ∈ List_ rangePeers (pm_peers pm)) as Hset.
  { induction ts as [|t ts IH]; intros m Hm; [by exists m|]. cbn [go_fold]. destruct (PeersWithoutTx_ok pm (et_Hash t) Hok) as (l & -> & Hl). cbn [mbind go_bind]. apply IH. clear IH.
    revert m Hm. induction l as [|c l IHl]; intros m Hm; [done|]. cbn [foldl]. apply IHl; [intros c' Hc'; apply Hl; by right|].
    intros c' [x [[<- _]|[_ Hx]]%lookup_insert_Some]; [apply Hl; by left|apply Hm; by exists x]. }
  destruct (Hset ∅) as (txset & -> & Hin); [by intros c [? ?]|]. cbn [mbind go_bind].
  assert (forall ct, ct ∈ rangeTxset txset -> is_Some (pm_objs pm !! ct.1)) as Hobjs.
  { intros [c ts']. rewrite rangeTxset_perm. intros Hct%elem_of_map_to_list. apply List_objs; [done|]. apply Hin. by exists ts'. }
  clear Hin Hset. revert pm Hok Hobjs. induction (rangeTxset txset) as [|[c ts'] l IH]; intros pm Hok Hobjs; [exists pm; by split; [|apply fine_refl]|]. cbn [go_fold fst snd].
  destruct (read_ok pm c (Hobjs (c, ts') ltac:(by left))) as (p & Hr & Hp). rewrite Hr. cbn [mbind go_bind]. destruct (AsyncSendTransactions_ok pop pop_in p ts') as (p' & -> & Hk). cbn [mbind go_bind].
  pose proof (fine_kept pm c p p' Hok Hp Hk) as H1. destruct (IH (put_peer pm c p')) as (pm' & Hrun & H2); [apply H1|intros ct Hct; eapply fine_is; [exact H1|]; apply Hobjs; by right|].
  exists pm'. split; [exact Hrun|by eapply fine_trans].
Qed.

(** ** Progress and epochs *)

Lemma onNewPack_ok pm (prev : PeerProgress) (en : EngineView) : pm_ok pm -> exists x pm', onNewPack network rangePeers (prev, pm) en = Ret (x, pm') /\ fine pm pm'.
Proof.
  intros Hok. unfold onNewPack. cbn [fst snd]. destruct (for_peers_ok pm (fun p => Ret (SendProgress network p prev).2) (List_ rangePeers (pm_peers pm)) Hok) as (pm' & -> & Hf & _);
    [|intros c; by apply List_objs|by apply List_nodup|by eexists _, pm'].
  intros p. unfold SendProgress. destruct (Send_ok network p (SendProgressOf prev)) as (b & p' & -> & Hk). by exists p'.
Qed.

Lemma highestPeerProgress_ok pm (en : EngineView) : pm_ok pm -> exists x, highestPeerProgress rangePeers pm en = Ret x.
Proof.
  intros Hok. unfold highestPeerProgress. assert (forall c, c ∈ List_ rangePeers (pm_peers pm) -> is_Some (pm_objs pm !! c)) as Hc by (intros c; by apply List_objs).
  revert Hc. generalize (myProgress pm en). induction (List_ rangePeers (pm_peers pm)) as [|c cs IH]; intros x Hc; [by exists x|]. cbn [go_fold].
  destruct (read_ok pm c (Hc c ltac:(by left))) as (p & -> & _). cbn [mbind go_bind]. apply IH. intros c' Hc'. apply Hc. by right.
Qed.

Lemma onNewEpoch_ok pm (myEpoch : Z) : pm_ok pm -> exists pm', onNewEpoch rangePeers pm myEpoch = Ret pm' /\ fine pm pm'.
Proof.
  intros Hok. unfold onNewEpoch. set (f := fun b c => _).
  assert (forall cs b, (forall c, c ∈ cs -> is_Some (pm_objs pm !! c)) -> exists b', go_fold f b cs = Ret b') as Hgen.
  { induction cs as [|c cs IH]; intros b Hc; [by exists b|]. cbn [go_fold]. unfold f at 2. destruct (read_ok pm c (Hc c ltac:(by left))) as (p & -> & _). cbn [mbind go_bind].
    apply IH. intros c' Hc'. apply Hc. by right. }
  destruct (Hgen (List_ rangePeers (pm_peers pm)) (pm_synced pm)) as [b ->]; [intros c; by apply List_objs|]. cbn [mbind go_bind]. eexists. split; [reflexivity|]. by apply fine_objs.
Qed.

End manager.

(** * The protocol manager as a state machine: gossip/handler.go ([Handler], [HandlerSpec])

    Everything that happens to the manager, as steps in any order, with the invariant of the states they reach; the
    broadcast of events, the response to a request of events, and what a dropped peer leaves behind. *)

Section steps.
Context (event_Hash : EventHeaderData -> hash) (event_Size : GEvent -> Z) (pop : gset hash -> hash) (network : string -> list message -> message -> bool).
Context (rangePeers : gmap string nat -> list (string * nat)) (rangeTxset : gmap nat (list EthTx) -> list (nat * list EthTx)).
Context (event_RLP : GEvent -> bytes) (packInfo_RLP : PackInfo -> bytes).
Context {M : Type} `{Rlp M} (config : ProtocolConfig).
Implicit Types pm : ProtocolManager.

(** What happens to the manager: connections, their messages and the turns of their sending loops, peers that other parts
    drop, requests that the fetcher makes, broadcasts, the news of the node itself, the callbacks that the manager gives to
    its downloaders, its fetcher and its ordering buffer, and what other parts of the service write to the store. *)
Inductive pm_op :=
  | Connect (c : nat) (id : string) (version : Z) (trusted : bool) (handshake : option handleErr)
  | Message (c : nat) (en : EngineView) (overloaded : bool) (msg : Msg M)
  | Remove (id : string)
  | Turn (c : nat) (choice : broadcast_case)
  | Request (c : nat) (ids : list hash)
  | Broadcast (e : GEvent) (passed : Z)
  | BroadcastTransactions (txs : list EthTx)
  | NewPack (prev : PeerProgress) (en : EngineView)
  | NewEpoch (myEpoch : Z)
  | CloseAll
  | HighestProgress (en : EngineView)
  | NotConnected (ids : list hash)
  | Interested (en : EngineView) (isBuffered : hash -> bool) (ids : list hash)
  | BufferExists (id : hash)
  | BufferGet (id : hash)
  | Processed (e : GEvent) (now : Z)
  | Dropped (id : string) (err : option check_error)
  | ServiceWrites (store : GStore).

Definition pm_do pm (op : pm_op) : go ProtocolManager :=
  match op with
  | Connect c id version trusted handshake => r ← connect pm c id version trusted handshake; Ret r.2
  | Message c en overloaded msg => r ← handleMsg event_Hash pop network event_RLP packInfo_RLP en overloaded pm c msg; Ret r.2
  | Remove id => removePeer pm id
  | Turn c choice =>
    p ← read_peer (pm_objs pm) c; r ← broadcast event_Hash pop network p choice;
    Ret (match r with Some (_, p) => put_peer pm c p | None => pm end)
  | Request c ids => p ← read_peer (pm_objs pm) c; r ← RequestEvents network p ids; Ret (put_peer pm c r.2)
  | Broadcast e passed => r ← BroadcastEvent event_Hash event_Size pop rangePeers config pm e passed; Ret r.2
  | BroadcastTransactions txs => BroadcastTxs pop rangePeers rangeTxset pm txs
  | NewPack prev en => r ← onNewPack network rangePeers (prev, pm) en; Ret r.2
  | NewEpoch myEpoch => onNewEpoch rangePeers pm myEpoch
  | CloseAll => Ret (set_peers pm (Close (pm_peers pm)))
  | HighestProgress en => _ ← highestPeerProgress rangePeers pm en; Ret pm
  | NotConnected ids => r ← notConnected pm ids; Ret r.2
  | Interested en isBuffered ids => r ← interestedIn pm en isBuffered ids; Ret r.2
  | BufferExists id => r ← bufferExists pm id; Ret r.2
  | BufferGet id => r ← bufferGet pm id; Ret r.2
  | Processed e now => onProcessed event_Hash event_Size pop rangePeers config pm e now
  | Dropped id err => onDropped pm id err
  | ServiceWrites store => Ret (set_store pm store)
  end.

(** A connection is new once, and messages come over connections.  Hashes and epochs have their widths; other parts of the
    service write what they like, but open and remove the databases of epochs by the operations of [TempDbs]. *)
Definition enabled pm (op : pm_op) : Prop :=
  match op with
  | Connect c _ _ _ _ => pm_objs pm !! c = None
  | Message c _ _ _ | Turn c _ | Request c _ => is_Some (pm_objs pm !! c)
  | Broadcast e _ | Processed e _ => is_u32 (Epoch (ge_header e))
  | NotConnected ids | Interested _ _ ids => Forall is_hash ids
  | BufferExists id | BufferGet id => is_hash id
  | ServiceWrites store => store_open store
  | _ => True
  end.

(** The epochs whose databases an operation asks for, in order. *)
Definition lookups (op : pm_op) : list Z :=
  match op with
  | NotConnected ids => looked_up (fun _ _ => true) ids
  | Interested en isBuffered ids => looked_up (fun epoch id => (epoch =? en_Epoch en) && negb (isBuffered id)) ids
  | BufferExists id | BufferGet id => looked_up (fun _ _ => true) [id]
  | _ => []
  end.

Inductive reachable (store : GStore) (maxPeers : Z) : ProtocolManager -> Prop :=
  | reach_new : store_open store -> reachable store maxPeers (NewProtocolManager store maxPeers)
  | reach_step pm pm' op : reachable store maxPeers pm -> enabled pm op -> pm_do pm op = Ret pm' -> reachable store maxPeers pm'.

Context (pop_in : forall s, s <> ∅ -> pop s ∈ s).
Context (rangePeers_perm : forall m, rangePeers m ≡ₚ map_to_list m) (rangeTxset_perm : forall m, rangeTxset m ≡ₚ map_to_list m).
Context (hash_epoch : forall hd, is_u32 (Epoch hd) -> hash_Epoch (event_Hash hd) = Ret (Epoch hd)).

(** Where no epoch is looked up, nothing panics. *)
Lemma pm_do_ok pm (op : pm_op) : pm_ok pm -> enabled pm op ->
  match op with NotConnected _ | Interested _ _ _ | BufferExists _ | BufferGet _ | ServiceWrites _ => True | _ =>
    exists pm', pm_do pm op = Ret pm' /\ pm_ok pm' /\ pm_store pm' = pm_store pm end.
Proof.
  intros Hok Hen. destruct op; cbn [pm_do enabled] in *; try done.
  - destruct (connect_ok pm c id version trusted handshake Hok Hen) as (e & pm' & -> & Hok' & _ & Hs & _). by exists pm'.
  - destruct (handleMsg_ok event_Hash pop network event_RLP packInfo_RLP pop_in en overloaded pm c msg Hok Hen) as (e & pm' & -> & Hf). exists pm'. split; [done|]. by destruct Hf.
  - destruct (removePeer_ok pm id Hok) as (pm' & -> & Hok' & _ & _ & _ & Hs & _). by exists pm'.
  - destruct (read_ok pm c Hen) as (p & -> & Hp). cbn [mbind go_bind]. destruct (broadcast_ok event_Hash pop network pop_in p choice) as ([[b p']|] & -> & Hk); cbn [mbind go_bind].
    + eexists. split; [done|]. split; [|done]. eapply fine_ok, fine_kept; [done|done|by eapply Hk].
    + by exists pm.
  - destruct (read_ok pm c Hen) as (p & -> & Hp). cbn [mbind go_bind]. unfold RequestEvents.
    destruct (request_batches_ok network (length ids) p ids ltac:(done)) as (b & p' & bs & -> & Hk & _). eexists. split; [done|]. split; [|done]. by eapply fine_ok, fine_kept.
  - destruct (BroadcastEvent_ok event_Hash event_Size pop rangePeers config pop_in rangePeers_perm pm e passed Hok) as (l & pm' & Hr & Hf & _); [eexists; by apply hash_epoch|].
    rewrite Hr. exists pm'. split; [done|]. by destruct Hf.
  - destruct (BroadcastTxs_ok pop rangePeers rangeTxset pop_in rangePeers_perm rangeTxset_perm pm txs Hok) as (pm' & -> & Hf). exists pm'. split; [done|]. by destruct Hf.
  - destruct (onNewPack_ok network rangePeers rangePeers_perm pm prev en Hok) as (x & pm' & -> & Hf). exists pm'. split; [done|]. by destruct Hf.
  - destruct (onNewEpoch_ok rangePeers rangePeers_perm pm myEpoch Hok) as (pm' & -> & Hf). exists pm'. split; [done|]. by destruct Hf.
  - eexists. split; [done|]. destruct Hok as [H1 H2]. by split.
  - destruct (highestPeerProgress_ok rangePeers rangePeers_perm pm en Hok) as [x ->]. by exists pm.
  - unfold onProcessed. destruct (pm_synced pm); [|by exists pm].
    destruct (BroadcastEvent_ok event_Hash event_Size pop rangePeers config pop_in rangePeers_perm pm e (time_Sub now (ClaimedTime (ge_header e))) Hok) as (l & pm' & Hr & Hf & _);
      [eexists; by apply hash_epoch|]. rewrite Hr. exists pm'. split; [done|]. by destruct Hf.
  - unfold onDropped. destruct (IsBan err); [|by exists pm]. destruct (removePeer_ok pm id Hok) as (pm' & -> & Hok' & _ & _ & _ & Hs & _). by exists pm'.
Qed.

(** The same for every operation, with the window of open epochs. *)
Definition step_spec pm (op : pm_op) : Prop :=
  match open_epochs (store_window (pm_store pm)) (lookups op) with
  | Some w => exists pm', pm_do pm op = Ret pm' /\ pm_ok pm' /\ store_open (pm_store pm') /\
                store_window (pm_store pm') = match op with ServiceWrites store => store_window store | _ => w end
  | None => exists msg, pm_do pm op = Fault (PanicMsg msg)
  end.

Lemma set_store_ok pm (g : GStore) : pm_ok pm -> pm_ok (set_store pm g).
Proof. by intros [H1 H2]. Qed.

Lemma in_store_spec {X} pm (r : go (X * GStore)) (w : option (Z * Z)) : pm_ok pm ->
  match w with Some w => exists x g, r = Ret (x, g) /\ store_open g /\ store_window g = w | None => exists msg, r = Fault (PanicMsg msg) end ->
  match w with
  | Some w => exists pm', (r ← in_store pm r; Ret r.2) = Ret pm' /\ pm_ok pm' /\ store_open (pm_store pm') /\ store_window (pm_store pm') = w
  | None => exists msg, (r ← in_store pm r; Ret r.2) = Fault (PanicMsg msg)
  end.
Proof.
  intros Hok. destruct w as [w|]; unfold in_store; [|intros [msg ->]; by exists msg].
  intros (x & g & -> & Ho & <-). exists (set_store pm g). split; [done|]. split; [by apply set_store_ok|done].
Qed.

Lemma looked_up_one (id : hash) (epoch : Z) : hash_Epoch id = Ret epoch -> looked_up (fun _ _ => true) [id] = [epoch].
Proof. intros He. unfold looked_up. cbn. by rewrite He. Qed.

Lemma open_one (w : Z * Z) (epoch : Z) : open_epochs w [epoch] = op_window w (OpGet epoch).
Proof. cbn [open_epochs]. by destruct (op_window w (OpGet epoch)). Qed.

Lemma pm_do_step pm (op : pm_op) : pm_ok pm -> store_open (pm_store pm) -> enabled pm op -> step_spec pm op.
Proof.
  intros Hok Ho Hen. pose proof (pm_do_ok pm op Hok Hen) as Hdo. unfold step_spec.
  destruct op; try (destruct Hdo as (pm' & -> & Hok' & Hs); cbn [lookups open_epochs]; exists pm'; by rewrite Hs); clear Hdo; cbn [lookups enabled pm_do] in *.
  - by apply in_store_spec, onlyNotConnected_window.
  - by apply in_store_spec, onlyInterested_window.
  - destruct (is_hash_Epoch id Hen) as (epoch & He & Hu). rewrite (looked_up_one id epoch He), open_one. apply in_store_spec; [done|].
    unfold HasEventHeader. rewrite He, go_bind_Ret. by apply from_epoch_window.
  - destruct (is_hash_Epoch id Hen) as (epoch & He & Hu). rewrite (looked_up_one id epoch He), open_one. unfold bufferGet. rewrite He, go_bind_Ret.
    apply in_store_spec; [done|]. by apply from_epoch_window.
  - eexists. split; [reflexivity|]. by split; [apply set_store_ok|].
Qed.

Lemma new_ok (store : GStore) (maxPeers : Z) : pm_ok (NewProtocolManager store maxPeers).
Proof. by split; intros ? ?. Qed.

Lemma reachable_ok (store : GStore) (maxPeers : Z) pm : reachable store maxPeers pm -> pm_ok pm /\ store_open (pm_store pm).
Proof.
  induction 1 as [|pm pm' op _ [IH1 IH2] Hen Hdo]; [by split; [apply new_ok|]|]. pose proof (pm_do_step pm op IH1 IH2 Hen) as Hs. unfold step_spec in Hs.
  destruct (open_epochs _ _); [|destruct Hs as [msg Hs]; congruence]. destruct Hs as (pm2 & Hdo' & Hok & Ho & _). rewrite Hdo in Hdo'. by injection Hdo' as <-.
Qed.

(** C18: what a peer can do to the manager.  In every state that is reached by connections, messages of any kind with any
    decoded content, dropped peers, broadcasts, requests, new packs and epochs, the callbacks of the downloaders, the fetcher
    and the buffer, and writes of the service to the store, in any order, each further step returns without a panic,
    except for one case: it looks up events by the epochs that their hashes carry, and one of these epochs can not be
    opened, because it is past the one after the running ones, or the next one while five are open; then the step panics.
    Otherwise no channel is closed twice and no missing object is read; the lookups leave open the window of epochs
    that [open_epochs] says; each id of the peer set points at an open connection of that id, and every
    connection, registered or not, remembers at most 24576 transactions and 16384 events and queues at most 128 batches of
    each kind. *)
Theorem manager_panics_only_at_far_epochs (store : GStore) (maxPeers : Z) pm (op : pm_op) : reachable store maxPeers pm -> enabled pm op ->
  match open_epochs (store_window (pm_store pm)) (lookups op) with
  | None => exists msg, pm_do pm op = Fault (PanicMsg msg)
  | Some w => exists pm', pm_do pm op = Ret pm' /\
    store_window (pm_store pm') = match op with ServiceWrites store => store_window store | _ => w end /\
    (forall id c, ps_peers (pm_peers pm') !! id = Some c -> exists p, pm_objs pm' !! c = Some p /\ p_id p = id /\ term p = false) /\
    forall c p, pm_objs pm' !! c = Some p -> Z.of_nat (size (knownTxs p)) <= 24576 /\ Z.of_nat (size (knownEvents p)) <= 16384 /\
      zlen (queuedTxs p) <= 128 /\ zlen (queuedProps p) <= 128 /\ zlen (queuedAnns p) <= 128
  end.
Proof.
  intros Hr Hen. destruct (reachable_ok _ _ pm Hr) as [Hok Ho]. pose proof (pm_do_step pm op Hok Ho Hen) as Hs. unfold step_spec in Hs.
  destruct (open_epochs _ _) as [w|]; [|exact Hs]. destruct Hs as (pm' & Hdo & Hok' & _ & Hw). exists pm'. split; [done|]. split; [exact Hw|]. split; [apply Hok'|].
  intros c p Hp. by destruct (pm_bounded pm' Hok' c p Hp).
Qed.

(** C20: an event is offered to every interested peer, once.  In every reachable state BroadcastEvent returns, and there is
    a list, without duplicates, of exactly the registered connections whose epoch fits the event and that do not know
    it; the first ones of it, as many as decideBroadcastAggressiveness says, get the event queued in full, the others its
    hash, and no other connection and nothing else changes.  A connection that took the event or the hash knows the event from
    then on, unless it knows so many that an arbitrary one is forgotten; so a broadcast of the same event does not reach
    it again.  Only a full queue drops what is offered. *)
Theorem broadcast_offers_to_all (store : GStore) (maxPeers : Z) pm (e : GEvent) (passed : Z) : reachable store maxPeers pm -> is_u32 (Epoch (ge_header e)) ->
  exists l pm', let id := GHash event_Hash e in
    let k := decideBroadcastAggressiveness config (event_Size e) (Z.max passed 0) (zlen l) in
    BroadcastEvent event_Hash event_Size pop rangePeers config pm e passed = Ret (zlen l, pm') /\ pm' = set_objs pm (pm_objs pm') /\
    NoDup l /\ 0 <= k <= zlen l /\
    (forall c, c ∈ l <-> (exists i, ps_peers (pm_peers pm) !! i = Some c) /\ exists p, pm_objs pm !! c = Some p /\ InterestedIn p id = Ret true) /\
    (forall c p, pm_objs pm !! c = Some p -> exists p', pm_objs pm' !! c = Some p' /\
       (c ∈ take (Z.to_nat k) l -> queued_full event_Hash e p p') /\ (c ∈ drop (Z.to_nat k) l -> queued_hash id p p') /\ (c ∉ l -> p' = p)) /\
    forall c p p', c ∈ l -> pm_objs pm !! c = Some p -> pm_objs pm' !! c = Some p' -> zlen (queuedProps p) < 128 -> zlen (queuedAnns p) < 128 ->
      Z.of_nat (size (knownEvents p)) < 16383 -> InterestedIn p' id = Ret false.
Proof.
  intros Hr Hu. assert (returns (hash_Epoch (GHash event_Hash e))) as Hret by (eexists; by apply hash_epoch).
  destruct (BroadcastEvent_ok event_Hash event_Size pop rangePeers config pop_in rangePeers_perm pm e passed (proj1 (reachable_ok _ _ pm Hr)) Hret)
    as (l & pm' & Hrun & _ & Hs & Hnd & Hin & Hk & Hobj). exists l, pm'. cbv zeta in *. split; [exact Hrun|]. split; [exact Hs|]. split; [done|]. split; [done|]. split; [|split; [exact Hobj|]].
  - intros c. rewrite Hin. unfold interested. by rewrite (elem_of_List rangePeers rangePeers_perm).
  - intros c p p' Hc Hp Hp' Hq1 Hq2 Hsz. destruct (Hobj c p Hp) as (p2 & Hp2 & H1 & H2 & _). rewrite Hp' in Hp2. injection Hp2 as <-.
    assert (GHash event_Hash e ∈ knownEvents p') as Hknown.
    { rewrite <-(take_drop (Z.to_nat (decideBroadcastAggressiveness config (event_Size e) (Z.max passed 0) (zlen l))) l) in Hc. apply elem_of_app in Hc as [Hc|Hc].
      - specialize (H1 Hc). unfold queued_full in H1. change maxQueuedProps with 128 in H1. rewrite (proj2 (Z.ltb_lt _ _) Hq1) in H1. destruct H1 as (k & -> & Hk'). cbn. rewrite Hk' by done. set_solver.
      - specialize (H2 Hc). unfold queued_hash in H2. change maxQueuedAnns with 128 in H2. rewrite (proj2 (Z.ltb_lt _ _) Hq2) in H2. destruct H2 as (k & -> & Hk'). cbn. rewrite Hk' by done. set_solver. }
    unfold InterestedIn. unfold GHash in *. rewrite hash_epoch by done. cbn [mbind go_bind]. rewrite (bool_decide_eq_true_2 _ Hknown). by rewrite !andb_false_r.
Qed.

(** ** The response to a request *)

Lemma collect_spec {K} (get : K -> option bytes) (keys : list K) (size : Z) : size < softResponseLimitSize ->
  exists j, collect get keys size = take j (omap (fun k => pair k <$> get k) keys) /\
    (forall i, (i < j)%nat -> size + zsum (zlen <$> take i (omap (fun k => get k) keys)) < softResponseLimitSize) /\
    (j = length (omap (fun k => pair k <$> get k) keys) \/ softResponseLimitSize <= size + zsum (zlen <$> take j (omap (fun k => get k) keys))).
Proof.
  revert size. induction keys as [|k keys IH]; intros size Hs; cbn [collect omap list_omap]; [exists 0%nat; split; [done|]; split; [lia|by left]|].
  destruct (get k) as [raw|] eqn:Hg; cbn [fmap option_fmap option_map].
  - destruct (Z.leb_spec softResponseLimitSize (size + zlen raw)) as [Hfull|Hroom].
    + exists 1%nat. cbn [take]. split; [by rewrite take_0|]. split; [|right; rewrite take_0; cbn; unfold zsum; cbn; lia].
      intros i Hi. assert (i = 0%nat) as -> by lia. cbn. unfold zsum. cbn. lia.
    + destruct (IH (size + zlen raw) Hroom) as (j & -> & Hlow & Hend). exists (S j). cbn [take length]. split; [done|]. split.
      * intros [|i] Hi; cbn [take fmap list_fmap]; [unfold zsum; cbn; lia|]. specialize (Hlow i ltac:(lia)). unfold zsum in *. cbn in *. lia.
      * destruct Hend as [->|Hend]; [by left|right]. cbn [fmap list_fmap]. unfold zsum in *. cbn in *. lia.
  - rewrite (proj2 (Z.leb_gt _ _) Hs). apply IH. done.
Qed.

(** C19: a request of events is answered with what was asked.  A message with more than 1000 hashes or none ends the
    connection and changes nothing.  Otherwise the manager looks the hashes up in the order of the request; if it has none of the events it
    sends nothing; else it sends one message, with the encodings of the events found, in order: all of them, or as many as
    it takes to reach the limit of 2 MiB, so that what is sent exceeds the limit by less than the last event. *)
Theorem events_request_answered pm (c : nat) (p : peer) (en : EngineView) (overloaded : bool) (msg : Msg M) (requests : list hash) :
  pm_objs pm !! c = Some p -> msg_Code msg = GetEventsMsg -> msg_Size msg <= protocolMaxMsgSize -> decode_Hashes (msg_Payload msg) = Some requests ->
  let run := handleMsg event_Hash pop network event_RLP packInfo_RLP en overloaded pm c msg in
  let found := omap (GetEventRLP event_RLP (pm_store pm)) requests in
  (requests = [] -> run = Ret (Some ErrEmptyMessage, pm)) /\ (1000 < zlen requests -> run = Ret (Some ErrMsgTooLarge, pm)) /\
  (1 <= zlen requests <= 1000 -> exists pm', run = Ret (None, pm') /\
    (found = [] -> pm' = pm) /\
    (found <> [] -> exists j p', (0 < j)%nat /\ pm' = put_peer pm c p' /\
       wire p' = (if network (p_id p) (wire p) (SendEventsRaw (take j found)) then wire p ++ [SendEventsRaw (take j found)] else wire p) /\
       (forall i, (i < j)%nat -> zsum (zlen <$> take i found) < 2097152) /\ (j = length found \/ 2097152 <= zsum (zlen <$> take j found)))).
Proof.
  intros Hp Hcode Hsize Hdec. cbv zeta. unfold handleMsg. rewrite (proj2 (Z.ltb_ge _ _) Hsize), Hcode. unfold read_peer at 1 2 3. rewrite Hp. cbn [mbind go_bind].
  change (GetEventsMsg =? EthStatusMsg) with false. change (GetEventsMsg =? ProgressMsg) with false. change (GetEventsMsg =? NewEventHashesMsg) with false.
  change (GetEventsMsg =? EventsMsg) with false. change (GetEventsMsg =? EvmTxMsg) with false. change (GetEventsMsg =? GetEventsMsg) with true. cbv iota. rewrite Hdec. unfold checkLenLimits.
  change hardLimitItems with 1000. split; [by intros ->|]. split.
  - intros Hn. rewrite (proj2 (Z.leb_gt _ _)), (proj2 (Z.ltb_lt _ _)) by lia. done.
  - intros Hn. rewrite (proj2 (Z.leb_gt _ _)), (proj2 (Z.ltb_ge _ _)) by lia. unfold onGetEvents.
    set (get := GetEventRLP event_RLP (pm_store pm)). destruct (collect_spec get requests 0 ltac:(done)) as (j & -> & Hlow & Hend).
    assert (omap (fun k => pair k <$> get k) requests = [] <-> omap get requests = []) as Hnil.
    { clear. induction requests as [|k l IH]; [done|]. cbn. by destruct (get k). }
    assert ((omap (fun k => pair k <$> get k) requests).*2 = omap get requests) as Hsnd.
    { clear. induction requests as [|k l IH]; [done|]. cbn. destruct (get k); cbn; by rewrite IH. }
    assert (length (omap (fun k => pair k <$> get k) requests) = length (omap get requests)) as Hlen by (by rewrite <-Hsnd, length_fmap).
    destruct (decide (omap get requests = [])) as [Hno|Hsome].
    + rewrite (proj2 Hnil Hno), take_nil. cbn. exists pm. by split_and!.
    + assert (0 < j)%nat as Hj. { destruct j; [|lia]. exfalso. destruct Hend as [Hend|Hend]; [|unfold zsum in Hend; cbn in Hend; done]. apply Hsome, nil_length_inv. by rewrite <-Hlen. }
      rewrite bool_decide_eq_false_2.
      2:{ intros Ht. apply (f_equal length) in Ht. rewrite length_take in Ht. cbn in Ht. destruct (omap get requests) eqn:Ho; [done|]. cbn in Hlen. lia. }
      unfold read_peer. rewrite Hp. cbn [mbind go_bind]. unfold SendEventsRLP.
      destruct (add_each_ok pop pop_in p (take j (omap (fun k => pair k <$> get k) requests)).*1) as (k & -> & _). cbn [mbind go_bind].
      rewrite fmap_take, Hsnd. eexists. split; [reflexivity|]. split; [done|]. intros _. eexists j, _. split; [done|]. split; [reflexivity|]. split; [|split].
      * unfold p2p_Send. cbn. by destruct (network _ _ _).
      * intros i Hi. specialize (Hlow i Hi). exact Hlow.
      * rewrite Hlen in Hend. exact Hend.
Qed.

(** ** A dropped peer *)

(** a dropped peer can leave a downloader behind.  When another part dropped the peer (removePeer) while its
    connection is still read, a progress message that is handled afterwards registers a downloader for it again, if
    there is one of the six places left; the removePeer at the end of the connection finds no registered peer and does
    nothing, so the downloader stays and keeps the place. *)
Theorem dropped_peer_leaks pm (c : nat) (p : peer) (en : EngineView) (overloaded : bool) (msg : Msg M) (x : PeerProgress) :
  pm_objs pm !! c = Some p -> ps_peers (pm_peers pm) !! p_id p = None ->
  pk_peers (pm_downloader pm) !! p_id p = None -> pk_terminated (pm_downloader pm) = false -> Z.of_nat (size (pk_peers (pm_downloader pm))) < 6 ->
  msg_Code msg = ProgressMsg -> msg_Size msg <= protocolMaxMsgSize -> decode_Progress (msg_Payload msg) = Some x -> en_Epoch en <= pp_Epoch x ->
  exists pm', handleMsg event_Hash pop network event_RLP packInfo_RLP en overloaded pm c msg = Ret (None, pm') /\
    removePeer pm' (p_id p) = Ret pm' /\ ps_peers (pm_peers pm') !! p_id p = None /\ is_Some (PacksDl.Peer (pm_downloader pm') (p_id p)).
Proof.
  intros Hp Hreg Hdl Hterm Hsize Hcode Hmsg Hdec Hepoch. unfold handleMsg. rewrite (proj2 (Z.ltb_ge _ _) Hmsg), Hcode. unfold read_peer at 1. rewrite Hp. cbn [mbind go_bind].
  change (ProgressMsg =? EthStatusMsg) with false. change (ProgressMsg =? ProgressMsg) with true. cbv iota. rewrite Hdec. unfold onProgress, read_peer. rewrite Hp. cbn [mbind go_bind].
  set (pm1 := if pp_Epoch x =? en_Epoch en then _ else _).
  assert (pm_downloader pm1 = pm_downloader pm /\ pm_peers pm1 = pm_peers pm) as [Ed Ep] by (unfold pm1; by destruct (_ =? _)).
  assert (exists k, PacksDl.RegisterPeer (pm_downloader pm1) (p_id p) (pp_Epoch x) (en_Epoch en) = k /\ is_Some (PacksDl.Peer k (p_id p))) as (k & -> & Hk).
  { eexists. split; [done|]. rewrite Ed. unfold PacksDl.RegisterPeer, PacksDl.Peer. rewrite (proj2 (Z.ltb_ge _ _) Hepoch), Hterm, (bool_decide_eq_true_2 _ Hdl). cbn [negb orb].
    change maxPeers with 6. rewrite (proj2 (Z.leb_gt _ _) Hsize). cbn. rewrite lookup_insert_eq. by eexists. }
  eexists. split; [reflexivity|]. cbn [pm_downloader set_downloader]. set (b := bool_decide _ && _).
  assert (ps_peers (pm_peers pm) !! p_id p = None) as Hn by done. rewrite <-Ep in Hn. unfold removePeer. destruct b; cbn [pm_peers act set_downloader pm_downloader]; rewrite Hn; by split_and!.
Qed.

End steps.

(** * An example: two peers, with messages that are decoded already *)

Inductive toy_message := ToyProgress (x : PeerProgress) | ToyHashes (ids : list hash) | ToyNothing.
#[local] Instance toy_rlp : Rlp toy_message := {|
  decode_Progress := fun m => match m with ToyProgress x => Some x | _ => None end;
  decode_Hashes := fun m => match m with ToyHashes ids => Some ids | _ => None end;
  decode_Events := fun _ => None; decode_Txs := fun _ => None; decode_GetPackInfos := fun _ => None; decode_GetPack := fun _ => None;
  decode_PackInfos := fun _ => None; decode_Pack := fun _ => None |}.

Definition toy_pop (s : gset hash) : hash := default [] (head (elements s)).
Lemma toy_pop_in (s : gset hash) : s <> ∅ -> toy_pop s ∈ s.
Proof.
  intros Hs. unfold toy_pop. destruct (elements s) as [|h l] eqn:He; [by apply elements_empty_inv in He as He%leibniz_equiv|]. cbn. apply elem_of_elements. rewrite He. by left.
Qed.

Definition toy_network (id : string) (sent : list message) (m : message) : bool := true.
Definition toy_protocol : ProtocolConfig := mkProtocolConfig 1 1 1.
Definition toy_view : EngineView := mkEngineView 1 (0, ZeroHash) ZeroHash.
Definition toy_progress : PeerProgress := mkPeerProgress 1 0 (mkPackInfo 1 0 0 []) ZeroHash.
Definition toy_raw (e : GEvent) : bytes := [Seq (ge_header e)].
Definition toy_store : GStore := set_Events toy_gstore {[ toy_event_hash (toy_header 1 []) := toy_e1 ]}.

#[local] Abbreviation range_peers := (map_to_list (K := string) (A := nat) (M := gmap string nat)).
#[local] Abbreviation range_txset := (map_to_list (K := nat) (A := list EthTx) (M := gmap nat (list EthTx))).
#[local] Abbreviation toy_do := (pm_do toy_event_hash toy_size toy_pop toy_network range_peers range_txset toy_raw (fun _ => []) toy_protocol).
#[local] Abbreviation toy_reachable := (reachable toy_event_hash toy_size toy_pop toy_network range_peers range_txset toy_raw (fun _ => []) toy_protocol toy_store 10).
#[local] Abbreviation toy_msg x := (mkMsg ProgressMsg 10 (ToyProgress x)).

Definition then_ (pm : ProtocolManager) (op : pm_op (M := toy_message)) : ProtocolManager := match toy_do pm op with Ret pm' => pm' | Fault _ => pm end.

(** Two connections, each with its progress. *)
Definition toy_a : ProtocolManager := then_ (NewProtocolManager toy_store 10) (Connect 0 "a" 62 false None).
Definition toy_ab : ProtocolManager := then_ toy_a (Connect 1 "b" 62 false None).
Definition toy_ab1 : ProtocolManager := then_ toy_ab (Message 0 toy_view false (toy_msg toy_progress)).
Definition toy_ab2 : ProtocolManager := then_ toy_ab1 (Message 1 toy_view false (toy_msg toy_progress)).

Lemma toy_step (pm : ProtocolManager) (op : pm_op (M := toy_message)) : toy_reachable pm -> enabled pm op -> lookups op = [] -> toy_reachable (then_ pm op).
Proof.
  intros Hr He Hl. destruct (reachable_ok toy_event_hash toy_size toy_pop toy_network range_peers range_txset toy_raw (fun _ => []) toy_protocol
      toy_pop_in (fun _ => reflexivity _) (fun _ => reflexivity _) toy_hash_epoch toy_store 10 pm Hr) as [Hok Ho].
  pose proof (pm_do_step toy_event_hash toy_size toy_pop toy_network range_peers range_txset toy_raw (fun _ => []) toy_protocol
    toy_pop_in (fun _ => reflexivity _) (fun _ => reflexivity _) toy_hash_epoch pm op Hok Ho He) as Hs. unfold step_spec in Hs. rewrite Hl in Hs. cbn in Hs.
  destruct Hs as (pm' & Hd & _). unfold then_. rewrite Hd. by eapply reach_step.
Qed.

Lemma toy_store_open : store_open toy_store /\ store_window toy_store = (1, 2).
Proof. apply store_open_window; [exact toy_window|lia]. Qed.

Lemma toy_ab2_reachable : toy_reachable toy_ab2.
Proof.
  apply toy_step; [|vm_compute; by eexists|done]. apply toy_step; [|vm_compute; by eexists|done]. apply toy_step; [|vm_compute; reflexivity|done].
  apply toy_step; [apply reach_new, toy_store_open|vm_compute; reflexivity|done].
Qed.

(** The hashes of an event of the next epoch and of one of epoch seven, while the first epoch runs. *)
Definition next_hash : hash := [0; 0; 0; 2] ++ replicate 28 0.
Definition far_hash : hash := [0; 0; 0; 7] ++ replicate 28 0.

Lemma is_hash_repeat (epoch : Z) : 0 <= epoch < 256 -> is_hash ([0; 0; 0; epoch] ++ replicate 28 0).
Proof.
  intros He. split; [done|]. apply Forall_app. split; [|apply Forall_replicate; unfold is_u8; lia].
  do 4 (apply Forall_cons; split; [unfold is_u8; lia|]). done.
Qed.

(** A hash that the node does not have, announced by a peer, and the hashes in a pack that a peer describes: the lookup of the
    first one opens the databases of epoch 2, that of the other one panics. *)
Lemma manager_panics_only_at_far_epochs_witness :
  (exists pm', toy_do toy_ab2 (Message 0 toy_view false (mkMsg NewEventHashesMsg 40 (ToyHashes [replicate 32 1]))) = Ret pm' /\
     pm_actions pm' = pm_actions toy_ab2 ++ [FetcherNotify "a" [replicate 32 1]] /\ forall c p, pm_objs pm' !! c = Some p -> Z.of_nat (size (knownTxs p)) <= 24576) /\
  (exists pm', toy_do toy_ab2 (NotConnected [next_hash]) = Ret pm' /\ store_window (pm_store pm') = (1, 3)) /\
  exists msg, toy_do toy_ab2 (NotConnected [far_hash]) = Fault (PanicMsg msg).
Proof.
  pose proof (fun op => manager_panics_only_at_far_epochs toy_event_hash toy_size toy_pop toy_network range_peers range_txset toy_raw (fun _ => []) toy_protocol
    toy_pop_in (fun _ => reflexivity _) (fun _ => reflexivity _) toy_hash_epoch toy_store 10 toy_ab2 op toy_ab2_reachable) as Hthm.
  assert (store_window (pm_store toy_ab2) = (1, 2)) as Hw by (vm_compute; reflexivity).
  split; [|split].
  - destruct (Hthm (Message 0 toy_view false (mkMsg NewEventHashesMsg 40 (ToyHashes [replicate 32 1])))) as (pm' & Hd & _ & _ & Hb); [vm_compute; by eexists|].
    exists pm'. split; [exact Hd|]. split; [|intros c p Hp; apply (Hb c p Hp)].
    assert (match toy_do toy_ab2 (Message 0 toy_view false (mkMsg NewEventHashesMsg 40 (ToyHashes [replicate 32 1]))) with
      | Ret pm => pm_actions pm = pm_actions toy_ab2 ++ [FetcherNotify "a" [replicate 32 1]] | Fault _ => False end) as He by (vm_compute; reflexivity).
    rewrite Hd in He. exact He.
  - specialize (Hthm (NotConnected [next_hash]) ltac:(apply Forall_singleton, (is_hash_repeat 2); lia)). rewrite Hw in Hthm.
    assert (open_epochs (1, 2) (lookups (M := toy_message) (NotConnected [next_hash])) = Some (1, 3)) as Hl by (vm_compute; reflexivity). rewrite Hl in Hthm.
    destruct Hthm as (pm' & Hd & Hw' & _). by exists pm'.
  - specialize (Hthm (NotConnected [far_hash]) ltac:(apply Forall_singleton, (is_hash_repeat 7); lia)). rewrite Hw in Hthm.
    assert (open_epochs (1, 2) (lookups (M := toy_message) (NotConnected [far_hash])) = None) as Hl by (vm_compute; reflexivity). rewrite Hl in Hthm. exact Hthm.
Defined.

Lemma broadcast_offers_to_all_witness : exists l pm',
  BroadcastEvent toy_event_hash toy_size toy_pop range_peers toy_protocol toy_ab2 toy_e1 0 = Ret (zlen l, pm') /\ zlen l = 2 /\
  forall c p p', c ∈ l -> pm_objs toy_ab2 !! c = Some p -> pm_objs pm' !! c = Some p' -> zlen (queuedProps p) < 128 -> zlen (queuedAnns p) < 128 ->
      Z.of_nat (size (knownEvents p)) < 16383 -> InterestedIn p' (GHash toy_event_hash toy_e1) = Ret false.
Proof.
  destruct (broadcast_offers_to_all toy_event_hash toy_size toy_pop toy_network range_peers range_txset toy_raw (fun _ => []) toy_protocol
    toy_pop_in (fun _ => reflexivity _) (fun _ => reflexivity _) toy_hash_epoch toy_store 10 toy_ab2 toy_e1 0 toy_ab2_reachable) as (l & pm' & Hd & _ & _ & _ & _ & _ & Hend); [done|].
  exists l, pm'. split; [exact Hd|]. split; [|exact Hend].
  assert (match BroadcastEvent toy_event_hash toy_size toy_pop range_peers toy_protocol toy_ab2 toy_e1 0 with Ret r => r.1 = 2 | Fault _ => False end) as He by (vm_compute; reflexivity).
  rewrite Hd in He. exact He.
Defined.

(** Peer a asks for an event that the node has and one that it does not have. *)
Lemma events_request_answered_witness : exists pm' j p', (0 < j)%nat /\
  handleMsg toy_event_hash toy_pop toy_network toy_raw (fun _ => []) toy_view false toy_ab2 0 (mkMsg GetEventsMsg 70 (ToyHashes [replicate 32 1; toy_event_hash (toy_header 1 [])])) = Ret (None, pm') /\
  pm' = put_peer toy_ab2 0 p' /\ wire p' = [SendEventsRaw (take j [[1]])].
Proof.
  destruct (pm_objs toy_ab2 !! 0%nat) as [p|] eqn:Hp; [|by exfalso; vm_compute in Hp].
  destruct (events_request_answered toy_event_hash toy_pop toy_network toy_raw (fun _ => []) toy_pop_in toy_ab2 0 p toy_view false
    (mkMsg GetEventsMsg 70 (ToyHashes [replicate 32 1; toy_event_hash (toy_header 1 [])])) [replicate 32 1; toy_event_hash (toy_header 1 [])] Hp eq_refl ltac:(by vm_compute) eq_refl)
    as (_ & _ & Hans). destruct (Hans ltac:(by vm_compute)) as (pm' & Hrun & _ & Hsome).
  assert (omap (GetEventRLP toy_raw (pm_store toy_ab2)) [replicate 32 1; toy_event_hash (toy_header 1 [])] = [[1]]) as Hf by (vm_compute; reflexivity).
  rewrite Hf in Hsome. destruct (Hsome ltac:(done)) as (j & p' & Hj & Hpm & Hw & _). exists pm', j, p'. split; [done|]. split; [exact Hrun|]. split; [done|].
  rewrite Hw. unfold toy_network. assert (wire <$> pm_objs toy_ab2 !! 0%nat = Some []) as Hwire by (vm_compute; reflexivity). rewrite Hp in Hwire. by injection Hwire as ->.
Defined.

(** Peer a is dropped, and its last message is read after that. *)
Definition toy_dropped : ProtocolManager := then_ toy_ab (Remove "a").

Lemma dropped_peer_leaks_witness : exists p pm', pm_objs toy_dropped !! 0%nat = Some p /\
  handleMsg toy_event_hash toy_pop toy_network toy_raw (fun _ => []) toy_view false toy_dropped 0 (toy_msg toy_progress) = Ret (None, pm') /\
  removePeer pm' (p_id p) = Ret pm' /\ is_Some (PacksDl.Peer (pm_downloader pm') (p_id p)).
Proof.
  destruct (pm_objs toy_dropped !! 0%nat) as [p|] eqn:Hp; [|by exfalso; vm_compute in Hp].
  assert (p_id <$> pm_objs toy_dropped !! 0%nat = Some "a"%string) as Hid by (vm_compute; reflexivity). rewrite Hp in Hid. injection Hid as Hid.
  destruct (dropped_peer_leaks toy_event_hash toy_pop toy_network toy_raw (fun _ => []) toy_dropped 0 p toy_view false (toy_msg toy_progress) toy_progress Hp) as (pm' & Hrun & Hrem & _ & Hdl);
    [rewrite Hid; vm_compute; reflexivity|rewrite Hid; vm_compute; reflexivity|vm_compute; reflexivity|by vm_compute|done|by vm_compute|done|done|].
  exists p, pm'. by split_and!.
Defined.
