(* ===== verification/TxSync.v ===== *)
(** * The transactions for a new peer: gossip/sync.go

    A new peer gets all the pending transactions of the pool, in packs of about 100 KiB; one pack to one peer is on
    its way at a time.  A step is a turn of txsyncLoop; the peer that gets the next pack is a random choice.  What is
    sent is listed. *)

From S2P Require Import Prelude Bytes Event StateTransition.

Definition txsyncPackSize : Z := 100 * 1024.

(** A transfer: the connection, the node at its other end, and what is left to send. *)
Record txsync := mkTxsync { ts_p : nat; ts_ID : string; ts_txs : list EthTx }.

Record loop := mkLoop {
  pending : gmap string txsync;
  sending : bool;
  pack : option txsync;                    (* the pack that is being sent, none before the first *)
  sent : list (nat * list EthTx)           (* the sends that were started *)
}.
Definition txsyncLoop : loop := mkLoop ∅ false None [].

(** syncTransactions: the batches that the pool has pending, in the order of the map. *)
Definition syncTransactions (p : nat) (id : string) (batches : list (list EthTx)) : option txsync :=
  let txs := mjoin batches in if bool_decide (txs = []) then None else Some (mkTxsync p id txs).

(** What happens to the loop. *)
Inductive loop_case :=
  | TxsyncCh (s : txsync)
  | Done (ok : bool) (choice : string).

Section loop.
Context (tx_Size : EthTx -> Z).

(** for i := 0; i < len(s.txs) && size < txsyncPackSize; i++ *)
Fixpoint fill (txs : list EthTx) (size : Z) : list EthTx :=
  match txs with
  | [] => []
  | tx :: txs => if size <? txsyncPackSize then tx :: fill txs (size + tx_Size tx) else []
  end.

Definition send (l : loop) (s : txsync) : loop :=
  let txs := fill (ts_txs s) 0 in
  let rest := drop (length txs) (ts_txs s) in
  let s' := mkTxsync (ts_p s) (ts_ID s) rest in
  mkLoop (if bool_decide (rest = []) then delete (ts_ID s) (pending l) else <[ts_ID s := s']> (pending l)) true
    (Some (mkTxsync (ts_p s) (ts_ID s) txs)) (sent l ++ [(ts_p s, txs)]).

(** pick: none when nothing is pending. *)
Definition pick (l : loop) (choice : string) : option txsync := pending l !! choice.

Definition turn (l : loop) (c : loop_case) : loop :=
  match c with
  | TxsyncCh s =>
    let l := mkLoop (<[ts_ID s := s]> (pending l)) (sending l) (pack l) (sent l) in
    if sending l then l else send l s
  | Done ok choice =>
    let pend := if ok : bool then pending l else match pack l with Some s => delete (ts_ID s) (pending l) | None => pending l end in
    let l := mkLoop pend false (pack l) (sent l) in
    match pick l choice with Some s => send l s | None => l end
  end.

(** syncTransactions does not ask for an empty transfer, a send ends once, and the choice is among what is pending. *)
Definition turn_enabled (l : loop) (c : loop_case) : Prop :=
  match c with
  | TxsyncCh s => ts_txs s <> []
  | Done ok choice =>
    sending l = true /\
    let pend := if ok : bool then pending l else match pack l with Some s => delete (ts_ID s) (pending l) | None => pending l end in
    pend <> ∅ -> is_Some (pend !! choice)
  end.

(** ** What was asked for, and which transfers were cut short *)

Record history := mkHistory { asked : gmap nat (list EthTx); cut_short : gset nat }.

(** A new transfer of a node replaces the old one; a failed send gives up what is pending for its node, even if the node
    has connected anew. *)
Definition observe (h : history) (l : loop) (c : loop_case) : history :=
  match c with
  | TxsyncCh s =>
    mkHistory (<[ts_p s := ts_txs s]> (asked h)) (match pending l !! ts_ID s with Some s' => {[ts_p s']} ∪ cut_short h | None => cut_short h end)
  | Done ok _ =>
    mkHistory (asked h) (if ok : bool then cut_short h else
      match pack l with Some s => match pending l !! ts_ID s with Some s' => {[ts_p s']} ∪ cut_short h | None => cut_short h end | None => cut_short h end)
  end.

Definition fresh_case (h : history) (c : loop_case) : Prop := match c with TxsyncCh s => asked h !! ts_p s = None | Done _ _ => True end.

Inductive runs : loop -> history -> Prop :=
  | runs_start : runs txsyncLoop (mkHistory ∅ ∅)
  | runs_turn l h c : runs l h -> turn_enabled l c -> fresh_case h c -> runs (turn l c) (observe h l c).

(** What was sent over a connection. *)
Definition sent_to (l : loop) (c : nat) : list EthTx := mjoin ((filter (fun x : nat * list EthTx => x.1 = c) (sent l)).*2).

(** ** Packs *)

Lemma fill_prefix (txs : list EthTx) (size : Z) : fill txs size = take (length (fill txs size)) txs.
Proof.
  revert size. induction txs as [|t txs IH]; intros size; [done|]. cbn [fill]. destruct (size <? txsyncPackSize); [|done]. cbn [length take]. by rewrite <-IH.
Qed.

Lemma fill_nonempty (txs : list EthTx) : txs <> [] -> fill txs 0 <> [].
Proof. by destruct txs. Qed.

Lemma fill_split (txs : list EthTx) : fill txs 0 ++ drop (length (fill txs 0)) txs = txs.
Proof. rewrite fill_prefix at 1. apply take_drop. Qed.

(** The pack without its last transaction is below the limit. *)
Lemma fill_size (txs : list EthTx) (size : Z) (i : nat) : size < txsyncPackSize -> (i < length (fill txs size))%nat -> size + zsum (tx_Size <$> take i (fill txs size)) < txsyncPackSize.
Proof.
  revert size i. induction txs as [|t txs IH]; intros size i Hs Hi; [cbn in Hi; lia|]. cbn [fill] in *. rewrite (proj2 (Z.ltb_lt _ _) Hs) in *. destruct i as [|i]; [cbn; lia|]. cbn [length] in Hi.
  cbn [take fmap list_fmap zsum]. destruct (Z.ltb_spec (size + tx_Size t) txsyncPackSize) as [Hlt|Hge].
  - specialize (IH (size + tx_Size t) i Hlt ltac:(lia)). unfold fmap in *. lia.
  - assert (fill txs (size + tx_Size t) = []) as Hn by (destruct txs; cbn; [done|]; by rewrite (proj2 (Z.ltb_ge _ _) Hge)). rewrite Hn in Hi. cbn in Hi. lia.
Qed.

(** ** The invariant *)

Record loop_ok (l : loop) (h : history) : Prop := {
  lo_idle : sending l = false -> pending l = ∅;
  lo_id : forall id s, pending l !! id = Some s -> ts_ID s = id /\ ts_txs s <> [];
  lo_rest : forall id s, pending l !! id = Some s -> exists txs, asked h !! ts_p s = Some txs /\ sent_to l (ts_p s) ++ ts_txs s = txs;
  lo_conn : forall id id' s s', pending l !! id = Some s -> pending l !! id' = Some s' -> ts_p s = ts_p s' -> id = id';
  lo_done : forall c txs, asked h !! c = Some txs -> c ∉ cut_short h -> (forall id s, pending l !! id = Some s -> ts_p s <> c) -> sent_to l c = txs;
  lo_new : forall c, asked h !! c = None -> sent_to l c = [];
  lo_packs : forall c txs, (c, txs) ∈ sent l -> txs <> [] /\ zsum (tx_Size <$> take (length txs - 1) txs) < txsyncPackSize }.

Lemma sent_to_snoc (l : loop) (c d : nat) (txs : list EthTx) pend snd_ pk :
  sent_to (mkLoop pend snd_ pk (sent l ++ [(d, txs)])) c = sent_to l c ++ if decide (d = c) then txs else [].
Proof.
  unfold sent_to. cbn [sent]. rewrite filter_app, fmap_app, join_app. f_equal. destruct (decide (d = c)) as [->|Hne].
  - rewrite filter_cons_True by done. cbn. by rewrite app_nil_r.
  - by rewrite filter_cons_False.
Qed.

(** A send from a pending transfer. *)
Lemma send_ok (l : loop) (h : history) (s : txsync) : pending l !! ts_ID s = Some s ->
  loop_ok (mkLoop (pending l) true (pack l) (sent l)) h -> loop_ok (send l s) h.
Proof.
  intros Hs [_ Hid Hrest Hconn Hdone Hnew Hpacks]. cbn [pending sent] in *. destruct (Hid _ _ Hs) as [_ Hne]. pose proof (fill_split (ts_txs s)) as Hcut. pose proof (fill_nonempty _ Hne) as Hfill.
  pose proof (fill_size (ts_txs s) 0) as Hsz. set (txs := fill (ts_txs s) 0) in *. set (rest := drop (length txs) (ts_txs s)) in *.
  assert (forall c, sent_to (send l s) c = sent_to l c ++ if decide (ts_p s = c) then txs else []) as Hsent by (intros c; unfold send; fold txs; apply sent_to_snoc).
  assert (forall id s', pending (send l s) !! id = Some s' -> (id <> ts_ID s /\ pending l !! id = Some s') \/ (id = ts_ID s /\ s' = mkTxsync (ts_p s) (ts_ID s) rest /\ rest <> [])) as Hpend.
  { intros id s'. unfold send. fold txs. fold rest. cbn [pending]. case_bool_decide; [intros [? ?]%lookup_delete_Some; left; by split|].
    intros [[<- <-]|[? ?]]%lookup_insert_Some; [by right|left; by split]. }
  assert (forall id s', id <> ts_ID s -> pending l !! id = Some s' -> pending (send l s) !! id = Some s') as Hkeep.
  { intros id s' Hn Hl. unfold send. fold txs. fold rest. cbn [pending]. case_bool_decide; [by rewrite lookup_delete_ne|by rewrite lookup_insert_ne]. }
  assert (forall id s', id <> ts_ID s -> pending l !! id = Some s' -> ts_p s' <> ts_p s) as Hother by (intros id s' Hn Hl Heq; apply Hn; by eapply Hconn).
  split; [done| | | | | |].
  - intros id s' [[_ Hl]|(-> & -> & Hr)]%Hpend; [by apply Hid|done].
  - intros id s' [[Hn Hl]|(-> & -> & Hr)]%Hpend; rewrite Hsent.
    + rewrite decide_False, app_nil_r; [by eapply Hrest|]. intros Heq. by apply (Hother id s').
    + cbn [ts_p ts_txs]. rewrite decide_True by done. destruct (Hrest _ _ Hs) as (ts & Ha & He). exists ts. split; [done|]. by rewrite <-(assoc_L (++)), Hcut.
  - intros id id' s1 s2 [[Hn1 Hl1]|(-> & -> & _)]%Hpend [[Hn2 Hl2]|(-> & -> & _)]%Hpend Heq; cbn in Heq; [by eapply Hconn| | |done]; exfalso; [by apply (Hother id s1)|by apply (Hother id' s2)].
  - intros c ts Ha Hc Hno. rewrite Hsent. destruct (decide (ts_p s = c)) as [<-|Hne'].
    + destruct (Hrest _ _ Hs) as (ts' & Ha' & He). rewrite Ha in Ha'. injection Ha' as <-. destruct (decide (rest = [])) as [Hr|Hr].
      * rewrite <-He, <-Hcut, Hr. by rewrite app_nil_r.
      * exfalso. apply (Hno (ts_ID s) (mkTxsync (ts_p s) (ts_ID s) rest)); [|done]. unfold send. fold txs. fold rest. cbn [pending]. rewrite bool_decide_eq_false_2 by done. apply lookup_insert_eq.
    + rewrite app_nil_r. apply Hdone; [done|done|]. intros id s' Hl Heq. destruct (decide (id = ts_ID s)) as [->|Hn]; [rewrite Hs in Hl; injection Hl as <-; done|].
      by apply (Hno id s'); [apply Hkeep|].
  - intros c Ha. rewrite Hsent. destruct (decide (ts_p s = c)) as [<-|]; [destruct (Hrest _ _ Hs) as (ts & Ha' & _); congruence|]. rewrite app_nil_r. by apply Hnew.
  - intros c ts. unfold send. fold txs. cbn [sent]. intros [Hin|Hin%list_elem_of_singleton]%elem_of_app; [by eapply Hpacks|]. injection Hin as -> ->. split; [done|].
    apply (Hsz (length txs - 1)%nat); [done|]. destruct txs; [done|]. cbn. lia.
Qed.

Lemma start_ok : loop_ok txsyncLoop (mkHistory ∅ ∅).
Proof. split; try done. intros c txs Hin. by apply not_elem_of_nil in Hin. Qed.

(** Transfers that are given up. *)
Lemma stop_trying (l : loop) (h : history) (id : string) (snd_ : bool) : loop_ok l h -> (snd_ = false -> delete id (pending l) = ∅) ->
  loop_ok (mkLoop (delete id (pending l)) snd_ (pack l) (sent l)) (mkHistory (asked h) (match pending l !! id with Some s => {[ts_p s]} ∪ cut_short h | None => cut_short h end)).
Proof.
  intros [_ Hid Hrest Hconn Hdone Hnew Hpacks] Hidle. split; cbn [pending sending sent asked cut_short]; [done| | | | |done|done].
  - intros id' s [_ Hl]%lookup_delete_Some. by apply Hid.
  - intros id' s [_ Hl]%lookup_delete_Some. by apply (Hrest id').
  - intros id1 id2 s1 s2 [_ Hl1]%lookup_delete_Some [_ Hl2]%lookup_delete_Some. by apply Hconn.
  - intros c txs Ha Hc Hno. apply Hdone; [done|destruct (pending l !! id); set_solver|]. intros id' s Hl Heq. destruct (decide (id' = id)) as [->|Hn].
    + rewrite Hl in Hc. set_solver.
    + apply (Hno id' s); [by rewrite lookup_delete_ne|done].
Qed.

Lemma idle_send (l : loop) (h : history) (b : bool) : loop_ok l h -> loop_ok (mkLoop (pending l) true (pack l) (sent l)) h.
Proof. intros []. by split. Qed.

Lemma turn_ok (l : loop) (h : history) (c : loop_case) : loop_ok l h -> turn_enabled l c -> fresh_case h c -> loop_ok (turn l c) (observe h l c).
Proof.
  intros Hok Hen Hfresh. destruct c as [s|ok choice]; cbn [turn observe turn_enabled fresh_case] in *.
  - set (l1 := mkLoop (<[ts_ID s := s]> (pending l)) true (pack l) (sent l)). set (h1 := mkHistory _ _).
    assert (loop_ok l1 h1) as H1.
    { pose proof (stop_trying l h (ts_ID s) true Hok ltac:(done)) as [_ Hid Hrest Hconn Hdone Hnew Hpacks]. fold (cut_short h1) in *. cbn [pending sent asked cut_short] in *.
      assert (forall id s', <[ts_ID s := s]> (pending l) !! id = Some s' -> (id = ts_ID s /\ s' = s) \/ (id <> ts_ID s /\ delete (ts_ID s) (pending l) !! id = Some s')) as Hcase.
      { intros id s' [[<- <-]|[Hn Hl]]%lookup_insert_Some; [by left|right]. split; [done|by rewrite lookup_delete_ne]. }
      assert (forall id s', delete (ts_ID s) (pending l) !! id = Some s' -> ts_p s' <> ts_p s) as Hfr.
      { intros id s' Hl Heq. destruct (Hrest id s' Hl) as (txs & Ha & _). rewrite Heq in Ha. congruence. }
      split; unfold l1, h1; cbn [pending sending sent asked cut_short]; [done| | | | | |done].
      - intros id s' [[-> ->]|[_ Hl]]%Hcase; [done|by apply Hid].
      - intros id s' [[-> ->]|[_ Hl]]%Hcase; [exists (ts_txs s); rewrite lookup_insert_eq; split; [done|]; pose proof (Hnew (ts_p s) Hfresh) as Hz; unfold sent_to in Hz |- *; cbn [sent] in Hz |- *; by rewrite Hz|].
        destruct (Hrest id s' Hl) as (txs & Ha & He). exists txs. rewrite lookup_insert_ne; [done|]. intros Heq. by apply (Hfr id s').
      - intros id1 id2 s1 s2 [[-> ->]|[_ Hl1]]%Hcase [[-> ->]|[_ Hl2]]%Hcase Heq; [done| | |by eapply Hconn]; exfalso; [by apply (Hfr id2 s2)|by apply (Hfr id1 s1)].
      - intros c txs [[<- <-]|[Hn Ha]]%lookup_insert_Some Hc Hno; [exfalso; apply (Hno (ts_ID s) s); [apply lookup_insert_eq|done]|].
        apply Hdone; [done|done|]. intros id s' Hl. apply (Hno id s'). apply lookup_delete_Some in Hl as [? ?]. by rewrite lookup_insert_ne.
      - intros c Ha. apply Hnew. by apply lookup_insert_None in Ha as [? _]. }
    cbn [sending]. destruct (sending l); [exact H1|]. apply (send_ok (mkLoop (<[ts_ID s := s]> (pending l)) false (pack l) (sent l)) h1 s); [cbn; apply lookup_insert_eq|exact H1].
  - destruct Hen as [Hsend Hchoice]. set (pend := if ok then pending l else _) in *. set (h1 := mkHistory _ _).
    assert (loop_ok (mkLoop pend true (pack l) (sent l)) h1) as H1.
    { unfold pend, h1. destruct ok; [destruct h; by apply (idle_send l _ true)|]. destruct (pack l) as [s|] eqn:Hpk; [rewrite <-Hpk; by apply stop_trying|rewrite <-Hpk; destruct h; by apply (idle_send l _ true)]. }
    unfold pick. cbn [pending]. destruct (pend !! choice) as [s|] eqn:Hs.
    + destruct (lo_id _ _ H1 choice s Hs) as [Hid _]. apply (send_ok (mkLoop pend false (pack l) (sent l)) h1 s); [cbn; by rewrite Hid|exact H1].
    + assert (pend = ∅) as He by (destruct (decide (pend = ∅)) as [|Hne]; [done|]; destruct (Hchoice Hne); congruence). destruct H1. by split.
Qed.

Lemma runs_ok (l : loop) (h : history) : runs l h -> loop_ok l h.
Proof. induction 1; [apply start_ok|by apply turn_ok]. Qed.

(** ** Progress *)

Definition left_to_send (l : loop) : nat := map_fold (fun _ s n => length (ts_txs s) + n)%nat 0%nat (pending l).

Lemma left_delete (m : gmap string txsync) (id : string) (s : txsync) : m !! id = Some s ->
  map_fold (fun _ s n => length (ts_txs s) + n)%nat 0%nat m = (length (ts_txs s) + map_fold (fun _ s n => length (ts_txs s) + n) 0 (delete id m))%nat.
Proof.
  intros Hm. rewrite <-(insert_delete_id m id s Hm) at 1. rewrite (map_fold_insert_L (fun (_ : string) s n => length (ts_txs s) + n)%nat 0%nat id s (delete id m)); [done|intros; lia|apply lookup_delete_eq].
Qed.

Lemma send_less (l : loop) (s : txsync) : pending l !! ts_ID s = Some s -> ts_txs s <> [] -> (left_to_send (send l s) < left_to_send l)%nat.
Proof.
  intros Hs Hne. unfold left_to_send. rewrite (left_delete (pending l) _ _ Hs). pose proof (fill_nonempty _ Hne) as Hf. unfold send. cbn [pending].
  set (rest := drop _ _). assert (length rest < length (ts_txs s))%nat as Hr. { unfold rest. rewrite length_drop. destruct (fill (ts_txs s) 0); [done|]. destruct (ts_txs s); [done|]. cbn. lia. }
  case_bool_decide; [lia|]. rewrite <-insert_delete_eq. rewrite (map_fold_insert_L (fun (_ : string) s n => length (ts_txs s) + n)%nat 0%nat); [cbn; lia|intros; lia|apply lookup_delete_eq].
Qed.

Lemma done_less (l : loop) (h : history) (choice : string) : loop_ok l h -> turn_enabled l (Done true choice) ->
  sending (turn l (Done true choice)) = false \/ (left_to_send (turn l (Done true choice)) < left_to_send l)%nat.
Proof.
  intros Hok [_ Hc]. cbn [turn]. unfold pick. cbn [pending]. destruct (pending l !! choice) as [s|] eqn:Hs; [right|by left].
  destruct (lo_id _ _ Hok choice s Hs) as [Hid Hne]. apply (send_less (mkLoop (pending l) false (pack l) (sent l))); [cbn; by rewrite Hid|done].
Qed.

(** C21: a new peer gets every pending transaction, once and in order.  Whatever transfers are asked for, whichever sends fail
    and whichever peer is chosen next: every pack is a part of the transactions, not empty, and without its last transaction it is
    below 100 KiB; a transfer that was not replaced by a new one of the node nor given up after a failed send to it has
    handed over a prefix of its transactions, without gap or repetition, and is still pending with the rest; when the loop is
    idle nothing is pending, so all of it was sent; and each send that succeeds leaves the loop idle or fewer transactions to
    send, so that it becomes idle. *)
Theorem txsync_delivers (l : loop) (h : history) : runs l h ->
  (forall c txs, (c, txs) ∈ sent l -> txs <> [] /\ zsum (tx_Size <$> take (length txs - 1) txs) < 102400) /\
  (forall c txs, asked h !! c = Some txs -> c ∉ cut_short h ->
     sent_to l c = txs \/ exists id s, pending l !! id = Some s /\ ts_p s = c /\ sent_to l c ++ ts_txs s = txs) /\
  (sending l = false -> pending l = ∅ /\ forall c txs, asked h !! c = Some txs -> c ∉ cut_short h -> sent_to l c = txs) /\
  forall choice, turn_enabled l (Done true choice) ->
    sending (turn l (Done true choice)) = false \/ (left_to_send (turn l (Done true choice)) < left_to_send l)%nat.
Proof.
  intros Hr. pose proof (runs_ok l h Hr) as Hok. split; [apply Hok|]. split; [|split].
  - intros c txs Ha Hc. destruct (decide (map_Exists (fun _ s => ts_p s = c) (pending l))) as [(id & s & Hs & Hp)|Hno].
    + right. exists id, s. split; [done|]. split; [done|]. destruct (lo_rest l h Hok id s Hs) as (txs' & Ha' & He). rewrite Hp in Ha', He. congruence.
    + left. apply (lo_done l h Hok); [done|done|]. intros id s Hs Hp. apply Hno. by exists id, s.
  - intros Hi. pose proof (lo_idle l h Hok Hi) as He. split; [done|]. intros c txs Ha Hc. apply (lo_done l h Hok); [done|done|]. intros id s. by rewrite He, lookup_empty.
  - intros choice Hen. by eapply done_less.
Qed.

End loop.

(** A transfer of three transactions of 60 KiB, in two packs. *)
Definition sync_tx (n : Z) : EthTx := mkEthTx (EventCheck.mkTransaction 0 0 0 [] None) n [n].
Definition sync_size (tx : EthTx) : Z := 60 * 1024.
Definition sync_first : loop := turn sync_size txsyncLoop (TxsyncCh (mkTxsync 7 "a" [sync_tx 0; sync_tx 1; sync_tx 2])).
Definition sync_second : loop := turn sync_size sync_first (Done true "a").

Definition sync_history : history :=
  observe (observe (mkHistory ∅ ∅) txsyncLoop (TxsyncCh (mkTxsync 7 "a" [sync_tx 0; sync_tx 1; sync_tx 2]))) sync_first (Done true "a").

Lemma sync_runs : runs sync_size sync_second sync_history.
Proof. apply runs_turn; [apply runs_turn; [apply runs_start|done|done]|split; [done|vm_compute; intros _; by eexists]|done]. Qed.

Lemma txsync_delivers_witness : sent sync_second = [(7%nat, [sync_tx 0; sync_tx 1]); (7%nat, [sync_tx 2])] /\
  (sent_to sync_second 7 = [sync_tx 0; sync_tx 1; sync_tx 2] \/ exists id s, pending sync_second !! id = Some s /\ ts_p s = 7%nat /\ sent_to sync_second 7 ++ ts_txs s = [sync_tx 0; sync_tx 1; sync_tx 2]).
Proof.
  split; [vm_compute; reflexivity|].
  destruct (txsync_delivers sync_size sync_second _ sync_runs) as (_ & Hd & _). apply (Hd 7%nat); [by vm_compute|].
  assert (cut_short sync_history = ∅) as -> by (vm_compute; reflexivity). apply not_elem_of_empty.
Defined.
