(* ===== verification/TopicsDb.v ===== *)
(** * The index of the logs: topicsdb, and the searches of gossip/filters/filter.go

    Three tables over a key-value store, whose iterators do not fail: the topics with their positions and
    the logs that have them, the topics of a log, and its other fields.  A
    search counts for each log how many of the conditions match, one after
    the other ([fetchSync]) or with a goroutine per log that reads the fields
    as soon as enough conditions matched ([fetchAsync], the one in use).  The
    filters ask the index when a topic is given, and go through the blocks
    otherwise. *)

From S2P Require Import Prelude Bytes Kvdb Event.

(** [types.Log] of go-ethereum. *)
Record EvmLog := mkEvmLog {
  ev_Address : bytes; ev_Topics : list hash; ev_Data : bytes;
  ev_BlockNumber : Z; ev_TxHash : hash; ev_TxIndex : Z; ev_BlockHash : hash; ev_Index : Z; ev_Removed : bool
}.

(** ** topicsdb/key.go *)

Definition hashSize : Z := 32.
Definition uint8Size : Z := 1.
Definition uint64Size : Z := 8.
Definition logrecKeySize : Z := uint64Size + hashSize + uint64Size.
Definition topicKeySize : Z := hashSize + uint8Size + logrecKeySize.
Definition otherKeySize : Z := logrecKeySize + uint8Size.

(** 48 bytes. *)
Abbreviation ID := bytes.

Definition posToBytes (pos : Z) : bytes := [pos].
Definition bytesToPos (b : bytes) : go Z := slice_at b 0.
Definition uintToBytes (n : Z) : bytes := bigendian_Int64ToBytes n.
Definition bytesToUint (b : bytes) : go Z := bigendian_BytesToInt64 b.

Definition NewID (block : Z) (tx : hash) (logIndex : Z) : ID := uintToBytes block ++ tx ++ uintToBytes (u64 logIndex).
Definition ID_BlockNumber (id : ID) : go Z := bytesToUint (sub_bytes id 0 8).
Definition ID_TxHash (id : ID) : hash := sub_bytes id 8 40.
Definition ID_Index (id : ID) : go Z := bytesToUint (sub_bytes id 40 48).

Definition topicKey (topic : hash) (pos : Z) (logrec : ID) : bytes := topic ++ posToBytes pos ++ logrec.
Definition otherKey (logrec : ID) (pos : Z) : bytes := logrec ++ posToBytes pos.

Definition extractLogrecID (key : bytes) : go ID :=
  if zlen key =? topicKeySize then Ret (drop (Z.to_nat (hashSize + uint8Size)) key) else Fault (PanicMsg "wrong key type").
Definition extractTopicPos (key : bytes) : go Z :=
  if zlen key =? otherKeySize
  then bytesToPos (sub_bytes key (Z.to_nat logrecKeySize) (Z.to_nat (logrecKeySize + uint8Size)))
  else Fault (PanicMsg "wrong key type").

(** ** topicsdb/topicsdb.go *)

Definition MaxCount : Z := 255.

Inductive topics_error := ErrTooManyTopics | ErrTopicsKv (err : kv_error).

(** The tables have disjoint prefixes in one database; each is a store. *)
Record Index (S : Type) := mkIndex { t_Topic : S; t_Other : S; t_Logrec : S }.
Arguments mkIndex {S} _ _ _.
Arguments t_Topic {S} _.
Arguments t_Other {S} _.
Arguments t_Logrec {S} _.

Section index.
Context {S : Type} `{Store S}.
Implicit Types ix : Index S.

Definition log_ID (rec : EvmLog) : ID := NewID (ev_BlockNumber rec) (ev_TxHash rec) (ev_Index rec).

(** A write of [Push]; the writes before an error stay. *)
Definition topics_put (s : S) (k v : bytes) : go (S * option topics_error) :=
  r ← store_Put s k (Some v); Ret (r.1, option_map ErrTopicsKv r.2).

Definition push_topic (id : ID) (count : bytes) (r : Index S * option topics_error) (pt : Z * hash) : go (Index S * option topics_error) :=
  let '(ix, err) := r in let '(pos, topic) := pt in
  if bool_decide (is_Some err) then Ret r
  else
    '(s, err) ← topics_put (t_Topic ix) (topicKey topic (u8 pos) id) count;
    let ix := mkIndex s (t_Other ix) (t_Logrec ix) in
    if bool_decide (is_Some err) then Ret (ix, err)
    else
      '(s, err) ← topics_put (t_Other ix) (otherKey id (u8 pos)) topic;
      Ret (mkIndex (t_Topic ix) s (t_Logrec ix), err).

Definition positions {A} (l : list A) : list (Z * A) := imap (fun i x => (Z.of_nat i, x)) l.

Definition push_log (r : Index S * option topics_error) (rec : EvmLog) : go (Index S * option topics_error) :=
  let '(ix, err) := r in
  if bool_decide (is_Some err) then Ret r
  else if zlen (ev_Topics rec) >? MaxCount then Ret (ix, Some ErrTooManyTopics)
  else
    let count := posToBytes (u8 (zlen (ev_Topics rec))) in
    let id := log_ID rec in
    '(ix, err) ← go_fold (push_topic id count) (ix, None) (positions (ev_Topics rec));
    if bool_decide (is_Some err) then Ret (ix, err)
    else
      '(s, err) ← topics_put (t_Logrec ix) id (ev_Address rec ++ ev_BlockHash rec ++ ev_Data rec);
      Ret (mkIndex (t_Topic ix) (t_Other ix) s, err).

Definition Push ix (recs : list EvmLog) : go (Index S * option topics_error) := go_fold push_log (ix, None) recs.

Definition MustPush ix (recs : list EvmLog) : go (Index S) :=
  '(ix, err) ← Push ix recs;
  match err with Some _ => Fault (PanicMsg "MustPush") | None => Ret ix end.

(** ** topicsdb/record.go *)

(** The channels of a record are in the state of the asynchronous search. *)
Record logrecBuilder := mkBuilder { lb_Log : EvmLog; lb_ID : ID; lb_conditions : Z; lb_topicsCount : Z }.

Definition newLogrecBuilder (logrec : ID) (conditions topicCount : Z) : go logrecBuilder :=
  blockNumber ← ID_BlockNumber logrec;
  index ← ID_Index logrec;
  Ret (mkBuilder
         (mkEvmLog (replicate 20 0) (replicate (Z.to_nat topicCount) ZeroHash) [] blockNumber (ID_TxHash logrec) 0 ZeroHash index false)
         logrec conditions topicCount).

Definition with_Log (rec : logrecBuilder) (l : EvmLog) : logrecBuilder := mkBuilder l (lb_ID rec) (lb_conditions rec) (lb_topicsCount rec).
Definition with_Topics (l : EvmLog) (topics : list hash) : EvmLog :=
  mkEvmLog (ev_Address l) topics (ev_Data l) (ev_BlockNumber l) (ev_TxHash l) (ev_TxIndex l) (ev_BlockHash l) (ev_Index l) (ev_Removed l).

(** Counts matched conditions; the flag says that a signal is sent on [rec.ok],
    where there is such a channel. *)
Definition MatchedWith (rec : logrecBuilder) (count : Z) : logrecBuilder * bool :=
  if lb_conditions rec >? count
  then (mkBuilder (lb_Log rec) (lb_ID rec) (u8 (lb_conditions rec - count)) (lb_topicsCount rec), false)
  else (mkBuilder (lb_Log rec) (lb_ID rec) 0 (lb_topicsCount rec), true).

Definition IsMatched (rec : logrecBuilder) : bool := lb_conditions rec =? 0.

Definition SetOtherTopic (rec : logrecBuilder) (pos : Z) (topic : hash) : go logrecBuilder :=
  if pos >=? lb_topicsCount rec then Fault (Crit "inconsistent table.Others")
  else
    t ← slice_at (ev_Topics (lb_Log rec)) pos;
    if negb (bool_decide (t = ZeroHash)) then Ret rec
    else
      topics ← slice_set (ev_Topics (lb_Log rec)) pos topic;
      Ret (with_Log rec (with_Topics (lb_Log rec) topics)).

(** [common.BytesToHash] and [common.BytesToAddress] of go-ethereum. *)
Context (BytesToHash BytesToAddress : bytes -> bytes).

(** [buf[offset : offset+n]]. *)
Definition field (buf : bytes) (offset n : Z) : go bytes := b ← slice_to buf (offset + n); slice_from b offset.

Definition fetch_fields (rec : logrecBuilder) (buf : bytes) : go logrecBuilder :=
  address ← field buf 0 20;
  blockHash ← field buf 20 32;
  data ← slice_from buf 52;
  let l := lb_Log rec in
  Ret (with_Log rec (mkEvmLog (BytesToAddress address) (ev_Topics l) data (ev_BlockNumber l) (ev_TxHash l) (ev_TxIndex l)
                       (BytesToHash blockHash) (ev_Index l) (ev_Removed l))).

Definition fetch_topic (rec : logrecBuilder) (kv : bytes * slice) : go logrecBuilder :=
  pos ← extractTopicPos kv.1;
  SetOtherTopic rec pos (BytesToHash (default [] kv.2)).

Definition Fetch ix (rec : logrecBuilder) : go (logrecBuilder * option kv_error) :=
  rec ← go_fold fetch_topic rec (store_Iterate (t_Other ix) (lb_ID rec));
  r ← store_Get (t_Logrec ix) (lb_ID rec);
  match r with
  | inl err => Ret (rec, Some err)
  | inr buf => rec ← fetch_fields rec (default [] buf); Ret (rec, None)
  end.

(** ** topicsdb/search_sync.go *)

(** The prefix of the keys of an alternative for the topic at a position. *)
Definition alt_prefix (pos : Z) (alternative : hash) : bytes := alternative ++ posToBytes (u8 pos).

(** The record of a key that the search meets. *)
Definition rec_for {R} (recs : gmap ID R) (fresh : logrecBuilder -> R) (condCount : Z) (kv : bytes * slice) : go (ID * R) :=
  id ← extractLogrecID kv.1;
  topicCount ← bytesToPos (default [] kv.2);
  match recs !! id with
  | Some rec => Ret (id, rec)
  | None => rec ← newLogrecBuilder id condCount topicCount; Ret (id, fresh rec)
  end.

Definition match_key (condCount : Z) (recs : gmap ID logrecBuilder) (kv : bytes * slice) : go (gmap ID logrecBuilder) :=
  '(id, rec) ← rec_for recs (fun rec => rec) condCount kv;
  Ret (<[id := (MatchedWith rec 1).1]> recs).

Definition match_cond ix (condCount : Z) (st : gmap ID logrecBuilder * Z) (pc : Z * list hash) : go (gmap ID logrecBuilder * Z) :=
  let '(recs, wildcards) := st in let '(pos, cond) := pc in
  match cond with
  | [] => Ret (recs, u8 (wildcards + 1))
  | _ :: _ =>
      recs ← go_fold (fun recs alternative => go_fold (match_key condCount) recs (store_Iterate (t_Topic ix) (alt_prefix pos alternative))) recs cond;
      Ret (recs, wildcards)
  end.

(** The records in the order that [range] gives the map. *)
Context (rangeRecs : gmap ID logrecBuilder -> list (ID * logrecBuilder)).

Fixpoint collect ix (wildcards : Z) (l : list (ID * logrecBuilder)) (res : list EvmLog) : go (topics_error + list EvmLog) :=
  match l with
  | [] => Ret (inr res)
  | (_, rec) :: l =>
      let rec := (MatchedWith rec wildcards).1 in
      if negb (IsMatched rec) then collect ix wildcards l res
      else
        '(rec, err) ← Fetch ix rec;
        match err with
        | Some err => Ret (inl (ErrTopicsKv err))
        | None => collect ix wildcards l (res ++ [lb_Log rec])
        end
  end.

Definition fetchSync ix (topics : list (list hash)) : go (topics_error + list EvmLog) :=
  if zlen topics >? MaxCount then Ret (inl ErrTooManyTopics)
  else
    '(recs, wildcards) ← go_fold (match_cond ix (u8 (zlen topics))) (∅, 0) (positions topics);
    collect ix wildcards (rangeRecs recs) [].

(** ** topicsdb/search_async.go

    The search and the goroutines of its records take steps in any order.  The
    channel [ok] of a record holds one signal; [ready] holds none, so that a
    goroutine waits there until [Build] takes its result. *)

Inductive worker :=
  | Starting                          (* has not read [rec.ok] yet *)
  | Waiting                           (* at [<-rec.ok] *)
  | Fetching                          (* in [rec.Fetch] *)
  | Ready (err : option kv_error)     (* at [rec.ready <- err] *)
  | Ended.                            (* [rec.ready] is closed *)

Record asyncRec := mkAsync { ar_rec : logrecBuilder; ar_ok : bool; ar_worker : worker }.

Inductive point :=
  | Matching (keys : list (bytes * slice))   (* the keys that the iterators have left *)
  | Collecting (todo : gset ID)              (* the records that [range] has left *)
  | Building (id : ID) (todo : gset ID)      (* at [rec.Build()] *)
  | Returned (r : topics_error + list EvmLog).

Record search := mkSearch { sr_recs : gmap ID asyncRec; sr_point : point; sr_res : list EvmLog }.

(** The keys that the nested loops of the search go through, and the number of
    conditions without alternatives. *)
Definition search_keys ix (topics : list (list hash)) : list (bytes * slice) :=
  positions topics ≫= fun pc => pc.2 ≫= fun alternative => store_Iterate (t_Topic ix) (alt_prefix pc.1 alternative).
Definition count_wildcards (topics : list (list hash)) : Z := u8 (zlen (filter (fun cond => cond = []) topics)).

Definition fetchAsync ix (topics : list (list hash)) : search :=
  if zlen topics >? MaxCount then mkSearch ∅ (Returned (inl ErrTooManyTopics)) []
  else mkSearch ∅ (Matching (search_keys ix topics)) [].

Definition StartFetch (rec : logrecBuilder) : asyncRec := mkAsync rec false Starting.

(** [MatchedWith] with the channel: [None] when the channel is full, where the
    search waits. *)
Definition signalled (c : asyncRec) (count : Z) : option asyncRec :=
  let '(rec, send) := MatchedWith (ar_rec c) count in
  if send && ar_ok c then None else Some (mkAsync rec (send || ar_ok c) (ar_worker c)).

(** [Build]: takes the result of the goroutine, or learns that it ended without
    one; [None] where it waits. *)
Definition Build (c : asyncRec) : option (asyncRec * option EvmLog * option kv_error) :=
  match ar_worker c with
  | Ready err => Some (mkAsync (ar_rec c) (ar_ok c) Ended, Some (lb_Log (ar_rec c)), err)
  | Ended => Some (c, None, None)
  | _ => None
  end.

(** A step of the search; [choice] is the record that [range] comes to next.
    [None]: it waits, or has returned. *)
Definition search_step (condCount wildcards : Z) (s : search) (choice : ID) : go (option search) :=
  match sr_point s with
  | Matching (kv :: keys) =>
      '(id, c) ← rec_for (sr_recs s) StartFetch condCount kv;
      Ret (option_map (fun c => mkSearch (<[id := c]> (sr_recs s)) (Matching keys) (sr_res s)) (signalled c 1))
  | Matching [] => Ret (Some (mkSearch (sr_recs s) (Collecting (dom (sr_recs s))) (sr_res s)))
  | Collecting todo =>
      if decide (todo = ∅) then Ret (Some (mkSearch (sr_recs s) (Returned (inr (sr_res s))) (sr_res s)))
      else if decide (choice ∈ todo) then
        match sr_recs s !! choice with
        | None => Fault NilDereference
        | Some c =>
            let todo := todo ∖ {[choice]} in
            Ret (option_map (fun c => mkSearch (<[choice := c]> (sr_recs s)) (if IsMatched (ar_rec c) then Building choice todo else Collecting todo) (sr_res s))
                   (signalled c wildcards))
        end
      else Ret None
  | Building id todo =>
      match sr_recs s !! id with
      | None => Fault NilDereference
      | Some c =>
          match Build c with
          | None => Ret None
          | Some (c, r, err) =>
              let recs := <[id := c]> (sr_recs s) in
              match err with
              | Some err => Ret (Some (mkSearch recs (Returned (inl (ErrTopicsKv err))) (sr_res s)))
              | None => Ret (Some (mkSearch recs (Collecting todo) (sr_res s ++ match r with Some r => [r] | None => [] end)))
              end
          end
      end
  | Returned _ => Ret None
  end.

(** Whether the deferred [StopFetch] have run: [ok] is closed and both fields are
    nil, so that a goroutine that has not read them yet never goes on, nor one
    that has fetched. *)
Definition stopped (s : search) : bool := match sr_point s with Returned _ => true | _ => false end.

Definition worker_step ix (s : search) (id : ID) : go (option search) :=
  let set c := Ret (Some (mkSearch (<[id := c]> (sr_recs s)) (sr_point s) (sr_res s))) in
  match sr_recs s !! id with
  | None => Ret None
  | Some c =>
      match ar_worker c with
      | Starting => if stopped s then Ret None else set (mkAsync (ar_rec c) (ar_ok c) Waiting)
      | Waiting =>
          if ar_ok c then set (mkAsync (ar_rec c) false Fetching)
          else if stopped s then set (mkAsync (ar_rec c) false Ended) else Ret None
      | Fetching => '(rec, err) ← Fetch ix (ar_rec c); set (mkAsync rec (ar_ok c) (Ready err))
      | Ready _ | Ended => Ret None
      end
  end.

Inductive async_step ix (condCount wildcards : Z) (s s' : search) : Prop :=
  | async_search (choice : ID) : search_step condCount wildcards s choice = Ret (Some s') -> async_step ix condCount wildcards s s'
  | async_worker (id : ID) : worker_step ix s id = Ret (Some s') -> async_step ix condCount wildcards s s'.

(** The steps of a search for some topics, and one that stops the process. *)
Definition find_step ix (topics : list (list hash)) : relation search := async_step ix (u8 (zlen topics)) (count_wildcards topics).
Definition find_crashes ix (topics : list (list hash)) (s : search) : Prop :=
  exists (id : ID) (f : fault), search_step (u8 (zlen topics)) (count_wildcards topics) s id = Fault f \/ worker_step ix s id = Fault f.

End index.

(** ** gossip/filters/filter.go *)

Definition includes (addresses : list bytes) (a : bytes) : bool := existsb (fun addr => bool_decide (addr = a)) addresses.

Definition isEmpty (topics : list (list hash)) : bool := forallb (fun cond => negb (0 <? zlen cond)) topics.

(** The check of the topics: the sub-lists in turn, until one does not match. *)
Fixpoint topics_match (log : EvmLog) (topics : list (Z * list hash)) : go bool :=
  match topics with
  | [] => Ret true
  | (i, sub) :: topics =>
      m ← match sub with
          | [] => Ret true
          | _ :: _ => t ← slice_at (ev_Topics log) i; Ret (existsb (fun topic => bool_decide (t = topic)) sub)
          end;
      if negb m then Ret false else topics_match log topics
  end.

Definition log_passes (fromBlock toBlock : option Z) (addresses : list bytes) (topics : list (list hash)) (log : EvmLog) : go bool :=
  if match fromBlock with Some n => (0 <=? n) && (n >? ev_BlockNumber log) | None => false end then Ret false
  else if match toBlock with Some n => (0 <=? n) && (n <? ev_BlockNumber log) | None => false end then Ret false
  else if (0 <? zlen addresses) && negb (includes addresses (ev_Address log)) then Ret false
  else if zlen topics >? zlen (ev_Topics log) then Ret false
  else topics_match log (positions topics).

Definition filterLogs (logs : list EvmLog) (fromBlock toBlock : option Z) (addresses : list bytes) (topics : list (list hash)) : go (list EvmLog) :=
  go_fold (fun ret log => ok ← log_passes fromBlock toBlock addresses topics log; Ret (if (ok : bool) then ret ++ [log] else ret)) [] logs.

Record FilterHeader := mkFilterHeader { fh_Number : Z; fh_Hash : hash }.

(** The interface [Backend]; [None] is a nil header. *)
Class Backend (E : Type) := {
  HeaderByNumber : Z -> option FilterHeader * option E;
  HeaderByHash : hash -> option FilterHeader * option E;
  GetReceiptsByHash : hash -> list (list EvmLog) * option E;
  GetLogs : hash -> list (list EvmLog) * option E;
  Find : list (list hash) -> go (E + list EvmLog);
  errUnknownBlock : E
}.

Record Filter := mkFilter { fl_addresses : list bytes; fl_topics : list (list hash); fl_block : hash; fl_begin : Z; fl_end : Z }.

Section filter.
Context {E : Type} `{Backend E}.
Implicit Types f : Filter.

Definition NewRangeFilter (begin end_ : Z) (addresses : list bytes) (topics : list (list hash)) : Filter := mkFilter addresses topics ZeroHash begin end_.
Definition NewBlockFilter (block : hash) (addresses : list bytes) (topics : list (list hash)) : Filter := mkFilter addresses topics block 0 0.

Definition checkMatches f (header : FilterHeader) : go (list EvmLog * option E) :=
  let '(logsList, err) := GetLogs (fh_Hash header) in
  match err with
  | Some err => Ret ([], Some err)
  | None =>
      logs ← filterLogs (mjoin logsList) None None (fl_addresses f) (fl_topics f);
      match logs with
      | [] => Ret ([], None)
      | log :: _ =>
          if bool_decide (ev_TxHash log = ZeroHash) then
            let '(receipts, err) := GetReceiptsByHash (fh_Hash header) in
            match err with
            | Some err => Ret ([], Some err)
            | None => logs ← filterLogs (mjoin receipts) None None (fl_addresses f) (fl_topics f); Ret (logs, None)
            end
          else Ret (logs, None)
      end
  end.

Definition blockLogs f (header : FilterHeader) : go (list EvmLog * option E) :=
  '(found, err) ← checkMatches f header;
  match err with Some err => Ret ([], Some err) | None => Ret (found, None) end.

Definition at_block f (n : Z) : Filter := mkFilter (fl_addresses f) (fl_topics f) (fl_block f) n (fl_end f).

(** The loop moves the start of the filter. *)
Fixpoint unindexed_loop (fuel : nat) (end_ : Z) (logs : list EvmLog) f : go (list EvmLog * option E * Filter) :=
  if fl_begin f <=? end_ then
    match fuel with
    | O => Fault OutOfFuel
    | S fuel =>
        match HeaderByNumber (fl_begin f) with
        | (Some header, None) =>
            '(found, err) ← blockLogs f header;
            match err with
            | Some err => Ret (logs, Some err, f)
            | None => unindexed_loop fuel end_ (logs ++ found) (at_block f (i64 (fl_begin f + 1)))
            end
        | (_, err) => Ret (logs, err, f)
        end
    end
  else Ret (logs, None, f).

Definition unindexedLogs f (end_ : Z) : go (list EvmLog * option E * Filter) := unindexed_loop (Z.to_nat (end_ - fl_begin f + 1)) end_ [] f.

Definition indexedLogs f (end_ : Z) : go (list EvmLog * option E * Filter) :=
  r ← Find (fl_topics f);
  match r with
  | inl err => Ret ([], Some err, f)
  | inr logs => logs ← filterLogs logs (Some (fl_begin f)) (Some end_) (fl_addresses f) (fl_topics f); Ret (logs, None, f)
  end.

(** [rpc.LatestBlockNumber] *)
Definition LatestBlockNumber : Z := -1.

Definition Logs f : go (list EvmLog * option E * Filter) :=
  if negb (bool_decide (fl_block f = ZeroHash)) then
    match HeaderByHash (fl_block f) with
    | (_, Some err) => Ret ([], Some err, f)
    | (None, None) => Ret ([], Some errUnknownBlock, f)
    | (Some header, None) => '(logs, err) ← blockLogs f header; Ret (logs, err, f)
    end
  else
    match (HeaderByNumber LatestBlockNumber).1 with
    | None => Ret ([], None, f)
    | Some header =>
        let head := u64 (fh_Number header) in
        let f := if fl_begin f =? -1 then at_block f (i64 head) else f in
        let end_ := i64 (if fl_end f =? -1 then head else u64 (fl_end f)) in
        if isEmpty (fl_topics f) then unindexedLogs f end_ else indexedLogs f end_
    end.

End filter.
