(* ===== verification/TopicsFind.v ===== *)
(** * What the index of the logs finds

    The tables that [Push] writes hold the logs; a search counts the matching
    conditions of each log.  Without a repeated alternative it finds the logs
    that match, in both ways; with one, the search one after the other finds
    some that do not, and the search with goroutines never returns.  Filtered
    by the criteria, what it finds is what a scan of the blocks finds. *)

From S2P Require Import Prelude Bytes Kvdb KvdbLaws Event TopicsDb.

(** ** Keys *)

(** A log as the EVM makes it: hashes of 32 bytes, an address of 20, at most 255 topics. *)
Record log_ok (l : EvmLog) : Prop := {
  lo_block : is_u64 (ev_BlockNumber l);
  lo_index : is_u64 (ev_Index l);
  lo_tx : length (ev_TxHash l) = 32%nat;
  lo_topics : Forall (fun t => length t = 32%nat) (ev_Topics l);
  lo_count : zlen (ev_Topics l) <= MaxCount;
  lo_address : length (ev_Address l) = 20%nat;
  lo_blockHash : length (ev_BlockHash l) = 32%nat
}.

Lemma length_log_ID (l : EvmLog) : log_ok l -> length (log_ID l) = 48%nat.
Proof.
  intros Hl. unfold log_ID, NewID, uintToBytes, bigendian_Int64ToBytes. rewrite !length_app, !length_be_encode, (lo_tx _ Hl). done.
Qed.

Lemma sub_bytes_app (a b c : bytes) (lo hi : nat) : length a = lo -> (length a + length b)%nat = hi -> sub_bytes (a ++ b ++ c) lo hi = b.
Proof. intros Ha Hb. unfold sub_bytes. rewrite drop_app_length' by done. rewrite take_app_length'; [done|lia]. Qed.

Lemma uint_roundtrip (z : Z) : is_u64 z -> bytesToUint (uintToBytes z) = Ret z.
Proof. intros Hz. unfold bytesToUint, uintToBytes. rewrite <-(app_nil_r (bigendian_Int64ToBytes z)). by apply bigendian64_roundtrip. Qed.

(** The record that the search starts for a log. *)
Definition fresh_log (l : EvmLog) : EvmLog :=
  mkEvmLog (replicate 20 0) (replicate (length (ev_Topics l)) ZeroHash) [] (ev_BlockNumber l) (ev_TxHash l) 0 ZeroHash (ev_Index l) false.
Definition builder (l : EvmLog) (log : EvmLog) (conditions : Z) : logrecBuilder := mkBuilder log (log_ID l) conditions (zlen (ev_Topics l)).

Lemma newLogrecBuilder_spec (l : EvmLog) (n : Z) : log_ok l -> newLogrecBuilder (log_ID l) n (zlen (ev_Topics l)) = Ret (builder l (fresh_log l) n).
Proof.
  intros Hl. pose proof (length_log_ID l Hl) as Hid. pose proof (lo_tx _ Hl) as Htx.
  assert (forall z, length (uintToBytes z) = 8%nat) as H8 by (intros z; apply length_be_encode).
  assert (log_ID l = uintToBytes (ev_BlockNumber l) ++ ev_TxHash l ++ uintToBytes (ev_Index l)) as E by (unfold log_ID, NewID; by rewrite (u64_id (ev_Index l)) by apply Hl).
  unfold newLogrecBuilder, ID_BlockNumber, ID_TxHash, ID_Index.
  replace (sub_bytes (log_ID l) 0 8) with (uintToBytes (ev_BlockNumber l)) by (rewrite E; symmetry; apply (sub_bytes_app []); [done|cbn; by rewrite H8]).
  replace (sub_bytes (log_ID l) 8 40) with (ev_TxHash l) by (rewrite E; symmetry; apply sub_bytes_app; [by rewrite H8|rewrite H8, Htx; done]).
  replace (sub_bytes (log_ID l) 40 48) with (uintToBytes (ev_Index l)).
  2:{ rewrite E, app_assoc. rewrite <-(app_nil_r (uintToBytes (ev_Index l))) at 2. symmetry. apply sub_bytes_app; rewrite length_app, ?H8, Htx; done. }
  rewrite !uint_roundtrip by apply Hl. cbn [mbind go_bind]. unfold builder, fresh_log, zlen. by rewrite Nat2Z.id.
Qed.

Lemma extractLogrecID_key (t : hash) (pos : Z) (id : ID) : length t = 32%nat -> length id = 48%nat -> extractLogrecID (topicKey t pos id) = Ret id.
Proof.
  intros Ht Hid. unfold extractLogrecID, topicKey, zlen. rewrite !length_app, Ht, Hid. cbn [length posToBytes Nat.add].
  replace (Z.of_nat 81 =? topicKeySize) with true by done. rewrite app_assoc, drop_app_length'; [done|].
  rewrite length_app, Ht. done.
Qed.

Lemma extractTopicPos_key (id : ID) (pos : Z) : length id = 48%nat -> extractTopicPos (otherKey id pos) = Ret pos.
Proof.
  intros Hid. unfold extractTopicPos, otherKey, zlen. rewrite length_app, Hid. cbn [length posToBytes Nat.add].
  replace (Z.of_nat 49 =? otherKeySize) with true by done. unfold sub_bytes. rewrite drop_app_length' by (rewrite Hid; done). done.
Qed.

Lemma topic_prefix (t alt : hash) (pos p : Z) (id : ID) : length t = 32%nat -> length alt = 32%nat -> is_u8 p ->
  HasPrefix (topicKey t pos id) (alt_prefix p alt) = true <-> t = alt /\ pos = p.
Proof.
  intros Ht Ha Hp. rewrite HasPrefix_spec. unfold topicKey, alt_prefix, posToBytes. rewrite u8_id by done. split.
  - intros [r Hr]. rewrite <-app_assoc in Hr. apply app_inj_1 in Hr as [-> [= -> _]]; [done|congruence].
  - intros [-> ->]. exists id. by rewrite <-app_assoc.
Qed.

Lemma other_prefix (id id' : ID) (pos : Z) : length id = length id' -> HasPrefix (otherKey id pos) id' = true <-> id = id'.
Proof.
  intros Hl. rewrite HasPrefix_spec. unfold otherKey. split; [|intros ->; by exists (posToBytes pos)].
  intros [r Hr]. by apply app_inj_1 in Hr as [-> _].
Qed.

(** ** Tables *)

Lemma elem_of_positions {A} (l : list A) (i : Z) (x : A) : (i, x) ∈ positions l <-> slice_get l i = Some x.
Proof.
  unfold positions. rewrite elem_of_lookup_imap. unfold slice_get. split.
  - intros (n & y & [= -> ->] & Hn). rewrite decide_True by lia. by rewrite Nat2Z.id.
  - case_decide; [|done]. intros Hx. exists (Z.to_nat i), x. split; [|done]. f_equal. lia.
Qed.

Lemma NoDup_positions {A} (l : list A) : NoDup (positions l).*1.
Proof.
  unfold positions. rewrite fmap_imap. apply NoDup_alt. intros i j z Hi Hj. rewrite list_lookup_imap in Hi, Hj.
  destruct (l !! i), (l !! j); cbn in Hi, Hj; try done. simplify_eq. lia.
Qed.

(** The entries of a log in the tables. *)
Definition topic_pairs (l : EvmLog) : list (bytes * slice) :=
  (fun pt => (topicKey pt.2 pt.1 (log_ID l), Some [zlen (ev_Topics l)])) <$> positions (ev_Topics l).
Definition other_pairs (l : EvmLog) : list (bytes * slice) := (fun pt => (otherKey (log_ID l) pt.1, Some pt.2)) <$> positions (ev_Topics l).
Definition logrec_value (l : EvmLog) : bytes := ev_Address l ++ ev_BlockHash l ++ ev_Data l.

Lemma elem_of_topic_pairs (l : EvmLog) (k : bytes) (v : slice) : (k, v) ∈ topic_pairs l <->
  exists pos t, slice_get (ev_Topics l) pos = Some t /\ k = topicKey t pos (log_ID l) /\ v = Some [zlen (ev_Topics l)].
Proof.
  unfold topic_pairs. rewrite list_elem_of_fmap. split.
  - intros ([pos t] & [= -> ->] & Hp%elem_of_positions). by exists pos, t.
  - intros (pos & t & Hp & -> & ->). exists (pos, t). split; [done|]. by apply elem_of_positions.
Qed.

Lemma elem_of_other_pairs (l : EvmLog) (k : bytes) (v : slice) : (k, v) ∈ other_pairs l <->
  exists pos t, slice_get (ev_Topics l) pos = Some t /\ k = otherKey (log_ID l) pos /\ v = Some t.
Proof.
  unfold other_pairs. rewrite list_elem_of_fmap. split.
  - intros ([pos t] & [= -> ->] & Hp%elem_of_positions). by exists pos, t.
  - intros (pos & t & Hp & -> & ->). exists (pos, t). split; [done|]. by apply elem_of_positions.
Qed.

Lemma topic_length (l : EvmLog) (pos : Z) (t : hash) : log_ok l -> slice_get (ev_Topics l) pos = Some t -> length t = 32%nat /\ 0 <= pos < 255.
Proof.
  intros Hl Ht. split.
  - pose proof (lo_topics _ Hl) as Hf. rewrite Forall_forall in Hf. apply Hf. unfold slice_get in Ht. case_decide; [|done]. by eapply list_elem_of_lookup_2.
  - apply slice_get_lt in Ht. pose proof (lo_count _ Hl). unfold MaxCount in *. lia.
Qed.

Lemma NoDup_topic_pairs (l : EvmLog) : log_ok l -> NoDup (topic_pairs l).*1.
Proof.
  intros Hl. unfold topic_pairs. rewrite <-list_fmap_compose. pose proof (NoDup_positions (ev_Topics l)) as Hn. apply NoDup_fmap_1 in Hn as Hn'.
  eapply (NoDup_fmap_2_strong _); [|done]. intros [p t] [q u] Hp%elem_of_positions Hq%elem_of_positions Heq. cbn in Heq.
  destruct (topic_length _ _ _ Hl Hp), (topic_length _ _ _ Hl Hq). unfold topicKey in Heq. apply app_inj_1 in Heq as [-> [= ->]]; [done|congruence].
Qed.

Lemma NoDup_other_pairs (l : EvmLog) : NoDup (other_pairs l).*1.
Proof.
  unfold other_pairs. rewrite <-list_fmap_compose. pose proof (NoDup_positions (ev_Topics l)) as Hn. apply NoDup_fmap_1 in Hn as Hn'.
  eapply (NoDup_fmap_2_strong _); [|done]. intros [p t] [q u] Hp%elem_of_positions Hq%elem_of_positions Heq. cbn in Heq.
  unfold otherKey in Heq. apply app_inv_head in Heq as [= ->]. congruence.
Qed.

Lemma foldl_insert_list {K A} `{Countable K} (l : list (K * A)) (m : gmap K A) : NoDup l.*1 ->
  foldl (fun m kv => <[kv.1 := kv.2]> m) m l = list_to_map l ∪ m.
Proof.
  revert m. induction l as [|[k v] l IH]; intros m Hn; cbn; [by rewrite map_empty_union|]. cbn in Hn. apply NoDup_cons in Hn as [Hk Hn].
  rewrite IH by done. rewrite <-insert_union_l, insert_union_r; [done|]. by apply not_elem_of_list_to_map.
Qed.

(** *** Filters of lists *)

Lemma filter_elem_iff {A} (P Q : A -> Prop) `{forall x, Decision (P x), forall x, Decision (Q x)} (l : list A) :
  (forall x, x ∈ l -> P x <-> Q x) -> filter P l = filter Q l.
Proof.
  induction l as [|x l IH]; intros Hpq; [done|]. rewrite !filter_cons. rewrite IH by (intros; apply Hpq; by right).
  pose proof (Hpq x ltac:(by left)). repeat case_decide; tauto.
Qed.

Lemma filter_partition {A} (P Q R : A -> Prop) `{forall x, Decision (P x), forall x, Decision (Q x), forall x, Decision (R x)} (l : list A) :
  (forall x, P x <-> Q x \/ R x) -> (forall x, Q x -> R x -> False) -> filter P l ≡ₚ filter Q l ++ filter R l.
Proof.
  intros Hor Hd. induction l as [|x l IH]; [done|]. rewrite !filter_cons. pose proof (Hor x). pose proof (Hd x).
  repeat case_decide; try tauto; rewrite IH; [done|]. apply Permutation_middle.
Qed.

Lemma filter_of_fmap {A B} (f : A -> B) (P : B -> Prop) `{forall x, Decision (P x)} (l : list A) : filter P (f <$> l) = f <$> filter (fun x => P (f x)) l.
Proof. induction l as [|x l IH]; [done|]. cbn [fmap list_fmap]. rewrite !filter_cons, IH. by case_decide. Qed.

Lemma filter_nothing {A} (P : A -> Prop) `{forall x, Decision (P x)} (l : list A) : (forall x, ~ P x) -> filter P l = [].
Proof. intros Hn. induction l as [|x l IH]; [done|]. rewrite filter_cons, IH. by rewrite decide_False. Qed.

Section find.
Context {S : Type} `{StoreLaws S}.
Implicit Types ix : Index S.

(** ** The tables hold the logs *)

(** What the index promises to a search. *)
Record holds (ix : Index S) (logs : list EvmLog) : Prop := {
  ho_ok : Forall log_ok logs;
  ho_ids : NoDup (log_ID <$> logs);
  ho_topic : exists m, store_view (t_Topic ix) = Some m /\ forall k v, m !! k = Some v <-> exists l, l ∈ logs /\ (k, v) ∈ topic_pairs l;
  ho_other : exists m, store_view (t_Other ix) = Some m /\ forall k v, m !! k = Some v <-> exists l, l ∈ logs /\ (k, v) ∈ other_pairs l;
  ho_logrec : exists m, store_view (t_Logrec ix) = Some m /\ forall k v, m !! k = Some v <-> exists l, l ∈ logs /\ k = log_ID l /\ v = Some (logrec_value l)
}.

Lemma push_topics_spec ix (l : EvmLog) (mt mo : gmap bytes slice) : log_ok l -> store_view (t_Topic ix) = Some mt -> store_view (t_Other ix) = Some mo ->
  exists st so, go_fold (push_topic (log_ID l) [zlen (ev_Topics l)]) (ix, None) (positions (ev_Topics l)) = Ret (mkIndex st so (t_Logrec ix), None) /\
    store_view st = Some (list_to_map (topic_pairs l) ∪ mt) /\ store_view so = Some (list_to_map (other_pairs l) ∪ mo).
Proof.
  intros Hl Ht Ho. rewrite <-(foldl_insert_list (topic_pairs l)) by (by apply NoDup_topic_pairs). rewrite <-(foldl_insert_list (other_pairs l)) by apply NoDup_other_pairs.
  unfold topic_pairs, other_pairs. assert (forall p, p ∈ positions (ev_Topics l) -> is_u8 p.1) as Hu.
  { intros [p t] Hp%elem_of_positions. destruct (topic_length _ _ _ Hl Hp) as [_ Hr]. cbn. word. }
  revert ix mt mo Ht Ho Hu. generalize (positions (ev_Topics l)). intros ps. induction ps as [|[p t] ps IH]; intros ix mt mo Ht Ho Hu; cbn [go_fold fmap list_fmap foldl fst snd].
  - exists (t_Topic ix), (t_Other ix). by destruct ix.
  - unfold push_topic at 2. cbn beta iota. rewrite bool_decide_false by (by intros [??]). rewrite (u8_id p) by (apply (Hu (p, t)); by left). unfold topics_put.
    destruct (law_Put (t_Topic ix) mt (topicKey t p (log_ID l)) [zlen (ev_Topics l)] Ht) as (st & -> & Hst).
    destruct (law_Put (t_Other ix) mo (otherKey (log_ID l) p) t Ho) as (so & Eso & Hso).
    cbn -[go_fold]. rewrite Eso. cbn -[go_fold].
    apply (IH (mkIndex st so (t_Logrec ix))); [done|done|]. intros q Hq. apply Hu. by right.
Qed.

Lemma lookup_pairs_union (l : list (bytes * slice)) (m : gmap bytes slice) (k : bytes) (v : slice) : NoDup l.*1 ->
  (forall v', (k, v') ∈ l -> m !! k = None) -> (list_to_map l ∪ m) !! k = Some v <-> (k, v) ∈ l \/ m !! k = Some v.
Proof.
  intros Hn Hd. rewrite lookup_union_Some_raw. rewrite <-elem_of_list_to_map by done. split; [intros [?|[??]]; eauto|].
  intros [?|Hm]; [by left|]. right. split; [|done]. apply not_elem_of_list_to_map. intros ([k' v'] & Ek & Hv)%list_elem_of_fmap.
  cbn in Ek. subst k'. rewrite (Hd v' Hv) in Hm. done.
Qed.

Lemma log_ID_app (logs : list EvmLog) (l l' : EvmLog) : NoDup (log_ID <$> logs ++ [l]) -> l' ∈ logs -> log_ID l' <> log_ID l.
Proof.
  rewrite fmap_app. intros (_ & Hd & _)%NoDup_app Hl' Heq. apply (Hd (log_ID l)); [|by left]. rewrite <-Heq. by apply list_elem_of_fmap_2.
Qed.

Lemma app_id_inj (a b x y : bytes) : length x = length y -> a ++ x = b ++ y -> x = y.
Proof. intros Hl Heq. by apply app_inj_2 in Heq as [_ ->]. Qed.

Lemma elem_of_snoc_or {A} (l : list A) (x y : A) : x ∈ l ++ [y] <-> x ∈ l \/ x = y.
Proof. by rewrite elem_of_app, list_elem_of_singleton. Qed.

Lemma push_log_holds ix (logs : list EvmLog) (l : EvmLog) : holds ix logs -> log_ok l -> NoDup (log_ID <$> logs ++ [l]) ->
  exists ix', push_log (ix, None) l = Ret (ix', None) /\ holds ix' (logs ++ [l]).
Proof.
  intros [Hok _ (mt & Et & Ht) (mo & Eo & Ho) (mr & Er & Hr)] Hl Hn. unfold push_log. rewrite bool_decide_false by (by intros [??]).
  pose proof (lo_count _ Hl) as Hc. pose proof (zlen_nonneg (ev_Topics l)) as Hz.
  unfold MaxCount in *. replace (zlen (ev_Topics l) >? 255) with false by lia. rewrite u8_id by word. unfold posToBytes.
  destruct (push_topics_spec ix l mt mo Hl Et Eo) as (st & so & -> & Est & Eso). cbn -[push_topic log_ID].
  unfold topics_put. destruct (law_Put (t_Logrec ix) mr (log_ID l) (logrec_value l) Er) as (sr & Esr & Hsr). unfold logrec_value in Esr. rewrite Esr.
  cbn -[log_ID]. eexists. split; [done|]. rewrite Forall_forall in Hok.
  assert (forall l', l' ∈ logs -> log_ID l' <> log_ID l /\ length (log_ID l') = length (log_ID l)) as Hne.
  { intros l' Hl'. split; [by eapply log_ID_app|]. by rewrite !length_log_ID by auto. }
  split; cbn [t_Topic t_Other t_Logrec].
  - apply Forall_app. split; [by apply Forall_forall|by constructor].
  - done.
  - eexists. split; [done|]. intros k v. rewrite lookup_pairs_union; [|by apply NoDup_topic_pairs|].
    + rewrite Ht. setoid_rewrite elem_of_snoc_or. naive_solver.
    + intros v' (p & t & _ & -> & ->)%elem_of_topic_pairs. destruct (mt !! _) as [v2|] eqn:Em; [|done]. apply Ht in Em as (l' & Hl' & (p' & t' & _ & Heq & _)%elem_of_topic_pairs).
      destruct (Hne l' Hl') as [Hne1 Hlen]. destruct Hne1. unfold topicKey in Heq. rewrite !app_assoc in Heq. symmetry. by apply app_id_inj in Heq.
  - eexists. split; [done|]. intros k v. rewrite lookup_pairs_union; [|by apply NoDup_other_pairs|].
    + rewrite Ho. setoid_rewrite elem_of_snoc_or. naive_solver.
    + intros v' (p & t & _ & -> & ->)%elem_of_other_pairs. destruct (mo !! _) as [v2|] eqn:Em; [|done]. apply Ho in Em as (l' & Hl' & (p' & t' & _ & Heq & _)%elem_of_other_pairs).
      destruct (Hne l' Hl') as [Hne1 Hlen]. destruct Hne1. unfold otherKey in Heq. by apply app_inj_1 in Heq as [-> _].
  - eexists. split; [done|]. intros k v. rewrite lookup_insert_Some, Hr. setoid_rewrite elem_of_snoc_or. split.
    + intros [[<- <-]|[Hk (l' & ? & ? & ?)]]; [exists l; eauto|exists l'; eauto].
    + intros (l' & [Hl'| ->] & -> & ->); [right|left; done]. split; [by destruct (Hne l' Hl')|]. eauto.
Qed.

Lemma push_holds ix (logs recs : list EvmLog) : holds ix logs -> Forall log_ok recs -> NoDup (log_ID <$> logs ++ recs) ->
  exists ix', Push ix recs = Ret (ix', None) /\ holds ix' (logs ++ recs).
Proof.
  unfold Push. revert ix logs. induction recs as [|l recs IH]; intros ix logs Hh Hf Hn; cbn [go_fold].
  - exists ix. by rewrite app_nil_r.
  - apply Forall_cons in Hf as [Hl Hf]. rewrite (cons_middle l logs recs), app_assoc in Hn |- *.
    destruct (push_log_holds ix logs l Hh Hl) as (ix1 & -> & Hh1).
    { rewrite fmap_app in Hn. by apply NoDup_app in Hn as (? & _ & _). }
    apply (IH ix1 (logs ++ [l])); done.
Qed.

(** A log beyond 255 topics is refused, and those after it are not written. *)
Lemma push_too_many ix (logs recs : list EvmLog) (l : EvmLog) (rest : list EvmLog) : holds ix logs -> Forall log_ok recs -> NoDup (log_ID <$> logs ++ recs) ->
  MaxCount < zlen (ev_Topics l) -> exists ix', Push ix (recs ++ l :: rest) = Ret (ix', Some ErrTooManyTopics) /\ holds ix' (logs ++ recs).
Proof.
  intros Hh Hf Hn Hl. destruct (push_holds ix logs recs Hh Hf Hn) as (ix' & E & Hh'). exists ix'. split; [|done].
  unfold Push in *. rewrite go_fold_app, E.
  assert (push_log (ix', None) l = Ret (ix', Some ErrTooManyTopics)) as E1 by (unfold push_log; by replace (zlen (ev_Topics l) >? MaxCount) with true by lia).
  cbn [mbind go_bind go_fold]. rewrite E1. cbn [mbind go_bind]. clear. by induction rest.
Qed.

(** ** The fields of a log *)

Context (BytesToHash BytesToAddress : bytes -> bytes).
Context (BytesToHash_id : forall b, length b = 32%nat -> BytesToHash b = b) (BytesToAddress_id : forall b, length b = 20%nat -> BytesToAddress b = b).
Abbreviation Fetch := (Fetch BytesToHash BytesToAddress).
Abbreviation fetch_topic := (fetch_topic BytesToHash).

(** What the index keeps of a log: not its place in the block of transactions. *)
Definition indexed (l : EvmLog) : EvmLog :=
  mkEvmLog (ev_Address l) (ev_Topics l) (ev_Data l) (ev_BlockNumber l) (ev_TxHash l) 0 (ev_BlockHash l) (ev_Index l) false.

Lemma log_unique (logs : list EvmLog) (l l' : EvmLog) : NoDup (log_ID <$> logs) -> l ∈ logs -> l' ∈ logs -> log_ID l = log_ID l' -> l = l'.
Proof.
  intros Hn [i Hi]%list_elem_of_lookup [j Hj]%list_elem_of_lookup Heq.
  assert (i = j) as ->; [|congruence]. eapply NoDup_lookup; [apply Hn|by rewrite list_lookup_fmap, Hi|by rewrite list_lookup_fmap, Hj, Heq].
Qed.

Lemma other_entries ix (logs : list EvmLog) (l : EvmLog) : holds ix logs -> l ∈ logs ->
  store_Iterate (t_Other ix) (log_ID l) ≡ₚ other_pairs l.
Proof.
  intros [Hok Hids _ (m & Em & Hm) _] Hl. rewrite Forall_forall in Hok. rewrite (law_Iterate _ m _ Em). apply NoDup_Permutation.
  - apply NoDup_fmap_1 with fst, entries_with_prefix_nodup.
  - apply NoDup_fmap_1 with fst, NoDup_other_pairs.
  - intros [k v]. rewrite elem_of_entries_with_prefix, Hm. split.
    + intros [Hp (l' & Hl' & Hkv)]. apply elem_of_other_pairs in Hkv as Hkv'. destruct Hkv' as (p & t & _ & -> & _).
      rewrite other_prefix in Hp by (by rewrite !length_log_ID by auto).
      by rewrite <-(log_unique logs l' l Hids Hl' Hl Hp).
    + intros Hkv. split; [|eauto]. apply elem_of_other_pairs in Hkv as (p & t & _ & -> & _). by apply other_prefix.
Qed.

(** A record whose topics are those of the log at the entries that were read. *)
Definition topics_read (l : EvmLog) (n : Z) (done : list (bytes * slice)) (rec : logrecBuilder) : Prop :=
  exists tops, rec = builder l (with_Topics (fresh_log l) tops) n /\ length tops = length (ev_Topics l) /\
    forall pos t, slice_get (ev_Topics l) pos = Some t ->
      slice_get tops pos = Some (if decide ((otherKey (log_ID l) pos, Some t) ∈ done) then t else ZeroHash).

Lemma fetch_topic_step (l : EvmLog) (n : Z) (done : list (bytes * slice)) (kv : bytes * slice) (rec : logrecBuilder) : log_ok l ->
  kv ∈ other_pairs l -> kv ∉ done -> topics_read l n done rec -> exists rec', fetch_topic rec kv = Ret rec' /\ topics_read l n (done ++ [kv]) rec'.
Proof.
  intros Hl Hkv Hnew (tops & -> & Hlen & Htops). destruct kv as [k v]. apply elem_of_other_pairs in Hkv as (pos & t & Hpos & -> & ->).
  destruct (topic_length _ _ _ Hl Hpos) as [Ht _]. pose proof (slice_get_lt _ _ _ Hpos) as Hr.
  unfold TopicsDb.fetch_topic. cbn [fst snd default]. rewrite extractTopicPos_key by (by apply length_log_ID). cbn [mbind go_bind].
  rewrite BytesToHash_id by done. unfold SetOtherTopic. cbn [lb_topicsCount builder lb_Log with_Topics ev_Topics].
  replace (pos >=? zlen (ev_Topics l)) with false by lia. unfold slice_at. rewrite (Htops _ _ Hpos), decide_False by done. cbn [mbind go_bind].
  rewrite bool_decide_true by done. cbn [negb]. assert (zlen tops = zlen (ev_Topics l)) as Hz by (unfold zlen; by rewrite Hlen).
  rewrite slice_set_Ret by lia. cbn [mbind go_bind]. eexists. split; [done|]. exists (<[Z.to_nat pos := t]> tops). split; [done|].
  split; [by rewrite length_insert|]. intros p u Hp. rewrite slice_get_insert by lia. case_decide as Hc.
  - subst p. rewrite Hpos in Hp. injection Hp as <-. rewrite decide_True; [done|]. apply elem_of_app. right. by left.
  - rewrite (Htops _ _ Hp). f_equal. apply decide_ext. rewrite elem_of_snoc_or. split; [by left|]. intros [?|[= Heq _]]; [done|].
    unfold otherKey in Heq. apply app_inv_head in Heq as [= ->]. done.
Qed.

Lemma fetch_topics (l : EvmLog) (n : Z) (kvs : list (bytes * slice)) : log_ok l -> kvs ≡ₚ other_pairs l ->
  go_fold fetch_topic (builder l (fresh_log l) n) kvs = Ret (builder l (with_Topics (fresh_log l) (ev_Topics l)) n).
Proof.
  intros Hl Hp. assert (NoDup kvs) as Hn by (rewrite Hp; apply NoDup_fmap_1 with fst, NoDup_other_pairs).
  destruct (go_fold_inv fetch_topic (topics_read l n) kvs (builder l (fresh_log l) n)) as (rec & -> & tops & -> & Hlen & Htops).
  - exists (ev_Topics (fresh_log l)). cbn. split; [done|]. split; [by rewrite length_replicate|]. intros pos t Ht.
    rewrite decide_False by apply not_elem_of_nil. unfold slice_get in *. case_decide; [|done].
    apply lookup_replicate. split; [done|]. by apply lookup_lt_Some in Ht.
  - intros done kv rest rec -> Hrec. apply fetch_topic_step; [done| |by apply (NoDup_app done) in Hn as (_ & Hd & _); intros Hin; apply (Hd kv Hin); left|done].
    rewrite <-Hp. apply elem_of_app. right. by left.
  - do 3 f_equal. apply list_eq_same_length with (length (ev_Topics l)); [done|done|]. intros i x y _ Hx Hy.
    specialize (Htops (Z.of_nat i) y). rewrite !slice_get_nat in Htops. rewrite decide_True in Htops; [by specialize (Htops Hy); congruence|].
    rewrite Hp. apply elem_of_other_pairs. exists (Z.of_nat i), y. by rewrite slice_get_nat.
Qed.

Lemma slice_from_app (a b : bytes) (n : Z) : zlen a = n -> slice_from (a ++ b) n = Ret b.
Proof.
  intros Ha. pose proof (zlen_nonneg a). pose proof (zlen_nonneg b). unfold slice_from. rewrite zlen_app.
  replace (_ && _) with true by lia. rewrite drop_app_length'; [done|]. unfold zlen in *. lia.
Qed.

Lemma field_app (a b c : bytes) (o n : Z) : zlen a = o -> zlen b = n -> field (a ++ b ++ c) o n = Ret b.
Proof.
  intros Ha Hb. pose proof (zlen_nonneg a). pose proof (zlen_nonneg b). pose proof (zlen_nonneg c). unfold field, slice_to. rewrite !zlen_app.
  replace (_ && _) with true by lia. cbn [mbind go_bind]. rewrite app_assoc, take_app_length'; [by apply slice_from_app|].
  rewrite length_app. unfold zlen in *. lia.
Qed.

Lemma Fetch_spec ix (logs : list EvmLog) (l : EvmLog) (n : Z) : holds ix logs -> l ∈ logs ->
  Fetch ix (builder l (fresh_log l) n) = Ret (builder l (indexed l) n, None).
Proof.
  intros Hh Hl. pose proof Hh as [Hok _ _ _ (m & Em & Hm)]. rewrite Forall_forall in Hok. pose proof (Hok l Hl) as Hlo. unfold TopicsDb.Fetch. cbn [lb_ID builder].
  rewrite (fetch_topics l n _ Hlo (other_entries ix logs l Hh Hl)). cbn [mbind go_bind]. rewrite (law_Get _ m _ Em). cbn [mbind go_bind].
  replace (m !! log_ID l) with (Some (Some (logrec_value l))) by (symmetry; apply Hm; eauto). cbn [mjoin option_join default id].
  assert (zlen (ev_Address l) = 20) as Ha by (unfold zlen; by rewrite (lo_address _ Hlo)).
  assert (zlen (ev_BlockHash l) = 32) as Hb by (unfold zlen; by rewrite (lo_blockHash _ Hlo)).
  unfold fetch_fields, logrec_value. pose proof (field_app [] (ev_Address l) (ev_BlockHash l ++ ev_Data l) 0 20 eq_refl Ha) as Ef. cbn [app] in Ef. rewrite Ef. clear Ef. cbn [mbind go_bind]. rewrite (field_app (ev_Address l)) by done. cbn [mbind go_bind].
  rewrite app_assoc, slice_from_app by (rewrite zlen_app; lia). cbn [mbind go_bind].
  rewrite BytesToAddress_id by apply Hlo. by rewrite BytesToHash_id by apply Hlo.
Qed.

(** ** Counting the conditions *)

Definition key_id (kv : bytes * slice) : ID := drop 33 kv.1.
Definition known_key (logs : list EvmLog) (kv : bytes * slice) : Prop := exists l, l ∈ logs /\ kv ∈ topic_pairs l.

(** How often a search through some keys meets a log. *)
Definition met (keys : list (bytes * slice)) (id : ID) : nat := length (filter (fun kv => key_id kv = id) keys).

Lemma met_snoc (keys : list (bytes * slice)) (kv : bytes * slice) (id : ID) : met (keys ++ [kv]) id = (met keys id + if decide (key_id kv = id) then 1 else 0)%nat.
Proof. unfold met. rewrite filter_app, length_app, filter_cons. by case_decide. Qed.

Lemma known_key_id (l : EvmLog) (kv : bytes * slice) : log_ok l -> kv ∈ topic_pairs l -> key_id kv = log_ID l.
Proof.
  intros Hl Hkv. destruct kv as [k v]. apply elem_of_topic_pairs in Hkv as (pos & t & Ht & -> & _). destruct (topic_length _ _ _ Hl Ht) as [Hlen _].
  unfold key_id, topicKey, posToBytes. cbn [fst]. rewrite app_assoc. apply drop_app_length'. rewrite length_app, Hlen. done.
Qed.

Lemma rec_for_spec {R} (recs : gmap ID R) (fresh : logrecBuilder -> R) (n : Z) (kv : bytes * slice) (l : EvmLog) : log_ok l -> kv ∈ topic_pairs l ->
  rec_for recs fresh n kv = Ret (log_ID l, default (fresh (builder l (fresh_log l) n)) (recs !! log_ID l)).
Proof.
  intros Hl Hkv. destruct kv as [k v]. apply elem_of_topic_pairs in Hkv as (pos & t & Ht & -> & ->). destruct (topic_length _ _ _ Hl Ht) as [Hlen _].
  unfold rec_for. cbn [fst snd default id]. rewrite extractLogrecID_key by (done || by apply length_log_ID). cbn [mbind go_bind].
  unfold bytesToPos. cbn [slice_at slice_get decide mbind go_bind]. replace (slice_at [zlen (ev_Topics l)] 0) with (Ret (zlen (ev_Topics l))) by done. cbn [mbind go_bind].
  destruct (recs !! log_ID l); [done|]. by rewrite newLogrecBuilder_spec.
Qed.

(** The conditions that [k] matches leave of [n]. *)
Definition left_of (n : Z) (k : nat) : Z := Z.max 0 (n - Z.of_nat k).

Lemma MatchedWith_spec (l log : EvmLog) (c count : Z) : 0 <= c <= 255 -> 0 <= count ->
  MatchedWith (builder l log c) count = (builder l log (Z.max 0 (c - count)), c <=? count).
Proof.
  intros Hc Hn. unfold MatchedWith. cbn [lb_conditions builder lb_Log lb_ID lb_topicsCount]. destruct (c >? count) eqn:E.
  - rewrite u8_id by word. replace (c <=? count) with false by lia. by replace (Z.max 0 (c - count)) with (c - count) by lia.
  - replace (c <=? count) with true by lia. by replace (Z.max 0 (c - count)) with 0 by lia.
Qed.

Lemma MatchedWith_one (l log : EvmLog) (n : Z) (k : nat) : 0 <= n <= 255 ->
  MatchedWith (builder l log (left_of n k)) 1 = (builder l log (left_of n (k + 1)), n <=? Z.of_nat k + 1).
Proof.
  intros Hn. unfold left_of. rewrite MatchedWith_spec by lia.
  replace (Z.max 0 (Z.max 0 (n - Z.of_nat k) - 1)) with (Z.max 0 (n - Z.of_nat (k + 1))) by lia.
  by replace (Z.max 0 (n - Z.of_nat k) <=? 1) with (n <=? Z.of_nat k + 1) by lia.
Qed.

(** The records after a search through some keys. *)
Definition recs_after (logs : list EvmLog) (n : Z) (keys : list (bytes * slice)) (recs : gmap ID logrecBuilder) : Prop :=
  forall id rec, recs !! id = Some rec <->
    exists l, l ∈ logs /\ log_ID l = id /\ (0 < met keys id)%nat /\ rec = builder l (fresh_log l) (left_of n (met keys id)).

Lemma recs_after_default logs n keys recs l : NoDup (log_ID <$> logs) -> 0 <= n <= 255 -> recs_after logs n keys recs -> l ∈ logs ->
  default (builder l (fresh_log l) n) (recs !! log_ID l) = builder l (fresh_log l) (left_of n (met keys (log_ID l))).
Proof.
  intros Hids Hn Hr Hl. destruct (recs !! log_ID l) as [rec|] eqn:E; cbn [default id].
  - apply Hr in E as (l' & Hl' & Heq & _ & ->). by rewrite (log_unique logs l' l Hids Hl' Hl Heq).
  - destruct (decide (met keys (log_ID l) = 0%nat)) as [->|Hne]; [unfold left_of; f_equal; lia|].
    destruct (recs !! log_ID l) eqn:E2; [done|]. enough (recs !! log_ID l = Some (builder l (fresh_log l) (left_of n (met keys (log_ID l))))) by congruence.
    apply Hr. exists l. split_and!; try done. lia.
Qed.

Lemma match_keys_spec (logs : list EvmLog) (n : Z) (keys : list (bytes * slice)) : Forall log_ok logs -> NoDup (log_ID <$> logs) -> 0 <= n <= 255 ->
  Forall (known_key logs) keys -> exists recs, go_fold (match_key n) ∅ keys = Ret recs /\ recs_after logs n keys recs.
Proof.
  intros Hok Hids Hn Hkeys. rewrite Forall_forall in Hok. pose proof (proj1 (Forall_forall _ _) Hkeys) as Hkeys'. clear Hkeys. rename Hkeys' into Hkeys. apply (go_fold_inv (match_key n) (recs_after logs n)).
  - intros id rec. rewrite lookup_empty. split; [done|]. intros (l & _ & _ & Hm & _). by apply Nat.lt_irrefl in Hm.
  - intros done kv rest recs -> Hr. destruct (Hkeys kv) as (l & Hl & Hkv); [apply elem_of_app; right; by left|]. pose proof (Hok l Hl) as Hlo.
    unfold match_key. rewrite (rec_for_spec recs (fun rec => rec) n kv l Hlo Hkv). cbn [mbind go_bind].
    rewrite (recs_after_default logs n done recs l) by done. rewrite MatchedWith_one by done. cbn [fst]. eexists. split; [done|].
    intros id rec. rewrite met_snoc, (known_key_id l kv Hlo Hkv). rewrite lookup_insert_Some, (Hr id rec). split.
    + intros [[<- <-]|[Hne (l' & Hl' & Hid & Hm & ->)]].
      * exists l. rewrite decide_True by done. split_and!; try done. lia.
      * exists l'. rewrite decide_False by done. rewrite Nat.add_0_r. done.
    + intros (l' & Hl' & Hid & Hm & ->). case_decide as Hc.
      * left. assert (l' = l) as -> by (apply (log_unique logs); congruence || done). by subst id.
      * right. split; [done|]. exists l'. rewrite Nat.add_0_r in *. done.
Qed.

(** *** The keys of a search *)

Lemma go_fold_bind {A B T} (f : T -> B -> go T) (g : A -> list B) (s : T) (l : list A) :
  go_fold f s (l ≫= g) = go_fold (fun s x => go_fold f s (g x)) s l.
Proof.
  revert s. induction l as [|x l IH]; intros s; [done|]. rewrite bind_cons, go_fold_app. cbn [go_fold]. destruct (go_fold f s (g x)); [apply IH|done].
Qed.

Lemma match_cond_alts ix (n w pos : Z) (cond : list hash) (recs : gmap ID logrecBuilder) : cond <> [] ->
  match_cond ix n (recs, w) (pos, cond) =
    recs ← go_fold (match_key n) recs (cond ≫= fun alternative => store_Iterate (t_Topic ix) (alt_prefix pos alternative)); Ret (recs, w).
Proof. intros Hc. rewrite go_fold_bind. by destruct cond. Qed.

Lemma match_conds_flat ix (n : Z) (pcs : list (Z * list hash)) (recs : gmap ID logrecBuilder) (w : Z) : is_u8 w ->
  go_fold (match_cond ix n) (recs, w) pcs =
    recs ← go_fold (match_key n) recs (pcs ≫= fun pc => pc.2 ≫= fun alternative => store_Iterate (t_Topic ix) (alt_prefix pc.1 alternative));
    Ret (recs, u8 (w + zlen (filter (fun cond => cond = []) pcs.*2))).
Proof.
  revert recs w. induction pcs as [|[pos cond] pcs IH]; intros recs w Hw; [cbn; by rewrite Z.add_0_r, u8_id|].
  cbn [go_fold]. rewrite bind_cons, go_fold_app. cbn [fst snd fmap list_fmap]. rewrite filter_cons. destruct cond as [|c cond].
  - cbn [match_cond mbind go_bind list_bind]. rewrite IH by apply u8_range. rewrite decide_True by done. cbn [go_fold mbind go_bind].
    destruct (go_fold _ _ _); [|done]. cbn [mbind go_bind]. do 2 f_equal. unfold zlen. cbn [length]. word.
  - rewrite decide_False by done. rewrite match_cond_alts by done. destruct (go_fold (match_key n) recs ((c :: cond) ≫= _)); [|done].
    cbn [mbind go_bind]. by apply IH.
Qed.

Lemma positions_snd {A} (l : list A) : (positions l).*2 = l.
Proof. unfold positions. rewrite fmap_imap. apply list_eq. intros i. rewrite list_lookup_imap. by destruct (l !! i). Qed.

Lemma match_conds_keys ix (n : Z) (topics : list (list hash)) :
  go_fold (match_cond ix n) (∅, 0) (positions topics) = recs ← go_fold (match_key n) ∅ (search_keys ix topics); Ret (recs, count_wildcards topics).
Proof. rewrite match_conds_flat by done. unfold count_wildcards. by rewrite positions_snd. Qed.

(** How often the conditions match a log. *)
Definition cond_hits (l : EvmLog) (pcs : list (Z * list hash)) : nat :=
  length (pcs ≫= fun pc => filter (fun alternative => slice_get (ev_Topics l) pc.1 = Some alternative) pc.2).
Definition hits (topics : list (list hash)) (l : EvmLog) : nat := cond_hits l (positions topics).
Definition wilds (topics : list (list hash)) : Z := zlen (filter (fun cond => cond = []) topics).

(** What the count finds. *)
Definition found (topics : list (list hash)) (l : EvmLog) : bool :=
  (0 <? Z.of_nat (hits topics l)) && (zlen topics <=? Z.of_nat (hits topics l) + wilds topics).

(** Conditions on hashes, at most 255 of them. *)
Definition conds_ok (topics : list (list hash)) : Prop := zlen topics <= MaxCount /\ Forall (Forall (fun t => length t = 32%nat)) topics.

Lemma met_app (k1 k2 : list (bytes * slice)) (id : ID) : met (k1 ++ k2) id = (met k1 id + met k2 id)%nat.
Proof. unfold met. by rewrite filter_app, length_app. Qed.

Lemma met_alternative ix (logs : list EvmLog) (l : EvmLog) (pos : Z) (alt : hash) : holds ix logs -> l ∈ logs -> 0 <= pos < 255 -> length alt = 32%nat ->
  met (store_Iterate (t_Topic ix) (alt_prefix pos alt)) (log_ID l) = (if decide (slice_get (ev_Topics l) pos = Some alt) then 1 else 0)%nat.
Proof.
  intros [Hok Hids (m & Em & Hm) _ _] Hl Hpos Halt. rewrite Forall_forall in Hok. rewrite (law_Iterate _ m _ Em). unfold met.
  assert (is_u8 pos) as Hu by word.
  assert (forall kv, kv ∈ filter (fun kv => key_id kv = log_ID l) (entries_with_prefix (alt_prefix pos alt) m) <->
            slice_get (ev_Topics l) pos = Some alt /\ kv = (topicKey alt pos (log_ID l), Some [zlen (ev_Topics l)])) as Hel.
  { intros [k v]. rewrite list_elem_of_filter, elem_of_entries_with_prefix, Hm. split.
    - intros (Hid & Hp & l' & Hl' & Hkv). rewrite (known_key_id l' (k, v)) in Hid by auto. rewrite (log_unique logs l' l Hids Hl' Hl Hid) in Hkv.
      apply elem_of_topic_pairs in Hkv as (p & t & Ht & -> & ->). destruct (topic_length _ _ _ (Hok l Hl) Ht). apply topic_prefix in Hp as [-> ->]; done.
    - intros [Ht [= -> ->]]. assert ((topicKey alt pos (log_ID l), Some [zlen (ev_Topics l)]) ∈ topic_pairs l) as Hkv by (apply elem_of_topic_pairs; eauto).
      split; [by apply known_key_id; auto|]. split; [by apply topic_prefix|]. eauto. }
  set (lst := filter _ _) in *.
  assert (NoDup lst) as Hn by (apply NoDup_filter, NoDup_fmap_1 with fst, entries_with_prefix_nodup).
  case_decide as Hc.
  - rewrite (NoDup_Permutation lst [(topicKey alt pos (log_ID l), Some [zlen (ev_Topics l)])]); [done|done|apply NoDup_singleton|].
    intros kv. rewrite Hel, list_elem_of_singleton. naive_solver.
  - rewrite (NoDup_Permutation lst []); [done|done|apply NoDup_nil_2|]. intros kv. rewrite Hel. split; [naive_solver|by intros ?%not_elem_of_nil].
Qed.

Lemma met_cond ix (logs : list EvmLog) (l : EvmLog) (pos : Z) (cond : list hash) : holds ix logs -> l ∈ logs -> 0 <= pos < 255 -> Forall (fun t => length t = 32%nat) cond ->
  met (cond ≫= fun alternative => store_Iterate (t_Topic ix) (alt_prefix pos alternative)) (log_ID l) =
    length (filter (fun alternative => slice_get (ev_Topics l) pos = Some alternative) cond).
Proof.
  intros Hh Hl Hpos. induction 1 as [|alt cond Ha _ IH]; [done|]. rewrite bind_cons, met_app, IH, (met_alternative ix logs) by done.
  rewrite filter_cons. by case_decide.
Qed.

Lemma met_hits ix (logs : list EvmLog) (topics : list (list hash)) (l : EvmLog) : holds ix logs -> conds_ok topics -> l ∈ logs ->
  met (search_keys ix topics) (log_ID l) = hits topics l.
Proof.
  intros Hh [Hc Hf] Hl. unfold search_keys, hits, cond_hits.
  assert (Forall (fun pc => 0 <= pc.1 < 255 /\ Forall (fun t => length t = 32%nat) pc.2) (positions topics)) as Hpcs.
  { apply Forall_forall. intros [pos cond] Hp%elem_of_positions. pose proof (slice_get_lt _ _ _ Hp). unfold MaxCount in Hc. split; [cbn; lia|].
    rewrite Forall_forall in Hf. apply Hf. unfold slice_get in Hp. case_decide; [|done]. by eapply list_elem_of_lookup_2. }
  induction Hpcs as [|[pos cond] pcs [Hpos Hcond] _ IH]; [done|]. rewrite !bind_cons, met_app, length_app, IH. cbn [fst snd] in *.
  by rewrite (met_cond ix logs).
Qed.

Lemma search_keys_known ix (logs : list EvmLog) (topics : list (list hash)) : holds ix logs -> Forall (known_key logs) (search_keys ix topics).
Proof.
  intros [_ _ (m & Em & Hm) _ _]. apply Forall_forall. intros [k v] ([pos cond] & (alt & Hkv & _)%list_elem_of_bind & _)%list_elem_of_bind.
  rewrite (law_Iterate _ m _ Em) in Hkv. apply elem_of_entries_with_prefix in Hkv as [_ Hkv]. by apply Hm.
Qed.

Lemma wilds_range (topics : list (list hash)) : 0 <= wilds topics <= zlen topics.
Proof. unfold wilds, zlen. pose proof (length_filter (fun cond : list hash => cond = []) topics). lia. Qed.

Lemma count_wildcards_eq (topics : list (list hash)) : conds_ok topics -> count_wildcards topics = wilds topics.
Proof. intros [Hc _]. pose proof (wilds_range topics). unfold count_wildcards. fold (wilds topics). unfold MaxCount in Hc. rewrite u8_id; [done|]. word. Qed.

(** *** Reading the found records *)

Context (rangeRecs : gmap ID logrecBuilder -> list (ID * logrecBuilder)) (rangeRecs_perm : forall m, rangeRecs m ≡ₚ map_to_list m).
Abbreviation collect := (collect BytesToHash BytesToAddress).
Abbreviation fetchSync := (fetchSync BytesToHash BytesToAddress rangeRecs).

Lemma collect_reads ix (logs : list EvmLog) (n w : Z) (k : EvmLog -> nat) (ls : list EvmLog) (res : list EvmLog) : holds ix logs -> (forall l, l ∈ ls -> l ∈ logs) ->
  0 <= n <= 255 -> 0 <= w ->
  collect ix w ((fun l => (log_ID l, builder l (fresh_log l) (left_of n (k l)))) <$> ls) res =
    Ret (inr (res ++ (indexed <$> filter (fun l => n <= Z.of_nat (k l) + w) ls))).
Proof.
  intros Hh Hls Hn Hw. revert res. induction ls as [|l ls IH]; intros res; cbn [fmap list_fmap TopicsDb.collect]; [cbn; by rewrite app_nil_r|].
  specialize (IH ltac:(intros; apply Hls; by right)). rewrite MatchedWith_spec by (unfold left_of; lia). cbn [fst].
  rewrite filter_cons. replace (IsMatched (builder l (fresh_log l) (Z.max 0 (left_of n (k l) - w)))) with (Z.max 0 (left_of n (k l) - w) =? 0) by done.
  unfold left_of at 1 3. case_decide as Hc.
  - replace (Z.max 0 _ =? 0) with true by lia. cbn [negb]. rewrite (Fetch_spec ix logs) by (done || apply Hls; by left). cbn [mbind go_bind].
    rewrite IH. cbn [fmap list_fmap]. by rewrite <-app_assoc.
  - replace (Z.max 0 _ =? 0) with false by lia. cbn [negb]. apply IH.
Qed.

Lemma recs_after_list (logs : list EvmLog) (n : Z) (keys : list (bytes * slice)) (recs : gmap ID logrecBuilder) : NoDup (log_ID <$> logs) ->
  recs_after logs n keys recs ->
  map_to_list recs ≡ₚ (fun l => (log_ID l, builder l (fresh_log l) (left_of n (met keys (log_ID l))))) <$> filter (fun l => (0 < met keys (log_ID l))%nat) logs.
Proof.
  intros Hids Hr. apply NoDup_Permutation.
  - apply NoDup_map_to_list.
  - apply NoDup_fmap_2_strong; [|apply NoDup_filter, (NoDup_fmap_1 log_ID), Hids].
    intros l l' [_ Hl]%list_elem_of_filter [_ Hl']%list_elem_of_filter Heq. apply (f_equal fst) in Heq. cbn in Heq. by apply (log_unique logs).
  - intros [id rec]. rewrite elem_of_map_to_list, (Hr id rec), list_elem_of_fmap. split.
    + intros (l & Hl & <- & Hm & ->). exists l. split; [done|]. by apply list_elem_of_filter.
    + intros (l & [= -> ->] & [Hm Hl]%list_elem_of_filter). by exists l.
Qed.

(** The search finds the logs that are counted often enough, each once. *)
Lemma fetchSync_spec ix (logs : list EvmLog) (topics : list (list hash)) : holds ix logs -> conds_ok topics ->
  exists r, fetchSync ix topics = Ret (inr r) /\ r ≡ₚ indexed <$> filter (fun l => found topics l = true) logs.
Proof.
  intros Hh Hc. pose proof Hh as [Hok Hids _ _ _]. unfold TopicsDb.fetchSync. destruct Hc as [Hlen Hf] eqn:Ec. clear Ec.
  assert (conds_ok topics) as Hc' by done. pose proof (zlen_nonneg topics). pose proof (wilds_range topics). unfold MaxCount in *.
  replace (zlen topics >? 255) with false by lia. rewrite u8_id by word. rewrite match_conds_keys.
  destruct (match_keys_spec logs (zlen topics) (search_keys ix topics)) as (recs & -> & Hr); [done|done|lia|by apply search_keys_known|]. cbn [mbind go_bind].
  rewrite count_wildcards_eq by done. pose proof (recs_after_list logs _ _ _ Hids Hr) as Hp. rewrite <-rangeRecs_perm in Hp.
  apply Permutation_map_inv in Hp as (ls & -> & Hls). rewrite (collect_reads ix logs); [|done| |lia|lia].
  - eexists. split; [done|]. cbn [app]. apply Permutation_map. rewrite <-Hls. rewrite list_filter_filter.
    erewrite (filter_elem_iff (A := EvmLog)); [done|]. intros l Hl. cbn beta. rewrite (met_hits ix logs) by done. unfold found. lia.
  - intros l Hl. rewrite <-Hls in Hl. by apply list_elem_of_filter in Hl as [_ ?].
Qed.

(** ** The logs that match *)

(** Each condition with alternatives has the log's topic at its position. *)
Definition cond_matches (l : EvmLog) (pc : Z * list hash) : bool :=
  match pc.2 with
  | [] => true
  | _ :: _ => match slice_get (ev_Topics l) pc.1 with Some t => existsb (fun topic => bool_decide (t = topic)) pc.2 | None => false end
  end.
Definition log_matches (topics : list (list hash)) (l : EvmLog) : bool := forallb (cond_matches l) (positions topics).

Lemma existsb_topic (t : hash) (cond : list hash) : existsb (fun topic => bool_decide (t = topic)) cond = true <-> t ∈ cond.
Proof.
  rewrite existsb_exists. setoid_rewrite bool_decide_eq_true. setoid_rewrite list_elem_of_In. naive_solver.
Qed.

Lemma cond_matches_spec (l : EvmLog) (pos : Z) (cond : list hash) : cond <> [] ->
  cond_matches l (pos, cond) = true <-> exists t, slice_get (ev_Topics l) pos = Some t /\ t ∈ cond.
Proof.
  intros Hc. unfold cond_matches. cbn [fst snd]. destruct cond as [|c cond]; [done|]. destruct (slice_get (ev_Topics l) pos) as [t|].
  - rewrite existsb_topic. naive_solver.
  - naive_solver.
Qed.

(** The alternatives of one condition that match. *)
Definition alt_hits (l : EvmLog) (pc : Z * list hash) : nat := length (filter (fun alternative => slice_get (ev_Topics l) pc.1 = Some alternative) pc.2).

Lemma alt_hits_pos (l : EvmLog) (pos : Z) (cond : list hash) : (0 < alt_hits l (pos, cond))%nat <-> cond <> [] /\ cond_matches l (pos, cond) = true.
Proof.
  unfold alt_hits. cbn [fst snd]. split.
  - intros Hlen. destruct (filter _ cond) as [|t rest] eqn:E; [by apply Nat.lt_irrefl in Hlen|].
    assert (t ∈ t :: rest) as Ht by (by left). rewrite <-E in Ht. apply list_elem_of_filter in Ht as [Ht Hin].
    assert (cond <> []) as Hne by (by intros ->; apply not_elem_of_nil in Hin). split; [done|]. apply cond_matches_spec; eauto.
  - intros [Hne (t & Ht & Hin)%cond_matches_spec]; [|done].
    assert (t ∈ filter (fun alternative => slice_get (ev_Topics l) pos = Some alternative) cond) as Hf by (by apply list_elem_of_filter).
    destruct (filter _ cond); [by apply not_elem_of_nil in Hf|cbn; lia].
Qed.

Lemma alt_hits_one (l : EvmLog) (pos : Z) (cond : list hash) : NoDup cond -> (alt_hits l (pos, cond) <= 1)%nat.
Proof.
  intros Hn. unfold alt_hits. cbn [fst snd]. apply (NoDup_filter (fun alternative => slice_get (ev_Topics l) pos = Some alternative)) in Hn.
  assert (forall x, x ∈ filter (fun alternative => slice_get (ev_Topics l) pos = Some alternative) cond -> slice_get (ev_Topics l) pos = Some x) as Hf
    by (intros x Hx; by apply list_elem_of_filter in Hx as [? _]).
  destruct (filter _ cond) as [|x [|y rest]]; cbn; [lia|lia|]. apply NoDup_cons in Hn as [Hx _]. destruct Hx.
  assert (Some x = Some y) as [= ->] by (rewrite <-(Hf x), <-(Hf y); [done|right; by left|by left]). by left.
Qed.

Definition alts (pcs : list (Z * list hash)) : nat := length (filter (fun pc => pc.2 <> []) pcs).

Lemma cond_hits_cons (l : EvmLog) (pc : Z * list hash) (pcs : list (Z * list hash)) : cond_hits l (pc :: pcs) = (alt_hits l pc + cond_hits l pcs)%nat.
Proof. unfold cond_hits. by rewrite bind_cons, length_app. Qed.

Lemma alts_cons (pos : Z) (cond : list hash) (pcs : list (Z * list hash)) : alts ((pos, cond) :: pcs) = ((if decide (cond = []) then 0 else 1) + alts pcs)%nat.
Proof. unfold alts. rewrite filter_cons. cbn [snd]. repeat case_decide; try done; naive_solver. Qed.

Lemma matched_hits (l : EvmLog) (pcs : list (Z * list hash)) : forallb (cond_matches l) pcs = true -> (alts pcs <= cond_hits l pcs)%nat.
Proof.
  induction pcs as [|[pos cond] pcs IH]; [done|]. cbn [forallb]. intros [Hm Hr]%andb_true_iff. rewrite cond_hits_cons, alts_cons. specialize (IH Hr).
  case_decide; [lia|]. pose proof (proj2 (alt_hits_pos l pos cond) ltac:(done)). lia.
Qed.

Lemma single_hits (l : EvmLog) (pcs : list (Z * list hash)) : Forall (fun pc => NoDup pc.2) pcs ->
  (cond_hits l pcs <= alts pcs)%nat /\ (cond_hits l pcs = alts pcs -> forallb (cond_matches l) pcs = true).
Proof.
  induction 1 as [|[pos cond] pcs Hn _ [IH1 IH2]]; [done|]. cbn [snd] in Hn. rewrite cond_hits_cons, alts_cons. cbn [forallb].
  pose proof (alt_hits_one l pos cond Hn). case_decide as Hc.
  - subst cond. change (alt_hits l (pos, [])) with 0%nat. rewrite andb_true_iff. split; [lia|]. intros E. split; [done|]. apply IH2. lia.
  - split; [lia|]. intros E. rewrite andb_true_iff. split; [|apply IH2; lia]. apply alt_hits_pos. lia.
Qed.

Lemma alts_wilds (topics : list (list hash)) : Z.of_nat (alts (positions topics)) + wilds topics = zlen topics.
Proof.
  unfold wilds, alts, zlen. rewrite <-(positions_snd topics) at 2 3. induction (positions topics) as [|[pos cond] pcs IH]; [done|].
  cbn [fmap list_fmap]. rewrite !filter_cons. cbn [snd]. destruct (decide (cond = [])) as [->|Hc]; repeat case_decide; try done; cbn [length] in *; lia.
Qed.

Lemma isEmpty_alts (topics : list (list hash)) : isEmpty topics = false -> (0 < alts (positions topics))%nat.
Proof.
  unfold isEmpty, alts. rewrite <-(positions_snd topics) at 1. induction (positions topics) as [|[pos cond] pcs IH]; [done|]. cbn [fmap list_fmap forallb]. rewrite filter_cons. cbn [snd].
  case_decide as Hc; [cbn; lia|]. destruct cond as [|c cond]; [|done]. cbn. apply IH.
Qed.

(** A log that matches is found. *)
Lemma matches_found (topics : list (list hash)) (l : EvmLog) : isEmpty topics = false -> log_matches topics l = true -> found topics l = true.
Proof.
  intros He Hm. apply isEmpty_alts in He. apply matched_hits in Hm. pose proof (alts_wilds topics). unfold found. fold (hits topics l) in Hm. lia.
Qed.

(** Without a repeated alternative only such logs are found. *)
Lemma found_matches (topics : list (list hash)) (l : EvmLog) : isEmpty topics = false -> Forall NoDup topics -> found topics l = log_matches topics l.
Proof.
  intros He Hn. apply eq_true_iff_eq. split; [|by apply matches_found]. intros Hf. pose proof (alts_wilds topics).
  assert (Forall (fun pc => NoDup pc.2) (positions topics)) as Hn' by (apply Forall_fmap; by rewrite positions_snd).
  destruct (single_hits l (positions topics) Hn') as [Hle Heq]. apply Heq. unfold found, hits in Hf. lia.
Qed.

(** Then each condition is counted at most once for a log. *)
Lemma hits_bound (topics : list (list hash)) (l : EvmLog) : Forall NoDup topics -> Z.of_nat (hits topics l) <= zlen topics.
Proof.
  intros Hn. pose proof (alts_wilds topics). pose proof (wilds_range topics).
  assert (Forall (fun pc => NoDup pc.2) (positions topics)) as Hn' by (apply Forall_fmap; by rewrite positions_snd).
  destruct (single_hits l (positions topics) Hn') as [Hle _]. unfold hits. lia.
Qed.

(** ** The search with goroutines *)

Abbreviation find_step := (find_step BytesToHash BytesToAddress).
Abbreviation find_crashes := (find_crashes BytesToHash BytesToAddress).
Abbreviation worker_step := (worker_step BytesToHash BytesToAddress).
Implicit Types c : asyncRec.

(** *** Every step counts down *)

Definition rank (wk : worker) : nat := match wk with Starting => 4 | Waiting => 3 | Fetching => 2 | Ready _ => 1 | Ended => 0 end.
Definition ranks (recs : gmap ID asyncRec) : nat := map_fold (fun _ c a => (rank (ar_worker c) + a)%nat) 0%nat recs.

Lemma ranks_insert (recs : gmap ID asyncRec) (id : ID) c :
  (ranks (<[id := c]> recs) + match recs !! id with Some c0 => rank (ar_worker c0) | None => 0 end = ranks recs + rank (ar_worker c))%nat.
Proof.
  assert (forall m c0, m !! id = None -> ranks (<[id := c0]> m) = (rank (ar_worker c0) + ranks m)%nat) as Hi.
  { intros m c0 Hm. unfold ranks. rewrite map_fold_insert_L; [done| |done]. intros. lia. }
  destruct (recs !! id) as [c0|] eqn:E; [|rewrite Hi by done; lia].
  rewrite <-(insert_delete_id recs id c0 E) at 2. rewrite <-insert_delete_eq. rewrite !Hi by apply lookup_delete_eq. lia.
Qed.

Definition point_rank (s : search) : nat :=
  match sr_point s with
  | Matching keys => (2 * (size (sr_recs s) + length keys) + 2 + 5 * length keys)%nat
  | Collecting todo => (2 * size todo + 1)%nat
  | Building _ todo => (2 * size todo + 2)%nat
  | Returned _ => 0%nat
  end.
Definition search_rank (s : search) : nat := (ranks (sr_recs s) + point_rank s)%nat.

Lemma signalled_worker c c' (count : Z) : signalled c count = Some c' -> ar_worker c' = ar_worker c.
Proof. unfold signalled. destruct (MatchedWith _ _) as [rec send]. destruct (send && ar_ok c); [done|]. by intros [= <-]. Qed.

Lemma rec_for_inv {R} (recs : gmap ID R) (fresh : logrecBuilder -> R) (n : Z) (kv : bytes * slice) (id : ID) (r : R) :
  rec_for recs fresh n kv = Ret (id, r) -> recs !! id = Some r \/ recs !! id = None /\ exists rec, r = fresh rec.
Proof.
  unfold rec_for. intros Hr. go_inv Hr. destruct (recs !! x) as [r0|] eqn:E1; [injection Hr as <- <-; by left|]. go_inv Hr. injection Hr as <- <-. right. eauto.
Qed.

Lemma size_insert_le (recs : gmap ID asyncRec) (id : ID) c : size (<[id := c]> recs) = (size recs + match recs !! id with Some _ => 0 | None => 1 end)%nat.
Proof. destruct (recs !! id) eqn:E; [rewrite map_size_insert_Some by eauto|rewrite map_size_insert_None by done]; lia. Qed.

Lemma search_step_down (n w : Z) (s s' : search) (choice : ID) : search_step n w s choice = Ret (Some s') -> (search_rank s' < search_rank s)%nat.
Proof.
  destruct s as [recs pt res]. unfold search_step, search_rank, point_rank. cbn [sr_point sr_recs sr_res]. destruct pt as [[|kv keys]|todo|id todo|r].
  - intros [= <-]. cbn. rewrite size_dom. lia.
  - intros Hs. go_inv Hs. destruct x as [id c]. apply rec_for_inv in E. injection Hs as Hs. destruct (signalled c 1) as [c'|] eqn:Ec; [|done].
    injection Hs as <-. cbn [sr_point sr_recs length]. apply signalled_worker in Ec. pose proof (ranks_insert recs id c') as Hr. rewrite size_insert_le.
    destruct E as [E|[E [rec ->]]]; rewrite E in *; rewrite Ec in Hr; cbn [StartFetch ar_worker rank] in Hr; lia.
  - destruct (decide (todo = ∅)) as [->|Hne]; [intros [= <-]; cbn; lia|]. destruct (decide (choice ∈ todo)) as [Hin|]; [|done].
    destruct (recs !! choice) as [c|] eqn:E; [|done]. intros [= Hs]. destruct (signalled c w) as [c'|] eqn:Ec; [|done]. injection Hs as <-. cbn [sr_point sr_recs].
    apply signalled_worker in Ec. pose proof (ranks_insert recs choice c') as Hr. rewrite E, Ec in Hr.
    assert (size (todo ∖ {[choice]}) + 1 = size todo)%nat as Hsz by (rewrite size_difference by set_solver; rewrite size_singleton; pose proof (size_non_empty_iff todo); pose proof (proj1 (size_empty_iff todo)); destruct (size todo) eqn:Es; [set_solver|lia]).
    destruct (IsMatched _); cbn; lia.
  - destruct (recs !! id) as [c|] eqn:E; [|done]. pose proof (fun c0 => ranks_insert recs id c0) as Hr. rewrite E in Hr. unfold Build.
    destruct (ar_worker c) as [| | |[err|]|] eqn:Ew; try done; intros [= <-]; cbn [sr_point sr_recs].
    + specialize (Hr (mkAsync (ar_rec c) (ar_ok c) Ended)). cbn [ar_worker rank] in Hr. lia.
    + specialize (Hr (mkAsync (ar_rec c) (ar_ok c) Ended)). cbn [ar_worker rank] in Hr. lia.
    + specialize (Hr c). rewrite Ew in Hr. lia.
  - done.
Qed.

Lemma worker_step_down ix (s s' : search) (id : ID) : worker_step ix s id = Ret (Some s') -> (search_rank s' < search_rank s)%nat.
Proof.
  destruct s as [recs pt res]. unfold TopicsDb.worker_step, search_rank. cbn [sr_point sr_recs sr_res]. destruct (recs !! id) as [c|] eqn:E; [|done].
  assert (forall c', (rank (ar_worker c') < rank (ar_worker c))%nat ->
    (ranks (<[id := c']> recs) + point_rank (mkSearch (<[id := c']> recs) pt res) < ranks recs + point_rank (mkSearch recs pt res))%nat) as Hd.
  { intros c' Hc'. pose proof (ranks_insert recs id c') as Hr. rewrite E in Hr. assert (point_rank (mkSearch (<[id := c']> recs) pt res) = point_rank (mkSearch recs pt res)) as ->; [|lia].
    unfold point_rank. cbn [sr_point sr_recs]. by rewrite size_insert_le, E, Nat.add_0_r. }
  destruct (ar_worker c) eqn:Ew; cbn [rank] in Hd; intros Hs; try done.
  - destruct (stopped _); [done|]. injection Hs as <-. apply Hd. cbn. lia.
  - destruct (ar_ok c); [|destruct (stopped _); [|done]]; injection Hs as <-; apply Hd; cbn; lia.
  - go_inv Hs. destruct x as [rec err]. injection Hs as <-. apply Hd. cbn. lia.
Qed.

(** No search goes on forever. *)
Lemma find_step_sn ix (topics : list (list hash)) (s : search) : sn (find_step ix topics) s.
Proof.
  induction s as [s IH] using (induction_ltof1 _ search_rank). constructor. intros s' Hs. apply IH. unfold ltof. destruct Hs as [choice Hs|id Hs]; [by eapply search_step_down|by eapply worker_step_down].
Qed.

(** *** What a search keeps *)

Section async.
Context (ix : Index S) (logs : list EvmLog) (topics : list (list hash)).
Context (Hix : holds ix logs) (Htopics : conds_ok topics) (Hsome : isEmpty topics = false).
Abbreviation n := (zlen topics).
Abbreviation w := (wilds topics).
Abbreviation keys := (search_keys ix topics).

Lemma async_count : 1 <= n <= 255 /\ 0 <= w <= n /\ u8 n = n /\ count_wildcards topics = w.
Proof.
  pose proof (isEmpty_alts topics Hsome). pose proof (alts_wilds topics). pose proof (wilds_range topics). rewrite count_wildcards_eq by done.
  destruct Htopics as [Hn _]. unfold MaxCount in Hn. split_and!; try lia. apply u8_id. word.
Qed.

(** The signals that a record was sent, and those that its matches give. *)
Definition sent c : nat := ((if ar_ok c then 1 else 0) + match ar_worker c with Starting | Waiting => 0 | _ => 1 end)%nat.
Definition due (k : nat) (coll : bool) : nat := (k + 1 - Z.to_nat n + (if coll && (n <=? Z.of_nat k + w)%Z then 1 else 0))%nat.

(** A record of a log that [k] keys met, before or after [range] came to it. *)
Record rec_ok (l : EvmLog) (k : nat) (coll : bool) c : Prop := {
  ro_rec : ar_rec c = builder l (match ar_worker c with Ready _ | Ended => indexed l | _ => fresh_log l end)
                        (if coll then Z.max 0 (left_of n k - w) else left_of n k);
  ro_sent : sent c = due k coll;
  ro_err : forall err, ar_worker c = Ready err -> err = None;
  ro_open : coll = false -> ar_worker c <> Ended
}.

Lemma sent_le c : (sent c <= 2)%nat.
Proof. unfold sent. destruct (ar_ok c), (ar_worker c); lia. Qed.

Lemma rec_ok_fresh (l : EvmLog) : rec_ok l 0 false (StartFetch (builder l (fresh_log l) n)).
Proof.
  destruct async_count as (Hn & _). split; cbn; [unfold left_of; f_equal; lia|unfold due, sent; cbn; lia|done|done].
Qed.

Lemma signalled_sent c c' (count : Z) : signalled c count = Some c' ->
  ar_rec c' = (MatchedWith (ar_rec c) count).1 /\ ar_worker c' = ar_worker c /\ sent c' = (sent c + if (MatchedWith (ar_rec c) count).2 then 1 else 0)%nat.
Proof.
  unfold signalled, sent. destruct (MatchedWith (ar_rec c) count) as [rec send]. destruct send, (ar_ok c) eqn:Eo; cbn; try done; intros [= <-]; cbn; split_and!; try done; lia.
Qed.

Lemma rec_ok_match (l : EvmLog) (k : nat) c c' : rec_ok l k false c -> signalled c 1 = Some c' -> rec_ok l (k + 1) false c'.
Proof.
  intros [Hr Hs He Ho] Hsig. destruct async_count as (Hn & _). apply signalled_sent in Hsig as (Er & Ew & Es). rewrite Hr, MatchedWith_one in Er, Es by lia. cbn [fst snd] in *.
  split; rewrite ?Ew; [done| |done|done]. rewrite Es, Hs. unfold due. cbn [andb]. destruct (n <=? Z.of_nat k + 1) eqn:E; lia.
Qed.

Lemma left_of_range (k : nat) : 0 <= left_of n k <= 255.
Proof. destruct async_count as (Hn & _). unfold left_of. lia. Qed.

Lemma rec_ok_collect (l : EvmLog) (k : nat) c c' : rec_ok l k false c -> signalled c w = Some c' ->
  rec_ok l k true c' /\ IsMatched (ar_rec c') = (n <=? Z.of_nat k + w) /\ ar_worker c' <> Ended.
Proof.
  intros [Hr Hs He Ho] Hsig. destruct async_count as (Hn & Hw & _). pose proof (left_of_range k). apply signalled_sent in Hsig as (Er & Ew & Es).
  rewrite Hr, MatchedWith_spec in Er, Es by lia. cbn [fst snd] in *. assert ((left_of n k <=? w) = (n <=? Z.of_nat k + w)) as Hle by (unfold left_of; lia). rewrite Hle in Es.
  split_and!; [split; rewrite ?Ew; [done| |done|done]| |rewrite Ew; auto].
  - rewrite Es, Hs. unfold due. cbn [andb]. lia.
  - rewrite Er. change (IsMatched _) with (Z.max 0 (left_of n k - w) =? 0). rewrite <-Hle. lia.
Qed.

(** The record of a goroutine that still has to fetch. *)
Definition fetchable c : Prop :=
  exists l cond, l ∈ logs /\ match ar_worker c with Ready _ | Ended => True | _ => ar_rec c = builder l (fresh_log l) cond end.

Lemma rec_ok_fetchable (l : EvmLog) (k : nat) (coll : bool) c : l ∈ logs -> rec_ok l k coll c -> fetchable c.
Proof. intros Hl [Hr _ _ _]. exists l. eexists. split; [done|]. destruct (ar_worker c); done. Qed.

Lemma worker_fetchable s (id : ID) c : sr_recs s !! id = Some c -> fetchable c ->
  exists o, worker_step ix s id = Ret o /\ forall s', o = Some s' -> exists c', s' = mkSearch (<[id := c']> (sr_recs s)) (sr_point s) (sr_res s) /\ fetchable c'.
Proof.
  intros Hid (l & cond & Hl & Hf). unfold TopicsDb.worker_step. rewrite Hid. destruct (ar_worker c) eqn:Ew.
  - destruct (stopped s); eexists; (split; [done|]); intros s' [= <-]; eexists; (split; [done|]); exists l, cond; done.
  - destruct (ar_ok c); [|destruct (stopped s)]; eexists; (split; [done|]); intros s' [= <-]; eexists; (split; [done|]); exists l, cond; done.
  - rewrite Hf, (Fetch_spec ix logs) by done. eexists. split; [done|]. intros s' [= <-]. eexists. split; [done|]. by exists l, cond.
  - eexists. by split.
  - eexists. by split.
Qed.

(** A goroutine that is not waiting for the search goes on. *)
Definition runnable c : Prop := match ar_worker c with Starting | Fetching => True | Waiting => ar_ok c = true | _ => False end.

Lemma worker_ok s (id : ID) c (l : EvmLog) (k : nat) (coll : bool) : stopped s = false -> sr_recs s !! id = Some c -> l ∈ logs -> rec_ok l k coll c ->
  exists o, worker_step ix s id = Ret o /\ (runnable c -> is_Some o) /\
    forall s', o = Some s' -> exists c', s' = mkSearch (<[id := c']> (sr_recs s)) (sr_point s) (sr_res s) /\ rec_ok l k coll c' /\ ar_worker c' <> Ended.
Proof.
  intros Hst Hid Hl [Hr Hs He Ho]. unfold TopicsDb.worker_step, runnable. rewrite Hid, Hst. unfold sent in Hs. destruct (ar_worker c) eqn:Ew.
  - eexists. split; [done|]. split; [done|]. intros s' [= <-]. eexists. split; [done|]. by split.
  - destruct (ar_ok c); eexists; (split; [done|]); (split; [done|]); intros s' [= <-]. eexists. split; [done|]. by split.
  - rewrite Hr, (Fetch_spec ix logs) by done. eexists. split; [done|]. split; [done|]. intros s' [= <-]. eexists. split; [done|].
    split; [|done]. split; cbn; [done|done| |done]. by intros err [= <-].
  - eexists. split; [done|]. by split.
  - eexists. split; [done|]. by split.
Qed.

(** The records: those of the logs that some keys met. *)
Definition recs_ok (count : ID -> nat) (coll : ID -> bool) (recs : gmap ID asyncRec) : Prop :=
  (forall id c, recs !! id = Some c -> exists l, l ∈ logs /\ log_ID l = id /\ (0 < count id)%nat /\ rec_ok l (count id) (coll id) c) /\
  (forall l, l ∈ logs -> (0 < count (log_ID l))%nat -> is_Some (recs !! log_ID l)).

Lemma recs_ok_insert (count count' : ID -> nat) (coll coll' : ID -> bool) (recs : gmap ID asyncRec) (l : EvmLog) c :
  recs_ok count coll recs -> l ∈ logs -> (0 < count' (log_ID l))%nat -> rec_ok l (count' (log_ID l)) (coll' (log_ID l)) c ->
  (forall id, id <> log_ID l -> count' id = count id /\ coll' id = coll id) -> recs_ok count' coll' (<[log_ID l := c]> recs).
Proof.
  intros [H1 H2] Hl Hk Hc Hsame. split.
  - intros id c1. rewrite lookup_insert_Some. intros [[<- <-]|[Hne Hid]]; [by exists l|]. destruct (Hsame id) as [-> ->]; [done|]. by apply H1.
  - intros l' Hl' Hk'. destruct (decide (log_ID l' = log_ID l)) as [->|Hne]; [rewrite lookup_insert_eq; eauto|]. rewrite lookup_insert_ne by done.
    apply H2; [done|]. by destruct (Hsame (log_ID l')) as [<- _].
Qed.

Lemma recs_ok_ext (count : ID -> nat) (coll coll' : ID -> bool) (recs : gmap ID asyncRec) : (forall id, is_Some (recs !! id) -> coll id = coll' id) ->
  recs_ok count coll recs -> recs_ok count coll' recs.
Proof. intros Hc [H1 H2]. split; [|done]. intros id c Hid. rewrite <-(Hc id) by eauto. by apply H1. Qed.

(** The results of the records that [range] has been at. *)
Definition collected (todo : gset ID) : list EvmLog := indexed <$> filter (fun l => found topics l = true /\ log_ID l ∉ todo) logs.
Definition seen (todo : gset ID) (id : ID) : bool := bool_decide (id ∉ todo).

Definition search_ok (s : search) : Prop :=
  match sr_point s with
  | Matching rest => sr_res s = [] /\ exists done, keys = done ++ rest /\ recs_ok (met done) (fun _ => false) (sr_recs s)
  | Collecting todo => todo ⊆ dom (sr_recs s) /\ recs_ok (met keys) (seen todo) (sr_recs s) /\ sr_res s ≡ₚ collected todo
  | Building id todo =>
      (id ∉ todo) /\ todo ⊆ dom (sr_recs s) /\ recs_ok (met keys) (seen todo) (sr_recs s) /\ sr_res s ≡ₚ collected ({[id]} ∪ todo) /\
      n <= Z.of_nat (met keys id) + w /\ (exists c, sr_recs s !! id = Some c /\ ar_worker c <> Ended)
  | Returned r =>
      (forall id c, sr_recs s !! id = Some c -> fetchable c) /\ exists a, r = inr a /\ a ≡ₚ indexed <$> filter (fun l => found topics l = true) logs
  end.

Lemma worker_step_ok s (id : ID) : search_ok s ->
  exists o, worker_step ix s id = Ret o /\ forall s', o = Some s' -> search_ok s'.
Proof.
  intros Hs. destruct (sr_recs s !! id) as [c|] eqn:Hid.
  2:{ exists None. unfold TopicsDb.worker_step. by rewrite Hid. }
  unfold search_ok in Hs. destruct (sr_point s) as [rest|todo|bid todo|r] eqn:Ept.
  - destruct Hs as (Hres & done & Hk & Hr). destruct (proj1 Hr id c Hid) as (l & Hl & <- & Hm & Hc).
    destruct (worker_ok s (log_ID l) c l _ _ ltac:(unfold stopped; by rewrite Ept) Hid Hl Hc) as (o & E & _ & Ho). exists o. split; [done|].
    intros s' Hs'. destruct (Ho s' Hs') as (c' & -> & Hc' & _). unfold search_ok. cbn [sr_point sr_recs sr_res]. rewrite Ept. split; [done|]. exists done. split; [done|].
    by apply recs_ok_insert with (met done) (fun _ => false).
  - destruct Hs as (Hdom & Hr & Hres). destruct (proj1 Hr id c Hid) as (l & Hl & <- & Hm & Hc).
    destruct (worker_ok s (log_ID l) c l _ _ ltac:(unfold stopped; by rewrite Ept) Hid Hl Hc) as (o & E & _ & Ho). exists o. split; [done|].
    intros s' Hs'. destruct (Ho s' Hs') as (c' & -> & Hc' & _). unfold search_ok. cbn [sr_point sr_recs sr_res]. rewrite Ept. split; [set_solver|]. split; [|done].
    by apply recs_ok_insert with (met keys) (seen todo).
  - destruct Hs as (Hnot & Hdom & Hr & Hres & Hle & cb & Hcb & Hopen). destruct (proj1 Hr id c Hid) as (l & Hl & <- & Hm & Hc).
    destruct (worker_ok s (log_ID l) c l _ _ ltac:(unfold stopped; by rewrite Ept) Hid Hl Hc) as (o & E & _ & Ho). exists o. split; [done|].
    intros s' Hs'. destruct (Ho s' Hs') as (c' & -> & Hc' & Hne). unfold search_ok. cbn [sr_point sr_recs sr_res]. rewrite Ept. split; [done|]. split; [set_solver|].
    split; [by apply recs_ok_insert with (met keys) (seen todo)|]. split; [done|]. split; [done|].
    destruct (decide (bid = log_ID l)) as [->|Hb]; [exists c'; by rewrite lookup_insert_eq|exists cb; by rewrite lookup_insert_ne].
  - destruct Hs as [Hf Hr]. destruct (worker_fetchable s id c Hid (Hf id c Hid)) as (o & E & Ho). exists o. split; [done|].
    intros s' Hs'. destruct (Ho s' Hs') as (c' & -> & Hc'). unfold search_ok. cbn [sr_point sr_recs sr_res]. rewrite Ept. split; [|done].
    intros id' c1. rewrite lookup_insert_Some. intros [[<- <-]|[_ Hid']]; [done|by eapply Hf].
Qed.

Lemma recs_ok_fetchable (count : ID -> nat) (coll : ID -> bool) (recs : gmap ID asyncRec) (id : ID) c : recs_ok count coll recs -> recs !! id = Some c -> fetchable c.
Proof. intros [H1 _] Hid. destruct (H1 id c Hid) as (l & Hl & _ & _ & Hc). by eapply rec_ok_fetchable. Qed.

(** The next key. *)
Lemma match_step (done : list (bytes * slice)) (kv : bytes * slice) (recs : gmap ID asyncRec) : kv ∈ keys -> recs_ok (met done) (fun _ => false) recs ->
  exists l c, l ∈ logs /\ rec_for recs StartFetch n kv = Ret (log_ID l, c) /\ rec_ok l (met done (log_ID l)) false c /\
    forall c', signalled c 1 = Some c' -> recs_ok (met (done ++ [kv])) (fun _ => false) (<[log_ID l := c']> recs).
Proof.
  intros Hkv Hr. destruct (proj1 (Forall_forall _ _) (search_keys_known ix logs topics Hix) kv Hkv) as (l & Hl & Hp).
  pose proof (proj1 (Forall_forall _ _) (ho_ok _ _ Hix) l Hl) as Hlo. exists l, (default (StartFetch (builder l (fresh_log l) n)) (recs !! log_ID l)).
  split; [done|]. split; [by apply rec_for_spec|].
  assert (rec_ok l (met done (log_ID l)) false (default (StartFetch (builder l (fresh_log l) n)) (recs !! log_ID l))) as Hc.
  { destruct (recs !! log_ID l) as [c|] eqn:E; cbn [default id].
    - destruct (proj1 Hr _ c E) as (l' & Hl' & Heq & _ & Hc). pose proof (log_unique logs l' l (ho_ids _ _ Hix) Hl' Hl Heq) as ->. done.
    - destruct (met done (log_ID l)) as [|k] eqn:Ek; [by apply rec_ok_fresh|]. destruct (proj2 Hr l Hl) as [c Hc]; [lia|]. congruence. }
  split; [done|]. intros c' Hc'. apply recs_ok_insert with (met done) (fun _ => false); [done|done| | |]; rewrite ?met_snoc, ?(known_key_id l kv Hlo Hp), ?decide_True by done.
  - lia.
  - by eapply rec_ok_match.
  - intros id Hid. rewrite met_snoc, (known_key_id l kv Hlo Hp), decide_False by done. split; [lia|done].
Qed.

Lemma collected_step (todo : gset ID) (id : ID) (l : EvmLog) : l ∈ logs -> log_ID l = id -> id ∉ todo -> found topics l = true ->
  collected todo ≡ₚ collected ({[id]} ∪ todo) ++ [indexed l].
Proof.
  intros Hl Hid Ht Hf. unfold collected. pose proof (ho_ids _ _ Hix) as Hids.
  rewrite (filter_partition (fun l => found topics l = true /\ log_ID l ∉ todo) (fun l => found topics l = true /\ log_ID l ∉ {[id]} ∪ todo) (fun l => log_ID l = id /\ found topics l = true)).
  2:{ intros x. rewrite not_elem_of_union, not_elem_of_singleton. destruct (decide (log_ID x = id)) as [->|]; tauto. }
  2:{ intros x. rewrite not_elem_of_union, not_elem_of_singleton. tauto. }
  rewrite fmap_app. apply Permutation_app_head. change [indexed l] with (indexed <$> [l]). apply Permutation_map, NoDup_Permutation.
  - apply NoDup_filter, (NoDup_fmap_1 log_ID), Hids.
  - apply NoDup_singleton.
  - intros x. rewrite list_elem_of_filter, list_elem_of_singleton. split; [|naive_solver]. intros ((Hx & _) & Hin). apply (log_unique logs); congruence.
Qed.

Lemma collected_skip (todo : gset ID) (id : ID) : (forall l, l ∈ logs -> log_ID l = id -> found topics l = false) -> collected todo = collected (todo ∖ {[id]}).
Proof.
  intros Hf. unfold collected. f_equal. apply filter_elem_iff. intros l Hl. rewrite not_elem_of_difference, elem_of_singleton.
  destruct (decide (log_ID l = id)) as [Heq|Hne]; [|tauto]. rewrite (Hf l Hl Heq). naive_solver.
Qed.

Lemma found_met (l : EvmLog) : l ∈ logs -> (0 < met keys (log_ID l))%nat -> found topics l = (n <=? Z.of_nat (met keys (log_ID l)) + w).
Proof. intros Hl. rewrite (met_hits ix logs) by done. unfold found. intros Hm. by replace (0 <? Z.of_nat (hits topics l)) with true by lia. Qed.

Lemma collected_all (recs : gmap ID asyncRec) : recs_ok (met keys) (fun _ => false) recs -> collected (dom recs) = [].
Proof.
  intros [_ H2]. unfold collected. rewrite (filter_elem_iff _ (fun _ => False)); [by rewrite filter_nothing by tauto|]. intros l Hl. split; [|done]. intros [Hf Hd]. apply Hd, elem_of_dom, H2; [done|].
  rewrite (met_hits ix logs) by done. unfold found in Hf. lia.
Qed.

Lemma collected_none : collected ∅ = indexed <$> filter (fun l => found topics l = true) logs.
Proof. unfold collected. f_equal. apply filter_elem_iff. intros l _. pose proof (not_elem_of_empty (C := gset ID) (log_ID l)). tauto. Qed.

Lemma seen_in (todo : gset ID) (id : ID) : id ∈ todo -> seen todo id = false.
Proof. intros Hid. unfold seen. by rewrite bool_decide_false by (intros Hn; by apply Hn). Qed.
Lemma seen_out (todo : gset ID) (id : ID) : id ∉ todo -> seen todo id = true.
Proof. intros Hid. unfold seen. by rewrite bool_decide_true. Qed.

(** [range] comes to a record. *)
Lemma collect_step (recs : gmap ID asyncRec) (todo : gset ID) (id : ID) : id ∈ todo -> todo ⊆ dom recs -> recs_ok (met keys) (seen todo) recs ->
  exists l c, l ∈ logs /\ log_ID l = id /\ recs !! id = Some c /\ rec_ok l (met keys id) false c /\
    forall c', signalled c w = Some c' ->
      recs_ok (met keys) (seen (todo ∖ {[id]})) (<[id := c']> recs) /\ IsMatched (ar_rec c') = found topics l /\ ar_worker c' <> Ended.
Proof.
  intros Hid Hdom Hr. destruct (proj1 (elem_of_dom recs id)) as [c Hc]; [by apply Hdom|]. destruct (proj1 Hr id c Hc) as (l & Hl & <- & Hm & Hok).
  rewrite seen_in in Hok by done. exists l, c. split_and!; try done. intros c' Hsig. destruct (rec_ok_collect _ _ _ _ Hok Hsig) as (Hok' & Hmatch & Hne).
  split; [|split; [by rewrite Hmatch, found_met|done]]. apply recs_ok_insert with (met keys) (seen todo); try done.
  - rewrite seen_out; [done|]. apply not_elem_of_difference. right. by apply elem_of_singleton.
  - intros id Hne'. split; [done|]. unfold seen. apply bool_decide_ext. rewrite not_elem_of_difference, elem_of_singleton. tauto.
Qed.

Lemma search_step_ok s (choice : ID) : search_ok s -> exists o, search_step n w s choice = Ret o /\ forall s', o = Some s' -> search_ok s'.
Proof.
  intros Hs. unfold search_ok in Hs. unfold search_step. destruct s as [recs pt res]. cbn [sr_point sr_recs sr_res] in *. destruct pt as [[|kv rest]|todo|id todo|r].
  - destruct Hs as (-> & done & Hk & Hr). rewrite app_nil_r in Hk. subst done. eexists. split; [done|]. intros s' [= <-]. unfold search_ok. cbn [sr_point sr_recs sr_res].
    split; [done|]. split; [|by rewrite collected_all]. eapply recs_ok_ext; [|done]. intros id Hid. symmetry. by apply seen_in, elem_of_dom.
  - destruct Hs as (-> & done & Hk & Hr). destruct (match_step done kv recs) as (l & c & Hl & -> & Hc & Hsig); [rewrite Hk; apply elem_of_app; right; by left|done|].
    cbn [mbind go_bind]. eexists. split; [done|]. intros s' Hs'. destruct (signalled c 1) as [c'|]; [|done]. injection Hs' as <-. unfold search_ok. cbn [sr_point sr_recs sr_res].
    split; [done|]. exists (done ++ [kv]). split; [by rewrite <-app_assoc|]. by apply Hsig.
  - destruct Hs as (Hdom & Hr & Hres). destruct (decide (todo = ∅)) as [->|Hne].
    + eexists. split; [done|]. intros s' [= <-]. unfold search_ok. cbn [sr_point sr_recs sr_res]. split; [intros id c Hc; by eapply recs_ok_fetchable|]. exists res. by rewrite <-collected_none.
    + destruct (decide (choice ∈ todo)) as [Hin|]; [|eexists; by split]. destruct (collect_step recs todo choice Hin Hdom Hr) as (l & c & Hl & Hid & -> & Hc & Hsig).
      eexists. split; [done|]. intros s' Hs'. destruct (signalled c w) as [c'|]; [|done]. injection Hs' as <-. destruct (Hsig c' eq_refl) as (Hr' & Hm & Ho).
      assert (todo ∖ {[choice]} ⊆ dom (<[choice := c']> recs)) as Hdom' by (rewrite dom_insert; intros x [Hx _]%elem_of_difference; apply elem_of_union; right; by apply Hdom).
      unfold search_ok. cbn [sr_point sr_recs sr_res]. rewrite Hm. destruct (found topics l) eqn:Ef.
      * split; [apply not_elem_of_difference; right; by apply elem_of_singleton|]. split; [done|]. split; [done|].
        rewrite <-union_difference_L by (by apply singleton_subseteq_l). split; [done|]. split; [|exists c'; by rewrite lookup_insert_eq].
        destruct (proj1 Hr' choice c') as (l' & Hl' & Hid' & Hk & _); [by rewrite lookup_insert_eq|]. assert (l' = l) as -> by (apply (log_unique logs); [apply Hix|done|done|congruence]).
        rewrite found_met in Ef; [|done|by rewrite Hid]. rewrite Hid in Ef. lia.
      * split; [done|]. split; [done|]. rewrite <-(collected_skip todo choice); [done|]. intros l' Hl' Heq. by rewrite (log_unique logs l' l (ho_ids _ _ Hix) Hl' Hl) by congruence.
  - destruct Hs as (Hnot & Hdom & Hr & Hres & Hle & c & Hc & Ho). rewrite Hc. destruct (proj1 Hr id c Hc) as (l & Hl & Hid & Hk & Hok). rewrite seen_out in Hok by done.
    unfold Build. destruct (ar_worker c) as [| | |err|] eqn:Ew; [eexists; by split..| |done]. rewrite (ro_err _ _ _ _ Hok err Ew). eexists. split; [done|]. intros s' [= <-].
    unfold search_ok. cbn [sr_point sr_recs sr_res]. split; [rewrite dom_insert; intros x Hx; apply elem_of_union; right; by apply Hdom|].
    destruct Hok as [H1 H2 H3 H4]. rewrite Ew in H1. split.
    + rewrite <-Hid. apply recs_ok_insert with (met keys) (seen todo); rewrite ?Hid; try done. rewrite seen_out by done. split; cbn; [done| |done|done].
      rewrite <-H2. unfold sent. cbn. by rewrite Ew.
    + rewrite H1. cbn [builder lb_Log]. rewrite Hres. symmetry. apply collected_step; [done|done|done|]. rewrite found_met; [|done|by rewrite Hid]. rewrite Hid. lia.
  - eexists. by split.
Qed.

Lemma find_step_search s s' (choice : ID) : search_step n w s choice = Ret (Some s') -> find_step ix topics s s'.
Proof. intros Hs. destruct async_count as (_ & _ & Hn & Hw). unfold TopicsDb.find_step. rewrite Hn, Hw. by apply async_search with choice. Qed.

Lemma fetchAsync_ok : search_ok (fetchAsync ix topics).
Proof.
  unfold fetchAsync. destruct Htopics as [Hn _]. replace (zlen topics >? MaxCount) with false by lia. unfold search_ok. cbn [sr_point sr_recs sr_res]. split; [done|].
  exists []. split; [done|]. split; [by intros id c ?%lookup_empty_Some|]. intros l _ Hm. by apply Nat.lt_irrefl in Hm.
Qed.

Lemma find_step_ok s s' : search_ok s -> find_step ix topics s s' -> search_ok s'.
Proof.
  intros Hs Hst. destruct async_count as (_ & _ & Hn & Hw). unfold TopicsDb.find_step in Hst. rewrite Hn, Hw in Hst. destruct Hst as [choice Hst|id Hst].
  - destruct (search_step_ok s choice Hs) as (o & E & Ho). apply Ho. congruence.
  - destruct (worker_step_ok s id Hs) as (o & E & Ho). apply Ho. congruence.
Qed.

Lemma find_reachable s : rtc (find_step ix topics) (fetchAsync ix topics) s -> search_ok s.
Proof. intros Hr. pose proof fetchAsync_ok as Hs. induction Hr as [|s0 s1 s2 H1 _ IH]; [done|]. apply IH. by eapply find_step_ok. Qed.

Lemma find_never_crashes s : search_ok s -> ~ find_crashes ix topics s.
Proof.
  intros Hs (id & f & Hst). destruct async_count as (_ & _ & Hn & Hw). rewrite Hn, Hw in Hst. destruct Hst as [Hst|Hst].
  - destruct (search_step_ok s id Hs) as (o & E & _). congruence.
  - destruct (worker_step_ok s id Hs) as (o & E & _). congruence.
Qed.

(** A goroutine that has a signal can run; so does one that was sent one and is not done. *)
Lemma sent_runnable c : (ar_ok c = true -> (sent c <= 1)%nat) -> (1 <= sent c)%nat -> runnable c \/ (exists err, ar_worker c = Ready err) \/ ar_worker c = Ended.
Proof. unfold sent, runnable. destruct (ar_worker c), (ar_ok c); intros; eauto; lia. Qed.

Lemma run_worker s (id : ID) c (l : EvmLog) (k : nat) (coll : bool) : stopped s = false -> sr_recs s !! id = Some c -> l ∈ logs -> rec_ok l k coll c -> runnable c ->
  exists s', find_step ix topics s s'.
Proof.
  intros Hst Hid Hl Hc Hrun. destruct (worker_ok s id c l k coll Hst Hid Hl Hc) as (o & E & Ho & _). destruct (Ho Hrun) as [s' ->]. exists s'. by apply async_worker with id.
Qed.

(** As long as no log is met more often than there are conditions, somebody can take a step. *)
Lemma find_progress s : (forall l, l ∈ logs -> Z.of_nat (hits topics l) <= n) -> search_ok s ->
  stopped s = true \/ exists s', find_step ix topics s s'.
Proof.
  intros Hhits Hs. unfold search_ok in Hs. destruct s as [recs pt res]. cbn [sr_point sr_recs sr_res] in Hs. destruct pt as [[|kv rest]|todo|id todo|r]; [| | | |by left]; right.
  - eexists. by apply (find_step_search _ _ []).
  - destruct Hs as (_ & done & Hk & Hr). destruct (match_step done kv recs) as (l & c & Hl & E & Hc & _); [rewrite Hk; apply elem_of_app; right; by left|done|].
    assert (met keys (log_ID l) <= Z.to_nat n)%nat as Hle by (rewrite (met_hits ix logs) by done; specialize (Hhits l Hl); lia).
    destruct (signalled c 1) as [c'|] eqn:Es; [eexists; apply (find_step_search _ _ []); unfold search_step; cbn [sr_point sr_recs]; rewrite E; cbn [mbind go_bind]; by rewrite Es|].
    exfalso. assert (key_id kv = log_ID l) as Hkv.
    { destruct (proj1 (Forall_forall _ _) (search_keys_known ix logs topics Hix) kv) as (l' & Hl' & Hp); [rewrite Hk; apply elem_of_app; right; by left|].
      pose proof (proj1 (Forall_forall _ _) (ho_ok _ _ Hix) l' Hl') as Hlo. rewrite (rec_for_spec _ _ _ _ l' Hlo Hp) in E. assert (log_ID l' = log_ID l) as <- by congruence. by apply known_key_id. }
    assert (met done (log_ID l) + 1 <= met keys (log_ID l))%nat as Hlt by (rewrite Hk; change (done ++ kv :: rest) with (done ++ [kv] ++ rest); rewrite app_assoc, met_app, met_snoc; destruct (decide (key_id kv = log_ID l)); [lia|done]).
    unfold signalled in Es. destruct (MatchedWith (ar_rec c) 1) as [rec send]. destruct (ar_ok c) eqn:Eo; [|by rewrite andb_false_r in Es].
    pose proof (ro_sent _ _ _ _ Hc) as Hsent. unfold sent in Hsent. rewrite Eo in Hsent. unfold due in Hsent. cbn [andb] in Hsent. lia.
  - destruct Hs as (Hdom & Hr & _). destruct (decide (todo = ∅)) as [->|Hne]; [eexists; apply (find_step_search _ _ []); unfold search_step; cbn [sr_point]; by rewrite decide_True|].
    apply set_choose_L in Hne as [id Hid]. destruct (collect_step recs todo id Hid Hdom Hr) as (l & c & Hl & Heq & Hc & Hok & _).
    destruct (signalled c w) as [c'|] eqn:Es.
    { eexists. apply (find_step_search _ _ id). unfold search_step. cbn [sr_point sr_recs]. rewrite decide_False by (intros ->; by apply not_elem_of_empty in Hid). rewrite decide_True by done. rewrite Hc. cbn. by rewrite Es. }
    apply (run_worker (mkSearch recs (Collecting todo) res) id c l (met keys id) false); try done.
    unfold signalled in Es. destruct (MatchedWith (ar_rec c) w) as [rec send]. destruct (ar_ok c) eqn:Eo; [|by rewrite andb_false_r in Es].
    pose proof (ro_sent _ _ _ _ Hok) as Hsent. unfold sent in Hsent. rewrite Eo in Hsent. unfold due in Hsent. cbn [andb] in Hsent.
    rewrite <-Heq, (met_hits ix logs) in Hsent by done. specialize (Hhits l Hl). unfold runnable. rewrite Eo. destruct (ar_worker c); try done; lia.
  - destruct Hs as (Hnot & Hdom & Hr & Hres & Hle & c & Hc & Ho). destruct (proj1 Hr id c Hc) as (l & Hl & Hid & Hk & Hok). rewrite seen_out in Hok by done.
    destruct (ar_worker c) as [| | |err|] eqn:Ew; [| | | |done].
    1-3: apply (run_worker (mkSearch recs (Building id todo) res) id c l (met keys id) true); try done; unfold runnable; rewrite Ew; try done.
    + pose proof (ro_sent _ _ _ _ Hok) as Hsent. unfold sent, due in Hsent. rewrite Ew, (proj2 (Z.leb_le _ _) Hle) in Hsent. cbn [andb] in Hsent. destruct (ar_ok c); [done|lia].
    + eexists. apply (find_step_search _ _ []). unfold search_step. cbn [sr_point sr_recs]. rewrite Hc. unfold Build. by rewrite Ew, (ro_err _ _ _ _ Hok err Ew).
Qed.

(** A log that is met more often has three signals to come, and the channel and the goroutine
    take two. *)
Lemma stuck_todo (l : EvmLog) (recs : gmap ID asyncRec) (todo : gset ID) : l ∈ logs -> n < Z.of_nat (hits topics l) ->
  recs_ok (met keys) (seen todo) recs -> log_ID l ∈ todo.
Proof.
  intros Hl Hhits Hrs. destruct (decide (log_ID l ∈ todo)) as [|Hn]; [done|]. exfalso.
  assert (met keys (log_ID l) = hits topics l) as Hm by (by apply (met_hits ix logs)). destruct async_count as (Hn1 & Hw & _).
  destruct (proj2 Hrs l Hl) as [c Hc]; [lia|].
  destruct (proj1 Hrs _ c Hc) as (l' & _ & _ & _ & Hok). rewrite seen_out in Hok by done. pose proof (ro_sent _ _ _ _ Hok) as Hsent. pose proof (sent_le c).
  unfold due in Hsent. rewrite (proj2 (Z.leb_le n _)) in Hsent by lia. cbn [andb] in Hsent. lia.
Qed.

Lemma worker_point s s' (id : ID) : worker_step ix s id = Ret (Some s') -> sr_point s' = sr_point s.
Proof.
  unfold TopicsDb.worker_step. intros Hst. destruct (sr_recs s !! id) as [c|]; [|done]. destruct (ar_worker c); try done.
  - destruct (stopped s); [done|]. by injection Hst as <-.
  - destruct (ar_ok c); [by injection Hst as <-|]. destruct (stopped s); [by injection Hst as <-|done].
  - go_inv Hst. destruct x. by injection Hst as <-.
Qed.

Lemma stuck_search (l : EvmLog) s s' (choice : ID) : l ∈ logs -> n < Z.of_nat (hits topics l) -> search_ok s -> stopped s = false ->
  search_step n w s choice = Ret (Some s') -> stopped s' = false.
Proof.
  intros Hl Hhits Hok Hs Hst. destruct s as [recs pt res]. unfold search_ok in Hok. unfold search_step in Hst. cbn [sr_point sr_recs sr_res] in *. destruct pt as [[|kv rest]|todo|id todo|r]; [..|done].
  - by injection Hst as <-.
  - go_inv Hst. destruct x as [id c]. injection Hst as Hst. destruct (signalled c 1); [|done]. by injection Hst as <-.
  - destruct Hok as (_ & Hrs & _). pose proof (stuck_todo l recs todo Hl Hhits Hrs) as Hin. rewrite decide_False in Hst by (intros ->; by apply not_elem_of_empty in Hin).
    destruct (decide _); [|done]. destruct (recs !! choice) as [c|]; [|done]. injection Hst as Hst. destruct (signalled _ _) as [c'|]; [|done]. injection Hst as <-. unfold stopped. cbn. by destruct (IsMatched _).
  - destruct Hok as (Hnot & _ & Hrs & _ & _ & c & Hc & _). rewrite Hc in Hst. destruct (proj1 Hrs id c Hc) as (l' & _ & _ & _ & Hok).
    unfold Build in Hst. destruct (ar_worker c) as [| | |err|] eqn:Ew; try done; [rewrite (ro_err _ _ _ _ Hok err Ew) in Hst|]; by injection Hst as <-.
Qed.

Lemma find_stuck s (l : EvmLog) : l ∈ logs -> n < Z.of_nat (hits topics l) -> rtc (find_step ix topics) (fetchAsync ix topics) s -> stopped s = false.
Proof.
  intros Hl Hhits Hr. assert (stopped (fetchAsync ix topics) = false) as Hst0.
  { unfold fetchAsync, stopped. destruct Htopics as [Hn _]. by replace (zlen topics >? MaxCount) with false by lia. }
  pose proof fetchAsync_ok as Hok. induction Hr as [|s0 s1 s2 H1 _ IH]; [done|]. apply IH; [|by eapply find_step_ok].
  destruct async_count as (_ & _ & Hn & Hw). unfold TopicsDb.find_step in H1. rewrite Hn, Hw in H1. destruct H1 as [choice Hst|id Hst]; [by eapply stuck_search|].
  unfold stopped in *. by rewrite (worker_point _ _ _ Hst).
Qed.

End async.
(** ** The filters *)

Definition in_range (fromBlock toBlock : option Z) (n : Z) : bool :=
  negb (match fromBlock with Some m => (0 <=? m) && (m >? n) | None => false end) &&
  negb (match toBlock with Some m => (0 <=? m) && (m <? n) | None => false end).

(** The criteria of a filter. *)
Definition passes (fromBlock toBlock : option Z) (addresses : list bytes) (topics : list (list hash)) (l : EvmLog) : bool :=
  in_range fromBlock toBlock (ev_BlockNumber l) && (negb (0 <? zlen addresses) || includes addresses (ev_Address l)) &&
  (zlen topics <=? zlen (ev_Topics l)) && log_matches topics l.

Lemma topics_match_spec (l : EvmLog) (pcs : list (Z * list hash)) : (forall pc, pc ∈ pcs -> 0 <= pc.1 < zlen (ev_Topics l)) ->
  topics_match l pcs = Ret (forallb (cond_matches l) pcs).
Proof.
  induction pcs as [|[pos cond] pcs IH]; intros Hp; [done|]. cbn [topics_match forallb]. specialize (IH ltac:(intros; apply Hp; by right)).
  destruct (slice_get_is_Some (ev_Topics l) pos) as [t Ht]; [apply (Hp (pos, cond)); by left|].
  unfold slice_at. rewrite Ht. unfold cond_matches at 1. cbn [fst snd]. rewrite Ht. destruct cond as [|c cond]; [done|]. cbn [mbind go_bind].
  destruct (existsb _ _); [done|by cbn].
Qed.

Lemma log_passes_spec (fromBlock toBlock : option Z) (addresses : list bytes) (topics : list (list hash)) (l : EvmLog) :
  log_passes fromBlock toBlock addresses topics l = Ret (passes fromBlock toBlock addresses topics l).
Proof.
  unfold log_passes, passes, in_range. destruct (match fromBlock with Some _ => _ | None => _ end); [done|]. destruct (match toBlock with Some _ => _ | None => _ end); [done|].
  cbn [negb andb]. destruct (0 <? zlen addresses); cbn [negb orb andb]; [destruct (includes _ _); cbn [negb andb]; [|done]|];
    (destruct (zlen topics >? zlen (ev_Topics l)) eqn:E; [by replace (zlen topics <=? zlen (ev_Topics l)) with false by lia|]);
    replace (zlen topics <=? zlen (ev_Topics l)) with true by lia; (rewrite topics_match_spec; [done|]);
    intros [pos cond] Hp%elem_of_positions%slice_get_lt; cbn; lia.
Qed.

Lemma filterLogs_spec (logs : list EvmLog) (fromBlock toBlock : option Z) (addresses : list bytes) (topics : list (list hash)) :
  filterLogs logs fromBlock toBlock addresses topics = Ret (filter (fun l => passes fromBlock toBlock addresses topics l = true) logs).
Proof.
  unfold filterLogs. set (step := fun (ret : list EvmLog) (log : EvmLog) => _).
  enough (forall acc, go_fold step acc logs = Ret (acc ++ filter (fun l => passes fromBlock toBlock addresses topics l = true) logs)) as Hg by apply Hg.
  induction logs as [|l logs IH]; intros acc; cbn [go_fold]; [by rewrite app_nil_r|].
  assert (step acc l = Ret (if passes fromBlock toBlock addresses topics l then acc ++ [l] else acc)) as -> by (unfold step; by rewrite log_passes_spec).
  cbn [mbind go_bind]. rewrite IH, filter_cons. destruct (passes _ _ _ _ l); [rewrite decide_True by done; by rewrite <-app_assoc|by rewrite decide_False].
Qed.

(** The filtered index, whatever is found beyond the logs that match. *)
Lemma indexed_passes (fromBlock toBlock : option Z) (addresses : list bytes) (topics : list (list hash)) (logs : list EvmLog) : isEmpty topics = false ->
  filter (fun l => passes fromBlock toBlock addresses topics l = true) (indexed <$> filter (fun l => found topics l = true) logs) =
  indexed <$> filter (fun l => passes fromBlock toBlock addresses topics l = true) logs.
Proof.
  intros He. rewrite filter_of_fmap. f_equal. rewrite list_filter_filter. apply filter_elem_iff. intros l _.
  change (passes fromBlock toBlock addresses topics (indexed l)) with (passes fromBlock toBlock addresses topics l). split; [tauto|].
  intros Hp. split; [done|]. apply matches_found; [done|]. unfold passes in Hp. by apply andb_true_iff in Hp as [_ ?].
Qed.

Section scan.
Context {E : Type} `{Backend E}.
Implicit Types f : Filter.

(** What a scan relies on: a block has a header, and the logs of its transactions. *)
Definition block_logs (logs : list EvmLog) (n : Z) : Prop :=
  exists h lls, HeaderByNumber n = (Some h, None) /\ GetLogs (fh_Hash h) = (lls, None) /\ mjoin lls ≡ₚ filter (fun l => ev_BlockNumber l = n) logs.

Lemma blockLogs_spec f (h : FilterHeader) (lls : list (list EvmLog)) : GetLogs (fh_Hash h) = (lls, None) ->
  Forall (fun l => ev_TxHash l <> ZeroHash) (mjoin lls) ->
  blockLogs f h = Ret (filter (fun l => passes None None (fl_addresses f) (fl_topics f) l = true) (mjoin lls), None).
Proof.
  intros Hg Hz. unfold blockLogs, checkMatches. rewrite Hg. rewrite filterLogs_spec. cbn [mbind go_bind].
  destruct (filter _ (mjoin lls)) as [|l rest] eqn:Ef; [done|]. assert (l ∈ l :: rest) as Hl by (by left). rewrite <-Ef in Hl.
  apply list_elem_of_filter in Hl as [_ Hl]. rewrite Forall_forall in Hz. rewrite bool_decide_false by (by apply Hz). done.
Qed.

Lemma unindexed_loop_spec (logs : list EvmLog) (fuel : nat) (end_ : Z) (acc : list EvmLog) f :
  Forall (fun l => ev_TxHash l <> ZeroHash) logs -> 0 <= fl_begin f -> end_ < MaxInt64 -> end_ - fl_begin f + 1 <= Z.of_nat fuel ->
  (forall n, fl_begin f <= n <= end_ -> block_logs logs n) ->
  exists r f', unindexed_loop fuel end_ acc f = Ret (r, None, f') /\
    r ≡ₚ acc ++ filter (fun l => fl_begin f <= ev_BlockNumber l <= end_ /\ passes None None (fl_addresses f) (fl_topics f) l = true) logs.
Proof.
  intros Hz. revert acc f. induction fuel as [|fuel IH]; intros acc f Hb He Hf Hbl; cbn [unindexed_loop]; destruct (fl_begin f <=? end_) eqn:Ele.
  1: lia. 1,3: exists acc, f; split; [done|]; rewrite filter_nothing by (intros; lia); by rewrite app_nil_r.
  destruct (Hbl (fl_begin f)) as (h & lls & -> & Hg & Hp); [lia|].
  rewrite (blockLogs_spec f h lls Hg) by (rewrite Hp; apply Forall_forall; intros l [_ Hl]%list_elem_of_filter; by apply (proj1 (Forall_forall _ _) Hz)). cbn [mbind go_bind].
  rewrite i64_id by (unfold MaxInt64 in *; word). edestruct (IH (acc ++ filter (fun l => passes None None (fl_addresses f) (fl_topics f) l = true) (mjoin lls)) (at_block f (fl_begin f + 1)))
    as (r & f' & -> & Hr); cbn [fl_begin at_block] in *; [lia|done|lia|intros; apply Hbl; lia|].
  exists r, f'. split; [done|]. rewrite Hr, <-app_assoc. apply Permutation_app_head. rewrite Hp, list_filter_filter. cbn [fl_addresses fl_topics at_block].
  symmetry. apply filter_partition; intros l; [|intros [??] [??]; lia].
  destruct (passes _ _ _ _ l); [lia|naive_solver].
Qed.

(** The index behind the filter runs one of its two searches and returns what that returns: the search one after the other, or
    some run of the goroutines to the end, which is asked for without repeated alternatives only.  That a run to the end has
    returned is not assumed. *)
Definition answer_of (wrap : topics_error -> E) (r : topics_error + list EvmLog) : E + list EvmLog := match r with inl e => inl (wrap e) | inr l => inr l end.
Definition find_runs ix (wrap : topics_error -> E) (topics : list (list hash)) : Prop :=
  Find topics = (r ← fetchSync ix topics; Ret (answer_of wrap r)) \/
  Forall NoDup topics /\ exists s, rtc (find_step ix topics) (fetchAsync ix topics) s /\ nf (find_step ix topics) s /\
    forall r, sr_point s = Returned r -> Find topics = Ret (answer_of wrap r).

Lemma find_runs_found ix (wrap : topics_error -> E) (logs : list EvmLog) (topics : list (list hash)) : holds ix logs -> conds_ok topics -> isEmpty topics = false ->
  find_runs ix wrap topics -> exists a, Find topics = Ret (inr a) /\ a ≡ₚ indexed <$> filter (fun l => found topics l = true) logs.
Proof.
  intros Hh Hc He [HF|(Hn & s & Hr & Hend & HF)].
  - destruct (fetchSync_spec ix logs topics Hh Hc) as (a & Ha & Hp). exists a. by rewrite HF, Ha.
  - apply (find_reachable ix logs topics Hh Hc He) in Hr.
    destruct (find_progress ix logs topics Hh Hc He s) as [Hst|Hstep]; [intros l _; by apply hits_bound|done| |by destruct Hend].
    unfold search_ok in Hr. unfold stopped in Hst. destruct (sr_point s) as [| | |r] eqn:Hp; [done..|].
    destruct Hr as (_ & a & -> & Ha). exists a. split; [|done]. by apply (HF (inr a)).
Qed.

(** C27: A filter that asks the index finds what a scan of the blocks finds, up
    to the two fields that the index does not keep.  With the search one after the other this holds for every filter,
    even where alternatives are repeated, since the criteria remove what was
    found beyond the logs that match; with the search of the goroutines it holds for every run to the end when no
    alternative is repeated.  In both cases the search does return. *)
Theorem index_equals_scan ix (wrap : topics_error -> E) (logs : list EvmLog) f (head : FilterHeader) :
  holds ix logs -> Forall (fun l => ev_TxHash l <> ZeroHash) logs -> conds_ok (fl_topics f) -> isEmpty (fl_topics f) = false ->
  fl_block f = ZeroHash -> 0 <= fl_begin f -> 0 <= fl_end f < MaxInt64 -> (HeaderByNumber LatestBlockNumber).1 = Some head ->
  find_runs ix wrap (fl_topics f) ->
  (forall n, fl_begin f <= n <= fl_end f -> block_logs logs n) ->
  exists r s f', Logs f = Ret (r, None, f) /\ unindexedLogs f (fl_end f) = Ret (s, None, f') /\ r ≡ₚ indexed <$> s.
Proof.
  intros Hh Hz Hc He Hblock Hb Hend Hhead HF Hbl. destruct (find_runs_found ix wrap logs _ Hh Hc He HF) as (a & Hfind & Ha).
  destruct (unindexed_loop_spec logs (Z.to_nat (fl_end f - fl_begin f + 1)) (fl_end f) [] f Hz Hb) as (s & f' & Es & Hs); [lia|lia|done|].
  eexists _, s, f'. split_and!; [|done|].
  - unfold Logs. rewrite bool_decide_true by done. cbn [negb]. rewrite Hhead. replace (fl_begin f =? -1) with false by lia. replace (fl_end f =? -1) with false by lia. cbv zeta. rewrite He.
    unfold indexedLogs. rewrite Hfind. cbn [mbind go_bind]. rewrite filterLogs_spec. done.
  - rewrite Ha, indexed_passes, Hs by done. cbn [app]. apply Permutation_map.
    rewrite (filter_elem_iff (fun l => passes _ _ _ _ l = true) (fun l => fl_begin f <= ev_BlockNumber l <= fl_end f /\ passes None None (fl_addresses f) (fl_topics f) l = true)); [done|].
    intros l _. unfold passes, in_range. rewrite u64_id, i64_id by (unfold MaxInt64 in *; word). cbn [negb andb].
    set (rest := (_ || _)). set (m := log_matches _ _). set (len := zlen _ <=? zlen _). destruct rest, m, len; lia.
Qed.

End scan.

(** C28: Without a repeated alternative, and with some condition, a search with goroutines ends whatever the
    order of its steps, never stops the process, and finds what the search one
    after the other finds: the logs that match, each once. *)
Theorem async_find_ends ix (logs : list EvmLog) (topics : list (list hash)) :
  holds ix logs -> conds_ok topics -> isEmpty topics = false -> Forall NoDup topics ->
  sn (find_step ix topics) (fetchAsync ix topics) /\
  exists rs, fetchSync ix topics = Ret (inr rs) /\ rs ≡ₚ indexed <$> filter (fun l => log_matches topics l = true) logs /\
    forall s, rtc (find_step ix topics) (fetchAsync ix topics) s ->
      ~ find_crashes ix topics s /\ (stopped s = true \/ exists s', find_step ix topics s s') /\
      (forall r, sr_point s = Returned r -> exists a, r = inr a /\ a ≡ₚ rs).
Proof.
  intros Hh Hc He Hn. split; [apply find_step_sn|]. destruct (fetchSync_spec ix logs topics Hh Hc) as (rs & Hrs & Hp). exists rs. split; [done|]. split.
  - rewrite Hp. erewrite (filter_elem_iff (A := EvmLog)); [done|]. intros l _. cbn beta. by rewrite found_matches.
  - intros s Hr. pose proof (find_reachable ix logs topics Hh Hc He s Hr) as Hok. split; [by apply (find_never_crashes ix logs)|]. split.
    + apply (find_progress ix logs); try done. intros l _. by apply hits_bound.
    + intros r Hret. unfold search_ok in Hok. rewrite Hret in Hok. destruct Hok as (_ & a & -> & Ha). exists a. by rewrite Hp.
Qed.

(** C29: A topic that is repeated among the alternatives hangs the search.  When
    more alternatives match one log than there are conditions, no run returns,
    although none goes on forever: the search waits to signal a goroutine that
    waits to hand its result to the search. *)
Theorem repeated_topic_hangs ix (logs : list EvmLog) (topics : list (list hash)) (l : EvmLog) :
  holds ix logs -> conds_ok topics -> isEmpty topics = false -> l ∈ logs -> zlen topics < Z.of_nat (hits topics l) ->
  sn (find_step ix topics) (fetchAsync ix topics) /\ forall s, rtc (find_step ix topics) (fetchAsync ix topics) s -> stopped s = false.
Proof. intros Hh Hc He Hl Hhits. split; [apply find_step_sn|]. intros s. by apply (find_stuck ix logs topics Hh Hc He s l). Qed.

End find.

(** ** An example: two logs with a common topic *)

Definition ex_topic (i : Z) : hash := replicate 32 i.
Definition ex_log (block : Z) (topics : list Z) : EvmLog :=
  mkEvmLog (replicate 20 9) (ex_topic <$> topics) [1; 2; 3] block (ex_topic 77) 4 (ex_topic block) block false.
Definition ex_logs : list EvmLog := [ex_log 5 [1; 2]; ex_log 7 [1; 3]].
Definition ex_empty : Index Database := mkIndex memorydb_New memorydb_New memorydb_New.
Definition ex_ix : Index Database := match Push ex_empty ex_logs with Ret (ix, None) => ix | _ => ex_empty end.

Lemma ex_log_ok (block : Z) (topics : list Z) : is_u64 block -> zlen topics <= MaxCount -> log_ok (ex_log block topics).
Proof.
  intros Hb Hc. split; cbn -[replicate]; try done; rewrite ?length_replicate; try done.
  - apply Forall_fmap, Forall_forall. intros i _. unfold compose, ex_topic. by rewrite length_replicate.
  - unfold zlen in *. by rewrite length_fmap.
Qed.

Lemma empty_holds : holds ex_empty [].
Proof.
  split; [done|apply NoDup_nil_2| | |]; (eexists; split; [done|]); intros k v; rewrite lookup_empty; (split; [done|]); intros (l & Hl & _); by apply not_elem_of_nil in Hl.
Qed.

Lemma ex_holds : holds ex_ix ex_logs.
Proof.
  destruct (push_holds ex_empty [] ex_logs) as (ix & E & Hh); [apply empty_holds| | |unfold ex_ix; by rewrite E].
  - repeat constructor; by apply ex_log_ok.
  - apply (bool_decide_unpack _). by vm_compute.
Qed.

Definition ex_range (m : gmap ID logrecBuilder) : list (ID * logrecBuilder) := map_to_list m.

#[local] Instance ex_backend : Backend topics_error := {|
  HeaderByNumber n := (Some (mkFilterHeader n (be_encode 32 n)), None);
  HeaderByHash h := (None, None);
  GetReceiptsByHash h := ([], None);
  GetLogs h := ([filter (fun l => be_encode 32 (ev_BlockNumber l) = h) ex_logs], None);
  Find topics := fetchSync id id ex_range ex_ix topics;
  errUnknownBlock := ErrTooManyTopics
|}.

Definition ex_filter : Filter := NewRangeFilter 5 7 [] [[ex_topic 1]; [ex_topic 2; ex_topic 8]].

Lemma ex_block_logs (n : Z) : 5 <= n <= 7 -> block_logs ex_logs n.
Proof.
  intros Hn. eexists _, _. split; [done|]. split; [done|]. cbn [mjoin list_join fh_Hash]. rewrite app_nil_r.
  erewrite (filter_elem_iff (A := EvmLog)); [done|]. intros l Hl. cbn beta. split; [|by intros ->].
  apply be_encode_inj; [|lia]. apply elem_of_cons in Hl as [->|Hl%list_elem_of_singleton]; [cbn; lia|subst l; cbn; lia].
Qed.

Lemma index_equals_scan_witness : exists r s f', Logs ex_filter = Ret (r, None, ex_filter) /\ unindexedLogs ex_filter 7 = Ret (s, None, f') /\ r ≡ₚ indexed <$> s.
Proof.
  apply (index_equals_scan id id (fun _ _ => eq_refl) (fun _ _ => eq_refl) ex_range (fun _ => reflexivity _) ex_ix id ex_logs ex_filter (mkFilterHeader (-1) (be_encode 32 (-1)))).
  - apply ex_holds.
  - apply (bool_decide_unpack _). by vm_compute.
  - split; [by vm_compute|]. apply (bool_decide_unpack _). by vm_compute.
  - by vm_compute.
  - done.
  - done.
  - done.
  - done.
  - left. by vm_compute.
  - apply ex_block_logs.
Defined.

Lemma async_find_ends_witness :
  sn (find_step id id ex_ix (fl_topics ex_filter)) (fetchAsync ex_ix (fl_topics ex_filter)) /\
  exists rs, fetchSync id id ex_range ex_ix (fl_topics ex_filter) = Ret (inr rs) /\ rs ≡ₚ indexed <$> filter (fun l => log_matches (fl_topics ex_filter) l = true) ex_logs /\
    forall s, rtc (find_step id id ex_ix (fl_topics ex_filter)) (fetchAsync ex_ix (fl_topics ex_filter)) s ->
      ~ find_crashes id id ex_ix (fl_topics ex_filter) s /\ (stopped s = true \/ exists s', find_step id id ex_ix (fl_topics ex_filter) s s') /\
      (forall r, sr_point s = Returned r -> exists a, r = inr a /\ a ≡ₚ rs).
Proof.
  apply (async_find_ends id id (fun _ _ => eq_refl) (fun _ _ => eq_refl) ex_range (fun _ => reflexivity _) ex_ix ex_logs).
  - apply ex_holds.
  - split; [by vm_compute|]. apply (bool_decide_unpack _). by vm_compute.
  - by vm_compute.
  - apply (bool_decide_unpack _). by vm_compute.
Defined.

(** [[t, t]] over a log with [t]: the question hangs. *)
Lemma repeated_topic_hangs_witness :
  let topics := [[ex_topic 1; ex_topic 1]] in
  sn (find_step id id ex_ix topics) (fetchAsync ex_ix topics) /\ forall s, rtc (find_step id id ex_ix topics) (fetchAsync ex_ix topics) s -> stopped s = false.
Proof.
  apply (repeated_topic_hangs id id (fun _ _ => eq_refl) (fun _ _ => eq_refl) ex_range (fun _ => reflexivity _) ex_ix ex_logs _ (ex_log 5 [1; 2])).
  - apply ex_holds.
  - split; [by vm_compute|]. apply (bool_decide_unpack _). by vm_compute.
  - by vm_compute.
  - by left.
  - by vm_compute.
Defined.
